(* ===== verification/_CoqProject ===== *)
-Q . S2P
Prelude.v
Coding.v
Comparator.v
Crc32c.v
Bloom.v
Logging.v
Status.v
MemEnv.v
DbFormat.v
LogWriter.v
LogReader.v
Posix.v
WriteBatch.v
Random.v
Arena.v
Ring.v
Snapshot.v
HandleTable.v
Cache.v
SkipList.v
MemTable.v
Cursor.v
MemIter.v
Block.v
Merger.v
FilterBlock.v
Format.v
TableBuilder.v
TwoLevel.v
Table.v
TableLayout.v
TableCorrect.v
TableProps.v
BlockCacheLru.v
DbIter.v
VersionEdit.v
FileSearch.v
Version.v
Overlap.v
VersionBuilder.v
VersionSet.v
Compaction.v
VersionIter.v
Filename.v
CacheUse.v
TableCache.v
Manifest.v
Dump.v
DbState.v
DbFiles.v
DbRead.v
DbWrite.v
DbQueue.v
DbCommit.v
DbProgress.v
DbCompact.v
DbKeep.v
DbBackground.v
DbOpen.v
Repair.v
RnLeveldb.v
RnCorrect.v
