(* ===== verification/Prelude.v ===== *)
(** * Verification of react-native-leveldb

    react-native-leveldb gives JavaScript a key-value store: a binding of host functions,
    [src/cpp/react-native-leveldb.cpp], over the C++ database LevelDB, which the repository
    carries in [src/cpp/leveldb].  This library models the binding and the database as
    functions of Rocq, component by component, and proves what makes each correct.

    ** The program

    A write goes from [leveldbPut] to [DB::Write]: writers queue up, the first takes a group
    of batches, appends them as one record to the log and inserts them into the memtable,
    a skip list of internal keys (user key, sequence number, type).  A full memtable is
    made immutable, and the background thread writes it out as a sorted table file of level
    0; it merges files of one level into the next when a level has too much.  The files of
    each level make a version; changes are logged as version edits in the manifest, to which
    the file CURRENT points.  A read looks in the memtable, the immutable memtable and
    the files of the version, newest first, at a sequence number; an iterator merges all of
    them and shows the newest visible entry of each user key.  Opening recovers the
    version from the manifest and replays the logs newer than it.

    ** How the code is modelled

    Definitions keep the names of the source; a name that several classes share has the
    class in front ([TableBuilder_Add], [lru_Lookup]).  Bytes are lists of [byte]; a machine
    integer is a [Z] with its wrap-around written out ([u32], [u64], [int32]).  Code that reads
    memory it may not own, or loops, returns [res] ([Ok], [Undefined], [OutOfFuel]) or an
    option; errors the code reports are values of [Status].  State is passed explicitly: an
    object is a record; objects that are shared live in maps from addresses (skip list
    nodes, list links, cache entries, versions, memtables), so that aliasing and reference
    counts are those of the code.  [DbState.Prog] is the state monad of the database.
    An interface of the source is a class with its laws ([Comparator], [WritableFile],
    [SequentialFile], [RandomAccessFile], [Env], [Iterator], [FilterPolicy], [BlockCache],
    [TableFiles]); a client is proved against the laws, and an implementation is an instance
    of them.  Loops that are not structural have fuel: a theorem says how much is enough,
    or the fuel is computed from the data and a lemma says that it never runs out.

    ** The parts

    - Generic: this file (words, [res], tactics, hints), [Coding] (util/coding), [Comparator]
      (slice, util/comparator), [Crc32c], [Bloom] (util/bloom, util/hash), [Logging],
      [Status], [Random], [Arena], [Ring] (circular lists), [Snapshot] (db/snapshot.h).
    - The log: [LogWriter], [LogReader] (db/log_writer, db/log_reader); [WriteBatch] (db/write_batch).
    - The memtable: [DbFormat] (db/dbformat), [SkipList] (db/skiplist.h, with insertion cut
      into its steps of publication), [MemTable], [MemIter] (db/memtable).
    - Iterators: [Cursor] says what an iterator shows: it is a cursor in a sorted list.
      [Block], [TwoLevel], [Merger] and [DbIter] are proved to be such cursors over what they
      are given.
    - Tables: [Block], [FilterBlock], [Format], [TableBuilder], [Table] are the code
      (of table/); [TableLayout] describes a table file, [TableCorrect] proves that
      what is built has that layout and is read back, [TableProps] has the theorems.
    - The cache: [HandleTable], [Cache] (util/cache.cc), [BlockCacheLru] (it is a block cache),
      [CacheUse] (what its clients may rely on), [TableCache] (db/table_cache: the open
      tables, in such a cache).
    - Environments: [MemEnv] (helpers/memenv: files in memory, with their reference counts),
      [Posix] (util/env_posix.cc: files over system calls that may fail or do less than
      asked, the limits on open files, the queue of the background thread).
    - Versions: [VersionEdit], [FileSearch], [Version], [Overlap], [VersionBuilder],
      [VersionSet], [Compaction], [VersionIter] (db/version_edit, db/version_set); [Filename]
      (db/filename, the string-file helpers of util/env.cc), [Manifest] ([LogAndApply],
      [Recover]).
    - Tools: [Dump] (db/dumpfile.cc), [Repair] (db/repair.cc).
    - The database (db/db_impl.cc): [DbState] the state under the mutex, [DbFiles] obsolete
      files, [DbRead] reads and iterators, [DbWrite] writers as threads that take steps,
      [DbCompact] memtable and table compactions, [DbOpen] opening, recovery, closing;
      [DbQueue], [DbCommit], [DbProgress], [DbKeep], [DbBackground] prove things of them.
    - The binding: [RnLeveldb] is the code, [RnCorrect] its theorems.

    ** What is proved

    - Durability and recovery: [log_crash_prefix], [log_replay] and [manifest_recovery] say
      that what survives a crash of the log, the memtable and the manifest is a prefix that
      has everything whose bytes survive; [set_current_file_atomic] that CURRENT changes at
      once; [needed_files_survive] that only garbage is deleted.
    - Concurrency: [group_commit], [writers_progress], [readers_see_whole_groups] and
      [background_call_contract] are about all interleavings of writers, readers and the
      background thread, as runs of a step relation; [skiplist_readers_during_insert] is
      about readers between the steps of an insertion.
    - Reads: [db_get_newest], [table_get], [memtable_get], [batch_then_get],
      [db_iterator_shows_view], [merging_iterator_merges], with [version_iterator_complete],
      say that the newest visible entry is found; [compaction_keeps_reads] that compactions
      keep it.
    - Data formats: [table_roundtrip], [block_roundtrip], [version_edit_roundtrip],
      [write_batch_roundtrip], [file_names_parse], [internal_key_order]; printing a log,
      [dump_log_prints].
    - Choices: [compaction_inputs_closed], with [overlapping_inputs_closed],
      [picked_level_sound] and [base_level_exact]; [builder_applies_edits].
    - Caches and memory: [lru_cache_refines], [lru_cache_deletes_once], [table_cache_serves],
      [arena_allocations].
    - Environments: [memenv_refines], [posix_file_holds_appends], [background_work_runs].  The
      laws the database assumes of files and environments have instances: a pure map of
      names, and the files of [Posix].
    - Repair: [repair_recovers] (what a repair leaves can be opened), [scan_table_exact].
    - Filters and checksums: [filter_block_no_false_negative], [bloom_no_false_negative],
      [Extend_is_crc32c].
    - Termination: [log_reader_terminates], [block_iteration_ends].
    - The binding: [host_calls_safe], [host_throw_keeps_tables], [merge_overlays].

    ** Bounds and fuel

    Sizes that the code keeps in 32 or 64 bits are assumed to fit, in the hypotheses of the
    theorems that need it; lemmas named as findings show what happens when they do not.
    The fuel of the log reader is the size of the file, that of iterators over blocks and
    tables the number of entries or blocks, that of the background thread is any.  A repair
    has fuel for its logs and tables: [repair_recovers] is about a repair that ends, and
    [scan_table_exact] says how much fuel a scan needs.  File names seen by a repair leave
    room for the numbers it takes ([names_ok]).

    ** Not modelled

    The text of the info log; the statistics that are floating-point ([util/histogram],
    parts of [GetProperty]); memory orders of atomics other than the order of publication in
    the skip list; the lifetime of the bytes a slice points to and cleanup functions of
    iterators; the compression library (an interface).  Of the POSIX environment, the
    loggers, sleeping, the test directory, the start of threads and the singleton.  The
    Windows environment, which has the same contract and which the application, for iOS and
    Android, does not use; the C bindings, functions that forward to the C++ interface;
    JavaScript, registration of the host functions, tests and benchmarks.

    ** This file

    Notations of the development, machine words, [res], the tactics [zcase] and [zdiv], and
    lemmas on lists and integers that the components share. *)
From Stdlib Require Export Strings.String.
From Stdlib Require Export ZArith Lia List Strings.Byte NArith Bool.
From stdpp Require Export base list numbers option.
From stdpp Require Import countable.

#[global] Open Scope Z_scope.

(** ** Bytes and machine words *)

(** [char] and [uint8_t] buffers are lists of bytes. *)
Abbreviation bytes := (list byte).

Definition Z_of_byte (b : byte) : Z := Z.of_N (Byte.to_N b).

Definition byte_of_Z (z : Z) : byte :=
  match Byte.of_N (Z.to_N (z mod 256)) with
  | Some b => b
  | None => x00
  end.

(** Reduction of an unsigned value to [w] bits: the conversion C++ performs on
    assignment to a [uint8_t], [uint32_t], [uint64_t]. *)
Definition wrap (w z : Z) : Z := z mod 2 ^ w.
Abbreviation u8 := (wrap 8).
Abbreviation u16 := (wrap 16).
Abbreviation u32 := (wrap 32).
Abbreviation u64 := (wrap 64).

(** Conversion to a signed type of [w] bits (two's complement, as every supported
    compiler does it). *)
Definition swrap (w z : Z) : Z := (z + 2 ^ (w - 1)) mod 2 ^ w - 2 ^ (w - 1).
Abbreviation int32 := (swrap 32).
Abbreviation int64 := (swrap 64).

(** A value that fits in [w] bits. *)
Definition fits (w z : Z) : Prop := 0 <= z < 2 ^ w.

#[global] Instance fits_dec w z : Decision (fits w z).
Proof. unfold fits. apply _. Defined.

#[global] Instance byte_eq_dec : EqDecision byte := Byte.byte_eq_dec.

#[global] Instance byte_inhabited : Inhabited byte := populate x00.

(** C's [p[i]] on a buffer: the callers check the bound first. *)
Definition byte_at (l : bytes) (i : nat) : Z := Z_of_byte (nth i l x00).

#[export] Instance byte_countable : Countable byte.
Proof. apply (inj_countable Byte.to_N Byte.of_N). intros b. apply Byte.of_to_N. Defined.

(** The length of a buffer as a machine integer. *)
Definition size (l : bytes) : Z := Z.of_nat (length l).

(** String literals of the source, as bytes. *)
Definition str (s : String.string) : bytes := String.list_byte_of_string s.
Arguments str s%_string_scope.

(** ** Results of code that can go wrong *)

(** [Undefined] is a read outside an object or another undefined behaviour,
    [OutOfFuel] a loop cut short by the bound it was given; errors the code itself
    reports are values. *)
Inductive res (A : Type) := Ok (a : A) | Undefined | OutOfFuel.
Arguments Ok {A} _.
Arguments Undefined {A}.
Arguments OutOfFuel {A}.

Definition res_bind {A B} (m : res A) (k : A -> res B) : res B :=
  match m with Ok a => k a | Undefined => Undefined | OutOfFuel => OutOfFuel end.

Notation "'let?' x := m 'in' k" := (res_bind m (fun x => k))
  (at level 10, x binder, m at level 100, k at level 200).

(** A step on every element of an array, with its index. *)
Fixpoint res_imap {A B} (f : nat -> A -> res B) (i : nat) (l : list A) : res (list B) :=
  match l with
  | [] => Ok []
  | a :: l => res_bind (f i a) (fun b => res_bind (res_imap f (S i) l) (fun bs => Ok (b :: bs)))
  end.

(** The bytes of [data] at offsets [from] to [to], exclusive. *)
Definition slice (data : bytes) (from to : Z) : bytes :=
  take (Z.to_nat (to - from)) (drop (Z.to_nat from) data).

(** ** Automation *)

(** Linear arithmetic with the division and modulus equations. *)
Ltac zdiv := Z.to_euclidean_division_equations; lia.

(** Case analysis on the comparison a Boolean test makes. *)
Ltac zcase :=
  match goal with
  | |- context [Z.ltb ?a ?b] => destruct (Z.ltb_spec a b)
  | |- context [Z.leb ?a ?b] => destruct (Z.leb_spec a b)
  | |- context [Z.eqb ?a ?b] => destruct (Z.eqb_spec a b)
  | |- context [Z.gtb ?a ?b] => rewrite (Z.gtb_ltb a b)
  | |- context [Z.geb ?a ?b] => rewrite (Z.geb_leb a b)
  end.

(** *** Lemmas on bytes and words *)

Lemma Z_of_byte_range b : 0 <= Z_of_byte b < 256.
Proof.
  unfold Z_of_byte. pose proof (Byte.to_N_bounded b). lia.
Qed.

Lemma Z_of_byte_of_Z z : Z_of_byte (byte_of_Z z) = z mod 256.
Proof.
  unfold byte_of_Z, Z_of_byte.
  pose proof (Z.mod_pos_bound z 256 ltac:(lia)) as Hb.
  destruct (Byte.of_N (Z.to_N (z mod 256))) eqn:E.
  - apply Byte.to_of_N in E. rewrite E. lia.
  - apply Byte.of_N_None_iff in E. lia.
Qed.

Lemma byte_of_Z_of_byte b : byte_of_Z (Z_of_byte b) = b.
Proof. destruct b; vm_compute; reflexivity. Qed.

#[global] Instance Z_of_byte_inj : Inj (=) (=) Z_of_byte.
Proof.
  intros a b H. rewrite <- (byte_of_Z_of_byte a), <- (byte_of_Z_of_byte b).
  by rewrite H.
Qed.

Lemma byte_of_Z_mod z z' : z mod 256 = z' mod 256 -> byte_of_Z z = byte_of_Z z'.
Proof. unfold byte_of_Z. by intros ->. Qed.

Lemma byte_of_Z_add b q : byte_of_Z (Z_of_byte b + 256 * q) = b.
Proof.
  rewrite <- (byte_of_Z_of_byte b) at 2. apply byte_of_Z_mod.
  rewrite Z.mul_comm. apply Z.mod_add. lia.
Qed.

Lemma byte_of_Z_small z : 0 <= z < 256 -> Z_of_byte (byte_of_Z z) = z.
Proof. intros. rewrite Z_of_byte_of_Z. apply Z.mod_small. lia. Qed.

Lemma wrap_range w z : 0 <= w -> 0 <= wrap w z < 2 ^ w.
Proof. intros. unfold wrap. apply Z.mod_pos_bound. lia. Qed.

Lemma wrap_fits w z : 0 <= w -> fits w (wrap w z).
Proof. apply wrap_range. Qed.

Lemma wrap_id w z : fits w z -> wrap w z = z.
Proof. intros [? ?]. unfold wrap. apply Z.mod_small. lia. Qed.

Lemma swrap_id w z : 0 < w -> - 2 ^ (w - 1) <= z < 2 ^ (w - 1) -> swrap w z = z.
Proof.
  intros Hw Hz. unfold swrap. assert (2 ^ w = 2 * 2 ^ (w - 1)).
  { rewrite <- Z.pow_succ_r by lia. f_equal. lia. }
  rewrite Z.mod_small by lia. lia.
Qed.

Lemma fits_weaken w w' z : w <= w' -> fits w z -> fits w' z.
Proof.
  unfold fits. intros Hw [H1 H2]. split; [done|].
  eapply Z.lt_le_trans; [done|]. apply Z.pow_le_mono_r; lia.
Qed.

Lemma lor_shift_add a b n :
  0 <= n -> 0 <= a < 2 ^ n -> Z.lor a (b ≪ n) = a + b * 2 ^ n.
Proof.
  intros Hn Ha. rewrite Z.shiftl_mul_pow2 by done.
  assert (Hl : Z.land a (b * 2 ^ n) = 0).
  { apply Z.bits_inj'. intros i Hi. rewrite Z.land_spec, Z.bits_0.
    destruct (decide (i < n)).
    - by rewrite Z.mul_pow2_bits_low, andb_false_r by lia.
    - by rewrite <- (Z.mod_small a (2 ^ n)), Z.mod_pow2_bits_high by lia. }
  by rewrite <- Z.lxor_lor, <- Z.add_nocarry_lxor.
Qed.

Lemma lor_mul_add a b n :
  0 <= n -> 0 <= a < 2 ^ n -> Z.lor a (b * 2 ^ n) = a + b * 2 ^ n.
Proof. intros. rewrite <- Z.shiftl_mul_pow2 at 1 by done. by apply lor_shift_add. Qed.

Lemma land_ones_mod z n : 0 <= n -> Z.land z (2 ^ n - 1) = z mod 2 ^ n.
Proof.
  intros. rewrite <- Z.land_ones by done. f_equal. rewrite Z.ones_equiv. lia.
Qed.

Lemma fits_bits w z :
  0 <= w -> 0 <= z -> (forall i, w <= i -> Z.testbit z i = false) -> fits w z.
Proof.
  intros Hw Hz Hb. replace z with (wrap w z); [by apply wrap_fits|].
  unfold wrap. apply Z.bits_inj'. intros i Hi.
  rewrite Z.testbit_mod_pow2 by done. zcase; [done|]. by rewrite Hb.
Qed.

Lemma fits_bit w z i : fits w z -> 0 <= w <= i -> Z.testbit z i = false.
Proof.
  intros [Hz1 Hz2] Hi. rewrite <- (Z.mod_small z (2 ^ w)) by done.
  apply Z.mod_pow2_bits_high. lia.
Qed.

Lemma fits_lxor w a b : 0 <= w -> fits w a -> fits w b -> fits w (Z.lxor a b).
Proof.
  intros Hw Ha Hb. apply fits_bits; [done| |].
  - apply Z.lxor_nonneg. unfold fits in *. lia.
  - intros i Hi. by rewrite Z.lxor_spec, (fits_bit w a), (fits_bit w b) by lia || done.
Qed.

Lemma fits_lor w a b : 0 <= w -> fits w a -> fits w b -> fits w (Z.lor a b).
Proof.
  intros Hw Ha Hb. apply fits_bits; [done| |].
  - apply Z.lor_nonneg. unfold fits in *. lia.
  - intros i Hi. by rewrite Z.lor_spec, (fits_bit w a), (fits_bit w b) by lia || done.
Qed.

(** Bit 7 of a byte is the continuation flag of a varint. *)
Lemma byte_land_128 b : (Z.land (Z_of_byte b) 128 =? 0) = (Z_of_byte b <? 128).
Proof. destruct b; reflexivity. Qed.

Lemma byte_land_127 b : Z.land (Z_of_byte b) 127 = Z_of_byte b mod 128.
Proof. destruct b; reflexivity. Qed.

Lemma byte_of_lor_128 v : Z_of_byte (byte_of_Z (Z.lor v 128)) = v mod 128 + 128.
Proof.
  rewrite Z_of_byte_of_Z. change 256 with (2 ^ 8).
  rewrite <- land_ones_mod by lia. rewrite Z.land_lor_distr_l, land_ones_mod by lia.
  change (Z.land 128 (2 ^ 8 - 1)) with 128. change (2 ^ 8) with 256.
  rewrite <- Z_of_byte_of_Z.
  replace (v mod 128) with (Z_of_byte (byte_of_Z v) mod 128).
  - destruct (byte_of_Z v); reflexivity.
  - rewrite Z_of_byte_of_Z. zdiv.
Qed.

Lemma byte_at_range l i : 0 <= byte_at l i < 256.
Proof. apply Z_of_byte_range. Qed.

Lemma size_nonneg l : 0 <= size l.
Proof. unfold size. lia. Qed.

Lemma size_nil : size [] = 0.
Proof. done. Qed.

Lemma size_cons b l : size (b :: l) = size l + 1.
Proof. unfold size. simpl. lia. Qed.

Lemma size_app l k : size (l ++ k) = size l + size k.
Proof. unfold size. rewrite length_app. lia. Qed.

Lemma take_size l : take (Z.to_nat (size l)) l = l.
Proof. unfold size. rewrite Nat2Z.id. apply firstn_all. Qed.

Lemma drop_size l : drop (Z.to_nat (size l)) l = [].
Proof. unfold size. rewrite Nat2Z.id. apply drop_all. Qed.

Lemma size_take n l : 0 <= n <= size l -> size (take (Z.to_nat n) l) = n.
Proof. unfold size. rewrite length_take. lia. Qed.

Lemma size_drop n l : 0 <= n <= size l -> size (drop (Z.to_nat n) l) = size l - n.
Proof. unfold size. rewrite length_drop. lia. Qed.

Lemma size_drop_nat n l : (n <= length l)%nat -> size (drop n l) = size l - Z.of_nat n.
Proof. unfold size. rewrite length_drop. lia. Qed.

Lemma size_take_nat n l : (n <= length l)%nat -> size (take n l) = Z.of_nat n.
Proof. unfold size. rewrite length_take. lia. Qed.

Lemma take_app_size l k : take (Z.to_nat (size l)) (l ++ k) = l.
Proof. unfold size. rewrite Nat2Z.id. apply take_app_length. Qed.

Lemma drop_app_size l k : drop (Z.to_nat (size l)) (l ++ k) = k.
Proof. unfold size. rewrite Nat2Z.id. apply drop_app_length. Qed.

Lemma size_replicate n x : 0 <= n -> size (replicate (Z.to_nat n) x) = n.
Proof. unfold size. rewrite length_replicate. lia. Qed.

Lemma size_0 l : size l = 0 -> l = [].
Proof. destruct l; [done|]. rewrite size_cons. pose proof (size_nonneg l). lia. Qed.

Lemma slice_app pre mid post from to :
  from = size pre -> to = size pre + size mid -> slice (pre ++ mid ++ post) from to = mid.
Proof.
  intros -> ->. unfold slice. rewrite drop_app_size.
  replace (size pre + size mid - size pre) with (size mid) by lia. apply take_app_size.
Qed.

Lemma size_slice data from to :
  0 <= from <= to -> to <= size data -> size (slice data from to) = to - from.
Proof.
  intros Hf Ht. unfold slice. apply size_take. rewrite size_drop by lia. lia.
Qed.

(** Every element can be stepped to one related to it. *)
Lemma res_imap_ok {A B} (f : nat -> A -> res B) (P : nat -> A -> Prop) (Q : nat -> B -> Prop) n l :
  (forall i a, l !! i = Some a -> P (n + i)%nat a) ->
  (forall i a, (i < n + length l)%nat -> P i a -> exists b, f i a = Ok b /\ Q i b) ->
  exists l', res_imap f n l = Ok l' /\ length l' = length l /\ forall i b, l' !! i = Some b -> Q (n + i)%nat b.
Proof.
  revert n. induction l as [|a l IH]; intros n HP HQ; [by exists []|].
  destruct (HQ n a) as (b & Eb & Hb); [simpl; lia|rewrite <- (Nat.add_0_r n); by apply HP|].
  destruct (IH (S n)) as (l' & El & Hlen & Hl).
  - intros i x Hx. rewrite Nat.add_succ_l, <- Nat.add_succ_r. by apply HP.
  - intros i x Hi Hx. apply HQ; [simpl; lia|done].
  - exists (b :: l'). simpl. rewrite Eb. simpl. rewrite El. split; [done|]. split; [by rewrite Hlen|].
    intros [|i] x Hx; [injection Hx as <-; by rewrite Nat.add_0_r|].
    rewrite Nat.add_succ_r, <- Nat.add_succ_l. by apply Hl.
Qed.

Create Rewrite HintDb size.
#[export] Hint Rewrite size_nil size_cons size_app : size.

(** Turns the little-endian assembly [a | b << 8 | ...] of range-bounded parts
    into a sum, innermost first. *)
Ltac lor_to_add :=
  repeat match goal with
  | |- context [Z.lor ?a (?b ≪ ?n)] =>
      lazymatch a with
      | context [Z.lor] => fail
      | _ => rewrite (lor_shift_add a b n) by lia
      end
  end.

(** Splits an equality of explicit lists into equalities of their elements. *)
Ltac cons_eq :=
  repeat match goal with
  | |- @cons _ _ _ = @cons _ _ _ => apply f_equal2
  | |- [] = [] => reflexivity
  end.
