(* ===== verification/Coding.v ===== *)
(** * Coding: endian-neutral integer and string encodings

    Models [cpp/leveldb/util/coding.h] and [cpp/leveldb/util/coding.cc].  A
    pointer pair [\[p, limit)] is the list of the bytes it spans; a routine that
    returns the pointer past what it parsed returns the remaining list, and
    [None] where the C++ returns [nullptr].  Values are [Z], reduced with
    [wrap] wherever the C++ type truncates. *)
From S2P Require Import Prelude.

(** ** Definitions *)

(** [EncodeFixed32] and [EncodeFixed64] return the bytes they store. *)
Definition EncodeFixed32 (value : Z) : bytes :=
  [byte_of_Z value; byte_of_Z (value ≫ 8); byte_of_Z (value ≫ 16);
   byte_of_Z (value ≫ 24)].

Definition EncodeFixed64 (value : Z) : bytes :=
  [byte_of_Z value; byte_of_Z (value ≫ 8); byte_of_Z (value ≫ 16);
   byte_of_Z (value ≫ 24); byte_of_Z (value ≫ 32); byte_of_Z (value ≫ 40);
   byte_of_Z (value ≫ 48); byte_of_Z (value ≫ 56)].

Definition DecodeFixed32 (ptr : bytes) : Z :=
  Z.lor (Z.lor (Z.lor (byte_at ptr 0) (byte_at ptr 1 ≪ 8))
    (byte_at ptr 2 ≪ 16)) (byte_at ptr 3 ≪ 24).

Definition DecodeFixed64 (ptr : bytes) : Z :=
  Z.lor (Z.lor (Z.lor (Z.lor (Z.lor (Z.lor (Z.lor
    (byte_at ptr 0) (byte_at ptr 1 ≪ 8)) (byte_at ptr 2 ≪ 16))
    (byte_at ptr 3 ≪ 24)) (byte_at ptr 4 ≪ 32)) (byte_at ptr 5 ≪ 40))
    (byte_at ptr 6 ≪ 48)) (byte_at ptr 7 ≪ 56).

Definition PutFixed32 (dst : bytes) (value : Z) : bytes :=
  dst ++ EncodeFixed32 value.

Definition PutFixed64 (dst : bytes) (value : Z) : bytes :=
  dst ++ EncodeFixed64 value.

Definition EncodeVarint32 (v : Z) : bytes :=
  let B := 128 in
  if v <? 1 ≪ 7 then [byte_of_Z v]
  else if v <? 1 ≪ 14 then [byte_of_Z (Z.lor v B); byte_of_Z (v ≫ 7)]
  else if v <? 1 ≪ 21 then
    [byte_of_Z (Z.lor v B); byte_of_Z (Z.lor (v ≫ 7) B); byte_of_Z (v ≫ 14)]
  else if v <? 1 ≪ 28 then
    [byte_of_Z (Z.lor v B); byte_of_Z (Z.lor (v ≫ 7) B);
     byte_of_Z (Z.lor (v ≫ 14) B); byte_of_Z (v ≫ 21)]
  else
    [byte_of_Z (Z.lor v B); byte_of_Z (Z.lor (v ≫ 7) B);
     byte_of_Z (Z.lor (v ≫ 14) B); byte_of_Z (Z.lor (v ≫ 21) B);
     byte_of_Z (v ≫ 28)].

Definition PutVarint32 (dst : bytes) (v : Z) : bytes := dst ++ EncodeVarint32 v.

(** The [while (v >= B)] loop.  A 64-bit value leaves it after at most nine
    iterations, see [EncodeVarint64_unfold]. *)
Fixpoint EncodeVarint64_loop (fuel : nat) (v : Z) : bytes :=
  match fuel with
  | O => [byte_of_Z v]
  | S fuel =>
      if v >=? 128 then byte_of_Z (Z.lor v 128) :: EncodeVarint64_loop fuel (v ≫ 7)
      else [byte_of_Z v]
  end.

Definition EncodeVarint64 (v : Z) : bytes := EncodeVarint64_loop 10 v.

Definition PutVarint64 (dst : bytes) (v : Z) : bytes := dst ++ EncodeVarint64 v.

Definition PutLengthPrefixedSlice (dst value : bytes) : bytes :=
  PutVarint32 dst (u32 (size value)) ++ value.

Fixpoint VarintLength_loop (fuel : nat) (v len : Z) : Z :=
  match fuel with
  | O => len
  | S fuel => if v >=? 128 then VarintLength_loop fuel (v ≫ 7) (len + 1) else len
  end.

Definition VarintLength (v : Z) : Z := VarintLength_loop 10 v 1.

(** The decoding loops of [GetVarint32PtrFallback] (32 bits, [shift <= 28]) and
    [GetVarint64Ptr] (64 bits, [shift <= 63]). *)
Fixpoint GetVarint_loop (w last_shift shift result : Z) (p : bytes)
    : option (Z * bytes) :=
  match p with
  | [] => None
  | c :: p =>
      if shift <=? last_shift then
        let byte := Z_of_byte c in
        if negb (Z.land byte 128 =? 0) then
          GetVarint_loop w last_shift (shift + 7)
            (Z.lor result (wrap w (Z.land byte 127 ≪ shift))) p
        else Some (Z.lor result (wrap w (byte ≪ shift)), p)
      else None
  end.

Definition GetVarint32PtrFallback (p : bytes) : option (Z * bytes) :=
  GetVarint_loop 32 28 0 0 p.

Definition GetVarint32Ptr (p : bytes) : option (Z * bytes) :=
  match p with
  | c :: p' =>
      let result := Z_of_byte c in
      if Z.land result 128 =? 0 then Some (result, p')
      else GetVarint32PtrFallback p
  | [] => GetVarint32PtrFallback p
  end.

Definition GetVarint64Ptr (p : bytes) : option (Z * bytes) :=
  GetVarint_loop 64 63 0 0 p.

(** [bool GetVarint32(Slice* input, uint32_t* value)]: [None] is [false], with
    both outputs left as they were. *)
Definition GetVarint32 (input : bytes) : option (Z * bytes) :=
  GetVarint32Ptr input.

Definition GetVarint64 (input : bytes) : option (Z * bytes) :=
  GetVarint64Ptr input.

(** The pointer form [GetLengthPrefixedSlice(p, limit, &result)]. *)
Definition GetLengthPrefixedSlicePtr (p : bytes) : option (bytes * bytes) :=
  match GetVarint32Ptr p with
  | None => None
  | Some (len, p) =>
      if len >? size p then None
      else Some (take (Z.to_nat len) p, drop (Z.to_nat len) p)
  end.

(** The [Slice*] form returns the new [*input] also when it fails: the length is
    consumed before the payload is found to be short. *)
Definition GetLengthPrefixedSlice (input : bytes) : bytes * option bytes :=
  match GetVarint32 input with
  | Some (len, input') =>
      if size input' >=? len then
        (drop (Z.to_nat len) input', Some (take (Z.to_nat len) input'))
      else (input', None)
  | None => (input, None)
  end.

(** ** Fixed-width integers *)

Lemma DecodeFixed32_eq ptr :
  DecodeFixed32 ptr = byte_at ptr 0 + byte_at ptr 1 * 2 ^ 8
    + byte_at ptr 2 * 2 ^ 16 + byte_at ptr 3 * 2 ^ 24.
Proof.
  unfold DecodeFixed32.
  pose proof (byte_at_range ptr 0). pose proof (byte_at_range ptr 1).
  pose proof (byte_at_range ptr 2). pose proof (byte_at_range ptr 3).
  lor_to_add. lia.
Qed.

Lemma DecodeFixed64_eq ptr :
  DecodeFixed64 ptr = DecodeFixed32 ptr + DecodeFixed32 (drop 4 ptr) * 2 ^ 32.
Proof.
  rewrite !DecodeFixed32_eq. unfold DecodeFixed64.
  assert (Hd : forall i, byte_at (drop 4 ptr) i = byte_at ptr (4 + i)).
  { intros i. unfold byte_at. by rewrite !nth_lookup, lookup_drop. }
  rewrite !Hd. simpl (_ + _)%nat.
  pose proof (byte_at_range ptr 0). pose proof (byte_at_range ptr 1).
  pose proof (byte_at_range ptr 2). pose proof (byte_at_range ptr 3).
  pose proof (byte_at_range ptr 4). pose proof (byte_at_range ptr 5).
  pose proof (byte_at_range ptr 6). pose proof (byte_at_range ptr 7).
  lor_to_add. lia.
Qed.

Lemma DecodeFixed32_fits ptr : fits 32 (DecodeFixed32 ptr).
Proof.
  rewrite DecodeFixed32_eq. unfold fits.
  pose proof (byte_at_range ptr 0). pose proof (byte_at_range ptr 1).
  pose proof (byte_at_range ptr 2). pose proof (byte_at_range ptr 3). lia.
Qed.

Lemma DecodeFixed64_fits ptr : fits 64 (DecodeFixed64 ptr).
Proof.
  rewrite DecodeFixed64_eq. unfold fits.
  pose proof (DecodeFixed32_fits ptr). pose proof (DecodeFixed32_fits (drop 4 ptr)).
  unfold fits in *. lia.
Qed.

Lemma DecodeFixed32_encode v rest :
  DecodeFixed32 (EncodeFixed32 v ++ rest) = u32 v.
Proof.
  rewrite DecodeFixed32_eq. unfold byte_at, wrap. simpl.
  rewrite !Z_of_byte_of_Z, !Z.shiftr_div_pow2 by lia. zdiv.
Qed.

Lemma DecodeFixed64_encode v rest :
  DecodeFixed64 (EncodeFixed64 v ++ rest) = u64 v.
Proof.
  rewrite DecodeFixed64_eq.
  change (DecodeFixed32 (EncodeFixed64 v ++ rest)) with
    (DecodeFixed32 (EncodeFixed32 v ++ [])).
  replace (DecodeFixed32 (drop 4 (EncodeFixed64 v ++ rest))) with
    (DecodeFixed32 (EncodeFixed32 (v ≫ 32) ++ [])).
  - rewrite !DecodeFixed32_encode. unfold wrap.
    rewrite Z.shiftr_div_pow2 by lia. zdiv.
  - unfold EncodeFixed32, EncodeFixed64, DecodeFixed32.
    rewrite !Z.shiftr_shiftr by lia. done.
Qed.

Lemma EncodeFixed32_mod v : EncodeFixed32 (u32 v) = EncodeFixed32 v.
Proof.
  unfold EncodeFixed32, wrap. rewrite !Z.shiftr_div_pow2 by lia.
  cons_eq; apply byte_of_Z_mod; zdiv.
Qed.

Lemma EncodeFixed64_split v : EncodeFixed64 v = EncodeFixed32 v ++ EncodeFixed32 (v ≫ 32).
Proof. unfold EncodeFixed64, EncodeFixed32. by rewrite !Z.shiftr_shiftr by lia. Qed.

Lemma EncodeFixed32_decode l : length l = 4%nat -> EncodeFixed32 (DecodeFixed32 l) = l.
Proof.
  destruct l as [|b0 [|b1 [|b2 [|b3 [|]]]]]; try done. intros _.
  rewrite DecodeFixed32_eq. unfold EncodeFixed32, byte_at. simpl nth.
  pose proof (Z_of_byte_range b0). pose proof (Z_of_byte_range b1).
  pose proof (Z_of_byte_range b2). pose proof (Z_of_byte_range b3).
  rewrite !Z.shiftr_div_pow2 by lia.
  set (v := _ + _ * 2 ^ 24). set (z1 := Z_of_byte b1) in *.
  set (z2 := Z_of_byte b2) in *. set (z3 := Z_of_byte b3) in *.
  replace (v / 2 ^ 8) with (Z_of_byte b1 + 256 * (z2 + 256 * z3)) by (unfold v, z1; zdiv).
  replace (v / 2 ^ 16) with (Z_of_byte b2 + 256 * z3) by (unfold v, z2; zdiv).
  replace (v / 2 ^ 24) with (Z_of_byte b3 + 256 * 0) by (unfold v, z3; zdiv).
  replace v with (Z_of_byte b0 + 256 * (z1 + 256 * (z2 + 256 * z3))) by (unfold v; lia).
  by rewrite !byte_of_Z_add.
Qed.

Lemma EncodeFixed64_decode l : length l = 8%nat -> EncodeFixed64 (DecodeFixed64 l) = l.
Proof.
  intros Hl. rewrite EncodeFixed64_split, DecodeFixed64_eq.
  pose proof (DecodeFixed32_fits l) as Hf. unfold fits in Hf.
  rewrite <- EncodeFixed32_mod.
  replace (u32 (DecodeFixed32 l + DecodeFixed32 (drop 4 l) * 2 ^ 32)) with
    (DecodeFixed32 l) by (unfold wrap; zdiv).
  replace ((DecodeFixed32 l + DecodeFixed32 (drop 4 l) * 2 ^ 32) ≫ 32) with
    (DecodeFixed32 (drop 4 l)) by (rewrite Z.shiftr_div_pow2 by lia; zdiv).
  rewrite (EncodeFixed32_decode (drop 4 l)) by (rewrite length_drop; lia).
  replace (DecodeFixed32 l) with (DecodeFixed32 (take 4 l)).
  - rewrite EncodeFixed32_decode by (rewrite length_take; lia). apply take_drop.
  - unfold DecodeFixed32, byte_at. rewrite !nth_lookup, !lookup_take_lt by lia. done.
Qed.

Lemma length_EncodeFixed32 v : length (EncodeFixed32 v) = 4%nat.
Proof. done. Qed.

Lemma length_EncodeFixed64 v : length (EncodeFixed64 v) = 8%nat.
Proof. done. Qed.

(** ** Variable-width integers *)

Lemma size_EncodeFixed64 v : size (EncodeFixed64 v) = 8.
Proof. unfold size. by rewrite length_EncodeFixed64. Qed.

Lemma size_EncodeFixed32 v : size (EncodeFixed32 v) = 4.
Proof. unfold size. by rewrite length_EncodeFixed32. Qed.

Lemma size_PutFixed32 dst v : size (PutFixed32 dst v) = size dst + 4.
Proof. unfold PutFixed32. by rewrite size_app, size_EncodeFixed32. Qed.

(** *** Arrays of fixed-width integers *)

Lemma foldl_PutFixed32 l dst : foldl PutFixed32 dst l = dst ++ concat (map EncodeFixed32 l).
Proof.
  revert dst. induction l as [|v l IH]; intros dst; cbn [foldl map concat]; [by rewrite app_nil_r|].
  rewrite IH. unfold PutFixed32. by rewrite app_assoc.
Qed.

Lemma size_fixed32_array l : size (concat (map EncodeFixed32 l)) = Z.of_nat (length l) * 4.
Proof.
  induction l as [|v l IH]; [done|]. cbn [map concat length]. rewrite size_app, size_EncodeFixed32, IH. lia.
Qed.

Lemma DecodeFixed32_array l i v rest :
  l !! i = Some v -> DecodeFixed32 (drop (i * 4) (concat (map EncodeFixed32 l) ++ rest)) = u32 v.
Proof.
  revert i. induction l as [|x l IH]; intros [|i] Hi; try done; cbn [map concat].
  - injection Hi as ->. rewrite <- app_assoc. apply DecodeFixed32_encode.
  - replace (S i * 4)%nat with (length (EncodeFixed32 x) + i * 4)%nat by (cbn; lia).
    rewrite <- app_assoc, drop_app_add. by apply IH.
Qed.

Lemma EncodeVarint64_loop_fuel n m v :
  0 <= v < 2 ^ (7 * (Z.of_nat n + 1)) -> (n <= m)%nat ->
  EncodeVarint64_loop m v = EncodeVarint64_loop n v.
Proof.
  revert m v. induction n as [|n IH]; intros m v Hv Hm.
  - destruct m; [done|]. simpl in *. rewrite Z.geb_leb. zcase; [lia|done].
  - destruct m; [lia|]. simpl. destruct (v >=? 128); [|done]. f_equal.
    apply IH; [|lia]. rewrite Z.shiftr_div_pow2 by lia.
    replace (7 * (Z.of_nat (S n) + 1)) with (7 * (Z.of_nat n + 1) + 7) in Hv by lia.
    rewrite Z.pow_add_r in Hv by lia. zdiv.
Qed.

Lemma EncodeVarint64_unfold v :
  fits 64 v ->
  EncodeVarint64 v =
    if v >=? 128 then byte_of_Z (Z.lor v 128) :: EncodeVarint64 (v ≫ 7)
    else [byte_of_Z v].
Proof.
  intros Hv. unfold EncodeVarint64.
  rewrite (EncodeVarint64_loop_fuel 9 10 (v ≫ 7)).
  - done.
  - rewrite Z.shiftr_div_pow2 by lia. unfold fits in Hv. simpl. zdiv.
  - lia.
Qed.

Lemma EncodeVarint64_more v :
  fits 64 v -> 128 <= v ->
  EncodeVarint64 v = byte_of_Z (Z.lor v 128) :: EncodeVarint64 (v ≫ 7).
Proof. intros. rewrite EncodeVarint64_unfold, Z.geb_leb by done. by zcase; [|lia]. Qed.

Lemma EncodeVarint64_last v : 0 <= v < 128 -> EncodeVarint64 v = [byte_of_Z v].
Proof.
  intros. rewrite EncodeVarint64_unfold, Z.geb_leb by (unfold fits; lia).
  by zcase; [lia|].
Qed.

Lemma EncodeVarint32_64 v : fits 32 v -> EncodeVarint32 v = EncodeVarint64 v.
Proof.
  unfold EncodeVarint32, fits. intros Hv. rewrite !Z.shiftl_1_l.
  assert (Hm : forall k, 0 <= k -> 128 <= v / 2 ^ k ->
    EncodeVarint64 (v ≫ k) = byte_of_Z (Z.lor (v ≫ k) 128) :: EncodeVarint64 (v ≫ (k + 7))).
  { intros k Hk Hle. rewrite <- Z.shiftr_shiftr by lia.
    apply EncodeVarint64_more; rewrite Z.shiftr_div_pow2 by lia; [|done].
    unfold fits. split; [apply Z.div_pos; lia|].
    apply Z.div_lt_upper_bound; [lia|]. nia. }
  assert (Hl : forall k, 0 <= k -> v / 2 ^ k < 128 ->
    EncodeVarint64 (v ≫ k) = [byte_of_Z (v ≫ k)]).
  { intros k Hk Hle. apply EncodeVarint64_last. rewrite Z.shiftr_div_pow2 by lia.
    split; [apply Z.div_pos; lia|done]. }
  change (EncodeVarint64 v) with (EncodeVarint64 (v ≫ 0)).
  repeat (zcase; [rewrite Hl by (lia || zdiv); done|rewrite Hm by (lia || zdiv)]).
  rewrite Hl by (lia || zdiv). done.
Qed.

Lemma length_EncodeVarint64_loop fuel v len :
  VarintLength_loop fuel v len
    = len - 1 + Z.of_nat (length (EncodeVarint64_loop fuel v)).
Proof.
  revert v len. induction fuel as [|fuel IH]; intros v len; simpl; [lia|].
  destruct (v >=? 128); [|simpl; lia]. rewrite IH. simpl. lia.
Qed.

Lemma length_EncodeVarint64 v : size (EncodeVarint64 v) = VarintLength v.
Proof. unfold VarintLength, size. rewrite length_EncodeVarint64_loop. unfold EncodeVarint64. lia. Qed.

Lemma EncodeVarint64_loop_bound fuel v :
  (1 <= length (EncodeVarint64_loop fuel v) <= S fuel)%nat.
Proof.
  revert v. induction fuel as [|fuel IH]; intros v; simpl; [lia|].
  destruct (v >=? 128); simpl; [|lia]. specialize (IH (v ≫ 7)). lia.
Qed.

Lemma EncodeVarint64_bound n v :
  0 <= v < 2 ^ (7 * (Z.of_nat n + 1)) -> (n <= 10)%nat ->
  1 <= size (EncodeVarint64 v) <= Z.of_nat n + 1.
Proof.
  intros. unfold EncodeVarint64, size.
  rewrite (EncodeVarint64_loop_fuel n) by (lia || done).
  pose proof (EncodeVarint64_loop_bound n v). lia.
Qed.

(** Decoding inverts encoding, from any intermediate state of the loop. *)
Lemma GetVarint_loop_encode w L fuel k v result rest :
  0 <= k <= L -> 0 < w -> w <= 7 * (L + 1) ->
  0 <= v < 2 ^ (7 * (Z.of_nat fuel + 1)) -> v * 2 ^ (7 * k) < 2 ^ w ->
  0 <= result < 2 ^ (7 * k) ->
  GetVarint_loop w (7 * L) (7 * k) result (EncodeVarint64_loop fuel v ++ rest)
    = Some (result + v * 2 ^ (7 * k), rest).
Proof.
  revert k v result. induction fuel as [|fuel IH]; intros k v result Hk Hw HwL Hv Hvw Hr.
  - simpl. rewrite (proj2 (Z.leb_le _ _)) by lia. simpl in Hv.
    rewrite byte_land_128, byte_of_Z_small by lia. zcase; [|lia]. simpl.
    rewrite Z.shiftl_mul_pow2, wrap_id by (unfold fits; lia).
    by rewrite lor_mul_add by lia.
  - simpl EncodeVarint64_loop. rewrite Z.geb_leb. zcase; simpl.
    + rewrite (proj2 (Z.leb_le _ _)) by lia.
      rewrite byte_land_128, byte_land_127, byte_of_lor_128.
      pose proof (Z.mod_pos_bound v 128 ltac:(lia)).
      zcase; [lia|]. simpl.
      replace ((v mod 128 + 128) mod 128) with (v mod 128) by zdiv.
      assert (Hp : 0 < 2 ^ (7 * k)) by lia.
      assert (v mod 128 <= v) by (apply Z.mod_le; lia).
      rewrite (wrap_id w) by (unfold fits; rewrite Z.shiftl_mul_pow2 by lia; nia).
      rewrite lor_shift_add by lia.
      assert (Hkl : k + 1 <= L).
      { destruct (decide (k + 1 <= L)); [done|]. exfalso.
        assert (2 ^ w <= 2 ^ (7 * k + 7)) by (apply Z.pow_le_mono_r; lia).
        rewrite Z.pow_add_r in * by lia. nia. }
      replace (7 * k + 7) with (7 * (k + 1)) by lia.
      assert (Hpk : 2 ^ (7 * (k + 1)) = 2 ^ (7 * k) * 128).
      { replace (7 * (k + 1)) with (7 * k + 7) by lia. by rewrite Z.pow_add_r by lia. }
      rewrite IH; rewrite ?Z.shiftr_div_pow2 by lia; try lia.
      * f_equal. f_equal. rewrite Hpk. change (2 ^ 7) with 128.
        pose proof (Z.div_mod v 128 ltac:(lia)). nia.
      * replace (7 * (Z.of_nat (S fuel) + 1)) with (7 * (Z.of_nat fuel + 1) + 7) in Hv by lia.
        rewrite Z.pow_add_r in Hv by lia. zdiv.
      * rewrite Hpk. change (2 ^ 7) with 128.
        pose proof (Z.div_mod v 128 ltac:(lia)). nia.
      * rewrite Hpk. nia.
    + rewrite (proj2 (Z.leb_le _ _)) by lia.
      rewrite byte_land_128, byte_of_Z_small by lia. zcase; [|lia]. simpl.
      rewrite Z.shiftl_mul_pow2, wrap_id by (unfold fits; lia).
      by rewrite lor_mul_add by lia.
Qed.

(** What a decoding loop returns: a value of the width, and what is left of the
    input after at least one and at most [(last_shift - shift) / 7 + 1] bytes. *)
Lemma GetVarint_loop_sound w L k result p v q :
  0 <= k <= L + 1 -> 0 <= w -> fits w result ->
  GetVarint_loop w (7 * L) (7 * k) result p = Some (v, q) ->
  fits w v /\ exists used, p = used ++ q /\ 1 <= size used <= L + 1 - k.
Proof.
  intros Hk Hw. revert k result Hk. induction p as [|c p IH]; intros k result Hk Hr; simpl.
  { done. }
  destruct (Z.leb_spec (7 * k) (7 * L)); [|done].
  assert (Hlor : forall a, fits w (Z.lor result (wrap w a))).
  { intros a. unfold fits.
    assert (Hin : Z.lor result (wrap w a) = wrap w (Z.lor result a)).
    { unfold wrap. rewrite <- !Z.land_ones by done. rewrite Z.land_lor_distr_l.
      rewrite (Z.land_ones result) by done. by rewrite (Z.mod_small result). }
    rewrite Hin. by apply wrap_fits. }
  destruct (negb _).
  - replace (7 * k + 7) with (7 * (k + 1)) by lia. intros H0.
    apply IH in H0 as (Hv & used & -> & Hu); [|lia|apply Hlor].
    split; [done|]. exists (c :: used). split; [done|]. rewrite size_cons. lia.
  - intros [= <- <-]. split; [apply Hlor|]. exists [c].
    split; [done|]. rewrite size_cons, size_nil. lia.
Qed.

Lemma GetVarint32_fallback p : GetVarint32 p = GetVarint32PtrFallback p.
Proof.
  unfold GetVarint32, GetVarint32Ptr, GetVarint32PtrFallback.
  destruct p as [|c p]; [done|]. rewrite byte_land_128. zcase; [|done].
  simpl. rewrite byte_land_128. zcase; [|lia]. simpl.
  pose proof (Z_of_byte_range c).
  by rewrite Z.shiftl_0_r, wrap_id by (unfold fits; lia).
Qed.

Lemma EncodeVarint64_fuel n v :
  0 <= v < 2 ^ (7 * (Z.of_nat n + 1)) -> (n <= 10)%nat ->
  EncodeVarint64 v = EncodeVarint64_loop n v.
Proof. intros. unfold EncodeVarint64. by apply EncodeVarint64_loop_fuel. Qed.

Lemma GetVarint32_encode v rest :
  fits 32 v -> GetVarint32 (EncodeVarint32 v ++ rest) = Some (v, rest).
Proof.
  intros Hv. unfold fits in Hv. rewrite GetVarint32_fallback, EncodeVarint32_64 by done.
  rewrite (EncodeVarint64_fuel 4) by (simpl; lia).
  unfold GetVarint32PtrFallback.
  rewrite (GetVarint_loop_encode 32 4 4 0 v 0) by (simpl; lia). f_equal. f_equal. lia.
Qed.

Lemma GetVarint64_encode v rest :
  fits 64 v -> GetVarint64 (EncodeVarint64 v ++ rest) = Some (v, rest).
Proof.
  intros Hv. unfold fits in Hv. rewrite (EncodeVarint64_fuel 9) by (simpl; lia).
  unfold GetVarint64, GetVarint64Ptr.
  rewrite (GetVarint_loop_encode 64 9 9 0 v 0) by (simpl; lia). f_equal. f_equal. lia.
Qed.

(** A decoder that accepts [used ++ q] up to [q] is prefix-free: it rejects every
    shorter prefix of [used]. *)
Lemma GetVarint_loop_prefix w L shift result p v q :
  GetVarint_loop w L shift result p = Some (v, q) ->
  forall n, (n < length p - length q)%nat -> GetVarint_loop w L shift result (take n p) = None.
Proof.
  revert shift result. induction p as [|c p IH]; intros shift result; simpl; [done|].
  destruct (shift <=? L) eqn:Hs; [|done]. destruct (negb _) eqn:Hb.
  - intros H n Hn. destruct n as [|n]; [done|]. simpl. rewrite Hs, Hb.
    apply (IH _ _ H). destruct q; simpl in *; lia.
  - intros [= <- <-] n Hn. destruct n as [|n]; [done|]. simpl in Hn. lia.
Qed.

Lemma GetVarint32_truncated v n :
  fits 32 v -> (n < length (EncodeVarint32 v))%nat ->
  GetVarint32 (take n (EncodeVarint32 v)) = None.
Proof.
  intros Hv Hn. rewrite GetVarint32_fallback.
  apply (GetVarint_loop_prefix _ _ _ _ _ v []); [|simpl; lia].
  fold (GetVarint32PtrFallback (EncodeVarint32 v)).
  rewrite <- GetVarint32_fallback, <- (app_nil_r (EncodeVarint32 v)).
  by apply GetVarint32_encode.
Qed.

Lemma GetVarint64_truncated v n :
  fits 64 v -> (n < length (EncodeVarint64 v))%nat ->
  GetVarint64 (take n (EncodeVarint64 v)) = None.
Proof.
  intros Hv Hn. apply (GetVarint_loop_prefix _ _ _ _ _ v []); [|simpl; lia].
  fold (GetVarint64Ptr (EncodeVarint64 v)). fold (GetVarint64 (EncodeVarint64 v)).
  rewrite <- (app_nil_r (EncodeVarint64 v)). by apply GetVarint64_encode.
Qed.

Lemma PutLengthPrefixedSlice_app dst value :
  PutLengthPrefixedSlice dst value = dst ++ PutLengthPrefixedSlice [] value.
Proof. unfold PutLengthPrefixedSlice, PutVarint32. simpl. by rewrite <- app_assoc. Qed.

Lemma GetLengthPrefixedSlice_encode value rest :
  fits 32 (size value) ->
  GetLengthPrefixedSlice (PutLengthPrefixedSlice [] value ++ rest) = (rest, Some value).
Proof.
  intros Hv. unfold GetLengthPrefixedSlice, PutLengthPrefixedSlice, PutVarint32.
  simpl. rewrite <- app_assoc, wrap_id, GetVarint32_encode by done.
  rewrite size_app, Z.geb_leb. pose proof (size_nonneg rest).
  zcase; [|lia]. unfold size. rewrite Nat2Z.id.
  by rewrite drop_app_length, take_app_length.
Qed.

Lemma GetLengthPrefixedSlicePtr_encode value rest :
  fits 32 (size value) ->
  GetLengthPrefixedSlicePtr (PutLengthPrefixedSlice [] value ++ rest) = Some (value, rest).
Proof.
  intros Hv. unfold GetLengthPrefixedSlicePtr, PutLengthPrefixedSlice, PutVarint32.
  simpl. rewrite <- app_assoc, wrap_id by done.
  change GetVarint32Ptr with GetVarint32. rewrite GetVarint32_encode by done.
  rewrite size_app, Z.gtb_ltb. pose proof (size_nonneg rest).
  zcase; [lia|]. unfold size. rewrite Nat2Z.id.
  by rewrite drop_app_length, take_app_length.
Qed.

(** A truncated string: either the length itself is cut, or the payload. *)
Lemma length_prefixed_truncated value n :
  fits 32 (size value) -> (n < length (PutLengthPrefixedSlice [] value))%nat ->
  (GetLengthPrefixedSlice (take n (PutLengthPrefixedSlice [] value))).2 = None /\
  GetLengthPrefixedSlicePtr (take n (PutLengthPrefixedSlice [] value)) = None.
Proof.
  intros Hv Hn. unfold GetLengthPrefixedSlice, GetLengthPrefixedSlicePtr.
  change GetVarint32Ptr with GetVarint32.
  unfold PutLengthPrefixedSlice, PutVarint32 in *. simpl in *.
  rewrite wrap_id in * by done. set (e := EncodeVarint32 (size value)) in *.
  destruct (decide (n < length e)%nat) as [Hlt|Hge].
  - rewrite take_app_le by lia. unfold e in *. by rewrite GetVarint32_truncated by done.
  - rewrite firstn_app, firstn_all2 by lia. unfold e. rewrite GetVarint32_encode by done.
    fold e. rewrite length_app in Hn.
    assert (Hs : size (take (n - length e) value) < size value)
      by (unfold size; rewrite length_take; lia).
    rewrite Z.geb_leb, Z.gtb_ltb. split; zcase; (done || lia).
Qed.

Create Rewrite HintDb coding.
Create HintDb coding.
#[export] Hint Rewrite DecodeFixed32_encode DecodeFixed64_encode : coding.
#[export] Hint Resolve DecodeFixed32_fits DecodeFixed64_fits : coding.

(** ** Properties *)

Lemma GetVarint32_sound p v q :
  GetVarint32 p = Some (v, q) -> fits 32 v /\ exists used, p = used ++ q /\ 1 <= size used <= 5.
Proof.
  rewrite GetVarint32_fallback. intros H.
  by apply (GetVarint_loop_sound 32 4 0) in H; [|lia..|unfold fits; lia].
Qed.

(** Varints round-trip at both widths: what [PutVarint32] or [PutVarint64]
    appends has the length [VarintLength] predicts, at most 5 or 10 bytes, is
    parsed back to the value with the rest of the input untouched, and no shorter
    prefix of it parses. *)
Lemma varint_roundtrip (w : Z) (dst : bytes) (v : Z) (rest : bytes) :
  w = 32 \/ w = 64 -> fits w v ->
  let put := if w =? 32 then PutVarint32 else PutVarint64 in
  let get := if w =? 32 then GetVarint32 else GetVarint64 in
  exists enc, put dst v = dst ++ enc /\ size enc = VarintLength v /\
    1 <= size enc <= w / 7 + 1 /\ get (enc ++ rest) = Some (v, rest) /\
    forall n, (n < length enc)%nat -> get (take n enc) = None.
Proof.
  intros [-> | ->] Hv; simpl.
  - exists (EncodeVarint32 v). pose proof Hv as [? ?]. split; [done|].
    rewrite EncodeVarint32_64 by done. split; [apply length_EncodeVarint64|].
    split; [apply (EncodeVarint64_bound 4); simpl; lia|].
    rewrite <- EncodeVarint32_64 by done. split; [by apply GetVarint32_encode|].
    intros n Hn. by apply GetVarint32_truncated.
  - exists (EncodeVarint64 v). pose proof Hv as [? ?]. split; [done|].
    split; [apply length_EncodeVarint64|].
    split; [apply (EncodeVarint64_bound 9); simpl; lia|].
    split; [by apply GetVarint64_encode|].
    intros n Hn. by apply GetVarint64_truncated.
Qed.

Lemma varint_roundtrip_witness :
  PutVarint32 [x07] 300 = [x07; xac; x02] /\
  exists enc, PutVarint32 [x07] 300 = [x07] ++ enc /\ size enc = VarintLength 300 /\
    1 <= size enc <= 5 /\ GetVarint32 (enc ++ [xff]) = Some (300, [xff]) /\
    forall n, (n < length enc)%nat -> GetVarint32 (take n enc) = None.
Proof.
  split; [vm_compute; reflexivity|].
  apply (varint_roundtrip 32 [x07] 300 [xff]); [by left|unfold fits; lia].
Defined.

(** The varint decoders are safe on any input: an accepted value fits the
    width, and the bytes consumed are a prefix of 1 to 5 (1 to 10) bytes. *)
Theorem varint_decode_safe (w : Z) (p : bytes) (v : Z) (q : bytes) :
  w = 32 \/ w = 64 ->
  (if w =? 32 then GetVarint32 else GetVarint64) p = Some (v, q) ->
  fits w v /\ exists used, p = used ++ q /\ 1 <= size used <= w / 7 + 1.
Proof.
  intros [-> | ->] H; simpl in H |- *.
  - by apply GetVarint32_sound.
  - apply (GetVarint_loop_sound 64 9 0) in H; [done|lia..|unfold fits; lia].
Qed.

Lemma varint_decode_safe_witness :
  fits 32 4026531840 /\ exists used,
    [x80; x80; x80; x80; x7f; x01] = used ++ [x01] /\ 1 <= size used <= 5.
Proof.
  apply (varint_decode_safe 32 [x80; x80; x80; x80; x7f; x01] 4026531840 [x01]);
    [by left|vm_compute; reflexivity].
Defined.

(** Length-prefixed strings round-trip through both parsers, and a string
    cut short is rejected by both. *)
Theorem length_prefixed_roundtrip (dst value rest : bytes) :
  fits 32 (size value) ->
  exists enc, PutLengthPrefixedSlice dst value = dst ++ enc /\
    GetLengthPrefixedSlice (enc ++ rest) = (rest, Some value) /\
    GetLengthPrefixedSlicePtr (enc ++ rest) = Some (value, rest) /\
    forall n, (n < length enc)%nat ->
      (GetLengthPrefixedSlice (take n enc)).2 = None /\
      GetLengthPrefixedSlicePtr (take n enc) = None.
Proof.
  intros Hv. exists (PutLengthPrefixedSlice [] value).
  split; [apply PutLengthPrefixedSlice_app|].
  split; [by apply GetLengthPrefixedSlice_encode|].
  split; [by apply GetLengthPrefixedSlicePtr_encode|].
  intros n Hn. by apply length_prefixed_truncated.
Qed.

Lemma length_prefixed_roundtrip_witness :
  exists enc, PutLengthPrefixedSlice [] [x61; x62] = [] ++ enc /\
    GetLengthPrefixedSlice (enc ++ [x63]) = ([x63], Some [x61; x62]) /\
    GetLengthPrefixedSlicePtr (enc ++ [x63]) = Some ([x61; x62], [x63]) /\
    forall n, (n < length enc)%nat ->
      (GetLengthPrefixedSlice (take n enc)).2 = None /\
      GetLengthPrefixedSlicePtr (take n enc) = None.
Proof. apply length_prefixed_roundtrip. unfold fits, size. simpl. lia. Defined.
