(* ===== verification/Comparator.v ===== *)
(** * Slices and comparators

    Models [cpp/leveldb/include/leveldb/slice.h] and
    [cpp/leveldb/util/comparator.cc].  A [Slice] is the list of the bytes it
    refers to.  The class [Comparator] is the C++ interface of
    [leveldb/comparator.h]; [ComparatorLaws] is what the rest of the program
    relies on, and [BytewiseComparator] is the instance the program uses. *)
From S2P Require Import Prelude.

(** ** Slices *)

(** [memcmp(a, b, n)] of the C library.  Only the sign of its result is
    specified; this is the usual difference of the first bytes that differ. *)
Fixpoint memcmp (a b : bytes) (n : nat) : Z :=
  match n, a, b with
  | S n, x :: a, y :: b =>
      if Z_of_byte x =? Z_of_byte y then memcmp a b n
      else Z_of_byte x - Z_of_byte y
  | _, _, _ => 0
  end.

Definition Slice_compare (a b : bytes) : Z :=
  let min_len := if size a <? size b then size a else size b in
  let r := memcmp a b (Z.to_nat min_len) in
  if r =? 0 then
    if size a <? size b then -1 else if size a >? size b then 1 else r
  else r.

Definition Slice_starts_with (a x : bytes) : bool :=
  (size a >=? size x) && (memcmp a x (length x) =? 0).

Definition Slice_eqb (x y : bytes) : bool :=
  (size x =? size y) && (memcmp x y (length x) =? 0).

Definition Slice_remove_prefix (a : bytes) (n : Z) : bytes := drop (Z.to_nat n) a.

(** ** The comparator interface *)

Class Comparator := {
  cmp_Name : bytes;
  cmp_Compare : bytes -> bytes -> Z;
  cmp_FindShortestSeparator : bytes -> bytes -> bytes;
  cmp_FindShortSuccessor : bytes -> bytes
}.

(** A comparator is a total preorder; a separator of [start < limit] stays in
    [\[start, limit)], and [start] does not grow when the keys are equal; a successor is not below its key. *)
Class ComparatorLaws (C : Comparator) : Prop := {
  cmp_refl a : cmp_Compare a a = 0;
  cmp_antisym a b : Z.sgn (cmp_Compare b a) = - Z.sgn (cmp_Compare a b);
  cmp_trans a b c :
    cmp_Compare a b <= 0 -> cmp_Compare b c <= 0 -> cmp_Compare a c <= 0;
  cmp_separator s l :
    cmp_Compare s l < 0 ->
    cmp_Compare s (cmp_FindShortestSeparator s l) <= 0 /\
    cmp_Compare (cmp_FindShortestSeparator s l) l < 0;
  cmp_separator_eq s l :
    cmp_Compare s l = 0 -> cmp_Compare s (cmp_FindShortestSeparator s l) >= 0;
  cmp_successor k : cmp_Compare k (cmp_FindShortSuccessor k) <= 0
}.

(** Keys that compare equal are the same key. *)
Class ComparatorExact (C : Comparator) : Prop :=
  cmp_exact a b : cmp_Compare a b = 0 -> a = b.

(** ** The bytewise comparator *)

(** The [while] loop of [FindShortestSeparator]: the length of the common
    prefix. *)
Fixpoint diff_index (start limit : bytes) : nat :=
  match start, limit with
  | x :: start, y :: limit =>
      if Z_of_byte x =? Z_of_byte y then S (diff_index start limit) else O
  | _, _ => O
  end.

Definition BytewiseFindShortestSeparator (start limit : bytes) : bytes :=
  let min_length := Nat.min (length start) (length limit) in
  let i := diff_index start limit in
  if (min_length <=? i)%nat then start
  else
    let diff_byte := byte_at start i in
    if (diff_byte <? 255) && (diff_byte + 1 <? byte_at limit i) then
      take i start ++ [byte_of_Z (diff_byte + 1)]
    else start.

(** The [for] loop of [FindShortSuccessor]; a run of [0xff] is left alone. *)
Fixpoint BytewiseFindShortSuccessor (key : bytes) : bytes :=
  match key with
  | [] => []
  | c :: rest =>
      if negb (Z_of_byte c =? 255) then [byte_of_Z (Z_of_byte c + 1)]
      else c :: BytewiseFindShortSuccessor rest
  end.

#[export] Instance BytewiseComparator : Comparator := {
  cmp_Name := str "leveldb.BytewiseComparator";
  cmp_Compare := Slice_compare;
  cmp_FindShortestSeparator := BytewiseFindShortestSeparator;
  cmp_FindShortSuccessor := BytewiseFindShortSuccessor
}.

Lemma Slice_starts_with_spec a x : Slice_starts_with a x = bool_decide (take (length x) a = x).
Proof.
  unfold Slice_starts_with. revert a. induction x as [|y x IH]; intros a.
  { rewrite bool_decide_eq_true_2 by (by destruct a). pose proof (size_nonneg a). rewrite size_nil.
    destruct (Z.geb_spec (size a) 0); [|lia]. by destruct a. }
  destruct a as [|z a].
  { rewrite bool_decide_eq_false_2 by done. rewrite size_cons, size_nil. pose proof (size_nonneg x).
    destruct (Z.geb_spec 0 (size x + 1)); [lia|done]. }
  cbn [length take memcmp]. rewrite !size_cons.
  assert (Hg : (size a + 1 >=? size x + 1) = (size a >=? size x))
    by (destruct (Z.geb_spec (size a + 1) (size x + 1)), (Z.geb_spec (size a) (size x)); lia).
  rewrite Hg. destruct (Z.eqb_spec (Z_of_byte z) (Z_of_byte y)) as [E|E].
  - rewrite IH. apply Z_of_byte_inj in E as ->. apply bool_decide_ext. split; [by intros ->|by intros [= ->]].
  - rewrite bool_decide_eq_false_2 by (by intros [= ->]). destruct (Z.eqb_spec (Z_of_byte z - Z_of_byte y) 0); [lia|].
    by rewrite andb_false_r.
Qed.

(** ** Lexicographic order *)

(** The reference order on byte strings: lexicographic, bytes unsigned. *)
Fixpoint lex (a b : bytes) : comparison :=
  match a, b with
  | [], [] => Eq
  | [], _ :: _ => Lt
  | _ :: _, [] => Gt
  | x :: a, y :: b =>
      match Z_of_byte x ?= Z_of_byte y with
      | Eq => lex a b
      | c => c
      end
  end.

Definition sign_of (c : comparison) : Z :=
  match c with Lt => -1 | Eq => 0 | Gt => 1 end.

Lemma Slice_compare_cons x a y b :
  Slice_compare (x :: a) (y :: b) =
    if Z_of_byte x =? Z_of_byte y then Slice_compare a b
    else Z_of_byte x - Z_of_byte y.
Proof.
  unfold Slice_compare. rewrite !size_cons.
  assert (Hb : (size a + 1 <? size b + 1) = (size a <? size b)) by (repeat zcase; lia).
  assert (Hg : (size a + 1 >? size b + 1) = (size a >? size b))
    by (rewrite !Z.gtb_ltb; repeat zcase; lia).
  rewrite Hb, Hg.
  replace (Z.to_nat (if size a <? size b then size a + 1 else size b + 1)) with
    (S (Z.to_nat (if size a <? size b then size a else size b)))
    by (unfold size; zcase; lia).
  simpl. destruct (Z.eqb_spec (Z_of_byte x) (Z_of_byte y)); [done|].
  destruct (Z.eqb_spec (Z_of_byte x - Z_of_byte y) 0); [lia|done].
Qed.

Lemma Slice_compare_sgn a b : Z.sgn (Slice_compare a b) = sign_of (lex a b).
Proof.
  revert b. induction a as [|x a IH]; intros [|y b].
  - done.
  - unfold Slice_compare. rewrite size_cons. pose proof (size_nonneg b).
    rewrite size_nil. zcase; [done|lia].
  - unfold Slice_compare. rewrite size_cons. pose proof (size_nonneg a).
    rewrite size_nil, Z.gtb_ltb. zcase; [lia|]. zcase; [done|lia].
  - rewrite Slice_compare_cons. simpl.
    destruct (Z.compare_spec (Z_of_byte x) (Z_of_byte y)) as [E|E|E]; zcase; try lia.
    + apply IH.
    + simpl. lia.
    + simpl. lia.
Qed.

Lemma lex_refl a : lex a a = Eq.
Proof. induction a; simpl; [done|]. by rewrite Z.compare_refl. Qed.

Lemma lex_eq a b : lex a b = Eq -> a = b.
Proof.
  revert b. induction a as [|x a IH]; intros [|y b]; simpl; try done.
  destruct (Z.compare_spec (Z_of_byte x) (Z_of_byte y)) as [E|E|E]; try done.
  intros H. f_equal; [by apply (inj Z_of_byte)|by apply IH].
Qed.

Lemma lex_antisym a b : lex b a = CompOpp (lex a b).
Proof.
  revert b. induction a as [|x a IH]; intros [|y b]; simpl; try done.
  rewrite Z.compare_antisym. by destruct (Z_of_byte x ?= Z_of_byte y); simpl.
Qed.

Lemma lex_trans a b c : lex a b <> Gt -> lex b c <> Gt -> lex a c <> Gt.
Proof.
  revert b c. induction a as [|x a IH]; intros [|y b] [|z c]; simpl; try done.
  destruct (Z.compare_spec (Z_of_byte x) (Z_of_byte y));
    destruct (Z.compare_spec (Z_of_byte y) (Z_of_byte z));
    destruct (Z.compare_spec (Z_of_byte x) (Z_of_byte z)); try done; try lia.
  apply IH.
Qed.

Lemma Slice_compare_lt a b : Slice_compare a b < 0 <-> lex a b = Lt.
Proof. pose proof (Slice_compare_sgn a b). destruct (lex a b); simpl in *; split; intros; try done; lia. Qed.

Lemma Slice_compare_le a b : Slice_compare a b <= 0 <-> lex a b <> Gt.
Proof. pose proof (Slice_compare_sgn a b). destruct (lex a b); simpl in *; split; intros; try done; lia. Qed.

Lemma Slice_compare_eq a b : Slice_compare a b = 0 <-> a = b.
Proof.
  pose proof (Slice_compare_sgn a b) as H. split.
  - intros E. rewrite E in H. destruct (lex a b) eqn:L; try done. by apply lex_eq.
  - intros ->. rewrite lex_refl in H. simpl in H. lia.
Qed.

Lemma lex_app_common p a b : lex (p ++ a) (p ++ b) = lex a b.
Proof. induction p; simpl; [done|]. by rewrite Z.compare_refl. Qed.

(** ** Separators and successors *)

Lemma diff_index_split a b :
  let i := diff_index a b in
  take i a = take i b /\ (i <= Nat.min (length a) (length b))%nat /\
  ((i < Nat.min (length a) (length b))%nat -> byte_at a i <> byte_at b i).
Proof.
  simpl. revert b. induction a as [|x a IH]; intros [|y b]; simpl; try (split_and!; [done|lia..|intros; lia]).
  destruct (Z.eqb_spec (Z_of_byte x) (Z_of_byte y)) as [E|E]; simpl.
  - destruct (IH b) as (H1 & H2 & H3). apply (inj Z_of_byte) in E as ->.
    split; [by rewrite H1|]. split; [lia|]. intros. apply H3. lia.
  - split; [done|]. split; [lia|]. done.
Qed.

Lemma take_S_byte_at (l : bytes) i :
  (i < length l)%nat -> l = take i l ++ byte_of_Z (byte_at l i) :: drop (S i) l.
Proof.
  revert i. induction l as [|x l IH]; intros [|i]; simpl; try lia.
  - intros _. unfold byte_at. simpl. by rewrite byte_of_Z_of_byte.
  - intros. unfold byte_at. simpl. f_equal. apply IH. lia.
Qed.

Lemma BytewiseSeparator_cases s l :
  BytewiseFindShortestSeparator s l = s \/
  exists p x y s' l', s = p ++ x :: s' /\ l = p ++ y :: l' /\
    Z_of_byte x + 1 < Z_of_byte y /\
    BytewiseFindShortestSeparator s l = p ++ [byte_of_Z (Z_of_byte x + 1)].
Proof.
  unfold BytewiseFindShortestSeparator.
  destruct (diff_index_split s l) as (H1 & H2 & H3).
  destruct (Nat.leb_spec (Nat.min (length s) (length l)) (diff_index s l)); [by left|].
  destruct (_ && _) eqn:E; [|by left]. right. apply andb_prop in E as [E1 E2].
  apply Z.ltb_lt in E1, E2. set (i := diff_index s l) in *.
  exists (take i s), (byte_of_Z (byte_at s i)), (byte_of_Z (byte_at l i)),
    (drop (S i) s), (drop (S i) l).
  pose proof (byte_at_range s i). pose proof (byte_at_range l i).
  rewrite !byte_of_Z_small by lia.
  split; [apply take_S_byte_at; lia|]. split; [|done].
  rewrite H1. apply take_S_byte_at. lia.
Qed.

Lemma BytewiseSeparator_correct s l :
  Slice_compare s l < 0 ->
  let r := BytewiseFindShortestSeparator s l in
  Slice_compare s r <= 0 /\ Slice_compare r l < 0 /\ (length r <= length s)%nat.
Proof.
  simpl. intros Hsl.
  destruct (BytewiseSeparator_cases s l) as [->|(p & x & y & s' & l' & -> & -> & Hxy & ->)].
  - rewrite Slice_compare_le, lex_refl. done.
  - pose proof (Z_of_byte_range x). pose proof (Z_of_byte_range y).
    rewrite Slice_compare_le, Slice_compare_lt, !lex_app_common. simpl.
    rewrite byte_of_Z_small by lia.
    rewrite (proj2 (Z.compare_lt_iff _ _)) by lia.
    rewrite (proj2 (Z.compare_lt_iff _ _)) by lia.
    rewrite !length_app. simpl. split_and!; [done|done|lia].
Qed.

Lemma BytewiseSuccessor_correct k :
  Slice_compare k (BytewiseFindShortSuccessor k) <= 0 /\
  (length (BytewiseFindShortSuccessor k) <= length k)%nat.
Proof.
  rewrite Slice_compare_le. induction k as [|c k [IH1 IH2]]; simpl; [done|].
  pose proof (Z_of_byte_range c).
  destruct (Z.eqb_spec (Z_of_byte c) 255); simpl.
  - rewrite Z.compare_refl. split; [done|lia].
  - rewrite byte_of_Z_small by lia.
    rewrite (proj2 (Z.compare_lt_iff _ _)) by lia. split; [done|lia].
Qed.

#[export] Instance BytewiseComparatorLaws : ComparatorLaws BytewiseComparator.
Proof.
  split; simpl.
  - intros a. by apply Slice_compare_eq.
  - intros a b. rewrite !Slice_compare_sgn, lex_antisym. by destruct (lex a b).
  - intros a b c. rewrite !Slice_compare_le. apply lex_trans.
  - intros s l H. destruct (BytewiseSeparator_correct s l H) as (? & ? & _). done.
  - intros s l H. apply Slice_compare_eq in H as ->.
    destruct (BytewiseSeparator_cases l l) as [->|(p & x & y & s' & l' & Hs & Hl & Hxy & _)].
    + pose proof (proj2 (Slice_compare_eq l l) eq_refl). lia.
    + rewrite Hs in Hl. apply app_inv_head in Hl. injection Hl as -> _. lia.
  - intros k. apply BytewiseSuccessor_correct.
Qed.

#[export] Instance BytewiseComparatorExact : ComparatorExact BytewiseComparator.
Proof. intros a b. apply Slice_compare_eq. Qed.

(** ** Consequences of the laws *)

Section laws.
Context `{C : Comparator} `{!ComparatorLaws C}.

Lemma cmp_sym_lt a b : cmp_Compare a b < 0 <-> cmp_Compare b a > 0.
Proof. pose proof (cmp_antisym a b). split; lia. Qed.

Lemma cmp_sym_eq a b : cmp_Compare a b = 0 <-> cmp_Compare b a = 0.
Proof. pose proof (cmp_antisym a b). split; lia. Qed.

Lemma cmp_sym_le a b : cmp_Compare a b <= 0 <-> cmp_Compare b a >= 0.
Proof. pose proof (cmp_antisym a b). split; lia. Qed.

Lemma cmp_le_lt_trans a b c :
  cmp_Compare a b <= 0 -> cmp_Compare b c < 0 -> cmp_Compare a c < 0.
Proof.
  intros H1 H2. destruct (decide (cmp_Compare a c < 0)); [done|].
  assert (Hca : cmp_Compare c a <= 0) by (apply cmp_sym_le; lia).
  pose proof (cmp_trans _ _ _ Hca H1) as H3. apply cmp_sym_lt in H2. lia.
Qed.

Lemma cmp_lt_le_trans a b c :
  cmp_Compare a b < 0 -> cmp_Compare b c <= 0 -> cmp_Compare a c < 0.
Proof.
  intros H1 H2. destruct (decide (cmp_Compare a c < 0)); [done|].
  assert (Hca : cmp_Compare c a <= 0) by (apply cmp_sym_le; lia).
  pose proof (cmp_trans _ _ _ H2 Hca) as H3. apply cmp_sym_lt in H1. lia.
Qed.

Lemma cmp_lt_trans a b c :
  cmp_Compare a b < 0 -> cmp_Compare b c < 0 -> cmp_Compare a c < 0.
Proof. intros. apply (cmp_lt_le_trans a b c); [done|lia]. Qed.

Lemma cmp_eq_trans a b c :
  cmp_Compare a b = 0 -> cmp_Compare b c = 0 -> cmp_Compare a c = 0.
Proof.
  intros H1 H2. assert (cmp_Compare a c <= 0) by (apply (cmp_trans a b c); lia).
  apply cmp_sym_eq in H1, H2.
  assert (cmp_Compare c a <= 0) by (apply (cmp_trans c b a); lia).
  pose proof (cmp_antisym a c). lia.
Qed.

(** Keys that compare equal compare alike with every other key. *)
Lemma cmp_eq_compat_l a b c :
  cmp_Compare a b = 0 -> Z.sgn (cmp_Compare a c) = Z.sgn (cmp_Compare b c).
Proof.
  intros H. assert (H' : cmp_Compare b a = 0) by (by apply cmp_sym_eq).
  destruct (Z.lt_trichotomy (cmp_Compare b c) 0) as [Hbc|[Hbc|Hbc]].
  - assert (cmp_Compare a c < 0) by (apply (cmp_le_lt_trans a b c); lia). lia.
  - pose proof (cmp_eq_trans a b c H Hbc). lia.
  - assert (Hcb : cmp_Compare c b < 0) by (apply cmp_sym_lt; lia).
    assert (cmp_Compare c a < 0) by (apply (cmp_lt_le_trans c b a); lia).
    pose proof (cmp_antisym c a). lia.
Qed.
End laws.

(** ** Properties *)

(** The bytewise comparator orders keys lexicographically by unsigned bytes
    and equates only equal keys; a shortest separator of [start < limit] is no
    longer than [start] and lies in [\[start, limit)]; a short successor is no
    longer than its key and not below it. *)
Lemma bytewise_comparator_correct (a b : bytes) :
  Z.sgn (cmp_Compare a b) = sign_of (lex a b) /\
  (cmp_Compare a b = 0 <-> a = b) /\
  (cmp_Compare a b < 0 ->
     let sep := cmp_FindShortestSeparator a b in
     cmp_Compare a sep <= 0 /\ cmp_Compare sep b < 0 /\ size sep <= size a) /\
  (let succ := cmp_FindShortSuccessor a in
   cmp_Compare a succ <= 0 /\ size succ <= size a).
Proof.
  simpl. split; [apply Slice_compare_sgn|]. split; [apply Slice_compare_eq|]. split.
  - intros H. destruct (BytewiseSeparator_correct a b H) as (H1 & H2 & H3).
    split; [done|]. split; [done|]. unfold size. lia.
  - destruct (BytewiseSuccessor_correct a) as [H1 H2]. split; [done|]. unfold size. lia.
Qed.
