(* ===== verification/Bloom.v ===== *)
(** * Hashing, filter policies and the Bloom filter

    Models [cpp/leveldb/util/hash.cc], the interface of
    [cpp/leveldb/include/leveldb/filter_policy.h] and
    [cpp/leveldb/util/bloom.cc].  The class [FilterPolicy] is the C++ interface;
    [FilterPolicyLaws] is its documented contract, discharged here by the Bloom
    filter and used by the table filter blocks. *)
From S2P Require Import Prelude Coding.

(** ** Hash *)

Definition hash_m : Z := 0xc6a4a793.
Definition hash_r : Z := 24.

(** [while (data + 4 <= limit)]: four bytes at a time. *)
Fixpoint Hash_loop (h : Z) (data : bytes) : Z * bytes :=
  match data with
  | _ :: _ :: _ :: _ :: data' =>
      let w := DecodeFixed32 data in
      let h := u32 (h + w) in
      let h := u32 (h * hash_m) in
      let h := Z.lxor h (h ≫ 16) in
      Hash_loop h data'
  | _ => (h, data)
  end.

(** The [switch] on the remaining bytes, its cases falling through. *)
Definition Hash_tail (h : Z) (data : bytes) : Z :=
  let n := length data in
  let h := if (n =? 3)%nat then u32 (h + byte_at data 2 ≪ 16) else h in
  let h := if (n =? 3)%nat || (n =? 2)%nat then u32 (h + byte_at data 1 ≪ 8) else h in
  if (n =? 3)%nat || (n =? 2)%nat || (n =? 1)%nat then
    let h := u32 (h + byte_at data 0) in
    let h := u32 (h * hash_m) in
    Z.lxor h (h ≫ hash_r)
  else h.

Definition Hash (data : bytes) (seed : Z) : Z :=
  let h := u32 (Z.lxor seed (u64 (size data * hash_m))) in
  let '(h, rest) := Hash_loop h data in
  Hash_tail h rest.

(** ** Filter policies *)

Class FilterPolicy := {
  fp_Name : bytes;
  fp_CreateFilter : list bytes -> bytes -> bytes;
  fp_KeyMayMatch : bytes -> bytes -> bool
}.

(** [CreateFilter] appends a filter that matches every key it was built from.
    [ok] bounds the key lists the policy can handle. *)
Class FilterPolicyLaws (F : FilterPolicy) (ok : list bytes -> Prop) : Prop := {
  fp_append keys dst : fp_CreateFilter keys dst = dst ++ fp_CreateFilter keys [];
  fp_match keys key :
    ok keys -> key ∈ keys -> fp_KeyMayMatch key (fp_CreateFilter keys []) = true
}.

(** ** The Bloom filter *)

Definition BloomHash (key : bytes) : Z := Hash key 0xbc9f1d34.

Record BloomFilterPolicy := { bits_per_key_ : Z; k_ : Z }.

(** The constructor.  [bits_per_key * 0.69] is computed in floating point by the
    source; below the clamp at 30 it is never within 1/100 of an integer, so the
    rational product truncates to the same [k_]. *)
Definition NewBloomFilterPolicy (bits_per_key : Z) : BloomFilterPolicy :=
  let k := Z.quot (bits_per_key * 69) 100 in
  let k := if k <? 1 then 1 else k in
  let k := if k >? 30 then 30 else k in
  {| bits_per_key_ := u64 bits_per_key; k_ := k |}.

(** [(h >> 17) | (h << 15)] *)
Definition bloom_delta (h : Z) : Z := Z.lor (h ≫ 17) (u32 (h ≪ 15)).

(** [array[bitpos / 8] |= (1 << (bitpos % 8))] *)
Definition set_bit (array : bytes) (bitpos : Z) : bytes :=
  alter (fun b => byte_of_Z (Z.lor (Z_of_byte b) (1 ≪ (bitpos mod 8))))
    (Z.to_nat (bitpos / 8)) array.

(** [(array[bitpos / 8] & (1 << (bitpos % 8))) != 0] *)
Definition get_bit (array : bytes) (bitpos : Z) : bool :=
  negb (Z.land (byte_at array (Z.to_nat (bitpos / 8))) (1 ≪ (bitpos mod 8)) =? 0).

(** The inner loop of [CreateFilter]: [k] probes for one key. *)
Fixpoint add_probes (k : nat) (bits h delta : Z) (array : bytes) : bytes :=
  match k with
  | O => array
  | S k =>
      add_probes k bits (u32 (h + delta)) delta (set_bit array (u32 (h mod bits)))
  end.

Definition add_key (k : nat) (bits : Z) (array key : bytes) : bytes :=
  let h := BloomHash key in
  add_probes k bits h (bloom_delta h) array.

Definition CreateFilter (p : BloomFilterPolicy) (keys : list bytes) (dst : bytes) : bytes :=
  let bits := u64 (Z.of_nat (length keys) * bits_per_key_ p) in
  let bits := if bits <? 64 then 64 else bits in
  let nbytes := u64 (bits + 7) / 8 in
  let bits := u64 (nbytes * 8) in
  let array := replicate (Z.to_nat nbytes) x00 in
  dst ++ foldl (add_key (Z.to_nat (k_ p)) bits) array keys ++ [byte_of_Z (k_ p)].

(** The loop of [KeyMayMatch]. *)
Fixpoint check_probes (k : nat) (bits h delta : Z) (array : bytes) : bool :=
  match k with
  | O => true
  | S k =>
      if negb (get_bit array (u32 (h mod bits))) then false
      else check_probes k bits (u32 (h + delta)) delta array
  end.

Definition KeyMayMatch (key bloom_filter : bytes) : bool :=
  let len := size bloom_filter in
  if len <? 2 then false
  else
    let bits := (len - 1) * 8 in
    let k := byte_at bloom_filter (Z.to_nat (len - 1)) in
    if k >? 30 then true
    else
      let h := BloomHash key in
      check_probes (Z.to_nat k) bits h (bloom_delta h) bloom_filter.

Definition BloomPolicy (p : BloomFilterPolicy) : FilterPolicy := {|
  fp_Name := str "leveldb.BuiltinBloomFilter2";
  fp_CreateFilter := CreateFilter p;
  fp_KeyMayMatch := KeyMayMatch
|}.

(** The vectors of [hash_test.cc]. *)
Example hash_empty : Hash [] 0xbc9f1d34 = 0xbc9f1d34.
Proof. vm_compute. reflexivity. Qed.

Example hash_one : Hash [x62] 0xbc9f1d34 = 0xef1345c4.
Proof. vm_compute. reflexivity. Qed.

Example hash_two : Hash [xc3; x97] 0xbc9f1d34 = 0x5b663814.
Proof. vm_compute. reflexivity. Qed.

Example hash_three : Hash [xe2; x99; xa5] 0xbc9f1d34 = 0x323c078f.
Proof. vm_compute. reflexivity. Qed.

Example hash_four : Hash [xe1; x80; xb9; x32] 0xbc9f1d34 = 0xed21633a.
Proof. vm_compute. reflexivity. Qed.

(** ** Hash values are 32-bit *)

Lemma shiftr_fits w h k : 0 <= k -> fits w h -> fits w (h ≫ k).
Proof.
  unfold fits. intros Hk Hh. rewrite Z.shiftr_div_pow2 by done.
  split; [apply Z.div_pos; lia|]. apply Z.div_lt_upper_bound; [lia|]. nia.
Qed.

#[local] Hint Resolve wrap_fits fits_lxor fits_lor shiftr_fits : core.

Lemma Hash_loop_fits h data : fits 32 h -> fits 32 (Hash_loop h data).1.
Proof.
  revert h. induction data as [data IH] using (induction_ltof1 _ (@length byte)).
  intros h Hh. destruct data as [|b0 [|b1 [|b2 [|b3 data]]]]; try done.
  cbn [Hash_loop]. apply IH; [unfold ltof; simpl; lia|]. auto with lia.
Qed.

Lemma Hash_fits data seed : fits 32 (Hash data seed).
Proof.
  unfold Hash. pose proof (Hash_loop_fits (u32 (Z.lxor seed (u64 (size data * hash_m)))) data
    ltac:(auto with lia)) as H.
  destruct (Hash_loop _ _) as [h rest]. simpl in H. unfold Hash_tail, hash_r.
  destruct (length rest =? 3)%nat, (length rest =? 2)%nat, (length rest =? 1)%nat;
    cbn [orb]; auto 6 with lia.
Qed.

Lemma BloomHash_fits key : fits 32 (BloomHash key).
Proof. apply Hash_fits. Qed.

#[local] Hint Resolve BloomHash_fits : core.

Lemma bloom_delta_fits h : fits 32 h -> fits 32 (bloom_delta h).
Proof. unfold bloom_delta. auto with lia. Qed.

(** ** No false negatives *)

Lemma land_1_shiftl z n : 0 <= n -> (Z.land z (1 ≪ n) =? 0) = negb (Z.testbit z n).
Proof.
  intros Hn. destruct (Z.testbit z n) eqn:E; simpl; [apply Z.eqb_neq|apply Z.eqb_eq].
  - intros H. apply (f_equal (fun x => Z.testbit x n)) in H.
    rewrite Z.land_spec, E, Z.bits_0, Z.shiftl_spec, Z.sub_diag in H by done. done.
  - apply Z.bits_inj'. intros i Hi. rewrite Z.land_spec, Z.bits_0, Z.shiftl_1_l.
    destruct (decide (i = n)) as [->|].
    + by rewrite E.
    + by rewrite Z.pow2_bits_false, andb_false_r by lia.
Qed.

Lemma get_bit_testbit array pos :
  0 <= pos ->
  get_bit array pos = Z.testbit (byte_at array (Z.to_nat (pos / 8))) (pos mod 8).
Proof.
  intros. unfold get_bit. rewrite land_1_shiftl, negb_involutive; [done|].
  apply Z.mod_pos_bound. lia.
Qed.

Lemma byte_at_alter f array i j :
  byte_at (alter f i array) j =
    if decide (i = j) then
      if decide (j < length array)%nat then Z_of_byte (f (nth j array x00)) else 0
    else byte_at array j.
Proof.
  unfold byte_at. destruct (decide (i = j)) as [->|Hij].
  - destruct (decide (j < length array)%nat) as [Hl|Hl].
    + rewrite !nth_lookup, list_lookup_alter_eq.
      destruct (lookup_lt_is_Some_2 array j Hl) as [b Hb]. by rewrite Hb.
    + by rewrite nth_overflow by (rewrite length_alter; lia).
  - by rewrite !nth_lookup, list_lookup_alter_ne by done.
Qed.

Lemma get_set_bit array p q :
  0 <= p -> 0 <= q < Z.of_nat (length array) * 8 ->
  get_bit (set_bit array p) q = (p =? q) || get_bit array q.
Proof.
  intros Hp Hq. rewrite !get_bit_testbit by lia. unfold set_bit. rewrite byte_at_alter.
  pose proof (Z.mod_pos_bound p 8 ltac:(lia)). pose proof (Z.mod_pos_bound q 8 ltac:(lia)).
  destruct (decide _) as [E|E].
  - rewrite decide_True by (rewrite <- Nat2Z.inj_lt + apply Nat2Z.inj_lt; zdiv).
    unfold byte_at. set (b := nth _ array x00).
    rewrite byte_of_Z_small.
    2:{ change 256 with (2 ^ 8). apply (fits_lor 8); [lia|apply Z_of_byte_range|].
        unfold fits. rewrite Z.shiftl_1_l. split; [lia|]. apply Z.pow_lt_mono_r; lia. }
    rewrite Z.lor_spec, Z.shiftl_1_l, orb_comm. f_equal.
    destruct (Z.eqb_spec p q) as [->|Hne]; [by rewrite Z.pow2_bits_true by lia|].
    apply Z.pow2_bits_false. intros Heq. apply Hne.
    assert (p / 8 = q / 8) by (apply Z2Nat.inj; [zdiv..|done]).
    rewrite (Z.div_mod p 8), (Z.div_mod q 8) by lia. congruence.
  - destruct (Z.eqb_spec p q) as [->|]; [done|]. done.
Qed.

Lemma length_add_probes k bits h delta array :
  length (add_probes k bits h delta array) = length array.
Proof.
  revert h array. induction k as [|k IH]; intros; simpl; [done|].
  rewrite IH. apply length_alter.
Qed.

Section probes.
Context (array0 : bytes) (bits : Z).
Hypothesis Hbits : bits = Z.of_nat (length array0) * 8.
Hypothesis Hpos : 0 < bits.

Lemma probe_range h : 0 <= h -> 0 <= u32 (h mod bits) < bits.
Proof.
  intros. pose proof (Z.mod_pos_bound h bits Hpos). unfold wrap. split; [zdiv|].
  eapply Z.le_lt_trans; [apply Z.mod_le|]; lia.
Qed.

Lemma add_probes_mono k h delta array q :
  length array = length array0 -> fits 32 h -> 0 <= q < bits ->
  get_bit array q = true -> get_bit (add_probes k bits h delta array) q = true.
Proof.
  revert h array. induction k as [|k IH]; intros h array Hl Hh Hq Hg; [done|]. simpl.
  pose proof (probe_range h ltac:(unfold fits in Hh; lia)).
  apply IH; [by unfold set_bit; rewrite length_alter|auto with lia|done|].
  rewrite get_set_bit, Hg by lia. apply orb_true_r.
Qed.

Lemma add_probes_check k h delta array array' :
  length array = length array0 -> fits 32 h ->
  (forall q, 0 <= q < bits -> get_bit (add_probes k bits h delta array) q = true ->
     get_bit array' q = true) ->
  check_probes k bits h delta array' = true.
Proof.
  revert h array. induction k as [|k IH]; intros h array Hl Hh Hg; [done|].
  cbn [check_probes]. simpl in Hg.
  pose proof (probe_range h ltac:(unfold fits in Hh; lia)) as Hr.
  rewrite Hg; [|done|].
  - simpl. apply (IH _ (set_bit array (u32 (h mod bits))));
      [by unfold set_bit; rewrite length_alter|auto with lia|done].
  - apply add_probes_mono; [by unfold set_bit; rewrite length_alter|auto with lia|done|].
    rewrite get_set_bit by lia. by rewrite Z.eqb_refl.
Qed.

Lemma add_keys_mono k keys array q :
  length array = length array0 -> 0 <= q < bits ->
  get_bit array q = true -> get_bit (foldl (add_key k bits) array keys) q = true.
Proof.
  revert array. induction keys as [|key keys IH]; intros array Hl Hq Hg; [done|].
  simpl. apply IH; [by unfold add_key; rewrite length_add_probes|done|].
  by apply add_probes_mono.
Qed.

Lemma add_keys_check k keys key array array' :
  length array = length array0 -> key ∈ keys ->
  (forall q, 0 <= q < bits -> get_bit (foldl (add_key k bits) array keys) q = true ->
     get_bit array' q = true) ->
  check_probes k bits (BloomHash key) (bloom_delta (BloomHash key)) array' = true.
Proof.
  revert array. induction keys as [|key' keys IH]; intros array Hl Hin Hg.
  { by apply elem_of_nil in Hin. }
  simpl in Hg. apply elem_of_cons in Hin as [->|Hin].
  - apply (add_probes_check k (BloomHash key') _ array); [done|apply Hash_fits|].
    intros q Hq Hg'. apply Hg; [done|]. apply add_keys_mono; [|done|done].
    unfold add_key. by rewrite length_add_probes.
  - apply (IH (add_key k bits array key')); [|done|done].
    unfold add_key. by rewrite length_add_probes.
Qed.
End probes.

(** The key lists whose filter size does not overflow [size_t]. *)
Definition bloom_ok (p : BloomFilterPolicy) (keys : list bytes) : Prop :=
  Z.of_nat (length keys) * bits_per_key_ p + 7 < 2 ^ 64.

Lemma length_add_keys k bits array keys :
  length (foldl (add_key k bits) array keys) = length array.
Proof.
  revert array. induction keys as [|key keys IH]; intros array; [done|]. simpl.
  rewrite IH. apply length_add_probes.
Qed.

Lemma get_bit_app array rest q :
  0 <= q < Z.of_nat (length array) * 8 -> get_bit (array ++ rest) q = get_bit array q.
Proof.
  intros Hq. unfold get_bit, byte_at. rewrite !nth_lookup, lookup_app_l; [done|].
  apply Nat2Z.inj_lt. zdiv.
Qed.

Lemma NewBloom_k bpk : 1 <= k_ (NewBloomFilterPolicy bpk) <= 30.
Proof. unfold NewBloomFilterPolicy. simpl. rewrite Z.gtb_ltb. repeat zcase; lia. Qed.

Lemma Bloom_match bpk keys key :
  bloom_ok (NewBloomFilterPolicy bpk) keys -> key ∈ keys ->
  KeyMayMatch key (CreateFilter (NewBloomFilterPolicy bpk) keys []) = true.
Proof.
  intros Hok Hin. pose proof (NewBloom_k bpk) as Hk. unfold bloom_ok in Hok.
  assert (Hb : 0 <= bits_per_key_ (NewBloomFilterPolicy bpk)) by (apply wrap_range; lia).
  set (p := NewBloomFilterPolicy bpk) in *. clearbody p. unfold CreateFilter. cbn [app].
  set (bits0 := if u64 (Z.of_nat (length keys) * bits_per_key_ p) <? 64 then 64
    else u64 (Z.of_nat (length keys) * bits_per_key_ p)).
  assert (Hb0 : 64 <= bits0 /\ bits0 + 7 < 2 ^ 64).
  { unfold bits0. rewrite !wrap_id by (unfold fits; nia). zcase; lia. }
  rewrite (wrap_id 64 (bits0 + 7)) by (unfold fits; lia).
  rewrite wrap_id by (unfold fits; zdiv).
  set (nb := (bits0 + 7) / 8). assert (Hnb : 8 <= nb) by (unfold nb; zdiv).
  set (array := replicate (Z.to_nat nb) x00).
  assert (Hla : length array = Z.to_nat nb) by apply length_replicate.
  set (filled := foldl _ array keys).
  assert (Hlf : length filled = Z.to_nat nb) by (unfold filled; by rewrite length_add_keys).
  unfold KeyMayMatch. unfold size. rewrite length_app, Hlf. simpl.
  replace (Z.of_nat (Z.to_nat nb + 1)) with (nb + 1) by lia.
  zcase; [lia|]. replace (nb + 1 - 1) with nb by lia.
  assert (Hkb : byte_at (filled ++ [byte_of_Z (k_ p)]) (Z.to_nat nb) = k_ p).
  { unfold byte_at. rewrite <- Hlf, nth_middle. apply byte_of_Z_small. lia. }
  rewrite Hkb, Z.gtb_ltb. zcase; [lia|].
  eapply (add_keys_check array (nb * 8)); [rewrite Hla; lia|lia|done|exact Hin|].
  intros q Hq Hg. rewrite get_bit_app by (rewrite Hlf; lia). exact Hg.
Qed.

#[export] Instance BloomPolicyLaws bpk :
  FilterPolicyLaws (BloomPolicy (NewBloomFilterPolicy bpk))
    (bloom_ok (NewBloomFilterPolicy bpk)).
Proof.
  split; [intros keys dst; unfold BloomPolicy; simpl; done|].
  intros keys key. apply Bloom_match.
Qed.

(** ** Properties *)

(** A Bloom filter has no false negatives: for every [bits_per_key], the filter
    appended for a key list matches each of its keys, whatever it is appended to. *)
Lemma bloom_no_false_negative (bits_per_key : Z) (keys : list bytes) (dst key : bytes) :
  bloom_ok (NewBloomFilterPolicy bits_per_key) keys -> key ∈ keys ->
  exists filter,
    CreateFilter (NewBloomFilterPolicy bits_per_key) keys dst = dst ++ filter /\
    KeyMayMatch key filter = true.
Proof.
  intros Hok Hin. exists (CreateFilter (NewBloomFilterPolicy bits_per_key) keys []).
  split; [done|]. by apply Bloom_match.
Qed.

Lemma bloom_no_false_negative_witness :
  exists filter,
    CreateFilter (NewBloomFilterPolicy 10) [str "hello"; str "world"] [x61] = [x61] ++ filter /\
    KeyMayMatch (str "world") filter = true.
Proof.
  apply bloom_no_false_negative; [unfold bloom_ok; vm_compute; reflexivity|].
  right. left.
Defined.
