(* ===== verification/Logging.v ===== *)
(** * Number parsing and printing

    Models [cpp/leveldb/util/logging.cc].  [snprintf]'s ["%llu"] and ["%02x"]
    conversions are written out. *)
From S2P Require Import Prelude.

(** ** Definitions *)

Definition digit (d : Z) : byte := byte_of_Z (48 + d).

(** ["%llu"]: a 64-bit value has at most twenty digits. *)
Fixpoint decimal_loop (fuel : nat) (num : Z) (acc : bytes) : bytes :=
  match fuel with
  | O => acc
  | S fuel =>
      let acc := digit (num mod 10) :: acc in
      if num / 10 =? 0 then acc else decimal_loop fuel (num / 10) acc
  end.

Definition decimal (num : Z) : bytes := decimal_loop 20 num [].

Definition AppendNumberTo (dst : bytes) (num : Z) : bytes := dst ++ decimal num.

Definition NumberToString (num : Z) : bytes := AppendNumberTo [] num.

(** A hexadecimal digit of ["%02x"]. *)
Definition hex_digit (d : Z) : byte :=
  if d <? 10 then byte_of_Z (48 + d) else byte_of_Z (87 + d).

Definition escape_byte (c : byte) : bytes :=
  let z := Z_of_byte c in
  if (z >=? 32) && (z <=? 126) then [c]
  else str "\x" ++ [hex_digit (z / 16); hex_digit (z mod 16)].

Definition AppendEscapedStringTo (dst value : bytes) : bytes :=
  foldl (fun dst c => dst ++ escape_byte c) dst value.

Definition EscapeString (value : bytes) : bytes := AppendEscapedStringTo [] value.

Definition kMaxUint64 : Z := 2 ^ 64 - 1.

Definition is_digit (c : byte) : bool := (48 <=? Z_of_byte c) && (Z_of_byte c <=? 57).

(** The scanning loop: [None] is the overflow exit; otherwise the value, the rest
    of the input and the number of digits consumed. *)
Fixpoint ConsumeDecimal_loop (value : Z) (consumed : nat) (p : bytes)
    : option (Z * bytes * nat) :=
  match p with
  | [] => Some (value, [], consumed)
  | c :: rest =>
      if negb (is_digit c) then Some (value, p, consumed)
      else if (value >? kMaxUint64 / 10)
           || ((value =? kMaxUint64 / 10) && (Z_of_byte c >? 48 + kMaxUint64 mod 10))
      then None
      else ConsumeDecimal_loop (u64 (value * 10 + (Z_of_byte c - 48))) (S consumed) rest
  end.

(** [bool ConsumeDecimalNumber(Slice* in, uint64_t* val)]: the returned Boolean,
    and the new [*val] and [*in] unless they are left alone. *)
Definition ConsumeDecimalNumber (input : bytes) : bool * option (Z * bytes) :=
  match ConsumeDecimal_loop 0 0 input with
  | None => (false, None)
  | Some (value, rest, consumed) => (negb (consumed =? 0)%nat, Some (value, rest))
  end.

(** ** Reference: the value of a digit string *)

Fixpoint digits_value (v : Z) (p : bytes) : Z :=
  match p with
  | [] => v
  | c :: p => digits_value (v * 10 + (Z_of_byte c - 48)) p
  end.

Definition no_digit_first (rest : bytes) : Prop :=
  match rest with [] => True | c :: _ => is_digit c = false end.

Lemma is_digit_range c : is_digit c = true -> 0 <= Z_of_byte c - 48 <= 9.
Proof. unfold is_digit. rewrite andb_true_iff, !Z.leb_le. lia. Qed.

Lemma digits_value_mono v p :
  Forall (fun c => is_digit c = true) p -> 0 <= v -> v <= digits_value v p.
Proof.
  revert v. induction p as [|c p IH]; intros v Hp Hv; simpl; [lia|].
  apply Forall_cons_1 in Hp as [Hc Hp]. apply is_digit_range in Hc.
  specialize (IH (v * 10 + (Z_of_byte c - 48)) Hp ltac:(lia)). lia.
Qed.

Lemma ConsumeDecimal_loop_spec v n ds rest :
  fits 64 v -> Forall (fun c => is_digit c = true) ds -> no_digit_first rest ->
  ConsumeDecimal_loop v n (ds ++ rest) =
    if digits_value v ds <? 2 ^ 64 then
      Some (digits_value v ds, rest, (n + length ds)%nat)
    else None.
Proof.
  intros Hv Hds Hr. revert v n Hv. induction ds as [|c ds IH]; intros v n Hv; simpl app.
  - simpl. zcase; [|unfold fits in Hv; lia].
    destruct rest as [|c rest]; simpl; [by rewrite Nat.add_0_r|].
    simpl in Hr. rewrite Hr. simpl. by rewrite Nat.add_0_r.
  - apply Forall_cons_1 in Hds as [Hc Hds]. pose proof (is_digit_range c Hc) as Hcr.
    cbn [ConsumeDecimal_loop digits_value]. rewrite Hc. cbn [negb].
    assert (Hov : (v >? kMaxUint64 / 10)
        || ((v =? kMaxUint64 / 10) && (Z_of_byte c >? 48 + kMaxUint64 mod 10))
      = (2 ^ 64 <=? v * 10 + (Z_of_byte c - 48))).
    { rewrite !Z.gtb_ltb. change (kMaxUint64 / 10) with 1844674407370955161.
      change (kMaxUint64 mod 10) with 5. apply eq_true_iff_eq.
      rewrite orb_true_iff, andb_true_iff, !Z.ltb_lt, Z.eqb_eq, Z.leb_le. lia. }
    rewrite Hov. destruct (Z.leb_spec (2 ^ 64) (v * 10 + (Z_of_byte c - 48))).
    + pose proof (digits_value_mono (v * 10 + (Z_of_byte c - 48)) ds Hds ltac:(lia)).
      unfold fits in Hv. zcase; [lia|done].
    + unfold fits in Hv. rewrite wrap_id by (unfold fits; lia).
      rewrite (IH Hds) by (unfold fits; lia). simpl. by rewrite Nat.add_succ_r.
Qed.

(** Printing. *)
Lemma decimal_loop_digits fuel num acc :
  0 <= num -> Forall (fun c => is_digit c = true) acc ->
  Forall (fun c => is_digit c = true) (decimal_loop fuel num acc).
Proof.
  revert num acc. induction fuel as [|fuel IH]; intros num acc Hn Ha; simpl; [done|].
  assert (Hd : Forall (fun c => is_digit c = true) (digit (num mod 10) :: acc)).
  { constructor; [|done]. unfold is_digit, digit.
    pose proof (Z.mod_pos_bound num 10 ltac:(lia)).
    rewrite byte_of_Z_small by lia. apply andb_true_iff. rewrite !Z.leb_le. lia. }
  zcase; [done|]. apply IH; [zdiv|done].
Qed.

Lemma decimal_loop_app fuel num acc :
  decimal_loop fuel num acc = decimal_loop fuel num [] ++ acc.
Proof.
  revert num acc. induction fuel as [|fuel IH]; intros num acc; simpl; [done|].
  zcase; [done|]. rewrite (IH _ (_ :: acc)), (IH _ [_]). by rewrite <- app_assoc.
Qed.

Lemma digits_value_app v p q : digits_value v (p ++ q) = digits_value (digits_value v p) q.
Proof. revert v. induction p; intros; simpl; auto. Qed.

Lemma decimal_loop_value fuel num :
  0 <= num < 10 ^ Z.of_nat fuel -> digits_value 0 (decimal_loop fuel num []) = num.
Proof.
  revert num. induction fuel as [|fuel IH]; intros num Hn; simpl in *; [lia|].
  pose proof (Z.mod_pos_bound num 10 ltac:(lia)).
  rewrite decimal_loop_app. zcase.
  - simpl. unfold digit. rewrite byte_of_Z_small by lia. zdiv.
  - rewrite digits_value_app. rewrite IH.
    + simpl. unfold digit. rewrite byte_of_Z_small by lia. zdiv.
    + replace (Z.of_nat (S fuel)) with (Z.of_nat fuel + 1) in Hn by lia.
      rewrite Z.pow_add_r in Hn by lia. zdiv.
Qed.

Lemma decimal_value num : fits 64 num -> digits_value 0 (decimal num) = num.
Proof. intros [H1 H2]. apply decimal_loop_value. simpl. lia. Qed.

Lemma decimal_digits num : 0 <= num -> Forall (fun c => is_digit c = true) (decimal num).
Proof. intros. apply decimal_loop_digits; [done|constructor]. Qed.

Lemma decimal_nonempty num : decimal num <> [].
Proof.
  assert (H : forall fuel n acc, decimal_loop (S fuel) n acc <> []).
  { intros fuel n acc. cbn [decimal_loop]. zcase; [done|]. rewrite decimal_loop_app.
    intros E. by apply app_eq_nil in E as [_ ?]. }
  apply H.
Qed.

Lemma ConsumeDecimalNumber_decimal num rest :
  fits 64 num -> no_digit_first rest ->
  ConsumeDecimalNumber (decimal num ++ rest) = (true, Some (num, rest)).
Proof.
  intros Hn Hr. unfold ConsumeDecimalNumber.
  rewrite ConsumeDecimal_loop_spec;
    [|unfold fits; lia|apply decimal_digits; unfold fits in Hn; lia|done].
  rewrite decimal_value by done. unfold fits in Hn. zcase; [|lia].
  pose proof (decimal_nonempty num). by destruct (decimal num).
Qed.

(** ** Properties *)

(** [ConsumeDecimalNumber] on a run of digits [ds] followed by something else:
    it returns the value and the rest exactly when there is a digit and the value
    fits in 64 bits; on overflow it fails and changes nothing.  It parses back
    what [NumberToString] prints. *)
Theorem decimal_numbers (ds rest : bytes) (num : Z) :
  Forall (fun c => is_digit c = true) ds -> no_digit_first rest -> fits 64 num ->
  ConsumeDecimalNumber (ds ++ rest) =
    (if digits_value 0 ds <? 2 ^ 64
     then (negb (length ds =? 0)%nat, Some (digits_value 0 ds, rest)) else (false, None)) /\
  ConsumeDecimalNumber (NumberToString num ++ rest) = (true, Some (num, rest)).
Proof.
  intros Hds Hr Hn. split; [|by apply ConsumeDecimalNumber_decimal].
  unfold ConsumeDecimalNumber.
  rewrite ConsumeDecimal_loop_spec by (done || (unfold fits; lia)).
  zcase; [|done]. done.
Qed.

Lemma decimal_numbers_witness :
  ConsumeDecimalNumber (str "18446744073709551616" ++ str ".log") =
    (if digits_value 0 (str "18446744073709551616") <? 2 ^ 64
     then (negb (length (str "18446744073709551616") =? 0)%nat,
           Some (digits_value 0 (str "18446744073709551616"), str ".log"))
     else (false, None)) /\
  ConsumeDecimalNumber (NumberToString 18446744073709551615 ++ str ".log") =
    (true, Some (18446744073709551615, str ".log")).
Proof.
  apply decimal_numbers; [|reflexivity|unfold fits; lia].
  repeat constructor.
Defined.
