(* ===== verification/Status.v ===== *)
(** * Status

    Models [cpp/leveldb/include/leveldb/status.h] and
    [cpp/leveldb/util/status.cc].  A [Status] is its [state_] array, [None] for
    the null pointer: four length bytes (little-endian, as on every platform the
    package targets), a code byte, the message. *)
From S2P Require Import Prelude Coding Logging.

Abbreviation Status := (option bytes).

(** [enum Code] *)
Definition kOk : Z := 0.
Definition kNotFound : Z := 1.
Definition kCorruption : Z := 2.
Definition kNotSupported : Z := 3.
Definition kInvalidArgument : Z := 4.
Definition kIOError : Z := 5.

Definition Status_OK : Status := None.

(** [Status::Status(Code code, const Slice& msg, const Slice& msg2)] *)
Definition Status_new (code : Z) (msg msg2 : bytes) : Status :=
  let len1 := u32 (size msg) in
  let len2 := u32 (size msg2) in
  let sz := u32 (len1 + (if negb (len2 =? 0) then 2 + len2 else 0)) in
  Some (EncodeFixed32 sz ++ [byte_of_Z code] ++ take (Z.to_nat len1) msg ++
        (if negb (len2 =? 0) then str ": " ++ take (Z.to_nat len2) msg2 else [])).

Definition Status_NotFound (msg msg2 : bytes) : Status := Status_new kNotFound msg msg2.
Definition Status_Corruption (msg msg2 : bytes) : Status := Status_new kCorruption msg msg2.
Definition Status_NotSupported (msg msg2 : bytes) : Status := Status_new kNotSupported msg msg2.
Definition Status_InvalidArgument (msg msg2 : bytes) : Status := Status_new kInvalidArgument msg msg2.
Definition Status_IOError (msg msg2 : bytes) : Status := Status_new kIOError msg msg2.

Definition Status_code (s : Status) : Z :=
  match s with None => kOk | Some state => byte_at state 4 end.

Definition Status_ok (s : Status) : bool := match s with None => true | Some _ => false end.
Definition IsNotFound (s : Status) : bool := Status_code s =? kNotFound.
Definition IsCorruption (s : Status) : bool := Status_code s =? kCorruption.
Definition IsIOError (s : Status) : bool := Status_code s =? kIOError.
Definition IsNotSupportedError (s : Status) : bool := Status_code s =? kNotSupported.
Definition IsInvalidArgument (s : Status) : bool := Status_code s =? kInvalidArgument.

(** [Status::CopyState], which the copy constructor and assignment apply. *)
Definition CopyState (state : bytes) : bytes :=
  let sz := DecodeFixed32 state in take (Z.to_nat (u32 (sz + 5))) state.

Definition Status_copy (rhs : Status) : Status :=
  match rhs with None => None | Some state => Some (CopyState state) end.

Definition Status_ToString (s : Status) : bytes :=
  match s with
  | None => str "OK"
  | Some state =>
      let code := Status_code s in
      let type :=
        if code =? kOk then str "OK"
        else if code =? kNotFound then str "NotFound: "
        else if code =? kCorruption then str "Corruption: "
        else if code =? kNotSupported then str "Not implemented: "
        else if code =? kInvalidArgument then str "Invalid argument: "
        else if code =? kIOError then str "IO error: "
        else str "Unknown code(" ++ decimal code ++ str "): " in
      let length := DecodeFixed32 state in
      type ++ take (Z.to_nat length) (drop 5 state)
  end.

(** ** Lemmas *)

(** The text a message pair stands for. *)
Definition joined (msg msg2 : bytes) : bytes :=
  msg ++ match msg2 with [] => [] | _ => str ": " ++ msg2 end.

(** Messages short enough for their 32-bit lengths, with the header. *)
Definition msg_ok (msg msg2 : bytes) : Prop := size msg + size msg2 + 7 < 2 ^ 32.

Lemma Status_new_state code msg msg2 :
  msg_ok msg msg2 ->
  Status_new code msg msg2 =
    Some (EncodeFixed32 (size (joined msg msg2)) ++ byte_of_Z code :: joined msg msg2).
Proof.
  unfold msg_ok. intros Hok. pose proof (size_nonneg msg). pose proof (size_nonneg msg2).
  unfold Status_new. rewrite !(wrap_id 32 (size _)) by (unfold fits; lia).
  assert (Ht : forall l, take (Z.to_nat (size l)) l = l)
    by (intros; unfold size; rewrite Nat2Z.id; apply firstn_all).
  rewrite !Ht. unfold joined. destruct msg2 as [|c msg2].
  - rewrite size_nil in *. simpl (negb _). cbv iota. rewrite Z.add_0_r, app_nil_r.
    by rewrite wrap_id by (unfold fits; lia).
  - pose proof (size_nonneg msg2). rewrite size_cons in *.
    destruct (Z.eqb_spec (size msg2 + 1) 0); [lia|]. cbn [negb].
    rewrite wrap_id by (unfold fits; lia). rewrite !size_app, size_cons.
    change (size (str ": ")) with 2. done.
Qed.

Lemma Status_code_new code msg msg2 :
  0 <= code < 256 -> Status_code (Status_new code msg msg2) = code.
Proof. intros. apply byte_of_Z_small. done. Qed.

Lemma DecodeFixed32_header sz rest : fits 32 sz -> DecodeFixed32 (EncodeFixed32 sz ++ rest) = sz.
Proof. intros. by rewrite DecodeFixed32_encode, wrap_id. Qed.

Lemma joined_fits msg msg2 :
  msg_ok msg msg2 ->
  fits 32 (size (joined msg msg2)) /\ fits 32 (size (joined msg msg2) + 5).
Proof.
  unfold msg_ok, fits, joined. pose proof (size_nonneg msg). pose proof (size_nonneg msg2).
  rewrite size_app. destruct msg2 as [|c msg2]; [rewrite size_nil in *; lia|].
  rewrite size_app. change (size (str ": ")) with 2. lia.
Qed.

(** ** Properties *)

(** A non-OK status of the program carries its code and message: exactly the
    predicate of its code holds, copying it is the identity, and [ToString] is the
    code's prefix and the two messages joined by a colon. *)
Theorem status_message (msg msg2 : bytes) :
  msg_ok msg msg2 ->
  let describes s code prefix :=
    Status_code s = code /\ Status_ok s = false /\ Status_copy s = s /\
    Status_ToString s = prefix ++ joined msg msg2 in
  describes (Status_NotFound msg msg2) kNotFound (str "NotFound: ") /\
  describes (Status_Corruption msg msg2) kCorruption (str "Corruption: ") /\
  describes (Status_NotSupported msg msg2) kNotSupported (str "Not implemented: ") /\
  describes (Status_InvalidArgument msg msg2) kInvalidArgument (str "Invalid argument: ") /\
  describes (Status_IOError msg msg2) kIOError (str "IO error: ").
Proof.
  intros Hok. cbv zeta.
  unfold Status_NotFound, Status_Corruption, Status_NotSupported, Status_InvalidArgument,
    Status_IOError.
  rewrite !Status_new_state by done.
  pose proof (joined_fits msg msg2 Hok) as [Hj1 Hj2].
  assert (Hcopy : forall c, Status_copy (Some (EncodeFixed32 (size (joined msg msg2)) ++ c :: joined msg msg2))
    = Some (EncodeFixed32 (size (joined msg msg2)) ++ c :: joined msg msg2)).
  { intros c. cbn [Status_copy]. unfold CopyState. rewrite DecodeFixed32_header by done.
    rewrite wrap_id by done. f_equal.
    apply firstn_all2. rewrite length_app, length_EncodeFixed32. unfold size. cbn [length]. lia. }
  assert (Htext : forall c, take (Z.to_nat (DecodeFixed32 (EncodeFixed32 (size (joined msg msg2)) ++ c :: joined msg msg2)))
      (drop 5 (EncodeFixed32 (size (joined msg msg2)) ++ c :: joined msg msg2)) = joined msg msg2).
  { intros c. rewrite DecodeFixed32_header by done.
    rewrite (drop_app_ge (EncodeFixed32 _)) by (rewrite length_EncodeFixed32; lia).
    rewrite length_EncodeFixed32. apply take_size. }
  split_and!; try done; try apply Hcopy; unfold Status_ToString; by rewrite Htext.
Qed.

Lemma status_message_witness :
  Status_ToString (Status_Corruption (str "bad block") (str "000005.ldb")) =
    str "Corruption: bad block: 000005.ldb" /\
  let describes s code prefix :=
    Status_code s = code /\ Status_ok s = false /\ Status_copy s = s /\
    Status_ToString s = prefix ++ joined (str "bad block") (str "000005.ldb") in
  describes (Status_NotFound (str "bad block") (str "000005.ldb")) kNotFound (str "NotFound: ") /\
  describes (Status_Corruption (str "bad block") (str "000005.ldb")) kCorruption (str "Corruption: ") /\
  describes (Status_NotSupported (str "bad block") (str "000005.ldb")) kNotSupported (str "Not implemented: ") /\
  describes (Status_InvalidArgument (str "bad block") (str "000005.ldb")) kInvalidArgument (str "Invalid argument: ") /\
  describes (Status_IOError (str "bad block") (str "000005.ldb")) kIOError (str "IO error: ").
Proof.
  split; [vm_compute; reflexivity|]. apply status_message. vm_compute. reflexivity.
Defined.
