(* ===== verification/MemEnv.v ===== *)
(** * The environment in memory

    [InMemoryEnv] of [cpp/leveldb/helpers/memenv/memenv.cc]: files are reference-counted
    objects whose bytes lie in blocks of fixed size; a map gives them names.  A method runs
    under the mutexes, as one step.  The file system it implements has a byte string for each
    file. *)
From stdpp Require Import gmap gmultiset sorting.
From S2P Require Import Prelude Comparator Status.

(** ** Files *)

Definition kFileBlockSize : Z := 8 * 1024.

(** A block holds the bytes written to it so far. *)
Record FileState := MkFile { refs_ : Z; blocks_ : list bytes; size_ : Z }.

Definition NewFileState : FileState := MkFile 0 [] 0.
Definition file_set_refs (f : FileState) (n : Z) : FileState := MkFile n (blocks_ f) (size_ f).
Definition Truncate (f : FileState) : FileState := MkFile (refs_ f) [] 0.

(** The bytes are copied block by block; bytes that were never written are not there to be
    read. *)
Fixpoint copy_loop (fuel : nat) (blocks : list bytes) (block : nat) (block_offset bytes_to_copy : Z) (dst : bytes) : res bytes :=
  if bytes_to_copy =? 0 then Ok dst
  else
    match fuel with
    | O => OutOfFuel
    | S fuel =>
        let avail := Z.min (kFileBlockSize - block_offset) bytes_to_copy in
        match blocks !! block with
        | Some b =>
            let piece := take (Z.to_nat avail) (drop (Z.to_nat block_offset) b) in
            if size piece <? avail then Undefined
            else copy_loop fuel blocks (S block) 0 (bytes_to_copy - avail) (dst ++ piece)
        | None => Undefined
        end
    end.

Definition file_Read (f : FileState) (offset n : Z) : res (bytes * Status) :=
  if offset >? size_ f then Ok ([], Status_IOError (str "Offset greater than file size.") [])
  else
    let n := Z.min n (size_ f - offset) in
    if n =? 0 then Ok ([], Status_OK)
    else
      let? b := copy_loop (Z.to_nat n) (blocks_ f) (Z.to_nat (offset / kFileBlockSize)) (offset mod kFileBlockSize) n [] in
      Ok (b, Status_OK).

(** [memcpy] to the last block. *)
Definition write_back (blocks : list bytes) (offset : Z) (data : bytes) : res (list bytes) :=
  match list.last blocks with
  | Some b =>
      if size b <? offset then Undefined
      else Ok (take (length blocks - 1) blocks ++ [take (Z.to_nat offset) b ++ data ++ drop (Z.to_nat (offset + size data)) b])
  | None => Undefined
  end.

Fixpoint append_loop (fuel : nat) (f : FileState) (src : bytes) : res FileState :=
  match src with
  | [] => Ok f
  | _ =>
      match fuel with
      | O => OutOfFuel
      | S fuel =>
          let offset := size_ f mod kFileBlockSize in
          let '(blocks, avail) := if negb (offset =? 0) then (blocks_ f, kFileBlockSize - offset) else (blocks_ f ++ [[]], kFileBlockSize) in
          let avail := Z.min avail (size src) in
          let? blocks := write_back blocks offset (take (Z.to_nat avail) src) in
          append_loop fuel (MkFile (refs_ f) blocks (u64 (size_ f + avail))) (drop (Z.to_nat avail) src)
      end
  end.

Definition file_Append (f : FileState) (data : bytes) : res FileState := append_loop (length data) f data.

(** ** The environment *)

(** [me_heap] has the files that are not deleted; a name may have a null pointer. *)
Record MemEnv := MkEnv { me_heap : gmap Z FileState; me_next : Z; file_map_ : gmap bytes (option Z) }.

Definition NewMemEnv : MemEnv := MkEnv ∅ 1 ∅.

Definition set_state (e : MemEnv) (a : Z) (f : FileState) : MemEnv := MkEnv (<[a := f]> (me_heap e)) (me_next e) (file_map_ e).
Definition set_map (e : MemEnv) (m : gmap bytes (option Z)) : MemEnv := MkEnv (me_heap e) (me_next e) m.

(** A file that was deleted, or a null pointer, is not there. *)
Definition get_file (e : MemEnv) (a : Z) : res FileState := match me_heap e !! a with Some f => Ok f | None => Undefined end.
Definition deref (p : option Z) : res Z := match p with Some a => Ok a | None => Undefined end.

(** The count is an [int]. *)
Definition file_Ref (e : MemEnv) (a : Z) : res MemEnv :=
  let? f := get_file e a in
  if refs_ f + 1 <? 2 ^ 31 then Ok (set_state e a (file_set_refs f (refs_ f + 1))) else Undefined.

Definition file_Unref (e : MemEnv) (a : Z) : res MemEnv :=
  let? f := get_file e a in
  let f := file_set_refs f (refs_ f - 1) in
  if refs_ f <=? 0 then Ok (MkEnv (delete a (me_heap e)) (me_next e) (file_map_ e)) else Ok (set_state e a f).

(** [new FileState], with the reference of the map. *)
Definition new_file (e : MemEnv) : MemEnv * Z :=
  (MkEnv (<[me_next e := file_set_refs NewFileState 1]> (me_heap e)) (me_next e + 1) (file_map_ e), me_next e).

Definition not_found (fname : bytes) : Status := Status_IOError fname (str "File not found").

Record SequentialFileImpl := MkSequential { sq_file : Z; sq_pos : Z }.

Definition mem_NewSequentialFile (e : MemEnv) (fname : bytes) : res (MemEnv * (SequentialFileImpl + Status)) :=
  match file_map_ e !! fname with
  | None => Ok (e, inr (not_found fname))
  | Some p => let? a := deref p in let? e := file_Ref e a in Ok (e, inl (MkSequential a 0))
  end.

Definition seq_Read (e : MemEnv) (s : SequentialFileImpl) (n : Z) : res (SequentialFileImpl * bytes * Status) :=
  let? f := get_file e (sq_file s) in
  let? r := file_Read f (sq_pos s) n in
  Ok (if Status_ok r.2 then MkSequential (sq_file s) (u64 (sq_pos s + size r.1)) else s, r.1, r.2).

Definition seq_Skip (e : MemEnv) (s : SequentialFileImpl) (n : Z) : res (SequentialFileImpl * Status) :=
  let? f := get_file e (sq_file s) in
  if sq_pos s >? size_ f then Ok (s, Status_IOError (str "pos_ > file_->Size()") [])
  else Ok (MkSequential (sq_file s) (u64 (sq_pos s + Z.min n (size_ f - sq_pos s))), Status_OK).

Definition mem_NewRandomAccessFile (e : MemEnv) (fname : bytes) : res (MemEnv * (Z + Status)) :=
  match file_map_ e !! fname with
  | None => Ok (e, inr (not_found fname))
  | Some p => let? a := deref p in let? e := file_Ref e a in Ok (e, inl a)
  end.

Definition rand_Read (e : MemEnv) (a offset n : Z) : res (bytes * Status) := let? f := get_file e a in file_Read f offset n.

Definition mem_NewWritableFile (e : MemEnv) (fname : bytes) : res (MemEnv * Z) :=
  let? r :=
    match file_map_ e !! fname with
    | None => let '(e, a) := new_file e in Ok (set_map e (<[fname := Some a]> (file_map_ e)), a)
    | Some p => let? a := deref p in let? f := get_file e a in Ok (set_state e a (Truncate f), a)
    end in
  let? e := file_Ref r.1 r.2 in
  Ok (e, r.2).

(** The map gets a null pointer for a new name, and the file made does not go into it. *)
Definition mem_NewAppendableFile (e : MemEnv) (fname : bytes) : res (MemEnv * Z) :=
  let p := default None (file_map_ e !! fname) in
  let e := set_map e (<[fname := p]> (file_map_ e)) in
  let '(e, a) := match p with Some a => (e, a) | None => new_file e end in
  let? e := file_Ref e a in
  Ok (e, a).

Definition writable_Append (e : MemEnv) (a : Z) (data : bytes) : res MemEnv :=
  let? f := get_file e a in let? f := file_Append f data in Ok (set_state e a f).

Definition mem_FileExists (e : MemEnv) (fname : bytes) : bool := bool_decide (is_Some (file_map_ e !! fname)).

(** The names in the order of the map. *)
Definition name_le (a b : bytes) : Prop := Slice_compare a b <= 0.
#[export] Instance name_le_dec a b : Decision (name_le a b).
Proof. unfold name_le. apply _. Defined.
Definition names_of {A} (m : gmap bytes A) : list bytes := merge_sort name_le (elements (dom m : gset bytes)).

Definition is_child (dir filename : bytes) : bool :=
  (size filename >=? size dir + 1) && (byte_at filename (length dir) =? 47) && Slice_starts_with filename dir.

Definition children (dir : bytes) (names : list bytes) : list bytes :=
  map (drop (length dir + 1)) (List.filter (is_child dir) names).

Definition mem_GetChildren (e : MemEnv) (dir : bytes) : list bytes := children dir (names_of (file_map_ e)).

Definition RemoveFileInternal (e : MemEnv) (fname : bytes) : res MemEnv :=
  match file_map_ e !! fname with
  | None => Ok e
  | Some p =>
      let? a := deref p in
      let? e := file_Unref e a in
      Ok (set_map e (delete fname (file_map_ e)))
  end.

Definition mem_RemoveFile (e : MemEnv) (fname : bytes) : res (MemEnv * Status) :=
  match file_map_ e !! fname with
  | None => Ok (e, not_found fname)
  | Some _ => let? e := RemoveFileInternal e fname in Ok (e, Status_OK)
  end.

Definition mem_GetFileSize (e : MemEnv) (fname : bytes) : res (Z + Status) :=
  match file_map_ e !! fname with
  | None => Ok (inr (not_found fname))
  | Some p => let? a := deref p in let? f := get_file e a in Ok (inl (size_ f))
  end.

Definition mem_RenameFile (e : MemEnv) (src target : bytes) : res (MemEnv * Status) :=
  match file_map_ e !! src with
  | None => Ok (e, not_found src)
  | Some _ =>
      let? e := RemoveFileInternal e target in
      let p := default None (file_map_ e !! src) in
      Ok (set_map e (delete src (<[target := p]> (file_map_ e))), Status_OK)
  end.

(** The destructor of the environment takes the reference of each name. *)
Definition unref_all (r : res MemEnv) (ps : list (option Z)) : res MemEnv := foldl (fun e p => let? e := e in let? a := deref p in file_Unref e a) r ps.

Definition mem_Destroy (e : MemEnv) : res MemEnv := unref_all (Ok e) (map_to_list (file_map_ e)).*2.

(** ** A file holds a byte string *)

(** Block [i] holds its part of the string. *)
Definition blocks_ok (blocks : list bytes) (d : bytes) : Prop :=
  forall i : nat, blocks !! i = if Z.of_nat i * kFileBlockSize <? size d then
    Some (take (Z.to_nat kFileBlockSize) (drop (Z.to_nat (Z.of_nat i * kFileBlockSize)) d)) else None.

Definition holds_bytes (f : FileState) (d : bytes) : Prop := blocks_ok (blocks_ f) d /\ size_ f = size d /\ size d < 2 ^ 64.

Lemma Truncate_holds f : holds_bytes (Truncate f) [].
Proof. split; [|by split]. intros i. cbn [Truncate blocks_]. rewrite lookup_nil. destruct (Z.ltb_spec (Z.of_nat i * kFileBlockSize) (size [])); [unfold kFileBlockSize, size in *; cbn in *; lia|done]. Qed.

Lemma copy_loop_ok blocks d : blocks_ok blocks d -> forall fuel block o n dst,
  0 <= o < kFileBlockSize -> 0 <= n -> Z.of_nat block * kFileBlockSize + o + n <= size d -> n <= Z.of_nat fuel ->
  copy_loop fuel blocks block o n dst = Ok (dst ++ take (Z.to_nat n) (drop (Z.to_nat (Z.of_nat block * kFileBlockSize + o)) d)).
Proof.
  intros Hb. unfold kFileBlockSize in *. induction fuel as [|fuel IH]; intros block o n dst Ho Hn Hd Hf; cbn [copy_loop].
  - assert (n = 0) as -> by lia. cbn. by rewrite app_nil_r.
  - destruct (Z.eqb_spec n 0) as [->|Hne]; [cbn; by rewrite app_nil_r|]. rewrite (Hb block). unfold kFileBlockSize. destruct (Z.ltb_spec (Z.of_nat block * (8 * 1024)) (size d)); [|lia].
    set (avail := Z.min (8 * 1024 - o) n). assert (Ha : 0 < avail <= n /\ o + avail <= 8 * 1024) by lia.
    assert (Ep : take (Z.to_nat avail) (drop (Z.to_nat o) (take (Z.to_nat (8 * 1024)) (drop (Z.to_nat (Z.of_nat block * (8 * 1024))) d))) =
      take (Z.to_nat avail) (drop (Z.to_nat (Z.of_nat block * (8 * 1024) + o)) d)).
    { replace (Z.to_nat (8 * 1024)) with (Z.to_nat o + (Z.to_nat (8 * 1024) - Z.to_nat o))%nat by lia. rewrite <- take_drop_commute, take_take, drop_drop. f_equal; [lia|]. f_equal. lia. }
    rewrite Ep. set (pos := Z.to_nat (Z.of_nat block * (8 * 1024) + o)) in *. assert (Hsz : size (take (Z.to_nat avail) (drop pos d)) = avail).
    { apply size_take. rewrite size_drop_nat by (unfold size in *; lia). lia. }
    rewrite Hsz, Z.ltb_irrefl. destruct (Z.eq_dec avail n) as [En|En].
    + rewrite En, Z.sub_diag. destruct fuel; cbn; by rewrite ?app_nil_r.
    + rewrite IH by lia. rewrite <- app_assoc. do 2 f_equal. replace (Z.to_nat n) with (Z.to_nat avail + Z.to_nat (n - avail))%nat by lia.
      rewrite <- take_take_drop, drop_drop. do 3 f_equal. lia.
Qed.

Lemma file_Read_ok f d offset n : holds_bytes f d -> 0 <= offset -> 0 <= n ->
  file_Read f offset n = Ok (if offset >? size d then ([], Status_IOError (str "Offset greater than file size.") [])
                             else (take (Z.to_nat n) (drop (Z.to_nat offset) d), Status_OK)).
Proof.
  intros (Hb & Hs & _) Ho Hn. unfold file_Read. rewrite Hs. destruct (Z.gtb_spec offset (size d)); [done|].
  assert (Et : take (Z.to_nat n) (drop (Z.to_nat offset) d) = take (Z.to_nat (Z.min n (size d - offset))) (drop (Z.to_nat offset) d)).
  { destruct (Z.le_gt_cases n (size d - offset)) as [Hle|Hgt]; [by rewrite Z.min_l|]. rewrite Z.min_r by lia. rewrite !take_ge; [done|..]; rewrite length_drop; unfold size in *; lia. }
  rewrite Et. destruct (Z.eqb_spec (Z.min n (size d - offset)) 0) as [->|Hne]; [done|].
  pose proof (Z.mod_pos_bound offset kFileBlockSize ltac:(done)) as Hm. pose proof (Z.div_mod offset kFileBlockSize ltac:(done)) as Hdm.
  assert (0 <= offset / kFileBlockSize) by (apply Z.div_pos; [done|]; unfold kFileBlockSize; lia).
  rewrite (copy_loop_ok (blocks_ f) d Hb) by (rewrite ?Z2Nat.id; unfold kFileBlockSize in *; lia). cbn [res_bind app]. do 5 f_equal. rewrite Z2Nat.id by done. unfold kFileBlockSize in *. lia.
Qed.

(** The last block, made if the file is full, and the others. *)
Lemma append_blocks blocks d : blocks_ok blocks d -> let o := size d mod kFileBlockSize in
  let bl := if negb (o =? 0) then blocks else blocks ++ [[]] in let i := Z.to_nat (size d / kFileBlockSize) in
  length bl = S i /\ (forall j, (j < i)%nat -> bl !! j = blocks !! j) /\ list.last bl = Some (drop (Z.to_nat (Z.of_nat i * kFileBlockSize)) d).
Proof.
  intros Hb o bl i. pose proof (size_nonneg d) as Hd. pose proof (Z.mod_pos_bound (size d) kFileBlockSize ltac:(done)) as Hm. pose proof (Z.div_mod (size d) kFileBlockSize ltac:(done)) as Hdm.
  assert (0 <= size d / kFileBlockSize) by (apply Z.div_pos; [done|]; unfold kFileBlockSize; lia). fold o in Hm, Hdm.
  assert (Hi : Z.of_nat i = size d / kFileBlockSize) by (unfold i; lia). rewrite <- Hi in Hdm. clearbody o i. unfold blocks_ok, kFileBlockSize in *.
  assert (Hlen : length blocks = if o =? 0 then i else S i).
  { apply Nat.le_antisymm.
    - apply Nat.nlt_ge. intros Hlt. apply lookup_lt_is_Some_2 in Hlt as [b Hbb]. rewrite Hb in Hbb.
      destruct (Z.eqb_spec o 0); match type of Hbb with context [?x <? ?y] => destruct (Z.ltb_spec x y) end; done || lia.
    - destruct (Z.eqb_spec o 0).
      + destruct i as [|i'] eqn:Ei; [lia|]. assert (Hs : is_Some (blocks !! i')); [|by apply lookup_lt_is_Some in Hs]. rewrite Hb.
        case Z.ltb_spec; [by eexists|lia].
      + assert (Hs : is_Some (blocks !! i)); [|apply lookup_lt_is_Some in Hs; lia]. rewrite Hb.
        case Z.ltb_spec; [by eexists|lia]. }
  unfold bl. destruct (Z.eqb_spec o 0) as [Ho|Ho]; cbn [negb].
  - split; [rewrite length_app; cbn; lia|]. split; [intros j Hj; apply lookup_app_l; lia|]. rewrite last_snoc. f_equal. symmetry. apply drop_ge. unfold size in *. lia.
  - split; [done|]. split; [done|]. rewrite last_lookup, Hlen. cbn [pred]. rewrite Hb. case Z.ltb_spec; [intros _|lia].
    f_equal. apply take_ge. rewrite length_drop. unfold size in *. lia.
Qed.

Lemma append_loop_ok fuel : forall f d src, holds_bytes f d -> size d + size src < 2 ^ 64 -> (length src <= fuel)%nat ->
  exists f', append_loop fuel f src = Ok f' /\ holds_bytes f' (d ++ src) /\ refs_ f' = refs_ f.
Proof.
  induction fuel as [|fuel IH]; intros f d src (Hb & Hs & Hd) Hsz Hf.
  - destruct src; [|cbn in Hf; lia]. exists f. rewrite app_nil_r. by split_and!.
  - destruct src as [|x src']; [exists f; rewrite app_nil_r; by split_and!|]. set (src := x :: src') in *. assert (Hsrc : 0 < size src) by (unfold src; rewrite size_cons; pose proof (size_nonneg src'); lia).
    cbn [append_loop]. fold src. rewrite Hs. pose proof (append_blocks (blocks_ f) d Hb) as (Hl & Hj & Hlast). set (o := size d mod kFileBlockSize) in *. set (i := Z.to_nat (size d / kFileBlockSize)) in *.
    pose proof (size_nonneg d) as Hd0. pose proof (Z.mod_pos_bound (size d) kFileBlockSize ltac:(done)) as Hm. pose proof (Z.div_mod (size d) kFileBlockSize ltac:(done)) as Hdm. fold o in Hm, Hdm.
    assert (0 <= size d / kFileBlockSize) by (apply Z.div_pos; [done|]; unfold kFileBlockSize; lia).
    assert (Hi : Z.of_nat i = size d / kFileBlockSize) by (unfold i; lia). rewrite <- Hi in Hdm.
    set (bl := if negb (o =? 0) then blocks_ f else blocks_ f ++ [[]]) in *. set (avail := Z.min (kFileBlockSize - o) (size src)).
    assert (Eb : (if negb (o =? 0) then (blocks_ f, kFileBlockSize - o) else (blocks_ f ++ [[]], kFileBlockSize)) = (bl, kFileBlockSize - o)).
    { unfold bl. destruct (Z.eqb_spec o 0) as [Ho|]; cbn [negb]; [|done]. f_equal. lia. }
    rewrite Eb. fold avail. unfold write_back. rewrite Hlast. assert (Hlb : size (drop (Z.to_nat (Z.of_nat i * kFileBlockSize)) d) = o) by (rewrite size_drop; unfold kFileBlockSize in *; lia).
    rewrite Hlb, Z.ltb_irrefl. assert (Hav : 0 < avail <= size src /\ o + avail <= kFileBlockSize) by (unfold avail; lia).
    set (piece := take (Z.to_nat avail) src). assert (Hp : size piece = avail) by (apply size_take; lia).
    rewrite (take_ge _ (Z.to_nat o)), (drop_ge _ (Z.to_nat (o + size piece))), app_nil_r by (unfold size in *; lia). cbn [res_bind].
    replace (length bl - 1)%nat with i by lia.
    destruct (IH (MkFile (refs_ f) (take i bl ++ [drop (Z.to_nat (Z.of_nat i * kFileBlockSize)) d ++ piece]) (u64 (size d + avail))) (d ++ piece) (drop (Z.to_nat avail) src)) as (f' & E1 & E2 & E3).
    + split; [|cbn; rewrite size_app, Hp; split; [rewrite wrap_id; [done|unfold fits; lia]|lia]]. cbn [blocks_]. intros j. rewrite size_app, Hp.
      destruct (Nat.lt_trichotomy j i) as [Hlt|[->|Hgt]].
      * rewrite lookup_app_l by (rewrite length_take; lia). rewrite lookup_take_lt by done. rewrite Hj by done. rewrite Hb. unfold kFileBlockSize in *.
        destruct (Z.ltb_spec (Z.of_nat j * (8 * 1024)) (size d)); [|lia]. destruct (Z.ltb_spec (Z.of_nat j * (8 * 1024)) (size d + avail)); [|lia]. f_equal.
        rewrite drop_app_le by (unfold size in *; lia). rewrite take_app_le; [done|]. rewrite length_drop. unfold size in *. lia.
      * rewrite lookup_app_r by (rewrite length_take; lia). rewrite length_take, Nat.min_l, Nat.sub_diag by lia. cbn. unfold kFileBlockSize in *.
        destruct (Z.ltb_spec (Z.of_nat i * (8 * 1024)) (size d + avail)); [|lia]. f_equal. rewrite drop_app_le by (unfold size in *; lia). symmetry. apply take_ge.
        rewrite length_app. unfold size in *. lia.
      * rewrite lookup_ge_None_2 by (rewrite length_app, length_take; cbn; lia). unfold kFileBlockSize in *. destruct (Z.ltb_spec (Z.of_nat j * (8 * 1024)) (size d + avail)); [lia|done].
    + rewrite size_app, Hp, size_drop by lia. lia.
    + rewrite length_drop. unfold size in *. lia.
    + exists f'. split; [exact E1|]. split; [|exact E3]. rewrite <- app_assoc in E2. unfold piece in E2. by rewrite take_drop in E2.
Qed.

Lemma file_Append_ok f d data : holds_bytes f d -> size d + size data < 2 ^ 64 ->
  exists f', file_Append f data = Ok f' /\ holds_bytes f' (d ++ data) /\ refs_ f' = refs_ f.
Proof. intros H Hs. by apply append_loop_ok. Qed.

(** ** Calls of the environment *)

Inductive mem_op :=
| OpNewSequentialFile (fname : bytes)
| OpNewRandomAccessFile (fname : bytes)
| OpNewWritableFile (fname : bytes)
| OpNewAppendableFile (fname : bytes)
| OpAppend (a : Z) (data : bytes)
| OpRead (a offset n : Z)
| OpSeqRead (s : SequentialFileImpl) (n : Z)
| OpSeqSkip (s : SequentialFileImpl) (n : Z)
| OpClose (a : Z)
| OpFileExists (fname : bytes)
| OpGetChildren (dir : bytes)
| OpRemoveFile (fname : bytes)
| OpGetFileSize (fname : bytes)
| OpRenameFile (src target : bytes).

Inductive mem_result :=
| RFile (r : Z + Status)
| RSeq (r : SequentialFileImpl + Status)
| RData (b : bytes) (s : Status)
| RSeqData (h : SequentialFileImpl) (b : bytes) (s : Status)
| RStatus (s : Status)
| RBool (b : bool)
| RNames (l : list bytes)
| RSize (r : Z + Status).

Definition mem_step (e : MemEnv) (op : mem_op) : res (MemEnv * mem_result) :=
  match op with
  | OpNewSequentialFile fname => let? r := mem_NewSequentialFile e fname in Ok (r.1, RSeq r.2)
  | OpNewRandomAccessFile fname => let? r := mem_NewRandomAccessFile e fname in Ok (r.1, RFile r.2)
  | OpNewWritableFile fname => let? r := mem_NewWritableFile e fname in Ok (r.1, RFile (inl r.2))
  | OpNewAppendableFile fname => let? r := mem_NewAppendableFile e fname in Ok (r.1, RFile (inl r.2))
  | OpAppend a data => let? e := writable_Append e a data in Ok (e, RStatus Status_OK)
  | OpRead a offset n => let? r := rand_Read e a offset n in Ok (e, RData r.1 r.2)
  | OpSeqRead h n => let? r := seq_Read e h n in Ok (e, RSeqData r.1.1 r.1.2 r.2)
  | OpSeqSkip h n => let? r := seq_Skip e h n in Ok (e, RSeqData r.1 [] r.2)
  | OpClose a => let? e := file_Unref e a in Ok (e, RStatus Status_OK)
  | OpFileExists fname => Ok (e, RBool (mem_FileExists e fname))
  | OpGetChildren dir => Ok (e, RNames (mem_GetChildren e dir))
  | OpRemoveFile fname => let? r := mem_RemoveFile e fname in Ok (r.1, RStatus r.2)
  | OpGetFileSize fname => let? r := mem_GetFileSize e fname in Ok (e, RSize r)
  | OpRenameFile src target => let? r := mem_RenameFile e src target in Ok (r.1, RStatus r.2)
  end.

Fixpoint mem_run (e : MemEnv) (ops : list mem_op) : res (MemEnv * list mem_result) :=
  match ops with
  | [] => Ok (e, [])
  | op :: ops =>
      let? r := mem_step e op in
      let? r' := mem_run r.1 ops in
      Ok (r'.1, r.2 :: r'.2)
  end.

(** ** The file system it implements *)

(** A name is a link to a file, a file is a byte string, and nothing is counted: a file that
    is open keeps its bytes when its name goes. *)
Record MemFs := MkFs { fs_names : gmap bytes Z; fs_data : gmap Z bytes; fs_open : gmultiset Z; fs_next : Z }.

Definition NewMemFs : MemFs := MkFs ∅ ∅ ∅ 1.

Definition fs_bytes (fs : MemFs) (a : Z) : bytes := default [] (fs_data fs !! a).
Definition fs_write (fs : MemFs) (a : Z) (d : bytes) : MemFs := MkFs (fs_names fs) (<[a := d]> (fs_data fs)) (fs_open fs) (fs_next fs).
Definition fs_link (fs : MemFs) (m : gmap bytes Z) : MemFs := MkFs m (fs_data fs) (fs_open fs) (fs_next fs).
Definition fs_opened (fs : MemFs) (a : Z) : MemFs := MkFs (fs_names fs) (fs_data fs) ({[+ a +]} ⊎ fs_open fs) (fs_next fs).
Definition fs_closed (fs : MemFs) (a : Z) : MemFs := MkFs (fs_names fs) (fs_data fs) (fs_open fs ∖ {[+ a +]}) (fs_next fs).
Definition fs_create (fs : MemFs) (fname : bytes) : MemFs :=
  MkFs (<[fname := fs_next fs]> (fs_names fs)) (<[fs_next fs := []]> (fs_data fs)) (fs_open fs) (fs_next fs + 1).

Definition fs_read (d : bytes) (offset n : Z) : bytes * Status :=
  if offset >? size d then ([], Status_IOError (str "Offset greater than file size.") [])
  else (take (Z.to_nat n) (drop (Z.to_nat offset) d), Status_OK).

Definition fs_step (fs : MemFs) (op : mem_op) : MemFs * mem_result :=
  match op with
  | OpNewSequentialFile fname =>
      match fs_names fs !! fname with
      | Some a => (fs_opened fs a, RSeq (inl (MkSequential a 0)))
      | None => (fs, RSeq (inr (not_found fname)))
      end
  | OpNewRandomAccessFile fname =>
      match fs_names fs !! fname with
      | Some a => (fs_opened fs a, RFile (inl a))
      | None => (fs, RFile (inr (not_found fname)))
      end
  | OpNewWritableFile fname =>
      match fs_names fs !! fname with
      | Some a => (fs_opened (fs_write fs a []) a, RFile (inl a))
      | None => (fs_opened (fs_create fs fname) (fs_next fs), RFile (inl (fs_next fs)))
      end
  | OpNewAppendableFile fname =>
      match fs_names fs !! fname with
      | Some a => (fs_opened fs a, RFile (inl a))
      | None => (fs_opened (fs_create fs fname) (fs_next fs), RFile (inl (fs_next fs)))
      end
  | OpAppend a data => (fs_write fs a (fs_bytes fs a ++ data), RStatus Status_OK)
  | OpRead a offset n => let r := fs_read (fs_bytes fs a) offset n in (fs, RData r.1 r.2)
  | OpSeqRead h n =>
      let r := fs_read (fs_bytes fs (sq_file h)) (sq_pos h) n in
      (fs, RSeqData (MkSequential (sq_file h) (sq_pos h + size r.1)) r.1 r.2)
  | OpSeqSkip h n =>
      let d := fs_bytes fs (sq_file h) in
      (fs, if sq_pos h >? size d then RSeqData h [] (Status_IOError (str "pos_ > file_->Size()") [])
           else RSeqData (MkSequential (sq_file h) (Z.min (sq_pos h + n) (size d))) [] Status_OK)
  | OpClose a => (fs_closed fs a, RStatus Status_OK)
  | OpFileExists fname => (fs, RBool (bool_decide (is_Some (fs_names fs !! fname))))
  | OpGetChildren dir => (fs, RNames (children dir (names_of (fs_names fs))))
  | OpRemoveFile fname =>
      match fs_names fs !! fname with
      | Some _ => (fs_link fs (delete fname (fs_names fs)), RStatus Status_OK)
      | None => (fs, RStatus (not_found fname))
      end
  | OpGetFileSize fname =>
      (fs, RSize match fs_names fs !! fname with Some a => inl (size (fs_bytes fs a)) | None => inr (not_found fname) end)
  | OpRenameFile src target =>
      match fs_names fs !! src with
      | Some a => (fs_link fs (<[target := a]> (delete src (fs_names fs))), RStatus Status_OK)
      | None => (fs, RStatus (not_found src))
      end
  end.

Fixpoint fs_run (fs : MemFs) (ops : list mem_op) : MemFs * list mem_result :=
  match ops with
  | [] => (fs, [])
  | op :: ops => let r := fs_step fs op in let r' := fs_run r.1 ops in (r'.1, r.2 :: r'.2)
  end.

(** What a caller has to keep to: handles are open ones, counts and sizes fit.  Two calls that
    the file system allows are not here: appending to a new name and renaming a name to
    itself. *)
Definition can_open (fs : MemFs) (fname : bytes) : Prop :=
  match fs_names fs !! fname with Some a => Z.of_nat (multiplicity a (fs_open fs)) < 2 ^ 31 - 2 | None => True end.

Definition mem_admissible (fs : MemFs) (op : mem_op) : Prop :=
  match op with
  | OpNewSequentialFile fname | OpNewRandomAccessFile fname | OpNewWritableFile fname => can_open fs fname
  | OpNewAppendableFile fname => is_Some (fs_names fs !! fname) /\ can_open fs fname
  | OpAppend a data => a ∈ fs_open fs /\ size (fs_bytes fs a) + size data < 2 ^ 64
  | OpRead a offset n => a ∈ fs_open fs /\ 0 <= offset /\ 0 <= n
  | OpSeqRead h n | OpSeqSkip h n => sq_file h ∈ fs_open fs /\ 0 <= sq_pos h /\ 0 <= n
  | OpClose a => a ∈ fs_open fs
  | OpRenameFile src target => src <> target
  | _ => True
  end.

#[export] Instance mem_admissible_dec fs op : Decision (mem_admissible fs op).
Proof.
  assert (forall n, Decision (can_open fs n)) by (intros n; unfold can_open; destruct (fs_names fs !! n); apply _).
  destruct op; cbn [mem_admissible]; apply _.
Defined.

Fixpoint mem_admissible_run (fs : MemFs) (ops : list mem_op) : Prop :=
  match ops with
  | [] => True
  | op :: ops => mem_admissible fs op /\ mem_admissible_run (fs_step fs op).1 ops
  end.

#[export] Instance mem_admissible_run_dec ops : forall fs, Decision (mem_admissible_run fs ops).
Proof. induction ops; intros fs; cbn [mem_admissible_run]; apply _. Defined.

(** ** The environment implements the file system *)

(** The references of a file: its name, and the handles. *)
Definition linked (m : gmap bytes Z) (a : Z) : Z := if bool_decide (a ∈ (map_img m : gset Z)) then 1 else 0.
Definition live_refs (m : gmap bytes Z) (o : gmultiset Z) (a : Z) : Z := linked m a + Z.of_nat (multiplicity a o).

(** A file has one name. *)
Definition names_inj (m : gmap bytes Z) : Prop := forall n1 n2 a, m !! n1 = Some a -> m !! n2 = Some a -> n1 = n2.

(** The heap has the files of positive count, with that count and their bytes. *)
Definition heap_rep (h : gmap Z FileState) (cnt : Z -> Z) (data : Z -> bytes) : Prop :=
  forall a, match h !! a with
            | Some f => refs_ f = cnt a /\ 0 < cnt a /\ holds_bytes f (data a)
            | None => cnt a = 0
            end.

Record env_rep (e : MemEnv) (fs : MemFs) : Prop := MkEnvRep {
  er_map : file_map_ e = Some <$> fs_names fs;
  er_next : me_next e = fs_next fs;
  er_inj : names_inj (fs_names fs);
  er_lt : forall a, 0 < live_refs (fs_names fs) (fs_open fs) a -> a < fs_next fs;
  er_heap : heap_rep (me_heap e) (live_refs (fs_names fs) (fs_open fs)) (fs_bytes fs) }.

Lemma linked_spec m a : (linked m a = 1 /\ exists n, m !! n = Some a) \/ (linked m a = 0 /\ forall n, m !! n <> Some a).
Proof.
  unfold linked. case_bool_decide as H; [left|right]; (split; [done|]).
  - by apply elem_of_map_img in H.
  - intros n Hn. apply H, elem_of_map_img. by exists n.
Qed.

(** *** The heap *)

Lemma heap_get e cnt data a : heap_rep (me_heap e) cnt data -> 0 < cnt a ->
  exists f, get_file e a = Ok f /\ me_heap e !! a = Some f /\ refs_ f = cnt a /\ holds_bytes f (data a).
Proof.
  intros H Ha. specialize (H a). unfold get_file. destruct (me_heap e !! a) as [f|]; [|lia]. exists f. destruct H as (?&?&?). by split_and!.
Qed.

(** A file gets a new count, or new bytes. *)
Lemma heap_rep_insert h cnt data cnt' data' a f : heap_rep h cnt data ->
  (forall b, b <> a -> cnt' b = cnt b /\ data' b = data b) -> refs_ f = cnt' a -> 0 < cnt' a -> holds_bytes f (data' a) ->
  heap_rep (<[a := f]> h) cnt' data'.
Proof.
  intros H Hb Hr Hc Hf b. destruct (decide (b = a)) as [->|Hne]; [by rewrite lookup_insert_eq|].
  rewrite lookup_insert_ne by done. destruct (Hb b Hne) as [-> ->]. apply H.
Qed.

Lemma heap_rep_ext h cnt data cnt' data' : heap_rep h cnt data -> (forall b, cnt' b = cnt b /\ (0 < cnt b -> data' b = data b)) -> heap_rep h cnt' data'.
Proof.
  intros H Hb b. specialize (H b). destruct (Hb b) as [E1 E2]. rewrite E1. destruct (h !! b); [|done]. destruct H as (?&Hp&?). by rewrite (E2 Hp).
Qed.

Lemma file_Ref_ok e cnt data cnt' a : heap_rep (me_heap e) cnt data -> 0 < cnt a -> cnt a + 1 < 2 ^ 31 ->
  (forall b, cnt' b = cnt b + if decide (b = a) then 1 else 0) ->
  exists h, file_Ref e a = Ok (MkEnv h (me_next e) (file_map_ e)) /\ heap_rep h cnt' data.
Proof.
  intros H Ha Hlt Hc. destruct (heap_get e cnt data a H Ha) as (f & E & _ & Hr & Hh). unfold file_Ref. rewrite E. cbn [res_bind]. rewrite Hr.
  destruct (Z.ltb_spec (cnt a + 1) (2 ^ 31)); [|lia]. eexists. split; [done|]. eapply heap_rep_insert; [exact H| | | |exact Hh].
  - intros b Hb. rewrite Hc, decide_False by done. split; [lia|done].
  - rewrite Hc, decide_True by done. cbn. lia.
  - rewrite Hc, decide_True by done. lia.
Qed.

Lemma file_Unref_ok e cnt data cnt' a : heap_rep (me_heap e) cnt data -> 0 < cnt a ->
  (forall b, cnt' b = cnt b - if decide (b = a) then 1 else 0) ->
  exists h, file_Unref e a = Ok (MkEnv h (me_next e) (file_map_ e)) /\ heap_rep h cnt' data.
Proof.
  intros H Ha Hc. destruct (heap_get e cnt data a H Ha) as (f & E & _ & Hr & Hh). unfold file_Unref. rewrite E. cbn [res_bind refs_ file_set_refs]. rewrite Hr.
  assert (Hca : cnt' a = cnt a - 1) by (rewrite Hc, decide_True by done; lia).
  assert (Hcb : forall b, b <> a -> cnt' b = cnt b) by (intros b Hb; rewrite Hc, decide_False by done; lia).
  destruct (Z.leb_spec (cnt a - 1) 0); eexists; (split; [done|]).
  - intros b. destruct (decide (b = a)) as [->|Hb]; [rewrite lookup_delete_eq; lia|]. rewrite lookup_delete_ne by done. rewrite Hcb by done. apply H.
  - eapply heap_rep_insert; [exact H| | | |exact Hh]; [intros b Hb; by rewrite Hcb|cbn; lia|lia].
Qed.

(** *** Names and counts *)

Lemma linked_delete m n a : names_inj m -> m !! n = Some a -> forall b, linked (delete n m) b = linked m b - if decide (b = a) then 1 else 0.
Proof.
  intros Hi Hn b. destruct (linked_spec m b) as [[-> (n' & Hn')]|[-> Hb]], (linked_spec (delete n m) b) as [[-> (n2 & Hn2)]|[-> Hb2]], (decide (b = a)) as [->|Hne]; try done.
  - exfalso. apply lookup_delete_Some in Hn2 as [Hd Hn2]. by destruct (Hd (Hi _ _ _ Hn Hn2)).
  - exfalso. apply (Hb2 n'). rewrite lookup_delete_ne; [done|]. congruence.
  - exfalso. by apply lookup_delete_Some in Hn2 as [_ ?%Hb].
  - exfalso. by apply lookup_delete_Some in Hn2 as [_ ?%Hb].
  - by destruct (Hb n).
Qed.

Lemma linked_insert m n a : m !! n = None -> linked m a = 0 -> forall b, linked (<[n := a]> m) b = linked m b + if decide (b = a) then 1 else 0.
Proof.
  intros Hn Ha b. destruct (decide (b = a)) as [->|Hne].
  - rewrite Ha. destruct (linked_spec (<[n := a]> m) a) as [[-> _]|[_ H]]; [done|]. destruct (H n). apply lookup_insert_eq.
  - rewrite Z.add_0_r. destruct (linked_spec m b) as [[-> (n' & Hn')]|[-> Hb]], (linked_spec (<[n := a]> m) b) as [[-> (n2 & Hn2)]|[-> Hb2]]; try done; exfalso.
    + apply (Hb2 n'). rewrite lookup_insert_ne; [done|]. congruence.
    + apply lookup_insert_Some in Hn2 as [[_ ?]|[_ ?%Hb]]; done.
Qed.

Lemma names_inj_delete m n : names_inj m -> names_inj (delete n m).
Proof. intros H n1 n2 a [_ H1]%lookup_delete_Some [_ H2]%lookup_delete_Some. by eapply H. Qed.

Lemma names_inj_insert m n a : names_inj m -> linked m a = 0 -> names_inj (<[n := a]> m).
Proof.
  intros H Ha. destruct (linked_spec m a) as [[? _]|[_ Hn]]; [lia|].
  intros n1 n2 b [[-> <-]|[_ H1]]%lookup_insert_Some [[-> E]|[_ H2]]%lookup_insert_Some; subst; try done; first [by destruct (Hn n1)|by destruct (Hn n2)|by eapply H].
Qed.

Lemma live_refs_open m o a b : live_refs m ({[+ a +]} ⊎ o) b = live_refs m o b + if decide (b = a) then 1 else 0.
Proof. unfold live_refs. rewrite multiplicity_disj_union, multiplicity_singleton. repeat case_decide; lia. Qed.

Lemma live_refs_close m o a b : a ∈ o -> live_refs m (o ∖ {[+ a +]}) b = live_refs m o b - if decide (b = a) then 1 else 0.
Proof.
  intros Ha. rewrite elem_of_multiplicity in Ha. unfold live_refs. rewrite multiplicity_difference, multiplicity_singleton. repeat case_decide; subst; lia.
Qed.

Lemma live_open m (o : gmultiset Z) a : a ∈ o -> 0 < live_refs m o a.
Proof. rewrite elem_of_multiplicity. intros Ha. unfold live_refs. destruct (linked_spec m a) as [[-> _]|[-> _]]; lia. Qed.

Lemma live_linked (m : gmap bytes Z) o n a : m !! n = Some a -> linked m a = 1 /\ 0 < live_refs m o a.
Proof. intros Hn. unfold live_refs. destruct (linked_spec m a) as [[-> _]|[_ H]]; [lia|by destruct (H n)]. Qed.

(** *** The calls *)

Lemma env_rep_new : env_rep NewMemEnv NewMemFs.
Proof.
  by split.
Qed.

Lemma er_lookup e fs n : env_rep e fs -> file_map_ e !! n = Some <$> fs_names fs !! n.
Proof. intros H. by rewrite (er_map _ _ H), lookup_fmap. Qed.

(** A reference that is added to a file with some. *)
Lemma env_open e fs a : env_rep e fs -> 0 < live_refs (fs_names fs) (fs_open fs) a < 2 ^ 31 - 1 ->
  exists e', file_Ref e a = Ok e' /\ env_rep e' (fs_opened fs a).
Proof.
  intros [Hm Hn Hi Hlt Hh] Ha.
  destruct (file_Ref_ok e _ _ (live_refs (fs_names fs) ({[+ a +]} ⊎ fs_open fs)) a Hh) as (h & E & Hh'); [lia|lia|intros b; apply live_refs_open|].
  eexists. split; [exact E|]. split; try done. cbn [fs_opened fs_names fs_open fs_next]. intros b. rewrite live_refs_open. destruct (decide (b = a)) as [->|]; intros ?; apply Hlt; lia.
Qed.

Lemma can_open_refs fs n a : can_open fs n -> fs_names fs !! n = Some a -> 0 < live_refs (fs_names fs) (fs_open fs) a < 2 ^ 31 - 1.
Proof. intros Hc Hn. unfold can_open in Hc. rewrite Hn in Hc. destruct (live_linked _ (fs_open fs) _ _ Hn) as [E ?]. split; [done|]. unfold live_refs. rewrite E. lia. Qed.

Lemma env_close e fs a : env_rep e fs -> a ∈ fs_open fs -> exists e', file_Unref e a = Ok e' /\ env_rep e' (fs_closed fs a).
Proof.
  intros [Hm Hn Hi Hlt Hh] Ha.
  destruct (file_Unref_ok e _ _ (live_refs (fs_names fs) (fs_open fs ∖ {[+ a +]})) a Hh) as (h & E & Hh'); [by apply live_open|intros b; by apply live_refs_close|].
  eexists. split; [exact E|]. split; try done. cbn [fs_closed fs_names fs_open fs_next]. intros b. rewrite live_refs_close by done. intros ?. apply Hlt. destruct (decide (b = a)); lia.
Qed.

(** New bytes for a file. *)
Lemma env_write e fs a d f f' : env_rep e fs -> me_heap e !! a = Some f -> refs_ f' = refs_ f -> holds_bytes f' d -> env_rep (set_state e a f') (fs_write fs a d).
Proof.
  intros [Hm Hn Hi Hlt Hh] Hf Hr Hd. split; try done. cbn [set_state me_heap fs_write fs_names fs_open]. pose proof (Hh a) as Ha. rewrite Hf in Ha. destruct Ha as (Ha & ? & _).
  eapply heap_rep_insert; [exact Hh| |lia|done|].
  - intros b Hb. split; [done|]. unfold fs_bytes. cbn [fs_write fs_data]. by rewrite lookup_insert_ne.
  - unfold fs_bytes. cbn [fs_write fs_data]. by rewrite lookup_insert_eq.
Qed.

(** A file that is open, or has a name. *)
Lemma env_get e fs a : env_rep e fs -> 0 < live_refs (fs_names fs) (fs_open fs) a ->
  exists f, get_file e a = Ok f /\ me_heap e !! a = Some f /\ holds_bytes f (fs_bytes fs a).
Proof. intros H Ha. destruct (heap_get e _ _ a (er_heap _ _ H) Ha) as (f & ? & ? & _ & ?). by exists f. Qed.

(** A name that goes, with its reference. *)
Lemma env_remove e fs n : env_rep e fs -> exists e', RemoveFileInternal e n = Ok e' /\ env_rep e' (fs_link fs (delete n (fs_names fs))).
Proof.
  intros H. unfold RemoveFileInternal. rewrite (er_lookup _ _ _ H). destruct (fs_names fs !! n) as [a|] eqn:En; cbn.
  - destruct H as [Hm Hn Hi Hlt Hh]. destruct (live_linked _ (fs_open fs) _ _ En) as [_ Hl].
    assert (Hc : forall b, live_refs (delete n (fs_names fs)) (fs_open fs) b = live_refs (fs_names fs) (fs_open fs) b - if decide (b = a) then 1 else 0).
    { intros b. unfold live_refs. rewrite (linked_delete _ _ _ Hi En). lia. }
    destruct (file_Unref_ok e _ _ _ a Hh Hl Hc) as (h & -> & Hh'). cbn. eexists. split; [done|]. split; cbn [set_map me_heap me_next file_map_ fs_link fs_names fs_open fs_next]; [|done| | |exact Hh'].
    + by rewrite Hm, fmap_delete.
    + by apply names_inj_delete.
    + intros b. rewrite Hc. intros ?. apply Hlt. destruct (decide (b = a)); lia.
  - exists e. split; [done|]. destruct fs. cbn in *. by rewrite delete_id.
Qed.

(** A new file, with its name. *)
Lemma env_create e fs n : env_rep e fs -> fs_names fs !! n = None ->
  let r := new_file e in
  r.2 = fs_next fs /\ env_rep (set_map r.1 (<[n := Some r.2]> (file_map_ r.1))) (fs_create fs n).
Proof.
  intros [Hm Hn Hi Hlt Hh] En. cbn. split; [done|]. rewrite Hn.
  assert (Hz : live_refs (fs_names fs) (fs_open fs) (fs_next fs) = 0).
  { destruct (Z.le_gt_cases (live_refs (fs_names fs) (fs_open fs) (fs_next fs)) 0) as [Hz|Hz%Hlt]; [|lia]. revert Hz. unfold live_refs. destruct (linked_spec (fs_names fs) (fs_next fs)) as [[-> _]|[-> _]]; lia. }
  assert (Hl : linked (fs_names fs) (fs_next fs) = 0) by (revert Hz; unfold live_refs; destruct (linked_spec (fs_names fs) (fs_next fs)) as [[-> _]|[-> _]]; lia).
  assert (Hc : forall b, live_refs (<[n := fs_next fs]> (fs_names fs)) (fs_open fs) b = live_refs (fs_names fs) (fs_open fs) b + if decide (b = fs_next fs) then 1 else 0).
  { intros b. unfold live_refs. rewrite (linked_insert _ _ _ En Hl). lia. }
  split; cbn [set_map me_heap me_next file_map_ fs_create fs_names fs_open fs_next].
  - by rewrite Hm, fmap_insert.
  - done.
  - by apply names_inj_insert.
  - intros b. rewrite Hc. destruct (decide (b = fs_next fs)) as [->|]; [lia|]. intros ?. assert (b < fs_next fs) by (apply Hlt; lia). lia.
  - eapply heap_rep_insert; [exact Hh| | | |].
    + intros b Hb. rewrite Hc, decide_False by done. split; [lia|]. unfold fs_bytes. cbn [fs_create fs_data]. by rewrite lookup_insert_ne.
    + rewrite Hc, decide_True, Hz by done. done.
    + rewrite Hc, decide_True, Hz by done. done.
    + unfold fs_bytes. cbn [fs_create fs_data]. rewrite lookup_insert_eq. apply (Truncate_holds (file_set_refs NewFileState 1)).
Qed.

(** A name that is given to another file. *)
Lemma env_rename e fs src target a : env_rep e fs -> src <> target -> fs_names fs !! src = Some a -> fs_names fs !! target = None ->
  env_rep (set_map e (delete src (<[target := Some a]> (file_map_ e)))) (fs_link fs (<[target := a]> (delete src (fs_names fs)))).
Proof.
  intros [Hm Hn Hi Hlt Hh] Hne Es Et.
  assert (Hl : linked (delete src (fs_names fs)) a = 0).
  { rewrite (linked_delete _ _ _ Hi Es), decide_True by done. destruct (live_linked _ ∅ _ _ Es) as [-> _]. done. }
  assert (Hc : forall b, live_refs (<[target := a]> (delete src (fs_names fs))) (fs_open fs) b = live_refs (fs_names fs) (fs_open fs) b).
  { intros b. unfold live_refs. rewrite linked_insert; [|by rewrite lookup_delete_ne|done]. rewrite (linked_delete _ _ _ Hi Es). lia. }
  split; cbn [set_map me_heap me_next file_map_ fs_link fs_names fs_open fs_next]; [|done| | |].
  - rewrite Hm, fmap_insert, fmap_delete. by rewrite delete_insert_ne.
  - apply names_inj_insert; [by apply names_inj_delete|done].
  - intros b. rewrite Hc. apply Hlt.
  - eapply heap_rep_ext; [exact Hh|]. intros b. by rewrite Hc.
Qed.

Lemma names_of_rep e fs : env_rep e fs -> names_of (file_map_ e) = names_of (fs_names fs).
Proof. intros H. unfold names_of. by rewrite (er_map _ _ H), dom_fmap_L. Qed.

Lemma size_read d offset n : 0 <= offset -> 0 <= n -> size (fs_read d offset n).1 = if offset >? size d then 0 else Z.min n (size d - offset).
Proof. intros. unfold fs_read. destruct (Z.gtb_spec offset (size d)); [done|]. cbn. unfold size in *. rewrite length_take, length_drop. lia. Qed.

(** Every call gives the result of the file system and keeps the two in step. *)
Lemma mem_step_refines e fs op : env_rep e fs -> mem_admissible fs op ->
  exists e', mem_step e op = Ok (e', (fs_step fs op).2) /\ env_rep e' (fs_step fs op).1.
Proof.
  intros H Ha. destruct op as [fname|fname|fname|fname|a data|a o n|h n|h n|a|fname|dir|fname|fname|src target]; cbn [mem_step fs_step mem_admissible] in *.
  - unfold mem_NewSequentialFile. rewrite (er_lookup _ _ _ H). destruct (fs_names fs !! fname) as [a|] eqn:En; cbn; [|by exists e].
    destruct (env_open e fs a H) as (e' & -> & H'); [by eapply can_open_refs|]. by exists e'.
  - unfold mem_NewRandomAccessFile. rewrite (er_lookup _ _ _ H). destruct (fs_names fs !! fname) as [a|] eqn:En; cbn; [|by exists e].
    destruct (env_open e fs a H) as (e' & -> & H'); [by eapply can_open_refs|]. by exists e'.
  - unfold mem_NewWritableFile. rewrite (er_lookup _ _ _ H). destruct (fs_names fs !! fname) as [a|] eqn:En; cbn -[new_file file_Ref set_state].
    + pose proof (can_open_refs _ _ _ Ha En) as Hl. destruct (env_get e fs a H ltac:(lia)) as (f & -> & Hf & Hd). cbn -[file_Ref set_state].
      pose proof (env_write e fs a [] f (Truncate f) H Hf eq_refl (Truncate_holds f)) as H1.
      destruct (env_open _ _ a H1) as (e' & -> & H'); [done|]. by exists e'.
    + destruct (env_create e fs fname H En) as [E2 H1]. destruct (new_file e) as [e1 a]. cbn -[file_Ref] in *. subst a.
      destruct (env_open _ _ (fs_next fs) H1) as (e' & -> & H'); [|by exists e'].
      apply (can_open_refs (fs_create fs fname) fname); [|apply lookup_insert_eq]. unfold can_open. cbn [fs_create fs_names fs_open]. rewrite lookup_insert_eq.
      assert (Hm : multiplicity (fs_next fs) (fs_open fs) = 0%nat); [|by rewrite Hm].
      apply not_elem_of_multiplicity. intros Hin. apply (live_open (fs_names fs)), (er_lt _ _ H) in Hin. lia.
  - destruct Ha as [[a En] Ha]. rewrite En. unfold mem_NewAppendableFile. rewrite (er_lookup _ _ _ H), En. cbn -[file_Ref].
    rewrite insert_id by (by rewrite (er_lookup _ _ _ H), En). destruct (env_open e fs a H) as (e' & E & H'); [by eapply can_open_refs|].
    exists e'. destruct e. unfold set_map. cbn -[file_Ref fs_opened] in *. by rewrite E.
  - destruct Ha as [Hin Hs]. unfold writable_Append. destruct (env_get e fs a H (live_open _ _ _ Hin)) as (f & -> & Hf & Hd). cbn -[set_state].
    destruct (file_Append_ok f _ data Hd Hs) as (f' & -> & Hd' & Hr). cbn -[set_state]. eexists. split; [done|]. by eapply env_write.
  - destruct Ha as (Hin & Ho & Hn). unfold rand_Read. destruct (env_get e fs a H (live_open _ _ _ Hin)) as (f & -> & Hf & Hd). cbn.
    rewrite (file_Read_ok _ _ _ _ Hd Ho Hn). cbn. by exists e.
  - destruct Ha as (Hin & Ho & Hn). unfold seq_Read. destruct (env_get e fs _ H (live_open _ _ _ Hin)) as (f & -> & Hf & Hd). cbn [res_bind].
    rewrite (file_Read_ok _ _ _ _ Hd Ho Hn). cbn [res_bind fst snd]. exists e. split; [|done].
    pose proof (size_read (fs_bytes fs (sq_file h)) _ _ Ho Hn) as Hsz. unfold fs_read in *. destruct Hd as (_ & _ & Hd).
    destruct (Z.gtb_spec (sq_pos h) (size (fs_bytes fs (sq_file h)))); cbn [fst snd Status_ok] in *.
    + destruct h. cbn. by rewrite Z.add_0_r.
    + cbn. rewrite wrap_id; [done|]. unfold fits. lia.
  - destruct Ha as (Hin & Ho & Hn). unfold seq_Skip. destruct (env_get e fs _ H (live_open _ _ _ Hin)) as (f & -> & Hf & Hb & Hs & Hd). cbn [res_bind]. rewrite Hs. exists e. split; [|done].
    destruct (Z.gtb_spec (sq_pos h) (size (fs_bytes fs (sq_file h)))); cbn [res_bind fst snd]; [done|]. rewrite wrap_id by (unfold fits; lia). do 4 f_equal. lia.
  - destruct (env_close e fs a H Ha) as (e' & -> & H'). by exists e'.
  - exists e. split; [|done]. unfold mem_FileExists. rewrite (er_lookup _ _ _ H). by destruct (fs_names fs !! fname).
  - exists e. split; [|done]. unfold mem_GetChildren. by rewrite (names_of_rep _ _ H).
  - unfold mem_RemoveFile. rewrite (er_lookup _ _ _ H). destruct (fs_names fs !! fname) eqn:En; cbn; [|by exists e].
    destruct (env_remove e fs fname H) as (e' & -> & H'). by exists e'.
  - unfold mem_GetFileSize. rewrite (er_lookup _ _ _ H). destruct (fs_names fs !! fname) as [a|] eqn:En; cbn; [|by exists e].
    destruct (live_linked _ (fs_open fs) _ _ En) as [_ Hl]. destruct (env_get e fs _ H Hl) as (f & -> & Hf & Hb & Hs & Hd). cbn. rewrite Hs. by exists e.
  - unfold mem_RenameFile. rewrite (er_lookup _ _ _ H). destruct (fs_names fs !! src) as [a|] eqn:En; cbn -[fs_link set_map]; [|by exists e].
    destruct (env_remove e fs target H) as (e' & -> & H'). cbn -[fs_link set_map]. rewrite (er_lookup _ _ _ H'). cbn [fs_link fs_names]. rewrite lookup_delete_ne, En by done.
    eexists. split; [done|]. cbn [fmap option_fmap option_map default].
    pose proof (env_rename e' _ src target a H' Ha) as H2. cbn [fs_link fs_names fs_data fs_open fs_next] in H2.
    rewrite delete_delete, insert_delete_eq in H2. apply H2; [by rewrite lookup_delete_ne|apply lookup_delete_eq].
Qed.

Lemma mem_run_refines ops : forall e fs, env_rep e fs -> mem_admissible_run fs ops ->
  exists e', mem_run e ops = Ok (e', (fs_run fs ops).2) /\ env_rep e' (fs_run fs ops).1.
Proof.
  induction ops as [|op ops IH]; intros e fs H Ha; [by exists e|]. destruct Ha as [Ha Hr].
  destruct (mem_step_refines e fs op H Ha) as (e1 & E1 & H1). destruct (IH e1 _ H1 Hr) as (e2 & E2 & H2).
  exists e2. cbn [mem_run fs_run]. rewrite E1. cbn [res_bind fst]. by rewrite E2.
Qed.

(** The heap has the files in use and no other. *)
Lemma heap_live e fs a : env_rep e fs -> is_Some (me_heap e !! a) <-> a ∈ fs_open fs \/ exists n, fs_names fs !! n = Some a.
Proof.
  intros H. pose proof (er_heap _ _ H a) as Ha. unfold live_refs in Ha. rewrite elem_of_multiplicity.
  destruct (me_heap e !! a) as [f|], (linked_spec (fs_names fs) a) as [[E (n & Hn)]|[E Hno]]; rewrite E in Ha; split.
  - intros _. right. by exists n.
  - by eexists.
  - intros _. left. lia.
  - by eexists.
  - by intros [? ?].
  - lia.
  - by intros [? ?].
  - intros [?|[n ?%Hno]]; [lia|done].
Qed.

Lemma unref_all_ok l : forall e cnt data, heap_rep (me_heap e) cnt data -> NoDup l -> (forall a, cnt a = if decide (a ∈ l) then 1 else 0) ->
  exists e', unref_all (Ok e) (Some <$> l) = Ok e' /\ me_heap e' = ∅.
Proof.
  induction l as [|a l IH]; intros e cnt data H Hnd Hc.
  - exists e. split; [done|]. apply map_eq. intros a. specialize (H a). rewrite Hc, decide_False in H by set_solver. rewrite lookup_empty. destruct (me_heap e !! a); [lia|done].
  - apply list.NoDup_cons in Hnd as [Hna Hnd]. assert (Hca : cnt a = 1) by (rewrite Hc, decide_True; [done|set_solver]).
    destruct (file_Unref_ok e cnt data (fun b => if decide (b ∈ l) then 1 else 0) a H) as (h & E & Hh); [lia| |].
    + intros b. rewrite Hc. destruct (decide (b = a)) as [->|Hne].
      * by rewrite decide_False, decide_True by set_solver.
      * rewrite Z.sub_0_r. apply decide_ext. set_solver.
    + cbn [fmap list_fmap unref_all foldl deref res_bind]. rewrite E. eapply IH; [exact Hh|done|done].
Qed.

Lemma Destroy_frees e fs : env_rep e fs -> fs_open fs = ∅ -> exists e', mem_Destroy e = Ok e' /\ me_heap e' = ∅.
Proof.
  intros H Ho. unfold mem_Destroy.
  set (l := (map_to_list (file_map_ e)).*2). assert (El : l = Some <$> (default 0 <$> l)).
  { rewrite <- list_fmap_compose. rewrite <- (list_fmap_id l) at 1. apply list_fmap_ext. intros i p Hp. apply list_elem_of_lookup_2 in Hp.
    unfold l in Hp. apply list_elem_of_fmap in Hp as ([n p'] & -> & Hin). apply elem_of_map_to_list in Hin. rewrite (er_lookup _ _ _ H) in Hin.
    by destruct (fs_names fs !! n); [injection Hin as <-|]. }
  assert (Hl : forall a, a ∈ (default 0 <$> l) <-> exists n, fs_names fs !! n = Some a).
  { intros a. rewrite list_elem_of_fmap. unfold l. split.
    - intros (p & -> & Hp). apply list_elem_of_fmap in Hp as ([n p'] & -> & Hin). apply elem_of_map_to_list in Hin. rewrite (er_lookup _ _ _ H) in Hin.
      destruct (fs_names fs !! n) eqn:En; [|done]. injection Hin as <-. by exists n.
    - intros (n & Hn). exists (Some a). split; [done|]. apply list_elem_of_fmap. exists (n, Some a). split; [done|]. apply elem_of_map_to_list. by rewrite (er_lookup _ _ _ H), Hn. }
  rewrite El. eapply unref_all_ok; [exact (er_heap _ _ H)| |].
  - unfold l. rewrite <- list_fmap_compose. apply NoDup_fmap_2_strong; [|apply NoDup_map_to_list].
    intros [n1 p1] [n2 p2] H1%elem_of_map_to_list H2%elem_of_map_to_list. rewrite (er_lookup _ _ _ H) in H1. rewrite (er_lookup _ _ _ H) in H2. cbn.
    destruct (fs_names fs !! n1) as [a1|] eqn:E1, (fs_names fs !! n2) as [a2|] eqn:E2; try done. injection H1 as <-. injection H2 as <-. cbn. intros <-.
    by rewrite (er_inj _ _ H n1 n2 a1).
  - intros a. unfold live_refs. rewrite Ho, multiplicity_empty, Z.add_0_r.
    destruct (linked_spec (fs_names fs) a) as [[-> Hn]|[-> Hn]]; case_decide as Hd; try done; rewrite Hl in Hd; [done|]. by destruct Hd as [? ?%Hn].
Qed.

(** The children of a directory are the names under it. *)
Lemma is_child_spec dir n : is_child dir n = true <-> exists b, n = dir ++ byte_of_Z 47 :: b.
Proof.
  unfold is_child. rewrite !andb_true_iff, Slice_starts_with_spec, bool_decide_eq_true, Z.eqb_eq, Z.geb_le. split.
  - intros [[Hs Hc] Hp]. rewrite <- (take_drop (length dir) n) in Hs, Hc |- *. rewrite Hp in *. destruct (drop (length dir) n) as [|x r].
    + rewrite app_nil_r in Hs. lia.
    + exists r. do 2 f_equal. unfold byte_at in Hc. rewrite app_nth2, Nat.sub_diag in Hc by lia. apply (inj Z_of_byte). by rewrite Z_of_byte_of_Z.
  - intros [b ->]. rewrite size_app, size_cons, take_app_length. unfold byte_at. rewrite app_nth2, Nat.sub_diag by lia. cbn. rewrite Z_of_byte_of_Z. pose proof (size_nonneg b). split_and!; [lia|done|done].
Qed.

Lemma children_spec (m : gmap bytes Z) dir b : b ∈ children dir (names_of m) <-> is_Some (m !! (dir ++ byte_of_Z 47 :: b)).
Proof.
  rewrite <- elem_of_dom. unfold children, names_of. rewrite list_elem_of_fmap.
  assert (Hin : forall n, n ∈ List.filter (is_child dir) (merge_sort name_le (elements (dom m : gset bytes))) <-> n ∈ dom m /\ exists b, n = dir ++ byte_of_Z 47 :: b).
  { intros n. by rewrite list_elem_of_In, filter_In, <- list_elem_of_In, merge_sort_Permutation, elem_of_elements, is_child_spec. }
  assert (Hd : forall b, drop (length dir + 1) (dir ++ byte_of_Z 47 :: b) = b) by (intros b'; by rewrite <- drop_drop, drop_app_length).
  split.
  - intros (n & -> & [Hn [b' ->]]%Hin). by rewrite Hd.
  - intros Hb. exists (dir ++ byte_of_Z 47 :: b). rewrite Hd. split; [done|]. apply Hin. by split; [|exists b].
Qed.

(** ** The theorem *)

(** C20. The environment in memory is a file system.  Take any run of calls from a new
    environment in which the handles used are open ones, sizes and counts fit their types, no
    missing name is opened for appending and no name is renamed to itself.  Then no call
    follows a null pointer, touches a deleted file or reads a byte that was never written, and
    each one returns what it returns on a file system in which a file is just a byte string: a
    read has the bytes appended before it, across the blocks, a file keeps its bytes while it
    is open and its name is gone, and renaming replaces the target.  After the run exactly the
    files that have a name or an open handle are in memory, and when no handle is open the
    destructor frees all of them. *)
Theorem memenv_refines ops : mem_admissible_run NewMemFs ops ->
  let fs := (fs_run NewMemFs ops).1 in
  exists e, mem_run NewMemEnv ops = Ok (e, (fs_run NewMemFs ops).2) /\
  (forall a, is_Some (me_heap e !! a) <-> a ∈ fs_open fs \/ exists n, fs_names fs !! n = Some a) /\
  (fs_open fs = ∅ -> exists e', mem_Destroy e = Ok e' /\ me_heap e' = ∅).
Proof.
  intros Ha fs. destruct (mem_run_refines ops _ _ env_rep_new Ha) as (e & E & H). exists e. split; [exact E|]. split.
  - intros a. by apply heap_live.
  - by apply (Destroy_frees e).
Qed.

Definition mem_example : list mem_op :=
  [OpNewWritableFile (str "/db/a"); OpAppend 1 (str "abc"); OpNewSequentialFile (str "/db/a"); OpAppend 1 (str "def");
   OpRenameFile (str "/db/a") (str "/db/b"); OpGetChildren (str "/db"); OpRemoveFile (str "/db/b"); OpSeqRead (MkSequential 1 0) 4;
   OpGetFileSize (str "/db/b"); OpClose 1; OpClose 1].

Lemma memenv_refines_witness : exists e,
  mem_run NewMemEnv mem_example = Ok (e,
    [RFile (inl 1); RStatus Status_OK; RSeq (inl (MkSequential 1 0)); RStatus Status_OK; RStatus Status_OK; RNames [str "b"]; RStatus Status_OK;
     RSeqData (MkSequential 1 4) (str "abcd") Status_OK; RSize (inr (not_found (str "/db/b"))); RStatus Status_OK; RStatus Status_OK]).
Proof.
  assert (Ha : mem_admissible_run NewMemFs mem_example) by (apply (bool_decide_unpack _); by vm_compute).
  destruct (memenv_refines mem_example Ha) as (e & E & _). exists e. rewrite E. by vm_compute.
Defined.

(** ** What the environment does not do *)

(** A file opened for appending under a new name is not the file of that name: the name has no
    file, asking for its size follows the null pointer, and what is appended is lost. *)
Lemma NewAppendableFile_new_name_is_null :
  exists e a, mem_NewAppendableFile NewMemEnv (str "/db/LOG") = Ok (e, a) /\ mem_FileExists e (str "/db/LOG") = true /\
  file_map_ e !! str "/db/LOG" = Some None /\ mem_GetFileSize e (str "/db/LOG") = Undefined /\ mem_NewSequentialFile e (str "/db/LOG") = Undefined.
Proof. exists (MkEnv {[1 := MkFile 2 [] 0]} 2 {[str "/db/LOG" := None]}), 1. split_and!; vm_compute; reflexivity. Qed.

(** Renaming a file to its own name reports success and removes the file. *)
Lemma RenameFile_to_itself_removes e a fname : file_map_ e !! fname = Some (Some a) -> (exists f, me_heap e !! a = Some f) ->
  exists e', mem_RenameFile e fname fname = Ok (e', Status_OK) /\ file_map_ e' !! fname = None.
Proof.
  intros Hn [f Hf]. unfold mem_RenameFile, RemoveFileInternal. rewrite Hn. cbn [deref res_bind]. unfold file_Unref, get_file. rewrite Hf. cbn [res_bind].
  destruct (refs_ _ <=? 0); cbn [res_bind]; eexists; (split; [done|]); apply lookup_delete_eq.
Qed.
