(* ===== verification/DbFormat.v ===== *)
(** * Internal keys

    Models [cpp/leveldb/db/dbformat.h] and [cpp/leveldb/db/dbformat.cc]: the
    packing of a sequence number and a value type behind a user key, the
    comparator that orders internal keys, lookup keys and the filter policy
    wrapper. *)
From S2P Require Import Prelude Coding Logging Comparator Bloom.

(** ** Configuration *)

Definition kNumLevels : Z := 7.
Definition kL0_CompactionTrigger : Z := 4.
Definition kL0_SlowdownWritesTrigger : Z := 8.
Definition kL0_StopWritesTrigger : Z := 12.
Definition kMaxMemCompactLevel : Z := 2.
Definition kReadBytesPeriod : Z := 1048576.

(** ** Internal keys *)

(** [enum ValueType]; a byte read from disk may hold another value. *)
Definition kTypeDeletion : Z := 0.
Definition kTypeValue : Z := 1.
Definition kValueTypeForSeek : Z := kTypeValue.

Definition kMaxSequenceNumber : Z := 1 ≪ 56 - 1.

Record ParsedInternalKey := MkParsed {
  user_key : bytes;
  sequence : Z;
  type : Z
}.

#[export] Instance ParsedInternalKey_eq_dec : EqDecision ParsedInternalKey.
Proof. solve_decision. Defined.

Definition InternalKeyEncodingLength (key : ParsedInternalKey) : Z :=
  size (user_key key) + 8.

Definition PackSequenceAndType (seq t : Z) : Z := Z.lor (u64 (seq ≪ 8)) t.

Definition AppendInternalKey (result : bytes) (key : ParsedInternalKey) : bytes :=
  PutFixed64 (result ++ user_key key) (PackSequenceAndType (sequence key) (type key)).

Definition ExtractUserKey (internal_key : bytes) : bytes :=
  take (length internal_key - 8) internal_key.

(** The packed number at the end of an internal key. *)
Definition key_tag (internal_key : bytes) : Z :=
  DecodeFixed64 (drop (length internal_key - 8) internal_key).

(** [None] is the result [false]. *)
Definition ParseInternalKey (internal_key : bytes) : option ParsedInternalKey :=
  if (length internal_key <? 8)%nat then None
  else
    let num := key_tag internal_key in
    let c := u8 (Z.land num 0xff) in
    if c <=? kTypeValue then
      Some (MkParsed (ExtractUserKey internal_key) (num ≫ 8) c)
    else None.

(** [ParsedInternalKey::DebugString] and [InternalKey::DebugString] *)
Definition ParsedInternalKey_DebugString (k : ParsedInternalKey) : bytes :=
  str "'" ++ EscapeString (user_key k) ++ str "' @ " ++ decimal (sequence k)
    ++ str " : " ++ decimal (type k).

Definition InternalKey_DebugString (rep_ : bytes) : bytes :=
  match ParseInternalKey rep_ with
  | Some parsed => ParsedInternalKey_DebugString parsed
  | None => str "(bad)" ++ EscapeString rep_
  end.

(** [class InternalKey] is its string [rep_]. *)
Definition InternalKey (user_key : bytes) (s t : Z) : bytes :=
  AppendInternalKey [] (MkParsed user_key s t).

(** [InternalKey::DecodeFrom]: the new [rep_] and the result. *)
Definition InternalKey_DecodeFrom (s : bytes) : bytes * bool :=
  (s, negb (length s =? 0)%nat).

(** ** The internal key comparator *)

Section comparator.
Context (user_comparator_ : Comparator).

Definition Internal_Compare (akey bkey : bytes) : Z :=
  let r := cmp_Compare (ExtractUserKey akey) (ExtractUserKey bkey) in
  if r =? 0 then
    let anum := key_tag akey in
    let bnum := key_tag bkey in
    if anum >? bnum then -1 else if anum <? bnum then 1 else r
  else r.

Definition Internal_FindShortestSeparator (start limit : bytes) : bytes :=
  let user_start := ExtractUserKey start in
  let user_limit := ExtractUserKey limit in
  let tmp := cmp_FindShortestSeparator user_start user_limit in
  if (size tmp <? size user_start) && (cmp_Compare user_start tmp <? 0) then
    PutFixed64 tmp (PackSequenceAndType kMaxSequenceNumber kValueTypeForSeek)
  else start.

Definition Internal_FindShortSuccessor (key : bytes) : bytes :=
  let user_key := ExtractUserKey key in
  let tmp := cmp_FindShortSuccessor user_key in
  if (size tmp <? size user_key) && (cmp_Compare user_key tmp <? 0) then
    PutFixed64 tmp (PackSequenceAndType kMaxSequenceNumber kValueTypeForSeek)
  else key.

Definition InternalKeyComparator : Comparator := {|
  cmp_Name := str "leveldb.InternalKeyComparator";
  cmp_Compare := Internal_Compare;
  cmp_FindShortestSeparator := Internal_FindShortestSeparator;
  cmp_FindShortSuccessor := Internal_FindShortSuccessor
|}.
End comparator.

(** ** The filter policy wrapper *)

(** [CreateFilter] strips the keys in place in the caller's array; the callers
    do not read it again. *)
Definition InternalFilterPolicy (user_policy_ : FilterPolicy) : FilterPolicy := {|
  fp_Name := fp_Name;
  fp_CreateFilter keys dst := fp_CreateFilter (map ExtractUserKey keys) dst;
  fp_KeyMayMatch key f := fp_KeyMayMatch (ExtractUserKey key) f
|}.

(** ** Lookup keys *)

(** The array [start_ .. end_), with [kstart_] as an offset. *)
Record LookupKey := { lk_start : bytes; lk_kstart : nat }.

Definition NewLookupKey (user_key : bytes) (s : Z) : LookupKey :=
  let usize := size user_key in
  let len := EncodeVarint32 (u32 (usize + 8)) in
  {| lk_start := len ++ user_key ++ EncodeFixed64 (PackSequenceAndType s kValueTypeForSeek);
     lk_kstart := length len |}.

Definition memtable_key (k : LookupKey) : bytes := lk_start k.
Definition internal_key (k : LookupKey) : bytes := drop (lk_kstart k) (lk_start k).
Definition lookup_user_key (k : LookupKey) : bytes :=
  take (length (lk_start k) - lk_kstart k - 8) (drop (lk_kstart k) (lk_start k)).

(** ** Lemmas *)

Definition seq_ok (s : Z) : Prop := 0 <= s <= kMaxSequenceNumber.
Definition type_ok (t : Z) : Prop := t = kTypeDeletion \/ t = kTypeValue.

Definition parsed_ok (k : ParsedInternalKey) : Prop := seq_ok (sequence k) /\ type_ok (type k).

Lemma Pack_eq seq t : seq_ok seq -> 0 <= t < 256 -> PackSequenceAndType seq t = seq * 256 + t.
Proof.
  unfold seq_ok, kMaxSequenceNumber, PackSequenceAndType. rewrite Z.shiftl_1_l. intros Hs Ht.
  rewrite Z.shiftl_mul_pow2 by lia. rewrite wrap_id by (unfold fits; lia).
  rewrite Z.lor_comm, lor_mul_add by lia. lia.
Qed.

Lemma Pack_fits seq t : seq_ok seq -> 0 <= t < 256 -> fits 64 (PackSequenceAndType seq t).
Proof.
  intros Hs Ht. rewrite Pack_eq by done. revert Hs.
  unfold seq_ok, kMaxSequenceNumber, fits. rewrite Z.shiftl_1_l. lia.
Qed.

Lemma type_ok_range t : type_ok t -> 0 <= t <= 1.
Proof. intros [->| ->]; unfold kTypeDeletion, kTypeValue; lia. Qed.

Lemma InternalKey_app u s t :
  InternalKey u s t = u ++ EncodeFixed64 (PackSequenceAndType s t).
Proof. done. Qed.

Lemma ExtractUserKey_app u tag : ExtractUserKey (u ++ EncodeFixed64 tag) = u.
Proof.
  unfold ExtractUserKey. rewrite length_app, length_EncodeFixed64.
  replace (length u + 8 - 8)%nat with (length u) by lia. apply take_app_length.
Qed.

Lemma key_tag_app u tag : fits 64 tag -> key_tag (u ++ EncodeFixed64 tag) = tag.
Proof.
  intros. unfold key_tag. rewrite length_app, length_EncodeFixed64.
  replace (length u + 8 - 8)%nat with (length u) by lia.
  rewrite drop_app_length, <- (app_nil_r (EncodeFixed64 tag)), DecodeFixed64_encode.
  by apply wrap_id.
Qed.

Create Rewrite HintDb dbformat.
#[export] Hint Rewrite ExtractUserKey_app : dbformat.

Lemma key_tag_InternalKey u s t :
  seq_ok s -> 0 <= t < 256 -> key_tag (InternalKey u s t) = s * 256 + t.
Proof. intros. rewrite InternalKey_app, key_tag_app, Pack_eq by auto using Pack_fits. done. Qed.

Lemma ParseInternalKey_InternalKey u s t :
  seq_ok s -> type_ok t -> ParseInternalKey (InternalKey u s t) = Some (MkParsed u s t).
Proof.
  intros Hs Ht. pose proof (type_ok_range t Ht). unfold ParseInternalKey.
  rewrite key_tag_InternalKey by (lia || done). rewrite InternalKey_app.
  rewrite ExtractUserKey_app, length_app, length_EncodeFixed64.
  destruct (Nat.ltb_spec (length u + 8) 8); [lia|].
  change 0xff with (2 ^ 8 - 1). rewrite land_ones_mod by lia.
  replace ((s * 256 + t) mod 2 ^ 8) with t by zdiv.
  rewrite wrap_id by (unfold fits; lia). unfold kTypeValue. zcase; [|lia].
  rewrite Z.shiftr_div_pow2 by lia. do 2 f_equal. zdiv.
Qed.

Lemma ParseInternalKey_Some ikey k :
  ParseInternalKey ikey = Some k ->
  ikey = InternalKey (user_key k) (sequence k) (type k) /\ parsed_ok k.
Proof.
  unfold ParseInternalKey. destruct (Nat.ltb_spec (length ikey) 8); [done|].
  unfold kTypeValue. zcase; [|done]. intros [= <-]. simpl.
  pose proof (DecodeFixed64_fits (drop (length ikey - 8) ikey)) as Hf.
  fold (key_tag ikey) in Hf. set (num := key_tag ikey) in *. unfold fits in Hf.
  change 255 with (2 ^ 8 - 1) in *. rewrite land_ones_mod in * by lia.
  rewrite (wrap_id 8 (num mod 2 ^ 8)) in * by (unfold fits; zdiv).
  assert (Hs : seq_ok (num ≫ 8)).
  { unfold seq_ok, kMaxSequenceNumber. rewrite Z.shiftl_1_l, Z.shiftr_div_pow2 by lia. zdiv. }
  assert (Ht : type_ok (num mod 2 ^ 8)).
  { unfold type_ok, kTypeDeletion, kTypeValue.
    pose proof (Z.mod_pos_bound num (2 ^ 8) ltac:(lia)). lia. }
  split; [|done]. rewrite InternalKey_app, Pack_eq by (try done; zdiv).
  replace ((num ≫ 8) * 256 + num mod 2 ^ 8) with num
    by (rewrite Z.shiftr_div_pow2 by lia; zdiv).
  unfold ExtractUserKey. rewrite <- (take_drop (length ikey - 8) ikey) at 1. f_equal.
  unfold num, key_tag. set (l := drop (length ikey - 8) ikey).
  symmetry. apply EncodeFixed64_decode. unfold l. rewrite length_drop. lia.
Qed.

(** ** The order of internal keys *)

Section order.
Context `{C : Comparator} `{!ComparatorLaws C}.

(** Increasing user key, then decreasing tag. *)
Lemma Internal_Compare_sgn a b :
  Z.sgn (Internal_Compare C a b) =
    if decide (cmp_Compare (ExtractUserKey a) (ExtractUserKey b) = 0)
    then Z.sgn (key_tag b - key_tag a)
    else Z.sgn (cmp_Compare (ExtractUserKey a) (ExtractUserKey b)).
Proof.
  unfold Internal_Compare. rewrite Z.gtb_ltb.
  destruct (decide _) as [->|Hne]; simpl.
  - repeat zcase; simpl; lia.
  - by destruct (Z.eqb_spec (cmp_Compare (ExtractUserKey a) (ExtractUserKey b)) 0).
Qed.

Lemma Internal_Compare_le a b :
  Internal_Compare C a b <= 0 <->
    cmp_Compare (ExtractUserKey a) (ExtractUserKey b) < 0 \/
    (cmp_Compare (ExtractUserKey a) (ExtractUserKey b) = 0 /\ key_tag b <= key_tag a).
Proof. pose proof (Internal_Compare_sgn a b). destruct (decide _); lia. Qed.

Lemma Internal_Compare_lt a b :
  Internal_Compare C a b < 0 <->
    cmp_Compare (ExtractUserKey a) (ExtractUserKey b) < 0 \/
    (cmp_Compare (ExtractUserKey a) (ExtractUserKey b) = 0 /\ key_tag b < key_tag a).
Proof. pose proof (Internal_Compare_sgn a b). destruct (decide _); lia. Qed.

Lemma max_tag : PackSequenceAndType kMaxSequenceNumber kValueTypeForSeek = 2 ^ 64 - 255.
Proof. reflexivity. Qed.


Lemma Internal_separator s l :
  Internal_Compare C s l < 0 ->
  Internal_Compare C s (Internal_FindShortestSeparator C s l) <= 0 /\
  Internal_Compare C (Internal_FindShortestSeparator C s l) l < 0.
Proof.
  intros Hsl. assert (Hss : Internal_Compare C s s <= 0).
  { apply Internal_Compare_le. right. split; [apply cmp_refl|lia]. }
  unfold Internal_FindShortestSeparator. set (us := ExtractUserKey s).
  set (ul := ExtractUserKey l). set (tmp := cmp_FindShortestSeparator us ul).
  destruct (_ && _) eqn:E; [|done]. apply andb_prop in E as [_ E2].
  apply Z.ltb_lt in E2. unfold PutFixed64.
  rewrite Internal_Compare_le, Internal_Compare_lt, ExtractUserKey_app.
  fold us ul. split; [by left|]. left.
  apply Internal_Compare_lt in Hsl as [Hlt|[Heq _]].
  - by apply (cmp_separator us ul).
  - pose proof (cmp_separator_eq us ul Heq). unfold tmp in *. lia.
Qed.

#[export] Instance InternalKeyComparatorLaws : ComparatorLaws (InternalKeyComparator C).
Proof.
  split; simpl.
  - intros a. pose proof (Internal_Compare_sgn a a) as H. rewrite cmp_refl in H.
    simpl in H. lia.
  - intros a b. rewrite !Internal_Compare_sgn.
    pose proof (cmp_antisym (ExtractUserKey a) (ExtractUserKey b)) as Hs.
    destruct (decide _), (decide _); lia.
  - intros a b c. rewrite !Internal_Compare_le.
    set (ua := ExtractUserKey a). set (ub := ExtractUserKey b). set (uc := ExtractUserKey c).
    intros [H1|[H1 H1']] [H2|[H2 H2']].
    + left. by apply (cmp_lt_trans ua ub uc).
    + left. apply (cmp_lt_le_trans ua ub uc); [done|lia].
    + left. apply (cmp_le_lt_trans ua ub uc); [lia|done].
    + right. split; [by apply (cmp_eq_trans ua ub uc)|lia].
  - intros s l. apply Internal_separator.
  - intros s l H. unfold Internal_FindShortestSeparator.
    destruct (_ && _) eqn:E.
    + apply andb_prop in E as [_ E2]. apply Z.ltb_lt in E2.
      pose proof (Internal_Compare_sgn s l) as Hs. rewrite H in Hs. simpl in Hs.
      destruct (decide _) as [Hu|Hu]; [|lia].
      pose proof (cmp_separator_eq _ _ Hu). lia.
    + pose proof (Internal_Compare_sgn s s) as Hs. rewrite cmp_refl in Hs.
      simpl in Hs. lia.
  - intros k. unfold Internal_FindShortSuccessor. destruct (_ && _) eqn:E.
    + apply andb_prop in E as [_ E2]. apply Z.ltb_lt in E2. unfold PutFixed64.
      rewrite Internal_Compare_le, ExtractUserKey_app. by left.
    + apply Internal_Compare_le. right. split; [apply cmp_refl|lia].
Qed.

(** On well-formed keys: user key ascending, sequence descending, type
    descending. *)
Lemma Internal_Compare_InternalKey u1 s1 t1 u2 s2 t2 :
  seq_ok s1 -> seq_ok s2 -> type_ok t1 -> type_ok t2 ->
  Internal_Compare C (InternalKey u1 s1 t1) (InternalKey u2 s2 t2) < 0 <->
    cmp_Compare u1 u2 < 0 \/
    (cmp_Compare u1 u2 = 0 /\ (s2 < s1 \/ (s2 = s1 /\ t2 < t1))).
Proof.
  intros Hs1 Hs2 Ht1 Ht2. apply type_ok_range in Ht1, Ht2.
  rewrite Internal_Compare_lt, !key_tag_InternalKey by (lia || done).
  rewrite !InternalKey_app, !ExtractUserKey_app. split; intros [?|[? ?]]; auto with lia.
  all: right; split; [done|lia].
Qed.
End order.

(** ** Lookup keys and filters *)

Lemma NewLookupKey_parts u s :
  internal_key (NewLookupKey u s) = InternalKey u s kValueTypeForSeek /\
  memtable_key (NewLookupKey u s) =
    EncodeVarint32 (u32 (size u + 8)) ++ InternalKey u s kValueTypeForSeek /\
  lookup_user_key (NewLookupKey u s) = u.
Proof.
  unfold internal_key, memtable_key, lookup_user_key, NewLookupKey.
  cbn [lk_start lk_kstart]. set (len := EncodeVarint32 _).
  rewrite !drop_app_length. split_and!; [done..|].
  rewrite !length_app, length_EncodeFixed64.
  replace (_ - _ - 8)%nat with (length u) by lia. apply take_app_length.
Qed.

#[export] Instance InternalFilterPolicyLaws F ok :
  FilterPolicyLaws F ok ->
  FilterPolicyLaws (InternalFilterPolicy F) (fun keys => ok (map ExtractUserKey keys)).
Proof.
  intros [Happ Hmatch]. split; simpl.
  - intros keys dst. apply Happ.
  - intros keys key Hok Hin. apply Hmatch; [done|].
    apply list_elem_of_In, in_map, list_elem_of_In, Hin.
Qed.

(** ** Properties *)

(** Internal keys round-trip: packing any user key with a 56-bit sequence number
    and a value type and parsing it gives the three back, the user key is
    extracted from it, and the parser accepts nothing but packed keys, so two
    different internal keys never parse to the same triple. *)
Theorem internal_key_roundtrip (u : bytes) (s t : Z) :
  seq_ok s -> type_ok t ->
  ParseInternalKey (InternalKey u s t) = Some (MkParsed u s t) /\
  ExtractUserKey (InternalKey u s t) = u /\
  size (InternalKey u s t) = InternalKeyEncodingLength (MkParsed u s t) /\
  forall ikey, ParseInternalKey ikey = Some (MkParsed u s t) -> ikey = InternalKey u s t.
Proof.
  intros Hs Ht. split_and!.
  - by apply ParseInternalKey_InternalKey.
  - apply ExtractUserKey_app.
  - unfold InternalKeyEncodingLength, size. rewrite InternalKey_app, length_app, length_EncodeFixed64.
    simpl. lia.
  - intros ikey [-> _]%ParseInternalKey_Some. done.
Qed.

Lemma internal_key_roundtrip_witness :
  ParseInternalKey (InternalKey (str "k") 300 kTypeDeletion)
    = Some (MkParsed (str "k") 300 kTypeDeletion) /\
  ExtractUserKey (InternalKey (str "k") 300 kTypeDeletion) = str "k" /\
  size (InternalKey (str "k") 300 kTypeDeletion)
    = InternalKeyEncodingLength (MkParsed (str "k") 300 kTypeDeletion) /\
  forall ikey, ParseInternalKey ikey = Some (MkParsed (str "k") 300 kTypeDeletion) ->
    ikey = InternalKey (str "k") 300 kTypeDeletion.
Proof.
  apply internal_key_roundtrip.
  - split; vm_compute; congruence.
  - left. reflexivity.
Defined.

(** C32. The internal comparator orders well-formed internal keys by user key
    ascending, then by sequence number descending, then by type descending, and
    the lookup key of a user key at a snapshot splits the entries of that user key
    exactly into those newer than the snapshot (before it) and the visible ones
    (at or after it). A separator it shortens stays between its two keys. *)
Theorem internal_key_order (u1 u2 : bytes) (s1 s2 t1 t2 : Z) :
  seq_ok s1 -> seq_ok s2 -> type_ok t1 -> type_ok t2 ->
  let cmp := Internal_Compare BytewiseComparator in
  let a := InternalKey u1 s1 t1 in
  let b := InternalKey u2 s2 t2 in
  let sep := Internal_FindShortestSeparator BytewiseComparator a b in
  (cmp a b < 0 <-> lex u1 u2 = Lt \/ (u1 = u2 /\ (s2 < s1 \/ (s2 = s1 /\ t2 < t1)))) /\
  (cmp a (internal_key (NewLookupKey u1 s2)) < 0 <-> s2 < s1) /\
  (cmp a b < 0 -> cmp a sep <= 0 /\ cmp sep b < 0).
Proof.
  intros Hs1 Hs2 Ht1 Ht2. cbv zeta.
  destruct (NewLookupKey_parts u1 s2) as [-> _].
  rewrite !Internal_Compare_InternalKey by (done || by right).
  rewrite cmp_refl. simpl cmp_Compare. rewrite Slice_compare_lt, Slice_compare_eq.
  split_and!.
  - done.
  - pose proof (type_ok_range _ Ht1). unfold kValueTypeForSeek, kTypeValue. lia.
  - intros H. apply Internal_separator, Internal_Compare_InternalKey; try done.
    by rewrite <- Slice_compare_lt, <- Slice_compare_eq in H.
Qed.

Lemma internal_key_order_witness :
  let cmp := Internal_Compare BytewiseComparator in
  let a := InternalKey (str "abcdefgh") 7 kTypeValue in
  let b := InternalKey (str "abzz") 9 kTypeDeletion in
  let sep := Internal_FindShortestSeparator BytewiseComparator a b in
  (cmp a b < 0 <-> lex (str "abcdefgh") (str "abzz") = Lt \/
     (str "abcdefgh" = str "abzz" /\
       (9 < 7 \/ (9 = 7 /\ kTypeDeletion < kTypeValue)))) /\
  (cmp a (internal_key (NewLookupKey (str "abcdefgh") 9)) < 0 <-> 9 < 7) /\
  (cmp a b < 0 -> cmp a sep <= 0 /\ cmp sep b < 0).
Proof.
  apply internal_key_order.
  - split; vm_compute; congruence.
  - split; vm_compute; congruence.
  - right. reflexivity.
  - left. reflexivity.
Defined.
