(* ===== verification/LogWriter.v ===== *)
(** * Log format and log writer

    Models [cpp/leveldb/db/log_format.h], [cpp/leveldb/db/log_writer.h] and
    [cpp/leveldb/db/log_writer.cc], over the interface [WritableFile] of
    [cpp/leveldb/include/leveldb/env.h].  [frags] describes the bytes of one
    logical record independently of the writer's loop; [AddRecord_frags] shows
    that the writer produces them. *)
From S2P Require Import Prelude Coding Crc32c Status.

(** ** The log format *)

Definition kZeroType : Z := 0.
Definition kFullType : Z := 1.
Definition kFirstType : Z := 2.
Definition kMiddleType : Z := 3.
Definition kLastType : Z := 4.
Definition kMaxRecordType : Z := kLastType.
Definition kBlockSize : Z := 32768.
Definition kHeaderSize : Z := 4 + 2 + 1.

(** ** Writable files *)

(** A file the program appends to; every call returns the new file state and a
    status. *)
Class WritableFile (F : Type) := {
  wf_Append : F -> bytes -> F * Status;
  wf_Flush : F -> F * Status
}.

(** What the log needs of a file: an [Append] that succeeds has appended, and a [Flush]
    that succeeds does not change what was written. *)
Class WritableFileLaws (F : Type) `{WritableFile F} := {
  wf_contents : F -> bytes;
  wf_Append_ok f data :
    Status_ok (wf_Append f data).2 = true ->
    wf_contents (wf_Append f data).1 = wf_contents f ++ data;
  wf_Flush_contents f : Status_ok (wf_Flush f).2 = true -> wf_contents (wf_Flush f).1 = wf_contents f
}.

(** ** The writer *)

(** [crc32c::Extend] and [crc32c::Value]; [Extend_eq] shows that the address the
    buffer has does not matter. *)
Definition crc_Extend (crc : Z) (data : bytes) : Z := Extend 0 crc data.
Definition crc_Value (data : bytes) : Z := Value 0 data.

Record Writer (F : Type) := MkWriter { dest_ : F; block_offset_ : Z }.
Arguments MkWriter {F} _ _.
Arguments dest_ {F} _.
Arguments block_offset_ {F} _.

(** [InitTypeCrc]: the table [type_crc_], a constant of every writer. *)
Definition type_crc_ : list Z :=
  map (fun i => crc_Value [byte_of_Z i]) [0; 1; 2; 3; 4].

Section writer.
Context {F : Type} `{WritableFile F}.

(** [Writer(dest)] and [Writer(dest, dest_length)] *)
Definition NewWriter (dest : F) : Writer F := MkWriter dest 0.
Definition NewWriterAt (dest : F) (dest_length : Z) : Writer F :=
  MkWriter dest (dest_length mod kBlockSize).

Definition EmitPhysicalRecord (w : Writer F) (t : Z) (ptr : bytes) : Writer F * Status :=
  let length := size ptr in
  let crc := crc_Extend (nth (Z.to_nat t) type_crc_ 0) ptr in
  let crc := Mask crc in
  let buf := EncodeFixed32 crc ++
    [byte_of_Z (Z.land length 0xff); byte_of_Z (length ≫ 8); byte_of_Z t] in
  let '(f, s) := wf_Append (dest_ w) buf in
  let '(f, s) :=
    if Status_ok s then
      let '(f, s) := wf_Append f ptr in
      if Status_ok s then wf_Flush f else (f, s)
    else (f, s) in
  (MkWriter f (block_offset_ w + kHeaderSize + length), s).

(** The [do ... while (s.ok() && left > 0)] loop; [ptr] is what is left of the
    record.  [None] is running out of fuel, which [AddRecord_total] excludes.
    The status of the [Append] that fills the trailer is not tested. *)
Fixpoint AddRecord_loop (fuel : nat) (w : Writer F) (ptr : bytes) (begin : bool)
    : option (Writer F * Status) :=
  match fuel with
  | O => None
  | S fuel =>
      let leftover := kBlockSize - block_offset_ w in
      let w :=
        if leftover <? kHeaderSize then
          MkWriter
            (if leftover >? 0 then
               (wf_Append (dest_ w) (replicate (Z.to_nat leftover) x00)).1
             else dest_ w) 0
        else w in
      let avail := kBlockSize - block_offset_ w - kHeaderSize in
      let left := size ptr in
      let fragment_length := if left <? avail then left else avail in
      let end_ := left =? fragment_length in
      let type :=
        if begin && end_ then kFullType
        else if begin then kFirstType
        else if end_ then kLastType
        else kMiddleType in
      let '(w, s) := EmitPhysicalRecord w type (take (Z.to_nat fragment_length) ptr) in
      let ptr := drop (Z.to_nat fragment_length) ptr in
      if Status_ok s && (size ptr >? 0) then AddRecord_loop fuel w ptr false
      else Some (w, s)
  end.

(** A record of [n] bytes takes at most [n + 2] fragments: only the first can
    be empty with more to come. *)
Definition AddRecord (w : Writer F) (slice : bytes) : option (Writer F * Status) :=
  AddRecord_loop (length slice + 2) w slice true.

(** A sequence of records, stopping at the first that fails. *)
Fixpoint AddRecords (w : Writer F) (slices : list bytes) : option (Writer F * Status) :=
  match slices with
  | [] => Some (w, Status_OK)
  | slice :: slices =>
      match AddRecord w slice with
      | Some (w, s) => if Status_ok s then AddRecords w slices else Some (w, s)
      | None => None
      end
  end.
End writer.

(** ** The bytes of a record *)

(** A physical record: masked checksum of type and payload, length, type,
    payload. *)
Definition physical_record (t : Z) (payload : bytes) : bytes :=
  EncodeFixed32 (Mask (crc32c_ref 0 (byte_of_Z t :: payload))) ++
  [byte_of_Z (size payload); byte_of_Z (size payload ≫ 8); byte_of_Z t] ++ payload.

(** The trailer left unused when fewer than seven bytes remain in the block, and
    the block offset after it. *)
Definition trailer (off : Z) : bytes :=
  if kBlockSize - off <? kHeaderSize then replicate (Z.to_nat (kBlockSize - off)) x00 else [].

Definition after_trailer (off : Z) : Z :=
  if kBlockSize - off <? kHeaderSize then 0 else off.

Definition record_type (begin end_ : bool) : Z :=
  match begin, end_ with
  | true, true => kFullType
  | true, false => kFirstType
  | false, true => kLastType
  | false, false => kMiddleType
  end.

(** [frags off begin d out off']: the data [d], started iff [begin] is false, is
    written from block offset [off] as [out], ending at block offset [off']. *)
Inductive frags : Z -> bool -> bytes -> bytes -> Z -> Prop :=
| frags_last off begin d :
    size d <= kBlockSize - after_trailer off - kHeaderSize ->
    frags off begin d (trailer off ++ physical_record (record_type begin true) d)
      (after_trailer off + kHeaderSize + size d)
| frags_more off begin d out off' :
    let avail := kBlockSize - after_trailer off - kHeaderSize in
    avail < size d ->
    frags kBlockSize false (drop (Z.to_nat avail) d) out off' ->
    frags off begin d
      (trailer off ++ physical_record (record_type begin false) (take (Z.to_nat avail) d) ++ out)
      off'.

(** A log: the records in order, from block offset [off] to [off']. *)
Inductive log_file : Z -> list bytes -> bytes -> Z -> Prop :=
| log_nil off : log_file off [] [] off
| log_cons off d ds out off1 rest off' :
    frags off true d out off1 -> log_file off1 ds rest off' ->
    log_file off (d :: ds) (out ++ rest) off'.

(** ** The writer produces the format *)

Lemma crc_Value_ref data : crc_Value data = crc32c_ref 0 data.
Proof. unfold crc_Value, Value. apply Extend_eq. unfold fits; lia. Qed.

Lemma type_crc_nth t : 0 <= t <= 4 -> nth (Z.to_nat t) type_crc_ 0 = crc32c_ref 0 [byte_of_Z t].
Proof.
  intros Ht. rewrite <- crc_Value_ref. unfold type_crc_.
  assert (H : t = 0 \/ t = 1 \/ t = 2 \/ t = 3 \/ t = 4) by lia.
  by destruct H as [->|[->|[->|[->| ->]]]].
Qed.

Lemma crc_type_payload t ptr :
  0 <= t <= 4 ->
  crc_Extend (nth (Z.to_nat t) type_crc_ 0) ptr = crc32c_ref 0 (byte_of_Z t :: ptr).
Proof.
  intros Ht. assert (Hz : fits 32 0) by (unfold fits; lia).
  rewrite type_crc_nth by done. unfold crc_Extend.
  rewrite Extend_eq by (by apply crc32c_ref_fits).
  by rewrite <- crc32c_ref_app.
Qed.

Lemma size_physical_record t p : size (physical_record t p) = kHeaderSize + size p.
Proof. unfold physical_record. rewrite !size_app. unfold kHeaderSize, size. simpl. lia. Qed.

Lemma byte_low z : byte_of_Z (Z.land z 0xff) = byte_of_Z z.
Proof.
  change 0xff with (2 ^ 8 - 1). rewrite land_ones_mod by lia. apply byte_of_Z_mod.
  change 256 with (2 ^ 8). apply Z.mod_mod. lia.
Qed.

Section writer_proofs.
Context {F : Type} `{WritableFileLaws F}.

Lemma EmitPhysicalRecord_ok w t ptr w' s :
  0 <= t <= 4 ->
  EmitPhysicalRecord w t ptr = (w', s) ->
  block_offset_ w' = block_offset_ w + kHeaderSize + size ptr /\
  (Status_ok s = true ->
   wf_contents (dest_ w') = wf_contents (dest_ w) ++ physical_record t ptr).
Proof.
  intros Ht. unfold EmitPhysicalRecord. rewrite crc_type_payload, byte_low by done.
  set (buf := EncodeFixed32 _ ++ _).
  destruct (wf_Append (dest_ w) buf) as [f1 s1] eqn:E1.
  destruct (Status_ok s1) eqn:Hs1; [|intros [= <- <-]; split; [done|congruence]].
  assert (H1 : wf_contents f1 = wf_contents (dest_ w) ++ buf).
  { pose proof (wf_Append_ok (dest_ w) buf) as Ha. rewrite E1 in Ha. by apply Ha. }
  destruct (wf_Append f1 ptr) as [f2 s2] eqn:E2.
  destruct (Status_ok s2) eqn:Hs2; [|intros [= <- <-]; split; [done|congruence]].
  assert (H2 : wf_contents f2 = wf_contents f1 ++ ptr).
  { pose proof (wf_Append_ok f1 ptr) as Ha. rewrite E2 in Ha. by apply Ha. }
  destruct (wf_Flush f2) as [f3 s3] eqn:E3. intros [= <- <-]. split; [done|]. intros Hs3.
  simpl. pose proof (wf_Flush_contents f2) as Hf. rewrite E3 in Hf. simpl in Hf.
  rewrite (Hf Hs3), H2, H1. unfold physical_record, buf. by rewrite <- !app_assoc.
Qed.

(** Appending a trailer does not fail.  [AddRecord] drops that status, so it is
    a hypothesis of what its own status says. *)
Definition trailer_safe : Prop :=
  forall f n, Status_ok (wf_Append f (replicate n x00)).2 = true.

(** The writer after its trailer. *)
Definition pad (w : Writer F) : Writer F :=
  if kBlockSize - block_offset_ w <? kHeaderSize then
    MkWriter
      (if kBlockSize - block_offset_ w >? 0 then
         (wf_Append (dest_ w) (replicate (Z.to_nat (kBlockSize - block_offset_ w)) x00)).1
       else dest_ w) 0
  else w.

Lemma pad_ok w :
  trailer_safe ->
  block_offset_ (pad w) = after_trailer (block_offset_ w) /\
  wf_contents (dest_ (pad w)) = wf_contents (dest_ w) ++ trailer (block_offset_ w).
Proof.
  intros Hsafe. unfold pad, after_trailer, trailer. rewrite Z.gtb_ltb.
  destruct (Z.ltb_spec (kBlockSize - block_offset_ w) kHeaderSize) as [Hl|Hl];
    [|by rewrite app_nil_r].
  split; [done|]. cbn [dest_].
  destruct (Z.ltb_spec 0 (kBlockSize - block_offset_ w)).
  - by apply wf_Append_ok.
  - rewrite Z2Nat.nonpos by lia. by rewrite app_nil_r.
Qed.

Lemma after_trailer_range off :
  0 <= off <= kBlockSize -> 0 <= after_trailer off <= kBlockSize - kHeaderSize.
Proof. unfold after_trailer, kBlockSize, kHeaderSize. zcase; lia. Qed.

Lemma record_type_eq begin end_ :
  (if begin && end_ then kFullType else if begin then kFirstType
   else if end_ then kLastType else kMiddleType) = record_type begin end_.
Proof. by destruct begin, end_. Qed.

Lemma record_type_range begin end_ : 0 <= record_type begin end_ <= 4.
Proof. destruct begin, end_; done. Qed.

Lemma AddRecord_loop_frags fuel w ptr begin w' s :
  trailer_safe -> 0 <= block_offset_ w <= kBlockSize ->
  AddRecord_loop fuel w ptr begin = Some (w', s) -> Status_ok s = true ->
  0 <= block_offset_ w' <= kBlockSize /\
  exists out, frags (block_offset_ w) begin ptr out (block_offset_ w') /\
    wf_contents (dest_ w') = wf_contents (dest_ w) ++ out.
Proof.
  intros Hsafe. revert w ptr begin.
  induction fuel as [|fuel IH]; intros w ptr begin Hoff; [done|].
  cbn [AddRecord_loop]. change (if _ <? _ then MkWriter _ 0 else w) with (pad w).
  destruct (pad_ok w Hsafe) as [Hpo Hpc]. pose proof (after_trailer_range _ Hoff) as Hat.
  rewrite Hpo, record_type_eq. set (avail := kBlockSize - _ - _).
  assert (Hav : 0 <= avail) by (unfold avail; lia).
  pose proof (size_nonneg ptr).
  destruct (decide (size ptr <= avail)) as [Hle|Hgt].
  - replace (if size ptr <? avail then size ptr else avail) with (size ptr) by (zcase; lia).
    rewrite Z.eqb_refl, take_size, drop_size.
    destruct (EmitPhysicalRecord _ _ _) as [w1 s1] eqn:E.
    apply EmitPhysicalRecord_ok in E as [Ho Hc]; [|apply record_type_range].
    rewrite Hpo in Ho. simpl (size [] >? 0). rewrite andb_false_r.
    intros [= <- <-] Hs. rewrite Ho. split; [unfold avail, kBlockSize, kHeaderSize in *; lia|].
    eexists. split; [by apply frags_last|]. rewrite Hc, Hpc by done. by rewrite app_assoc.
  - replace (if size ptr <? avail then size ptr else avail) with avail by (zcase; lia).
    destruct (Z.eqb_spec (size ptr) avail); [lia|].
    destruct (EmitPhysicalRecord _ _ _) as [w1 s1] eqn:E.
    apply EmitPhysicalRecord_ok in E as [Ho Hc]; [|apply record_type_range].
    rewrite Hpo, size_take in Ho by lia.
    replace (_ + avail) with kBlockSize in Ho by (unfold avail; lia).
    rewrite size_drop, Z.gtb_ltb by lia. zcase; [|lia]. rewrite andb_true_r.
    destruct (Status_ok s1) eqn:Hs1; [|intros [= <- <-]; congruence].
    intros Hl Hs. destruct (IH _ _ _ ltac:(rewrite Ho; done) Hl Hs) as [Ho' (out & Hf & Hc')].
    split; [done|]. eexists. rewrite Ho in Hf. split; [apply frags_more; [fold avail; lia|done]|].
    rewrite Hc', Hc, Hpc by done. by rewrite <- !app_assoc.
Qed.

(** The loop ends: a fragment is empty only in the last seven bytes of a
    block. *)
Lemma AddRecord_loop_total fuel w ptr begin :
  0 <= block_offset_ w <= kBlockSize ->
  size ptr + (if kBlockSize - after_trailer (block_offset_ w) =? kHeaderSize then 1 else 0)
    < Z.of_nat fuel ->
  exists r, AddRecord_loop fuel w ptr begin = Some r.
Proof.
  revert w ptr begin. induction fuel as [|fuel IH]; intros w ptr begin Hoff Hf.
  { pose proof (size_nonneg ptr). destruct (_ =? _); lia. }
  cbn [AddRecord_loop]. change (if _ <? _ then MkWriter _ 0 else w) with (pad w).
  assert (Hpo : block_offset_ (pad w) = after_trailer (block_offset_ w))
    by (unfold pad, after_trailer; by destruct (_ <? _)).
  pose proof (after_trailer_range _ Hoff) as Hat.
  rewrite Hpo, record_type_eq. set (avail := kBlockSize - _ - _).
  set (n := if size ptr <? avail then size ptr else avail). pose proof (size_nonneg ptr).
  destruct (EmitPhysicalRecord _ _ _) as [w1 s1] eqn:E.
  destruct (Status_ok s1 && _) eqn:Hc; [|by eexists]. apply andb_prop in Hc as [_ Hc].
  assert (Hn : 0 <= n <= size ptr /\ n <= avail) by (unfold n, avail; zcase; lia).
  rewrite size_drop, Z.gtb_ltb, Z.ltb_lt in Hc by lia.
  assert (Hna : n = avail) by (unfold n in *; revert Hc; zcase; lia).
  assert (Ho : block_offset_ w1 = kBlockSize).
  { unfold EmitPhysicalRecord in E. destruct (wf_Append _ _) as [f2 s2].
    destruct (if Status_ok s2 then _ else _) as [f3 s3]. injection E as <- <-. simpl.
    rewrite Hpo, size_take by lia. rewrite Hna. unfold avail. lia. }
  apply IH; rewrite Ho; [done|]. rewrite size_drop by lia.
  change (after_trailer kBlockSize) with 0.
  change (kBlockSize - 0 =? kHeaderSize) with false. cbv iota.
  destruct (Z.eqb_spec (kBlockSize - after_trailer (block_offset_ w)) kHeaderSize);
    unfold avail in *; lia.
Qed.

Lemma AddRecord_total w slice :
  0 <= block_offset_ w <= kBlockSize -> exists r, AddRecord w slice = Some r.
Proof.
  intros. apply AddRecord_loop_total; [done|]. unfold size.
  destruct (_ =? _); lia.
Qed.

(** The position stays in the block, also when a record fails. *)
Lemma EmitPhysicalRecord_offset w t ptr : block_offset_ (EmitPhysicalRecord w t ptr).1 = block_offset_ w + kHeaderSize + size ptr.
Proof. unfold EmitPhysicalRecord. destruct (wf_Append _ _) as [f s], (Status_ok s); cbn; [destruct (wf_Append _ _) as [f' s'], (Status_ok s'); cbn; [by destruct (wf_Flush _)|]|]; done. Qed.

Lemma AddRecord_loop_offset fuel : forall w ptr begin w' s,
  0 <= block_offset_ w <= kBlockSize -> AddRecord_loop fuel w ptr begin = Some (w', s) -> 0 <= block_offset_ w' <= kBlockSize.
Proof.
  induction fuel as [|fuel IH]; intros w ptr begin w' s Hoff E; [done|]. cbn [AddRecord_loop] in E.
  change (if _ <? _ then MkWriter _ 0 else w) with (pad w) in E.
  assert (Hpo : block_offset_ (pad w) = after_trailer (block_offset_ w)) by (clear; unfold pad, after_trailer; by destruct (_ <? _)).
  pose proof (after_trailer_range _ Hoff) as Hat. rewrite Hpo in E. set (avail := kBlockSize - _ - _) in E.
  set (n := if size ptr <? avail then size ptr else avail) in E. pose proof (size_nonneg ptr).
  assert (Hn : 0 <= n <= size ptr /\ n <= avail) by (unfold n, avail; zcase; lia).
  match type of E with context [EmitPhysicalRecord ?a ?b ?c] => pose proof (EmitPhysicalRecord_offset a b c) as Ho; destruct (EmitPhysicalRecord a b c) as [w1 s1] end.
  cbn [fst] in Ho. rewrite Hpo, size_take in Ho by lia. change kHeaderSize with 7 in *. change kBlockSize with 32768 in *.
  destruct (Status_ok s1 && _); [|injection E as <- <-; unfold avail in *; lia]. apply IH in E; [done|]. unfold avail in *. lia.
Qed.

Lemma AddRecord_offset w slice w' s : 0 <= block_offset_ w <= kBlockSize -> AddRecord w slice = Some (w', s) -> 0 <= block_offset_ w' <= kBlockSize.
Proof. apply AddRecord_loop_offset. Qed.

(** What holds of the file and survives its operations holds after a record. *)
Lemma EmitPhysicalRecord_preserves (I : F -> Prop) w t ptr :
  (forall f data, I f -> I (wf_Append f data).1) -> (forall f, I f -> I (wf_Flush f).1) ->
  I (dest_ w) -> I (dest_ (EmitPhysicalRecord w t ptr).1).
Proof.
  intros HA HF Hw. unfold EmitPhysicalRecord. generalize (EncodeFixed32
    (Mask (crc_Extend (nth (Z.to_nat t) type_crc_ 0) ptr)) ++
      [byte_of_Z (Z.land (size ptr) 0xff); byte_of_Z (size ptr ≫ 8); byte_of_Z t]).
  intros buf. pose proof (HA (dest_ w) buf Hw) as H1. destruct (wf_Append (dest_ w) buf) as [f1 s1]. cbn [fst] in H1.
  destruct (Status_ok s1); [|done]. pose proof (HA f1 ptr H1) as H2. destruct (wf_Append f1 ptr) as [f2 s2]. cbn [fst] in H2.
  destruct (Status_ok s2); [|done]. pose proof (HF f2 H2) as H3. by destruct (wf_Flush f2) as [f3 s3].
Qed.

Lemma AddRecord_loop_preserves (I : F -> Prop) fuel : forall w ptr begin w' s,
  (forall f data, I f -> I (wf_Append f data).1) -> (forall f, I f -> I (wf_Flush f).1) ->
  AddRecord_loop fuel w ptr begin = Some (w', s) -> I (dest_ w) -> I (dest_ w').
Proof.
  induction fuel as [|fuel IH]; intros w ptr begin w' s HA HF; [done|].
  cbn [AddRecord_loop]. change (if _ <? _ then MkWriter _ 0 else w) with (pad w). intros E Hw.
  assert (Hp : I (dest_ (pad w))).
  { unfold pad. destruct (_ <? kHeaderSize); [|done]. cbn [dest_].
    destruct (kBlockSize - block_offset_ w >? 0); [by apply HA|done]. }
  match type of E with (let '(_, _) := EmitPhysicalRecord ?w1 ?t ?p in _) = _ =>
    pose proof (EmitPhysicalRecord_preserves I w1 t p HA HF Hp) as H1; destruct (EmitPhysicalRecord w1 t p) as [w2 s2] end.
  cbn [fst] in H1. destruct (Status_ok s2 && _); [by apply IH in E|by injection E as <- _].
Qed.

Lemma AddRecord_frags w slice w' s :
  trailer_safe -> 0 <= block_offset_ w <= kBlockSize ->
  AddRecord w slice = Some (w', s) -> Status_ok s = true ->
  0 <= block_offset_ w' <= kBlockSize /\
  exists out, frags (block_offset_ w) true slice out (block_offset_ w') /\
    wf_contents (dest_ w') = wf_contents (dest_ w) ++ out.
Proof. apply AddRecord_loop_frags. Qed.

Lemma AddRecords_log_file w slices w' s :
  trailer_safe -> 0 <= block_offset_ w <= kBlockSize ->
  AddRecords w slices = Some (w', s) -> Status_ok s = true ->
  exists out, log_file (block_offset_ w) slices out (block_offset_ w') /\
    wf_contents (dest_ w') = wf_contents (dest_ w) ++ out.
Proof.
  intros Hsafe. revert w. induction slices as [|d ds IH]; intros w Hoff; simpl.
  - intros [= <- <-] _. exists []. split; [constructor|by rewrite app_nil_r].
  - destruct (AddRecord w d) as [[w1 s1]|] eqn:E; [|done].
    destruct (Status_ok s1) eqn:Hs1; [|intros [= <- <-]; congruence].
    intros Hr Hs. destruct (AddRecord_frags w d w1 s1 Hsafe Hoff E Hs1) as (Ho1 & out1 & Hf1 & Hc1).
    destruct (IH w1 Ho1 Hr Hs) as (out2 & Hf2 & Hc2). exists (out1 ++ out2).
    split; [by econstructor|]. by rewrite Hc2, Hc1, app_assoc.
Qed.
End writer_proofs.

(** A file kept in memory, on which nothing fails. *)
#[export] Instance StringDest : WritableFile bytes := {|
  wf_Append f data := (f ++ data, Status_OK);
  wf_Flush f := (f, Status_OK)
|}.

#[export] Instance StringDestLaws : WritableFileLaws bytes := {|
  wf_contents := fun f => f;
  wf_Append_ok := fun f data _ => eq_refl;
  wf_Flush_contents := fun f _ => eq_refl
|}.

(** ** Properties *)

(** [AddRecord] ends on every file, failing or not; when it reports success on
    a file whose trailer writes succeed, it has appended exactly the fragments of
    the record in the log format and its block offset is the one after them. *)
Lemma AddRecord_writes_fragments {F} `{WritableFileLaws F} (w : Writer F) (slice : bytes) :
  0 <= block_offset_ w <= kBlockSize ->
  exists w' s, AddRecord w slice = Some (w', s) /\
    (trailer_safe (F := F) -> Status_ok s = true ->
     0 <= block_offset_ w' <= kBlockSize /\
     exists out, frags (block_offset_ w) true slice out (block_offset_ w') /\
       wf_contents (dest_ w') = wf_contents (dest_ w) ++ out).
Proof.
  intros Hoff. destruct (AddRecord_total w slice Hoff) as [[w' s] E].
  exists w', s. split; [done|]. intros Hsafe Hs. by apply (AddRecord_frags w slice w' s).
Qed.

Lemma AddRecord_writes_fragments_witness :
  let w := NewWriterAt (F := bytes) (str "") 32763 in
  let slice := str "hello" in
  match AddRecord w slice with
  | Some (w', s) => size (dest_ w') = 5 + 7 + 5 /\ Status_ok s = true
  | None => False
  end /\
  exists w' s, AddRecord w slice = Some (w', s) /\
    (trailer_safe (F := bytes) -> Status_ok s = true ->
     0 <= block_offset_ w' <= kBlockSize /\
     exists out, frags (block_offset_ w) true slice out (block_offset_ w') /\
       wf_contents (dest_ w') = wf_contents (dest_ w) ++ out).
Proof.
  split; [vm_compute; split; reflexivity|].
  apply AddRecord_writes_fragments. vm_compute. split; congruence.
Defined.
