(* ===== verification/LogReader.v ===== *)
(** * Log reader

    Models [cpp/leveldb/db/log_reader.h] and [cpp/leveldb/db/log_reader.cc] over
    the interface [SequentialFile] of [cpp/leveldb/include/leveldb/env.h].  Calls
    to the reporter are recorded in order in the reader's state.  The main result
    is [read_log_prefix]: of any prefix of a file the writer produced, the reader
    returns exactly the records that are complete in the prefix, and reports no
    corruption. *)
From S2P Require Import Prelude Coding Crc32c Logging Status LogWriter.

(** ** Sequential files *)

Class SequentialFile (F : Type) := {
  sf_Read : F -> Z -> F * bytes * Status;
  sf_Skip : F -> Z -> F * Status
}.

(** A successful [Read] takes the next bytes of the file, at most [n] and fewer
    only at its end. *)
Class SequentialFileLaws (F : Type) `{SequentialFile F} := {
  sf_rest : F -> bytes;
  sf_Read_ok f n f' data s :
    0 <= n -> sf_Read f n = (f', data, s) -> Status_ok s = true ->
    sf_rest f = data ++ sf_rest f' /\ size data <= n /\
    (size data < n -> sf_rest f' = []);
  sf_Skip_rest f n : exists k, sf_rest (sf_Skip f n).1 = drop k (sf_rest f)
}.

(** ** The reader *)

Definition kEof : Z := kMaxRecordType + 1.
Definition kBadRecord : Z := kMaxRecordType + 2.

Record Reader (F : Type) := MkReader {
  file_ : F;
  reporter_ : bool;  (* whether a reporter was given *)
  checksum_ : bool;
  buffer_ : bytes;
  eof_ : bool;
  last_record_offset_ : Z;
  end_of_buffer_offset_ : Z;
  initial_offset_ : Z;
  resyncing_ : bool;
  reports : list (Z * Status)  (* the calls [reporter_->Corruption(bytes, reason)] *)
}.
Arguments MkReader {F} _ _ _ _ _ _ _ _ _ _.
Arguments file_ {F} _.
Arguments reporter_ {F} _.
Arguments checksum_ {F} _.
Arguments buffer_ {F} _.
Arguments eof_ {F} _.
Arguments last_record_offset_ {F} _.
Arguments end_of_buffer_offset_ {F} _.
Arguments initial_offset_ {F} _.
Arguments resyncing_ {F} _.
Arguments reports {F} _.

Section reader.
Context {F : Type} `{SequentialFile F}.

(** Whether [char] is signed, which the C++ standard leaves to the platform:
    [header\[6\]] is widened from it. *)
Context (char_is_signed : bool).

Definition char_to_uint (b : byte) : Z :=
  let z := Z_of_byte b in
  if char_is_signed && (z >=? 128) then u32 (z - 256) else z.

Definition NewReader (file : F) (reporter checksum : bool) (initial_offset : Z) : Reader F :=
  MkReader file reporter checksum [] false 0 0 initial_offset (initial_offset >? 0) [].

(** Field updates. *)
Definition set_file (r : Reader F) (f : F) : Reader F :=
  MkReader f (reporter_ r) (checksum_ r) (buffer_ r) (eof_ r) (last_record_offset_ r)
    (end_of_buffer_offset_ r) (initial_offset_ r) (resyncing_ r) (reports r).
Definition set_buffer (r : Reader F) b : Reader F :=
  MkReader (file_ r) (reporter_ r) (checksum_ r) b (eof_ r) (last_record_offset_ r)
    (end_of_buffer_offset_ r) (initial_offset_ r) (resyncing_ r) (reports r).
Definition set_eof (r : Reader F) e : Reader F :=
  MkReader (file_ r) (reporter_ r) (checksum_ r) (buffer_ r) e (last_record_offset_ r)
    (end_of_buffer_offset_ r) (initial_offset_ r) (resyncing_ r) (reports r).
Definition set_last (r : Reader F) o : Reader F :=
  MkReader (file_ r) (reporter_ r) (checksum_ r) (buffer_ r) (eof_ r) o
    (end_of_buffer_offset_ r) (initial_offset_ r) (resyncing_ r) (reports r).
Definition set_end (r : Reader F) o : Reader F :=
  MkReader (file_ r) (reporter_ r) (checksum_ r) (buffer_ r) (eof_ r) (last_record_offset_ r)
    o (initial_offset_ r) (resyncing_ r) (reports r).
Definition set_resyncing (r : Reader F) b : Reader F :=
  MkReader (file_ r) (reporter_ r) (checksum_ r) (buffer_ r) (eof_ r) (last_record_offset_ r)
    (end_of_buffer_offset_ r) (initial_offset_ r) b (reports r).
Definition add_report (r : Reader F) p : Reader F :=
  MkReader (file_ r) (reporter_ r) (checksum_ r) (buffer_ r) (eof_ r) (last_record_offset_ r)
    (end_of_buffer_offset_ r) (initial_offset_ r) (resyncing_ r) (reports r ++ [p]).

Definition ReportDrop (r : Reader F) (bytes : Z) (reason : Status) : Reader F :=
  if reporter_ r &&
     (u64 (end_of_buffer_offset_ r - size (buffer_ r) - bytes) >=? initial_offset_ r)
  then add_report r (bytes, reason) else r.

Definition ReportCorruption (r : Reader F) (bytes : Z) (reason : String.string) : Reader F :=
  ReportDrop r bytes (Status_Corruption (str reason) []).

Definition SkipToInitialBlock (r : Reader F) : Reader F * bool :=
  let offset_in_block := initial_offset_ r mod kBlockSize in
  let block_start_location := initial_offset_ r - offset_in_block in
  let block_start_location :=
    if offset_in_block >? kBlockSize - 6 then u64 (block_start_location + kBlockSize)
    else block_start_location in
  let r := set_end r block_start_location in
  if block_start_location >? 0 then
    let '(f, skip_status) := sf_Skip (file_ r) block_start_location in
    let r := set_file r f in
    if negb (Status_ok skip_status) then
      (ReportDrop r block_start_location skip_status, false)
    else (r, true)
  else (r, true).

(** One pass of the [while (true)] of [ReadPhysicalRecord] once seven bytes are
    buffered: the type returned and, when the code sets it, the fragment. *)
Definition ParsePhysicalRecord (r : Reader F) (result : bytes) : Reader F * Z * bytes :=
  let header := buffer_ r in
  let a := Z.land (byte_at header 4) 0xff in
  let b := Z.land (byte_at header 5) 0xff in
  let type := char_to_uint (nth 6 header x00) in
  let length := Z.lor a (b ≪ 8) in
  if kHeaderSize + length >? size (buffer_ r) then
    let drop_size := size (buffer_ r) in
    let r := set_buffer r [] in
    if negb (eof_ r) then
      (ReportCorruption r drop_size "bad record length", kBadRecord, result)
    else (r, kEof, result)
  else if (type =? kZeroType) && (length =? 0) then
    (set_buffer r [], kBadRecord, result)
  else
    let crc_ok :=
      if checksum_ r then
        let expected_crc := Unmask (DecodeFixed32 header) in
        let actual_crc := crc_Value (take (Z.to_nat (1 + length)) (drop 6 header)) in
        actual_crc =? expected_crc
      else true in
    if negb crc_ok then
      let drop_size := size (buffer_ r) in
      let r := set_buffer r [] in
      (ReportCorruption r drop_size "checksum mismatch", kBadRecord, result)
    else
      let r := set_buffer r (drop (Z.to_nat (kHeaderSize + length)) (buffer_ r)) in
      if u64 (end_of_buffer_offset_ r - size (buffer_ r) - kHeaderSize - length)
           <? initial_offset_ r
      then (r, kBadRecord, [])
      else (r, type, take (Z.to_nat length) (drop (Z.to_nat kHeaderSize) header)).

(** The loop of [ReadPhysicalRecord]; [result] is the fragment left by the last
    call.  Its length is bounded: a pass that does not return has read a block,
    and a block shorter than a header ends the file. *)
Fixpoint ReadPhysicalRecord_loop (fuel : nat) (r : Reader F) (result : bytes)
    : option (Reader F * Z * bytes) :=
  match fuel with
  | O => None
  | S fuel =>
      if size (buffer_ r) <? kHeaderSize then
        if negb (eof_ r) then
          let '(f, data, status) := sf_Read (file_ r) kBlockSize in
          let r := set_buffer (set_file r f) data in
          let r := set_end r (u64 (end_of_buffer_offset_ r + size (buffer_ r))) in
          if negb (Status_ok status) then
            let r := ReportDrop (set_buffer r []) kBlockSize status in
            Some (set_eof r true, kEof, result)
          else if size (buffer_ r) <? kBlockSize then
            ReadPhysicalRecord_loop fuel (set_eof r true) result
          else ReadPhysicalRecord_loop fuel r result
        else Some (set_buffer r [], kEof, result)
      else Some (ParsePhysicalRecord r result)
  end.

Definition ReadPhysicalRecord (r : Reader F) (result : bytes)
    : option (Reader F * Z * bytes) :=
  ReadPhysicalRecord_loop 3 r result.

(** The loop of [ReadRecord].  The result is the record, [None] for [false]. *)
Fixpoint ReadRecord_loop (fuel : nat) (r : Reader F) (fragment scratch : bytes)
    (in_fragmented_record : bool) (prospective_record_offset : Z)
    : option (Reader F * option bytes) :=
  match fuel with
  | O => None
  | S fuel =>
      match ReadPhysicalRecord r fragment with
      | None => None
      | Some (r, record_type, fragment) =>
          let physical_record_offset :=
            u64 (end_of_buffer_offset_ r - size (buffer_ r) - kHeaderSize - size fragment) in
          if resyncing_ r && (record_type =? kMiddleType) then
            ReadRecord_loop fuel r fragment scratch in_fragmented_record
              prospective_record_offset
          else if resyncing_ r && (record_type =? kLastType) then
            ReadRecord_loop fuel (set_resyncing r false) fragment scratch
              in_fragmented_record prospective_record_offset
          else
            let r := if resyncing_ r then set_resyncing r false else r in
            if record_type =? kFullType then
              let r :=
                if in_fragmented_record && negb (size scratch =? 0) then
                  ReportCorruption r (size scratch) "partial record without end(1)"
                else r in
              Some (set_last r physical_record_offset, Some fragment)
            else if record_type =? kFirstType then
              let r :=
                if in_fragmented_record && negb (size scratch =? 0) then
                  ReportCorruption r (size scratch) "partial record without end(2)"
                else r in
              ReadRecord_loop fuel r fragment fragment true physical_record_offset
            else if record_type =? kMiddleType then
              if negb in_fragmented_record then
                ReadRecord_loop fuel
                  (ReportCorruption r (size fragment) "missing start of fragmented record(1)")
                  fragment scratch in_fragmented_record prospective_record_offset
              else
                ReadRecord_loop fuel r fragment (scratch ++ fragment)
                  in_fragmented_record prospective_record_offset
            else if record_type =? kLastType then
              if negb in_fragmented_record then
                ReadRecord_loop fuel
                  (ReportCorruption r (size fragment) "missing start of fragmented record(2)")
                  fragment scratch in_fragmented_record prospective_record_offset
              else
                Some (set_last r prospective_record_offset, Some (scratch ++ fragment))
            else if record_type =? kEof then Some (r, None)
            else if record_type =? kBadRecord then
              if in_fragmented_record then
                ReadRecord_loop fuel
                  (ReportCorruption r (size scratch) "error in middle of record")
                  fragment [] false prospective_record_offset
              else
                ReadRecord_loop fuel r fragment scratch false prospective_record_offset
            else
              let r :=
                ReportDrop r
                  (size fragment + (if in_fragmented_record then size scratch else 0))
                  (Status_Corruption (str "unknown record type " ++ decimal record_type) []) in
              ReadRecord_loop fuel r fragment [] false prospective_record_offset
      end
  end.

(** [fuel] bounds the physical records read; see [ReadRecord_total]. *)
Definition ReadRecord (fuel : nat) (r : Reader F) : option (Reader F * option bytes) :=
  if last_record_offset_ r <? initial_offset_ r then
    let '(r, ok) := SkipToInitialBlock r in
    if negb ok then Some (r, None)
    else ReadRecord_loop fuel r [] [] false 0
  else ReadRecord_loop fuel r [] [] false 0.

Definition LastRecordOffset (r : Reader F) : Z := last_record_offset_ r.

(** Reading a whole log: [ReadRecord] until it returns false, as the program's
    recovery loops do. *)
Fixpoint ReadAll (fuel : nat) (r : Reader F) : option (Reader F * list bytes) :=
  match fuel with
  | O => None
  | S fuel' =>
      match ReadRecord fuel r with
      | None => None
      | Some (r, None) => Some (r, [])
      | Some (r, Some record) =>
          match ReadAll fuel' r with
          | None => None
          | Some (r, records) => Some (r, record :: records)
          end
      end
  end.
End reader.

(** ** Termination *)

Section total.
Context {F : Type} `{SequentialFileLaws F}.
Context (char_is_signed : bool).

(** The bytes not yet parsed. *)
Definition left (r : Reader F) : Z := size (buffer_ r) + size (sf_rest (file_ r)).

Lemma left_nonneg r : 0 <= left r.
Proof. unfold left. pose proof (size_nonneg (buffer_ r)).
  pose proof (size_nonneg (sf_rest (file_ r))). lia. Qed.

Lemma ReportDrop_left r b s : left (ReportDrop r b s) = left r.
Proof. unfold ReportDrop. by destruct (_ && _). Qed.

Lemma ReportCorruption_left r b s : left (ReportCorruption r b s) = left r.
Proof. apply ReportDrop_left. Qed.

Lemma left_set_buffer r b : left (set_buffer r b) = left r - size (buffer_ r) + size b.
Proof. unfold left. simpl. lia. Qed.

Lemma left_set_last r o : left (set_last r o) = left r.
Proof. done. Qed.

Lemma Parse_left r result :
  kHeaderSize <= size (buffer_ r) ->
  left (ParsePhysicalRecord char_is_signed r result).1.1 < left r.
Proof.
  intros Hb. unfold ParsePhysicalRecord. cbv zeta.
  set (len := Z.lor _ _). rewrite Z.gtb_ltb.
  assert (Hlen : 0 <= len).
  { apply Z.lor_nonneg. split; [apply Z.land_nonneg; lia|].
    apply Z.shiftl_nonneg, Z.land_nonneg. lia. }
  unfold kHeaderSize in Hb.
  destruct (Z.ltb_spec (size (buffer_ r)) (kHeaderSize + len)).
  - destruct (negb _); simpl; rewrite ?ReportCorruption_left, left_set_buffer, size_nil; lia.
  - destruct (_ && _); simpl; [rewrite left_set_buffer, size_nil; lia|].
    destruct (negb _); simpl.
    { rewrite ReportCorruption_left, left_set_buffer, size_nil. lia. }
    destruct (_ <? _); simpl; rewrite left_set_buffer, size_drop by (unfold kHeaderSize in *; lia);
      unfold kHeaderSize; lia.
Qed.

Lemma ReadPhysicalRecord_total r result :
  exists r' t fragment,
    ReadPhysicalRecord char_is_signed r result = Some (r', t, fragment) /\
    (t = kEof \/ left r' < left r).
Proof.
  assert (Hparse : forall fuel r0, kHeaderSize <= size (buffer_ r0) -> left r0 <= left r ->
    exists r' t fragment,
      ReadPhysicalRecord_loop char_is_signed (S fuel) r0 result = Some (r', t, fragment) /\
      (t = kEof \/ left r' < left r)).
  { intros fuel r0 Hb Hl. cbn [ReadPhysicalRecord_loop]. zcase; [lia|].
    pose proof (Parse_left r0 result Hb) as Hp.
    destruct (ParsePhysicalRecord _ r0 result) as [[r' t] fragment]. simpl in Hp.
    do 3 eexists. split; [done|]. right. lia. }
  assert (Heof : forall fuel r0, eof_ r0 = true -> left r0 <= left r ->
    exists r' t fragment,
      ReadPhysicalRecord_loop char_is_signed (S fuel) r0 result = Some (r', t, fragment) /\
      (t = kEof \/ left r' < left r)).
  { intros fuel r0 He Hl. destruct (decide (kHeaderSize <= size (buffer_ r0))); [by apply Hparse|].
    cbn [ReadPhysicalRecord_loop]. rewrite He. zcase; [|lia]. do 3 eexists.
    split; [done|]. by left. }
  unfold ReadPhysicalRecord.
  destruct (decide (kHeaderSize <= size (buffer_ r))); [by apply Hparse|].
  destruct (eof_ r) eqn:He; [by apply Heof|].
  remember 2%nat as n2 eqn:Hn2.
  cbn [ReadPhysicalRecord_loop]. rewrite He. zcase; [|lia]. simpl negb.
  cbv iota. destruct (sf_Read (file_ r) kBlockSize) as [[f data] status] eqn:Er.
  destruct (Status_ok status) eqn:Hs; simpl negb; cbv iota; [|by do 3 eexists; split; [|left]].
  apply sf_Read_ok in Er as (Hr1 & Hr2 & Hr3); [|unfold kBlockSize; lia|done].
  assert (Hl : forall e o, left (set_eof (set_end (set_buffer (set_file r f) data) o) e) <= left r).
  { intros e o. unfold left. simpl. rewrite Hr1, size_app.
    pose proof (size_nonneg (buffer_ r)). lia. }
  cbn [buffer_ set_buffer set_end set_eof]. rewrite Hn2.
  destruct (Z.ltb_spec (size data) kBlockSize).
  - by apply Heof.
  - apply Hparse; [simpl; unfold kBlockSize, kHeaderSize in *; lia|]. apply (Hl (eof_ r)).
Qed.

Lemma ReadRecord_loop_total fuel r fragment scratch in_frag off :
  left r < Z.of_nat fuel ->
  exists r' res,
    ReadRecord_loop char_is_signed fuel r fragment scratch in_frag off = Some (r', res) /\
    (is_Some res -> left r' < left r).
Proof.
  revert r fragment scratch in_frag off.
  induction fuel as [|fuel IH]; intros r fragment scratch in_frag off Hf.
  { pose proof (left_nonneg r). lia. }
  cbn [ReadRecord_loop].
  destruct (ReadPhysicalRecord_total r fragment) as (r1 & t & fragment' & -> & Ht).
  assert (Hgo : left r1 < left r -> forall r2 fragment scratch in_frag off,
    left r2 = left r1 ->
    exists r' res,
      ReadRecord_loop char_is_signed fuel r2 fragment scratch in_frag off = Some (r', res) /\
      (is_Some res -> left r' < left r)).
  { intros Hl r2 fr sc inf o H2. destruct (IH r2 fr sc inf o) as (r' & res & E & Hr); [lia|].
    exists r', res. split; [done|]. intros. specialize (Hr ltac:(done)). lia. }
  destruct (decide (t = kEof)) as [->|Hne].
  - destruct (resyncing_ r1); simpl; do 2 eexists; (split; [done|]); by intros [? ?].
  - destruct Ht as [Ht|Ht]; [done|]. specialize (Hgo Ht).
    destruct (_ && _); [by apply Hgo|]. destruct (_ && _); [by apply Hgo|].
    cbv zeta. set (r2 := if resyncing_ r1 then _ else _).
    assert (Hr2 : left r2 = left r1) by (unfold r2; by destruct (resyncing_ r1)).
    repeat match goal with
    | |- context [if ?b then _ else _] =>
        lazymatch b with
        | resyncing_ _ => fail
        | _ => destruct b
        end
    end; try (apply Hgo; by rewrite ?ReportDrop_left, ?ReportCorruption_left);
      do 2 eexists; (split; [done|]); intros [? ?]; try done;
      rewrite ?left_set_last, ?ReportCorruption_left; lia.
Qed.
End total.

(** ** Parsing what the writer wrote *)

Definition record_header (t : Z) (payload : bytes) : bytes :=
  EncodeFixed32 (Mask (crc32c_ref 0 (byte_of_Z t :: payload))) ++
  [byte_of_Z (size payload); byte_of_Z (size payload ≫ 8); byte_of_Z t].

Lemma physical_record_header t p : physical_record t p = record_header t p ++ p.
Proof. unfold physical_record, record_header. by rewrite <- app_assoc. Qed.

Lemma header_length t payload x :
  0 <= size payload < 65536 ->
  Z.lor (Z.land (byte_at (record_header t payload ++ x) 4) 0xff)
    (Z.land (byte_at (record_header t payload ++ x) 5) 0xff ≪ 8) = size payload.
Proof.
  intros Hs. unfold byte_at, record_header. simpl nth. rewrite !Z_of_byte_of_Z.
  change 0xff with (2 ^ 8 - 1). rewrite !land_ones_mod by lia.
  change 256 with (2 ^ 8). rewrite !Z.mod_mod by lia.
  rewrite Z.shiftr_div_pow2 by lia.
  rewrite lor_shift_add by (try apply Z.mod_pos_bound; lia). zdiv.
Qed.

Lemma header_type cis t payload x :
  0 <= t <= 4 -> char_to_uint cis (nth 6 (record_header t payload ++ x) x00) = t.
Proof.
  intros Ht. unfold record_header. simpl nth. unfold char_to_uint.
  rewrite byte_of_Z_small, Z.geb_leb by lia. zcase; [lia|]. by rewrite andb_false_r.
Qed.

Section prefix.
Context {F : Type} `{SequentialFileLaws F}.
Context (char_is_signed : bool).

(** Reads do not fail. *)
Hypothesis reliable : forall f n, Status_ok (sf_Read f n).2 = true.

(** The whole contents of the file. *)
Context (f : bytes).
Hypothesis Hsize : size f < 2 ^ 64.

(** The reader is about to parse offset [pos] of [f]: it holds the bytes up to
    [fp], the end of the block of [pos] or of the file. *)
Definition at_pos (pos : Z) (r : Reader F) : Prop :=
  (initial_offset_ r = 0 /\ 0 <= last_record_offset_ r) /\ resyncing_ r = false /\
  exists fp, 0 <= pos <= fp /\ fp <= size f /\ fp <= pos / kBlockSize * kBlockSize + kBlockSize /\
    buffer_ r = take (Z.to_nat (fp - pos)) (drop (Z.to_nat pos) f) /\
    end_of_buffer_offset_ r = fp /\
    sf_rest (file_ r) = drop (Z.to_nat fp) f /\
    (eof_ r = false -> fp mod kBlockSize = 0) /\
    (eof_ r = true -> fp = size f).

Lemma size_buffer pos fp :
  0 <= pos <= fp -> fp <= size f ->
  size (take (Z.to_nat (fp - pos)) (drop (Z.to_nat pos) f)) = fp - pos.
Proof. intros. apply size_take. rewrite size_drop; lia. Qed.

(** A complete physical record in the buffer. *)
Lemma Parse_complete pos r result t payload rest :
  at_pos pos r -> kHeaderSize <= size (buffer_ r) -> 1 <= t <= 4 ->
  pos mod kBlockSize + kHeaderSize + size payload <= kBlockSize ->
  drop (Z.to_nat pos) f = physical_record t payload ++ rest ->
  exists r', ParsePhysicalRecord char_is_signed r result = (r', t, payload) /\
    at_pos (pos + kHeaderSize + size payload) r' /\ reports r' = reports r.
Proof.
  intros (Hi & Hre & fp & Hpos & Hfp & Hblk & Hbuf & Hend & Hrest & He1 & He2) Hb Ht Hfit Hd.
  assert (Hsz : size (drop (Z.to_nat pos) f) = size f - pos) by (apply size_drop; lia).
  assert (Hrec : pos + kHeaderSize + size payload <= fp).
  { destruct (eof_ r).
    - rewrite He2 by done. rewrite Hd, size_app, size_physical_record in Hsz.
      pose proof (size_nonneg rest). lia.
    - specialize (He1 eq_refl). rewrite Hbuf, size_buffer in Hb by lia.
      unfold kHeaderSize, kBlockSize in *. zdiv. }
  assert (Hbuf2 : exists x, buffer_ r = record_header t payload ++ payload ++ x).
  { rewrite Hbuf, Hd, physical_record_header, <- app_assoc.
    replace (Z.to_nat (fp - pos)) with
      (length (record_header t payload) + (length payload + Z.to_nat (fp - pos - kHeaderSize - size payload)))%nat.
    - rewrite !firstn_app_2. by eexists.
    - unfold size, kHeaderSize in *. simpl. lia. }
  destruct Hbuf2 as [x Hbx]. pose proof (size_nonneg payload). pose proof (size_nonneg x).
  assert (Hpl : size payload < 65536).
  { unfold kBlockSize, kHeaderSize in *. pose proof (Z.mod_pos_bound pos 32768). lia. }
  unfold ParsePhysicalRecord. cbv zeta. rewrite Hbx.
  rewrite header_length, header_type by lia. rewrite !size_app.
  change (size (record_header t payload)) with kHeaderSize. rewrite Z.gtb_ltb.
  zcase; [lia|]. unfold kZeroType. destruct (Z.eqb_spec t 0); [lia|]. cbn [andb].
  assert (Hcrc : (if checksum_ r then
      crc_Value (take (Z.to_nat (1 + size payload)) (drop 6 (record_header t payload ++ payload ++ x)))
        =? Unmask (DecodeFixed32 (record_header t payload ++ payload ++ x)) else true) = true).
  { destruct (checksum_ r); [|done]. apply Z.eqb_eq.
    unfold record_header. rewrite <- !app_assoc.
    rewrite DecodeFixed32_encode. rewrite (wrap_id 32 (Mask _)) by apply Mask_fits.
    rewrite Unmask_Mask by (apply crc32c_ref_fits; unfold fits; lia).
    rewrite crc_Value_ref. f_equal.
    change (drop 6 _) with (byte_of_Z t :: payload ++ x).
    replace (Z.to_nat (1 + size payload)) with (S (length payload)) by (unfold size; lia).
    simpl. by rewrite take_app_length. }
  rewrite Hcrc. cbn [negb].
  assert (Hdrop : drop (Z.to_nat (kHeaderSize + size payload)) (record_header t payload ++ payload ++ x) = x).
  { replace (kHeaderSize + size payload) with (size (record_header t payload ++ payload))
      by (rewrite size_app; done).
    rewrite app_assoc. apply drop_app_size. }
  rewrite Hdrop. cbn [buffer_ set_buffer end_of_buffer_offset_ initial_offset_].
  rewrite (proj1 Hi). pose proof (wrap_range 64 (end_of_buffer_offset_ r - size x - kHeaderSize - size payload) ltac:(lia)).
  zcase; [lia|]. exists (set_buffer r x).
  change (Z.to_nat kHeaderSize) with (length (record_header t payload)).
  rewrite drop_app_length, take_app_size. split; [done|]. split; [|done].
  - assert (Hmono : pos / kBlockSize <= (pos + kHeaderSize + size payload) / kBlockSize)
      by (apply Z.div_le_mono; unfold kBlockSize, kHeaderSize; lia).
    split; [done|]. split; [done|]. exists fp. simpl. unfold kHeaderSize in *.
    split; [lia|]. split; [done|]. split; [unfold kBlockSize in *; lia|]. split; [|by rewrite Hend].
    rewrite <- Hdrop, <- Hbx, Hbuf, skipn_firstn_comm, drop_drop.
    f_equal; [unfold kHeaderSize; lia|]. f_equal. unfold kHeaderSize; lia.
Qed.

(** A record cut short by the end of the file. *)
Lemma Parse_truncated pos r result t payload m :
  at_pos pos r -> kHeaderSize <= size (buffer_ r) -> 1 <= t <= 4 ->
  pos mod kBlockSize + kHeaderSize + size payload <= kBlockSize ->
  drop (Z.to_nat pos) f ++ m = physical_record t payload -> m <> [] ->
  ParsePhysicalRecord char_is_signed r result = (set_buffer r [], kEof, result).
Proof.
  intros (Hi & Hre & fp & Hpos & Hfp & Hblk & Hbuf & Hend & Hrest & He1 & He2) Hb Ht Hfit Hd Hm.
  assert (Hsz : size (drop (Z.to_nat pos) f) = size f - pos) by (apply size_drop; lia).
  assert (Hm' : 0 < size m) by (destruct m; [done|]; rewrite size_cons; pose proof (size_nonneg m); lia).
  assert (Hlen : size f - pos + size m = kHeaderSize + size payload)
    by (rewrite <- Hsz, <- size_app, Hd; apply size_physical_record).
  pose proof (size_nonneg payload).
  assert (Heof : eof_ r = true).
  { destruct (eof_ r); [done|]. specialize (He1 eq_refl).
    rewrite Hbuf, size_buffer in Hb by lia. unfold kHeaderSize, kBlockSize in *. zdiv. }
  specialize (He2 Heof).
  assert (Hball : buffer_ r = drop (Z.to_nat pos) f).
  { rewrite Hbuf, He2, <- Hsz. apply take_size. }
  assert (Hhdr : exists x, buffer_ r = record_header t payload ++ x).
  { rewrite Hball in *. rewrite physical_record_header in Hd.
    exists (drop 7 (drop (Z.to_nat pos) f)).
    rewrite <- (take_drop 7 (drop (Z.to_nat pos) f)) at 1. f_equal.
    rewrite <- (take_app_le _ m), Hd by (unfold size, kHeaderSize in *; lia). done. }
  destruct Hhdr as [x Hx].
  assert (Hpl : size payload < 65536).
  { unfold kBlockSize, kHeaderSize in *. pose proof (Z.mod_pos_bound pos 32768). lia. }
  unfold ParsePhysicalRecord. cbv zeta.
  assert (Hsb : size (buffer_ r) = size f - pos) by (by rewrite Hball).
  rewrite Hsb, Hx, header_length, Z.gtb_ltb by lia. zcase; [|lia].
  cbn [eof_ set_buffer]. by rewrite Heof.
Qed.

(** Reading the next block. *)
Definition fill (r : Reader F) : Reader F :=
  let '(g, data, _) := sf_Read (file_ r) kBlockSize in
  let r := set_buffer (set_file r g) data in
  let r := set_end r (u64 (end_of_buffer_offset_ r + size (buffer_ r))) in
  if size (buffer_ r) <? kBlockSize then set_eof r true else r.

Lemma loop_fill fuel r result :
  size (buffer_ r) < kHeaderSize -> eof_ r = false ->
  ReadPhysicalRecord_loop char_is_signed (S fuel) r result =
    ReadPhysicalRecord_loop char_is_signed fuel (fill r) result.
Proof.
  intros Hb He. cbn [ReadPhysicalRecord_loop]. zcase; [|lia]. rewrite He. cbn [negb].
  unfold fill. pose proof (reliable (file_ r) kBlockSize) as Hr.
  destruct (sf_Read (file_ r) kBlockSize) as [[g data] st]. simpl in Hr. rewrite Hr.
  cbn [negb]. by destruct (_ <? kBlockSize).
Qed.

Lemma loop_parse fuel r result :
  kHeaderSize <= size (buffer_ r) ->
  ReadPhysicalRecord_loop char_is_signed (S fuel) r result =
    Some (ParsePhysicalRecord char_is_signed r result).
Proof. intros Hb. cbn [ReadPhysicalRecord_loop]. zcase; [lia|done]. Qed.

Lemma loop_eof fuel r result :
  size (buffer_ r) < kHeaderSize -> eof_ r = true ->
  ReadPhysicalRecord_loop char_is_signed (S fuel) r result =
    Some (set_buffer r [], kEof, result).
Proof. intros Hb He. cbn [ReadPhysicalRecord_loop]. zcase; [|lia]. by rewrite He. Qed.

Lemma fill_at_pos pos r :
  at_pos pos r -> eof_ r = false ->
  at_pos (pos + size (buffer_ r)) (fill r) /\ reports (fill r) = reports r /\
  (size (buffer_ (fill r)) < kBlockSize -> eof_ (fill r) = true).
Proof.
  intros (Hi & Hre & fp & Hpos & Hfp & Hblk & Hbuf & Hend & Hrest & He1 & He2) He.
  specialize (He1 He). rewrite Hbuf, size_buffer by lia.
  replace (pos + (fp - pos)) with fp by lia.
  unfold fill. pose proof (reliable (file_ r) kBlockSize) as Hr.
  destruct (sf_Read (file_ r) kBlockSize) as [[g data] st] eqn:E. simpl in Hr.
  apply sf_Read_ok in E as (Hr1 & Hr2 & Hr3); [|unfold kBlockSize; lia|done].
  rewrite Hrest in Hr1.
  assert (Hsz : size f - fp = size data + size (sf_rest g))
    by (rewrite <- size_app, <- Hr1, size_drop; lia).
  pose proof (size_nonneg data). pose proof (size_nonneg (sf_rest g)).
  cbn [buffer_ set_buffer set_end end_of_buffer_offset_ set_file].
  rewrite Hend, wrap_id by (unfold fits; lia).
  assert (Hat : forall e, (e = true -> size data < kBlockSize) -> (e = false -> size data = kBlockSize) ->
    at_pos fp (set_eof (set_end (set_buffer (set_file r g) data) (fp + size data)) e)).
  { intros e Het Hef. split; [done|]. split; [done|]. exists (fp + size data). simpl.
    split; [lia|]. split; [lia|].
    split; [unfold kBlockSize in *; zdiv|].
    replace (fp + size data - fp) with (size data) by lia.
    rewrite Hr1, take_app_size. split; [done|]. split; [done|].
    split.
    - replace (Z.to_nat (fp + size data)) with (Z.to_nat fp + Z.to_nat (size data))%nat by lia.
      by rewrite <- drop_drop, Hr1, drop_app_size.
    - split; intros Hx; [rewrite (Hef Hx); unfold kBlockSize in *; zdiv|].
      rewrite (Hr3 (Het Hx)), size_nil in Hsz. lia. }
  destruct (Z.ltb_spec (size data) kBlockSize).
  - split; [by apply Hat|]. done.
  - split; [|split; [done|simpl; lia]]. apply (Hat (eof_ r)); rewrite He; [done|lia].
Qed.

(** Where the reader parses next: at once, after the trailer, or nowhere. *)
Lemma ReadPhysicalRecord_cases pos r result off :
  at_pos pos r -> 0 <= off <= kBlockSize -> pos mod kBlockSize = off mod kBlockSize ->
  (ReadPhysicalRecord char_is_signed r result
     = Some (set_buffer r [], kEof, result) /\ eof_ r = true /\
     size f < pos + size (trailer off) + kHeaderSize) \/
  (exists r1, at_pos (pos + size (trailer off)) r1 /\ reports r1 = reports r /\
     (pos + size (trailer off)) mod kBlockSize = after_trailer off /\
     ((ReadPhysicalRecord char_is_signed r result
        = Some (set_buffer r1 [], kEof, result) /\
       size f < pos + size (trailer off) + kHeaderSize) \/
      (ReadPhysicalRecord char_is_signed r result
        = Some (ParsePhysicalRecord char_is_signed r1 result) /\
       kHeaderSize <= size (buffer_ r1)))).
Proof.
  intros Hat Hoff Hmod. unfold ReadPhysicalRecord.
  pose proof Hat as (Hi & Hre & fp & Hpos & Hfp & Hblk & Hbuf & Hend & Hrest & He1 & He2).
  assert (Hsb : size (buffer_ r) = fp - pos) by (rewrite Hbuf; by apply size_buffer).
  assert (Htr : size (trailer off) = if kBlockSize - off <? kHeaderSize then kBlockSize - off else 0).
  { unfold trailer. zcase; [apply size_replicate; lia|done]. }
  destruct (decide (kHeaderSize <= size (buffer_ r))) as [Hb|Hb].
  - right. exists r.
    assert (Hnt : size (trailer off) = 0 /\ pos mod kBlockSize = after_trailer off).
    { rewrite Htr. unfold after_trailer. unfold kHeaderSize, kBlockSize in *. zcase; zdiv. }
    destruct Hnt as [Hnt1 Hnt2]. rewrite Hnt1, Z.add_0_r. split; [done|]. split; [done|].
    split; [done|]. right. split; [by apply loop_parse|done].
  - destruct (eof_ r) eqn:He.
    + left. split; [apply loop_eof; [lia|done]|]. split; [done|]. specialize (He2 eq_refl).
      rewrite Htr. unfold kHeaderSize, kBlockSize in *. zcase; lia.
    + right. destruct (fill_at_pos pos r Hat He) as (Hat1 & Hrep & Heof1).
      specialize (He1 eq_refl).
      assert (Hskip : size (buffer_ r) = size (trailer off) /\ fp mod kBlockSize = after_trailer off).
      { rewrite Htr, Hsb. unfold after_trailer. unfold kHeaderSize, kBlockSize in *. zcase; zdiv. }
      destruct Hskip as [Hs1 Hs2]. rewrite Hs1 in Hat1. exists (fill r).
      split; [done|]. split; [done|]. rewrite <- Hs1, Hsb.
      replace (pos + (fp - pos)) with fp by lia. split; [done|].
      rewrite loop_fill by (lia || done).
      destruct (decide (kHeaderSize <= size (buffer_ (fill r)))) as [Hb1|Hb1].
      * right. split; [by apply loop_parse|done].
      * left. assert (Heof : eof_ (fill r) = true)
          by (apply Heof1; unfold kHeaderSize, kBlockSize in *; lia).
        split; [apply loop_eof; [lia|done]|].
        destruct Hat1 as (_ & _ & fp1 & Hp1 & Hf1 & _ & Hbuf1 & _ & _ & _ & He12).
        rewrite Hbuf1, size_buffer in Hb1 by lia. specialize (He12 Heof).
        rewrite <- Hs1, Hsb in *. lia.
Qed.

Lemma trailer_fit off :
  0 <= off <= kBlockSize -> 0 <= after_trailer off <= kBlockSize - kHeaderSize.
Proof. unfold after_trailer, kBlockSize, kHeaderSize. zcase; lia. Qed.

Lemma drop_pos pos a b :
  0 <= pos -> drop (Z.to_nat pos) f = a ++ b -> drop (Z.to_nat (pos + size a)) f = b.
Proof.
  intros Hp Hd. pose proof (size_nonneg a).
  replace (Z.to_nat (pos + size a)) with (Z.to_nat pos + Z.to_nat (size a))%nat by lia.
  rewrite <- drop_drop, Hd. apply drop_app_size.
Qed.

Lemma at_pos_size pos r : at_pos pos r -> 0 <= pos /\ size (drop (Z.to_nat pos) f) = size f - pos.
Proof. intros (_ & _ & fp & ? & ? & _). split; [lia|]. apply size_drop. lia. Qed.

(** A physical record that is complete in the file is returned. *)
Lemma ReadPhysicalRecord_complete pos r result off t payload rest :
  at_pos pos r -> 0 <= off <= kBlockSize -> pos mod kBlockSize = off mod kBlockSize ->
  1 <= t <= 4 -> size payload <= kBlockSize - after_trailer off - kHeaderSize ->
  drop (Z.to_nat pos) f = trailer off ++ physical_record t payload ++ rest ->
  exists r', ReadPhysicalRecord char_is_signed r result = Some (r', t, payload) /\
    at_pos (pos + size (trailer off) + kHeaderSize + size payload) r' /\ reports r' = reports r.
Proof.
  intros Hat Hoff Hmod Ht Hfit Hd. destruct (at_pos_size _ _ Hat) as [Hp Hsz].
  assert (Hlong : pos + size (trailer off) + kHeaderSize + size payload <= size f).
  { rewrite Hd, !size_app, size_physical_record in Hsz. pose proof (size_nonneg rest). lia. }
  pose proof (size_nonneg payload).
  destruct (ReadPhysicalRecord_cases pos r result off Hat Hoff Hmod)
    as [(_ & _ & ?)|(r1 & Hat1 & Hrep & Hm & [[_ ?]|[-> Hb]])]; [lia..|].
  apply drop_pos in Hd; [|done].
  destruct (Parse_complete _ r1 result t payload rest Hat1 Hb Ht ltac:(lia) Hd)
    as (r' & -> & Hat' & Hrep'). exists r'. split; [done|]. split; [done|]. congruence.
Qed.

(** A physical record cut short ends the log silently. *)
Lemma ReadPhysicalRecord_truncated pos r result off t payload m :
  at_pos pos r -> 0 <= off <= kBlockSize -> pos mod kBlockSize = off mod kBlockSize ->
  1 <= t <= 4 -> size payload <= kBlockSize - after_trailer off - kHeaderSize ->
  drop (Z.to_nat pos) f ++ m = trailer off ++ physical_record t payload -> m <> [] ->
  exists r', ReadPhysicalRecord char_is_signed r result = Some (r', kEof, result) /\
    resyncing_ r' = false /\ reports r' = reports r.
Proof.
  intros Hat Hoff Hmod Ht Hfit Hd Hm. destruct (at_pos_size _ _ Hat) as [Hp Hsz].
  destruct (ReadPhysicalRecord_cases pos r result off Hat Hoff Hmod)
    as [(-> & _ & _)|(r1 & Hat1 & Hrep & Hmo & [[-> _]|[-> Hb]])].
  - eexists. split; [done|]. split; [apply Hat|done].
  - eexists. split; [done|]. split; [apply Hat1|done].
  - destruct (at_pos_size _ _ Hat1) as [Hp1 Hsz1].
    rewrite (Parse_truncated _ r1 result t payload m Hat1 Hb Ht); [|lia| |done].
    + eexists. split; [done|]. split; [apply Hat1|done].
    + pose proof (size_nonneg (trailer off)).
      assert (Hle : size (trailer off) <= size (drop (Z.to_nat pos) f)).
      { rewrite Hsz. pose proof (size_nonneg (drop (Z.to_nat (pos + size (trailer off))) f)). lia. }
      replace (Z.to_nat (pos + size (trailer off))) with
        (Z.to_nat pos + Z.to_nat (size (trailer off)))%nat by lia.
      rewrite <- drop_drop. apply (f_equal (drop (Z.to_nat (size (trailer off))))) in Hd.
      rewrite drop_app_size, drop_app_le in Hd by (unfold size in *; lia). exact Hd.
Qed.

(** *** Logical records *)

Lemma trailer_mod off pos :
  0 <= off <= kBlockSize -> 0 <= pos -> pos mod kBlockSize = off mod kBlockSize ->
  (pos + size (trailer off)) mod kBlockSize = after_trailer off.
Proof.
  intros Ho Hp Hm. unfold trailer, after_trailer.
  destruct (Z.ltb_spec (kBlockSize - off) kHeaderSize);
    rewrite ?size_replicate, ?size_nil by lia; unfold kBlockSize, kHeaderSize in *; zdiv.
Qed.

Lemma frags_range off begin d out off' :
  frags off begin d out off' -> 0 <= off <= kBlockSize ->
  0 <= off' <= kBlockSize /\
  forall pos, 0 <= pos -> pos mod kBlockSize = off mod kBlockSize ->
    (pos + size out) mod kBlockSize = off' mod kBlockSize.
Proof.
  induction 1 as [off begin d Hs|off begin d out off' avail Hs Hf IH]; intros Hoff;
    pose proof (trailer_fit off Hoff) as Hfit.
  - pose proof (size_nonneg d). split; [unfold kHeaderSize in *; lia|]. intros pos Hp Hm.
    rewrite size_app, size_physical_record, Z.add_assoc, <- Zplus_mod_idemp_l, trailer_mod by done.
    f_equal. lia.
  - destruct (IH ltac:(unfold kBlockSize; lia)) as [IH1 IH2]. split; [done|].
    intros pos Hp Hm. rewrite !size_app, size_physical_record, size_take by (unfold avail in *; lia).
    pose proof (size_nonneg (trailer off)).
    replace (pos + (size (trailer off) + (kHeaderSize + avail + size out))) with
      ((pos + size (trailer off) + (kHeaderSize + avail)) + size out) by lia.
    apply IH2; [unfold avail, kHeaderSize in *; lia|].
    rewrite <- Zplus_mod_idemp_l, trailer_mod by done. f_equal. unfold avail. lia.
Qed.

Lemma block_full pos off avail :
  0 <= off <= kBlockSize -> 0 <= pos -> pos mod kBlockSize = off mod kBlockSize ->
  avail = kBlockSize - after_trailer off - kHeaderSize ->
  (pos + size (trailer off) + kHeaderSize + avail) mod kBlockSize = kBlockSize mod kBlockSize.
Proof.
  intros Hoff Hp Hm ->. rewrite <- Z.add_assoc, <- Zplus_mod_idemp_l, trailer_mod by done.
  f_equal. lia.
Qed.

(** The reading step that starts a fragment of type [record_type begin end_]. *)
Lemma record_type_in begin end_ : 1 <= record_type begin end_ <= 4.
Proof. destruct begin, end_; done. Qed.

Lemma at_pos_resyncing pos r : at_pos pos r -> resyncing_ r = false.
Proof. by intros (_ & ? & _). Qed.

Lemma read_frags off begin d out off' :
  frags off begin d out off' ->
  forall pos r fragment scratch prosp rest,
  at_pos pos r -> 0 <= prosp -> 0 <= off <= kBlockSize -> pos mod kBlockSize = off mod kBlockSize ->
  drop (Z.to_nat pos) f = out ++ rest ->
  exists fuel r',
    ReadRecord_loop char_is_signed fuel r fragment scratch (negb begin) prosp
      = Some (r', Some (if begin then d else scratch ++ d)) /\
    at_pos (pos + size out) r' /\ reports r' = reports r.
Proof.
  induction 1 as [off begin d Hs|off begin d out off' avail Hs Hf IH];
    intros pos r fragment scratch prosp rest Hat Hpr Hoff Hm Hd;
    rewrite <- !app_assoc in Hd.
  - destruct (ReadPhysicalRecord_complete pos r fragment off _ d rest Hat Hoff Hm
      (record_type_in begin true) Hs Hd) as (r1 & Hr & Hat1 & Hrep).
    exists 1%nat. cbn [ReadRecord_loop]. rewrite Hr, (at_pos_resyncing _ _ Hat1).
    assert (Hend : forall o, 0 <= o -> at_pos (pos + size (trailer off ++ physical_record (record_type begin true) d))
        (set_last r1 o) /\ reports (set_last r1 o) = reports r).
    { intros o Ho. split; [|done]. split; [split; [apply Hat1|done]|].
      split; [apply Hat1|]. rewrite size_app, size_physical_record.
      replace (pos + (size (trailer off) + (kHeaderSize + size d))) with
        (pos + size (trailer off) + kHeaderSize + size d) by lia. apply Hat1. }
    destruct begin; (eexists; split; [done|apply Hend]); [apply wrap_range; lia|done].
  - pose proof (trailer_fit off Hoff) as Hfit.
    assert (Hst : size (take (Z.to_nat avail) d) = avail) by (apply size_take; unfold avail in *; lia).
    destruct (ReadPhysicalRecord_complete pos r fragment off _ _ (out ++ rest) Hat Hoff Hm
      (record_type_in begin false) ltac:(rewrite Hst; unfold avail; lia) Hd)
      as (r1 & Hr & Hat1 & Hrep).
    pose proof (block_full pos off avail Hoff ltac:(apply (at_pos_size _ r Hat)) Hm eq_refl) as Hm1.
    rewrite Hst in Hat1.
    set (scratch1 := if begin then take (Z.to_nat avail) d else scratch ++ take (Z.to_nat avail) d).
    set (prosp1 := if begin then u64 (end_of_buffer_offset_ r1 - size (buffer_ r1) - kHeaderSize
      - size (take (Z.to_nat avail) d)) else prosp).
    assert (Hpr1 : 0 <= prosp1) by (unfold prosp1; destruct begin; [apply wrap_range; lia|done]).
    destruct (IH _ r1 (take (Z.to_nat avail) d) scratch1 prosp1 rest Hat1 Hpr1 ltac:(unfold kBlockSize; lia) Hm1)
      as (fuel & r' & Hl & Hat' & Hrep').
    { rewrite app_assoc in Hd. apply drop_pos in Hd; [|by apply (at_pos_size _ r)].
      rewrite size_app, size_physical_record, Hst in Hd.
      by replace (pos + size (trailer off) + kHeaderSize + avail) with
        (pos + (size (trailer off) + (kHeaderSize + avail))) by lia. }
    exists (S fuel), r'. cbn [ReadRecord_loop]. rewrite Hr, (at_pos_resyncing _ _ Hat1).
    split; [|split; [|congruence]].
    + unfold scratch1, prosp1 in Hl. destruct begin; cbn in Hl |- *.
      * rewrite Hl. by rewrite take_drop.
      * rewrite Hl. by rewrite <- app_assoc, take_drop.
    + rewrite !size_app, size_physical_record, Hst.
      by replace (pos + (size (trailer off) + (kHeaderSize + avail + size out))) with
        (pos + size (trailer off) + kHeaderSize + avail + size out) by lia.
Qed.

Lemma app_split_le (a m b c : bytes) :
  a ++ m = b ++ c -> size b <= size a -> exists rest, a = b ++ rest /\ rest ++ m = c.
Proof.
  intros E Hle. exists (drop (length b) a).
  assert (Hb : take (length b) a = b).
  { rewrite <- (take_app_le a m), E by (unfold size in Hle; lia). apply take_app_length. }
  split; [rewrite <- Hb at 1; by rewrite take_drop|].
  apply (f_equal (drop (length b))) in E.
  by rewrite drop_app_length, drop_app_le in E by (unfold size in Hle; lia).
Qed.

Lemma app_split_lt (a m b c : bytes) :
  a ++ m = b ++ c -> size a < size b -> exists m', a ++ m' = b /\ m' <> [].
Proof.
  intros E Hlt. symmetry in E. destruct (app_split_le b c a m E ltac:(lia)) as (m' & -> & _).
  exists m'. split; [done|]. intros ->. rewrite app_nil_r in Hlt. lia.
Qed.

(** A record cut short by the end of the file is not returned. *)
Lemma read_frags_truncated off begin d out off' :
  frags off begin d out off' ->
  forall pos r fragment scratch prosp m,
  at_pos pos r -> 0 <= off <= kBlockSize -> pos mod kBlockSize = off mod kBlockSize ->
  drop (Z.to_nat pos) f ++ m = out -> m <> [] ->
  exists fuel r',
    ReadRecord_loop char_is_signed fuel r fragment scratch (negb begin) prosp = Some (r', None) /\
    reports r' = reports r.
Proof.
  assert (Hstop : forall off t payload m pos r fragment scratch in_frag prosp,
    at_pos pos r -> 0 <= off <= kBlockSize -> pos mod kBlockSize = off mod kBlockSize ->
    1 <= t <= 4 -> size payload <= kBlockSize - after_trailer off - kHeaderSize ->
    drop (Z.to_nat pos) f ++ m = trailer off ++ physical_record t payload -> m <> [] ->
    exists fuel r',
      ReadRecord_loop char_is_signed fuel r fragment scratch in_frag prosp = Some (r', None) /\
      reports r' = reports r).
  { intros off0 t payload m pos r fragment scratch inf prosp Hat Ho Hm Ht Hs Hd Hne.
    destruct (ReadPhysicalRecord_truncated pos r fragment off0 t payload m Hat Ho Hm Ht Hs Hd Hne)
      as (r' & Hr & Hre & Hrep).
    exists 1%nat, r'. cbn [ReadRecord_loop]. by rewrite Hr, Hre. }
  induction 1 as [off begin d Hs|off begin d out off' avail Hs Hf IH];
    intros pos r fragment scratch prosp m Hat Hoff Hm Hd Hne.
  - eapply Hstop; [exact Hat|exact Hoff|exact Hm|apply (record_type_in begin true)|exact Hs|exact Hd|done].
  - pose proof (trailer_fit off Hoff) as Hfit.
    assert (Hst : size (take (Z.to_nat avail) d) = avail) by (apply size_take; unfold avail in *; lia).
    rewrite app_assoc in Hd. set (p := trailer off ++ physical_record _ _) in Hd.
    destruct (decide (size p <= size (drop (Z.to_nat pos) f))) as [Hle|Hlt].
    + destruct (app_split_le _ _ _ _ Hd Hle) as (rest & Hd1 & Hd2).
      unfold p in Hd1. rewrite <- app_assoc in Hd1.
      destruct (ReadPhysicalRecord_complete pos r fragment off _ _ rest Hat Hoff Hm
        (record_type_in begin false) ltac:(rewrite Hst; unfold avail; lia) Hd1)
        as (r1 & Hr & Hat1 & Hrep).
      rewrite Hst in Hat1. rewrite app_assoc in Hd1.
      apply drop_pos in Hd1; [|by apply (at_pos_size _ r)].
      rewrite size_app, size_physical_record, Hst in Hd1.
      replace (pos + (size (trailer off) + (kHeaderSize + avail))) with
        (pos + size (trailer off) + kHeaderSize + avail) in Hd1 by lia.
      pose proof (block_full pos off avail Hoff ltac:(apply (at_pos_size _ r Hat)) Hm eq_refl) as Hm1.
      destruct (IH _ r1 (take (Z.to_nat avail) d)
        (if begin then take (Z.to_nat avail) d else scratch ++ take (Z.to_nat avail) d)
        (if begin then u64 (end_of_buffer_offset_ r1 - size (buffer_ r1) - kHeaderSize
           - size (take (Z.to_nat avail) d)) else prosp)
        m Hat1 ltac:(unfold kBlockSize; lia) Hm1 ltac:(rewrite Hd1; exact Hd2) Hne)
        as (fuel & r' & Hl & Hrep').
      exists (S fuel), r'. cbn [ReadRecord_loop]. rewrite Hr, (at_pos_resyncing _ _ Hat1).
      split; [|congruence]. by destruct begin.
    + destruct (app_split_lt _ _ _ _ Hd ltac:(lia)) as (m' & Hd' & Hne').
      eapply Hstop; [done|exact Hoff|done|apply (record_type_in begin false)| |exact Hd'|done].
      rewrite Hst. unfold avail. lia.
Qed.

(** *** The whole log *)

Lemma at_pos_config pos r : at_pos pos r -> initial_offset_ r = 0.
Proof. by intros [[? _] _]. Qed.

Lemma ReadRecord_at_pos fuel pos r :
  at_pos pos r ->
  ReadRecord char_is_signed fuel r = ReadRecord_loop char_is_signed fuel r [] [] false 0.
Proof.
  intros Hat. unfold ReadRecord. rewrite (at_pos_config _ _ Hat).
  destruct Hat as [[_ ?] _]. zcase; [lia|done].
Qed.
End prefix.

(** ** More fuel does not change a result *)

Section mono.
Context {F : Type} `{SequentialFile F}.
Context (char_is_signed : bool).

Lemma ReadRecord_loop_mono fuel fuel' (r : Reader F) fragment scratch in_frag off res :
  (fuel <= fuel')%nat ->
  ReadRecord_loop char_is_signed fuel r fragment scratch in_frag off = Some res ->
  ReadRecord_loop char_is_signed fuel' r fragment scratch in_frag off = Some res.
Proof.
  revert fuel' r fragment scratch in_frag off.
  induction fuel as [|fuel IH]; intros [|fuel'] r fragment scratch in_frag off Hf; try done; [lia|].
  apply le_S_n in Hf. cbn [ReadRecord_loop].
  destruct (ReadPhysicalRecord _ r fragment) as [[[r1 t] fr]|]; [|done]. cbv zeta.
  repeat match goal with |- context [if ?b then _ else _] => destruct b end;
    first [done | by apply IH].
Qed.

Lemma ReadRecord_mono fuel fuel' (r : Reader F) res :
  (fuel <= fuel')%nat ->
  ReadRecord char_is_signed fuel r = Some res -> ReadRecord char_is_signed fuel' r = Some res.
Proof.
  intros Hf. unfold ReadRecord. destruct (_ <? _); [|by apply ReadRecord_loop_mono].
  destruct (SkipToInitialBlock r) as [r1 ok]. destruct ok; [|done]. by apply ReadRecord_loop_mono.
Qed.

Lemma ReadAll_mono fuel fuel' (r : Reader F) res :
  (fuel <= fuel')%nat ->
  ReadAll char_is_signed fuel r = Some res -> ReadAll char_is_signed fuel' r = Some res.
Proof.
  revert fuel' r res. induction fuel as [|fuel IH]; intros [|fuel'] r res Hf; try done; [lia|].
  cbn [ReadAll].
  destruct (ReadRecord char_is_signed (S fuel) r) as [[r1 [record|]]|] eqn:E; [| |done].
  - rewrite (ReadRecord_mono _ (S fuel') _ _ Hf E).
    destruct (ReadAll char_is_signed fuel r1) as [[r2 rs]|] eqn:E2; [|done].
    apply (IH fuel') in E2 as ->; [done|lia].
  - by rewrite (ReadRecord_mono _ (S fuel') _ _ Hf E).
Qed.
End mono.

(** ** Reading a log back *)

Section total_read.
Context {F : Type} `{SequentialFileLaws F}.
Context (char_is_signed : bool).

Lemma Skip_left r : left (SkipToInitialBlock r).1 <= left r.
Proof.
  unfold SkipToInitialBlock. cbv zeta.
  set (b := if initial_offset_ r mod kBlockSize >? _ then _ else _).
  destruct (b >? 0); [|done].
  destruct (sf_Skip_rest (file_ (set_end r b)) b) as [k Hk].
  destruct (sf_Skip (file_ (set_end r b)) b) as [g st]. simpl in Hk.
  assert (Hg : left (set_file (set_end r b) g) <= left r).
  { unfold left. simpl. rewrite Hk. unfold size. rewrite length_drop. lia. }
  destruct (negb _); simpl; rewrite ?ReportDrop_left; exact Hg.
Qed.

Lemma ReadRecord_total fuel r :
  left r < Z.of_nat fuel ->
  exists r' res, ReadRecord char_is_signed fuel r = Some (r', res) /\
    (is_Some res -> left r' < left r).
Proof.
  intros Hf. unfold ReadRecord. destruct (_ <? _).
  - pose proof (Skip_left r) as Hs. destruct (SkipToInitialBlock r) as [r1 ok]. simpl in Hs.
    destruct ok; simpl negb; cbv iota.
    + destruct (ReadRecord_loop_total char_is_signed fuel r1 [] [] false 0) as (r' & res & E & Hr);
        [lia|]. exists r', res. split; [done|]. intros Hres. specialize (Hr Hres). lia.
    + do 2 eexists. split; [done|]. by intros [? ?].
  - by apply ReadRecord_loop_total.
Qed.

Lemma ReadAll_total fuel r :
  left r < Z.of_nat fuel -> exists res, ReadAll char_is_signed fuel r = Some res.
Proof.
  revert r. induction fuel as [|fuel IH]; intros r Hf.
  { pose proof (left_nonneg r). lia. }
  cbn [ReadAll]. destruct (ReadRecord_total (S fuel) r Hf) as (r1 & [rec|] & -> & Hr); [|by eexists].
  destruct (IH r1) as [[r2 rs] ->]; [|by eexists].
  assert (left r1 < left r) by (apply Hr; by eexists). lia.
Qed.
End total_read.

Section read_log.
Context {F : Type} `{SequentialFileLaws F}.
Context (char_is_signed : bool).
Hypothesis reliable : forall f n, Status_ok (sf_Read f n).2 = true.

(** [complete off ds n ds1]: of the records [ds] written from block offset
    [off], the first [n] bytes hold [ds1] in full, and no more. *)
Inductive complete : Z -> list bytes -> Z -> list bytes -> Prop :=
| complete_nil off n : complete off [] n []
| complete_cut off d ds out off' n :
    frags off true d out off' -> n < size out -> complete off (d :: ds) n []
| complete_cons off d ds out off' n ds1 :
    frags off true d out off' -> size out <= n -> complete off' ds (n - size out) ds1 ->
    complete off (d :: ds) n (d :: ds1).

Lemma read_log f off ds out off' :
  size f < 2 ^ 64 -> log_file off ds out off' ->
  forall pos r m, at_pos f pos r -> 0 <= off <= kBlockSize ->
  pos mod kBlockSize = off mod kBlockSize -> drop (Z.to_nat pos) f ++ m = out ->
  exists fuel r' ds1, ReadAll char_is_signed fuel r = Some (r', ds1) /\
    complete off ds (size f - pos) ds1 /\ reports r' = reports r.
Proof.
  intros Hsize. induction 1 as [off|off d ds out off1 rest off' Hf Hlog IH];
    intros pos r m Hat Hoff Hm Hd.
  - apply app_eq_nil in Hd as [Hd _].
    assert (Hlast : exists r', ReadPhysicalRecord char_is_signed r [] = Some (r', kEof, []) /\
      resyncing_ r' = false /\ reports r' = reports r).
    { destruct (at_pos_size f _ _ Hat) as [Hp Hsz]. rewrite Hd, size_nil in Hsz.
      destruct (ReadPhysicalRecord_cases char_is_signed reliable f Hsize pos r [] off Hat Hoff Hm)
        as [(-> & _ & _)|(r1 & Hat1 & Hrep & _ & [[-> _]|[_ Hb]])].
      - eexists. split; [done|]. split; [apply Hat|done].
      - eexists. split; [done|]. split; [apply Hat1|done].
      - exfalso. destruct (at_pos_size f _ _ Hat1) as [Hp1 Hsz1].
        pose proof (size_nonneg (drop (Z.to_nat (pos + size (trailer off))) f)).
        destruct Hat1 as (_ & _ & fp & ? & ? & _ & Hbuf & _).
        rewrite Hbuf, size_buffer in Hb by (lia || done).
        pose proof (size_nonneg (trailer off)). unfold kHeaderSize in Hb. lia. }
    destruct Hlast as (r' & Hr & Hre & Hrep). exists 1%nat, r', [].
    split; [|split; [constructor|done]]. cbn [ReadAll].
    rewrite (ReadRecord_at_pos char_is_signed f _ pos r Hat). cbn [ReadRecord_loop].
    by rewrite Hr, Hre.
  - destruct (at_pos_size f _ _ Hat) as [Hp Hsz].
    destruct (decide (size out <= size (drop (Z.to_nat pos) f))) as [Hle|Hlt].
    + destruct (app_split_le _ _ _ _ Hd Hle) as (rest' & Hd1 & Hd2).
      destruct (read_frags char_is_signed reliable f Hsize off true d out off1 Hf pos r [] [] 0 rest'
        Hat ltac:(lia) Hoff Hm Hd1) as (fuel1 & r1 & Hr1 & Hat1 & Hrep1).
      destruct (frags_range _ _ _ _ _ Hf Hoff) as [Hoff1 Hmod1].
      apply drop_pos in Hd1; [|done].
      destruct (IH (pos + size out) r1 m Hat1 Hoff1 (Hmod1 pos Hp Hm) ltac:(by rewrite Hd1))
        as (fuel2 & r2 & ds1 & Hr2 & Hc & Hrep2).
      exists (S (fuel1 + fuel2)), r2, (d :: ds1). split; [|split; [|congruence]].
      * cbn [ReadAll]. rewrite (ReadRecord_at_pos char_is_signed f _ pos r Hat).
        rewrite (ReadRecord_loop_mono char_is_signed fuel1 (S (fuel1 + fuel2)) r [] [] false 0 _
          ltac:(lia) Hr1).
        by rewrite (ReadAll_mono char_is_signed fuel2 (fuel1 + fuel2) r1 _ ltac:(lia) Hr2).
      * eapply complete_cons; [done|lia|]. by replace (size f - pos - size out) with
          (size f - (pos + size out)) by lia.
    + destruct (app_split_lt _ _ _ _ Hd ltac:(lia)) as (m' & Hd' & Hne).
      destruct (read_frags_truncated char_is_signed reliable f Hsize off true d out off1 Hf pos r
        [] [] 0 m' Hat Hoff Hm Hd' Hne) as (fuel1 & r1 & Hr1 & Hrep1).
      exists (S fuel1), r1, []. split; [|split; [|done]].
      * cbn [ReadAll]. rewrite (ReadRecord_at_pos char_is_signed f _ pos r Hat).
        by rewrite (ReadRecord_loop_mono char_is_signed fuel1 (S fuel1) r [] [] false 0 _
          ltac:(lia) Hr1).
      * eapply complete_cut; [done|lia].
Qed.

Lemma NewReader_at_pos g reporter checksum :
  at_pos (sf_rest g) 0 (NewReader g reporter checksum 0).
Proof.
  split; [done|]. split; [done|]. exists 0. simpl. pose proof (size_nonneg (sf_rest g)).
  split; [lia|]. split; [done|]. split; [by vm_compute|]. done.
Qed.

(** Of a prefix [f] of a log, with enough fuel, the reader returns the complete
    records and reports nothing. *)
Lemma read_log_prefix g ds out off' m reporter checksum fuel :
  log_file 0 ds out off' -> sf_rest g ++ m = out -> size (sf_rest g) < 2 ^ 64 ->
  size (sf_rest g) < Z.of_nat fuel ->
  exists r' ds1,
    ReadAll char_is_signed fuel (NewReader g reporter checksum 0) = Some (r', ds1) /\
    complete 0 ds (size (sf_rest g)) ds1 /\ reports r' = [].
Proof.
  intros Hlog Hpre Hsize Hfuel.
  destruct (read_log (sf_rest g) 0 ds out off' Hsize Hlog 0 (NewReader g reporter checksum 0) m)
    as (fuel0 & r0 & ds0 & Hr0 & Hc & Hrep); [apply NewReader_at_pos|unfold kBlockSize; lia|done|done|].
  exists r0, ds0.
  destruct (ReadAll_total char_is_signed fuel (NewReader g reporter checksum 0)) as [[r1 ds1] Hr1].
  { unfold left. simpl. rewrite size_nil. lia. }
  assert (Hle0 : (fuel0 <= Nat.max fuel0 fuel)%nat) by lia.
  assert (Hle1 : (fuel <= Nat.max fuel0 fuel)%nat) by lia.
  pose proof (ReadAll_mono _ _ _ _ _ Hle1 Hr1) as Hr2.
  rewrite (ReadAll_mono _ _ _ _ _ Hle0 Hr0) in Hr2.
  injection Hr2 as -> ->. by rewrite Z.sub_0_r in Hc.
Qed.
End read_log.

(** ** How much of a log a prefix holds *)

Lemma frags_det off begin d out1 off1 :
  frags off begin d out1 off1 ->
  forall out2 off2, frags off begin d out2 off2 -> out2 = out1 /\ off2 = off1.
Proof.
  induction 1 as [off begin d Hle|off begin d out off' avail Hlt Hf IH]; intros out2 off2 Hf2;
    inversion Hf2; subst; clear Hf2; try (unfold avail in *; lia); [done|].
  match goal with H : frags kBlockSize _ _ _ _ |- _ => apply IH in H as [-> ->] end. done.
Qed.

Lemma log_file_det off ds out1 off1 :
  log_file off ds out1 off1 ->
  forall out2 off2, log_file off ds out2 off2 -> out2 = out1 /\ off2 = off1.
Proof.
  induction 1 as [off|off d ds out off1 rest off' Hf Hlog IH]; intros out2 off2 Hl2;
    inversion Hl2; subst; clear Hl2; [done|].
  match goal with H : frags _ _ _ _ _ |- _ => apply (frags_det _ _ _ _ _ Hf) in H as [-> ->] end.
  match goal with H : log_file _ ds _ _ |- _ => apply IH in H as [-> ->] end. done.
Qed.

Lemma log_file_take off ds out off' n :
  log_file off ds out off' ->
  exists out1 off1, log_file off (take n ds) out1 off1 /\ size out1 <= size out.
Proof.
  intros H. revert n. induction H as [off|off d ds out off1 rest off' Hf Hlog IH]; intros n.
  - exists [], off. rewrite take_nil. split; [constructor|done].
  - destruct n as [|n].
    + exists [], off. split; [constructor|]. rewrite size_nil. apply size_nonneg.
    + destruct (IH n) as (out2 & off2 & Hl & Hs). exists (out ++ out2), off2.
      split; [by econstructor|]. rewrite !size_app. lia.
Qed.

(** The records complete in [len] bytes are the first [n]: their log fits, and
    the log of one more does not. *)
Lemma complete_take off ds len ds1 :
  complete off ds len ds1 -> 0 <= len ->
  exists n out1 off1, ds1 = take n ds /\ log_file off ds1 out1 off1 /\ size out1 <= len /\
    ((n < length ds)%nat -> exists out2 off2,
       log_file off (take (S n) ds) out2 off2 /\ len < size out2).
Proof.
  induction 1 as [off len|off d ds out off' len Hf Hlt|off d ds out off' len ds1 Hf Hle Hc IH];
    intros Hlen.
  - exists 0%nat, [], off. split_and!; [done|constructor|by rewrite size_nil|simpl; lia].
  - exists 0%nat, [], off. split_and!; [done|constructor|by rewrite size_nil|].
    intros _. exists (out ++ []), off'. split; [econstructor; [done|constructor]|].
    by rewrite app_nil_r.
  - destruct (IH ltac:(lia)) as (n & out1 & off1 & -> & Hl & Hs & Hn).
    exists (S n), (out ++ out1), off1. split_and!; [done|by econstructor|rewrite size_app; lia|].
    intros Hlt. destruct Hn as (out2 & off2 & Hl2 & Hs2); [simpl in Hlt; lia|].
    exists (out ++ out2), off2. split; [by econstructor|]. rewrite size_app. lia.
Qed.

(** ** Reports are only added *)

Section grows.
Context {F : Type} `{SequentialFile F}.
Context (char_is_signed : bool).

Definition grows (r r' : Reader F) : Prop := reports r `prefix_of` reports r'.

(** Only other fields changed. *)
Ltac same := solve [unfold grows; cbn; reflexivity].

#[local] Instance grows_refl : Reflexive grows.
Proof. intros r. unfold grows. done. Qed.

#[local] Instance grows_trans : Transitive grows.
Proof. intros r1 r2 r3. unfold grows. apply transitivity. Qed.

Lemma grows_drop r b s : grows r (ReportDrop r b s).
Proof. unfold ReportDrop. destruct (_ && _); [|same]. by eexists. Qed.

Lemma Parse_grows r result : grows r (ParsePhysicalRecord char_is_signed r result).1.1.
Proof.
  unfold ParsePhysicalRecord, ReportCorruption.
  destruct (_ >? _); [destruct (negb _); [apply (grows_drop (set_buffer r []))|same]|].
  destruct (_ && _); [same|]. destruct (negb _); [apply (grows_drop (set_buffer r []))|]. destruct (_ <? _); same.
Qed.

Lemma Physical_grows fuel : forall r result r' t out,
  ReadPhysicalRecord_loop char_is_signed fuel r result = Some (r', t, out) -> grows r r'.
Proof.
  induction fuel as [|fuel IH]; intros r result r' t out; cbn [ReadPhysicalRecord_loop]; [done|].
  destruct (_ <? kHeaderSize).
  - destruct (negb (eof_ r)); [|intros [= <- <- <-]; same]. destruct (sf_Read _ _) as [[f data] status].
    destruct (negb (Status_ok status)).
    + intros [= <- <- <-]. apply (grows_drop (set_buffer (set_end (set_buffer (set_file r f) data) _) [])).
    + destruct (_ <? kBlockSize); intros E; by apply IH in E.
  - intros [= E]. pose proof (Parse_grows r result) as Hg. by rewrite E in Hg.
Qed.

Lemma Record_loop_grows fuel : forall r fragment scratch in_frag off r' out,
  ReadRecord_loop char_is_signed fuel r fragment scratch in_frag off = Some (r', out) -> grows r r'.
Proof.
  induction fuel as [|fuel IH]; intros r fragment scratch in_frag off r' out; cbn [ReadRecord_loop]; [done|].
  destruct (ReadPhysicalRecord char_is_signed r fragment) as [[[r1 t] fragment1]|] eqn:Ep; [|done].
  apply Physical_grows in Ep. intros E. trans r1; [done|]. clear Ep. revert E.
  destruct (_ && _); [by intros E; apply IH in E|].
  destruct (_ && _); [by intros E; apply IH in E|].
  set (r2 := if resyncing_ r1 then set_resyncing r1 false else r1).
  assert (H2 : grows r1 r2) by (unfold r2; destruct (resyncing_ r1); same).
  intros E. trans r2; [done|]. clear H2. revert E. clearbody r2.
  assert (Hc : forall n s (b : bool), grows r2 (if b then ReportCorruption r2 n s else r2)).
  { intros n s []; [apply grows_drop|same]. }
  repeat match goal with |- context [if ?b then _ else _] => lazymatch b with
    | (_ =? _) => destruct b
    | in_frag => destruct in_frag
    | negb in_frag => destruct in_frag; cbn [negb] end end;
    try (intros [= <- <-]; first [same | apply Hc]);
    intros E; apply IH in E; first [done | etrans; [|exact E]; first [apply Hc|apply grows_drop]].
Qed.

Lemma ReadRecord_grows fuel r r' out : ReadRecord char_is_signed fuel r = Some (r', out) -> grows r r'.
Proof.
  unfold ReadRecord. destruct (_ <? _); [|apply Record_loop_grows].
  assert (Hs : grows r (SkipToInitialBlock r).1).
  { unfold SkipToInitialBlock. destruct (_ >? 0); [|same]. destruct (sf_Skip _ _) as [f s].
    destruct (negb _); [|same]. etrans; [|apply grows_drop]. same. }
  destruct (SkipToInitialBlock r) as [r1 []]; cbn [negb].
  - intros E%Record_loop_grows. by trans r1.
  - by intros [= <- <-].
Qed.

Lemma ReadAll_grows fuel : forall r r' out, ReadAll char_is_signed fuel r = Some (r', out) -> grows r r'.
Proof.
  induction fuel as [|fuel IH]; intros r r' out; cbn [ReadAll]; [done|].
  destruct (ReadRecord char_is_signed (S fuel) r) as [[r1 [record|]]|] eqn:E; [| |done].
  - destruct (ReadAll char_is_signed fuel r1) as [[r2 rs]|] eqn:E2; [|done]. intros [= <- <-].
    apply ReadRecord_grows in E. apply IH in E2. by trans r1.
  - intros [= <- <-]. by apply ReadRecord_grows in E.
Qed.

Lemma grows_none r r' : grows r r' -> reports r' = [] -> reports r = [].
Proof. unfold grows. intros H1 H2. rewrite H2 in H1. by apply prefix_nil_inv in H1. Qed.
End grows.

(** A file read from memory. *)
#[export] Instance StringSource : SequentialFile bytes := {|
  sf_Read f n := (drop (Z.to_nat n) f, take (Z.to_nat n) f, Status_OK);
  sf_Skip f n := (drop (Z.to_nat n) f, Status_OK)
|}.

#[export] Instance StringSourceLaws : SequentialFileLaws bytes.
Proof.
  refine {| sf_rest := fun f => f |}.
  - intros f n f' data s Hn [= <- <- <-] _. split; [by rewrite take_drop|].
    unfold size. rewrite length_take. split; [lia|]. intros. apply drop_ge. lia.
  - intros f n. by exists (Z.to_nat n).
Defined.

(** ** Properties *)

(** C1. Crash safety of the log.  Records are written one after another to a new
    file, all reporting success; a reader is then given any prefix of the file (a
    crash may lose the tail).  It ends, reports no corruption, and returns the
    first [n] records, where [n] is exactly the number of records whose bytes lie
    in the prefix; of the whole file it returns every record. *)
Theorem log_crash_prefix {W R} `{WritableFileLaws W} `{SequentialFileLaws R}
    (char_is_signed : bool) (file : W) (ds : list bytes) w' s (g : R) (lost : bytes)
    (reporter checksum : bool) (fuel : nat) :
  trailer_safe (F := W) ->
  (forall f n, Status_ok (sf_Read (F := R) f n).2 = true) ->
  wf_contents file = [] ->
  AddRecords (NewWriter file) ds = Some (w', s) -> Status_ok s = true ->
  sf_rest g ++ lost = wf_contents (dest_ w') ->
  size (sf_rest g) < 2 ^ 64 -> size (sf_rest g) < Z.of_nat fuel ->
  exists r' n out off,
    ReadAll char_is_signed fuel (NewReader g reporter checksum 0) = Some (r', take n ds) /\
    reports r' = [] /\
    log_file 0 (take n ds) out off /\ size out <= size (sf_rest g) /\
    ((n < length ds)%nat -> exists out2 off2,
       log_file 0 (take (S n) ds) out2 off2 /\ size (sf_rest g) < size out2) /\
    (lost = [] -> take n ds = ds).
Proof.
  intros Hsafe Hrel Hnew Hadd Hs Hpre Hsize Hfuel.
  assert (Hoff : 0 <= block_offset_ (NewWriter file) <= kBlockSize) by (vm_compute; split; congruence).
  destruct (AddRecords_log_file _ _ _ _ Hsafe Hoff Hadd Hs)
    as (out & Hlog & Hc). simpl in Hlog, Hc. rewrite Hnew in Hc. simpl in Hc. rewrite Hc in Hpre.
  destruct (read_log_prefix char_is_signed Hrel g ds out _ lost reporter checksum fuel Hlog Hpre Hsize Hfuel)
    as (r' & ds1 & Hr & Hcomp & Hrep).
  destruct (complete_take _ _ _ _ Hcomp (size_nonneg _)) as (n & out1 & off1 & -> & Hl & Hle & Hn).
  exists r', n, out1, off1. split_and!; [done..|].
  intros ->. rewrite app_nil_r in Hpre. destruct (decide (n < length ds)%nat) as [Hlt|Hge].
  - destruct (Hn Hlt) as (out2 & off2 & Hl2 & Hs2).
    destruct (log_file_take 0 ds out _ (S n) Hlog) as (out3 & off3 & Hl3 & Hs3).
    apply (log_file_det _ _ _ _ Hl2) in Hl3 as [-> ->]. rewrite Hpre in Hs2. lia.
  - apply take_ge. lia.
Qed.

Definition two_records : list bytes := [str "one"; str "second"].
Definition two_records_log : bytes :=
  match AddRecords (NewWriter (F := bytes) []) two_records with
  | Some (w, _) => dest_ w
  | None => []
  end.

Lemma log_crash_prefix_witness :
  exists r' n out off,
    ReadAll true 30 (NewReader (F := bytes) (take 20 two_records_log) true true 0)
      = Some (r', take n two_records) /\
    reports r' = [] /\
    log_file 0 (take n two_records) out off /\ size out <= size (sf_rest (take 20 two_records_log)) /\
    ((n < length two_records)%nat -> exists out2 off2,
       log_file 0 (take (S n) two_records) out2 off2 /\ size (sf_rest (take 20 two_records_log)) < size out2) /\
    (drop 20 two_records_log = [] -> take n two_records = two_records).
Proof.
  apply (log_crash_prefix (W := bytes) (R := bytes) true [] two_records
    (MkWriter two_records_log 23) Status_OK
    (take 20 two_records_log) (drop 20 two_records_log) true true 30).
  - intros f n. reflexivity.
  - intros f n. reflexivity.
  - reflexivity.
  - vm_compute. reflexivity.
  - reflexivity.
  - vm_compute. reflexivity.
  - vm_compute. reflexivity.
  - vm_compute. reflexivity.
Defined.

(** C34. The log reader ends on every file: whatever the bytes are, corrupt or not,
    and wherever reading starts, more fuel than the file has bytes suffices to
    read it to the end of file. *)
Theorem log_reader_terminates {R} `{SequentialFileLaws R} (char_is_signed : bool) (g : R)
    (reporter checksum : bool) (initial_offset : Z) (fuel : nat) :
  size (sf_rest g) < Z.of_nat fuel ->
  exists r' ds,
    ReadAll char_is_signed fuel (NewReader g reporter checksum initial_offset) = Some (r', ds).
Proof.
  intros Hf. destruct (ReadAll_total char_is_signed fuel
    (NewReader g reporter checksum initial_offset)) as [[r' ds] E]; [|by exists r', ds].
  unfold left. simpl. rewrite size_nil. lia.
Qed.

Lemma log_reader_terminates_witness :
  exists r' ds,
    ReadAll false 30 (NewReader (F := bytes) (str "not a log at all") true true 3) = Some (r', ds).
Proof. apply log_reader_terminates. vm_compute. reflexivity. Defined.
