(* ===== verification/Posix.v ===== *)
(** * The POSIX environment

    Models [cpp/leveldb/util/env_posix.cc]: files over system calls, their locks and limits,
    and the queue of the background thread.  The operating system is a parameter: each call
    returns its result or the value of [errno].  Loggers, sleeping, the test directory and
    the singleton are left out. *)
From stdpp Require Import gmap.
From S2P Require Import Prelude Comparator Status LogWriter LogReader.

(** ** System calls *)

Inductive open_mode := O_Read | O_Truncate | O_Append | O_ReadWrite.

(** [sys_interruptions] bounds how often calls will still fail with [EINTR]; [sys_load] reads
    a region that [sys_mmap] made; [sys_fullfsync] is there where [HAVE_FULLFSYNC] is, and
    [sys_sync] is [fdatasync] or [fsync]. *)
Class PosixSys := {
  OS : Type;
  sys_open : OS -> bytes -> open_mode -> OS * (Z + Z);
  sys_close : OS -> Z -> OS * option Z;
  sys_read : OS -> Z -> Z -> OS * (bytes + Z);
  sys_lseek : OS -> Z -> Z -> OS * option Z;
  sys_pread : OS -> Z -> Z -> Z -> OS * (bytes + Z);
  sys_write : OS -> Z -> bytes -> OS * (Z + Z);
  sys_fullfsync : option (OS -> Z -> OS * option Z);
  sys_sync : OS -> Z -> OS * option Z;
  sys_mmap : OS -> Z -> Z -> OS * (Z + Z);
  sys_load : OS -> Z -> Z -> Z -> bytes;
  sys_munmap : OS -> Z -> Z -> OS;
  sys_stat : OS -> bytes -> Z + Z;
  sys_access : OS -> bytes -> bool;
  sys_opendir : OS -> bytes -> list bytes + Z;
  sys_unlink : OS -> bytes -> OS * option Z;
  sys_mkdir : OS -> bytes -> OS * option Z;
  sys_rmdir : OS -> bytes -> OS * option Z;
  sys_rename : OS -> bytes -> bytes -> OS * option Z;
  sys_flock : OS -> Z -> bool -> OS * option Z;
  sys_gettimeofday : OS -> Z * Z;
  strerror : Z -> bytes;
  sys_interruptions : OS -> nat
}.

Definition ENOENT : Z := 2.
Definition EINTR : Z := 4.
Definition EINVAL : Z := 22.

Definition kWritableFileBufferSize : Z := 65536.

(** ** Names *)

(** [rfind('/')] *)
Fixpoint rfind_slash (s : bytes) : option nat :=
  match s with
  | [] => None
  | b :: s =>
      match rfind_slash s with
      | Some i => Some (S i)
      | None => if Z_of_byte b =? 47 then Some O else None
      end
  end.

Definition Dirname (filename : bytes) : bytes :=
  match rfind_slash filename with None => str "." | Some i => take i filename end.

Definition Basename (filename : bytes) : bytes :=
  match rfind_slash filename with None => filename | Some i => drop (i + 1) filename end.

Definition IsManifest (filename : bytes) : bool := Slice_starts_with (Basename filename) (str "MANIFEST").

(** ** Limits *)

(** The counter is an [int]. *)
Definition Limiter_Acquire (acquires_allowed : Z) : Z * bool :=
  let old := acquires_allowed in
  let acquires_allowed := int32 (acquires_allowed - 1) in
  if old >? 0 then (acquires_allowed, true) else (int32 (acquires_allowed + 1), false).

Definition Limiter_Release (acquires_allowed : Z) : Z := int32 (acquires_allowed + 1).

Definition kDefaultMmapLimit : Z := 1000.

(** [rlim]: what [getrlimit] gives, [None] inside for no limit. *)
Definition MaxOpenFiles (g_open_read_only_file_limit : Z) (rlim : option (option Z)) : Z :=
  if g_open_read_only_file_limit >=? 0 then g_open_read_only_file_limit
  else
    match rlim with
    | None => 50
    | Some None => 2 ^ 31 - 1
    | Some (Some rlim_cur) => int32 (rlim_cur / 5)
    end.

Section posix.
Context `{PS : PosixSys}.

Definition PosixError (context : bytes) (error_number : Z) : Status :=
  if error_number =? ENOENT then Status_NotFound context (strerror error_number) else Status_IOError context (strerror error_number).

(** ** Reading *)

Record PosixSequentialFile := MkPosixSequential { pseq_fd_ : Z; pseq_filename_ : bytes }.

Fixpoint read_loop (fuel : nat) (os : OS) (f : PosixSequentialFile) (n : Z) : res (OS * bytes * Status) :=
  match sys_read os (pseq_fd_ f) n with
  | (os, inl data) => Ok (os, data, Status_OK)
  | (os, inr errno) =>
      if errno =? EINTR then match fuel with O => OutOfFuel | S fuel => read_loop fuel os f n end
      else Ok (os, [], PosixError (pseq_filename_ f) errno)
  end.

Definition pseq_Read (os : OS) (f : PosixSequentialFile) (n : Z) : res (OS * bytes * Status) := read_loop (sys_interruptions os) os f n.

Definition pseq_Skip (os : OS) (f : PosixSequentialFile) (n : Z) : OS * Status :=
  match sys_lseek os (pseq_fd_ f) n with
  | (os, None) => (os, Status_OK)
  | (os, Some errno) => (os, PosixError (pseq_filename_ f) errno)
  end.

(** The limit decides whether the descriptor stays open. *)
Record PosixRandomAccessFile := MkPosixRandom { has_permanent_fd_ : bool; prand_fd_ : Z; prand_filename_ : bytes }.

Definition NewPosixRandomAccessFile (os : OS) (filename : bytes) (fd : Z) (fd_limiter : Z) : OS * Z * PosixRandomAccessFile :=
  let '(fd_limiter, permanent) := Limiter_Acquire fd_limiter in
  let os := if permanent then os else (sys_close os fd).1 in
  (os, fd_limiter, MkPosixRandom permanent (if permanent then fd else -1) filename).

Definition prand_Read (os : OS) (f : PosixRandomAccessFile) (offset n : Z) : OS * bytes * Status :=
  let '(os, opened) := if has_permanent_fd_ f then (os, inl (prand_fd_ f)) else sys_open os (prand_filename_ f) O_Read in
  match opened with
  | inr errno => (os, [], PosixError (prand_filename_ f) errno)
  | inl fd =>
      let '(os, r) := sys_pread os fd n offset in
      let '(data, status) := match r with inl data => (data, Status_OK) | inr errno => ([], PosixError (prand_filename_ f) errno) end in
      let os := if has_permanent_fd_ f then os else (sys_close os fd).1 in
      (os, data, status)
  end.

Definition prand_Delete (os : OS) (f : PosixRandomAccessFile) (fd_limiter : Z) : OS * Z :=
  if has_permanent_fd_ f then ((sys_close os (prand_fd_ f)).1, Limiter_Release fd_limiter) else (os, fd_limiter).

Record PosixMmapReadableFile := MkPosixMmap { mmap_base_ : Z; mmap_length_ : Z; mmap_filename_ : bytes }.

(** The sum of the check is a [uint64_t]; reading beyond the region is undefined. *)
Definition mmap_Read (os : OS) (f : PosixMmapReadableFile) (offset n : Z) : res (bytes * Status) :=
  if u64 (offset + n) >? mmap_length_ f then Ok ([], PosixError (mmap_filename_ f) EINVAL)
  else if offset + n >? mmap_length_ f then Undefined
  else Ok (sys_load os (mmap_base_ f) offset n, Status_OK).

Definition mmap_Delete (os : OS) (f : PosixMmapReadableFile) (mmap_limiter : Z) : OS * Z :=
  (sys_munmap os (mmap_base_ f) (mmap_length_ f), Limiter_Release mmap_limiter).

(** ** Writing *)

(** [pbuf_] has the bytes of [buf_] up to [pos_]. *)
Record PosixWritableFile := MkPosixWritable { pbuf_ : bytes; pw_fd_ : Z; is_manifest_ : bool; pw_filename_ : bytes; pw_dirname_ : bytes }.

Definition NewPosixWritableFile (filename : bytes) (fd : Z) : PosixWritableFile :=
  MkPosixWritable [] fd (IsManifest filename) filename (Dirname filename).

Definition set_buf (f : PosixWritableFile) (buf : bytes) : PosixWritableFile := MkPosixWritable buf (pw_fd_ f) (is_manifest_ f) (pw_filename_ f) (pw_dirname_ f).
Definition set_fd (f : PosixWritableFile) (fd : Z) : PosixWritableFile := MkPosixWritable (pbuf_ f) fd (is_manifest_ f) (pw_filename_ f) (pw_dirname_ f).

Fixpoint write_loop (fuel : nat) (os : OS) (f : PosixWritableFile) (data : bytes) : res (OS * Status) :=
  match data with
  | [] => Ok (os, Status_OK)
  | _ =>
      match sys_write os (pw_fd_ f) data with
      | (os, inl n) => match fuel with O => OutOfFuel | S fuel => write_loop fuel os f (drop (Z.to_nat n) data) end
      | (os, inr errno) =>
          if errno =? EINTR then match fuel with O => OutOfFuel | S fuel => write_loop fuel os f data end
          else Ok (os, PosixError (pw_filename_ f) errno)
      end
  end.

Definition WriteUnbuffered (os : OS) (f : PosixWritableFile) (data : bytes) : res (OS * Status) :=
  write_loop (length data + sys_interruptions os) os f data.

(** The buffer is empty afterwards, whatever the status. *)
Definition FlushBuffer (os : OS) (f : PosixWritableFile) : res (OS * PosixWritableFile * Status) :=
  let? r := WriteUnbuffered os f (pbuf_ f) in
  Ok (r.1, set_buf f [], r.2).

Definition pw_Append (os : OS) (f : PosixWritableFile) (data : bytes) : res (OS * PosixWritableFile * Status) :=
  let copy_size := Z.min (size data) (kWritableFileBufferSize - size (pbuf_ f)) in
  let f := set_buf f (pbuf_ f ++ take (Z.to_nat copy_size) data) in
  let write_data := drop (Z.to_nat copy_size) data in
  if size write_data =? 0 then Ok (os, f, Status_OK)
  else
    let? r := FlushBuffer os f in
    let '(os, f, status) := r in
    if negb (Status_ok status) then Ok (os, f, status)
    else if size write_data <? kWritableFileBufferSize then Ok (os, set_buf f write_data, Status_OK)
    else let? r := WriteUnbuffered os f write_data in Ok (r.1, f, r.2).

Definition pw_Close (os : OS) (f : PosixWritableFile) : res (OS * PosixWritableFile * Status) :=
  let? r := FlushBuffer os f in
  let '(os, f, status) := r in
  let '(os, close_result) := sys_close os (pw_fd_ f) in
  let status := match close_result with Some errno => if Status_ok status then PosixError (pw_filename_ f) errno else status | None => status end in
  Ok (os, set_fd f (-1), status).

Definition pw_Delete (os : OS) (f : PosixWritableFile) : res OS :=
  if pw_fd_ f >=? 0 then let? r := pw_Close os f in Ok r.1.1 else Ok os.

Definition pw_Flush (os : OS) (f : PosixWritableFile) : res (OS * PosixWritableFile * Status) := FlushBuffer os f.

Definition SyncFd (os : OS) (fd : Z) (fd_path : bytes) : OS * Status :=
  let '(os, done) := match sys_fullfsync with Some fullfsync => let '(os, r) := fullfsync os fd in (os, bool_decide (r = None)) | None => (os, false) end in
  if done then (os, Status_OK)
  else match sys_sync os fd with (os, None) => (os, Status_OK) | (os, Some errno) => (os, PosixError fd_path errno) end.

Definition SyncDirIfManifest (os : OS) (f : PosixWritableFile) : OS * Status :=
  if negb (is_manifest_ f) then (os, Status_OK)
  else
    match sys_open os (pw_dirname_ f) O_Read with
    | (os, inr errno) => (os, PosixError (pw_dirname_ f) errno)
    | (os, inl fd) => let '(os, status) := SyncFd os fd (pw_dirname_ f) in ((sys_close os fd).1, status)
    end.

Definition pw_Sync (os : OS) (f : PosixWritableFile) : res (OS * PosixWritableFile * Status) :=
  let '(os, status) := SyncDirIfManifest os f in
  if negb (Status_ok status) then Ok (os, f, status)
  else
    let? r := FlushBuffer os f in
    let '(os, f, status) := r in
    if negb (Status_ok status) then Ok (os, f, status)
    else let '(os, status) := SyncFd os (pw_fd_ f) (pw_filename_ f) in Ok (os, f, status).

(** ** The environment *)

(** What [PosixEnv] keeps next to the queue of background work. *)
Record PosixEnv := MkPosixEnv { locked_files_ : gset bytes; mmap_limiter_ : Z; fd_limiter_ : Z }.

Definition NewPosixEnv (g_mmap_limit g_open_read_only_file_limit : Z) (rlim : option (option Z)) : PosixEnv :=
  MkPosixEnv ∅ g_mmap_limit (MaxOpenFiles g_open_read_only_file_limit rlim).

Inductive PosixReadable := PosixPread (f : PosixRandomAccessFile) | PosixMmap (f : PosixMmapReadableFile).

Definition posix_NewSequentialFile (os : OS) (filename : bytes) : OS * (PosixSequentialFile + Status) :=
  match sys_open os filename O_Read with
  | (os, inr errno) => (os, inr (PosixError filename errno))
  | (os, inl fd) => (os, inl (MkPosixSequential fd filename))
  end.

Definition posix_GetFileSize (os : OS) (filename : bytes) : Z + Status :=
  match sys_stat os filename with inl st_size => inl (u64 st_size) | inr errno => inr (PosixError filename errno) end.

Definition posix_NewRandomAccessFile (os : OS) (e : PosixEnv) (filename : bytes) : OS * PosixEnv * (PosixReadable + Status) :=
  match sys_open os filename O_Read with
  | (os, inr errno) => (os, e, inr (PosixError filename errno))
  | (os, inl fd) =>
      let '(mmap_limiter, acquired) := Limiter_Acquire (mmap_limiter_ e) in
      if negb acquired then
        let '(os, fd_limiter, f) := NewPosixRandomAccessFile os filename fd (fd_limiter_ e) in
        (os, MkPosixEnv (locked_files_ e) mmap_limiter fd_limiter, inl (PosixPread f))
      else
        let '(os, r) :=
          match posix_GetFileSize os filename with
          | inr status => (os, inr status)
          | inl file_size =>
              match sys_mmap os fd file_size with
              | (os, inl mmap_base) => (os, inl (PosixMmap (MkPosixMmap mmap_base file_size filename)))
              | (os, inr errno) => (os, inr (PosixError filename errno))
              end
          end in
        let os := (sys_close os fd).1 in
        let mmap_limiter := match r with inl _ => mmap_limiter | inr _ => Limiter_Release mmap_limiter end in
        (os, MkPosixEnv (locked_files_ e) mmap_limiter (fd_limiter_ e), r)
  end.

Definition open_writable (mode : open_mode) (os : OS) (filename : bytes) : OS * (PosixWritableFile + Status) :=
  match sys_open os filename mode with
  | (os, inr errno) => (os, inr (PosixError filename errno))
  | (os, inl fd) => (os, inl (NewPosixWritableFile filename fd))
  end.

Definition posix_NewWritableFile : OS -> bytes -> OS * (PosixWritableFile + Status) := open_writable O_Truncate.
Definition posix_NewAppendableFile : OS -> bytes -> OS * (PosixWritableFile + Status) := open_writable O_Append.

Definition posix_FileExists (os : OS) (filename : bytes) : bool := sys_access os filename.

Definition posix_GetChildren (os : OS) (directory_path : bytes) : list bytes * Status :=
  match sys_opendir os directory_path with inl entries => (entries, Status_OK) | inr errno => ([], PosixError directory_path errno) end.

(** The status of a call that returns 0 or sets [errno]. *)
Definition checked (context : bytes) (r : OS * option Z) : OS * Status :=
  (r.1, match r.2 with None => Status_OK | Some errno => PosixError context errno end).

Definition posix_RemoveFile (os : OS) (filename : bytes) : OS * Status := checked filename (sys_unlink os filename).
Definition posix_CreateDir (os : OS) (dirname : bytes) : OS * Status := checked dirname (sys_mkdir os dirname).
Definition posix_RemoveDir (os : OS) (dirname : bytes) : OS * Status := checked dirname (sys_rmdir os dirname).
Definition posix_RenameFile (os : OS) (from to : bytes) : OS * Status := checked from (sys_rename os from to).

Record PosixFileLock := MkPosixFileLock { lock_fd_ : Z; lock_filename_ : bytes }.

(** [PosixLockTable] *)
Definition LockTable_Insert (locked_files : gset bytes) (fname : bytes) : gset bytes * bool := ({[fname]} ∪ locked_files, bool_decide (fname ∉ locked_files)).
Definition LockTable_Remove (locked_files : gset bytes) (fname : bytes) : gset bytes := locked_files ∖ {[fname]}.
Definition set_locked (e : PosixEnv) (l : gset bytes) : PosixEnv := MkPosixEnv l (mmap_limiter_ e) (fd_limiter_ e).

Definition posix_LockFile (os : OS) (e : PosixEnv) (filename : bytes) : OS * PosixEnv * (PosixFileLock + Status) :=
  match sys_open os filename O_ReadWrite with
  | (os, inr errno) => (os, e, inr (PosixError filename errno))
  | (os, inl fd) =>
      let '(locked, inserted) := LockTable_Insert (locked_files_ e) filename in
      let e := set_locked e locked in
      if negb inserted then ((sys_close os fd).1, e, inr (Status_IOError (str "lock " ++ filename) (str "already held by process")))
      else
        match sys_flock os fd true with
        | (os, Some lock_errno) =>
            ((sys_close os fd).1, set_locked e (LockTable_Remove (locked_files_ e) filename), inr (PosixError (str "lock " ++ filename) lock_errno))
        | (os, None) => (os, e, inl (MkPosixFileLock fd filename))
        end
  end.

(** The lock is deleted when this succeeds. *)
Definition posix_UnlockFile (os : OS) (e : PosixEnv) (lock : PosixFileLock) : OS * PosixEnv * Status :=
  match sys_flock os (lock_fd_ lock) false with
  | (os, Some errno) => (os, e, PosixError (str "unlock " ++ lock_filename_ lock) errno)
  | (os, None) => ((sys_close os (lock_fd_ lock)).1, set_locked e (LockTable_Remove (locked_files_ e) (lock_filename_ lock)), Status_OK)
  end.

Definition posix_NowMicros (os : OS) : Z := u64 (u64 (sys_gettimeofday os).1 * 1000000 + (sys_gettimeofday os).2).
End posix.

(** ** The background thread *)

(** Where the thread is: not started, at the top of its loop without the mutex, waiting on
    the condition variable, told to go on, or running an item. *)
Inductive BgPhase (A : Type) := BgNotStarted | BgTop | BgWaiting | BgSignaled | BgRunning (item : A).
Arguments BgNotStarted {A}.
Arguments BgTop {A}.
Arguments BgWaiting {A}.
Arguments BgSignaled {A}.
Arguments BgRunning {A} _.

Record BgState (A : Type) := MkBg { started_background_thread_ : bool; background_work_queue_ : list A; bg_phase : BgPhase A }.
Arguments MkBg {A} _ _ _.
Arguments started_background_thread_ {A} _.
Arguments background_work_queue_ {A} _.
Arguments bg_phase {A} _.

Section schedule.
Context {A : Type}.
Implicit Types (s : BgState A).

Definition NewBg : BgState A := MkBg false [] BgNotStarted.

(** [Signal] wakes the thread if it waits. *)
Definition bg_signal (p : BgPhase A) : BgPhase A := match p with BgWaiting => BgSignaled | _ => p end.

(** A section of [Schedule] under the mutex. *)
Definition posix_Schedule s (item : A) : BgState A :=
  let phase := if negb (started_background_thread_ s) then BgTop else bg_phase s in
  let phase := match background_work_queue_ s with [] => bg_signal phase | _ => phase end in
  MkBg true (background_work_queue_ s ++ [item]) phase.

(** The loop with the mutex: waiting while the queue is empty, or taking its front. *)
Definition bg_take s : BgState A :=
  match background_work_queue_ s with
  | [] => MkBg (started_background_thread_ s) [] BgWaiting
  | item :: queue => MkBg (started_background_thread_ s) queue (BgRunning item)
  end.

(** The steps of the thread, with the item that is done; a wait may end for no reason. *)
Inductive bg_step : BgState A -> option A -> BgState A -> Prop :=
| bg_top st q : bg_step (MkBg st q BgTop) None (bg_take (MkBg st q BgTop))
| bg_wake st q : bg_step (MkBg st q BgSignaled) None (bg_take (MkBg st q BgSignaled))
| bg_spurious st q : bg_step (MkBg st q BgWaiting) None (bg_take (MkBg st q BgWaiting))
| bg_done st q item : bg_step (MkBg st q (BgRunning item)) (Some item) (MkBg st q BgTop).
End schedule.

(** ** What the system calls do *)

(** For a descriptor that is open for writing: the bytes of its file, and those that survive
    a loss of power. *)
Class PosixLaws `{PosixSys} := {
  fd_open : OS -> Z -> Prop;
  fd_data : OS -> Z -> bytes;
  fd_durable : OS -> Z -> bytes;
  law_write os fd data os' n : data <> [] -> fd_open os fd -> sys_write os fd data = (os', inl n) ->
    0 < n <= size data /\ fd_open os' fd /\ fd_data os' fd = fd_data os fd ++ take (Z.to_nat n) data /\ (sys_interruptions os' <= sys_interruptions os)%nat;
  law_write_fails os fd data os' errno : fd_open os fd -> sys_write os fd data = (os', inr errno) ->
    fd_open os' fd /\ fd_data os' fd = fd_data os fd /\ (errno = EINTR -> (sys_interruptions os' < sys_interruptions os)%nat);
  law_sync os fd fd' : fd_open os fd' -> fd_open (sys_sync os fd).1 fd' /\ fd_data (sys_sync os fd).1 fd' = fd_data os fd';
  law_sync_durable os fd : fd_open os fd -> (sys_sync os fd).2 = None -> fd_durable (sys_sync os fd).1 fd = fd_data os fd;
  law_fullfsync fullfsync os fd fd' : sys_fullfsync = Some fullfsync -> fd_open os fd' -> fd_open (fullfsync os fd).1 fd' /\ fd_data (fullfsync os fd).1 fd' = fd_data os fd';
  law_fullfsync_durable fullfsync os fd : sys_fullfsync = Some fullfsync -> fd_open os fd -> (fullfsync os fd).2 = None -> fd_durable (fullfsync os fd).1 fd = fd_data os fd;
  law_open_read os name fd' : fd_open os fd' -> fd_open (sys_open os name O_Read).1 fd' /\ fd_data (sys_open os name O_Read).1 fd' = fd_data os fd' /\
    (sys_open os name O_Read).2 <> inl fd';
  law_close os fd fd' : fd_open os fd' -> fd <> fd' -> fd_open (sys_close os fd).1 fd' /\ fd_data (sys_close os fd).1 fd' = fd_data os fd'
}.

(** ** The buffered file *)

Section writable.
Context `{PL : PosixLaws}.
Implicit Types (f : PosixWritableFile).

Definition pw_good (os : OS) f : Prop := fd_open os (pw_fd_ f) /\ size (pbuf_ f) <= kWritableFileBufferSize.

Lemma PosixError_fails context errno : Status_ok (PosixError context errno) = false.
Proof. unfold PosixError. by destruct (errno =? ENOENT). Qed.

(** A write goes on until all is written or a call fails. *)
Lemma write_loop_ok fuel : forall os f data, fd_open os (pw_fd_ f) -> (length data + sys_interruptions os <= fuel)%nat ->
  exists os' s k, write_loop fuel os f data = Ok (os', s) /\ fd_open os' (pw_fd_ f) /\ fd_data os' (pw_fd_ f) = fd_data os (pw_fd_ f) ++ take k data /\
    (Status_ok s = true -> take k data = data).
Proof.
  induction fuel as [|fuel IH]; intros os f data Ho Hf; (destruct data as [|b data0]; [exists os, Status_OK, 0%nat; cbn; by rewrite app_nil_r|]); [cbn in Hf; lia|].
  set (data := b :: data0) in *. cbn [write_loop]. fold data. change (match data with [] => Ok (os, Status_OK) | _ :: _ => ?x end) with x.
  destruct (sys_write os (pw_fd_ f) data) as [os1 [n|errno]] eqn:Ew.
  - destruct (law_write _ _ _ _ _ (ltac:(done) : data <> []) Ho Ew) as (Hn & Ho1 & Hd1 & Hi). destruct (IH os1 f (drop (Z.to_nat n) data) Ho1) as (os2 & s & k & E & Ho2 & Hd2 & Hs).
    { rewrite length_drop. unfold size in Hn. lia. }
    exists os2, s, (Z.to_nat n + k)%nat. split; [exact E|]. split; [done|]. rewrite Hd2, Hd1, <- app_assoc, take_take_drop. split; [done|].
    intros Hok. rewrite <- take_take_drop, (Hs Hok). apply take_drop.
  - destruct (law_write_fails _ _ _ _ _ Ho Ew) as (Ho1 & Hd1 & Hi). destruct (Z.eqb_spec errno EINTR) as [He|He].
    + destruct (IH os1 f data Ho1) as (os2 & s & k & E & Ho2 & Hd2 & Hs); [specialize (Hi He); lia|]. exists os2, s, k. by rewrite Hd2, Hd1.
    + exists os1, (PosixError (pw_filename_ f) errno), 0%nat. rewrite PosixError_fails. cbn. by rewrite app_nil_r.
Qed.

Lemma FlushBuffer_ok os f : pw_good os f -> exists os' s k, FlushBuffer os f = Ok (os', set_buf f [], s) /\ fd_open os' (pw_fd_ f) /\
  fd_data os' (pw_fd_ f) = fd_data os (pw_fd_ f) ++ take k (pbuf_ f) /\ (Status_ok s = true -> take k (pbuf_ f) = pbuf_ f).
Proof.
  intros [Ho Hb]. unfold FlushBuffer, WriteUnbuffered. destruct (write_loop_ok _ os f (pbuf_ f) Ho (le_n _)) as (os' & s & k & -> & Ho' & Hd & Hs). by exists os', s, k.
Qed.

Lemma SyncFd_ok os fd path fd' : fd_open os fd' -> let r := SyncFd os fd path in fd_open r.1 fd' /\ fd_data r.1 fd' = fd_data os fd' /\
  (fd = fd' -> Status_ok r.2 = true -> fd_durable r.1 fd' = fd_data os fd').
Proof.
  intros Ho. unfold SyncFd. assert (Hs : forall os1, fd_open os1 fd' -> fd_data os1 fd' = fd_data os fd' ->
    let r := match sys_sync os1 fd with (os, None) => (os, Status_OK) | (os, Some errno) => (os, PosixError path errno) end in
    fd_open r.1 fd' /\ fd_data r.1 fd' = fd_data os fd' /\ (fd = fd' -> Status_ok r.2 = true -> fd_durable r.1 fd' = fd_data os fd')).
  { intros os1 Ho1 Hd1. pose proof (law_sync os1 fd fd' Ho1) as [Ho2 Hd2]. pose proof (law_sync_durable os1 fd) as Hdur.
    destruct (sys_sync os1 fd) as [os2 [errno|]]; cbn in *; rewrite Hd2; split_and!; try done; [by rewrite PosixError_fails|]. intros <- _. rewrite (Hdur Ho1 eq_refl). done. }
  destruct sys_fullfsync as [fullfsync|] eqn:Ef; [|by apply Hs]. pose proof (law_fullfsync fullfsync os fd fd' Ef Ho) as [Ho1 Hd1]. pose proof (law_fullfsync_durable fullfsync os fd Ef) as Hdur.
  destruct (fullfsync os fd) as [os1 [errno|]]; cbn in *; [by apply Hs|]. split_and!; try done. intros <- _. by apply Hdur.
Qed.

Lemma SyncDir_ok os f : fd_open os (pw_fd_ f) -> let r := SyncDirIfManifest os f in fd_open r.1 (pw_fd_ f) /\ fd_data r.1 (pw_fd_ f) = fd_data os (pw_fd_ f).
Proof.
  intros Ho. unfold SyncDirIfManifest. destruct (negb _); [done|]. pose proof (law_open_read os (pw_dirname_ f) _ Ho) as (Ho1 & Hd1 & Hne).
  destruct (sys_open os (pw_dirname_ f) O_Read) as [os1 [fd|errno]]; cbn in *; [|done]. pose proof (SyncFd_ok os1 fd (pw_dirname_ f) _ Ho1) as (Ho2 & Hd2 & _).
  destruct (SyncFd os1 fd _) as [os2 s]; cbn in *. pose proof (law_close os2 fd _ Ho2) as [Ho3 Hd3]; [congruence|]. by rewrite Hd3, Hd2.
Qed.

(** ** Runs *)

Inductive pw_op := PAppend (data : bytes) | PFlush | PSync.

Definition pw_step (os : OS) f (op : pw_op) : res (OS * PosixWritableFile * Status) :=
  match op with PAppend data => pw_Append os f data | PFlush => pw_Flush os f | PSync => pw_Sync os f end.

Definition op_bytes (op : pw_op) : bytes := match op with PAppend data => data | _ => [] end.

Fixpoint pw_run (os : OS) f (ops : list pw_op) : res (OS * PosixWritableFile * list Status) :=
  match ops with
  | [] => Ok (os, f, [])
  | op :: ops =>
      let? r := pw_step os f op in
      let? r' := pw_run r.1.1 r.1.2 ops in
      Ok (r'.1, r.2 :: r'.2)
  end.

(** What a call does to the file and the buffer. *)
Lemma pw_step_ok os f op : pw_good os f -> exists os' f' s, pw_step os f op = Ok (os', f', s) /\ pw_good os' f' /\ pw_fd_ f' = pw_fd_ f /\
  fd_data os' (pw_fd_ f) `prefix_of` (fd_data os (pw_fd_ f) ++ pbuf_ f ++ op_bytes op) /\
  (Status_ok s = true -> fd_data os' (pw_fd_ f) ++ pbuf_ f' = fd_data os (pw_fd_ f) ++ pbuf_ f ++ op_bytes op /\
     match op with PAppend _ => True | PFlush => pbuf_ f' = [] | PSync => pbuf_ f' = [] /\ fd_durable os' (pw_fd_ f) = fd_data os' (pw_fd_ f) end).
Proof.
  intros Hg. pose proof Hg as [Ho Hb]. assert (Hflush : forall os1 f1, pw_good os1 f1 -> pw_fd_ f1 = pw_fd_ f -> exists os' s, FlushBuffer os1 f1 = Ok (os', set_buf f1 [], s) /\ pw_good os' (set_buf f1 []) /\
    fd_data os' (pw_fd_ f) `prefix_of` (fd_data os1 (pw_fd_ f) ++ pbuf_ f1) /\ (Status_ok s = true -> fd_data os' (pw_fd_ f) = fd_data os1 (pw_fd_ f) ++ pbuf_ f1)).
  { intros os1 f1 Hg1 Hfd. destruct (FlushBuffer_ok os1 f1 Hg1) as (os' & s & k & E & Ho' & Hd & Hs). rewrite Hfd in *. exists os', s. split; [exact E|]. split; [split; [by cbn; rewrite Hfd|done]|]. rewrite Hd.
    split; [apply prefix_app; by exists (drop k (pbuf_ f1)); rewrite take_drop|]. intros Hok. by rewrite Hs. }
  destruct op as [data| |]; cbn [pw_step op_bytes].
  - unfold pw_Append. set (n := Z.to_nat (Z.min (size data) (kWritableFileBufferSize - size (pbuf_ f)))). set (f1 := set_buf f (pbuf_ f ++ take n data)).
    assert (Hg1 : pw_good os f1). { split; [done|]. cbn. rewrite size_app. unfold size in *. rewrite length_take. lia. }
    assert (Esplit : pbuf_ f ++ data = pbuf_ f1 ++ drop n data) by (cbn; by rewrite <- app_assoc, take_drop).
    destruct (Z.eqb_spec (size (drop n data)) 0) as [E0|E0].
    + exists os, f1, Status_OK. split; [done|]. split; [done|]. split; [done|]. assert (Hnil : drop n data = []) by (destruct (drop n data); [done|unfold size in E0; cbn in E0; lia]).
      rewrite Esplit, Hnil, app_nil_r. split; [by exists (pbuf_ f1)|done].
    + destruct (Hflush os f1 Hg1 eq_refl) as (os1 & s & -> & Hg2 & Hp & Hs). cbn [res_bind]. rewrite Esplit.
      assert (Hpre : fd_data os1 (pw_fd_ f) `prefix_of` fd_data os (pw_fd_ f) ++ pbuf_ f1 ++ drop n data) by (rewrite app_assoc; by apply prefix_app_r).
      destruct (Status_ok s) eqn:Es; cbn [negb]; [|exists os1, (set_buf f1 []), s; rewrite Es; by split_and!].
      destruct (Z.ltb_spec (size (drop n data)) kWritableFileBufferSize).
      * eexists _, _, _. split; [done|]. split; [split; [apply Hg2|cbn; lia]|]. split; [done|]. split; [done|]. intros _. cbn. by rewrite (Hs eq_refl), <- app_assoc.
      * destruct (write_loop_ok _ os1 (set_buf f1 []) (drop n data) (proj1 Hg2) (le_n _)) as (os2 & s2 & k & E2 & Ho2 & Hd2 & Hs2). unfold WriteUnbuffered. rewrite E2. cbn [res_bind fst snd].
        change (pw_fd_ (set_buf f1 [])) with (pw_fd_ f) in *. eexists _, _, _. split; [done|]. split; [by split|]. split; [done|]. rewrite Hd2, (Hs eq_refl), <- !app_assoc. split.
        -- do 2 apply prefix_app. exists (drop k (drop n data)). by rewrite take_drop.
        -- intros Hok. split; [|done]. cbn. by rewrite (Hs2 Hok), app_nil_r.
  - unfold pw_Flush. destruct (Hflush os f Hg eq_refl) as (os1 & s & -> & Hg2 & Hp & Hs). eexists _, _, _. split; [done|]. split; [done|]. split; [done|]. rewrite app_nil_r. split; [done|].
    intros Hok. cbn. by rewrite app_nil_r, (Hs Hok).
  - unfold pw_Sync. pose proof (SyncDir_ok os f Ho) as (Ho1 & Hd1). destruct (SyncDirIfManifest os f) as [os1 s1]. cbn in Ho1, Hd1. rewrite app_nil_r.
    destruct (Status_ok s1) eqn:Es1; cbn [negb].
    2: { exists os1, f, s1. rewrite Es1, Hd1. split; [done|]. split; [by split|]. split; [done|]. split; [by exists (pbuf_ f)|done]. }
    destruct (Hflush os1 f (conj Ho1 Hb) eq_refl) as (os2 & s2 & -> & Hg2 & Hp & Hs). cbn [res_bind]. rewrite Hd1 in Hp, Hs.
    destruct (Status_ok s2) eqn:Es2; cbn [negb]; [|exists os2, (set_buf f []), s2; rewrite Es2; by split_and!].
    pose proof (SyncFd_ok os2 (pw_fd_ f) (pw_filename_ f) (pw_fd_ f) (proj1 Hg2)) as (Ho3 & Hd3 & Hdur). cbn [set_buf pw_fd_ pw_filename_].
    destruct (SyncFd os2 (pw_fd_ f) (pw_filename_ f)) as [os3 s3]. cbn in Ho3, Hd3, Hdur. eexists _, _, _. split; [done|]. split; [split; [exact Ho3|apply Hg2]|]. split; [done|].
    rewrite Hd3. split; [done|]. intros Hok. cbn. rewrite app_nil_r, (Hs eq_refl), (Hdur eq_refl Hok). by rewrite (Hs eq_refl).
Qed.

Lemma pw_run_ok ops : forall os f, pw_good os f -> exists os' f' ss, pw_run os f ops = Ok (os', f', ss) /\ pw_good os' f' /\ pw_fd_ f' = pw_fd_ f /\
  (Forall (fun s => Status_ok s = true) ss -> fd_data os' (pw_fd_ f) ++ pbuf_ f' = fd_data os (pw_fd_ f) ++ pbuf_ f ++ concat (map op_bytes ops)).
Proof.
  induction ops as [|op ops IH]; intros os f Hg; [exists os, f, []; by rewrite app_nil_r|].
  destruct (pw_step_ok os f op Hg) as (os1 & f1 & s & E1 & Hg1 & Hfd & _ & Hs). destruct (IH os1 f1 Hg1) as (os2 & f2 & ss & E2 & Hg2 & Hfd2 & Hss).
  exists os2, f2, (s :: ss). cbn [pw_run]. rewrite E1. cbn [res_bind fst snd]. rewrite E2. split; [done|]. split; [done|]. split; [congruence|].
  intros [Hok Hoks]%list.Forall_cons. rewrite Hfd in Hss. rewrite (Hss Hoks). cbn [map concat]. rewrite !app_assoc. f_equal. rewrite <- app_assoc. apply Hs, Hok.
Qed.

(** C18. A file of the environment holds what is appended to it.  Take any run of appends,
    flushes and syncs on a file that was opened, over system calls that may write less than
    they are asked to, be interrupted, or fail.  No call loops for ever.  As long as all of
    them succeed, the bytes on disk and then the buffer are those that were there and those
    appended, in order; a flush that succeeds leaves all of them on disk, and a sync that
    succeeds makes them survive a loss of power; and when the next call fails, whatever it
    is, the disk has a prefix of them. *)
Theorem posix_file_holds_appends os f ops op : pw_good os f ->
  let total := fd_data os (pw_fd_ f) ++ pbuf_ f ++ concat (map op_bytes ops) in
  exists os1 f1 ss, pw_run os f ops = Ok (os1, f1, ss) /\ (Forall (fun s => Status_ok s = true) ss ->
    fd_data os1 (pw_fd_ f) ++ pbuf_ f1 = total /\
    exists os2 f2 s, pw_step os1 f1 op = Ok (os2, f2, s) /\ fd_data os2 (pw_fd_ f) `prefix_of` total ++ op_bytes op /\
      (Status_ok s = true -> fd_data os2 (pw_fd_ f) ++ pbuf_ f2 = total ++ op_bytes op /\
         match op with
         | PAppend _ => size (pbuf_ f2) <= kWritableFileBufferSize
         | PFlush => fd_data os2 (pw_fd_ f) = total
         | PSync => fd_data os2 (pw_fd_ f) = total /\ fd_durable os2 (pw_fd_ f) = total
         end)).
Proof.
  intros Hg total. destruct (pw_run_ok ops os f Hg) as (os1 & f1 & ss & E1 & Hg1 & Hfd & Hss). exists os1, f1, ss. split; [done|]. intros Hok. specialize (Hss Hok). split; [done|].
  destruct (pw_step_ok os1 f1 op Hg1) as (os2 & f2 & s & E2 & Hg2 & _ & Hp & Hs). rewrite Hfd, app_assoc, Hss in Hp, Hs. exists os2, f2, s. split; [done|]. split; [done|].
  intros Hok2. destruct (Hs Hok2) as [Hc Ho]. split; [done|]. destruct op; cbn [op_bytes] in *.
  - apply Hg2.
  - by rewrite Ho, !app_nil_r in Hc.
  - destruct Ho as [Hb Hd]. rewrite Hb, !app_nil_r in Hc. by rewrite Hd, Hc.
Qed.

(** ** The files behind the interfaces of the log and of tables *)

(** A result that is there. *)
Definition res_get {A} (r : res A) : (exists a, r = Ok a) -> A :=
  match r with
  | Ok a => fun _ => a
  | OutOfFuel => fun H => False_rect _ (match H with ex_intro _ a E => eq_ind OutOfFuel (fun r => match r with OutOfFuel => True | _ => False end) I _ E end)
  | Undefined => fun H => False_rect _ (match H with ex_intro _ a E => eq_ind Undefined (fun r => match r with Undefined => True | _ => False end) I _ E end)
  end.

Lemma res_get_Ok {A} (r : res A) Hr : r = Ok (res_get r Hr).
Proof. destruct r; [done|by destruct Hr..]. Qed.

Definition GoodFile : Type := { x : OS * PosixWritableFile | pw_good x.1 x.2 }.

Lemma pw_step_total (x : GoodFile) op : exists r, pw_step (`x).1 (`x).2 op = Ok r.
Proof. destruct x as [[os f] Hg]. destruct (pw_step_ok os f op Hg) as (os' & f' & s & E & _). by eexists. Qed.

Lemma pw_step_good (x : GoodFile) op : let r := res_get _ (pw_step_total x op) in pw_good r.1.1 r.1.2.
Proof.
  pose proof (res_get_Ok _ (pw_step_total x op)) as E. cbv zeta. set (r := res_get _ _) in *. clearbody r. destruct x as [[os f] Hg]. cbn in *.
  destruct (pw_step_ok os f op Hg) as (os' & f' & s & E' & Hg' & _). rewrite E' in E. by injection E as <-.
Qed.

Definition good_step (x : GoodFile) (op : pw_op) : GoodFile * Status :=
  (exist _ (res_get _ (pw_step_total x op)).1 (pw_step_good x op), (res_get _ (pw_step_total x op)).2).

#[export] Instance Posix_WritableFile : WritableFile GoodFile := {|
  wf_Append x data := good_step x (PAppend data);
  wf_Flush x := good_step x PFlush
|}.

Definition good_contents (x : GoodFile) : bytes := fd_data (`x).1 (pw_fd_ (`x).2) ++ pbuf_ (`x).2.

Lemma good_step_contents x op : Status_ok (good_step x op).2 = true -> good_contents (good_step x op).1 = good_contents x ++ op_bytes op.
Proof.
  unfold good_contents, good_step. cbn [fst snd proj1_sig]. pose proof (res_get_Ok _ (pw_step_total x op)) as E. set (r := res_get _ _) in *. clearbody r. destruct x as [[os f] Hg]. cbn in *.
  destruct (pw_step_ok os f op Hg) as (os' & f' & s & E' & Hg' & Hfd & _ & Hs). rewrite E' in E. injection E as <-. cbn. intros Hok. rewrite Hfd, <- app_assoc. apply Hs, Hok.
Qed.

#[export, refine] Instance Posix_WritableFileLaws : WritableFileLaws GoodFile := {| wf_contents := good_contents |}.
Proof.
  - intros x data Hok. by apply good_step_contents.
  - intros x Hok. pose proof (good_step_contents x PFlush Hok) as E. by rewrite app_nil_r in E.
Defined.
End writable.

(** ** Reading files *)

(** For a descriptor that is read in order: the bytes that are left.  A read of a regular
    file is short only at its end. *)
Class PosixReadLaws `{PosixSys} := {
  fd_rest : OS -> Z -> bytes;
  law_read os fd n os' data : 0 <= n -> sys_read os fd n = (os', inl data) ->
    fd_rest os fd = data ++ fd_rest os' fd /\ size data <= n /\ (size data < n -> fd_rest os' fd = []);
  law_read_fails os fd n os' errno : sys_read os fd n = (os', inr errno) -> fd_rest os' fd = fd_rest os fd /\ (errno = EINTR -> (sys_interruptions os' < sys_interruptions os)%nat);
  law_lseek os fd n : exists k, fd_rest (sys_lseek os fd n).1 fd = drop k (fd_rest os fd);
  mapped : OS -> Z -> bytes;
  law_load os base offset n : 0 <= offset -> 0 <= n -> offset + n <= size (mapped os base) -> sys_load os base offset n = take (Z.to_nat n) (drop (Z.to_nat offset) (mapped os base))
}.

Section reading.
Context `{PRL : PosixReadLaws}.

Lemma read_loop_ok fuel : forall os f n, (sys_interruptions os <= fuel)%nat -> exists os' data s, read_loop fuel os f n = Ok (os', data, s) /\
  (0 <= n -> Status_ok s = true -> fd_rest os (pseq_fd_ f) = data ++ fd_rest os' (pseq_fd_ f) /\ size data <= n /\ (size data < n -> fd_rest os' (pseq_fd_ f) = [])).
Proof.
  induction fuel as [|fuel IH]; intros os f n Hf; cbn [read_loop]; destruct (sys_read os (pseq_fd_ f) n) as [os1 [data|errno]] eqn:E.
  1, 3: eexists _, _, _; (split; [done|]); intros Hn _; by eapply law_read.
  all: destruct (law_read_fails _ _ _ _ _ E) as [Hr Hi]; destruct (Z.eqb_spec errno EINTR) as [He|He].
  1: specialize (Hi He); lia.
  1, 3: eexists _, _, _; (split; [done|]); by rewrite PosixError_fails.
  destruct (IH os1 f n) as (os2 & data & s & E2 & Hs); [specialize (Hi He); lia|]. exists os2, data, s. by rewrite <- Hr.
Qed.

Lemma pseq_Read_total (x : OS * PosixSequentialFile) n : exists r, pseq_Read x.1 x.2 n = Ok r.
Proof. destruct (read_loop_ok _ x.1 x.2 n (le_n _)) as (os & data & s & E & _). by exists (os, data, s). Qed.

#[export] Instance Posix_SequentialFile : SequentialFile (OS * PosixSequentialFile) := {|
  sf_Read x n := let r := res_get _ (pseq_Read_total x n) in ((r.1.1, x.2), r.1.2, r.2);
  sf_Skip x n := let r := pseq_Skip x.1 x.2 n in ((r.1, x.2), r.2)
|}.

#[export, refine] Instance Posix_SequentialFileLaws : SequentialFileLaws (OS * PosixSequentialFile) := {| sf_rest x := fd_rest x.1 (pseq_fd_ x.2) |}.
Proof.
  - intros x n x' data s Hn. cbn [sf_Read Posix_SequentialFile]. pose proof (res_get_Ok _ (pseq_Read_total x n)) as E. set (r := res_get _ _) in *. clearbody r. intros [= <- <- <-] Hs.
    destruct (read_loop_ok _ x.1 x.2 n (le_n _)) as (os & data & s & E' & H'). unfold pseq_Read in E. rewrite E' in E. injection E as <-. by apply H'.
  - intros [os f] n. cbn. unfold pseq_Skip. pose proof (law_lseek os (pseq_fd_ f) n) as Hk. by destruct (sys_lseek os (pseq_fd_ f) n) as [os' [errno|]].
Defined.

(** A read of a mapped file gives its bytes, if its end is a 64-bit number. *)
Lemma mmap_Read_ok os f offset n : mmap_length_ f = size (mapped os (mmap_base_ f)) -> 0 <= offset -> 0 <= n -> offset + n < 2 ^ 64 ->
  mmap_Read os f offset n = Ok (if offset + n >? mmap_length_ f then ([], PosixError (mmap_filename_ f) EINVAL)
                                else (take (Z.to_nat n) (drop (Z.to_nat offset) (mapped os (mmap_base_ f))), Status_OK)).
Proof.
  intros Hl Ho Hn Hw. unfold mmap_Read. rewrite wrap_id by (unfold fits; lia). destruct (Z.gtb_spec (offset + n) (mmap_length_ f)); [done|]. by rewrite law_load by lia.
Qed.
End reading.

(** The check of a mapped file adds two [uint64_t]: the sum of a large offset wraps, and the
    read is before the region. *)
Lemma mmap_Read_wraps `{PosixSys} os f : 0 <= mmap_length_ f < 2 ^ 63 -> mmap_Read os f (2 ^ 64 - 5) 5 = Undefined.
Proof.
  intros Hl. unfold mmap_Read. replace (u64 (2 ^ 64 - 5 + 5)) with 0 by by vm_compute.
  destruct (Z.gtb_spec 0 (mmap_length_ f)); [lia|]. destruct (Z.gtb_spec (2 ^ 64 - 5 + 5) (mmap_length_ f)); [done|lia].
Qed.

(** ** Locks *)

Section locks.
Context `{PosixSys}.

(** While a file is locked by the process, locking it again fails and changes neither the table nor the lock. *)
Lemma LockFile_held os e filename : filename ∈ locked_files_ e -> let r := posix_LockFile os e filename in
  r.1.2 = e /\ exists s, r.2 = inr s /\ Status_ok s = false.
Proof.
  intros Hin. unfold posix_LockFile. destruct (sys_open os filename O_ReadWrite) as [os1 [fd|errno]]; cbn.
  - rewrite bool_decide_eq_false_2 by (intros Hn; by apply Hn). cbn. split; [|by eexists]. destruct e. unfold set_locked. cbn in *. f_equal. set_solver.
  - split; [done|]. exists (PosixError filename errno). split; [done|]. apply PosixError_fails.
Qed.

(** The second attempt closes a descriptor of the locked file, at which the system drops the
    lock that the process has on it. *)
Lemma LockFile_held_closes os e filename fd : filename ∈ locked_files_ e -> (sys_open os filename O_ReadWrite).2 = inl fd ->
  (posix_LockFile os e filename).1.1 = (sys_close (sys_open os filename O_ReadWrite).1 fd).1.
Proof.
  intros Hin. unfold posix_LockFile. destruct (sys_open os filename O_ReadWrite) as [os1 r]. cbn. intros ->. cbn. by rewrite bool_decide_eq_false_2 by (intros Hn; by apply Hn).
Qed.

(** A lock that is given is in the table until it is given back, and a failure leaves the table as it was. *)
Lemma LockFile_table os e filename : filename ∉ locked_files_ e -> let r := posix_LockFile os e filename in
  match r.2 with
  | inl lock => lock_filename_ lock = filename /\ locked_files_ r.1.2 = {[filename]} ∪ locked_files_ e /\
      (Status_ok (posix_UnlockFile r.1.1 r.1.2 lock).2 = true -> locked_files_ (posix_UnlockFile r.1.1 r.1.2 lock).1.2 = locked_files_ e)
  | inr s => Status_ok s = false /\ locked_files_ r.1.2 = locked_files_ e
  end.
Proof.
  intros Hn. unfold posix_LockFile. destruct (sys_open os filename O_ReadWrite) as [os1 [fd|errno]]; cbn; [|split; [apply PosixError_fails|done]].
  rewrite bool_decide_eq_true_2 by done. cbn. destruct (sys_flock os1 fd true) as [os2 [errno|]]; cbn.
  - split; [apply PosixError_fails|]. unfold LockTable_Remove. set_solver.
  - split; [done|]. split; [done|]. unfold posix_UnlockFile. cbn. destruct (sys_flock os2 fd false) as [os3 [errno|]]; cbn; [by rewrite PosixError_fails|]. intros _. unfold LockTable_Remove. set_solver.
Qed.
End locks.

(** ** The limiter among threads *)

(** The counter, the threads between the two halves of a failed [Acquire], and those that
    have what they asked for. *)
Record LimiterState := MkLimiter { acquires_allowed_ : Z; li_failing : Z; li_holding : Z }.

Inductive limiter_step (max_threads : Z) : LimiterState -> LimiterState -> Prop :=
| li_acquire c f h : c > 0 -> limiter_step max_threads (MkLimiter c f h) (MkLimiter (int32 (c - 1)) f (h + 1))
| li_refused c f h : c <= 0 -> f + 1 < max_threads -> limiter_step max_threads (MkLimiter c f h) (MkLimiter (int32 (c - 1)) (f + 1) h)
| li_put_back c f h : f > 0 -> limiter_step max_threads (MkLimiter c f h) (MkLimiter (int32 (c + 1)) (f - 1) h)
| li_release c f h : h > 0 -> limiter_step max_threads (MkLimiter c f h) (MkLimiter (Limiter_Release c) f (h - 1)).

(** One thread alone does what [Limiter_Acquire] does. *)
Lemma limiter_alone max_threads c f h : 0 <= f -> f + 1 < max_threads -> - 2 ^ 31 < c < 2 ^ 31 ->
  exists s, rtc (limiter_step max_threads) (MkLimiter c f h) s /\ acquires_allowed_ s = (Limiter_Acquire c).1 /\ li_failing s = f /\
    li_holding s = h + (if (Limiter_Acquire c).2 then 1 else 0).
Proof.
  intros Hf Hm Hc. unfold Limiter_Acquire. destruct (Z.gtb_spec c 0); cbn.
  - eexists. split; [apply rtc_once; apply li_acquire; lia|done].
  - eexists. split; [eapply rtc_l; [apply li_refused; lia|apply rtc_once; apply li_put_back; lia]|]. cbn. split_and!; [done|lia|lia].
Qed.

(** However the threads interleave, the limit is kept: no more than [max_acquires] are held,
    and the counter never leaves its type. *)
Lemma limiter_never_exceeds max_threads max_acquires s : 0 <= max_acquires < 2 ^ 31 -> 0 < max_threads < 2 ^ 31 ->
  rtc (limiter_step max_threads) (MkLimiter max_acquires 0 0) s ->
  0 <= li_holding s <= max_acquires /\ acquires_allowed_ s = max_acquires - li_holding s - li_failing s /\ 0 <= li_failing s < max_threads.
Proof.
  intros Hmax Ht. assert (Hstep : forall s s', limiter_step max_threads s s' ->
    (0 <= li_holding s <= max_acquires /\ acquires_allowed_ s = max_acquires - li_holding s - li_failing s /\ 0 <= li_failing s < max_threads) ->
    (0 <= li_holding s' <= max_acquires /\ acquires_allowed_ s' = max_acquires - li_holding s' - li_failing s' /\ 0 <= li_failing s' < max_threads)).
  { assert (Hid : forall z, - 2 ^ 31 <= z < 2 ^ 31 -> int32 z = z).
    { intros z Hz. by apply swrap_id. }
    intros s1 s2 Hs. destruct Hs; cbn; unfold Limiter_Release; intros (? & ? & ?); rewrite Hid by lia; lia. }
  intros Hr. remember (MkLimiter max_acquires 0 0) as s0 eqn:E0. assert (H0 : 0 <= li_holding s0 <= max_acquires /\ acquires_allowed_ s0 = max_acquires - li_holding s0 - li_failing s0 /\ 0 <= li_failing s0 < max_threads) by (subst s0; cbn; lia).
  clear E0. induction Hr as [|x y z Hxy _ IH]; [done|]. apply IH. by apply (Hstep x).
Qed.

(** ** The background thread runs all of the work *)

Section scheduled.
Context {A : Type}.

(** The states reached by calls of [Schedule] and steps of the thread, with the items that
    were scheduled and those that are done. *)
Inductive bg_reaches : list A -> list A -> BgState A -> Prop :=
| bg_new : bg_reaches [] [] NewBg
| bg_schedule scheduled done s item : bg_reaches scheduled done s -> bg_reaches (scheduled ++ [item]) done (posix_Schedule s item)
| bg_thread scheduled done s d s' : bg_reaches scheduled done s -> bg_step s d s' -> bg_reaches scheduled (done ++ option_list d) s'.

Definition bg_running (s : BgState A) : list A := match bg_phase s with BgRunning item => [item] | _ => [] end.

(** A thread that waits untold has nothing to do. *)
Definition bg_inv (s : BgState A) : Prop :=
  (started_background_thread_ s = false <-> bg_phase s = BgNotStarted) /\
  (bg_phase s = BgNotStarted \/ bg_phase s = BgWaiting -> background_work_queue_ s = []).

Lemma bg_reaches_ok scheduled done s : bg_reaches scheduled done s -> bg_inv s /\ scheduled = done ++ bg_running s ++ background_work_queue_ s.
Proof.
  induction 1 as [|scheduled done s item _ [[Hst Hw] IH]|scheduled done s d s' _ [[Hst Hw] IH] Hstep]; [split; [split; [done|done]|done]| |].
  - destruct s as [st q p]. cbn in *. unfold posix_Schedule, bg_inv, bg_running in *. cbn in *.
    destruct st; cbn.
    + assert (Hp : p <> BgNotStarted) by (intros Hp; by apply Hst in Hp). rewrite IH. destruct q as [|b q], p as [| | | |it]; try done; try (by discriminate (Hw (or_intror eq_refl))); cbn; (split; [split; [done|by intros [?|?]]|by rewrite <- ?app_assoc]).
    + assert (p = BgNotStarted) as -> by (by apply Hst). rewrite Hw in * by (by left). cbn. split; [split; [done|by intros [?|?]]|]. by rewrite IH, app_nil_r.
  - destruct Hstep as [st q|st q|st q|st q item]; unfold bg_take, bg_inv, bg_running in *; cbn in *; subst; rewrite ?app_nil_r, <- ?app_assoc.
    1-3: destruct q as [|item q]; cbn; (split; [split; [split; intros E; try done; by apply Hst in E|by intros [?|?]]|by rewrite ?app_nil_r]).
    split; [split; [split; intros E; try done; by apply Hst in E|by intros [?|?]]|done].
Qed.

(** The steps of the thread that nobody else has to cause. *)
Definition bg_own (s : list A * BgState A) (s' : list A * BgState A) : Prop :=
  exists d, bg_step s.2 d s'.2 /\ bg_phase s.2 <> BgWaiting /\ s'.1 = s.1 ++ option_list d.

Definition bg_weight (s : BgState A) : nat :=
  (3 * length (background_work_queue_ s) + match bg_phase s with BgTop | BgSignaled => 1 | BgRunning _ => 2 | _ => 0 end)%nat.

Lemma bg_own_decreases s s' : bg_own s s' -> (bg_weight s'.2 < bg_weight s.2)%nat.
Proof.
  destruct s as [dn s], s' as [dn' s']. intros (d & Hstep & Hne & _). cbn in *. destruct Hstep as [st q|st q|st q|st q item]; unfold bg_take, bg_weight; cbn; [| |done|lia].
  all: destruct q; cbn; lia.
Qed.

(** Where it cannot go on, it waits or is not started. *)
Lemma bg_own_stuck dn s : (forall s', ~ bg_own (dn, s) s') -> bg_phase s = BgWaiting \/ bg_phase s = BgNotStarted.
Proof.
  intros Hs. destruct s as [st q p], p as [| | | |item]; [by right| |by left| |]; exfalso.
  - apply (Hs (dn ++ [], bg_take (MkBg st q BgTop))). exists None. by split; [constructor|].
  - apply (Hs (dn ++ [], bg_take (MkBg st q BgSignaled))). exists None. by split; [constructor|].
  - apply (Hs (dn ++ [item], MkBg st q BgTop)). exists (Some item). by split; [constructor|].
Qed.

(** C19. The background thread runs the scheduled work: in any interleaving of calls of
    [Schedule], from any threads, with the steps of the thread, the items that are done are
    the first ones scheduled, in order and each once, then comes the one running, then the
    queue.  No wakeup is lost: from every state the thread by itself makes only finitely many
    steps, and where it cannot make another all that was scheduled is done. *)
Theorem background_work_runs scheduled done s : bg_reaches scheduled done s ->
  scheduled = done ++ bg_running s ++ background_work_queue_ s /\
  Acc (fun x y => bg_own y x) (done, s) /\
  forall done' s', rtc bg_own (done, s) (done', s') -> (forall s2, ~ bg_own (done', s') s2) -> done' = scheduled.
Proof.
  intros Hr. pose proof (bg_reaches_ok _ _ _ Hr) as [_ E]. split; [exact E|]. split.
  - assert (Hacc : forall n x, (bg_weight x.2 < n)%nat -> Acc (fun x y => bg_own y x) x).
    { induction n as [|n IH]; intros x Hx; [lia|]. constructor. intros y Hy%bg_own_decreases. apply IH. lia. }
    by apply (Hacc (S (bg_weight s)) (done, s) (Nat.lt_succ_diag_r _)).
  - intros done' s' Hrtc Hstuck. assert (Hr' : bg_reaches scheduled done' s').
    { clear E Hstuck. remember (done, s) as x eqn:Ex. remember (done', s') as y eqn:Ey. revert done s Hr Ex. induction Hrtc as [|x1 x2 x3 Hx _ IH]; intros dn t Hr Ex; subst.
      - by injection Ex as -> ->.
      - destruct x2 as [dn2 t2], Hx as (d & Hd & _ & Ed). cbn in *. subst. by apply (IH eq_refl _ _ (bg_thread _ _ _ _ _ Hr Hd)). }
    destruct (bg_reaches_ok _ _ _ Hr') as [[_ Hw] ->]. unfold bg_running. destruct (bg_own_stuck _ _ Hstuck) as [Hp|Hp]; rewrite Hw by tauto; rewrite Hp; cbn; by rewrite app_nil_r.
Qed.
End scheduled.

(** ** An example: a system that writes slowly *)

(** Every descriptor from 3 on is open for writing; a write takes its outcome from a list:
    an interruption, a failure, or a number of bytes; then all succeed. *)
Inductive write_outcome := Interrupted | NoSpace | Short (k : nat).

Record SlowOS := MkSlow { slow_data : Z -> bytes; slow_durable : Z -> bytes; slow_script : list write_outcome }.

Definition slow_write (os : SlowOS) (fd : Z) (data : bytes) : SlowOS * (Z + Z) :=
  match slow_script os with
  | Interrupted :: rest => (MkSlow (slow_data os) (slow_durable os) rest, inr EINTR)
  | NoSpace :: rest => (MkSlow (slow_data os) (slow_durable os) rest, inr 28)
  | script =>
      let n := match script with Short k :: _ => Nat.min (S k) (length data) | _ => length data end in
      (MkSlow (fun x => if x =? fd then slow_data os fd ++ take n data else slow_data os x) (slow_durable os) (tail script), inl (Z.of_nat n))
  end.

Definition slow_sync (os : SlowOS) (fd : Z) : SlowOS * option Z :=
  (MkSlow (slow_data os) (fun x => if x =? fd then slow_data os fd else slow_durable os x) (slow_script os), None).

#[local] Instance slow_sys : PosixSys := {|
  OS := SlowOS;
  sys_open os _ mode := (os, inl (match mode with O_Read => 0 | _ => 3 end));
  sys_close os _ := (os, None);
  sys_read os _ _ := (os, inl []);
  sys_lseek os _ _ := (os, None);
  sys_pread os _ _ _ := (os, inl []);
  sys_write := slow_write;
  sys_fullfsync := None;
  sys_sync := slow_sync;
  sys_mmap os _ _ := (os, inr EINVAL);
  sys_load _ _ _ _ := [];
  sys_munmap os _ _ := os;
  sys_stat _ _ := inr ENOENT;
  sys_access _ _ := false;
  sys_opendir _ _ := inr ENOENT;
  sys_unlink os _ := (os, Some ENOENT);
  sys_mkdir os _ := (os, None);
  sys_rmdir os _ := (os, None);
  sys_rename os _ _ := (os, Some ENOENT);
  sys_flock os _ _ := (os, None);
  sys_gettimeofday _ := (0, 0);
  strerror _ := [];
  sys_interruptions os := length (slow_script os)
|}.

#[local, refine] Instance slow_laws : PosixLaws := {| fd_open _ fd := 3 <= fd; fd_data := slow_data; fd_durable := slow_durable |}.
Proof.
  - intros [d u script] fd data os' n Hne Ho. cbn. unfold slow_write. cbn. assert (0 < length data)%nat by (destruct data; [done|cbn; lia]).
    destruct script as [|[| |k] rest]; [|done|done|]; intros [= <- <-]; cbn; rewrite Z.eqb_refl, Nat2Z.id; unfold size; split_and!; try done; try lia; destruct (length data); lia.
  - intros [d u script] fd data os' errno Ho. cbn. unfold slow_write. cbn. destruct script as [|[| |k] rest]; [done| | |done]; intros [= <- <-]; cbn; split_and!; done || lia.
  - done.
  - intros os fd _ _. cbn. by rewrite Z.eqb_refl.
  - done.
  - done.
  - intros os name fd' Ho. cbn. split_and!; [done|done|]. intros [= <-]. lia.
  - done.
Defined.

Lemma posix_file_holds_appends_witness : exists os1 f1 ss os2 f2,
  pw_run (MkSlow (fun _ => []) (fun _ => []) [Interrupted; Short 1; Interrupted; Short 0]) (NewPosixWritableFile (str "/db/MANIFEST-000001") 3) [PAppend (str "abc"); PFlush; PAppend (str "def")] = Ok (os1, f1, ss) /\
  pw_step os1 f1 PSync = Ok (os2, f2, Status_OK) /\ slow_durable os2 3 = str "abcdef".
Proof.
  set (os := MkSlow _ _ _). change SlowOS with (@OS slow_sys) in os. set (f := NewPosixWritableFile (str "/db/MANIFEST-000001") 3).
  destruct (posix_file_holds_appends os f [PAppend (str "abc"); PFlush; PAppend (str "def")] PSync) as (os1 & f1 & ss & E1 & Hok); [by split|].
  assert (E1' : exists os1, pw_run os f [PAppend (str "abc"); PFlush; PAppend (str "def")] = Ok (os1, set_buf f (str "def"), [Status_OK; Status_OK; Status_OK]) /\
    exists os2 f2, pw_step os1 (set_buf f (str "def")) PSync = Ok (os2, f2, Status_OK)) by (eexists; split; [vm_compute; reflexivity|]; do 2 eexists; vm_compute; reflexivity).
  destruct E1' as (os1' & E1' & os2' & f2' & E2'). rewrite E1 in E1'. injection E1' as -> -> ->.
  destruct Hok as (_ & os2 & f2 & s & E2 & _ & Hs); [by repeat constructor|]. rewrite E2 in E2'. injection E2' as -> -> ->.
  exists os1', (set_buf f (str "def")), [Status_OK; Status_OK; Status_OK], os2', f2'. split; [exact E1|]. split; [exact E2|]. apply (Hs eq_refl).
Defined.

Lemma background_work_runs_witness : exists s : BgState Z, bg_reaches [7; 8] [7] s /\
  forall done' s', rtc bg_own ([7], s) (done', s') -> (forall s2, ~ bg_own (done', s') s2) -> done' = [7; 8].
Proof.
  exists (MkBg true [8] BgTop). assert (Hr : bg_reaches [7; 8] [7] (MkBg true [8] BgTop)).
  { apply (bg_thread [7; 8] [] (MkBg true [8] (BgRunning 7)) (Some 7)); [|constructor].
    apply (bg_schedule [7] [] (MkBg true [] (BgRunning 7)) 8).
    apply (bg_thread [7] [] (MkBg true [7] BgTop) None _ (bg_schedule [] [] NewBg 7 bg_new)). apply (bg_top true [7]). }
  split; [exact Hr|]. apply (background_work_runs [7; 8] [7] _ Hr).
Defined.

(** *** A record that fails moves the writer but not the file *)

Lemma slow_new_good os : pw_good os (NewPosixWritableFile (str "/db/000003.log") 3).
Proof. by split. Qed.

(** The disk is full once: the buffer is dropped with the first record, the writer counts its
    bytes all the same, and the second record, which succeeds, is not where the writer thinks
    in its block. *)
Lemma failed_record_shifts_blocks :
  let f : GoodFile := exist _ (MkSlow (fun _ => []) (fun _ => []) [NoSpace], NewPosixWritableFile (str "/db/000003.log") 3) (slow_new_good _) in
  match AddRecord (NewWriter f) (str "abc") with
  | Some (w, s) =>
      match AddRecord w (str "defg") with
      | Some (w', s') => Status_ok s = false /\ Status_ok s' = true /\ size (good_contents (dest_ w')) = 11 /\ block_offset_ w' = 21
      | None => False
      end
  | None => False
  end.
Proof. vm_compute. split_and!; reflexivity. Qed.
