(* ===== verification/WriteBatch.v ===== *)
(** * Write batches

    Models [cpp/leveldb/db/write_batch.cc] and
    [cpp/leveldb/db/write_batch_internal.h].  A batch is its string [rep_].  The
    class [Handler] is [WriteBatch::Handler] and the class [MemTableAdd] is what
    [InsertInto] needs of a memtable.  [batch_rep] is the abstract format: a header
    and the operations in order. *)
From S2P Require Import Prelude Coding Status DbFormat.

Definition kHeader : Z := 12.

(** ** Batches *)

(** [WriteBatch()] and [Clear] *)
Definition WriteBatch_Clear : bytes := replicate (Z.to_nat kHeader) x00.

Definition ApproximateSize (rep_ : bytes) : Z := size rep_.

(** [int Count]: the fixed32 of the header converted to [int]. *)
Definition Count (rep_ : bytes) : Z := int32 (DecodeFixed32 (drop 8 rep_)).

(** Stores into [rep_[8..11]] and [rep_[0..7]]. *)
Definition SetCount (rep_ : bytes) (n : Z) : bytes :=
  take 8 rep_ ++ EncodeFixed32 (u32 n) ++ drop 12 rep_.

Definition Sequence (rep_ : bytes) : Z := DecodeFixed64 rep_.

Definition SetSequence (rep_ : bytes) (seq : Z) : bytes :=
  EncodeFixed64 seq ++ drop 8 rep_.

Definition WriteBatch_Put (rep_ key value : bytes) : bytes :=
  let rep_ := SetCount rep_ (Count rep_ + 1) in
  let rep_ := rep_ ++ [byte_of_Z kTypeValue] in
  let rep_ := PutLengthPrefixedSlice rep_ key in
  PutLengthPrefixedSlice rep_ value.

Definition WriteBatch_Delete (rep_ key : bytes) : bytes :=
  let rep_ := SetCount rep_ (Count rep_ + 1) in
  let rep_ := rep_ ++ [byte_of_Z kTypeDeletion] in
  PutLengthPrefixedSlice rep_ key.

(** [WriteBatchInternal::Append], and [WriteBatch::Append] which calls it. *)
Definition WriteBatch_Append (dst src : bytes) : bytes :=
  SetCount dst (Count dst + Count src) ++ drop (Z.to_nat kHeader) src.

Definition Contents (rep_ : bytes) : bytes := rep_.
Definition ByteSize (rep_ : bytes) : Z := size rep_.
Definition SetContents (contents : bytes) : bytes := contents.

(** ** Iteration *)

Class Handler (H : Type) := {
  handler_Put : H -> bytes -> bytes -> H;
  handler_Delete : H -> bytes -> H
}.

Section iterate.
Context {H : Type} `{Handler H}.

Definition corrupt (msg : String.string) : Status := Status_Corruption (str msg) [].

(** The [while (!input.empty())] loop, and the test of the count after it.  [None]
    is running out of fuel, which [Iterate_total] excludes: an iteration consumes
    the tag at least. *)
Fixpoint Iterate_loop (fuel : nat) (h : H) (input : bytes) (found : Z) (rep_ : bytes)
    : option (H * Status) :=
  match input with
  | [] =>
      Some (h, if negb (found =? Count rep_) then corrupt "WriteBatch has wrong count"
               else Status_OK)
  | tag :: input =>
      match fuel with
      | O => None
      | S fuel =>
          let found := found + 1 in
          if Z_of_byte tag =? kTypeValue then
            let '(input, key) := GetLengthPrefixedSlice input in
            match key with
            | None => Some (h, corrupt "bad WriteBatch Put")
            | Some key =>
                let '(input, value) := GetLengthPrefixedSlice input in
                match value with
                | None => Some (h, corrupt "bad WriteBatch Put")
                | Some value => Iterate_loop fuel (handler_Put h key value) input found rep_
                end
            end
          else if Z_of_byte tag =? kTypeDeletion then
            let '(input, key) := GetLengthPrefixedSlice input in
            match key with
            | None => Some (h, corrupt "bad WriteBatch Delete")
            | Some key => Iterate_loop fuel (handler_Delete h key) input found rep_
            end
          else Some (h, corrupt "unknown WriteBatch tag")
      end
  end.

Definition Iterate (rep_ : bytes) (h : H) : option (H * Status) :=
  if size rep_ <? kHeader then Some (h, corrupt "malformed WriteBatch (too small)")
  else Iterate_loop (length rep_) h (drop (Z.to_nat kHeader) rep_) 0 rep_.

End iterate.

(** ** Insertion into a memtable *)

(** [MemTable::Add(seq, type, key, value)] *)
Class MemTableAdd (M : Type) := mt_Add : M -> Z -> Z -> bytes -> bytes -> M.

(** [class MemTableInserter]: its memtable and its next sequence number. *)
Record MemTableInserter (M : Type) := MkInserter { sequence_ : Z; mem_ : M }.
Arguments MkInserter {M} _ _.
Arguments sequence_ {M} _.
Arguments mem_ {M} _.

#[export] Instance Inserter_Handler M `{MemTableAdd M} : Handler (MemTableInserter M) := {|
  handler_Put h key value :=
    MkInserter (u64 (sequence_ h + 1)) (mt_Add (mem_ h) (sequence_ h) kTypeValue key value);
  handler_Delete h key :=
    MkInserter (u64 (sequence_ h + 1)) (mt_Add (mem_ h) (sequence_ h) kTypeDeletion key [])
|}.

Definition InsertInto {M} `{MemTableAdd M} (b : bytes) (memtable : M) : option (M * Status) :=
  match Iterate b (MkInserter (Sequence b) memtable) with
  | Some (h, s) => Some (mem_ h, s)
  | None => None
  end.

(** ** The operations of a batch *)

Inductive batch_op := OpPut (key value : bytes) | OpDelete (key : bytes).

#[export] Instance batch_op_eq_dec : EqDecision batch_op.
Proof. solve_decision. Defined.

Definition encode_op (op : batch_op) : bytes :=
  match op with
  | OpPut key value =>
      [byte_of_Z kTypeValue] ++ PutLengthPrefixedSlice [] key ++ PutLengthPrefixedSlice [] value
  | OpDelete key => [byte_of_Z kTypeDeletion] ++ PutLengthPrefixedSlice [] key
  end.

Definition encode_ops (ops : list batch_op) : bytes := concat (map encode_op ops).

Definition batch_rep (seq : Z) (ops : list batch_op) : bytes :=
  EncodeFixed64 seq ++ EncodeFixed32 (Z.of_nat (length ops)) ++ encode_ops ops.

(** The lengths a batch can hold: 32-bit slices, and a count that is an [int]. *)
Definition op_ok (op : batch_op) : Prop :=
  match op with
  | OpPut key value => fits 32 (size key) /\ fits 32 (size value)
  | OpDelete key => fits 32 (size key)
  end.

Definition ops_ok (ops : list batch_op) : Prop :=
  Forall op_ok ops /\ Z.of_nat (length ops) < 2 ^ 31.

Definition apply_op (rep_ : bytes) (op : batch_op) : bytes :=
  match op with
  | OpPut key value => WriteBatch_Put rep_ key value
  | OpDelete key => WriteBatch_Delete rep_ key
  end.

Definition handle_op {H} `{Handler H} (h : H) (op : batch_op) : H :=
  match op with
  | OpPut key value => handler_Put h key value
  | OpDelete key => handler_Delete h key
  end.

(** A handler that records the calls made to it. *)
#[export] Instance Recorder : Handler (list batch_op) := {|
  handler_Put h key value := h ++ [OpPut key value];
  handler_Delete h key := h ++ [OpDelete key]
|}.

(** ** Lemmas *)

Lemma header_fields s c rest :
  fits 64 s -> fits 32 c ->
  let rep_ := EncodeFixed64 s ++ EncodeFixed32 c ++ rest in
  Sequence rep_ = s /\ Count rep_ = int32 c /\ drop (Z.to_nat kHeader) rep_ = rest /\
  (forall n, SetCount rep_ n = EncodeFixed64 s ++ EncodeFixed32 (u32 n) ++ rest) /\
  (forall n, SetSequence rep_ n = EncodeFixed64 n ++ EncodeFixed32 c ++ rest).
Proof.
  intros Hs Hc rep_. pose proof (length_EncodeFixed64 s). pose proof (length_EncodeFixed32 c).
  assert (H8 : drop 8 rep_ = EncodeFixed32 c ++ rest).
  { unfold rep_. apply drop_app_length'. done. }
  assert (H12 : drop 12 rep_ = rest).
  { change 12%nat with (8 + 4)%nat. rewrite <- drop_drop, H8. apply drop_app_length'. done. }
  unfold Sequence, Count, SetCount, SetSequence.
  split_and!; [unfold rep_; by rewrite DecodeFixed64_encode, wrap_id| | |intros n..].
  - by rewrite H8, DecodeFixed32_encode, wrap_id.
  - exact H12.
  - rewrite H12. unfold rep_. by rewrite take_app_length' by done.
  - by rewrite H8.
Qed.

Lemma fits_count n : Z.of_nat n < 2 ^ 31 -> fits 32 (Z.of_nat n) /\ int32 (Z.of_nat n) = Z.of_nat n.
Proof.
  intros. split; [unfold fits; lia|]. apply swrap_id; [done|].
  change (2 ^ (32 - 1)) with (2 ^ 31). lia.
Qed.

Lemma encode_ops_app ops1 ops2 : encode_ops (ops1 ++ ops2) = encode_ops ops1 ++ encode_ops ops2.
Proof. unfold encode_ops. by rewrite map_app, concat_app. Qed.

Lemma apply_op_rep seq ops op :
  fits 64 seq -> Z.of_nat (length ops) + 1 < 2 ^ 31 ->
  apply_op (batch_rep seq ops) op = batch_rep seq (ops ++ [op]).
Proof.
  intros Hs Hl. destruct (fits_count (length ops)) as [Hf Hi]; [lia|].
  destruct (header_fields seq _ (encode_ops ops) Hs Hf) as (_ & Hc & _ & Hset & _).
  fold (batch_rep seq ops) in Hc, Hset. rewrite Hi in Hc.
  unfold batch_rep at 2. rewrite encode_ops_app, length_app, Nat2Z.inj_add.
  replace (encode_ops [op]) with (encode_op op)
    by (unfold encode_ops; cbn [map concat]; by rewrite app_nil_r).
  destruct op as [key value|key]; cbn [apply_op encode_op];
    unfold WriteBatch_Put, WriteBatch_Delete;
    rewrite Hc, Hset, wrap_id by (unfold fits; lia).
  - set (rep1 := _ ++ [byte_of_Z kTypeValue]).
    rewrite (PutLengthPrefixedSlice_app (PutLengthPrefixedSlice _ key) value).
    rewrite (PutLengthPrefixedSlice_app rep1 key). unfold rep1. by rewrite <- !app_assoc.
  - set (rep1 := _ ++ [byte_of_Z kTypeDeletion]).
    rewrite (PutLengthPrefixedSlice_app rep1 key). unfold rep1. by rewrite <- !app_assoc.
Qed.

Lemma apply_ops_rep seq ops1 ops2 :
  fits 64 seq -> Z.of_nat (length ops1 + length ops2) < 2 ^ 31 ->
  foldl apply_op (batch_rep seq ops1) ops2 = batch_rep seq (ops1 ++ ops2).
Proof.
  intros Hs. revert ops1. induction ops2 as [|op ops2 IH]; intros ops1 Hl; simpl in *.
  - by rewrite app_nil_r.
  - rewrite apply_op_rep by (done || lia). rewrite IH by (rewrite length_app; simpl; lia).
    by rewrite <- app_assoc.
Qed.

Lemma Clear_rep : WriteBatch_Clear = batch_rep 0 [].
Proof. reflexivity. Qed.

(** Reading a length-prefixed slice off a prefix of its encoding. *)
Lemma GetLengthPrefixedSlice_take value rest n :
  fits 32 (size value) ->
  let enc := PutLengthPrefixedSlice [] value in
  (length enc <= n)%nat /\
    GetLengthPrefixedSlice (take n (enc ++ rest)) = (take (n - length enc) rest, Some value) \/
  (n < length enc)%nat /\ (GetLengthPrefixedSlice (take n (enc ++ rest))).2 = None.
Proof.
  intros Hv enc. destruct (Nat.le_gt_cases (length enc) n) as [Hle|Hgt].
  - left. split; [done|]. rewrite take_app_ge by done. by apply GetLengthPrefixedSlice_encode.
  - right. split; [done|]. rewrite take_app_le by lia.
    by apply length_prefixed_truncated.
Qed.

Section iterate_proofs.
Context {H : Type} `{Handler H}.

Lemma GetLengthPrefixedSlice_shorter input input' r :
  GetLengthPrefixedSlice input = (input', r) -> (length input' <= length input)%nat.
Proof.
  unfold GetLengthPrefixedSlice. destruct (GetVarint32 input) as [[len p]|] eqn:E;
    [|by intros [= <- <-]].
  rewrite GetVarint32_fallback in E. unfold GetVarint32PtrFallback in E.
  apply (GetVarint_loop_sound 32 4 0) in E as (_ & used & -> & _); [|done..].
  destruct (_ >=? _); intros [= <- <-]; rewrite ?length_drop, !length_app; lia.
Qed.

(** Whatever the bytes, the loop ends, having made some calls of the handler; it
    succeeds only when it made as many as the header says. *)
Lemma Iterate_loop_total fuel h input found rep_ :
  (length input <= fuel)%nat ->
  exists ops s, Iterate_loop fuel h input found rep_ = Some (foldl handle_op h ops, s) /\
    (Status_ok s = true -> found + Z.of_nat (length ops) = Count rep_) /\
    (Status_ok s = false -> IsCorruption s = true).
Proof.
  revert h input found. induction fuel as [|fuel IH]; intros h input found Hf.
  { destruct input; [|simpl in Hf; lia]. simpl. exists []. eexists. split; [done|].
    destruct (Z.eqb_spec found (Count rep_)); simpl; [|done]. split; [lia|done]. }
  destruct input as [|tag input]; cbn [Iterate_loop].
  { exists []. eexists. split; [done|].
    destruct (Z.eqb_spec found (Count rep_)); simpl; [|done]. split; [lia|done]. }
  assert (Hbad : forall msg, exists ops s,
    Some (h, corrupt msg) = Some (foldl handle_op h ops, s) /\
    (Status_ok s = true -> found + Z.of_nat (length ops) = Count rep_) /\
    (Status_ok s = false -> IsCorruption s = true)).
  { intros msg. exists [], (corrupt msg). done. }
  assert (Hgo : forall op input', (length input' <= fuel)%nat -> exists ops s,
    Iterate_loop fuel (handle_op h op) input' (found + 1) rep_ = Some (foldl handle_op h ops, s) /\
    (Status_ok s = true -> found + Z.of_nat (length ops) = Count rep_) /\
    (Status_ok s = false -> IsCorruption s = true)).
  { intros op input' Hi. destruct (IH (handle_op h op) input' (found + 1) Hi) as (ops & s & E & Hs & Hc).
    exists (op :: ops), s. split; [done|]. split; [|done]. intros Hok. simpl. specialize (Hs Hok). lia. }
  simpl in Hf. destruct (_ =? kTypeValue).
  - destruct (GetLengthPrefixedSlice input) as [i1 [key|]] eqn:E1; [|apply Hbad].
    destruct (GetLengthPrefixedSlice i1) as [i2 [value|]] eqn:E2; [|apply Hbad].
    apply GetLengthPrefixedSlice_shorter in E1, E2. apply (Hgo (OpPut key value)). lia.
  - destruct (_ =? kTypeDeletion); [|apply Hbad].
    destruct (GetLengthPrefixedSlice input) as [i1 [key|]] eqn:E1; [|apply Hbad].
    apply GetLengthPrefixedSlice_shorter in E1. apply (Hgo (OpDelete key)). lia.
Qed.

Lemma Iterate_total rep_ h :
  exists ops s, Iterate rep_ h = Some (foldl handle_op h ops, s) /\
    (Status_ok s = true -> Z.of_nat (length ops) = Count rep_) /\
    (Status_ok s = false -> IsCorruption s = true).
Proof.
  unfold Iterate. destruct (_ <? _).
  - exists []. eexists. done.
  - destruct (Iterate_loop_total (length rep_) h (drop (Z.to_nat kHeader) rep_) 0 rep_)
      as (ops & s & E & Hs); [rewrite length_drop; lia|].
    by exists ops, s.
Qed.

(** Reading a prefix of the encoding of [ops]: all of it calls the handler on all
    the operations, less of it fails. *)
Lemma Iterate_loop_take fuel h ops found n rep_ :
  Forall op_ok ops -> (Nat.min n (length (encode_ops ops)) <= fuel)%nat ->
  found + Z.of_nat (length ops) = Count rep_ ->
  if decide (length (encode_ops ops) <= n)%nat then
    Iterate_loop fuel h (take n (encode_ops ops)) found rep_
      = Some (foldl handle_op h ops, Status_OK)
  else exists h' s, Iterate_loop fuel h (take n (encode_ops ops)) found rep_ = Some (h', s) /\
    Status_ok s = false.
Proof.
  intros Hok. revert h fuel found n. induction Hok as [|op ops Hop Hok IH]; intros h fuel found n Hf Hc.
  { change (encode_ops []) with (@nil byte) in *. cbn [length foldl] in *.
    destruct (decide _); [|lia]. rewrite take_nil.
    replace (Iterate_loop fuel h [] found rep_) with
      (Some (h, if negb (found =? Count rep_) then corrupt "WriteBatch has wrong count" else Status_OK))
      by (by destruct fuel).
    destruct (Z.eqb_spec found (Count rep_)); [done|lia]. }
  change (encode_ops (op :: ops)) with (encode_op op ++ encode_ops ops) in *.
  rewrite length_app in *.
  destruct n as [|n].
  { destruct (decide _) as [Hd|Hd]; [destruct op; cbn [encode_op app length] in Hd; lia|].
    exists h, (corrupt "WriteBatch has wrong count"). split; [|done]. rewrite firstn_O.
    simpl in Hc. destruct fuel; simpl; destruct (Z.eqb_spec found (Count rep_)); done || lia. }
  assert (Hfuel : exists fuel', fuel = S fuel') by (destruct fuel; [destruct op; simpl encode_op in Hf; cbn [length app] in Hf; lia|eauto]).
  destruct Hfuel as [fuel' ->]. simpl (length (op :: ops)) in Hc.
  assert (Hrec : forall m, (length (encode_op op) + m = S n)%nat ->
    if decide (length (encode_op op) + length (encode_ops ops) <= S n)%nat then
      Iterate_loop fuel' (handle_op h op) (take m (encode_ops ops)) (found + 1) rep_
        = Some (foldl handle_op h (op :: ops), Status_OK)
    else exists h' s, Iterate_loop fuel' (handle_op h op) (take m (encode_ops ops)) (found + 1) rep_
        = Some (h', s) /\ Status_ok s = false).
  { intros m Hm. specialize (IH (handle_op h op) fuel' (found + 1) m).
    assert (1 <= length (encode_op op))%nat by (destruct op; cbn [encode_op app length]; lia).
    destruct (decide _), (decide _); try lia; apply IH; lia. }
  destruct op as [key value|key]; cbn [encode_op app take Iterate_loop length] in *.
  - change (Z_of_byte (byte_of_Z kTypeValue) =? kTypeValue) with true. cbv iota.
    destruct Hop as [Hk Hv]. rewrite <- app_assoc. rewrite length_app in *.
    destruct (GetLengthPrefixedSlice_take key (PutLengthPrefixedSlice [] value ++ encode_ops ops) n Hk)
      as [[Hn ->]|[Hn E]].
    + destruct (GetLengthPrefixedSlice_take value (encode_ops ops)
        (n - length (PutLengthPrefixedSlice [] key)) Hv) as [[Hn2 ->]|[Hn2 E]].
      * apply Hrec. lia.
      * destruct (decide _); [lia|].
        destruct (GetLengthPrefixedSlice _) as [i2 v2]. simpl in E. rewrite E. do 2 eexists. done.
    + destruct (decide _); [lia|].
      destruct (GetLengthPrefixedSlice _) as [i2 v2]. simpl in E. rewrite E. do 2 eexists. done.
  - change (Z_of_byte (byte_of_Z kTypeDeletion) =? kTypeValue) with false.
    change (Z_of_byte (byte_of_Z kTypeDeletion) =? kTypeDeletion) with true. cbv iota.
    destruct (GetLengthPrefixedSlice_take key (encode_ops ops) n Hop)
      as [[Hn ->]|[Hn E]].
    + apply Hrec. lia.
    + destruct (decide _); [lia|].
      destruct (GetLengthPrefixedSlice _) as [i2 v2]. simpl in E. rewrite E. do 2 eexists. done.
Qed.

Lemma batch_rep_header seq ops :
  fits 64 seq -> ops_ok ops ->
  Sequence (batch_rep seq ops) = seq /\ Count (batch_rep seq ops) = Z.of_nat (length ops) /\
  drop (Z.to_nat kHeader) (batch_rep seq ops) = encode_ops ops /\
  (forall n, SetSequence (batch_rep seq ops) n = batch_rep n ops).
Proof.
  intros Hs [_ Hl]. destruct (fits_count (length ops) Hl) as [Hf Hi].
  destruct (header_fields seq _ (encode_ops ops) Hs Hf) as (H1 & H2 & H3 & _ & H5).
  fold (batch_rep seq ops) in *. rewrite Hi in H2. done.
Qed.

Lemma Iterate_batch_rep seq ops h :
  fits 64 seq -> ops_ok ops ->
  Iterate (batch_rep seq ops) h = Some (foldl handle_op h ops, Status_OK).
Proof.
  intros Hs Hok. destruct (batch_rep_header seq ops Hs Hok) as (_ & Hc & Hd & _).
  assert (Hsz : size (batch_rep seq ops) = kHeader + size (encode_ops ops)).
  { unfold batch_rep. rewrite !size_app, size_EncodeFixed64, size_EncodeFixed32. unfold kHeader. lia. }
  pose proof (size_nonneg (encode_ops ops)). unfold Iterate. zcase; [lia|]. rewrite Hd.
  rewrite <- (firstn_all (encode_ops ops)).
  pose proof (Iterate_loop_take (length (batch_rep seq ops)) h ops 0 (length (encode_ops ops))
    (batch_rep seq ops)) as Hl.
  destruct (decide _); [|lia]. apply Hl; [apply Hok| |by rewrite Hc].
  unfold size, kHeader in Hsz. lia.
Qed.

Lemma Iterate_truncated seq ops h n :
  fits 64 seq -> ops_ok ops -> (n < length (batch_rep seq ops))%nat ->
  exists h' s, Iterate (take n (batch_rep seq ops)) h = Some (h', s) /\ Status_ok s = false.
Proof.
  intros Hs Hok Hn. destruct (batch_rep_header seq ops Hs Hok) as (_ & Hc & Hd & _).
  assert (Hlen : length (batch_rep seq ops) = (12 + length (encode_ops ops))%nat).
  { unfold batch_rep. by rewrite !length_app, length_EncodeFixed64, length_EncodeFixed32. }
  unfold Iterate. destruct (Z.ltb_spec (size (take n (batch_rep seq ops))) kHeader) as [Hlt|Hge].
  { do 2 eexists. done. }
  unfold size in Hge. rewrite length_take in Hge. unfold kHeader in Hge.
  rewrite skipn_firstn_comm, Hd.
  assert (Hct : Count (take n (batch_rep seq ops)) = Z.of_nat (length ops)).
  { rewrite <- Hc. unfold Count. rewrite skipn_firstn_comm. f_equal.
    unfold DecodeFixed32, byte_at.
    set (l := drop 8 (batch_rep seq ops)).
    assert (Hnth : forall i, (i < n - 8)%nat -> nth i (take (n - 8) l) x00 = nth i l x00)
      by (intros i Hi; rewrite nth_firstn; by destruct (Nat.ltb_spec i (n - 8)); [|lia]).
    by rewrite !Hnth by lia. }
  pose proof (Iterate_loop_take (length (take n (batch_rep seq ops))) h ops 0 (n - 12)
    (take n (batch_rep seq ops))) as Hl.
  destruct (decide _); [lia|].
  apply Hl; [apply Hok| |by rewrite Hct]. rewrite length_take. lia.
Qed.
End iterate_proofs.

(** ** Appending and inserting *)

Lemma batch_rep_append seq1 ops1 seq2 ops2 :
  fits 64 seq1 -> fits 64 seq2 -> Z.of_nat (length ops1 + length ops2) < 2 ^ 31 ->
  WriteBatch_Append (batch_rep seq1 ops1) (batch_rep seq2 ops2) = batch_rep seq1 (ops1 ++ ops2).
Proof.
  intros H1 H2 Hl. unfold WriteBatch_Append.
  destruct (fits_count (length ops1)) as [Hf1 Hi1]; [lia|].
  destruct (fits_count (length ops2)) as [Hf2 Hi2]; [lia|].
  destruct (header_fields seq1 _ (encode_ops ops1) H1 Hf1) as (_ & Hc1 & _ & Hset & _).
  destruct (header_fields seq2 _ (encode_ops ops2) H2 Hf2) as (_ & Hc2 & Hd & _).
  fold (batch_rep seq1 ops1) (batch_rep seq2 ops2) in *.
  rewrite Hc1, Hc2, Hi1, Hi2, Hset, Hd, wrap_id by (unfold fits; lia).
  unfold batch_rep. by rewrite encode_ops_app, length_app, Nat2Z.inj_add, <- !app_assoc.
Qed.

(** The entries the operations of a batch become, numbered from [seq]. *)
Record entry := MkEntry { e_seq : Z; e_type : Z; e_key : bytes; e_value : bytes }.

#[export] Instance entry_eq_dec : EqDecision entry.
Proof. solve_decision. Defined.

Definition op_entry (seq : Z) (op : batch_op) : entry :=
  match op with
  | OpPut key value => MkEntry seq kTypeValue key value
  | OpDelete key => MkEntry seq kTypeDeletion key []
  end.

Fixpoint op_entries (seq : Z) (ops : list batch_op) : list entry :=
  match ops with
  | [] => []
  | op :: ops => op_entry seq op :: op_entries (seq + 1) ops
  end.

Definition add_entry {M} `{MemTableAdd M} (m : M) (e : entry) : M :=
  mt_Add m (e_seq e) (e_type e) (e_key e) (e_value e).

Lemma op_entries_app seq ops1 ops2 :
  op_entries seq (ops1 ++ ops2) = op_entries seq ops1 ++ op_entries (seq + Z.of_nat (length ops1)) ops2.
Proof.
  revert seq. induction ops1 as [|op ops1 IH]; intros seq; cbn [op_entries app length]; [by rewrite Z.add_0_r|].
  rewrite IH. do 3 f_equal. lia.
Qed.

Lemma inserter_ops {M} `{MemTableAdd M} ops seq (m : M) :
  0 <= seq -> seq + Z.of_nat (length ops) < 2 ^ 64 ->
  foldl handle_op (MkInserter seq m) ops =
    MkInserter (seq + Z.of_nat (length ops)) (foldl add_entry m (op_entries seq ops)).
Proof.
  revert seq m. induction ops as [|op ops IH]; intros seq m Hs Hl.
  { by rewrite Z.add_0_r. }
  cbn [length] in Hl. cbn [foldl op_entries].
  replace (handle_op (MkInserter seq m) op) with (MkInserter (seq + 1) (add_entry m (op_entry seq op))).
  - rewrite IH by lia. f_equal. cbn [length]. lia.
  - destruct op; cbn; by rewrite wrap_id by (unfold fits; lia).
Qed.

Lemma InsertInto_batch_rep {M} `{MemTableAdd M} seq ops (m : M) :
  0 <= seq -> seq + Z.of_nat (length ops) < 2 ^ 64 -> ops_ok ops ->
  InsertInto (batch_rep seq ops) m = Some (foldl add_entry m (op_entries seq ops), Status_OK).
Proof.
  intros Hs Hl Hok. assert (Hf : fits 64 seq) by (unfold fits; lia).
  unfold InsertInto. rewrite Iterate_batch_rep by done.
  destruct (batch_rep_header seq ops Hf Hok) as (-> & _). by rewrite inserter_ops.
Qed.

(** ** Properties *)

(** C30. A batch built by any sequence of [Put] and [Delete] calls, given any
    sequence number, hands its operations to any handler in order and succeeds;
    its count and sequence number read back; appending one batch to another is
    the batch of both sequences of calls. *)
Theorem write_batch_roundtrip {H} `{Handler H} (h : H) (seq : Z) (ops ops2 : list batch_op) :
  fits 64 seq -> ops_ok (ops ++ ops2) ->
  let batch := foldl apply_op WriteBatch_Clear ops in
  let numbered := SetSequence batch seq in
  Iterate numbered h = Some (foldl handle_op h ops, Status_OK) /\
  Count numbered = Z.of_nat (length ops) /\ Sequence numbered = seq /\
  WriteBatch_Append batch (foldl apply_op WriteBatch_Clear ops2)
    = foldl apply_op WriteBatch_Clear (ops ++ ops2).
Proof.
  intros Hs [Hall Hlen]. cbv zeta. assert (Hz : fits 64 0) by (unfold fits; lia).
  rewrite length_app in Hlen. apply Forall_app in Hall as [Hall1 Hall2].
  assert (Hok : ops_ok ops) by (split; [done|lia]).
  rewrite Clear_rep, !apply_ops_rep by (rewrite ?length_app; simpl; done || lia). simpl app.
  destruct (batch_rep_header 0 ops Hz Hok) as (_ & _ & _ & Hset). rewrite Hset.
  destruct (batch_rep_header seq ops Hs Hok) as (Hq & Hc & _).
  split; [by apply Iterate_batch_rep|]. split; [done|]. split; [done|].
  apply batch_rep_append; [done..|lia].
Qed.

Lemma write_batch_roundtrip_witness :
  let ops := [OpPut (str "a") (str "1"); OpDelete (str "b")] in
  let ops2 := [OpPut (str "c") []] in
  Iterate (SetSequence (foldl apply_op WriteBatch_Clear ops) 77) [] = Some (ops, Status_OK) /\
  let batch := foldl apply_op WriteBatch_Clear ops in
  let numbered := SetSequence batch 77 in
  Iterate numbered [] = Some (foldl handle_op [] ops, Status_OK) /\
  Count numbered = Z.of_nat (length ops) /\ Sequence numbered = 77 /\
  WriteBatch_Append batch (foldl apply_op WriteBatch_Clear ops2)
    = foldl apply_op WriteBatch_Clear (ops ++ ops2).
Proof.
  split; [vm_compute; reflexivity|].
  apply (write_batch_roundtrip (H := list batch_op) [] 77
    [OpPut (str "a") (str "1"); OpDelete (str "b")] [OpPut (str "c") []]).
  - vm_compute. split; congruence.
  - split; [|reflexivity]. repeat apply List.Forall_cons; try apply List.Forall_nil;
      vm_compute; intuition congruence.
Defined.

(** A corrupt or truncated batch is refused.  On any bytes iteration ends; it
    succeeds only when the handler received exactly as many operations as the
    header counts, and otherwise reports corruption; and no strict prefix of a
    well-formed batch is accepted. *)
Lemma write_batch_corruption {H} `{Handler H} (rep_ : bytes) (h : H) :
  (exists ops s, Iterate rep_ h = Some (foldl handle_op h ops, s) /\
     (Status_ok s = true -> Z.of_nat (length ops) = Count rep_) /\
     (Status_ok s = false -> IsCorruption s = true)) /\
  (forall seq ops n, fits 64 seq -> ops_ok ops -> rep_ = batch_rep seq ops ->
     (n < length rep_)%nat ->
     exists h' s, Iterate (take n rep_) h = Some (h', s) /\ Status_ok s = false).
Proof.
  split; [apply Iterate_total|]. intros seq ops n Hs Hok -> Hn. by apply Iterate_truncated.
Qed.

(** Inserting a batch into a memtable adds its operations in order, each with the
    next sequence number from the batch's on: a put as a value, a deletion as a
    tombstone with an empty value. *)
Theorem InsertInto_sequences {M} `{MemTableAdd M} (seq : Z) (ops : list batch_op) (m : M) :
  0 <= seq -> seq + Z.of_nat (length ops) <= kMaxSequenceNumber -> ops_ok ops ->
  InsertInto (batch_rep seq ops) m = Some (foldl add_entry m (op_entries seq ops), Status_OK) /\
  (forall i op, ops !! i = Some op ->
     op_entries seq ops !! i = Some (op_entry (seq + Z.of_nat i) op)).
Proof.
  intros Hs Hl Hok. split.
  - apply InsertInto_batch_rep; [done| |done].
    unfold kMaxSequenceNumber in Hl. rewrite Z.shiftl_1_l in Hl. lia.
  - clear. revert seq. induction ops as [|op' ops IH]; intros seq [|i] op; simpl; try done.
    + intros [= ->]. by rewrite Z.add_0_r.
    + intros Hi. rewrite (IH _ i op Hi). do 2 f_equal. lia.
Qed.

(** A memtable that lists what was added to it. *)
#[export] Instance EntryList : MemTableAdd (list entry) :=
  fun m seq t key value => m ++ [MkEntry seq t key value].

Lemma InsertInto_sequences_witness :
  let ops := [OpPut (str "a") (str "1"); OpDelete (str "b")] in
  InsertInto (batch_rep 10 ops) [] =
    Some ([MkEntry 10 kTypeValue (str "a") (str "1"); MkEntry 11 kTypeDeletion (str "b") []],
      Status_OK) /\
  InsertInto (batch_rep 10 ops) [] = Some (foldl add_entry [] (op_entries 10 ops), Status_OK) /\
  (forall i op, ops !! i = Some op ->
     op_entries 10 ops !! i = Some (op_entry (10 + Z.of_nat i) op)).
Proof.
  split; [vm_compute; reflexivity|].
  apply (InsertInto_sequences (M := list entry)).
  - vm_compute. congruence.
  - vm_compute. congruence.
  - split; [|reflexivity]. repeat apply List.Forall_cons; try apply List.Forall_nil;
      vm_compute; intuition congruence.
Defined.
