(* ===== verification/Random.v ===== *)
(** * The random number generator

    Models [cpp/leveldb/util/random.h].  The skip list draws its node heights from
    it. *)
From S2P Require Import Prelude.

(** [class Random] is its [seed_]. *)
Definition kM : Z := 2147483647.
Definition kA : Z := 16807.

Definition NewRandom (s : Z) : Z :=
  let seed_ := Z.land s 0x7fffffff in
  if (seed_ =? 0) || (seed_ =? 2147483647) then 1 else seed_.

(** [Next]: the new [seed_], which is also the result. *)
Definition Random_Next (seed_ : Z) : Z :=
  let product := u64 (seed_ * kA) in
  let seed_ := u32 ((product ≫ 31) + Z.land product kM) in
  if seed_ >? kM then u32 (seed_ - kM) else seed_.

(** [Uniform(n)], [OneIn(n)] and [Skewed(max_log)]: the new seed and the result. *)
Definition Uniform (seed_ n : Z) : Z * Z :=
  let seed_ := Random_Next seed_ in (seed_, seed_ mod n).

Definition OneIn (seed_ n : Z) : Z * bool :=
  let seed_ := Random_Next seed_ in (seed_, seed_ mod n =? 0).

Definition Skewed (seed_ max_log : Z) : Z * Z :=
  let '(seed_, base) := Uniform seed_ (max_log + 1) in
  Uniform seed_ (1 ≪ base).

(** Seeds the generator can be in. *)
Definition seed_ok (s : Z) : Prop := 0 < s < kM.

Lemma NewRandom_ok s : seed_ok (NewRandom s).
Proof.
  unfold NewRandom, seed_ok, kM. change 0x7fffffff with (2 ^ 31 - 1).
  rewrite land_ones_mod by lia. pose proof (Z.mod_pos_bound s (2 ^ 31) ltac:(lia)).
  destruct (Z.eqb_spec (s mod 2 ^ 31) 0), (Z.eqb_spec (s mod 2 ^ 31) (2 ^ 31 - 1)); cbn [orb]; lia.
Qed.

(** No multiple of the modulus is reached. *)
Lemma no_multiple s k : seed_ok s -> s * kA <> k * kM.
Proof.
  unfold seed_ok. intros Hs Heq. assert (Hd : (kM | kA * s)) by (exists k; lia).
  apply Z.gauss in Hd; [|reflexivity]. apply Z.divide_pos_le in Hd; lia.
Qed.

Lemma Random_Next_mod s : seed_ok s -> Random_Next s = (s * kA) mod kM.
Proof.
  intros Hs. pose proof (no_multiple s) as Hno. unfold seed_ok in Hs. unfold Random_Next.
  rewrite (wrap_id 64) by (unfold fits, kM, kA in *; lia).
  set (p := s * kA) in *.
  assert (Hp : 0 <= p < 2 ^ 31 * kA) by (unfold p, kM, kA in *; lia).
  rewrite Z.shiftr_div_pow2 by lia. set (q := p / 2 ^ 31). set (r := p mod 2 ^ 31).
  replace (Z.land p kM) with r by (change kM with (2 ^ 31 - 1); by rewrite land_ones_mod).
  assert (Hqr : p = 2 ^ 31 * q + r) by (unfold q, r; zdiv).
  assert (Hq : 0 <= q < kA) by (unfold q, kA in *; zdiv).
  assert (Hr : 0 <= r < 2 ^ 31) by (unfold r; zdiv).
  assert (Hne : q + r <> kM) by (intros He; apply (Hno (q + 1)); unfold seed_ok, kM in *; lia).
  rewrite (wrap_id 32) by (unfold fits, kA in *; lia).
  rewrite Z.gtb_ltb. destruct (Z.ltb_spec kM (q + r)).
  - rewrite wrap_id by (unfold fits, kM, kA in *; lia).
    apply (Z.mod_unique p kM (q + 1)); [left|]; unfold kM, kA in *; lia.
  - apply (Z.mod_unique p kM q); [left|]; unfold kM, kA in *; lia.
Qed.

Lemma Random_Next_ok s : seed_ok s -> seed_ok (Random_Next s).
Proof.
  intros Hs. rewrite Random_Next_mod by done.
  pose proof (Z.mod_pos_bound (s * kA) kM ltac:(reflexivity)).
  pose proof (Z.div_mod (s * kA) kM ltac:(done)).
  pose proof (no_multiple s (s * kA / kM) Hs). unfold seed_ok. lia.
Qed.

(** ** Properties *)

(** The shift-and-add reduction computes the Lehmer generator
    [seed * 16807 mod (2^31 - 1)] without a division; from any seed the
    constructor accepts, the state stays strictly between 0 and the modulus, so it
    never sticks. *)
Theorem random_is_lehmer (s : Z) (n : nat) :
  let seed := Nat.iter n Random_Next (NewRandom s) in
  0 < seed < kM /\ Random_Next seed = (seed * kA) mod kM.
Proof.
  cbv zeta. assert (Hok : seed_ok (Nat.iter n Random_Next (NewRandom s))).
  { induction n as [|n IH]; [apply NewRandom_ok|]. by apply Random_Next_ok. }
  split; [exact Hok|]. by apply Random_Next_mod.
Qed.
