(* ===== verification/Arena.v ===== *)
(** * The arena

    Models [cpp/leveldb/util/arena.h] and [cpp/leveldb/util/arena.cc]: the memory of a
    memtable, cut from blocks of [new char\[\]].  Pointers are 64-bit addresses.  What
    [operator new] returns is the interface [Heap]; it is aligned for any object of the
    size asked for. *)
From stdpp Require Import sorting.
From S2P Require Import Prelude.

(** ** The allocator *)

Class Heap (H : Type) := new_bytes : H -> Z -> H * Z.

Definition apart_regions (p q : Z * Z) : Prop := p.1 + p.2 <= q.1 \/ q.1 + q.2 <= p.1.

(** [live h]: the regions handed out, as address and size. *)
Class HeapLaws (H : Type) `{Heap H} := {
  live : H -> list (Z * Z);
  new_bytes_live h n h' a : new_bytes h n = (h', a) -> 0 < n -> live h' = (a, n) :: live h;
  new_bytes_apart h n h' a : new_bytes h n = (h', a) -> 0 < n -> Forall (apart_regions (a, n)) (live h);
  new_bytes_aligned h n h' a : new_bytes h n = (h', a) -> 0 < a /\ a mod 8 = 0
}.

(** ** The arena *)

Definition kBlockSize : Z := 4096.
Definition sizeof_pointer : Z := 8.

(** [alloc_ptr_] is 0 for the null pointer; [blocks_] keeps the sizes next to the
    addresses. *)
Record Arena := MkArena {
  alloc_ptr_ : Z;
  alloc_bytes_remaining_ : Z;
  blocks_ : list (Z * Z);
  memory_usage_ : Z
}.

Definition NewArena : Arena := MkArena 0 0 [] 0.

Definition MemoryUsage (a : Arena) : Z := memory_usage_ a.

Section arena.
Context {H : Type} `{Heap H}.

Definition AllocateNewBlock (h : H) (a : Arena) (block_bytes : Z) : H * Arena * Z :=
  let '(h, result) := new_bytes h block_bytes in
  (h, MkArena (alloc_ptr_ a) (alloc_bytes_remaining_ a) (blocks_ a ++ [(result, block_bytes)])
        (u64 (memory_usage_ a + (block_bytes + sizeof_pointer))), result).

(** [result = alloc_ptr_; alloc_ptr_ += bytes; alloc_bytes_remaining_ -= bytes] *)
Definition bump (a : Arena) (bytes : Z) : Arena :=
  MkArena (alloc_ptr_ a + bytes) (alloc_bytes_remaining_ a - bytes) (blocks_ a) (memory_usage_ a).

Definition AllocateFallback (h : H) (a : Arena) (bytes : Z) : H * Arena * Z :=
  if bytes >? kBlockSize / 4 then AllocateNewBlock h a bytes
  else
    let '(h, a, block) := AllocateNewBlock h a kBlockSize in
    let a := MkArena block kBlockSize (blocks_ a) (memory_usage_ a) in
    (h, bump a bytes, alloc_ptr_ a).

Definition Allocate (h : H) (a : Arena) (bytes : Z) : H * Arena * Z :=
  if bytes <=? alloc_bytes_remaining_ a then (h, bump a bytes, alloc_ptr_ a)
  else AllocateFallback h a bytes.

Definition align : Z := 8.

Definition AllocateAligned (h : H) (a : Arena) (bytes : Z) : H * Arena * Z :=
  let current_mod := Z.land (alloc_ptr_ a) (align - 1) in
  let slop := if current_mod =? 0 then 0 else align - current_mod in
  let needed := u64 (bytes + slop) in
  if needed <=? alloc_bytes_remaining_ a then (h, bump a needed, alloc_ptr_ a + slop)
  else AllocateFallback h a bytes.

(** A request: aligned or not, and its size. *)
Definition allocate (h : H) (a : Arena) (request : bool * Z) : H * Arena * Z :=
  if request.1 then AllocateAligned h a request.2 else Allocate h a request.2.

(** The requests in turn, with the addresses they got. *)
Fixpoint allocate_all (h : H) (a : Arena) (requests : list (bool * Z)) : H * Arena * list Z :=
  match requests with
  | [] => (h, a, [])
  | r :: requests =>
      let '(h, a, p) := allocate h a r in
      let '(h, a, ps) := allocate_all h a requests in
      (h, a, p :: ps)
  end.
End arena.

(** ** What the arena hands out *)

Section proofs.
Context {H : Type} `{HL : HeapLaws H}.

Definition inside (p q : Z * Z) : Prop := q.1 <= p.1 /\ p.1 + p.2 <= q.1 + q.2.

Lemma apart_sym p q : apart_regions p q -> apart_regions q p.
Proof. unfold apart_regions. lia. Qed.

Lemma apart_inside p p' q : inside p p' -> apart_regions p' q -> apart_regions p q.
Proof. unfold inside, apart_regions. lia. Qed.

(** The rest of the current block. *)
Definition free (a : Arena) : Z * Z := (alloc_ptr_ a, alloc_bytes_remaining_ a).

Definition blocks_usage (blocks : list (Z * Z)) : Z := foldl (fun sum b => u64 (sum + (b.2 + sizeof_pointer))) 0 blocks.

(** [regions]: what was handed out, newest first. *)
Record arena_ok (h : H) (a : Arena) (regions : list (Z * Z)) : Prop := {
  ao_live b : b ∈ blocks_ a -> b ∈ live h;
  ao_regions : StronglySorted apart_regions regions;
  ao_inside r : r ∈ regions -> exists b, b ∈ blocks_ a /\ inside r b;
  ao_free : alloc_bytes_remaining_ a = 0 \/ exists b, b ∈ blocks_ a /\ inside (free a) b;
  ao_remaining : 0 <= alloc_bytes_remaining_ a;
  ao_apart r : r ∈ regions -> alloc_bytes_remaining_ a = 0 \/ apart_regions (free a) r;
  ao_usage : memory_usage_ a = blocks_usage (blocks_ a)
}.

Lemma NewArena_ok h : arena_ok h NewArena [].
Proof. split; cbn; try (by intros ? []%elem_of_nil); [constructor|by left|done|done]. Qed.

(** A region from the current block. *)
Lemma carve_ok h a regions slop n :
  arena_ok h a regions -> 0 <= slop -> 0 < n -> slop + n <= alloc_bytes_remaining_ a ->
  arena_ok h (bump a (slop + n)) ((alloc_ptr_ a + slop, n) :: regions).
Proof.
  intros [H1 H2 H3 H4 H5 H6 H7] Hs Hn Hle. destruct H4 as [H4|(b & Hb & Hin)]; [lia|].
  assert (Hr : inside (alloc_ptr_ a + slop, n) (free a)) by (unfold inside, free; cbn; lia).
  split; cbn [bump blocks_ alloc_ptr_ alloc_bytes_remaining_ memory_usage_]; [done| | | |lia| |done].
  - constructor; [done|]. apply list.Forall_forall. intros r Hin'. destruct (H6 r Hin') as [|Ha]; [lia|].
    by eapply apart_inside.
  - intros r [->|Hr']%elem_of_cons; [|by apply H3]. exists b. split; [done|]. unfold inside, free in *. cbn in *. lia.
  - right. exists b. split; [done|]. unfold inside, free, bump in *. cbn in *. lia.
  - intros r [->|Hr']%elem_of_cons; right; [unfold apart_regions, free, bump; cbn; lia|].
    destruct (H6 r Hr') as [|Ha]; [lia|]. eapply apart_inside; [|exact Ha]. unfold inside, free, bump. cbn. lia.
Qed.

Lemma carve0_ok h a regions n :
  arena_ok h a regions -> 0 < n -> n <= alloc_bytes_remaining_ a -> arena_ok h (bump a n) ((alloc_ptr_ a, n) :: regions).
Proof.
  intros Hok Hn Hle. pose proof (carve_ok h a regions 0 n Hok ltac:(lia) Hn ltac:(lia)) as Hc. by rewrite Z.add_0_r in Hc.
Qed.

Lemma blocks_apart_regions h a regions n h' p :
  arena_ok h a regions -> 0 < n -> new_bytes h n = (h', p) ->
  Forall (apart_regions (p, n)) regions /\ (alloc_bytes_remaining_ a = 0 \/ apart_regions (free a) (p, n)).
Proof.
  intros [H1 H2 H3 H4 H5 H6 H7] Hn Hnew. pose proof (new_bytes_apart _ _ _ _ Hnew Hn) as Ha. rewrite list.Forall_forall in Ha.
  split.
  - apply list.Forall_forall. intros r Hr. destruct (H3 r Hr) as (b & Hb & Hin). apply apart_sym. eapply apart_inside; [done|].
    apply apart_sym, Ha, H1, Hb.
  - destruct H4 as [|(b & Hb & Hin)]; [by left|]. right. eapply apart_inside; [done|]. apply apart_sym, Ha, H1, Hb.
Qed.

Lemma usage_snoc blocks b : blocks_usage (blocks ++ [b]) = u64 (blocks_usage blocks + (b.2 + sizeof_pointer)).
Proof. unfold blocks_usage. by rewrite foldl_app. Qed.

Lemma AllocateNewBlock_blocks h a n h' a' p :
  AllocateNewBlock h a n = (h', a', p) -> new_bytes h n = (h', p) /\
  a' = MkArena (alloc_ptr_ a) (alloc_bytes_remaining_ a) (blocks_ a ++ [(p, n)]) (u64 (memory_usage_ a + (n + sizeof_pointer))).
Proof. unfold AllocateNewBlock. destruct (new_bytes h n) as [h1 r]. by intros [= <- <- <-]. Qed.

Lemma AllocateFallback_ok h a regions n h' a' p :
  arena_ok h a regions -> 0 < n -> AllocateFallback h a n = (h', a', p) ->
  arena_ok h' a' ((p, n) :: regions) /\ p mod 8 = 0.
Proof.
  intros Hok Hn. unfold AllocateFallback. destruct (Z.gtb_spec n (kBlockSize / 4)) as [Hbig|Hsmall].
  - intros Hf. apply AllocateNewBlock_blocks in Hf as [Hnew ->].
    destruct (blocks_apart_regions h a regions n h' p Hok Hn Hnew) as [Ha Hfree]. pose proof (new_bytes_live _ _ _ _ Hnew Hn) as Hl.
    split; [|by apply (new_bytes_aligned _ _ _ _ Hnew)]. destruct Hok as [H1 H2 H3 H4 H5 H6 H7].
    split; cbn [blocks_ alloc_ptr_ alloc_bytes_remaining_ memory_usage_]; [| | | |done| |].
    + intros b [Hb| ->%list_elem_of_singleton]%elem_of_app; rewrite Hl; [right; by apply H1|left].
    + by constructor.
    + intros r [->|Hr]%elem_of_cons; [exists (p, n); split; [apply elem_of_app; right; by left|unfold inside; lia]|].
      destruct (H3 r Hr) as (b & Hb & Hin). exists b. split; [apply elem_of_app; by left|done].
    + destruct H4 as [|(b & Hb & Hin)]; [by left|]. right. exists b. split; [apply elem_of_app; by left|done].
    + intros r [->|Hr]%elem_of_cons; [exact Hfree|by apply H6].
    + rewrite usage_snoc, H7. done.
  - destruct (AllocateNewBlock h a kBlockSize) as [[h1 a1] block] eqn:Eb. intros [= <- <- <-]. cbn [alloc_ptr_].
    apply AllocateNewBlock_blocks in Eb as [Hnew ->]. cbn [blocks_ memory_usage_].
    destruct (blocks_apart_regions h a regions kBlockSize h1 block Hok eq_refl Hnew) as [Ha Hfree].
    pose proof (new_bytes_live _ _ _ _ Hnew eq_refl) as Hl. destruct Hok as [H1 H2 H3 H4 H5 H6 H7].
    split; [|by apply (new_bytes_aligned _ _ _ _ Hnew)]. apply (carve0_ok h1 (MkArena block kBlockSize _ _) regions n); [|done|].
    2: { cbn. unfold kBlockSize in *. change (4096 / 4) with 1024 in Hsmall. lia. }
    split; cbn [blocks_ alloc_ptr_ alloc_bytes_remaining_ memory_usage_]; [|done| | |done| |].
    + intros b [Hb| ->%list_elem_of_singleton]%elem_of_app; rewrite Hl; [right; by apply H1|left].
    + intros r Hr. destruct (H3 r Hr) as (b & Hb & Hin). exists b. split; [apply elem_of_app; by left|done].
    + right. exists (block, kBlockSize). split; [apply elem_of_app; right; by left|unfold inside, free; cbn; lia].
    + intros r Hr. right. rewrite list.Forall_forall in Ha. by apply Ha.
    + rewrite usage_snoc, H7. done.
Qed.

Lemma allocate_ok h a regions r h' a' p :
  arena_ok h a regions -> 0 < r.2 < 2 ^ 63 -> allocate h a r = (h', a', p) ->
  arena_ok h' a' ((p, r.2) :: regions) /\ (r.1 = true -> p mod 8 = 0).
Proof.
  intros Hok Hn. destruct r as [aligned n]. cbn [fst snd] in *. unfold allocate. cbn [fst snd]. destruct aligned.
  - unfold AllocateAligned, align. set (slop := if _ =? 0 then 0 else _).
    assert (Hm : Z.land (alloc_ptr_ a) (8 - 1) = alloc_ptr_ a mod 8) by (apply (land_ones_mod _ 3); lia).
    assert (Hs : 0 <= slop < 8 /\ (alloc_ptr_ a + slop) mod 8 = 0).
    { unfold slop. rewrite Hm. destruct (Z.eqb_spec (alloc_ptr_ a mod 8) 0); zdiv. }
    clearbody slop. clear Hm. destruct Hs as [Hs Hmod].
    rewrite (wrap_id 64) by (unfold fits; lia). destruct (Z.leb_spec (n + slop) (alloc_bytes_remaining_ a)) as [Hle|Hgt].
    + intros [= <- <- <-]. split; [|intros _; exact Hmod]. rewrite (Z.add_comm n). apply carve_ok; [done|lia..].
    + intros Hf. destruct (AllocateFallback_ok _ _ _ _ _ _ _ Hok (proj1 Hn) Hf) as [H1 H2]. done.
  - unfold Allocate. destruct (Z.leb_spec n (alloc_bytes_remaining_ a)) as [Hle|Hgt].
    + intros [= <- <- <-]. split; [|done]. apply carve0_ok; [done|lia..].
    + intros Hf. destruct (AllocateFallback_ok _ _ _ _ _ _ _ Hok (proj1 Hn) Hf) as [H1 H2]. done.
Qed.

Lemma bases_lookup {A} (R : A -> A -> Prop) l : StronglySorted R l ->
  forall i j x y, (i < j)%nat -> l !! i = Some x -> l !! j = Some y -> R x y.
Proof.
  induction 1 as [|z l Hl IH Hz]; intros i j x y Hij Hi Hj; [done|]. destruct j as [|j]; [lia|]. destruct i as [|i].
  - injection Hi as <-. rewrite list.Forall_forall in Hz. apply Hz. by apply (list_elem_of_lookup_2 _ j).
  - apply (IH i j); [lia|done..].
Qed.

Definition regions_of (ps : list Z) (requests : list (bool * Z)) : list (Z * Z) := zip ps (map snd requests).

Lemma allocate_all_ok requests : forall h a regions h' a' ps,
  arena_ok h a regions -> Forall (fun r => 0 < r.2 < 2 ^ 63) requests -> allocate_all h a requests = (h', a', ps) ->
  length ps = length requests /\ arena_ok h' a' (reverse (regions_of ps requests) ++ regions) /\
  Forall2 (fun p r => r.1 = true -> p mod 8 = 0) ps requests.
Proof.
  induction requests as [|r requests IH]; intros h a regions h' a' ps Hok Hr; cbn [allocate_all]; [by intros [= <- <- <-]|].
  destruct (allocate h a r) as [[h1 a1] p] eqn:E1. destruct (allocate_all h1 a1 requests) as [[h2 a2] ps2] eqn:E2.
  intros [= <- <- <-]. apply list.Forall_cons in Hr as [Hr Hrs]. destruct (allocate_ok _ _ _ _ _ _ _ Hok Hr E1) as [H1 H2].
  destruct (IH _ _ _ _ _ _ H1 Hrs E2) as (H3 & H4 & H5). split; [cbn; by f_equal|]. split; [|by constructor].
  unfold regions_of in *. cbn [zip map zip_with]. rewrite reverse_cons, <- app_assoc. exact H4.
Qed.
End proofs.

(** C40. The memory an arena hands out is usable: every region lies in a block got from
    the heap, no two regions overlap, those asked for with [AllocateAligned] are aligned,
    and [MemoryUsage] is the size of the blocks with one pointer for each. *)
Theorem arena_allocations {H : Type} `{HL : HeapLaws H} (h h' : H) (requests : list (bool * Z)) (a : Arena) (ps : list Z) :
  Forall (fun r => 0 < r.2 < 2 ^ 63) requests -> allocate_all h NewArena requests = (h', a, ps) ->
  let regions := regions_of ps requests in
  length ps = length requests /\
  (forall r, r ∈ regions -> exists b, b ∈ blocks_ a /\ b ∈ live h' /\ inside r b) /\
  (forall i j p q, i <> j -> regions !! i = Some p -> regions !! j = Some q -> apart_regions p q) /\
  Forall2 (fun p r => r.1 = true -> p mod 8 = 0) ps requests /\
  MemoryUsage a = blocks_usage (blocks_ a).
Proof.
  intros Hr Ha regions. destruct (allocate_all_ok requests h NewArena [] h' a ps (NewArena_ok h) Hr Ha) as (Hl & Hok & Hal).
  rewrite app_nil_r in Hok. fold regions in Hok. destruct Hok as [H1 H2 H3 _ _ _ H7]. split_and!; [done| | |done|done].
  - intros r Hin. destruct (H3 r) as (b & Hb & Hi); [by apply elem_of_reverse|]. exists b. split_and!; [done|by apply H1|done].
  - assert (Hlt : forall i j p q, (i < j)%nat -> regions !! i = Some p -> regions !! j = Some q -> apart_regions p q).
    { intros i j p q Hij Hi Hj. rewrite <- (reverse_involutive regions) in Hi, Hj.
      apply reverse_lookup_Some in Hi as [Hi Li]. apply reverse_lookup_Some in Hj as [Hj Lj].
      apply apart_sym. eapply (bases_lookup _ _ H2); [|exact Hj|exact Hi]. lia. }
    intros i j p q Hij Hi Hj. destruct (Nat.lt_trichotomy i j) as [?|[?|?]]; [by eapply Hlt|done|]. apply apart_sym. by eapply Hlt.
Qed.

(** ** The usage does not depend on the addresses *)

Section usage.
Context {H H' : Type} `{HL : HeapLaws H} `{HL' : HeapLaws H'}.

Definition same_usage (a a' : Arena) : Prop :=
  alloc_ptr_ a mod 8 = alloc_ptr_ a' mod 8 /\ alloc_bytes_remaining_ a = alloc_bytes_remaining_ a' /\
  memory_usage_ a = memory_usage_ a'.

Lemma AllocateFallback_usage h h' a a' n :
  same_usage a a' -> same_usage (AllocateFallback h a n).1.2 (AllocateFallback h' a' n).1.2.
Proof.
  intros (E1 & E2 & E3). unfold AllocateFallback, AllocateNewBlock. destruct (n >? _).
  - destruct (new_bytes h n), (new_bytes h' n). cbn. unfold same_usage. cbn. by rewrite E3.
  - destruct (new_bytes h kBlockSize) as [h1 p] eqn:En, (new_bytes h' kBlockSize) as [h1' p'] eqn:En'. cbn.
    apply new_bytes_aligned in En as [_ Ep]. apply new_bytes_aligned in En' as [_ Ep'].
    unfold same_usage, bump. cbn. rewrite E3. split_and!; [zdiv|done|done].
Qed.

Lemma allocate_usage h h' a a' r :
  same_usage a a' -> same_usage (allocate h a r).1.2 (allocate h' a' r).1.2.
Proof.
  intros Ha. pose proof Ha as (E1 & E2 & E3). destruct r as [[] n]; unfold allocate; cbn [fst snd].
  - unfold AllocateAligned. change (Z.land (alloc_ptr_ a) (align - 1)) with (Z.land (alloc_ptr_ a) (2 ^ 3 - 1)).
    change (Z.land (alloc_ptr_ a') (align - 1)) with (Z.land (alloc_ptr_ a') (2 ^ 3 - 1)). rewrite !land_ones_mod by done.
    change (2 ^ 3) with 8. rewrite E1, E2. destruct (_ <=? _); [|by apply AllocateFallback_usage].
    unfold same_usage, bump. cbn. rewrite E2, E3. split_and!; [|done..].
    by rewrite <- Z.add_mod_idemp_l, E1, Z.add_mod_idemp_l.
  - unfold Allocate. rewrite E2. destruct (_ <=? _); [|by apply AllocateFallback_usage].
    unfold same_usage, bump. cbn. rewrite E2, E3. split_and!; [|done..].
    by rewrite <- Z.add_mod_idemp_l, E1, Z.add_mod_idemp_l.
Qed.

Lemma allocate_all_usage requests : forall h h' a a',
  same_usage a a' -> same_usage (allocate_all h a requests).1.2 (allocate_all h' a' requests).1.2.
Proof.
  induction requests as [|r requests IH]; intros h h' a a' Ha; [done|]. cbn [allocate_all].
  pose proof (allocate_usage h h' a a' r Ha) as Hu. destruct (allocate h a r) as [[h1 a1] p], (allocate h' a' r) as [[h1' a1'] p'].
  cbn in Hu. pose proof (IH h1 h1' a1 a1' Hu) as Hv.
  by destruct (allocate_all h1 a1 requests) as [[h2 a2] ps], (allocate_all h1' a1' requests) as [[h2' a2'] ps'].
Qed.
End usage.

(** A heap that hands out the address after everything live. *)
Definition top (l : list (Z * Z)) : Z := foldr (fun b t => Z.max t (b.1 + b.2)) 0 l.

#[export] Instance LinearHeap : Heap (list (Z * Z)) := fun h n =>
  let a := 8 * (top h / 8 + 1) in ((a, n) :: h, a).

Lemma top_bound l b : b ∈ l -> b.1 + b.2 <= top l.
Proof. induction l as [|c l IH]; [by intros []%elem_of_nil|]. intros [->|Hb]%elem_of_cons; cbn; [lia|]. specialize (IH Hb). unfold top in IH. lia. Qed.

Lemma top_nonneg l : 0 <= top l.
Proof. induction l as [|c l IH]; cbn; [done|]. unfold top in IH. lia. Qed.

#[export, refine] Instance LinearHeapLaws : HeapLaws (list (Z * Z)) := {| live h := h |}.
Proof.
  - by intros h n h' a [= <- <-].
  - intros h n h' a [= <- <-] Hn. apply list.Forall_forall. intros b Hb%top_bound. unfold apart_regions. cbn. right. zdiv.
  - intros h n h' a [= <- <-]. pose proof (top_nonneg h). split; [zdiv|]. rewrite Z.mul_comm. by apply Z.mod_mul.
Defined.

Definition example_requests : list (bool * Z) := [(true, 104); (false, 13); (true, 24); (false, 5000); (true, 16)].

Lemma arena_allocations_witness :
  let '(_, a, ps) := allocate_all ([] : list (Z * Z)) NewArena example_requests in
  ps = [8; 112; 128; 4112; 152] /\
  (forall r, r ∈ regions_of ps example_requests -> exists b, b ∈ blocks_ a /\ b ∈ (allocate_all ([] : list (Z * Z)) NewArena example_requests).1.1 /\ inside r b).
Proof.
  destruct (arena_allocations (H := list (Z * Z)) [] (allocate_all ([] : list (Z * Z)) NewArena example_requests).1.1 example_requests
    (allocate_all ([] : list (Z * Z)) NewArena example_requests).1.2 (allocate_all ([] : list (Z * Z)) NewArena example_requests).2) as (H1 & H2 & _).
  - repeat constructor.
  - vm_compute. reflexivity.
  - split; [vm_compute; reflexivity|]. exact H2.
Defined.
