(* ===== verification/Ring.v ===== *)
(** * Circular doubly-linked lists

    The program links snapshots, versions and cache entries into rings around a dummy
    head.  A ring lives in a store with one map for each of the fields [next] and [prev],
    from addresses to addresses.  [ring] relates it to the list of its nodes. *)
From stdpp Require Import gmap.
From S2P Require Import Prelude.

Record Links := MkLinks { next : gmap Z Z; prev : gmap Z Z }.

Definition set_next (l : Links) (a b : Z) : Links := MkLinks (<[a := b]> (next l)) (prev l).
Definition set_prev (l : Links) (a b : Z) : Links := MkLinks (next l) (<[a := b]> (prev l)).

(** [e] goes in before the node [h]. *)
Definition link_before (l : Links) (h e : Z) : option Links :=
  let l := set_next l e h in
  p ← prev l !! h;
  let l := set_prev l e p in
  let l := set_next l p e in
  Some (set_prev l h e).

Definition unlink (l : Links) (e : Z) : option Links :=
  n ← next l !! e;
  p ← prev l !! e;
  let l := set_prev l n p in
  Some (set_next l p n).

(** From [a] through [es] to [b], in both directions. *)
Fixpoint chain (l : Links) (a : Z) (es : list Z) (b : Z) : Prop :=
  match es with
  | [] => next l !! a = Some b /\ prev l !! b = Some a
  | x :: es => next l !! a = Some x /\ prev l !! x = Some a /\ chain l x es b
  end.

Definition ring (l : Links) (h : Z) (es : list Z) : Prop := chain l h es h /\ NoDup (h :: es).

Lemma chain_app l a es1 x es2 b : chain l a (es1 ++ x :: es2) b <-> chain l a es1 x /\ chain l x es2 b.
Proof. revert a. induction es1 as [|y es1 IH]; intros a; cbn; [tauto|]. rewrite IH. tauto. Qed.

Lemma chain_frame l l' a es b :
  (forall y, y ∈ a :: es -> next l' !! y = next l !! y) -> (forall y, y ∈ es ++ [b] -> prev l' !! y = prev l !! y) ->
  chain l a es b -> chain l' a es b.
Proof.
  revert a. induction es as [|x es IH]; intros a Hn Hp; cbn.
  - rewrite (Hn a), (Hp b) by left. done.
  - intros (H1 & H2 & H3). rewrite (Hn a), (Hp x) by left. split_and!; [done..|]. apply IH; [| |done]; intros y Hy.
    + apply Hn. by right.
    + apply Hp. by right.
Qed.

Lemma chain_ends l a es b : chain l a es b ->
  next l !! a = Some (default b (head es)) /\ prev l !! b = Some (default a (list.last es)).
Proof.
  intros Hc. split; [by destruct es; apply Hc|]. destruct es as [|x es] using rev_ind; [apply Hc|].
  rewrite last_snoc. apply chain_app in Hc as [_ [_ Hc]]. exact Hc.
Qed.

Lemma ring_empty l h : next l !! h = Some h -> prev l !! h = Some h -> ring l h [].
Proof. intros H1 H2. split; [done|]. apply NoDup_singleton. Qed.

Lemma ring_next l h es : ring l h es -> next l !! h = Some (default h (head es)).
Proof. intros [Hc _]. by apply chain_ends in Hc as [Hn _]. Qed.

Lemma ring_prev l h es : ring l h es -> prev l !! h = Some (default h (list.last es)).
Proof. intros [Hc _]. by apply chain_ends in Hc as [_ Hp]. Qed.

(** Another part of the store may change. *)
Lemma ring_frame l l' h es :
  (forall y, y ∈ h :: es -> next l' !! y = next l !! y /\ prev l' !! y = prev l !! y) -> ring l h es -> ring l' h es.
Proof.
  intros Hf [Hc Hn]. split; [|done]. eapply chain_frame; [| |exact Hc]; intros y Hy; apply Hf; [done|].
  apply elem_of_app in Hy as [Hy|Hy]; [by right|]. apply list_elem_of_singleton in Hy as ->. left.
Qed.

Lemma link_before_ring l h e es :
  ring l h es -> e ∉ h :: es -> exists l', link_before l h e = Some l' /\ ring l' h (es ++ [e]) /\
    forall y, y ∉ e :: h :: es -> next l' !! y = next l !! y /\ prev l' !! y = prev l !! y.
Proof.
  intros [Hc Hn] He. pose proof (chain_ends _ _ _ _ Hc) as [_ Hp]. unfold link_before. cbn [prev set_next]. rewrite Hp. cbn [mbind option_bind].
  set (p := default h (list.last es)) in *. eexists. split; [done|].
  assert (Hpin : p ∈ h :: es).
  { unfold p. destruct es as [|x es] using rev_ind; [left|]. rewrite last_snoc. right. apply elem_of_app. right. by left. }
  assert (Hpe : p <> e) by congruence. assert (Hhe : h <> e) by (intros ->; apply He; left). split; [split|].
  - apply chain_app. cbn [chain]. cbn [next prev set_next set_prev]. split.
    + destruct es as [|x es _] using rev_ind.
      { unfold p. cbn. rewrite lookup_insert_eq. split; [done|]. rewrite lookup_insert_ne by done. by rewrite lookup_insert_eq. }
      unfold p in *. rewrite last_snoc in *. cbn [default from_option id] in *. apply chain_app in Hc as [Hc1 [Hc2 Hc3]]. apply chain_app.
      assert (Hx : x ∉ h :: es) by (apply list.NoDup_cons in Hn as [Hh Hn]; apply list.NoDup_app in Hn as (_ & Hd & _);
        intros [->|Hx]%elem_of_cons; [apply Hh; apply elem_of_app; right; by left|by apply (Hd x Hx); left]).
      split.
      * eapply chain_frame; [| |exact Hc1]; cbn [next prev set_next set_prev]; intros y Hy.
        -- assert (y <> x) by congruence. rewrite lookup_insert_ne by done. assert (y <> e).
           { intros ->. apply He. apply elem_of_cons in Hy as [->|Hy]; [left|right; apply elem_of_app; by left]. }
           by rewrite lookup_insert_ne.
        -- assert (y <> e) by (intros ->; apply He; by right). assert (y <> h).
           { intros ->. apply list.NoDup_cons in Hn as [Hh _]. by apply Hh. }
           by rewrite !lookup_insert_ne.
      * cbn. rewrite lookup_insert_eq. split; [done|]. rewrite lookup_insert_ne by done. by rewrite lookup_insert_eq.
    + split; [|by rewrite lookup_insert_eq]. rewrite lookup_insert_ne by done. by rewrite lookup_insert_eq.
  - change (h :: es ++ [e]) with ((h :: es) ++ [e]). apply list.NoDup_app. split; [done|]. split; [|apply NoDup_singleton].
    intros y Hy ->%list_elem_of_singleton. done.
  - intros y Hy. cbn [next prev set_next set_prev]. assert (y <> e /\ y <> h /\ y <> p) as (? & ? & ?).
    { split_and!; intros ->; apply Hy; [left|right; left|by right]. }
    by rewrite !lookup_insert_ne.
Qed.

Lemma unlink_ring l h e es1 es2 :
  ring l h (es1 ++ e :: es2) -> exists l', unlink l e = Some l' /\ ring l' h (es1 ++ es2) /\
    forall y, y ∉ h :: es1 ++ e :: es2 -> next l' !! y = next l !! y /\ prev l' !! y = prev l !! y.
Proof.
  intros [Hc Hn]. apply chain_app in Hc as [Hc1 Hc2]. pose proof (chain_ends _ _ _ _ Hc1) as [_ Hp]. pose proof (chain_ends _ _ _ _ Hc2) as [Hx _].
  unfold unlink. rewrite Hx, Hp. cbn [mbind option_bind]. eexists. split; [done|].
  assert (Hnd : NoDup (h :: es1 ++ es2)).
  { eapply sublist_NoDup; [exact Hn|]. apply sublist_skip, sublist_app; [done|by apply sublist_cons]. }
  apply list.NoDup_cons in Hn as [Hh Hn]. rewrite elem_of_app, elem_of_cons in Hh. apply list.NoDup_app in Hn as (Hn1 & Hd & Hn2).
  apply list.NoDup_cons in Hn2 as [He2 Hn2].
  assert (He1 : e ∉ es1) by (intros H; apply (Hd e H); left). split; [split; [|done]|].
  - destruct es2 as [|y es2]; cbn [default from_option id head] in *.
    + rewrite app_nil_r. destruct es1 as [|x es1 _] using rev_ind; cbn.
      { by rewrite !lookup_insert_eq. }
      rewrite last_snoc in *. cbn [default from_option id] in *. apply chain_app in Hc1 as [Hc1 _]. apply chain_app. split.
      * eapply chain_frame; [| |exact Hc1]; cbn [next prev set_next set_prev]; intros y Hy; rewrite lookup_insert_ne; try done; intros ->.
        -- apply list.NoDup_app in Hn1 as (_ & Hd1 & _). apply elem_of_cons in Hy as [->|Hy]; [apply Hh; left; apply elem_of_app; right; left|].
           by apply (Hd1 y Hy); left.
        -- apply Hh. by left.
      * cbn. by rewrite !lookup_insert_eq.
    + destruct Hc2 as (_ & _ & Hc2). apply list.NoDup_cons in Hn2 as [Hy Hn2].
      assert (Hye : y <> e) by (intros ->; apply He2; left).
      assert (Hyh : y <> h) by (intros ->; apply Hh; do 2 right; left).
      assert (Hy1 : y ∉ es1) by (intros H; apply (Hd y H); right; left).
      apply chain_app. split.
      * destruct es1 as [|x es1 _] using rev_ind; cbn [chain default from_option id list.last] in *; [by cbn; rewrite !lookup_insert_eq|].
        rewrite last_snoc in *. cbn [default from_option id] in *. apply chain_app in Hc1 as [Hc1 _]. apply chain_app.
        split; [|by cbn; rewrite !lookup_insert_eq].
        eapply chain_frame; [| |exact Hc1]; cbn [next prev set_next set_prev]; intros z Hz; rewrite lookup_insert_ne; try done; intros ->.
        -- apply list.NoDup_app in Hn1 as (_ & Hd1 & _). apply elem_of_cons in Hz as [->|Hz]; [apply Hh; left; apply elem_of_app; right; left|].
           by apply (Hd1 z Hz); left.
        -- done.
      * eapply chain_frame; [| |exact Hc2]; cbn [next prev set_next set_prev]; intros z Hz; rewrite lookup_insert_ne; try done; intros Hzz; subst z.
        -- set (p := default h (list.last es1)) in *. assert (Hpin : p = h \/ p ∈ es1).
           { unfold p. destruct es1 as [|x es1 _] using rev_ind; [by left|]. rewrite last_snoc. right. apply elem_of_app. right. by left. }
           destruct Hpin as [Hpin|Hpin]; [|by apply (Hd p Hpin); right]. rewrite Hpin in Hz. apply Hh. do 2 right. done.
        -- apply elem_of_app in Hz as [Hz|Hz]; [done|]. by apply list_elem_of_singleton in Hz.
  - intros y Hy. cbn [next prev set_next set_prev]. rewrite !lookup_insert_ne; [done| |].
    + intros Hyy; subst y. apply Hy. destruct es2 as [|x es2]; cbn; [left|]. right. apply elem_of_app. right. right. left.
    + intros Hyy; subst y. apply Hy. destruct es1 as [|x es1 _] using rev_ind; [left|]. rewrite last_snoc. cbn. right. apply elem_of_app. left. apply elem_of_app. right. left.
Qed.
