(* ===== verification/Snapshot.v ===== *)
(** * Snapshots

    Models [SnapshotList] of [cpp/leveldb/db/snapshot.h]: a ring of snapshots around the
    dummy head, in a store that maps their addresses to their sequence numbers.  Debug
    fields are left out; the [assert]s are preconditions. *)
From stdpp Require Import gmap sorting.
From S2P Require Import Prelude Ring.

(** [sn_next_address] is the address [new] returns next. *)
Record SnapshotList := MkSnapshots { sn_links : Links; sn_numbers : gmap Z Z; sn_next_address : Z }.

(** The address of [head_]. *)
Definition sn_head : Z := 0.

Definition NewSnapshotList : SnapshotList :=
  MkSnapshots (set_prev (set_next (MkLinks ∅ ∅) sn_head sn_head) sn_head sn_head) ∅ 1.

Definition sn_empty (l : SnapshotList) : bool := bool_decide (next (sn_links l) !! sn_head = Some sn_head).
Definition sn_oldest (l : SnapshotList) : option Z := next (sn_links l) !! sn_head.
Definition sn_newest (l : SnapshotList) : option Z := prev (sn_links l) !! sn_head.
Definition sn_sequence_number (l : SnapshotList) (snapshot : Z) : option Z := sn_numbers l !! snapshot.

Definition Snapshot_New (l : SnapshotList) (sequence_number : Z) : option (SnapshotList * Z) :=
  let snapshot := sn_next_address l in
  links ← link_before (sn_links l) sn_head snapshot;
  Some (MkSnapshots links (<[snapshot := sequence_number]> (sn_numbers l)) (snapshot + 1), snapshot).

Definition Snapshot_Delete (l : SnapshotList) (snapshot : Z) : option SnapshotList :=
  links ← unlink (sn_links l) snapshot;
  Some (MkSnapshots links (delete snapshot (sn_numbers l)) (sn_next_address l)).

(** ** What the list promises *)

(** The live snapshots with their numbers, in the order they were taken. *)
Record holds_snapshots (l : SnapshotList) (ss : list (Z * Z)) : Prop := {
  hs_ring : ring (sn_links l) sn_head ss.*1;
  hs_numbers a : sn_numbers l !! a = (list_to_map ss : gmap Z Z) !! a;
  hs_fresh a : a ∈ ss.*1 -> 0 < a < sn_next_address l;
  hs_pos : 0 < sn_next_address l;
  hs_sorted : StronglySorted Z.le ss.*2
}.

Lemma NewSnapshotList_holds : holds_snapshots NewSnapshotList [].
Proof.
  split; cbn; [by apply ring_empty; cbn; rewrite lookup_insert_eq|done|intros a Ha; by apply elem_of_nil in Ha|lia|constructor].
Qed.

Lemma Snapshot_New_ok l ss n :
  holds_snapshots l ss -> (forall m, m ∈ ss.*2 -> m <= n) ->
  exists l' a, Snapshot_New l n = Some (l', a) /\ a ∉ ss.*1 /\ holds_snapshots l' (ss ++ [(a, n)]).
Proof.
  intros [Hr Hn Hf Hp Hs] Hle. unfold Snapshot_New. set (a := sn_next_address l).
  assert (Ha : a ∉ ss.*1) by (intros Hin%Hf; lia).
  destruct (link_before_ring (sn_links l) sn_head a ss.*1 Hr) as (links & -> & Hr' & _).
  { intros [Ha0|Hin]%elem_of_cons; [unfold sn_head, a in *; lia|done]. }
  cbn [mbind option_bind]. eexists _, a. split; [done|]. split; [done|]. split; cbn [sn_links sn_numbers sn_next_address].
  - by rewrite fmap_app.
  - intros b. rewrite list_to_map_app. cbn. rewrite insert_empty, lookup_union. destruct (decide (b = a)) as [->|Hb].
    + rewrite lookup_insert_eq, lookup_singleton_eq. by rewrite (not_elem_of_list_to_map_1 ss a Ha).
    + rewrite lookup_insert_ne, lookup_singleton_ne by done. rewrite Hn. by destruct (_ !! b).
  - intros b. rewrite fmap_app. intros [Hin|Hin]%elem_of_app; [apply Hf in Hin|apply list_elem_of_singleton in Hin as ->]; cbn; unfold a in *; lia.
  - lia.
  - rewrite fmap_app. apply StronglySorted_app. split_and!; [|done|by repeat constructor].
    intros x y Hx ->%list_elem_of_singleton. by apply Hle.
Qed.

Lemma Snapshot_Delete_ok l ss1 a n ss2 :
  holds_snapshots l (ss1 ++ (a, n) :: ss2) -> exists l', Snapshot_Delete l a = Some l' /\ holds_snapshots l' (ss1 ++ ss2).
Proof.
  intros [Hr Hn Hf Hp Hs]. unfold Snapshot_Delete. rewrite !fmap_app in Hr, Hs, Hf. cbn [fmap list_fmap fst snd] in Hr, Hs, Hf.
  destruct (unlink_ring _ _ _ _ _ Hr) as (links & -> & Hr' & _). cbn [mbind option_bind]. eexists. split; [done|].
  assert (Hnd : NoDup (ss1 ++ (a, n) :: ss2).*1) by (rewrite fmap_app; cbn; destruct Hr as [_ Hr]; by apply list.NoDup_cons in Hr as [_ Hr]).
  split; cbn [sn_links sn_numbers sn_next_address].
  - by rewrite fmap_app.
  - intros b. rewrite fmap_app in Hnd. cbn in Hnd. apply list.NoDup_app in Hnd as (_ & Hd & Hnd2).
    apply list.NoDup_cons in Hnd2 as [Ha2 _]. assert (Ha1 : a ∉ ss1.*1) by (intros H; apply (Hd a H); left).
    destruct (decide (b = a)) as [->|Hb].
    + rewrite lookup_delete_eq. symmetry. apply not_elem_of_list_to_map_1. rewrite fmap_app. by intros [H|H]%elem_of_app.
    + rewrite lookup_delete_ne by done. rewrite Hn, !list_to_map_app, !lookup_union. cbn. by rewrite lookup_insert_ne.
  - intros b. rewrite fmap_app. intros [H|H]%elem_of_app; apply Hf, elem_of_app; [by left|right; by right].
  - done.
  - rewrite fmap_app. apply StronglySorted_app in Hs as (H12 & H1 & H2). apply StronglySorted_cons in H2 as [_ H2].
    apply StronglySorted_app. split_and!; [|done..]. intros x y Hx Hy. apply H12; [done|by right].
Qed.

Lemma sn_empty_ok l ss : holds_snapshots l ss -> sn_empty l = bool_decide (ss = []).
Proof.
  intros [Hr _ Hf _ _]. unfold sn_empty. apply bool_decide_ext. rewrite (ring_next _ _ _ Hr). destruct ss as [|[a n] ss]; cbn; [done|].
  split; [|done]. intros [= Ha]. assert (0 < a) by (apply (Hf a); left). unfold sn_head in Ha. lia.
Qed.

Lemma sn_oldest_ok l a n ss : holds_snapshots l ((a, n) :: ss) ->
  sn_oldest l = Some a /\ sn_sequence_number l a = Some n /\ forall m, m ∈ (n :: ss.*2) -> n <= m.
Proof.
  intros [Hr Hn _ _ Hs]. split; [by apply (ring_next _ _ _ Hr)|]. split; [unfold sn_sequence_number; rewrite Hn; cbn; by rewrite lookup_insert_eq|].
  cbn in Hs. apply StronglySorted_cons in Hs as [Hs _]. intros m [->|Hm]%elem_of_cons; [lia|].
  by apply (proj1 (list.Forall_forall _ _) Hs).
Qed.

Lemma sn_newest_ok l ss a n : holds_snapshots l (ss ++ [(a, n)]) -> sn_newest l = Some a /\ sn_sequence_number l a = Some n.
Proof.
  intros [Hr Hn _ _ _]. split.
  - unfold sn_newest. rewrite (ring_prev _ _ _ Hr), fmap_app. cbn. by rewrite last_snoc.
  - unfold sn_sequence_number. rewrite Hn. rewrite list_to_map_app, lookup_union. cbn. rewrite lookup_insert_eq.
    destruct Hr as [_ Hr]. apply list.NoDup_cons in Hr as [_ Hr]. rewrite fmap_app in Hr. cbn in Hr. apply list.NoDup_app in Hr as (_ & Hd & _).
    rewrite (not_elem_of_list_to_map_1 ss a); [done|]. intros H. apply (Hd a H). left.
Qed.

(** ** Histories *)

(** A snapshot is released by its position among the live ones. *)
Inductive snapshot_op := TakeSnapshot (sequence_number : Z) | DropSnapshot (i : nat).

(** The list and the live snapshots. *)
Fixpoint snapshot_run (l : SnapshotList) (live : list (Z * Z)) (ops : list snapshot_op) : option (SnapshotList * list (Z * Z)) :=
  match ops with
  | [] => Some (l, live)
  | TakeSnapshot n :: ops => p ← Snapshot_New l n; snapshot_run p.1 (live ++ [(p.2, n)]) ops
  | DropSnapshot i :: ops => p ← live !! i; l ← Snapshot_Delete l p.1; snapshot_run l (delete i live) ops
  end.

(** What the clients and the counter of sequence numbers see to: numbers do not decrease,
    and only live snapshots are released. *)
Fixpoint snapshot_history (n : Z) (count : nat) (ops : list snapshot_op) : Prop :=
  match ops with
  | [] => True
  | TakeSnapshot m :: ops => n <= m /\ snapshot_history m (S count) ops
  | DropSnapshot i :: ops => (i < count)%nat /\ snapshot_history n (pred count) ops
  end.

Lemma snapshot_run_holds ops : forall l live n,
  holds_snapshots l live -> (forall m, m ∈ live.*2 -> m <= n) -> snapshot_history n (length live) ops ->
  exists l' live', snapshot_run l live ops = Some (l', live') /\ holds_snapshots l' live'.
Proof.
  induction ops as [|op ops IH]; intros l live n Hl Hle Hh; [by exists l, live|]. destruct op as [m|i]; cbn in Hh |- *; destruct Hh as [H1 Hh].
  - assert (Hm : forall k, k ∈ live.*2 -> k <= m) by (intros k Hk%Hle; lia).
    destruct (Snapshot_New_ok l live m Hl Hm) as (l' & a & -> & _ & Hl'). apply (IH _ _ m Hl').
    + intros k. rewrite fmap_app. cbn. intros [Hk|Hk]%elem_of_app; [by apply Hm|]. apply list_elem_of_singleton in Hk as ->. lia.
    + rewrite length_app. cbn. by rewrite Nat.add_1_r.
  - apply lookup_lt_is_Some_2 in H1 as [[a k] Hi]. rewrite Hi. cbn [mbind option_bind].
    pose proof (take_drop_middle _ _ _ Hi) as Ht. rewrite <- Ht in Hl. destruct (Snapshot_Delete_ok _ _ _ _ _ Hl) as (l' & E & Hl').
    cbn [fst]. rewrite E. cbn [mbind option_bind]. rewrite delete_take_drop. apply (IH _ _ n Hl').
    + intros x. rewrite fmap_app. intros Hx. apply Hle. rewrite <- Ht, fmap_app. apply elem_of_app in Hx as [Hx|Hx]; apply elem_of_app; [by left|right; by right].
    + replace (length (take i live ++ drop (S i) live)) with (pred (length live)); [done|].
      apply lookup_lt_Some in Hi. rewrite length_app, length_take, length_drop. lia.
Qed.

(** The list of snapshots tells compaction what it may drop.  After any history of
    taken and released snapshots with sequence numbers that do not decrease, the ring in
    memory is empty exactly when no snapshot is live, and else [oldest()] is a live
    snapshot whose number no live snapshot is below; every live snapshot keeps its
    number. *)
Lemma oldest_snapshot_is_least (ops : list snapshot_op) :
  snapshot_history 0 0 ops ->
  exists l live, snapshot_run NewSnapshotList [] ops = Some (l, live) /\
    sn_empty l = bool_decide (live = []) /\
    (forall a n, (a, n) ∈ live -> sn_sequence_number l a = Some n) /\
    (live <> [] -> exists a n, sn_oldest l = Some a /\ (a, n) ∈ live /\ forall m, m ∈ live.*2 -> n <= m).
Proof.
  intros Hh. destruct (snapshot_run_holds ops NewSnapshotList [] 0 NewSnapshotList_holds) as (l & live & E & Hl); [by intros m []%elem_of_nil|done|].
  exists l, live. split; [done|]. split; [by apply sn_empty_ok|]. split.
  - intros a n Hin. unfold sn_sequence_number. rewrite (hs_numbers _ _ Hl). apply elem_of_list_to_map; [|done].
    destruct (hs_ring _ _ Hl) as [_ Hnd]. by apply list.NoDup_cons in Hnd as [_ Hnd].
  - destruct live as [|[a n] live]; [done|]. intros _. destruct (sn_oldest_ok _ _ _ _ Hl) as (Ho & _ & Hm).
    exists a, n. split; [done|]. split; [left|]. exact Hm.
Qed.

Definition example_history : list snapshot_op :=
  [TakeSnapshot 5; TakeSnapshot 7; TakeSnapshot 7; DropSnapshot 0; TakeSnapshot 9; DropSnapshot 1].

Lemma oldest_snapshot_is_least_witness :
  exists l live, snapshot_run NewSnapshotList [] example_history = Some (l, live) /\
    sn_empty l = bool_decide (live = []) /\
    (forall a n, (a, n) ∈ live -> sn_sequence_number l a = Some n) /\
    (live <> [] -> exists a n, sn_oldest l = Some a /\ (a, n) ∈ live /\ forall m, m ∈ live.*2 -> n <= m).
Proof. apply (oldest_snapshot_is_least example_history). cbn. lia. Defined.
