(* ===== verification/HandleTable.v ===== *)
(** * The hash table of the cache

    [HandleTable] of [cpp/leveldb/util/cache.cc]: buckets that are linked lists of entries
    through their field [next_hash].  The entries themselves belong to the cache; the table
    reads the key and the hash of the entry at an address. *)
From stdpp Require Import gmap.
From S2P Require Import Prelude.

Record HandleTable := MkHandleTable {
  ht_length : Z;
  ht_elems : Z;
  ht_list : list (option Z);
  ht_next_hash : gmap Z (option Z)
}.

(** What a [LRUHandle**] points to. *)
Inductive Slot := Bucket (i : nat) | NextOf (a : Z).

Definition read_slot (t : HandleTable) (s : Slot) : option (option Z) :=
  match s with Bucket i => ht_list t !! i | NextOf a => ht_next_hash t !! a end.

Definition set_next_hash (t : HandleTable) (a : Z) (p : option Z) : HandleTable :=
  MkHandleTable (ht_length t) (ht_elems t) (ht_list t) (<[a := p]> (ht_next_hash t)).

Definition write_slot (t : HandleTable) (s : Slot) (p : option Z) : HandleTable :=
  match s with
  | Bucket i => MkHandleTable (ht_length t) (ht_elems t) (<[i := p]> (ht_list t)) (ht_next_hash t)
  | NextOf a => set_next_hash t a p
  end.

Definition set_elems (t : HandleTable) (n : Z) : HandleTable := MkHandleTable (ht_length t) n (ht_list t) (ht_next_hash t).

Definition bucket_of (length hash : Z) : nat := Z.to_nat (Z.land hash (u32 (length - 1))).

Section table.
(** The key and the hash of an entry. *)
Context (kh : Z -> option (bytes * Z)).

(** The loop of [FindPointer]. *)
Fixpoint find_loop (fuel : nat) (t : HandleTable) (key : bytes) (hash : Z) (ptr : Slot) : option Slot :=
  p ← read_slot t ptr;
  match p with
  | None => Some ptr
  | Some a =>
      h ← kh a;
      if negb (h.2 =? hash) || negb (bool_decide (key = h.1)) then
        match fuel with O => None | S fuel => find_loop fuel t key hash (NextOf a) end
      else Some ptr
  end.

(** No list is longer than there are entries. *)
Definition FindPointer (t : HandleTable) (key : bytes) (hash : Z) : option Slot :=
  find_loop (base.size (ht_next_hash t)) t key hash (Bucket (bucket_of (ht_length t) hash)).

Definition ht_Lookup (t : HandleTable) (key : bytes) (hash : Z) : option (option Z) :=
  ptr ← FindPointer t key hash; read_slot t ptr.

(** The length after [n] doublings at most; it does not get there with more than [2 ^ 31]
    entries. *)
Fixpoint new_length_loop (fuel : nat) (new_length elems : Z) : option Z :=
  if new_length <? elems then
    match fuel with O => None | S fuel => new_length_loop fuel (u32 (new_length * 2)) elems end
  else Some new_length.

(** The lists are taken apart, and each entry goes to the front of its new one. *)
Fixpoint move_list (fuel : nat) (new_length : Z) (new_list : list (option Z)) (nh : gmap Z (option Z)) (p : option Z)
    : option (list (option Z) * gmap Z (option Z)) :=
  match p, fuel with
  | None, _ => Some (new_list, nh)
  | Some _, O => None
  | Some h, S fuel =>
      next ← nh !! h;
      k ← kh h;
      let i := bucket_of new_length k.2 in
      q ← new_list !! i;
      move_list fuel new_length (<[i := Some h]> new_list) (<[h := q]> nh) next
  end.

Fixpoint move_lists (fuel : nat) (new_length : Z) (new_list : list (option Z)) (nh : gmap Z (option Z)) (old : list (option Z))
    : option (list (option Z) * gmap Z (option Z)) :=
  match old with
  | [] => Some (new_list, nh)
  | p :: old =>
      r ← move_list fuel new_length new_list nh p;
      move_lists fuel new_length r.1 r.2 old
  end.

Definition Resize (t : HandleTable) : option HandleTable :=
  new_length ← new_length_loop 32 4 (ht_elems t);
  r ← move_lists (base.size (ht_next_hash t)) new_length (replicate (Z.to_nat new_length) None) (ht_next_hash t) (ht_list t);
  Some (MkHandleTable new_length (ht_elems t) r.1 r.2).

Definition NewHandleTable : option HandleTable := Resize (MkHandleTable 0 0 [] ∅).

Definition ht_Insert (t : HandleTable) (h : Z) : option (HandleTable * option Z) :=
  k ← kh h;
  ptr ← FindPointer t k.1 k.2;
  old ← read_slot t ptr;
  next ← match old with None => Some None | Some o => ht_next_hash t !! o end;
  let t := write_slot (set_next_hash t h next) ptr (Some h) in
  match old with
  | Some _ => Some (t, old)
  | None =>
      let t := set_elems t (u32 (ht_elems t + 1)) in
      if ht_elems t >? ht_length t then t ← Resize t; Some (t, old) else Some (t, old)
  end.

Definition ht_Remove (t : HandleTable) (key : bytes) (hash : Z) : option (HandleTable * option Z) :=
  ptr ← FindPointer t key hash;
  result ← read_slot t ptr;
  match result with
  | None => Some (t, None)
  | Some h =>
      next ← ht_next_hash t !! h;
      Some (set_elems (write_slot t ptr next) (u32 (ht_elems t - 1)), Some h)
  end.
End table.

(** ** What the table promises *)

(** The list of entries that starts at [p]. *)
Fixpoint hchain (nh : gmap Z (option Z)) (p : option Z) (l : list Z) : Prop :=
  match l with
  | [] => p = None
  | a :: l => p = Some a /\ exists q, nh !! a = Some q /\ hchain nh q l
  end.

Definition chains (nh : gmap Z (option Z)) (L : list (option Z)) (B : list (list Z)) : Prop :=
  length L = length B /\ forall i b, B !! i = Some b -> exists p, L !! i = Some p /\ hchain nh p b.

(** The entries lie in the buckets of their hashes. *)
Definition placed (kh : Z -> option (bytes * Z)) (length : Z) (B : list (list Z)) : Prop :=
  forall i b a, B !! i = Some b -> a ∈ b -> exists k, kh a = Some k /\ bucket_of length k.2 = i.

Record table_wf (kh : Z -> option (bytes * Z)) (t : HandleTable) (B : list (list Z)) : Prop := {
  to_length : ht_length t = Z.of_nat (length B);
  to_power : exists k, 2 <= k <= 31 /\ ht_length t = 2 ^ k;
  to_chains : chains (ht_next_hash t) (ht_list t) B;
  to_placed : placed kh (ht_length t) B;
  to_nodup : NoDup (concat B);
  to_elems : ht_elems t = Z.of_nat (length (concat B)) /\ ht_elems t < 2 ^ 31
}.

Lemma concat_delete {A} (B : list (list A)) i b : B !! i = Some b -> concat B ≡ₚ b ++ concat (delete i B).
Proof.
  revert i. induction B as [|x B IH]; intros [|i] H; cbn in *; [done..|by injection H as ->|]. rewrite (IH i H) at 1.
  by rewrite !app_assoc, (Permutation_app_comm x b).
Qed.

Lemma concat_insert {A} (B : list (list A)) i b b' : B !! i = Some b -> concat (<[i := b']> B) ≡ₚ b' ++ concat (delete i B).
Proof.
  revert i. induction B as [|x B IH]; intros [|i] H; cbn in *; [done..|]. rewrite (IH i H). by rewrite !app_assoc, (Permutation_app_comm x b').
Qed.

Lemma bucket_lt k hash : 2 <= k <= 31 -> (bucket_of (2 ^ k) hash < Z.to_nat (2 ^ k))%nat.
Proof.
  intros Hk. unfold bucket_of. assert (Hp : 0 < 2 ^ k < 2 ^ 32) by (split; [lia|apply Z.pow_lt_mono_r; lia]).
  rewrite wrap_id by (unfold fits; lia). rewrite land_ones_mod by lia.
  pose proof (Z.mod_pos_bound hash (2 ^ k)). lia.
Qed.

Lemma hchain_frame nh nh' p l : (forall a, a ∈ l -> nh' !! a = nh !! a) -> hchain nh p l -> hchain nh' p l.
Proof.
  revert p. induction l as [|a l IH]; intros p H; cbn; [done|]. intros (-> & q & Hq & Hl). split; [done|]. exists q. split; [by rewrite H by left|].
  apply IH; [|done]. intros b Hb. apply H. by right.
Qed.

Lemma chains_frame nh nh' L B : (forall a, a ∈ concat B -> nh' !! a = nh !! a) -> chains nh L B -> chains nh' L B.
Proof.
  intros H [Hl Hc]. split; [done|]. intros i b Hb. destruct (Hc i b Hb) as (p & Hp & Hch). exists p. split; [done|].
  eapply hchain_frame; [|exact Hch]. intros a Ha. apply H. rewrite (concat_delete _ _ _ Hb). apply elem_of_app. by left.
Qed.

Lemma chains_insert nh L B i p b : chains nh L B -> hchain nh p b -> chains nh (<[i := p]> L) (<[i := b]> B).
Proof.
  intros [Hl Hc] Hp. split; [by rewrite !length_insert|]. intros j c Hj. destruct (decide (i = j)) as [<-|Hne].
  - assert (Hlt : (i < length B)%nat) by (apply lookup_lt_Some in Hj; by rewrite length_insert in Hj).
    rewrite list_lookup_insert_eq in Hj by done. injection Hj as <-. exists p. rewrite list_lookup_insert_eq by lia. done.
  - rewrite list_lookup_insert_ne in Hj by done. destruct (Hc j c Hj) as (q & Hq & Hch). exists q. by rewrite list_lookup_insert_ne.
Qed.

(** ** Finding an entry *)

Section lookup.
Context (kh : Z -> option (bytes * Z)).

Definition matches (key : bytes) (hash : Z) (a : Z) : Prop := kh a = Some (key, hash).

(** The slot at the end of [l1], a list that starts in [s]. *)
Definition slot_after (s : Slot) (l1 : list Z) : Slot := match list.last l1 with None => s | Some a => NextOf a end.

Lemma find_loop_ok t key hash l : forall fuel s p,
  read_slot t s = Some p -> hchain (ht_next_hash t) p l -> (forall a, a ∈ l -> is_Some (kh a)) -> (length l <= fuel)%nat ->
  exists l1 l2, l = l1 ++ l2 /\ find_loop kh fuel t key hash s = Some (slot_after s l1) /\
    read_slot t (slot_after s l1) = Some (head l2) /\ hchain (ht_next_hash t) (head l2) l2 /\
    (forall a, a ∈ l1 -> ~ matches key hash a) /\ (forall a, head l2 = Some a -> matches key hash a).
Proof.
  induction l as [|a l IH]; intros fuel s p Hs Hc Hk Hf.
  - cbn in Hc. subst p. exists [], []. destruct fuel; cbn; rewrite Hs; cbn; split_and!; try done; intros a Ha; by apply elem_of_nil in Ha.
  - destruct Hc as (-> & q & Hq & Hc). destruct (Hk a) as [[k h] Ha]; [left|]. cbn [length] in Hf. destruct fuel as [|fuel]; [lia|].
    assert (Ef : find_loop kh (S fuel) t key hash s = if negb (h =? hash) || negb (bool_decide (key = k)) then find_loop kh fuel t key hash (NextOf a) else Some s).
    { cbn [find_loop]. rewrite Hs. cbn [mbind option_bind]. by rewrite Ha. }
    rewrite Ef. destruct (negb (h =? hash) || negb (bool_decide (key = k))) eqn:Em.
    + destruct (IH fuel (NextOf a) q) as (l1 & l2 & -> & E1 & E2 & E3 & E4 & E5); [done|done|intros b Hb; apply Hk; by right|lia|].
      assert (Esl : slot_after s (a :: l1) = slot_after (NextOf a) l1) by (unfold slot_after; by destruct l1 as [|x l1 _] using rev_ind; [|rewrite app_comm_cons, !last_snoc]).
      exists (a :: l1), l2. rewrite Esl. split_and!; try done. intros b [->|Hb]%elem_of_cons; [|by apply E4]. unfold matches. rewrite Ha. intros [= -> ->].
      rewrite Z.eqb_refl, bool_decide_eq_true_2 in Em by done. done.
    + exists [], (a :: l). cbn. rewrite Hs. split_and!; try done; [by exists q|intros b Hb; by apply elem_of_nil in Hb|].
      intros b [= <-]. unfold matches. rewrite Ha. apply orb_false_elim in Em as [H1%negb_false_iff%Z.eqb_eq H2%negb_false_iff%bool_decide_eq_true]. by subst.
Qed.

Lemma chain_dom nh p l : hchain nh p l -> forall a, a ∈ l -> is_Some (nh !! a).
Proof.
  revert p. induction l as [|a l IH]; intros p; cbn; [intros _ a Ha; by apply elem_of_nil in Ha|]. intros (-> & q & Hq & Hl) b [->|Hb]%elem_of_cons; [by exists q|by apply (IH q)].
Qed.

Lemma chain_length nh p l : hchain nh p l -> NoDup l -> (length l <= base.size nh)%nat.
Proof.
  intros Hc Hn. rewrite <- size_dom, <- (size_list_to_set (C := gset Z)) by done. apply subseteq_size. intros a Ha%elem_of_list_to_set.
  apply elem_of_dom. by apply (chain_dom _ _ _ Hc).
Qed.

Context (t : HandleTable) (B : list (list Z)) (Hok : table_wf kh t B).

Lemma bucket_exists hash : exists b, B !! bucket_of (ht_length t) hash = Some b.
Proof.
  destruct Hok as [Hl (k & Hk & Ek) _ _ _ _]. pose proof (bucket_lt k hash Hk) as Hb. rewrite Ek in *.
  apply lookup_lt_is_Some. lia.
Qed.

(** The bucket of a key, taken apart where the key is. *)
Lemma FindPointer_ok key hash : exists b l1 l2,
  let i := bucket_of (ht_length t) hash in
  B !! i = Some b /\ b = l1 ++ l2 /\ FindPointer kh t key hash = Some (slot_after (Bucket i) l1) /\
  read_slot t (slot_after (Bucket i) l1) = Some (head l2) /\ hchain (ht_next_hash t) (head l2) l2 /\
  (forall a, a ∈ l1 -> ~ matches key hash a) /\ (forall a, head l2 = Some a -> matches key hash a) /\
  (forall a, matches key hash a -> a ∈ concat B -> a ∈ b).
Proof.
  destruct (bucket_exists hash) as [b Hb]. destruct Hok as [Hl _ [Hlen Hc] Hpl Hnd _]. destruct (Hc _ _ Hb) as (p & Hp & Hch).
  destruct (find_loop_ok t key hash b (base.size (ht_next_hash t)) (Bucket (bucket_of (ht_length t) hash)) p) as (l1 & l2 & E0 & E1 & E2 & E3 & E4 & E5); [done|done| | |].
  - intros a Ha. destruct (Hpl _ _ _ Hb Ha) as (k & Hk & _). by exists k.
  - apply (chain_length _ p); [done|]. rewrite (concat_delete _ _ _ Hb) in Hnd. by apply list.NoDup_app in Hnd as [Hnd _].
  - exists b, l1, l2. cbv zeta. split_and!; try done. intros a Ha Hin. apply list_elem_of_In, in_concat in Hin as (b' & Hb' & Hin%list_elem_of_In).
    apply list_elem_of_In, list_elem_of_lookup in Hb' as [j Hj]. destruct (Hpl _ _ _ Hj Hin) as (k & Hk & Hj'). unfold matches in Ha. rewrite Ha in Hk. injection Hk as <-.
    cbn in Hj'. subst j. rewrite Hb in Hj. by injection Hj as ->.
Qed.
End lookup.

(** ** Writing through a slot *)

Lemma elem_concat_delete {A} (B : list (list A)) i j c x : i <> j -> B !! j = Some c -> x ∈ c -> x ∈ concat (delete i B).
Proof.
  revert i j. induction B as [|b B IH]; intros [|i] [|j] Hij Hj Hx; cbn in *; try done.
  - apply list_elem_of_In, in_concat. exists c. split; [|by apply list_elem_of_In]. by apply list_elem_of_In, (list_elem_of_lookup_2 _ j).
  - injection Hj as ->. apply elem_of_app. by left.
  - apply elem_of_app. right. by apply (IH i j); [congruence|done|done].
Qed.

Lemma bucket_disjoint {A} (B : list (list A)) i j b c x :
  NoDup (concat B) -> B !! i = Some b -> B !! j = Some c -> i <> j -> x ∈ b -> x ∉ c.
Proof.
  intros Hn Hb Hc Hij Hx Hx'. rewrite (concat_delete _ _ _ Hb) in Hn. apply list.NoDup_app in Hn as (_ & Hd & _).
  by apply (Hd x Hx), (elem_concat_delete _ _ j c).
Qed.

Lemma hchain_replace nh p l1 x l2 p' l2' :
  hchain nh p (l1 ++ x :: l2) -> x ∉ l1 -> x ∉ l2' -> hchain nh p' l2' -> hchain (<[x := p']> nh) p (l1 ++ x :: l2').
Proof.
  revert p. induction l1 as [|a l1 IH]; intros p; cbn.
  - intros (-> & q & _) _ Hx H. split; [done|]. exists p'. split; [by rewrite lookup_insert_eq|].
    eapply hchain_frame; [|exact H]. intros b Hb. rewrite lookup_insert_ne; [done|]. by intros ->.
  - intros (-> & q & Hq & Hc) [Hxa Hx1]%not_elem_of_cons Hx2 H. split; [done|]. exists q. rewrite lookup_insert_ne by done. split; [done|]. by apply IH.
Qed.

Lemma slot_after_snoc s l1 x : slot_after s (l1 ++ [x]) = NextOf x.
Proof. unfold slot_after. by rewrite last_snoc. Qed.

Lemma write_slot_length t s p : ht_length (write_slot t s p) = ht_length t /\ ht_elems (write_slot t s p) = ht_elems t.
Proof. by destruct s. Qed.

Lemma write_slot_chains t B i l1 l2 p' l2' :
  chains (ht_next_hash t) (ht_list t) B -> NoDup (concat B) -> B !! i = Some (l1 ++ l2) ->
  hchain (ht_next_hash t) p' l2' -> (forall a, a ∈ l1 -> a ∉ l2') ->
  let t' := write_slot t (slot_after (Bucket i) l1) p' in
  chains (ht_next_hash t') (ht_list t') (<[i := l1 ++ l2']> B).
Proof.
  intros Hc Hn Hb Hp Hd. destruct l1 as [|x l1 _] using rev_ind; [by apply chains_insert|]. rewrite slot_after_snoc. cbn [write_slot set_next_hash ht_list ht_next_hash].
  destruct Hc as [Hl Hc]. split; [by rewrite length_insert|]. assert (Hx : x ∈ (l1 ++ [x]) ++ l2) by (rewrite !elem_of_app; left; right; by left).
  intros j c Hj. destruct (decide (i = j)) as [<-|Hij].
  - rewrite list_lookup_insert_eq in Hj by (by apply lookup_lt_Some in Hb). injection Hj as <-. destruct (Hc i _ Hb) as (p & Hpp & Hch). exists p. split; [done|].
    rewrite <- app_assoc in *. apply hchain_replace with (l2 := l2); [exact Hch| |apply Hd; apply elem_of_app; right; by left|exact Hp].
    rewrite (concat_delete _ _ _ Hb) in Hn. apply list.NoDup_app in Hn as [Hn _]. apply list.NoDup_app in Hn as (_ & Hdis & _). intros Hin. apply (Hdis x Hin). by left.
  - rewrite list_lookup_insert_ne in Hj by done. destruct (Hc j c Hj) as (p & Hpp & Hch). exists p. split; [done|].
    eapply hchain_frame; [|exact Hch]. intros a Ha. rewrite lookup_insert_ne; [done|]. intros <-. by apply (bucket_disjoint B i j _ c x Hn Hb Hj Hij).
Qed.

Lemma placed_insert kh len B i b : placed kh len B -> (i < length B)%nat ->
  (forall a, a ∈ b -> exists k, kh a = Some k /\ bucket_of len k.2 = i) -> placed kh len (<[i := b]> B).
Proof.
  intros Hp Hi Hb j c a Hj Ha. destruct (decide (i = j)) as [<-|Hij].
  - rewrite list_lookup_insert_eq in Hj by done. injection Hj as <-. by apply Hb.
  - rewrite list_lookup_insert_ne in Hj by done. by apply (Hp j c).
Qed.

(** ** Resizing *)

Section resize.
Context (kh : Z -> option (bytes * Z)) (k : Z) (Hk : 2 <= k <= 31).

Lemma move_list_ok fuel : forall L nh B p l rest,
  chains nh L B -> placed kh (2 ^ k) B -> length B = Z.to_nat (2 ^ k) -> hchain nh p l ->
  NoDup (concat B ++ l ++ rest) -> (forall a, a ∈ l -> is_Some (kh a)) -> (length l <= fuel)%nat ->
  exists L' nh' B', move_list kh fuel (2 ^ k) L nh p = Some (L', nh') /\ chains nh' L' B' /\ placed kh (2 ^ k) B' /\
    length B' = Z.to_nat (2 ^ k) /\ concat B' ≡ₚ concat B ++ l /\ base.size nh' = base.size nh /\ forall a, a ∉ concat B' -> nh' !! a = nh !! a.
Proof.
  induction fuel as [|fuel IH]; intros L nh B p l rest Hc Hp Hlen Hl Hn Hkh Hf.
  - destruct l; [|cbn in Hf; lia]. cbn in Hl. subst p. exists L, nh, B. by rewrite app_nil_r.
  - destruct l as [|a l]; [cbn in Hl; subst p; exists L, nh, B; by rewrite app_nil_r|]. destruct Hl as (-> & q & Hq & Hl). destruct (Hkh a) as [[key hash] Ha]; [left|].
    set (i := bucket_of (2 ^ k) hash). assert (Hi : (i < length B)%nat) by (rewrite Hlen; by apply bucket_lt). destruct (lookup_lt_is_Some_2 B i Hi) as [b Hb].
    pose proof Hc as [_ Hc2]. destruct (Hc2 i b Hb) as (pb & Hpb & Hcb).
    assert (Han : a ∉ concat B /\ a ∉ l).
    { apply list.NoDup_app in Hn as (_ & Hd & Hn). cbn in Hn. apply list.NoDup_cons in Hn as [Ha' _]. split; [intros Hin; apply (Hd a Hin); left|intros Hin; apply Ha', elem_of_app; by left]. }
    destruct Han as [HaB Hal]. assert (Hnh : forall c, c <> a -> <[a := pb]> nh !! c = nh !! c) by (intros; by rewrite lookup_insert_ne).
    assert (Hc' : chains (<[a := pb]> nh) (<[i := Some a]> L) (<[i := a :: b]> B)).
    { apply chains_insert; [eapply chains_frame; [|exact Hc]; intros c Hcc; apply Hnh; by intros ->|]. split; [done|]. exists pb. split; [by rewrite lookup_insert_eq|].
      eapply hchain_frame; [|exact Hcb]. intros c Hcc. apply Hnh. intros ->. apply HaB. rewrite (concat_delete _ _ _ Hb). apply elem_of_app. by left. }
    assert (Hperm : concat (<[i := a :: b]> B) ≡ₚ a :: concat B) by (rewrite (concat_insert _ _ _ _ Hb), (concat_delete _ _ _ Hb); done).
    destruct (IH (<[i := Some a]> L) (<[a := pb]> nh) (<[i := a :: b]> B) q l rest) as (L' & nh' & B' & E1 & E2 & E3 & E4 & E5 & E6 & E7).
    + done.
    + apply placed_insert; [done|done|]. intros c [->|Hcc]%elem_of_cons; [by exists (key, hash)|by apply (Hp i b)].
    + by rewrite length_insert.
    + eapply hchain_frame; [|exact Hl]. intros c Hcc. apply Hnh. by intros ->.
    + rewrite Hperm. cbn [app]. rewrite Permutation_middle. exact Hn.
    + intros c Hcc. apply Hkh. by right.
    + cbn in Hf. lia.
    + exists L', nh', B'. split_and!; try done.
      * cbn [move_list]. rewrite Hq. cbn [mbind option_bind]. rewrite Ha. cbn [mbind option_bind snd]. fold i. rewrite Hpb. exact E1.
      * rewrite E5, Hperm. cbn. by rewrite <- Permutation_middle.
      * rewrite E6. rewrite map_size_insert_Some; [done|]. by exists q.
      * intros c Hcc. rewrite E7 by done. apply Hnh. intros ->. apply Hcc. rewrite E5, Hperm. left.
Qed.

Lemma move_lists_ok fuel (B0 : list (list Z)) : forall L nh B old,
  chains nh L B -> placed kh (2 ^ k) B -> length B = Z.to_nat (2 ^ k) -> chains nh old B0 ->
  NoDup (concat B ++ concat B0) -> (forall a, a ∈ concat B0 -> is_Some (kh a)) -> (base.size nh <= fuel)%nat ->
  exists L' nh' B', move_lists kh fuel (2 ^ k) L nh old = Some (L', nh') /\ chains nh' L' B' /\ placed kh (2 ^ k) B' /\
    length B' = Z.to_nat (2 ^ k) /\ concat B' ≡ₚ concat B ++ concat B0.
Proof.
  induction B0 as [|b B0 IH]; intros L nh B old Hc Hp Hlen Ho Hn Hkh Hf.
  - destruct Ho as [Ho _]. destruct old; [|done]. exists L, nh, B. by rewrite app_nil_r.
  - pose proof Ho as [Hol Hoc]. destruct old as [|p old]; [done|]. destruct (Hoc 0%nat b eq_refl) as (p0 & [= <-] & Hb). cbn [concat] in *.
    pose proof Hn as Hn'. apply list.NoDup_app in Hn' as (_ & _ & Hn2). apply list.NoDup_app in Hn2 as (Hnb & Hbd & Hn0).
    destruct (move_list_ok fuel L nh B p b (concat B0)) as (L1 & nh1 & B1 & E1 & E2 & E3 & E4 & E5 & E6 & E7); try done.
    { intros a Ha. apply Hkh, elem_of_app. by left. } { pose proof (chain_length _ _ _ Hb Hnb). lia. }
    assert (Hn1 : NoDup (concat B1 ++ concat B0)) by (rewrite E5, <- app_assoc; exact Hn).
    destruct (IH L1 nh1 B1 old) as (L' & nh' & B' & F1 & F2 & F3 & F4 & F5); try done.
    + apply (chains_frame nh). { intros a Ha. apply E7. intros Ha1. apply list.NoDup_app in Hn1 as (_ & Hd & _). by apply (Hd a). }
      split; [by injection Hol|]. intros i c Hi. apply (Hoc (S i) c Hi).
    + intros a Ha. apply Hkh, elem_of_app. by right.
    + lia.
    + exists L', nh', B'. split_and!; try done; [cbn [move_lists]; rewrite E1; exact F1|]. by rewrite F5, E5, <- app_assoc.
Qed.
End resize.

Lemma new_length_ok elems fuel : forall k, 2 <= k -> k + Z.of_nat fuel = 31 -> elems <= 2 ^ 31 ->
  exists j, k <= j <= 31 /\ new_length_loop fuel (2 ^ k) elems = Some (2 ^ j) /\ elems <= 2 ^ j.
Proof.
  induction fuel as [|fuel IH]; intros k Hk Hf He; cbn [new_length_loop].
  - assert (k = 31) as -> by lia. exists 31. destruct (Z.ltb_spec (2 ^ 31) elems); [lia|]. split; [lia|done].
  - destruct (Z.ltb_spec (2 ^ k) elems); [|exists k; by split; [lia|]].
    replace (u32 (2 ^ k * 2)) with (2 ^ (k + 1)).
    + destruct (IH (k + 1)) as (j & Hj & E1 & E2); [lia..|]. exists j. split; [lia|done].
    + rewrite Z.pow_add_r by lia. change (2 ^ 1) with 2. rewrite wrap_id; [done|]. assert (0 < 2 ^ k) by lia. assert (2 ^ k < 2 ^ 31) by (apply Z.pow_lt_mono_r; lia). unfold fits. lia.
Qed.

(** ** The operations *)

(** The table has exactly these entries, of different keys. *)
Definition table_holds (kh : Z -> option (bytes * Z)) (t : HandleTable) (es : list Z) : Prop :=
  exists B, table_wf kh t B /\ concat B ≡ₚ es /\ (forall a b, a ∈ es -> b ∈ es -> kh a = kh b -> a = b).

(** Only the keys and hashes of its entries matter to it. *)
Lemma table_holds_kh kh kh' t es : (forall a, a ∈ es -> kh' a = kh a) -> table_holds kh t es -> table_holds kh' t es.
Proof.
  intros Hkh (B & [H1 H2 H3 H4 H5 H6] & Hp & Hd). exists B. split; [|split; [done|]].
  - split; try done. intros i b a Hb Ha. destruct (H4 i b a Hb Ha) as (k & Hk & Hi). exists k. split; [|done]. rewrite Hkh; [done|].
    rewrite <- Hp, (concat_delete _ _ _ Hb). apply elem_of_app. by left.
  - intros a b Ha Hb. rewrite !Hkh by done. by apply Hd.
Qed.

Lemma table_holds_perm kh t es es' : es ≡ₚ es' -> table_holds kh t es -> table_holds kh t es'.
Proof. intros Hp (B & H1 & H2 & H3). exists B. split; [done|]. split; [by rewrite H2|]. intros a b. rewrite <- Hp. apply H3. Qed.

Lemma table_holds_nodup kh t es : table_holds kh t es -> NoDup es.
Proof. intros (B & [_ _ _ _ Hn _] & Hp & _). by rewrite <- Hp. Qed.

Lemma Resize_ok kh t B B0 :
  chains (ht_next_hash t) (ht_list t) B0 -> NoDup (concat B0) -> (forall a, a ∈ concat B0 -> is_Some (kh a)) ->
  ht_elems t = Z.of_nat (length (concat B0)) -> ht_elems t < 2 ^ 31 -> B = concat B0 ->
  exists t' B', Resize kh t = Some t' /\ table_wf kh t' B' /\ concat B' ≡ₚ B.
Proof.
  intros Hc Hn Hkh He Hlt ->. destruct (new_length_ok (ht_elems t) 29 2) as (k & Hk & Ek & Hle); [lia..|].
  assert (El : new_length_loop 32 4 (ht_elems t) = Some (2 ^ k)).
  { assert (Hmono : forall f n x, new_length_loop f n (ht_elems t) = Some x -> forall f', (f <= f')%nat -> new_length_loop f' n (ht_elems t) = Some x).
    { induction f as [|f IHf]; intros n x; cbn [new_length_loop].
      - destruct (n <? ht_elems t) eqn:Ec; [done|]. intros Hx [|f'] _; cbn [new_length_loop]; by rewrite Ec.
      - destruct (n <? ht_elems t) eqn:Ec; intros Hx [|f'] Hf'; cbn [new_length_loop]; rewrite ?Ec; try done; [lia|]. apply IHf; [done|lia]. }
    apply (Hmono 29%nat 4 (2 ^ k) Ek). lia. }
  unfold Resize. rewrite El. cbn [mbind option_bind].
  assert (Hnil : forall n, concat (replicate n ([] : list Z)) = []) by (induction n as [|n IH]; [done|exact IH]).
  destruct (move_lists_ok kh k Hk (base.size (ht_next_hash t)) B0 (replicate (Z.to_nat (2 ^ k)) None) (ht_next_hash t) (replicate (Z.to_nat (2 ^ k)) []) (ht_list t))
    as (L' & nh' & B' & E1 & E2 & E3 & E4 & E5); try done.
  - split; [by rewrite !length_replicate|]. intros i b Hb. apply lookup_replicate in Hb as [-> Hi]. exists None. split; [by apply lookup_replicate|done].
  - intros i b a Hb Ha. apply lookup_replicate in Hb as [-> _]. by apply elem_of_nil in Ha.
  - by rewrite length_replicate.
  - by rewrite Hnil.
  - rewrite E1. cbn [mbind option_bind fst snd]. eexists _, B'. split; [done|]. rewrite Hnil in E5. cbn in E5. split; [|done].
    assert (0 < 2 ^ k) by lia. split; cbn; [lia|by exists k|done|done|by rewrite E5|by rewrite E5].
Qed.

Lemma NewHandleTable_holds kh : exists t, NewHandleTable kh = Some t /\ table_holds kh t [].
Proof.
  unfold NewHandleTable. destruct (Resize_ok kh (MkHandleTable 0 0 [] ∅) [] []) as (t & B & E & Hok & Hp); try done; [constructor|by intros a Ha; apply elem_of_nil in Ha|].
  exists t. split; [exact E|]. exists B. split; [done|]. split; [done|]. intros a b Ha. by apply elem_of_nil in Ha.
Qed.

Lemma ht_Lookup_ok kh t es key hash : table_holds kh t es ->
  exists o, ht_Lookup kh t key hash = Some o /\
    match o with Some a => a ∈ es /\ kh a = Some (key, hash) | None => forall a, a ∈ es -> kh a <> Some (key, hash) end.
Proof.
  intros (B & Hok & Hp & Hd). destruct (FindPointer_ok kh t B Hok key hash) as (b & l1 & l2 & Hb & -> & E1 & E2 & _ & H4 & H5 & H6).
  exists (head l2). split; [unfold ht_Lookup; rewrite E1; exact E2|]. destruct l2 as [|a l2]; cbn [head] in *.
  - intros a Ha Hm. rewrite <- Hp in Ha. pose proof (H6 a Hm Ha) as Hin. rewrite app_nil_r in Hin. by apply (H4 a).
  - split; [|by apply H5]. rewrite <- Hp, (concat_delete _ _ _ Hb). apply elem_of_app. left. apply elem_of_app. right. left.
Qed.

(** [es] less the entry that was replaced. *)
Definition without (es : list Z) (old : option Z) (es' : list Z) : Prop :=
  match old with Some a => es ≡ₚ a :: es' | None => es ≡ₚ es' end.

Lemma ht_Remove_ok kh t es key hash : table_holds kh t es ->
  exists t' o es', ht_Remove kh t key hash = Some (t', o) /\ table_holds kh t' es' /\ without es o es' /\
    match o with Some a => kh a = Some (key, hash) | None => forall a, a ∈ es -> kh a <> Some (key, hash) end.
Proof.
  intros (B & Hok & Hp & Hd). destruct (FindPointer_ok kh t B Hok key hash) as (b & l1 & l2 & Hb & -> & E1 & E2 & E3 & H4 & H5 & H6).
  unfold ht_Remove. rewrite E1. cbn [mbind option_bind]. rewrite E2. cbn [mbind option_bind]. destruct l2 as [|a l2]; cbn [head] in *.
  - exists t, None, es. split; [done|]. split; [by exists B|]. split; [by cbn|]. intros a Ha Hm. rewrite <- Hp in Ha.
    pose proof (H6 a Hm Ha) as Hin. rewrite app_nil_r in Hin. by apply (H4 a).
  - destruct E3 as (_ & q & Hq & Hl2). rewrite Hq. cbn [mbind option_bind]. set (i := bucket_of (ht_length t) hash) in *.
    destruct Hok as [O1 O2 O3 O4 O5 [O6 O7]]. pose proof (concat_delete _ _ _ Hb) as Hdel.
    assert (Hperm : concat B ≡ₚ a :: (l1 ++ l2) ++ concat (delete i B)) by (rewrite Hdel, <- (Permutation_middle l1 l2 a); done).
    assert (Hnew : concat (<[i := l1 ++ l2]> B) ≡ₚ (l1 ++ l2) ++ concat (delete i B)) by (by apply (concat_insert _ _ _ _ Hb)).
    eexists _, (Some a), (concat (<[i := l1 ++ l2]> B)). split; [done|]. rewrite Hperm in O5. apply list.NoDup_cons in O5 as [Ha O5'].
    pose proof (f_equal Z.of_nat (Permutation_length Hperm)) as Hlen. cbn [length] in Hlen.
    split; [|split; [cbn; rewrite Hnew, <- Hperm, Hp; done|by apply H5]].
    exists (<[i := l1 ++ l2]> B). split; [|split; [done|intros x y Hx Hy; apply Hd; rewrite <- Hp, Hperm; right; by rewrite <- Hnew]].
    assert (Hw : chains (ht_next_hash (write_slot t (slot_after (Bucket i) l1) q)) (ht_list (write_slot t (slot_after (Bucket i) l1) q)) (<[i := l1 ++ l2]> B)).
    { apply (write_slot_chains t B i l1 (a :: l2)); try done; [by rewrite Hperm; constructor|]. intros x Hx Hx2. apply list.NoDup_app in O5' as [O5' _].
      apply list.NoDup_app in O5' as (_ & Hdis & _). by apply (Hdis x). }
    destruct (write_slot_length t (slot_after (Bucket i) l1) q) as [W1 W2].
    split; cbn [set_elems ht_length ht_elems ht_list ht_next_hash].
    + by rewrite W1, length_insert.
    + by rewrite W1.
    + done.
    + rewrite W1. apply placed_insert; [done|by apply lookup_lt_Some in Hb|]. intros x Hx. apply (O4 i _ x Hb). apply elem_of_app in Hx as [Hx|Hx]; apply elem_of_app; [by left|right; by right].
    + by rewrite Hnew.
    + rewrite Hnew. rewrite wrap_id by (unfold fits; lia). lia.
Qed.

(** The entries other than the one replaced, when the bucket of the key was taken apart. *)
Lemma replaced_parts (kh : Z -> option (bytes * Z)) es B i l1 l2 k :
  concat B ≡ₚ es -> NoDup es -> (forall a b, a ∈ es -> b ∈ es -> kh a = kh b -> a = b) -> B !! i = Some (l1 ++ l2) ->
  (forall a, a ∈ l1 -> kh a <> Some k) -> (forall a, head l2 = Some a -> kh a = Some k) -> (forall a, kh a = Some k -> a ∈ concat B -> a ∈ l1 ++ l2) ->
  let es' := (l1 ++ tail l2) ++ concat (delete i B) in
  without es (head l2) es' /\ NoDup es' /\ (forall c, c ∈ es' -> c ∈ es /\ kh c <> Some k) /\
  match head l2 with Some a => kh a = Some k | None => forall a, a ∈ es -> kh a <> Some k end.
Proof.
  intros Hp Hn Hd Hb H4 H5 H6 es'. pose proof (concat_delete _ _ _ Hb) as Hdel.
  assert (Hwo : without es (head l2) es').
  { unfold without, es'. destruct l2 as [|a l2]; cbn [head tail]; rewrite <- Hp, Hdel; [done|]. by rewrite <- (Permutation_middle l1 l2 a). }
  assert (Hnd : NoDup es') by (unfold without in Hwo; destruct (head l2); rewrite Hwo in Hn; [by apply list.NoDup_cons in Hn as [_ Hn]|done]).
  assert (Hsub : forall c, c ∈ es' -> c ∈ es /\ kh c <> Some k).
  { intros c Hc. assert (Hces : c ∈ es) by (unfold without in Hwo; destruct (head l2); rewrite Hwo; [by right|done]). split; [done|]. intros Hm.
    destruct l2 as [|a l2]; cbn [head tail] in *.
    - rewrite <- Hp in Hces. specialize (H6 c Hm Hces). rewrite app_nil_r in H6. by apply (H4 c).
    - assert (c = a) as -> by (apply Hd; [done|rewrite Hwo; left|by rewrite Hm, (H5 a eq_refl)]).
      rewrite Hwo in Hn. by apply list.NoDup_cons in Hn as [Hn _]. }
  split; [done|]. split; [done|]. split; [done|]. destruct l2 as [|a l2]; cbn [head] in *; [|by apply H5].
  intros a Ha. apply Hsub. by rewrite Hwo in Ha.
Qed.

(** The lists after the entry has been written into its slot. *)
Lemma insert_chains t B i l1 l2 h q :
  chains (ht_next_hash t) (ht_list t) B -> NoDup (concat B) -> B !! i = Some (l1 ++ l2) -> h ∉ concat B -> hchain (ht_next_hash t) q (tail l2) ->
  let t' := write_slot (set_next_hash t h q) (slot_after (Bucket i) l1) (Some h) in
  chains (ht_next_hash t') (ht_list t') (<[i := l1 ++ h :: tail l2]> B).
Proof.
  intros Hc Hn Hb Hh Hq. pose proof (concat_delete _ _ _ Hb) as Hdel. set (t1 := set_next_hash t h q).
  assert (Hfr : forall c, c ∈ concat B -> ht_next_hash t1 !! c = ht_next_hash t !! c) by (intros c Hcc; cbn; rewrite lookup_insert_ne; [done|by intros ->]).
  assert (Hl2 : forall c, c ∈ tail l2 -> c ∈ l2) by (intros c; destruct l2; [done|by right]).
  assert (Hin : forall c, c ∈ l1 ++ l2 -> c ∈ concat B) by (intros c Hcc; rewrite Hdel; apply elem_of_app; by left).
  apply (write_slot_chains t1 B i l1 l2); [by apply (chains_frame (ht_next_hash t))|done|done| |].
  - split; [done|]. exists q. split; [cbn; by rewrite lookup_insert_eq|]. eapply hchain_frame; [|exact Hq]. intros c Hcc. apply Hfr, Hin, elem_of_app. right. by apply Hl2.
  - intros c Hcc [->|Hc2]%elem_of_cons; [apply Hh, Hin, elem_of_app; by left|]. rewrite Hdel in Hn. apply list.NoDup_app in Hn as [Hn _].
    apply list.NoDup_app in Hn as (_ & Hdis & _). by apply (Hdis c Hcc), Hl2.
Qed.

Lemma placed_known kh len B a : placed kh len B -> a ∈ concat B -> is_Some (kh a).
Proof.
  intros Hp Ha. apply list_elem_of_In, in_concat in Ha as (b & Hb & Hin%list_elem_of_In). apply list_elem_of_In, list_elem_of_lookup in Hb as [j Hj].
  destruct (Hp _ _ _ Hj Hin) as (k & Hk & _). by exists k.
Qed.

Lemma ht_Insert_ok kh t es h k : table_holds kh t es -> h ∉ es -> kh h = Some k -> Z.of_nat (length es) + 1 < 2 ^ 31 ->
  exists t' o es', ht_Insert kh t h = Some (t', o) /\ table_holds kh t' (h :: es') /\ without es o es' /\
    match o with Some a => kh a = Some k | None => forall a, a ∈ es -> kh a <> Some k end.
Proof.
  intros (B & Hok & Hp & Hd) Hh Hk Hsize. destruct k as [key hash].
  destruct (FindPointer_ok kh t B Hok key hash) as (b & l1 & l2 & Hb & -> & E1 & E2 & E3 & H4 & H5 & H6).
  destruct Hok as [O1 O2 O3 O4 O5 [O6 O7]]. set (i := bucket_of (ht_length t) hash) in *.
  assert (Hn : exists q, (match head l2 with None => Some None | Some o => ht_next_hash t !! o end) = Some q /\ hchain (ht_next_hash t) q (tail l2)).
  { destruct l2 as [|a l2]; [by exists None|]. destruct E3 as (_ & q & Hq & Hl2). by exists q. }
  destruct Hn as (q & Eq & Hq). unfold ht_Insert. rewrite Hk. cbn [mbind option_bind fst snd]. rewrite E1. cbn [mbind option_bind]. rewrite E2. cbn [mbind option_bind]. rewrite Eq. cbn [mbind option_bind].
  assert (Hh' : h ∉ concat B) by (by rewrite Hp). pose proof (insert_chains t B i l1 l2 h q O3 O5 Hb Hh' Hq) as Hw.
  destruct (replaced_parts kh es B i l1 l2 (key, hash)) as (Hwo & Hnd & Hsub & Hmatch); try done; [by rewrite <- Hp|].
  destruct (write_slot_length (set_next_hash t h q) (slot_after (Bucket i) l1) (Some h)) as [W1 W2]. cbn [set_next_hash ht_length ht_elems] in W1, W2.
  set (t2 := write_slot (set_next_hash t h q) (slot_after (Bucket i) l1) (Some h)) in *. set (B' := <[i := l1 ++ h :: tail l2]> B) in *. set (es' := (l1 ++ tail l2) ++ concat (delete i B)) in *.
  assert (Hnew : concat B' ≡ₚ h :: es') by (unfold B', es'; rewrite (concat_insert _ _ _ _ Hb), <- (Permutation_middle l1 (tail l2) h); done).
  assert (Hnd' : NoDup (h :: es')) by (constructor; [intros Hin; by apply Hh, Hsub|done]).
  assert (Hdist : forall a b, a ∈ h :: es' -> b ∈ h :: es' -> kh a = kh b -> a = b).
  { intros a b [->|Ha]%elem_of_cons [->|Hb']%elem_of_cons Heq; [done|rewrite Hk in Heq; by destruct (Hsub b Hb')|rewrite Hk in Heq; by destruct (Hsub a Ha)|].
    apply Hd; [by apply Hsub|by apply Hsub|done]. }
  assert (Hplaced : placed kh (ht_length t) B').
  { apply placed_insert; [done|by apply lookup_lt_Some in Hb|]. intros x Hx. apply elem_of_app in Hx as [Hx|[->|Hx]%elem_of_cons]; [|by exists (key, hash)|];
      apply (O4 i _ x Hb), elem_of_app; [by left|right; destruct l2; [done|by right]]. }
  pose proof (Permutation_length Hnew) as Hlen. pose proof (Permutation_length Hp) as Hlp. unfold without in Hwo. destruct (head l2) as [a|] eqn:Ehd;
    pose proof (Permutation_length Hwo) as Hlw; cbn [length] in Hlen, Hlw.
  { exists t2, (Some a), es'. split; [done|]. split; [|by split]. exists B'. split; [|by split].
    split; rewrite ?W1, ?W2; try done; [by unfold B'; rewrite length_insert|by rewrite Hnew|split; [lia|done]]. }
  assert (Hel : u32 (ht_elems t2 + 1) = Z.of_nat (length (concat B'))) by (rewrite wrap_id by (unfold fits; lia); lia).
  assert (Hlt : u32 (ht_elems t2 + 1) < 2 ^ 31) by lia. cbn [ht_elems ht_length set_elems]. destruct (u32 (ht_elems t2 + 1) >? ht_length t2).
  - destruct (Resize_ok kh (set_elems t2 (u32 (ht_elems t2 + 1))) (concat B') B') as (t3 & B3 & E4 & Hok3 & Hp3); try done; [by rewrite Hnew|intros c; by apply (placed_known _ _ _ _ Hplaced)|].
    rewrite E4. cbn [mbind option_bind]. exists t3, None, es'. split; [done|]. split; [|by split]. exists B3. split; [done|]. by split; [rewrite Hp3|].
  - exists (set_elems t2 (u32 (ht_elems t2 + 1))), None, es'. split; [done|]. split; [|by split]. exists B'. split; [|by split].
    split; cbn [set_elems ht_length ht_elems ht_list ht_next_hash]; rewrite ?W1; try done; [by unfold B'; rewrite length_insert|by rewrite Hnew].
Qed.
