(* ===== verification/Cache.v ===== *)
(** * The LRU cache

    [LRUCache] and [ShardedLRUCache] of [cpp/leveldb/util/cache.cc], over the table of
    [HandleTable.v] and the circular lists of [Ring.v], with the list-based cache they
    implement.  An operation runs under the mutex, as one step.  The calls of deleters are
    recorded in [lc_deleted]. *)
From stdpp Require Import gmap.
From S2P Require Import Prelude Bloom Ring HandleTable.

(** The links [next], [prev] and [next_hash] are kept in the lists and the table. *)
Record LRUHandle (V : Type) := MkHandle {
  h_key : bytes;
  h_value : V;
  h_charge : Z;
  h_hash : Z;
  h_refs : Z;
  h_in_cache : bool
}.
Arguments MkHandle {V} _ _ _ _ _ _.
Arguments h_key {V} _.
Arguments h_value {V} _.
Arguments h_charge {V} _.
Arguments h_hash {V} _.
Arguments h_refs {V} _.
Arguments h_in_cache {V} _.

Record LRUCache (V : Type) := MkLRU {
  capacity_ : Z;
  usage_ : Z;
  lc_links : Links;
  table_ : HandleTable;
  lc_nodes : gmap Z (LRUHandle V);
  lc_next_address : Z;
  lc_deleted : list (bytes * V)
}.
Arguments MkLRU {V} _ _ _ _ _ _ _.
Arguments capacity_ {V} _.
Arguments usage_ {V} _.
Arguments lc_links {V} _.
Arguments table_ {V} _.
Arguments lc_nodes {V} _.
Arguments lc_next_address {V} _.
Arguments lc_deleted {V} _.

(** The addresses of the dummy heads [lru_] and [in_use_]. *)
Definition lru_ : Z := 0.
Definition in_use_ : Z := 1.

Section cache.
Context {V : Type}.
Implicit Types (c : LRUCache V) (h : LRUHandle V).

Definition set_capacity c (n : Z) := MkLRU n (usage_ c) (lc_links c) (table_ c) (lc_nodes c) (lc_next_address c) (lc_deleted c).
Definition set_usage c (n : Z) := MkLRU (capacity_ c) n (lc_links c) (table_ c) (lc_nodes c) (lc_next_address c) (lc_deleted c).
Definition set_links c (l : Links) := MkLRU (capacity_ c) (usage_ c) l (table_ c) (lc_nodes c) (lc_next_address c) (lc_deleted c).
Definition set_table c (t : HandleTable) := MkLRU (capacity_ c) (usage_ c) (lc_links c) t (lc_nodes c) (lc_next_address c) (lc_deleted c).
Definition put_node c (e : Z) h := MkLRU (capacity_ c) (usage_ c) (lc_links c) (table_ c) (<[e := h]> (lc_nodes c)) (lc_next_address c) (lc_deleted c).

(** The deleter is called and the entry is freed. *)
Definition free_node c (e : Z) h :=
  MkLRU (capacity_ c) (usage_ c) (lc_links c) (table_ c) (delete e (lc_nodes c)) (lc_next_address c) (lc_deleted c ++ [(h_key h, h_value h)]).

Definition set_refs h (n : Z) := MkHandle (h_key h) (h_value h) (h_charge h) (h_hash h) n (h_in_cache h).
Definition set_in_cache h (b : bool) := MkHandle (h_key h) (h_value h) (h_charge h) (h_hash h) (h_refs h) b.

Definition key_hash c (a : Z) : option (bytes * Z) := (fun h => (h_key h, h_hash h)) <$> lc_nodes c !! a.

Definition NewLRU : option (LRUCache V) :=
  t ← NewHandleTable (fun _ => None);
  let l := set_prev (set_next (MkLinks ∅ ∅) lru_ lru_) lru_ lru_ in
  let l := set_prev (set_next l in_use_ in_use_) in_use_ in_use_ in
  Some (MkLRU 0 0 l t ∅ 2 []).

Definition LRU_Remove c (e : Z) : option (LRUCache V) := l ← unlink (lc_links c) e; Some (set_links c l).
Definition LRU_Append c (list e : Z) : option (LRUCache V) := l ← link_before (lc_links c) list e; Some (set_links c l).

Definition lru_Ref c (e : Z) : option (LRUCache V) :=
  h ← lc_nodes c !! e;
  c ← (if (h_refs h =? 1) && h_in_cache h then c ← LRU_Remove c e; LRU_Append c in_use_ e else Some c);
  Some (put_node c e (set_refs h (u32 (h_refs h + 1)))).

Definition lru_Unref c (e : Z) : option (LRUCache V) :=
  h ← lc_nodes c !! e;
  let h := set_refs h (u32 (h_refs h - 1)) in
  let c := put_node c e h in
  if h_refs h =? 0 then Some (free_node c e h)
  else if h_in_cache h && (h_refs h =? 1) then c ← LRU_Remove c e; LRU_Append c lru_ e
  else Some c.

Definition FinishErase c (e : option Z) : option (LRUCache V * bool) :=
  match e with
  | None => Some (c, false)
  | Some e =>
      c ← LRU_Remove c e;
      h ← lc_nodes c !! e;
      let c := put_node c e (set_in_cache h false) in
      let c := set_usage c (u64 (usage_ c - h_charge h)) in
      c ← lru_Unref c e;
      Some (c, true)
  end.

Definition lru_Lookup c (key : bytes) (hash : Z) : option (LRUCache V * option Z) :=
  e ← ht_Lookup (key_hash c) (table_ c) key hash;
  match e with
  | Some a => c ← lru_Ref c a; Some (c, Some a)
  | None => Some (c, None)
  end.

Definition lru_Release c (handle : Z) : option (LRUCache V) := lru_Unref c handle.

Definition lru_Erase c (key : bytes) (hash : Z) : option (LRUCache V) :=
  r ← ht_Remove (key_hash c) (table_ c) key hash;
  r ← FinishErase (set_table c r.1) r.2;
  Some r.1.

(** The oldest entry of the LRU list goes: the body of the loops of [Insert] and [Prune]. *)
Definition erase_oldest c (old : Z) : option (LRUCache V) :=
  h ← lc_nodes c !! old;
  lru_Erase c (h_key h) (h_hash h).

Fixpoint evict_loop (fuel : nat) c : option (LRUCache V) :=
  old ← next (lc_links c) !! lru_;
  if (usage_ c >? capacity_ c) && negb (old =? lru_) then
    match fuel with O => None | S fuel => c ← erase_oldest c old; evict_loop fuel c end
  else Some c.

Fixpoint prune_loop (fuel : nat) c : option (LRUCache V) :=
  e ← next (lc_links c) !! lru_;
  if negb (e =? lru_) then
    match fuel with O => None | S fuel => c ← erase_oldest c e; prune_loop fuel c end
  else Some c.

(** [malloc] of the entry of [Insert]. *)
Definition new_node c h : LRUCache V * Z :=
  (MkLRU (capacity_ c) (usage_ c) (lc_links c) (table_ c) (<[lc_next_address c := h]> (lc_nodes c)) (lc_next_address c + 1) (lc_deleted c), lc_next_address c).

Definition lru_Insert c (key : bytes) (hash : Z) (value : V) (charge : Z) : option (LRUCache V * Z) :=
  let '(c, e) := new_node c (MkHandle key value charge hash 1 false) in
  c ← (if capacity_ c >? 0 then
         let c := put_node c e (MkHandle key value charge hash 2 true) in
         c ← LRU_Append c in_use_ e;
         let c := set_usage c (u64 (usage_ c + charge)) in
         r ← ht_Insert (key_hash c) (table_ c) e;
         r ← FinishErase (set_table c r.1) r.2;
         Some r.1
       else Some (set_links c (set_next (lc_links c) e (-1))));
  c ← evict_loop (base.size (lc_nodes c)) c;
  Some (c, e).

Definition lru_Prune c : option (LRUCache V) := prune_loop (base.size (lc_nodes c)) c.

Definition lru_Value c (handle : Z) : option V := h_value <$> lc_nodes c !! handle.

(** The destructor. *)
Fixpoint delete_loop (fuel : nat) c (e : Z) : option (LRUCache V) :=
  if e =? lru_ then Some c
  else
    match fuel with
    | O => None
    | S fuel =>
        nx ← next (lc_links c) !! e;
        h ← lc_nodes c !! e;
        c ← lru_Unref (put_node c e (set_in_cache h false)) e;
        delete_loop fuel c nx
    end.

Definition lru_Destroy c : option (LRUCache V) :=
  e ← next (lc_links c) !! lru_;
  delete_loop (base.size (lc_nodes c)) c e.
End cache.

(** ** Two circular lists in one store *)

Definition rings (l : Links) (h1 : Z) (es1 : list Z) (h2 : Z) (es2 : list Z) : Prop :=
  ring l h1 es1 /\ ring l h2 es2 /\ NoDup ((h1 :: es1) ++ (h2 :: es2)).

Lemma rings_sym l h1 es1 h2 es2 : rings l h1 es1 h2 es2 -> rings l h2 es2 h1 es1.
Proof. intros (H1 & H2 & H3). split; [done|]. split; [done|]. by rewrite Permutation_app_comm. Qed.

Lemma rings_unlink l h1 a e b h2 es2 : rings l h1 (a ++ e :: b) h2 es2 -> exists l', unlink l e = Some l' /\ rings l' h1 (a ++ b) h2 es2.
Proof.
  intros (H1 & H2 & H3). destruct (unlink_ring _ _ _ _ _ H1) as (l' & E & Hr & Hf). exists l'. split; [done|]. split; [done|]. split.
  - apply (ring_frame l); [|done]. intros y Hy. apply Hf. apply list.NoDup_app in H3 as (_ & Hd & _). intros Hin. by apply (Hd y).
  - eapply sublist_NoDup; [exact H3|]. apply sublist_app; [|done]. apply sublist_skip, sublist_app; [done|by apply sublist_cons].
Qed.

Lemma rings_link l h1 es1 h2 es2 e : rings l h1 es1 h2 es2 -> e ∉ (h1 :: es1) ++ (h2 :: es2) ->
  exists l', link_before l h1 e = Some l' /\ rings l' h1 (es1 ++ [e]) h2 es2.
Proof.
  intros (H1 & H2 & H3) He. rewrite elem_of_app in He. destruct (link_before_ring l h1 e es1 H1) as (l' & E & Hr & Hf); [tauto|].
  exists l'. split; [done|]. split; [done|]. split.
  - apply (ring_frame l); [|done]. intros y Hy. apply Hf. apply list.NoDup_app in H3 as (_ & Hd & _). intros [->|Hin]%elem_of_cons; [by apply He; right|by apply (Hd y)].
  - assert (Hp : (h1 :: es1 ++ [e]) ++ h2 :: es2 ≡ₚ e :: (h1 :: es1) ++ h2 :: es2).
    { cbn. rewrite <- app_assoc. cbn. rewrite <- (Permutation_middle es1 (h2 :: es2) e). apply perm_swap. }
    rewrite Hp. constructor; [|done]. by rewrite elem_of_app.
Qed.

(** ** The cache it implements

    The entries that lookups find, those not in use ordered from the one released first;
    and those that were removed while clients had handles on them. *)
Record SEntry (V : Type) := MkSEntry { se_handle : Z; se_key : bytes; se_value : V; se_charge : Z; se_clients : Z }.
Arguments MkSEntry {V} _ _ _ _ _.
Arguments se_handle {V} _.
Arguments se_key {V} _.
Arguments se_value {V} _.
Arguments se_charge {V} _.
Arguments se_clients {V} _.

Record SCache (V : Type) := MkSCache {
  sc_capacity : Z;
  sc_cached : list (SEntry V);
  sc_orphans : list (SEntry V);
  sc_next : Z;
  sc_deleted : list (bytes * V)
}.
Arguments MkSCache {V} _ _ _ _ _.
Arguments sc_capacity {V} _.
Arguments sc_cached {V} _.
Arguments sc_orphans {V} _.
Arguments sc_next {V} _.
Arguments sc_deleted {V} _.

(** The first that satisfies [f], and the others; the first that satisfies [f] changed. *)
Fixpoint take_out {A} (f : A -> bool) (l : list A) : option (A * list A) :=
  match l with
  | [] => None
  | x :: l => if f x then Some (x, l) else r ← take_out f l; Some (r.1, x :: r.2)
  end.

Fixpoint change {A} (f : A -> bool) (g : A -> A) (l : list A) : list A :=
  match l with [] => [] | x :: l => if f x then g x :: l else x :: change f g l end.

Section spec.
Context {V : Type}.
Implicit Types (s : SCache V) (e : SEntry V).

Definition idle e : bool := se_clients e =? 0.
Definition key_is (key : bytes) e : bool := bool_decide (se_key e = key).
Definition is_handle (a : Z) e : bool := se_handle e =? a.
Definition add_clients (n : Z) e : SEntry V := MkSEntry (se_handle e) (se_key e) (se_value e) (se_charge e) (se_clients e + n).
Definition total_charge (es : list (SEntry V)) : Z := foldr (fun e n => se_charge e + n) 0 es.

Definition set_cached s es := MkSCache (sc_capacity s) es (sc_orphans s) (sc_next s) (sc_deleted s).
Definition set_orphans s es := MkSCache (sc_capacity s) (sc_cached s) es (sc_next s) (sc_deleted s).
Definition add_deleted s e := MkSCache (sc_capacity s) (sc_cached s) (sc_orphans s) (sc_next s) (sc_deleted s ++ [(se_key e, se_value e)]).

(** An entry that is not cached any more lives as long as there are clients. *)
Definition spec_drop s e : SCache V := if idle e then add_deleted s e else set_orphans s (sc_orphans s ++ [e]).

Definition spec_Lookup s (key : bytes) : SCache V * option Z :=
  match take_out (key_is key) (sc_cached s) with
  | Some (e, _) => (set_cached s (change (key_is key) (add_clients 1) (sc_cached s)), Some (se_handle e))
  | None => (s, None)
  end.

Definition spec_Release s (a : Z) : SCache V :=
  match take_out (is_handle a) (sc_cached s) with
  | Some (e, rest) =>
      if se_clients e =? 1 then set_cached s (rest ++ [add_clients (-1) e])
      else set_cached s (change (is_handle a) (add_clients (-1)) (sc_cached s))
  | None =>
      match take_out (is_handle a) (sc_orphans s) with
      | Some (e, rest) =>
          if se_clients e =? 1 then add_deleted (set_orphans s rest) e
          else set_orphans s (change (is_handle a) (add_clients (-1)) (sc_orphans s))
      | None => s
      end
  end.

Definition spec_Erase s (key : bytes) : SCache V :=
  match take_out (key_is key) (sc_cached s) with
  | Some (e, rest) => spec_drop (set_cached s rest) e
  | None => s
  end.

(** The entries released first go until the others fit. *)
Fixpoint spec_evict (fuel : nat) s : SCache V :=
  if u64 (total_charge (sc_cached s)) >? sc_capacity s then
    match fuel, take_out idle (sc_cached s) with
    | S fuel, Some (e, rest) => spec_evict fuel (add_deleted (set_cached s rest) e)
    | _, _ => s
    end
  else s.

Definition spec_Insert s (key : bytes) (value : V) (charge : Z) : SCache V * Z :=
  let e := MkSEntry (sc_next s) key value charge 1 in
  let s := MkSCache (sc_capacity s) (sc_cached s) (sc_orphans s) (sc_next s + 1) (sc_deleted s) in
  let s := if sc_capacity s >? 0 then let s := spec_Erase s key in set_cached s (sc_cached s ++ [e])
           else set_orphans s (sc_orphans s ++ [e]) in
  (spec_evict (length (sc_cached s)) s, se_handle e).

Definition spec_Prune s : SCache V :=
  MkSCache (sc_capacity s) (List.filter (fun e => negb (idle e)) (sc_cached s)) (sc_orphans s) (sc_next s)
    (sc_deleted s ++ map (fun e => (se_key e, se_value e)) (List.filter idle (sc_cached s))).
End spec.

Lemma take_out_Some {A} (f : A -> bool) l x rest : take_out f l = Some (x, rest) ->
  exists l1 l2, l = l1 ++ x :: l2 /\ rest = l1 ++ l2 /\ f x = true /\ (forall y, y ∈ l1 -> f y = false) /\ forall g, change f g l = l1 ++ g x :: l2.
Proof.
  revert rest. induction l as [|a l IH]; intros rest; cbn; [done|]. destruct (f a) eqn:Ea.
  - intros [= -> ->]. exists [], rest. split_and!; try done. intros y Hy. by apply elem_of_nil in Hy.
  - destruct (take_out f l) as [[y r]|] eqn:E; cbn; [|done]. intros [= -> <-]. destruct (IH r eq_refl) as (l1 & l2 & -> & -> & H1 & H2 & H3).
    exists (a :: l1), l2. split_and!; try done; [intros y [->|Hy]%elem_of_cons; [done|by apply H2]|intros g; cbn; by rewrite H3].
Qed.

Lemma take_out_None {A} (f : A -> bool) l : take_out f l = None -> forall x, x ∈ l -> f x = false.
Proof.
  induction l as [|a l IH]; cbn; [intros _ x Hx; by apply elem_of_nil in Hx|]. destruct (f a) eqn:Ea; [done|].
  destruct (take_out f l); [done|]. intros _ x [->|Hx]%elem_of_cons; [done|]. by apply IH.
Qed.

Lemma NoDup_map_inj {A B} (f : A -> B) l x y : NoDup (map f l) -> x ∈ l -> y ∈ l -> f x = f y -> x = y.
Proof.
  induction l as [|a l IH]; intros Hn Hx Hy Hf; [by apply elem_of_nil in Hx|]. cbn in Hn. apply list.NoDup_cons in Hn as [Ha Hn].
  assert (Hin : forall z, z ∈ l -> f z ∈ map f l) by (intros z Hz; by apply list_elem_of_In, in_map, list_elem_of_In).
  apply elem_of_cons in Hx as [->|Hx], Hy as [->|Hy]; [done|by destruct Ha; rewrite Hf; apply Hin|by destruct Ha; rewrite <- Hf; apply Hin|by apply IH].
Qed.

(** ** The representation *)

Section refinement.
Context {V : Type} (hf : bytes -> Z).
Implicit Types (c : LRUCache V) (s : SCache V) (e : SEntry V).

Definition node (cached : bool) e : Z * LRUHandle V :=
  (se_handle e, MkHandle (se_key e) (se_value e) (se_charge e) (hf (se_key e)) (se_clients e + Z.b2z cached) cached).

Definition nodes_of s : list (Z * LRUHandle V) := map (node true) (sc_cached s) ++ map (node false) (sc_orphans s).

Definition nodes_rel (N : gmap Z (LRUHandle V)) (L : list (Z * LRUHandle V)) : Prop := NoDup L.*1 /\ N = list_to_map L.

Lemma nodes_rel_perm N L L' : L ≡ₚ L' -> nodes_rel N L -> nodes_rel N L'.
Proof. intros Hp [Hn ->]. split; [by rewrite <- Hp|]. by apply list_to_map_proper. Qed.

Lemma nodes_rel_cons N a n L : nodes_rel N ((a, n) :: L) ->
  N !! a = Some n /\ (forall n', nodes_rel (<[a := n']> N) ((a, n') :: L)) /\ nodes_rel (delete a N) L.
Proof.
  intros [Hn ->]. cbn in *. pose proof Hn as [Ha HL]%list.NoDup_cons. split; [by rewrite lookup_insert_eq|]. split.
  - intros n'. split; [done|]. cbn. by rewrite insert_insert_eq.
  - split; [done|]. apply delete_insert_id. by apply not_elem_of_list_to_map_1.
Qed.

Lemma nodes_rel_new N a n L : nodes_rel N L -> a ∉ L.*1 -> nodes_rel (<[a := n]> N) ((a, n) :: L).
Proof. intros [Hn ->] Ha. split; [by constructor|done]. Qed.

Definition entry_in_range (next : Z) (least : Z) e : Prop := 2 <= se_handle e < next /\ least <= se_clients e /\ se_clients e + 1 < 2 ^ 32.

Abbreviation idle_handles es := (map se_handle (List.filter idle es)).
Abbreviation busy_handles es := (map se_handle (List.filter (fun e => negb (idle e)) es)).

(** All of the cache but the table. *)
Record shape c s : Prop := {
  sh_capacity : capacity_ c = sc_capacity s;
  sh_next : lc_next_address c = sc_next s;
  sh_deleted : lc_deleted c = sc_deleted s;
  sh_usage : usage_ c = u64 (total_charge (sc_cached s));
  sh_nodes : nodes_rel (lc_nodes c) (nodes_of s);
  sh_cached : Forall (entry_in_range (sc_next s) 0) (sc_cached s);
  sh_orphans : Forall (entry_in_range (sc_next s) 1) (sc_orphans s);
  sh_rings : exists iu, rings (lc_links c) lru_ (idle_handles (sc_cached s)) in_use_ iu /\ iu ≡ₚ busy_handles (sc_cached s)
}.

Definition refines c s : Prop := shape c s /\ table_holds (key_hash c) (table_ c) (map se_handle (sc_cached s)).

#[local] Arguments total_charge : simpl never.
Lemma total_cons e (es : list (SEntry V)) : total_charge (e :: es) = se_charge e + total_charge es.
Proof. done. Qed.

Lemma total_app (es es' : list (SEntry V)) : total_charge (es ++ es') = total_charge es + total_charge es'.
Proof. induction es as [|e es IH]; [done|]. cbn [app]. rewrite !total_cons, IH. lia. Qed.

Lemma filter_cons_app {A} (f : A -> bool) l1 x l2 : List.filter f (l1 ++ x :: l2) = List.filter f l1 ++ (if f x then [x] else []) ++ List.filter f l2.
Proof. rewrite filter_app. cbn. by destruct (f x). Qed.

(** The nodes with that of one entry first. *)
Lemma nodes_cached s l1 e l2 : sc_cached s = l1 ++ e :: l2 ->
  nodes_of s ≡ₚ node true e :: map (node true) (l1 ++ l2) ++ map (node false) (sc_orphans s).
Proof. unfold nodes_of. intros ->. rewrite !map_app. cbn [map]. rewrite <- !app_assoc. cbn [app]. by rewrite <- Permutation_middle. Qed.

Lemma nodes_orphan s l1 e l2 : sc_orphans s = l1 ++ e :: l2 ->
  nodes_of s ≡ₚ node false e :: map (node true) (sc_cached s) ++ map (node false) (l1 ++ l2).
Proof. unfold nodes_of. intros ->. rewrite !map_app. cbn [map]. do 2 rewrite <- Permutation_middle. done. Qed.

Lemma shape_node c s l1 e l2 : shape c s -> sc_cached s = l1 ++ e :: l2 -> lc_nodes c !! se_handle e = Some (node true e).2.
Proof. intros H Hc. apply (nodes_rel_cons _ _ _ (map (node true) (l1 ++ l2) ++ map (node false) (sc_orphans s))). eapply nodes_rel_perm; [by apply nodes_cached|apply H]. Qed.

Lemma shape_kh c s e : shape c s -> e ∈ sc_cached s -> key_hash c (se_handle e) = Some (se_key e, hf (se_key e)).
Proof. intros H (l1 & l2 & Hc)%list_elem_of_split. unfold key_hash. by rewrite (shape_node c s l1 e l2 H Hc). Qed.

(** The handles of the cached entries are different, and none is a dummy head. *)
Lemma shape_handles c s : shape c s -> NoDup (map se_handle (sc_cached s ++ sc_orphans s)).
Proof. intros [_ _ _ _ [Hn _] _ _ _]. unfold nodes_of in Hn. rewrite fmap_app, map_app in *. by rewrite !list_fmap_compose in Hn || (unfold fmap, list_fmap in Hn; rewrite !map_map in Hn). Qed.

Lemma shape_elem c s l1 e l2 : shape c s -> sc_cached s = l1 ++ e :: l2 -> entry_in_range (sc_next s) 0 e /\ Forall (entry_in_range (sc_next s) 0) (l1 ++ l2).
Proof. intros H Hc. pose proof (sh_cached _ _ H) as Hf. rewrite Hc in Hf. apply list.Forall_app in Hf as [H1 [H2 H3]%list.Forall_cons]. split; [done|]. by apply list.Forall_app. Qed.

Lemma handles_elsewhere c s l1 e l2 : shape c s -> sc_cached s = l1 ++ e :: l2 ->
  se_handle e ∉ map se_handle (l1 ++ l2) /\ se_handle e <> lru_ /\ se_handle e <> in_use_.
Proof.
  intros H Hc. destruct (shape_elem c s l1 e l2 H Hc) as [[Hr _] _]. pose proof (shape_handles c s H) as Hn. rewrite Hc, <- app_assoc in Hn. cbn [app] in Hn.
  rewrite <- Permutation_middle in Hn. cbn [map] in Hn. apply list.NoDup_cons in Hn as [Hn _]. unfold lru_, in_use_. split; [|lia].
  rewrite !map_app, !elem_of_app in *. tauto.
Qed.

Lemma idle_split (l1 : list (SEntry V)) e l2 : idle_handles (l1 ++ e :: l2) = idle_handles l1 ++ (if idle e then [se_handle e] else []) ++ idle_handles l2.
Proof. rewrite filter_cons_app, !map_app. by destruct (idle e). Qed.

Lemma busy_split (l1 : list (SEntry V)) e l2 : busy_handles (l1 ++ e :: l2) = busy_handles l1 ++ (if idle e then [] else [se_handle e]) ++ busy_handles l2.
Proof. rewrite filter_cons_app, !map_app. by destruct (idle e). Qed.

Lemma filtered_handle (f : SEntry V -> bool) x es : x ∈ map se_handle (List.filter f es) -> x ∈ map se_handle es.
Proof. rewrite !list_elem_of_In, !in_map_iff. intros (e & He & Hin%filter_In). exists e. tauto. Qed.

Lemma total_perm (es es' : list (SEntry V)) : es ≡ₚ es' -> total_charge es = total_charge es'.
Proof. intros Hp. induction Hp; rewrite ?total_cons; lia. Qed.

(** One entry changed and moved. *)
Lemma shape_update c s l1 e l2 e' cached' links :
  shape c s -> sc_cached s = l1 ++ e :: l2 ->
  se_handle e' = se_handle e /\ se_key e' = se_key e /\ se_value e' = se_value e /\ se_charge e' = se_charge e ->
  entry_in_range (sc_next s) 0 e' -> cached' ≡ₚ e' :: l1 ++ l2 ->
  (exists iu, rings links lru_ (idle_handles cached') in_use_ iu /\ iu ≡ₚ busy_handles cached') ->
  shape (set_links (put_node c (se_handle e) (node true e').2) links) (set_cached s cached').
Proof.
  intros H Hc (E1 & E2 & E3 & E4) Hr Hp Hri. destruct (shape_elem c s l1 e l2 H Hc) as [_ Hfa]. destruct H as [H1 H2 H3 H4 H5 H6 H7 H8]. split; try done.
  - cbn. rewrite H4. f_equal. rewrite Hc, (total_perm _ _ Hp), total_cons, !total_app, total_cons, E4. lia.
  - pose proof (nodes_rel_perm _ _ _ (nodes_cached s l1 e l2 Hc) H5) as Hn. destruct (nodes_rel_cons _ (se_handle e) (node true e).2 _ Hn) as (_ & Hn' & _).
    eapply nodes_rel_perm; [|exact (Hn' (node true e').2)]. unfold nodes_of. cbn [set_cached sc_cached sc_orphans]. rewrite Hp. cbn [map app].
    replace (node true e') with (se_handle e, (node true e').2) by (unfold node; by rewrite E1). done.
  - cbn. rewrite Hp. by apply list.Forall_cons.
Qed.

Lemma Ref_ok c s l1 e l2 :
  shape c s -> sc_cached s = l1 ++ e :: l2 -> se_clients e + 2 < 2 ^ 32 ->
  exists c', lru_Ref c (se_handle e) = Some c' /\ shape c' (set_cached s (l1 ++ add_clients 1 e :: l2)) /\ table_ c' = table_ c.
Proof.
  intros H Hc Hb. destruct (shape_elem c s l1 e l2 H Hc) as [(R1 & R2 & R3) _]. destruct (handles_elsewhere c s l1 e l2 H Hc) as (He & Hne1 & Hne2).
  destruct (sh_rings _ _ H) as (iu & Hri & Hiu). unfold lru_Ref. rewrite (shape_node c s l1 e l2 H Hc). cbn [mbind option_bind].
  set (e' := add_clients 1 e).
  assert (Hn : set_refs (node true e).2 (u32 (h_refs (node true e).2 + 1)) = (node true e').2).
  { unfold node, set_refs, e', add_clients. cbn. f_equal. rewrite wrap_id by (unfold fits; lia). lia. }
  rewrite Hn. clear Hn. change (h_refs (node true e).2) with (se_clients e + 1). change (h_in_cache (node true e).2) with true. rewrite Hc in Hri, Hiu. rewrite idle_split in Hri. rewrite busy_split in Hiu.
  assert (Hid : idle e' = false) by (unfold idle, e'; cbn; apply Z.eqb_neq; lia).
  assert (Hgoal : forall links, (exists iu, rings links lru_ (idle_handles l1 ++ idle_handles l2) in_use_ iu /\ iu ≡ₚ busy_handles l1 ++ se_handle e :: busy_handles l2) ->
    shape (set_links (put_node c (se_handle e) (node true e').2) links) (set_cached s (l1 ++ e' :: l2))).
  { intros links (iu' & Hr' & Hiu'). apply (shape_update c s l1 e l2 e'); try done; [unfold entry_in_range, e'; cbn; lia|by rewrite <- Permutation_middle|]. exists iu'.
    rewrite idle_split, busy_split, Hid. done. }
  rewrite andb_true_r. destruct (Z.eqb_spec (se_clients e + 1) 1) as [Hz|Hz].
  - assert (Hi : idle e = true) by (unfold idle; apply Z.eqb_eq; lia). rewrite Hi in Hri, Hiu. cbn [app] in Hri, Hiu.
    unfold LRU_Remove, LRU_Append. destruct (rings_unlink _ _ _ _ _ _ _ Hri) as (l' & E1 & Hr1). rewrite E1. cbn [mbind option_bind set_links lc_links].
    destruct (rings_link _ _ _ _ _ (se_handle e) (rings_sym _ _ _ _ _ Hr1)) as (l2' & E2 & Hr2).
    { rewrite elem_of_app, !elem_of_cons, Hiu, !elem_of_app. rewrite map_app, elem_of_app in He. pose proof (filtered_handle idle (se_handle e)). pose proof (filtered_handle (fun e => negb (idle e)) (se_handle e)). naive_solver. }
    rewrite E2. cbn [mbind option_bind]. eexists. split; [done|]. split; [|done]. apply Hgoal. exists (iu ++ [se_handle e]). split; [by apply rings_sym|].
    rewrite Hiu, <- app_assoc. apply Permutation_app_head. by rewrite Permutation_app_comm.
  - assert (Hi : idle e = false) by (unfold idle; apply Z.eqb_neq; lia). rewrite Hi in Hri, Hiu. cbn [app] in Hri, Hiu. eexists. split; [done|]. split; [|done].
    assert (Hcc : c = set_links c (lc_links c)) by (by destruct c). rewrite Hcc at 1. apply Hgoal. by exists iu.
Qed.

(** A cached entry taken out of the list it is in. *)
Lemma unlink_cached c s l1 e l2 : shape c s -> sc_cached s = l1 ++ e :: l2 ->
  exists l' iu, unlink (lc_links c) (se_handle e) = Some l' /\
    rings l' lru_ (idle_handles (l1 ++ l2)) in_use_ iu /\ iu ≡ₚ busy_handles (l1 ++ l2) /\ se_handle e ∉ (lru_ :: idle_handles (l1 ++ l2)) ++ (in_use_ :: iu).
Proof.
  intros H Hc. destruct (handles_elsewhere c s l1 e l2 H Hc) as (He & Hne1 & Hne2). destruct (sh_rings _ _ H) as (iu & Hri & Hiu). rewrite Hc in Hri, Hiu. rewrite idle_split in Hri. rewrite busy_split in Hiu.
  assert (Hgoal : forall l' iu', unlink (lc_links c) (se_handle e) = Some l' -> rings l' lru_ (idle_handles (l1 ++ l2)) in_use_ iu' -> iu' ≡ₚ busy_handles (l1 ++ l2) ->
    exists l' iu, unlink (lc_links c) (se_handle e) = Some l' /\ rings l' lru_ (idle_handles (l1 ++ l2)) in_use_ iu /\ iu ≡ₚ busy_handles (l1 ++ l2) /\
      se_handle e ∉ (lru_ :: idle_handles (l1 ++ l2)) ++ (in_use_ :: iu)).
  { intros l' iu' E1 E2 E3. exists l', iu'. split; [done|]. split; [done|]. split; [done|]. rewrite elem_of_app, !elem_of_cons, E3.
    pose proof (filtered_handle idle (se_handle e) (l1 ++ l2)). pose proof (filtered_handle (fun e => negb (idle e)) (se_handle e) (l1 ++ l2)). tauto. }
  rewrite !filter_app, !map_app in Hgoal. destruct (idle e); cbn [app] in Hri, Hiu.
  - destruct (rings_unlink _ _ _ _ _ _ _ Hri) as (l' & E1 & Hr1). rewrite filter_app, map_app. rewrite (filter_app (fun e => _)), map_app. by apply (Hgoal l' iu).
  - destruct (list_elem_of_split iu (se_handle e)) as (a & b & ->); [rewrite Hiu; apply elem_of_app; right; left|].
    destruct (rings_unlink _ _ _ _ _ _ _ (rings_sym _ _ _ _ _ Hri)) as (l' & E1 & Hr1). rewrite filter_app, map_app. rewrite (filter_app (fun e => _)), map_app.
    apply (Hgoal l' (a ++ b)); [done|by apply rings_sym|]. apply (Permutation_cons_inv (a := se_handle e)). by rewrite !Permutation_middle.
Qed.

Lemma Unref_cached_ok c s l1 e l2 :
  shape c s -> sc_cached s = l1 ++ e :: l2 -> 1 <= se_clients e ->
  exists c', lru_Unref c (se_handle e) = Some c' /\ table_ c' = table_ c /\
    shape c' (set_cached s (if se_clients e =? 1 then (l1 ++ l2) ++ [add_clients (-1) e] else l1 ++ add_clients (-1) e :: l2)).
Proof.
  intros H Hc Hb. destruct (shape_elem c s l1 e l2 H Hc) as [(R1 & R2 & R3) _]. destruct (handles_elsewhere c s l1 e l2 H Hc) as (He & Hne1 & Hne2).
  unfold lru_Unref. rewrite (shape_node c s l1 e l2 H Hc). cbn [mbind option_bind]. set (e' := add_clients (-1) e).
  assert (Hn : set_refs (node true e).2 (u32 (h_refs (node true e).2 - 1)) = (node true e').2).
  { unfold node, set_refs, e', add_clients. cbn. f_equal. rewrite wrap_id by (unfold fits; lia). lia. }
  rewrite Hn. clear Hn. change (h_refs (node true e').2) with (se_clients e + -1 + 1). change (h_in_cache (node true e').2) with true.
  destruct (Z.eqb_spec (se_clients e + -1 + 1) 0); [lia|]. cbn [andb].
  assert (Hr' : entry_in_range (sc_next s) 0 e') by (unfold entry_in_range, e'; cbn; lia).
  destruct (Z.eqb_spec (se_clients e + -1 + 1) 1) as [Hz|Hz].
  - destruct (Z.eqb_spec (se_clients e) 1); [|lia]. destruct (unlink_cached c s l1 e l2 H Hc) as (l' & iu & E1 & E2 & E3 & E4).
    unfold LRU_Remove, LRU_Append. cbn [put_node lc_links]. rewrite E1. cbn [mbind option_bind set_links lc_links].
    destruct (rings_link _ _ _ _ _ _ E2 E4) as (l2' & F1 & F2). rewrite F1. cbn [mbind option_bind]. eexists. split; [done|]. split; [done|].
    apply (shape_update c s l1 e l2 e'); try done; [by rewrite Permutation_app_comm|]. exists iu. assert (Hid : idle e' = true) by (unfold idle, e'; cbn; apply Z.eqb_eq; lia).
    rewrite idle_split, busy_split, Hid. cbn [map List.filter app]. by rewrite app_nil_r.
  - destruct (Z.eqb_spec (se_clients e) 1); [lia|]. eexists. split; [done|]. split; [done|].
    assert (Hcc : c = set_links c (lc_links c)) by (by destruct c). rewrite Hcc at 1. destruct (sh_rings _ _ H) as (iu & Hri & Hiu). rewrite Hc in Hri, Hiu.
    apply (shape_update c s l1 e l2 e'); try done; [by rewrite <- Permutation_middle|]. exists iu.
    assert (Hid : idle e' = idle e) by (unfold idle, e'; cbn; destruct (Z.eqb_spec (se_clients e + -1) 0), (Z.eqb_spec (se_clients e) 0); lia || done).
    rewrite idle_split, busy_split in *. by rewrite Hid.
Qed.

Lemma Unref_orphan_ok c s l1 e l2 :
  shape c s -> sc_orphans s = l1 ++ e :: l2 ->
  exists c', lru_Unref c (se_handle e) = Some c' /\ table_ c' = table_ c /\
    shape c' (if se_clients e =? 1 then add_deleted (set_orphans s (l1 ++ l2)) e else set_orphans s (l1 ++ add_clients (-1) e :: l2)).
Proof.
  intros H Hc. pose proof H as [H1 H2 H3 H4 H5 H6 H7 H8]. pose proof (nodes_rel_perm _ _ _ (nodes_orphan s l1 e l2 Hc) H5) as Hn.
  destruct (nodes_rel_cons _ (se_handle e) (node false e).2 _ Hn) as (Hl & Hput & Hdel).
  rewrite Hc in H7. apply list.Forall_app in H7 as [H7a [(R1 & R2 & R3) H7b]%list.Forall_cons].
  unfold lru_Unref. rewrite Hl. cbn [mbind option_bind]. set (e' := add_clients (-1) e).
  assert (En : set_refs (node false e).2 (u32 (h_refs (node false e).2 - 1)) = (node false e').2).
  { unfold node, set_refs, e', add_clients. cbn. f_equal. rewrite wrap_id by (unfold fits; lia). lia. }
  rewrite En. clear En. change (h_refs (node false e').2) with (se_clients e + -1 + 0). change (h_in_cache (node false e').2) with false. cbn [andb].
  destruct (Z.eqb_spec (se_clients e + -1 + 0) 0), (Z.eqb_spec (se_clients e) 1); try lia; (eexists; split; [done|]; split; [done|]); split; try done.
  - cbn. by rewrite H3.
  - cbn [free_node put_node lc_nodes]. rewrite delete_insert_eq. exact Hdel.
  - by apply list.Forall_app.
  - eapply nodes_rel_perm; [|exact (Hput (node false e').2)]. symmetry. by apply (nodes_orphan (set_orphans s (l1 ++ e' :: l2)) l1 e' l2).
  - cbn. apply list.Forall_app. split; [done|]. apply list.Forall_cons. split; [unfold entry_in_range, e'; cbn; lia|done].
Qed.

(** Whether clients use it or not, an entry whose key has left the table is erased. *)
Lemma FinishErase_ok c s l1 e l2 :
  shape c s -> sc_cached s = l1 ++ e :: l2 ->
  exists c', FinishErase c (Some (se_handle e)) = Some (c', true) /\ shape c' (spec_drop (set_cached s (l1 ++ l2)) e) /\ table_ c' = table_ c.
Proof.
  intros H Hc. destruct (shape_elem c s l1 e l2 H Hc) as [(R1 & R2 & R3) Hfa]. destruct (unlink_cached c s l1 e l2 H Hc) as (l' & iu & E1 & E2 & E3 & _).
  pose proof (shape_node c s l1 e l2 H Hc) as Hnode. destruct H as [H1 H2 H3 H4 H5 H6 H7 H8]. pose proof (nodes_rel_perm _ _ _ (nodes_cached s l1 e l2 Hc) H5) as Hn.
  destruct (nodes_rel_cons _ (se_handle e) (node true e).2 _ Hn) as (_ & Hput & Hdel).
  unfold FinishErase, LRU_Remove. rewrite E1. cbn [mbind option_bind set_links lc_nodes]. rewrite Hnode. cbn [mbind option_bind].
  unfold lru_Unref. cbn [put_node set_usage lc_nodes]. rewrite lookup_insert_eq. cbn [mbind option_bind].
  change (h_refs (set_in_cache (node true e).2 false)) with (se_clients e + 1). change (h_charge (node true e).2) with (se_charge e).
  assert (En : set_refs (set_in_cache (node true e).2 false) (u32 (se_clients e + 1 - 1)) = (node false e).2).
  { unfold node, set_refs. cbn. f_equal. rewrite wrap_id by (unfold fits; lia). lia. }
  rewrite En. clear En. change (h_refs (node false e).2) with (se_clients e + 0). change (h_in_cache (node false e).2) with false. rewrite Z.add_0_r. cbn [andb].
  assert (Hu : u64 (usage_ c - se_charge e) = u64 (total_charge (l1 ++ l2))).
  { rewrite H4, Hc, !total_app, total_cons. unfold wrap. rewrite Zminus_mod_idemp_l. f_equal. lia. }
  unfold spec_drop. fold (idle e). destruct (idle e) eqn:Hi; cbn [mbind option_bind]; (eexists; split; [done|]; split; [|done]); split; try done; cbn [free_node put_node set_usage set_links lc_nodes lc_links].
  - cbn. by rewrite H3.
  - rewrite insert_insert_eq, delete_insert_eq. exact Hdel.
  - by exists iu.
  - rewrite insert_insert_eq. eapply nodes_rel_perm; [|exact (Hput (node false e).2)]. unfold nodes_of. cbn [sc_cached sc_orphans set_orphans set_cached]. rewrite (map_app (node false)).
    cbn [map]. rewrite (Permutation_app_comm (map (node false) _) [_]). cbn [app]. by rewrite <- Permutation_middle.
  - cbn. apply list.Forall_app. split; [done|]. apply list.Forall_singleton. unfold idle in Hi. apply Z.eqb_neq in Hi. unfold entry_in_range. lia.
  - by exists iu.
Qed.

(** *** The operations *)

Lemma table_carry (kh : Z -> option (bytes * Z)) t es c s :
  shape c s -> table_holds kh t es -> es ≡ₚ map se_handle (sc_cached s) ->
  (forall e, e ∈ sc_cached s -> kh (se_handle e) = Some (se_key e, hf (se_key e))) -> table_holds (key_hash c) t (map se_handle (sc_cached s)).
Proof.
  intros H Ht Hp Hk. apply (table_holds_kh kh); [|by apply (table_holds_perm _ _ es)]. intros a Ha. apply list_elem_of_In, in_map_iff in Ha as (e & <- & He%list_elem_of_In).
  rewrite (Hk e He). by apply (shape_kh c s).
Qed.

(** The entry of a key, if there is one. *)
Lemma key_split c s key : refines c s ->
  match take_out (key_is key) (sc_cached s) with
  | Some (e, rest) => exists l1 l2, sc_cached s = l1 ++ e :: l2 /\ rest = l1 ++ l2 /\ (forall g, change (key_is key) g (sc_cached s) = l1 ++ g e :: l2) /\
      se_key e = key /\ forall a, a ∈ map se_handle (sc_cached s) -> key_hash c a = Some (key, hf key) -> a = se_handle e
  | None => forall a, a ∈ map se_handle (sc_cached s) -> key_hash c a <> Some (key, hf key)
  end.
Proof.
  intros [H (B & _ & _ & Hd)]. destruct (take_out _ _) as [[e rest]|] eqn:E.
  - apply take_out_Some in E as (l1 & l2 & E1 & -> & E2 & _ & E3). apply bool_decide_eq_true in E2. exists l1, l2. split_and!; try done.
    assert (He : e ∈ sc_cached s) by (rewrite E1; apply elem_of_app; right; left).
    intros a Ha Hk. apply Hd; [done|by apply list_elem_of_In, in_map, list_elem_of_In|]. rewrite Hk, (shape_kh c s e H He). by rewrite E2.
  - intros a Ha Hk. apply list_elem_of_In, in_map_iff in Ha as (e & <- & He%list_elem_of_In). rewrite (shape_kh c s e H He) in Hk. injection Hk as Hk _.
    pose proof (take_out_None _ _ E e He) as Hf. unfold key_is in Hf. by apply bool_decide_eq_false in Hf.
Qed.

Lemma Lookup_ok c s key : refines c s -> Forall (fun e => se_clients e + 2 < 2 ^ 32) (sc_cached s) ->
  exists c', lru_Lookup c key (hf key) = Some (c', (spec_Lookup s key).2) /\ refines c' (spec_Lookup s key).1.
Proof.
  intros H Hcl. pose proof (key_split c s key H) as Hs. destruct H as [H Ht]. unfold lru_Lookup. destruct (ht_Lookup_ok _ _ _ key (hf key) Ht) as (o & Eo & Ho). rewrite Eo. cbn [mbind option_bind].
  unfold spec_Lookup. destruct (take_out (key_is key) (sc_cached s)) as [[e rest]|]; destruct o as [a|].
  - destruct Hs as (l1 & l2 & E1 & _ & E2 & E3 & E4). destruct Ho as [Ha Hk]. rewrite (E4 a Ha Hk). rewrite E2.
    destruct (Ref_ok c s l1 e l2 H E1) as (c' & E5 & E6 & E7); [rewrite E1 in Hcl; by apply list.Forall_app in Hcl as [_ [Hcl _]%list.Forall_cons]|].
    rewrite E5. cbn [mbind option_bind fst snd]. exists c'. split; [done|]. split; [done|]. rewrite E7. apply (table_carry (key_hash c) _ (map se_handle (sc_cached s))); [done|done| |].
    + rewrite E1. cbn. rewrite !map_app. done.
    + cbn. intros x Hx. apply elem_of_app in Hx as [Hx|[->|Hx]%elem_of_cons].
      * apply (shape_kh c s x H). rewrite E1. apply elem_of_app. by left.
      * apply (shape_kh c s e H). rewrite E1. apply elem_of_app. right. left.
      * apply (shape_kh c s x H). rewrite E1. apply elem_of_app. right. by right.
  - destruct Hs as (l1 & l2 & E1 & _ & _ & E3 & _). destruct (Ho (se_handle e)); [rewrite E1, map_app; apply elem_of_app; right; left|].
    rewrite (shape_kh c s e H), E3; [done|]. rewrite E1. apply elem_of_app. right. left.
  - destruct Ho as [Ha Hk]. by destruct (Hs a Ha).
  - by exists c.
Qed.

Lemma Erase_entry c s l1 e l2 : refines c s -> sc_cached s = l1 ++ e :: l2 ->
  exists c', lru_Erase c (se_key e) (hf (se_key e)) = Some c' /\ refines c' (spec_drop (set_cached s (l1 ++ l2)) e).
Proof.
  intros [H Ht] Hc. assert (He : e ∈ sc_cached s) by (rewrite Hc; apply elem_of_app; right; left). pose proof (shape_kh c s e H He) as Hke.
  assert (Hin : se_handle e ∈ map se_handle (sc_cached s)) by (by apply list_elem_of_In, in_map, list_elem_of_In).
  unfold lru_Erase. destruct (ht_Remove_ok _ _ _ (se_key e) (hf (se_key e)) Ht) as (t' & o & es' & Er & Ht' & Hw & Ho). rewrite Er. cbn [mbind option_bind fst snd].
  destruct o as [a|]; [|by destruct (Ho _ Hin)]. cbn in Hw.
  assert (Hae : a = se_handle e) by (destruct Ht as (B & _ & _ & Hd); apply Hd; [rewrite Hw; left|done|by rewrite Ho, Hke]). subst a.
  assert (Hst : shape (set_table c t') s) by (by destruct H).
  destruct (FinishErase_ok (set_table c t') s l1 e l2 Hst Hc) as (c' & E1 & E2 & E3). rewrite E1. cbn [mbind option_bind fst snd]. exists c'. split; [done|]. split; [done|].
  rewrite E3. cbn [set_table table_]. assert (Hcd : sc_cached (spec_drop (set_cached s (l1 ++ l2)) e) = l1 ++ l2) by (unfold spec_drop; by destruct (idle e)).
  apply (table_carry (key_hash c) t' es'); [done|done|rewrite Hcd|rewrite Hcd].
  - apply (Permutation_cons_inv (a := se_handle e)). rewrite <- Hw, Hc, !map_app. cbn [map]. by rewrite <- Permutation_middle.
  - intros x Hx. apply (shape_kh c s x H). rewrite Hc. rewrite elem_of_app in *. rewrite elem_of_cons. tauto.
Qed.

Lemma Erase_ok c s key : refines c s -> exists c', lru_Erase c key (hf key) = Some c' /\ refines c' (spec_Erase s key).
Proof.
  intros H. pose proof (key_split c s key H) as Hs. unfold spec_Erase. destruct (take_out (key_is key) (sc_cached s)) as [[e rest]|].
  - destruct Hs as (l1 & l2 & E1 & -> & _ & <- & _). by apply Erase_entry.
  - destruct H as [H Ht]. unfold lru_Erase. destruct (ht_Remove_ok _ _ _ key (hf key) Ht) as (t' & o & es' & Er & Ht' & Hw & Ho). rewrite Er. cbn [mbind option_bind fst snd].
    destruct o as [a|]; [destruct (Hs a); [rewrite Hw; left|done]|]. eexists. split; [done|]. split; [by destruct H|].
    cbn [set_table table_]. by apply (table_holds_perm _ _ es').
Qed.

Lemma Release_ok c s a : refines c s -> (exists e, e ∈ sc_cached s ++ sc_orphans s /\ se_handle e = a /\ 1 <= se_clients e) ->
  exists c', lru_Release c a = Some c' /\ refines c' (spec_Release s a).
Proof.
  intros [H Ht] (e0 & He0 & Ha & Hcl). pose proof (shape_handles c s H) as Hnd. unfold lru_Release, spec_Release.
  destruct (take_out (is_handle a) (sc_cached s)) as [[e rest]|] eqn:E1.
  - apply take_out_Some in E1 as (l1 & l2 & E1 & -> & E2 & _ & E3). apply Z.eqb_eq in E2. rewrite E3.
    assert (He : e ∈ sc_cached s) by (rewrite E1; apply elem_of_app; right; left).
    assert (e0 = e) as -> by (apply (NoDup_map_inj se_handle _ _ _ Hnd); [done|apply elem_of_app; by left|by rewrite E2]).
    destruct (Unref_cached_ok c s l1 e l2 H E1 Hcl) as (c' & Er & Etab & Hs'). rewrite <- E2, Er. exists c'. split; [done|].
    assert (Hkh : forall x, x = add_clients (-1) e \/ x ∈ l1 \/ x ∈ l2 -> key_hash c (se_handle x) = Some (se_key x, hf (se_key x))).
    { intros x [->|Hx]; [by apply (shape_kh c s e H)|]. apply (shape_kh c s x H). rewrite E1, elem_of_app, elem_of_cons. tauto. }
    destruct (se_clients e =? 1); (split; [done|]); rewrite Etab; (apply (table_carry (key_hash c) _ (map se_handle (sc_cached s))); [done|done| |]); cbn [set_cached sc_cached].
    + rewrite E1, !map_app. cbn. by rewrite <- Permutation_middle, <- app_assoc, Permutation_middle, (Permutation_app_comm _ [_]).
    + intros x Hx. apply Hkh. rewrite !elem_of_app, list_elem_of_singleton in Hx. tauto.
    + by rewrite E1, !map_app.
    + intros x Hx. apply Hkh. rewrite elem_of_app, elem_of_cons in Hx. tauto.
  - pose proof (take_out_None _ _ E1) as Hnone. destruct (take_out (is_handle a) (sc_orphans s)) as [[e rest]|] eqn:E2.
    + apply take_out_Some in E2 as (l1 & l2 & E2 & -> & E3 & _ & E4). apply Z.eqb_eq in E3. rewrite E4.
      destruct (Unref_orphan_ok c s l1 e l2 H E2) as (c' & Er & Etab & Hs'). rewrite <- E3, Er. exists c'. split; [done|]. split; [done|]. rewrite Etab.
      apply (table_carry (key_hash c) _ (map se_handle (sc_cached s))); [done|done|by destruct (se_clients e =? 1)|].
      intros x Hx. apply (shape_kh c s x H). by destruct (se_clients e =? 1).
    + exfalso. apply elem_of_app in He0 as [He0|He0]; [pose proof (Hnone e0 He0) as Hf|pose proof (take_out_None _ _ E2 e0 He0) as Hf]; unfold is_handle in Hf; rewrite Ha, Z.eqb_refl in Hf; done.
Qed.

(** The entry at the head of the LRU list is the one released first. *)
Lemma oldest_split c s : shape c s -> exists old, next (lc_links c) !! lru_ = Some old /\
  match take_out idle (sc_cached s) with
  | Some (e, rest) => old = se_handle e /\ old <> lru_ /\ exists l1 l2, sc_cached s = l1 ++ e :: l2 /\ rest = l1 ++ l2 /\ idle e = true /\ List.filter idle l1 = []
  | None => old = lru_
  end.
Proof.
  intros H. destruct (sh_rings _ _ H) as (iu & (Hr & _ & _) & _). rewrite (ring_next _ _ _ Hr). eexists. split; [done|].
  destruct (take_out idle (sc_cached s)) as [[e rest]|] eqn:E1.
  - apply take_out_Some in E1 as (l1 & l2 & E1 & -> & E2 & E3 & _). assert (Hl1 : List.filter idle l1 = []).
    { clear -E3. induction l1 as [|x l1 IH]; [done|]. cbn. rewrite (E3 x) by left. apply IH. intros y Hy. apply E3. by right. }
    assert (Eh : idle_handles (sc_cached s) = se_handle e :: idle_handles l2) by (rewrite E1, idle_split, E2, Hl1; done).
    rewrite Eh. cbn. split; [done|]. split; [by apply (handles_elsewhere c s l1 e l2)|]. by exists l1, l2.
  - assert (Hnil : List.filter idle (sc_cached s) = []); [|by rewrite Hnil]. pose proof (take_out_None _ _ E1) as Hn. clear -Hn. induction (sc_cached s) as [|x l IH]; [done|].
    cbn. rewrite (Hn x) by left. apply IH. intros y Hy. apply Hn. by right.
Qed.

Lemma erase_oldest_ok c s e l1 l2 : refines c s -> sc_cached s = l1 ++ e :: l2 -> idle e = true ->
  exists c', erase_oldest c (se_handle e) = Some c' /\ refines c' (add_deleted (set_cached s (l1 ++ l2)) e).
Proof.
  intros H Hc Hi. unfold erase_oldest. rewrite (shape_node c s l1 e l2 (proj1 H) Hc). cbn [mbind option_bind node snd h_key h_hash].
  destruct (Erase_entry c s l1 e l2 H Hc) as (c' & E1 & E2). exists c'. split; [done|]. unfold spec_drop in E2. by rewrite Hi in E2.
Qed.

Lemma evict_ok : forall fuel n c s, refines c s -> (length (sc_cached s) <= fuel)%nat -> (length (sc_cached s) <= n)%nat ->
  exists c', evict_loop fuel c = Some c' /\ refines c' (spec_evict n s).
Proof.
  assert (Hstep : forall n s, spec_evict n s = if u64 (total_charge (sc_cached s)) >? sc_capacity s then
    match n, take_out idle (sc_cached s) with S n, Some (e, rest) => spec_evict n (add_deleted (set_cached s rest) e) | _, _ => s end else s) by (by intros []).
  induction fuel as [|fuel IH]; intros n c s H Hf Hn; destruct (oldest_split c s (proj1 H)) as (old & E1 & E2); pose proof H as [Hs _];
    cbn [evict_loop]; rewrite E1, Hstep, (sh_usage _ _ Hs), (sh_capacity _ _ Hs); cbn [mbind option_bind]; (destruct (_ >? _); cbn [andb]; [|by exists c]);
    (destruct (take_out idle (sc_cached s)) as [[e rest]|]; [|rewrite E2, Z.eqb_refl; exists c; by destruct n]);
    destruct E2 as (-> & Hne & l1 & l2 & Hc & -> & Hi & _); rewrite Hc, length_app in Hf, Hn; cbn [length] in Hf, Hn; [lia|].
  destruct (Z.eqb_spec (se_handle e) lru_); [done|]. cbn [negb]. destruct (erase_oldest_ok c s e l1 l2 H Hc Hi) as (c1 & E3 & E4). rewrite E3. cbn [mbind option_bind].
  destruct n as [|n]; [lia|]. apply IH; [done|cbn; rewrite length_app; lia..].
Qed.

Lemma nodes_size c s : shape c s -> (length (sc_cached s) <= base.size (lc_nodes c))%nat.
Proof.
  intros H. destruct (sh_nodes _ _ H) as [Hn ->]. rewrite map_size_list_to_map by done. unfold nodes_of. rewrite length_app, !length_map. lia.
Qed.

Lemma prune_ok : forall fuel c s, refines c s -> (length (sc_cached s) <= fuel)%nat ->
  exists c', prune_loop fuel c = Some c' /\ refines c' (spec_Prune s).
Proof.
  induction fuel as [|fuel IH]; intros c s H Hf; destruct (oldest_split c s (proj1 H)) as (old & E1 & E2); cbn [prune_loop]; rewrite E1; cbn [mbind option_bind];
    destruct (take_out idle (sc_cached s)) as [[e rest]|] eqn:Et.
  2, 4: rewrite E2, Z.eqb_refl; exists c; split; [done|]; pose proof (take_out_None _ _ Et) as Hno; assert (Hid : List.filter idle (sc_cached s) = [] /\ List.filter (fun e => negb (idle e)) (sc_cached s) = sc_cached s)
      by (clear -Hno; induction (sc_cached s) as [|x l IH]; [done|]; cbn; rewrite (Hno x) by left; destruct IH as [-> ->]; [intros y Hy; apply Hno; by right|done]);
    unfold spec_Prune; destruct Hid as [-> ->]; cbn; rewrite app_nil_r; by destruct s.
  all: destruct E2 as (-> & Hne & l1 & l2 & Hc & -> & Hi & Hl1); rewrite Hc, length_app in Hf; cbn [length] in Hf; try lia.
  destruct (Z.eqb_spec (se_handle e) lru_); [done|]. cbn [negb]. destruct (erase_oldest_ok c s e l1 l2 H Hc Hi) as (c1 & E3 & E4). rewrite E3. cbn [mbind option_bind].
  destruct (IH c1 _ E4) as (c' & E5 & E6); [cbn; rewrite length_app; lia|]. exists c'. split; [done|].
  assert (Hp : spec_Prune (add_deleted (set_cached s (l1 ++ l2)) e) = spec_Prune s); [|by rewrite <- Hp].
  unfold spec_Prune. cbn [add_deleted set_cached sc_capacity sc_cached sc_orphans sc_next sc_deleted]. rewrite Hc, !filter_cons_app, !filter_app, Hi, Hl1. cbn. by rewrite <- app_assoc.
Qed.

(** *** Insertion *)

Definition bump_next s : SCache V := MkSCache (sc_capacity s) (sc_cached s) (sc_orphans s) (sc_next s + 1) (sc_deleted s).

Lemma in_range_bump next least es : Forall (entry_in_range next least) es -> Forall (entry_in_range (next + 1) least) es.
Proof. intros H. eapply list.Forall_impl; [exact H|]. intros e (H1 & H2). split; [lia|done]. Qed.

Lemma fresh_handle c s : shape c s -> sc_next s ∉ map se_handle (sc_cached s ++ sc_orphans s).
Proof.
  intros H Hin. apply list_elem_of_In, in_map_iff in Hin as (e & He & Hin%list_elem_of_In). apply elem_of_app in Hin as [Hin|Hin].
  - pose proof (proj1 (list.Forall_forall _ _) (sh_cached _ _ H) e Hin) as [Hr _]. lia.
  - pose proof (proj1 (list.Forall_forall _ _) (sh_orphans _ _ H) e Hin) as [Hr _]. lia.
Qed.

Lemma fresh_node c s : shape c s -> forall e b, se_handle e = sc_next s -> nodes_rel (<[sc_next s := (node b e).2]> (lc_nodes c)) (node b e :: nodes_of s).
Proof.
  intros H e b He. unfold node at 2. rewrite He. apply nodes_rel_new; [apply H|]. pose proof (fresh_handle c s H) as Hf. unfold nodes_of. rewrite fmap_app, map_app in *.
  intros Hin. apply Hf. apply elem_of_app in Hin as [Hin|Hin]; apply elem_of_app; [left|right]; apply list_elem_of_In; apply list_elem_of_In in Hin;
    unfold fmap, list_fmap in Hin; apply in_map_iff in Hin as (p & Hp & (x & <- & Hx)%in_map_iff); apply in_map_iff; by exists x.
Qed.

(** The new entry in the list of those in use. *)
Lemma append_new c s e : shape c s -> 2 <= sc_next s -> se_handle e = sc_next s -> se_clients e = 1 ->
  let c1 := put_node (new_node c (MkHandle (se_key e) (se_value e) (se_charge e) (hf (se_key e)) 1 false)).1 (sc_next s) (node true e).2 in
  exists links, link_before (lc_links c) in_use_ (sc_next s) = Some links /\
    shape (set_usage (set_links c1 links) (u64 (usage_ c + se_charge e))) (set_cached (bump_next s) (sc_cached s ++ [e])).
Proof.
  intros Hs H2 He Hcl c1. pose proof Hs as [H1 Hn H3 H4 H5 H6 H7 (iu & Hri & Hiu)].
  destruct (rings_link _ _ _ _ _ (sc_next s) (rings_sym _ _ _ _ _ Hri)) as (links & E1 & E2).
  { pose proof (fresh_handle c s Hs) as Hf. rewrite map_app in Hf. rewrite elem_of_app, !elem_of_cons, Hiu. pose proof (filtered_handle idle (sc_next s) (sc_cached s)) as G1.
    pose proof (filtered_handle (fun e => negb (idle e)) (sc_next s) (sc_cached s)) as G2. rewrite elem_of_app in Hf. unfold lru_, in_use_. intros [[?|?]|[?|?]]; [lia|tauto|lia|tauto]. }
  exists links. split; [done|]. split; cbn [set_usage set_links put_node new_node fst c1 capacity_ lc_next_address lc_deleted usage_ lc_nodes lc_links set_cached bump_next sc_capacity sc_cached sc_orphans sc_next sc_deleted]; try done.
  - by rewrite Hn.
  - rewrite H4, total_app, total_cons. unfold wrap. rewrite Zplus_mod_idemp_l. f_equal. unfold total_charge. cbn. lia.
  - rewrite Hn, insert_insert_eq. eapply nodes_rel_perm; [|exact (fresh_node c s Hs e true He)]. unfold nodes_of. cbn. rewrite map_app. cbn.
    rewrite <- app_assoc. cbn [app]. by rewrite <- Permutation_middle.
  - apply list.Forall_app. split; [by apply in_range_bump|]. apply list.Forall_singleton. unfold entry_in_range. lia.
  - by apply in_range_bump.
  - exists (iu ++ [sc_next s]). assert (Hid : idle e = false) by (unfold idle; rewrite Hcl; done).
    rewrite idle_split, busy_split, Hid, He. cbn [app map List.filter]. rewrite !app_nil_r. split; [by apply rings_sym|]. by rewrite Hiu.
Qed.


(** With no capacity the entry is the client's alone. *)
Lemma orphan_new c s e n : shape c s -> 2 <= sc_next s -> se_handle e = sc_next s -> se_clients e = 1 ->
  shape (set_links (new_node c (MkHandle (se_key e) (se_value e) (se_charge e) (hf (se_key e)) 1 false)).1 (set_next (lc_links c) (sc_next s) n))
    (set_orphans (bump_next s) (sc_orphans s ++ [e])).
Proof.
  intros Hs H2 He Hcl. pose proof Hs as [H1 Hn H3 H4 H5 H6 H7 (iu & Hri & Hiu)].
  split; cbn [set_links new_node fst capacity_ lc_next_address lc_deleted usage_ lc_nodes lc_links set_orphans bump_next sc_capacity sc_cached sc_orphans sc_next sc_deleted]; try done.
  - by rewrite Hn.
  - rewrite Hn. assert (En : MkHandle (se_key e) (se_value e) (se_charge e) (hf (se_key e)) 1 false = (node false e).2) by (unfold node; by rewrite Hcl). rewrite En.
    eapply nodes_rel_perm; [|exact (fresh_node c s Hs e false He)]. unfold nodes_of. cbn. rewrite map_app. cbn. by rewrite (Permutation_app_comm (map (node false) _) [_]), Permutation_middle.
  - by apply in_range_bump.
  - apply list.Forall_app. split; [by apply in_range_bump|]. apply list.Forall_singleton. unfold entry_in_range. lia.
  - exists iu. split; [|done]. pose proof (fresh_handle c s Hs) as Hf. rewrite map_app, elem_of_app in Hf. destruct Hri as (R1 & R2 & R3).
    pose proof (filtered_handle idle (sc_next s) (sc_cached s)) as G1. pose proof (filtered_handle (fun e => negb (idle e)) (sc_next s) (sc_cached s)) as G2.
    assert (Hfr : forall y, y <> sc_next s -> next (set_next (lc_links c) (sc_next s) n) !! y = next (lc_links c) !! y /\ prev (set_next (lc_links c) (sc_next s) n) !! y = prev (lc_links c) !! y)
      by (intros y Hy; cbn; by rewrite lookup_insert_ne).
    split; [|split; [|done]]; eapply ring_frame; [|exact R1| |exact R2]; intros y Hy; apply Hfr; intros ->; apply elem_of_cons in Hy as [Hy|Hy];
      unfold lru_, in_use_ in Hy; [lia|tauto|lia|rewrite Hiu in Hy; tauto].
Qed.

Lemma spec_erase_parts s key e : set_cached (spec_Erase (bump_next s) key) (sc_cached (spec_Erase (bump_next s) key) ++ [e]) =
  match take_out (key_is key) (sc_cached s) with
  | Some (old, rest) => spec_drop (set_cached (bump_next s) (rest ++ [e])) old
  | None => set_cached (bump_next s) (sc_cached s ++ [e])
  end.
Proof. unfold spec_Erase. cbn [bump_next sc_cached]. destruct (take_out _ _) as [[old rest]|]; [|done]. unfold spec_drop. by destruct (idle old). Qed.

(** The new entry takes the place of the one of its key. *)
Lemma replace_ok c c2 s e : refines c s -> shape c2 (set_cached (bump_next s) (sc_cached s ++ [e])) -> table_ c2 = table_ c ->
  se_handle e = sc_next s -> Z.of_nat (length (sc_cached s)) + 1 < 2 ^ 31 ->
  exists c3, (r ← ht_Insert (key_hash c2) (table_ c2) (sc_next s); r ← FinishErase (set_table c2 r.1) r.2; Some r.1) = Some c3 /\
    refines c3 (set_cached (spec_Erase (bump_next s) (se_key e)) (sc_cached (spec_Erase (bump_next s) (se_key e)) ++ [e])).
Proof.
  intros H Hs2 Htab He Hlen. pose proof (key_split c s (se_key e) H) as Hk. destruct H as [Hs Ht]. rewrite Htab, spec_erase_parts. set (s2 := set_cached (bump_next s) (sc_cached s ++ [e])) in *.
  assert (Hin2 : forall x, x ∈ sc_cached s -> x ∈ sc_cached s2) by (intros x Hx; apply elem_of_app; by left).
  assert (He2 : e ∈ sc_cached s2) by (apply elem_of_app; right; left).
  assert (Hkh : forall a, a ∈ map se_handle (sc_cached s) -> key_hash c2 a = key_hash c a).
  { intros a Ha. apply list_elem_of_In, in_map_iff in Ha as (x & <- & Hx%list_elem_of_In). rewrite (shape_kh c s x Hs Hx). apply (shape_kh c2 s2 x Hs2). by apply Hin2. }
  pose proof (shape_kh c2 s2 e Hs2 He2) as Hke. rewrite He in Hke. pose proof (fresh_handle c s Hs) as Hf. rewrite map_app, elem_of_app in Hf.
  destruct (ht_Insert_ok (key_hash c2) (table_ c) _ (sc_next s) _ (table_holds_kh _ _ _ _ Hkh Ht) ltac:(tauto) Hke) as (t' & o & es' & Ei & Ht' & Hw & Ho); [rewrite length_map; lia|].
  rewrite Ei. cbn [mbind option_bind fst snd]. assert (Hst : shape (set_table c2 t') s2) by (by destruct Hs2).
  destruct o as [a|]; cbn [without] in Hw.
  - assert (Ha : a ∈ map se_handle (sc_cached s)) by (rewrite Hw; left). rewrite Hkh in Ho by done.
    destruct (take_out (key_is (se_key e)) (sc_cached s)) as [[old rest]|]; [|by destruct (Hk a Ha)]. destruct Hk as (l1 & l2 & E1 & -> & _ & E2 & E3). rewrite (E3 a Ha Ho) in *.
    assert (Hc2 : sc_cached s2 = l1 ++ old :: (l2 ++ [e])) by (unfold s2; cbn [set_cached sc_cached]; rewrite E1, <- app_assoc; done).
    destruct (FinishErase_ok (set_table c2 t') s2 l1 old (l2 ++ [e]) Hst Hc2) as (c3 & F1 & F2 & F3). rewrite F1. cbn [mbind option_bind fst snd]. exists c3. split; [done|].
    rewrite <- app_assoc. split; [exact F2|]. rewrite F3. cbn [set_table table_].
    assert (Hcd : sc_cached (spec_drop (set_cached (bump_next s) (l1 ++ l2 ++ [e])) old) = l1 ++ l2 ++ [e]) by (unfold spec_drop; by destruct (idle old)).
    apply (table_carry (key_hash c2) t' (sc_next s :: es')); [exact F2|exact Ht'|rewrite Hcd|rewrite Hcd].
    + rewrite E1, map_app in Hw. cbn [map] in Hw. rewrite <- Permutation_middle in Hw. apply Permutation_cons_inv in Hw. rewrite !map_app, app_assoc, Hw. cbn [map].
      by rewrite He, (Permutation_app_comm es' [_]).
    + intros x Hx. apply (shape_kh c2 s2 x Hs2). rewrite Hc2, elem_of_app, elem_of_cons. rewrite elem_of_app in Hx. tauto.
  - destruct (take_out (key_is (se_key e)) (sc_cached s)) as [[old rest]|] eqn:Eto.
    { destruct Hk as (l1 & l2 & E1 & -> & _ & E2 & _). assert (Hold : old ∈ sc_cached s) by (rewrite E1; apply elem_of_app; right; left).
      destruct (Ho (se_handle old)); [by apply list_elem_of_In, in_map, list_elem_of_In|]. rewrite (shape_kh c2 s2 old Hs2) by (by apply Hin2). by rewrite E2. }
    eexists. split; [done|]. split; [exact Hst|]. apply (table_carry (key_hash c2) t' (sc_next s :: es')); [exact Hst|exact Ht'| |by intros x Hx; apply (shape_kh c2 s2)].
    unfold s2. cbn [set_cached sc_cached]. rewrite map_app. cbn [map]. by rewrite He, <- Hw, (Permutation_app_comm _ [_]).
Qed.

Lemma Insert_ok c s key value charge : refines c s -> 2 <= sc_next s -> Z.of_nat (length (sc_cached s)) + 1 < 2 ^ 31 ->
  exists c', lru_Insert c key (hf key) value charge = Some (c', (spec_Insert s key value charge).2) /\ refines c' (spec_Insert s key value charge).1.
Proof.
  intros H H2 Hlen. set (e := MkSEntry (sc_next s) key value charge 1). pose proof H as [Hs Ht]. unfold lru_Insert, spec_Insert. fold (bump_next s). fold e. cbn [bump_next sc_capacity].
  assert (Hfin : forall c3 s3, refines c3 s3 -> exists c', (c ← evict_loop (base.size (lc_nodes c3)) c3; Some (c, sc_next s)) = Some (c', sc_next s) /\ refines c' (spec_evict (length (sc_cached s3)) s3)).
  { intros c3 s3 H3. destruct (evict_ok (base.size (lc_nodes c3)) (length (sc_cached s3)) c3 s3 H3 (nodes_size c3 s3 (proj1 H3)) (le_n _)) as (c' & E1 & E2). rewrite E1. by exists c'. }
  cbn [new_node capacity_]. rewrite (sh_next _ _ Hs), (sh_capacity _ _ Hs). change (se_handle e) with (sc_next s). cbn [fst snd]. destruct (sc_capacity s >? 0).
  - destruct (append_new c s e Hs H2 eq_refl eq_refl) as (links & E1 & E2). unfold LRU_Append. cbn [put_node lc_links]. rewrite E1. cbn [mbind option_bind].
    cbn [new_node fst] in E2. rewrite (sh_next _ _ Hs), (sh_capacity _ _ Hs) in E2. match type of E2 with shape ?x _ => set (c2 := x) in * end.
    destruct (replace_ok c c2 s e H E2 eq_refl eq_refl Hlen) as (c3 & E3 & E4).
    match goal with |- context [ht_Insert (key_hash ?x) (table_ ?x) (sc_next s)] => change x with c2 end.
    assert (Hb : forall k : LRUCache V -> option (LRUCache V * Z), (r ← (r ← ht_Insert (key_hash c2) (table_ c2) (sc_next s); r ← FinishErase (set_table c2 r.1) r.2; Some r.1); k r) = k c3) by (intros k; by rewrite E3).
    rewrite Hb. apply Hfin. exact E4.
  - cbn [mbind option_bind]. apply Hfin. pose proof (orphan_new c s e (-1) Hs H2 eq_refl eq_refl) as E2. cbn [new_node fst] in E2. rewrite (sh_next _ _ Hs), (sh_capacity _ _ Hs) in E2. split; [exact E2|].
    apply (table_carry (key_hash c) _ (map se_handle (sc_cached s))); [exact E2|exact Ht|done|]. intros x Hx. by apply (shape_kh c s).
Qed.

(** *** Making and deleting a cache *)

Definition NewSCache (capacity : Z) : SCache V := MkSCache capacity [] [] 2 [].

Lemma New_ok capacity : exists c, NewLRU (V := V) = Some c /\ refines (set_capacity c capacity) (NewSCache capacity).
Proof.
  destruct (NewHandleTable_holds (fun _ => None)) as (t & Et & Ht). unfold NewLRU. rewrite Et. cbn [mbind option_bind]. eexists. split; [done|]. split.
  - split; try done; [by split; [constructor|]|]. exists []. split; [|done]. split; [|split]; [apply ring_empty; by vm_compute|apply ring_empty; by vm_compute|].
    repeat constructor; intros Hin; [apply list_elem_of_singleton in Hin; done|by apply elem_of_nil in Hin].
  - cbn. eapply table_holds_kh; [|exact Ht]. intros a Ha. by apply elem_of_nil in Ha.
Qed.

(** The destructor goes along the list; it frees each entry after it has read its link. *)
Lemma destroy_chain : forall es fuel c a rest,
  chain (lc_links c) a (map se_handle es) lru_ -> NoDup (map se_handle es) -> lru_ ∉ map se_handle es -> nodes_rel (lc_nodes c) (map (node true) es ++ rest) ->
  (forall e, e ∈ es -> idle e = true) -> (length es <= fuel)%nat ->
  exists (b : Z) c', next (lc_links c) !! a = Some b /\ delete_loop fuel c b = Some c' /\ nodes_rel (lc_nodes c') rest /\
    lc_deleted c' = lc_deleted c ++ map (fun e => (se_key e, se_value e)) es.
Proof.
  induction es as [|e es IH]; intros fuel c a rest Hc Hn Hl Hr Hi Hf.
  - destruct Hc as [Hc _]. exists lru_, c. cbn. rewrite app_nil_r. destruct fuel; by split_and!.
  - cbn [map chain] in Hc. destruct Hc as (H1 & _ & Hc). destruct fuel as [|fuel]; [cbn in Hf; lia|]. cbn [map app] in Hr.
    destruct (nodes_rel_cons _ (se_handle e) (node true e).2 _ Hr) as (Hnode & Hput & Hdel). cbn [map] in Hn, Hl. apply list.NoDup_cons in Hn as [_ Hn]. apply not_elem_of_cons in Hl as [Hne Hl].
    assert (Hz : se_clients e = 0) by (pose proof (Hi e ltac:(left)) as Hz; by apply Z.eqb_eq in Hz).
    set (c1 := free_node (put_node (put_node c (se_handle e) (set_in_cache (node true e).2 false)) (se_handle e) (set_refs (set_in_cache (node true e).2 false) 0)) (se_handle e) (set_refs (set_in_cache (node true e).2 false) 0)).
    assert (Hc1 : lc_nodes c1 = delete (se_handle e) (lc_nodes c)) by (cbn; by rewrite insert_insert_eq, delete_insert_eq).
    destruct (IH fuel c1 (se_handle e) rest) as (nx & c' & E1 & E2 & E3 & E4); try done; [by rewrite Hc1|intros x Hx; apply Hi; by right|cbn in Hf; lia|].
    exists (se_handle e), c'. split; [done|]. split; [|split; [done|rewrite E4; cbn; by rewrite <- app_assoc]].
    cbn [delete_loop]. destruct (Z.eqb_spec (se_handle e) lru_); [done|]. change (lc_links c1) with (lc_links c) in E1. rewrite E1. cbn [mbind option_bind]. rewrite Hnode. cbn [mbind option_bind].
    unfold lru_Unref. cbn [put_node lc_nodes]. rewrite lookup_insert_eq. cbn [mbind option_bind].
    assert (Hrefs : u32 (h_refs (set_in_cache (node true e).2 false) - 1) = 0) by (cbn; by rewrite Hz). rewrite Hrefs. cbn [h_refs set_refs]. exact E2.
Qed.

(** When no client has a cached entry, every one of them is deleted, once. *)
Lemma Destroy_ok c s : refines c s -> (forall e, e ∈ sc_cached s -> idle e = true) ->
  exists c', lru_Destroy c = Some c' /\ lc_deleted c' = sc_deleted s ++ map (fun e => (se_key e, se_value e)) (sc_cached s) /\
    nodes_rel (lc_nodes c') (map (node false) (sc_orphans s)).
Proof.
  intros [H _] Hi. destruct (sh_rings _ _ H) as (iu & ((Hc & Hnr) & _ & _) & _).
  assert (Hid : List.filter idle (sc_cached s) = sc_cached s).
  { clear -Hi. induction (sc_cached s) as [|x l IH]; [done|]. cbn. rewrite (Hi x) by left. f_equal. apply IH. intros y Hy. apply Hi. by right. }
  rewrite Hid in Hc, Hnr. apply list.NoDup_cons in Hnr as [Hl Hn].
  destruct (destroy_chain (sc_cached s) (base.size (lc_nodes c)) c lru_ (map (node false) (sc_orphans s)) Hc Hn Hl (sh_nodes _ _ H) Hi (nodes_size c s H)) as (e & c' & E1 & E2 & E3 & E4).
  exists c'. split; [unfold lru_Destroy; by rewrite E1|]. split; [by rewrite E4, (sh_deleted _ _ H)|done].
Qed.
End refinement.

(** ** Runs *)

Inductive CacheOp (V : Type) :=
| OInsert (key : bytes) (value : V) (charge : Z)
| OLookup (key : bytes)
| ORelease (handle : Z)
| OErase (key : bytes)
| OPrune.
Arguments OInsert {V} _ _ _.
Arguments OLookup {V} _.
Arguments ORelease {V} _.
Arguments OErase {V} _.
Arguments OPrune {V}.

Section runs.
Context {V : Type} (hf : bytes -> Z).
Implicit Types (c : LRUCache V) (s : SCache V) (e : SEntry V).

Definition no_handle (c : option (LRUCache V)) : option (LRUCache V * option Z) := c ← c; Some (c, None).

Definition cache_step c (op : CacheOp V) : option (LRUCache V * option Z) :=
  match op with
  | OInsert key value charge => r ← lru_Insert c key (hf key) value charge; Some (r.1, Some r.2)
  | OLookup key => lru_Lookup c key (hf key)
  | ORelease a => no_handle (lru_Release c a)
  | OErase key => no_handle (lru_Erase c key (hf key))
  | OPrune => no_handle (lru_Prune c)
  end.

Definition spec_step s (op : CacheOp V) : SCache V * option Z :=
  match op with
  | OInsert key value charge => let r := spec_Insert s key value charge in (r.1, Some r.2)
  | OLookup key => spec_Lookup s key
  | ORelease a => (spec_Release s a, None)
  | OErase key => (spec_Erase s key, None)
  | OPrune => (spec_Prune s, None)
  end.

(** A client releases only a handle it has; the counters have room. *)
Definition admissible s (op : CacheOp V) : Prop :=
  match op with
  | OInsert _ _ _ => Z.of_nat (length (sc_cached s)) + 1 < 2 ^ 31
  | OLookup _ => Forall (fun e => se_clients e + 2 < 2 ^ 32) (sc_cached s)
  | ORelease a => Exists (fun e => se_handle e = a /\ 1 <= se_clients e) (sc_cached s ++ sc_orphans s)
  | _ => True
  end.

Fixpoint cache_run c (ops : list (CacheOp V)) : option (LRUCache V * list (option Z)) :=
  match ops with
  | [] => Some (c, [])
  | op :: ops => r ← cache_step c op; q ← cache_run r.1 ops; Some (q.1, r.2 :: q.2)
  end.

Fixpoint spec_run s (ops : list (CacheOp V)) : SCache V * list (option Z) :=
  match ops with
  | [] => (s, [])
  | op :: ops => let r := spec_step s op in let q := spec_run r.1 ops in (q.1, r.2 :: q.2)
  end.

Fixpoint admissible_run s (ops : list (CacheOp V)) : Prop :=
  match ops with [] => True | op :: ops => admissible s op /\ admissible_run (spec_step s op).1 ops end.

Lemma spec_evict_next n : forall s, sc_next (spec_evict n s) = sc_next s.
Proof. induction n as [|n IH]; intros s; cbn; destruct (_ >? _); try done. destruct (take_out _ _) as [[e rest]|]; [by rewrite IH|done]. Qed.

Lemma spec_erase_next s key : sc_next (spec_Erase s key) = sc_next s.
Proof. unfold spec_Erase, spec_drop. destruct (take_out _ _) as [[e rest]|]; [|done]. by destruct (idle e). Qed.

Lemma spec_step_next s op : sc_next s <= sc_next (spec_step s op).1.
Proof.
  destruct op as [key value charge|key|a|key|]; cbn; try lia.
  - rewrite spec_evict_next. destruct (_ >? 0); cbn; rewrite ?spec_erase_next; cbn; lia.
  - unfold spec_Lookup. destruct (take_out _ _) as [[e rest]|]; cbn; lia.
  - unfold spec_Release. destruct (take_out _ _) as [[e rest]|]; [destruct (_ =? 1); cbn; lia|]. destruct (take_out _ _) as [[e rest]|]; [destruct (_ =? 1); cbn; lia|lia].
  - rewrite spec_erase_next. lia.
Qed.

Lemma cache_step_ok c s op : refines hf c s -> 2 <= sc_next s -> admissible s op ->
  exists c', cache_step c op = Some (c', (spec_step s op).2) /\ refines hf c' (spec_step s op).1.
Proof.
  intros H H2 Ha. destruct op as [key value charge|key|a|key|]; cbn [cache_step spec_step admissible fst snd] in *.
  - destruct (Insert_ok hf c s key value charge H H2 Ha) as (c' & E1 & E2). rewrite E1. by exists c'.
  - by apply Lookup_ok.
  - destruct (Release_ok hf c s a H) as (c' & E1 & E2); [by apply list.Exists_exists in Ha|]. rewrite E1. by exists c'.
  - destruct (Erase_ok hf c s key H) as (c' & E1 & E2). rewrite E1. by exists c'.
  - destruct (prune_ok hf (base.size (lc_nodes c)) c s H (nodes_size hf c s (proj1 H))) as (c' & E1 & E2). unfold lru_Prune. rewrite E1. by exists c'.
Qed.

Lemma cache_run_ok ops : forall c s, refines hf c s -> 2 <= sc_next s -> admissible_run s ops ->
  exists c', cache_run c ops = Some (c', (spec_run s ops).2) /\ refines hf c' (spec_run s ops).1.
Proof.
  induction ops as [|op ops IH]; intros c s H H2 Ha; [by exists c|]. destruct Ha as [Ha Has]. destruct (cache_step_ok c s op H H2 Ha) as (c1 & E1 & H1).
  destruct (IH c1 _ H1) as (c' & E2 & H3); [pose proof (spec_step_next s op); lia|done|]. exists c'. cbn [cache_run spec_run fst snd]. rewrite E1. cbn [mbind option_bind fst snd]. by rewrite E2.
Qed.

(** *** Each entry is deleted once *)

Definition pair_of e : bytes * V := (se_key e, se_value e).
Definition pairs s : list (bytes * V) := sc_deleted s ++ map pair_of (sc_cached s) ++ map pair_of (sc_orphans s).

Definition inserted_pairs (ops : list (CacheOp V)) : list (bytes * V) :=
  flat_map (fun op => match op with OInsert key value _ => [(key, value)] | _ => [] end) ops.

Lemma pairs_drop s e l1 l2 : sc_cached s = l1 ++ e :: l2 -> pairs (spec_drop (set_cached s (l1 ++ l2)) e) ≡ₚ pairs s.
Proof.
  intros Hc. unfold pairs, spec_drop. rewrite Hc. assert (Hm : forall (x : bytes * V) l, x :: l = [x] ++ l) by done.
  destruct (idle e); cbn; rewrite !map_app; cbn [map]; rewrite (Hm _ (map pair_of l2)); solve_Permutation.
Qed.

Lemma pairs_erase s key : pairs (spec_Erase s key) ≡ₚ pairs s.
Proof. unfold spec_Erase. destruct (take_out _ _) as [[e rest]|] eqn:E; [|done]. apply take_out_Some in E as (l1 & l2 & E1 & -> & _). by apply pairs_drop. Qed.

Lemma pairs_evict n : forall s, pairs (spec_evict n s) ≡ₚ pairs s.
Proof.
  induction n as [|n IH]; intros s; cbn; destruct (_ >? _); try done. destruct (take_out _ _) as [[e rest]|] eqn:E; [|done]. rewrite IH.
  apply take_out_Some in E as (l1 & l2 & E1 & -> & Ei & _). rewrite <- (pairs_drop s e l1 l2 E1). unfold spec_drop. by rewrite Ei.
Qed.

Lemma change_pairs f n es : map pair_of (change f (add_clients n) es) = map pair_of es.
Proof. induction es as [|e es IH]; [done|]. cbn. destruct (f e); cbn; [done|]. by rewrite IH. Qed.

Lemma pairs_release s a : pairs (spec_Release s a) ≡ₚ pairs s.
Proof.
  unfold spec_Release. destruct (take_out _ (sc_cached s)) as [[e rest]|] eqn:E.
  - apply take_out_Some in E as (l1 & l2 & E1 & -> & _). destruct (_ =? 1); unfold pairs; cbn; [|by rewrite change_pairs].
    rewrite E1, !map_app. cbn. by rewrite (Permutation_app_comm _ [_]), <- !Permutation_middle, <- app_assoc.
  - clear E. destruct (take_out _ (sc_orphans s)) as [[e rest]|] eqn:E; [|done]. apply take_out_Some in E as (l1 & l2 & E1 & -> & _).
    destruct (_ =? 1); unfold pairs; cbn; [|by rewrite change_pairs]. rewrite E1, !map_app. cbn. rewrite <- !app_assoc. cbn. by rewrite <- !Permutation_middle.
Qed.

Lemma filter_perm {A} (f : A -> bool) l : List.filter f l ++ List.filter (fun x => negb (f x)) l ≡ₚ l.
Proof. induction l as [|x l IH]; [done|]. cbn. destruct (f x); cbn; [by rewrite IH|]. by rewrite <- Permutation_middle, IH. Qed.

Lemma pairs_step s op : pairs (spec_step s op).1 ≡ₚ pairs s ++ inserted_pairs [op].
Proof.
  destruct op as [key value charge|key|a|key|]; cbn [spec_step fst]; cbn [inserted_pairs flat_map app]; rewrite ?app_nil_r.
  - unfold spec_Insert. cbn [fst]. rewrite pairs_evict. fold (bump_next s). destruct (_ >? 0).
    + rewrite <- (pairs_erase (bump_next s) key). unfold pairs. cbn. rewrite map_app. cbn. by rewrite <- !app_assoc, (Permutation_app_comm [_]).
    + unfold pairs. cbn. rewrite map_app. cbn. by rewrite !app_assoc.
  - unfold spec_Lookup. destruct (take_out _ _) as [[e rest]|]; [|done]. unfold pairs. cbn. by rewrite change_pairs.
  - apply pairs_release.
  - apply pairs_erase.
  - unfold pairs, spec_Prune. cbn. rewrite <- app_assoc. apply Permutation_app_head. rewrite app_assoc. apply Permutation_app_tail.
    change (fun e => (se_key e, se_value e)) with pair_of. by rewrite <- map_app, filter_perm.
Qed.

Lemma pairs_run ops : forall s, pairs (spec_run s ops).1 ≡ₚ pairs s ++ inserted_pairs ops.
Proof.
  induction ops as [|op ops IH]; intros s; [cbn; by rewrite app_nil_r|]. cbn [spec_run fst]. rewrite IH, pairs_step, <- app_assoc. unfold inserted_pairs. by rewrite <- flat_map_app.
Qed.

(** *** The capacity *)

Lemma spec_evict_fits n : forall s, (length (sc_cached s) <= n)%nat ->
  u64 (total_charge (sc_cached (spec_evict n s))) <= sc_capacity s \/ (forall e, e ∈ sc_cached (spec_evict n s) -> idle e = false).
Proof.
  induction n as [|n IH]; intros s Hn; cbn; destruct (Z.gtb_spec (u64 (total_charge (sc_cached s))) (sc_capacity s)); try (by left).
  - right. destruct (sc_cached s); [intros e He; by apply elem_of_nil in He|cbn in Hn; lia].
  - destruct (take_out _ _) as [[e rest]|] eqn:E; [|right; by apply take_out_None]. apply (IH (add_deleted (set_cached s rest) e)).
    apply take_out_Some in E as (l1 & l2 & E1 & -> & _). cbn. rewrite E1, length_app in Hn. cbn in Hn. rewrite length_app. lia.
Qed.

Lemma spec_step_capacity s op : sc_capacity (spec_step s op).1 = sc_capacity s.
Proof.
  assert (Hev : forall n s, sc_capacity (spec_evict n s) = sc_capacity s).
  { induction n as [|n IH]; intros s0; cbn; destruct (_ >? _); try done. destruct (take_out _ _) as [[e rest]|]; [by rewrite IH|done]. }
  assert (Her : forall s key, sc_capacity (spec_Erase s key) = sc_capacity s).
  { intros s0 key. unfold spec_Erase, spec_drop. destruct (take_out _ _) as [[e rest]|]; [|done]. by destruct (idle e). }
  destruct op as [key value charge|key|a|key|]; cbn; try done.
  - rewrite Hev. destruct (_ >? 0); cbn; by rewrite ?Her.
  - unfold spec_Lookup. by destruct (take_out _ _) as [[e rest]|].
  - unfold spec_Release. destruct (take_out _ _) as [[e rest]|]; [by destruct (_ =? 1)|]. destruct (take_out _ _) as [[e rest]|]; [by destruct (_ =? 1)|done].
Qed.

Lemma spec_run_snoc ops op : forall s, (spec_run s (ops ++ [op])).1 = (spec_step (spec_run s ops).1 op).1.
Proof. induction ops as [|o ops IH]; intros s; [done|]. cbn. by rewrite IH. Qed.

Lemma spec_run_capacity ops s : sc_capacity (spec_run s ops).1 = sc_capacity s.
Proof. revert s. induction ops as [|op ops IH]; intros s; [done|]. cbn. by rewrite IH, spec_step_capacity. Qed.

Lemma last_insert_fits s ops key value charge : list.last ops = Some (OInsert key value charge) ->
  let s' := (spec_run s ops).1 in u64 (total_charge (sc_cached s')) <= sc_capacity s \/ (forall e, e ∈ sc_cached s' -> idle e = false).
Proof.
  destruct ops as [|op ops _] using rev_ind; [done|]. rewrite last_snoc, spec_run_snoc. intros [= ->] s'. unfold s'. cbn [spec_step fst].
  rewrite <- (spec_run_capacity ops s). unfold spec_Insert. set (s0 := (spec_run s ops).1). fold (bump_next s0).
  match goal with |- context [spec_evict ?n ?x] => assert (Hc : sc_capacity x = sc_capacity s0) end.
  { unfold spec_Erase, spec_drop. cbn. destruct (_ >? 0); [|done]. destruct (take_out _ _) as [[e rest]|]; [|done]. by destruct (idle e). }
  rewrite <- Hc. by apply spec_evict_fits.
Qed.

Lemma refines_value c s e : refines hf c s -> e ∈ sc_cached s ++ sc_orphans s -> lru_Value c (se_handle e) = Some (se_value e).
Proof.
  intros [H _] He. unfold lru_Value. apply elem_of_app in He as [(l1 & l2 & He)%list_elem_of_split|(l1 & l2 & He)%list_elem_of_split].
  - by rewrite (shape_node hf c s l1 e l2 H He).
  - pose proof (nodes_rel_perm _ _ _ (nodes_orphan hf s l1 e l2 He) (sh_nodes _ _ _ H)) as Hn. by destruct (nodes_rel_cons _ (se_handle e) (node hf false e).2 _ Hn) as (-> & _).
Qed.

#[export] Instance admissible_dec s op : Decision (admissible s op).
Proof. destruct op; cbn; apply _. Defined.

#[export] Instance admissible_run_dec : forall ops s, Decision (admissible_run s ops).
Proof. induction ops as [|op ops IH]; intros s; cbn; apply _. Defined.
End runs.

(** ** Sharding *)

Definition kNumShardBits : Z := 4.
Definition kNumShards : Z := Z.shiftl 1 kNumShardBits.

Record ShardedLRUCache (V : Type) := MkSharded { shard_ : list (LRUCache V); last_id_ : Z }.
Arguments MkSharded {V} _ _.
Arguments shard_ {V} _.
Arguments last_id_ {V} _.

Section sharded.
Context {V : Type}.
Implicit Types (c : ShardedLRUCache V).

Definition HashSlice (s : bytes) : Z := Hash s 0.
Definition Shard (hash : Z) : nat := Z.to_nat (Z.shiftr hash (32 - kNumShardBits)).

Definition NewShardedLRUCache (capacity : Z) : option (ShardedLRUCache V) :=
  let per_shard := u64 (capacity + (kNumShards - 1)) / kNumShards in
  c ← NewLRU;
  Some (MkSharded (replicate (Z.to_nat kNumShards) (set_capacity c per_shard)) 0).

(** An operation of one shard. *)
Definition with_shard {A} c (i : nat) (f : LRUCache V -> option (LRUCache V * A)) : option (ShardedLRUCache V * A) :=
  s ← shard_ c !! i;
  r ← f s;
  Some (MkSharded (<[i := r.1]> (shard_ c)) (last_id_ c), r.2).

(** A handle is the address of an entry, in the memory of its shard. *)
Definition Handle : Type := nat * Z.

Definition Sharded_Insert c (key : bytes) (value : V) (charge : Z) : option (ShardedLRUCache V * Handle) :=
  let hash := HashSlice key in
  r ← with_shard c (Shard hash) (fun s => lru_Insert s key hash value charge);
  Some (r.1, (Shard hash, r.2)).

Definition Sharded_Lookup c (key : bytes) : option (ShardedLRUCache V * option Handle) :=
  let hash := HashSlice key in
  r ← with_shard c (Shard hash) (fun s => lru_Lookup s key hash);
  Some (r.1, option_map (pair (Shard hash)) r.2).

Definition Sharded_node c (handle : Handle) : option (LRUHandle V) := s ← shard_ c !! handle.1; lc_nodes s !! handle.2.

Definition Sharded_Release c (handle : Handle) : option (ShardedLRUCache V) :=
  h ← Sharded_node c handle;
  r ← with_shard c (Shard (h_hash h)) (fun s => s ← lru_Release s handle.2; Some (s, tt));
  Some r.1.

Definition Sharded_Erase c (key : bytes) : option (ShardedLRUCache V) :=
  let hash := HashSlice key in
  r ← with_shard c (Shard hash) (fun s => s ← lru_Erase s key hash; Some (s, tt));
  Some r.1.

Definition Sharded_Value c (handle : Handle) : option V := h_value <$> Sharded_node c handle.

Definition Sharded_NewId c : ShardedLRUCache V * Z := let id := u64 (last_id_ c + 1) in (MkSharded (shard_ c) id, id).

Definition Sharded_Prune c : option (ShardedLRUCache V) := ss ← mapM lru_Prune (shard_ c); Some (MkSharded ss (last_id_ c)).

Definition Sharded_TotalCharge c : Z := foldl (fun total s => u64 (total + usage_ s)) 0 (shard_ c).
End sharded.

(** ** Properties *)

(** C15. The cache refines a list.  Whatever the capacity and the hash function, a run of
    insertions, lookups, releases, erasures and prunings, in which clients release only
    handles they hold, succeeds and returns the handles that the list-based cache returns:
    a key has one entry at most, an entry leaves when its key is inserted_pairs again or erased
    or when the capacity is exceeded, and then those that nobody uses leave in the order
    in which they were released.  The charge, the deletions and their order are those of
    the list; a handle that a client holds keeps its value, even after its entry left; and
    right after an insertion the charge is within the capacity unless every entry is in
    use. *)
Theorem lru_cache_refines {V} (hf : bytes -> Z) (capacity : Z) (ops : list (CacheOp V)) :
  admissible_run (NewSCache capacity) ops ->
  let s := (spec_run (NewSCache capacity) ops).1 in
  exists c0 c, NewLRU = Some c0 /\ cache_run hf (set_capacity c0 capacity) ops = Some (c, (spec_run (NewSCache capacity) ops).2) /\
    usage_ c = u64 (total_charge (sc_cached s)) /\ lc_deleted c = sc_deleted s /\
    (forall e, e ∈ sc_cached s ++ sc_orphans s -> lru_Value c (se_handle e) = Some (se_value e)) /\
    (forall key value charge, list.last ops = Some (OInsert key value charge) -> usage_ c <= capacity \/ forall e, e ∈ sc_cached s -> idle e = false).
Proof.
  intros Ha s. destruct (New_ok (V := V) hf capacity) as (c0 & E0 & H0). destruct (cache_run_ok hf ops _ _ H0 ltac:(cbn; lia) Ha) as (c & E1 & H1).
  exists c0, c. split; [done|]. split; [exact E1|]. destruct H1 as [Hs Ht] eqn:EH. clear EH. split; [apply (sh_usage _ _ _ Hs)|]. split; [apply (sh_deleted _ _ _ Hs)|].
  split; [intros e; by apply (refines_value hf)|]. intros key value charge Hl. rewrite (sh_usage _ _ _ Hs). by apply (last_insert_fits (NewSCache capacity) ops key value charge).
Qed.

(** C16. Every entry is deleted exactly once.  After any such run in which the clients have
    released what they held, the destructor succeeds; then the deleter has been called for
    every insertion, once for each, with its key and value, and no entry is left. *)
Theorem lru_cache_deletes_once {V} (hf : bytes -> Z) (capacity : Z) (ops : list (CacheOp V)) :
  admissible_run (NewSCache capacity) ops ->
  let s := (spec_run (NewSCache capacity) ops).1 in (forall e, e ∈ sc_cached s ++ sc_orphans s -> se_clients e = 0) ->
  exists c0 c c', NewLRU = Some c0 /\ cache_run hf (set_capacity c0 capacity) ops = Some (c, (spec_run (NewSCache capacity) ops).2) /\
    lru_Destroy c = Some c' /\ lc_deleted c' ≡ₚ inserted_pairs ops /\ lc_nodes c' = ∅.
Proof.
  intros Ha s Hz. destruct (New_ok (V := V) hf capacity) as (c0 & E0 & H0). destruct (cache_run_ok hf ops _ _ H0 ltac:(cbn; lia) Ha) as (c & E1 & H1). fold s in H1.
  assert (Hno : sc_orphans s = []).
  { pose proof (sh_orphans _ _ _ (proj1 H1)) as Hf. destruct (sc_orphans s) as [|e l] eqn:E; [done|]. apply list.Forall_cons in Hf as [(_ & Hf & _) _].
    rewrite (Hz e) in Hf; [lia|]. apply elem_of_app. right. left. }
  destruct (Destroy_ok hf c s H1) as (c' & E2 & E3 & [_ E4]); [intros e He; apply Z.eqb_eq, Hz, elem_of_app; by left|].
  exists c0, c, c'. split; [done|]. split; [exact E1|]. split; [exact E2|]. rewrite Hno in E4. split; [|exact E4].
  pose proof (pairs_run ops (NewSCache capacity)) as Hp. fold s in Hp. unfold pairs in Hp. rewrite Hno in Hp. cbn in Hp. rewrite app_nil_r in Hp. by rewrite E3.
Qed.

(** *** An example: of three entries two fit *)

Definition cache_ops : list (CacheOp Z) :=
  [OInsert (str "a") 1 1; OInsert (str "b") 2 1; ORelease 3; ORelease 2; OLookup (str "b"); OInsert (str "c") 5 1; OLookup (str "a"); ORelease 3; ORelease 4].

Lemma lru_cache_refines_witness :
  exists c0 c, NewLRU = Some c0 /\ cache_run HashSlice (set_capacity c0 2) cache_ops = Some (c, [Some 2; Some 3; None; None; Some 3; Some 4; None; None; None]) /\
    lc_deleted c = [(str "a", 1)].
Proof.
  destruct (lru_cache_refines HashSlice 2 cache_ops) as (c0 & c & E0 & E1 & _ & E2 & _).
  - apply (bool_decide_unpack _). vm_compute. exact Logic.I.
  - exists c0, c. split; [exact E0|]. split; [rewrite E1; vm_compute; reflexivity|]. rewrite E2. vm_compute. reflexivity.
Defined.

Lemma lru_cache_deletes_once_witness :
  exists c0 c c' rs, NewLRU = Some c0 /\ cache_run HashSlice (set_capacity c0 2) cache_ops = Some (c, rs) /\ lru_Destroy c = Some c' /\
    lc_deleted c' ≡ₚ [(str "a", 1); (str "b", 2); (str "c", 5)].
Proof.
  destruct (lru_cache_deletes_once HashSlice 2 cache_ops) as (c0 & c & c' & E0 & E1 & E2 & E3 & _).
  - apply (bool_decide_unpack _). vm_compute. exact Logic.I.
  - apply list.Forall_forall. apply (bool_decide_unpack _). vm_compute. exact Logic.I.
  - exists c0, c, c', (spec_run (NewSCache 2) cache_ops).2. split; [exact E0|]. split; [exact E1|]. split; [exact E2|]. exact E3.
Defined.
