(* ===== verification/SkipList.v ===== *)
(** * The skip list

    Models [cpp/leveldb/db/skiplist.h].  The nodes live in a store indexed by
    their allocation order, so links are indices and shared nodes are shared.
    Reading a link that does not exist (a level at or above the node's height)
    and using an uninitialised entry of [prev] are [None]: [SkipList_ok] is the
    invariant under which neither happens. *)
From stdpp Require Import sorting sets.
From S2P Require Import Prelude Random.

(** [Comparator const compare_] *)
Class Compare (K : Type) := compare_ : K -> K -> Z.

(** A three-way comparison that is a total preorder. *)
Class CompareLaws (K : Type) `{Compare K} : Prop := {
  compare_refl a : compare_ a a = 0;
  compare_antisym a b : Z.sgn (compare_ b a) = - Z.sgn (compare_ a b);
  compare_trans a b c : compare_ a b <= 0 -> compare_ b c <= 0 -> compare_ a c <= 0
}.

Definition kMaxHeight : nat := 12.
Definition kBranching : Z := 4.

(** [struct Node]: the key and the links [next_], one for each level the node has;
    [None] is [nullptr]. *)
Record Node (K : Type) := MkNode { n_key : K; n_next : list (option nat) }.
Arguments MkNode {K} _ _.
Arguments n_key {K} _.
Arguments n_next {K} _.

Record SkipList (K : Type) := MkSkipList { nodes : list (Node K); max_height_ : nat; rnd_ : Z }.
Arguments MkSkipList {K} _ _ _.
Arguments nodes {K} _.
Arguments max_height_ {K} _.
Arguments rnd_ {K} _.

(** [head_] is the first node allocated. *)
Definition head_ : nat := 0.

Section skiplist.
Context {K : Type} `{Compare K}.

(** [SkipList(cmp, arena)]; [any] is the key of the head, which is never used. *)
Definition NewSkipList (any : K) : SkipList K :=
  MkSkipList [MkNode any (replicate kMaxHeight None)] 1 (NewRandom 0xdeadbeef).

(** [Node::Next] and [Node::SetNext] *)
Definition Node_Next (s : SkipList K) (x level : nat) : option (option nat) :=
  n ← nodes s !! x; n_next n !! level.

Definition Node_SetNext (s : SkipList K) (x level : nat) (v : option nat) : option (SkipList K) :=
  n ← nodes s !! x;
  if (level <? length (n_next n))%nat then
    Some (MkSkipList (<[x := MkNode (n_key n) (<[level := v]> (n_next n))]> (nodes s))
            (max_height_ s) (rnd_ s))
  else None.

Definition node_key (s : SkipList K) (x : nat) : option K := n_key <$> nodes s !! x.

(** [RandomHeight]: the loop runs at most [kMaxHeight - height] times. *)
Fixpoint RandomHeight_loop (more : nat) (rnd : Z) (height : nat) : Z * nat :=
  match more with
  | O => (rnd, height)
  | S more =>
      let rnd := Random_Next rnd in
      if rnd mod kBranching =? 0 then RandomHeight_loop more rnd (S height) else (rnd, height)
  end.

Definition RandomHeight (rnd : Z) : Z * nat := RandomHeight_loop (kMaxHeight - 1) rnd 1.

Definition KeyIsAfterNode (s : SkipList K) (key : K) (n : option nat) : option bool :=
  match n with
  | None => Some false
  | Some n => k ← node_key s n; Some (compare_ k key <? 0)
  end.

(** The three searches.  A step moves right or down, so the number of nodes and the
    height bound them; [search_fuel] is their sum.  [prev] is [None] for a null
    [prev]; its entries start uninitialised. *)
Definition prevs : Type := option (list (option nat)).

Fixpoint FindGreaterOrEqual_loop (fuel : nat) (s : SkipList K) (key : K) (x level : nat)
    (prev : prevs) : option (option nat * prevs) :=
  match fuel with
  | O => None
  | S fuel =>
      next ← Node_Next s x level;
      after ← KeyIsAfterNode s key next;
      match after, next with
      | true, Some x => FindGreaterOrEqual_loop fuel s key x level prev
      | _, _ =>
          let prev := (fun p => <[level := Some x]> p) <$> prev in
          match level with
          | O => Some (next, prev)
          | S level => FindGreaterOrEqual_loop fuel s key x level prev
          end
      end
  end.

Definition search_fuel (s : SkipList K) : nat := length (nodes s) + max_height_ s.

Definition FindGreaterOrEqual (s : SkipList K) (key : K) (prev : prevs)
    : option (option nat * prevs) :=
  FindGreaterOrEqual_loop (search_fuel s) s key head_ (max_height_ s - 1) prev.

Fixpoint FindLessThan_loop (fuel : nat) (s : SkipList K) (key : K) (x level : nat) : option nat :=
  match fuel with
  | O => None
  | S fuel =>
      next ← Node_Next s x level;
      let down :=
        match level with
        | O => Some x
        | S level => FindLessThan_loop fuel s key x level
        end in
      match next with
      | None => down
      | Some n =>
          k ← node_key s n;
          if compare_ k key >=? 0 then down else FindLessThan_loop fuel s key n level
      end
  end.

Definition FindLessThan (s : SkipList K) (key : K) : option nat :=
  FindLessThan_loop (search_fuel s) s key head_ (max_height_ s - 1).

Fixpoint FindLast_loop (fuel : nat) (s : SkipList K) (x level : nat) : option nat :=
  match fuel with
  | O => None
  | S fuel =>
      next ← Node_Next s x level;
      match next with
      | None =>
          match level with
          | O => Some x
          | S level => FindLast_loop fuel s x level
          end
      | Some n => FindLast_loop fuel s n level
      end
  end.

Definition FindLast (s : SkipList K) : option nat :=
  FindLast_loop (search_fuel s) s head_ (max_height_ s - 1).

(** [NewNode]: the links of the new node are written before it is published. *)
Definition NewNode (s : SkipList K) (key : K) (height : nat) : SkipList K * nat :=
  (MkSkipList (nodes s ++ [MkNode key (replicate height None)]) (max_height_ s) (rnd_ s),
   length (nodes s)).

(** The linking loop of [Insert], from level [i] for [count] levels. *)
Fixpoint Insert_link (count : nat) (s : SkipList K) (prev : list (option nat)) (x i : nat)
    : option (SkipList K) :=
  match count with
  | O => Some s
  | S count =>
      p ← mjoin (prev !! i);
      next ← Node_Next s p i;
      s ← Node_SetNext s x i next;
      s ← Node_SetNext s p i (Some x);
      Insert_link count s prev x (S i)
  end.

(** [prev[i] = head_] for [from <= i < to] *)
Definition fill_head (prev : list (option nat)) (from to : nat) : list (option nat) :=
  foldl (fun p i => <[i := Some head_]> p) prev (seq from (to - from)).

(** [Insert] up to its linking loop: the array [prev], the height and the node. *)
Definition Insert_prepare (s : SkipList K) (key : K)
    : option (SkipList K * list (option nat) * nat * nat) :=
  '(_, prev) ← FindGreaterOrEqual s key (Some (replicate kMaxHeight None));
  prev ← prev;
  let '(rnd, height) := RandomHeight (rnd_ s) in
  let s := MkSkipList (nodes s) (max_height_ s) rnd in
  let '(prev, s) :=
    if (max_height_ s <? height)%nat then
      (fill_head prev (max_height_ s) height, MkSkipList (nodes s) height (rnd_ s))
    else (prev, s) in
  let '(s, x) := NewNode s key height in
  Some (s, prev, x, height).

Definition Insert (s : SkipList K) (key : K) : option (SkipList K) :=
  '(s, prev, x, height) ← Insert_prepare s key;
  Insert_link height s prev x 0.

Definition Contains (s : SkipList K) (key : K) : option bool :=
  '(x, _) ← FindGreaterOrEqual s key None;
  match x with
  | None => Some false
  | Some x => k ← node_key s x; Some (compare_ key k =? 0)
  end.

(** [SkipList::Iterator] is its [node_]; each operation returns the new one. *)
Definition Iterator_Valid (node_ : option nat) : bool := bool_decide (node_ <> None).

Definition Iterator_key (s : SkipList K) (node_ : option nat) : option K :=
  x ← node_; node_key s x.

Definition Iterator_Next (s : SkipList K) (node_ : option nat) : option (option nat) :=
  x ← node_; Node_Next s x 0.

Definition not_head (x : nat) : option nat := if (x =? head_)%nat then None else Some x.

Definition Iterator_Prev (s : SkipList K) (node_ : option nat) : option (option nat) :=
  x ← node_; k ← node_key s x; p ← FindLessThan s k; Some (not_head p).

Definition Iterator_Seek (s : SkipList K) (target : K) : option (option nat) :=
  fst <$> FindGreaterOrEqual s target None.

Definition Iterator_SeekToFirst (s : SkipList K) : option (option nat) := Node_Next s head_ 0.

Definition Iterator_SeekToLast (s : SkipList K) : option (option nat) :=
  p ← FindLast s; Some (not_head p).

End skiplist.

(** ** List lemmas *)

Section lists.
Context {A : Type}.

Lemma split_mid (l1 l2 pre rest : list A) n x :
  l1 ++ n :: l2 = pre ++ x :: rest ->
  (exists r1, l1 = pre ++ x :: r1 /\ rest = r1 ++ n :: l2) \/
  (pre = l1 /\ x = n /\ rest = l2) \/
  (exists pre', pre = l1 ++ n :: pre' /\ l2 = pre' ++ x :: rest).
Proof.
  revert pre. induction l1 as [|a l1 IH]; intros [|b pre]; simpl; intros [= E1 E2]; subst.
  - right; left. done.
  - right; right. by exists pre.
  - left. by exists l1.
  - destruct (IH pre E2) as [(r1 & -> & ->)|[(-> & -> & ->)|(pre' & -> & ->)]].
    + left. by exists r1.
    + right; left. done.
    + right; right. by exists pre'.
Qed.

Lemma NoDup_split_eq (pre pre' rest rest' : list A) x :
  NoDup (pre ++ x :: rest) -> pre ++ x :: rest = pre' ++ x :: rest' -> pre = pre' /\ rest = rest'.
Proof.
  intros Hnd E. destruct (split_mid _ _ _ _ _ _ E) as [(r & -> & ->)|[(-> & _ & ->)|(p & -> & ->)]];
    [|done|]; exfalso; apply list.NoDup_app in Hnd as (H1 & H2 & H3).
  - apply (H2 x); [rewrite elem_of_app; right; left|left].
  - apply list.NoDup_cons in H3 as [H3 _]. apply H3. rewrite elem_of_app. right; left.
Qed.

Lemma StronglySorted_impl_in (R R' : A -> A -> Prop) l :
  StronglySorted R l -> (forall x y, x ∈ l -> y ∈ l -> R x y -> R' x y) -> StronglySorted R' l.
Proof.
  induction 1 as [|x l Hs IH Hx]; intros HR; constructor.
  - apply IH. intros a b Ha Hb. apply HR; by right.
  - rewrite List.Forall_forall in *. intros y Hy. apply HR; [left| |by apply Hx].
    right. by apply list_elem_of_In.
Qed.

Variable f : A -> bool.

Lemma filter_none l : List.filter f l = [] <-> Forall (fun x => f x = false) l.
Proof.
  induction l as [|x l IH]; simpl; [done|]. rewrite list.Forall_cons. destruct (f x) eqn:E.
  - split; [done|]. intros [? _]. congruence.
  - by rewrite IH; split; [|intros []].
Qed.

Lemma head_filter_app l k :
  List.filter f l <> [] -> head (List.filter f (l ++ k)) = head (List.filter f l).
Proof. rewrite List.filter_app. by destruct (List.filter f l). Qed.

Lemma filter_first l x :
  head (List.filter f l) = Some x -> exists a b, l = a ++ x :: b /\ f x = true /\ List.filter f a = [].
Proof.
  induction l as [|y l IH]; simpl; [done|]. destruct (f y) eqn:E.
  - intros [= ->]. by exists [], l.
  - intros Hx. destruct (IH Hx) as (a & b & -> & Hf & Ha). exists (y :: a), b. simpl. by rewrite E.
Qed.

(** The last element of [l] that satisfies [f], or [d]. *)
Definition last_or (d : A) (l : list A) : A := default d (list.last (List.filter f l)).

Lemma last_or_split d l :
  f d = true ->
  exists pre r, d :: l = pre ++ last_or d l :: r /\ f (last_or d l) = true /\ List.filter f r = [].
Proof.
  intros Hd. unfold last_or. induction l as [|x l IH] using rev_ind.
  - by exists [], [].
  - rewrite List.filter_app. simpl. destruct (f x) eqn:E.
    + rewrite last_snoc. exists (d :: l), []. done.
    + rewrite app_nil_r. destruct IH as (pre & r & Hl & Hf & Hr).
      exists pre, (r ++ [x]). split; [|split; [done|]].
      * rewrite app_comm_cons, Hl. by rewrite <- app_assoc.
      * rewrite List.filter_app, Hr. simpl. by rewrite E.
Qed.

Lemma last_or_here d l pre x r :
  d :: l = pre ++ x :: r -> f x = true -> List.filter f r = [] -> last_or d l = x.
Proof.
  intros Hl Hx Hr. unfold last_or. destruct pre as [|y pre]; injection Hl as -> ->.
  - by rewrite Hr.
  - rewrite List.filter_app. simpl. by rewrite Hx, Hr, last_snoc.
Qed.
End lists.

(** ** What a reader sees *)

Section view.
Context {K : Type} `{CompareLaws K}.

(** The key of node [i] is before [key]. *)
Definition before (s : SkipList K) (key : K) (i : nat) : bool :=
  match node_key s i with Some k => compare_ k key <? 0 | None => false end.

Definition node_lt (s : SkipList K) (i j : nat) : Prop :=
  exists a b, node_key s i = Some a /\ node_key s j = Some b /\ compare_ a b < 0.

(** [links s ord linked]: at every level, a linked node points to the next linked
    node in the order [ord]. *)
Definition links (s : SkipList K) (ord : list nat) (linked : nat -> nat -> bool) : Prop :=
  forall l pre x rest, head_ :: ord = pre ++ x :: rest -> linked l x = true ->
    Node_Next s x l = Some (head (List.filter (linked l) rest)).

(** The list [ord], linked at the levels [linked] says: what a search needs, whether
    or not an insertion is under way. *)
Record view (s : SkipList K) (ord : list nat) (linked : nat -> nat -> bool) : Prop := {
  v_sorted : StronglySorted (node_lt s) ord;
  v_keys : Forall (fun i => is_Some (node_key s i) /\ i <> head_) ord;
  v_size : (length ord < length (nodes s))%nat;
  v_head : forall l, (l < kMaxHeight)%nat -> linked l head_ = true;
  v_base : forall x, x ∈ ord -> linked 0%nat x = true;
  v_down : forall l x, linked (S l) x = true -> linked l x = true;
  v_height : (1 <= max_height_ s <= kMaxHeight)%nat;
  v_links : links s ord linked
}.

(** The nodes before a key are a prefix of the order. *)
Lemma split_before s ord key :
  StronglySorted (node_lt s) ord ->
  exists o1 o2, ord = o1 ++ o2 /\ Forall (fun i => before s key i = true) o1 /\
    Forall (fun i => before s key i = false) o2.
Proof.
  induction ord as [|i ord IH]; intros Hs.
  { exists [], []. split_and!; [done|constructor..]. }
  apply StronglySorted_cons in Hs as [Hi Hs]. destruct (before s key i) eqn:E.
  - destruct (IH Hs) as (o1 & o2 & -> & H1 & H2). exists (i :: o1), o2.
    split_and!; [done|by constructor|done].
  - exists [], (i :: ord). split_and!; [done|constructor|]. constructor; [done|].
    eapply List.Forall_impl; [|exact Hi]. intros j (a & b & Ha & Hb & Hab). simpl.
    unfold before in *. rewrite Ha in E. rewrite Hb. apply Z.ltb_ge in E. apply Z.ltb_ge.
    destruct (Z.le_gt_cases 0 (compare_ b key)) as [|Hlt]; [done|exfalso].
    assert (Hk : compare_ a key <= 0) by (apply (compare_trans a b key); lia).
    assert (Hba : compare_ b a <= 0).
    { apply (compare_trans b key a); [lia|]. pose proof (compare_antisym a key). lia. }
    pose proof (compare_antisym a b). lia.
Qed.

Definition prev_spec (lo hi : nat) (g : nat -> nat) (prev prev' : prevs) : Prop :=
  match prev, prev' with
  | None, None => True
  | Some p, Some p' => length p' = length p /\
      (forall l, (lo <= l <= hi)%nat -> (l < length p)%nat -> p' !! l = Some (Some (g l))) /\
      (forall l, (hi < l)%nat -> p' !! l = p !! l)
  | _, _ => False
  end.

Section search.
Context (s : SkipList K) (ord : list nat) (linked : nat -> nat -> bool) (V : view s ord linked).
Context (key : K) (o1 o2 : list nat) (Hord : ord = o1 ++ o2).
Context (H1 : Forall (fun i => before s key i = true) o1).
Context (H2 : Forall (fun i => before s key i = false) o2).

(** The node before [key] at a level. *)
Definition pred_at (l : nat) : nat := last_or (linked l) head_ o1.

(** A reader standing on a node of the first part: what its next link is. *)
Lemma next_cases pre x r1 level :
  head_ :: o1 = pre ++ x :: r1 -> linked level x = true ->
  (exists a n b, r1 = a ++ n :: b /\ linked level n = true /\ before s key n = true /\
     Node_Next s x level = Some (Some n)) \/
  (List.filter (linked level) r1 = [] /\
   Node_Next s x level = Some (head (List.filter (linked level) o2)) /\
   (forall n, head (List.filter (linked level) o2) = Some n ->
      exists k, node_key s n = Some k /\ compare_ k key >= 0)).
Proof.
  intros Hp Hx. assert (Hn : Node_Next s x level = Some (head (List.filter (linked level) (r1 ++ o2)))).
  { apply (v_links _ _ _ V level pre x (r1 ++ o2)); [|done].
    rewrite Hord, app_comm_cons, Hp. by rewrite <- app_assoc. }
  destruct (List.filter (linked level) r1) as [|n r] eqn:E.
  - right. split; [done|]. rewrite List.filter_app, E in Hn. split; [done|].
    intros n Hh. apply filter_first in Hh as (a & b & -> & _ & _).
    pose proof (v_keys _ _ _ V) as Hk. rewrite Hord, !list.Forall_app in Hk.
    destruct Hk as [_ [_ Hk]]. apply list.Forall_cons in Hk as [[[k Hk] _] _].
    apply list.Forall_app in H2 as [_ Hb]. apply list.Forall_cons in Hb as [Hb _].
    exists k. split; [done|]. unfold before in Hb. rewrite Hk in Hb. apply Z.ltb_ge in Hb. lia.
  - left. assert (Hh : head (List.filter (linked level) r1) = Some n) by (by rewrite E).
    rewrite head_filter_app in Hn by (by rewrite E). rewrite Hh in Hn.
    apply filter_first in Hh as (a & b & -> & Hl & _). exists a, n, b.
    split_and!; [done|done| |done].
    assert (Hin : n ∈ o1).
    { destruct pre; injection Hp as <- ->; rewrite ?elem_of_app, ?elem_of_cons; set_solver. }
    by apply (proj1 (List.Forall_forall _ _) H1), list_elem_of_In.
Qed.

(** Moving right from [x] stays on the first part. *)
Lemma move_right (pre : list nat) x a n b :
  head_ :: o1 = pre ++ x :: a ++ n :: b -> head_ :: o1 = (pre ++ x :: a) ++ n :: b.
Proof. intros ->. by rewrite <- app_assoc. Qed.

Lemma KeyIsAfterNode_before n : before s key n = true -> KeyIsAfterNode s key (Some n) = Some true.
Proof.
  unfold before, KeyIsAfterNode. destruct (node_key s n); simpl; [|done]. by intros ->.
Qed.

Lemma KeyIsAfterNode_after h :
  (forall n, h = Some n -> exists k, node_key s n = Some k /\ compare_ k key >= 0) ->
  KeyIsAfterNode s key h = Some false.
Proof.
  destruct h as [n|]; simpl; [|done]. intros Hn. destruct (Hn n eq_refl) as (k & -> & Hk). simpl.
  zcase; [lia|done].
Qed.

Lemma base_all r1 pre x : head_ :: o1 = pre ++ x :: r1 -> List.filter (linked 0%nat) r1 = [] -> r1 = [].
Proof.
  clear H1 H2. intros Hp Hf. destruct r1 as [|y r1]; [done|]. simpl in Hf.
  rewrite (v_base _ _ _ V y) in Hf; [done|]. rewrite Hord.
  destruct pre; injection Hp as <- ->; set_solver.
Qed.

Lemma base_o2 : List.filter (linked 0%nat) o2 = o2.
Proof.
  clear H1 H2. assert (Hb : forall y, y ∈ o2 -> linked 0%nat y = true).
  { intros y Hy. apply (v_base _ _ _ V). rewrite Hord. set_solver. }
  clear -Hb. induction o2 as [|y l IH]; simpl; [done|].
  rewrite (Hb y) by left. f_equal. apply IH. intros z Hz. apply Hb. by right.
Qed.

Lemma FGE_loop fuel pre x r1 level prev :
  head_ :: o1 = pre ++ x :: r1 -> linked level x = true ->
  (length r1 + level < fuel)%nat ->
  exists prev', FindGreaterOrEqual_loop fuel s key x level prev = Some (head o2, prev') /\
    prev_spec 0 level pred_at prev prev'.
Proof.
  revert pre x r1 level prev. induction fuel as [|fuel IH]; intros pre x r1 level prev Hp Hx Hf; [lia|].
  cbn [FindGreaterOrEqual_loop].
  destruct (next_cases pre x r1 level Hp Hx) as [(a & n & b & -> & Hn & Hb & ->)|(Hr & -> & Hh)].
  - cbn [mbind option_bind]. rewrite KeyIsAfterNode_before by done. cbn [mbind option_bind].
    apply (IH (pre ++ x :: a) n b); [by apply move_right|done|].
    rewrite length_app in Hf. simpl in Hf. lia.
  - cbn [mbind option_bind]. rewrite KeyIsAfterNode_after by done. cbn [mbind option_bind].
    assert (Hpred : pred_at level = x) by (by apply (last_or_here _ _ _ pre x r1)).
    set (prev1 := (fun p => <[level := Some x]> p) <$> prev).
    assert (Hp1 : prev_spec level level pred_at prev prev1).
    { unfold prev1. destruct prev as [p|]; simpl; [|done]. split; [by rewrite length_insert|].
      split.
      - intros l Hl Hlen. assert (l = level) as -> by lia. rewrite Hpred. by apply list_lookup_insert_eq.
      - intros l Hl. apply list_lookup_insert_ne. lia. }
    destruct level as [|level].
    + exists prev1. rewrite base_o2. split; [done|]. exact Hp1.
    + destruct (IH pre x r1 level prev1 Hp (v_down _ _ _ V _ _ Hx) ltac:(lia)) as (prev' & E & Hps).
      exists prev'. split; [done|]. clear -Hp1 Hps. unfold prev_spec in *.
      destruct prev as [p|], prev1 as [p1|], prev' as [p'|]; try done.
      destruct Hp1 as (L1 & A1 & B1), Hps as (L2 & A2 & B2). split; [congruence|]. split.
      * intros l Hl Hlen. destruct (decide (l = S level)) as [->|Hne].
        -- rewrite B2 by lia. apply A1; [lia|done].
        -- apply A2; lia.
      * intros l Hl. rewrite B2 by lia. apply B1. lia.
Qed.

Lemma o1_fuel level : (level < max_height_ s)%nat -> (length o1 + level < search_fuel s)%nat.
Proof.
  intros. pose proof (v_size _ _ _ V) as Hs. rewrite Hord, length_app in Hs.
  unfold search_fuel. lia.
Qed.

(** The search lands on the first node that is not before the key, and records the
    predecessor of the key at every level. *)
Lemma FGE_spec prev :
  exists prev', FindGreaterOrEqual s key prev = Some (head o2, prev') /\
    prev_spec 0 (max_height_ s - 1) pred_at prev prev'.
Proof.
  pose proof (v_height _ _ _ V) as Hh.
  apply (FGE_loop _ [] head_ o1); [done|apply (v_head _ _ _ V); lia|].
  apply o1_fuel. lia.
Qed.

Lemma FindLessThan_spec : FindLessThan s key = Some (default head_ (list.last o1)).
Proof.
  assert (Hloop : forall fuel pre x r1 level, head_ :: o1 = pre ++ x :: r1 ->
    linked level x = true -> (length r1 + level < fuel)%nat ->
    FindLessThan_loop fuel s key x level = Some (default head_ (list.last o1))).
  { induction fuel as [|fuel IH]; intros pre x r1 level Hp Hx Hf; [lia|].
    cbn [FindLessThan_loop].
    assert (Hdown : List.filter (linked level) r1 = [] ->
      match level with
      | O => Some x
      | S level => FindLessThan_loop fuel s key x level
      end = Some (default head_ (list.last o1))).
    { intros Hr. destruct level as [|level].
      - apply (base_all _ _ _ Hp) in Hr as ->. destruct pre; injection Hp as <- ->; [done|].
        by rewrite last_snoc.
      - apply (IH pre x r1); [done|by apply (v_down _ _ _ V)|lia]. }
    destruct (next_cases pre x r1 level Hp Hx) as [(a & n & b & -> & Hn & Hb & ->)|(Hr & -> & Hh)];
      cbn [mbind option_bind].
    - unfold before in Hb. destruct (node_key s n) as [k|]; [|done]. cbn [mbind option_bind].
      apply Z.ltb_lt in Hb. rewrite Z.geb_leb. zcase; [lia|].
      apply (IH (pre ++ x :: a) n b); [by apply move_right|done|].
      rewrite length_app in Hf. simpl in Hf. lia.
    - destruct (head _) as [n|]; [|by apply Hdown].
      destruct (Hh n eq_refl) as (k & -> & Hk). cbn [mbind option_bind]. rewrite Z.geb_leb.
      zcase; [by apply Hdown|lia]. }
  pose proof (v_height _ _ _ V) as Hh. apply (Hloop _ [] head_ o1); [done|apply (v_head _ _ _ V); lia|].
  apply o1_fuel. lia.
Qed.

End search.

Lemma FindLast_spec s ord linked :
  view s ord linked -> FindLast s = Some (default head_ (list.last ord)).
Proof.
  intros V. assert (Hloop : forall fuel pre x r level, head_ :: ord = pre ++ x :: r ->
    linked level x = true -> (length r + level < fuel)%nat ->
    FindLast_loop fuel s x level = Some (default head_ (list.last ord))).
  { induction fuel as [|fuel IH]; intros pre x r level Hp Hx Hf; [lia|]. cbn [FindLast_loop].
    rewrite (v_links _ _ _ V level pre x r Hp Hx). cbn [mbind option_bind].
    destruct (head _) as [n|] eqn:E.
    - apply filter_first in E as (a & b & -> & Hn & _).
      apply (IH (pre ++ x :: a) n b); [by rewrite Hp, <- app_assoc|done|].
      rewrite length_app in Hf. simpl in Hf. lia.
    - destruct level as [|level].
      + assert (r = []) as ->.
        { eapply (base_all s ord linked V ord []); [by rewrite app_nil_r|done|].
          by destruct (List.filter _ r). }
        destruct pre; injection Hp as <- ->; [done|]. by rewrite last_snoc.
      + apply (IH pre x r); [done|by apply (v_down _ _ _ V)|lia]. }
  pose proof (v_height _ _ _ V) as Hh. pose proof (v_size _ _ _ V).
  apply (Hloop _ [] head_ ord); [done|apply (v_head _ _ _ V); lia|]. unfold search_fuel. lia.
Qed.

(** ** Insertion *)

(** Whether a node has a link at a level. *)
Definition tall (s : SkipList K) (l i : nat) : bool :=
  match nodes s !! i with Some n => (l <? length (n_next n))%nat | None => false end.

(** What linking leaves alone. *)
Definition same_shape (s s' : SkipList K) : Prop :=
  max_height_ s' = max_height_ s /\ rnd_ s' = rnd_ s /\ length (nodes s') = length (nodes s) /\
  (forall i, node_key s' i = node_key s i) /\ (forall l i, tall s' l i = tall s l i).

Lemma same_shape_refl s : same_shape s s.
Proof. done. Qed.

Lemma same_shape_trans s1 s2 s3 : same_shape s1 s2 -> same_shape s2 s3 -> same_shape s1 s3.
Proof.
  intros (A1 & B1 & C1 & D1 & E1) (A2 & B2 & C2 & D2 & E2). unfold same_shape.
  split_and!; intros; congruence.
Qed.

Lemma SetNext_ok s x l v :
  tall s l x = true ->
  exists s', Node_SetNext s x l v = Some s' /\ same_shape s s' /\
    Node_Next s' x l = Some v /\
    (forall y m, (y, m) <> (x, l) -> Node_Next s' y m = Node_Next s y m).
Proof.
  unfold tall, Node_SetNext. destruct (nodes s !! x) as [n|] eqn:E; [|done].
  intros Hl. cbn [mbind option_bind]. rewrite Hl. eexists. split; [done|].
  assert (Hx : (x < length (nodes s))%nat) by (by eapply lookup_lt_Some).
  apply Nat.ltb_lt in Hl.
  split; [|split].
  - split; [done|]. split; [done|]. cbn [nodes]. split; [by rewrite length_insert|].
    unfold node_key, tall. cbn [nodes].
    split; intros; (destruct (decide (i = x)) as [->|];
      [rewrite list_lookup_insert_eq, E by done|by rewrite list_lookup_insert_ne by done]).
    + done.
    + cbn [n_next]. by rewrite length_insert.
  - unfold Node_Next. cbn [nodes]. rewrite list_lookup_insert_eq by done. cbn.
    by rewrite list_lookup_insert_eq.
  - intros y m Hne. unfold Node_Next. cbn [nodes].
    destruct (decide (y = x)) as [->|]; [|by rewrite list_lookup_insert_ne].
    rewrite list_lookup_insert_eq, E by done. cbn.
    rewrite list_lookup_insert_ne; [done|]. intros ->. done.
Qed.

(** Node [n] linked at the levels below [i], the others at all theirs. *)
Definition linked_upto (t : nat -> nat -> bool) (n i l x : nat) : bool :=
  t l x && (negb (x =? n)%nat || (l <? i)%nat).

Lemma linked_upto_other t n i l x : x <> n -> linked_upto t n i l x = t l x.
Proof. unfold linked_upto. intros. destruct (Nat.eqb_spec x n); [done|]. by rewrite andb_true_r. Qed.

Lemma linked_upto_level t n i l x : l <> i -> linked_upto t n (S i) l x = linked_upto t n i l x.
Proof.
  unfold linked_upto. intros. do 2 f_equal. destruct (Nat.ltb_spec l (S i)), (Nat.ltb_spec l i); lia || done.
Qed.

Lemma linked_upto_here t n i l : linked_upto t n i l n = t l n && (l <? i)%nat.
Proof. unfold linked_upto. by rewrite Nat.eqb_refl. Qed.

Lemma filter_ext_in {A} (f g : A -> bool) l :
  (forall x, x ∈ l -> f x = g x) -> List.filter f l = List.filter g l.
Proof. intros H'. apply List.filter_ext_in. intros x Hx. by apply H', list_elem_of_In. Qed.

Section link.
Context (o1 o2 : list nat) (n : nat) (t : nat -> nat -> bool).
Context (Hnd : NoDup (head_ :: o1 ++ n :: o2)).

Lemma n_notin : not (n ∈ head_ :: o1) /\ not (n ∈ o2).
Proof.
  rewrite app_comm_cons in Hnd. apply list.NoDup_app in Hnd as (_ & Hd & Hn).
  apply list.NoDup_cons in Hn as [Hn _]. split; [|done]. intros Hin. apply (Hd n Hin). left.
Qed.

(** One round of the linking loop. *)
Lemma link_level s i :
  links s (o1 ++ n :: o2) (linked_upto t n i) -> (forall l x, tall s l x = t l x) ->
  t i n = true -> t i head_ = true ->
  let p := last_or (t i) head_ o1 in
  exists next s1 s2, Node_Next s p i = Some next /\ Node_SetNext s n i next = Some s1 /\
    Node_SetNext s1 p i (Some n) = Some s2 /\ same_shape s s2 /\
    links s2 (o1 ++ n :: o2) (linked_upto t n (S i)).
Proof.
  intros HL Ht Hn Hh p. destruct n_notin as [Hn1 Hn2].
  set (lk := linked_upto t n i) in *. set (lk' := linked_upto t n (S i)).
  destruct (last_or_split (t i) head_ o1 Hh) as (pre & r & Hsplit & Hp & Hr). fold p in Hsplit, Hp.
  assert (Hin : forall y, y ∈ pre ++ p :: r -> y <> n) by (rewrite <- Hsplit; intros y Hy ->; done).
  assert (Hpn : p <> n) by (apply Hin; set_solver).
  assert (Hr' : List.filter (lk i) r = []).
  { rewrite <- Hr. apply filter_ext_in. intros y Hy. apply linked_upto_other, Hin. set_solver. }
  assert (Hlkn : lk i n = false) by (unfold lk; rewrite linked_upto_here, Nat.ltb_irrefl; apply andb_false_r).
  assert (Hlkn' : lk' i n = true).
  { unfold lk'. rewrite linked_upto_here, Hn. by destruct (Nat.ltb_spec i (S i)); [|lia]. }
  assert (Ho2 : List.filter (lk' i) o2 = List.filter (lk i) o2).
  { apply filter_ext_in. intros y Hy. assert (y <> n) by (intros ->; done).
    unfold lk, lk'. by rewrite !linked_upto_other. }
  assert (Hnew : head_ :: o1 ++ n :: o2 = pre ++ p :: r ++ n :: o2).
  { rewrite app_comm_cons, Hsplit. by rewrite <- app_assoc. }
  assert (Hnext : Node_Next s p i = Some (head (List.filter (lk i) o2))).
  { rewrite (HL i pre p (r ++ n :: o2)); [|done|by unfold lk; rewrite linked_upto_other].
    rewrite List.filter_app, Hr'. cbn [app List.filter]. by rewrite Hlkn. }
  destruct (SetNext_ok s n i (head (List.filter (lk i) o2))) as (s1 & E1 & Hs1 & Hn1i & Hne1);
    [by rewrite Ht|].
  destruct (SetNext_ok s1 p i (Some n)) as (s2 & E2 & Hs2 & Hp2i & Hne2).
  { destruct Hs1 as (_ & _ & _ & _ & Hs1). by rewrite Hs1, Ht. }
  exists (head (List.filter (lk i) o2)), s1, s2. split_and!; [done..| |].
  { by apply (same_shape_trans _ s1). }
  intros l pre' x rest Hsp Hx.
  assert (Hold : (x, l) <> (n, i) -> (x, l) <> (p, i) -> Node_Next s2 x l = Node_Next s x l)
    by (intros Ha Hb; by rewrite Hne2, Hne1).
  destruct (decide (l = i)) as [->|Hl].
  2: { rewrite Hold by congruence. unfold lk' in Hx. rewrite linked_upto_level in Hx by done.
       rewrite (HL l pre' x rest Hsp Hx). do 2 f_equal. apply filter_ext_in. intros y _.
       unfold lk, lk'. by rewrite linked_upto_level. }
  rewrite app_comm_cons in Hsp.
  destruct (split_mid _ _ _ _ _ _ Hsp) as [(r1 & Hs1' & ->)|[(_ & -> & ->)|(pre2 & _ & ->)]].
  - assert (Hxn : x <> n) by (apply Hin; rewrite <- Hsplit, Hs1'; set_solver).
    assert (Hr1 : List.filter (lk' i) r1 = List.filter (lk i) r1).
    { apply filter_ext_in. intros y Hy.
      assert (y <> n) by (apply Hin; rewrite <- Hsplit, Hs1'; set_solver).
      unfold lk, lk'. by rewrite !linked_upto_other. }
    assert (Hlkx : lk i x = true)
      by (unfold lk, lk' in *; rewrite linked_upto_other in Hx |- * by done; done).
    destruct (List.filter (lk i) r1) as [|y ys] eqn:Ef.
    + assert (x = p) as ->.
      { unfold p. symmetry. apply (last_or_here _ _ _ pre' x r1); [done| |].
        - by unfold lk' in Hx; rewrite linked_upto_other in Hx.
        - rewrite <- Ef. apply filter_ext_in. intros y Hy.
          assert (y <> n) by (apply Hin; rewrite <- Hsplit, Hs1'; set_solver).
          unfold lk. by rewrite linked_upto_other. }
      rewrite Hp2i, List.filter_app, Hr1. cbn [app List.filter]. by rewrite Hlkn'.
    + rewrite Hold; [| congruence|].
      * rewrite (HL i pre' x (r1 ++ n :: o2)); [|by rewrite app_comm_cons|done].
        rewrite (head_filter_app (lk' i)) by (by rewrite Hr1).
        rewrite (head_filter_app (lk i)) by (by rewrite Ef). by rewrite Hr1, Ef.
      * intros [= ->]. assert (Hnd' : NoDup (pre ++ p :: r)).
        { rewrite <- Hsplit. rewrite app_comm_cons, list.NoDup_app in Hnd. by destruct Hnd. }
        rewrite Hsplit in Hs1'. apply (NoDup_split_eq _ _ _ _ _ Hnd') in Hs1' as [_ <-].
        congruence.
  - rewrite Hne2 by congruence. by rewrite Hn1i, Ho2.
  - assert (Hxo : x ∈ pre2 ++ x :: rest) by set_solver.
    assert (Hxn : x <> n) by (intros ->; done). clear Hxo.
    rewrite app_comm_cons, list.NoDup_app in Hnd. destruct Hnd as (_ & Hd & _).
    assert (Hxp : x <> p).
    { intros ->. apply (Hd p); [rewrite Hsplit|]; set_solver. }
    rewrite Hold by congruence.
    rewrite (HL i (head_ :: o1 ++ n :: pre2) x rest).
    + do 2 f_equal. apply filter_ext_in. intros y Hy. assert (y <> n) by (intros ->; set_solver).
      unfold lk, lk'. by rewrite !linked_upto_other.
    + cbn [app]. by rewrite <- app_assoc.
    + unfold lk, lk' in *. rewrite linked_upto_other in Hx |- * by done. done.
Qed.

Lemma Insert_link_ok count s i prev :
  links s (o1 ++ n :: o2) (linked_upto t n i) -> (forall l x, tall s l x = t l x) ->
  (forall l, (i <= l < i + count)%nat ->
     t l n = true /\ t l head_ = true /\ prev !! l = Some (Some (last_or (t l) head_ o1))) ->
  exists s', Insert_link count s prev n i = Some s' /\ same_shape s s' /\
    links s' (o1 ++ n :: o2) (linked_upto t n (i + count)).
Proof.
  revert s i. induction count as [|count IH]; intros s i HL Ht Hl; cbn [Insert_link].
  { exists s. rewrite Nat.add_0_r. done. }
  destruct (Hl i ltac:(lia)) as (Hn & Hh & ->). cbn [mjoin option_join mbind option_bind].
  destruct (link_level s i HL Ht Hn Hh) as (next & s1 & s2 & -> & E1 & E2 & Hsh & HL2).
  cbn [mbind option_bind]. rewrite E1. cbn [mbind option_bind]. rewrite E2. cbn [mbind option_bind].
  destruct (IH s2 (S i) HL2) as (s' & -> & Hsh' & HL').
  - intros l x. destruct Hsh as (_ & _ & _ & _ & Hsh). by rewrite Hsh.
  - intros l Hlr. apply Hl. lia.
  - exists s'. split; [done|]. split; [by apply (same_shape_trans _ s2)|].
    by replace (i + S count)%nat with (S i + count)%nat by lia.
Qed.
End link.

(** A list at rest: every node is linked at all its levels. *)
Record SkipList_ok (s : SkipList K) (ord : list nat) : Prop := {
  ok_view : view s ord (tall s);
  ok_max : forall x l, x ∈ ord -> tall s l x = true -> (l < max_height_ s)%nat
}.

Lemma RandomHeight_range rnd : (1 <= (RandomHeight rnd).2 <= kMaxHeight)%nat.
Proof.
  assert (Hloop : forall more r h, (h <= (RandomHeight_loop more r h).2 <= h + more)%nat).
  { induction more as [|more IH]; intros r h; cbn [RandomHeight_loop]; [cbn [snd]; lia|].
    destruct (_ =? 0); [|cbn [snd]; lia]. specialize (IH (Random_Next r) (S h)). lia. }
  apply Hloop.
Qed.

Lemma fill_head_lookup prev from to :
  (to <= length prev)%nat ->
  length (fill_head prev from to) = length prev /\
  forall l, fill_head prev from to !! l =
    if decide (from <= l < to)%nat then Some (Some head_) else prev !! l.
Proof.
  unfold fill_head. intros Hto.
  assert (Hgen : forall cnt from, (from + cnt <= length prev)%nat ->
    let p := foldl (fun p i => <[i := Some head_]> p) prev (seq from cnt) in
    length p = length prev /\
    forall l, p !! l = if decide (from <= l < from + cnt)%nat then Some (Some head_) else prev !! l).
  { induction cnt as [|cnt IH]; intros fr Hf; cbn zeta.
    - split; [done|]. intros l. simpl. destruct (decide _); [lia|done].
    - rewrite seq_S, foldl_app. destruct (IH fr ltac:(lia)) as [Hl Hp]. cbn [foldl].
      split; [by rewrite length_insert|]. intros l.
      destruct (decide (l = fr + cnt)%nat) as [->|Hne].
      + rewrite list_lookup_insert_eq by lia. destruct (decide _); [done|lia].
      + rewrite list_lookup_insert_ne, Hp by done. repeat destruct (decide _); done || lia. }
  destruct (decide (from <= to)%nat) as [Hle|Hgt].
  - destruct (Hgen (to - from)%nat from) as [Hl Hp]; [lia|]. split; [done|]. intros l. rewrite Hp.
    repeat destruct (decide _); done || lia.
  - replace (to - from)%nat with 0%nat by lia. simpl. split; [done|]. intros l.
    destruct (decide _); [lia|done].
Qed.

Section insert.
Context (s : SkipList K) (o1 o2 : list nat) (key : K) (OK : SkipList_ok s (o1 ++ o2)).
Context (H1 : Forall (fun i => before s key i = true) o1).
Context (H2 : Forall (fun i => before s key i = false) o2).

Let n : nat := length (nodes s).

Lemma ord_lt_n x : x ∈ head_ :: o1 ++ o2 -> (x < n)%nat.
Proof.
  pose proof (v_size _ _ _ (ok_view _ _ OK)) as Hsz. intros Hx.
  apply elem_of_cons in Hx as [->|Hx]; [unfold head_, n; lia|].
  pose proof (v_keys _ _ _ (ok_view _ _ OK)) as Hk. rewrite List.Forall_forall in Hk.
  destruct (Hk x) as [[k Hkx] _]; [by apply list_elem_of_In|].
  unfold node_key in Hkx. destruct (nodes s !! x) eqn:E; [|done]. by eapply lookup_lt_Some.
Qed.

(** After [Insert_prepare]: the node is there, unlinked, and [prev] holds its
    predecessor at each of its levels. *)
Lemma Insert_prepare_ok :
  exists s2 prev h, Insert_prepare s key = Some (s2, prev, n, h) /\
    (1 <= h <= kMaxHeight)%nat /\ (max_height_ s <= max_height_ s2 <= kMaxHeight)%nat /\
    (h <= max_height_ s2)%nat /\ length (nodes s2) = S n /\
    node_key s2 n = Some key /\ (forall l, tall s2 l n = (l <? h)%nat) /\
    (forall i, i <> n -> node_key s2 i = node_key s i /\ forall l, tall s2 l i = tall s l i) /\
    (forall x l, x <> n -> Node_Next s2 x l = Node_Next s x l) /\
    (forall l, (l < h)%nat -> prev !! l = Some (Some (last_or (tall s2 l) head_ o1))).
Proof.
  pose proof (ok_view _ _ OK) as V. pose proof (v_height _ _ _ V) as Hmh.
  unfold Insert_prepare.
  destruct (FGE_spec s (o1 ++ o2) (tall s) V key o1 o2 eq_refl H1 H2 (Some (replicate kMaxHeight None)))
    as (prev' & -> & Hps). cbn [mbind option_bind].
  destruct prev' as [p|]; [|done]. cbn [mbind option_bind]. destruct Hps as (Hlen & Hprev & _).
  rewrite length_replicate in *. pose proof (RandomHeight_range (rnd_ s)) as Hh.
  destruct (RandomHeight (rnd_ s)) as [rnd h]. cbn [snd max_height_ nodes rnd_ NewNode] in *.
  set (mh := if (max_height_ s <? h)%nat then h else max_height_ s).
  set (s2 := MkSkipList (nodes s ++ [MkNode key (replicate h None)]) mh rnd).
  set (prev := if (max_height_ s <? h)%nat then fill_head p (max_height_ s) h else p).
  exists s2, prev, h.
  assert (Hlook : forall i, i <> n -> nodes s2 !! i = nodes s !! i).
  { intros i Hi. cbn [nodes s2]. destruct (decide (i < n)%nat) as [Hlt|Hge].
    - by apply lookup_app_l.
    - rewrite !lookup_ge_None_2; [done|rewrite ?length_app; simpl; fold n; lia..]. }
  assert (Hn : nodes s2 !! n = Some (MkNode key (replicate h None))).
  { cbn [nodes s2]. rewrite lookup_app_r by done. unfold n. by rewrite Nat.sub_diag. }
  split.
  { unfold s2, prev, mh. by destruct (_ <? _)%nat. }
  assert (Hmh2 : (max_height_ s <= mh <= kMaxHeight)%nat /\ (h <= mh)%nat)
    by (unfold mh; destruct (Nat.ltb_spec (max_height_ s) h); lia).
  split; [done|]. split; [exact (proj1 Hmh2)|]. split; [exact (proj2 Hmh2)|].
  split_and!.
  - cbn [nodes s2]. rewrite length_app. simpl. fold n. lia.
  - unfold node_key. by rewrite Hn.
  - intros l. unfold tall. rewrite Hn. cbn [n_next]. by rewrite length_replicate.
  - intros i Hi. unfold node_key, tall. by rewrite Hlook.
  - intros x l Hx. unfold Node_Next. by rewrite Hlook.
  - intros l Hl. replace (last_or (tall s2 l) head_ o1) with (last_or (tall s l) head_ o1).
    + destruct (decide (l < max_height_ s)%nat) as [Hlt|Hge].
      * transitivity (p !! l); [|apply Hprev; lia]. unfold prev.
        destruct (Nat.ltb_spec (max_height_ s) h); [|done].
        destruct (fill_head_lookup p (max_height_ s) h) as [_ ->]; [lia|].
        destruct (decide _); [lia|done].
      * unfold prev. destruct (Nat.ltb_spec (max_height_ s) h); [|lia].
        destruct (fill_head_lookup p (max_height_ s) h) as [_ ->]; [lia|].
        destruct (decide _); [|lia]. do 2 f_equal. unfold last_or.
        replace (List.filter (tall s l) o1) with (@nil nat); [done|]. symmetry. apply filter_none.
        apply List.Forall_forall. intros x Hx. destruct (tall s l x) eqn:E; [|done].
        pose proof (ok_max _ _ OK x l) as Hm. apply list_elem_of_In in Hx.
        specialize (Hm ltac:(set_solver) E). lia.
    + unfold last_or. f_equal. f_equal. apply filter_ext_in. intros x Hx.
      unfold tall. rewrite Hlook; [done|]. pose proof (ord_lt_n x ltac:(set_solver)). lia.
Qed.

Section stages.
Context (Hne : forall i k, i ∈ o2 -> node_key s i = Some k -> compare_ k key <> 0).
Context (s2 : SkipList K) (h : nat).
Context (Hmh : (max_height_ s <= max_height_ s2 <= kMaxHeight)%nat) (Hh : (1 <= h <= max_height_ s2)%nat).
Context (Hlen : length (nodes s2) = S n) (Hkey : node_key s2 n = Some key).
Context (Htn : forall l, tall s2 l n = (l <? h)%nat).
Context (Hsame : forall i, i <> n -> node_key s2 i = node_key s i /\ forall l, tall s2 l i = tall s l i).
Context (Hnext : forall x l, x <> n -> Node_Next s2 x l = Node_Next s x l).

Let t : nat -> nat -> bool := tall s2.

Lemma old_ne x : x ∈ head_ :: o1 ++ o2 -> x <> n.
Proof. intros Hx ->. pose proof (ord_lt_n n Hx). lia. Qed.

Lemma t_old l x : x ∈ head_ :: o1 ++ o2 -> linked_upto t n 0 l x = tall s l x.
Proof.
  intros Hx. apply old_ne in Hx. rewrite linked_upto_other by done. unfold t. by apply Hsame.
Qed.

Lemma t_down k l x : linked_upto t n k (S l) x = true -> linked_upto t n k l x = true.
Proof.
  unfold linked_upto. rewrite !andb_true_iff, !orb_true_iff, !Nat.ltb_lt. intros [Ht Hk]. split.
  - unfold t, tall in *. destruct (nodes s2 !! x); [|done]. rewrite Nat.ltb_lt in *. lia.
  - destruct Hk; [by left|right; lia].
Qed.

Lemma sub_old (pre : list nat) x rest y :
  head_ :: o1 ++ o2 = pre ++ x :: rest -> y = x \/ y ∈ rest -> y ∈ head_ :: o1 ++ o2.
Proof. intros -> [->|Hy]; rewrite elem_of_app, elem_of_cons; auto. Qed.

Lemma view_before : view s2 (o1 ++ o2) (linked_upto t n 0).
Proof.
  pose proof (ok_view _ _ OK) as V. split.
  - apply (StronglySorted_impl_in _ _ _ (v_sorted _ _ _ V)).
    intros i j Hi Hj (a & b & Ha & Hb & Hab). exists a, b.
    rewrite !(fun i Hi => proj1 (Hsame i Hi)); [done|apply old_ne; by right..].
  - pose proof (v_keys _ _ _ V) as Hk. rewrite List.Forall_forall in *. intros i Hi.
    assert (Hi' : i ∈ head_ :: o1 ++ o2) by (right; by apply list_elem_of_In).
    rewrite (proj1 (Hsame i (old_ne i Hi'))).
    by apply Hk.
  - rewrite Hlen. pose proof (v_size _ _ _ V). unfold n. lia.
  - intros l Hl. rewrite t_old by left. by apply (v_head _ _ _ V).
  - intros x Hx. rewrite t_old by (by right). by apply (v_base _ _ _ V).
  - apply t_down.
  - pose proof (v_height _ _ _ V). lia.
  - intros l pre x rest Hsp Hx. assert (Hx' : x ∈ head_ :: o1 ++ o2) by (apply (sub_old _ _ _ _ Hsp); by left).
    rewrite t_old in Hx by done. rewrite Hnext by (by apply old_ne).
    rewrite (v_links _ _ _ V l pre x rest Hsp Hx). do 2 f_equal. apply filter_ext_in.
    intros y Hy. symmetry. apply t_old, (sub_old _ _ _ _ Hsp). by right.
Qed.

Lemma links_before : links s2 (o1 ++ n :: o2) (linked_upto t n 0).
Proof.
  intros l pre x rest Hsp Hx. rewrite app_comm_cons in Hsp.
  assert (Hn0 : linked_upto t n 0 l n = false).
  { rewrite linked_upto_here. destruct (Nat.ltb_spec l 0); [lia|apply andb_false_r]. }
  destruct (split_mid _ _ _ _ _ _ Hsp) as [(r1 & Hs1 & ->)|[(_ & -> & _)|(pre' & -> & Hs2)]].
  - rewrite (v_links _ _ _ view_before l pre x (r1 ++ o2)); [| |done].
    + rewrite !List.filter_app. cbn [List.filter]. by rewrite Hn0.
    + rewrite app_comm_cons, Hs1. by rewrite <- app_assoc.
  - congruence.
  - apply (v_links _ _ _ view_before l ((head_ :: o1) ++ pre') x rest); [|done].
    rewrite app_comm_cons, Hs2. by rewrite <- app_assoc.
Qed.

Lemma new_sorted : StronglySorted (node_lt s2) (o1 ++ n :: o2).
Proof.
  pose proof (v_sorted _ _ _ view_before) as Hs. apply StronglySorted_app in Hs as (H12 & Hs1 & Hs2).
  assert (Hold : forall i, i ∈ o1 \/ i ∈ o2 -> node_key s2 i = node_key s i).
  { intros i Hi. apply Hsame, old_ne. right. by rewrite elem_of_app. }
  assert (Hn1 : forall i, i ∈ o1 -> node_lt s2 i n).
  { intros i Hi. rewrite List.Forall_forall in H1. pose proof (H1 i (proj1 (list_elem_of_In _ _) Hi)) as Hb.
    unfold before in Hb. destruct (node_key s i) as [k|] eqn:E; [|done]. exists k, key.
    rewrite (Hold i) by (by left). split_and!; [done..|]. by apply Z.ltb_lt. }
  assert (Hn2 : forall i, i ∈ o2 -> node_lt s2 n i).
  { intros i Hi. rewrite List.Forall_forall in H2. pose proof (H2 i (proj1 (list_elem_of_In _ _) Hi)) as Hb.
    pose proof (v_keys _ _ _ (ok_view _ _ OK)) as Hk. rewrite List.Forall_forall in Hk.
    destruct (Hk i) as [[k Hki] _]; [apply list_elem_of_In, elem_of_app; by right|].
    unfold before in Hb. rewrite Hki in Hb. exists key, k. rewrite (Hold i) by (by right).
    split_and!; [done..|]. apply Z.ltb_ge in Hb. pose proof (Hne i k Hi Hki).
    pose proof (compare_antisym key k). lia. }
  apply StronglySorted_app. split_and!; [|done|].
  - intros x y Hx Hy. apply elem_of_cons in Hy as [->|Hy]; [by apply Hn1|by apply H12].
  - constructor; [done|]. apply List.Forall_forall. intros y Hy. by apply Hn2, list_elem_of_In.
Qed.

Lemma new_NoDup : NoDup (head_ :: o1 ++ n :: o2).
Proof.
  assert (Hn : n <> head_) by (unfold n; pose proof (v_size _ _ _ (ok_view _ _ OK)); unfold head_; lia).
  apply list.NoDup_cons. split.
  - intros Hin. pose proof (v_keys _ _ _ (ok_view _ _ OK)) as Hk. rewrite List.Forall_forall in Hk.
    assert (Hin' : head_ ∈ o1 ++ o2).
    { rewrite elem_of_app, elem_of_cons in Hin. rewrite elem_of_app. naive_solver. }
    apply list_elem_of_In in Hin'. by destruct (Hk _ Hin').
  - pose proof new_sorted as Hs. remember (o1 ++ n :: o2) as l eqn:El. clear El.
    induction Hs as [|x l Hs IH Hx]; constructor; [|done]. intros Hin.
    rewrite List.Forall_forall in Hx. destruct (Hx x) as (a & b & Ha & Hb & Hab);
      [by apply list_elem_of_In|].
    rewrite Ha in Hb. injection Hb as <-. rewrite compare_refl in Hab. lia.
Qed.

Lemma view_after sk k :
  (1 <= k)%nat -> same_shape s2 sk -> links sk (o1 ++ n :: o2) (linked_upto t n k) ->
  view sk (o1 ++ n :: o2) (linked_upto t n k).
Proof.
  intros Hk (Hm & Hr & Hl & Hky & Ht) HL. pose proof (ok_view _ _ OK) as V.
  assert (Hlk : forall l x, x ∈ head_ :: o1 ++ o2 -> linked_upto t n k l x = tall s l x).
  { intros l x Hx. rewrite <- t_old by done. by rewrite !linked_upto_other by (by apply old_ne). }
  split.
  - apply (StronglySorted_impl_in _ _ _ new_sorted). intros i j _ _ (a & b & Ha & Hb & Hab).
    exists a, b. by rewrite !Hky.
  - pose proof (v_keys _ _ _ view_before) as Hks. rewrite list.Forall_app in *.
    destruct Hks as [Hk1 Hk2].
    assert (Himp : forall o, Forall (fun i => is_Some (node_key s2 i) /\ i <> head_) o ->
      Forall (fun i => is_Some (node_key sk i) /\ i <> head_) o).
    { intros o Ho. eapply List.Forall_impl; [|exact Ho]. intros i. by rewrite Hky. }
    split; [by apply Himp|]. constructor; [|by apply Himp]. rewrite Hky, Hkey.
    split; [done|]. unfold n, head_. pose proof (v_size _ _ _ V). lia.
  - rewrite Hl, Hlen, length_app. simpl. pose proof (v_size _ _ _ V) as Hsz. rewrite length_app in Hsz.
    unfold n. lia.
  - intros l Hlt. rewrite Hlk by left. by apply (v_head _ _ _ V).
  - intros x Hx. destruct (decide (x = n)) as [->|Hxn].
    + rewrite linked_upto_here. unfold t. rewrite Htn. destruct (Nat.ltb_spec 0 h), (Nat.ltb_spec 0 k); lia || done.
    + assert (Hx' : x ∈ o1 ++ o2).
      { rewrite elem_of_app, elem_of_cons in Hx. rewrite elem_of_app. naive_solver. }
      rewrite Hlk by (by right). by apply (v_base _ _ _ V).
  - apply t_down.
  - rewrite Hm. pose proof (v_height _ _ _ V). lia.
  - done.
Qed.

(** Every state the linking loop goes through shows a list: the old one before
    the first level is linked, the new one after. *)
Lemma stage prev k :
  (forall l, (l < h)%nat -> prev !! l = Some (Some (last_or (tall s2 l) head_ o1))) ->
  (k <= h)%nat ->
  exists sk, Insert_link k s2 prev n 0 = Some sk /\ (forall i, node_key sk i = node_key s2 i) /\
    (k = 0%nat -> view sk (o1 ++ o2) (linked_upto t n 0)) /\
    ((1 <= k)%nat -> view sk (o1 ++ n :: o2) (linked_upto t n k)) /\
    (k = h -> SkipList_ok sk (o1 ++ n :: o2)).
Proof.
  intros Hprev Hk. pose proof (ok_view _ _ OK) as V. pose proof (v_height _ _ _ V) as HhV.
  destruct (Insert_link_ok o1 o2 n t new_NoDup k s2 0 prev links_before) as (sk & E & Hsh & HL).
  - done.
  - intros l Hl. split; [unfold t; rewrite Htn; apply Nat.ltb_lt; lia|].
    split; [|apply Hprev; lia]. unfold t.
    assert (Hnh : head_ <> n) by (apply old_ne; left).
    rewrite (proj2 (Hsame head_ Hnh)). apply (v_head _ _ _ V). lia.
  - exists sk. rewrite Nat.add_0_l in HL. split; [done|].
    assert (Ha : (1 <= k)%nat -> view sk (o1 ++ n :: o2) (linked_upto t n k))
      by (intros; by apply view_after).
    split_and!; [apply Hsh| |done|].
    + intros ->. simpl in E. injection E as <-. apply view_before.
    + intros ->. destruct Hsh as (Hm & _ & _ & Hky & Ht).
      assert (Hall : forall l x, x ∈ head_ :: o1 ++ n :: o2 -> linked_upto t n h l x = tall sk l x).
      { intros l x Hx. rewrite Ht. destruct (decide (x = n)) as [->|Hxn].
        - rewrite linked_upto_here. unfold t. rewrite Htn. apply andb_diag.
        - by apply linked_upto_other. }
      destruct (Ha ltac:(lia)) as [V1 V2 V3 V4 V5 V6 V7 V8]. split.
      * split; try done.
        -- intros l Hl. rewrite <- Hall by left. by apply V4.
        -- intros x Hx. rewrite <- Hall by (by right). by apply V5.
        -- intros l x. unfold tall. destruct (nodes sk !! x); [|done]. rewrite !Nat.ltb_lt. lia.
        -- intros l pre x rest Hsp Hx.
           assert (Hin : forall y, y = x \/ y ∈ rest -> y ∈ head_ :: o1 ++ n :: o2).
           { intros y Hy. rewrite Hsp, elem_of_app, elem_of_cons. auto. }
           rewrite <- Hall in Hx by auto. rewrite (V8 l pre x rest Hsp Hx). do 2 f_equal.
           apply filter_ext_in. intros y Hy. apply Hall. auto.
      * intros x l Hx. rewrite Hm, Ht. destruct (decide (x = n)) as [->|Hxn].
        -- rewrite Htn, Nat.ltb_lt. lia.
        -- rewrite (proj2 (Hsame x Hxn)). intros Htl.
           assert (Hx' : x ∈ o1 ++ o2).
           { rewrite elem_of_app, elem_of_cons in Hx. rewrite elem_of_app. naive_solver. }
           pose proof (ok_max _ _ OK x l Hx' Htl). lia.
Qed.
End stages.
End insert.

(** ** The list of keys a skip list holds *)

Definition keys_of (s : SkipList K) (ord : list nat) : list K := omap (node_key s) ord.

(** [shows s ks]: a reader of [s] sees the keys [ks]. *)
Definition shows (s : SkipList K) (ks : list K) : Prop :=
  exists ord linked, view s ord linked /\ keys_of s ord = ks.

(** [holds s ks]: no insertion is under way. *)
Definition holds (s : SkipList K) (ks : list K) : Prop :=
  exists ord, SkipList_ok s ord /\ keys_of s ord = ks.

Definition is_before (key k : K) : bool := compare_ k key <? 0.

(** The keys before [key], [key], the keys after it. *)
Definition insert_key (key : K) (ks : list K) : list K :=
  List.filter (is_before key) ks ++ key :: List.filter (fun k => negb (is_before key k)) ks.

(** Iterating from a position to the end with [Valid], [key] and [Next]. *)
Fixpoint walk (fuel : nat) (s : SkipList K) (it : option nat) : option (list K) :=
  match it with
  | None => Some []
  | Some _ =>
      match fuel with
      | O => None
      | S fuel =>
          k ← Iterator_key s it;
          it ← Iterator_Next s it;
          rest ← walk fuel s it;
          Some (k :: rest)
      end
  end.

Definition walk_from (s : SkipList K) (it : option nat) : option (list K) :=
  walk (length (nodes s)) s it.

Definition contents (s : SkipList K) : option (list K) :=
  it ← Iterator_SeekToFirst s; walk_from s it.

Lemma holds_shows s ks : holds s ks -> shows s ks.
Proof. intros (ord & OK & Hk). exists ord, (tall s). split; [apply OK|done]. Qed.

Lemma keys_split s o1 o2 key :
  Forall (fun i => is_Some (node_key s i) /\ i <> head_) (o1 ++ o2) ->
  Forall (fun i => before s key i = true) o1 -> Forall (fun i => before s key i = false) o2 ->
  List.filter (is_before key) (keys_of s (o1 ++ o2)) = keys_of s o1 /\
  List.filter (fun k => negb (is_before key k)) (keys_of s (o1 ++ o2)) = keys_of s o2.
Proof.
  intros Hk H1 H2. apply list.Forall_app in Hk as [Hk1 Hk2]. unfold keys_of.
  rewrite omap_app, !List.filter_app.
  assert (E1 : forall o, Forall (fun i => is_Some (node_key s i) /\ i <> head_) o ->
    Forall (fun i => before s key i = true) o ->
    List.filter (is_before key) (omap (node_key s) o) = omap (node_key s) o /\
    List.filter (fun k => negb (is_before key k)) (omap (node_key s) o) = []).
  { induction 1 as [|i o [[k Hi] _] Ho IH]; intros Hb; [done|].
    apply list.Forall_cons in Hb as [Hb Hbo]. destruct (IH Hbo) as [I1 I2].
    unfold before in Hb. cbn [omap list_omap]. rewrite Hi in *. cbn [List.filter].
    change (compare_ k key <? 0) with (is_before key k) in Hb. rewrite !Hb. cbn [negb].
    by rewrite I1, I2. }
  assert (E2 : forall o, Forall (fun i => is_Some (node_key s i) /\ i <> head_) o ->
    Forall (fun i => before s key i = false) o ->
    List.filter (is_before key) (omap (node_key s) o) = [] /\
    List.filter (fun k => negb (is_before key k)) (omap (node_key s) o) = omap (node_key s) o).
  { induction 1 as [|i o [[k Hi] _] Ho IH]; intros Hb; [done|].
    apply list.Forall_cons in Hb as [Hb Hbo]. destruct (IH Hbo) as [I1 I2].
    unfold before in Hb. cbn [omap list_omap]. rewrite Hi in *. cbn [List.filter].
    change (compare_ k key <? 0) with (is_before key k) in Hb. rewrite !Hb. cbn [negb].
    by rewrite I1, I2. }
  destruct (E1 o1 Hk1 H1) as [-> ->], (E2 o2 Hk2 H2) as [-> ->]. by rewrite app_nil_r.
Qed.

Lemma base_filter s ord linked l :
  view s ord linked -> (forall y, y ∈ l -> y ∈ ord) -> List.filter (linked 0%nat) l = l.
Proof.
  intros V Hl. induction l as [|y l IH]; simpl; [done|].
  rewrite (v_base _ _ _ V) by (apply Hl; left). f_equal. apply IH. intros z Hz. apply Hl. by right.
Qed.

Lemma walk_spec s ord linked fuel pre rest :
  view s ord linked -> ord = pre ++ rest -> (length rest <= fuel)%nat ->
  walk fuel s (head rest) = Some (keys_of s rest).
Proof.
  intros V. revert pre fuel. induction rest as [|y rest IH]; intros pre fuel Ho Hf.
  { by destruct fuel. }
  destruct fuel as [|fuel]; [simpl in Hf; lia|]. cbn [head walk].
  pose proof (v_keys _ _ _ V) as Hk. rewrite Ho, list.Forall_app, list.Forall_cons in Hk.
  destruct Hk as (_ & [[k Hk] _] & _). cbn [Iterator_key Iterator_Next mbind option_bind].
  unfold keys_of. cbn [omap list_omap]. rewrite Hk. cbn [mbind option_bind].
  rewrite (v_links _ _ _ V 0%nat (head_ :: pre) y rest); [|by rewrite Ho|].
  - cbn [mbind option_bind]. rewrite (base_filter s ord linked rest V).
    + rewrite (IH (pre ++ [y]) fuel); [done|by rewrite Ho, <- app_assoc|simpl in Hf; lia].
    + intros z Hz. rewrite Ho, elem_of_app, elem_of_cons. auto.
  - apply (v_base _ _ _ V). rewrite Ho, elem_of_app, elem_of_cons. auto.
Qed.

Lemma walk_from_spec s ord linked pre rest :
  view s ord linked -> ord = pre ++ rest -> walk_from s (head rest) = Some (keys_of s rest).
Proof.
  intros V Ho. apply (walk_spec s ord linked _ pre rest V Ho).
  pose proof (v_size _ _ _ V) as Hs. rewrite Ho, length_app in Hs. lia.
Qed.

Lemma contents_view s ord linked : view s ord linked -> contents s = Some (keys_of s ord).
Proof.
  intros V. unfold contents, Iterator_SeekToFirst.
  rewrite (v_links _ _ _ V 0%nat [] head_ ord eq_refl) by (apply (v_head _ _ _ V); unfold kMaxHeight; lia).
  cbn [mbind option_bind]. rewrite (base_filter s ord linked ord V) by done.
  by apply (walk_from_spec s ord linked []).
Qed.

Lemma last_key s ord :
  Forall (fun i => is_Some (node_key s i) /\ i <> head_) ord ->
  (not_head (default head_ (list.last ord)) ≫= node_key s) = list.last (keys_of s ord).
Proof.
  intros Hk. induction ord as [|i ord _] using rev_ind; [done|].
  apply list.Forall_app in Hk as [_ Hk]. apply list.Forall_cons in Hk as [[[k Hk] Hi] _].
  rewrite last_snoc. cbn [default]. unfold not_head. cbn.
  destruct (Nat.eqb_spec i head_); [done|]. cbn. unfold keys_of. rewrite omap_app.
  cbn [omap list_omap]. rewrite Hk. by rewrite last_snoc.
Qed.

Lemma keys_of_ext s s' ord :
  (forall i, i ∈ ord -> node_key s' i = node_key s i) -> keys_of s' ord = keys_of s ord.
Proof.
  intros Hk. unfold keys_of. induction ord as [|i ord IH]; [done|]. cbn [omap list_omap].
  rewrite Hk by left. rewrite IH; [done|]. intros j Hj. apply Hk. by right.
Qed.

Lemma NewSkipList_holds any : holds (NewSkipList any) [].
Proof.
  exists []. split; [|done].
  assert (Ht : forall l x, tall (NewSkipList any) l x = true -> x = head_ /\ (l < kMaxHeight)%nat).
  { intros l [|x]; unfold tall; simpl; [|done]. intros Hl. apply Nat.ltb_lt in Hl. done. }
  split; [|intros x l Hx; by apply elem_of_nil in Hx].
  split; [constructor|constructor|simpl; lia| | | |unfold kMaxHeight; simpl; lia|].
  - intros l Hl. unfold tall. simpl. by apply Nat.ltb_lt.
  - intros x Hx. by apply elem_of_nil in Hx.
  - intros l [|x]; unfold tall; simpl; [|done]. rewrite !Nat.ltb_lt. lia.
  - intros l pre x rest Hsp Hx. apply Ht in Hx as [-> Hl].
    assert (rest = []) as -> by (destruct pre as [|? [|]]; injection Hsp; done).
    unfold Node_Next. cbn [NewSkipList nodes head_ lookup list_lookup mbind option_bind n_next].
    apply lookup_replicate_2. done.
Qed.

(** Insertion, seen at every stage of its linking loop. *)
Lemma Insert_stages s ks key :
  holds s ks -> Forall (fun k => compare_ k key <> 0) ks ->
  exists s2 prev x h, Insert_prepare s key = Some (s2, prev, x, h) /\ (1 <= h)%nat /\
    (forall k, (k <= h)%nat -> exists sk, Insert_link k s2 prev x 0 = Some sk /\
       shows sk (if (k =? 0)%nat then ks else insert_key key ks) /\
       (k = h -> holds sk (insert_key key ks))).
Proof.
  intros (ord & OK & <-) Hne. pose proof (ok_view _ _ OK) as V.
  destruct (split_before s ord key (v_sorted _ _ _ V)) as (o1 & o2 & -> & H1 & H2).
  destruct (Insert_prepare_ok s o1 o2 key OK H1 H2)
    as (s2 & prev & h & E & Hh & Hmh & Hh2 & Hlen & Hkey & Htn & Hsame & Hnext & Hprev).
  exists s2, prev, (length (nodes s)), h. split; [done|]. split; [lia|]. intros k Hk.
  pose proof (v_keys _ _ _ V) as Hks.
  destruct (keys_split s o1 o2 key Hks H1 H2) as [Hf1 Hf2].
  assert (Hne' : forall i k', i ∈ o2 -> node_key s i = Some k' -> compare_ k' key <> 0).
  { intros i k' Hi Hki. rewrite List.Forall_forall in Hne. apply Hne, list_elem_of_In.
    unfold keys_of. apply list_elem_of_omap. exists i. split; [|done]. rewrite elem_of_app. by right. }
  destruct (stage s o1 o2 key OK H1 H2 Hne' s2 h Hmh (conj (proj1 Hh) Hh2) Hlen Hkey Htn Hsame Hnext
    prev k Hprev Hk) as (sk & Hl & Hkeys & Hbefore & Hafter & Hdone).
  exists sk. split; [done|].
  assert (Hold : forall i, i ∈ o1 ++ o2 -> node_key sk i = node_key s i).
  { intros i Hi. rewrite Hkeys. apply Hsame. intros ->.
    assert (Hlt : (length (nodes s) < length (nodes s))%nat)
      by (apply (ord_lt_n s o1 o2 OK); by right). lia. }
  assert (Hnew : keys_of sk (o1 ++ length (nodes s) :: o2) = insert_key key (keys_of s (o1 ++ o2))).
  { unfold insert_key. rewrite Hf1, Hf2.
    rewrite <- (keys_of_ext s sk o1), <- (keys_of_ext s sk o2)
      by (intros; apply Hold; rewrite elem_of_app; auto).
    unfold keys_of. rewrite omap_app. cbn [omap list_omap]. by rewrite Hkeys, Hkey. }
  split.
  - destruct (Nat.eqb_spec k 0) as [Hk0|Hk0].
    + exists (o1 ++ o2). eexists. split; [by apply Hbefore|]. by apply keys_of_ext.
    + exists (o1 ++ length (nodes s) :: o2). eexists. split; [apply Hafter; lia|done].
  - intros ->. exists (o1 ++ length (nodes s) :: o2). split; [by apply Hdone|done].
Qed.

Lemma Insert_holds s ks key :
  holds s ks -> Forall (fun k => compare_ k key <> 0) ks ->
  exists s', Insert s key = Some s' /\ holds s' (insert_key key ks).
Proof.
  intros Hs Hne. destruct (Insert_stages s ks key Hs Hne) as (s2 & prev & x & h & E & Hh & Hst).
  destruct (Hst h ltac:(lia)) as (sk & Hl & _ & Hd). exists sk. unfold Insert. rewrite E.
  cbn [mbind option_bind]. auto.
Qed.

(** Searching, on any list a reader can see. *)
Lemma shows_search s ks key :
  shows s ks ->
  (exists it, Iterator_Seek s key = Some it /\
     walk_from s it = Some (List.filter (fun k => negb (is_before key k)) ks) /\
     forall x, it = Some x -> exists p, Iterator_Prev s it = Some p /\
       exists kx, node_key s x = Some kx /\
       (p ≫= node_key s) = list.last (List.filter (is_before kx) ks)) /\
  contents s = Some ks /\
  (exists it, Iterator_SeekToLast s = Some it /\ (it ≫= node_key s) = list.last ks) /\
  Contains s key = Some (existsb (fun k => compare_ key k =? 0) ks).
Proof.
  intros (ord & linked & V & <-). pose proof (v_keys _ _ _ V) as Hks.
  destruct (split_before s ord key (v_sorted _ _ _ V)) as (o1 & o2 & Ho & H1 & H2).
  destruct (FGE_spec s ord linked V key o1 o2 Ho H1 H2 None) as (prev' & Ef & _).
  assert (Hks' := Hks). rewrite Ho in Hks'. destruct (keys_split s o1 o2 key Hks' H1 H2) as [Hf1 Hf2].
  split_and!.
  - exists (head o2). unfold Iterator_Seek. rewrite Ef. split; [done|].
    rewrite (walk_from_spec s ord linked o1 o2 V Ho), Ho, Hf2. split; [done|].
    intros x Hx. destruct o2 as [|y o2]; [done|]. injection Hx as ->.
    rewrite Ho, list.Forall_app, list.Forall_cons in Hks. destruct Hks as (_ & [[kx Hkx] _] & _).
    destruct (split_before s ord kx (v_sorted _ _ _ V)) as (p1 & p2 & Ho' & P1 & P2).
    assert (Hks2 := v_keys _ _ _ V). rewrite Ho' in Hks2.
    destruct (keys_split s p1 p2 kx Hks2 P1 P2) as [Hg1 _].
    eexists. split.
    { cbn. rewrite Hkx. cbn. rewrite (FindLessThan_spec s ord linked V kx p1 p2 Ho' P1 P2). done. }
    exists kx. split; [done|]. rewrite <- Ho, Ho', Hg1. apply last_key.
    by apply list.Forall_app in Hks2 as [].
  - by apply (contents_view s ord linked).
  - unfold Iterator_SeekToLast. rewrite (FindLast_spec s ord linked V). eexists. split; [done|].
    by apply last_key.
  - unfold Contains. rewrite Ef. cbn [mbind option_bind fst].
    rewrite Ho. unfold keys_of. rewrite omap_app, existsb_app.
    assert (Hno1 : existsb (fun k => compare_ key k =? 0) (omap (node_key s) o1) = false).
    { clear -H1 H0. induction H1 as [|i o Hi Ho IH]; [done|]. cbn [omap list_omap].
      unfold before in Hi. destruct (node_key s i) as [k|]; [|done]. cbn [existsb].
      rewrite IH, orb_false_r. apply Z.ltb_lt in Hi. pose proof (compare_antisym key k).
      apply Z.eqb_neq. lia. }
    rewrite Hno1. destruct o2 as [|y o2]; [done|]. cbn [head omap list_omap].
    rewrite list.Forall_app, list.Forall_cons in Hks'. destruct Hks' as (_ & [[k Hk] _] & _).
    rewrite Hk. cbn [mbind option_bind existsb orb].
    destruct (compare_ key k =? 0) eqn:E; [done|]. cbn [orb]. f_equal. symmetry.
    apply not_true_iff_false. intros (k' & Hin & Hk')%existsb_exists.
    apply list_elem_of_In, list_elem_of_omap in Hin as (j & Hj & Hkj).
    pose proof (v_sorted _ _ _ V) as Hs. rewrite Ho in Hs.
    apply StronglySorted_app in Hs as (_ & _ & Hs). apply StronglySorted_cons in Hs as [Hy _].
    rewrite List.Forall_forall in Hy. destruct (Hy j) as (a & b & Ha & Hb & Hab);
      [by apply list_elem_of_In|]. rewrite Hk in Ha. rewrite Hkj in Hb. injection Ha as <-.
    injection Hb as <-. apply list.Forall_cons in H2 as [H2 _]. unfold before in H2. rewrite Hk in H2.
    apply Z.ltb_ge in H2. apply Z.eqb_eq in Hk'. apply Z.eqb_neq in E.
    pose proof (compare_antisym key k). pose proof (compare_antisym key k').
    assert (compare_ k key <= 0) by (apply (compare_trans k k' key); lia). lia.
Qed.

(** [Seek] stands on the first key at or after its target. *)
Lemma Seek_first s ks key :
  shows s ks ->
  exists it, Iterator_Seek s key = Some it /\
    (it ≫= node_key s) = head (List.filter (fun k => negb (is_before key k)) ks).
Proof.
  intros Hs. destruct (shows_search s ks key Hs) as ((it & Hi & Hw & _) & _). exists it.
  split; [done|]. unfold walk_from in Hw. destruct it as [x|]; [|by destruct (nodes s); injection Hw as <-].
  destruct (length (nodes s)) as [|fuel]; [done|]. cbn [walk Iterator_key mbind option_bind] in *.
  destruct (node_key s x) as [k|]; [|done]. cbn [mbind option_bind] in *.
  destruct (Iterator_Next s (Some x)) as [it'|]; [|done]. cbn [mbind option_bind] in *.
  destruct (walk fuel s it') as [rest|]; [|done]. cbn [mbind option_bind] in *. by injection Hw as <-.
Qed.

Lemma insert_key_perm key ks : insert_key key ks ≡ₚ key :: ks.
Proof.
  unfold insert_key. rewrite <- Permutation_middle. f_equiv.
  induction ks as [|k ks IH]; [done|]. cbn [List.filter].
  destruct (is_before key k); cbn [negb app]; rewrite <- ?Permutation_middle; by f_equiv.
Qed.

Lemma holds_sorted s ks : holds s ks -> StronglySorted (fun a b => compare_ a b < 0) ks.
Proof.
  intros (ord & OK & <-). pose proof (v_sorted _ _ _ (ok_view _ _ OK)) as Hs. clear OK.
  induction Hs as [|i ord Hs IH Hi]; [constructor|]. unfold keys_of. cbn [omap list_omap].
  destruct (node_key s i) as [k|] eqn:E; [|done]. constructor; [done|].
  apply List.Forall_forall. intros k' Hk'%list_elem_of_In%list_elem_of_omap.
  destruct Hk' as (j & Hj & Hkj). rewrite List.Forall_forall in Hi.
  destruct (Hi j) as (a & b & Ha & Hb & Hab); [by apply list_elem_of_In|].
  rewrite E in Ha. rewrite Hkj in Hb. injection Ha as <-. by injection Hb as <-.
Qed.

Definition Insert_all (s : SkipList K) (keys : list K) : option (SkipList K) :=
  foldl (fun s key => s ← s; Insert s key) (Some s) keys.

Lemma Insert_all_holds keys s ks :
  holds s ks -> ForallOrdPairs (fun a b => compare_ a b <> 0) keys ->
  Forall (fun a => Forall (fun b => compare_ a b <> 0) keys) ks ->
  exists s' ks', Insert_all s keys = Some s' /\ holds s' ks' /\ ks' ≡ₚ keys ++ ks.
Proof.
  unfold Insert_all. revert s ks. induction keys as [|key keys IH]; intros s ks Hs Hp Hd.
  { by exists s, ks. }
  inversion Hp as [|? ? Hkey Hp']; subst. cbn [foldl mbind option_bind].
  destruct (Insert_holds s ks key Hs) as (s1 & -> & Hs1).
  { eapply List.Forall_impl; [|exact Hd]. intros a Ha. by apply list.Forall_cons in Ha as []. }
  destruct (IH s1 _ Hs1 Hp') as (s' & ks' & Hi & Hs' & Hperm).
  - rewrite insert_key_perm. constructor; [done|]. eapply List.Forall_impl; [|exact Hd].
    intros a Ha. by apply list.Forall_cons in Ha as [].
  - exists s', ks'. split; [done|]. split; [done|]. rewrite Hperm, insert_key_perm. cbn [app].
    by rewrite Permutation_middle.
Qed.

(** ** Properties *)

(** Whatever the order of insertion and whatever heights the generator draws,
    inserting keys no two of which compare equal succeeds, no link that does not
    exist is followed and every search ends; the list then holds exactly those
    keys, iterating from the first to the end yields them in strictly increasing
    order, and [Contains] answers membership. *)
Lemma skiplist_inserts (any : K) (keys : list K) :
  ForallOrdPairs (fun a b => compare_ a b <> 0) keys ->
  exists s ks, Insert_all (NewSkipList any) keys = Some s /\
    contents s = Some ks /\ ks ≡ₚ keys /\ StronglySorted (fun a b => compare_ a b < 0) ks /\
    forall key, Contains s key = Some (existsb (fun k => compare_ key k =? 0) ks).
Proof.
  intros Hp. destruct (Insert_all_holds keys (NewSkipList any) [] (NewSkipList_holds any) Hp)
    as (s & ks & Hi & Hs & Hperm); [constructor|]. rewrite app_nil_r in Hperm.
  exists s, ks. split; [done|].
  split; [by apply (shows_search s ks any), holds_shows|]. split; [done|].
  split; [by apply (holds_sorted s)|]. intros key. by apply (shows_search s ks key), holds_shows.
Qed.

(** C14. Readers run during an insertion without locks.  At every stage of the
    loop that publishes the new node, level by level, a reader sees a complete
    sorted list: the old keys before the first level is linked, and the old keys
    with the new one from then on.  In that list [Seek] finds the first key at or
    after its target and iterating from there yields the rest, [Prev] steps to the
    last key before, [SeekToLast] finds the last and [Contains] is membership;
    the last stage is the state [Insert] returns. *)
Theorem skiplist_readers_during_insert (s : SkipList K) (ks : list K) (key : K) :
  holds s ks -> Forall (fun k => compare_ k key <> 0) ks ->
  exists s2 prev x h, Insert_prepare s key = Some (s2, prev, x, h) /\
    Insert s key = Insert_link h s2 prev x 0 /\
    forall stage, (stage <= h)%nat ->
      exists sk, Insert_link stage s2 prev x 0 = Some sk /\
      let seen := if (stage =? 0)%nat then ks else insert_key key ks in
      contents sk = Some seen /\
      (forall target, exists it, Iterator_Seek sk target = Some it /\
         walk_from sk it = Some (List.filter (fun k => negb (is_before target k)) seen) /\
         (forall y, it = Some y -> exists p, Iterator_Prev sk it = Some p /\
            exists ky, node_key sk y = Some ky /\
            (p ≫= node_key sk) = list.last (List.filter (is_before ky) seen)) /\
         Contains sk target = Some (existsb (fun k => compare_ target k =? 0) seen)) /\
      exists it, Iterator_SeekToLast sk = Some it /\ (it ≫= node_key sk) = list.last seen.
Proof.
  intros Hs Hne. destruct (Insert_stages s ks key Hs Hne) as (s2 & prev & x & h & E & Hh & Hst).
  exists s2, prev, x, h. split; [done|]. split; [unfold Insert; by rewrite E|].
  intros stage Hstage. destruct (Hst stage Hstage) as (sk & Hl & Hsh & _). exists sk.
  split; [done|]. cbv zeta. split; [by apply (shows_search sk _ key)|]. split.
  - intros target. destruct (shows_search sk _ target Hsh) as ((it & H1 & H2 & H3) & _ & _ & H4).
    by exists it.
  - by apply (shows_search sk _ key).
Qed.
End view.

(** Integers as keys. *)
#[export] Instance Z_Compare : Compare Z := Z.sub.

#[export] Instance Z_CompareLaws : CompareLaws Z.
Proof. split; unfold compare_, Z_Compare; lia. Qed.

Lemma skiplist_inserts_witness :
  (s ← Insert_all (NewSkipList 0) [5; 3; 8; 1]; contents s) = Some [1; 3; 5; 8] /\
  exists s ks, Insert_all (NewSkipList 0) [5; 3; 8; 1] = Some s /\
    contents s = Some ks /\ ks ≡ₚ [5; 3; 8; 1] /\ StronglySorted (fun a b => compare_ a b < 0) ks /\
    forall key, Contains s key = Some (existsb (fun k => compare_ key k =? 0) ks).
Proof.
  split; [vm_compute; reflexivity|]. apply skiplist_inserts.
  repeat constructor; vm_compute; congruence.
Defined.

Lemma skiplist_readers_during_insert_witness :
  exists s2 prev x h, Insert_prepare (NewSkipList 0) 7 = Some (s2, prev, x, h) /\
    Insert (NewSkipList 0) 7 = Insert_link h s2 prev x 0 /\
    forall stage, (stage <= h)%nat ->
      exists sk, Insert_link stage s2 prev x 0 = Some sk /\
      let seen := if (stage =? 0)%nat then [] else insert_key 7 [] in
      contents sk = Some seen /\
      (forall target, exists it, Iterator_Seek sk target = Some it /\
         walk_from sk it = Some (List.filter (fun k => negb (is_before target k)) seen) /\
         (forall y, it = Some y -> exists p, Iterator_Prev sk it = Some p /\
            exists ky, node_key sk y = Some ky /\
            (p ≫= node_key sk) = list.last (List.filter (is_before ky) seen)) /\
         Contains sk target = Some (existsb (fun k => compare_ target k =? 0) seen)) /\
      exists it, Iterator_SeekToLast sk = Some it /\ (it ≫= node_key sk) = list.last seen.
Proof.
  apply (skiplist_readers_during_insert (NewSkipList 0) [] 7).
  - apply NewSkipList_holds.
  - constructor.
Defined.
