(* ===== verification/MemTable.v ===== *)
(** * The memtable

    Models [cpp/leveldb/db/memtable.h] and [cpp/leveldb/db/memtable.cc]: a skip list
    of encoded entries, ordered by the internal keys they start with.  A
    [const char*] into an entry is the bytes from that address on.  [is_newest] is
    the abstract specification of [Get]: the entry of the user key with the highest
    sequence number a snapshot can see. *)
From stdpp Require Import sorting.
From S2P Require Import Prelude Coding Status Comparator DbFormat WriteBatch Random Arena SkipList.

(** The file-local [GetLengthPrefixedSlice(data)]: the slice, and the bytes
    after it.  At most five bytes are read for the length.  The code assumes the
    entry is not corrupted; the result for a malformed one stands for any. *)
Definition mem_GetLengthPrefixedSlice (data : bytes) : bytes * bytes :=
  match GetVarint32Ptr (take 5 data) with
  | Some (len, p) =>
      let p := drop (length (take 5 data) - length p) data in
      (take (Z.to_nat len) p, drop (Z.to_nat len) p)
  | None => ([], [])
  end.

(** [EncodeKey] *)
Definition EncodeKey (target : bytes) : bytes := PutVarint32 [] (u32 (size target)) ++ target.

Record MemTable := MkMemTable { refs_ : Z; table_ : SkipList bytes }.

Section memtable.
Context `{C : Comparator}.

(** [KeyComparator::operator()] *)
#[local] Instance KeyComparator : Compare bytes := fun aptr bptr =>
  let a := (mem_GetLengthPrefixedSlice aptr).1 in
  let b := (mem_GetLengthPrefixedSlice bptr).1 in
  Internal_Compare C a b.

Definition NewMemTable : MemTable := MkMemTable 0 (NewSkipList []).

Definition Ref (m : MemTable) : MemTable := MkMemTable (refs_ m + 1) (table_ m).

(** [None] is the memtable deleting itself. *)
Definition Unref (m : MemTable) : option MemTable :=
  let refs := refs_ m - 1 in
  if refs <=? 0 then None else Some (MkMemTable refs (table_ m)).

(** The entry [Add] writes into the arena. *)
Definition encode_entry (s t : Z) (key value : bytes) : bytes :=
  let internal_key_size := size key + 8 in
  EncodeVarint32 (u32 internal_key_size) ++ key ++
  EncodeFixed64 (Z.lor (u64 (s ≪ 8)) t) ++
  EncodeVarint32 (u32 (size value)) ++ value.

Definition MemTable_Add (m : MemTable) (s t : Z) (key value : bytes) : option MemTable :=
  table ← Insert (table_ m) (encode_entry s t key value);
  Some (MkMemTable (refs_ m) table).

(** What the memtable has asked its arena for: the head of the skip list, then the entry
    and the node of each [Add].  A node is a pointer to its entry and its links. *)
Definition node_size (n : Node bytes) : Z := 16 + 8 * (Z.of_nat (length (n_next n)) - 1).

Definition arena_requests (m : MemTable) : list (bool * Z) :=
  match nodes (table_ m) with
  | [] => []
  | head :: entries => (true, node_size head) :: flat_map (fun n => [(false, size (n_key n)); (true, node_size n)]) entries
  end.

(** The arena's [MemoryUsage] does not depend on the heap: [allocate_all_usage]. *)
Definition ApproximateMemoryUsage (m : MemTable) : Z :=
  MemoryUsage (allocate_all ([] : list (Z * Z)) NewArena (arena_requests m)).1.2.

(** [Get]: whether the key was found, the new [*value] and the new [*s]. *)
Definition MemTable_Get (m : MemTable) (key : LookupKey) (value : bytes) (s : Status)
    : option (bool * bytes * Status) :=
  iter ← Iterator_Seek (table_ m) (memtable_key key);
  match iter with
  | None => Some (false, value, s)
  | Some _ =>
      entry ← Iterator_key (table_ m) iter;
      let '(ikey, after) := mem_GetLengthPrefixedSlice entry in
      if cmp_Compare (take (length ikey - 8) ikey) (lookup_user_key key) =? 0 then
        let tag := DecodeFixed64 (drop (length ikey - 8) ikey) in
        let t := Z.land tag 0xff in
        if t =? kTypeValue then Some (true, (mem_GetLengthPrefixedSlice after).1, s)
        else if t =? kTypeDeletion then Some (true, value, Status_NotFound [] [])
        else Some (false, value, s)
      else Some (false, value, s)
  end.

(** [MemTableIterator] over the position in the skip list. *)
Definition MemTableIterator_Valid (iter_ : option nat) : bool := Iterator_Valid iter_.
Definition MemTableIterator_Seek (m : MemTable) (k : bytes) : option (option nat) :=
  Iterator_Seek (table_ m) (EncodeKey k).
Definition MemTableIterator_SeekToFirst (m : MemTable) : option (option nat) :=
  Iterator_SeekToFirst (table_ m).
Definition MemTableIterator_SeekToLast (m : MemTable) : option (option nat) :=
  Iterator_SeekToLast (table_ m).
Definition MemTableIterator_Next (m : MemTable) (iter_ : option nat) : option (option nat) :=
  Iterator_Next (table_ m) iter_.
Definition MemTableIterator_Prev (m : MemTable) (iter_ : option nat) : option (option nat) :=
  Iterator_Prev (table_ m) iter_.
Definition MemTableIterator_key (m : MemTable) (iter_ : option nat) : option bytes :=
  e ← Iterator_key (table_ m) iter_; Some (mem_GetLengthPrefixedSlice e).1.
Definition MemTableIterator_value (m : MemTable) (iter_ : option nat) : option bytes :=
  e ← Iterator_key (table_ m) iter_;
  Some (mem_GetLengthPrefixedSlice (mem_GetLengthPrefixedSlice e).2).1.

(** The memtable as the target of a write batch. *)
#[export] Instance MemTable_MemTableAdd : MemTableAdd (option MemTable) :=
  fun m s t key value => m ← m; MemTable_Add m s t key value.

(** ** The specification of [Get] *)

(** An entry a reader of [u] at sequence number [snapshot] can see. *)
Definition visible (u : bytes) (snapshot : Z) (e : entry) : Prop :=
  cmp_Compare (e_key e) u = 0 /\ e_seq e <= snapshot.

Definition is_newest (u : bytes) (snapshot : Z) (entries : list entry) (e : entry) : Prop :=
  e ∈ entries /\ visible u snapshot e /\
  forall e', e' ∈ entries -> visible u snapshot e' -> e_seq e' <= e_seq e.

(** What the write path guarantees of an entry. *)
Definition entry_ok (e : entry) : Prop :=
  seq_ok (e_seq e) /\ type_ok (e_type e) /\ fits 32 (size (e_key e) + 8) /\
  fits 32 (size (e_value e)).

(** The result of [Get] when the newest visible entry is [e]. *)
Definition get_result (e : option entry) (value : bytes) (s : Status) : bool * bytes * Status :=
  match e with
  | None => (false, value, s)
  | Some e =>
      if e_type e =? kTypeValue then (true, e_value e, s)
      else (true, value, Status_NotFound [] [])
  end.

(** ** Encoded entries *)

Definition encode (e : entry) : bytes := encode_entry (e_seq e) (e_type e) (e_key e) (e_value e).
Definition e_ikey (e : entry) : bytes := InternalKey (e_key e) (e_seq e) (e_type e).

Lemma mem_GetLengthPrefixedSlice_encode value rest :
  fits 32 (size value) ->
  mem_GetLengthPrefixedSlice (PutLengthPrefixedSlice [] value ++ rest) = (value, rest).
Proof.
  intros Hv. unfold PutLengthPrefixedSlice, PutVarint32. cbn [app].
  rewrite wrap_id, <- app_assoc by done. set (enc := EncodeVarint32 (size value)).
  unfold mem_GetLengthPrefixedSlice.
  assert (Hlen : (length enc <= 5)%nat).
  { unfold enc. rewrite EncodeVarint32_64 by done. unfold fits in Hv.
    pose proof (EncodeVarint64_bound 4 (size value) ltac:(simpl; lia) ltac:(lia)).
    unfold size in *. lia. }
  rewrite (take_app_ge enc) by done.
  change GetVarint32Ptr with GetVarint32. unfold enc at 1. rewrite GetVarint32_encode by done.
  rewrite length_app.
  replace (length enc + _ - _)%nat with (length enc) by lia. rewrite drop_app_length.
  by rewrite take_app_size, drop_app_size.
Qed.

Lemma size_InternalKey u s t : size (InternalKey u s t) = size u + 8.
Proof. rewrite InternalKey_app, size_app, size_EncodeFixed64. done. Qed.

Lemma encode_parts e :
  entry_ok e ->
  encode e = PutLengthPrefixedSlice [] (e_ikey e) ++ PutLengthPrefixedSlice [] (e_value e).
Proof.
  intros (Hs & Ht & Hk & Hv). unfold encode, encode_entry, PutLengthPrefixedSlice, PutVarint32.
  unfold e_ikey. rewrite size_InternalKey, InternalKey_app. unfold PackSequenceAndType.
  cbn [app]. by rewrite <- !app_assoc.
Qed.

Lemma e_ikey_fits e : entry_ok e -> fits 32 (size (e_ikey e)).
Proof. intros (_ & _ & Hk & _). unfold e_ikey. by rewrite size_InternalKey. Qed.

Lemma encode_decode e rest :
  entry_ok e ->
  mem_GetLengthPrefixedSlice (encode e) = (e_ikey e, PutLengthPrefixedSlice [] (e_value e)) /\
  mem_GetLengthPrefixedSlice (PutLengthPrefixedSlice [] (e_value e) ++ rest) = (e_value e, rest).
Proof.
  intros He. rewrite encode_parts by done. split.
  - apply mem_GetLengthPrefixedSlice_encode. by apply e_ikey_fits.
  - apply mem_GetLengthPrefixedSlice_encode. apply He.
Qed.

(** ** Lookups *)

Context `{!ComparatorLaws C}.

#[local] Instance KeyComparatorLaws : CompareLaws bytes.
Proof.
  pose proof (InternalKeyComparatorLaws (C := C)) as L. split; unfold compare_, KeyComparator.
  - intros a. apply (cmp_refl (ComparatorLaws := L)).
  - intros a b. apply (cmp_antisym (ComparatorLaws := L)).
  - intros a b c. apply (cmp_trans (ComparatorLaws := L)).
Qed.

Lemma compare_encode e1 e2 :
  entry_ok e1 -> entry_ok e2 ->
  compare_ (encode e1) (encode e2) = Internal_Compare C (e_ikey e1) (e_ikey e2).
Proof.
  intros H1 H2. unfold compare_, KeyComparator.
  destruct (encode_decode e1 [] H1) as [-> _], (encode_decode e2 [] H2) as [-> _]. done.
Qed.

(** Entries with different sequence numbers never compare equal. *)
Lemma compare_encode_ne e1 e2 :
  entry_ok e1 -> entry_ok e2 -> e_seq e1 <> e_seq e2 -> compare_ (encode e1) (encode e2) <> 0.
Proof.
  intros H1 H2 Hne. rewrite compare_encode by done. unfold e_ikey.
  destruct H1 as (Hs1 & Ht1 & _), H2 as (Hs2 & Ht2 & _). intros H0.
  pose proof (Internal_Compare_sgn (C := C) (InternalKey (e_key e1) (e_seq e1) (e_type e1))
    (InternalKey (e_key e2) (e_seq e2) (e_type e2))) as Hsg.
  apply type_ok_range in Ht1, Ht2.
  rewrite H0, !key_tag_InternalKey in Hsg by (done || lia).
  destruct (decide _); simpl in Hsg; lia.
Qed.

(** The key a lookup seeks. *)
Definition lookup_entry (u : bytes) (snapshot : Z) : bytes := memtable_key (NewLookupKey u snapshot).

Lemma lookup_decode u snapshot :
  fits 32 (size u + 8) ->
  mem_GetLengthPrefixedSlice (lookup_entry u snapshot) = (InternalKey u snapshot kValueTypeForSeek, []).
Proof.
  intros Hu. unfold lookup_entry. destruct (NewLookupKey_parts u snapshot) as (_ & -> & _).
  rewrite <- (mem_GetLengthPrefixedSlice_encode (InternalKey u snapshot kValueTypeForSeek) [])
    by (by rewrite size_InternalKey).
  f_equal. unfold PutLengthPrefixedSlice, PutVarint32. rewrite size_InternalKey, app_nil_r.
  by rewrite <- app_assoc.
Qed.

(** An entry is at or after the lookup key: of a later user key, or of the same and
    visible. *)
Lemma not_before_lookup u snapshot e :
  entry_ok e -> seq_ok snapshot -> fits 32 (size u + 8) ->
  is_before (lookup_entry u snapshot) (encode e) = false <->
    cmp_Compare (e_key e) u > 0 \/ visible u snapshot e.
Proof.
  intros He Hs Hu. unfold is_before, compare_, KeyComparator.
  rewrite lookup_decode by done. destruct (encode_decode e [] He) as [-> _]. cbn [fst].
  rewrite Z.ltb_ge. unfold e_ikey, visible. destruct He as (Hse & Hte & _).
  pose proof (Internal_Compare_InternalKey (C := C) (e_key e) (e_seq e) (e_type e) u snapshot
    kValueTypeForSeek Hse Hs Hte ltac:(by right)) as Hlt.
  apply type_ok_range in Hte. unfold kValueTypeForSeek, kTypeValue in *. lia.
Qed.

Lemma Add_Insert m e :
  MemTable_Add m (e_seq e) (e_type e) (e_key e) (e_value e) =
    table ← Insert (table_ m) (encode e); Some (MkMemTable (refs_ m) table).
Proof. done. Qed.

Lemma Add_entries_table entries m :
  foldl add_entry (Some m) entries =
    table ← Insert_all (table_ m) (map encode entries); Some (MkMemTable (refs_ m) table).
Proof.
  unfold Insert_all. assert (Hgen : forall os, 
    foldl add_entry (table ← os; Some (MkMemTable (refs_ m) table)) entries =
    table ← foldl (fun s key => s ← s; Insert s key) os (map encode entries);
    Some (MkMemTable (refs_ m) table)).
  { induction entries as [|e entries IH]; intros os; [done|]. cbn [foldl map].
    rewrite <- IH. f_equal. by destruct os. }
  specialize (Hgen (Some (table_ m))). rewrite <- Hgen. cbn. by destruct m.
Qed.

(** The memtable filled with [entries]. *)
Lemma Add_entries_holds entries :
  Forall entry_ok entries -> NoDup (map e_seq entries) ->
  exists m ks, foldl add_entry (Some NewMemTable) entries = Some m /\
    holds (table_ m) ks /\ ks ≡ₚ map encode entries.
Proof.
  intros Hok Hnd. rewrite Add_entries_table.
  destruct (Insert_all_holds (map encode entries) (NewSkipList []) [] (NewSkipList_holds []))
    as (s & ks & E & Hs & Hp).
  - induction Hok as [|e entries He Hok IH]; [constructor|]. cbn [map] in *.
    apply list.NoDup_cons in Hnd as [Hn Hnd]. constructor; [|by apply IH].
    apply List.Forall_map, List.Forall_forall. intros e' He'.
    rewrite List.Forall_forall in Hok. apply compare_encode_ne; [done|by apply Hok|].
    intros Heq. apply Hn. rewrite Heq. by apply list_elem_of_In, in_map.
  - constructor.
  - cbn [table_ NewMemTable] in *. rewrite E. exists (MkMemTable 0 s), ks. rewrite app_nil_r in Hp. done.
Qed.

(** More entries, with other sequence numbers, in a memtable. *)
Lemma Add_more_holds es m ks new :
  holds (table_ m) ks -> ks ≡ₚ map encode es -> Forall entry_ok (es ++ new) -> NoDup (map e_seq (es ++ new)) ->
  exists m' ks', foldl add_entry (Some m) new = Some m' /\ refs_ m' = refs_ m /\ holds (table_ m') ks' /\ ks' ≡ₚ map encode (es ++ new).
Proof.
  intros Hh Hks Hok Hnd. rewrite Add_entries_table. rewrite map_app in Hnd. apply list.NoDup_app in Hnd as (_ & Hdis & Hnd). apply list.Forall_app in Hok as [Hes Hnew].
  destruct (Insert_all_holds (map encode new) (table_ m) ks Hh) as (s & ks' & E & Hs & Hp).
  - clear Hdis. induction Hnew as [|e new He Hnew IH]; [constructor|]. cbn [map] in *. apply list.NoDup_cons in Hnd as [Hn Hnd]. constructor; [|by apply IH].
    apply List.Forall_map, List.Forall_forall. intros e' He'. rewrite List.Forall_forall in Hnew. apply compare_encode_ne; [done|by apply Hnew|].
    intros Heq. apply Hn. rewrite Heq. by apply list_elem_of_In, in_map.
  - apply list.Forall_forall. intros k Hk. rewrite Hks in Hk. apply list_elem_of_In, in_map_iff in Hk as (a & <- & Ha). apply list_elem_of_In in Ha.
    apply list.Forall_forall. intros k Hk. apply list_elem_of_In, in_map_iff in Hk as (b & <- & Hb). apply list_elem_of_In in Hb.
    apply compare_encode_ne; [by apply (proj1 (list.Forall_forall _ _) Hes)|by apply (proj1 (list.Forall_forall _ _) Hnew)|].
    intros Heq. apply (Hdis (e_seq a)); [|rewrite Heq]; by apply list_elem_of_In, in_map, list_elem_of_In.
  - rewrite E. exists (MkMemTable (refs_ m) s), ks'. split; [done|]. split; [done|]. split; [done|]. by rewrite Hp, Hks, map_app, Permutation_app_comm.
Qed.

(** The first entry at or after the lookup key, among sorted entries. *)
Lemma first_visible u snapshot entries ks :
  Forall entry_ok entries -> seq_ok snapshot -> fits 32 (size u + 8) ->
  ks ≡ₚ map encode entries -> StronglySorted (fun a b => compare_ a b < 0) ks ->
  match head (List.filter (fun k => negb (is_before (lookup_entry u snapshot) k)) ks) with
  | None => forall e, e ∈ entries -> ~ visible u snapshot e
  | Some k => exists e, k = encode e /\ e ∈ entries /\
      if decide (cmp_Compare (e_key e) u = 0) then is_newest u snapshot entries e
      else forall e', e' ∈ entries -> ~ visible u snapshot e'
  end.
Proof.
  intros Hok Hs Hu Hp Hsort. rewrite List.Forall_forall in Hok.
  assert (Hin : forall e, e ∈ entries -> encode e ∈ ks).
  { intros e He. rewrite Hp. apply list_elem_of_In, in_map. by apply list_elem_of_In. }
  assert (Hok' : forall e, e ∈ entries -> entry_ok e) by (intros e He; by apply Hok, list_elem_of_In).
  set (f := fun k => negb (is_before (lookup_entry u snapshot) k)).
  assert (Hvis : forall e, e ∈ entries -> visible u snapshot e -> f (encode e) = true).
  { intros e He Hv. unfold f. rewrite (proj2 (not_before_lookup u snapshot e (Hok' e He) Hs Hu)); auto. }
  destruct (head (List.filter f ks)) as [k|] eqn:Eh.
  - apply filter_first in Eh as (a & b & -> & Hf & Ha).
    assert (Hk : k ∈ map encode entries) by (rewrite <- Hp, elem_of_app, elem_of_cons; auto).
    apply list_elem_of_In, in_map_iff in Hk as (e & <- & He). apply list_elem_of_In in He.
    exists e. split; [done|]. split; [done|]. unfold f in Hf. apply negb_true_iff in Hf.
    apply (not_before_lookup u snapshot e (Hok' e He) Hs Hu) in Hf.
    assert (Hfirst : forall e', e' ∈ entries -> visible u snapshot e' ->
      compare_ (encode e) (encode e') <= 0).
    { intros e' He' Hv'. pose proof (Hin e' He') as Hi. rewrite elem_of_app, elem_of_cons in Hi.
      destruct Hi as [Hi|[->|Hi]].
      - apply filter_none in Ha. rewrite List.Forall_forall in Ha.
        exfalso.
        pose proof (Ha _ (proj1 (list_elem_of_In _ _) Hi)). pose proof (Hvis e' He' Hv'). congruence.
      - rewrite compare_refl. lia.
      - apply StronglySorted_app in Hsort as (_ & _ & Hsort).
        apply StronglySorted_cons in Hsort as [Hall _]. rewrite List.Forall_forall in Hall.
        pose proof (Hall _ (proj1 (list_elem_of_In _ _) Hi)). lia. }
    assert (Hcmp : forall e', e' ∈ entries -> visible u snapshot e' ->
      cmp_Compare (e_key e) (e_key e') < 0 \/
      (cmp_Compare (e_key e) (e_key e') = 0 /\ e_seq e' <= e_seq e)).
    { intros e' He' Hv'. pose proof (Hfirst e' He' Hv') as Hle.
      rewrite compare_encode in Hle by auto. unfold e_ikey in Hle. apply Internal_Compare_le in Hle.
      destruct (Hok' e He) as (Hse & Hte & _), (Hok' e' He') as (Hse' & Hte' & _).
      apply type_ok_range in Hte, Hte'. rewrite !key_tag_InternalKey in Hle by (done || lia).
      rewrite !InternalKey_app, !ExtractUserKey_app in Hle. lia. }
    destruct (decide (cmp_Compare (e_key e) u = 0)) as [Heq|Hneq].
    + split; [done|]. destruct Hf as [Hf|Hf]; [lia|]. split; [done|].
      intros e' He' Hv'. destruct (Hcmp e' He' Hv') as [Hlt|[_ Hle]]; [|done]. exfalso.
      destruct Hv' as [Hv' _].
      assert (H0 : cmp_Compare u (e_key e') = 0) by (by apply cmp_sym_eq).
      pose proof (cmp_eq_trans _ _ _ Heq H0). lia.
    + intros e' He' Hv'. destruct Hf as [Hf|[Hf _]]; [|done].
      destruct Hv' as [Hv' Hv2]. destruct (Hcmp e' He' (conj Hv' Hv2)) as [Hlt|[Heq _]].
      * assert (cmp_Compare (e_key e) u < 0) by (apply (cmp_lt_le_trans _ (e_key e')); lia). lia.
      * pose proof (cmp_eq_trans _ _ _ Heq Hv'). lia.
  - intros e He Hv. pose proof (Hvis e He Hv) as Hf. pose proof (Hin e He) as Hi.
    assert (Hin' : In (encode e) (List.filter f ks)).
    { apply filter_In. split; [by apply list_elem_of_In|done]. }
    by destruct (List.filter f ks).
Qed.

Lemma Get_spec entries u snapshot value s m ks :
  Forall entry_ok entries -> seq_ok snapshot -> fits 32 (size u + 8) ->
  holds (table_ m) ks -> ks ≡ₚ map encode entries ->
  exists e, MemTable_Get m (NewLookupKey u snapshot) value s = Some (get_result e value s) /\
    match e with
    | Some e => is_newest u snapshot entries e
    | None => forall e, e ∈ entries -> ~ visible u snapshot e
    end.
Proof.
  intros Hok Hs Hu Hh Hp. pose proof (holds_sorted _ _ Hh) as Hsort.
  pose proof (first_visible u snapshot entries ks Hok Hs Hu Hp Hsort) as Hf.
  destruct (Seek_first (table_ m) ks (lookup_entry u snapshot) (holds_shows _ _ Hh)) as (it & Hi & Hk).
  unfold MemTable_Get. fold (lookup_entry u snapshot). rewrite Hi. cbn [mbind option_bind].
  destruct (head _) as [k|].
  - destruct it as [x|]; [|done]. cbn [mbind option_bind] in Hk. unfold Iterator_key.
    cbn [mbind option_bind]. rewrite Hk. cbn [mbind option_bind].
    destruct Hf as (e & -> & He & Hf).
    assert (Hoke : entry_ok e) by (rewrite List.Forall_forall in Hok; by apply Hok, list_elem_of_In).
    destruct (encode_decode e [] Hoke) as [-> Hval]. rewrite app_nil_r in Hval. cbn [fst snd].
    rewrite (proj2 (proj2 (NewLookupKey_parts u snapshot))).
    fold (ExtractUserKey (e_ikey e)). fold (key_tag (e_ikey e)).
    unfold e_ikey. rewrite InternalKey_app, ExtractUserKey_app, <- InternalKey_app.
    destruct Hoke as (Hse & Hte & _). pose proof (type_ok_range _ Hte) as Htr.
    rewrite key_tag_InternalKey by (done || lia).
    replace (Z.land (e_seq e * 256 + e_type e) 255) with (e_type e)
      by (change 255 with (2 ^ 8 - 1); rewrite land_ones_mod by lia; zdiv).
    destruct (Z.eqb_spec (cmp_Compare (e_key e) u) 0) as [H0|H0].
    + rewrite decide_True in Hf by done. exists (Some e). split; [|done]. cbn [get_result].
      destruct (Z.eqb_spec (e_type e) kTypeValue) as [Hv|Hv]; [by rewrite Hval|].
      destruct (Z.eqb_spec (e_type e) kTypeDeletion) as [Hd|Hd]; [done|].
      by destruct Hte.
    + rewrite decide_False in Hf by done. by exists None.
  - destruct it as [x|]; [|by exists None]. exfalso. cbn [mbind option_bind] in Hk.
    destruct (shows_search (table_ m) ks (lookup_entry u snapshot) (holds_shows _ _ Hh))
      as ((it' & Hi' & Hw & _) & _). rewrite Hi in Hi'. injection Hi' as <-.
    unfold walk_from in Hw. destruct (length (nodes (table_ m))); [done|].
    cbn [walk Iterator_key mbind option_bind] in Hw. rewrite Hk in Hw. done.
Qed.

(** ** Properties *)

(** C28. [Get] is a snapshot read.  Of a memtable filled with any entries with
    distinct sequence numbers, in any order, looking up a user key at a sequence
    number finds the newest entry of that key visible there: a value is returned, a
    tombstone answers NotFound, and with no visible entry the key is not found and
    nothing is changed. *)
Theorem memtable_get (entries : list entry) (u value : bytes) (snapshot : Z) (s : Status) :
  Forall entry_ok entries -> NoDup (map e_seq entries) ->
  seq_ok snapshot -> fits 32 (size u + 8) ->
  exists m e, foldl add_entry (Some NewMemTable) entries = Some m /\
    MemTable_Get m (NewLookupKey u snapshot) value s = Some (get_result e value s) /\
    match e with
    | Some e => is_newest u snapshot entries e
    | None => forall e, e ∈ entries -> ~ visible u snapshot e
    end.
Proof.
  intros Hok Hnd Hs Hu. destruct (Add_entries_holds entries Hok Hnd) as (m & ks & E & Hh & Hp).
  destruct (Get_spec entries u snapshot value s m ks Hok Hs Hu Hh Hp) as (e & Hg & He).
  by exists m, e.
Qed.

(** Iterating over a memtable from its first entry to its last yields every
    entry added exactly once, in the order of their internal keys, and each position
    decodes to the internal key and the value that were added. *)
Lemma memtable_iteration (entries : list entry) :
  Forall entry_ok entries -> NoDup (map e_seq entries) ->
  exists m es, foldl add_entry (Some NewMemTable) entries = Some m /\
    es ≡ₚ entries /\ contents (table_ m) = Some (map encode es) /\
    StronglySorted (fun a b => Internal_Compare C (e_ikey a) (e_ikey b) < 0) es /\
    forall e, e ∈ es -> (mem_GetLengthPrefixedSlice (encode e)).1 = e_ikey e /\
      (mem_GetLengthPrefixedSlice (mem_GetLengthPrefixedSlice (encode e)).2).1 = e_value e.
Proof.
  intros Hok Hnd. destruct (Add_entries_holds entries Hok Hnd) as (m & ks & E & Hh & Hp).
  destruct (Permutation_map_inv _ _ Hp) as (es & -> & Hpe). exists m, es.
  assert (Hes : Forall entry_ok es) by (by rewrite <- Hpe).
  split; [done|]. split; [done|]. split; [by apply (shows_search _ _ []), holds_shows|]. split.
  - pose proof (holds_sorted _ _ Hh) as Hs. clear - Hs Hes. remember (map encode es) as l eqn:El.
    revert es Hes El. induction Hs as [|k l Hs IH Hk]; intros [|e es] Hes El; try done; constructor.
    + injection El as -> ->. apply IH; [|done]. by inversion Hes.
    + injection El as -> ->. inversion Hes as [|? ? He Hes']; subst.
      apply List.Forall_forall. intros e' He'. rewrite List.Forall_forall in Hk, Hes'.
      rewrite <- compare_encode by auto. apply Hk. by apply in_map.
  - intros e He. rewrite List.Forall_forall in Hes. apply list_elem_of_In, Hes in He.
    destruct (encode_decode e [] He) as [E1 E2]. rewrite app_nil_r in E2.
    rewrite E1. cbn [fst snd]. by rewrite E2.
Qed.
End memtable.

(** ** Batches *)

Definition op_key (op : batch_op) : bytes :=
  match op with OpPut key _ => key | OpDelete key => key end.

(** The last operation of a batch on a key. *)
Fixpoint last_op (u : bytes) (ops : list batch_op) : option batch_op :=
  match ops with
  | [] => None
  | op :: ops =>
      match last_op u ops with
      | Some op' => Some op'
      | None => if decide (op_key op = u) then Some op else None
      end
  end.

(** What a read answers after it. *)
Definition op_result (op : option batch_op) (value : bytes) (s : Status) : bool * bytes * Status :=
  match op with
  | None => (false, value, s)
  | Some (OpPut _ v) => (true, v, s)
  | Some (OpDelete _) => (true, value, Status_NotFound [] [])
  end.

Lemma op_entry_fields seq op :
  e_seq (op_entry seq op) = seq /\ e_key (op_entry seq op) = op_key op /\
  type_ok (e_type (op_entry seq op)).
Proof. destruct op; cbn; split_and!; try done; [by right|by left]. Qed.

Lemma op_entries_seq seq ops e :
  e ∈ op_entries seq ops -> seq <= e_seq e < seq + Z.of_nat (length ops).
Proof.
  revert seq. induction ops as [|op ops IH]; intros seq; cbn [op_entries length].
  { intros H%elem_of_nil. done. }
  intros [->|H%IH]%elem_of_cons; [|lia]. destruct (op_entry_fields seq op) as [-> _]. lia.
Qed.

Lemma op_entries_ok seq ops :
  0 <= seq -> seq + Z.of_nat (length ops) <= kMaxSequenceNumber + 1 ->
  Forall (fun op => fits 32 (size (op_key op) + 8)) ops -> Forall op_ok ops ->
  Forall entry_ok (op_entries seq ops) /\ NoDup (map e_seq (op_entries seq ops)).
Proof.
  revert seq. induction ops as [|op ops IH]; intros seq Hs Hl Hk Ho; cbn [op_entries map length] in *.
  { split; constructor. }
  inversion Hk; inversion Ho; subst. destruct (IH (seq + 1)) as [I1 I2]; [lia|lia|done|done|].
  destruct (op_entry_fields seq op) as (Hf1 & Hf2 & Hf3).
  split; constructor; [|done| |done].
  - unfold entry_ok. rewrite Hf1, Hf2. split; [unfold seq_ok; lia|]. split; [done|]. split; [done|].
    destruct op as [key v|key]; cbn in *; [naive_solver|]. vm_compute. by split.
  - rewrite Hf1. intros Hin. apply list_elem_of_In, in_map_iff in Hin as (e & He & Hin).
    apply list_elem_of_In, op_entries_seq in Hin. lia.
Qed.

Lemma last_op_none u ops seq :
  (forall e, e ∈ op_entries seq ops -> e_key e <> u) -> last_op u ops = None.
Proof.
  revert seq. induction ops as [|op ops IH]; intros seq H; [done|]. cbn [op_entries last_op] in *.
  rewrite (IH (seq + 1)) by (intros e He; apply H; by right).
  rewrite decide_False; [done|]. rewrite <- (proj1 (proj2 (op_entry_fields seq op))). apply H. left.
Qed.

Lemma newest_last_op u snapshot ops seq e :
  seq + Z.of_nat (length ops) <= snapshot + 1 ->
  is_newest (C := BytewiseComparator) u snapshot (op_entries seq ops) e ->
  exists i op, e = op_entry i op /\ last_op u ops = Some op.
Proof.
  revert seq. induction ops as [|op ops IH]; intros seq Hs (Hin & Hv & Hmax).
  { by apply elem_of_nil in Hin. }
  cbn [op_entries last_op length] in *. apply elem_of_cons in Hin as [->|Hin].
  - exists seq, op. split; [done|]. rewrite (last_op_none u ops (seq + 1)).
    + rewrite decide_True; [done|]. destruct Hv as [Hv _]. apply Slice_compare_eq in Hv.
      by rewrite <- Hv, (proj1 (proj2 (op_entry_fields seq op))).
    + intros e' He' Hu. pose proof (op_entries_seq _ _ _ He') as Hse.
      assert (e_seq e' <= e_seq (op_entry seq op)).
      { apply Hmax; [by right|]. split; [|lia]. apply Slice_compare_eq. done. }
      rewrite (proj1 (op_entry_fields seq op)) in *. lia.
  - destruct (IH (seq + 1)) as (i & op' & -> & Hl); [lia| |].
    + split; [done|]. split; [done|]. intros e' He' Hv'. apply Hmax; [by right|done].
    + exists i, op'. by rewrite Hl.
Qed.

(** A read after any operations, at or after the last of their sequence numbers. *)
Lemma get_last_op seq ops u snapshot value s m ks :
  0 <= seq -> seq + Z.of_nat (length ops) <= snapshot + 1 -> seq_ok snapshot ->
  Forall (fun op => fits 32 (size (op_key op) + 8)) ops -> Forall op_ok ops -> fits 32 (size u + 8) ->
  holds (H := KeyComparator (C := BytewiseComparator)) (table_ m) ks -> ks ≡ₚ map encode (op_entries seq ops) ->
  MemTable_Get (C := BytewiseComparator) m (NewLookupKey u snapshot) value s = Some (op_result (last_op u ops) value s).
Proof.
  intros Hs Hl Hsn Hk Ho Hu Hh Hp. destruct (op_entries_ok seq ops Hs ltac:(unfold seq_ok in Hsn; lia) Hk Ho) as [Hok _].
  destruct (Get_spec (op_entries seq ops) u snapshot value s m ks) as (e & -> & He); try done. f_equal. destruct e as [e|].
  - apply newest_last_op in He as (i & op & -> & ->); [|lia]. by destruct op.
  - rewrite (last_op_none u ops seq); [done|]. intros e He' Hu'. apply (He e He').
    pose proof (op_entries_seq _ _ _ He'). split; [|lia]. by apply Slice_compare_eq.
Qed.

(** C22. Last write wins, from the bytes of a batch to a read.  A batch of puts and
    deletions is parsed into an empty memtable; a lookup at the batch's last
    sequence number then answers what the last operation on the key says, and not
    found when no operation is on it. *)
Theorem batch_then_get (seq : Z) (ops : list batch_op) (u value : bytes) (s : Status) :
  0 <= seq -> seq + Z.of_nat (length ops) <= kMaxSequenceNumber ->
  ops_ok ops -> Forall (fun op => fits 32 (size (op_key op) + 8)) ops ->
  fits 32 (size u + 8) ->
  exists m, InsertInto (batch_rep seq ops) (Some NewMemTable) = Some (Some m, Status_OK) /\
    MemTable_Get m (NewLookupKey u (seq + Z.of_nat (length ops))) value s =
      Some (op_result (last_op u ops) value s).
Proof.
  intros Hs Hl Hops Hk Hu. destruct (op_entries_ok seq ops Hs ltac:(lia) Hk (proj1 Hops)) as [Hok Hnd].
  assert (Hl64 : seq + Z.of_nat (length ops) < 2 ^ 64).
  { unfold kMaxSequenceNumber in Hl. rewrite Z.shiftl_1_l in Hl. lia. }
  rewrite InsertInto_batch_rep by done.
  destruct (Add_entries_holds (op_entries seq ops) Hok Hnd) as (m & ks & E & Hh & Hp).
  exists m. split; [by rewrite E|]. apply (get_last_op seq ops u _ value s m ks); try done; [lia|unfold seq_ok; lia|apply Hops].
Qed.

Definition example_ops : list batch_op :=
  [OpPut (str "a") (str "1"); OpPut (str "b") (str "2"); OpDelete (str "a"); OpPut (str "b") (str "3")].

Lemma example_ops_ok : ops_ok example_ops.
Proof.
  split; [|reflexivity]. repeat apply List.Forall_cons; try apply List.Forall_nil;
    vm_compute; intuition congruence.
Qed.

Lemma batch_then_get_witness :
  exists m, InsertInto (batch_rep 10 example_ops) (Some NewMemTable) = Some (Some m, Status_OK) /\
    MemTable_Get m (NewLookupKey (str "b") (10 + Z.of_nat (length example_ops))) [] Status_OK =
      Some (op_result (last_op (str "b") example_ops) [] Status_OK).
Proof.
  apply batch_then_get.
  - lia.
  - vm_compute. congruence.
  - apply example_ops_ok.
  - repeat apply List.Forall_cons; try apply List.Forall_nil; vm_compute; intuition congruence.
  - vm_compute. intuition congruence.
Defined.

Definition example_entries : list entry := op_entries 10 example_ops.

Lemma example_entries_ok : Forall entry_ok example_entries /\ NoDup (map e_seq example_entries).
Proof.
  apply op_entries_ok; [lia|vm_compute; congruence| |apply example_ops_ok].
  repeat apply List.Forall_cons; try apply List.Forall_nil; vm_compute; intuition congruence.
Qed.

Lemma memtable_get_witness :
  exists m e, foldl add_entry (Some NewMemTable) example_entries = Some m /\
    MemTable_Get m (NewLookupKey (str "a") 11) [] Status_OK = Some (get_result e [] Status_OK) /\
    match e with
    | Some e => is_newest (str "a") 11 example_entries e
    | None => forall e, e ∈ example_entries -> ~ visible (str "a") 11 e
    end.
Proof.
  apply memtable_get.
  - apply example_entries_ok.
  - apply example_entries_ok.
  - vm_compute. intuition congruence.
  - vm_compute. intuition congruence.
Defined.

Lemma memtable_iteration_witness :
  exists m es, foldl add_entry (Some NewMemTable) example_entries = Some m /\
    es ≡ₚ example_entries /\ contents (table_ m) = Some (map encode es) /\
    StronglySorted (fun a b => Internal_Compare BytewiseComparator (e_ikey a) (e_ikey b) < 0) es /\
    forall e, e ∈ es -> (mem_GetLengthPrefixedSlice (encode e)).1 = e_ikey e /\
      (mem_GetLengthPrefixedSlice (mem_GetLengthPrefixedSlice (encode e)).2).1 = e_value e.
Proof.
  apply memtable_iteration.
  - apply example_entries_ok.
  - apply example_entries_ok.
Defined.
