(* ===== verification/Cursor.v ===== *)
(** * Iterators and what they promise

    The interface [cpp/leveldb/include/leveldb/iterator.h] as a class, the empty
    iterators of [cpp/leveldb/table/iterator.cc], the caching wrapper of
    [cpp/leveldb/table/iterator_wrapper.h], and the specification every iterator of
    the program is proved against: a cursor in an ordered list of pairs. *)
From S2P Require Import Prelude Status Comparator.

(** ** The interface *)

Class Iterator (I : Type) := {
  it_Valid : I -> bool;
  it_SeekToFirst : I -> res I;
  it_SeekToLast : I -> res I;
  it_Seek : I -> bytes -> res I;
  it_Next : I -> res I;
  it_Prev : I -> res I;
  it_key : I -> bytes;
  it_value : I -> res bytes;
  it_status : I -> Status
}.

(** ** The specification *)

Inductive iter_op := OpSeekToFirst | OpSeekToLast | OpSeek (target : bytes) | OpNext | OpPrev.

(** A position in the list, or none. *)
Abbreviation cursor := (option nat).

Section cursor.
Context `{C : Comparator}.

(** The first pair whose key is not below the target. *)
Fixpoint find_ge (target : bytes) (kvs : list (bytes * bytes)) : cursor :=
  match kvs with
  | [] => None
  | (k, _) :: kvs =>
      if cmp_Compare k target >=? 0 then Some O else S <$> find_ge target kvs
  end.

(** [None]: the step needs a valid iterator. *)
Definition cursor_step (kvs : list (bytes * bytes)) (c : cursor) (op : iter_op) : option cursor :=
  match op with
  | OpSeekToFirst => Some (match kvs with [] => None | _ => Some O end)
  | OpSeekToLast => Some (match kvs with [] => None | _ => Some (pred (length kvs)) end)
  | OpSeek target => Some (find_ge target kvs)
  | OpNext => i ← c; Some (if (S i <? length kvs)%nat then Some (S i) else None)
  | OpPrev => i ← c; Some (match i with O => None | S i => Some i end)
  end.

(** The cursor after each step. *)
Fixpoint cursor_run (kvs : list (bytes * bytes)) (c : cursor) (ops : list iter_op)
    : option (list cursor) :=
  match ops with
  | [] => Some []
  | op :: ops => c' ← cursor_step kvs c op; cs ← cursor_run kvs c' ops; Some (c' :: cs)
  end.

Definition at_cursor (kvs : list (bytes * bytes)) (c : cursor) : option (bytes * bytes) :=
  i ← c; kvs !! i.

(** Keys strictly increase. *)
Definition ascending (kvs : list (bytes * bytes)) : Prop :=
  forall i j p q, (i < j)%nat -> kvs !! i = Some p -> kvs !! j = Some q -> cmp_Compare p.1 q.1 < 0.

Section simulation.
Context {I : Type} `{Iterator I}.

Definition it_step (i : I) (op : iter_op) : res I :=
  match op with
  | OpSeekToFirst => it_SeekToFirst i
  | OpSeekToLast => it_SeekToLast i
  | OpSeek target => it_Seek i target
  | OpNext => it_Next i
  | OpPrev => it_Prev i
  end.

(** What a caller sees of an iterator. *)
Definition it_reads (i : I) : res (option (bytes * bytes)) :=
  if it_Valid i then let? v := it_value i in Ok (Some (it_key i, v)) else Ok None.

Fixpoint it_run (i : I) (ops : list iter_op) : res (list (option (bytes * bytes))) :=
  match ops with
  | [] => Ok []
  | op :: ops =>
      let? i := it_step i op in
      let? r := it_reads i in
      let? rs := it_run i ops in
      Ok (r :: rs)
  end.

(** [R] relates iterator states to cursors, and every step keeps it. *)
Definition simulates (R : I -> cursor -> Prop) (kvs : list (bytes * bytes)) : Prop :=
  forall i c, R i c ->
    it_reads i = Ok (at_cursor kvs c) /\ (is_Some c <-> is_Some (at_cursor kvs c)) /\
    Status_ok (it_status i) = true /\
    forall op c', cursor_step kvs c op = Some c' -> exists i', it_step i op = Ok i' /\ R i' c'.

(** An iterator over [kvs] that stands nowhere yet, or at [c]. *)
Definition iterates_at (i : I) (kvs : list (bytes * bytes)) (c : cursor) : Prop :=
  exists R, simulates R kvs /\ R i c.

Lemma iterates_step i kvs c op c' :
  iterates_at i kvs c -> cursor_step kvs c op = Some c' ->
  exists i', it_step i op = Ok i' /\ iterates_at i' kvs c'.
Proof.
  intros (R & HR & Hi) Hs. destruct (HR i c Hi) as (_ & _ & _ & Hop).
  destruct (Hop op c' Hs) as (i' & E & Hi'). exists i'. split; [done|]. by exists R.
Qed.

Lemma iterates_reads i kvs c :
  iterates_at i kvs c ->
  it_reads i = Ok (at_cursor kvs c) /\ (is_Some c <-> is_Some (at_cursor kvs c)) /\
  Status_ok (it_status i) = true.
Proof. intros (R & HR & Hi). destruct (HR i c Hi) as (H1 & H2 & H3 & _). done. Qed.

Lemma iterates_valid i kvs c : iterates_at i kvs c -> it_Valid i = bool_decide (is_Some c).
Proof.
  intros Hi. destruct (iterates_reads _ _ _ Hi) as (Hr & Hc & _). unfold it_reads in Hr.
  destruct (it_Valid i).
  - symmetry. apply bool_decide_eq_true_2. apply Hc. destruct (it_value i); [|done..].
    cbn in Hr. injection Hr as <-. by eexists.
  - symmetry. apply bool_decide_eq_false_2. intros Hs. apply Hc in Hs as [p Hp].
    rewrite Hp in Hr. done.
Qed.

Lemma iterates_key i kvs c k v :
  iterates_at i kvs c -> at_cursor kvs c = Some (k, v) -> it_key i = k /\ it_value i = Ok v.
Proof.
  intros Hi Hc. destruct (iterates_reads _ _ _ Hi) as (Hr & _ & _). rewrite Hc in Hr.
  unfold it_reads in Hr. destruct (it_Valid i); [|done]. destruct (it_value i); [|done..].
  cbn in Hr. by injection Hr as <- <-.
Qed.

(** An iterator before the pair [p]. *)
Lemma iterates_middle i kvs before p after :
  kvs = before ++ p :: after -> iterates_at i kvs (Some (length before)) ->
  it_Valid i = true /\ it_key i = p.1 /\ it_value i = Ok p.2 /\
  exists i', it_Next i = Ok i' /\ iterates_at i' kvs (if decide (after = []) then None else Some (length (before ++ [p]))).
Proof.
  intros Hk Hi. pose proof (iterates_valid i kvs _ Hi) as Hv. rewrite bool_decide_eq_true_2 in Hv by by eexists.
  destruct (iterates_reads i kvs _ Hi) as (Hr & _ & _). unfold it_reads in Hr. rewrite Hv in Hr.
  destruct (it_value i) as [v| |]; [|done..]. cbn [res_bind at_cursor mbind option_bind] in Hr. rewrite Hk, list_lookup_middle in Hr by done. injection Hr as <-.
  split; [done|]. split; [done|]. split; [done|]. rewrite length_app, Nat.add_1_r.
  apply (iterates_step i kvs _ OpNext _ Hi). cbn [cursor_step mbind option_bind]. rewrite Hk, length_app. cbn [length]. destruct (decide (after = [])) as [->|Hne]; cbn [length].
  - destruct (Nat.ltb_spec (S (length before)) (length before + 1)); [lia|done].
  - destruct after; [done|]. cbn [length]. destruct (Nat.ltb_spec (S (length before)) (length before + S (S (length after)))); [done|lia].
Qed.

(** Whole runs: every step is defined and shows the pair at the cursor. *)
Lemma iterates_run i kvs c ops cs :
  iterates_at i kvs c -> cursor_run kvs c ops = Some cs ->
  it_run i ops = Ok (map (at_cursor kvs) cs).
Proof.
  revert i c cs. induction ops as [|op ops IH]; intros i c cs Hi Hr; cbn in Hr; [by injection Hr as <-|].
  destruct (cursor_step kvs c op) as [c'|] eqn:Es; [|done]. cbn in Hr.
  destruct (cursor_run kvs c' ops) as [cs'|] eqn:Er; [|done]. injection Hr as <-.
  destruct (iterates_step i kvs c op c' Hi Es) as (i' & E & Hi'). cbn. rewrite E. cbn.
  destruct (iterates_reads _ _ _ Hi') as (-> & _ & _). cbn. by rewrite (IH i' c' cs' Hi' Er).
Qed.
End simulation.

(** *** Searching *)

Lemma find_ge_spec target kvs :
  match find_ge target kvs with
  | Some i => (exists p, kvs !! i = Some p /\ 0 <= cmp_Compare p.1 target) /\
      forall j p, (j < i)%nat -> kvs !! j = Some p -> cmp_Compare p.1 target < 0
  | None => forall j p, kvs !! j = Some p -> cmp_Compare p.1 target < 0
  end.
Proof.
  induction kvs as [|[k v] kvs IH]; [done|]. cbn [find_ge].
  destruct (Z.geb_spec (cmp_Compare k target) 0) as [Hge|Hlt].
  { split; [exists (k, v); split; [done|cbn; lia]|lia]. }
  destruct (find_ge target kvs) as [i|]; cbn.
  - destruct IH as [(p & Hp & Hge) Hall]. split; [by exists p|]. intros [|j] q Hj Hq.
    + injection Hq as <-. cbn. lia.
    + apply (Hall j); [lia|done].
  - intros [|j] q Hq; [injection Hq as <-; cbn; lia|by apply (IH j)].
Qed.

Lemma find_ge_unique target kvs i p :
  kvs !! i = Some p -> 0 <= cmp_Compare p.1 target ->
  (forall j p, (j < i)%nat -> kvs !! j = Some p -> cmp_Compare p.1 target < 0) ->
  find_ge target kvs = Some i.
Proof.
  intros Hp Hge Hall. pose proof (find_ge_spec target kvs) as Hs.
  destruct (find_ge target kvs) as [i'|]; [|specialize (Hs i p Hp); lia].
  destruct Hs as [(p' & Hp' & Hge') Hall']. destruct (Nat.lt_trichotomy i i') as [H|[->|H]]; [|done|].
  - specialize (Hall' i p H Hp). lia.
  - specialize (Hall i' p' H Hp'). lia.
Qed.

Lemma find_ge_none target kvs :
  (forall j p, kvs !! j = Some p -> cmp_Compare p.1 target < 0) -> find_ge target kvs = None.
Proof.
  intros Hall. pose proof (find_ge_spec target kvs) as Hs. destruct (find_ge target kvs) as [i|]; [|done].
  destruct Hs as [(p & Hp & Hge) _]. specialize (Hall i p Hp). lia.
Qed.
End cursor.

(** ** Ascending lists *)

Section ascending.
Context `{C : Comparator} `{!ComparatorLaws C}.

(** Every key is below its successor. *)
Fixpoint ascending_b (kvs : list (bytes * bytes)) : bool :=
  match kvs with
  | p :: ((q :: _) as rest) => (cmp_Compare p.1 q.1 <? 0) && ascending_b rest
  | _ => true
  end.

Lemma ascending_cons p kvs :
  ascending kvs -> (forall q, head kvs = Some q -> cmp_Compare p.1 q.1 < 0) -> ascending (p :: kvs).
Proof.
  intros Ha Hh [|i] [|j] x y Hij Hx Hy; try lia; [|apply (Ha i j); [lia|done..]].
  injection Hx as <-. destruct kvs as [|q kvs]; [done|]. specialize (Hh q eq_refl).
  destruct j as [|j]; [by injection Hy as <-|].
  apply (cmp_lt_trans _ q.1); [done|]. by apply (Ha 0%nat (S j)); [lia|..].
Qed.

Lemma ascending_b_ok kvs : ascending_b kvs = true -> ascending kvs.
Proof.
  induction kvs as [|p kvs IH]; intros Hb; [by intros i j x y _ Hx|].
  destruct kvs as [|q kvs]; [intros [|i] [|j] x y Hij Hx Hy; try lia; done|].
  apply andb_prop in Hb as [H1 H2]. apply ascending_cons; [by apply IH|].
  intros q' [= <-]. by apply Z.ltb_lt.
Qed.

Lemma ascending_tail p kvs : ascending (p :: kvs) -> ascending kvs.
Proof. intros Ha i j x y Hij Hx Hy. apply (Ha (S i) (S j)); [lia|done..]. Qed.

Lemma ascending_head p kvs q : ascending (p :: kvs) -> q ∈ kvs -> cmp_Compare p.1 q.1 < 0.
Proof.
  intros Ha Hq. apply list_elem_of_lookup in Hq as [i Hq]. by apply (Ha 0%nat (S i)); [lia|..].
Qed.

(** Ascending lists of the same pairs are equal. *)
Lemma ascending_eq l1 l2 : ascending l1 -> ascending l2 -> (forall p, p ∈ l1 <-> p ∈ l2) -> l1 = l2.
Proof.
  revert l2. induction l1 as [|p l1 IH]; intros [|q l2] H1 H2 He.
  - done.
  - specialize (He q). by rewrite elem_of_nil, elem_of_cons in He; destruct He as [_ [] ]; left.
  - specialize (He p). by rewrite elem_of_nil, elem_of_cons in He; destruct He as [[] _]; left.
  - assert (p = q) as ->.
    { pose proof (proj1 (He p) ltac:(by left)) as Hp. pose proof (proj2 (He q) ltac:(by left)) as Hq.
      apply elem_of_cons in Hp as [|Hp]; [done|]. apply elem_of_cons in Hq as [|Hq]; [done|].
      pose proof (ascending_head _ _ _ H1 Hq). pose proof (ascending_head _ _ _ H2 Hp) as Hlt.
      apply cmp_sym_lt in Hlt. lia. }
    f_equal. apply IH; [by eapply ascending_tail..|]. intros x. split; intros Hx.
    + pose proof (proj1 (He x) ltac:(by right)) as Hx'. apply elem_of_cons in Hx' as [->|]; [|done].
      pose proof (ascending_head _ _ _ H1 Hx). rewrite cmp_refl in *. lia.
    + pose proof (proj2 (He x) ltac:(by right)) as Hx'. apply elem_of_cons in Hx' as [->|]; [|done].
      pose proof (ascending_head _ _ _ H2 Hx). rewrite cmp_refl in *. lia.
Qed.
End ascending.

(** ** Empty iterators *)

(** [EmptyIterator], which carries the error of [NewErrorIterator]; its [Next] and
    [Prev] assert false. *)
Record EmptyIterator := MkEmpty { ei_status : Status }.

Definition NewEmptyIterator : EmptyIterator := MkEmpty Status_OK.
Definition NewErrorIterator (status : Status) : EmptyIterator := MkEmpty status.

#[export] Instance EmptyIterator_Iterator : Iterator EmptyIterator := {|
  it_Valid _ := false;
  it_SeekToFirst e := Ok e;
  it_SeekToLast e := Ok e;
  it_Seek e _ := Ok e;
  it_Next _ := Undefined;
  it_Prev _ := Undefined;
  it_key _ := [];
  it_value _ := Undefined;
  it_status e := ei_status e
|}.

Lemma empty_iterates `{C : Comparator} : iterates_at NewEmptyIterator [] None.
Proof.
  exists (fun e c => e = NewEmptyIterator /\ c = None). split; [|done]. intros e c [-> ->].
  split; [done|]. split; [split; by intros []|]. split; [done|]. intros [| |t| |] c' Hs; try done;
    cbn in Hs; injection Hs as <-; by eexists.
Qed.

(** ** One of two kinds of iterators *)

Definition sum_move {A B} `{Iterator A} `{Iterator B} (op : iter_op) (i : A + B) : res (A + B) :=
  match i with
  | inl a => let? a := it_step a op in Ok (inl a)
  | inr b => let? b := it_step b op in Ok (inr b)
  end.

(** A local instance where it is used: as a global one the search would not end. *)
Definition Sum_Iterator {A B} `{Iterator A} `{Iterator B} : Iterator (A + B) := {|
  it_Valid i := match i with inl a => it_Valid a | inr b => it_Valid b end;
  it_SeekToFirst := sum_move OpSeekToFirst;
  it_SeekToLast := sum_move OpSeekToLast;
  it_Seek i target := sum_move (OpSeek target) i;
  it_Next := sum_move OpNext;
  it_Prev := sum_move OpPrev;
  it_key i := match i with inl a => it_key a | inr b => it_key b end;
  it_value i := match i with inl a => it_value a | inr b => it_value b end;
  it_status i := match i with inl a => it_status a | inr b => it_status b end
|}.

#[local] Existing Instance Sum_Iterator.

Lemma sum_step {A B} `{Iterator A} `{Iterator B} (i : A + B) op : it_step i op = sum_move op i.
Proof. by destruct op. Qed.

Lemma iterates_inl `{C : Comparator} {A B} `{Iterator A} `{Iterator B} (a : A) kvs c :
  iterates_at a kvs c -> iterates_at (inl a : A + B) kvs c.
Proof.
  intros (R & HR & Ha). exists (fun i c => exists a, i = inl a /\ R a c). split; [|by exists a].
  intros i c' (a' & -> & Ha'). destruct (HR a' c' Ha') as (H1 & H2 & H3 & H4). split_and!; [done..|].
  intros op c2 Hs. destruct (H4 op c2 Hs) as (a2 & E & Ha2). exists (inl a2). rewrite sum_step. cbn. rewrite E.
  split; [done|by exists a2].
Qed.

Lemma iterates_inr `{C : Comparator} {A B} `{Iterator A} `{Iterator B} (b : B) kvs c :
  iterates_at b kvs c -> iterates_at (inr b : A + B) kvs c.
Proof.
  intros (R & HR & Hb). exists (fun i c => exists b, i = inr b /\ R b c). split; [|by exists b].
  intros i c' (b' & -> & Hb'). destruct (HR b' c' Hb') as (H1 & H2 & H3 & H4). split_and!; [done..|].
  intros op c2 Hs. destruct (H4 op c2 Hs) as (b2 & E & Hb2). exists (inr b2). rewrite sum_step. cbn. rewrite E.
  split; [done|by exists b2].
Qed.
