(* ===== verification/MemIter.v ===== *)
(** * The iterator of a memtable

    [MemTableIterator] of [cpp/leveldb/db/memtable.cc] as an implementation of the
    iterator interface, and forward scans, which is how tables are built from memtables
    and from the inputs of compactions. *)
From stdpp Require Import sorting.
From S2P Require Import Prelude Coding Status Comparator DbFormat WriteBatch SkipList MemTable Cursor.

(** The memtable and the position in its skip list. *)
Record MemTableIter := MkMemIter { mi_table : MemTable; mi_node : option nat }.

Definition MemTable_NewIterator (m : MemTable) : MemTableIter := MkMemIter m None.

Definition mem_move (i : MemTableIter) (r : option (option nat)) : res MemTableIter :=
  match r with Some n => Ok (MkMemIter (mi_table i) n) | None => Undefined end.

#[export] Instance MemTable_Iterator `{C : Comparator} : Iterator MemTableIter := {|
  it_Valid i := MemTableIterator_Valid (mi_node i);
  it_SeekToFirst i := mem_move i (MemTableIterator_SeekToFirst (mi_table i));
  it_SeekToLast i := mem_move i (MemTableIterator_SeekToLast (mi_table i));
  it_Seek i k := mem_move i (MemTableIterator_Seek (mi_table i) k);
  it_Next i := mem_move i (MemTableIterator_Next (mi_table i) (mi_node i));
  it_Prev i := mem_move i (MemTableIterator_Prev (mi_table i) (mi_node i));
  it_key i := default [] (MemTableIterator_key (mi_table i) (mi_node i));
  it_value i := match MemTableIterator_value (mi_table i) (mi_node i) with Some v => Ok v | None => Undefined end;
  it_status _ := Status_OK
|}.

(** ** Forward scans *)

(** From here on the iterator shows these pairs, one [Next] after the other. *)
Fixpoint forward {I} `{Iterator I} (i : I) (kvs : list (bytes * bytes)) : Prop :=
  Status_ok (it_status i) = true /\
  match kvs with
  | [] => it_Valid i = false
  | (k, v) :: kvs => it_Valid i = true /\ it_key i = k /\ it_value i = Ok v /\ exists i', it_Next i = Ok i' /\ forward i' kvs
  end.

Definition scans {I} `{Iterator I} (i : I) (kvs : list (bytes * bytes)) : Prop :=
  exists i', it_SeekToFirst i = Ok i' /\ forward i' kvs.

Lemma iterates_forward `{C : Comparator} {I} `{Iterator I} kvs l : forall n (i : I),
  drop n kvs = l -> iterates_at i kvs (if (n <? length kvs)%nat then Some n else None) -> forward i l.
Proof.
  induction l as [|[k v] l IH]; intros n i Hd Hi; destruct (iterates_reads _ _ _ Hi) as (Hr & Hc & Hs); (split; [exact Hs|]).
  - rewrite (iterates_valid _ _ _ Hi). destruct (Nat.ltb_spec n (length kvs)); [|done].
    apply (f_equal length) in Hd. rewrite length_drop in Hd. cbn in Hd. lia.
  - assert (Hn : kvs !! n = Some (k, v)) by (rewrite <- (Nat.add_0_r n), <- lookup_drop, Hd; done).
    pose proof (lookup_lt_Some _ _ _ Hn) as Hlt. destruct (Nat.ltb_spec n (length kvs)); [|lia].
    rewrite (iterates_valid _ _ _ Hi). split; [done|].
    destruct (iterates_key _ _ _ k v Hi) as [Hk Hv]; [exact Hn|]. split; [done|]. split; [done|].
    destruct (iterates_step _ _ _ OpNext (if (S n <? length kvs)%nat then Some (S n) else None) Hi eq_refl) as (i' & E & Hi').
    exists i'. split; [exact E|]. apply (IH (S n)); [|done].
    rewrite <- Nat.add_1_r, <- drop_drop, Hd. done.
Qed.

Lemma iterates_scans `{C : Comparator} {I} `{Iterator I} (i : I) kvs c : iterates_at i kvs c -> scans i kvs.
Proof.
  intros Hi. destruct (iterates_step _ _ _ OpSeekToFirst (if (0 <? length kvs)%nat then Some O else None) Hi) as (i' & E & Hi').
  { cbn. by destruct kvs. }
  exists i'. split; [exact E|]. by apply (iterates_forward kvs kvs 0).
Qed.

(** ** Scanning a memtable *)

(** What iterators show of an entry. *)
Definition entry_pair (e : entry) : bytes * bytes := (e_ikey e, e_value e).

Section scan.
Context `{C : Comparator} `{!ComparatorLaws C}.
#[local] Existing Instances KeyComparator KeyComparatorLaws.

Lemma walk_forward (m : MemTable) fuel : forall node es,
  Forall entry_ok es -> walk fuel (table_ m) node = Some (map encode es) -> forward (MkMemIter m node) (map entry_pair es).
Proof.
  induction fuel as [|fuel IH]; intros node es Hok Hw; cbn [walk] in Hw.
  { destruct node; [done|]. injection Hw as Hw. destruct es; [|done]. done. }
  destruct node as [x|]; [|injection Hw as Hw; by destruct es].
  destruct (Iterator_key (table_ m) (Some x)) as [k|] eqn:Ek; [|done]. cbn [mbind option_bind] in Hw.
  destruct (Iterator_Next (table_ m) (Some x)) as [n|] eqn:En; [|done]. cbn [mbind option_bind] in Hw.
  destruct (walk fuel (table_ m) n) as [rest|] eqn:Er; [|done]. cbn [mbind option_bind] in Hw.
  destruct es as [|e es]; [done|]. injection Hw as -> ->. apply list.Forall_cons in Hok as [He Hok].
  destruct (encode_decode e [] He) as [E1 E2]. rewrite app_nil_r in E2.
  cbn [map forward entry_pair]. split; [done|]. split; [done|].
  unfold it_key, it_value, it_Next, MemTable_Iterator, MemTableIterator_key, MemTableIterator_value, MemTableIterator_Next.
  cbn [mi_table mi_node]. rewrite Ek, En. cbn [mbind option_bind default from_option id]. rewrite E1. cbn [fst snd]. rewrite E2.
  split; [done|]. split; [done|]. eexists. split; [reflexivity|]. by apply IH.
Qed.

(** A scan shows the entries added, in the order of their internal keys. *)
Lemma memtable_scans (m : MemTable) es :
  Forall entry_ok es -> holds (table_ m) (map encode es) -> scans (MemTable_NewIterator m) (map entry_pair es).
Proof.
  intros Hok Hh. pose proof (shows_search _ _ [] (holds_shows _ _ Hh)) as (_ & Hc & _). unfold contents in Hc.
  destruct (Iterator_SeekToFirst (table_ m)) as [n|] eqn:En; [|done]. cbn [mbind option_bind] in Hc.
  exists (MkMemIter m n). split.
  - unfold it_SeekToFirst, MemTable_Iterator, MemTableIterator_SeekToFirst, MemTable_NewIterator. cbn [mi_table]. by rewrite En.
  - by eapply walk_forward.
Qed.
End scan.
