(* ===== verification/Block.v ===== *)
(** * Blocks of a table

    Models [cpp/leveldb/table/block_builder.{h,cc}] and [cpp/leveldb/table/block.{h,cc}]:
    a block is built from key/value pairs with shared key prefixes and restart
    points, and read by an iterator that seeks by binary search over the restart
    points.  Pointers into the block are offsets into its bytes. *)
From stdpp Require Import sorting.
From S2P Require Import Prelude Coding Status Comparator Cursor.

(** ** Building *)

(** [options->block_restart_interval] and the builder's state. *)
Record BlockBuilder := MkBuilder {
  buffer_ : bytes;
  restarts_ : list Z;
  counter_ : Z;
  finished_ : bool;
  last_key_ : bytes
}.

Definition NewBlockBuilder : BlockBuilder := MkBuilder [] [0] 0 false [].

Definition BlockBuilder_Reset (b : BlockBuilder) : BlockBuilder := MkBuilder [] [0] 0 false [].

Definition BlockBuilder_empty (b : BlockBuilder) : bool := size (buffer_ b) =? 0.

Definition CurrentSizeEstimate (b : BlockBuilder) : Z :=
  size (buffer_ b) + Z.of_nat (length (restarts_ b)) * 4 + 4.

Definition BlockBuilder_Finish (b : BlockBuilder) : BlockBuilder * bytes :=
  let buffer := foldl PutFixed32 (buffer_ b) (restarts_ b) in
  let buffer := PutFixed32 buffer (u32 (Z.of_nat (length (restarts_ b)))) in
  (MkBuilder buffer (restarts_ b) (counter_ b) true (last_key_ b), buffer).

(** The [while] loop of [Add]: the length of the common prefix. *)
Fixpoint shared_prefix (last_key_piece key : bytes) : nat :=
  match last_key_piece, key with
  | x :: last_key_piece, y :: key =>
      if bool_decide (x = y) then S (shared_prefix last_key_piece key) else O
  | _, _ => O
  end.

Definition BlockBuilder_Add (block_restart_interval : Z) (b : BlockBuilder) (key value : bytes)
    : BlockBuilder :=
  let last_key_piece := last_key_ b in
  let '(shared, restarts, counter) :=
    if counter_ b <? block_restart_interval
    then (shared_prefix last_key_piece key, restarts_ b, counter_ b)
    else (O, restarts_ b ++ [u32 (size (buffer_ b))], 0) in
  let non_shared := size key - Z.of_nat shared in
  let buffer := PutVarint32 (buffer_ b) (u32 (Z.of_nat shared)) in
  let buffer := PutVarint32 buffer (u32 non_shared) in
  let buffer := PutVarint32 buffer (u32 (size value)) in
  let buffer := buffer ++ drop shared key in
  let buffer := buffer ++ value in
  MkBuilder buffer restarts (counter + 1) (finished_ b)
    (take shared (last_key_ b) ++ drop shared key).

(** ** Opening *)

Record Block := MkBlock { data_ : bytes; size_ : Z; restart_offset_ : Z }.

Definition NumRestarts (data : bytes) (size_ : Z) : Z :=
  DecodeFixed32 (drop (Z.to_nat (size_ - 4)) data).

(** [size_ = 0] marks an error, [restart_offset_] is then not set (0 here). *)
Definition NewBlock (contents : bytes) : Block :=
  let size_ := size contents in
  if size_ <? 4 then MkBlock contents 0 0
  else
    let max_restarts_allowed := (size_ - 4) / 4 in
    if NumRestarts contents size_ >? max_restarts_allowed then MkBlock contents 0 0
    else MkBlock contents size_ (u32 (size_ - u32 (1 + NumRestarts contents size_) * 4)).

(** ** Reading *)

(** [DecodeEntry(p, limit, &shared, &non_shared, &value_length)]: the offset of the
    key delta and the three lengths, [None] for [nullptr].  The sum of the last two
    is a [uint32_t]. *)
Definition DecodeEntry (data : bytes) (p limit : Z) : option (Z * Z * Z * Z) :=
  if limit - p <? 3 then None
  else
    let input := slice data p limit in
    let decoded :=
      if Z.lor (Z.lor (byte_at input 0) (byte_at input 1)) (byte_at input 2) <? 128
      then Some (byte_at input 0, byte_at input 1, byte_at input 2, drop 3 input)
      else
        '(shared, input) ← GetVarint32Ptr input;
        '(non_shared, input) ← GetVarint32Ptr input;
        '(value_length, input) ← GetVarint32Ptr input;
        Some (shared, non_shared, value_length, input) in
    '(shared, non_shared, value_length, input) ← decoded;
    if u32 (size input) <? u32 (non_shared + value_length) then None
    else Some (limit - size input, shared, non_shared, value_length).

(** [Block::Iter]; [value_] is the offset and the length of a slice of the block,
    [None] the slice [value_.clear()] leaves. *)
Record Iter := MkIter {
  current_ : Z;
  restart_index_ : Z;
  key_ : bytes;
  value_ : option (Z * Z);
  status_ : Status
}.

Section iter.
Context `{C : Comparator}.
(** [data_], [restarts_] and [num_restarts_]. *)
Context (data : bytes) (restarts num_restarts : Z).

Definition NewIter : Iter := MkIter restarts num_restarts [] None Status_OK.

Definition Iter_Valid (it : Iter) : bool := current_ it <? restarts.
Definition Iter_status (it : Iter) : Status := status_ it.
Definition Iter_key (it : Iter) : bytes := key_ it.

(** [value_] as the bytes it points to. *)
Definition Iter_value (it : Iter) : res bytes :=
  match value_ it with
  | Some (offset, len) =>
      if size data <? offset + len then Undefined else Ok (slice data offset (offset + len))
  | None => Ok []
  end.

(** The address of a cleared slice is not in the block. *)
Definition NextEntryOffset (it : Iter) : res Z :=
  match value_ it with
  | Some (offset, len) => Ok (u32 (offset + len))
  | None => Undefined
  end.

Definition GetRestartPoint (index : Z) : Z :=
  DecodeFixed32 (drop (Z.to_nat (restarts + index * 4)) data).

Definition SeekToRestartPoint (it : Iter) (index : Z) : Iter :=
  MkIter (current_ it) index [] (Some (GetRestartPoint index, 0)) (status_ it).

Definition CorruptionError (it : Iter) : Iter :=
  MkIter restarts num_restarts [] None (Status_Corruption (str "bad entry in block") []).

(** [while (restart_index_ + 1 < num_restarts_ && ...) ++restart_index_] *)
Fixpoint advance_restart (fuel : nat) (restart_index current : Z) : res Z :=
  if (restart_index + 1 <? num_restarts) && (GetRestartPoint (restart_index + 1) <? current)
  then match fuel with
       | O => OutOfFuel
       | S fuel => advance_restart fuel (restart_index + 1) current
       end
  else Ok restart_index.

Definition ParseNextKey (it : Iter) : res (Iter * bool) :=
  let? current := NextEntryOffset it in
  if current >=? restarts
  then Ok (MkIter restarts num_restarts (key_ it) (value_ it) (status_ it), false)
  else
    let corrupt := (CorruptionError it, false) in
    match DecodeEntry data current restarts with
    | None => Ok corrupt
    | Some (p, shared, non_shared, value_length) =>
        if size (key_ it) <? shared then Ok corrupt
        else if size data <? p + non_shared then Undefined
        else
          let key := take (Z.to_nat shared) (key_ it) ++ slice data p (p + non_shared) in
          let? restart_index :=
            advance_restart (Z.to_nat num_restarts) (restart_index_ it) current in
          Ok (MkIter current restart_index key (Some (p + non_shared, value_length)) (status_ it), true)
    end.

Definition Iter_Next (it : Iter) : res Iter :=
  let? '(it, _) := ParseNextKey it in Ok it.

(** The scan back over the restart points; [None] is the iterator before the first
    entry. *)
Fixpoint back_restart (fuel : nat) (restart_index original : Z) : res (option Z) :=
  if GetRestartPoint restart_index >=? original then
    if restart_index =? 0 then Ok None
    else match fuel with
         | O => OutOfFuel
         | S fuel => back_restart fuel (restart_index - 1) original
         end
  else Ok (Some restart_index).

(** [while (ParseNextKey() && NextEntryOffset() < bound)] *)
Fixpoint skip_to (fuel : nat) (bound : Z) (it : Iter) : res Iter :=
  let? '(it, more) := ParseNextKey it in
  if more then
    let? next := NextEntryOffset it in
    if next <? bound then
      match fuel with
      | O => OutOfFuel
      | S fuel => skip_to fuel bound it
      end
    else Ok it
  else Ok it.

(** Every entry takes at least three bytes. *)
Definition loop_fuel : nat := length data.

Definition Iter_Prev (it : Iter) : res Iter :=
  let original := current_ it in
  let? r := back_restart (Z.to_nat num_restarts) (restart_index_ it) original in
  match r with
  | None => Ok (MkIter restarts num_restarts (key_ it) (value_ it) (status_ it))
  | Some restart_index => skip_to loop_fuel original (SeekToRestartPoint it restart_index)
  end.

(** The binary search; [None] is a corrupt entry. *)
Fixpoint seek_restart (fuel : nat) (target : bytes) (left right : Z) : res (option Z) :=
  if left <? right then
    match fuel with
    | O => OutOfFuel
    | S fuel =>
        let mid := u32 (left + right + 1) / 2 in
        let region_offset := GetRestartPoint mid in
        match DecodeEntry data region_offset restarts with
        | None => Ok None
        | Some (key_ptr, shared, non_shared, _) =>
            if negb (shared =? 0) then Ok None
            else if size data <? key_ptr + non_shared then Undefined
            else
              let mid_key := slice data key_ptr (key_ptr + non_shared) in
              if cmp_Compare mid_key target <? 0
              then seek_restart fuel target mid right
              else seek_restart fuel target left (mid - 1)
        end
    end
  else Ok (Some left).

(** The linear search for the first key that is not less than the target. *)
Fixpoint seek_linear (fuel : nat) (target : bytes) (it : Iter) : res Iter :=
  let? '(it, more) := ParseNextKey it in
  if negb more then Ok it
  else if cmp_Compare (key_ it) target >=? 0 then Ok it
  else match fuel with
       | O => OutOfFuel
       | S fuel => seek_linear fuel target it
       end.

Definition Iter_Seek (it : Iter) (target : bytes) : res Iter :=
  let? found := seek_restart (Z.to_nat num_restarts) target 0 (num_restarts - 1) in
  match found with
  | None => Ok (CorruptionError it)
  | Some index => seek_linear loop_fuel target (SeekToRestartPoint it index)
  end.

Definition Iter_SeekToFirst (it : Iter) : res Iter :=
  let? '(it, _) := ParseNextKey (SeekToRestartPoint it 0) in Ok it.

Definition Iter_SeekToLast (it : Iter) : res Iter :=
  skip_to loop_fuel restarts (SeekToRestartPoint it (num_restarts - 1)).

End iter.

(** [Block::NewIterator] makes an empty iterator, with or without an error, or a
    [Block::Iter]. *)
Inductive BlockIterator :=
| BlockEmpty (e : EmptyIterator)
| BlockIter (data : bytes) (restarts num_restarts : Z) (it : Iter).

Definition Block_NewIterator (b : Block) : BlockIterator :=
  if size_ b <? 4 then BlockEmpty (NewErrorIterator (Status_Corruption (str "bad block contents") []))
  else
    let num_restarts := NumRestarts (data_ b) (size_ b) in
    if num_restarts =? 0 then BlockEmpty NewEmptyIterator
    else BlockIter (data_ b) (restart_offset_ b) num_restarts (NewIter (restart_offset_ b) num_restarts).

(** A step of whichever iterator it is. *)
Definition step_block (on_empty : EmptyIterator -> res EmptyIterator)
    (on_iter : bytes -> Z -> Z -> Iter -> res Iter) (i : BlockIterator) : res BlockIterator :=
  match i with
  | BlockEmpty e => let? e := on_empty e in Ok (BlockEmpty e)
  | BlockIter d r n it => let? it := on_iter d r n it in Ok (BlockIter d r n it)
  end.

#[export] Instance BlockIterator_Iterator `{C : Comparator} : Iterator BlockIterator := {|
  it_Valid i := match i with BlockEmpty _ => false | BlockIter _ r _ it => Iter_Valid r it end;
  it_SeekToFirst := step_block it_SeekToFirst Iter_SeekToFirst;
  it_SeekToLast := step_block it_SeekToLast Iter_SeekToLast;
  it_Seek i target := step_block (fun e => it_Seek e target) (fun d r n it => Iter_Seek d r n it target) i;
  it_Next := step_block it_Next Iter_Next;
  it_Prev := step_block it_Prev Iter_Prev;
  it_key i := match i with BlockEmpty e => it_key e | BlockIter _ _ _ it => Iter_key it end;
  it_value i := match i with BlockEmpty e => it_value e | BlockIter d _ _ it => Iter_value d it end;
  it_status i := match i with BlockEmpty e => it_status e | BlockIter _ _ _ it => Iter_status it end
|}.

(** ** The layout of a block *)

(** An entry with the number of key bytes it shares with its predecessor. *)
Record ent := Ent { e_sh : nat; e_k : bytes; e_v : bytes }.

Definition e_kv (e : ent) : bytes * bytes := (e_k e, e_v e).

Definition enc_lens (e : ent) : bytes :=
  EncodeVarint32 (Z.of_nat (e_sh e)) ++ EncodeVarint32 (size (e_k e) - Z.of_nat (e_sh e)) ++
  EncodeVarint32 (size (e_v e)).

Definition enc_ent (e : ent) : bytes := enc_lens e ++ drop (e_sh e) (e_k e) ++ e_v e.

Definition body (es : list ent) : bytes := concat (map enc_ent es).

(** The offset of entry [i]. *)
Definition off (es : list ent) (i : nat) : Z := size (body (take i es)).

(** The entries a block holds and the entries its restart points are at. *)
Record laid (es : list ent) (rs : list nat) : Prop := {
  l_first : rs !! 0%nat = Some 0%nat;
  l_sorted : forall i j a b, (i < j)%nat -> rs !! i = Some a -> rs !! j = Some b -> (a < b)%nat;
  l_in : forall i a, rs !! S i = Some a -> (a < length es)%nat;
  l_whole : forall a e, a ∈ rs -> es !! a = Some e -> e_sh e = 0%nat;
  l_shared : forall i e e', es !! i = Some e -> es !! S i = Some e' ->
    (e_sh e' <= length (e_k e'))%nat /\ (e_sh e' <= length (e_k e))%nat /\
    take (e_sh e') (e_k e) = take (e_sh e') (e_k e')
}.

Definition restart_array (es : list ent) (rs : list nat) : bytes :=
  concat (map EncodeFixed32 (map (off es) rs)) ++ EncodeFixed32 (Z.of_nat (length rs)).

Definition block_of (es : list ent) (rs : list nat) : bytes := body es ++ restart_array es rs.

(** *** Offsets *)

Lemma body_app es1 es2 : body (es1 ++ es2) = body es1 ++ body es2.
Proof. unfold body. by rewrite map_app, concat_app. Qed.

Lemma off_0 es : off es 0 = 0.
Proof. done. Qed.

Lemma off_S es i e : es !! i = Some e -> off es (S i) = off es i + size (enc_ent e).
Proof.
  intros He. unfold off. rewrite (take_S_r _ _ _ He), body_app, size_app. unfold body at 2. simpl.
  by rewrite app_nil_r.
Qed.

Lemma off_end es i : (length es <= i)%nat -> off es i = size (body es).
Proof. intros Hi. unfold off. by rewrite take_ge. Qed.

Lemma off_app es1 es2 i : (i <= length es1)%nat -> off (es1 ++ es2) i = off es1 i.
Proof. intros Hi. unfold off. by rewrite take_app_le. Qed.

Lemma size_EncodeVarint32_pos v : 1 <= size (EncodeVarint32 v).
Proof.
  unfold EncodeVarint32. repeat case_match; rewrite !size_cons; pose proof (size_nonneg []);
    rewrite ?size_nil; lia.
Qed.

Lemma size_enc_ent e : 3 <= size (enc_ent e).
Proof.
  unfold enc_ent, enc_lens. rewrite !size_app.
  pose proof (size_EncodeVarint32_pos (Z.of_nat (e_sh e))).
  pose proof (size_EncodeVarint32_pos (size (e_k e) - Z.of_nat (e_sh e))).
  pose proof (size_EncodeVarint32_pos (size (e_v e))).
  pose proof (size_nonneg (drop (e_sh e) (e_k e))). pose proof (size_nonneg (e_v e)). lia.
Qed.

Lemma off_mono es i j : (i <= j)%nat -> off es i <= off es j.
Proof.
  intros Hij. induction Hij as [|j Hij IH]; [lia|].
  destruct (es !! j) as [e|] eqn:E.
  - rewrite (off_S _ _ _ E). pose proof (size_enc_ent e). lia.
  - apply lookup_ge_None in E. rewrite (off_end es (S j)), <- (off_end es j) by lia. lia.
Qed.

Lemma off_lt es i j : (i < j)%nat -> (i < length es)%nat -> off es i + 3 <= off es j.
Proof.
  intros Hij Hi. destruct (lookup_lt_is_Some_2 es i Hi) as [e He].
  pose proof (off_mono es (S i) j ltac:(lia)). rewrite (off_S _ _ _ He) in *.
  pose proof (size_enc_ent e). lia.
Qed.

Lemma off_lt_iff es i j :
  (i <= length es)%nat -> (j <= length es)%nat -> (off es i <? off es j) = (i <? j)%nat.
Proof.
  intros Hi Hj. destruct (Nat.ltb_spec i j).
  - pose proof (off_lt es i j ltac:(done) ltac:(lia)). apply Z.ltb_lt. lia.
  - pose proof (off_mono es j i ltac:(done)). apply Z.ltb_ge. lia.
Qed.

Lemma off_le_size es i : off es i <= size (body es).
Proof.
  rewrite <- (off_end es (Nat.max i (length es))) by lia. apply off_mono. lia.
Qed.

Lemma off_nonneg es i : 0 <= off es i.
Proof. apply size_nonneg. Qed.

(** What lies at the offset of an entry. *)
Lemma body_at es i e rest :
  es !! i = Some e ->
  exists post, drop (Z.to_nat (off es i)) (body es ++ rest) = enc_ent e ++ post ++ rest /\
    body es = body (take i es) ++ enc_ent e ++ post.
Proof.
  intros He. exists (body (drop (S i) es)).
  assert (Hb : body es = body (take i es) ++ enc_ent e ++ body (drop (S i) es)).
  { rewrite <- (take_drop_middle es i e He) at 1. rewrite body_app. unfold body at 2. simpl. done. }
  split; [|done]. rewrite Hb. unfold off. rewrite <- app_assoc, drop_app_size. by rewrite <- app_assoc.
Qed.

(** *** Decoding entries *)

Lemma lor_small a b n : 0 <= a -> 0 <= b -> 0 <= n -> Z.lor a b < 2 ^ n -> a < 2 ^ n /\ b < 2 ^ n.
Proof.
  intros Ha Hb Hn Hl. assert (Hpos : 0 < 2 ^ n) by lia.
  pose proof (Z.log2_lor a b Ha Hb) as E.
  assert (Hnn : 0 <= Z.lor a b) by (apply Z.lor_nonneg; lia).
  destruct (Z.eq_dec (Z.lor a b) 0) as [H0|H0].
  { apply Z.lor_eq_0_iff in H0 as [-> ->]. lia. }
  apply Z.log2_lt_pow2 in Hl; [|lia].
  split; [destruct (Z.eq_dec a 0); [lia|]|destruct (Z.eq_dec b 0); [lia|]];
    apply Z.log2_lt_pow2; lia.
Qed.

Lemma EncodeVarint32_head v :
  fits 32 v -> (v < 128 /\ EncodeVarint32 v = [byte_of_Z v]) \/
    (128 <= v /\ exists c p, EncodeVarint32 v = c :: p /\ 128 <= Z_of_byte c).
Proof.
  intros Hv. rewrite EncodeVarint32_64 by done. destruct (Z.lt_ge_cases v 128) as [Hl|Hl].
  - left. split; [done|]. apply EncodeVarint64_last. unfold fits in Hv. lia.
  - right. split; [done|]. rewrite EncodeVarint64_more by (try done; by apply (fits_weaken 32)). do 2 eexists. split; [done|].
    rewrite byte_of_lor_128. pose proof (Z.mod_pos_bound v 128). lia.
Qed.

(** The one-byte fast path reads what the varint decoders read. *)
Lemma decode_lens (a b c : Z) (rest : bytes) :
  fits 32 a -> fits 32 b -> fits 32 c ->
  let input := EncodeVarint32 a ++ EncodeVarint32 b ++ EncodeVarint32 c ++ rest in
  (if Z.lor (Z.lor (byte_at input 0) (byte_at input 1)) (byte_at input 2) <? 128
   then Some (byte_at input 0, byte_at input 1, byte_at input 2, drop 3 input)
   else '(shared, input) ← GetVarint32Ptr input;
        '(non_shared, input) ← GetVarint32Ptr input;
        '(value_length, input) ← GetVarint32Ptr input;
        Some (shared, non_shared, value_length, input)) = Some (a, b, c, rest).
Proof.
  intros Ha Hb Hc input. destruct (Z.ltb_spec (Z.lor (Z.lor (byte_at input 0) (byte_at input 1)) (byte_at input 2)) 128) as [Hl|Hl].
  - pose proof (byte_at_range input 0). pose proof (byte_at_range input 1). pose proof (byte_at_range input 2).
    apply (lor_small _ _ 7) in Hl as [Hl B2]; [|apply Z.lor_nonneg; lia|lia|lia].
    apply (lor_small _ _ 7) in Hl as [B0 B1]; [|lia..]. unfold input, byte_at in *.
    destruct (EncodeVarint32_head a Ha) as [[La Ea]|(_ & x & p & Ea & Hx)]; rewrite Ea in *;
      cbn [app nth] in B0; [|lia].
    destruct (EncodeVarint32_head b Hb) as [[Lb Eb]|(_ & x & p & Eb & Hx)]; rewrite Eb in *;
      cbn [app nth] in B1; [|lia].
    destruct (EncodeVarint32_head c Hc) as [[Lc Ec]|(_ & x & p & Ec & Hx)]; rewrite Ec in *;
      cbn [app nth] in B2; [|lia].
    unfold fits in *. cbn [app nth drop]. by rewrite !byte_of_Z_small by lia.
  - unfold input. change GetVarint32Ptr with GetVarint32.
    rewrite GetVarint32_encode by done. cbn [mbind option_bind].
    rewrite GetVarint32_encode by done. cbn [mbind option_bind].
    by rewrite GetVarint32_encode by done.
Qed.

(** ** Reading a block back *)

Section reading.
Context (es : list ent) (rs : list nat).
Context (Hlaid : laid es rs) (Hsmall : size (block_of es rs) < 2 ^ 32).

Abbreviation data := (block_of es rs).
Abbreviation restarts := (size (body es)).
Abbreviation num := (Z.of_nat (length rs)).

Lemma size_restart_array : size (restart_array es rs) = 4 * num + 4.
Proof.
  unfold restart_array. rewrite size_app, size_EncodeFixed32. clear.
  induction rs as [|r l IH]; [done|]. cbn [map concat length]. rewrite size_app, size_EncodeFixed32. lia.
Qed.

Lemma size_data : size data = restarts + 4 * num + 4.
Proof. unfold block_of. rewrite size_app, size_restart_array. lia. Qed.

Lemma num_pos : 0 < num.
Proof. pose proof (lookup_lt_Some _ _ _ (l_first _ _ Hlaid)). lia. Qed.

Lemma ent_sizes i e :
  es !! i = Some e ->
  off es i + size (enc_lens e) + (size (e_k e) - Z.of_nat (e_sh e)) + size (e_v e) = off es (S i) /\
  (e_sh e <= length (e_k e))%nat.
Proof.
  intros He. assert (Hsh : (e_sh e <= length (e_k e))%nat).
  { destruct i as [|i].
    - rewrite (l_whole _ _ Hlaid 0%nat e); [lia| |done].
      apply list_elem_of_lookup_2 with 0%nat, (l_first _ _ Hlaid).
    - destruct (lookup_lt_is_Some_2 es i) as [e0 He0]; [apply lookup_lt_Some in He; lia|].
      apply (l_shared _ _ Hlaid i e0 e He0 He). }
  split; [|done]. rewrite (off_S _ _ _ He). unfold enc_ent. rewrite !size_app.
  rewrite size_drop_nat by done. lia.
Qed.

(** A key is no longer than the bytes up to its end: what it shares is there. *)
Lemma key_size i e :
  es !! i = Some e -> size (e_k e) <= off es (S i) /\ Z.of_nat (e_sh e) <= off es i.
Proof.
  revert e. induction i as [|i IH]; intros e He; destruct (ent_sizes _ e He) as [Hs Hsh];
    pose proof (size_nonneg (enc_lens e)); pose proof (size_nonneg (e_v e)).
  - assert (Hz : e_sh e = 0%nat).
    { apply (l_whole _ _ Hlaid 0%nat e); [|done].
      apply list_elem_of_lookup_2 with 0%nat, (l_first _ _ Hlaid). }
    rewrite Hz in *. rewrite off_0 in *. lia.
  - destruct (lookup_lt_is_Some_2 es i) as [e0 He0]; [apply lookup_lt_Some in He; lia|].
    destruct (l_shared _ _ Hlaid i e0 e He0 He) as (_ & Hle & _). destruct (IH e0 He0) as [IH1 _].
    unfold size in *. lia.
Qed.

Lemma ent_fits i e :
  es !! i = Some e ->
  fits 32 (Z.of_nat (e_sh e)) /\ fits 32 (size (e_k e) - Z.of_nat (e_sh e)) /\ fits 32 (size (e_v e)).
Proof.
  intros He. destruct (ent_sizes i e He) as [Hs Hsh]. destruct (key_size i e He) as [Hk Hks].
  pose proof (off_le_size es (S i)). pose proof (off_mono es i (S i) ltac:(lia)).
  pose proof (off_nonneg es i). pose proof (size_nonneg (enc_lens e)). pose proof size_data.
  pose proof num_pos. pose proof (size_nonneg (e_v e)).
  assert (Z.of_nat (e_sh e) <= size (e_k e)) by (unfold size; lia).
  unfold fits. lia.
Qed.

(** The entry at offset [off i] decodes to its lengths and the place of its key. *)
Lemma DecodeEntry_at i e :
  es !! i = Some e ->
  let p := off es i + size (enc_lens e) in
  let ns := size (e_k e) - Z.of_nat (e_sh e) in
  DecodeEntry data (off es i) restarts = Some (p, Z.of_nat (e_sh e), ns, size (e_v e)) /\
  slice data p (p + ns) = drop (e_sh e) (e_k e) /\
  slice data (p + ns) (p + ns + size (e_v e)) = e_v e /\
  p + ns + size (e_v e) = off es (S i).
Proof.
  intros He p ns. destruct (ent_sizes i e He) as [Hs Hsh]. destruct (ent_fits i e He) as (F1 & F2 & F3).
  destruct (body_at es i e (restart_array es rs) He) as (post & Hd & Hb).
  pose proof (off_le_size es (S i)) as Hle. pose proof (size_enc_ent e) as Hsz.
  pose proof (off_S _ _ _ He) as HS. pose proof (off_nonneg es i). pose proof size_data. pose proof num_pos.
  assert (Hns : size (drop (e_sh e) (e_k e)) = ns) by (by apply size_drop_nat).
  assert (Hdata : data = body (take i es) ++ enc_lens e ++ drop (e_sh e) (e_k e) ++ e_v e ++ post ++ restart_array es rs).
  { unfold block_of. rewrite Hb at 1. unfold enc_ent. by rewrite <- !app_assoc. }
  split; [|split; [|split; [|unfold p, ns; lia]]].
  - unfold DecodeEntry. zcase; [lia|].
    assert (Hin : slice data (off es i) restarts = enc_ent e ++ post).
    { unfold block_of. rewrite Hb at 1. rewrite <- app_assoc. apply slice_app; [done|].
      rewrite Hb, size_app. done. }
    rewrite Hin. unfold enc_ent, enc_lens. rewrite <- !app_assoc. rewrite decode_lens by done.
    cbn [mbind option_bind].
    assert (Hin2 : size (drop (e_sh e) (e_k e) ++ e_v e ++ post) = restarts - p).
    { rewrite Hb. unfold enc_ent. rewrite !size_app. unfold p. fold (off es i). lia. }
    rewrite Hin2. fold ns. pose proof (size_nonneg (enc_lens e)).
    rewrite !wrap_id by (unfold fits, p, ns in *; lia).
    destruct (Z.ltb_spec (restarts - p) (ns + size (e_v e))); [unfold p, ns in *; lia|].
    do 4 f_equal. lia.
  - rewrite Hdata. rewrite app_assoc. apply slice_app; rewrite size_app; unfold p; fold (off es i); lia.
  - rewrite Hdata. do 2 rewrite app_assoc. apply slice_app; rewrite !size_app; unfold p; fold (off es i); lia.
Qed.

Lemma GetRestartPoint_at j a :
  rs !! j = Some a -> GetRestartPoint data restarts (Z.of_nat j) = off es a.
Proof.
  intros Ha. unfold GetRestartPoint, block_of, restart_array.
  assert (Hd : drop (Z.to_nat (restarts + Z.of_nat j * 4)) (body es ++ concat (map EncodeFixed32 (map (off es) rs)) ++
    EncodeFixed32 num) = EncodeFixed32 (off es a) ++ concat (map EncodeFixed32 (map (off es) (drop (S j) rs))) ++ EncodeFixed32 num).
  { rewrite <- (take_drop_middle rs j a Ha) at 1. rewrite !map_app, concat_app. cbn [map concat].
    rewrite <- !app_assoc. rewrite app_assoc.
    replace (restarts + Z.of_nat j * 4) with (size (body es ++ concat (map EncodeFixed32 (map (off es) (take j rs))))).
    - by rewrite drop_app_size.
    - rewrite size_app. f_equal. pose proof (lookup_lt_Some _ _ _ Ha) as Hlt.
      rewrite <- (length_take_le rs j) at 2 by lia. generalize (take j rs). clear.
      intros l. induction l as [|x l IH]; [done|]. cbn [map concat length].
      rewrite size_app, size_EncodeFixed32. lia. }
  rewrite Hd. apply DecodeFixed32_header. unfold fits. pose proof (off_nonneg es a).
  pose proof (off_le_size es a). pose proof size_data. pose proof num_pos. lia.
Qed.

(** *** Steps of the iterator *)

Abbreviation parse := (ParseNextKey data restarts num).

(** The restart point [r] is at or before entry [i]; [i] is not past the next. *)
Definition before (r : Z) (i : nat) : Prop :=
  exists j a, r = Z.of_nat j /\ rs !! j = Some a /\ (a <= i)%nat.
Definition around (r : Z) (i : nat) : Prop :=
  exists j a, r = Z.of_nat j /\ rs !! j = Some a /\ (a <= i)%nat /\
    forall b, rs !! S j = Some b -> (i <= b)%nat.

(** The iterator stands at entry [i]. *)
Definition at_entry (i : nat) (it : Iter) : Prop :=
  exists e, es !! i = Some e /\ current_ it = off es i /\ around (restart_index_ it) i /\
    key_ it = e_k e /\ value_ it = Some (off es (S i) - size (e_v e), size (e_v e)) /\
    status_ it = Status_OK.

(** It stands nowhere. *)
Definition at_none (it : Iter) : Prop := current_ it = restarts /\ status_ it = Status_OK.

(** [ParseNextKey] will read entry [i], or end the iteration. *)
Definition ready (i : nat) (it : Iter) : Prop :=
  (exists o l, value_ it = Some (o, l) /\ o + l = off es i) /\ (i <= length es)%nat /\
  ((i < length es)%nat -> before (restart_index_ it) i) /\
  (forall e, es !! i = Some e -> (e_sh e <= length (key_ it))%nat /\
     take (e_sh e) (key_ it) = take (e_sh e) (e_k e)) /\
  status_ it = Status_OK.

Lemma restart_le j a : rs !! j = Some a -> (a <= length es)%nat.
Proof.
  intros Ha. destruct j as [|j]; [rewrite (l_first _ _ Hlaid) in Ha; injection Ha as <-; lia|].
  pose proof (l_in _ _ Hlaid j a Ha). lia.
Qed.

Lemma off_u32 i : u32 (off es i) = off es i.
Proof.
  apply wrap_id. unfold fits. pose proof (off_nonneg es i). pose proof (off_le_size es i).
  pose proof size_data. pose proof num_pos. lia.
Qed.

Lemma advance_around fuel r i :
  before r i -> (i < length es)%nat -> num <= Z.of_nat fuel + r + 1 ->
  exists r', advance_restart data restarts num fuel r (off es i) = Ok r' /\ around r' i.
Proof.
  revert r. induction fuel as [|fuel IH]; intros r (j & a & -> & Ha & Hai) Hi Hf.
  - cbn [advance_restart]. zcase; [lia|]. cbn [andb]. exists (Z.of_nat j). split; [done|].
    exists j, a. split_and!; [done..|]. intros b Hb. apply lookup_lt_Some in Hb. lia.
  - cbn [advance_restart]. destruct (rs !! S j) as [b|] eqn:Eb.
    + pose proof (lookup_lt_Some _ _ _ Eb) as Hlt. zcase; [|lia]. cbn [andb].
      replace (Z.of_nat j + 1) with (Z.of_nat (S j)) by lia.
      rewrite (GetRestartPoint_at _ _ Eb). pose proof (restart_le _ _ Eb).
      rewrite off_lt_iff by lia. destruct (Nat.ltb_spec b i).
      * apply IH; [|done|lia]. exists (S j), b. split_and!; [done..|lia].
      * exists (Z.of_nat j). split; [done|]. exists j, a. split_and!; [done..|].
        intros b' Hb'. simplify_eq. done.
    + pose proof (lookup_ge_None_1 _ _ Eb). zcase; [lia|]. cbn [andb]. exists (Z.of_nat j).
      split; [done|]. exists j, a. split_and!; [done..|]. intros b' Hb'. simplify_eq.
Qed.

Lemma parse_entry i it :
  ready i it -> (i < length es)%nat -> exists it', parse it = Ok (it', true) /\ at_entry i it'.
Proof.
  intros ((o & l & Hv & Ho) & _ & Hr & Hk & Hst) Hi. destruct (lookup_lt_is_Some_2 es i Hi) as [e He].
  destruct (Hk e He) as [Hk1 Hk2]. destruct (DecodeEntry_at i e He) as (Hd & Hs1 & _ & Hs2).
  destruct (advance_around (Z.to_nat num) (restart_index_ it) i (Hr Hi) Hi) as (r & Er & Har).
  { destruct (Hr Hi) as (j & a & -> & _). lia. }
  unfold ParseNextKey, NextEntryOffset. rewrite Hv, Ho, off_u32. cbn [res_bind].
  pose proof (off_lt es i (length es) ltac:(lia) Hi) as Hlt. rewrite (off_end es (length es)) in Hlt by lia.
  rewrite Z.geb_leb. zcase; [lia|]. rewrite Hd. unfold size at 1. zcase; [lia|].
  pose proof (off_le_size es (S i)). pose proof size_data. pose proof num_pos. pose proof (size_nonneg (e_v e)).
  zcase; [lia|]. rewrite Hs1, Er. cbn [res_bind]. eexists. split; [done|]. exists e.
  cbn [current_ restart_index_ key_ value_ status_]. split_and!; try done.
  - rewrite Nat2Z.id, Hk2. apply take_drop.
  - do 2 f_equal. lia.
Qed.

Lemma parse_end it : ready (length es) it -> exists it', parse it = Ok (it', false) /\ at_none it'.
Proof.
  intros ((o & l & Hv & Ho) & _ & _ & _ & Hst).
  unfold ParseNextKey, NextEntryOffset. rewrite Hv, Ho, off_u32, off_end by lia. cbn [res_bind].
  rewrite Z.geb_leb. zcase; [|lia]. eexists. by split.
Qed.

Lemma entry_ready i it : at_entry i it -> ready (S i) it.
Proof.
  intros (e & He & _ & (j & a & Hj & Ha & Hai & _) & Hk & Hv & Hst). split; [|split; [|split; [|split; [|done]]]].
  - do 2 eexists. split; [exact Hv|lia].
  - apply lookup_lt_Some in He. lia.
  - intros _. exists j, a. split_and!; [done..|lia].
  - intros e' He'. rewrite Hk. by apply (l_shared _ _ Hlaid i).
Qed.

Lemma seek_ready j a it :
  rs !! j = Some a -> status_ it = Status_OK ->
  ready a (SeekToRestartPoint data restarts it (Z.of_nat j)).
Proof.
  intros Ha Hst. unfold SeekToRestartPoint. rewrite (GetRestartPoint_at _ _ Ha).
  split; [|split; [|split; [|split; [|done]]]]; cbn [value_ restart_index_ key_].
  - do 2 eexists. split; [done|lia].
  - by apply (restart_le j).
  - intros _. exists j, a. split_and!; [done..|lia].
  - intros e He. rewrite (l_whole _ _ Hlaid a e); [done| |done]. by apply list_elem_of_lookup_2 with j.
Qed.

(** The next entry of the iterator at [i]. *)
Lemma next_offset i it : at_entry i it -> NextEntryOffset it = Ok (off es (S i)).
Proof.
  intros (e & He & _ & _ & _ & Hv & _). unfold NextEntryOffset. rewrite Hv.
  replace (_ + _) with (off es (S i)) by lia. by rewrite off_u32.
Qed.

Lemma skip_entries fuel i j it :
  ready i it -> (i <= j)%nat -> (j < length es)%nat -> (j <= fuel + i)%nat ->
  exists it', skip_to data restarts num fuel (off es (S j)) it = Ok it' /\ at_entry j it'.
Proof.
  revert i it. induction fuel as [|fuel IH]; intros i it Hr Hij Hj Hf; cbn [skip_to];
    destruct (parse_entry i it Hr ltac:(lia)) as (it' & -> & Ha); cbn [res_bind];
    rewrite (next_offset i it' Ha); cbn [res_bind]; rewrite off_lt_iff by lia;
    destruct (Nat.ltb_spec (S i) (S j)).
  - lia.
  - exists it'. split; [done|]. by replace j with i by lia.
  - apply (IH (S i)); [by apply entry_ready|lia..].
  - exists it'. split; [done|]. by replace j with i by lia.
Qed.

Lemma length_body_fuel : (length es <= loop_fuel data)%nat.
Proof.
  unfold loop_fuel. pose proof size_data. pose proof num_pos.
  assert (Z.of_nat (length es) <= restarts).
  { clear. induction es as [|e l IH]; [done|]. unfold body in *. cbn [map concat length].
    rewrite size_app. pose proof (size_enc_ent e). lia. }
  unfold size in *. lia.
Qed.

Lemma back_before fuel r i :
  before r i -> (0 < i <= length es)%nat -> r <= Z.of_nat fuel ->
  exists j a, back_restart data restarts fuel r (off es i) = Ok (Some (Z.of_nat j)) /\
    rs !! j = Some a /\ (a < i)%nat.
Proof.
  revert r. induction fuel as [|fuel IH]; intros r (j & a & -> & Ha & Hai) Hi Hf; cbn [back_restart];
    rewrite (GetRestartPoint_at _ _ Ha), Z.geb_leb, Z.leb_antisym; pose proof (restart_le _ _ Ha);
    rewrite off_lt_iff by lia; destruct (Nat.ltb_spec a i); cbn [negb]; try by exists j, a.
  - destruct j as [|j]; [rewrite (l_first _ _ Hlaid) in Ha; injection Ha as <-; lia|lia].
  - destruct j as [|j]; [rewrite (l_first _ _ Hlaid) in Ha; injection Ha as <-; lia|].
    zcase; [lia|]. replace (Z.of_nat (S j) - 1) with (Z.of_nat j) by lia. apply IH; [|done|lia].
    destruct (lookup_lt_is_Some_2 rs j) as [a' Ha']; [apply lookup_lt_Some in Ha; lia|].
    exists j, a'. split_and!; [done..|]. pose proof (l_sorted _ _ Hlaid j (S j) a' a ltac:(lia) Ha' Ha). lia.
Qed.

(** The iterator stands where the cursor is. *)
Definition stands (it : Iter) (c : cursor) : Prop :=
  match c with Some i => at_entry i it | None => at_none it end.

Definition cursor_at (i : nat) : cursor := if (i <? length es)%nat then Some i else None.

Lemma stands_status it c : stands it c -> status_ it = Status_OK.
Proof. destruct c; cbn; [by intros (e & _ & _ & _ & _ & _ & ?)|by intros []]. Qed.

Lemma parse_stands i it :
  ready i it -> exists it', parse it = Ok (it', (i <? length es)%nat) /\ stands it' (cursor_at i).
Proof.
  intros Hr. unfold cursor_at. destruct (Nat.ltb_spec i (length es)) as [Hi|Hi].
  - by apply parse_entry.
  - assert (i = length es) as -> by (destruct Hr as (_ & Hle & _); lia). by apply parse_end.
Qed.

Lemma Next_stands i it :
  at_entry i it -> exists it', Iter_Next data restarts num it = Ok it' /\ stands it' (cursor_at (S i)).
Proof.
  intros Ha. destruct (parse_stands (S i) it (entry_ready i it Ha)) as (it' & E & Hs).
  exists it'. split; [|done]. unfold Iter_Next. by rewrite E.
Qed.

Lemma SeekToFirst_stands it :
  status_ it = Status_OK ->
  exists it', Iter_SeekToFirst data restarts num it = Ok it' /\ stands it' (cursor_at 0).
Proof.
  intros Hst. destruct (parse_stands 0 _ (seek_ready 0 0 it (l_first _ _ Hlaid) Hst)) as (it' & E & Hs).
  exists it'. split; [|done]. unfold Iter_SeekToFirst.
  change (SeekToRestartPoint data restarts it 0) with (SeekToRestartPoint data restarts it (Z.of_nat 0)).
  by rewrite E.
Qed.

Lemma SeekToLast_stands it :
  status_ it = Status_OK ->
  exists it', Iter_SeekToLast data restarts num it = Ok it' /\
    stands it' (match es with [] => None | _ => Some (pred (length es)) end).
Proof.
  intros Hst. pose proof num_pos.
  destruct (lookup_lt_is_Some_2 rs (pred (length rs))) as [a Ha]; [lia|].
  pose proof (seek_ready _ _ it Ha Hst) as Hr. unfold Iter_SeekToLast.
  replace (num - 1) with (Z.of_nat (pred (length rs))) by lia.
  destruct (decide (length es = 0%nat)) as [H0|H0].
  - apply nil_length_inv in H0. pose proof (restart_le _ _ Ha) as Hle. rewrite H0 in Hle. simpl in Hle.
    assert (a = length es) by (rewrite H0; simpl; lia). subst a.
    destruct (parse_end _ Hr) as (it' & E & Hn). exists it'. split; [|by rewrite H0].
    destruct (loop_fuel data); cbn [skip_to]; by rewrite E.
  - assert (Ha' : (a < length es)%nat).
    { destruct (pred (length rs)) as [|j] eqn:Ej.
      - rewrite (l_first _ _ Hlaid) in Ha. injection Ha as <-. lia.
      - by apply (l_in _ _ Hlaid j). }
    pose proof length_body_fuel.
    destruct (skip_entries (loop_fuel data) a (pred (length es)) _ Hr) as (it' & E & Hs); [lia..|].
    rewrite (off_end es (S _)) in E by lia. exists it'. split; [exact E|]. by destruct es.
Qed.

Lemma Prev_stands i it :
  at_entry i it -> exists it', Iter_Prev data restarts num it = Ok it' /\
    stands it' (match i with O => None | S i => Some i end).
Proof.
  intros (e & He & Hc & (j & a & Hj & Ha & Hai & _) & _ & _ & Hst). pose proof (lookup_lt_Some _ _ _ He).
  pose proof (lookup_lt_Some _ _ _ Ha). unfold Iter_Prev. rewrite Hc, Hj. destruct i as [|i].
  - assert (j = 0%nat) as ->.
    { destruct j as [|j]; [done|].
      pose proof (l_sorted _ _ Hlaid 0 (S j) 0 a ltac:(lia) (l_first _ _ Hlaid) Ha). lia. }
    eexists. split.
    + destruct (Z.to_nat num); cbn [back_restart]; rewrite (GetRestartPoint_at 0 a) by done;
        rewrite off_0; pose proof (off_nonneg es a); rewrite Z.geb_leb; (zcase; [|lia]); done.
    + done.
  - destruct (back_before (Z.to_nat num) (Z.of_nat j) (S i)) as (j' & a' & -> & Ha' & Hlt);
      [by exists j, a|lia|lia|]. cbn [res_bind].
    pose proof length_body_fuel. pose proof (seek_ready j' a' it Ha' Hst) as Hr.
    destruct (skip_entries (loop_fuel data) a' i _ Hr) as (it' & E & Hs); [lia..|]. by exists it'.
Qed.

(** *** Seeking *)

Context `{C : Comparator} `{!ComparatorLaws C}.
Context (Hasc : ascending (map e_kv es)).

Lemma asc_keys i j e e' :
  (i < j)%nat -> es !! i = Some e -> es !! j = Some e' -> cmp_Compare (e_k e) (e_k e') < 0.
Proof.
  intros Hij He He'. apply (Hasc i j (e_kv e) (e_kv e') Hij); by rewrite list_lookup_fmap, ?He, ?He'.
Qed.

(** Keys up to one below the target are below the target. *)
Lemma below_all i e target :
  es !! i = Some e -> cmp_Compare (e_k e) target < 0 ->
  forall j e', (j <= i)%nat -> es !! j = Some e' -> cmp_Compare (e_k e') target < 0.
Proof.
  intros He Hlt j e' Hj He'. destruct (decide (j = i)) as [->|Hne]; [by simplify_eq|].
  apply (cmp_lt_trans _ (e_k e)); [|done]. by apply (asc_keys j i); [lia|..].
Qed.

Lemma seek_restart_below fuel target l r :
  0 <= l <= r -> r < num -> r - l <= Z.of_nat fuel ->
  (forall a e, rs !! Z.to_nat l = Some a -> es !! a = Some e -> 0 < l -> cmp_Compare (e_k e) target < 0) ->
  exists j, seek_restart data restarts fuel target l r = Ok (Some (Z.of_nat j)) /\ (j < length rs)%nat /\
    forall a e, rs !! j = Some a -> es !! a = Some e -> (0 < j)%nat -> cmp_Compare (e_k e) target < 0.
Proof.
  revert l r. induction fuel as [|fuel IH]; intros l r Hl Hr Hf Hinv; cbn [seek_restart].
  all: assert (Hdone : l = r -> exists j, Ok (Some l) = Ok (Some (Z.of_nat j)) /\ (j < length rs)%nat /\
    forall a e, rs !! j = Some a -> es !! a = Some e -> (0 < j)%nat -> cmp_Compare (e_k e) target < 0)
    by (intros ->; exists (Z.to_nat r); rewrite Z2Nat.id by lia; split_and!; [done|lia|];
        intros a e Ha He Hj; apply (Hinv a e Ha He); lia).
  { zcase; [lia|]. apply Hdone. lia. }
  destruct (Z.ltb_spec l r) as [Hlr|Hlr]; [|apply Hdone; lia].
  pose proof size_data. rewrite wrap_id by (unfold fits; pose proof (size_nonneg (body es)); lia).
  set (mid := (l + r + 1) / 2). assert (Hmid : l < mid <= r) by (unfold mid; zdiv).
  destruct (lookup_lt_is_Some_2 rs (Z.to_nat mid)) as [a Ha]; [lia|].
  assert (Hal : (a < length es)%nat).
  { destruct (Z.to_nat mid) as [|m] eqn:Em; [lia|]. by apply (l_in _ _ Hlaid m). }
  destruct (lookup_lt_is_Some_2 es a Hal) as [e He].
  pose proof (GetRestartPoint_at _ _ Ha) as Hg. rewrite Z2Nat.id in Hg by lia. rewrite Hg. clear Hg.
  destruct (DecodeEntry_at a e He) as (-> & Hsl & _ & Hend).
  assert (Hsh : e_sh e = 0%nat).
  { apply (l_whole _ _ Hlaid a e); [|done]. by apply list_elem_of_lookup_2 with (Z.to_nat mid). }
  rewrite Hsh in *. rewrite Hsl. change (negb (Z.of_nat 0 =? 0)) with false. cbv iota. rewrite drop_0.
  pose proof (off_le_size es (S a)). pose proof num_pos. pose proof (size_nonneg (e_v e)).
  destruct (Z.ltb_spec (size data) (off es a + size (enc_lens e) + (size (e_k e) - Z.of_nat 0))); [lia|].
  destruct (Z.ltb_spec (cmp_Compare (e_k e) target) 0).
  - apply IH; [lia..|]. intros a' e' Ha' He' _. by simplify_eq.
  - apply IH; [lia..|done].
Qed.

Lemma seek_linear_stands fuel target i it :
  ready i it -> (length es <= fuel + i)%nat ->
  (forall j e, (j < i)%nat -> es !! j = Some e -> cmp_Compare (e_k e) target < 0) ->
  exists it', seek_linear data restarts num fuel target it = Ok it' /\
    stands it' (find_ge target (map e_kv es)).
Proof.
  revert i it. induction fuel as [|fuel IH]; intros i it Hr Hf Hbelow; cbn [seek_linear];
    destruct (parse_stands i it Hr) as (it' & -> & Hs); cbn [res_bind]; unfold cursor_at in Hs;
    destruct (Nat.ltb_spec i (length es)) as [Hi|Hi]; cbn [negb]; try lia.
  1, 3: exists it'; split; [done|]; rewrite find_ge_none; [done|];
    intros j p Hp; rewrite list_lookup_fmap in Hp; destruct (es !! j) as [e|] eqn:Ej; [|done];
    injection Hp as <-; apply (Hbelow j); [apply lookup_lt_Some in Ej; lia|done].
  pose proof Hs as (e & He & _ & _ & Hk & _). rewrite Hk. rewrite Z.geb_leb.
  destruct (Z.leb_spec 0 (cmp_Compare (e_k e) target)) as [Hge|Hlt].
  - exists it'. split; [done|]. rewrite (find_ge_unique target _ i (e_kv e)); [done| |done|].
    + by rewrite list_lookup_fmap, He.
    + intros j p Hj Hp. rewrite list_lookup_fmap in Hp. destruct (es !! j) as [e'|] eqn:Ej; [|done].
      injection Hp as <-. by apply (Hbelow j).
  - apply (IH (S i)); [by apply entry_ready|lia|]. intros j e' Hj He'.
    by apply (below_all i e target He Hlt j e' ltac:(lia)).
Qed.

Lemma Seek_stands target it :
  status_ it = Status_OK ->
  exists it', Iter_Seek data restarts num it target = Ok it' /\ stands it' (find_ge target (map e_kv es)).
Proof.
  intros Hst. pose proof num_pos. unfold Iter_Seek.
  destruct (seek_restart_below (Z.to_nat num) target 0 (num - 1)) as (j & -> & Hj & Hb); [lia..|].
  cbn [res_bind]. destruct (lookup_lt_is_Some_2 rs j Hj) as [a Ha]. pose proof length_body_fuel.
  apply (seek_linear_stands _ _ a); [by apply seek_ready|lia|]. intros i e Hi He.
  destruct j as [|j]; [rewrite (l_first _ _ Hlaid) in Ha; injection Ha as <-; lia|].
  destruct (lookup_lt_is_Some_2 es a) as [e' He']; [by apply (l_in _ _ Hlaid j)|].
  apply (below_all a e' target He' (Hb a e' Ha He' ltac:(lia)) i e ltac:(lia) He).
Qed.
End reading.

(** ** What the builder writes *)

Definition last_key_of (es : list ent) : bytes := from_option e_k [] (list.last es).

(** The builder has been given the entries [es]. *)
Record built (interval : Z) (b : BlockBuilder) (es : list ent) (rs : list nat) : Prop := {
  b_buffer : buffer_ b = body es;
  b_restarts : restarts_ b = map (off es) rs;
  b_laid : laid es rs;
  b_last : last_key_ b = last_key_of es;
  b_counter : interval <= counter_ b -> es <> []
}.

Lemma shared_prefix_spec a b :
  (shared_prefix a b <= length a)%nat /\ (shared_prefix a b <= length b)%nat /\
  take (shared_prefix a b) a = take (shared_prefix a b) b.
Proof.
  revert b. induction a as [|x a IH]; intros [|y b]; simpl; try (split_and!; [lia..|done]).
  case_bool_decide as E; simpl; [|split_and!; [lia..|done]].
  destruct (IH b) as (H1 & H2 & H3). subst y. split_and!; [lia..|by f_equal].
Qed.

Lemma laid_snoc es rs e :
  laid es rs -> (e_sh e <= length (e_k e))%nat -> (e_sh e <= length (last_key_of es))%nat ->
  take (e_sh e) (last_key_of es) = take (e_sh e) (e_k e) -> laid (es ++ [e]) rs.
Proof.
  intros [H1 H2 H3 H4 H5] Hk Hl Ht. split; try done.
  - intros i a Ha. rewrite length_app. pose proof (H3 i a Ha). lia.
  - intros a e' Ha He'. apply lookup_app_Some in He' as [He'|[Hle He']]; [by apply (H4 a)|].
    apply list_lookup_singleton_Some in He' as [Hz <-].
    apply list_elem_of_lookup in Ha as [j Ha]. destruct j as [|j].
    + rewrite H1 in Ha. injection Ha as <-. assert (es = []) as -> by (apply nil_length_inv; lia).
      simpl in Hl. lia.
    + pose proof (H3 j a Ha). lia.
  - intros i e1 e2 He1 He2. apply lookup_app_Some in He2 as [He2|[Hle He2]].
    + rewrite lookup_app_l in He1 by (apply lookup_lt_Some in He2; lia). by apply (H5 i).
    + apply list_lookup_singleton_Some in He2 as [Hz <-]. rewrite lookup_app_l in He1 by lia.
      assert (Hlast : last_key_of es = e_k e1).
      { unfold last_key_of. rewrite last_lookup. replace (pred (length es)) with i by lia. by rewrite He1. }
      rewrite Hlast in *. done.
Qed.

Lemma laid_restart es rs e :
  laid (es ++ [e]) rs -> (forall a, a ∈ rs -> (a < length es)%nat) -> e_sh e = 0%nat ->
  laid (es ++ [e]) (rs ++ [length es]).
Proof.
  intros [H1 H2 H3 H4 H5] Hin Hsh. split; try done.
  - rewrite lookup_app_l; [done|]. by eapply lookup_lt_Some.
  - intros i j a c Hij Ha Hc. apply lookup_app_Some in Hc as [Hc|[Hj Hc]].
    + rewrite lookup_app_l in Ha by (apply lookup_lt_Some in Hc; lia). by apply (H2 i j).
    + apply list_lookup_singleton_Some in Hc as [Hz <-]. rewrite lookup_app_l in Ha by lia.
      apply Hin. by apply list_elem_of_lookup_2 with i.
  - intros i a Ha. apply lookup_app_Some in Ha as [Ha|[Hle Ha]]; [by apply (H3 i)|].
    apply list_lookup_singleton_Some in Ha as [_ <-]. rewrite length_app. simpl. lia.
  - intros a e' Ha He'. apply list_elem_of_In, in_app_iff in Ha as [Ha|[<-|[]]].
    + apply list_elem_of_In in Ha. by apply (H4 a).
    + rewrite list_lookup_middle in He' by done. by injection He' as <-.
Qed.

Lemma restarts_below es rs : laid es rs -> es <> [] -> forall a, a ∈ rs -> (a < length es)%nat.
Proof.
  intros Hl Hne a Ha. apply list_elem_of_lookup in Ha as [[|j] Ha]; [|by apply (l_in _ _ Hl j)].
  rewrite (l_first _ _ Hl) in Ha. injection Ha as <-. destruct es; [done|]. simpl. lia.
Qed.

Lemma map_off_app es e rs : laid es rs -> map (off (es ++ [e])) rs = map (off es) rs.
Proof.
  intros Hl. apply map_ext_in. intros a Ha. apply off_app. apply list_elem_of_In, list_elem_of_lookup in Ha as [j Ha].
  by apply (restart_le es rs Hl j).
Qed.

(** The entry [Add] appends. *)
Definition add_ent (interval : Z) (b : BlockBuilder) (key value : bytes) : ent :=
  Ent (if counter_ b <? interval then shared_prefix (last_key_ b) key else O) key value.

Lemma last_key_size es rs : laid es rs -> size (last_key_of es) <= size (body es).
Proof.
  intros Hl. unfold last_key_of. rewrite last_lookup.
  destruct (es !! pred (length es)) as [e|] eqn:He; cbn; [|apply size_nonneg].
  destruct (key_size es rs Hl _ _ He) as [Hk _]. pose proof (off_le_size es (S (pred (length es)))). lia.
Qed.

Lemma Add_buffer interval b es rs key value :
  built interval b es rs -> size (buffer_ (BlockBuilder_Add interval b key value)) < 2 ^ 32 ->
  buffer_ (BlockBuilder_Add interval b key value) = body (es ++ [add_ent interval b key value]).
Proof.
  intros Hb Hsz. set (e := add_ent interval b key value).
  assert (Hsh : (e_sh e <= length key)%nat /\ (e_sh e <= length (last_key_ b))%nat).
  { unfold e, add_ent. cbn. destruct (_ <? _); [|lia]. split; apply shared_prefix_spec. }
  assert (Hbuf : buffer_ (BlockBuilder_Add interval b key value) =
    buffer_ b ++ EncodeVarint32 (u32 (Z.of_nat (e_sh e))) ++ EncodeVarint32 (u32 (size key - Z.of_nat (e_sh e))) ++
    EncodeVarint32 (u32 (size value)) ++ drop (e_sh e) key ++ value).
  { unfold BlockBuilder_Add, e, add_ent. cbn [e_sh]. unfold PutVarint32.
    destruct (counter_ b <? interval); cbn [buffer_]; by rewrite <- !app_assoc. }
  rewrite Hbuf in Hsz |- *. rewrite !size_app in Hsz.
  pose proof (last_key_size es rs (b_laid _ _ _ _ Hb)) as Hlk. rewrite <- (b_last _ _ _ _ Hb), <- (b_buffer _ _ _ _ Hb) in Hlk.
  rewrite size_drop_nat in Hsz by lia. unfold size in Hlk at 1.
  pose proof (size_nonneg value). pose proof (size_nonneg (EncodeVarint32 (u32 (Z.of_nat (e_sh e))))).
  pose proof (size_nonneg (EncodeVarint32 (u32 (size key - Z.of_nat (e_sh e))))).
  pose proof (size_nonneg (EncodeVarint32 (u32 (size value)))). pose proof (size_nonneg (buffer_ b)).
  assert (Z.of_nat (e_sh e) <= size key) by (unfold size; lia).
  rewrite !wrap_id by (unfold fits; lia). rewrite (b_buffer _ _ _ _ Hb), body_app.
  unfold body at 3. cbn [map concat]. rewrite app_nil_r. unfold enc_ent, enc_lens. cbn [e_k e_v e].
  by rewrite <- !app_assoc.
Qed.

Lemma Add_built interval b es rs key value :
  1 <= interval -> built interval b es rs ->
  size (buffer_ (BlockBuilder_Add interval b key value)) < 2 ^ 32 ->
  exists rs', built interval (BlockBuilder_Add interval b key value) (es ++ [add_ent interval b key value]) rs'.
Proof.
  intros Hint Hb Hsz. pose proof (Add_buffer interval b es rs key value Hb Hsz) as Hbuf.
  set (e := add_ent interval b key value) in *. pose proof (b_laid _ _ _ _ Hb) as Hl.
  assert (Hlay : laid (es ++ [e]) rs).
  { unfold e, add_ent. apply laid_snoc; [done|..]; cbn [e_sh e_k]; rewrite <- ?(b_last _ _ _ _ Hb);
      destruct (_ <? _); try (apply shared_prefix_spec || lia); done. }
  assert (Hlast : last_key_of (es ++ [e]) = key) by (unfold last_key_of; by rewrite last_snoc).
  assert (Hkey : take (e_sh e) (last_key_ b) ++ drop (e_sh e) key = key).
  { unfold e, add_ent. cbn [e_sh]. destruct (_ <? _); [|done].
    destruct (shared_prefix_spec (last_key_ b) key) as (_ & _ & ->). apply take_drop. }
  destruct (Z.ltb_spec (counter_ b) interval) as [Hc|Hc].
  - exists rs. split; [done| |done| |].
    + unfold BlockBuilder_Add. zcase; [|lia]. cbn [restarts_]. by rewrite map_off_app, (b_restarts _ _ _ _ Hb).
    + rewrite Hlast. etransitivity; [|exact Hkey]. unfold BlockBuilder_Add, e, add_ent. cbn [e_sh].
      by zcase; [|lia].
    + intros _ Hn. by destruct es.
  - assert (Hsh : e_sh e = 0%nat) by (unfold e, add_ent; cbn; by zcase; [lia|]).
    exists (rs ++ [length es]). split; [done| | | |].
    + unfold BlockBuilder_Add. zcase; [lia|]. cbn [restarts_].
      rewrite map_app, map_off_app, (b_restarts _ _ _ _ Hb) by done. cbn [map].
      rewrite off_app, off_end, <- (b_buffer _ _ _ _ Hb) by lia. rewrite wrap_id; [done|].
      rewrite Hbuf, body_app, size_app in Hsz. rewrite (b_buffer _ _ _ _ Hb). unfold fits.
      pose proof (size_nonneg (body es)). pose proof (size_nonneg (body [e])). lia.
    + apply laid_restart; [done| |done]. apply restarts_below; [done|]. by apply (b_counter _ _ _ _ Hb).
    + rewrite Hlast. unfold BlockBuilder_Add. zcase; [lia|]. done.
    + intros _ Hn. by destruct es.
Qed.

(** The builder after a list of pairs. *)
Definition build (interval : Z) (kvs : list (bytes * bytes)) : BlockBuilder :=
  foldl (fun b kv => BlockBuilder_Add interval b kv.1 kv.2) NewBlockBuilder kvs.

Lemma Add_grows interval b key value :
  size (buffer_ b) <= size (buffer_ (BlockBuilder_Add interval b key value)).
Proof.
  unfold BlockBuilder_Add, PutVarint32. destruct (_ <? _); cbn [buffer_]; rewrite !size_app;
    repeat match goal with |- context [size ?x] => lazymatch goal with H : 0 <= size x |- _ => fail | _ => pose proof (size_nonneg x) end end; lia.
Qed.

Lemma build_built interval kvs :
  1 <= interval -> size (buffer_ (build interval kvs)) < 2 ^ 32 ->
  exists es rs, built interval (build interval kvs) es rs /\ map e_kv es = kvs.
Proof.
  intros Hint. induction kvs as [|[k v] kvs IH] using rev_ind; intros Hsz.
  - exists [], [0%nat]. split; [|done]. split; try done; [|cbn; lia]. split; try done.
    intros [|i] [|j] a b Hij Ha Hb; try lia; done.
  - unfold build in *. rewrite foldl_app in *. cbn [foldl fst snd] in *.
    pose proof (Add_grows interval (foldl (fun b kv => BlockBuilder_Add interval b kv.1 kv.2) NewBlockBuilder kvs) k v).
    destruct IH as (es & rs & Hb & Hkv); [lia|].
    destruct (Add_built interval _ es rs k v Hint Hb Hsz) as [rs' Hb'].
    do 2 eexists. split; [exact Hb'|]. by rewrite map_app, Hkv.
Qed.

Lemma Finish_contents interval b es rs :
  built interval b es rs -> Z.of_nat (length rs) < 2 ^ 32 ->
  (BlockBuilder_Finish b).2 = block_of es rs.
Proof.
  intros Hb Hn. unfold BlockBuilder_Finish, block_of, restart_array. cbn [snd].
  rewrite (b_restarts _ _ _ _ Hb), length_map, (b_buffer _ _ _ _ Hb), wrap_id by (unfold fits; lia).
  unfold PutFixed32 at 1. rewrite app_assoc. f_equal. generalize (body es). generalize (map (off es) rs). clear.
  intros l. induction l as [|x l IH]; intros buf; cbn [foldl map concat]; [by rewrite app_nil_r|].
  rewrite IH. unfold PutFixed32. by rewrite app_assoc.
Qed.

Lemma size_Finish b :
  size (BlockBuilder_Finish b).2 = CurrentSizeEstimate b.
Proof.
  unfold BlockBuilder_Finish, CurrentSizeEstimate. cbn [snd]. rewrite size_PutFixed32. f_equal.
  generalize (buffer_ b). generalize (restarts_ b). clear.
  intros l. induction l as [|x l IH]; intros buf; cbn [foldl length]; [lia|].
  rewrite IH, size_PutFixed32. lia.
Qed.

(** The block opens with its restart array where the builder put it. *)
Lemma open_block es rs :
  laid es rs -> size (block_of es rs) < 2 ^ 32 ->
  Block_NewIterator (NewBlock (block_of es rs)) =
    BlockIter (block_of es rs) (size (body es)) (Z.of_nat (length rs))
      (NewIter (size (body es)) (Z.of_nat (length rs))).
Proof.
  intros Hl Hsz. pose proof (size_data es rs) as Hd. pose proof (num_pos es rs Hl).
  pose proof (size_nonneg (body es)).
  assert (Hn : NumRestarts (block_of es rs) (size (block_of es rs)) = Z.of_nat (length rs)).
  { unfold NumRestarts. replace (size (block_of es rs) - 4)
      with (size (body es ++ concat (map EncodeFixed32 (map (off es) rs)))).
    - unfold block_of, restart_array. rewrite app_assoc, drop_app_size.
      rewrite <- (app_nil_r (EncodeFixed32 _)). apply DecodeFixed32_header. unfold fits. lia.
    - unfold block_of, restart_array. rewrite !size_app, size_EncodeFixed32. lia. }
  assert (Hb : NewBlock (block_of es rs) = MkBlock (block_of es rs) (size (block_of es rs)) (size (body es))).
  { unfold NewBlock. rewrite Hn. zcase; [lia|]. rewrite Z.gtb_ltb. zcase; [exfalso; zdiv|].
    f_equal. rewrite (wrap_id 32 (1 + _)) by (unfold fits; lia). rewrite wrap_id; unfold fits; lia. }
  rewrite Hb. unfold Block_NewIterator. cbn [size_ data_ restart_offset_]. rewrite Hn.
  zcase; [lia|]. by zcase; [lia|].
Qed.

(** The iterator of a laid-out block follows the cursor. *)
Lemma block_simulates `{C : Comparator} `{!ComparatorLaws C} es rs :
  laid es rs -> size (block_of es rs) < 2 ^ 32 -> ascending (map e_kv es) ->
  simulates (fun i c => exists it, i = BlockIter (block_of es rs) (size (body es)) (Z.of_nat (length rs)) it /\
    stands es rs it c) (map e_kv es).
Proof.
  intros Hl Hsz Hasc i c (it & -> & Hs). pose proof (stands_status es rs it c Hs) as Hst. split; [|split; [|split]].
  - unfold it_reads. cbn [it_Valid BlockIterator_Iterator it_value it_key]. unfold Iter_Valid.
    destruct c as [i|]; cbn [stands at_cursor mbind option_bind] in *.
    + destruct Hs as (e & He & Hc & _ & Hk & Hv & _). pose proof (lookup_lt_Some _ _ _ He) as Hlt.
      pose proof (off_lt es i (length es) ltac:(lia) Hlt) as Ho. rewrite (off_end es (length es)) in Ho by lia.
      rewrite Hc. zcase; [|lia]. destruct (DecodeEntry_at es rs Hl Hsz i e He) as (_ & _ & Hv2 & Hend).
      unfold Iter_value, Iter_key. rewrite Hv, Hk. pose proof (off_le_size es (S i)). pose proof (size_data es rs).
      pose proof (num_pos es rs Hl). zcase; [lia|]. cbn [res_bind].
      replace (off es (S i) - size (e_v e)) with (off es i + size (enc_lens e) + (size (e_k e) - Z.of_nat (e_sh e))) by lia.
      rewrite Hv2, list_lookup_fmap, He. done.
    + destruct Hs as [Hc _]. rewrite Hc. by zcase; [lia|].
  - destruct c as [i|]; cbn; [|split; by intros []]. destruct Hs as (e & He & _).
    rewrite list_lookup_fmap, He. split; by eexists.
  - cbn. unfold Iter_status. by rewrite Hst.
  - intros op c' Hop. destruct op as [| |target| |]; cbn [cursor_step it_step] in *.
    + injection Hop as <-. destruct (SeekToFirst_stands es rs Hl Hsz it Hst) as (it' & E & Hs').
      eexists. cbn [it_SeekToFirst BlockIterator_Iterator step_block]. rewrite E. split; [done|].
      eexists. split; [done|]. by destruct es.
    + injection Hop as <-. destruct (SeekToLast_stands es rs Hl Hsz it Hst) as (it' & E & Hs').
      eexists. cbn [it_SeekToLast BlockIterator_Iterator step_block]. rewrite E. split; [done|].
      eexists. split; [done|]. rewrite length_map. by destruct es.
    + injection Hop as <-. destruct (Seek_stands es rs Hl Hsz Hasc target it Hst) as (it' & E & Hs').
      eexists. cbn [it_Seek BlockIterator_Iterator step_block]. rewrite E. split; [done|]. by eexists.
    + destruct c as [i|]; [|done]. cbn in Hop. injection Hop as <-.
      destruct (Next_stands es rs Hl Hsz i it Hs) as (it' & E & Hs').
      eexists. cbn [it_Next BlockIterator_Iterator step_block]. rewrite E. split; [done|].
      eexists. split; [done|]. by rewrite length_map.
    + destruct c as [i|]; [|done]. cbn in Hop. injection Hop as <-.
      destruct (Prev_stands es rs Hl Hsz i it Hs) as (it' & E & Hs').
      eexists. cbn [it_Prev BlockIterator_Iterator step_block]. rewrite E. split; [done|]. by eexists.
Qed.

(** What is built can be opened and iterated over. *)
Lemma built_iterates `{C : Comparator} `{!ComparatorLaws C} interval kvs :
  1 <= interval -> ascending kvs -> size (BlockBuilder_Finish (build interval kvs)).2 < 2 ^ 32 ->
  iterates_at (Block_NewIterator (NewBlock (BlockBuilder_Finish (build interval kvs)).2)) kvs None.
Proof.
  intros Hint Hasc Hsz. rewrite size_Finish in Hsz. unfold CurrentSizeEstimate in Hsz.
  pose proof (size_nonneg (buffer_ (build interval kvs))).
  destruct (build_built interval kvs Hint ltac:(lia)) as (es & rs & Hb & Hkv).
  pose proof (b_laid _ _ _ _ Hb) as Hl.
  assert (Hn : length (restarts_ (build interval kvs)) = length rs) by (by rewrite (b_restarts _ _ _ _ Hb), length_map).
  rewrite (Finish_contents interval _ es rs Hb) by lia.
  assert (Hsz' : size (block_of es rs) < 2 ^ 32) by (rewrite size_data, <- (b_buffer _ _ _ _ Hb); lia).
  rewrite open_block by done. rewrite <- Hkv in Hasc |- *. eexists. split; [by apply block_simulates|].
  eexists. split; [done|]. by split.
Qed.

(** C26. Blocks round-trip through their iterator.  Pairs with ascending keys, added
    to a builder with any restart interval and finished into less than 4 GB, open as
    a block whose iterator is a cursor in that list: any sequence of [SeekToFirst],
    [SeekToLast], [Seek], and [Next] and [Prev] at valid positions ends, stays in
    the block, reports no corruption, and shows at every step the key and the value
    the cursor is at, [Seek] finding the first key not below its target. *)
Theorem block_roundtrip `{C : Comparator} `{!ComparatorLaws C} interval kvs ops cs :
  1 <= interval -> ascending kvs -> size (BlockBuilder_Finish (build interval kvs)).2 < 2 ^ 32 ->
  cursor_run kvs None ops = Some cs ->
  it_run (Block_NewIterator (NewBlock (BlockBuilder_Finish (build interval kvs)).2)) ops =
    Ok (map (at_cursor kvs) cs).
Proof. intros Hint Hasc Hsz Hr. eapply iterates_run; [by apply built_iterates|done]. Qed.

Lemma block_roundtrip_witness :
  let kvs := [(str "aa", str "1"); (str "aab", str "2"); (str "ab", str "3"); (str "b", str "4"); (str "bcd", [])] in
  it_run (Block_NewIterator (NewBlock (BlockBuilder_Finish (build 2 kvs)).2))
    [OpSeek (str "ab"); OpPrev; OpPrev; OpPrev; OpSeekToLast; OpNext; OpSeekToFirst] =
  Ok [Some (str "ab", str "3"); Some (str "aab", str "2"); Some (str "aa", str "1"); None;
      Some (str "bcd", []); None; Some (str "aa", str "1")].
Proof.
  intros kvs. rewrite (block_roundtrip (C := BytewiseComparator) 2 kvs _
    [Some 2%nat; Some 1%nat; Some 0%nat; None; Some 4%nat; None; Some 0%nat]); [done|lia| |vm_compute; done|vm_compute; done].
  by apply ascending_b_ok.
Defined.

(** ** Blocks that are not well formed *)

Lemma size_slice_le data from to : 0 <= from -> from <= to -> size (slice data from to) <= to - from.
Proof. intros. unfold slice, size. rewrite length_take. lia. Qed.


Lemma wrap_le w z : 0 <= z -> 0 <= w -> wrap w z <= z.
Proof. intros Hz Hw. unfold wrap. apply Z.mod_le; lia. Qed.

(** Whatever the bytes are, an entry that decodes starts its key at least three
    bytes on, and its lengths, added in 32 bits, end before [limit]. *)
Lemma DecodeEntry_bounds data p limit q shared ns vl :
  0 <= p -> limit < 2 ^ 32 -> DecodeEntry data p limit = Some (q, shared, ns, vl) ->
  p + 3 <= q /\ 0 <= shared /\ 0 <= ns /\ 0 <= vl /\ q + u32 (ns + vl) <= limit.
Proof.
  intros Hp Hlim. unfold DecodeEntry. zcase; [done|]. set (input := slice data p limit).
  assert (Hin : size input <= limit - p) by (apply size_slice_le; lia).
  match goal with |- context [mbind _ ?d] => set (decoded := d) end.
  assert (Hd : forall a b c rest, decoded = Some (a, b, c, rest) ->
    0 <= a /\ 0 <= b /\ 0 <= c /\ (size rest <= limit - p - 3)).
  { intros a b c rest. unfold decoded. zcase.
    - intros [= <- <- <- <-]. pose proof (byte_at_range input 0). pose proof (byte_at_range input 1).
      pose proof (byte_at_range input 2). unfold size in *. rewrite length_drop. lia.
    - change GetVarint32Ptr with GetVarint32.
      destruct (GetVarint32 input) as [[a' i1]|] eqn:E1; [|done]. cbn [mbind option_bind].
      destruct (GetVarint32 i1) as [[b' i2]|] eqn:E2; [|done]. cbn [mbind option_bind].
      destruct (GetVarint32 i2) as [[c' i3]|] eqn:E3; [|done]. cbn [mbind option_bind].
      intros [= <- <- <- <-]. apply GetVarint32_sound in E1 as (F1 & u1 & Ei1 & L1).
      apply GetVarint32_sound in E2 as (F2 & u2 & -> & L2). apply GetVarint32_sound in E3 as (F3 & u3 & -> & L3).
      rewrite Ei1, !size_app in Hin. unfold fits in *. lia. }
  destruct decoded as [[[[a b] c] rest]|]; [|done]. cbn [mbind option_bind].
  destruct (Hd _ _ _ _ eq_refl) as (Ha & Hb & Hc & Hr). pose proof (size_nonneg rest).
  destruct (Z.ltb_spec (u32 (size rest)) (u32 (b + c))) as [|Hle]; [done|]. intros [= <- <- <- <-].
  rewrite (wrap_id 32 (size rest)) in Hle by (unfold fits; lia). lia.
Qed.

Section any_block.
Context `{C : Comparator}.
Context (data : bytes) (restarts num : Z).
Context (Hrestarts : 0 <= restarts <= size data) (Hnum : 0 <= num) (Hsize : size data < 2 ^ 32).

Definition index_ok (it : Iter) : Prop := 0 <= restart_index_ it <= num.

(** Not cut short, and the index in range after it. *)
Definition total (r : res Iter) : Prop :=
  match r with Ok it => index_ok it | Undefined => True | OutOfFuel => False end.

Lemma advance_total fuel r current :
  0 <= r <= num -> num <= Z.of_nat fuel + r ->
  exists r', advance_restart data restarts num fuel r current = Ok r' /\ 0 <= r' <= num.
Proof.
  revert r. induction fuel as [|fuel IH]; intros r Hr Hf; cbn [advance_restart].
  - zcase; [lia|]. cbn [andb]. eauto.
  - destruct (Z.ltb_spec (r + 1) num); cbn [andb]; [|eauto]. destruct (_ <? _); [|eauto].
    apply IH; lia.
Qed.

Lemma parse_total it :
  index_ok it ->
  match ParseNextKey data restarts num it with
  | Ok (it', more) => index_ok it' /\
      (more = true -> exists n n', NextEntryOffset it = Ok n /\ NextEntryOffset it' = Ok n' /\
         0 <= n /\ n + 3 <= n' <= restarts)
  | Undefined => True
  | OutOfFuel => False
  end.
Proof.
  intros Hi. unfold ParseNextKey. destruct (NextEntryOffset it) as [n| |] eqn:En; cbn [res_bind]; [|done|].
  2: { unfold NextEntryOffset in En. by destruct (value_ it) as [[]|]. }
  assert (Hn : 0 <= n).
  { unfold NextEntryOffset in En. destruct (value_ it) as [[o l]|]; [|done]. injection En as <-.
    apply (wrap_range 32). lia. }
  rewrite Z.geb_leb. zcase; [split; [unfold index_ok; cbn; lia|done]|].
  destruct (DecodeEntry data n restarts) as [[[[q sh] ns] vl]|] eqn:Ed;
    [|split; [unfold index_ok; cbn; lia|done]].
  apply DecodeEntry_bounds in Ed as (B1 & B2 & B3 & B4 & B5); [|lia..].
  destruct (_ <? sh); [split; [unfold index_ok; cbn; lia|done]|]. zcase; [done|].
  destruct (advance_total (Z.to_nat num) (restart_index_ it) n Hi) as (r' & -> & Hr'); [unfold index_ok in Hi; lia|].
  cbn [res_bind]. split; [done|]. intros _. unfold NextEntryOffset at 1. cbn [value_].
  exists n. eexists. split; [done|]. split; [done|]. split; [done|].
  assert (Hw : u32 (q + ns + vl) = q + u32 (ns + vl)).
  { pose proof (wrap_range 32 (ns + vl) ltac:(lia)). rewrite <- (wrap_id 32 (q + u32 (ns + vl))) by (unfold fits; lia).
    unfold wrap. rewrite Zplus_mod_idemp_r. f_equal. lia. }
  rewrite Hw. pose proof (wrap_range 32 (ns + vl) ltac:(lia)). lia.
Qed.

Lemma skip_total fuel bound it n :
  index_ok it -> NextEntryOffset it = Ok n -> 0 <= n -> restarts - n <= Z.of_nat fuel ->
  total (skip_to data restarts num fuel bound it).
Proof.
  revert it n. induction fuel as [|fuel IH]; intros it n Hi Hn Hn0 Hf; cbn [skip_to];
    pose proof (parse_total it Hi) as Hp;
    destruct (ParseNextKey data restarts num it) as [[it' more]| |]; cbn [res_bind]; try done;
    destruct Hp as [Hi' Hm]; destruct more; try done;
    destruct (Hm eq_refl) as (m & n' & E1 & E2 & Hm0 & Hle);
    rewrite Hn in E1; injection E1 as <-; rewrite E2; cbn [res_bind];
    destruct (_ <? bound); try done; [lia|]. apply (IH it' n'); [done..|lia|lia].
Qed.

Lemma linear_total fuel target it n :
  index_ok it -> NextEntryOffset it = Ok n -> 0 <= n -> restarts - n <= Z.of_nat fuel ->
  total (seek_linear data restarts num fuel target it).
Proof.
  revert it n. induction fuel as [|fuel IH]; intros it n Hi Hn Hn0 Hf; cbn [seek_linear];
    pose proof (parse_total it Hi) as Hp;
    destruct (ParseNextKey data restarts num it) as [[it' more]| |]; cbn [res_bind]; try done;
    destruct Hp as [Hi' Hm]; destruct more; cbn [negb]; try done;
    destruct (Hm eq_refl) as (m & n' & E1 & E2 & Hm0 & Hle);
    rewrite Hn in E1; injection E1 as <-;
    destruct (_ >=? 0); try done; [lia|]. apply (IH it' n'); [done..|lia|lia].
Qed.

Lemma back_total fuel r original :
  0 <= r <= num -> r <= Z.of_nat fuel ->
  exists x, back_restart data restarts fuel r original = Ok x /\ forall r', x = Some r' -> 0 <= r' <= num.
Proof.
  revert r. induction fuel as [|fuel IH]; intros r Hr Hf; cbn [back_restart]; destruct (_ >=? original);
    try (eexists; split; [done|]; intros r' [= <-]; lia);
    destruct (Z.eqb_spec r 0); try (eexists; split; [done|]; done); [lia|]. apply IH; lia.
Qed.

Lemma seek_restart_total fuel target l r :
  0 <= l -> r < 2 ^ 31 -> r - l <= Z.of_nat fuel -> r < num ->
  match seek_restart data restarts fuel target l r with
  | Ok (Some j) => 0 <= j /\ (l <= r -> j < num)
  | OutOfFuel => False
  | _ => True
  end.
Proof.
  revert l r. induction fuel as [|fuel IH]; intros l r Hl Hr Hf Hn; cbn [seek_restart].
  { zcase; lia. }
  destruct (Z.ltb_spec l r) as [Hlr|]; [|lia]. rewrite wrap_id by (unfold fits; lia).
  assert (Hmid : l < (l + r + 1) / 2 <= r) by zdiv. generalize dependent ((l + r + 1) / 2).
  intros mid Hmid. destruct (DecodeEntry _ _ _) as [[[[q sh] ns] vl]|]; [|done]. destruct (negb _); [done|].
  destruct (_ <? q + ns); [done|]. destruct (_ <? 0).
  - specialize (IH mid r ltac:(lia) Hr ltac:(lia) Hn).
    destruct (seek_restart _ _ _ _ _ _) as [[j|]| |]; try done. split; [lia|]. intros _. lia.
  - specialize (IH l (mid - 1) Hl ltac:(lia) ltac:(lia) ltac:(lia)).
    destruct (seek_restart _ _ _ _ _ _) as [[j|]| |]; try done. split; [lia|]. intros _. lia.
Qed.

Lemma seek_to_total it j :
  0 <= j <= num -> exists n, NextEntryOffset (SeekToRestartPoint data restarts it j) = Ok n /\
    0 <= n /\ index_ok (SeekToRestartPoint data restarts it j).
Proof.
  intros Hj. eexists. split; [reflexivity|]. split; [apply (wrap_range 32); lia|done].
Qed.

Lemma loop_fuel_enough n : 0 <= n -> restarts - n <= Z.of_nat (loop_fuel data).
Proof. intros Hn. unfold loop_fuel. unfold size in Hrestarts. lia. Qed.

Lemma next_total it : index_ok it -> total (Iter_Next data restarts num it).
Proof.
  intros Hi. pose proof (parse_total it Hi) as Hp. unfold Iter_Next.
  destruct (ParseNextKey data restarts num it) as [[it' more]| |]; cbn; try done. apply Hp.
Qed.

Lemma step_total it op :
  1 <= num < 2 ^ 31 -> index_ok it ->
  total (match op with
         | OpSeekToFirst => Iter_SeekToFirst data restarts num it
         | OpSeekToLast => Iter_SeekToLast data restarts num it
         | OpSeek t => Iter_Seek data restarts num it t
         | OpNext => Iter_Next data restarts num it
         | OpPrev => Iter_Prev data restarts num it
         end).
Proof.
  intros Hn Hi. destruct op as [| |t| |].
  - destruct (seek_to_total it 0) as (n & _ & _ & Hi'); [lia|]. apply (next_total _ Hi').
  - destruct (seek_to_total it (num - 1)) as (n & En & Hn0 & Hi'); [lia|].
    by apply (skip_total _ _ _ n); [..|apply loop_fuel_enough].
  - unfold Iter_Seek. pose proof (seek_restart_total (Z.to_nat num) t 0 (num - 1)) as Hs.
    specialize (Hs ltac:(lia) ltac:(lia) ltac:(lia) ltac:(lia)).
    destruct (seek_restart _ _ _ _ _ _) as [[j|]| |]; cbn [res_bind]; try done.
    destruct (seek_to_total it j) as (n & En & Hn0 & Hi'); [lia|].
    by apply (linear_total _ _ _ n); [..|apply loop_fuel_enough].
  - by apply next_total.
  - unfold Iter_Prev. destruct (back_total (Z.to_nat num) (restart_index_ it) (current_ it) Hi) as (x & -> & Hx);
      [unfold index_ok in Hi; lia|]. cbn [res_bind]. destruct x as [r|]; [|unfold total, index_ok; cbn; lia].
    destruct (seek_to_total it r) as (n & En & Hn0 & Hi'); [by apply Hx|].
    by apply (skip_total _ _ _ n); [..|apply loop_fuel_enough].
Qed.
End any_block.

(** The block a file of any bytes opens as: its restart array is inside it. *)
Lemma open_any contents :
  size contents < 2 ^ 32 ->
  match Block_NewIterator (NewBlock contents) with
  | BlockEmpty _ => True
  | BlockIter d r n it => d = contents /\ 0 <= r <= size d /\ 1 <= n < 2 ^ 31 /\ restart_index_ it = n
  end.
Proof.
  intros Hsz. unfold NewBlock. zcase; [done|]. rewrite Z.gtb_ltb.
  destruct (Z.ltb_spec ((size contents - 4) / 4) (NumRestarts contents (size contents))) as [|Hle]; [done|].
  unfold Block_NewIterator. cbn [size_ data_ restart_offset_]. zcase; [done|].
  pose proof (DecodeFixed32_fits (drop (Z.to_nat (size contents - 4)) contents)) as Hf.
  fold (NumRestarts contents (size contents)) in Hf. destruct (Z.eqb_spec (NumRestarts contents (size contents)) 0); [done|].
  unfold fits in Hf. assert (NumRestarts contents (size contents) * 4 <= size contents - 4) by zdiv.
  rewrite (wrap_id 32 (1 + _)) by (unfold fits; lia). rewrite wrap_id by (unfold fits; lia).
  split; [done|]. split; [lia|]. split; [|done]. lia.
Qed.

(** Iterating over a block ends, whatever its bytes are: no sequence of
    operations on the iterator of a block under 4 GB loops for ever, corrupt restart
    points and entry lengths included. *)
Lemma block_iteration_ends `{C : Comparator} contents ops :
  size contents < 2 ^ 32 -> it_run (Block_NewIterator (NewBlock contents)) ops <> OutOfFuel.
Proof.
  intros Hsz. pose proof (open_any contents Hsz) as Ho.
  assert (Hrun : forall i, match i with
    | BlockEmpty _ => True
    | BlockIter d r n it => 0 <= r <= size d /\ size d < 2 ^ 32 /\ 1 <= n < 2 ^ 31 /\ index_ok n it
    end -> it_run i ops <> OutOfFuel).
  { induction ops as [|op ops IH]; intros i Hi; [done|]. cbn [it_run].
    assert (Hr : forall j : BlockIterator, it_reads j <> OutOfFuel).
    { intros [e|d r n it]; unfold it_reads; cbn; [done|]. destruct (Iter_Valid r it); [|done].
      unfold Iter_value. destruct (value_ it) as [[o l]|]; [|done]. by destruct (_ <? _). }
    destruct i as [e|d r n it].
    - specialize (IH (BlockEmpty e) I). destruct op; cbn; try done; by destruct (it_run _ ops).
    - destruct Hi as (H1 & H2 & H3 & H4). pose proof (step_total d r n H1 ltac:(lia) H2 it op H3 H4) as Ht.
      assert (Hs : it_step (BlockIter d r n it) op = let? it := match op with
         | OpSeekToFirst => Iter_SeekToFirst d r n it
         | OpSeekToLast => Iter_SeekToLast d r n it
         | OpSeek t => Iter_Seek d r n it t
         | OpNext => Iter_Next d r n it
         | OpPrev => Iter_Prev d r n it
         end in Ok (BlockIter d r n it)) by (by destruct op).
      rewrite Hs. match type of Ht with total _ ?x => destruct x as [it'| |] end; try done.
      cbn [res_bind]. specialize (Hr (BlockIter d r n it')). destruct (it_reads _); [|done..].
      cbn [res_bind]. specialize (IH (BlockIter d r n it') (conj H1 (conj H2 (conj H3 Ht)))).
      by destruct (it_run _ ops). }
  apply Hrun. destruct (Block_NewIterator _) as [e|d r n it]; [done|].
  destruct Ho as (-> & H1 & H2 & H3). split_and!; try done; [lia..|]. unfold index_ok. lia.
Qed.

Lemma block_iteration_ends_witness :
  it_run (Block_NewIterator (NewBlock (replicate 20 xff))) [OpSeekToLast; OpSeek []] <> OutOfFuel.
Proof. apply (block_iteration_ends (replicate 20 xff) [OpSeekToLast; OpSeek []]). by vm_compute. Defined.

(** The sum [*non_shared + *value_length] of [DecodeEntry] wraps around: this block
    of 15 bytes makes [SeekToFirst] append four gigabytes of key. *)
Definition overflow_block : bytes :=
  [x00; xff; xff; xff; xff; x0f; x01] ++ EncodeFixed32 0 ++ EncodeFixed32 1.

Lemma DecodeEntry_overflow :
  it_run (Block_NewIterator (NewBlock overflow_block)) [OpSeekToFirst] = Undefined.
Proof. vm_compute. done. Qed.
