(* ===== verification/Merger.v ===== *)
(** * Merging iterators

    Models [cpp/leveldb/table/iterator_wrapper.h] and [cpp/leveldb/table/merger.cc]:
    an iterator over the union of its children, in either direction.  The children
    are any iterators that keep the promise of [Cursor]. *)
From S2P Require Import Prelude Status Comparator Cursor Block.

(** ** The caching wrapper *)

Record IteratorWrapper (I : Type) := MkWrapper { iter_ : option I; valid_ : bool; wkey_ : bytes }.
Arguments MkWrapper {I} _ _ _.
Arguments iter_ {I} _.
Arguments valid_ {I} _.
Arguments wkey_ {I} _.

Section wrapper.
Context {I : Type} `{Iterator I}.

(** [Update] of the wrapper whose iterator is [it]; [key] is the key it had. *)
Definition wrapper_Update (it : I) (key : bytes) : IteratorWrapper I :=
  if it_Valid it then MkWrapper (Some it) true (it_key it) else MkWrapper (Some it) false key.

Definition wrapper_Set (w : IteratorWrapper I) (iter : option I) : IteratorWrapper I :=
  match iter with
  | None => MkWrapper None false (wkey_ w)
  | Some it => wrapper_Update it (wkey_ w)
  end.

Definition NewWrapper (iter : option I) : IteratorWrapper I := wrapper_Set (MkWrapper None false []) iter.

(** The methods that move; without an iterator they are not allowed. *)
Definition wrapper_move (f : I -> res I) (w : IteratorWrapper I) : res (IteratorWrapper I) :=
  match iter_ w with
  | None => Undefined
  | Some it => let? it := f it in Ok (wrapper_Update it (wkey_ w))
  end.

#[export] Instance Wrapper_Iterator : Iterator (IteratorWrapper I) := {|
  it_Valid := valid_;
  it_SeekToFirst := wrapper_move it_SeekToFirst;
  it_SeekToLast := wrapper_move it_SeekToLast;
  it_Seek w target := wrapper_move (fun it => it_Seek it target) w;
  it_Next := wrapper_move it_Next;
  it_Prev := wrapper_move it_Prev;
  it_key := wkey_;
  it_value w := match iter_ w with None => Undefined | Some it => it_value it end;
  it_status w := match iter_ w with None => Status_OK | Some it => it_status it end
|}.

(** The wrapper of an iterator over [kvs] at [c], its cache up to date. *)
Definition wraps `{C : Comparator} (w : IteratorWrapper I) (kvs : list (bytes * bytes)) (c : cursor) : Prop :=
  exists it, iter_ w = Some it /\ iterates_at it kvs c /\ valid_ w = it_Valid it /\
    (it_Valid it = true -> wkey_ w = it_key it).

Context `{C : Comparator}.

Lemma Update_wraps it key kvs c : iterates_at it kvs c -> wraps (wrapper_Update it key) kvs c.
Proof.
  intros Hi. unfold wrapper_Update. destruct (it_Valid it) eqn:E; exists it; cbn; by rewrite E.
Qed.

Lemma wraps_step w kvs c op c' :
  wraps w kvs c -> cursor_step kvs c op = Some c' ->
  exists w', it_step w op = Ok w' /\ wraps w' kvs c'.
Proof.
  intros (it & Hit & Hi & _) Hs. destruct (iterates_step it kvs c op c' Hi Hs) as (it' & E & Hi').
  exists (wrapper_Update it' (wkey_ w)). split; [|by apply Update_wraps].
  destruct op; cbn [it_step] in *; cbn [it_SeekToFirst it_SeekToLast it_Seek it_Next it_Prev Wrapper_Iterator];
    unfold wrapper_move; rewrite Hit, E; done.
Qed.

Lemma wraps_valid w kvs c : wraps w kvs c -> valid_ w = bool_decide (is_Some c).
Proof. intros (it & _ & Hi & -> & _). by apply (iterates_valid it kvs). Qed.

Lemma wraps_key w kvs c k v :
  wraps w kvs c -> at_cursor kvs c = Some (k, v) -> wkey_ w = k /\ it_value w = Ok v.
Proof.
  intros (it & Hit & Hi & Hv & Hk) Hc. pose proof (iterates_valid it kvs c Hi) as E.
  destruct (iterates_key it kvs c k v Hi Hc) as [H1 H2].
  destruct c as [i|]; [|done]. rewrite bool_decide_eq_true_2 in E by done.
  split; [by rewrite Hk|]. cbn. by rewrite Hit.
Qed.

Lemma wraps_status w kvs c : wraps w kvs c -> Status_ok (it_status w) = true.
Proof. intros (it & Hit & Hi & _). cbn. rewrite Hit. by apply (iterates_reads it kvs c). Qed.
End wrapper.

(** ** The merging iterator *)

Inductive Direction := kForward | kReverse.

(** [current_] is the index of a child. *)
Record MergingIterator (I : Type) := MkMerging {
  children_ : list (IteratorWrapper I);
  current_child : option nat;
  direction_ : Direction
}.
Arguments MkMerging {I} _ _ _.
Arguments children_ {I} _.
Arguments current_child {I} _.
Arguments direction_ {I} _.

Section merging.
Context `{C : Comparator} {I : Type} `{Iterator I}.

(** The loop of [FindSmallest], over the children from index [i] on, and that of
    [FindLargest], over the children in reverse order. *)
Fixpoint FindSmallest_loop (i : nat) (children : list (IteratorWrapper I)) (smallest : option (nat * bytes))
    : option nat :=
  match children with
  | [] => fst <$> smallest
  | child :: children =>
      let smallest :=
        if valid_ child then
          match smallest with
          | None => Some (i, wkey_ child)
          | Some (_, key) =>
              if cmp_Compare (wkey_ child) key <? 0 then Some (i, wkey_ child) else smallest
          end
        else smallest in
      FindSmallest_loop (S i) children smallest
  end.

Definition FindSmallest (children : list (IteratorWrapper I)) : option nat :=
  FindSmallest_loop 0 children None.

Fixpoint FindLargest_loop (children : list (nat * IteratorWrapper I)) (largest : option (nat * bytes))
    : option nat :=
  match children with
  | [] => fst <$> largest
  | (i, child) :: children =>
      let largest :=
        if valid_ child then
          match largest with
          | None => Some (i, wkey_ child)
          | Some (_, key) =>
              if cmp_Compare (wkey_ child) key >? 0 then Some (i, wkey_ child) else largest
          end
        else largest in
      FindLargest_loop children largest
  end.

Definition FindLargest (children : list (IteratorWrapper I)) : option nat :=
  FindLargest_loop (reverse (imap (fun i c => (i, c)) children)) None.

(** [key()]; without a current child it is not allowed. *)
Definition merging_key (m : MergingIterator I) : bytes :=
  match current_child m with
  | Some j => from_option wkey_ [] (children_ m !! j)
  | None => []
  end.

Definition merging_all (f : IteratorWrapper I -> res (IteratorWrapper I)) (m : MergingIterator I)
    : res (list (IteratorWrapper I)) := res_imap (fun _ child => f child) 0 (children_ m).

Definition merging_SeekToFirst (m : MergingIterator I) : res (MergingIterator I) :=
  let? children := merging_all it_SeekToFirst m in
  Ok (MkMerging children (FindSmallest children) kForward).

Definition merging_SeekToLast (m : MergingIterator I) : res (MergingIterator I) :=
  let? children := merging_all it_SeekToLast m in
  Ok (MkMerging children (FindLargest children) kReverse).

Definition merging_Seek (m : MergingIterator I) (target : bytes) : res (MergingIterator I) :=
  let? children := merging_all (fun child => it_Seek child target) m in
  Ok (MkMerging children (FindSmallest children) kForward).

(** A step of every child but the current one. *)
Definition other_children (f : IteratorWrapper I -> res (IteratorWrapper I)) (current : nat)
    (children : list (IteratorWrapper I)) : res (list (IteratorWrapper I)) :=
  res_imap (fun i child => if (i =? current)%nat then Ok child else f child) 0 children.

(** A step of the current child. *)
Definition current_step (f : IteratorWrapper I -> res (IteratorWrapper I)) (current : nat)
    (children : list (IteratorWrapper I)) : res (list (IteratorWrapper I)) :=
  match children !! current with
  | Some child => let? child := f child in Ok (<[current := child]> children)
  | None => Undefined
  end.

Definition after_key (key : bytes) (child : IteratorWrapper I) : res (IteratorWrapper I) :=
  let? child := it_Seek child key in
  if valid_ child && (cmp_Compare key (wkey_ child) =? 0) then it_Next child else Ok child.

Definition before_key (key : bytes) (child : IteratorWrapper I) : res (IteratorWrapper I) :=
  let? child := it_Seek child key in
  if valid_ child then it_Prev child else it_SeekToLast child.

Definition merging_Next (m : MergingIterator I) : res (MergingIterator I) :=
  match current_child m with
  | None => Undefined
  | Some current =>
      let? children :=
        match direction_ m with
        | kForward => Ok (children_ m)
        | kReverse => other_children (after_key (merging_key m)) current (children_ m)
        end in
      let? children := current_step it_Next current children in
      Ok (MkMerging children (FindSmallest children) kForward)
  end.

Definition merging_Prev (m : MergingIterator I) : res (MergingIterator I) :=
  match current_child m with
  | None => Undefined
  | Some current =>
      let? children :=
        match direction_ m with
        | kReverse => Ok (children_ m)
        | kForward => other_children (before_key (merging_key m)) current (children_ m)
        end in
      let? children := current_step it_Prev current children in
      Ok (MkMerging children (FindLargest children) kReverse)
  end.

Definition merging_value (m : MergingIterator I) : res bytes :=
  match current_child m ≫= (children_ m !!.) with
  | Some child => it_value child
  | None => Undefined
  end.

(** The first status that is not OK. *)
Fixpoint merging_status (children : list (IteratorWrapper I)) : Status :=
  match children with
  | [] => Status_OK
  | child :: children =>
      let status := it_status child in
      if negb (Status_ok status) then status else merging_status children
  end.

#[export] Instance Merging_Iterator : Iterator (MergingIterator I) := {|
  it_Valid m := match current_child m with Some _ => true | None => false end;
  it_SeekToFirst := merging_SeekToFirst;
  it_SeekToLast := merging_SeekToLast;
  it_Seek := merging_Seek;
  it_Next := merging_Next;
  it_Prev := merging_Prev;
  it_key := merging_key;
  it_value := merging_value;
  it_status m := merging_status (children_ m)
|}.

(** [NewMergingIterator]: no child, one child, or several. *)
Inductive MergedIterator :=
| MergedEmpty (e : EmptyIterator)
| MergedOne (it : I)
| MergedMany (m : MergingIterator I).

Definition NewMergingIterator (children : list I) : MergedIterator :=
  match children with
  | [] => MergedEmpty NewEmptyIterator
  | [it] => MergedOne it
  | _ => MergedMany (MkMerging (map (fun it => NewWrapper (Some it)) children) None kForward)
  end.

Definition step_merged (op : iter_op) (i : MergedIterator) : res MergedIterator :=
  match i with
  | MergedEmpty e => let? e := it_step e op in Ok (MergedEmpty e)
  | MergedOne it => let? it := it_step it op in Ok (MergedOne it)
  | MergedMany m => let? m := it_step m op in Ok (MergedMany m)
  end.

#[export] Instance Merged_Iterator : Iterator MergedIterator := {|
  it_Valid i := match i with MergedEmpty e => it_Valid e | MergedOne it => it_Valid it | MergedMany m => it_Valid m end;
  it_SeekToFirst := step_merged OpSeekToFirst;
  it_SeekToLast := step_merged OpSeekToLast;
  it_Seek i target := step_merged (OpSeek target) i;
  it_Next := step_merged OpNext;
  it_Prev := step_merged OpPrev;
  it_key i := match i with MergedEmpty e => it_key e | MergedOne it => it_key it | MergedMany m => it_key m end;
  it_value i := match i with MergedEmpty e => it_value e | MergedOne it => it_value it | MergedMany m => it_value m end;
  it_status i := match i with MergedEmpty e => it_status e | MergedOne it => it_status it | MergedMany m => it_status m end
|}.
End merging.

(** ** Cuts of ascending lists *)

Section cuts.
Context `{C : Comparator} `{!ComparatorLaws C}.

(** The pairs before the first one whose key satisfies [P]. *)
Fixpoint cut (P : bytes -> bool) (l : list (bytes * bytes)) : nat :=
  match l with
  | [] => O
  | p :: l => if P p.1 then O else S (cut P l)
  end.

Definition up_closed (P : bytes -> bool) : Prop :=
  forall k k', P k = true -> cmp_Compare k k' <= 0 -> P k' = true.

Definition from_key (t k : bytes) : bool := cmp_Compare k t >=? 0.
Definition past_key (t k : bytes) : bool := cmp_Compare k t >? 0.

(** The cursor at a cut, and the one before it. *)
Definition fwd (l : list (bytes * bytes)) (n : nat) : cursor := if (n <? length l)%nat then Some n else None.
Definition bwd (n : nat) : cursor := match n with O => None | S n => Some n end.

Lemma cut_le P l : (cut P l <= length l)%nat.
Proof. induction l as [|p l IH]; simpl; [lia|]. destruct (P p.1); lia. Qed.

Lemma cut_unique P l n :
  (n <= length l)%nat -> (forall i p, l !! i = Some p -> P p.1 = negb (i <? n)%nat) -> cut P l = n.
Proof.
  revert n. induction l as [|p l IH]; intros n Hn Hp; simpl in *; [lia|].
  pose proof (Hp 0%nat p eq_refl) as H0. destruct n as [|n]; simpl in H0; rewrite H0; [done|].
  f_equal. apply IH; [lia|]. intros i q Hq. apply (Hp (S i) q Hq).
Qed.

Lemma cut_before P l i p : l !! i = Some p -> (i < cut P l)%nat -> P p.1 = false.
Proof.
  revert i. induction l as [|q l IH]; intros i Hp Hi; simpl in *; [lia|].
  destruct (P q.1) eqn:E; [lia|]. destruct i as [|i]; [by injection Hp as <-|]. apply (IH i Hp). lia.
Qed.

Lemma cut_at P l p : l !! cut P l = Some p -> P p.1 = true.
Proof.
  induction l as [|q l IH]; simpl; [done|]. destruct (P q.1) eqn:E; [by intros [= <-]|done].
Qed.

Lemma cut_spec P l i p :
  up_closed P -> ascending l -> l !! i = Some p -> P p.1 = negb (i <? cut P l)%nat.
Proof.
  intros Hup Hasc Hp. destruct (Nat.ltb_spec i (cut P l)) as [Hlt|Hge]; cbn [negb].
  { by apply (cut_before P l i). }
  destruct (lookup_lt_is_Some_2 l (cut P l)) as [q Hq]; [apply lookup_lt_Some in Hp; lia|].
  pose proof (cut_at P l q Hq) as HPq. destruct (decide (cut P l = i)) as [E|Hne]; [by simplify_eq|].
  apply (Hup q.1); [done|]. pose proof (Hasc (cut P l) i q p ltac:(lia) Hq Hp). lia.
Qed.

Lemma cut_ext P Q l : (forall p, p ∈ l -> P p.1 = Q p.1) -> cut P l = cut Q l.
Proof.
  induction l as [|p l IH]; intros He; [done|]. simpl. rewrite (He p) by by left.
  destruct (Q p.1); [done|]. f_equal. apply IH. intros q Hq. apply He. by right.
Qed.

Lemma from_key_up t : up_closed (from_key t).
Proof.
  unfold up_closed, from_key. intros k k'. rewrite !Z.geb_leb, !Z.leb_le. intros Hk Hkk.
  destruct (Z.le_gt_cases 0 (cmp_Compare k' t)) as [|Hlt]; [done|].
  pose proof (cmp_le_lt_trans k k' t Hkk Hlt). lia.
Qed.

Lemma past_key_up t : up_closed (past_key t).
Proof.
  unfold up_closed, past_key. intros k k'. rewrite !Z.gtb_ltb, !Z.ltb_lt. intros Hk Hkk.
  destruct (Z.lt_ge_cases 0 (cmp_Compare k' t)) as [|Hle]; [done|].
  pose proof (cmp_trans k k' t Hkk ltac:(lia)). lia.
Qed.

Lemma from_key_cut l i p : ascending l -> l !! i = Some p -> cut (from_key p.1) l = i.
Proof.
  intros Hasc Hp. apply cut_unique; [apply lookup_lt_Some in Hp; lia|]. intros j q Hq.
  unfold from_key. rewrite Z.geb_leb. destruct (Nat.ltb_spec j i) as [Hji|Hji]; cbn [negb].
  - pose proof (Hasc j i q p Hji Hq Hp). apply Z.leb_gt. lia.
  - apply Z.leb_le. destruct (decide (i = j)) as [->|Hne].
    + simplify_eq. rewrite cmp_refl. lia.
    + pose proof (Hasc i j p q ltac:(lia) Hp Hq). pose proof (cmp_antisym p.1 q.1). lia.
Qed.

Lemma past_key_cut l i p : ascending l -> l !! i = Some p -> cut (past_key p.1) l = S i.
Proof.
  intros Hasc Hp. apply cut_unique; [apply lookup_lt_Some in Hp; lia|]. intros j q Hq.
  unfold past_key. rewrite Z.gtb_ltb. destruct (Nat.ltb_spec j (S i)) as [Hji|Hji]; cbn [negb].
  - apply Z.ltb_ge. destruct (decide (i = j)) as [->|Hne].
    + simplify_eq. rewrite cmp_refl. lia.
    + pose proof (Hasc j i q p ltac:(lia) Hq Hp). lia.
  - apply Z.ltb_lt. pose proof (Hasc i j p q ltac:(lia) Hp Hq). pose proof (cmp_antisym p.1 q.1). lia.
Qed.

Lemma find_ge_cut t l : find_ge t l = fwd l (cut (from_key t) l).
Proof.
  induction l as [|[k v] l IH]; [done|]. cbn [find_ge cut fst]. unfold from_key at 1.
  destruct (cmp_Compare k t >=? 0); [done|]. rewrite IH. unfold fwd. cbn [length].
  destruct (Nat.ltb_spec (cut (from_key t) l) (length l)), (Nat.ltb_spec (S (cut (from_key t) l)) (S (length l)));
    done || lia.
Qed.
End cuts.

(** ** The merging iterator follows a cursor in the merged list *)

(** [kvs] is the ascending list of the pairs of all the lists of [kvss], whose keys
    differ. *)
Record merge_of `{C : Comparator} (kvss : list (list (bytes * bytes))) (kvs : list (bytes * bytes)) : Prop := {
  m_asc : ascending kvs;
  m_children : forall j l, kvss !! j = Some l -> ascending l;
  m_in : forall p, p ∈ kvs <-> exists j l, kvss !! j = Some l /\ p ∈ l;
  m_distinct : forall i j l l' p q, i <> j -> kvss !! i = Some l -> kvss !! j = Some l' ->
    p ∈ l -> q ∈ l' -> cmp_Compare p.1 q.1 <> 0
}.

Section merged.
Context `{C : Comparator} `{!ComparatorLaws C} {I : Type} `{Iterator I}.
Context (kvss : list (list (bytes * bytes))) (kvs : list (bytes * bytes)) (Hm : merge_of kvss kvs).

(** Child [i] is at the cursor [f i l] in its list [l]. *)
Definition children_at (f : nat -> list (bytes * bytes) -> cursor) (children : list (IteratorWrapper I)) : Prop :=
  length children = length kvss /\
  forall i w l, children !! i = Some w -> kvss !! i = Some l -> wraps w l (f i l).

Lemma children_map (F : nat -> IteratorWrapper I -> res (IteratorWrapper I)) f g children :
  children_at f children ->
  (forall i w l, kvss !! i = Some l -> wraps w l (f i l) -> exists w', F i w = Ok w' /\ wraps w' l (g i l)) ->
  exists children', res_imap F 0 children = Ok children' /\ children_at g children'.
Proof.
  intros [Hlen Hc] HF.
  destruct (res_imap_ok F (fun i w => forall l, kvss !! i = Some l -> wraps w l (f i l))
    (fun i w => forall l, kvss !! i = Some l -> wraps w l (g i l)) 0 children) as (ch & E & Hl & Hch).
  - intros i w Hw l Hl. by apply Hc.
  - intros i w Hi Hw. destruct (lookup_lt_is_Some_2 kvss i) as [l Hl]; [simpl in Hi; lia|].
    destruct (HF i w l Hl (Hw l Hl)) as (w' & E & Hw'). exists w'. split; [done|]. intros l' Hl'. by simplify_eq.
  - exists ch. split; [done|]. split; [lia|]. intros i w l Hw Hl'. by apply (Hch i).
Qed.

Lemma children_step op f g m :
  children_at f (children_ m) ->
  (forall i l, kvss !! i = Some l -> cursor_step l (f i l) op = Some (g i l)) ->
  exists children', merging_all (fun w => it_step w op) m = Ok children' /\ children_at g children'.
Proof.
  intros Hc Hs. apply (children_map _ f g _ Hc). intros i w l Hl Hw. apply (wraps_step w l (f i l)); auto.
Qed.

Lemma elem_unique i j l l' p :
  kvss !! i = Some l -> kvss !! j = Some l' -> p ∈ l -> p ∈ l' -> i = j.
Proof.
  intros Hl Hl' Hp Hp'. destruct (decide (i = j)); [done|].
  destruct (m_distinct _ _ Hm i j l l' p p); try done. apply cmp_refl.
Qed.

(** Two pairs of the merged list with equal keys are one. *)
Lemma merged_inj i j p q : kvs !! i = Some p -> kvs !! j = Some q -> cmp_Compare p.1 q.1 = 0 -> i = j.
Proof.
  intros Hp Hq He. pose proof (m_asc _ _ Hm) as Ha. destruct (Nat.lt_trichotomy i j) as [Hlt|[->|Hlt]]; [|done|].
  - pose proof (Ha i j p q Hlt Hp Hq). lia.
  - pose proof (Ha j i q p Hlt Hq Hp). apply cmp_sym_eq in He. lia.
Qed.

Lemma lookup_merged j l i p : kvss !! j = Some l -> l !! i = Some p -> exists n, kvs !! n = Some p.
Proof.
  intros Hl Hp. apply list_elem_of_lookup, (m_in _ _ Hm). exists j, l. split; [done|].
  by apply list_elem_of_lookup_2 with i.
Qed.

(** *** [FindSmallest] and [FindLargest] *)

Lemma FindSmallest_loop_spec (children : list (IteratorWrapper I)) i acc :
  match FindSmallest_loop i children acc with
  | None => acc = None /\ forall j w, children !! j = Some w -> valid_ w = false
  | Some r => exists key,
      (acc = Some (r, key) \/ exists j w, r = (i + j)%nat /\ children !! j = Some w /\ valid_ w = true /\ key = wkey_ w) /\
      (forall j w, children !! j = Some w -> valid_ w = true -> cmp_Compare key (wkey_ w) <= 0) /\
      (forall r0 k0, acc = Some (r0, k0) -> cmp_Compare key k0 <= 0)
  end.
Proof.
  revert i acc. induction children as [|w children IH]; intros i acc; cbn [FindSmallest_loop].
  { destruct acc as [[r key]|]; cbn; [|done]. exists key. split; [by left|]. split; [done|].
    intros r0 k0 [= -> ->]. rewrite cmp_refl. lia. }
  match goal with |- context [FindSmallest_loop (S i) children ?a] => set (acc' := a) end.
  specialize (IH (S i) acc'). destruct (FindSmallest_loop (S i) children acc') as [r|].
  - destruct IH as (key & Hor & Hall & Hacc). exists key.
    assert (Hw : valid_ w = true -> cmp_Compare key (wkey_ w) <= 0).
    { intros Hv. unfold acc' in Hacc. rewrite Hv in Hacc. destruct acc as [[r0 k0]|]; [|by apply (Hacc i)].
      destruct (Z.ltb_spec (cmp_Compare (wkey_ w) k0) 0) as [Hlt|Hge]; [by apply (Hacc i)|].
      apply (cmp_trans _ k0); [by apply (Hacc r0)|]. apply cmp_sym_le. lia. }
    split; [|split].
    + destruct Hor as [Hor|(j & w' & -> & Hj & Hv & Hk)]; [|right; exists (S j), w'; split_and!; [lia|done..]].
      unfold acc' in Hor. destruct (valid_ w) eqn:Hv; [|by left]. destruct acc as [[r0 k0]|].
      * destruct (cmp_Compare (wkey_ w) k0 <? 0); [|by left]. injection Hor as <- <-. right.
        exists 0%nat, w. split_and!; [lia|done..].
      * injection Hor as <- <-. right. exists 0%nat, w. split_and!; [lia|done..].
    + intros [|j] w' Hw' Hv; [injection Hw' as <-; by apply Hw|by apply (Hall j)].
    + intros r0 k0 ->. unfold acc' in Hacc. destruct (valid_ w) eqn:Hv; [|by apply (Hacc r0)].
      destruct (Z.ltb_spec (cmp_Compare (wkey_ w) k0) 0) as [Hlt|Hge]; [|by apply (Hacc r0)].
      apply (cmp_trans _ (wkey_ w)); [by apply Hw|lia].
  - destruct IH as [Hacc Hall]. unfold acc' in Hacc. destruct (valid_ w) eqn:Hv.
    + destruct acc as [[r0 k0]|]; [destruct (_ <? 0); done|done].
    + split; [done|]. intros [|j] w' Hw'; [by injection Hw' as <-|by apply (Hall j)].
Qed.

Lemma FindLargest_loop_spec (l : list (nat * IteratorWrapper I)) acc :
  match FindLargest_loop l acc with
  | None => acc = None /\ forall j w, (j, w) ∈ l -> valid_ w = false
  | Some r => exists key,
      (acc = Some (r, key) \/ exists w, (r, w) ∈ l /\ valid_ w = true /\ key = wkey_ w) /\
      (forall j w, (j, w) ∈ l -> valid_ w = true -> cmp_Compare (wkey_ w) key <= 0) /\
      (forall r0 k0, acc = Some (r0, k0) -> cmp_Compare k0 key <= 0)
  end.
Proof.
  revert acc. induction l as [|[i w] l IH]; intros acc; cbn [FindLargest_loop].
  { destruct acc as [[r key]|]; cbn; [|by split; [|intros ? ? ?%elem_of_nil]]. exists key. split; [by left|].
    split; [by intros ? ? ?%elem_of_nil|]. intros r0 k0 [= -> ->]. rewrite cmp_refl. lia. }
  match goal with |- context [FindLargest_loop l ?a] => set (acc' := a) end.
  specialize (IH acc'). destruct (FindLargest_loop l acc') as [r|].
  - destruct IH as (key & Hor & Hall & Hacc). exists key.
    assert (Hw : valid_ w = true -> cmp_Compare (wkey_ w) key <= 0).
    { intros Hv. unfold acc' in Hacc. rewrite Hv in Hacc. destruct acc as [[r0 k0]|]; [|by apply (Hacc i)].
      rewrite Z.gtb_ltb in Hacc. destruct (Z.ltb_spec 0 (cmp_Compare (wkey_ w) k0)) as [Hlt|Hge]; [by apply (Hacc i)|].
      apply (cmp_trans _ k0); [lia|by apply (Hacc r0)]. }
    split; [|split].
    + destruct Hor as [Hor|(w' & Hj & Hv & Hk)]; [|right; exists w'; split; [by right|done]].
      unfold acc' in Hor. destruct (valid_ w) eqn:Hv; [|by left]. destruct acc as [[r0 k0]|].
      * destruct (cmp_Compare (wkey_ w) k0 >? 0); [|by left]. injection Hor as <- <-. right.
        exists w. split; [by left|done].
      * injection Hor as <- <-. right. exists w. split; [by left|done].
    + intros j w' Hw' Hv. apply list_elem_of_In in Hw' as [[= -> ->]|Hin]; [by apply Hw|].
      apply (Hall j); [by apply list_elem_of_In|done].
    + intros r0 k0 ->. unfold acc' in Hacc. destruct (valid_ w) eqn:Hv; [|by apply (Hacc r0)].
      rewrite Z.gtb_ltb in Hacc. destruct (Z.ltb_spec 0 (cmp_Compare (wkey_ w) k0)) as [Hlt|Hge]; [|by apply (Hacc r0)].
      apply (cmp_trans _ (wkey_ w)); [apply cmp_sym_le; lia|by apply Hw].
  - destruct IH as [Hacc Hall]. unfold acc' in Hacc. destruct (valid_ w) eqn:Hv.
    + destruct acc as [[r0 k0]|]; [destruct (_ >? 0); done|done].
    + split; [done|]. intros j w' Hw'. apply list_elem_of_In in Hw' as [[= <- <-]|Hin]; [done|].
      apply (Hall j). by apply list_elem_of_In.
Qed.

Lemma elem_of_indexed (children : list (IteratorWrapper I)) i w :
  (i, w) ∈ reverse (imap (fun i c => (i, c)) children) <-> children !! i = Some w.
Proof.
  rewrite elem_of_reverse. split.
  - intros Hin. apply list_elem_of_lookup in Hin as [j Hj]. rewrite list_lookup_imap in Hj.
    destruct (children !! j) eqn:E; [|done]. cbn in Hj. by injection Hj as <- <-.
  - intros Hw. apply list_elem_of_lookup. exists i. by rewrite list_lookup_imap, Hw.
Qed.

Abbreviation forward P := (fun (_ : nat) (l : list (bytes * bytes)) => fwd l (cut P l)).
Abbreviation backward P := (fun (_ : nat) (l : list (bytes * bytes)) => bwd (cut P l)).

Lemma child_exists f children j l :
  children_at f children -> kvss !! j = Some l -> exists w, children !! j = Some w /\ wraps w l (f j l).
Proof.
  intros [Hlen Hc] Hl. destruct (lookup_lt_is_Some_2 children j) as [w Hw].
  - rewrite Hlen. by eapply lookup_lt_Some.
  - exists w. split; [done|]. by apply Hc.
Qed.

Lemma list_exists f children j w :
  children_at f children -> children !! j = Some w -> exists l, kvss !! j = Some l /\ wraps w l (f j l).
Proof.
  intros [Hlen Hc] Hw. destruct (lookup_lt_is_Some_2 kvss j) as [l Hl].
  - rewrite <- Hlen. by eapply lookup_lt_Some.
  - exists l. split; [done|]. by apply Hc.
Qed.

Lemma fwd_valid l n : is_Some (fwd l n) <-> (n < length l)%nat.
Proof.
  unfold fwd. destruct (Nat.ltb_spec n (length l)); split; intros Hs; [done|by eexists|by destruct Hs|lia].
Qed.

(** A valid wrapper shows the pair its cursor is at. *)
Lemma wraps_at w l c : wraps w l c -> valid_ w = true -> exists i p, c = Some i /\ l !! i = Some p /\ wkey_ w = p.1.
Proof.
  intros Hw Hv. pose proof (wraps_valid w l c Hw) as E. rewrite Hv in E. symmetry in E.
  apply bool_decide_eq_true in E. destruct Hw as (it & Hit & Hi & Hval & Hk).
  destruct (iterates_reads _ _ _ Hi) as (_ & Hc & _). destruct c as [i|]; [|by destruct E].
  destruct (proj1 Hc E) as [p Hp]. exists i, p. split; [done|]. split; [exact Hp|].
  destruct p as [k v]. destruct (iterates_key it l (Some i) k v Hi Hp) as [<- _]. apply Hk. congruence.
Qed.

Lemma smallest_at P children :
  up_closed P -> children_at (forward P) children ->
  match FindSmallest children with
  | None => cut P kvs = length kvs
  | Some j => exists l p, kvss !! j = Some l /\ l !! cut P l = Some p /\ kvs !! cut P kvs = Some p
  end.
Proof.
  intros Hup Hc. pose proof (FindSmallest_loop_spec children 0 None) as Hs. fold (FindSmallest children) in Hs.
  (* the child that holds the pair at the cut stands at or before it *)
  assert (Hhead : forall p, kvs !! cut P kvs = Some p -> exists i l w q,
    children !! i = Some w /\ kvss !! i = Some l /\ valid_ w = true /\ l !! cut P l = Some q /\
    wkey_ w = q.1 /\ cmp_Compare q.1 p.1 <= 0).
  { intros p Hp. destruct (proj1 (m_in _ _ Hm p)) as (i & l & Hl & Hin); [by apply list_elem_of_lookup_2 with (cut P kvs)|].
    apply list_elem_of_lookup in Hin as [idx Hidx]. pose proof (m_children _ _ Hm i l Hl) as Ha.
    pose proof (cut_spec P l idx p Hup Ha Hidx) as Hcs. rewrite (cut_at P kvs p Hp) in Hcs.
    destruct (Nat.ltb_spec idx (cut P l)) as [|Hge]; [done|].
    pose proof (lookup_lt_Some _ _ _ Hidx) as Hlt.
    destruct (child_exists _ _ i l Hc Hl) as (w & Hw & Hwr).
    assert (Hv : valid_ w = true) by (rewrite (wraps_valid _ _ _ Hwr); apply bool_decide_eq_true_2, fwd_valid; lia).
    destruct (wraps_at _ _ _ Hwr Hv) as (i' & q & Hi' & Hq & Hk).
    unfold fwd in Hi'. destruct (Nat.ltb_spec (cut P l) (length l)); [|lia]. injection Hi' as <-.
    exists i, l, w, q. split_and!; try done. destruct (decide (cut P l = idx)) as [E|Hne].
    - rewrite E in Hq. simplify_eq. rewrite cmp_refl. lia.
    - pose proof (Ha (cut P l) idx q p ltac:(lia) Hq Hidx). lia. }
  destruct (FindSmallest children) as [r|].
  - destruct Hs as (key & [[=]|(j & w & -> & Hw & Hv & ->)] & Hmin & _). cbn [Nat.add].
    destruct (list_exists _ _ j w Hc Hw) as (l & Hl & Hwr).
    destruct (wraps_at _ _ _ Hwr Hv) as (i & q & Hi & Hq & Hk). unfold fwd in Hi.
    destruct (Nat.ltb_spec (cut P l) (length l)); [|done]. injection Hi as <-.
    destruct (lookup_merged j l _ q Hl Hq) as [n Hn]. pose proof (cut_at P l q Hq) as HP.
    rewrite (cut_spec P kvs n q Hup (m_asc _ _ Hm) Hn) in HP. destruct (Nat.ltb_spec n (cut P kvs)) as [|Hge]; [done|].
    pose proof (lookup_lt_Some _ _ _ Hn). destruct (lookup_lt_is_Some_2 kvs (cut P kvs)) as [p Hp]; [lia|].
    exists l, q. split_and!; [done..|]. destruct (decide (cut P kvs = n)) as [->|Hne]; [done|].
    destruct (Hhead p Hp) as (i2 & l2 & w2 & q2 & Hw2 & _ & Hv2 & _ & Hk2 & Hle).
    pose proof (Hmin i2 w2 Hw2 Hv2) as Hm2. rewrite Hk, Hk2 in Hm2.
    assert (Hcn : (cut P kvs < n)%nat) by lia. pose proof (m_asc _ _ Hm _ _ p q Hcn Hp Hn) as Hpq.
    pose proof (cmp_trans _ _ _ Hm2 Hle). apply cmp_sym_lt in Hpq. lia.
  - destruct Hs as [_ Hall]. destruct (Nat.eq_dec (cut P kvs) (length kvs)) as [|Hne]; [done|].
    pose proof (cut_le P kvs). destruct (lookup_lt_is_Some_2 kvs (cut P kvs)) as [p Hp]; [lia|].
    destruct (Hhead p Hp) as (i & l & w & q & Hw & _ & Hv & _). by rewrite (Hall i w Hw) in Hv.
Qed.

Lemma largest_at P children :
  up_closed P -> children_at (backward P) children ->
  match FindLargest children with
  | None => cut P kvs = 0%nat
  | Some j => exists l p i n, kvss !! j = Some l /\ l !! i = Some p /\ cut P l = S i /\
      kvs !! n = Some p /\ cut P kvs = S n
  end.
Proof.
  intros Hup Hc. pose proof (FindLargest_loop_spec (reverse (imap (fun i c => (i, c)) children)) None) as Hs.
  fold (FindLargest children) in Hs.
  assert (Hhead : forall n p, cut P kvs = S n -> kvs !! n = Some p -> exists i l w x q,
    children !! i = Some w /\ kvss !! i = Some l /\ valid_ w = true /\ cut P l = S x /\ l !! x = Some q /\
    wkey_ w = q.1 /\ cmp_Compare p.1 q.1 <= 0).
  { intros n p Hn Hp. destruct (proj1 (m_in _ _ Hm p)) as (i & l & Hl & Hin); [by apply list_elem_of_lookup_2 with n|].
    apply list_elem_of_lookup in Hin as [idx Hidx]. pose proof (m_children _ _ Hm i l Hl) as Ha.
    pose proof (cut_spec P l idx p Hup Ha Hidx) as Hcs. rewrite (cut_before P kvs n p Hp) in Hcs by lia.
    destruct (Nat.ltb_spec idx (cut P l)) as [Hlt|]; [|done]. pose proof (cut_le P l).
    destruct (child_exists _ _ i l Hc Hl) as (w & Hw & Hwr). destruct (cut P l) as [|x] eqn:Ex; [lia|].
    assert (Hv : valid_ w = true) by (rewrite (wraps_valid _ _ _ Hwr); cbn beta; by rewrite ?Ex).
    destruct (wraps_at _ _ _ Hwr Hv) as (x' & q & Hx' & Hq & Hk). cbn beta in Hx'. rewrite ?Ex in Hx'. injection Hx' as <-.
    exists i, l, w, x, q. split_and!; try done. destruct (decide (idx = x)) as [E|Hne].
    - rewrite E in Hidx. simplify_eq. rewrite cmp_refl. lia.
    - pose proof (Ha idx x p q ltac:(lia) Hidx Hq). lia. }
  destruct (FindLargest children) as [r|].
  - destruct Hs as (key & [[=]|(w & Hw & Hv & ->)] & Hmax & _). apply elem_of_indexed in Hw.
    destruct (list_exists _ _ r w Hc Hw) as (l & Hl & Hwr).
    destruct (wraps_at _ _ _ Hwr Hv) as (i & q & Hi & Hq & Hk). cbn beta in Hi.
    destruct (cut P l) as [|x] eqn:Ex; [done|]. injection Hi as <-.
    destruct (lookup_merged r l _ q Hl Hq) as [n Hn]. pose proof (cut_before P l x q Hq ltac:(lia)) as HP.
    rewrite (cut_spec P kvs n q Hup (m_asc _ _ Hm) Hn) in HP. destruct (Nat.ltb_spec n (cut P kvs)) as [Hlt|]; [|done].
    destruct (cut P kvs) as [|m] eqn:Em; [lia|].
    exists l, q, x, m. split_and!; try done. destruct (decide (m = n)) as [->|Hne]; [done|].
    pose proof (cut_le P kvs). destruct (lookup_lt_is_Some_2 kvs m) as [p Hp]; [lia|].
    destruct (Hhead m p eq_refl Hp) as (i2 & l2 & w2 & x2 & q2 & Hw2 & _ & Hv2 & _ & _ & Hk2 & Hle).
    pose proof (Hmax i2 w2 (proj2 (elem_of_indexed _ _ _) Hw2) Hv2) as Hm2. rewrite Hk, Hk2 in Hm2.
    assert (Hnm : (n < m)%nat) by lia. pose proof (m_asc _ _ Hm n m q p Hnm Hn Hp) as Hpq.
    pose proof (cmp_trans _ _ _ Hle Hm2). apply cmp_sym_lt in Hpq. lia.
  - destruct Hs as [_ Hall]. destruct (cut P kvs) as [|n] eqn:En; [done|].
    pose proof (cut_le P kvs). destruct (lookup_lt_is_Some_2 kvs n) as [p Hp]; [lia|].
    destruct (Hhead n p eq_refl Hp) as (i & l & w & x & q & Hw & _ & Hv & _).
    by rewrite (Hall i w (proj2 (elem_of_indexed _ _ _) Hw)) in Hv.
Qed.

(** *** The relation *)

(** At pair [p], held by child [j]: forwards every child is at its first key from
    [p] on, backwards the others are at their last key before it. *)
Definition around_pair (d : Direction) (j : nat) (k : bytes) (i : nat) (l : list (bytes * bytes)) : cursor :=
  match d with
  | kForward => fwd l (cut (from_key k) l)
  | kReverse => if (i =? j)%nat then fwd l (cut (from_key k) l) else bwd (cut (from_key k) l)
  end.

Definition at_merged (m : MergingIterator I) (c : cursor) : Prop :=
  match c with
  | None => current_child m = None /\ exists f, children_at f (children_ m)
  | Some n => exists j l p i, kvs !! n = Some p /\ kvss !! j = Some l /\ l !! i = Some p /\
      current_child m = Some j /\ children_at (around_pair (direction_ m) j p.1) (children_ m)
  end.

(** Conditions that cut the merged list alike cut every child alike. *)
Lemma cut_transfer P Q j l :
  up_closed P -> up_closed Q -> cut P kvs = cut Q kvs -> kvss !! j = Some l -> cut P l = cut Q l.
Proof.
  intros HP HQ E Hl. apply cut_ext. intros p Hp.
  apply list_elem_of_lookup in Hp as [i Hp]. destruct (lookup_merged j l i p Hl Hp) as [n Hn].
  rewrite (cut_spec P kvs n p HP (m_asc _ _ Hm) Hn), E. symmetry.
  by apply (cut_spec Q kvs n p HQ (m_asc _ _ Hm)).
Qed.

(** In the children that do not hold [p], keys from [p] on are keys past [p]. *)
Lemma cut_others j l i p j' l' :
  kvss !! j = Some l -> l !! i = Some p -> j' <> j -> kvss !! j' = Some l' ->
  cut (past_key p.1) l' = cut (from_key p.1) l'.
Proof.
  intros Hl Hp Hne Hl'. apply cut_ext. intros q Hq. unfold past_key, from_key.
  assert (Hd : cmp_Compare q.1 p.1 <> 0).
  { apply (m_distinct _ _ Hm j' j l' l); try done. by apply list_elem_of_lookup_2 with i. }
  rewrite Z.gtb_ltb, Z.geb_leb. destruct (Z.ltb_spec 0 (cmp_Compare q.1 p.1)), (Z.leb_spec 0 (cmp_Compare q.1 p.1)); done || lia.
Qed.

Lemma children_ext f g children :
  children_at f children -> (forall i l, kvss !! i = Some l -> f i l = g i l) -> children_at g children.
Proof. intros [Hlen Hc] He. split; [done|]. intros i w l Hw Hl. rewrite <- He by done. by apply Hc. Qed.

Lemma after_smallest P children :
  up_closed P -> children_at (forward P) children ->
  at_merged (MkMerging children (FindSmallest children) kForward) (fwd kvs (cut P kvs)).
Proof.
  intros Hup Hc. pose proof (smallest_at P children Hup Hc) as Hs. unfold fwd at 1.
  destruct (FindSmallest children) as [j|].
  - destruct Hs as (l & p & Hl & Hp & Hn). pose proof (lookup_lt_Some _ _ _ Hn).
    destruct (Nat.ltb_spec (cut P kvs) (length kvs)); [|lia]. exists j, l, p, (cut P l). split_and!; try done.
    apply (children_ext _ _ _ Hc). intros i l' Hl'. cbn [around_pair direction_]. f_equal.
    apply (cut_transfer P (from_key p.1) i l' Hup (from_key_up _)); [|done].
    symmetry. by apply from_key_cut; [apply Hm|].
  - destruct (Nat.ltb_spec (cut P kvs) (length kvs)); [lia|]. split; [done|]. by eexists.
Qed.

Lemma after_largest P children :
  up_closed P -> children_at (backward P) children ->
  at_merged (MkMerging children (FindLargest children) kReverse) (bwd (cut P kvs)).
Proof.
  intros Hup Hc. pose proof (largest_at P children Hup Hc) as Hs. destruct (FindLargest children) as [j|].
  - destruct Hs as (l & p & i & n & Hl & Hp & Hi & Hn & Hcn). rewrite Hcn. exists j, l, p, i. split_and!; try done.
    apply (children_ext _ _ _ Hc). intros i' l' Hl'. cbn [around_pair direction_].
    destruct (Nat.eqb_spec i' j) as [->|Hne].
    + assert (l' = l) as -> by congruence. rewrite Hi. cbn [bwd].
      rewrite (from_key_cut l i p (m_children _ _ Hm j l Hl) Hp). unfold fwd.
      apply lookup_lt_Some in Hp. by destruct (Nat.ltb_spec i (length l)); [|lia].
    + f_equal. rewrite <- (cut_others j l i p i' l') by done.
      apply (cut_transfer P (past_key p.1) i' l' Hup (past_key_up _)); [|done].
      rewrite Hcn. symmetry. by apply past_key_cut; [apply Hm|].
  - rewrite Hs. split; [done|]. by eexists.
Qed.

(** *** Steps *)

Lemma current_step_at op f g j l children :
  children_at f children -> kvss !! j = Some l -> cursor_step l (f j l) op = Some (g j l) ->
  (forall i l', i <> j -> kvss !! i = Some l' -> f i l' = g i l') ->
  exists children', current_step (fun w => it_step w op) j children = Ok children' /\ children_at g children'.
Proof.
  intros Hc Hl Hs He. destruct (child_exists f children j l Hc Hl) as (w & Hw & Hwr).
  destruct (wraps_step w l _ op _ Hwr Hs) as (w' & Ew & Hwr'). unfold current_step. rewrite Hw, Ew. cbn [res_bind].
  eexists. split; [done|]. destruct Hc as [Hlen Hc]. split; [by rewrite length_insert|].
  intros i x l' Hx Hl'. destruct (decide (i = j)) as [->|Hne].
  - rewrite list_lookup_insert_eq in Hx by (by eapply lookup_lt_Some). injection Hx as <-.
    by assert (l' = l) as -> by congruence.
  - rewrite list_lookup_insert_ne in Hx by done. rewrite <- He by done. by apply Hc.
Qed.

Lemma others_at F f g j children :
  children_at f children ->
  (forall i w l, i <> j -> kvss !! i = Some l -> wraps w l (f i l) -> exists w', F w = Ok w' /\ wraps w' l (g i l)) ->
  (forall l, kvss !! j = Some l -> f j l = g j l) ->
  exists children', other_children F j children = Ok children' /\ children_at g children'.
Proof.
  intros Hc HF Hj. unfold other_children. apply (children_map _ f g children Hc).
  intros i w l Hl Hw. destruct (Nat.eqb_spec i j) as [->|Hne].
  - exists w. split; [done|]. by rewrite <- Hj.
  - by apply (HF i).
Qed.

Lemma current_cursor d j l i p : kvss !! j = Some l -> l !! i = Some p -> around_pair d j p.1 j l = Some i.
Proof.
  intros Hl Hp. pose proof (lookup_lt_Some _ _ _ Hp). unfold around_pair. rewrite Nat.eqb_refl.
  rewrite (from_key_cut l i p (m_children _ _ Hm j l Hl) Hp). unfold fwd.
  by destruct d, (Nat.ltb_spec i (length l)); try lia.
Qed.

Lemma merging_key_at m j l i p :
  kvss !! j = Some l -> l !! i = Some p -> current_child m = Some j ->
  children_at (around_pair (direction_ m) j p.1) (children_ m) ->
  merging_key m = p.1 /\ merging_value m = Ok p.2 /\ (j < length (children_ m))%nat.
Proof.
  intros Hl Hp Hcur Hc. destruct (child_exists _ _ j l Hc Hl) as (w & Hw & Hwr).
  rewrite (current_cursor _ j l i p Hl Hp) in Hwr. destruct p as [k v].
  destruct (wraps_key w l (Some i) k v Hwr Hp) as [Hk Hv]. unfold merging_key, merging_value. rewrite Hcur.
  cbn [mbind option_bind]. rewrite Hw. cbn. split_and!; [done..|by eapply lookup_lt_Some].
Qed.

(** The children other than the one that holds [p] are moved past it, or before it. *)
Lemma after_key_at c j l i p j' l' w :
  kvss !! j = Some l -> l !! i = Some p -> j' <> j -> kvss !! j' = Some l' -> wraps w l' c ->
  exists w', after_key p.1 w = Ok w' /\ wraps w' l' (fwd l' (cut (from_key p.1) l')).
Proof.
  intros Hl Hp Hne Hl' Hw. unfold after_key.
  destruct (wraps_step w l' c (OpSeek p.1) _ Hw eq_refl) as (w' & E & Hw'). cbn [it_step] in E. rewrite E.
  cbn [res_bind]. rewrite find_ge_cut in Hw'. exists w'. split; [|done].
  destruct (valid_ w') eqn:Hv; [|done]. cbn [andb].
  destruct (wraps_at _ _ _ Hw' Hv) as (x & q & _ & Hq & ->).
  destruct (Z.eqb_spec (cmp_Compare p.1 q.1) 0) as [Eq|]; [|done]. exfalso.
  apply (m_distinct _ _ Hm j j' l l' p q); try done.
  - by apply list_elem_of_lookup_2 with i.
  - by apply list_elem_of_lookup_2 with x.
Qed.

Lemma before_key_at c p l' w :
  wraps w l' c -> exists w', before_key p w = Ok w' /\ wraps w' l' (bwd (cut (from_key p) l')).
Proof.
  intros Hw. unfold before_key.
  destruct (wraps_step w l' c (OpSeek p) _ Hw eq_refl) as (w' & E & Hw'). cbn [it_step] in E. rewrite E.
  cbn [res_bind]. rewrite find_ge_cut in Hw'. rewrite (wraps_valid _ _ _ Hw'). pose proof (cut_le (from_key p) l').
  unfold fwd in *. destruct (Nat.ltb_spec (cut (from_key p) l') (length l')); cbn.
  - apply (wraps_step w' l' _ OpPrev _ Hw'). done.
  - destruct (wraps_step w' l' _ OpSeekToLast _ Hw' eq_refl) as (w2 & E2 & Hw2). exists w2. split; [exact E2|].
    replace (cut (from_key p) l') with (length l') by lia. by destruct l'.
Qed.

Lemma merging_Next_at m n :
  at_merged m (Some n) -> exists m', merging_Next m = Ok m' /\ at_merged m' (fwd kvs (S n)).
Proof.
  intros (j & l & p & i & Hn & Hl & Hp & Hcur & Hc). unfold merging_Next. rewrite Hcur.
  destruct (merging_key_at m j l i p Hl Hp Hcur Hc) as (-> & _).
  assert (Hfwd : exists ch, match direction_ m with
      | kForward => Ok (children_ m) | kReverse => other_children (after_key p.1) j (children_ m) end = Ok ch /\
      children_at (forward (from_key p.1)) ch).
  { destruct (direction_ m) eqn:Ed; [by exists (children_ m)|].
    apply (others_at _ _ _ j _ Hc); cbn [around_pair].
    - intros i' w l' Hne Hl' Hw. by apply (after_key_at _ j l i p i' l' w Hl Hp Hne Hl' Hw).
    - intros l' Hl'. by rewrite Nat.eqb_refl. }
  destruct Hfwd as (ch & -> & Hch). cbn [res_bind].
  pose proof (m_children _ _ Hm j l Hl) as Ha. pose proof (lookup_lt_Some _ _ _ Hp).
  destruct (current_step_at OpNext (forward (from_key p.1)) (forward (past_key p.1)) j l ch Hch Hl) as (ch' & E & Hch').
  - rewrite (from_key_cut l i p Ha Hp), (past_key_cut l i p Ha Hp). unfold fwd at 1.
    by destruct (Nat.ltb_spec i (length l)); [|lia].
  - intros i' l' Hne Hl'. by rewrite (cut_others j l i p i' l').
  - change (current_step it_Next j ch = Ok ch') in E. rewrite E. cbn [res_bind]. eexists. split; [done|].
    rewrite <- (past_key_cut kvs n p (m_asc _ _ Hm) Hn). apply after_smallest; [apply past_key_up|done].
Qed.

Lemma merging_Prev_at m n :
  at_merged m (Some n) -> exists m', merging_Prev m = Ok m' /\ at_merged m' (bwd n).
Proof.
  intros (j & l & p & i & Hn & Hl & Hp & Hcur & Hc). unfold merging_Prev. rewrite Hcur.
  destruct (merging_key_at m j l i p Hl Hp Hcur Hc) as (-> & _).
  assert (Hbwd : exists ch, match direction_ m with
      | kReverse => Ok (children_ m) | kForward => other_children (before_key p.1) j (children_ m) end = Ok ch /\
      children_at (around_pair kReverse j p.1) ch).
  { destruct (direction_ m) eqn:Ed; [|by exists (children_ m)].
    apply (others_at _ _ _ j _ Hc); cbn [around_pair].
    - intros i' w l' Hne Hl' Hw. apply Nat.eqb_neq in Hne as ->. by apply (before_key_at _ p.1 l' w Hw).
    - intros l' Hl'. by rewrite Nat.eqb_refl. }
  destruct Hbwd as (ch & -> & Hch). cbn [res_bind].
  pose proof (m_children _ _ Hm j l Hl) as Ha.
  destruct (current_step_at OpPrev (around_pair kReverse j p.1) (backward (from_key p.1)) j l ch Hch Hl) as (ch' & E & Hch').
  - rewrite (current_cursor kReverse j l i p Hl Hp), (from_key_cut l i p Ha Hp). done.
  - intros i' l' Hne Hl'. cbn [around_pair]. by apply Nat.eqb_neq in Hne as ->.
  - change (current_step it_Prev j ch = Ok ch') in E. rewrite E. cbn [res_bind]. eexists. split; [done|].
    rewrite <- (from_key_cut kvs n p (m_asc _ _ Hm) Hn) at 1. apply after_largest; [apply from_key_up|done].
Qed.

Lemma merging_status_ok f children : children_at f children -> Status_ok (merging_status children) = true.
Proof.
  intros [Hlen Hc]. assert (Hall : forall w, w ∈ children -> Status_ok (it_status w) = true).
  { intros w Hw. apply list_elem_of_lookup in Hw as [i Hw].
    destruct (lookup_lt_is_Some_2 kvss i) as [l Hl]; [rewrite <- Hlen; by eapply lookup_lt_Some|].
    apply (wraps_status w l (f i l)). by apply Hc. }
  clear Hlen Hc. induction children as [|w children IH]; [done|]. cbn [merging_status].
  rewrite (Hall w) by by left. cbn [negb]. apply IH. intros x Hx. apply Hall. by right.
Qed.

Lemma at_merged_any m c : at_merged m c -> exists f, children_at f (children_ m).
Proof. destruct c as [n|]; [intros (j & l & p & i & _ & _ & _ & _ & Hc); by eexists|by intros [_ Hf]]. Qed.

(** The merging iterator follows the cursor. *)
Lemma merging_simulates : simulates at_merged kvs.
Proof.
  intros m c Hr. destruct (at_merged_any m c Hr) as [f Hf]. split; [|split; [|split]].
  - unfold it_reads. cbn. destruct c as [n|].
    + destruct Hr as (j & l & p & i & Hn & Hl & Hp & Hcur & Hc).
      destruct (merging_key_at m j l i p Hl Hp Hcur Hc) as (Hk & Hv & _). rewrite Hcur, Hk, Hv. cbn.
      rewrite Hn. by destruct p.
    + destruct Hr as [-> _]. done.
  - destruct c as [n|]; cbn; [|split; by intros []]. destruct Hr as (j & l & p & i & Hn & _).
    rewrite Hn. split; by eexists.
  - cbn. by apply (merging_status_ok f).
  - intros op c' Hop. destruct op as [| |t| |]; cbn [cursor_step it_step] in *;
      cbn [it_SeekToFirst it_SeekToLast it_Seek it_Next it_Prev Merging_Iterator].
    + injection Hop as <-. unfold merging_SeekToFirst.
      destruct (children_step OpSeekToFirst f (forward (fun _ => true)) m Hf) as (ch & E & Hch).
      { intros i l _. cbn. unfold fwd. by destruct l. }
      change (merging_all it_SeekToFirst m = Ok ch) in E. rewrite E. cbn [res_bind]. eexists. split; [done|].
      pose proof (after_smallest (fun _ => true) ch ltac:(done) Hch) as Ha. unfold fwd in Ha. by destruct kvs.
    + injection Hop as <-. unfold merging_SeekToLast.
      assert (Hcut : forall l, cut (fun _ => false) l = length l).
      { intros l. induction l as [|q l IH]; simpl; [done|]. by rewrite IH. }
      destruct (children_step OpSeekToLast f (backward (fun _ => false)) m Hf) as (ch & E & Hch).
      { intros i l _. rewrite Hcut. by destruct l. }
      change (merging_all it_SeekToLast m = Ok ch) in E. rewrite E. cbn [res_bind]. eexists. split; [done|].
      pose proof (after_largest (fun _ => false) ch ltac:(done) Hch) as Ha. rewrite Hcut in Ha. by destruct kvs.
    + injection Hop as <-. unfold merging_Seek.
      destruct (children_step (OpSeek t) f (forward (from_key t)) m Hf) as (ch & E & Hch).
      { intros i l _. cbn. by rewrite find_ge_cut. }
      cbn [it_step] in E. rewrite E. cbn [res_bind]. eexists. split; [done|].
      rewrite find_ge_cut. apply after_smallest; [apply from_key_up|done].
    + destruct c as [n|]; [|done]. cbn in Hop. injection Hop as <-. by apply merging_Next_at.
    + destruct c as [n|]; [|done]. cbn in Hop. injection Hop as <-. by apply merging_Prev_at.
Qed.

(** What [NewMergingIterator] returns stands at the cursor. *)
Definition merged_at (i : MergedIterator) (c : cursor) : Prop :=
  match i with
  | MergedEmpty e => iterates_at e kvs c
  | MergedOne it => iterates_at it kvs c
  | MergedMany m => at_merged m c
  end.

Lemma merged_simulates : simulates merged_at kvs.
Proof.
  intros i c Hi. destruct i as [e|it|m]; cbn [merged_at] in Hi.
  - destruct (iterates_reads _ _ _ Hi) as (H1 & H2 & H3). split_and!; try done. intros op c' Hop.
    destruct (iterates_step e kvs c op c' Hi Hop) as (e' & E & He). exists (MergedEmpty e'). split; [|done].
    destruct op; cbn [it_step] in *; cbn [it_SeekToFirst it_SeekToLast it_Seek it_Next it_Prev Merged_Iterator];
      unfold step_merged; cbn [it_step]; by rewrite E.
  - destruct (iterates_reads _ _ _ Hi) as (H1 & H2 & H3). split_and!; try done. intros op c' Hop.
    destruct (iterates_step it kvs c op c' Hi Hop) as (e' & E & He). exists (MergedOne e'). split; [|done].
    destruct op; cbn [it_step] in *; cbn [it_SeekToFirst it_SeekToLast it_Seek it_Next it_Prev Merged_Iterator];
      unfold step_merged; cbn [it_step]; by rewrite E.
  - destruct (merging_simulates m c Hi) as (H1 & H2 & H3 & H4). split_and!; try done. intros op c' Hop.
    destruct (H4 op c' Hop) as (m' & E & Hm'). exists (MergedMany m'). split; [|done].
    destruct op; cbn [it_step] in *; cbn [it_SeekToFirst it_SeekToLast it_Seek it_Next it_Prev Merged_Iterator];
      unfold step_merged; cbn [it_step]; by rewrite E.
Qed.

Lemma merging_iterates its :
  length its = length kvss ->
  (forall i it l, its !! i = Some it -> kvss !! i = Some l -> iterates_at it l None) ->
  iterates_at (NewMergingIterator its) kvs None.
Proof.
  intros Hlen Hits. exists merged_at. split; [apply merged_simulates|]. unfold NewMergingIterator.
  destruct its as [|it [|it2 its]]; cbn [merged_at].
  - assert (kvs = []) as ->.
    { destruct kvs as [|p l] eqn:E; [done|]. destruct (proj1 (m_in _ _ Hm p)) as (j & x & Hj & _); [by left|].
      by destruct kvss. }
    apply empty_iterates.
  - destruct kvss as [|l [|? ?]] eqn:E; try done. assert (kvs = l) as ->; [|by apply (Hits 0%nat)].
    apply ascending_eq; [apply Hm|by apply (m_children _ _ Hm 0%nat)|]. intros p. rewrite (m_in _ _ Hm).
    split; [intros ([|j] & x & Hj & Hp); [by injection Hj as <-|done]|]. intros Hp. by exists 0%nat, l.
  - split; [done|]. exists (fun _ _ => None). split; [rewrite <- Hlen; exact (length_map _ (it :: it2 :: its))|].
    intros i w l Hw Hl. change (map (fun it => NewWrapper (Some it)) (it :: it2 :: its) !! i = Some w) in Hw. rewrite list_lookup_fmap in Hw.
    destruct ((it :: it2 :: its) !! i) as [x|] eqn:Ex; [|done]. injection Hw as <-.
    apply Update_wraps. by apply (Hits i).
Qed.
End merged.

(** C27. Merging.  Over children that iterate over ascending lists with no key in
    common, the merging iterator is a cursor in their merge: any sequence of seeks
    and of steps in both directions at valid positions, turning around included, is
    defined and shows the pair the cursor of the merged list is at. *)
Theorem merging_iterator_merges `{C : Comparator} `{!ComparatorLaws C} {I} `{Iterator I}
    (its : list I) kvss kvs ops cs :
  length its = length kvss ->
  (forall i it l, its !! i = Some it -> kvss !! i = Some l -> iterates_at it l None) ->
  merge_of kvss kvs -> cursor_run kvs None ops = Some cs ->
  it_run (NewMergingIterator its) ops = Ok (map (at_cursor kvs) cs).
Proof. intros Hlen Hits Hm Hr. eapply iterates_run; [by eapply merging_iterates|done]. Qed.

(** Three blocks. *)
Definition demo_lists : list (list (bytes * bytes)) :=
  [[([x02], [x61]); ([x05], [x62])]; []; [([x01], [x63]); ([x03], [x64]); ([x06], [x65])]].

Definition demo_merged : list (bytes * bytes) :=
  [([x01], [x63]); ([x02], [x61]); ([x03], [x64]); ([x05], [x62]); ([x06], [x65])].

Lemma demo_merge : merge_of demo_lists demo_merged.
Proof.
  split.
  - by apply ascending_b_ok.
  - intros [|[|[|j]]] l [= <-]; by apply ascending_b_ok.
  - intros p. split.
    + intros Hp. assert (Hc : In p (concat demo_lists)).
      { apply list_elem_of_In in Hp. cbn in Hp |- *. tauto. }
      apply in_concat in Hc as (l & Hl & Hp'). apply list_elem_of_In, list_elem_of_lookup in Hl as [j Hl].
      exists j, l. split; [done|]. by apply list_elem_of_In.
    + intros (j & l & Hl & Hp). destruct j as [|[|[|j]]]; [injection Hl as <-..|done];
        apply list_elem_of_In; apply list_elem_of_In in Hp; cbn in Hp |- *; tauto.
  - intros i j l l' p q Hij Hl Hl' Hp Hq.
    destruct i as [|[|[|i]]], j as [|[|[|j]]]; try done; injection Hl as <-; injection Hl' as <-;
      repeat (apply elem_of_cons in Hp as [->|Hp]; [
        repeat (apply elem_of_cons in Hq as [->|Hq]; [done|]); by apply elem_of_nil in Hq|]);
      by apply elem_of_nil in Hp.
Qed.

Lemma merging_iterator_merges_witness :
  let its := map (fun l => Block_NewIterator (NewBlock (BlockBuilder_Finish (build 2 l)).2)) demo_lists in
  it_run (NewMergingIterator its) [OpSeek [x03]; OpPrev; OpNext; OpNext; OpSeekToLast; OpPrev] =
  Ok [Some ([x03], [x64]); Some ([x02], [x61]); Some ([x03], [x64]); Some ([x05], [x62]);
      Some ([x06], [x65]); Some ([x05], [x62])].
Proof.
  intros its. rewrite (merging_iterator_merges its demo_lists demo_merged _
    [Some 2%nat; Some 1%nat; Some 2%nat; Some 3%nat; Some 4%nat; Some 3%nat]); [done|done| |exact demo_merge|done].
  intros i it l Hit Hl. unfold its in Hit. rewrite list_lookup_fmap, Hl in Hit. injection Hit as <-.
  apply built_iterates; [lia|by apply (m_children _ _ demo_merge i)|].
  destruct i as [|[|[|i]]]; [injection Hl as <-; by vm_compute..|done].
Defined.
