(* ===== verification/FilterBlock.v ===== *)
(** * Filter blocks

    Models [cpp/leveldb/table/filter_block.h] and [cpp/leveldb/table/filter_block.cc]:
    one filter per 2 KB of the file, over the keys of the data blocks that start
    there. *)
From S2P Require Import Prelude Coding Bloom.

Definition kFilterBaseLg : Z := 11.
Definition kFilterBase : Z := 1 ≪ kFilterBaseLg.

(** ** The builder *)

Record FilterBlockBuilder := MkFilterBuilder {
  keys_ : bytes;
  start_ : list Z;
  result_ : bytes;
  filter_offsets_ : list Z
}.

Definition NewFilterBlockBuilder : FilterBlockBuilder := MkFilterBuilder [] [] [] [].

Section builder.
Context `{policy_ : FilterPolicy}.

(** [tmp_keys_]: the keys between consecutive starts. *)
Fixpoint tmp_keys (keys : bytes) (start : list Z) : list bytes :=
  match start with
  | i :: ((j :: _) as rest) => slice keys i j :: tmp_keys keys rest
  | _ => []
  end.

Definition GenerateFilter (b : FilterBlockBuilder) : FilterBlockBuilder :=
  match start_ b with
  | [] => MkFilterBuilder (keys_ b) (start_ b) (result_ b) (filter_offsets_ b ++ [u32 (size (result_ b))])
  | _ =>
      let start := start_ b ++ [size (keys_ b)] in
      MkFilterBuilder [] []
        (fp_CreateFilter (tmp_keys (keys_ b) start) (result_ b))
        (filter_offsets_ b ++ [u32 (size (result_ b))])
  end.

(** The [while] loop runs once per missing filter. *)
Definition StartBlock (b : FilterBlockBuilder) (block_offset : Z) : FilterBlockBuilder :=
  let filter_index := block_offset / kFilterBase in
  Nat.iter (Z.to_nat filter_index - length (filter_offsets_ b)) GenerateFilter b.

Definition AddKey (b : FilterBlockBuilder) (key : bytes) : FilterBlockBuilder :=
  MkFilterBuilder (keys_ b ++ key) (start_ b ++ [size (keys_ b)]) (result_ b) (filter_offsets_ b).

Definition FilterBlock_Finish (b : FilterBlockBuilder) : FilterBlockBuilder * bytes :=
  let b := match start_ b with [] => b | _ => GenerateFilter b end in
  let array_offset := u32 (size (result_ b)) in
  let result := foldl PutFixed32 (result_ b) (filter_offsets_ b) in
  let result := PutFixed32 result array_offset ++ [byte_of_Z kFilterBaseLg] in
  (MkFilterBuilder (keys_ b) (start_ b) result (filter_offsets_ b), result).
End builder.

(** ** The reader *)

(** [data_] and [offset_] are the block and a position in it; [num_] is 0 when they
    are not set. *)
Record FilterBlockReader := MkFilterReader {
  fr_data : bytes;
  fr_offset : Z;
  num_ : Z;
  base_lg_ : Z
}.

Section reader.
Context `{policy_ : FilterPolicy}.

(** [base_lg_] is a [char] widened to [size_t]. *)
Definition NewFilterBlockReader (contents : bytes) : FilterBlockReader :=
  let n := size contents in
  if n <? 5 then MkFilterReader [] 0 0 0
  else
    let base_lg := u64 (swrap 8 (byte_at contents (Z.to_nat (n - 1)))) in
    let last_word := DecodeFixed32 (drop (Z.to_nat (n - 5)) contents) in
    if last_word >? n - 5 then MkFilterReader [] 0 0 base_lg
    else MkFilterReader contents last_word ((n - 5 - last_word) / 4) base_lg.

(** A shift by the width of the type or more is undefined. *)
Definition FilterBlock_KeyMayMatch (r : FilterBlockReader) (block_offset : Z) (key : bytes) : res bool :=
  if 64 <=? base_lg_ r then Undefined
  else
    let index := block_offset ≫ base_lg_ r in
    if index <? num_ r then
      let start := DecodeFixed32 (drop (Z.to_nat (fr_offset r + index * 4)) (fr_data r)) in
      let limit := DecodeFixed32 (drop (Z.to_nat (fr_offset r + index * 4 + 4)) (fr_data r)) in
      if (start <=? limit) && (limit <=? fr_offset r) then
        Ok (fp_KeyMayMatch key (slice (fr_data r) start limit))
      else if start =? limit then Ok false
      else Ok true
    else Ok true.
End reader.

Lemma KeyMayMatch_defined `{policy_ : FilterPolicy} r block_offset key :
  base_lg_ r < 64 -> exists b, FilterBlock_KeyMayMatch r block_offset key = Ok b.
Proof.
  intros Hlg. unfold FilterBlock_KeyMayMatch. destruct (Z.leb_spec 64 (base_lg_ r)); [lia|].
  repeat match goal with |- context [if ?b then _ else _] => destruct b end; eauto.
Qed.

(** ** The groups of keys behind the filters *)

Section groups.
Context `{F : FilterPolicy} {ok : list bytes -> Prop} `{!FilterPolicyLaws F ok}.

(** The filter of a group; a group without keys has none. *)
Definition group_filter (ks : list bytes) : bytes :=
  match ks with [] => [] | _ => fp_CreateFilter ks [] end.

Fixpoint starts (base : Z) (ks : list bytes) : list Z :=
  match ks with [] => [] | k :: ks => base :: starts (base + size k) ks end.

Definition filters (gs : list (list bytes)) : bytes := concat (map group_filter gs).

Definition offsets (gs : list (list bytes)) : list Z :=
  map (fun i => u32 (size (filters (take i gs)))) (List.seq 0 (length gs)).

(** The builder has made the filters of [gs] and holds the keys [ps]. *)
Definition holds_groups (b : FilterBlockBuilder) (gs : list (list bytes)) (ps : list bytes) : Prop :=
  keys_ b = concat ps /\ start_ b = starts 0 ps /\ result_ b = filters gs /\ filter_offsets_ b = offsets gs.

Lemma starts_app base ks k :
  starts base (ks ++ [k]) = starts base ks ++ [base + size (concat ks)].
Proof.
  revert base. induction ks as [|k' ks IH]; intros base; cbn [starts app concat].
  - cbn. f_equal. unfold size. cbn. lia.
  - rewrite IH, size_app. cbn. do 3 f_equal. lia.
Qed.

Lemma tmp_keys_starts pre ks :
  tmp_keys (pre ++ concat ks) (starts (size pre) ks ++ [size pre + size (concat ks)]) = ks.
Proof.
  revert pre. induction ks as [|k ks IH]; intros pre; [done|].
  cbn [starts concat app]. specialize (IH (pre ++ k)). rewrite size_app, <- app_assoc in IH.
  rewrite size_app. replace (size pre + (size k + size (concat ks))) with (size pre + size k + size (concat ks)) by lia.
  destruct ks as [|k' ks].
  - cbn [starts app concat tmp_keys]. rewrite (slice_app pre k []); [done|done|].
    unfold size. cbn. lia.
  - cbn [starts app] in *. cbn [tmp_keys]. rewrite slice_app by done. f_equal. exact IH.
Qed.

Lemma filters_app gs gs' : filters (gs ++ gs') = filters gs ++ filters gs'.
Proof. unfold filters. by rewrite map_app, concat_app. Qed.

Lemma offsets_snoc gs g : offsets (gs ++ [g]) = offsets gs ++ [u32 (size (filters gs))].
Proof.
  unfold offsets. rewrite length_app. cbn [length]. rewrite Nat.add_1_r, seq_S, map_app. cbn [map].
  f_equal.
  - apply map_ext_in. intros i Hi. apply in_seq in Hi. rewrite take_app_le by lia. done.
  - cbn [Nat.add]. by rewrite take_app_length.
Qed.

Lemma length_offsets gs : length (offsets gs) = length gs.
Proof. unfold offsets. by rewrite length_map, length_seq. Qed.

Lemma holds_new : holds_groups NewFilterBlockBuilder [] [].
Proof. done. Qed.

Lemma holds_generate b gs ps : holds_groups b gs ps -> holds_groups (GenerateFilter b) (gs ++ [ps]) [].
Proof.
  intros (Hk & Hs & Hr & Ho). unfold GenerateFilter. rewrite Hs. destruct ps as [|k ps].
  - cbn [starts]. split_and!; cbn [keys_ start_ result_ filter_offsets_]; try done.
    + rewrite Hr, filters_app. unfold filters at 3. cbn. by rewrite app_nil_r.
    + by rewrite Ho, offsets_snoc, Hr.
  - change (match starts 0 (k :: ps) with [] => ?x | _ => ?y end) with y.
    split_and!; cbn [keys_ start_ result_ filter_offsets_]; try done.
    + rewrite fp_append, Hr, filters_app. f_equal. unfold filters. cbn [map concat group_filter].
      rewrite app_nil_r, Hk. f_equal. apply (tmp_keys_starts [] (k :: ps)).
    + by rewrite Ho, offsets_snoc, Hr.
Qed.

Lemma holds_add b gs ps k : holds_groups b gs ps -> holds_groups (AddKey b k) gs (ps ++ [k]).
Proof.
  intros (Hk & Hs & Hr & Ho). split_and!; cbn; try done.
  - rewrite Hk, concat_app. cbn. by rewrite app_nil_r.
  - by rewrite Hs, Hk, starts_app.
Qed.

Lemma holds_start b gs ps off :
  holds_groups b gs ps ->
  holds_groups (StartBlock b off)
    (gs ++ match Z.to_nat (off / kFilterBase) - length gs with O => [] | S n => ps :: replicate n [] end)%nat
    (match Z.to_nat (off / kFilterBase) - length gs with O => ps | S _ => [] end)%nat.
Proof.
  intros Hb. unfold StartBlock. pose proof Hb as (_ & _ & _ & Ho). rewrite Ho, length_offsets.
  destruct (Z.to_nat (off / kFilterBase) - length gs)%nat as [|n]; [by rewrite app_nil_r|].
  induction n as [|n IH].
  - cbn. by apply holds_generate.
  - cbn [Nat.iter] in *. apply holds_generate in IH. cbn [Nat.iter nat_rect] in IH |- *.
    rewrite <- app_assoc in IH. cbn [app] in IH. by rewrite <- replicate_cons_app in IH.
Qed.

(** *** Which keys a filter covers *)

(** The keys of the blocks that start in the [i]-th 2 KB of the file. *)
Definition keys_at (blocks : list (Z * list bytes)) (i : nat) : list bytes :=
  concat (map snd (List.filter (fun b => Z.to_nat (b.1 / kFilterBase) =? i)%nat blocks)).

(** [StartBlock AddKey*] for each block. *)
Definition add_block (b : FilterBlockBuilder) (block : Z * list bytes) : FilterBlockBuilder :=
  foldl AddKey (StartBlock b block.1) block.2.

Fixpoint offsets_ascend (last : Z) (blocks : list (Z * list bytes)) : Prop :=
  match blocks with [] => True | b :: blocks => last <= b.1 /\ offsets_ascend b.1 blocks end.

Lemma keys_at_snoc blocks o ks i :
  keys_at (blocks ++ [(o, ks)]) i =
    keys_at blocks i ++ if (Z.to_nat (o / kFilterBase) =? i)%nat then ks else [].
Proof.
  unfold keys_at. rewrite List.filter_app, map_app, concat_app. f_equal. cbn.
  destruct (_ =? i)%nat; [apply app_nil_r|done].
Qed.

Lemma holds_add_all ks b gs ps : holds_groups b gs ps -> holds_groups (foldl AddKey b ks) gs (ps ++ ks).
Proof.
  revert b ps. induction ks as [|k ks IH]; intros b ps Hb; cbn [foldl]; [by rewrite app_nil_r|].
  rewrite (app_assoc ps [k] ks : ps ++ k :: ks = _). apply IH, holds_add, Hb.
Qed.

(** The builder after the blocks, the last of which starts at [last]. *)
Definition after_blocks (b : FilterBlockBuilder) (blocks : list (Z * list bytes)) (last : Z) : Prop :=
  let m := Z.to_nat (last / kFilterBase) in
  holds_groups b (map (keys_at blocks) (List.seq 0 m)) (keys_at blocks m) /\
  forall i, (m < i)%nat -> keys_at blocks i = [].

Lemma after_add_block b blocks last o ks :
  0 <= last <= o -> after_blocks b blocks last ->
  after_blocks (add_block b (o, ks)) (blocks ++ [(o, ks)]) o.
Proof.
  intros Ho [Hb Hnil]. unfold after_blocks, add_block. cbn [fst snd].
  apply (holds_start _ _ _ o) in Hb. rewrite length_map, length_seq in Hb.
  set (m := Z.to_nat (last / kFilterBase)) in *. set (m' := Z.to_nat (o / kFilterBase)) in *.
  assert (Hm : (m <= m')%nat).
  { unfold m, m'. apply Z2Nat.inj_le; [apply Z.div_pos; [lia|done]..|]. apply Z.div_le_mono; [done|lia]. }
  split.
  2: { intros i Hi. rewrite keys_at_snoc. fold m'. rewrite Hnil by lia. by destruct (Nat.eqb_spec m' i); [lia|]. }
  assert (Hgs : map (keys_at (blocks ++ [(o, ks)])) (List.seq 0 m') = map (keys_at blocks) (List.seq 0 m')).
  { apply map_ext_in. intros i Hi. apply in_seq in Hi. rewrite keys_at_snoc. fold m'.
    destruct (Nat.eqb_spec m' i); [lia|]. apply app_nil_r. }
  rewrite Hgs, keys_at_snoc. fold m'. rewrite Nat.eqb_refl. apply holds_add_all.
  destruct (m' - m)%nat as [|n] eqn:En.
  - assert (m' = m) as -> by lia. by rewrite app_nil_r in Hb.
  - rewrite (Hnil m') by lia. replace m' with (m + S n)%nat by lia. rewrite seq_app, map_app. cbn [Nat.add List.seq map].
    replace (map (keys_at blocks) (List.seq (S m) n)) with (replicate n (@nil bytes)); [done|].
    clear -Hnil. apply list_eq. intros i. rewrite list_lookup_fmap. destruct (decide (i < n)%nat) as [Hi|Hi].
    + rewrite lookup_replicate_2 by done. rewrite lookup_seq_lt by done. cbn. by rewrite Hnil by lia.
    + rewrite !(lookup_ge_None_2); [done|rewrite length_seq; lia|rewrite length_replicate; lia].
Qed.

Lemma after_all blocks : forall b done last,
  0 <= last -> offsets_ascend last blocks -> after_blocks b done last ->
  exists last', 0 <= last' /\ after_blocks (foldl add_block b blocks) (done ++ blocks) last'.
Proof.
  induction blocks as [|[o ks] blocks IH]; intros b dn last Hl Ha Hb; cbn [foldl].
  { exists last. by rewrite app_nil_r. }
  destruct Ha as [Ho Ha]. cbn [fst] in *. apply (after_add_block _ _ _ o ks) in Hb; [|lia].
  destruct (IH _ _ o ltac:(lia) Ha Hb) as (last' & Hl' & H'). exists last'. split; [done|].
  by rewrite <- app_assoc in H'.
Qed.

(** *** Reading the filters back *)

Definition filter_contents (gs : list (list bytes)) : bytes :=
  filters gs ++ concat (map EncodeFixed32 (offsets gs ++ [u32 (size (filters gs))])) ++ [byte_of_Z kFilterBaseLg].

Lemma filter_Finish_contents b gs ps :
  holds_groups b gs ps ->
  (FilterBlock_Finish b).2 = filter_contents (match ps with [] => gs | _ => gs ++ [ps] end).
Proof.
  intros Hb. unfold FilterBlock_Finish.
  assert (Hb' : holds_groups (match start_ b with [] => b | _ => GenerateFilter b end)
    (match ps with [] => gs | _ => gs ++ [ps] end) []).
  { pose proof Hb as (_ & -> & _). destruct ps; [done|]. cbn [starts]. by apply holds_generate. }
  destruct Hb' as (_ & _ & Hr & Ho). cbn [snd]. rewrite Hr, Ho. unfold filter_contents, PutFixed32.
  rewrite foldl_PutFixed32, map_app, concat_app. cbn [map concat]. by rewrite app_nil_r, <- !app_assoc.
Qed.

Lemma size_filter_contents gs :
  size (filter_contents gs) = size (filters gs) + Z.of_nat (length gs) * 4 + 5.
Proof.
  unfold filter_contents. rewrite !size_app, size_fixed32_array, length_app, length_offsets, size_cons, size_nil.
  cbn [length]. lia.
Qed.

Lemma offsets_at gs i g :
  gs !! i = Some g -> (offsets gs ++ [u32 (size (filters gs))]) !! i = Some (u32 (size (filters (take i gs)))) /\
  (offsets gs ++ [u32 (size (filters gs))]) !! S i = Some (u32 (size (filters (take (S i) gs)))).
Proof.
  intros Hi. pose proof (lookup_lt_Some _ _ _ Hi) as Hlt.
  assert (Hat : forall j, (j < length gs)%nat -> offsets gs !! j = Some (u32 (size (filters (take j gs))))).
  { intros j Hj. unfold offsets. rewrite list_lookup_fmap, lookup_seq_lt by done. done. }
  split; [by apply lookup_app_l_Some, Hat|]. destruct (decide (S i < length gs)%nat).
  - by apply lookup_app_l_Some, Hat.
  - rewrite lookup_app_r by (rewrite length_offsets; lia). rewrite length_offsets.
    replace (S i - length gs)%nat with O by lia. cbn. by rewrite take_ge by lia.
Qed.

Lemma reader_new gs :
  size (filter_contents gs) < 2 ^ 32 ->
  NewFilterBlockReader (filter_contents gs) =
    MkFilterReader (filter_contents gs) (size (filters gs)) (Z.of_nat (length gs)) 11.
Proof.
  intros Hsz. rewrite size_filter_contents in Hsz. pose proof (size_nonneg (filters gs)) as Hfs.
  set (S0 := size (filters gs)) in *. set (lst := offsets gs ++ [u32 S0]) in *.
  assert (Hl : length lst = S (length gs)) by (unfold lst; rewrite length_app, length_offsets; cbn; lia).
  assert (Hn : size (filter_contents gs) = S0 + Z.of_nat (length gs) * 4 + 5) by apply size_filter_contents.
  unfold NewFilterBlockReader. rewrite Hn. zcase; [lia|].
    assert (Hbyte : byte_at (filter_contents gs) (Z.to_nat (S0 + Z.of_nat (length gs) * 4 + 5 - 1)) = 11).
    { unfold byte_at, filter_contents. fold S0 lst. rewrite app_assoc.
      replace (Z.to_nat (S0 + Z.of_nat (length gs) * 4 + 5 - 1))
        with (length (filters gs ++ concat (map EncodeFixed32 lst))).
      - by rewrite nth_middle.
      - pose proof (size_fixed32_array lst) as Hs. rewrite Hl in Hs. rewrite length_app. revert Hs. unfold S0, size. lia. }
    assert (Hword : DecodeFixed32 (drop (Z.to_nat (S0 + Z.of_nat (length gs) * 4 + 5 - 5)) (filter_contents gs)) = S0).
    { unfold filter_contents. fold S0 lst.
      replace (Z.to_nat (S0 + Z.of_nat (length gs) * 4 + 5 - 5)) with (length (filters gs) + length gs * 4)%nat
        by (unfold S0, size; lia).
      rewrite drop_app_add, (DecodeFixed32_array lst (length gs) (u32 S0)).
      - unfold wrap. rewrite Zmod_mod. apply Z.mod_small. lia.
      - unfold lst. rewrite lookup_app_r by (rewrite length_offsets; lia). by rewrite length_offsets, Nat.sub_diag. }
    rewrite Hbyte, Hword. rewrite Z.gtb_ltb. destruct (Z.ltb_spec (S0 + Z.of_nat (length gs) * 4 + 5 - 5) S0); [lia|].
    f_equal. zdiv.
Qed.

Lemma reader_group gs i g o key :
  size (filter_contents gs) < 2 ^ 32 -> 0 <= o -> Z.to_nat (o / kFilterBase) = i -> gs !! i = Some g ->
  FilterBlock_KeyMayMatch (NewFilterBlockReader (filter_contents gs)) o key = Ok (fp_KeyMayMatch key (group_filter g)).
Proof.
  intros Hsz Ho Hi Hg. pose proof (reader_new gs Hsz) as Hr. rewrite size_filter_contents in Hsz. pose proof (size_nonneg (filters gs)) as Hfs.
  pose proof (lookup_lt_Some _ _ _ Hg) as Hlt. destruct (offsets_at gs i g Hg) as [H1 H2].
  set (S0 := size (filters gs)) in *. set (lst := offsets gs ++ [u32 S0]) in *.
  assert (Hl : length lst = S (length gs)) by (unfold lst; rewrite length_app, length_offsets; cbn; lia).
  assert (Hn : size (filter_contents gs) = S0 + Z.of_nat (length gs) * 4 + 5) by apply size_filter_contents.
  rewrite Hr. unfold FilterBlock_KeyMayMatch. cbn [base_lg_ num_ fr_offset fr_data]. cbn [Z.leb Z.compare Pos.compare Pos.compare_cont].
  change kFilterBase with (2 ^ 11) in Hi. rewrite Z.shiftr_div_pow2 by lia.
  assert (Hoi : o / 2 ^ 11 = Z.of_nat i) by (pose proof (Z.div_pos o (2 ^ 11) Ho ltac:(lia)); lia).
  rewrite Hoi. destruct (Z.ltb_spec (Z.of_nat i) (Z.of_nat (length gs))); [|lia].
  assert (Hread : forall j v, lst !! j = Some v -> DecodeFixed32 (drop (Z.to_nat (S0 + Z.of_nat j * 4)) (filter_contents gs)) = u32 v).
  { intros j v Hj. unfold filter_contents. fold S0 lst. replace (Z.to_nat (S0 + Z.of_nat j * 4)) with (length (filters gs) + j * 4)%nat
      by (unfold S0, size; lia). rewrite drop_app_add. by apply DecodeFixed32_array. }
  rewrite (Hread _ _ H1). replace (S0 + Z.of_nat i * 4 + 4) with (S0 + Z.of_nat (S i) * 4) by lia. rewrite (Hread _ _ H2).
  rewrite (take_S_r _ _ _ Hg), filters_app, size_app.
  assert (Hsplit : filters gs = filters (take i gs) ++ group_filter g ++ filters (drop (S i) gs)).
  { rewrite <- (take_drop_middle _ _ _ Hg) at 1. by rewrite filters_app. }
  assert (Hone : filters [g] = group_filter g) by (unfold filters; cbn; apply app_nil_r). rewrite Hone.
  assert (HS0 : S0 = size (filters (take i gs)) + size (group_filter g) + size (filters (drop (S i) gs))).
  { unfold S0. rewrite Hsplit at 1. rewrite !size_app. lia. }
  pose proof (size_nonneg (filters (take i gs))). pose proof (size_nonneg (group_filter g)).
  pose proof (size_nonneg (filters (drop (S i) gs))).
  rewrite !(wrap_id 32) by (rewrite ?wrap_id; unfold fits; lia).
  destruct (Z.leb_spec (size (filters (take i gs))) (size (filters (take i gs)) + size (group_filter g))); [|lia].
  destruct (Z.leb_spec (size (filters (take i gs)) + size (group_filter g)) S0); [|lia]. cbn [andb]. do 2 f_equal.
  unfold filter_contents. rewrite Hsplit at 1. rewrite <- !app_assoc. by apply slice_app.
Qed.
End groups.

Lemma filter_block_sound `{F : FilterPolicy} {ok : list bytes -> Prop} `{!FilterPolicyLaws F ok}
    (blocks : list (Z * list bytes)) o ks key :
  offsets_ascend 0 blocks -> (forall i, ok (keys_at blocks i)) ->
  (o, ks) ∈ blocks -> key ∈ ks ->
  let contents := (FilterBlock_Finish (foldl add_block NewFilterBlockBuilder blocks)).2 in
  size contents < 2 ^ 32 ->
  FilterBlock_KeyMayMatch (NewFilterBlockReader contents) o key = Ok true.
Proof.
  intros Ha Hok Ho Hkey contents Hsz.
  destruct (after_all blocks NewFilterBlockBuilder [] 0) as (last & Hlast & Hb & Hnil); [done|done| |].
  { split; [exact holds_new|done]. }
  cbn [app] in *. set (m := Z.to_nat (last / kFilterBase)) in *. set (i := Z.to_nat (o / kFilterBase)).
  assert (Hin : key ∈ keys_at blocks i).
  { apply list_elem_of_In. unfold keys_at. apply in_concat. exists ks. split; [|by apply list_elem_of_In].
    apply in_map_iff. exists (o, ks). split; [done|]. apply filter_In. split; [by apply list_elem_of_In|].
    by apply Nat.eqb_eq. }
  assert (Hi : (i <= m)%nat).
  { apply Nat.nlt_ge. intros Hlt. rewrite (Hnil i Hlt) in Hin. by apply elem_of_nil in Hin. }
  assert (Ho0 : 0 <= o).
  { clear -Ha Ho. revert Ha. generalize 0 as l0. induction blocks as [|b blocks IH]; intros l0 Ha; [by apply elem_of_nil in Ho|].
    destruct Ha as [Hb Ha]. apply elem_of_cons in Ho as [<-|Ho]; [exact Hb|]. specialize (IH Ho _ Ha). lia. }
  unfold contents in *. rewrite (filter_Finish_contents _ _ _ Hb) in *.
  set (gs := match keys_at blocks m with [] => _ | _ => _ end) in *.
  assert (Hgi : gs !! i = Some (keys_at blocks i)).
  { assert (Hbase : forall j, (j < m)%nat -> map (keys_at blocks) (List.seq 0 m) !! j = Some (keys_at blocks j)).
    { intros j Hj. by rewrite list_lookup_fmap, lookup_seq_lt. }
    destruct (Nat.eq_dec i m) as [->|Hne].
    - unfold gs. destruct (keys_at blocks m) as [|k l] eqn:E; [by apply elem_of_nil in Hin|].
      apply list_lookup_middle. by rewrite length_map, length_seq.
    - unfold gs. destruct (keys_at blocks m); [apply Hbase; lia|]. apply lookup_app_l_Some, Hbase. lia. }
  rewrite (reader_group gs i (keys_at blocks i)) by done. f_equal.
  assert (E : group_filter (keys_at blocks i) = fp_CreateFilter (keys_at blocks i) []).
  { destruct (keys_at blocks i); [by apply elem_of_nil in Hin|done]. }
  rewrite E. by apply fp_match.
Qed.

(** The base of a finished block is 2 KB. *)
Lemma filter_block_base `{F : FilterPolicy} {ok : list bytes -> Prop} `{!FilterPolicyLaws F ok} blocks :
  offsets_ascend 0 blocks ->
  let contents := (FilterBlock_Finish (foldl add_block NewFilterBlockBuilder blocks)).2 in
  size contents < 2 ^ 32 -> base_lg_ (NewFilterBlockReader contents) = 11.
Proof.
  intros Ha contents Hsz. destruct (after_all blocks NewFilterBlockBuilder [] 0) as (last & Hlast & Hb & _); [done|done| |].
  { split; [exact holds_new|done]. }
  unfold contents in *. rewrite (filter_Finish_contents _ _ _ Hb) in *. by rewrite reader_new.
Qed.

Lemma keys_at_length blocks i : (length (keys_at blocks i) <= length (concat (map snd blocks)))%nat.
Proof.
  unfold keys_at. induction blocks as [|b blocks IH]; [done|]. cbn [List.filter].
  destruct (_ =? i)%nat; cbn [map concat]; rewrite ?length_app; lia.
Qed.

(** C37. A filter block never hides a key.  Whatever the offsets the data blocks start
    at, as long as they do not decrease, the reader of the finished block answers
    [true] for every key at the offset of its block: blocks that start in the same
    2 KB share a filter, and stretches without a block get empty ones. *)
Theorem filter_block_no_false_negative `{F : FilterPolicy} {ok : list bytes -> Prop} `{!FilterPolicyLaws F ok}
    (blocks : list (Z * list bytes)) o ks key :
  offsets_ascend 0 blocks -> (forall i, ok (keys_at blocks i)) ->
  (o, ks) ∈ blocks -> key ∈ ks ->
  let contents := (FilterBlock_Finish (foldl add_block NewFilterBlockBuilder blocks)).2 in
  size contents < 2 ^ 32 ->
  FilterBlock_KeyMayMatch (NewFilterBlockReader contents) o key = Ok true.
Proof. apply filter_block_sound. Qed.

(** Blocks at offsets 0, 100 and 9000: the first two share a filter. *)
Lemma filter_block_no_false_negative_witness :
  let F := BloomPolicy (NewBloomFilterPolicy 10) in
  let blocks := [(0, [str "foo"; str "bar"]); (100, [str "box"]); (9000, [str "hello"])] in
  let contents := (FilterBlock_Finish (foldl add_block NewFilterBlockBuilder blocks)).2 in
  FilterBlock_KeyMayMatch (NewFilterBlockReader contents) 100 (str "box") = Ok true.
Proof.
  intros F blocks contents.
  apply (filter_block_no_false_negative (F := F) blocks 100 [str "box"]).
  - by vm_compute.
  - intros i. do 5 (destruct i as [|i]; [by vm_compute|]). by vm_compute.
  - right. left.
  - left.
  - by vm_compute.
Defined.
