(* ===== verification/Format.v ===== *)
(** * The format of table files

    Models [cpp/leveldb/table/format.h] and [cpp/leveldb/table/format.cc]: block
    handles, the footer, and reading a stored block with its checksum.  The random
    access file is the interface of [leveldb/env.h], the compression library that of
    [port/port_stdcxx.h]. *)
From S2P Require Import Prelude Coding Crc32c Status LogWriter.

(** ** Block handles *)

Record BlockHandle := MkHandle { bh_offset : Z; bh_size : Z }.

Definition kMaxEncodedLength : Z := 10 + 10.

(** The constructor: both fields are all ones until they are set. *)
Definition NewBlockHandle : BlockHandle := MkHandle (2 ^ 64 - 1) (2 ^ 64 - 1).

Definition BlockHandle_EncodeTo (h : BlockHandle) (dst : bytes) : bytes :=
  PutVarint64 (PutVarint64 dst (bh_offset h)) (bh_size h).

(** [inr] is the status of a failure; no caller uses the handle after one. *)
Definition BlockHandle_DecodeFrom (input : bytes) : (BlockHandle * bytes) + Status :=
  match GetVarint64 input with
  | Some (offset, input) =>
      match GetVarint64 input with
      | Some (size, input) => inl (MkHandle offset size, input)
      | None => inr (Status_Corruption (str "bad block handle") [])
      end
  | None => inr (Status_Corruption (str "bad block handle") [])
  end.

(** ** The footer *)

Record Footer := MkFooter { metaindex_handle_ : BlockHandle; index_handle_ : BlockHandle }.

Definition kEncodedLength : Z := 2 * kMaxEncodedLength + 8.
Definition kTableMagicNumber : Z := 0xdb4775248b80fb57.

(** [std::string::resize]: cut, or filled up with zeros. *)
Definition resize (s : bytes) (n : Z) : bytes :=
  take (Z.to_nat n) s ++ replicate (Z.to_nat n - length s) x00.

Definition Footer_EncodeTo (f : Footer) (dst : bytes) : bytes :=
  let dst := BlockHandle_EncodeTo (metaindex_handle_ f) dst in
  let dst := BlockHandle_EncodeTo (index_handle_ f) dst in
  let dst := resize dst (2 * kMaxEncodedLength) in
  let dst := PutFixed32 dst (Z.land kTableMagicNumber 0xffffffff) in
  PutFixed32 dst (u32 (kTableMagicNumber ≫ 32)).

(** The magic number is read at its place without a look at the size of the input. *)
Definition Footer_DecodeFrom (input : bytes) : res ((Footer * bytes) + Status) :=
  let magic_ptr := drop (Z.to_nat (kEncodedLength - 8)) input in
  if size input <? kEncodedLength then Undefined
  else
    let magic_lo := DecodeFixed32 magic_ptr in
    let magic_hi := DecodeFixed32 (drop 4 magic_ptr) in
    let magic := Z.lor (magic_hi ≪ 32) magic_lo in
    if negb (magic =? kTableMagicNumber) then
      Ok (inr (Status_Corruption (str "not an sstable (bad magic number)") []))
    else
      match BlockHandle_DecodeFrom input with
      | inr s => Ok (inr s)
      | inl (metaindex, input') =>
          match BlockHandle_DecodeFrom input' with
          | inr s => Ok (inr s)
          | inl (index, _) => Ok (inl (MkFooter metaindex index, drop 8 magic_ptr))
          end
      end.

(** ** Reading a block *)

(** [Read(offset, n, &contents, buf)]: what was read, the status, and whether it was
    placed in [buf].  Reading does not change the file. *)
Class RandomAccessFile (F : Type) := {
  raf_Read : F -> Z -> Z -> bytes * Status * bool
}.

(** A successful read gives the bytes of the file there, all of them up to the end. *)
Class RandomAccessFileLaws (F : Type) `{RandomAccessFile F} := {
  raf_contents : F -> bytes;
  raf_Read_ok f offset n data s scratch :
    0 <= offset -> 0 <= n -> raf_Read f offset n = (data, s, scratch) -> Status_ok s = true ->
    data = take (Z.to_nat n) (drop (Z.to_nat offset) (raf_contents f))
}.

(** The compression library. *)
Class Snappy := {
  Snappy_Compress : bytes -> option bytes;
  Snappy_GetUncompressedLength : bytes -> option Z;
  (* the contents of the output buffer *)
  Snappy_Uncompress : bytes -> option bytes
}.

(** What it compresses it restores. *)
Class SnappyLaws (S : Snappy) : Prop := {
  snappy_roundtrip d c : size d < 2 ^ 32 -> Snappy_Compress d = Some c ->
    Snappy_GetUncompressedLength c = Some (size d) /\ Snappy_Uncompress c = Some d
}.

(** [port_stdcxx.h] without [HAVE_SNAPPY]. *)
Definition no_snappy : Snappy := {|
  Snappy_Compress _ := None; Snappy_GetUncompressedLength _ := None; Snappy_Uncompress _ := None
|}.

(** [enum CompressionType] *)
Definition kNoCompression : Z := 0.
Definition kSnappyCompression : Z := 1.

Definition kBlockTrailerSize : Z := 5.

Record BlockContents := MkContents { bc_data : bytes; cachable : bool; heap_allocated : bool }.

Section ReadBlock.
Context {F : Type} `{RandomAccessFile F} `{Sn : Snappy}.

(** [n + kBlockTrailerSize] is computed in [size_t]; the bytes from [n] on are read
    without another look at the size. *)
Definition ReadBlock (file : F) (verify_checksums : bool) (handle : BlockHandle)
    : res (BlockContents + Status) :=
  let n := bh_size handle in
  let '(contents, s, in_buf) := raf_Read file (bh_offset handle) (u64 (n + kBlockTrailerSize)) in
  if negb (Status_ok s) then Ok (inr s)
  else if negb (size contents =? u64 (n + kBlockTrailerSize)) then
    Ok (inr (Status_Corruption (str "truncated block read") []))
  else if size contents <? n + kBlockTrailerSize then Undefined
  else
    let data := contents in
    let crc_ok :=
      if verify_checksums then
        let crc := Unmask (DecodeFixed32 (drop (Z.to_nat (n + 1)) data)) in
        let actual := crc_Value (take (Z.to_nat (n + 1)) data) in
        actual =? crc
      else true in
    if negb crc_ok then Ok (inr (Status_Corruption (str "block checksum mismatch") []))
    else
      let type := byte_at data (Z.to_nat n) in
      let raw := take (Z.to_nat n) data in
      if type =? kNoCompression then Ok (inl (MkContents raw in_buf in_buf))
      else if type =? kSnappyCompression then
        match Snappy_GetUncompressedLength raw with
        | None => Ok (inr (Status_Corruption (str "corrupted compressed block contents") []))
        | Some ulength =>
            match Snappy_Uncompress raw with
            | None => Ok (inr (Status_Corruption (str "corrupted compressed block contents") []))
            | Some ubuf => Ok (inl (MkContents (take (Z.to_nat ulength) ubuf) true true))
            end
        end
      else Ok (inr (Status_Corruption (str "bad block type") [])).
End ReadBlock.

(** ** What is written is read back *)

Lemma BlockHandle_roundtrip h dst rest :
  fits 64 (bh_offset h) -> fits 64 (bh_size h) ->
  exists enc, BlockHandle_EncodeTo h dst = dst ++ enc /\ size enc <= kMaxEncodedLength /\
    BlockHandle_DecodeFrom (enc ++ rest) = inl (h, rest).
Proof.
  intros Ho Hs. exists (EncodeVarint64 (bh_offset h) ++ EncodeVarint64 (bh_size h)). split_and!.
  - unfold BlockHandle_EncodeTo, PutVarint64. by rewrite app_assoc.
  - rewrite size_app. pose proof (EncodeVarint64_loop_bound 9 (bh_offset h)).
    pose proof (EncodeVarint64_loop_bound 9 (bh_size h)). unfold fits in *.
    rewrite !(EncodeVarint64_fuel 9) by (simpl; lia). unfold size, kMaxEncodedLength. lia.
  - unfold BlockHandle_DecodeFrom. rewrite <- app_assoc. rewrite !GetVarint64_encode by done. by destruct h.
Qed.

Lemma resize_le s n : size s <= n -> resize s n = s ++ replicate (Z.to_nat n - length s) x00.
Proof. intros Hs. unfold resize. rewrite take_ge; [done|]. unfold size in Hs. lia. Qed.

Lemma Footer_roundtrip f :
  fits 64 (bh_offset (metaindex_handle_ f)) -> fits 64 (bh_size (metaindex_handle_ f)) ->
  fits 64 (bh_offset (index_handle_ f)) -> fits 64 (bh_size (index_handle_ f)) ->
  size (Footer_EncodeTo f []) = kEncodedLength /\
  exists rest, Footer_DecodeFrom (Footer_EncodeTo f []) = Ok (inl (f, rest)).
Proof.
  intros H1 H2 H3 H4.
  destruct (BlockHandle_roundtrip (metaindex_handle_ f) [] [] H1 H2) as (e1 & E1 & Hs1 & _).
  destruct (BlockHandle_roundtrip (index_handle_ f) e1 [] H3 H4) as (e2 & E2 & Hs2 & _).
  cbn [app] in *. unfold Footer_EncodeTo. rewrite E1, E2, resize_le by (rewrite size_app; unfold kMaxEncodedLength in *; lia).
  set (pad := replicate _ x00). unfold PutFixed32. rewrite <- !app_assoc.
  set (lo := Z.land kTableMagicNumber 4294967295). set (hi := u32 (kTableMagicNumber ≫ 32)).
  assert (Hpad : size (e1 ++ e2 ++ pad) = 40).
  { rewrite app_assoc, size_app. unfold pad, size at 2. rewrite length_replicate. rewrite size_app.
    unfold size, kMaxEncodedLength in *. rewrite length_app. lia. }
  rewrite !app_assoc, <- (app_assoc e1), <- (app_assoc e1), <- !app_assoc. rewrite (app_assoc e2), (app_assoc e1).
  set (body := e1 ++ e2 ++ pad) in *.
  assert (Hsz : size (body ++ EncodeFixed32 lo ++ EncodeFixed32 hi) = 48).
  { rewrite !size_app, !size_EncodeFixed32. lia. }
  split; [exact Hsz|]. unfold Footer_DecodeFrom. rewrite Hsz. cbn [Z.ltb Z.compare kEncodedLength kMaxEncodedLength Z.add Z.mul Pos.mul Pos.add Pos.compare Pos.compare_cont].
  replace (drop (Z.to_nat (kEncodedLength - 8)) (body ++ EncodeFixed32 lo ++ EncodeFixed32 hi))
    with (EncodeFixed32 lo ++ EncodeFixed32 hi).
  2: { rewrite drop_app_length'; [done|]. unfold size in Hpad. unfold kEncodedLength, kMaxEncodedLength. lia. }
  rewrite DecodeFixed32_encode. change (drop 4 (EncodeFixed32 lo ++ EncodeFixed32 hi)) with (EncodeFixed32 hi ++ []).
  rewrite DecodeFixed32_encode. change (negb _) with false. cbv iota.
  destruct (BlockHandle_roundtrip (metaindex_handle_ f) [] (e2 ++ pad ++ EncodeFixed32 lo ++ EncodeFixed32 hi) H1 H2)
    as (e1' & E1' & _ & D1). cbn [app] in E1'. assert (e1' = e1) as -> by congruence.
  destruct (BlockHandle_roundtrip (index_handle_ f) e1 (pad ++ EncodeFixed32 lo ++ EncodeFixed32 hi) H3 H4)
    as (e2' & E2' & _ & D2). rewrite E2 in E2'. apply app_inv_head in E2' as <-.
  unfold body. rewrite <- !app_assoc. rewrite D1, D2. eexists. by destruct f.
Qed.

(** A block as it is stored: the payload, its type and the masked checksum of both. *)
Definition stored_block (type : Z) (payload : bytes) : bytes :=
  payload ++ byte_of_Z type :: EncodeFixed32 (Mask (crc32c_ref 0 (payload ++ [byte_of_Z type]))).

Lemma size_stored_block type payload : size (stored_block type payload) = size payload + kBlockTrailerSize.
Proof. unfold stored_block. rewrite size_app, size_cons, size_EncodeFixed32. unfold kBlockTrailerSize. lia. Qed.

(** The payload stands for the contents. *)
Definition payload_of `{Sn : Snappy} (type : Z) (payload raw : bytes) : Prop :=
  (type = kNoCompression /\ payload = raw) \/
  (type = kSnappyCompression /\ Snappy_Compress raw = Some payload /\ size raw < 2 ^ 32).

(** The file holds a stored block where the handle says. *)
Definition block_at `{Sn : Snappy} (file : bytes) (h : BlockHandle) (raw : bytes) : Prop :=
  exists type payload pre post, payload_of type payload raw /\ file = pre ++ stored_block type payload ++ post /\
    h = MkHandle (size pre) (size payload).

Lemma block_at_app `{Sn : Snappy} file more h raw : block_at file h raw -> block_at (file ++ more) h raw.
Proof.
  intros (ty & payload & pre & post & Hp & -> & ->). exists ty, payload, pre, (post ++ more).
  split; [done|]. by rewrite <- !app_assoc.
Qed.

Lemma block_at_fits `{Sn : Snappy} file h raw :
  block_at file h raw -> size file < 2 ^ 63 ->
  0 <= bh_offset h /\ 0 <= bh_size h /\ bh_offset h + bh_size h + kBlockTrailerSize <= size file.
Proof.
  intros (ty & payload & pre & post & _ & -> & ->) _. cbn. rewrite !size_app, size_stored_block.
  pose proof (size_nonneg pre). pose proof (size_nonneg payload). pose proof (size_nonneg post). lia.
Qed.

(** A file whose reads succeed. *)
Definition reliable {F} `{RandomAccessFile F} (file : F) : Prop :=
  forall offset n, Status_ok (raf_Read file offset n).1.2 = true.

Lemma take_succ_app (payload : bytes) c rest :
  take (Z.to_nat (size payload + 1)) (payload ++ c :: rest) = payload ++ [c].
Proof.
  change (payload ++ c :: rest) with (payload ++ [c] ++ rest). rewrite app_assoc.
  replace (size payload + 1) with (size (payload ++ [c])) by (rewrite size_app; done). apply take_app_size.
Qed.

Lemma ReadBlock_at {F} `{RandomAccessFileLaws F} `{Sn : Snappy} `{!SnappyLaws Sn} (file : F) verify h raw :
  reliable file -> block_at (raf_contents file) h raw -> size (raf_contents file) < 2 ^ 63 ->
  exists c, ReadBlock file verify h = Ok (inl c) /\ bc_data c = raw.
Proof.
  intros Hrel Hb Hsz. pose proof (block_at_fits _ _ _ Hb Hsz) as (Hh0 & Hh1 & H2).
  destruct Hb as (ty & payload & pre & post & Hp & Hf & ->). unfold ReadBlock. cbn [bh_offset bh_size] in *.
  specialize (Hrel (size pre) (u64 (size payload + kBlockTrailerSize))).
  unfold kBlockTrailerSize in H2. assert (Hu : u64 (size payload + kBlockTrailerSize) = size payload + 5).
  { unfold kBlockTrailerSize. apply wrap_id. unfold fits. lia. }
  rewrite Hu in *. destruct (raf_Read file (size pre) (size payload + 5)) as [[data s] sc] eqn:E. cbn in Hrel. rewrite Hrel.
  apply raf_Read_ok in E; [|lia..|done].
  assert (Hdata : data = stored_block ty payload).
  { rewrite E, Hf, drop_app_size. rewrite <- (size_stored_block ty). apply take_app_size. }
  rewrite Hdata, size_stored_block. unfold kBlockTrailerSize. cbn [negb]. rewrite Z.eqb_refl, Z.ltb_irrefl. cbn [negb].
  assert (Hty : 0 <= ty < 256) by (destruct Hp as [[-> _]|[-> _]]; unfold kNoCompression, kSnappyCompression; lia).
  unfold stored_block.
  assert (Hcrc : (if verify then crc_Value (take (Z.to_nat (size payload + 1)) (stored_block ty payload)) =?
      Unmask (DecodeFixed32 (drop (Z.to_nat (size payload + 1)) (stored_block ty payload))) else true) = true).
  { destruct verify; [|done]. unfold stored_block. rewrite take_succ_app.
    set (crc := crc32c_ref 0 (payload ++ [byte_of_Z ty])).
    replace (drop (Z.to_nat (size payload + 1)) (payload ++ byte_of_Z ty :: EncodeFixed32 (Mask crc)))
      with (EncodeFixed32 (Mask crc) ++ []).
    2: { rewrite app_nil_r. change (payload ++ byte_of_Z ty :: EncodeFixed32 (Mask crc)) with
        (payload ++ [byte_of_Z ty] ++ EncodeFixed32 (Mask crc)). rewrite app_assoc.
      replace (size payload + 1) with (size (payload ++ [byte_of_Z ty])) by (rewrite size_app; done).
      by rewrite drop_app_size. }
    assert (Hc : fits 32 crc) by (apply crc32c_ref_fits; unfold fits; lia).
    rewrite DecodeFixed32_encode, (wrap_id 32) by apply Mask_fits. rewrite Unmask_Mask by done.
    rewrite crc_Value_ref. apply Z.eqb_refl. }
  fold (stored_block ty payload). rewrite Hcrc. cbn [negb].
  assert (Hbyte : byte_at (stored_block ty payload) (Z.to_nat (size payload)) = ty).
  { unfold byte_at, stored_block, size. rewrite Nat2Z.id, nth_middle. by apply Z_of_byte_of_Z_small || (rewrite byte_of_Z_small by lia). }
  rewrite Hbyte. unfold stored_block. rewrite take_app_size.
  destruct Hp as [[-> ->]|(-> & Hc & Hr)]; cbn [Z.eqb kNoCompression kSnappyCompression].
  - eexists. split; [reflexivity|done].
  - destruct (snappy_roundtrip raw payload Hr Hc) as [-> ->]. eexists. split; [reflexivity|]. cbn. apply take_size.
Qed.

(** A handle whose size is within the trailer of 2^64 passes the size check with a
    short read, and the checksum is then computed over bytes outside the buffer. *)
Lemma ReadBlock_overflow {F} `{RandomAccessFileLaws F} `{Sn : Snappy} (file : F) verify :
  reliable file -> 4 <= size (raf_contents file) -> ReadBlock file verify (MkHandle 0 (2 ^ 64 - 1)) = Undefined.
Proof.
  intros Hrel Hsz. unfold ReadBlock. cbn [bh_offset bh_size]. change (u64 (2 ^ 64 - 1 + kBlockTrailerSize)) with 4.
  specialize (Hrel 0 4). destruct (raf_Read file 0 4) as [[data s] sc] eqn:E. cbn in Hrel. rewrite Hrel.
  apply raf_Read_ok in E; [|lia..|done]. cbn [negb]. rewrite E. rewrite drop_0, size_take by lia. done.
Qed.
