(* ===== verification/TableBuilder.v ===== *)
(** * The table builder

    Models [cpp/leveldb/table/table_builder.cc]: sorted pairs are cut into data
    blocks, each stored with a checksum; an index block maps a separator at or above
    the keys of each block to its handle; filter, metaindex and footer follow. *)
From S2P Require Import Prelude Coding Bloom Comparator Crc32c Status Block LogWriter FilterBlock Format.

(** The members of [struct Options] a table depends on, without its comparator. *)
Record Options := MkOptions {
  block_size : Z;
  opt_block_restart_interval : Z;
  compression : Z;
  filter_policy : option FilterPolicy;
  paranoid_checks : bool
}.

(** [TableBuilder::Rep].  [filter_block] keeps the policy it was made with. *)
Record TableBuilder (F : Type) := MkTableBuilder {
  options : Options;
  file : F;
  offset : Z;
  status : Status;
  data_block : BlockBuilder;
  index_block : BlockBuilder;
  last_key : bytes;
  num_entries : Z;
  closed : bool;
  filter_block : option (FilterPolicy * FilterBlockBuilder);
  pending_index_entry : bool;
  pending_handle : BlockHandle
}.
Arguments MkTableBuilder {F} _ _ _ _ _ _ _ _ _ _ _ _.
Arguments options {F} _.
Arguments file {F} _.
Arguments offset {F} _.
Arguments status {F} _.
Arguments data_block {F} _.
Arguments index_block {F} _.
Arguments last_key {F} _.
Arguments num_entries {F} _.
Arguments closed {F} _.
Arguments filter_block {F} _.
Arguments pending_index_entry {F} _.
Arguments pending_handle {F} _.

Section builder.
Context `{C : Comparator} {F : Type} `{WritableFile F} `{Sn : Snappy}.
Implicit Type r : TableBuilder F.

Definition set_output r (f : F) (off : Z) (st : Status) : TableBuilder F :=
  MkTableBuilder (options r) f off st (data_block r) (index_block r) (last_key r) (num_entries r)
    (closed r) (filter_block r) (pending_index_entry r) (pending_handle r).
Definition set_data_block r (b : BlockBuilder) : TableBuilder F :=
  MkTableBuilder (options r) (file r) (offset r) (status r) b (index_block r) (last_key r) (num_entries r)
    (closed r) (filter_block r) (pending_index_entry r) (pending_handle r).
Definition set_index_block r (b : BlockBuilder) : TableBuilder F :=
  MkTableBuilder (options r) (file r) (offset r) (status r) (data_block r) b (last_key r) (num_entries r)
    (closed r) (filter_block r) (pending_index_entry r) (pending_handle r).
Definition set_last_key r (k : bytes) (n : Z) : TableBuilder F :=
  MkTableBuilder (options r) (file r) (offset r) (status r) (data_block r) (index_block r) k n
    (closed r) (filter_block r) (pending_index_entry r) (pending_handle r).
Definition set_closed r : TableBuilder F :=
  MkTableBuilder (options r) (file r) (offset r) (status r) (data_block r) (index_block r) (last_key r) (num_entries r)
    true (filter_block r) (pending_index_entry r) (pending_handle r).
Definition set_filter_block r (fb : FilterBlockBuilder -> FilterBlockBuilder) : TableBuilder F :=
  MkTableBuilder (options r) (file r) (offset r) (status r) (data_block r) (index_block r) (last_key r) (num_entries r)
    (closed r) ((fun p => (p.1, fb p.2)) <$> filter_block r) (pending_index_entry r) (pending_handle r).
Definition set_pending r (b : bool) (h : BlockHandle) : TableBuilder F :=
  MkTableBuilder (options r) (file r) (offset r) (status r) (data_block r) (index_block r) (last_key r) (num_entries r)
    (closed r) (filter_block r) b h.
Definition set_options r (o : Options) : TableBuilder F :=
  MkTableBuilder o (file r) (offset r) (status r) (data_block r) (index_block r) (last_key r) (num_entries r)
    (closed r) (filter_block r) (pending_index_entry r) (pending_handle r).

Definition tb_ok r : bool := Status_ok (status r).

(** The constructors of [Rep] and [TableBuilder]; the first calls [StartBlock(0)]. *)
Definition NewTableBuilder (o : Options) (f : F) : TableBuilder F :=
  MkTableBuilder o f 0 Status_OK NewBlockBuilder NewBlockBuilder [] 0 false
    ((fun p => (p, @StartBlock p NewFilterBlockBuilder 0)) <$> filter_policy o) false NewBlockHandle.

(** [same_comparator] is the comparison of the two pointers. *)
Definition ChangeOptions r (same_comparator : bool) (o : Options) : TableBuilder F * Status :=
  if negb same_comparator then
    (r, Status_InvalidArgument (str "changing comparator while building table") [])
  else (set_options r o, Status_OK).

Definition WriteRawBlock r (block_contents : bytes) (type : Z) : TableBuilder F * BlockHandle :=
  let handle := MkHandle (offset r) (size block_contents) in
  let '(f, s) := wf_Append (file r) block_contents in
  if Status_ok s then
    let crc := crc_Value block_contents in
    let crc := crc_Extend crc [byte_of_Z type] in
    let trailer := byte_of_Z type :: EncodeFixed32 (Mask crc) in
    let '(f, s) := wf_Append f trailer in
    if Status_ok s
    then (set_output r f (u64 (offset r + (size block_contents + kBlockTrailerSize))) s, handle)
    else (set_output r f (offset r) s, handle)
  else (set_output r f (offset r) s, handle).

(** The caller resets [block] after it. *)
Definition WriteBlock r (block : BlockBuilder) : TableBuilder F * BlockHandle :=
  let raw := (BlockBuilder_Finish block).2 in
  let '(block_contents, type) :=
    if compression (options r) =? kNoCompression then (raw, compression (options r))
    else if compression (options r) =? kSnappyCompression then
      match Snappy_Compress raw with
      | Some compressed =>
          if size compressed <? size raw - size raw / 8 then (compressed, kSnappyCompression)
          else (raw, kNoCompression)
      | None => (raw, kNoCompression)
      end
    else ([], compression (options r)) in
  WriteRawBlock r block_contents type.

Definition TableBuilder_Flush r : TableBuilder F :=
  if negb (tb_ok r) then r
  else if BlockBuilder_empty (data_block r) then r
  else
    let '(r, handle) := WriteBlock r (data_block r) in
    let r := set_pending (set_data_block r (BlockBuilder_Reset (data_block r))) (pending_index_entry r) handle in
    let r :=
      if tb_ok r then
        let r := set_pending r true (pending_handle r) in
        let '(f, s) := wf_Flush (file r) in
        set_output r f (offset r) s
      else r in
    set_filter_block r (fun b => match filter_block r with Some (p, _) => @StartBlock p b (offset r) | None => b end).

(** The index entry of the last block, under a key that may be shortened. *)
Definition add_index_entry r (key : bytes) : TableBuilder F :=
  let handle_encoding := BlockHandle_EncodeTo (pending_handle r) [] in
  let r := set_last_key r key (num_entries r) in
  let r := set_index_block r (BlockBuilder_Add 1 (index_block r) (last_key r) handle_encoding) in
  set_pending r false (pending_handle r).

Definition TableBuilder_Add r (key value : bytes) : TableBuilder F :=
  if negb (tb_ok r) then r
  else
    let r :=
      if pending_index_entry r then add_index_entry r (cmp_FindShortestSeparator (last_key r) key)
      else r in
    let r := set_filter_block r (fun b => AddKey b key) in
    let r := set_last_key r key (num_entries r + 1) in
    let r := set_data_block r
      (BlockBuilder_Add (opt_block_restart_interval (options r)) (data_block r) key value) in
    let estimated_block_size := CurrentSizeEstimate (data_block r) in
    if estimated_block_size >=? block_size (options r) then TableBuilder_Flush r else r.

(** [TableBuilder::Finish] in its four parts.  The name of the policy is read from the
    options, which [ChangeOptions] may have left without one. *)
Definition write_filter_block r : TableBuilder F * BlockHandle :=
  match filter_block r with
  | Some (p, fb) =>
      if tb_ok r then WriteRawBlock r (@FilterBlock_Finish p fb).2 kNoCompression
      else (r, NewBlockHandle)
  | None => (r, NewBlockHandle)
  end.

Definition write_metaindex_block r (filter_block_handle : BlockHandle) : res (TableBuilder F * BlockHandle) :=
  if tb_ok r then
    let? meta :=
      match filter_block r with
      | Some _ =>
          match filter_policy (options r) with
          | Some p =>
              Ok (BlockBuilder_Add (opt_block_restart_interval (options r)) NewBlockBuilder
                    (str "filter." ++ fp_Name) (BlockHandle_EncodeTo filter_block_handle []))
          | None => Undefined
          end
      | None => Ok NewBlockBuilder
      end in
    Ok (WriteBlock r meta)
  else Ok (r, NewBlockHandle).

Definition write_index_block r : TableBuilder F * BlockHandle :=
  if tb_ok r then
    let r :=
      if pending_index_entry r then add_index_entry r (cmp_FindShortSuccessor (last_key r)) else r in
    let '(r, handle) := WriteBlock r (index_block r) in
    (set_index_block r (BlockBuilder_Reset (index_block r)), handle)
  else (r, NewBlockHandle).

Definition write_footer r (metaindex_block_handle index_block_handle : BlockHandle) : TableBuilder F :=
  if tb_ok r then
    let footer_encoding := Footer_EncodeTo (MkFooter metaindex_block_handle index_block_handle) [] in
    let '(f, s) := wf_Append (file r) footer_encoding in
    if Status_ok s then set_output r f (u64 (offset r + size footer_encoding)) s
    else set_output r f (offset r) s
  else r.

Definition TableBuilder_Finish r : res (TableBuilder F * Status) :=
  let r := TableBuilder_Flush r in
  let r := set_closed r in
  let '(r, filter_block_handle) := write_filter_block r in
  let? p := write_metaindex_block r filter_block_handle in
  let '(r, metaindex_block_handle) := p in
  let '(r, index_block_handle) := write_index_block r in
  let r := write_footer r metaindex_block_handle index_block_handle in
  Ok (r, status r).

Definition TableBuilder_Abandon r : TableBuilder F := set_closed r.
Definition NumEntries r : Z := num_entries r.
Definition FileSize r : Z := offset r.
End builder.
