(* ===== verification/TwoLevel.v ===== *)
(** * Two-level iterators

    Models [cpp/leveldb/table/two_level_iterator.cc]: an iterator over the
    concatenation of blocks that an index iterator names, each opened when it is
    reached.  Both levels are any iterators that keep the promise of [Cursor]. *)
From S2P Require Import Prelude Status Comparator Cursor Block Merger.

Record TwoLevelIterator (W I1 I2 : Type) := MkTwoLevel {
  arg_ : W;
  tl_status_ : Status;
  index_iter_ : IteratorWrapper I1;
  data_iter_ : IteratorWrapper I2;
  data_block_handle_ : bytes
}.
Arguments MkTwoLevel {W I1 I2} _ _ _ _ _.
Arguments arg_ {W I1 I2} _.
Arguments tl_status_ {W I1 I2} _.
Arguments index_iter_ {W I1 I2} _.
Arguments data_iter_ {W I1 I2} _.
Arguments data_block_handle_ {W I1 I2} _.

Section code.
Context {W I1 I2 : Type} `{It1 : Iterator I1} `{It2 : Iterator I2}.

(** The state behind [arg_] is threaded through [block_function_]; [options_] is
    part of the function. *)
Context (block_function_ : W -> bytes -> res (W * I2)).

Implicit Type t : TwoLevelIterator W I1 I2.

Definition NewTwoLevelIterator (index_iter : I1) (arg : W) : TwoLevelIterator W I1 I2 :=
  MkTwoLevel arg Status_OK (NewWrapper (Some index_iter)) (NewWrapper None) [].

Definition SaveError t (s : Status) : TwoLevelIterator W I1 I2 :=
  if Status_ok (tl_status_ t) && negb (Status_ok s)
  then MkTwoLevel (arg_ t) s (index_iter_ t) (data_iter_ t) (data_block_handle_ t)
  else t.

Definition SetDataIterator t (data_iter : option I2) : TwoLevelIterator W I1 I2 :=
  let t :=
    match iter_ (data_iter_ t) with
    | Some _ => SaveError t (it_status (data_iter_ t))
    | None => t
    end in
  MkTwoLevel (arg_ t) (tl_status_ t) (index_iter_ t) (wrapper_Set (data_iter_ t) data_iter)
    (data_block_handle_ t).

Definition InitDataBlock t : res (TwoLevelIterator W I1 I2) :=
  if negb (it_Valid (index_iter_ t)) then Ok (SetDataIterator t None)
  else
    let? handle := it_value (index_iter_ t) in
    if match iter_ (data_iter_ t) with
       | Some _ => Slice_compare handle (data_block_handle_ t) =? 0
       | None => false
       end
    then Ok t
    else
      let? r := block_function_ (arg_ t) handle in
      let '(arg, iter) := r in
      Ok (SetDataIterator (MkTwoLevel arg (tl_status_ t) (index_iter_ t) (data_iter_ t) handle)
            (Some iter)).

(** [if (data_iter_.iter() != nullptr) data_iter_.move()] *)
Definition move_data (op : iter_op) t : res (TwoLevelIterator W I1 I2) :=
  match iter_ (data_iter_ t) with
  | None => Ok t
  | Some _ =>
      let? d := it_step (data_iter_ t) op in
      Ok (MkTwoLevel (arg_ t) (tl_status_ t) (index_iter_ t) d (data_block_handle_ t))
  end.

Definition move_index (op : iter_op) t : res (TwoLevelIterator W I1 I2) :=
  let? i := it_step (index_iter_ t) op in
  Ok (MkTwoLevel (arg_ t) (tl_status_ t) i (data_iter_ t) (data_block_handle_ t)).

(** [data_iter_.iter() == nullptr || !data_iter_.Valid()] *)
Definition no_data t : bool :=
  match iter_ (data_iter_ t) with None => true | Some _ => negb (it_Valid (data_iter_ t)) end.

(** [SkipEmptyDataBlocksForward] with [OpNext] and [OpSeekToFirst],
    [SkipEmptyDataBlocksBackward] with [OpPrev] and [OpSeekToLast]. *)
Fixpoint SkipEmptyDataBlocks (step enter : iter_op) (fuel : nat) t : res (TwoLevelIterator W I1 I2) :=
  if no_data t then
    if negb (it_Valid (index_iter_ t)) then Ok (SetDataIterator t None)
    else
      match fuel with
      | O => OutOfFuel
      | S fuel =>
          let? t := move_index step t in
          let? t := InitDataBlock t in
          let? t := move_data enter t in
          SkipEmptyDataBlocks step enter fuel t
      end
  else Ok t.

Definition SkipEmptyDataBlocksForward := SkipEmptyDataBlocks OpNext OpSeekToFirst.
Definition SkipEmptyDataBlocksBackward := SkipEmptyDataBlocks OpPrev OpSeekToLast.

(** [Seek], [SeekToFirst] and [SeekToLast] *)
Definition TwoLevel_position (op : iter_op) (skip : TwoLevelIterator W I1 I2 -> res (TwoLevelIterator W I1 I2)) t
    : res (TwoLevelIterator W I1 I2) :=
  let? t := move_index op t in
  let? t := InitDataBlock t in
  let? t := move_data op t in
  skip t.

Definition TwoLevel_Seek (fuel : nat) t (target : bytes) : res (TwoLevelIterator W I1 I2) :=
  TwoLevel_position (OpSeek target) (SkipEmptyDataBlocksForward fuel) t.

Definition TwoLevel_SeekToFirst (fuel : nat) t : res (TwoLevelIterator W I1 I2) :=
  TwoLevel_position OpSeekToFirst (SkipEmptyDataBlocksForward fuel) t.

Definition TwoLevel_SeekToLast (fuel : nat) t : res (TwoLevelIterator W I1 I2) :=
  TwoLevel_position OpSeekToLast (SkipEmptyDataBlocksBackward fuel) t.

(** [data_iter_.Next()] and [data_iter_.Prev()] without an iterator are not allowed. *)
Definition TwoLevel_step (op : iter_op) (skip : TwoLevelIterator W I1 I2 -> res (TwoLevelIterator W I1 I2)) t
    : res (TwoLevelIterator W I1 I2) :=
  match iter_ (data_iter_ t) with
  | None => Undefined
  | Some _ => let? t := move_data op t in skip t
  end.

Definition TwoLevel_Next (fuel : nat) t : res (TwoLevelIterator W I1 I2) :=
  TwoLevel_step OpNext (SkipEmptyDataBlocksForward fuel) t.

Definition TwoLevel_Prev (fuel : nat) t : res (TwoLevelIterator W I1 I2) :=
  TwoLevel_step OpPrev (SkipEmptyDataBlocksBackward fuel) t.

Definition TwoLevel_status t : Status :=
  if negb (Status_ok (it_status (index_iter_ t))) then it_status (index_iter_ t)
  else
    match iter_ (data_iter_ t) with
    | Some _ => if negb (Status_ok (it_status (data_iter_ t))) then it_status (data_iter_ t) else tl_status_ t
    | None => tl_status_ t
    end.
End code.

(** [fuel] bounds the index entries one call passes over. *)
#[export] Instance TwoLevel_Iterator {W I1 I2} `{It1 : Iterator I1} `{It2 : Iterator I2}
    (block_function_ : W -> bytes -> res (W * I2)) (fuel : nat) : Iterator (TwoLevelIterator W I1 I2) := {|
  it_Valid t := it_Valid (data_iter_ t);
  it_SeekToFirst := TwoLevel_SeekToFirst block_function_ fuel;
  it_SeekToLast := TwoLevel_SeekToLast block_function_ fuel;
  it_Seek := TwoLevel_Seek block_function_ fuel;
  it_Next := TwoLevel_Next block_function_ fuel;
  it_Prev := TwoLevel_Prev block_function_ fuel;
  it_key t := it_key (data_iter_ t);
  it_value t := it_value (data_iter_ t);
  it_status := TwoLevel_status
|}.

(** ** The concatenation of the blocks *)

Section flat.
Context (blk : bytes -> list (bytes * bytes)).

(** The pairs of the blocks the index names by their handles. *)
Definition flat (idx : list (bytes * bytes)) : list (bytes * bytes) := concat (map (fun e => blk e.2) idx).

(** How many pairs come before block [i]. *)
Definition off (idx : list (bytes * bytes)) (i : nat) : nat := length (flat (take i idx)).

Lemma flat_off_S idx i e : idx !! i = Some e -> off idx (S i) = (off idx i + length (blk e.2))%nat.
Proof.
  intros Hi. unfold off, flat. rewrite (take_S_r _ _ _ Hi), map_app, concat_app, length_app. cbn.
  by rewrite app_nil_r.
Qed.

Lemma off_all idx i : (length idx <= i)%nat -> off idx i = length (flat idx).
Proof. intros Hi. unfold off. by rewrite take_ge. Qed.

Lemma flat_off_mono idx i j : (i <= j)%nat -> (off idx i <= off idx j)%nat.
Proof.
  induction 1 as [|j _ IH]; [done|]. destruct (idx !! j) as [e|] eqn:E; [rewrite (flat_off_S _ _ _ E); lia|].
  apply lookup_ge_None in E. rewrite (off_all idx (S j)) by lia. by rewrite (off_all idx j) in IH.
Qed.

Lemma flat_app idx idx' : flat (idx ++ idx') = flat idx ++ flat idx'.
Proof. unfold flat. by rewrite map_app, concat_app. Qed.

Lemma flat_lookup idx i e p x :
  idx !! i = Some e -> blk e.2 !! p = Some x -> flat idx !! (off idx i + p)%nat = Some x.
Proof.
  intros Hi Hp. assert (E : flat idx = flat (take i idx) ++ blk e.2 ++ flat (drop (S i) idx)).
  { rewrite <- (take_drop_middle _ _ _ Hi) at 1. by rewrite flat_app. }
  rewrite E, lookup_app_r by (unfold off; lia). unfold off. replace (_ + p - _)%nat with p by lia.
  by apply lookup_app_l_Some.
Qed.

Lemma flat_inv idx g x : flat idx !! g = Some x ->
  exists i e p, idx !! i = Some e /\ blk e.2 !! p = Some x /\ g = (off idx i + p)%nat.
Proof.
  revert g. induction idx as [|e idx IH]; intros g Hg; [done|]. unfold flat in Hg. cbn [map concat] in Hg.
  apply lookup_app_Some in Hg as [Hg|[Hle Hg]]; [by exists O, e, g|].
  destruct (IH _ Hg) as (i & e' & p & Hi & Hp & Hgp). exists (S i), e', p. split_and!; [done..|].
  unfold off in *. cbn [take]. unfold flat in *. cbn [map concat]. rewrite length_app. lia.
Qed.

(** A position in the concatenation, and the one before it. *)
Definition norm (idx : list (bytes * bytes)) (g : nat) : cursor :=
  if (g <? length (flat idx))%nat then Some g else None.
Definition before (g : nat) : cursor := match g with O => None | S g => Some g end.

Lemma norm_at idx i e p x :
  idx !! i = Some e -> blk e.2 !! p = Some x -> norm idx (off idx i + p) = Some (off idx i + p)%nat.
Proof.
  intros Hi Hp. pose proof (lookup_lt_Some _ _ _ (flat_lookup _ _ _ _ _ Hi Hp)). unfold norm.
  by destruct (Nat.ltb_spec (off idx i + p) (length (flat idx))); [|lia].
Qed.

(** The index fits the blocks: its keys are at or above those of their block and
    below those of the blocks that follow. *)
Record two_level_ok `{C : Comparator} (idx : list (bytes * bytes)) : Prop := {
  tl_index : ascending idx;
  tl_block i e : idx !! i = Some e -> ascending (blk e.2);
  tl_upper i e x : idx !! i = Some e -> x ∈ blk e.2 -> cmp_Compare x.1 e.1 <= 0;
  tl_lower i j e e' x : (i < j)%nat -> idx !! i = Some e -> idx !! j = Some e' -> x ∈ blk e'.2 ->
    cmp_Compare e.1 x.1 < 0
}.

Section seek.
Context `{C : Comparator} `{!ComparatorLaws C} (idx : list (bytes * bytes)) (Hok : two_level_ok idx).

Lemma flat_ascending : ascending (flat idx).
Proof.
  intros g g' x y Hgg Hx Hy. apply flat_inv in Hx as (i & e & p & Hi & Hp & ->).
  apply flat_inv in Hy as (j & e' & p' & Hj & Hp' & ->). destruct (Nat.lt_trichotomy i j) as [Hij|[->|Hij]].
  - apply (cmp_le_lt_trans _ e.1).
    + apply (tl_upper _ Hok i e x Hi). by apply (list_elem_of_lookup_2 _ p).
    + apply (tl_lower _ Hok i j e e' y Hij Hi Hj). by apply (list_elem_of_lookup_2 _ p').
  - rewrite Hi in Hj. injection Hj as <-. apply (tl_block _ Hok j e Hi p p'); [lia|done..].
  - pose proof (flat_off_mono idx (S j) i ltac:(lia)) as Hm. rewrite (flat_off_S _ _ _ Hj) in Hm.
    apply lookup_lt_Some in Hp'. lia.
Qed.

(** Where a seek in block [i] leads: every pair before it is below the target. *)
Lemma find_ge_flat target i e :
  idx !! i = Some e -> find_ge target idx = Some i ->
  find_ge target (flat idx) =
    match find_ge target (blk e.2) with
    | Some p => Some (off idx i + p)%nat
    | None => norm idx (off idx (S i))
    end.
Proof.
  intros Hi Hf. pose proof (find_ge_spec target idx) as Hs. rewrite Hf in Hs. destruct Hs as [(e0 & He0 & Hge) Hlow].
  rewrite Hi in He0. injection He0 as <-.
  assert (Hbefore : forall g x, (g < off idx i)%nat -> flat idx !! g = Some x -> cmp_Compare x.1 target < 0).
  { intros g x Hg Hx. apply flat_inv in Hx as (j & e' & p & Hj & Hp & ->). destruct (decide (j < i)%nat) as [Hji|Hji].
    - apply (cmp_le_lt_trans _ e'.1); [|by apply (Hlow j)].
      apply (tl_upper _ Hok j e' x Hj). by apply (list_elem_of_lookup_2 _ p).
    - pose proof (flat_off_mono idx i j ltac:(lia)). lia. }
  assert (Hin : forall g x, (off idx i <= g < off idx (S i))%nat -> flat idx !! g = Some x ->
    blk e.2 !! (g - off idx i)%nat = Some x).
  { intros g x Hg Hx. rewrite (flat_off_S _ _ _ Hi) in Hg.
    destruct (lookup_lt_is_Some_2 (blk e.2) (g - off idx i)%nat ltac:(lia)) as [y Hy].
    pose proof (flat_lookup idx i e _ _ Hi Hy) as Hy'. replace (off idx i + (g - off idx i))%nat with g in Hy' by lia.
    rewrite Hx in Hy'. injection Hy' as ->. done. }
  pose proof (find_ge_spec target (blk e.2)) as Hb. destruct (find_ge target (blk e.2)) as [p|].
  - destruct Hb as [(x & Hx & Hxge) Hblow]. apply (find_ge_unique _ _ _ x); [by apply (flat_lookup _ _ e)|done|].
    intros g y Hg Hy. destruct (decide (g < off idx i)%nat); [by apply (Hbefore g)|].
    apply (Hblow (g - off idx i)%nat); [lia|]. apply Hin; [|done]. rewrite (flat_off_S _ _ _ Hi).
    apply lookup_lt_Some in Hx. lia.
  - assert (Hall : forall g x, (g < off idx (S i))%nat -> flat idx !! g = Some x -> cmp_Compare x.1 target < 0).
    { intros g x Hg Hx. destruct (decide (g < off idx i)%nat); [by apply (Hbefore g)|].
      apply (Hb (g - off idx i)%nat). apply Hin; [lia|done]. }
    unfold norm. destruct (Nat.ltb_spec (off idx (S i)) (length (flat idx))) as [Hlt|Hge'].
    + apply lookup_lt_is_Some_2 in Hlt as [x Hx]. apply (find_ge_unique _ _ _ x); [done| |done].
      apply flat_inv in Hx as (j & e' & p & Hj & Hp & Hoff). destruct (decide (i < j)%nat) as [Hij|Hij].
      * pose proof (tl_lower _ Hok i j e e' x Hij Hi Hj (list_elem_of_lookup_2 _ _ _ Hp)) as Hlt.
        apply Z.nlt_ge. intros Hle. pose proof (cmp_lt_trans _ _ _ Hlt Hle). lia.
      * pose proof (flat_off_mono idx (S j) (S i) ltac:(lia)) as Hm. rewrite (flat_off_S _ _ _ Hj) in Hm.
        apply lookup_lt_Some in Hp. lia.
    + apply find_ge_none. intros g x Hx. apply (Hall g); [|done]. apply lookup_lt_Some in Hx. lia.
Qed.

Lemma find_ge_flat_none target : find_ge target idx = None -> find_ge target (flat idx) = None.
Proof.
  intros Hf. pose proof (find_ge_spec target idx) as Hs. rewrite Hf in Hs. apply find_ge_none.
  intros g x Hx. apply flat_inv in Hx as (j & e & p & Hj & Hp & _). apply (cmp_le_lt_trans _ e.1); [|by apply (Hs j)].
  apply (tl_upper _ Hok j e x Hj). by apply (list_elem_of_lookup_2 _ p).
Qed.
End seek.
End flat.

(** ** The simulation *)

Section simulation.
Context `{C : Comparator} `{!ComparatorLaws C} {W I1 I2 : Type} `{It1 : Iterator I1} `{It2 : Iterator I2}.
Context (block_function_ : W -> bytes -> res (W * I2)) (inv : W -> Prop).
Context (blk : bytes -> list (bytes * bytes)) (idx : list (bytes * bytes)).

(** What the block function promises for the handles of the index. *)
Definition opens_blocks : Prop :=
  forall w i e, inv w -> idx !! i = Some e ->
    exists w' it, block_function_ w e.2 = Ok (w', it) /\ inv w' /\ iterates_at it (blk e.2) None.

Context (Hopen : opens_blocks) (Hok : two_level_ok blk idx).
Implicit Type t : TwoLevelIterator W I1 I2.

Abbreviation off_ := (off blk idx).
Abbreviation norm_ := (norm blk idx).

(** The index iterator at [ci], and the data iterator in a block with its cursor. *)
Definition stands t (ci : cursor) (d : option (bytes * cursor)) : Prop :=
  inv (arg_ t) /\ Status_ok (tl_status_ t) = true /\ wraps (index_iter_ t) idx ci /\
  match d with
  | None => iter_ (data_iter_ t) = None /\ it_Valid (data_iter_ t) = false
  | Some (h, c) => data_block_handle_ t = h /\ wraps (data_iter_ t) (blk h) c
  end.

Definition at_global t (c : cursor) : Prop :=
  match c with
  | None => exists ci, stands t ci None
  | Some g => exists i e p x, stands t (Some i) (Some (e.2, Some p)) /\ idx !! i = Some e /\
      blk e.2 !! p = Some x /\ g = (off_ i + p)%nat
  end.

Lemma stands_index t ci d : stands t ci d -> it_Valid (index_iter_ t) = bool_decide (is_Some ci).
Proof. intros (_ & _ & Hi & _). exact (wraps_valid _ _ _ Hi). Qed.

Lemma SetDataIterator_none t ci d : stands t ci d -> stands (SetDataIterator t None) ci None.
Proof.
  intros (Ha & Hs & Hi & Hd). unfold SetDataIterator. destruct d as [[h c]|].
  - destruct Hd as [_ Hw]. pose proof (wraps_status _ _ _ Hw) as Hst. destruct Hw as (it & -> & _).
    unfold SaveError. rewrite Hst, andb_false_r. by split_and!.
  - destruct Hd as [Hd _]. rewrite Hd. by split_and!.
Qed.

Lemma SetDataIterator_some t ci d arg h it :
  stands t ci d -> inv arg -> iterates_at it (blk h) None ->
  stands (SetDataIterator (MkTwoLevel arg (tl_status_ t) (index_iter_ t) (data_iter_ t) h) (Some it)) ci
    (Some (h, None)).
Proof.
  intros (Ha & Hs & Hi & Hd) Hinv Hit. unfold SetDataIterator. cbn [data_iter_ arg_ tl_status_ index_iter_].
  assert (Hst : Status_ok (it_status (data_iter_ t)) = true).
  { destruct d as [[h' c]|]; [destruct Hd as [_ Hd]; by apply (wraps_status _ _ _ Hd)|].
    destruct Hd as [Hd _]. cbn. by rewrite Hd. }
  unfold SaveError. cbn [data_iter_ tl_status_]. rewrite Hst, andb_false_r.
  destruct (iter_ (data_iter_ t)); split_and!; try done; by apply Update_wraps.
Qed.

Lemma InitDataBlock_ok t ci d :
  stands t ci d ->
  exists t', InitDataBlock block_function_ t = Ok t' /\
    match ci with
    | None => stands t' None None
    | Some i => exists e c, idx !! i = Some e /\ stands t' (Some i) (Some (e.2, c))
    end.
Proof.
  intros Hst. unfold InitDataBlock. rewrite (stands_index _ _ _ Hst). destruct ci as [i|]; cbn [negb].
  2: { eexists. split; [done|]. by apply SetDataIterator_none in Hst. }
  rewrite bool_decide_eq_true_2 by eauto. cbn [negb]. pose proof Hst as (Ha & Hs & Hi & Hd).
  assert (He : exists e, idx !! i = Some e).
  { destruct Hi as (it & _ & Hi & _). apply iterates_reads in Hi as (_ & Hc & _). apply Hc. eauto. }
  destruct He as [[sep h] He]. destruct (wraps_key _ _ _ sep h Hi He) as [_ ->]. cbn [res_bind].
  assert (Hnew : exists t', (let? r := block_function_ (arg_ t) h in let '(arg, iter) := r in
      Ok (SetDataIterator (MkTwoLevel arg (tl_status_ t) (index_iter_ t) (data_iter_ t) h) (Some iter))) = Ok t' /\
    exists e c, idx !! i = Some e /\ stands t' (Some i) (Some (e.2, c))).
  { destruct (Hopen (arg_ t) i (sep, h) Ha He) as (w' & it & E & Hw' & Hit). cbn in E, Hit. rewrite E.
    eexists. split; [done|]. exists (sep, h), None. split; [done|]. by eapply SetDataIterator_some. }
  destruct d as [[h' c]|].
  - destruct Hd as [Hh Hw]. assert (exists it, iter_ (data_iter_ t) = Some it) as [it ->].
    { destruct Hw as (it & -> & _). by exists it. }
    rewrite Hh. destruct (Z.eqb_spec (Slice_compare h h') 0) as [E|]; [|exact Hnew].
    apply Slice_compare_eq in E as <-. exists t. split; [done|]. exists (sep, h), c. split; [done|]. exact Hst.
  - destruct Hd as [-> _]. exact Hnew.
Qed.

Lemma move_index_ok t ci d op ci' :
  stands t ci d -> cursor_step idx ci op = Some ci' ->
  exists t', move_index op t = Ok t' /\ stands t' ci' d.
Proof.
  intros (Ha & Hs & Hi & Hd) Hop. unfold move_index. destruct (wraps_step _ _ _ _ _ Hi Hop) as (w' & -> & Hw').
  cbn [res_bind]. eexists. split; [done|]. by split_and!.
Qed.

Lemma move_data_ok t ci h c op c' :
  stands t ci (Some (h, c)) -> cursor_step (blk h) c op = Some c' ->
  exists t', move_data op t = Ok t' /\ stands t' ci (Some (h, c')).
Proof.
  intros (Ha & Hs & Hi & Hh & Hd) Hop. unfold move_data. pose proof Hd as (it & -> & _).
  destruct (wraps_step _ _ _ _ _ Hd Hop) as (w' & -> & Hw'). cbn [res_bind]. eexists. split; [done|]. by split_and!.
Qed.

Lemma move_data_none t ci op : stands t ci None -> move_data op t = Ok t.
Proof. intros (_ & _ & _ & Hd & _). unfold move_data. by rewrite Hd. Qed.

Lemma no_data_ok t ci d :
  stands t ci d -> no_data t = match d with Some (_, Some _) => false | _ => true end.
Proof.
  intros (_ & _ & _ & Hd). unfold no_data. destruct d as [[h c]|].
  - destruct Hd as [_ Hd]. pose proof (wraps_valid _ _ _ Hd) as Hv. destruct Hd as (it & -> & _).
    change (it_Valid (data_iter_ t)) with (valid_ (data_iter_ t)). rewrite Hv.
    destruct c; [by rewrite bool_decide_eq_true_2 by eauto|done].
  - by destruct Hd as [-> _].
Qed.

Lemma skip_out step enter fuel t :
  stands t None None ->
  exists t', SkipEmptyDataBlocks block_function_ step enter fuel t = Ok t' /\ at_global t' None.
Proof.
  intros Hst. assert (E : SkipEmptyDataBlocks block_function_ step enter fuel t = Ok (SetDataIterator t None)).
  { destruct fuel; cbn [SkipEmptyDataBlocks]; by rewrite (no_data_ok _ _ _ Hst), (stands_index _ _ _ Hst). }
  eexists. split; [exact E|]. exists None. by eapply SetDataIterator_none.
Qed.

Lemma skip_in step enter fuel t i h p :
  stands t (Some i) (Some (h, Some p)) -> SkipEmptyDataBlocks block_function_ step enter fuel t = Ok t.
Proof. intros Hst. destruct fuel; cbn [SkipEmptyDataBlocks]; by rewrite (no_data_ok _ _ _ Hst). Qed.

(** Standing at a pair of the block. *)
Lemma stands_global t i e p :
  stands t (Some i) (Some (e.2, Some p)) -> idx !! i = Some e -> at_global t (Some (off_ i + p)%nat) /\
  is_Some (blk e.2 !! p).
Proof.
  intros Hst Hi. assert (Hp : is_Some (blk e.2 !! p)).
  { destruct Hst as (_ & _ & _ & _ & Hd). destruct Hd as (it & _ & Hd & _).
    apply iterates_reads in Hd as (_ & Hc & _). apply Hc. eauto. }
  split; [|done]. destruct Hp as [x Hx]. by exists i, e, p, x.
Qed.

Lemma skip_forward fuel : forall t i e c,
  stands t (Some i) (Some (e.2, c)) -> idx !! i = Some e -> (length idx <= i + fuel)%nat ->
  exists t', SkipEmptyDataBlocksForward block_function_ fuel t = Ok t' /\
    at_global t' (match c with Some p => Some (off_ i + p)%nat | None => norm_ (off_ (S i)) end).
Proof.
  induction fuel as [|fuel IH]; intros t i e c Hst Hi Hf; pose proof (lookup_lt_Some _ _ _ Hi); [lia|].
  unfold SkipEmptyDataBlocksForward in *. destruct c as [p|].
  { rewrite (skip_in _ _ _ _ _ _ _ Hst). eexists. split; [done|]. by apply (stands_global _ _ _ _ Hst). }
  cbn [SkipEmptyDataBlocks]. rewrite (no_data_ok _ _ _ Hst), (stands_index _ _ _ Hst).
  rewrite bool_decide_eq_true_2 by eauto. cbn [negb].
  destruct (move_index_ok _ _ _ OpNext (if (S i <? length idx)%nat then Some (S i) else None) Hst eq_refl)
    as (t1 & -> & H1). cbn [res_bind].
  destruct (InitDataBlock_ok _ _ _ H1) as (t2 & -> & H2). cbn [res_bind].
  destruct (Nat.ltb_spec (S i) (length idx)) as [Hlt|Hge].
  - destruct H2 as (e' & c0 & He' & H2).
    destruct (move_data_ok _ _ _ _ OpSeekToFirst _ H2 eq_refl) as (t3 & -> & H3). cbn [res_bind].
    destruct (IH t3 (S i) e' _ H3 He' ltac:(lia)) as (t4 & -> & H4). exists t4. split; [done|].
    destruct (blk e'.2) as [|x l] eqn:Eb.
    + rewrite (flat_off_S blk idx (S i) e' He'), Eb in H4. cbn [length] in H4. by rewrite Nat.add_0_r in H4.
    + by rewrite <- (norm_at blk idx (S i) e' 0 x), Nat.add_0_r in H4 by (done || by rewrite Eb).
  - rewrite (move_data_none _ _ _ H2). cbn [res_bind].
    destruct (skip_out OpNext OpSeekToFirst fuel t2 H2) as (t3 & -> & H3). exists t3. split; [done|].
    rewrite off_all by lia. unfold norm. by rewrite Nat.ltb_irrefl.
Qed.

Lemma skip_backward fuel : forall t i e c,
  stands t (Some i) (Some (e.2, c)) -> idx !! i = Some e -> (i < fuel)%nat ->
  exists t', SkipEmptyDataBlocksBackward block_function_ fuel t = Ok t' /\
    at_global t' (match c with Some p => Some (off_ i + p)%nat | None => before (off_ i) end).
Proof.
  induction fuel as [|fuel IH]; intros t i e c Hst Hi Hf; [lia|].
  unfold SkipEmptyDataBlocksBackward in *. destruct c as [p|].
  { rewrite (skip_in _ _ _ _ _ _ _ Hst). eexists. split; [done|]. by apply (stands_global _ _ _ _ Hst). }
  cbn [SkipEmptyDataBlocks]. rewrite (no_data_ok _ _ _ Hst), (stands_index _ _ _ Hst).
  rewrite bool_decide_eq_true_2 by eauto. cbn [negb].
  destruct (move_index_ok _ _ _ OpPrev (match i with O => None | S i => Some i end) Hst eq_refl)
    as (t1 & -> & H1). cbn [res_bind].
  destruct (InitDataBlock_ok _ _ _ H1) as (t2 & -> & H2). cbn [res_bind]. destruct i as [|i].
  - rewrite (move_data_none _ _ _ H2). cbn [res_bind].
    destruct (skip_out OpPrev OpSeekToLast fuel t2 H2) as (t3 & -> & H3). by exists t3.
  - destruct H2 as (e' & c0 & He' & H2).
    destruct (move_data_ok _ _ _ _ OpSeekToLast _ H2 eq_refl) as (t3 & -> & H3). cbn [res_bind].
    destruct (IH t3 i e' _ H3 He' ltac:(lia)) as (t4 & -> & H4). exists t4. split; [done|].
    rewrite (flat_off_S blk idx i e' He'). destruct (blk e'.2) as [|x l] eqn:Eb; cbn [length] in *.
    + by rewrite Nat.add_0_r.
    + rewrite Nat.add_succ_r. cbn [before]. exact H4.
Qed.

Context (fuel : nat) (Hfuel : (length idx <= fuel)%nat).

Lemma at_stands t c : at_global t c -> exists ci d, stands t ci d.
Proof. destruct c as [g|]; [intros (i & e & p & x & H & _); eauto|intros [ci H]; eauto]. Qed.

(** A seek positions both levels and skips to a pair. *)
Lemma TwoLevel_position_ok t ci d op skip ci' c' (result : nat -> cursor) :
  stands t ci d -> cursor_step idx ci op = Some ci' ->
  (forall t i e c, stands t (Some i) (Some (e.2, c)) -> idx !! i = Some e ->
     exists t', skip t = Ok t' /\
       at_global t' (match c with Some p => Some (off_ i + p)%nat | None => result i end)) ->
  (forall t, stands t None None -> exists t', skip t = Ok t' /\ at_global t' None) ->
  match ci' with
  | None => c' = None
  | Some i => forall e c, idx !! i = Some e -> exists c2, cursor_step (blk e.2) c op = Some c2 /\
      c' = match c2 with Some p => Some (off_ i + p)%nat | None => result i end
  end ->
  exists t', TwoLevel_position block_function_ op skip t = Ok t' /\ at_global t' c'.
Proof.
  intros Hst Hop Hskip Hout Hc'. unfold TwoLevel_position.
  destruct (move_index_ok _ _ _ _ _ Hst Hop) as (t1 & -> & H1). cbn [res_bind].
  destruct (InitDataBlock_ok _ _ _ H1) as (t2 & -> & H2). cbn [res_bind]. destruct ci' as [i|].
  - destruct H2 as (e & c & He & H2). destruct (Hc' e c He) as (c2 & Hc2 & ->).
    destruct (move_data_ok _ _ _ _ _ _ H2 Hc2) as (t3 & -> & H3). cbn [res_bind]. by apply (Hskip t3 i e).
  - rewrite (move_data_none _ _ _ H2). cbn [res_bind]. subst c'. by apply Hout.
Qed.

Lemma TwoLevel_step_ok t i e p op skip c2 (result : nat -> cursor) :
  stands t (Some i) (Some (e.2, Some p)) -> idx !! i = Some e ->
  cursor_step (blk e.2) (Some p) op = Some c2 ->
  (forall t i e c, stands t (Some i) (Some (e.2, c)) -> idx !! i = Some e ->
     exists t', skip t = Ok t' /\
       at_global t' (match c with Some p => Some (off_ i + p)%nat | None => result i end)) ->
  exists t', TwoLevel_step op skip t = Ok t' /\
    at_global t' (match c2 with Some p => Some (off_ i + p)%nat | None => result i end).
Proof.
  intros Hst Hi Hop Hskip. unfold TwoLevel_step. destruct (move_data_ok _ _ _ _ _ _ Hst Hop) as (t3 & E & H3).
  rewrite E. destruct Hst as (_ & _ & _ & _ & it & -> & _). cbn [res_bind]. by apply (Hskip t3 i e).
Qed.

Lemma forward_ok t i e c : stands t (Some i) (Some (e.2, c)) -> idx !! i = Some e ->
  exists t', SkipEmptyDataBlocksForward block_function_ fuel t = Ok t' /\
    at_global t' (match c with Some p => Some (off_ i + p)%nat | None => norm_ (off_ (S i)) end).
Proof. intros Hst Hi. apply (skip_forward fuel t i e c Hst Hi). lia. Qed.

Lemma backward_ok t i e c : stands t (Some i) (Some (e.2, c)) -> idx !! i = Some e ->
  exists t', SkipEmptyDataBlocksBackward block_function_ fuel t = Ok t' /\
    at_global t' (match c with Some p => Some (off_ i + p)%nat | None => before (off_ i) end).
Proof.
  intros Hst Hi. apply (skip_backward fuel t i e c Hst Hi). apply lookup_lt_Some in Hi. lia.
Qed.

Lemma flat_first : (match flat blk idx with [] => None | _ => Some O end) = norm_ 0.
Proof. unfold norm. by destruct (flat blk idx). Qed.

Lemma flat_last :
  (match flat blk idx with [] => None | _ => Some (pred (length (flat blk idx))) end) =
  before (length (flat blk idx)).
Proof. by destruct (flat blk idx). Qed.

Lemma TwoLevel_simulates :
  @simulates C _ (TwoLevel_Iterator block_function_ fuel) at_global (flat blk idx).
Proof.
  intros t c Hc. destruct (at_stands t c Hc) as (ci & d & Hst). split_and!.
  - unfold it_reads. cbn [it_Valid it_value it_key TwoLevel_Iterator]. destruct c as [g|].
    + destruct Hc as (i & e & p & x & (_ & _ & _ & _ & Hw) & Hi & Hp & ->). destruct x as [k v].
      pose proof (wraps_valid _ _ _ Hw) as Hv. rewrite bool_decide_eq_true_2 in Hv by eauto.
      change (it_Valid (data_iter_ t)) with (valid_ (data_iter_ t)). rewrite Hv.
      destruct (wraps_key _ _ _ k v Hw Hp) as [Hk ->]. cbn [res_bind at_cursor mbind option_bind].
      rewrite (flat_lookup blk idx i e p (k, v) Hi Hp). cbn [it_key]. by rewrite <- Hk.
    + destruct Hc as [ci' (_ & _ & _ & _ & ->)]. done.
  - destruct c as [g|]; [|split; by intros []]. split; [|by eauto]. intros _.
    destruct Hc as (i & e & p & x & _ & Hi & Hp & ->). cbn. rewrite (flat_lookup blk idx i e p x Hi Hp). eauto.
  - cbn. unfold TwoLevel_status. destruct Hst as (_ & Hs & Hi & Hd). rewrite (wraps_status _ _ _ Hi). cbn [negb].
    destruct d as [[h c']|]; [|by destruct Hd as [-> _]]. destruct Hd as [_ Hd].
    rewrite (wraps_status _ _ _ Hd). by destruct (iter_ (data_iter_ t)).
  - intros op c' Hop. destruct op as [| |target| |];
      cbn [it_step it_SeekToFirst it_SeekToLast it_Seek it_Next it_Prev TwoLevel_Iterator].
    + injection Hop as <-. rewrite flat_first.
      eapply TwoLevel_position_ok; [exact Hst|reflexivity|exact forward_ok|exact (skip_out _ _ fuel)|].
      destruct idx as [|e0 idx0] eqn:Ei; [done|]. rewrite <- Ei in *. intros e c0 He. eexists. split; [reflexivity|].
      destruct (blk e.2) as [|x l] eqn:Eb.
      * rewrite (flat_off_S blk idx 0 e He), Eb. done.
      * rewrite <- (norm_at blk idx 0 e 0 x) by (done || by rewrite Eb). done.
    + injection Hop as <-. rewrite flat_last.
      eapply TwoLevel_position_ok; [exact Hst|reflexivity|exact backward_ok|exact (skip_out _ _ fuel)|].
      destruct idx as [|e0 idx0] eqn:Ei; [done|]. rewrite <- Ei in *. intros e c0 He. eexists. split; [reflexivity|].
      rewrite <- (off_all blk idx (length idx)) by done.
      assert (El : length idx = S (pred (length idx))) by (rewrite Ei; done).
      rewrite El at 1. rewrite (flat_off_S blk idx _ e He). destruct (blk e.2) as [|x l] eqn:Eb; cbn [length].
      * by rewrite Nat.add_0_r.
      * by rewrite Nat.add_succ_r.
    + injection Hop as <-.
      eapply TwoLevel_position_ok; [exact Hst|reflexivity|exact forward_ok|exact (skip_out _ _ fuel)|].
      destruct (find_ge target idx) as [i|] eqn:Ef; [|by rewrite (find_ge_flat_none blk idx Hok)].
      intros e c0 He. eexists. split; [reflexivity|]. by apply find_ge_flat.
    + destruct c as [g|]; [|done]. injection Hop as <-. destruct Hc as (i & e & p & x & Hs & Hi & Hp & ->).
      destruct (TwoLevel_step_ok _ _ _ _ OpNext _ _ (fun i => norm_ (off_ (S i))) Hs Hi eq_refl forward_ok)
        as (t' & E & Ht'). exists t'. split; [exact E|]. pose proof (lookup_lt_Some _ _ _ Hp).
      replace (if (S (off_ i + p) <? length (flat blk idx))%nat then Some (S (off_ i + p)) else None)
        with (norm_ (off_ i + S p)%nat) by (unfold norm; by rewrite Nat.add_succ_r).
      destruct (Nat.ltb_spec (S p) (length (blk e.2))) as [Hlt|Hge].
      * apply lookup_lt_is_Some_2 in Hlt as [y Hy]. by rewrite (norm_at blk idx i e (S p) y).
      * rewrite (flat_off_S blk idx i e Hi) in Ht'. replace (off_ i + S p)%nat with (off_ i + length (blk e.2))%nat by lia.
        exact Ht'.
    + destruct c as [g|]; [|done]. injection Hop as <-. destruct Hc as (i & e & p & x & Hs & Hi & Hp & ->).
      destruct (TwoLevel_step_ok _ _ _ _ OpPrev _ _ (fun i => before (off_ i)) Hs Hi eq_refl backward_ok)
        as (t' & E & Ht'). exists t'. split; [exact E|]. fold (before (off_ i + p)%nat).
      destruct p as [|p]; [by rewrite Nat.add_0_r|]. by rewrite Nat.add_succ_r.
Qed.

Lemma NewTwoLevelIterator_iterates (it : I1) arg :
  iterates_at it idx None -> inv arg ->
  @iterates_at C _ (TwoLevel_Iterator block_function_ fuel) (NewTwoLevelIterator it arg)
    (flat blk idx) None.
Proof.
  intros Hit Ha. exists at_global. split; [exact TwoLevel_simulates|]. exists None.
  split_and!; try done. by apply Update_wraps.
Qed.
End simulation.
