(* ===== verification/Table.v ===== *)
(** * Tables

    Models [cpp/leveldb/table/table.cc]: opening a table file, iterating over it
    through the index and the block cache, and looking up one key.  The block cache
    is the interface of [leveldb/cache.h]. *)
From S2P Require Import Prelude Coding Bloom Comparator Status Cursor Block LogWriter FilterBlock Format TableBuilder TwoLevel.

(** ** The block cache *)

(** The pins that keep a block alive while it is read are left out. *)
Class BlockCache (W : Type) := {
  cache_NewId : W -> W * Z;
  cache_Lookup : W -> bytes -> W * option Block;
  cache_Insert : W -> bytes -> Block -> Z -> W
}.

(** [cache_holds w k b]: a lookup of [k] may return [b]. *)
Class BlockCacheLaws (W : Type) `{BlockCache W} := {
  cache_holds : W -> bytes -> Block -> Prop;
  cache_Lookup_holds w k w' b : cache_Lookup w k = (w', Some b) -> cache_holds w k b;
  cache_Lookup_keeps w k w' o k' b : cache_Lookup w k = (w', o) -> cache_holds w' k' b -> cache_holds w k' b;
  cache_Insert_holds w k b charge k' b' :
    cache_holds (cache_Insert w k b charge) k' b' -> (k' = k /\ b' = b) \/ cache_holds w k' b';
  cache_NewId_keeps w k b : cache_holds (cache_NewId w).1 k b -> cache_holds w k b
}.

(** ** Tables *)

(** [Table::Rep] *)
Record Table (F : Type) := MkTable {
  tbl_options : Options;
  tbl_file : F;
  cache_id : Z;
  filter : option (FilterPolicy * FilterBlockReader);
  metaindex_handle : BlockHandle;
  tbl_index_block : Block
}.
Arguments MkTable {F} _ _ _ _ _ _.
Arguments tbl_options {F} _.
Arguments tbl_file {F} _.
Arguments cache_id {F} _.
Arguments filter {F} _.
Arguments metaindex_handle {F} _.
Arguments tbl_index_block {F} _.

(** What [BlockReader] returns: an iterator over a block, or an error. *)
Inductive BlockOrError := ReadOk (it : BlockIterator) | ReadError (e : EmptyIterator).

Definition read_move {C : Comparator} (op : iter_op) (i : BlockOrError) : res BlockOrError :=
  match i with
  | ReadOk it => let? it := it_step it op in Ok (ReadOk it)
  | ReadError e => let? e := it_step e op in Ok (ReadError e)
  end.

#[export] Instance BlockOrError_Iterator `{C : Comparator} : Iterator BlockOrError := {|
  it_Valid i := match i with ReadOk it => it_Valid it | ReadError e => it_Valid e end;
  it_SeekToFirst := read_move OpSeekToFirst;
  it_SeekToLast := read_move OpSeekToLast;
  it_Seek i target := read_move (OpSeek target) i;
  it_Next := read_move OpNext;
  it_Prev := read_move OpPrev;
  it_key i := match i with ReadOk it => it_key it | ReadError e => it_key e end;
  it_value i := match i with ReadOk it => it_value it | ReadError e => it_value e end;
  it_status i := match i with ReadOk it => it_status it | ReadError e => it_status e end
|}.

Section table.
Context `{C : Comparator} {F : Type} `{RF : RandomAccessFile F} `{Sn : Snappy} {W : Type} `{BC : BlockCache W}.

Definition set_filter (t : Table F) (fr : option (FilterPolicy * FilterBlockReader)) : Table F :=
  MkTable (tbl_options t) (tbl_file t) (cache_id t) fr (metaindex_handle t) (tbl_index_block t).

Definition ReadFilter (t : Table F) (p : FilterPolicy) (filter_handle_value : bytes) : res (Table F) :=
  match BlockHandle_DecodeFrom filter_handle_value with
  | inr _ => Ok t
  | inl (filter_handle, _) =>
      let? r := ReadBlock (tbl_file t) (paranoid_checks (tbl_options t)) filter_handle in
      match r with
      | inr _ => Ok t
      | inl block => Ok (set_filter t (Some (p, NewFilterBlockReader (bc_data block))))
      end
  end.

(** The metaindex block is ordered bytewise, whatever the comparator of the table. *)
Definition ReadMeta (t : Table F) (footer : Footer) : res (Table F) :=
  match filter_policy (tbl_options t) with
  | None => Ok t
  | Some p =>
      let? r := ReadBlock (tbl_file t) (paranoid_checks (tbl_options t)) (metaindex_handle_ footer) in
      match r with
      | inr _ => Ok t
      | inl contents =>
          let iter := Block_NewIterator (NewBlock (bc_data contents)) in
          let key := str "filter." ++ @fp_Name p in
          let? iter := @it_Seek _ (@BlockIterator_Iterator BytewiseComparator) iter key in
          if @it_Valid _ (@BlockIterator_Iterator BytewiseComparator) iter
             && bool_decide (@it_key _ (@BlockIterator_Iterator BytewiseComparator) iter = key)
          then
            let? v := @it_value _ (@BlockIterator_Iterator BytewiseComparator) iter in
            ReadFilter t p v
          else Ok t
      end
  end.

(** [block_cache] is [None] when the options have none. *)
Definition Table_Open (o : Options) (f : F) (file_size : Z) (block_cache : option W)
    : res (option W * (Table F + Status)) :=
  if file_size <? kEncodedLength then
    Ok (block_cache, inr (Status_Corruption (str "file is too short to be an sstable") []))
  else
    let '(footer_input, s, _) := raf_Read f (file_size - kEncodedLength) kEncodedLength in
    if negb (Status_ok s) then Ok (block_cache, inr s)
    else
      let? d := Footer_DecodeFrom footer_input in
      match d with
      | inr s => Ok (block_cache, inr s)
      | inl (footer, _) =>
          let? r := ReadBlock f (paranoid_checks o) (index_handle_ footer) in
          match r with
          | inr s => Ok (block_cache, inr s)
          | inl index_block_contents =>
              let index_block := NewBlock (bc_data index_block_contents) in
              let '(block_cache, id) :=
                match block_cache with
                | Some w => let '(w, id) := cache_NewId w in (Some w, id)
                | None => (None, 0)
                end in
              let? t := ReadMeta (MkTable o f id None (metaindex_handle_ footer) index_block) footer in
              Ok (block_cache, inl t)
          end
      end.

Definition block_cache_key (id offset : Z) : bytes := EncodeFixed64 id ++ EncodeFixed64 offset.

(** The iterator made from a block read from the file. *)
Definition block_or_error (r : BlockContents + Status) : BlockOrError :=
  match r with
  | inl contents => ReadOk (Block_NewIterator (NewBlock (bc_data contents)))
  | inr s => ReadError (NewErrorIterator s)
  end.

Definition BlockReader (t : Table F) (verify_checksums fill_cache : bool)
    (block_cache : option W) (index_value : bytes) : res (option W * BlockOrError) :=
  match BlockHandle_DecodeFrom index_value with
  | inr s => Ok (block_cache, ReadError (NewErrorIterator s))
  | inl (handle, _) =>
      match block_cache with
      | Some w =>
          let key := block_cache_key (cache_id t) (bh_offset handle) in
          let '(w, found) := cache_Lookup w key in
          match found with
          | Some block => Ok (Some w, ReadOk (Block_NewIterator block))
          | None =>
              let? r := ReadBlock (tbl_file t) verify_checksums handle in
              let w :=
                match r with
                | inl contents =>
                    if cachable contents && fill_cache
                    then cache_Insert w key (NewBlock (bc_data contents)) (size_ (NewBlock (bc_data contents)))
                    else w
                | inr _ => w
                end in
              Ok (Some w, block_or_error r)
          end
      | None =>
          let? r := ReadBlock (tbl_file t) verify_checksums handle in
          Ok (None, block_or_error r)
      end
  end.

Definition Table_NewIterator (t : Table F) (block_cache : option W)
    : TwoLevelIterator (option W) BlockIterator BlockOrError :=
  NewTwoLevelIterator (Block_NewIterator (tbl_index_block t)) block_cache.

(** Its interface, with the read options of the iterator. *)
Definition TableIterator (t : Table F) (verify_checksums fill_cache : bool) (fuel : nat)
    : Iterator (TwoLevelIterator (option W) BlockIterator BlockOrError) :=
  TwoLevel_Iterator (BlockReader t verify_checksums fill_cache) fuel.

(** The calls of [handle_result] are returned as a value: there is at most one. *)
Definition InternalGet (t : Table F) (verify_checksums fill_cache : bool) (block_cache : option W) (k : bytes)
    : res (option W * Status * option (bytes * bytes)) :=
  let? iiter := it_Seek (Block_NewIterator (tbl_index_block t)) k in
  let? r :=
    if it_Valid iiter then
      let? handle_value := it_value iiter in
      let? excluded :=
        match filter t with
        | Some (p, fr) =>
            match BlockHandle_DecodeFrom handle_value with
            | inl (handle, _) =>
                let? may_match := @FilterBlock_KeyMayMatch p fr (bh_offset handle) k in Ok (negb may_match)
            | inr _ => Ok false
            end
        | None => Ok false
        end in
      if excluded then Ok (block_cache, Status_OK, None)
      else
        let? b := BlockReader t verify_checksums fill_cache block_cache handle_value in
        let '(block_cache, block_iter) := b in
        let? block_iter := it_Seek block_iter k in
        let? found :=
          if it_Valid block_iter then
            let? v := it_value block_iter in Ok (Some (it_key block_iter, v))
          else Ok None in
        Ok (block_cache, it_status block_iter, found)
    else Ok (block_cache, Status_OK, None) in
  let '(block_cache, s, found) := r in
  let s := if Status_ok s then it_status iiter else s in
  Ok (block_cache, s, found).

Definition ApproximateOffsetOf (t : Table F) (key : bytes) : res Z :=
  let? index_iter := it_Seek (Block_NewIterator (tbl_index_block t)) key in
  if it_Valid index_iter then
    let? v := it_value index_iter in
    match BlockHandle_DecodeFrom v with
    | inl (handle, _) => Ok (bh_offset handle)
    | inr _ => Ok (bh_offset (metaindex_handle t))
    end
  else Ok (bh_offset (metaindex_handle t)).
End table.
