(* ===== verification/TableLayout.v ===== *)
(** * The layout of a table file

    What a finished table file holds, and the proof that opening such a file gives a
    table whose iterator is a cursor in its pairs and whose lookups find them. *)
From S2P Require Import Prelude Coding Bloom Comparator Status Cursor Block Merger LogWriter FilterBlock Format TableBuilder TwoLevel Table.

(** ** The layout *)

(** A data block of the table: its pairs, the key it has in the index, its handle. *)
Record data_part := Part { p_kvs : list (bytes * bytes); p_sep : bytes; p_handle : BlockHandle }.

Definition enc_handle (h : BlockHandle) : bytes := BlockHandle_EncodeTo h [].

Definition raw_block (interval : Z) (kvs : list (bytes * bytes)) : bytes :=
  (BlockBuilder_Finish (build interval kvs)).2.

Definition index_entries (ps : list data_part) : list (bytes * bytes) :=
  map (fun p => (p_sep p, enc_handle (p_handle p))) ps.

Definition all_pairs (ps : list data_part) : list (bytes * bytes) := concat (map p_kvs ps).

Definition handle_ok (h : BlockHandle) : Prop := fits 64 (bh_offset h) /\ fits 64 (bh_size h).

(** The order of pairs and separators, and blocks at different places. *)
Record parts_ok `{C : Comparator} (ps : list data_part) : Prop := {
  po_ascending i p : ps !! i = Some p -> ascending (p_kvs p);
  po_upper i p x : ps !! i = Some p -> x ∈ p_kvs p -> cmp_Compare x.1 (p_sep p) <= 0;
  po_lower i j p q x : (i < j)%nat -> ps !! i = Some p -> ps !! j = Some q -> x ∈ p_kvs q ->
    cmp_Compare (p_sep p) x.1 < 0;
  po_index : ascending (index_entries ps);
  po_distinct i j p q : ps !! i = Some p -> ps !! j = Some q ->
    bh_offset (p_handle p) = bh_offset (p_handle q) -> p = q
}.

(** The filter block of a table with policy [fp]: it hides no key of its blocks. *)
Definition filter_ok (fp : FilterPolicy) (contents : bytes) (ps : list data_part) : Prop :=
  base_lg_ (NewFilterBlockReader contents) < 64 /\
  forall p x, p ∈ ps -> x ∈ p_kvs p ->
    @FilterBlock_KeyMayMatch fp (NewFilterBlockReader contents) (bh_offset (p_handle p)) x.1 = Ok true.

Record table_layout `{C : Comparator} `{Sn : Snappy} (o : Options) (data : bytes) (ps : list data_part) : Prop := {
  ly_size : size data < 2 ^ 63;
  ly_interval : 1 <= opt_block_restart_interval o;
  ly_parts : parts_ok ps;
  ly_block p : p ∈ ps -> handle_ok (p_handle p) /\
    block_at data (p_handle p) (raw_block (opt_block_restart_interval o) (p_kvs p)) /\
    size (raw_block (opt_block_restart_interval o) (p_kvs p)) < 2 ^ 32;
  ly_footer : exists body metaindex index, data = body ++ Footer_EncodeTo (MkFooter metaindex index) [] /\
    handle_ok metaindex /\ handle_ok index /\
    block_at data index (raw_block 1 (index_entries ps)) /\ size (raw_block 1 (index_entries ps)) < 2 ^ 32 /\
    match filter_policy o with
    | None => True
    | Some fp => exists fh contents,
        block_at data metaindex
          (raw_block (opt_block_restart_interval o) [(str "filter." ++ @fp_Name fp, enc_handle fh)]) /\
        size (raw_block (opt_block_restart_interval o) [(str "filter." ++ @fp_Name fp, enc_handle fh)]) < 2 ^ 32 /\
        handle_ok fh /\ block_at data fh contents /\ filter_ok fp contents ps
    end
}.

(** ** Opening *)

Lemma decode_handle h : handle_ok h -> BlockHandle_DecodeFrom (enc_handle h) = inl (h, []).
Proof.
  intros [Ho Hs]. destruct (BlockHandle_roundtrip h [] [] Ho Hs) as (enc & E & _ & D).
  unfold enc_handle. rewrite E. cbn [app]. by rewrite app_nil_r in D.
Qed.

Section open.
Context `{C : Comparator} `{!ComparatorLaws C} {F : Type} `{RFL : RandomAccessFileLaws F}
  `{Sn : Snappy} `{!SnappyLaws Sn} {W : Type} `{BCL : BlockCacheLaws W}.
Context (o : Options) (f : F) (ps : list data_part).
Context (Hrel : reliable f) (Hly : table_layout o (raf_contents f) ps).

Abbreviation interval := (opt_block_restart_interval o).

(** A table opened on the file. *)
Record opened (t : Table F) : Prop := {
  op_options : tbl_options t = o;
  op_file : tbl_file t = f;
  op_index : tbl_index_block t = NewBlock (raw_block 1 (index_entries ps));
  op_meta : handle_ok (metaindex_handle t);
  op_filter : match filter t with
    | None => filter_policy o = None
    | Some (fp, fr) => filter_policy o = Some fp /\ exists contents,
        fr = NewFilterBlockReader contents /\ filter_ok fp contents ps
    end
}.

Lemma ReadMeta_ok t metaindex index :
  tbl_options t = o -> tbl_file t = f -> tbl_index_block t = NewBlock (raw_block 1 (index_entries ps)) ->
  handle_ok (metaindex_handle t) ->
  handle_ok metaindex ->
  match filter_policy o with
  | None => True
  | Some fp => exists fh contents,
      block_at (raf_contents f) metaindex
        (raw_block interval [(str "filter." ++ @fp_Name fp, enc_handle fh)]) /\
      size (raw_block interval [(str "filter." ++ @fp_Name fp, enc_handle fh)]) < 2 ^ 32 /\
      handle_ok fh /\ block_at (raf_contents f) fh contents /\ filter_ok fp contents ps
  end ->
  filter t = None ->
  exists t', ReadMeta t (MkFooter metaindex index) = Ok t' /\ opened t' /\ cache_id t' = cache_id t /\
    metaindex_handle t' = metaindex_handle t.
Proof.
  intros Ho Hf Hi Hh Hm Hfilter Hnone. unfold ReadMeta. rewrite Ho, Hf. cbn [metaindex_handle_].
  destruct (filter_policy o) as [fp|] eqn:Ep.
  2: { exists t. split; [done|]. split; [|done]. split; try done. by rewrite Hnone, Ep. }
  destruct Hfilter as (fh & contents & Hmb & Hms & Hfh & Hfb & Hfok).
  pose proof (ly_size _ _ _ Hly) as Hsz. pose proof (ly_interval _ _ _ Hly) as Hint.
  destruct (ReadBlock_at f (paranoid_checks o) metaindex _ Hrel Hmb Hsz) as (c & -> & Hc). cbn [res_bind].
  rewrite Hc. set (name := str "filter." ++ @fp_Name fp) in *. set (meta := [(name, enc_handle fh)]) in *.
  assert (Hasc : @ascending BytewiseComparator meta) by (by intros [|[|i]] [|[|j]] x y Hij Hx Hy; try lia; try done).
  pose proof (@built_iterates BytewiseComparator _ interval meta Hint Hasc Hms) as Hit.
  fold (raw_block interval meta) in Hit.
  assert (Hge : @find_ge BytewiseComparator name meta = Some O).
  { unfold meta. cbn [find_ge]. rewrite (@cmp_refl BytewiseComparator _). done. }
  destruct (@iterates_step BytewiseComparator _ _ _ _ _ (OpSeek name) (Some O) Hit) as (it & E & Hit');
    [cbn [cursor_step]; by rewrite Hge|].
  cbn [it_step] in E. rewrite E. cbn [res_bind].
  rewrite (@iterates_valid BytewiseComparator _ _ _ _ _ Hit'), bool_decide_eq_true_2 by eauto.
  destruct (@iterates_key BytewiseComparator _ _ _ _ _ name (enc_handle fh) Hit' eq_refl) as [-> ->].
  rewrite bool_decide_eq_true_2 by done. cbn [andb res_bind]. unfold ReadFilter. rewrite decode_handle by done.
  rewrite Ho, Hf. destruct (ReadBlock_at f (paranoid_checks o) fh _ Hrel Hfb Hsz) as (c' & -> & Hc').
  cbn [res_bind]. eexists. split; [done|]. split; [|done]. split; try done. cbn. split; [by rewrite Ep|].
  exists contents. by rewrite Hc'.
Qed.

Lemma Open_ok (bc : option W) :
  exists bc' t, Table_Open o f (size (raf_contents f)) bc = Ok (bc', inl t) /\ opened t /\
    match bc with
    | None => bc' = None
    | Some w => bc' = Some (cache_NewId w).1 /\ cache_id t = (cache_NewId w).2
    end.
Proof.
  destruct (ly_footer _ _ _ Hly) as (body & metaindex & index & Hdata & Hmh & Hih & Hib & His & Hfilter).
  pose proof (ly_size _ _ _ Hly) as Hsz. destruct Hmh as [Hm1 Hm2]. destruct Hih as [Hi1 Hi2].
  destruct (Footer_roundtrip (MkFooter metaindex index) Hm1 Hm2 Hi1 Hi2) as [Hfs (rest & Hfd)].
  unfold Table_Open. assert (Hsize : size (raf_contents f) = size body + kEncodedLength).
  { rewrite Hdata, size_app, Hfs. done. }
  pose proof (size_nonneg body). rewrite Hsize. destruct (Z.ltb_spec (size body + kEncodedLength) kEncodedLength); [lia|].
  replace (size body + kEncodedLength - kEncodedLength) with (size body) by lia.
  pose proof (Hrel (size body) kEncodedLength) as Hok.
  destruct (raf_Read f (size body) kEncodedLength) as [[input s] sc] eqn:E. cbn in Hok. rewrite Hok. cbn [negb].
  apply raf_Read_ok in E; [|done|by unfold kEncodedLength, kMaxEncodedLength|done].
  rewrite Hdata, drop_app_size in E. rewrite <- Hfs, take_size in E. rewrite E, Hfd. cbn [res_bind index_handle_].
  destruct (ReadBlock_at f (paranoid_checks o) index _ Hrel Hib Hsz) as (c & -> & Hc). cbn [res_bind]. rewrite Hc.
  cbn [metaindex_handle_]. destruct bc as [w|].
  - destruct (cache_NewId w) as [w' id] eqn:Ew.
    destruct (ReadMeta_ok (MkTable o f id None metaindex (NewBlock (raw_block 1 (index_entries ps)))) metaindex index)
      as (t & -> & Ht & Hid & _); [done..|].
    cbn [res_bind]. exists (Some w'), t. split; [done|]. split; [done|]. by rewrite Hid.
  - destruct (ReadMeta_ok (MkTable o f 0 None metaindex (NewBlock (raw_block 1 (index_entries ps)))) metaindex index)
      as (t & -> & Ht & Hid & _); [done..|].
    cbn [res_bind]. exists None, t. done.
Qed.

(** *** Reading blocks through the cache *)

Context (t : Table F) (Ht : opened t) (verify fill : bool).

(** What the cache holds under the keys of this table is right. *)
Definition cache_ok (bc : option W) : Prop :=
  match bc with
  | None => True
  | Some w => forall p b, p ∈ ps -> cache_holds w (block_cache_key (cache_id t) (bh_offset (p_handle p))) b ->
      b = NewBlock (raw_block interval (p_kvs p))
  end.

(** The pairs behind an index value. *)
Definition pairs_of (h : bytes) : list (bytes * bytes) :=
  match List.find (fun p => bool_decide (enc_handle (p_handle p) = h)) ps with
  | Some p => p_kvs p
  | None => []
  end.

Lemma handles_ok p : p ∈ ps -> handle_ok (p_handle p).
Proof. intros Hp. by apply (ly_block _ _ _ Hly p Hp). Qed.

Lemma enc_handle_inj h h' : handle_ok h -> handle_ok h' -> enc_handle h = enc_handle h' -> h = h'.
Proof. intros H1 H2 E. pose proof (decode_handle h H1) as D. rewrite E, decode_handle in D by done. by injection D as ->. Qed.

Lemma parts_inj p q : p ∈ ps -> q ∈ ps -> bh_offset (p_handle p) = bh_offset (p_handle q) -> p = q.
Proof.
  intros (i & Hi)%list_elem_of_lookup (j & Hj)%list_elem_of_lookup E.
  by apply (po_distinct _ (ly_parts _ _ _ Hly) i j).
Qed.

Lemma pairs_of_handle p : p ∈ ps -> pairs_of (enc_handle (p_handle p)) = p_kvs p.
Proof.
  intros Hp. unfold pairs_of. destruct (List.find _ ps) as [q|] eqn:E.
  - apply find_some in E as [Hq E]. apply list_elem_of_In in Hq. apply bool_decide_eq_true in E.
    apply enc_handle_inj in E; [|by apply handles_ok..]. f_equal. by apply parts_inj; [..|rewrite E].
  - apply list_elem_of_In in Hp. apply (find_none _ _ E) in Hp. by apply bool_decide_eq_false in Hp.
Qed.

Lemma cache_key_inj id a b : fits 64 a -> fits 64 b -> block_cache_key id a = block_cache_key id b -> a = b.
Proof.
  intros Ha Hb E. apply app_inv_head in E. apply (f_equal DecodeFixed64) in E.
  rewrite <- (app_nil_r (EncodeFixed64 a)), <- (app_nil_r (EncodeFixed64 b)), !DecodeFixed64_encode in E.
  by rewrite !wrap_id in E by done.
Qed.

Lemma read_iterates it kvs c : iterates_at it kvs c -> iterates_at (ReadOk it) kvs c.
Proof.
  intros Hi. exists (fun i c => exists it, i = ReadOk it /\ iterates_at it kvs c). split; [|by exists it].
  clear. intros i c (it & -> & Hi). destruct (iterates_reads _ _ _ Hi) as (H1 & H2 & H3). split_and!; try done.
  intros op c' Hop. destruct (iterates_step it kvs c op c' Hi Hop) as (it' & E & Hi'). exists (ReadOk it').
  split; [|by exists it']. destruct op; cbn [it_step it_SeekToFirst it_SeekToLast it_Seek it_Next it_Prev
    BlockOrError_Iterator read_move] in *; by rewrite E.
Qed.

Lemma block_iterates p : p ∈ ps ->
  iterates_at (ReadOk (Block_NewIterator (NewBlock (raw_block interval (p_kvs p))))) (p_kvs p) None.
Proof.
  intros Hp. destruct (ly_block _ _ _ Hly p Hp) as (_ & _ & Hsz). apply read_iterates, built_iterates; [|..|done].
  - apply (ly_interval _ _ _ Hly).
  - apply list_elem_of_lookup in Hp as [i Hi]. by apply (po_ascending _ (ly_parts _ _ _ Hly) i).
Qed.

Lemma BlockReader_ok bc p : p ∈ ps -> cache_ok bc ->
  exists bc' it, BlockReader t verify fill bc (enc_handle (p_handle p)) = Ok (bc', it) /\ cache_ok bc' /\
    iterates_at it (p_kvs p) None.
Proof.
  intros Hp Hbc. destruct (ly_block _ _ _ Hly p Hp) as (Hh & Hat & _). unfold BlockReader.
  rewrite decode_handle by done. pose proof (block_iterates p Hp) as Hit.
  destruct (ReadBlock_at f verify _ _ Hrel Hat (ly_size _ _ _ Hly)) as (c & Er & Hc).
  rewrite (op_file t Ht). destruct bc as [w|].
  2: { rewrite Er. cbn [res_bind block_or_error]. rewrite Hc. eexists _, _. split; [done|]. by split. }
  cbn in Hbc. destruct (cache_Lookup w _) as [w' found] eqn:El.
  assert (Hw' : cache_ok (Some w')).
  { intros q b Hq Hb. apply (Hbc q b Hq). by eapply cache_Lookup_keeps. }
  destruct found as [b|].
  - eexists _, _. split; [done|]. split; [done|]. rewrite (Hbc p b Hp) by (by eapply cache_Lookup_holds). done.
  - rewrite Er. cbn [res_bind block_or_error]. rewrite Hc. eexists _, _. split; [done|]. split; [|done].
    destruct (cachable c && fill); [|done]. intros q b Hq Hb. apply cache_Insert_holds in Hb as [[Ek ->]|Hb].
    + apply cache_key_inj in Ek; [|apply (handles_ok q Hq)|apply Hh]. by rewrite (parts_inj q p Hq Hp Ek).
    + by apply Hw'.
Qed.

(** *** The iterator of the table *)

Lemma index_iterates : iterates_at (Block_NewIterator (tbl_index_block t)) (index_entries ps) None.
Proof.
  rewrite (op_index t Ht). destruct (ly_footer _ _ _ Hly) as (_ & _ & _ & _ & _ & _ & _ & Hs & _).
  apply built_iterates; [lia|apply (ly_parts _ _ _ Hly)|done].
Qed.

Lemma index_lookup i e : index_entries ps !! i = Some e ->
  exists p, ps !! i = Some p /\ p ∈ ps /\ e = (p_sep p, enc_handle (p_handle p)).
Proof.
  unfold index_entries. rewrite list_lookup_fmap. destruct (ps !! i) as [p|] eqn:E; [|done]. intros [= <-].
  exists p. split; [done|]. split; [by apply (list_elem_of_lookup_2 _ i)|done].
Qed.

Lemma index_two_level : two_level_ok pairs_of (index_entries ps).
Proof.
  pose proof (ly_parts _ _ _ Hly) as Hpo. split.
  - apply Hpo.
  - intros i e Hi. apply index_lookup in Hi as (p & Hi & Hp & ->). cbn [fst snd]. rewrite pairs_of_handle by done.
    by apply (po_ascending _ Hpo i).
  - intros i e x Hi. apply index_lookup in Hi as (p & Hi & Hp & ->). cbn [fst snd]. rewrite pairs_of_handle by done.
    by apply (po_upper _ Hpo i).
  - intros i j e e' x Hij Hi Hj. apply index_lookup in Hi as (p & Hi & Hp & ->).
    apply index_lookup in Hj as (q & Hj & Hq & ->). cbn [fst snd]. rewrite pairs_of_handle by done.
    by apply (po_lower _ Hpo i j).
Qed.

Lemma flat_pairs : flat pairs_of (index_entries ps) = all_pairs ps.
Proof.
  unfold flat, all_pairs, index_entries. rewrite map_map. f_equal. apply map_ext_in.
  intros p Hp. apply list_elem_of_In in Hp. by apply pairs_of_handle.
Qed.

Lemma reader_opens : opens_blocks (BlockReader t verify fill) cache_ok pairs_of (index_entries ps).
Proof.
  intros bc i e Hbc Hi. apply index_lookup in Hi as (p & _ & Hp & ->). cbn [fst snd]. rewrite pairs_of_handle by done.
  by apply BlockReader_ok.
Qed.

Lemma table_iterates bc fuel :
  cache_ok bc -> (length ps <= fuel)%nat ->
  @iterates_at C _ (TableIterator t verify fill fuel) (Table_NewIterator t bc) (all_pairs ps) None.
Proof.
  intros Hbc Hfuel. rewrite <- flat_pairs. unfold Table_NewIterator, TableIterator.
  apply (NewTwoLevelIterator_iterates _ cache_ok); try done.
  - exact reader_opens.
  - exact index_two_level.
  - unfold index_entries. by rewrite length_map.
  - exact index_iterates.
Qed.

(** *** Looking up a key *)

(** The pair a lookup leads to, if it is not in a gap above a block or filtered out. *)
Lemma InternalGet_ok bc k :
  cache_ok bc ->
  let target := at_cursor (all_pairs ps) (find_ge k (all_pairs ps)) in
  exists bc' s found, InternalGet t verify fill bc k = Ok (bc', s, found) /\ cache_ok bc' /\ Status_ok s = true /\
    (found = None \/ found = target) /\
    (forall x, target = Some x ->
       (forall fp fr, filter t = Some (fp, fr) ->
          forall b, @FilterBlock_KeyMayMatch fp fr b x.1 = @FilterBlock_KeyMayMatch fp fr b k) ->
       (forall p, p ∈ ps -> cmp_Compare k (p_sep p) <= 0 -> cmp_Compare x.1 (p_sep p) <= 0) ->
       found = Some x).
Proof.
  intros Hbc target. pose proof index_two_level as Htl. pose proof flat_pairs as Hfl. unfold InternalGet.
  destruct (iterates_step _ _ _ (OpSeek k) _ index_iterates eq_refl) as (iit & E & Hiit). cbn [it_step] in E.
  rewrite E. cbn [res_bind]. rewrite (iterates_valid _ _ _ Hiit).
  pose proof (iterates_reads _ _ _ Hiit) as (_ & _ & Hist).
  destruct (find_ge k (index_entries ps)) as [i|] eqn:Ei.
  2: { cbn [bool_decide decide]. rewrite bool_decide_eq_false_2 by (by intros []). cbn [res_bind Status_ok].
    eexists _, _, _. split; [done|]. split; [done|]. split; [done|]. split; [by left|]. intros x Hx. exfalso.
    unfold target in Hx. rewrite <- Hfl, (find_ge_flat_none _ _ Htl k Ei) in Hx. done. }
  rewrite bool_decide_eq_true_2 by eauto.
  destruct (proj1 (proj1 (proj2 (iterates_reads _ _ _ Hiit))) ltac:(eauto)) as [e He].
  cbn in He. pose proof He as He'. apply index_lookup in He' as (p & Hpi & Hp & ->).
  destruct (iterates_key _ _ _ _ _ Hiit He) as [_ ->]. cbn [res_bind].
  pose proof (find_ge_flat _ _ Htl k i _ He Ei) as Hfind. cbn [snd] in Hfind.
  rewrite pairs_of_handle, Hfl in Hfind by done.
  assert (Hsep : cmp_Compare k (p_sep p) <= 0).
  { pose proof (find_ge_spec k (index_entries ps)) as Hs. rewrite Ei in Hs. destruct Hs as [(e & He2 & Hge) _].
    rewrite He in He2. injection He2 as <-. apply cmp_sym_le. cbn in Hge. lia. }
  (* the target in the block, when the lookup stays in it *)
  assert (Hin : forall q, find_ge k (p_kvs p) = Some q -> target = p_kvs p !! q).
  { intros q Hq. rewrite Hq in Hfind. unfold target. rewrite Hfind. cbn.
    pose proof (find_ge_spec k (p_kvs p)) as Hs. rewrite Hq in Hs. destruct Hs as [(y & Hy & _) _]. rewrite Hy.
    rewrite <- Hfl. apply (flat_lookup _ _ i _ q y He). cbn [snd]. by rewrite pairs_of_handle. }
  assert (Hx : forall x, target = Some x -> cmp_Compare x.1 (p_sep p) <= 0 -> x ∈ p_kvs p).
  { intros x Hx Hle. destruct (find_ge k (p_kvs p)) as [q|] eqn:Eq.
    - rewrite (Hin q eq_refl) in Hx. by apply (list_elem_of_lookup_2 _ q).
    - exfalso. unfold target in Hx. rewrite Hfind in Hx. unfold norm in Hx.
      destruct (_ <? _)%nat; [|done]. cbn in Hx. rewrite <- Hfl in Hx.
      apply flat_inv in Hx as (j & e & r & Hj & Hr & Hoff). destruct (decide (i < j)%nat) as [Hij|Hij].
      + pose proof (tl_lower _ _ Htl i j _ e x Hij He Hj (list_elem_of_lookup_2 _ _ _ Hr)) as Hlt. cbn in Hlt.
        apply cmp_sym_lt in Hlt. lia.
      + pose proof (flat_off_mono pairs_of (index_entries ps) (S j) (S i) ltac:(lia)) as Hm.
        rewrite (flat_off_S _ _ _ _ Hj) in Hm. apply lookup_lt_Some in Hr. lia. }
  (* reading the block *)
  assert (Hread : exists bc' s found, (
      let? b := BlockReader t verify fill bc (enc_handle (p_handle p)) in
      let '(block_cache, block_iter) := b in
      let? block_iter := it_Seek block_iter k in
      let? found := (if it_Valid block_iter then let? v := it_value block_iter in Ok (Some (it_key block_iter, v))
        else Ok None) in
      Ok (block_cache, it_status block_iter, found)) = Ok (bc', s, found) /\ cache_ok bc' /\ Status_ok s = true /\
      found = at_cursor (p_kvs p) (find_ge k (p_kvs p))).
  { destruct (BlockReader_ok bc p Hp Hbc) as (bc' & it & -> & Hbc' & Hit). cbn [res_bind].
    destruct (iterates_step it _ _ (OpSeek k) _ Hit eq_refl) as (it' & E' & Hit'). cbn [it_step] in E'. rewrite E'.
    cbn [res_bind]. destruct (iterates_reads _ _ _ Hit') as (Hrd & _ & Hst). unfold it_reads in Hrd.
    rewrite Hrd. cbn [res_bind]. eexists _, _, _. split; [done|]. by split_and!. }
  destruct Hread as (bc' & s & found & Eread & Hbc' & Hs & Hfound).
  assert (Hfound' : found = None \/ found = target).
  { destruct (find_ge k (p_kvs p)) as [q|]; [|by left]. right. rewrite Hfound, (Hin q eq_refl). done. }
  assert (Hyes : forall x, target = Some x -> x ∈ p_kvs p -> found = Some x).
  { intros x Htx Hxin. destruct (find_ge k (p_kvs p)) as [q|] eqn:Eq; [by rewrite Hfound, <- Htx, (Hin q eq_refl)|].
    exfalso. pose proof (find_ge_spec k (p_kvs p)) as Hn. rewrite Eq in Hn.
    apply list_elem_of_lookup in Hxin as [j Hj]. specialize (Hn j x Hj).
    pose proof (find_ge_spec k (all_pairs ps)) as Ha. unfold target in Htx.
    destruct (find_ge k (all_pairs ps)) as [g|]; [|done]. destruct Ha as [(y & Hy & Hge) _]. cbn in Htx.
    rewrite Hy in Htx. injection Htx as ->. lia. }
  destruct (filter t) as [[fp fr]|] eqn:Ef.
  - rewrite decode_handle by (by apply handles_ok). pose proof (op_filter t Ht) as Hof. rewrite Ef in Hof.
    destruct Hof as (_ & contents & -> & Hlg & Hfok).
    destruct (@FilterBlock_KeyMayMatch fp (NewFilterBlockReader contents) (bh_offset (p_handle p)) k) as [[|]| |] eqn:Em.
    + cbn [res_bind negb]. rewrite Eread. cbn [res_bind]. rewrite Hs. eexists _, _, _. split; [done|].
      split; [done|]. split; [done|]. split; [done|]. intros x Htx _ Hle. apply Hyes; [done|]. apply Hx; [done|].
      by apply Hle.
    + cbn [res_bind negb Status_ok]. eexists _, _, _. split; [done|]. split; [done|]. split; [done|]. split; [by left|].
      intros x Htx Hsame Hle. exfalso. specialize (Hx x Htx (Hle p Hp Hsep)).
      pose proof (Hfok p x Hp Hx) as Hmay. rewrite (Hsame fp _ eq_refl), Em in Hmay. done.
    + by destruct (KeyMayMatch_defined (policy_ := fp) _ (bh_offset (p_handle p)) k Hlg) as [b Eb]; rewrite Em in Eb.
    + by destruct (KeyMayMatch_defined (policy_ := fp) _ (bh_offset (p_handle p)) k Hlg) as [b Eb]; rewrite Em in Eb.
  - cbn [res_bind]. rewrite Eread. cbn [res_bind]. rewrite Hs. eexists _, _, _. split; [done|].
    split; [done|]. split; [done|]. split; [done|]. intros x Htx _ Hle. apply Hyes; [done|]. apply Hx; [done|].
    by apply Hle.
Qed.
End open.
