(* ===== verification/TableCorrect.v ===== *)
(** * Tables: what was built is read back

    The proof that the builder writes the layout of [TableLayout], and the theorems on
    tables: a table built from sorted pairs and opened again iterates over them and
    finds them. *)
From S2P Require Import Prelude Coding Bloom Comparator DbFormat Crc32c Status Cursor Block Merger LogWriter FilterBlock Format TableBuilder TwoLevel Table TableLayout.

(** ** Sizes *)

(** Separators and successors do not grow. *)
Class ComparatorShort (C : Comparator) : Prop := {
  short_separator s l : size (cmp_FindShortestSeparator s l) <= size s;
  short_successor k : size (cmp_FindShortSuccessor k) <= size k
}.

#[export] Instance BytewiseShort : ComparatorShort BytewiseComparator.
Proof.
  split; cbn.
  - intros s l. unfold BytewiseFindShortestSeparator. destruct (Nat.leb_spec (Nat.min (length s) (length l)) (diff_index s l)); [done|].
    destruct (_ && _); [|done]. rewrite size_app, size_take_nat by lia. unfold size. cbn. lia.
  - intros k. induction k as [|c k IH]; [done|]. cbn. destruct (negb _).
    + rewrite !size_cons. pose proof (size_nonneg k). rewrite size_nil. lia.
    + rewrite !size_cons. lia.
Qed.

#[export] Instance InternalShort `{C : Comparator} : ComparatorShort (InternalKeyComparator C).
Proof.
  split; cbn.
  - intros s l. unfold Internal_FindShortestSeparator. destruct (_ <? _) eqn:E; [|done]. cbn [andb].
    destruct (cmp_Compare _ _ <? 0); [|done]. unfold PutFixed64. rewrite size_app, size_EncodeFixed64.
    apply Z.ltb_lt in E. revert E. unfold ExtractUserKey. rewrite size_take_nat by lia. unfold size. lia.
  - intros s. unfold Internal_FindShortSuccessor. destruct (_ <? _) eqn:E; [|done]. cbn [andb].
    destruct (cmp_Compare _ _ <? 0); [|done]. unfold PutFixed64. rewrite size_app, size_EncodeFixed64.
    apply Z.ltb_lt in E. revert E. unfold ExtractUserKey. rewrite size_take_nat by lia. unfold size. lia.
Qed.

(** What a pair takes in a block at most, with room for its index entry. *)
Definition weight (kvs : list (bytes * bytes)) : Z :=
  foldr (fun x n => size x.1 + size x.2 + 64 + n) 0 kvs.

Lemma weight_app a b : weight (a ++ b) = weight a + weight b.
Proof. unfold weight. induction a as [|x a IH]; cbn [foldr app]; [lia|]. rewrite IH. lia. Qed.

Lemma weight_nonneg a : 0 <= weight a.
Proof.
  induction a as [|x a IH]; cbn [weight foldr]; [lia|]. fold (weight a).
  pose proof (size_nonneg x.1). pose proof (size_nonneg x.2). lia.
Qed.

Lemma size_PutVarint32 dst v : size dst < size (PutVarint32 dst (u32 v)) <= size dst + 5.
Proof.
  unfold PutVarint32. rewrite size_app. pose proof (wrap_fits 32 v ltac:(lia)) as Hf.
  rewrite EncodeVarint32_64 by done. unfold fits in Hf. rewrite (EncodeVarint64_fuel 4) by (simpl; lia).
  pose proof (EncodeVarint64_loop_bound 4 (u32 v)). unfold size. lia.
Qed.

Lemma Add_size interval b key value :
  size (buffer_ b) < size (buffer_ (BlockBuilder_Add interval b key value)) <=
    size (buffer_ b) + size key + size value + 15 /\
  (length (restarts_ (BlockBuilder_Add interval b key value)) <= S (length (restarts_ b)))%nat.
Proof.
  unfold BlockBuilder_Add.
  assert (Hsz : forall shared, size (buffer_ b) < size (PutVarint32 (PutVarint32 (PutVarint32 (buffer_ b)
      (u32 (Z.of_nat shared))) (u32 (size key - Z.of_nat shared))) (u32 (size value)) ++ drop shared key) + size value <=
      size (buffer_ b) + size key + size value + 15).
  { intros shared. rewrite size_app. pose proof (size_PutVarint32 (buffer_ b) (Z.of_nat shared)).
    set (b1 := PutVarint32 (buffer_ b) _) in *. pose proof (size_PutVarint32 b1 (size key - Z.of_nat shared)).
    set (b2 := PutVarint32 b1 _) in *. pose proof (size_PutVarint32 b2 (size value)).
    pose proof (size_nonneg (drop shared key)). pose proof (size_nonneg value).
    assert (size (drop shared key) <= size key) by (unfold size; rewrite length_drop; lia). lia. }
  destruct (_ <? _); cbn [buffer_ restarts_]; rewrite size_app; (split; [apply Hsz|]); [lia|].
  rewrite length_app. cbn. lia.
Qed.

Lemma build_snoc interval kvs k v : build interval (kvs ++ [(k, v)]) = BlockBuilder_Add interval (build interval kvs) k v.
Proof. unfold build. by rewrite foldl_app. Qed.

Lemma build_size interval kvs :
  size (buffer_ (build interval kvs)) + Z.of_nat (length (restarts_ (build interval kvs))) * 4 <= weight kvs + 4 /\
  (kvs <> [] -> 0 < size (buffer_ (build interval kvs))).
Proof.
  induction kvs as [|[k v] kvs IH] using rev_ind; [done|]. rewrite build_snoc, weight_app. cbn [weight foldr fst snd].
  pose proof (Add_size interval (build interval kvs) k v) as [H1 H2].
  pose proof (size_nonneg (buffer_ (build interval kvs))). split; [lia|]. intros _. lia.
Qed.

Lemma raw_size interval kvs : size (raw_block interval kvs) <= weight kvs + 8.
Proof.
  unfold raw_block. rewrite size_Finish. unfold CurrentSizeEstimate. pose proof (build_size interval kvs) as [H _]. lia.
Qed.

(** ** The builder *)

Section building.
Context `{C : Comparator} `{!ComparatorLaws C} `{!ComparatorShort C} {F : Type} `{WL : WritableFileLaws F}
  `{Sn : Snappy}.
Context (o : Options).
Implicit Type r : TableBuilder F.

(** The keys a lookup takes for the same, and that a shortened separator of two keys
    never hides a key from such a lookup. *)
Context (same : bytes -> bytes -> Prop).
Definition beyond (s y : bytes) : Prop := forall k z, cmp_Compare y z <= 0 -> same k z -> cmp_Compare s k < 0.
Context (Hgap : forall s l, cmp_Compare s l < 0 ->
  cmp_FindShortestSeparator s l = s \/ beyond (cmp_FindShortestSeparator s l) l).

Abbreviation interval := (opt_block_restart_interval o).
Abbreviation contents r := (wf_contents (file r)).

(** A data block in the file, with the handle it got. *)
Abbreviation stored := (list (bytes * bytes) * BlockHandle)%type.

(** The calls the filter builder has seen. *)
Definition filter_calls (st : list stored) (off : Z) (cur : list (bytes * bytes)) : list (Z * list bytes) :=
  map (fun b => (bh_offset b.2, map fst b.1)) st ++ [(off, map fst cur)].

Definition filter_state (st : list stored) (off : Z) (cur : list (bytes * bytes)) :
    option (FilterPolicy * FilterBlockBuilder) :=
  (fun p => (p, foldl (@add_block p) NewFilterBlockBuilder (filter_calls st off cur))) <$> filter_policy o.

Definition index_of (seps : list bytes) (st : list stored) : list (bytes * bytes) :=
  zip_with (fun s b => (s, enc_handle b.2)) seps st.

(** A pair after block [i]. *)
Definition later (st : list stored) (cur : list (bytes * bytes)) (i : nat) (x : bytes * bytes) : Prop :=
  x ∈ cur \/ exists j b, (i < j)%nat /\ st !! j = Some b /\ x ∈ b.1.

Definition is_key (st : list stored) (i : nat) (s : bytes) : Prop :=
  exists b x, st !! i = Some b /\ x ∈ b.1 /\ x.1 = s.

(** The index key of a block fits: at or above its keys, below those that follow; it is
    one of its keys, or lookups that pass it have nothing to find later. *)
Record sep_ok (st : list stored) (cur : list (bytes * bytes)) (i : nat) (s : bytes) : Prop := {
  so_upper b x : st !! i = Some b -> x ∈ b.1 -> cmp_Compare x.1 s <= 0;
  so_lower x : later st cur i x -> cmp_Compare s x.1 < 0;
  so_short b : st !! i = Some b -> size s <= weight b.1 - 64;
  so_gap : is_key st i s \/ forall x, later st cur i x -> beyond s x.1
}.

(** The state after some pairs: blocks [st] in the file, [cur] in the current block,
    and index keys for all blocks but one that is pending. *)
Record core r (st : list stored) (seps : list bytes) (cur : list (bytes * bytes)) : Prop := {
  g_options : options r = o;
  g_ok : tb_ok r = true;
  g_offset : offset r = size (contents r);
  g_data : data_block r = build interval cur;
  g_index : index_block r = build 1 (index_of seps st);
  g_seps : length st = (length seps + if pending_index_entry r then 1 else 0)%nat;
  g_pending : pending_index_entry r = true -> cur = [] /\ exists b, list.last st = Some b /\ pending_handle r = b.2;
  g_stored b : b ∈ st -> b.1 <> [] /\ block_at (contents r) b.2 (raw_block interval b.1) /\
    0 <= bh_offset b.2 /\ bh_offset b.2 + bh_size b.2 + 5 <= size (contents r) /\ 0 <= bh_size b.2;
  g_offsets i j b b' : (i < j)%nat -> st !! i = Some b -> st !! j = Some b' -> bh_offset b.2 < bh_offset b'.2;
  g_sep i s : seps !! i = Some s -> sep_ok st cur i s;
  g_filter : filter_block r = filter_state st (offset r) cur
}.

Definition good r (st : list stored) (seps : list bytes) (cur : list (bytes * bytes)) : Prop :=
  core r st seps cur /\
  (forall x, list.last (concat (map fst st) ++ cur) = Some x -> last_key r = x.1) /\
  (pending_index_entry r = false -> cur = [] -> st = []).

(** Failures stick; until one happens the contents grow. *)
Definition grows r r' : Prop := tb_ok r' = true -> tb_ok r = true /\ exists more, contents r' = contents r ++ more.

Lemma WriteRawBlock_ok r payload type r' h :
  WriteRawBlock r payload type = (r', h) -> tb_ok r = true -> 0 <= type < 256 ->
  exists f off s, r' = set_output r f off s /\ h = MkHandle (offset r) (size payload) /\
    (Status_ok s = true -> wf_contents f = contents r ++ stored_block type payload /\
       off = u64 (offset r + size (stored_block type payload))).
Proof.
  unfold WriteRawBlock. intros E Hok Hty. pose proof (wf_Append_ok (file r) payload) as H1.
  destruct (wf_Append (file r) payload) as [f1 s1]. cbn [fst snd] in H1. destruct (Status_ok s1) eqn:Es1.
  2: { injection E as <- <-. exists f1, (offset r), s1. split_and!; try done. congruence. }
  set (trailer := byte_of_Z type :: _) in E. pose proof (wf_Append_ok f1 trailer) as H2.
  destruct (wf_Append f1 trailer) as [f2 s2]. cbn [fst snd] in H2. destruct (Status_ok s2) eqn:Es2.
  2: { injection E as <- <-. exists f2, (offset r), s2. split_and!; try done. congruence. }
  injection E as <- <-. eexists f2, _, s2. split; [done|]. split; [done|]. intros _. rewrite size_stored_block. split; [|done].
  rewrite H2, H1, <- app_assoc by done. f_equal. unfold stored_block. f_equal. unfold trailer. do 3 f_equal.
  unfold crc_Extend. rewrite crc_Value_ref, Extend_eq by (apply crc32c_ref_fits; unfold fits; lia).
  by rewrite crc32c_ref_app.
Qed.

Lemma WriteBlock_raw r b r' h :
  WriteBlock r b = (r', h) -> (compression (options r) = kNoCompression \/ compression (options r) = kSnappyCompression) ->
  exists payload type, WriteRawBlock r payload type = (r', h) /\ 0 <= type < 256 /\
    (size (BlockBuilder_Finish b).2 < 2 ^ 32 -> payload_of type payload (BlockBuilder_Finish b).2).
Proof.
  unfold WriteBlock, payload_of. set (raw := (BlockBuilder_Finish b).2).
  intros E [Hc|Hc]; rewrite Hc in E; cbn [Z.eqb kNoCompression kSnappyCompression] in E.
  - eexists raw, _. split; [exact E|]. unfold kNoCompression. split; [lia|]. by left.
  - destruct (Snappy_Compress raw) as [c|] eqn:Es; [destruct (_ <? _)|].
    + eexists c, _. split; [exact E|]. unfold kSnappyCompression. split; [lia|]. by right.
    + eexists raw, _. split; [exact E|]. unfold kNoCompression. split; [lia|]. by left.
    + eexists raw, _. split; [exact E|]. unfold kNoCompression. split; [lia|]. by left.
Qed.

Lemma WriteBlock_ok r b r' h :
  WriteBlock r b = (r', h) -> tb_ok r = true -> options r = o ->
  (compression o = kNoCompression \/ compression o = kSnappyCompression) ->
  size (BlockBuilder_Finish b).2 < 2 ^ 32 ->
  exists f off s, r' = set_output r f off s /\
    (Status_ok s = true -> offset r = size (contents r) -> size (wf_contents f) < 2 ^ 32 ->
       block_at (wf_contents f) h (BlockBuilder_Finish b).2 /\ bh_offset h = offset r /\
       0 <= bh_size h /\ bh_offset h + bh_size h + 5 = size (wf_contents f) /\
       off = size (wf_contents f) /\ exists more, wf_contents f = contents r ++ more).
Proof.
  intros E Hok Ho Hc Hsz. apply WriteBlock_raw in E as (payload & type & E' & Ht & Hp); [|by rewrite Ho].
  specialize (Hp Hsz). apply WriteRawBlock_ok in E' as (f & off & s & -> & -> & Hs); [|done..].
  exists f, off, s. split; [done|]. intros Hok' Hoff Hlt. destruct (Hs Hok') as [Hcon ->].
  rewrite Hcon in *. rewrite size_app, size_stored_block in *. cbn [bh_offset bh_size].
  pose proof (size_nonneg payload). pose proof (size_nonneg (contents r)). unfold kBlockTrailerSize in *.
  rewrite Hoff. rewrite wrap_id by (unfold fits; lia). split_and!; try lia; [|by eexists].
  exists type, payload, (contents r), []. by rewrite app_nil_r.
Qed.

Lemma filter_state_snoc st off cur h off' :
  bh_offset h = off ->
  filter_state (st ++ [(cur, h)]) off' [] =
    (fun p => (p.1, @StartBlock p.1 p.2 off')) <$> filter_state st off cur.
Proof.
  intros <-. unfold filter_state. destruct (filter_policy o) as [p|]; [|done]. cbn. do 2 f_equal.
  unfold filter_calls. rewrite map_app, foldl_app. done.
Qed.

Lemma build_empty cur : BlockBuilder_empty (build interval cur) = bool_decide (cur = []).
Proof.
  unfold BlockBuilder_empty. destruct cur as [|x cur]; [done|]. rewrite bool_decide_eq_false_2 by done.
  apply Z.eqb_neq. pose proof (proj2 (build_size interval (x :: cur)) ltac:(done)). lia.
Qed.

Lemma index_of_more seps st b :
  (length seps <= length st)%nat -> index_of seps (st ++ [b]) = index_of seps st.
Proof.
  unfold index_of. revert st. induction seps as [|s seps IH]; intros [|c st] Hl; cbn in *; try lia; try done.
  f_equal. apply IH. lia.
Qed.

Lemma later_flush st cur h i x : later (st ++ [(cur, h)]) [] i x -> later st cur i x.
Proof.
  intros [Hx|(j & b & Hij & Hb & Hx)]; [by apply elem_of_nil in Hx|].
  apply lookup_app_Some in Hb as [Hb|[_ Hb]]; [right; by exists j, b|].
  apply list_lookup_singleton_Some in Hb as [_ <-]. by left.
Qed.

Lemma sep_ok_flush st cur h i s :
  (i < length st)%nat -> sep_ok st cur i s -> sep_ok (st ++ [(cur, h)]) [] i s.
Proof.
  intros Hi [H1 H2 H3 H4]. split.
  - intros b x Hb. rewrite lookup_app_l in Hb by done. by apply H1.
  - intros x Hx%later_flush. by apply H2.
  - intros b Hb. rewrite lookup_app_l in Hb by done. by apply H3.
  - destruct H4 as [(b & x & Hb & Hx)|H4]; [left; exists b, x; by rewrite lookup_app_l|].
    right. intros x Hx%later_flush. by apply H4.
Qed.

Context (Hcomp : compression o = kNoCompression \/ compression o = kSnappyCompression).

Lemma Flush_grows r : grows r (TableBuilder_Flush r).
Proof.
  unfold TableBuilder_Flush, grows. destruct (tb_ok r) eqn:Eok; cbn [negb]; [|intros Hk; congruence].
  destruct (BlockBuilder_empty (data_block r)); [intros _; split; [done|exists []; by rewrite app_nil_r]|].
  destruct (WriteBlock r (data_block r)) as [r' h] eqn:E. intros Hok. split; [done|].
  unfold WriteBlock in E.
  match type of E with (let '(_, _) := ?x in _) = _ => destruct x as [payload type] end.
  unfold WriteRawBlock in E. pose proof (wf_Append_ok (file r) payload) as H1.
  destruct (wf_Append (file r) payload) as [f1 s1]. cbn [fst snd] in H1. destruct (Status_ok s1) eqn:Es1.
  - set (trailer := byte_of_Z type :: _) in E. pose proof (wf_Append_ok f1 trailer) as H2.
    destruct (wf_Append f1 trailer) as [f2 s2]. cbn [fst snd] in H2. destruct (Status_ok s2) eqn:Es2.
    + injection E as <- <-. cbn in Hok |- *. unfold tb_ok in *. cbn in Hok |- *. rewrite Es2 in *. cbn in Hok |- *.
      pose proof (wf_Flush_contents f2) as Hf. destruct (wf_Flush f2) as [f3 s3]. cbn in Hf, Hok |- *.
      exists (payload ++ trailer). by rewrite (Hf Hok), H2, H1, <- app_assoc.
    + injection E as <- <-. cbn in Hok. unfold tb_ok in Hok. cbn in Hok. rewrite Es2 in Hok. cbn in Hok. congruence.
  - injection E as <- <-. cbn in Hok. unfold tb_ok in Hok. cbn in Hok. rewrite Es1 in Hok. cbn in Hok. congruence.
Qed.

Lemma Flush_good r st seps cur :
  good r st seps cur -> weight cur + 8 < 2 ^ 32 ->
  tb_ok (TableBuilder_Flush r) = true -> size (contents (TableBuilder_Flush r)) < 2 ^ 32 ->
  exists st', good (TableBuilder_Flush r) st' seps [] /\
    concat (map fst st') = concat (map fst st) ++ cur.
Proof.
  intros Hg Hw Hok Hsz. pose proof Hg as [[Go Gk Gf Gd Gi Gs Gp Gst Gof Gsep Gfl] [Gl Ge]].
  unfold TableBuilder_Flush in *. rewrite Gk, Gd, build_empty in *. cbn [negb] in *.
  destruct (decide (cur = [])) as [->|Hne].
  { rewrite bool_decide_eq_true_2 by done. exists st. by rewrite app_nil_r. }
  rewrite bool_decide_eq_false_2 in * by done.
  assert (Hpend : pending_index_entry r = false).
  { destruct (pending_index_entry r) eqn:Ep; [|done]. destruct (Gp eq_refl) as [-> _]. done. }
  rewrite Hpend in Gs. rewrite Nat.add_0_r in Gs.
  pose proof (raw_size interval cur) as Hraw. unfold raw_block in Hraw.
  destruct (WriteBlock r (build interval cur)) as [r' h] eqn:E.
  apply WriteBlock_ok in E as (f & off & s & -> & Hs); [|done|done|done|lia].
  unfold tb_ok in Hok, Hsz |- *.
  cbn [set_output set_data_block set_pending status pending_handle file offset set_filter_block filter_block] in Hok, Hsz |- *.
  destruct (Status_ok s) eqn:Es; [|cbn in Hok; congruence].
  pose proof (wf_Flush_contents f) as Hfc. destruct (wf_Flush f) as [f' s'] eqn:Ef. cbn [fst snd] in Hfc.
  cbn [set_output set_data_block set_pending status pending_handle file offset set_filter_block filter_block] in Hok, Hsz |- *.
  specialize (Hfc Hok). rewrite Hfc in Hsz. destruct (Hs eq_refl Gf Hsz) as (Hat & Hho & Hhs & Hend & -> & more & Hmore).
  exists (st ++ [(cur, h)]). split; [|rewrite map_app, concat_app; cbn; by rewrite app_nil_r]. split.
  2: { split; [|done]. intros x Hx. rewrite app_nil_r in Hx. apply Gl. rewrite map_app, concat_app in Hx.
       cbn in Hx. by rewrite app_nil_r in Hx. }
  split.
  - exact Go.
  - exact Hok.
  - cbn. by rewrite Hfc.
  - done.
  - cbn. rewrite Gi, index_of_more by lia. done.
  - cbn. rewrite length_app. cbn. lia.
  - intros _. split; [done|]. exists (cur, h). split; [by rewrite last_snoc|done].
  - intros b Hb. cbn. rewrite Hfc. apply elem_of_app in Hb as [Hb|Hb].
    + destruct (Gst b Hb) as (H1 & H2 & H3 & H4 & H5). rewrite Hmore. split_and!; try done; [by apply block_at_app|].
      rewrite size_app. pose proof (size_nonneg more). lia.
    + apply list_elem_of_singleton in Hb as ->. split_and!; try done; cbn; [|lia].
      rewrite Hho, Gf. apply size_nonneg.
  - intros i j b b' Hij Hb Hb'. apply lookup_app_Some in Hb' as [Hb'|[_ Hb']].
    + rewrite lookup_app_l in Hb by (apply lookup_lt_Some in Hb'; lia). by apply (Gof i j).
    + apply list_lookup_singleton_Some in Hb' as [Hj <-]. rewrite lookup_app_l in Hb by lia. cbn.
      apply list_elem_of_lookup_2 in Hb. destruct (Gst b Hb) as (_ & _ & _ & H4 & H5). rewrite Hho, Gf. lia.
  - intros i s0 Hi. apply sep_ok_flush; [apply lookup_lt_Some in Hi; lia|by apply Gsep].
  - cbn. rewrite Gfl, (filter_state_snoc _ (offset r)) by done. unfold filter_state.
    destruct (filter_policy o); done.
Qed.

Lemma last_elem {A} (l : list A) x : list.last l = Some x -> x ∈ l.
Proof. intros Hl. apply last_Some in Hl as [l' ->]. apply elem_of_app. right. by left. Qed.

Lemma weight_elem x (l : list (bytes * bytes)) : x ∈ l -> size x.1 + 64 <= weight l.
Proof.
  intros (l1 & l2 & ->)%list_elem_of_split. rewrite weight_app. cbn [weight foldr]. fold (weight l2).
  pose proof (weight_nonneg l1). pose proof (weight_nonneg l2). pose proof (size_nonneg x.2). lia.
Qed.

Lemma index_of_snoc seps s st b :
  length st = S (length seps) -> list.last st = Some b -> index_of (seps ++ [s]) st = index_of seps st ++ [(s, enc_handle b.2)].
Proof.
  intros Hl Hb. apply last_Some in Hb as [st' ->]. rewrite length_app in Hl. cbn in Hl.
  rewrite (index_of_more seps) by lia. unfold index_of. rewrite zip_with_app by lia. done.
Qed.

(** The index entry of the pending block, under any key that fits. *)
Lemma add_index_core r st seps key :
  core r st seps [] -> pending_index_entry r = true -> sep_ok st [] (length seps) key ->
  core (add_index_entry r key) st (seps ++ [key]) [] /\ pending_index_entry (add_index_entry r key) = false.
Proof.
  intros [Go Gk Gf Gd Gi Gs Gp Gst Gof Gsep Gfl] Hp Hsep. rewrite Hp in Gs.
  destruct (Gp Hp) as (_ & b & Hb & Hh). split; [|done]. split; try done.
  - cbn. rewrite Gi, (index_of_snoc _ _ _ b) by (lia || done). unfold build. rewrite foldl_app. cbn. by rewrite Hh.
  - cbn. rewrite length_app. cbn. lia.
  - intros i s Hi. apply lookup_app_Some in Hi as [Hi|[Hle Hi]]; [by apply Gsep|].
    apply list_lookup_singleton_Some in Hi as [Hi <-]. replace i with (length seps) by lia. done.
Qed.

(** The key of the pair just before the end, as the code remembers it. *)
Lemma pending_sep_ok r st seps s :
  good r st seps [] -> pending_index_entry r = true -> ascending (concat (map fst st)) ->
  cmp_Compare (last_key r) s <= 0 -> size s <= size (last_key r) -> sep_ok st [] (length seps) s.
Proof.
  intros [[Go Gk Gf Gd Gi Gs Gp Gst Gof Gsep Gfl] [Gl _]] Hp Hasc Hle Hsz. rewrite Hp in Gs.
  destruct (Gp Hp) as (_ & b & Hb & Hh). apply last_Some in Hb as [st' ->].
  rewrite length_app in Gs. cbn in Gs. rewrite map_app, concat_app in Gl, Hasc. cbn in Gl, Hasc. rewrite app_nil_r in Gl, Hasc.
  destruct (Gst b ltac:(apply elem_of_app; right; by left)) as (Hne & _).
  destruct (list.last b.1) as [x|] eqn:El; [|by apply last_None in El].
  assert (Hx : last_key r = x.1) by (apply Gl; by rewrite app_nil_r, last_app, El).
  assert (Hat : (st' ++ [b]) !! length seps = Some b) by (apply list_lookup_middle; lia).
  assert (Hup : forall y, y ∈ b.1 -> cmp_Compare y.1 x.1 <= 0).
  { intros y Hy. apply list_elem_of_lookup in Hy as [j Hj]. apply last_Some in El as [l' El]. rewrite El in Hj, Hasc.
    apply lookup_app_Some in Hj as [Hj|[_ Hj]].
    - apply Z.lt_le_incl. apply (Hasc (length (concat (map fst st')) + j)%nat (length (concat (map fst st')) + length l')%nat).
      + apply lookup_lt_Some in Hj. lia.
      + rewrite lookup_app_r by lia. replace (_ + j - _)%nat with j by lia. by apply lookup_app_l_Some.
      + rewrite lookup_app_r by lia. replace (_ + length l' - _)%nat with (length l') by lia. by apply list_lookup_middle.
    - apply list_lookup_singleton_Some in Hj as [_ <-]. rewrite cmp_refl. lia. }
  assert (Hnone : forall y, ~ later (st' ++ [b]) [] (length seps) y).
  { intros y [Hy|(j & b' & Hj & Hb' & _)]; [by apply elem_of_nil in Hy|]. apply lookup_lt_Some in Hb'.
    rewrite length_app in Hb'. cbn in Hb'. lia. }
  split.
  - intros b' y Hb' Hy. rewrite Hat in Hb'. injection Hb' as <-. apply (cmp_trans _ x.1); [by apply Hup|]. by rewrite <- Hx.
  - intros y Hy. by destruct (Hnone y).
  - intros b' Hb'. rewrite Hat in Hb'. injection Hb' as <-. rewrite Hx in Hsz.
    pose proof (weight_elem x b.1 (last_elem _ _ El)). lia.
  - right. intros y Hy. by destruct (Hnone y).
Qed.

(** The pair itself. *)
Definition add_data r (key value : bytes) : TableBuilder F :=
  let r := set_filter_block r (fun b => AddKey b key) in
  let r := set_last_key r key (num_entries r + 1) in
  set_data_block r (BlockBuilder_Add (opt_block_restart_interval (options r)) (data_block r) key value).

Lemma later_snoc st cur i x y : later st (cur ++ [y]) i x -> later st cur i x \/ x = y.
Proof.
  intros [Hx|Hx]; [|left; by right]. apply elem_of_app in Hx as [Hx|Hx]; [left; by left|].
  right. by apply list_elem_of_singleton in Hx.
Qed.

Lemma add_data_good r st seps cur key value :
  core r st seps cur -> pending_index_entry r = false ->
  (forall i s, seps !! i = Some s -> cmp_Compare s key < 0 /\ (is_key st i s \/ beyond s key)) ->
  good (add_data r key value) st seps (cur ++ [(key, value)]).
Proof.
  intros [Go Gk Gf Gd Gi Gs Gp Gst Gof Gsep Gfl] Hp Hseps. split.
  2: { split; [|by destruct cur]. intros x. rewrite app_assoc, last_snoc. by intros [= <-]. }
  split; try done.
  - cbn. by rewrite Go, Gd, build_snoc.
  - cbn. intros Hp'. congruence.
  - intros i s Hi. destruct (Gsep i s Hi) as [H1 H2 H3 H4]. destruct (Hseps i s Hi) as [Hlt Hbey]. split; try done.
    + intros x [Hx| ->]%later_snoc; [by apply H2|done].
    + destruct H4 as [H4|H4]; [by left|]. destruct Hbey as [Hk|Hbey]; [by left|].
      right. intros x [Hx| ->]%later_snoc; [by apply H4|done].
  - cbn. rewrite Gfl. unfold filter_state, filter_calls. destruct (filter_policy o) as [p|]; [|done]. cbn. do 2 f_equal.
    rewrite !foldl_app. cbn. unfold add_block. cbn [fst snd]. by rewrite map_app, foldl_app.
Qed.

Lemma Add_eq r key value :
  TableBuilder_Add r key value =
    if negb (tb_ok r) then r
    else
      let r := add_data (if pending_index_entry r
                         then add_index_entry r (cmp_FindShortestSeparator (last_key r) key) else r) key value in
      if CurrentSizeEstimate (data_block r) >=? block_size (options r) then TableBuilder_Flush r else r.
Proof. unfold TableBuilder_Add, add_data. by destruct (negb (tb_ok r)), (pending_index_entry r). Qed.

Lemma tb_Add_grows r key value : grows r (TableBuilder_Add r key value).
Proof.
  rewrite Add_eq. unfold grows. destruct (tb_ok r) eqn:Eok; cbn [negb]; [|intros Hk; congruence].
  set (r1 := add_data _ key value). cbv zeta. intros Hok. split; [done|].
  assert (E : contents r1 = contents r) by (unfold r1; by destruct (pending_index_entry r)).
  destruct (_ >=? _); [|exists []; by rewrite app_nil_r].
  destruct (Flush_grows r1 Hok) as (_ & more & Hm). exists more. by rewrite Hm, E.
Qed.

(** The keys so far, and one more. *)
Lemma ascending_last l x y : ascending (l ++ [y]) -> list.last l = Some x -> cmp_Compare x.1 y.1 < 0.
Proof.
  intros Ha (l' & ->)%last_Some. apply (Ha (length l') (S (length l'))); [lia| |].
  - rewrite <- app_assoc. apply list_lookup_middle. done.
  - apply list_lookup_middle. rewrite length_app. cbn. lia.
Qed.

Lemma ascending_app_l l1 l2 : ascending (l1 ++ l2) -> ascending l1.
Proof. intros Ha i j p q Hij Hp Hq. apply (Ha i j); [done|by apply lookup_app_l_Some..]. Qed.

Lemma later_in st cur i x : later st cur i x -> x ∈ concat (map fst st) ++ cur.
Proof.
  intros [Hx|(j & b & _ & Hb & Hx)]; apply elem_of_app; [by right|left].
  apply list_elem_of_In, in_concat. exists b.1. split; [|by apply list_elem_of_In].
  by apply in_map, list_elem_of_In, (list_elem_of_lookup_2 _ j).
Qed.

(** Every separator has a pair after it. *)
Lemma sep_later r st seps cur i s : good r st seps cur -> seps !! i = Some s -> exists x, later st cur i x.
Proof.
  intros [Hc [_ He]] Hi. destruct cur as [|y cur]; [|exists y; left; by left].
  pose proof (g_seps _ _ _ _ Hc) as Hl. pose proof (lookup_lt_Some _ _ _ Hi) as Hlt.
  destruct (pending_index_entry r); [|rewrite He in Hl by done; cbn in Hl; lia].
  destruct (lookup_lt_is_Some_2 st (length seps) ltac:(lia)) as [b Hb].
  destruct (g_stored _ _ _ _ Hc b (list_elem_of_lookup_2 _ _ _ Hb)) as (Hne & _).
  destruct b as [[|y l] h]; [done|]. exists y. right. exists (length seps), (y :: l, h). split; [done|].
  split; [done|by left].
Qed.

Lemma seps_below r st seps cur x :
  good r st seps cur -> ascending ((concat (map fst st) ++ cur) ++ [x]) ->
  forall i s, seps !! i = Some s -> cmp_Compare s x.1 < 0 /\ (is_key st i s \/ beyond s x.1).
Proof.
  intros Hg Ha i s Hi. destruct (sep_later _ _ _ _ _ _ Hg Hi) as [y Hy]. destruct Hg as [Hc _].
  pose proof (g_sep _ _ _ _ Hc i s Hi) as [_ H2 _ H4].
  assert (Hyx : cmp_Compare y.1 x.1 < 0).
  { pose proof (later_in _ _ _ _ Hy) as Hin. apply list_elem_of_lookup in Hin as [j Hj].
    apply (Ha j (length (concat (map fst st) ++ cur))).
    - by apply lookup_lt_Some in Hj.
    - by apply lookup_app_l_Some.
    - by apply list_lookup_middle. }
  split; [by apply (cmp_lt_trans _ y.1); [apply H2|]|]. destruct H4 as [H4|H4]; [by left|]. right.
  intros k z Hz. apply (H4 y Hy). apply (cmp_trans _ x.1); [lia|done].
Qed.

Lemma Add_good r st seps cur key value :
  good r st seps cur -> ascending ((concat (map fst st) ++ cur) ++ [(key, value)]) ->
  weight (cur ++ [(key, value)]) + 8 < 2 ^ 32 ->
  tb_ok (TableBuilder_Add r key value) = true -> size (contents (TableBuilder_Add r key value)) < 2 ^ 32 ->
  exists st' seps' cur', good (TableBuilder_Add r key value) st' seps' cur' /\
    concat (map fst st') ++ cur' = (concat (map fst st) ++ cur) ++ [(key, value)].
Proof.
  intros Hg Ha Hw. pose proof Hg as [Hc [Hl He]]. rewrite Add_eq, (g_ok _ _ _ _ Hc). cbn [negb]. cbv zeta.
  assert (Hadd : exists seps', good (add_data (if pending_index_entry r
      then add_index_entry r (cmp_FindShortestSeparator (last_key r) key) else r) key value) st seps'
      (cur ++ [(key, value)])).
  { pose proof (seps_below _ _ _ _ _ Hg Ha) as Hbelow. destruct (pending_index_entry r) eqn:Ep.
    - destruct (g_pending _ _ _ _ Hc Ep) as (-> & b & Hb & _). rewrite app_nil_r in Hl, Ha.
      assert (Hlast : exists x, list.last (concat (map fst st)) = Some x).
      { apply last_Some in Hb as [st' ->].
        destruct (g_stored _ _ _ _ Hc b ltac:(apply elem_of_app; right; by left)) as (Hne & _).
        destruct (list.last b.1) as [x|] eqn:El; [|by apply last_None in El]. exists x.
        rewrite map_app, concat_app. cbn. by rewrite app_nil_r, last_app, El. }
      destruct Hlast as [x Hx]. specialize (Hl x Hx). pose proof (ascending_last _ _ _ Ha Hx) as Hlt. cbn in Hlt.
      rewrite <- Hl in Hlt. destruct (cmp_separator _ _ Hlt) as [H1 H2]. exists (seps ++ [cmp_FindShortestSeparator (last_key r) key]).
      destruct (add_index_core r st seps (cmp_FindShortestSeparator (last_key r) key) Hc Ep) as [Hc' Hp'].
      + apply (pending_sep_ok r); [done|done|by apply ascending_app_l in Ha|done|apply short_separator].
      + apply add_data_good; [done|done|]. intros i s Hs. apply lookup_app_Some in Hs as [Hs|[Hle Hs]]; [by apply Hbelow|].
        apply list_lookup_singleton_Some in Hs as [Hi <-]. split; [done|].
        destruct (Hgap _ _ Hlt) as [E|E]; [left|by right]. rewrite E.
        pose proof (g_seps _ _ _ _ Hc) as Hlen. rewrite Ep in Hlen. apply last_Some in Hb as [st' ->].
        rewrite length_app in Hlen. cbn in Hlen. replace i with (length st') by lia.
        destruct (g_stored _ _ _ _ Hc b ltac:(apply elem_of_app; right; by left)) as (Hne & _).
        destruct (list.last b.1) as [y|] eqn:El; [|by apply last_None in El]. exists b, y.
        split; [by apply list_lookup_middle|]. split; [by apply last_elem|].
        rewrite map_app, concat_app in Hx. cbn in Hx. rewrite app_nil_r, last_app, El in Hx. by injection Hx as ->.
    - exists seps. by apply add_data_good. }
  destruct Hadd as [seps' Hadd]. set (r1 := add_data _ key value) in *. destruct (_ >=? _).
  - intros Hok Hsz. destruct (Flush_good r1 st seps' _ Hadd Hw Hok Hsz) as (st' & Hg' & E').
    exists st', seps', []. split; [done|]. by rewrite app_nil_r, E', app_assoc.
  - intros _ _. exists st, seps', (cur ++ [(key, value)]). split; [done|]. by rewrite app_assoc.
Qed.

Lemma New_good f0 : contents (NewTableBuilder o f0) = [] -> good (NewTableBuilder o f0) [] [] [].
Proof.
  intros Hf. split; [|split; [by intros x|done]]. split; try done.
  - cbn in *. by rewrite Hf.
  - intros b Hb. by apply elem_of_nil in Hb.
Qed.

(** All pairs, one after another. *)
Definition add_all r (kvs : list (bytes * bytes)) : TableBuilder F :=
  foldl (fun r x => TableBuilder_Add r x.1 x.2) r kvs.

Lemma add_all_grows r kvs : grows r (add_all r kvs).
Proof.
  revert r. induction kvs as [|x kvs IH]; intros r Hok; cbn in *; [split; [done|exists []; by rewrite app_nil_r]|].
  destruct (IH _ Hok) as (Hok1 & m1 & E1). destruct (tb_Add_grows r x.1 x.2 Hok1) as (Hok2 & m2 & E2).
  split; [done|]. exists (m2 ++ m1). unfold add_all in E1. by rewrite E1, E2, app_assoc.
Qed.

Lemma weight_app_r (a b : list (bytes * bytes)) : weight b <= weight (a ++ b).
Proof. rewrite weight_app. pose proof (weight_nonneg a). lia. Qed.

Lemma add_all_good kvs : forall r st seps cur,
  good r st seps cur -> ascending ((concat (map fst st) ++ cur) ++ kvs) ->
  weight ((concat (map fst st) ++ cur) ++ kvs) < 2 ^ 31 ->
  tb_ok (add_all r kvs) = true -> size (contents (add_all r kvs)) < 2 ^ 32 ->
  exists st' seps' cur', good (add_all r kvs) st' seps' cur' /\
    concat (map fst st') ++ cur' = (concat (map fst st) ++ cur) ++ kvs.
Proof.
  induction kvs as [|[k v] kvs IH]; intros r st seps cur Hg Ha Hw Hok Hsz; cbn [add_all foldl fst snd] in *.
  { exists st, seps, cur. by rewrite app_nil_r. }
  fold (add_all (TableBuilder_Add r k v) kvs) in *.
  destruct (add_all_grows _ _ Hok) as (Hok1 & m1 & E1).
  assert (Esplit : (concat (map fst st) ++ cur) ++ (k, v) :: kvs = ((concat (map fst st) ++ cur) ++ [(k, v)]) ++ kvs)
    by (by rewrite <- !app_assoc).
  rewrite Esplit in Ha, Hw.
  destruct (Add_good r st seps cur k v Hg) as (st' & seps' & cur' & Hg' & E').
  - by apply ascending_app_l in Ha.
  - rewrite weight_app in Hw. rewrite <- app_assoc in Hw. pose proof (weight_app_r (concat (map fst st)) (cur ++ [(k, v)])).
    pose proof (weight_nonneg kvs). lia.
  - done.
  - rewrite E1, size_app in Hsz. pose proof (size_nonneg m1). lia.
  - rewrite Esplit, <- E'. apply (IH _ st' seps' cur'); rewrite ?E'; try done.
Qed.

(** *** The parts of a finished table *)

Definition parts_of (seps : list bytes) (st : list stored) : list data_part :=
  zip_with (fun s b => Part b.1 s b.2) seps st.

Lemma parts_lookup seps st i p :
  parts_of seps st !! i = Some p -> exists s b, seps !! i = Some s /\ st !! i = Some b /\ p = Part b.1 s b.2.
Proof. intros (s & b & -> & Hs & Hb)%lookup_zip_with_Some. by exists s, b. Qed.

Lemma index_parts seps st : index_entries (parts_of seps st) = index_of seps st.
Proof.
  unfold index_entries, parts_of, index_of. revert st. induction seps as [|s seps IH]; intros [|b st]; cbn; try done.
  f_equal. apply IH.
Qed.

Lemma pairs_parts seps st : length seps = length st -> all_pairs (parts_of seps st) = concat (map fst st).
Proof.
  unfold all_pairs, parts_of. revert st. induction seps as [|s seps IH]; intros [|b st] Hl; cbn in *; try lia; try done.
  f_equal. apply IH. lia.
Qed.

Lemma ascending_app_r l1 l2 : ascending (l1 ++ l2) -> ascending l2.
Proof.
  intros Ha i j p q Hij Hp Hq. apply (Ha (length l1 + i)%nat (length l1 + j)%nat); [lia|..];
    rewrite lookup_app_r by lia; by rewrite Nat.add_comm, Nat.add_sub.
Qed.

Lemma ascending_part (st : list stored) i b :
  ascending (concat (map fst st)) -> st !! i = Some b -> ascending b.1.
Proof.
  intros Ha Hi. rewrite <- (take_drop_middle _ _ _ Hi), map_app, concat_app in Ha. cbn in Ha.
  by apply ascending_app_r, ascending_app_l in Ha.
Qed.

Lemma weight_part (st : list stored) b : b ∈ st -> weight b.1 <= weight (concat (map fst st)).
Proof.
  intros (l1 & l2 & ->)%list_elem_of_split. rewrite map_app, concat_app, weight_app. cbn. rewrite weight_app.
  pose proof (weight_nonneg (concat (map fst l1))). pose proof (weight_nonneg (concat (map fst l2))). lia.
Qed.

Lemma stored_parts_ok r st seps :
  core r st seps [] -> pending_index_entry r = false -> ascending (concat (map fst st)) -> parts_ok (parts_of seps st).
Proof.
  intros [Go Gk Gf Gd Gi Gs Gp Gst Gof Gsep Gfl] Hp Ha. rewrite Hp, Nat.add_0_r in Gs. split.
  - intros i p Hi. apply parts_lookup in Hi as (s & b & _ & Hb & ->). by apply (ascending_part st i).
  - intros i p x Hi Hx. apply parts_lookup in Hi as (s & b & Hs & Hb & ->). by apply (so_upper _ _ _ _ (Gsep i s Hs) b).
  - intros i j p q x Hij Hi Hj Hx. apply parts_lookup in Hi as (s & b & Hs & Hb & ->).
    apply parts_lookup in Hj as (s' & b' & Hs' & Hb' & ->). apply (so_lower _ _ _ _ (Gsep i s Hs)). right. by exists j, b'.
  - rewrite index_parts. intros i j p q Hij Hi Hj. apply lookup_zip_with_Some in Hi as (s & b & -> & Hs & Hb).
    apply lookup_zip_with_Some in Hj as (s' & b' & -> & Hs' & Hb'). cbn.
    destruct (Gst b' (list_elem_of_lookup_2 _ _ _ Hb')) as (Hne & _). destruct (b'.1) as [|x l] eqn:Eb; [done|].
    apply (cmp_lt_le_trans _ x.1).
    + apply (so_lower _ _ _ _ (Gsep i s Hs)). right. exists j, b'. rewrite Eb. split; [done|]. split; [done|by left].
    + apply (so_upper _ _ _ _ (Gsep j s' Hs') b' x Hb'). rewrite Eb. by left.
  - intros i j p q Hi Hj E. apply parts_lookup in Hi as (s & b & Hs & Hb & ->).
    apply parts_lookup in Hj as (s' & b' & Hs' & Hb' & ->). cbn in E.
    destruct (Nat.lt_trichotomy i j) as [Hij|[->|Hij]].
    + pose proof (Gof i j b b' Hij Hb Hb'). lia.
    + rewrite Hs in Hs'. rewrite Hb in Hb'. by injection Hs' as ->; injection Hb' as ->.
    + pose proof (Gof j i b' b Hij Hb' Hb). lia.
Qed.

(** A lookup that stops at a separator has found the same key, if there is one. *)
Definition gap_ok (ps : list data_part) : Prop :=
  forall i p, ps !! i = Some p -> (exists x, x ∈ p_kvs p /\ x.1 = p_sep p) \/
    forall j q x, (i < j)%nat -> ps !! j = Some q -> x ∈ p_kvs q -> beyond (p_sep p) x.1.

Lemma stored_gap_ok r st seps : core r st seps [] -> gap_ok (parts_of seps st).
Proof.
  intros Hc i p Hi. apply parts_lookup in Hi as (s & b & Hs & Hb & ->). cbn.
  destruct (so_gap _ _ _ _ (g_sep _ _ _ _ Hc i s Hs)) as [(b' & x & Hb' & Hx)|Hl].
  - rewrite Hb in Hb'. injection Hb' as <-. left. by exists x.
  - right. intros j q x Hij Hj Hx. apply parts_lookup in Hj as (s' & b' & _ & Hb' & ->). apply Hl.
    right. by exists j, b'.
Qed.

Lemma gap_target ps p k x :
  parts_ok ps -> gap_ok ps -> ascending (all_pairs ps) -> p ∈ ps ->
  at_cursor (all_pairs ps) (find_ge k (all_pairs ps)) = Some x -> same k x.1 ->
  cmp_Compare k (p_sep p) <= 0 -> cmp_Compare x.1 (p_sep p) <= 0.
Proof.
  intros Hps Hg Ha Hp Hx Hsame Hk. apply list_elem_of_lookup in Hp as [i Hi].
  pose proof (find_ge_spec k (all_pairs ps)) as Hf. destruct (find_ge k (all_pairs ps)) as [n|]; [|done].
  cbn in Hx. destruct Hf as [_ Hf]. assert (Hin : x ∈ all_pairs ps) by by apply (list_elem_of_lookup_2 _ n).
  apply list_elem_of_In, in_concat in Hin as (l & Hl & Hxl). apply in_map_iff in Hl as (q & <- & Hq).
  apply list_elem_of_In in Hxl, Hq. apply list_elem_of_lookup in Hq as [j Hj].
  destruct (decide (i < j)%nat) as [Hij|Hij].
  - destruct (Hg i p Hi) as [(y & Hy & Hys)|Hb].
    + rewrite <- Hys in *. assert (Hya : y ∈ all_pairs ps).
      { apply list_elem_of_In, in_concat. exists (p_kvs p). split; [|by apply list_elem_of_In].
        by apply in_map, list_elem_of_In, (list_elem_of_lookup_2 _ i). }
      apply list_elem_of_lookup in Hya as [m Hm]. destruct (Nat.lt_trichotomy m n) as [Hmn|[->|Hmn]].
      * specialize (Hf m y Hmn Hm). apply cmp_sym_le in Hk. lia.
      * rewrite Hx in Hm. injection Hm as ->. rewrite cmp_refl. lia.
      * apply Z.lt_le_incl. by apply (Ha n m).
    + pose proof (Hb j q x Hij Hj Hxl k x.1 ltac:(rewrite cmp_refl; lia) Hsame) as Hlt. apply cmp_sym_le in Hk. lia.
  - apply (cmp_trans _ (p_sep q)); [by apply (po_upper _ Hps j)|]. destruct (decide (i = j)) as [->|Hne].
    + rewrite Hi in Hj. injection Hj as ->. rewrite cmp_refl. lia.
    + apply Z.lt_le_incl. apply (po_index _ Hps j i (p_sep q, enc_handle (p_handle q)) (p_sep p, enc_handle (p_handle p)));
        [lia|..]; unfold index_entries; by rewrite list_lookup_fmap, ?Hi, ?Hj.
Qed.

Lemma size_enc_handle h : handle_ok h -> size (enc_handle h) <= 20.
Proof.
  intros [H1 H2]. destruct (BlockHandle_roundtrip h [] [] H1 H2) as (e & E & Hs & _). unfold enc_handle. rewrite E.
  exact Hs.
Qed.

Lemma weight_length (kvs : list (bytes * bytes)) : 64 * Z.of_nat (length kvs) <= weight kvs.
Proof.
  induction kvs as [|x kvs IH]; cbn [length weight foldr]; [lia|]. fold (weight kvs).
  pose proof (size_nonneg x.1). pose proof (size_nonneg x.2). lia.
Qed.

Lemma index_weight seps : forall st,
  (forall i s b, seps !! i = Some s -> st !! i = Some b -> size s <= weight b.1 - 64) ->
  (forall b, b ∈ st -> handle_ok b.2) -> (forall b, b ∈ st -> b.1 <> []) -> length seps = length st ->
  weight (index_of seps st) <= weight (concat (map fst st)) + 20 * Z.of_nat (length (concat (map fst st))).
Proof.
  induction seps as [|s seps IH]; intros [|b st] Hs Hh Hne Hl; cbn in Hl; try lia; [by cbn|].
  cbn [index_of zip_with weight foldr fst snd map concat]. fold (weight (index_of seps st)). fold (index_of seps st).
  rewrite weight_app, length_app. pose proof (Hs O s b eq_refl eq_refl).
  pose proof (size_enc_handle b.2 (Hh b ltac:(by left))).
  assert (Hlen : (1 <= length b.1)%nat) by (pose proof (Hne b ltac:(by left)); destruct b.1; [done|cbn; lia]).
  assert (IH' : weight (index_of seps st) <= weight (concat (map fst st)) + 20 * Z.of_nat (length (concat (map fst st)))).
  { apply IH; [intros i; apply (Hs (S i))|intros b' Hb'; apply Hh; by right|intros b' Hb'; apply Hne; by right|lia]. }
  fold (weight (index_of seps st)). lia.
Qed.

Lemma calls_ascend (st : list stored) off cur : forall last,
  (forall b, b ∈ st -> last <= bh_offset b.2 <= off) -> last <= off ->
  (forall i j b b', (i < j)%nat -> st !! i = Some b -> st !! j = Some b' -> bh_offset b.2 < bh_offset b'.2) ->
  offsets_ascend last (filter_calls st off cur).
Proof.
  unfold filter_calls. induction st as [|b st IH]; intros last Hb Hl Ho; cbn; [done|].
  split; [by apply Hb; left|]. apply IH.
  - intros b' Hb'. split; [|by apply Hb; right]. apply list_elem_of_lookup in Hb' as [j Hj].
    apply Z.lt_le_incl. by apply (Ho O (S j)); [lia|..].
  - by apply Hb; left.
  - intros i j x y Hij. apply (Ho (S i) (S j)). lia.
Qed.

(** The policy handles any number of keys up to those of the table. *)
Definition filter_lawful (kvs : list (bytes * bytes)) : Prop :=
  forall fp, filter_policy o = Some fp -> size (@fp_Name fp) < 2 ^ 30 /\
    exists ok, FilterPolicyLaws fp ok /\ forall ks, (length ks <= length kvs)%nat -> ok ks.

Lemma calls_keys (st : list stored) off cur :
  concat (map snd (filter_calls st off cur)) = map fst (concat (map fst st) ++ cur).
Proof.
  unfold filter_calls. rewrite map_app, concat_app, map_app. cbn. rewrite app_nil_r. f_equal.
  rewrite concat_map, !map_map. done.
Qed.

Lemma stored_filter_ok r st seps fp :
  core r st seps [] -> filter_policy o = Some fp -> filter_lawful (concat (map fst st)) ->
  exists fb, filter_block r = Some (fp, fb) /\
    (size (@FilterBlock_Finish fp fb).2 < 2 ^ 32 -> forall seps',
       filter_ok fp (@FilterBlock_Finish fp fb).2 (parts_of seps' st)).
Proof.
  intros [Go Gk Gf Gd Gi Gs Gp Gst Gof Gsep Gfl] Hfp Hlaw. destruct (Hlaw fp Hfp) as (_ & ok & Hok & Hall).
  unfold filter_state in Gfl. rewrite Hfp in Gfl. eexists. split; [exact Gfl|]. intros Hsz seps'.
  assert (Hasc : offsets_ascend 0 (filter_calls st (offset r) [])).
  { apply calls_ascend; [|rewrite Gf; apply size_nonneg|done]. intros b Hb.
    destruct (Gst b Hb) as (_ & _ & H3 & H4 & H5). rewrite Gf. lia. }
  split; [rewrite (filter_block_base (F := fp) (ok := ok)) by done; done|].
  intros p x Hp Hx. apply list_elem_of_lookup in Hp as [i Hi]. apply parts_lookup in Hi as (s & b & _ & Hb & ->).
  apply (filter_block_sound (F := fp) (ok := ok) (filter_calls st (offset r) []) _ (map fst b.1)); try done.
  - intros j. apply Hall. eapply Nat.le_trans; [apply keys_at_length|]. rewrite calls_keys, length_map, app_nil_r. lia.
  - apply elem_of_app. left. apply list_elem_of_In, in_map_iff. exists b. split; [done|].
    by apply list_elem_of_In, (list_elem_of_lookup_2 _ i).
  - by apply list_elem_of_In, in_map, list_elem_of_In.
Qed.

(** *** The four parts of [Finish] *)

(** Only the file, the offset and the status change. *)
Definition outputs r r' : Prop := exists f off s, r' = set_output r f off s.

(** The contents grow, and the offset stays at their end. *)
Definition extends r r' : Prop :=
  (exists more, contents r' = contents r ++ more) /\
  (offset r = size (contents r) -> size (contents r') < 2 ^ 32 -> offset r' = size (contents r')).

Lemma outputs_refl r : outputs r r.
Proof. exists (file r), (offset r), (status r). by destruct r. Qed.

Lemma outputs_trans r1 r2 r3 : outputs r1 r2 -> outputs r2 r3 -> outputs r1 r3.
Proof. intros (f & off & s & ->) (f' & off' & s' & ->). by exists f', off', s'. Qed.

Lemma extends_refl r : extends r r.
Proof. split; [|done]. exists []. by rewrite app_nil_r. Qed.

Lemma extends_size r r' : extends r r' -> size (contents r) <= size (contents r').
Proof. intros [[more ->] _]. rewrite size_app. pose proof (size_nonneg more). lia. Qed.

Lemma extends_trans r1 r2 r3 : extends r1 r2 -> extends r2 r3 -> extends r1 r3.
Proof.
  intros [[m E] H1] H2. pose proof (extends_size _ _ H2). destruct H2 as [[m' E'] H2]. split.
  - exists (m ++ m'). by rewrite E', E, app_assoc.
  - intros Hoff Hsz. apply H2; [|done]. apply H1; [done|]. lia.
Qed.

Lemma block_at_extends r r' h raw : extends r r' -> block_at (contents r) h raw -> block_at (contents r') h raw.
Proof. intros [[more ->] _]. apply block_at_app. Qed.

Lemma WriteRawBlock_outputs r payload type r' h : WriteRawBlock r payload type = (r', h) -> outputs r r'.
Proof.
  unfold WriteRawBlock. destruct (wf_Append _ _) as [f s]. destruct (Status_ok s); [|intros [= <- _]; by eexists _, _, _].
  destruct (wf_Append f _) as [f' s']. destruct (Status_ok s'); intros [= <- _]; by eexists _, _, _.
Qed.

Lemma WriteBlock_outputs r b r' h : WriteBlock r b = (r', h) -> outputs r r'.
Proof.
  unfold WriteBlock. match goal with |- context [let '(_, _) := ?x in _] => destruct x as [payload type] end.
  apply WriteRawBlock_outputs.
Qed.

Lemma WriteRawBlock_extends r payload type r' h :
  WriteRawBlock r payload type = (r', h) -> 0 <= type < 256 -> tb_ok r = true -> tb_ok r' = true ->
  extends r r' /\
  (offset r = size (contents r) -> size (contents r') < 2 ^ 32 ->
     handle_ok h /\ h = MkHandle (size (contents r)) (size payload) /\ contents r' = contents r ++ stored_block type payload).
Proof.
  intros E Ht Hok Hok'. apply WriteRawBlock_ok in E as (f & off & s & -> & -> & Hs); [|done|done].
  destruct (Hs Hok') as [Hc ->]. unfold extends. cbn [set_output file offset]. rewrite Hc.
  rewrite size_app, size_stored_block. unfold kBlockTrailerSize.
  pose proof (size_nonneg (contents r)). pose proof (size_nonneg payload). split; [split; [by eexists|]|].
  - intros -> Hsz. rewrite wrap_id; [done|]. unfold fits. lia.
  - intros -> Hsz. split; [|done]. split; cbn; unfold fits; lia.
Qed.

Lemma WriteBlock_extends r b r' h :
  WriteBlock r b = (r', h) -> options r = o -> tb_ok r = true -> tb_ok r' = true ->
  extends r r' /\
  (size (BlockBuilder_Finish b).2 < 2 ^ 32 -> offset r = size (contents r) -> size (contents r') < 2 ^ 32 ->
     handle_ok h /\ block_at (contents r') h (BlockBuilder_Finish b).2).
Proof.
  intros E Ho Hok Hok'. set (raw := (BlockBuilder_Finish b).2) in *.
  apply WriteBlock_raw in E as (payload & type & E & Ht & Hp); [|by rewrite Ho].
  apply WriteRawBlock_extends in E as [Hx Hs]; [|done..].
  split; [done|]. intros Hraw Hoff Hsz. destruct (Hs Hoff Hsz) as (Hh & -> & Hc). split; [done|].
  exists type, payload, (contents r), []. rewrite app_nil_r. by specialize (Hp Hraw).
Qed.

Lemma write_filter_ok r r' h :
  write_filter_block r = (r', h) -> outputs r r' /\
  (tb_ok r' = true -> tb_ok r = true /\ extends r r' /\
   (offset r = size (contents r) -> size (contents r') < 2 ^ 32 ->
    match filter_block r with
    | None => True
    | Some (p, fb) => handle_ok h /\ block_at (contents r') h (@FilterBlock_Finish p fb).2 /\
        size (@FilterBlock_Finish p fb).2 < 2 ^ 32
    end)).
Proof.
  unfold write_filter_block. destruct (filter_block r) as [[p fb]|] eqn:Ef.
  2: { intros [= <- <-]. split; [apply outputs_refl|]. intros Hok. by split_and!; [|apply extends_refl|]. }
  destruct (tb_ok r) eqn:Eok; [|intros [= <- <-]; split; [apply outputs_refl|intros Hok; congruence]].
  intros E. split; [by apply WriteRawBlock_outputs in E|]. intros Hok.
  apply WriteRawBlock_extends in E as [Hx Hs]; [|by unfold kNoCompression|done|done].
  split_and!; try done. intros Hoff Hsz. destruct (Hs Hoff Hsz) as (Hh & -> & Hc). split; [done|]. rewrite Hc in *.
  rewrite size_app, size_stored_block in Hsz. unfold kBlockTrailerSize in Hsz. pose proof (size_nonneg (contents r)).
  split; [|lia]. eexists kNoCompression, _, (contents r), []. rewrite app_nil_r. split; [by left|done].
Qed.

(** The only entry of the metaindex block. *)
Definition meta_entries (fh : BlockHandle) : list (bytes * bytes) :=
  match filter_policy o with
  | None => []
  | Some p => [(str "filter." ++ @fp_Name p, enc_handle fh)]
  end.

Lemma write_metaindex_ok r fh :
  options r = o -> (filter_block r = None <-> filter_policy o = None) ->
  exists r' h, write_metaindex_block r fh = Ok (r', h) /\ outputs r r' /\
  (tb_ok r' = true -> tb_ok r = true /\ extends r r' /\
   (size (raw_block interval (meta_entries fh)) < 2 ^ 32 -> offset r = size (contents r) -> size (contents r') < 2 ^ 32 ->
    handle_ok h /\ block_at (contents r') h (raw_block interval (meta_entries fh)))).
Proof.
  intros Ho Hf. unfold write_metaindex_block. destruct (tb_ok r) eqn:Eok.
  2: { eexists _, _. split; [done|]. split; [apply outputs_refl|]. intros Hok. congruence. }
  assert (E : (match filter_block r with
      | Some _ =>
          match filter_policy (options r) with
          | Some p =>
              Ok (BlockBuilder_Add (opt_block_restart_interval (options r)) NewBlockBuilder
                    (str "filter." ++ @fp_Name p) (BlockHandle_EncodeTo fh []))
          | None => Undefined
          end
      | None => Ok NewBlockBuilder
      end) = Ok (build interval (meta_entries fh))).
  { rewrite Ho. unfold meta_entries. destruct (filter_block r), (filter_policy o) eqn:Ep; rewrite ?Ep; try done.
    - by specialize (proj2 Hf eq_refl).
    - by specialize (proj1 Hf eq_refl). }
  rewrite E. cbn [res_bind]. destruct (WriteBlock r _) as [r' h] eqn:Ew. exists r', h. split; [done|].
  split; [by apply WriteBlock_outputs in Ew|]. intros Hok. split; [done|]. by apply WriteBlock_extends in Ew.
Qed.

(** The index as it is written. *)
Definition finish_index r : TableBuilder F :=
  if pending_index_entry r then add_index_entry r (cmp_FindShortSuccessor (last_key r)) else r.

Lemma write_index_ok r f off s r' h :
  write_index_block (set_output r f off s) = (r', h) -> options r = o ->
  tb_ok r' = true -> Status_ok s = true /\ extends (set_output r f off s) r' /\
   (size (BlockBuilder_Finish (index_block (finish_index r))).2 < 2 ^ 32 -> off = size (wf_contents f) ->
    size (contents r') < 2 ^ 32 ->
    handle_ok h /\ block_at (contents r') h (BlockBuilder_Finish (index_block (finish_index r))).2).
Proof.
  unfold write_index_block. intros E Ho Hok. change (tb_ok (set_output r f off s)) with (Status_ok s) in E.
  destruct (Status_ok s) eqn:Es.
  2: { injection E as <- <-. change (tb_ok (set_output r f off s)) with (Status_ok s) in Hok. congruence. }
  change (pending_index_entry (set_output r f off s)) with (pending_index_entry r) in E.
  assert (E1 : (if pending_index_entry r
      then add_index_entry (set_output r f off s) (cmp_FindShortSuccessor (last_key (set_output r f off s)))
      else set_output r f off s) = set_output (finish_index r) f off s).
  { unfold finish_index. by destruct (pending_index_entry r). }
  rewrite E1 in E. destruct (WriteBlock _ _) as [r1 h1] eqn:Ew. injection E as <- <-.
  split; [done|]. apply WriteBlock_extends in Ew as [Hx Hs]; [|unfold finish_index; by destruct (pending_index_entry r)|done|done].
  split; [exact Hx|]. exact Hs.
Qed.

Lemma write_footer_ok r m i :
  tb_ok (write_footer r m i) = true -> tb_ok r = true /\
  contents (write_footer r m i) = contents r ++ Footer_EncodeTo (MkFooter m i) [].
Proof.
  unfold write_footer. destruct (tb_ok r) eqn:Eok; [|intros Hok; congruence].
  pose proof (wf_Append_ok (file r) (Footer_EncodeTo (MkFooter m i) [])) as Ha.
  destruct (wf_Append _ _) as [f s]. cbn [fst snd] in Ha. destruct (Status_ok s) eqn:Es.
  - intros _. split; [done|]. cbn. by apply Ha.
  - cbn. unfold tb_ok. cbn. rewrite Es. done.
Qed.

(** *** The finished file *)

Lemma finish_index_ok r st seps :
  good r st seps [] -> ascending (concat (map fst st)) ->
  exists seps', core (finish_index r) st seps' [] /\ pending_index_entry (finish_index r) = false.
Proof.
  intros Hg Ha. unfold finish_index. destruct (pending_index_entry r) eqn:Ep; [|exists seps; by destruct Hg].
  eexists. apply add_index_core; [by destruct Hg|done|]. apply (pending_sep_ok r); [done..| |].
  - apply cmp_successor.
  - apply short_successor.
Qed.

(** The options stay, and so does the presence of a filter. *)
Definition tame r : Prop := options r = o /\ (filter_block r = None <-> filter_policy o = None).

Lemma tame_outputs r r' : outputs r r' -> tame r -> tame r'.
Proof. by intros (f & off & s & ->). Qed.

Lemma set_filter_block_none r fb : filter_block (set_filter_block r fb) = None <-> filter_block r = None.
Proof. cbn. by destruct (filter_block r). Qed.

Lemma Flush_tame r : tame r -> tame (TableBuilder_Flush r).
Proof.
  intros Ht. unfold TableBuilder_Flush. destruct (negb (tb_ok r)); [done|]. destruct (BlockBuilder_empty _); [done|].
  destruct (WriteBlock r _) as [r1 h] eqn:E. apply WriteBlock_outputs in E as (f & off & s & ->).
  unfold tame. rewrite set_filter_block_none. unfold tb_ok. cbn [set_output set_data_block set_pending status].
  destruct (Status_ok s); [|done]. destruct (wf_Flush _) as [f' s']. done.
Qed.

Lemma Add_tame r key value : tame r -> tame (TableBuilder_Add r key value).
Proof.
  intros Ht. rewrite Add_eq. destruct (negb (tb_ok r)); [done|]. set (r1 := add_data _ _ _).
  assert (Ht1 : tame r1).
  { unfold r1, add_data, tame. change (filter_block (set_data_block ?r ?b)) with (filter_block r).
    change (filter_block (set_last_key ?r ?k ?n)) with (filter_block r). rewrite set_filter_block_none.
    by destruct (pending_index_entry r). }
  cbv zeta. destruct (_ >=? _); [by apply Flush_tame|done].
Qed.

Lemma add_all_tame kvs : forall r, tame r -> tame (add_all r kvs).
Proof. induction kvs as [|x kvs IH]; intros r Ht; [done|]. by apply IH, Add_tame. Qed.

Lemma New_tame f0 : tame (NewTableBuilder o f0).
Proof. split; [done|]. cbn. by destruct (filter_policy o). Qed.

Lemma filter_state_none st off : filter_state st off [] = None <-> filter_policy o = None.
Proof. unfold filter_state. by destruct (filter_policy o). Qed.

Lemma meta_size fh kvs :
  filter_lawful kvs -> (filter_policy o <> None -> handle_ok fh) -> size (raw_block interval (meta_entries fh)) < 2 ^ 32.
Proof.
  intros Hl Hh. pose proof (raw_size interval (meta_entries fh)) as Hr. revert Hr. unfold meta_entries.
  destruct (filter_policy o) as [p|] eqn:Ep; cbn [weight foldr fst snd]; [|lia].
  destruct (Hl p Ep) as [Hn _]. pose proof (size_enc_handle fh (Hh ltac:(done))). rewrite size_app.
  assert (size (str "filter.") = 7) by done. lia.
Qed.

Lemma index_raw_size r st seps :
  core r st seps [] -> pending_index_entry r = false -> size (contents r) < 2 ^ 32 ->
  weight (concat (map fst st)) < 2 ^ 30 -> size (raw_block 1 (index_of seps st)) < 2 ^ 32.
Proof.
  intros Hc Hp Hsz Hw. pose proof (raw_size 1 (index_of seps st)) as Hraw.
  pose proof (g_seps _ _ _ _ Hc) as Hlen. rewrite Hp, Nat.add_0_r in Hlen.
  pose proof (index_weight seps st (fun i s b Hs Hb => so_short _ _ _ _ (g_sep _ _ _ _ Hc i s Hs) b Hb)) as Hi.
  pose proof (weight_length (concat (map fst st))) as Hwl.
  assert (Hi' : weight (index_of seps st) <= weight (concat (map fst st)) + 20 * Z.of_nat (length (concat (map fst st)))).
  { apply Hi; [|intros b Hb; by destruct (g_stored _ _ _ _ Hc b Hb)|done]. intros b Hb.
    destruct (g_stored _ _ _ _ Hc b Hb) as (_ & _ & H3 & H4 & H5). unfold handle_ok, fits. lia. }
  lia.
Qed.

(** The layout of the finished file, from the blocks in it. *)
Lemma finish_layout r r' st seps body m i fh :
  core r st seps [] -> pending_index_entry r = false ->
  ascending (concat (map fst st)) -> weight (concat (map fst st)) < 2 ^ 30 ->
  filter_lawful (concat (map fst st)) -> 1 <= interval ->
  (exists more, body = contents r ++ more) -> contents r' = body ++ Footer_EncodeTo (MkFooter m i) [] ->
  size (contents r') < 2 ^ 32 -> handle_ok m -> handle_ok i ->
  block_at body i (raw_block 1 (index_of seps st)) ->
  block_at body m (raw_block interval (meta_entries fh)) ->
  match filter_block r with
  | None => True
  | Some (p, fb) => handle_ok fh /\ block_at body fh (@FilterBlock_Finish p fb).2 /\
      size (@FilterBlock_Finish p fb).2 < 2 ^ 32
  end ->
  table_layout o (contents r') (parts_of seps st) /\ gap_ok (parts_of seps st) /\
    all_pairs (parts_of seps st) = concat (map fst st).
Proof.
  intros Hc Hp Ha Hw Hl Hint [more Hbody] Hcon Hsz Hm Hi Hib Hmb Hfb.
  pose proof (g_seps _ _ _ _ Hc) as Hlen. rewrite Hp, Nat.add_0_r in Hlen.
  assert (Hsz1 : size (contents r) < 2 ^ 32).
  { rewrite Hcon, Hbody, !size_app in Hsz. pose proof (size_nonneg more).
    pose proof (size_nonneg (Footer_EncodeTo (MkFooter m i) [])). lia. }
  split; [|split; [by apply (stored_gap_ok r)|by apply pairs_parts]]. split.
  - lia.
  - done.
  - by apply (stored_parts_ok r).
  - intros p Hpin. apply list_elem_of_lookup in Hpin as [j Hj]. apply parts_lookup in Hj as (s & b & _ & Hb & ->). cbn [p_kvs p_sep p_handle].
    apply list_elem_of_lookup_2 in Hb. destruct (g_stored _ _ _ _ Hc b Hb) as (_ & Hat & H3 & H4 & H5).
    split; [unfold handle_ok, fits; lia|split].
    + rewrite Hcon, Hbody, <- app_assoc. by apply block_at_app.
    + pose proof (raw_size interval b.1). pose proof (weight_part st b Hb). lia.
  - exists body, m, i. rewrite index_parts. split_and!; try done.
    + rewrite Hcon. by apply block_at_app.
    + by apply (index_raw_size r).
    + destruct (filter_policy o) as [fp|] eqn:Ep; [|done].
      destruct (stored_filter_ok r st seps fp Hc Ep Hl) as (fb & Efb & Hfok). rewrite Efb in Hfb.
      destruct Hfb as (Hfh & Hat & Hfsz). unfold meta_entries in Hmb. rewrite Ep in Hmb.
      pose proof (meta_size fh _ Hl (fun _ => Hfh)) as Hms. unfold meta_entries in Hms. rewrite Ep in Hms.
      exists fh, (@FilterBlock_Finish fp fb).2. split_and!; try done.
      * rewrite Hcon. by apply block_at_app.
      * rewrite Hcon. by apply block_at_app.
      * by apply Hfok.
Qed.

Lemma Finish_ok r :
  tame r -> exists r', TableBuilder_Finish r = Ok (r', status r') /\
  (tb_ok r' = true -> tb_ok (TableBuilder_Flush r) = true /\
     (exists more, contents r' = contents (TableBuilder_Flush r) ++ more) /\
     (size (contents r') < 2 ^ 32 -> forall st seps, good (TableBuilder_Flush r) st seps [] ->
        ascending (concat (map fst st)) -> weight (concat (map fst st)) < 2 ^ 30 ->
        filter_lawful (concat (map fst st)) -> 1 <= interval ->
        exists ps, table_layout o (contents r') ps /\ gap_ok ps /\ all_pairs ps = concat (map fst st))).
Proof.
  intros Ht. apply Flush_tame in Ht. unfold TableBuilder_Finish. set (r0 := TableBuilder_Flush r) in *.
  cbv zeta. set (r1 := set_closed r0). assert (Ht1 : tame r1) by exact Ht.
  destruct (write_filter_block r1) as [r2 fh] eqn:E2. apply write_filter_ok in E2 as [Ho2 H2].
  pose proof (tame_outputs _ _ Ho2 Ht1) as [Hopt2 Hfb2].
  destruct (write_metaindex_ok r2 fh Hopt2 Hfb2) as (r3 & mh & -> & Ho3 & H3). cbn [res_bind].
  destruct (outputs_trans _ _ _ Ho2 Ho3) as (f3 & off3 & s3 & E3).
  destruct (write_index_block r3) as [r4 ih] eqn:E4. rewrite E3 in E4.
  pose proof (write_index_ok r1 f3 off3 s3 r4 ih E4 (proj1 Ht1)) as Hidx4. rewrite <- E3 in Hidx4.
  eexists. split; [done|]. intros H5. apply write_footer_ok in H5 as [Hok4 Hc5].
  destruct (Hidx4 Hok4) as (Hok3 & Hx4 & H4).
  assert (Hok3' : tb_ok r3 = true) by (by rewrite E3). destruct (H3 Hok3') as (Hok2 & Hx3 & Hm).
  destruct (H2 Hok2) as (Hok1 & Hx2 & Hf). split; [exact Hok1|].
  pose proof (extends_trans _ _ _ Hx2 (extends_trans _ _ _ Hx3 Hx4)) as Hx.
  split; [destruct Hx as [[more Hmore] _]; eexists; rewrite Hc5, Hmore; by rewrite <- app_assoc|].
  intros Hsz st seps Hg Ha Hw Hl Hint.
  assert (Hg1 : good r1 st seps []) by (by destruct Hg as [[] []]).
  destruct (finish_index_ok r1 st seps Hg1 Ha) as (seps' & Hc & Hp).
  pose proof (g_offset _ _ _ _ (proj1 Hg1)) as Hoff1.
  assert (Hsz4 : size (contents r4) < 2 ^ 32).
  { rewrite Hc5, size_app in Hsz. pose proof (size_nonneg (Footer_EncodeTo (MkFooter mh ih) [])). lia. }
  pose proof (extends_size _ _ Hx4) as Hle4. pose proof (extends_size _ _ Hx3) as Hle3.
  assert (Hoff2 : offset r2 = size (contents r2)) by (apply Hx2; [done|lia]).
  assert (Hoff3 : offset r3 = size (contents r3)) by (apply Hx3; [done|lia]).
  pose proof (Hf Hoff1 ltac:(lia)) as Hf'. pose proof (g_index _ _ _ _ Hc) as Hidx.
  assert (Hfb : filter_block (finish_index r1) = filter_block r1) by (unfold finish_index; by destruct (pending_index_entry r1)).
  assert (Hcon : contents (finish_index r1) = contents r1) by (unfold finish_index; by destruct (pending_index_entry r1)).
  destruct Hm as [Hmh Hmb]; [|done|lia|].
  { apply (meta_size _ _ Hl). intros Hne. destruct (filter_block r1) as [[p fb]|] eqn:Efb; [by destruct Hf'|].
    by destruct Hne, (proj1 (proj2 Ht1)). }
  destruct H4 as [Hih Hib]; [|by rewrite E3 in Hoff3|done|].
  { rewrite Hidx. apply (index_raw_size (finish_index r1) st seps' Hc Hp); [|done]. rewrite Hcon.
    pose proof (extends_size _ _ Hx2). lia. }
  rewrite Hidx in Hib. exists (parts_of seps' st).
  apply (finish_layout (finish_index r1) _ st seps' (contents r4) mh ih fh); try done.
  - destruct Hx as [[more Hmore] _]. exists more. by rewrite Hcon.
  - by apply (block_at_extends _ _ _ _ Hx4).
  - rewrite Hfb. destruct (filter_block r1) as [[p fb]|]; [|done]. destruct Hf' as (Hfh & Hat & Hfs).
    split_and!; try done. apply (block_at_extends r2); [by apply (extends_trans _ r3)|done].
Qed.
End building.
