(* ===== verification/TableProps.v ===== *)
(** * Tables: the properties

    A table built from sorted pairs, written to a file and opened again iterates over
    the pairs, and a lookup of a user key at a snapshot finds its newest visible
    entry. *)
From S2P Require Import Prelude Coding Bloom Comparator DbFormat Crc32c Status Cursor Block Merger LogWriter FilterBlock Format TableBuilder TwoLevel Table TableLayout TableCorrect.

(** ** From the pairs to the layout *)

Section built.
Context `{C : Comparator} `{!ComparatorLaws C} `{!ComparatorShort C} {F : Type} `{WL : WritableFileLaws F} `{Sn : Snappy}.
Context (o : Options) (same : bytes -> bytes -> Prop).
Context (Hgap : forall s l, cmp_Compare s l < 0 ->
  cmp_FindShortestSeparator s l = s \/ beyond same (cmp_FindShortestSeparator s l) l).

(** Pairs a table can be built from. *)
Record buildable (kvs : list (bytes * bytes)) : Prop := {
  bu_compression : compression o = kNoCompression \/ compression o = kSnappyCompression;
  bu_interval : 1 <= opt_block_restart_interval o;
  bu_ascending : ascending kvs;
  bu_weight : weight kvs < 2 ^ 30;
  bu_filter : filter_lawful o kvs
}.

Lemma build_layout (f0 : F) kvs :
  wf_contents f0 = [] -> buildable kvs ->
  exists r, TableBuilder_Finish (add_all (NewTableBuilder o f0) kvs) = Ok (r, status r) /\
    (tb_ok r = true -> size (wf_contents (file r)) < 2 ^ 32 ->
     exists ps, table_layout o (wf_contents (file r)) ps /\ gap_ok same ps /\ all_pairs ps = kvs).
Proof.
  intros Hf [Hc Hi Ha Hw Hl]. set (r0 := add_all _ kvs).
  destruct (Finish_ok o same Hc r0) as (r & E & Hr); [apply add_all_tame, New_tame|].
  exists r. split; [done|]. intros Hok Hsz. destruct (Hr Hok) as (Hok1 & [m1 E1] & Hlay).
  destruct (Flush_grows r0 Hok1) as (Hok0 & m0 & E0).
  assert (Hle1 : size (wf_contents (file (TableBuilder_Flush r0))) <= size (wf_contents (file r))).
  { rewrite E1, size_app. pose proof (size_nonneg m1). lia. }
  assert (Hle0 : size (wf_contents (file r0)) <= size (wf_contents (file (TableBuilder_Flush r0)))).
  { rewrite E0, size_app. pose proof (size_nonneg m0). lia. }
  destruct (add_all_good o same Hgap Hc kvs (NewTableBuilder o f0) [] [] []) as (st & seps & cur & Hg & Ekvs).
  - by apply New_good.
  - done.
  - change (weight kvs < 2 ^ 31). lia.
  - done.
  - fold r0. lia.
  - fold r0 in Hg. cbn in Ekvs. destruct (Flush_good o same Hc r0 st seps cur Hg) as (st' & Hg' & E').
    + pose proof (weight_app_r (concat (map fst st)) cur) as Hwc. rewrite Ekvs in Hwc. lia.
    + done.
    + lia.
    + rewrite Ekvs in E'. destruct (Hlay ltac:(lia) st' seps Hg') as (ps & H1 & H2 & H3); rewrite ?E'; try done.
      exists ps. by rewrite <- E'.
Qed.
End built.

(** ** Opening it again *)

(** The id that the next table gets is new to the cache. *)
Definition fresh_id {W} `{BlockCacheLaws W} (bc : option W) : Prop :=
  match bc with
  | None => True
  | Some w => forall off b, ~ cache_holds (cache_NewId w).1 (block_cache_key (cache_NewId w).2 off) b
  end.

Lemma fresh_cache_ok {F W} `{BCL : BlockCacheLaws W} o ps (t : Table F) (bc bc' : option W) :
  fresh_id bc ->
  match bc with
  | None => bc' = None
  | Some w => bc' = Some (cache_NewId w).1 /\ cache_id t = (cache_NewId w).2
  end -> cache_ok o ps t bc'.
Proof.
  destruct bc as [w|]; cbn; [|by intros _ ->]. intros Hf [-> Hid]. cbn. rewrite Hid. intros p b _ Hb.
  by destruct (Hf _ _ Hb).
Qed.

(** The gap of separators of internal keys: a lookup of the same user key at or past
    [l] is past the separator. *)
Lemma Internal_gap `{C : Comparator} `{!ComparatorLaws C} s l :
  cmp_Compare (Comparator := InternalKeyComparator C) s l < 0 ->
  cmp_FindShortestSeparator (Comparator := InternalKeyComparator C) s l = s \/
  beyond (C := InternalKeyComparator C) (fun k z => ExtractUserKey k = ExtractUserKey z)
    (cmp_FindShortestSeparator (Comparator := InternalKeyComparator C) s l) l.
Proof.
  intros Hsl. cbn in *. unfold Internal_FindShortestSeparator. set (us := ExtractUserKey s).
  set (ul := ExtractUserKey l). set (tmp := cmp_FindShortestSeparator us ul).
  destruct (_ && _) eqn:E; [|by left]. right. apply andb_prop in E as [_ E2]. apply Z.ltb_lt in E2.
  intros k z Hz Hk. cbn. apply Internal_Compare_lt. unfold PutFixed64. rewrite ExtractUserKey_app, Hk. left.
  assert (Hlt : cmp_Compare tmp ul < 0).
  { apply Internal_Compare_lt in Hsl as [Hlt|[Heq _]].
    - by apply (cmp_separator us ul).
    - pose proof (cmp_separator_eq us ul Heq). unfold tmp in *. lia. }
  cbn in Hz. apply Internal_Compare_le in Hz as [Hz|[Hz _]]; fold ul in Hz; apply (cmp_lt_le_trans _ ul); (done || (change (cmp_Compare ul (ExtractUserKey z) <= 0); lia)).
Qed.

(** ** Files and a cache in memory *)

(** Reading at or past the end gives nothing, as the files of the environment do. *)
#[export] Instance MemorySource : RandomAccessFile bytes := {|
  raf_Read f offset n := (take (Z.to_nat n) (drop (Z.to_nat offset) f), Status_OK, true)
|}.

#[export, refine] Instance MemorySourceLaws : RandomAccessFileLaws bytes := {| raf_contents f := f |}.
Proof. by intros f offset n data s scratch _ _ [= <- _ _] _. Defined.

#[export] Instance no_snappy_laws : SnappyLaws no_snappy.
Proof. by split. Qed.

(** A cache that keeps everything. *)
#[export] Instance AssocCache : BlockCache (Z * list (bytes * Block)) := {|
  cache_NewId w := ((w.1 + 1, w.2), w.1 + 1);
  cache_Lookup w k := (w, snd <$> List.find (fun e => bool_decide (e.1 = k)) w.2);
  cache_Insert w k b _ := (w.1, (k, b) :: w.2)
|}.

#[export, refine] Instance AssocCacheLaws : BlockCacheLaws (Z * list (bytes * Block)) := {|
  cache_holds w k b := (k, b) ∈ w.2
|}.
Proof.
  - intros w k w' b. cbn. intros [= _ Hf]. destruct (List.find _ _) as [[k' b']|] eqn:E; [|done]. injection Hf as ->.
    apply List.find_some in E as [Hin Hk]. apply bool_decide_eq_true in Hk. cbn in Hk. subst k'. by apply list_elem_of_In.
  - by intros w k w' o k' b [= <- _].
  - intros w k b charge k' b' Hin. apply elem_of_cons in Hin as [[= -> ->]|Hin]; [by left|by right].
  - done.
Defined.

(** ** The theorems *)

Section theorems.
Context {F : Type} `{WL : WritableFileLaws F} {G : Type} `{RL : RandomAccessFileLaws G} {Sn : Snappy} `{!SnappyLaws Sn}
  {W : Type} `{BCL : BlockCacheLaws W}.

(** C3. A table built from sorted pairs reads back: [Finish] never goes wrong on the
    memory it uses, and when every write succeeded, opening the file (with any block
    cache whose next id is fresh, or none, checksums verified or not) succeeds and the
    two-level iterator over the table behaves as a cursor in exactly those pairs under
    every sequence of moves, never skipping, repeating or reordering one. *)
Theorem table_roundtrip {C : Comparator} `{!ComparatorLaws C} `{!ComparatorShort C} (o : Options) (f0 : F)
    (kvs : list (bytes * bytes)) (rf : G) (bc : option W) (verify fill : bool) :
  wf_contents f0 = [] -> buildable o kvs -> fresh_id bc ->
  exists r, TableBuilder_Finish (add_all (NewTableBuilder o f0) kvs) = Ok (r, status r) /\
    (tb_ok r = true -> size (wf_contents (file r)) < 2 ^ 32 ->
     raf_contents rf = wf_contents (file r) -> reliable rf ->
     exists bc' t blocks, Table_Open o rf (size (raf_contents rf)) bc = Ok (bc', inl t) /\
       forall fuel, (blocks <= fuel)%nat ->
         @iterates_at C _ (TableIterator t verify fill fuel) (Table_NewIterator t bc') kvs None).
Proof.
  intros Hf Hb Hbc.
  destruct (build_layout o (fun _ _ => False) (fun s l _ => or_intror (fun k z _ (Hn : False) => match Hn with end))
    f0 kvs Hf Hb) as (r & E & Hr).
  exists r. split; [done|]. intros Hok Hsz Hcon Hrel. destruct (Hr Hok Hsz) as (ps & Hly & _ & <-).
  rewrite <- Hcon in Hly. destruct (Open_ok o rf ps Hrel Hly bc) as (bc' & t & Eo & Ht & Hid).
  exists bc', t, (length ps). split; [done|]. intros fuel Hfuel.
  apply (table_iterates o rf ps Hrel Hly); try done. by apply (fresh_cache_ok _ _ _ bc).
Qed.

(** The filter of a table of internal keys, if any, looks at user keys. *)
Definition user_key_filter (o : Options) : Prop :=
  forall fp, filter_policy o = Some fp -> exists fp0, fp = InternalFilterPolicy fp0.

Lemma lookup_target {C : Comparator} `{!ComparatorLaws C} `{!ComparatorExact C} kvs u s s' t v :
  @ascending (InternalKeyComparator C) kvs -> (forall x, x ∈ kvs -> is_Some (ParseInternalKey x.1)) ->
  seq_ok s -> seq_ok s' -> type_ok t -> s' <= s -> (InternalKey u s' t, v) ∈ kvs ->
  (forall s2 t2 v2, (InternalKey u s2 t2, v2) ∈ kvs -> seq_ok s2 -> type_ok t2 -> s2 <= s -> s2 < s' \/ (s2 = s' /\ t2 <= t)) ->
  at_cursor kvs (@find_ge (InternalKeyComparator C) (internal_key (NewLookupKey u s)) kvs) = Some (InternalKey u s' t, v).
Proof.
  intros Ha Hparse Hs Hs' Ht Hle Hin Hnew. destruct (NewLookupKey_parts u s) as [-> _].
  apply list_elem_of_lookup in Hin as [n Hn].
  assert (Hk : type_ok kValueTypeForSeek) by by right.
  assert (Hge : 0 <= @cmp_Compare (InternalKeyComparator C) (InternalKey u s' t) (InternalKey u s kValueTypeForSeek)).
  { destruct (Z.lt_ge_cases (@cmp_Compare (InternalKeyComparator C) (InternalKey u s' t) (InternalKey u s kValueTypeForSeek)) 0)
      as [Hlt|]; [|done]. cbn in Hlt. apply Internal_Compare_InternalKey in Hlt; [|done..].
    rewrite cmp_refl in Hlt. apply type_ok_range in Ht. unfold kValueTypeForSeek, kTypeValue in Hlt. lia. }
  rewrite (@find_ge_unique (InternalKeyComparator C) _ kvs n _ Hn Hge); [done|].
  intros j y Hj Hy. destruct (Hparse y (list_elem_of_lookup_2 _ _ _ Hy)) as [p Hp].
  apply ParseInternalKey_Some in Hp as [Ey [Hps Hpt]]. pose proof (Ha j n _ _ Hj Hy Hn) as Hlt.
  rewrite Ey in *. cbn [cmp_Compare InternalKeyComparator] in Hlt |- *. apply Internal_Compare_InternalKey in Hlt; [|done..].
  apply Internal_Compare_InternalKey; [done..|]. destruct Hlt as [Hlt|[Heq Hlt]]; [by left|]. right. split; [done|].
  apply cmp_exact in Heq. destruct (Z.le_gt_cases (sequence p) s) as [Hps'|Hgt]; [|left; lia].
  assert (Hyin : (InternalKey u (sequence p) (type p), y.2) ∈ kvs).
  { rewrite <- Heq, <- Ey. apply (list_elem_of_lookup_2 _ j). by destruct y. }
  specialize (Hnew _ _ _ Hyin Hps Hpt Hps'). lia.
Qed.

Definition newest_visible (kvs : list (bytes * bytes)) (u : bytes) (s : Z) (x : bytes * bytes) : Prop :=
  x ∈ kvs /\ exists s' t, x.1 = InternalKey u s' t /\ seq_ok s' /\ type_ok t /\ s' <= s /\
    forall s2 t2 v2, (InternalKey u s2 t2, v2) ∈ kvs -> seq_ok s2 -> type_ok t2 -> s2 <= s -> s2 < s' \/ (s2 = s' /\ t2 <= t).

Lemma lookup_visible {C : Comparator} `{!ComparatorLaws C} kvs u s x :
  (forall x, x ∈ kvs -> is_Some (ParseInternalKey x.1)) -> seq_ok s ->
  at_cursor kvs (@find_ge (InternalKeyComparator C) (internal_key (NewLookupKey u s)) kvs) = Some x ->
  x ∈ kvs /\ (ExtractUserKey x.1 = u -> exists s' t, x.1 = InternalKey u s' t /\ s' <= s).
Proof.
  intros Hparse Hs. destruct (NewLookupKey_parts u s) as [-> _].
  pose proof (@find_ge_spec (InternalKeyComparator C) (InternalKey u s kValueTypeForSeek) kvs) as Hf.
  destruct (find_ge _ kvs) as [n|]; [|done]. cbn [at_cursor]. intros Hn.
  destruct Hf as [(y & Hy & Hge) _]. cbn in Hn. rewrite Hn in Hy. injection Hy as <-.
  assert (Hin : x ∈ kvs) by by apply (list_elem_of_lookup_2 _ n). split; [done|]. intros Hu.
  destruct (Hparse x Hin) as [p Hp]. apply ParseInternalKey_Some in Hp as [Ex [Hps Hpt]].
  rewrite Ex in Hu, Hge. rewrite InternalKey_app, ExtractUserKey_app in Hu. exists (sequence p), (type p).
  rewrite Ex, <- Hu. split; [done|]. destruct (Z.le_gt_cases (sequence p) s) as [|Hgt]; [done|].
  assert (Hlt : Internal_Compare C (InternalKey (user_key p) (sequence p) (type p)) (InternalKey u s kValueTypeForSeek) < 0).
  { apply Internal_Compare_InternalKey; [done..|by right|]. rewrite Hu, cmp_refl. right. split; [done|]. left. lia. }
  cbn [cmp_Compare InternalKeyComparator] in Hge. lia.
Qed.

(** C2. Lookups in a table of internal keys find the newest visible entry: after a table
    is built from sorted internal keys and opened, every lookup of a user key at a
    snapshot, one after another through the block cache, the index separators and the
    filter, succeeds and returns the entry of that user key with the largest sequence
    number at or below the snapshot when there is one, and otherwise nothing or an
    entry of another user key, never an entry newer than the snapshot. *)
Theorem table_get {C : Comparator} `{!ComparatorLaws C} `{!ComparatorExact C} `{!ComparatorShort C} (o : Options)
    (f0 : F) (kvs : list (bytes * bytes)) (rf : G) (bc : option W) (verify fill : bool) :
  wf_contents f0 = [] -> @buildable (InternalKeyComparator C) o kvs ->
  (forall x, x ∈ kvs -> is_Some (ParseInternalKey x.1)) -> user_key_filter o -> fresh_id bc ->
  exists r, @TableBuilder_Finish (InternalKeyComparator C) _ _ _
      (@add_all (InternalKeyComparator C) _ _ _ (NewTableBuilder o f0) kvs) = Ok (r, status r) /\
    (tb_ok r = true -> size (wf_contents (file r)) < 2 ^ 32 ->
     raf_contents rf = wf_contents (file r) -> reliable rf ->
     exists bc' t (usable : option W -> Prop),
       Table_Open o rf (size (raf_contents rf)) bc = Ok (bc', inl t) /\ usable bc' /\
       forall bc1 u s, usable bc1 -> seq_ok s ->
         exists bc2 st found,
           @InternalGet (InternalKeyComparator C) _ _ _ _ _ t verify fill bc1 (internal_key (NewLookupKey u s))
             = Ok (bc2, st, found) /\ usable bc2 /\ Status_ok st = true /\
           (forall x, newest_visible kvs u s x -> found = Some x) /\
           (forall x, found = Some x ->
              x ∈ kvs /\ (ExtractUserKey x.1 = u -> exists s' t', x.1 = InternalKey u s' t' /\ s' <= s))).
Proof.
  intros Hf Hb Hparse Hfp Hbc.
  destruct (build_layout (C := InternalKeyComparator C) o _ (Internal_gap (C := C)) f0 kvs Hf Hb) as (r & E & Hr).
  exists r. split; [done|]. intros Hok Hsz Hcon Hrel. destruct (Hr Hok Hsz) as (ps & Hly & Hgap & Eps).
  rewrite <- Hcon in Hly.
  destruct (Open_ok (C := InternalKeyComparator C) o rf ps Hrel Hly bc) as (bc' & t & Eo & Ht & Hid).
  exists bc', t, (cache_ok o ps t). split; [done|]. split; [by apply (fresh_cache_ok _ _ _ bc)|].
  intros bc1 u s Hbc1 Hs.
  destruct (InternalGet_ok (C := InternalKeyComparator C) o rf ps Hrel Hly t Ht verify fill bc1
    (internal_key (NewLookupKey u s)) Hbc1) as (bc2 & st & found & Eg & Hbc2 & Hst & Hfound & Hyes).
  exists bc2, st, found. split_and!; try done.
  - intros [k v] (Hin & s' & t' & Ek & Hs' & Ht' & Hle & Hnew). cbn in Ek. subst k.
    assert (Htarget := lookup_target kvs u s s' t' v (bu_ascending _ _ Hb) Hparse Hs Hs' Ht' Hle Hin Hnew).
    rewrite Eps in Hyes. specialize (Hyes _ Htarget). apply Hyes.
    + intros fp fr Hfilter b. pose proof (op_filter _ _ _ _ Ht) as Hof. rewrite Hfilter in Hof.
      destruct Hof as [Hop _]. destruct (Hfp fp Hop) as [fp0 ->].
      destruct (NewLookupKey_parts u s) as [-> _]. unfold FilterBlock_KeyMayMatch.
      cbn [fp_KeyMayMatch InternalFilterPolicy fst]. by rewrite !InternalKey_app, !ExtractUserKey_app.
    + intros p Hp Hk. apply (gap_target (fun k z => ExtractUserKey k = ExtractUserKey z) ps p
        (internal_key (NewLookupKey u s))); try done.
      * apply (ly_parts _ _ _ Hly).
      * rewrite Eps. apply (bu_ascending _ _ Hb).
      * by rewrite Eps.
      * destruct (NewLookupKey_parts u s) as [-> _]. cbn [fst]. by rewrite !InternalKey_app, !ExtractUserKey_app.
  - intros x ->. destruct Hfound as [|Hfound]; [done|]. rewrite Eps in Hfound.
    by apply (lookup_visible (C := C)).
Qed.
End theorems.

(** ** Witnesses *)

Definition example_options (p : option FilterPolicy) : Options := MkOptions 40 2 kNoCompression p false.

Definition example_pairs : list (bytes * bytes) :=
  [(str "apple", str "red"); (str "apricot", str "orange"); (str "banana", str "yellow"); (str "cherry", str "dark red")].

Definition finished {F} `{WritableFileLaws F} (r : res (TableBuilder F * Status)) : bytes * bool :=
  match r with
  | Ok (r, _) => (wf_contents (file r), tb_ok r)
  | _ => ([], false)
  end.

Abbreviation example_table :=
  (@TableBuilder_Finish BytewiseComparator _ _ no_snappy
    (@add_all BytewiseComparator _ _ no_snappy (NewTableBuilder (example_options None) ([] : bytes)) example_pairs)).

Lemma memory_reliable (f : bytes) : reliable f.
Proof. done. Qed.

(** What is left to check once the table is computed. *)
Lemma finished_ok {F} `{WritableFileLaws F} res (r : TableBuilder F) data :
  res = Ok (r, TableBuilder.status r) -> finished res = (data, true) ->
  tb_ok r = true /\ data = wf_contents (file r).
Proof. by intros -> [= -> ->]. Qed.

Definition example_data : bytes := Eval vm_compute in (finished example_table).1.

Lemma example_table_ok : finished example_table = (example_data, true).
Proof. vm_compute. reflexivity. Qed.

Lemma table_roundtrip_witness :
  exists bc t blocks, Table_Open (W := Z * list (bytes * Block)) (Sn := no_snappy) (example_options None) example_data
      (size example_data) (Some (0, [])) = Ok (bc, inl t) /\
    forall fuel, (blocks <= fuel)%nat ->
      @iterates_at BytewiseComparator _ (TableIterator (Sn := no_snappy) t true true fuel) (Table_NewIterator t bc) example_pairs None.
Proof.
  destruct (table_roundtrip (Sn := no_snappy) (C := BytewiseComparator) (example_options None) ([] : bytes) example_pairs
    example_data (Some (0, [])) true true) as (r & E & Hr).
  - reflexivity.
  - split; [by left|cbn; lia|apply ascending_b_ok; by vm_compute|by vm_compute|].
    intros fp Hfp. discriminate Hfp.
  - intros off b Hb. by apply elem_of_nil in Hb.
  - destruct (finished_ok _ r _ E example_table_ok) as [Hok Hd].
    apply (Hr Hok); [rewrite <- Hd; by vm_compute|exact Hd|apply memory_reliable].
Defined.

(** Internal keys, with a Bloom filter on their user keys. *)
Definition example_versions : list (bytes * bytes) :=
  [(InternalKey (str "k1") 9 kTypeValue, str "new"); (InternalKey (str "k1") 4 kTypeDeletion, []);
   (InternalKey (str "k1") 2 kTypeValue, str "old"); (InternalKey (str "k2") 7 kTypeValue, str "other")].

Definition example_internal_options : Options :=
  example_options (Some (InternalFilterPolicy (BloomPolicy (NewBloomFilterPolicy 10)))).

Abbreviation example_internal_table :=
  (@TableBuilder_Finish (InternalKeyComparator BytewiseComparator) _ _ no_snappy
    (@add_all (InternalKeyComparator BytewiseComparator) _ _ no_snappy
       (NewTableBuilder example_internal_options ([] : bytes)) example_versions)).

Definition example_internal_data : bytes := Eval vm_compute in (finished example_internal_table).1.

Lemma example_internal_table_ok : finished example_internal_table = (example_internal_data, true).
Proof. vm_compute. reflexivity. Qed.

Lemma example_newest :
  newest_visible example_versions (str "k1") 8 (InternalKey (str "k1") 4 kTypeDeletion, []).
Proof.
  split; [right; left|]. exists 4, kTypeDeletion. split; [done|]. split; [split; by vm_compute|]. split; [by left|].
  split; [lia|]. intros s2 t2 v2 Hin Hs2 Ht2 Hle. unfold example_versions in Hin.
  rewrite !elem_of_cons in Hin. apply type_ok_range in Ht2. unfold kTypeDeletion.
  assert (Hinj : forall u s t, seq_ok s -> 0 <= t <= 1 -> InternalKey (str "k1") s2 t2 = InternalKey u s t -> s2 = s /\ t2 = t).
  { intros u s0 t0 Hs0 Ht0 Ek. apply (f_equal key_tag) in Ek. rewrite !key_tag_InternalKey in Ek by (done || lia). lia. }
  destruct Hin as [Ek|[Ek|[Ek|[Ek|[]%elem_of_nil]]]]; apply (f_equal fst) in Ek; cbn [fst] in Ek.
  4: { apply (f_equal ExtractUserKey) in Ek. rewrite !InternalKey_app, !ExtractUserKey_app in Ek. discriminate Ek. }
  all: apply Hinj in Ek as [-> ->]; try (split; by vm_compute); unfold kTypeDeletion, kTypeValue in *; lia.
Qed.

Lemma table_get_witness :
  exists (bc : option (Z * list (bytes * Block))) t,
    Table_Open (Sn := no_snappy) example_internal_options example_internal_data
      (size example_internal_data) (Some (0, [])) = Ok (bc, inl t) /\
    exists bc2 st, @InternalGet (InternalKeyComparator BytewiseComparator) _ _ no_snappy _ _ t true true bc
      (internal_key (NewLookupKey (str "k1") 8)) = Ok (bc2, st, Some (InternalKey (str "k1") 4 kTypeDeletion, [])).
Proof.
  destruct (table_get (Sn := no_snappy) (C := BytewiseComparator) example_internal_options ([] : bytes) example_versions
    example_internal_data (Some (0, [])) true true) as (r & E & Hr).
  - reflexivity.
  - split; [by left|cbn; lia|apply ascending_b_ok; by vm_compute|by vm_compute|].
    intros fp [= <-]. split; [by vm_compute|]. eexists. split; [apply InternalFilterPolicyLaws, BloomPolicyLaws|].
    intros ks Hks. unfold bloom_ok. rewrite length_map. change (length ks <= 4)%nat in Hks. change (bits_per_key_ _) with 10. lia.
  - intros x Hx. unfold example_versions in Hx. rewrite !elem_of_cons in Hx.
    destruct Hx as [->|[->|[->|[->|[]%elem_of_nil]]]]; vm_compute; by eexists.
  - intros fp [= <-]. by eexists.
  - intros off b Hb. by apply elem_of_nil in Hb.
  - destruct (finished_ok _ r _ E example_internal_table_ok) as [Hok Hd].
    destruct (Hr Hok) as (bc & t & usable & Eo & Hu & Hget); [rewrite <- Hd; by vm_compute|exact Hd|apply memory_reliable|].
    exists bc, t. split; [exact Eo|]. destruct (Hget bc (str "k1") 8 Hu) as (bc2 & st & found & Eg & _ & _ & Hnew & _).
    { split; by vm_compute. }
    exists bc2, st. rewrite Eg, (Hnew _ example_newest). reflexivity.
Defined.
