(* ===== verification/BlockCacheLru.v ===== *)
(** * The LRU cache as the block cache of tables

    The sharded cache of [Cache.v] discharges the interface [BlockCache] of [Table.v]: what
    a lookup returns was inserted_pairs under the same key.  A reader of blocks releases its
    handle when it is done with the block; here that is at once, since a block is a value. *)
From stdpp Require Import gmap.
From S2P Require Import Prelude Ring HandleTable Cache Cursor Block Format Table TableProps.

Definition released {V} (c : ShardedLRUCache V) (handle : Handle) : ShardedLRUCache V := default c (Sharded_Release c handle).

#[export] Instance LruBlockCache : BlockCache (ShardedLRUCache Block) := {|
  cache_NewId := Sharded_NewId;
  cache_Lookup c key :=
    match Sharded_Lookup c key with
    | Some (c, Some handle) => (released c handle, Sharded_Value c handle)
    | Some (c, None) => (c, None)
    | None => (c, None)
    end;
  cache_Insert c key block charge :=
    match Sharded_Insert c key block charge with
    | Some (c, handle) => released c handle
    | None => c
    end
|}.

(** ** The entries after an operation *)

Section old.
Context {V : Type}.
Implicit Types (c : LRUCache V).

(** No entry is new, and those left have their keys and values. *)
Definition only_old c c' : Prop := forall a h', lc_nodes c' !! a = Some h' -> exists h, lc_nodes c !! a = Some h /\ h_key h' = h_key h /\ h_value h' = h_value h.

#[export] Instance only_old_preorder : PreOrder only_old.
Proof.
  split; [intros c a h H; by exists h|]. intros c1 c2 c3 H1 H2 a h3 H3. destruct (H2 a h3 H3) as (h2 & E2 & K2 & V2). destruct (H1 a h2 E2) as (h1 & E1 & K1 & V1).
  exists h1. by rewrite K2, V2.
Qed.

Lemma same_nodes_old c c' : lc_nodes c' = lc_nodes c -> only_old c c'.
Proof. intros E a h H. exists h. by rewrite <- E. Qed.

Lemma put_node_old c e h h' : lc_nodes c !! e = Some h -> h_key h' = h_key h -> h_value h' = h_value h -> only_old c (put_node c e h').
Proof.
  intros E Hk Hv a x. cbn. destruct (decide (a = e)) as [->|Hne]; [rewrite lookup_insert_eq; intros [= <-]; by exists h|].
  rewrite lookup_insert_ne by done. intros Hx. by exists x.
Qed.

Lemma free_node_old c e h : only_old c (free_node c e h).
Proof. intros a x. cbn. intros [_ Hx]%lookup_delete_Some. by exists x. Qed.

Lemma LRU_Remove_nodes c e c' : LRU_Remove c e = Some c' -> lc_nodes c' = lc_nodes c.
Proof. unfold LRU_Remove. destruct (unlink _ _); [|done]. by intros [= <-]. Qed.

Lemma LRU_Append_nodes c l e c' : LRU_Append c l e = Some c' -> lc_nodes c' = lc_nodes c.
Proof. unfold LRU_Append. destruct (link_before _ _ _); [|done]. by intros [= <-]. Qed.

Lemma Ref_old c e c' : lru_Ref c e = Some c' -> only_old c c'.
Proof.
  unfold lru_Ref. destruct (lc_nodes c !! e) as [h|] eqn:E; [|done]. cbn [mbind option_bind].
  assert (Hc : forall c1, lc_nodes c1 = lc_nodes c -> only_old c (put_node c1 e (set_refs h (u32 (h_refs h + 1))))).
  { intros c1 E1. etransitivity; [apply (same_nodes_old c c1 E1)|]. apply (put_node_old c1 e h); [by rewrite E1|done..]. }
  destruct (_ && _); [|intros [= <-]; by apply Hc]. destruct (LRU_Remove c e) as [c1|] eqn:E1; [|done]. cbn [mbind option_bind].
  destruct (LRU_Append c1 in_use_ e) as [c2|] eqn:E2; [|done]. cbn. intros [= <-]. apply Hc. by rewrite (LRU_Append_nodes _ _ _ _ E2), (LRU_Remove_nodes _ _ _ E1).
Qed.

Lemma Unref_old c e c' : lru_Unref c e = Some c' -> only_old c c'.
Proof.
  unfold lru_Unref. destruct (lc_nodes c !! e) as [h|] eqn:E; [|done]. cbn [mbind option_bind]. set (h' := set_refs h (u32 (h_refs h - 1))).
  assert (Hp : only_old c (put_node c e h')) by (by apply (put_node_old c e h)).
  destruct (_ =? 0); [intros [= <-]; etransitivity; [exact Hp|apply free_node_old]|]. destruct (_ && _); [|by intros [= <-]].
  destruct (LRU_Remove _ e) as [c1|] eqn:E1; [|done]. cbn [mbind option_bind]. intros E2. etransitivity; [exact Hp|]. apply same_nodes_old.
  by rewrite (LRU_Append_nodes _ _ _ _ E2), (LRU_Remove_nodes _ _ _ E1).
Qed.

Lemma FinishErase_old c e c' b : FinishErase c e = Some (c', b) -> only_old c c'.
Proof.
  unfold FinishErase. destruct e as [e|]; [|by intros [= <- _]]. destruct (LRU_Remove c e) as [c1|] eqn:E1; [|done]. cbn [mbind option_bind].
  destruct (lc_nodes c1 !! e) as [h|] eqn:Eh; [|done]. cbn [mbind option_bind]. destruct (lru_Unref _ e) as [c2|] eqn:E2; [|done]. cbn. intros [= <- _].
  apply Unref_old in E2. etransitivity; [apply (same_nodes_old c c1), (LRU_Remove_nodes _ _ _ E1)|]. etransitivity; [|exact E2].
  etransitivity; [by apply (put_node_old c1 e h (set_in_cache h false))|by apply same_nodes_old].
Qed.

Lemma lru_Erase_old c key hash c' : lru_Erase c key hash = Some c' -> only_old c c'.
Proof.
  unfold lru_Erase. destruct (ht_Remove _ _ _ _) as [[t o]|]; [|done]. cbn [mbind option_bind fst snd]. destruct (FinishErase _ _) as [[c1 b]|] eqn:E; [|done].
  cbn. intros [= <-]. apply FinishErase_old in E. etransitivity; [|exact E]. by apply same_nodes_old.
Qed.

Lemma evict_old fuel : forall c c', evict_loop fuel c = Some c' -> only_old c c'.
Proof.
  induction fuel as [|fuel IH]; intros c c'; cbn [evict_loop]; (destruct (next (lc_links c) !! lru_) as [old|]; [|done]); cbn [mbind option_bind]; (destruct (_ && _); [|by intros [= <-]]); [done|].
  destruct (erase_oldest c old) as [c1|] eqn:E1; [|done]. cbn [mbind option_bind]. intros E2. etransitivity; [|by apply IH].
  unfold erase_oldest in E1. destruct (lc_nodes c !! old); [|done]. by apply lru_Erase_old in E1.
Qed.

(** What a lookup finds has the key. *)
Lemma find_loop_sound kh fuel t key hash : forall ptr slot a, find_loop kh fuel t key hash ptr = Some slot -> read_slot t slot = Some (Some a) -> kh a = Some (key, hash).
Proof.
  induction fuel as [|fuel IH]; intros ptr slot a; cbn [find_loop]; (destruct (read_slot t ptr) as [[b|]|] eqn:Ep; [| |done]); cbn [mbind option_bind];
    try (intros [= <-]; by rewrite Ep); (destruct (kh b) as [[k h]|] eqn:Ek; [|done]); cbn [mbind option_bind fst snd];
    (destruct (negb (h =? hash) || negb (bool_decide (key = k))) eqn:Em; [try done; intros E1; by apply (IH _ _ _ E1)|]);
    intros [= <-]; rewrite Ep; intros [= <-]; rewrite Ek;
    apply orb_false_elim in Em as [H1%negb_false_iff%Z.eqb_eq H2%negb_false_iff%bool_decide_eq_true]; by subst.
Qed.

Lemma lru_Lookup_sound c key hash c' o : lru_Lookup c key hash = Some (c', o) -> only_old c c' /\
  match o with Some a => exists h, lc_nodes c !! a = Some h /\ h_key h = key | None => True end.
Proof.
  unfold lru_Lookup, ht_Lookup. destruct (FindPointer _ _ _ _) as [slot|] eqn:Ef; [|done]. cbn [mbind option_bind].
  destruct (read_slot _ slot) as [[a|]|] eqn:Er; [| |done]; cbn [mbind option_bind]; [|by intros [= <- <-]].
  destruct (lru_Ref c a) as [c1|] eqn:E1; [|done]. cbn. intros [= <- <-]. split; [by apply Ref_old in E1|].
  pose proof (find_loop_sound _ _ _ _ _ _ _ _ Ef Er) as Hk. unfold key_hash in Hk. destruct (lc_nodes c !! a) as [h|]; [|done]. injection Hk as <- _. by exists h.
Qed.

(** An insertion adds one entry. *)
Lemma lru_Insert_sound c key hash value charge c' e : lru_Insert c key hash value charge = Some (c', e) ->
  forall a h', lc_nodes c' !! a = Some h' -> (h_key h' = key /\ h_value h' = value) \/ exists h, lc_nodes c !! a = Some h /\ h_key h' = h_key h /\ h_value h' = h_value h.
Proof.
  assert (Hnew : forall b n h1, h_key h1 = key -> h_value h1 = value -> n = <[b := h1]> (lc_nodes c) -> forall c1, lc_nodes c1 = n -> forall c2, only_old c1 c2 ->
    forall a h', lc_nodes c2 !! a = Some h' -> (h_key h' = key /\ h_value h' = value) \/ exists h, lc_nodes c !! a = Some h /\ h_key h' = h_key h /\ h_value h' = h_value h).
  { intros b n h1 Hk Hv -> c1 E1 c2 Ho a h' Hh. destruct (Ho a h' Hh) as (h & Eh & K & Vv). rewrite E1 in Eh. destruct (decide (a = b)) as [->|Hne].
    - rewrite lookup_insert_eq in Eh. injection Eh as <-. left. by rewrite K, Vv.
    - rewrite lookup_insert_ne in Eh by done. right. by exists h. }
  unfold lru_Insert. cbn [new_node]. destruct (_ >? 0).
  - unfold LRU_Append. destruct (link_before _ _ _) as [l|]; [|done]. cbn [mbind option_bind]. destruct (ht_Insert _ _ _) as [[t o]|]; [|done]. cbn [mbind option_bind fst snd].
    destruct (FinishErase _ _) as [[c2 b]|] eqn:E2; [|done]. cbn [mbind option_bind fst snd]. destruct (evict_loop _ c2) as [c3|] eqn:E3; [|done]. cbn. intros [= <- <-].
    apply FinishErase_old in E2. apply evict_old in E3. match type of E2 with only_old ?x _ => set (c1 := x) in E2 end.
    apply (Hnew (lc_next_address c) (lc_nodes c1) (Cache.MkHandle key value charge hash 2 true)) with c1; try done; [|by transitivity c2].
    unfold c1. cbn. by rewrite insert_insert_eq.
  - cbn [mbind option_bind]. destruct (evict_loop _ _) as [c3|] eqn:E3; [|done]. cbn. intros [= <- <-]. apply evict_old in E3.
    match type of E3 with only_old ?x _ => set (c1 := x) in E3 end.
    by apply (Hnew (lc_next_address c) (lc_nodes c1) (Cache.MkHandle key value charge hash 1 false)) with c1.
Qed.
End old.

(** ** The laws *)

(** Some entry of some shard has the key and the block. *)
Definition holds_block (c : ShardedLRUCache Block) (key : bytes) (b : Block) : Prop :=
  exists s a h, s ∈ shard_ c /\ lc_nodes s !! a = Some h /\ h_key h = key /\ h_value h = b.

Definition sharded_old (c c' : ShardedLRUCache Block) : Prop := forall key b, holds_block c' key b -> holds_block c key b.

Lemma shard_insert_old c i s s' : shard_ c !! i = Some s -> only_old s s' -> sharded_old c (MkSharded (<[i := s']> (shard_ c)) (last_id_ c)).
Proof.
  intros Hi Ho key b (x & a & h & Hx & Ha & Hk & Hv). cbn in Hx. apply list_elem_of_lookup in Hx as [j Hj]. apply list_lookup_insert_Some in Hj as [(<- & <- & _)|[_ Hj]].
  - destruct (Ho a h Ha) as (h0 & E0 & K0 & V0). exists s, a, h0. split; [by apply (list_elem_of_lookup_2 _ i)|]. split; [done|]. by rewrite <- K0, <- V0.
  - exists x, a, h. split; [by apply (list_elem_of_lookup_2 _ j)|done].
Qed.

Lemma released_old c handle : sharded_old c (released c handle).
Proof.
  unfold released, Sharded_Release. destruct (Sharded_node c handle) as [h|]; [|by intros ?]. cbn [mbind option_bind]. unfold with_shard.
  destruct (shard_ c !! _) as [s|] eqn:Es; [|by intros ?]. cbn [mbind option_bind]. unfold lru_Release. destruct (lru_Unref s handle.2) as [s'|] eqn:Eu; [|by intros ?]. cbn.
  apply Unref_old in Eu. by apply shard_insert_old with s.
Qed.

(** Which shard it is does not matter. *)
Ltac forget_hash k := cbv zeta; generalize (HashSlice k) as hs; intros hs; generalize (Shard hs) as i; intros i.

#[export, refine] Instance LruBlockCacheLaws : BlockCacheLaws (ShardedLRUCache Block) := {| cache_holds := holds_block |}.
Proof.
  - intros c k c' b. cbn. unfold Sharded_Lookup, with_shard. forget_hash k. destruct (shard_ c !! _) as [s|] eqn:Es; [|done]. cbn [mbind option_bind].
    destruct (lru_Lookup s k _) as [[s' [a|]]|] eqn:El; cbn; [|done|done]. intros [= _ Hv]. apply lru_Lookup_sound in El as [Ho (h & Eh & Hk)].
    unfold Sharded_Value, Sharded_node in Hv. cbn in Hv. rewrite list_lookup_insert_eq in Hv by (by apply lookup_lt_Some in Es). cbn in Hv.
    destruct (lc_nodes s' !! a) as [h'|] eqn:E'; [|done]. cbn in Hv. injection Hv as Hv. destruct (Ho a h' E') as (h0 & E0 & K0 & V0). rewrite Eh in E0. injection E0 as <-.
    exists s, a, h. split; [by apply (list_elem_of_lookup_2 _ _ _ Es)|]. split; [done|]. split; [done|]. by rewrite <- V0.
  - intros c k c' o k' b. cbn. unfold Sharded_Lookup, with_shard. forget_hash k. destruct (shard_ c !! _) as [s|] eqn:Es; [|by intros [= <- _]]. cbn [mbind option_bind].
    destruct (lru_Lookup s k _) as [[s' o']|] eqn:El; cbn; [|by intros [= <- _]]. apply lru_Lookup_sound in El as [Ho _]. pose proof (shard_insert_old c _ s s' Es Ho) as Hold.
    destruct o' as [a|]; intros [= <- _] Hh; apply Hold; [by apply released_old in Hh|done].
  - intros c k b charge k' b'. cbn. unfold Sharded_Insert, with_shard. forget_hash k. destruct (shard_ c !! _) as [s|] eqn:Es; [|by right]. cbn [mbind option_bind].
    destruct (lru_Insert s k _ b charge) as [[s' e]|] eqn:Ei; cbn; [|by right]. intros Hh. apply released_old in Hh as (x & a & h & Hx & Ha & Hk & Hv). cbn in Hx.
    apply list_elem_of_lookup in Hx as [j Hj]. apply list_lookup_insert_Some in Hj as [(<- & <- & _)|[_ Hj]].
    + destruct (lru_Insert_sound _ _ _ _ _ _ _ Ei a h Ha) as [[K V']|(h0 & E0 & K0 & V0)]; [left; by rewrite <- Hk, <- Hv|right].
      exists s, a, h0. split; [by apply (list_elem_of_lookup_2 _ _ _ Es)|]. split; [done|]. by rewrite <- K0, <- V0.
    + right. exists x, a, h. split; [by apply (list_elem_of_lookup_2 _ j)|done].
  - by intros c k b.
Defined.

Lemma new_cache_empty capacity c key b : NewShardedLRUCache capacity = Some c -> ~ cache_holds c key b.
Proof.
  unfold NewShardedLRUCache. destruct NewLRU as [s|] eqn:E; [|done]. cbn [mbind option_bind]. intros Hc (x & a & h & Hx & Ha & _).
  match type of Hc with Some ?x = _ => assert (Hc' : c = x) by congruence end. subst c. cbn [shard_] in Hx.
  assert (Hs : lc_nodes s = ∅) by (unfold NewLRU in E; destruct (NewHandleTable _); [|done]; cbn in E; by injection E as <-).
  apply elem_of_replicate in Hx as [-> _]. cbn in Ha. by rewrite Hs, lookup_empty in Ha.
Qed.

(** A new cache gives tables ids under which it holds nothing. *)
Lemma new_cache_fresh capacity c : NewShardedLRUCache capacity = Some c -> fresh_id (Some c).
Proof. intros Hc off b Hb%cache_NewId_keeps. by eapply (new_cache_empty capacity c). Qed.
