(* ===== verification/DbIter.v ===== *)
(** * The database iterator

    Models [cpp/leveldb/db/db_iter.cc]: the iterator a client of the database gets.
    It runs over the internal entries, one per write, of any iterator that keeps the
    promise of [Cursor], and shows each user key once, with the value it had at the
    iterator's sequence number. *)
From S2P Require Import Prelude Comparator Status DbFormat Random Cursor Block.

(** [DBImpl::RecordReadSample], the only thing the iterator asks of its database. *)
Class ReadSampler (D : Type) := RecordReadSample : D -> bytes -> D.

Module DBIter.

Inductive Direction := kForward | kReverse.

#[export] Instance Direction_eq_dec : EqDecision Direction.
Proof. solve_decision. Defined.

Record DBIter (D I : Type) := MkDBIter {
  db_ : D;
  iter_ : I;
  sequence_ : Z;
  status_ : Status;
  saved_key_ : bytes;
  saved_value_ : bytes;
  direction_ : Direction;
  valid_ : bool;
  rnd_ : Z;
  bytes_until_read_sampling_ : Z
}.
Arguments MkDBIter {D I} _ _ _ _ _ _ _ _ _ _.
Arguments db_ {D I} _.
Arguments iter_ {D I} _.
Arguments sequence_ {D I} _.
Arguments status_ {D I} _.
Arguments saved_key_ {D I} _.
Arguments saved_value_ {D I} _.
Arguments direction_ {D I} _.
Arguments valid_ {D I} _.
Arguments rnd_ {D I} _.
Arguments bytes_until_read_sampling_ {D I} _.

Section code.
Context `{C : Comparator} {D : Type} `{ReadSampler D} {I : Type} `{Iterator I}.

(** Assignments to one member. *)
Definition set_iter (it : I) (s : DBIter D I) : DBIter D I :=
  MkDBIter (db_ s) it (sequence_ s) (status_ s) (saved_key_ s) (saved_value_ s) (direction_ s)
    (valid_ s) (rnd_ s) (bytes_until_read_sampling_ s).
Definition set_status (st : Status) (s : DBIter D I) : DBIter D I :=
  MkDBIter (db_ s) (iter_ s) (sequence_ s) st (saved_key_ s) (saved_value_ s) (direction_ s)
    (valid_ s) (rnd_ s) (bytes_until_read_sampling_ s).
Definition set_saved_key (k : bytes) (s : DBIter D I) : DBIter D I :=
  MkDBIter (db_ s) (iter_ s) (sequence_ s) (status_ s) k (saved_value_ s) (direction_ s)
    (valid_ s) (rnd_ s) (bytes_until_read_sampling_ s).
Definition set_saved_value (v : bytes) (s : DBIter D I) : DBIter D I :=
  MkDBIter (db_ s) (iter_ s) (sequence_ s) (status_ s) (saved_key_ s) v (direction_ s)
    (valid_ s) (rnd_ s) (bytes_until_read_sampling_ s).
Definition set_direction (d : Direction) (s : DBIter D I) : DBIter D I :=
  MkDBIter (db_ s) (iter_ s) (sequence_ s) (status_ s) (saved_key_ s) (saved_value_ s) d
    (valid_ s) (rnd_ s) (bytes_until_read_sampling_ s).
Definition set_valid (b : bool) (s : DBIter D I) : DBIter D I :=
  MkDBIter (db_ s) (iter_ s) (sequence_ s) (status_ s) (saved_key_ s) (saved_value_ s) (direction_ s)
    b (rnd_ s) (bytes_until_read_sampling_ s).
Definition set_sampling (db : D) (rnd until : Z) (s : DBIter D I) : DBIter D I :=
  MkDBIter db (iter_ s) (sequence_ s) (status_ s) (saved_key_ s) (saved_value_ s) (direction_ s)
    (valid_ s) rnd until.

(** [ClearSavedValue]: the string is empty after it, whatever its capacity was. *)
Definition ClearSavedValue (s : DBIter D I) : DBIter D I := set_saved_value [] s.

(** The generator's new seed and the period. *)
Definition RandomCompactionPeriod (rnd : Z) : Z * Z := Uniform rnd (2 * kReadBytesPeriod).

Definition NewDBIterator (db : D) (internal_iter : I) (sequence seed : Z) : DBIter D I :=
  let '(rnd, period) := RandomCompactionPeriod (NewRandom seed) in
  MkDBIter db internal_iter sequence Status_OK [] [] kForward false rnd period.

(** The [while] loop of [ParseKey]. *)
Fixpoint sample_loop (fuel : nat) (k : bytes) (bytes_read : Z) (s : DBIter D I) : res (DBIter D I) :=
  if bytes_until_read_sampling_ s <? bytes_read then
    match fuel with
    | O => OutOfFuel
    | S fuel =>
        let '(rnd, period) := RandomCompactionPeriod (rnd_ s) in
        let s := set_sampling (RecordReadSample (db_ s) k) rnd
                   (u64 (bytes_until_read_sampling_ s + period)) s in
        sample_loop fuel k bytes_read s
    end
  else Ok s.

(** Of two periods drawn in a row one is not zero. *)
Definition sample_fuel (bytes_read : Z) : nat := Z.to_nat (2 * bytes_read).

(** [None] is [false]. *)
Definition ParseKey (s : DBIter D I) : res (DBIter D I * option ParsedInternalKey) :=
  let k := it_key (iter_ s) in
  let? value := it_value (iter_ s) in
  let bytes_read := size k + size value in
  let? s := sample_loop (sample_fuel bytes_read) k bytes_read s in
  let s := set_sampling (db_ s) (rnd_ s) (bytes_until_read_sampling_ s - bytes_read) s in
  match ParseInternalKey k with
  | None => Ok (set_status (Status_Corruption (str "corrupted internal key in DBIter") []) s, None)
  | Some ikey => Ok (s, Some ikey)
  end.

(** The end of the body of the loop of [FindNextUserEntry]: the internal iterator moves
    on, and the loop is left when it is exhausted. *)
Definition next_or_end (loop : DBIter D I -> res (DBIter D I)) (s : DBIter D I) : res (DBIter D I) :=
  let? it := it_Next (iter_ s) in
  let s := set_iter it s in
  if it_Valid it then loop s else Ok (set_valid false (set_saved_key [] s)).

(** [FindNextUserEntry]; [skip] is [saved_key_] in every call. *)
Fixpoint FindNextUserEntry (fuel : nat) (skipping : bool) (s : DBIter D I) : res (DBIter D I) :=
  match fuel with
  | O => OutOfFuel
  | S fuel =>
      let? r := ParseKey s in
      let '(s, parsed) := r in
      let again skipping := next_or_end (FindNextUserEntry fuel skipping) in
      match parsed with
      | None => again skipping s
      | Some ikey =>
          if sequence ikey <=? sequence_ s then
            if type ikey =? kTypeDeletion then again true (set_saved_key (user_key ikey) s)
            else if type ikey =? kTypeValue then
              if skipping && (cmp_Compare (user_key ikey) (saved_key_ s) <=? 0) then again skipping s
              else Ok (set_saved_key [] (set_valid true s))
            else again skipping s
          else again skipping s
      end
  end.

(** The end of the body of the loop of [FindPrevUserEntry]. *)
Definition prev_or_end (loop : Z -> DBIter D I -> res (DBIter D I * Z)) (value_type : Z) (s : DBIter D I)
    : res (DBIter D I * Z) :=
  let? it := it_Prev (iter_ s) in
  let s := set_iter it s in
  if it_Valid it then loop value_type s else Ok (s, value_type).

(** The loop of [FindPrevUserEntry], which is entered at a valid position; it
    returns the last value type. *)
Fixpoint FindPrev_loop (fuel : nat) (value_type : Z) (s : DBIter D I) : res (DBIter D I * Z) :=
  match fuel with
  | O => OutOfFuel
  | S fuel =>
      let? r := ParseKey s in
      let '(s, parsed) := r in
      let again := prev_or_end (FindPrev_loop fuel) in
      match parsed with
      | None => again value_type s
      | Some ikey =>
          if sequence ikey <=? sequence_ s then
            if negb (value_type =? kTypeDeletion) && (cmp_Compare (user_key ikey) (saved_key_ s) <? 0)
            then Ok (s, value_type)
            else
              let value_type := type ikey in
              if value_type =? kTypeDeletion then again value_type (ClearSavedValue (set_saved_key [] s))
              else
                let? raw_value := it_value (iter_ s) in
                again value_type
                  (set_saved_value raw_value (set_saved_key (ExtractUserKey (it_key (iter_ s))) s))
          else again value_type s
      end
  end.

Definition FindPrevUserEntry (fuel : nat) (s : DBIter D I) : res (DBIter D I) :=
  let? r :=
    if it_Valid (iter_ s) then FindPrev_loop fuel kTypeDeletion s else Ok (s, kTypeDeletion) in
  let '(s, value_type) := r in
  if value_type =? kTypeDeletion then
    Ok (set_direction kForward (ClearSavedValue (set_saved_key [] (set_valid false s))))
  else Ok (set_valid true s).

Definition Next (fuel : nat) (s : DBIter D I) : res (DBIter D I) :=
  if negb (valid_ s) then Undefined
  else
    match direction_ s with
    | kReverse =>
        let s := set_direction kForward s in
        let? it :=
          if negb (it_Valid (iter_ s)) then it_SeekToFirst (iter_ s) else it_Next (iter_ s) in
        let s := set_iter it s in
        if negb (it_Valid it) then Ok (set_saved_key [] (set_valid false s))
        else FindNextUserEntry fuel true s
    | kForward =>
        let s := set_saved_key (ExtractUserKey (it_key (iter_ s))) s in
        let? it := it_Next (iter_ s) in
        let s := set_iter it s in
        if negb (it_Valid it) then Ok (set_saved_key [] (set_valid false s))
        else FindNextUserEntry fuel true s
    end.

(** The [while] loop of [Prev]; [false] when the iterator ran out. *)
Fixpoint Prev_loop (fuel : nat) (s : DBIter D I) : res (DBIter D I * bool) :=
  match fuel with
  | O => OutOfFuel
  | S fuel =>
      let? it := it_Prev (iter_ s) in
      let s := set_iter it s in
      if negb (it_Valid it) then
        Ok (ClearSavedValue (set_saved_key [] (set_valid false s)), false)
      else if cmp_Compare (ExtractUserKey (it_key it)) (saved_key_ s) <? 0 then Ok (s, true)
      else Prev_loop fuel s
  end.

Definition Prev (fuel : nat) (s : DBIter D I) : res (DBIter D I) :=
  if negb (valid_ s) then Undefined
  else
    match direction_ s with
    | kForward =>
        let s := set_saved_key (ExtractUserKey (it_key (iter_ s))) s in
        let? r := Prev_loop fuel s in
        let '(s, found) := r in
        if found then FindPrevUserEntry fuel (set_direction kReverse s) else Ok s
    | kReverse => FindPrevUserEntry fuel s
    end.

Definition Seek (fuel : nat) (s : DBIter D I) (target : bytes) : res (DBIter D I) :=
  let s := ClearSavedValue (set_direction kForward s) in
  let s := set_saved_key (AppendInternalKey [] (MkParsed target (sequence_ s) kValueTypeForSeek)) s in
  let? it := it_Seek (iter_ s) (saved_key_ s) in
  let s := set_iter it s in
  if it_Valid it then FindNextUserEntry fuel false s else Ok (set_valid false s).

Definition SeekToFirst (fuel : nat) (s : DBIter D I) : res (DBIter D I) :=
  let s := ClearSavedValue (set_direction kForward s) in
  let? it := it_SeekToFirst (iter_ s) in
  let s := set_iter it s in
  if it_Valid it then FindNextUserEntry fuel false s else Ok (set_valid false s).

Definition SeekToLast (fuel : nat) (s : DBIter D I) : res (DBIter D I) :=
  let s := ClearSavedValue (set_direction kReverse s) in
  let? it := it_SeekToLast (iter_ s) in
  FindPrevUserEntry fuel (set_iter it s).

(** [key], [value] and [status]. *)
Definition key (s : DBIter D I) : bytes :=
  match direction_ s with kForward => ExtractUserKey (it_key (iter_ s)) | kReverse => saved_key_ s end.

Definition value (s : DBIter D I) : res bytes :=
  match direction_ s with kForward => it_value (iter_ s) | kReverse => Ok (saved_value_ s) end.

Definition status (s : DBIter D I) : Status :=
  if Status_ok (status_ s) then it_status (iter_ s) else status_ s.
End code.

(** The implementation of the iterator interface; [fuel] bounds the steps of the
    internal iterator in one call. *)
#[export] Instance DBIter_Iterator `{Comparator} {D} `{ReadSampler D} {I} `{Iterator I} (fuel : nat)
    : Iterator (DBIter D I) := {|
  it_Valid := valid_;
  it_SeekToFirst := SeekToFirst fuel;
  it_SeekToLast := SeekToLast fuel;
  it_Seek := Seek fuel;
  it_Next := Next fuel;
  it_Prev := Prev fuel;
  it_key := key;
  it_value := value;
  it_status := status
|}.

(** ** What it shows *)

(** The positions below [n] that satisfy [f], and how many lie below a position. *)
Definition positions (f : nat -> bool) (n : nat) : list nat := List.filter f (List.seq 0 n).
Definition rank (f : nat -> bool) (b : nat) : nat := length (positions f b).

Section positions.
Context (f : nat -> bool).

Lemma positions_S n : positions f (S n) = positions f n ++ if f n then [n] else [].
Proof. unfold positions. rewrite seq_S, List.filter_app. cbn. by destruct (f n). Qed.

Lemma rank_S n : rank f (S n) = (rank f n + if f n then 1 else 0)%nat.
Proof. unfold rank. rewrite positions_S, length_app. by destruct (f n). Qed.

Lemma rank_mono a b : (a <= b)%nat -> (rank f a <= rank f b)%nat.
Proof. induction 1 as [|b _ IH]; [done|]. rewrite rank_S. lia. Qed.

Lemma rank_same a b :
  (a <= b)%nat -> (forall m, (a <= m < b)%nat -> f m = false) -> rank f b = rank f a.
Proof.
  induction 1 as [|b Hab IH]; intros Hf; [done|]. rewrite rank_S, (Hf b) by lia.
  rewrite IH by (intros; apply Hf; lia). lia.
Qed.

Lemma positions_rank j n : f j = true -> (j < n)%nat -> positions f n !! rank f j = Some j.
Proof.
  intros Hj Hn. induction n as [|n IH]; [lia|]. rewrite positions_S. destruct (Nat.eq_dec j n) as [->|Hne].
  - rewrite Hj. apply list_lookup_middle. done.
  - rewrite lookup_app_l; [by apply IH; lia|]. change (rank f j < rank f n)%nat.
    pose proof (rank_mono (S j) n ltac:(lia)) as Hm. rewrite rank_S, Hj in Hm. lia.
Qed.

Lemma positions_lookup n i j :
  positions f n !! i = Some j -> f j = true /\ (j < n)%nat /\ i = rank f j.
Proof.
  induction n as [|n IH]; [done|]. rewrite positions_S. intros Hi. apply lookup_app_Some in Hi as [Hi|[Hl Hi]].
  { apply IH in Hi as (H1 & H2 & H3). auto. }
  destruct (f n) eqn:En; [|done]. apply list_lookup_singleton_Some in Hi as [Hi <-].
  split; [done|]. split; [lia|]. change (length (positions f n)) with (rank f n) in *. lia.
Qed.

(** The first position from [b] on, as an index in [positions]. *)
Definition first_from (n b : nat) : cursor :=
  if (rank f b <? rank f n)%nat then Some (rank f b) else None.

Lemma first_from_at n j : f j = true -> (j < n)%nat -> first_from n j = Some (rank f j).
Proof.
  intros Hj Hn. unfold first_from. pose proof (rank_mono (S j) n ltac:(lia)) as Hm.
  rewrite rank_S, Hj in Hm. by destruct (Nat.ltb_spec (rank f j) (rank f n)); [|lia].
Qed.

Lemma first_from_skip n a b :
  (a <= b)%nat -> (forall m, (a <= m < b)%nat -> f m = false) -> first_from n b = first_from n a.
Proof. intros Hab Hf. unfold first_from. by rewrite (rank_same a b). Qed.

Lemma first_from_end n b : (n <= b)%nat -> first_from n b = None.
Proof.
  intros Hb. unfold first_from. pose proof (rank_mono n b Hb).
  by destruct (Nat.ltb_spec (rank f b) (rank f n)); [lia|].
Qed.
End positions.

Section view.
Context `{C : Comparator}.

(** Entries a snapshot can see. *)
Definition visible (snap : Z) (p : ParsedInternalKey * bytes) : bool := sequence p.1 <=? snap.

Definition same_user_key (p q : ParsedInternalKey * bytes) : bool :=
  cmp_Compare (user_key p.1) (user_key q.1) =? 0.

(** The entry at [j] is shown: a visible value, no entry before it being a visible
    one of the same user key. *)
Definition live (snap : Z) (entries : list (ParsedInternalKey * bytes)) (j : nat) : bool :=
  match entries !! j with
  | None => false
  | Some p =>
      visible snap p && (type p.1 =? kTypeValue) &&
      forallb (fun q => negb (visible snap q && same_user_key q p)) (take j entries)
  end.

Definition user_pair (entries : list (ParsedInternalKey * bytes)) (j : nat) : bytes * bytes :=
  match entries !! j with Some (k, v) => (user_key k, v) | None => ([], []) end.

(** The database as the client sees it. *)
Definition user_view (snap : Z) (entries : list (ParsedInternalKey * bytes)) : list (bytes * bytes) :=
  map (user_pair entries) (positions (live snap entries) (length entries)).

(** The internal iterator's list. *)
Definition pack (p : ParsedInternalKey * bytes) : bytes * bytes := (AppendInternalKey [] p.1, p.2).

Definition entry_fits (p : ParsedInternalKey * bytes) : Prop :=
  parsed_ok p.1 /\ size (pack p).1 + size p.2 < 2 ^ 63.
End view.

(** ** Sampling ends *)

(** Two periods drawn in a row are not both zero: no state of the generator that is a
    multiple of the bound is followed by another. *)
Lemma no_two_zeros :
  forallb (fun k => negb (((Z.of_nat k * 2 ^ 21 * kA) mod kM) mod 2 ^ 21 =? 0)) (List.seq 1 1023) = true.
Proof. vm_compute. reflexivity. Qed.

Lemma period_not_zero seed :
  seed_ok seed -> seed mod (2 * kReadBytesPeriod) = 0 -> 0 < Random_Next seed mod (2 * kReadBytesPeriod).
Proof.
  intros Hs Hz. change (2 * kReadBytesPeriod) with (2 ^ 21) in *. rewrite Random_Next_mod by done.
  pose proof (Z.mod_pos_bound ((seed * kA) mod kM) (2 ^ 21) ltac:(lia)).
  destruct (Z.eq_dec (((seed * kA) mod kM) mod 2 ^ 21) 0) as [E|]; [|lia].
  unfold seed_ok in Hs. assert (Hd : seed = seed / 2 ^ 21 * 2 ^ 21) by zdiv.
  assert (Hk : 1 <= seed / 2 ^ 21 < 1024) by (unfold kM in Hs; zdiv).
  pose proof no_two_zeros as Hall. rewrite forallb_forall in Hall.
  specialize (Hall (Z.to_nat (seed / 2 ^ 21))). rewrite Z2Nat.id in Hall by lia. rewrite <- Hd, E in Hall.
  discriminate Hall. apply in_seq. lia.
Qed.

Section sampling.
Context {D : Type} `{ReadSampler D} {I : Type}.
Implicit Type s : DBIter D I.

Definition sampling_ok s : Prop := seed_ok (rnd_ s) /\ 0 <= bytes_until_read_sampling_ s < 2 ^ 63 + 2 ^ 21.

(** Equal but for the sampling. *)
Definition same_core s s' : Prop :=
  exists db rnd until, s' = set_sampling db rnd until s /\ sampling_ok s'.

(** Draws left at most. *)
Definition draws (bytes_read : Z) s : Z :=
  2 * (bytes_read - bytes_until_read_sampling_ s)
    - (if rnd_ s mod (2 * kReadBytesPeriod) =? 0 then 1 else 0).

Lemma sample_loop_ok k bytes_read fuel s :
  sampling_ok s -> bytes_read < 2 ^ 63 ->
  (Z.to_nat (2 * (bytes_read - bytes_until_read_sampling_ s)) <= fuel)%nat ->
  exists s', sample_loop fuel k bytes_read s = Ok s' /\ same_core s s' /\
    bytes_read <= bytes_until_read_sampling_ s'.
Proof.
  intros Hs Hb. assert (Hgen : forall fuel s, sampling_ok s ->
    (Z.to_nat (draws bytes_read s) <= fuel)%nat ->
    exists s', sample_loop fuel k bytes_read s = Ok s' /\ same_core s s' /\
      bytes_read <= bytes_until_read_sampling_ s').
  { clear fuel s Hs. intros fuel. induction fuel as [|fuel IH]; intros s [Hr Hu] Hf; cbn [sample_loop];
      destruct (Z.ltb_spec (bytes_until_read_sampling_ s) bytes_read) as [Hlt|Hge];
      try (exists s; split; [done|]; split; [|done]; exists (db_ s), (rnd_ s), (bytes_until_read_sampling_ s);
           split; [by destruct s|done]).
    { unfold draws in Hf. destruct (_ =? 0); lia. }
    unfold RandomCompactionPeriod, Uniform. pose proof (period_not_zero (rnd_ s) Hr) as Hp.
    pose proof (Random_Next_ok _ Hr) as Hr'.
    pose proof (Z.mod_pos_bound (Random_Next (rnd_ s)) (2 * kReadBytesPeriod) ltac:(done)) as Hm.
    set (period := Random_Next (rnd_ s) mod (2 * kReadBytesPeriod)) in *.
    change (2 * kReadBytesPeriod) with (2 ^ 21) in *.
    rewrite wrap_id by (unfold fits; lia).
    destruct (IH (set_sampling (RecordReadSample (db_ s) k) (Random_Next (rnd_ s))
      (bytes_until_read_sampling_ s + period) s)) as (s' & E & (db & rnd & u & -> & Hok) & Hge).
    - split; [exact Hr'|cbn; lia].
    - unfold draws in *. cbn [bytes_until_read_sampling_ rnd_ set_sampling]. change (2 * kReadBytesPeriod) with (2 ^ 21) in *.
      fold period.
      destruct (Z.eqb_spec (rnd_ s mod 2 ^ 21) 0) as [Hz|Hz].
      + specialize (Hp Hz). destruct (period =? 0); lia.
      + destruct (Z.eqb_spec period 0); lia.
    - exists (set_sampling db rnd u s). split; [exact E|]. split; [|exact Hge]. by exists db, rnd, u. }
  intros Hf. apply Hgen; [done|]. unfold draws. destruct (_ =? 0); lia.
Qed.
End sampling.

(** ** The internal iterator *)

Section proofs.
Context `{C : Comparator} `{!ComparatorLaws C} {D : Type} `{RS : ReadSampler D} {I : Type} `{It : Iterator I}.
Context (snap : Z) (entries : list (ParsedInternalKey * bytes)).
Context (Hsnap : seq_ok snap) (Hfit : Forall entry_fits entries)
  (Hasc : @ascending (InternalKeyComparator C) (map pack entries)).
Implicit Types (s : DBIter D I) (p q : ParsedInternalKey * bytes).

Abbreviation n := (length entries).
Abbreviation at_ it c := (@iterates_at (InternalKeyComparator C) I _ it (map pack entries) c).
Abbreviation ukey p := (user_key p.1).
Abbreviation live_ := (live snap entries).

Lemma entry_ok j p : entries !! j = Some p -> entry_fits p.
Proof. intros Hj. by apply (Forall_lookup_1 _ _ j p Hfit). Qed.

Lemma entry_order j0 j p0 p :
  (j0 < j)%nat -> entries !! j0 = Some p0 -> entries !! j = Some p ->
  cmp_Compare (ukey p0) (ukey p) < 0 \/
  (cmp_Compare (ukey p0) (ukey p) = 0 /\
    (sequence p.1 < sequence p0.1 \/ (sequence p.1 = sequence p0.1 /\ type p.1 < type p0.1))).
Proof.
  intros Hj H0 H1. destruct (entry_ok _ _ H0) as [[Hs0 Ht0] _]. destruct (entry_ok _ _ H1) as [[Hs1 Ht1] _].
  apply (Internal_Compare_InternalKey _ _ _ _ _ _ Hs0 Hs1 Ht0 Ht1).
  assert (Hl : forall k x, entries !! k = Some x -> map pack entries !! k = Some (pack x)).
  { intros k x Hk. by rewrite list_lookup_fmap, Hk. }
  pose proof (Hasc j0 j _ _ Hj (Hl _ _ H0) (Hl _ _ H1)) as Hlt. destruct p0 as [[] ?], p as [[] ?]. exact Hlt.
Qed.

Lemma entry_le j0 j p0 p :
  (j0 <= j)%nat -> entries !! j0 = Some p0 -> entries !! j = Some p -> cmp_Compare (ukey p0) (ukey p) <= 0.
Proof.
  intros Hj H0 H1. destruct (Nat.eq_dec j0 j) as [->|].
  - rewrite H0 in H1. injection H1 as ->. rewrite cmp_refl. lia.
  - destruct (entry_order j0 j p0 p ltac:(lia) H0 H1) as [|[]]; lia.
Qed.

Lemma live_spec j :
  live_ j = true <-> exists p, entries !! j = Some p /\ visible snap p = true /\ type p.1 = kTypeValue /\
    forall j0 p0, (j0 < j)%nat -> entries !! j0 = Some p0 -> visible snap p0 = true ->
      cmp_Compare (ukey p0) (ukey p) <> 0.
Proof.
  unfold live. destruct (entries !! j) as [p|] eqn:E; [|split; [done|by intros (p & ? & _)]].
  rewrite !andb_true_iff, forallb_forall, Z.eqb_eq. split.
  - intros [[Hv Ht] Hall]. exists p. split_and!; try done. intros j0 p0 Hj H0 Hv0 Heq.
    assert (Hin : In p0 (take j entries)).
    { apply list_elem_of_In, (list_elem_of_lookup_2 _ j0). by rewrite lookup_take_lt. }
    specialize (Hall p0 Hin). unfold same_user_key in Hall. by rewrite Hv0, Heq in Hall.
  - intros (p' & [= <-] & Hv & Ht & Hall). split; [done|]. intros q Hq.
    apply list_elem_of_In, list_elem_of_lookup in Hq as [j0 Hq]. apply lookup_take_Some in Hq as [Hq Hj].
    destruct (visible snap q) eqn:Hvq; [|done]. unfold same_user_key. cbn [andb].
    destruct (Z.eqb_spec (cmp_Compare (ukey q) (ukey p)) 0) as [E0|]; [|done].
    by destruct (Hall j0 q Hj Hq Hvq).
Qed.

(** *** Steps of the internal iterator *)

Lemma at_entry it j : at_ it (Some j) -> exists p, entries !! j = Some p.
Proof.
  intros Hi. apply (iterates_reads _ _ _) in Hi as (_ & Hc & _).
  destruct (proj1 Hc ltac:(by eexists)) as [x Hx]. cbn in Hx. rewrite list_lookup_fmap in Hx.
  destruct (entries !! j); [by eexists|done].
Qed.

Lemma at_read it j p :
  at_ it (Some j) -> entries !! j = Some p ->
  it_Valid it = true /\ it_key it = AppendInternalKey [] p.1 /\ it_value it = Ok p.2.
Proof.
  intros Hi Hj. split; [by rewrite (iterates_valid _ _ _ Hi), bool_decide_eq_true_2 by eauto|].
  apply (iterates_key _ _ _ _ _ Hi). cbn. by rewrite list_lookup_fmap, Hj.
Qed.

Lemma at_none it : at_ it None -> it_Valid it = false.
Proof. intros Hi. rewrite (iterates_valid _ _ _ Hi). apply bool_decide_eq_false_2. by intros []. Qed.

Lemma at_next it j :
  at_ it (Some j) ->
  exists it', it_Next it = Ok it' /\ at_ it' (if (S j <? n)%nat then Some (S j) else None).
Proof.
  intros Hi. destruct (iterates_step it _ _ OpNext (if (S j <? n)%nat then Some (S j) else None) Hi)
    as (it' & E & Hi'); [cbn; by rewrite length_map|]. by exists it'.
Qed.

Lemma at_prev it j :
  at_ it (Some j) ->
  exists it', it_Prev it = Ok it' /\ at_ it' (match j with O => None | S j => Some j end).
Proof.
  intros Hi. destruct (iterates_step it _ _ OpPrev (match j with O => None | S j => Some j end) Hi)
    as (it' & E & Hi'); [done|]. by exists it'.
Qed.

Lemma parse_internal j p : entries !! j = Some p -> ParseInternalKey (AppendInternalKey [] p.1) = Some p.1.
Proof.
  intros Hj. destruct (entry_ok _ _ Hj) as [[Hs Ht] _]. destruct p as [[u sq ty] v].
  by apply (ParseInternalKey_InternalKey u sq ty).
Qed.

Lemma extract_entry p : ExtractUserKey (AppendInternalKey [] p.1) = ukey p.
Proof. destruct p as [[u sq ty] v]. apply (ExtractUserKey_app u). Qed.

Lemma ParseKey_at s j p :
  sampling_ok s -> at_ (iter_ s) (Some j) -> entries !! j = Some p ->
  exists s', ParseKey s = Ok (s', Some p.1) /\ same_core s s'.
Proof.
  intros Hs Hi Hj. destruct (at_read _ _ _ Hi Hj) as (_ & Hk & Hv). unfold ParseKey. rewrite Hk, Hv.
  cbn [res_bind]. destruct (entry_ok _ _ Hj) as [_ Hfits]. cbn [pack fst snd] in Hfits.
  set (b := size _ + size _) in *. destruct (sample_loop_ok (AppendInternalKey [] p.1) b (sample_fuel b) s Hs Hfits)
    as (s' & -> & (db & rnd & u & -> & Hr & Hu) & Hge).
  { unfold sample_fuel. destruct Hs as [_ Hs]. lia. }
  cbn [res_bind]. rewrite (parse_internal j p Hj). eexists. split; [reflexivity|]. eexists _, _, _. split; [reflexivity|].
  split; [exact Hr|]. cbn in Hu, Hge |- *. pose proof (size_nonneg (AppendInternalKey [] p.1)).
  pose proof (size_nonneg p.2). unfold b in *. lia.
Qed.

(** *** The states that stand at a cursor *)

(** A visible entry of the user key of [p] lies below [b]. *)
Definition seen_before (b : nat) p : Prop :=
  exists j0 p0, (j0 < b)%nat /\ entries !! j0 = Some p0 /\ visible snap p0 = true /\
    cmp_Compare (ukey p0) (ukey p) = 0.

(** Where the internal iterator may be while the one before it shows [j] in reverse:
    no visible entry lies between. *)
Definition stop (c : cursor) (j : nat) p : Prop :=
  match c with
  | None => forall m q, (m < j)%nat -> entries !! m = Some q -> visible snap q = false
  | Some i => (i < j)%nat /\
      (forall m q, (i < m < j)%nat -> entries !! m = Some q -> visible snap q = false) /\
      exists q, entries !! i = Some q /\ cmp_Compare (ukey q) (ukey p) < 0
  end.

Definition common s : Prop :=
  sampling_ok s /\ sequence_ s = snap /\ Status_ok (status_ s) = true.

Definition shows s (c : cursor) : Prop :=
  common s /\ (exists ci, at_ (iter_ s) ci) /\ valid_ s = bool_decide (is_Some c) /\
  match c with
  | None => True
  | Some i => exists j p, positions live_ n !! i = Some j /\ entries !! j = Some p /\
      match direction_ s with
      | kForward => at_ (iter_ s) (Some j)
      | kReverse => saved_key_ s = ukey p /\ saved_value_ s = p.2 /\
          exists ci, at_ (iter_ s) ci /\ stop ci j p
      end
  end.

Lemma live_not_seen j p : live_ j = true -> entries !! j = Some p -> ~ seen_before j p.
Proof.
  intros Hl Hj (j0 & p0 & Hj0 & H0 & Hv & Hc). apply live_spec in Hl as (p' & Hp' & _ & _ & Hall).
  rewrite Hj in Hp'. injection Hp' as <-. by destruct (Hall j0 p0 Hj0 H0 Hv).
Qed.

Lemma not_seen_live j p :
  entries !! j = Some p -> visible snap p = true -> type p.1 = kTypeValue -> ~ seen_before j p ->
  live_ j = true.
Proof.
  intros Hj Hv Ht Hn. apply live_spec. exists p. split_and!; try done. intros j0 p0 Hj0 H0 Hv0 Hc.
  apply Hn. by exists j0, p0.
Qed.

Lemma live_visible j p : live_ j = true -> entries !! j = Some p -> visible snap p = true /\ type p.1 = kTypeValue.
Proof. intros Hl Hj. apply live_spec in Hl as (p' & Hp' & Hv & Ht & _). rewrite Hj in Hp'. by injection Hp' as <-. Qed.

(** *** Moving forward *)

(** From [j] on, exactly the entries whose user key was seen below [b] are skipped. *)
Definition skip_inv (b j : nat) (skipping : bool) (skip : bytes) : Prop :=
  forall k p, (j <= k)%nat -> entries !! k = Some p -> visible snap p = true ->
    (seen_before b p <-> skipping = true /\ cmp_Compare (ukey p) skip <= 0).

Lemma skip_inv_S b j skipping skip p :
  skip_inv b j skipping skip -> (j <= b)%nat -> entries !! j = Some p ->
  (visible snap p = false \/ (visible snap p = true /\ skipping = true /\ cmp_Compare (ukey p) skip <= 0)) ->
  skip_inv (Nat.max b (S j)) (S j) skipping skip.
Proof.
  intros Hinv Hb Hj Hp k q Hk Hq Hv. rewrite <- (Hinv k q ltac:(lia) Hq Hv).
  split; intros (j0 & p0 & Hj0 & H0 & Hv0 & Hc); [|exists j0, p0; split_and!; [lia|done..]].
  destruct (decide (j0 < b)%nat); [by exists j0, p0|]. assert (j0 = j) as -> by lia.
  rewrite Hj in H0. injection H0 as ->. destruct Hp as [Hp|(_ & Hs & Hle)]; [congruence|].
  apply (Hinv k q); [lia|done..|]. split; [done|]. apply (cmp_trans _ (ukey p0)); [|done].
  pose proof (cmp_antisym (ukey p0) (ukey q)). lia.
Qed.

(** A deletion hides what is left of its user key. *)
Lemma skip_inv_mark b j p :
  (b <= S j)%nat -> entries !! j = Some p -> visible snap p = true -> skip_inv (S j) (S j) true (ukey p).
Proof.
  intros Hb Hj Hv k q Hk Hq Hvq. pose proof (entry_le j k p q ltac:(lia) Hj Hq) as Hle. split.
  - intros (j0 & p0 & Hj0 & H0 & Hv0 & Hc). split; [done|].
    pose proof (entry_le j0 j p0 p ltac:(lia) H0 Hj) as Hle0.
    pose proof (cmp_antisym (ukey p0) (ukey q)).
    apply (cmp_trans _ (ukey p0)); [lia|done].
  - intros [_ Hle']. exists j, p. split_and!; [lia|done..|]. pose proof (cmp_antisym (ukey p) (ukey q)). lia.
Qed.

Lemma not_live_seen j p :
  entries !! j = Some p -> visible snap p = true -> seen_before j p -> live_ j = false.
Proof.
  intros Hj Hv Hs. destruct (live_ j) eqn:E; [|done]. by destruct (live_not_seen j p E Hj).
Qed.

Lemma invisible_not_live j p : entries !! j = Some p -> visible snap p = false -> live_ j = false.
Proof. intros Hj Hv. destruct (live_ j) eqn:E; [|done]. destruct (live_visible j p E Hj). congruence. Qed.

Lemma first_from_S b j : (j <= b)%nat -> (b = j -> live_ j = false) ->
  first_from live_ n (Nat.max b (S j)) = first_from live_ n b.
Proof.
  intros Hjb Hl. destruct (Nat.eq_dec b j) as [->|]; [|by replace (Nat.max b (S j)) with b by lia].
  apply first_from_skip; [lia|]. intros m Hm. replace m with j by lia. by apply Hl.
Qed.

Lemma FindNextUserEntry_ok fuel : forall skipping s j b,
  common s -> direction_ s = kForward -> at_ (iter_ s) (Some j) -> (n - j <= fuel)%nat -> (j <= b)%nat ->
  (forall m q, (j <= m < b)%nat -> entries !! m = Some q -> visible snap q = true -> type q.1 = kTypeValue) ->
  skip_inv b j skipping (saved_key_ s) ->
  exists s', FindNextUserEntry fuel skipping s = Ok s' /\ shows s' (first_from live_ n b).
Proof.
  induction fuel as [|fuel IH]; intros skipping s j b Hs Hd Hi Hf Hb Hval Hinv;
    destruct (at_entry _ _ Hi) as [p Hj]; pose proof (lookup_lt_Some _ _ _ Hj) as Hlt; [lia|].
  cbn [FindNextUserEntry]. destruct Hs as (Hs & Hseq & Hst).
  destruct (ParseKey_at s j p Hs Hi Hj) as (s' & -> & (db & rnd & u & -> & Hs')). cbn [res_bind].
  cbn [sequence_ set_sampling saved_key_]. rewrite Hseq.
  assert (Hagain : forall skipping s', common s' -> direction_ s' = kForward -> iter_ s' = iter_ s ->
    (b = j -> live_ j = false) -> skip_inv (Nat.max b (S j)) (S j) skipping (saved_key_ s') ->
    exists s'', next_or_end (FindNextUserEntry fuel skipping) s' = Ok s'' /\ shows s'' (first_from live_ n b)).
  { clear Hs'. intros sk s' Hs' Hd' His Hl Hinv'. unfold next_or_end. rewrite His.
    destruct (at_next _ _ Hi) as (it' & -> & Hi'). cbn [res_bind set_iter iter_].
    rewrite <- (first_from_S b j Hb Hl). destruct (Nat.ltb_spec (S j) n).
    - destruct (at_entry _ _ Hi') as [q Hq]. destruct (at_read _ _ _ Hi' Hq) as [-> _].
      apply (IH sk (set_iter it' s') (S j)); [exact Hs'|exact Hd'|exact Hi'|lia|lia| |exact Hinv'].
      intros m x Hm. apply Hval. lia.
    - rewrite (at_none _ Hi'). eexists. split; [done|]. rewrite first_from_end by lia.
      split; [exact Hs'|]. split; [by exists None|done]. }
  assert (Hc : common (set_sampling db rnd u s)) by done.
  destruct (Z.leb_spec (sequence p.1) snap) as [Hvis|Hinvis].
  2: { apply Hagain; try done.
    - intros _. apply (invisible_not_live j p Hj). apply Z.leb_gt. lia.
    - apply (skip_inv_S b j skipping _ p); try done. left. apply Z.leb_gt. lia. }
  assert (Hv : visible snap p = true) by (by apply Z.leb_le).
  destruct (entry_ok _ _ Hj) as [[_ Ht] _].
  destruct (Z.eqb_spec (type p.1) kTypeDeletion) as [Hdel|Hne].
  - apply Hagain; try done.
    + intros _. destruct (live_ j) eqn:E; [|done]. destruct (live_visible j p E Hj) as [_ Ht']. by rewrite Hdel in Ht'.
    + assert (b = j) as ->.
      { destruct (decide (j < b)%nat); [|lia]. specialize (Hval j p ltac:(lia) Hj Hv). by rewrite Hdel in Hval. }
      replace (Nat.max j (S j)) with (S j) by lia. apply (skip_inv_mark j); [lia|done..].
  - assert (Hty : type p.1 = kTypeValue) by (by destruct Ht). rewrite Hty, Z.eqb_refl.
    pose proof (Hinv j p ltac:(lia) Hj Hv) as Hself.
    destruct (skipping && (cmp_Compare (ukey p) (saved_key_ s) <=? 0)) eqn:E.
    + apply andb_prop in E as [-> E]. apply Z.leb_le in E. apply Hagain; try done.
      * intros ->. by apply (not_live_seen j p Hj Hv), Hself.
      * apply (skip_inv_S b j true _ p); try done. right. done.
    + assert (Hns : ~ seen_before b p).
      { intros Hsb. apply Hself in Hsb as [-> Hle]. apply Z.leb_le in Hle. by rewrite Hle in E. }
      assert (b = j) as ->.
      { destruct (decide (j < b)%nat); [|lia]. destruct Hns. exists j, p. split_and!; try done. apply cmp_refl. }
      pose proof (not_seen_live j p Hj Hv Hty Hns) as Hl. eexists. split; [done|].
      rewrite (first_from_at live_ n j Hl Hlt). split; [exact Hc|]. split; [by exists (Some j)|].
      split; [done|]. exists j, p. split; [by apply positions_rank|]. split; [done|]. cbn. by rewrite Hd.
Qed.

(** *** Moving backward *)

(** The lowest visible entry scanned so far, above [j]: nothing visible lies between. *)
Definition scanned (j : nat) (value_type : Z) s : Prop :=
  exists m p, (j <= m)%nat /\ entries !! m = Some p /\ visible snap p = true /\ value_type = type p.1 /\
    (forall k q, (j <= k < m)%nat -> entries !! k = Some q -> visible snap q = false) /\
    (type p.1 = kTypeValue -> saved_key_ s = ukey p /\ saved_value_ s = p.2).

(** What the scan knows at [j] after starting below [b]: no entry shown above the one
    it holds. *)
Definition scan_inv (b j : nat) (value_type : Z) s : Prop :=
  (value_type = kTypeDeletion /\ forall k, (j <= k < b)%nat -> live_ k = false) \/
  (value_type = kTypeValue /\ exists m p, (j <= m < b)%nat /\ entries !! m = Some p /\
     visible snap p = true /\ type p.1 = kTypeValue /\
     (forall k q, (j <= k < m)%nat -> entries !! k = Some q -> visible snap q = false) /\
     (forall k, (m < k < b)%nat -> live_ k = false) /\
     saved_key_ s = ukey p /\ saved_value_ s = p.2).

(** The last entry shown below [b]. *)
Definition last_below (b : nat) : cursor :=
  match rank live_ b with O => None | S i => Some i end.

Lemma last_below_at b m :
  live_ m = true -> (m < b)%nat -> (forall k, (m < k < b)%nat -> live_ k = false) ->
  last_below b = Some (rank live_ m).
Proof.
  intros Hl Hb Hk. unfold last_below. rewrite (rank_same live_ (S m) b) by (lia || (intros; apply Hk; lia)).
  rewrite rank_S, Hl, Nat.add_1_r. done.
Qed.

Lemma last_below_none b : (forall k, (k < b)%nat -> live_ k = false) -> last_below b = None.
Proof. intros Hk. unfold last_below. by rewrite (rank_same live_ 0 b) by (lia || (intros; apply Hk; lia)). Qed.

(** How the scan ends. *)
Definition scan_result (b : nat) s (value_type : Z) : Prop :=
  common s /\ direction_ s = kReverse /\ (exists ci, at_ (iter_ s) ci /\
    ((value_type = kTypeDeletion /\ forall k, (k < b)%nat -> live_ k = false) \/
     (value_type = kTypeValue /\ exists m p, (m < b)%nat /\ entries !! m = Some p /\ live_ m = true /\
        (forall k, (m < k < b)%nat -> live_ k = false) /\
        saved_key_ s = ukey p /\ saved_value_ s = p.2 /\ stop ci m p))).

Lemma scan_end b s value_type :
  common s -> direction_ s = kReverse -> at_ (iter_ s) None -> scan_inv b 0 value_type s ->
  scan_result b s value_type.
Proof.
  intros Hs Hd Hi [[-> Hk]|[-> (m & p & Hm & Hp & Hv & Ht & Hbelow & Hk & Hsk & Hsv)]].
  - split; [done|]. split; [done|]. exists None. split; [done|]. left. split; [done|]. intros; apply Hk; lia.
  - split; [done|]. split; [done|]. exists None. split; [done|]. right. split; [done|].
    exists m, p. split_and!; try done; [lia| |].
    + apply (not_seen_live m p); try done. intros (j0 & p0 & Hj0 & H0 & Hv0 & _).
      rewrite (Hbelow j0 p0) in Hv0; [done|lia|done].
    + intros k q Hkm. apply Hbelow. lia.
Qed.

Lemma FindPrev_loop_ok b fuel : forall value_type s j,
  common s -> direction_ s = kReverse -> at_ (iter_ s) (Some j) -> (S j <= fuel)%nat ->
  scan_inv b (S j) value_type s -> (j < b)%nat ->
  exists s' value_type', FindPrev_loop fuel value_type s = Ok (s', value_type') /\ scan_result b s' value_type'.
Proof.
  induction fuel as [|fuel IH]; intros value_type s j Hs Hd Hi Hf Hinv Hb;
    destruct (at_entry _ _ Hi) as [p Hj]; [lia|].
  cbn [FindPrev_loop]. destruct Hs as (Hs & Hseq & Hst).
  destruct (ParseKey_at s j p Hs Hi Hj) as (s' & -> & (db & rnd & u & -> & Hs')). cbn [res_bind].
  cbn [sequence_ set_sampling saved_key_ iter_]. rewrite Hseq.
  assert (Hc : common (set_sampling db rnd u s)) by done.
  assert (Hagain : forall value_type s', common s' -> direction_ s' = kReverse -> iter_ s' = iter_ s ->
    scan_inv b j value_type s' ->
    exists s'' value_type', prev_or_end (FindPrev_loop fuel) value_type s' = Ok (s'', value_type') /\
      scan_result b s'' value_type').
  { clear Hs' Hc. intros vt s' Hs' Hd' His Hinv'. unfold prev_or_end. rewrite His.
    destruct (at_prev _ _ Hi) as (it' & -> & Hi'). cbn [res_bind set_iter iter_]. destruct j as [|j].
    - rewrite (at_none _ Hi'). eexists _, _. split; [done|]. by apply scan_end.
    - destruct (at_entry _ _ Hi') as [q Hq]. destruct (at_read _ _ _ Hi' Hq) as [-> _].
      apply (IH vt (set_iter it' s') j); [done..|lia|done|lia]. }
  destruct (at_read _ _ _ Hi Hj) as (_ & Hkey & Hvalue).
  assert (Hskip : (visible snap p = false \/ live_ j = false /\ value_type = kTypeDeletion) ->
    scan_inv b j value_type (set_sampling db rnd u s)).
  { intros Hp. destruct Hinv as [[-> Hk]|[-> (m & q & Hm & Hq & Hvq & Ht & Hbelow & Hk & Hsk & Hsv)]].
    - left. split; [done|]. intros k Hkj. destruct (Nat.eq_dec k j) as [->|]; [|apply Hk; lia].
      destruct Hp as [Hp|[Hp _]]; [by apply (invisible_not_live j p)|done].
    - destruct Hp as [Hp|[_ Hp]]; [|done]. right. split; [done|]. exists m, q. split_and!; try done; try lia.
      intros k x Hkj Hx. destruct (Nat.eq_dec k j) as [->|]; [|apply (Hbelow k x); [lia|done]].
      rewrite Hj in Hx. injection Hx as <-. done. }
  destruct (Z.leb_spec (sequence p.1) snap) as [Hvis|Hinvis].
  2: { apply Hagain; try done. apply Hskip. left. apply Z.leb_gt. lia. }
  assert (Hv : visible snap p = true) by (by apply Z.leb_le).
  destruct (entry_ok _ _ Hj) as [[_ Ht] _].
  destruct (negb (value_type =? kTypeDeletion) && (cmp_Compare (ukey p) (saved_key_ s) <? 0)) eqn:E.
  { apply andb_prop in E as [E1 E2]. apply negb_true_iff, Z.eqb_neq in E1. apply Z.ltb_lt in E2.
    eexists _, _. split; [done|]. split; [done|]. split; [done|]. exists (Some j). split; [done|].
    destruct Hinv as [[-> _]|[-> (m & q & Hm & Hq & Hvq & Htq & Hbelow & Hk & Hsk & Hsv)]]; [done|].
    right. split; [done|]. rewrite Hsk in E2. exists m, q. split_and!; try done; try lia.
    - apply (not_seen_live m q); try done. intros (j0 & p0 & Hj0 & H0 & Hv0 & Hc0).
      destruct (decide (j < j0)%nat) as [Hlt|Hge]; [rewrite (Hbelow j0 p0) in Hv0; [done|lia|done]|].
      pose proof (entry_le j0 j p0 p ltac:(lia) H0 Hj) as Hle. pose proof (cmp_antisym (ukey p0) (ukey q)).
      assert (Hqp0 : cmp_Compare (ukey q) (ukey p0) <= 0) by lia.
      pose proof (cmp_trans _ _ _ Hqp0 Hle). pose proof (cmp_antisym (ukey p) (ukey q)). lia.
    - cbn. split; [lia|]. split; [intros k x Hkj; apply Hbelow; lia|]. by exists p. }
  assert (Habove : forall k, (j < k < b)%nat -> live_ k = false).
  { intros k Hk. destruct Hinv as [[-> Hall]|[-> (m & q & Hm & Hq & Hvq & Htq & Hbelow & Hall & Hsk & Hsv)]];
      [apply Hall; lia|]. destruct (Nat.lt_trichotomy k m) as [Hlt|[->|Hgt]]; [| |apply Hall; lia].
    - destruct (entries !! k) as [x|] eqn:Ex; [|by unfold live; rewrite Ex].
      apply (invisible_not_live k x Ex). apply (Hbelow k x); [lia|done].
    - apply (not_live_seen m q Hq Hvq). exists j, p. split_and!; [lia|done..|]. rewrite Hsk in E.
      pose proof (entry_le j m p q ltac:(lia) Hj Hq). cbn [negb kTypeValue kTypeDeletion Z.eqb andb] in E.
      apply Z.ltb_ge in E. lia. }
  destruct Ht as [Ht|Ht]; rewrite Ht.
  - cbn [Z.eqb kTypeDeletion]. apply Hagain; try done. left. split; [done|]. intros k Hk.
    destruct (Nat.eq_dec k j) as [->|]; [|apply Habove; lia]. destruct (live_ j) eqn:El; [|done].
    destruct (live_visible j p El Hj) as [_ Ht']. by rewrite Ht in Ht'.
  - cbn [Z.eqb kTypeDeletion kTypeValue Pos.eqb]. cbn [set_sampling iter_]. rewrite Hvalue, Hkey, extract_entry.
    cbn [res_bind]. fold kTypeValue. apply Hagain; try done. right. split; [done|]. exists j, p.
    split_and!; try done; lia.
Qed.

Lemma FindPrevUserEntry_ok fuel s c b :
  common s -> direction_ s = kReverse -> at_ (iter_ s) c ->
  match c with
  | None => forall k, (k < b)%nat -> live_ k = false
  | Some j => (S j <= fuel)%nat /\ (j < b)%nat /\ forall k, (j < k < b)%nat -> live_ k = false
  end ->
  exists s', FindPrevUserEntry fuel s = Ok s' /\ shows s' (last_below b).
Proof.
  intros Hs Hd Hi Hc. unfold FindPrevUserEntry.
  assert (Hr : exists s' value_type, (if it_Valid (iter_ s) then FindPrev_loop fuel kTypeDeletion s
      else Ok (s, kTypeDeletion)) = Ok (s', value_type) /\ scan_result b s' value_type).
  { destruct c as [j|].
    - destruct (at_entry _ _ Hi) as [p Hp]. destruct (at_read _ _ _ Hi Hp) as [-> _].
      apply (FindPrev_loop_ok b fuel kTypeDeletion s j); try done; try apply Hc.
      left. split; [done|]. intros; apply Hc; lia.
    - rewrite (at_none _ Hi). eexists _, _. split; [done|]. apply scan_end; try done. left. split; [done|].
      intros; apply Hc; lia. }
  destruct Hr as (s' & vt & -> & Hs' & Hd' & ci & Hi' & Hres). cbn [res_bind].
  destruct Hres as [[-> Hk]|[-> (m & p & Hm & Hp & Hl & Hk & Hsk & Hsv & Hstop)]];
    cbn [Z.eqb kTypeDeletion kTypeValue]; eexists; (split; [done|]).
  - rewrite last_below_none by done. split; [done|]. split; [by exists ci|done].
  - rewrite (last_below_at b m) by done. split; [done|]. split; [by exists ci|]. split; [done|].
    exists m, p. pose proof (lookup_lt_Some _ _ _ Hp). split; [by apply positions_rank|]. split; [done|].
    cbn. rewrite Hd'. split_and!; [done..|]. by exists ci.
Qed.

(** *** Every operation *)

Lemma view_length : length (user_view snap entries) = rank live_ n.
Proof. unfold user_view. apply length_map. Qed.

Lemma view_lookup i j p :
  positions live_ n !! i = Some j -> entries !! j = Some p ->
  user_view snap entries !! i = Some (ukey p, p.2).
Proof.
  intros Hi Hj. unfold user_view. rewrite list_lookup_fmap, Hi. cbn. unfold user_pair. rewrite Hj. by destruct p.
Qed.

Lemma view_at i x : user_view snap entries !! i = Some x ->
  exists j p, positions live_ n !! i = Some j /\ entries !! j = Some p /\ x = (ukey p, p.2).
Proof.
  unfold user_view. rewrite list_lookup_fmap. destruct (positions live_ n !! i) as [j|] eqn:E; [|done].
  intros [= <-]. pose proof (positions_lookup live_ n i j E) as (_ & Hj & _).
  apply lookup_lt_is_Some_2 in Hj as [[k v] Hj]. exists j, (k, v). split_and!; [done..|].
  unfold user_pair. by rewrite Hj.
Qed.

Lemma view_first : (match user_view snap entries with [] => None | _ => Some O end) = first_from live_ n 0.
Proof.
  unfold first_from. rewrite <- view_length. change (rank live_ 0) with O.
  by destruct (user_view snap entries).
Qed.

Lemma view_last :
  (match user_view snap entries with [] => None | _ => Some (pred (length (user_view snap entries))) end)
  = last_below n.
Proof. unfold last_below. rewrite <- view_length. by destruct (user_view snap entries). Qed.

Lemma find_ge_view target b :
  (forall k p, (k < b)%nat -> entries !! k = Some p ->
     Internal_Compare C (pack p).1 (InternalKey target snap kValueTypeForSeek) < 0) ->
  (forall k p, (b <= k)%nat -> entries !! k = Some p ->
     0 <= Internal_Compare C (pack p).1 (InternalKey target snap kValueTypeForSeek)) ->
  find_ge target (user_view snap entries) = first_from live_ n b /\
  skip_inv b b false target.
Proof.
  intros Hlow Hhigh.
  assert (Hcmp : forall k p, entries !! k = Some p -> visible snap p = true ->
    if (k <? b)%nat then cmp_Compare (ukey p) target < 0 else 0 <= cmp_Compare (ukey p) target).
  { intros k p Hk Hv. destruct (entry_ok _ _ Hk) as [[Hs Ht] _]. apply Z.leb_le in Hv.
    pose proof (Internal_Compare_InternalKey (ukey p) (sequence p.1) (type p.1) target snap kValueTypeForSeek
      Hs Hsnap Ht ltac:(by right)) as Hc. pose proof (type_ok_range _ Ht). unfold kValueTypeForSeek, kTypeValue in *.
    destruct p as [[u sq ty] v]. unfold pack, AppendInternalKey in *. cbn [user_key sequence type fst snd] in *.
    destruct (Nat.ltb_spec k b) as [Hkb|Hkb].
    - specialize (Hlow k _ Hkb Hk). apply Hc in Hlow. lia.
    - specialize (Hhigh k _ Hkb Hk). cbn [fst user_key sequence type] in Hhigh. unfold InternalKey, AppendInternalKey in Hc.
      cbn [user_key sequence type] in Hc. apply Z.nlt_ge. intros Hlt. apply Z.le_ngt in Hhigh. apply Hhigh, Hc. by left. }
  assert (Hview : forall i x, user_view snap entries !! i = Some x ->
    exists j p, positions live_ n !! i = Some j /\ x = (ukey p, p.2) /\
      if (j <? b)%nat then cmp_Compare x.1 target < 0 else 0 <= cmp_Compare x.1 target).
  { intros i x Hx. apply view_at in Hx as (j & p & Hi & Hj & ->). exists j, p. split; [done|]. split; [done|].
    apply Hcmp; [done|]. apply positions_lookup in Hi as (Hl & _). by apply (live_visible j p). }
  split.
  - unfold first_from. destruct (Nat.ltb_spec (rank live_ b) (rank live_ n)) as [Hlt|Hge].
    + rewrite <- view_length in Hlt. apply lookup_lt_is_Some_2 in Hlt as [x Hx].
      destruct (Hview _ _ Hx) as (j & p & Hi & -> & Hj). apply (find_ge_unique _ _ _ _ Hx).
      * apply positions_lookup in Hi as (Hl & _ & Hr). destruct (Nat.ltb_spec j b) as [Hjb|Hjb]; [|done].
        pose proof (rank_mono live_ (S j) b ltac:(lia)) as Hm. rewrite rank_S, Hl in Hm. lia.
      * intros i y Hi' Hy. destruct (Hview _ _ Hy) as (j' & p' & Hij & -> & Hj').
        apply positions_lookup in Hij as (Hl & _ & Hr). destruct (Nat.ltb_spec j' b) as [Hjb|Hjb]; [done|].
        pose proof (rank_mono live_ b j' ltac:(lia)). lia.
    + apply find_ge_none. intros i x Hx. destruct (Hview _ _ Hx) as (j & p & Hi & -> & Hj).
      apply positions_lookup in Hi as (Hl & Hjn & Hr). destruct (Nat.ltb_spec j b) as [Hjb|Hjb]; [done|].
      pose proof (rank_mono live_ b j ltac:(lia)). pose proof (rank_mono live_ (S j) n ltac:(lia)) as Hm.
      rewrite rank_S, Hl in Hm. lia.
  - intros k p Hk Hp Hv. split; [|by intros [? _]]. intros (j0 & p0 & Hj0 & H0 & Hv0 & Hc0). exfalso.
    pose proof (Hcmp _ _ H0 Hv0) as H1. pose proof (Hcmp _ _ Hp Hv) as H2.
    destruct (Nat.ltb_spec j0 b); [|lia]. destruct (Nat.ltb_spec k b); [lia|].
    pose proof (cmp_antisym (ukey p0) (ukey p)) as Ha. assert (Hle : cmp_Compare (ukey p) (ukey p0) <= 0) by lia.
    pose proof (cmp_le_lt_trans _ _ _ Hle H1). lia.
Qed.

(** *** What the view holds *)

(** [q] is not newer than [p]. *)
Definition not_newer q p : Prop :=
  sequence q.1 < sequence p.1 \/ (sequence q.1 = sequence p.1 /\ type q.1 <= type p.1).

Lemma view_elem x :
  x ∈ user_view snap entries <->
  exists p, p ∈ entries /\ x = (ukey p, p.2) /\ visible snap p = true /\ type p.1 = kTypeValue /\
    forall q, q ∈ entries -> visible snap q = true -> cmp_Compare (ukey q) (ukey p) = 0 -> not_newer q p.
Proof.
  split.
  - intros (i & Hi)%list_elem_of_lookup. apply view_at in Hi as (j & p & Hij & Hj & ->).
    apply positions_lookup in Hij as (Hl & _). destruct (live_visible j p Hl Hj) as [Hv Ht].
    exists p. split_and!; try done; [by apply (list_elem_of_lookup_2 _ j)|].
    intros q (k & Hk)%list_elem_of_lookup Hvq Hc. destruct (Nat.lt_trichotomy k j) as [Hlt|[->|Hgt]].
    + destruct (live_not_seen j p Hl Hj). by exists k, q.
    + rewrite Hj in Hk. injection Hk as ->. right. lia.
    + pose proof (cmp_antisym (ukey q) (ukey p)).
      destruct (entry_order j k p q Hgt Hj Hk) as [|[_ [|[? ?]]]]; unfold not_newer; lia.
  - intros (p & (j & Hj)%list_elem_of_lookup & -> & Hv & Ht & Hall).
    assert (Hl : live_ j = true).
    { apply (not_seen_live j p Hj Hv Ht). intros (j0 & p0 & Hj0 & H0 & Hv0 & Hc).
      destruct (entry_order j0 j p0 p Hj0 H0 Hj) as [|[_ Hn]]; [lia|].
      destruct (Hall p0 (list_elem_of_lookup_2 _ _ _ H0) Hv0 Hc); lia. }
    apply (list_elem_of_lookup_2 _ (rank live_ j)), (view_lookup _ j); [|done].
    apply positions_rank; [done|]. by apply lookup_lt_Some in Hj.
Qed.

Lemma view_ascending : ascending (user_view snap entries).
Proof.
  intros i i' x y Hii Hx Hy. apply view_at in Hx as (j & p & Hij & Hj & ->).
  apply view_at in Hy as (j' & p' & Hij' & Hj' & ->). cbn.
  apply positions_lookup in Hij as (Hl & _ & ->). apply positions_lookup in Hij' as (Hl' & _ & ->).
  assert (Hlt : (j < j')%nat).
  { apply Nat.nle_gt. intros Hle. apply (rank_mono live_) in Hle. lia. }
  destruct (entry_order j j' p p' Hlt Hj Hj') as [|[Hc _]]; [done|].
  destruct (live_visible j p Hl Hj) as [Hv _]. destruct (live_not_seen j' p' Hl' Hj'). by exists j, p.
Qed.
Context (fuel : nat) (Hfuel : (n <= fuel)%nat).

Lemma at_step it ci op c :
  at_ it ci -> @cursor_step (InternalKeyComparator C) (map pack entries) ci op = Some c ->
  exists it', it_step it op = Ok it' /\ at_ it' c.
Proof. apply (@iterates_step (InternalKeyComparator C)). Qed.

Lemma shows_none s : common s -> (exists ci, at_ (iter_ s) ci) -> valid_ s = false -> shows s None.
Proof. intros Hs Hi Hv. split_and!; done. Qed.

Lemma empty_view : n = O -> user_view snap entries = [].
Proof. intros E. by destruct entries. Qed.

Lemma SeekToFirst_ok s : common s -> (exists ci, at_ (iter_ s) ci) ->
  exists s', SeekToFirst fuel s = Ok s' /\ shows s' (first_from live_ n 0).
Proof.
  intros Hs [ci Hi]. unfold SeekToFirst.
  destruct (at_step _ _ OpSeekToFirst (if (0 <? n)%nat then Some O else None) Hi) as (it' & E & Hi').
  { cbn [cursor_step]. by destruct entries. }
  cbn [it_step] in E. cbn [ClearSavedValue set_saved_value set_direction iter_]. rewrite E. cbn [res_bind].
  cbn [set_iter iter_]. destruct (Nat.ltb_spec 0 n) as [Hn|Hn].
  - destruct (at_entry _ _ Hi') as [p Hp]. destruct (at_read _ _ _ Hi' Hp) as [-> _].
    apply (FindNextUserEntry_ok fuel false _ 0 0); try done; try lia.
    intros k q _ _ _. split; [by intros (? & ? & ? & _); lia|by intros [? _]].
  - rewrite (at_none _ Hi'). eexists. split; [done|]. rewrite first_from_end by lia.
    apply shows_none; [done|by exists None|done].
Qed.

Lemma SeekToLast_ok s : common s -> (exists ci, at_ (iter_ s) ci) ->
  exists s', SeekToLast fuel s = Ok s' /\ shows s' (last_below n).
Proof.
  intros Hs [ci Hi]. unfold SeekToLast.
  destruct (at_step _ _ OpSeekToLast (match n with O => None | S m => Some m end) Hi) as (it' & E & Hi').
  { cbn [cursor_step]. rewrite length_map. by destruct entries. }
  cbn [it_step] in E. cbn [ClearSavedValue set_saved_value set_direction iter_]. rewrite E. cbn [res_bind].
  apply (FindPrevUserEntry_ok fuel _ _ n) with (3 := Hi'); [done|done|].
  destruct n as [|m]; [intros; lia|]. split; [lia|]. split; [lia|]. intros; lia.
Qed.

Lemma Seek_ok s target : common s -> (exists ci, at_ (iter_ s) ci) ->
  exists s', Seek fuel s target = Ok s' /\ shows s' (find_ge target (user_view snap entries)).
Proof.
  intros Hs [ci Hi]. unfold Seek. cbn [ClearSavedValue set_saved_value set_direction set_saved_key iter_ saved_key_ sequence_].
  destruct Hs as (Hs & Hseq & Hst). rewrite Hseq. fold (InternalKey target snap kValueTypeForSeek).
  set (lk := InternalKey target snap kValueTypeForSeek).
  destruct (at_step _ _ (OpSeek lk) _ Hi eq_refl) as (it' & E & Hi').
  cbn [it_step] in E. rewrite E. cbn [res_bind].
  pose proof (@find_ge_spec (InternalKeyComparator C) lk (map pack entries)) as Hspec.
  assert (Hl : forall k p, entries !! k = Some p -> map pack entries !! k = Some (pack p)).
  { intros k p Hk. by rewrite list_lookup_fmap, Hk. }
  destruct (@find_ge (InternalKeyComparator C) lk (map pack entries)) as [b|].
  - destruct (at_entry _ _ Hi') as [p Hp]. destruct (at_read _ _ _ Hi' Hp) as [Hv _]. cbn [set_iter iter_]. rewrite Hv.
    destruct Hspec as [(x & Hx & Hge) Hlow]. destruct (find_ge_view target b) as [-> Hinv].
    + intros k q Hk Hq. by apply (Hlow k (pack q) Hk (Hl _ _ Hq)).
    + intros k q Hk Hq. rewrite (Hl _ _ Hp) in Hx. injection Hx as <-.
      destruct (Nat.eq_dec b k) as [->|]; [rewrite Hp in Hq; by injection Hq as ->|].
      pose proof (Hasc b k _ _ ltac:(lia) (Hl _ _ Hp) (Hl _ _ Hq)) as Hlt.
      cbn in Hge, Hlt. apply Z.nlt_ge. intros Hlt'.
      pose proof (@cmp_lt_trans (InternalKeyComparator C) _ _ _ _ Hlt Hlt') as Hc. cbn in Hc. fold lk in Hc. lia.
    + apply (FindNextUserEntry_ok fuel false _ b b); try done; try lia. intros k q Hk Hq Hvq.
      rewrite (Hinv k q Hk Hq Hvq). split; by intros [? _].
  - cbn [set_iter iter_]. rewrite (at_none _ Hi'). eexists. split; [done|]. destruct (find_ge_view target n) as [-> _].
    + intros k q Hk Hq. by apply (Hspec k (pack q) (Hl _ _ Hq)).
    + intros k q Hk Hq. apply lookup_lt_Some in Hq. lia.
    + rewrite first_from_end by lia. apply shows_none; [done|by exists None|done].
Qed.

Lemma next_cursor i j : positions live_ n !! i = Some j ->
  (if (S i <? length (user_view snap entries))%nat then Some (S i) else None) = first_from live_ n (S j).
Proof.
  intros Hi. apply positions_lookup in Hi as (Hl & _ & ->). unfold first_from.
  by rewrite view_length, rank_S, Hl, Nat.add_1_r.
Qed.

Lemma Next_ok s i : shows s (Some i) ->
  exists s', Next fuel s = Ok s' /\
    shows s' (if (S i <? length (user_view snap entries))%nat then Some (S i) else None).
Proof.
  intros (Hs & _ & Hv & j & p & Hij & Hj & Hm). rewrite (next_cursor i j Hij). unfold Next. rewrite Hv.
  pose proof (lookup_lt_Some _ _ _ Hj) as Hjn.
  destruct (live_visible j p (proj1 (positions_lookup _ _ _ _ Hij)) Hj) as [Hvis Hty].
  cbn [bool_decide decide negb]. rewrite bool_decide_eq_true_2 by eauto. cbn [negb].
  destruct (direction_ s) eqn:Ed.
  - destruct (at_read _ _ _ Hm Hj) as (_ & Hk & _). rewrite Hk, extract_entry.
    destruct (at_next _ _ Hm) as (it' & E & Hi'). cbn [set_saved_key iter_]. rewrite E. cbn [res_bind].
    destruct (Nat.ltb_spec (S j) n) as [Hn|Hn].
    + destruct (at_entry _ _ Hi') as [q Hq]. destruct (at_read _ _ _ Hi' Hq) as [-> _]. cbn [negb].
      apply (FindNextUserEntry_ok fuel true _ (S j) (S j)); try done; try lia. apply (skip_inv_mark j); [lia|done..].
    + rewrite (at_none _ Hi'). eexists. split; [done|]. rewrite first_from_end by lia.
      apply shows_none; [done|by exists None|done].
  - destruct Hm as (Hsk & Hsv & ci & Hi & Hstop). cbn [set_direction iter_].
    assert (Hmove : exists it' j', (if negb (it_Valid (iter_ s)) then it_SeekToFirst (iter_ s) else it_Next (iter_ s))
        = Ok it' /\ at_ it' (Some j') /\ (j' <= j)%nat /\
        forall m q, (j' <= m < j)%nat -> entries !! m = Some q -> visible snap q = false).
    { destruct ci as [i'|].
      - destruct (at_entry _ _ Hi) as [x Hx]. destruct (at_read _ _ _ Hi Hx) as [-> _]. cbn [negb].
        destruct (at_next _ _ Hi) as (it' & E & Hi'). destruct Hstop as (Hlt & Hbetween & _).
        destruct (Nat.ltb_spec (S i') n); [|lia]. exists it', (S i'). split_and!; try done; try lia.
      - rewrite (at_none _ Hi). cbn [negb]. destruct (at_step _ _ OpSeekToFirst (Some O) Hi) as (it' & E & Hi').
        { cbn [cursor_step]. by destruct entries. }
        exists it', O. split_and!; try done; try lia. intros m q Hmj. apply Hstop. lia. }
    destruct Hmove as (it' & j' & -> & Hi' & Hjj & Hbetween). cbn [res_bind].
    destruct (at_entry _ _ Hi') as [q Hq]. destruct (at_read _ _ _ Hi' Hq) as [-> _]. cbn [negb].
    apply (FindNextUserEntry_ok fuel true _ j' (S j)); try done; try lia.
    + intros m x Hmj Hx Hvx. destruct (Nat.eq_dec m j) as [->|]; [by rewrite Hj in Hx; injection Hx as <-|].
      rewrite (Hbetween m x) in Hvx; [done|lia|done].
    + cbn [set_iter set_direction saved_key_]. rewrite Hsk. intros k x Hk Hx Hvx.
      destruct (decide (j <= k)%nat) as [Hjk|Hjk]; [|rewrite (Hbetween k x) in Hvx; [done|lia|done]].
      pose proof (entry_le j k p x Hjk Hj Hx) as Hle. split.
      * intros (j0 & p0 & Hj0 & H0 & _ & Hc0). split; [done|].
        pose proof (entry_le j0 j p0 p ltac:(lia) H0 Hj) as Hle0. pose proof (cmp_antisym (ukey p0) (ukey x)).
        apply (cmp_trans _ (ukey p0)); [lia|done].
      * intros [_ Hle']. exists j, p. split_and!; [lia|done..|]. pose proof (cmp_antisym (ukey p) (ukey x)). lia.
Qed.

(** No entry shown shares its user key with a later one that is. *)
Lemma same_key_not_live j p k q :
  live_ j = true -> entries !! j = Some p -> (k < j)%nat -> entries !! k = Some q ->
  0 <= cmp_Compare (ukey q) (ukey p) -> live_ k = false.
Proof.
  intros Hl Hj Hkj Hk Hge. destruct (live_ k) eqn:E; [|done]. destruct (live_visible k q E Hk) as [Hv _].
  destruct (live_not_seen j p Hl Hj). exists k, q. split_and!; try done.
  pose proof (entry_le k j q p ltac:(lia) Hk Hj). lia.
Qed.

Lemma Prev_loop_ok j p fl : forall s j0,
  entries !! j = Some p -> live_ j = true -> common s -> saved_key_ s = ukey p -> valid_ s = true ->
  at_ (iter_ s) (Some j0) -> (j0 < fl)%nat -> (j0 <= j)%nat ->
  (forall k, (j0 <= k < j)%nat -> live_ k = false) ->
  exists s' found, Prev_loop fl s = Ok (s', found) /\ common s' /\
    if found : bool then valid_ s' = true /\ exists i, at_ (iter_ s') (Some i) /\ (i < j0)%nat /\
      forall k, (i < k < j)%nat -> live_ k = false
    else shows s' None /\ forall k, (k < j)%nat -> live_ k = false.
Proof.
  induction fl as [|fl IH]; intros s j0 Hj Hl Hs Hsk Hv Hi Hf Hj0 Hk; [lia|]. cbn [Prev_loop].
  destruct (at_prev _ _ Hi) as (it' & -> & Hi'). cbn [res_bind set_iter iter_]. destruct j0 as [|j0].
  - rewrite (at_none _ Hi'). cbn [negb]. eexists _, _. split; [done|]. split; [done|].
    split; [apply shows_none; [done|by exists None|done]|]. intros; apply Hk; lia.
  - destruct (at_entry _ _ Hi') as [q Hq]. destruct (at_read _ _ _ Hi' Hq) as (-> & -> & _).
    cbn [negb saved_key_ set_iter]. rewrite extract_entry, Hsk.
    destruct (Z.ltb_spec (cmp_Compare (ukey q) (ukey p)) 0) as [Hlt|Hge].
    + eexists _, _. split; [done|]. split; [done|]. split; [done|]. exists j0. split; [done|]. split; [lia|].
      intros; apply Hk; lia.
    + destruct (IH (set_iter it' s) j0 Hj Hl Hs Hsk Hv Hi') as (s' & found & E & Hs' & Hfound); [lia|lia| |].
      * intros k Hkj. destruct (Nat.eq_dec k j0) as [->|]; [|apply Hk; lia].
        by apply (same_key_not_live j p j0 q); [..|lia| |].
      * exists s', found. split; [done|]. split; [done|]. destruct found; [|done].
        destruct Hfound as (Hv' & i & Hi2 & Hij & Hk2). split; [done|]. exists i. split_and!; [done|lia|done].
Qed.

Lemma prev_cursor i j : positions live_ n !! i = Some j ->
  (match i with O => None | S i => Some i end) = last_below j.
Proof. intros Hi. apply positions_lookup in Hi as (_ & _ & ->). done. Qed.

Lemma Prev_ok s i : shows s (Some i) ->
  exists s', Prev fuel s = Ok s' /\ shows s' (match i with O => None | S i => Some i end).
Proof.
  intros (Hs & _ & Hv & j & p & Hij & Hj & Hm). rewrite (prev_cursor i j Hij). unfold Prev.
  assert (Hv' : valid_ s = true) by exact Hv. rewrite Hv'. cbn [negb].
  pose proof (positions_lookup _ _ _ _ Hij) as (Hl & Hjn & _). destruct (direction_ s) eqn:Ed.
  - destruct (at_read _ _ _ Hm Hj) as (_ & Hk & _). rewrite Hk, extract_entry.
    destruct (Prev_loop_ok j p fuel (set_saved_key (ukey p) s) j Hj Hl Hs eq_refl) as (s' & found & -> & Hs' & Hfound);
      [exact Hv'|exact Hm|lia|lia|lia|].
    cbn [res_bind]. destruct found.
    + destruct Hfound as (_ & i' & Hi' & Hij' & Hk'). apply (FindPrevUserEntry_ok fuel _ (Some i') j); try done.
      split_and!; [lia|lia|done].
    + exists s'. split; [done|]. destruct Hfound as [Hsh Hnone]. by rewrite last_below_none.
  - destruct Hm as (_ & _ & ci & Hi & Hstop). apply (FindPrevUserEntry_ok fuel s ci j Hs Ed Hi).
    destruct ci as [i'|].
    + destruct Hstop as (Hlt & Hbetween & _). split; [lia|]. split; [done|]. intros k Hkj.
      destruct (entries !! k) as [q|] eqn:Eq; [|by unfold live; rewrite Eq].
      by apply (invisible_not_live k q), (Hbetween k q).
    + intros k Hkj. destruct (entries !! k) as [q|] eqn:Eq; [|by unfold live; rewrite Eq].
      by apply (invisible_not_live k q), (Hstop k q).
Qed.

Lemma shows_simulates :
  @simulates C (DBIter D I) (DBIter_Iterator fuel) shows (user_view snap entries).
Proof.
  intros s c Hsh. pose proof Hsh as (Hs & [ci Hci] & Hv & Hm). split_and!.
  - unfold it_reads. cbn [it_Valid it_value it_key DBIter_Iterator]. rewrite Hv. destruct c as [i|]; [|done].
    rewrite bool_decide_eq_true_2 by eauto. destruct Hm as (j & p & Hij & Hj & Hm). cbn.
    rewrite (view_lookup i j p Hij Hj). unfold key, value. destruct (direction_ s).
    + destruct (at_read _ _ _ Hm Hj) as (_ & -> & ->). by rewrite extract_entry.
    + by destruct Hm as (-> & -> & _).
  - destruct c as [i|]; [|split; by intros []]. split; [|by eauto]. intros _.
    destruct Hm as (j & p & Hij & Hj & _). cbn. rewrite (view_lookup i j p Hij Hj). eauto.
  - cbn. unfold status. destruct Hs as (_ & _ & ->). by apply (iterates_reads _ _ _ Hci).
  - intros op c' Hop. destruct op as [| |t| |]; cbn [cursor_step it_step] in *;
      cbn [it_SeekToFirst it_SeekToLast it_Seek it_Next it_Prev DBIter_Iterator].
    + injection Hop as <-. rewrite view_first. apply SeekToFirst_ok; [done|by exists ci].
    + injection Hop as <-. rewrite view_last. apply SeekToLast_ok; [done|by exists ci].
    + injection Hop as <-. apply Seek_ok; [done|by exists ci].
    + destruct c as [i|]; [|done]. injection Hop as <-. by apply Next_ok.
    + destruct c as [i|]; [|done]. injection Hop as <-. by apply Prev_ok.
Qed.

(** A new iterator over an internal iterator that has not moved. *)
Lemma NewDBIterator_shows db it seed c : at_ it c -> shows (NewDBIterator db it snap seed) None.
Proof.
  intros Hi. split; [|split; [by exists c|done]]. split; [|done].
  pose proof (NewRandom_ok seed) as Hr. split; [by apply Random_Next_ok|]. cbn.
  pose proof (Z.mod_pos_bound (Random_Next (NewRandom seed)) (2 * kReadBytesPeriod) ltac:(done)) as Hm.
  change (2 * kReadBytesPeriod) with (2 ^ 21) in *. unfold Uniform. cbn [snd]. lia.
Qed.

End proofs.
End DBIter.

(** ** Properties *)

(** C4. What a client sees.  Over any internal iterator, the database iterator at a
    sequence number is a cursor in the view of the database at that number: any
    sequence of seeks and of steps in both directions at valid positions, turning
    around included, is defined and shows the pair the cursor is at.  The view is
    sorted by user key and holds a pair exactly if the newest entry of its key that
    the sequence number can see is a value.  A call takes at most as many steps of
    the internal iterator as there are entries, and the draws of the compaction
    period end. *)
Theorem db_iterator_shows_view `{C : Comparator} `{!ComparatorLaws C} {D} `{RS : ReadSampler D} {I} `{It : Iterator I}
    (db : D) (it : I) (snap seed : Z) (entries : list (ParsedInternalKey * bytes)) fuel ops cs :
  seq_ok snap -> Forall DBIter.entry_fits entries ->
  @ascending (InternalKeyComparator C) (map DBIter.pack entries) ->
  @iterates_at (InternalKeyComparator C) I _ it (map DBIter.pack entries) None ->
  (length entries <= fuel)%nat ->
  let view := DBIter.user_view snap entries in
  cursor_run view None ops = Some cs ->
  @it_run _ (DBIter.DBIter_Iterator fuel) (DBIter.NewDBIterator db it snap seed) ops =
    Ok (map (at_cursor view) cs) /\
  ascending view /\
  (forall u v, (u, v) ∈ view <->
     exists p, p ∈ entries /\ user_key p.1 = u /\ p.2 = v /\ sequence p.1 <= snap /\ type p.1 = kTypeValue /\
       forall q, q ∈ entries -> sequence q.1 <= snap -> cmp_Compare (user_key q.1) u = 0 ->
         DBIter.not_newer q p).
Proof.
  intros Hsnap Hfit Hasc Hit Hfuel view Hr. split_and!.
  - apply (iterates_run _ _ None _ _); [|done]. exists (DBIter.shows snap entries).
    split; [by apply DBIter.shows_simulates|]. by eapply DBIter.NewDBIterator_shows.
  - by apply DBIter.view_ascending.
  - intros u v. unfold view. rewrite DBIter.view_elem by done. unfold DBIter.visible. split.
    + intros (p & Hp & [= -> ->] & Hv & Ht & Hall). exists p. split_and!; try done; [by apply Z.leb_le|].
      intros q Hq Hvq. apply Hall; [done|]. by apply Z.leb_le.
    + intros (p & Hp & <- & <- & Hv & Ht & Hall). exists p. split_and!; try done; [by apply Z.leb_le|].
      intros q Hq Hvq. apply Hall; [done|]. by apply Z.leb_le.
Qed.

(** Five writes of three keys in one block, seen at sequence number 4: [a] has its
    second value, [b] is deleted, and of [c] only the older write is seen. *)
Definition demo_entries : list (ParsedInternalKey * bytes) :=
  [(MkParsed [x61] 3 kTypeValue, [x32]); (MkParsed [x61] 1 kTypeValue, [x31]);
   (MkParsed [x62] 4 kTypeDeletion, []); (MkParsed [x62] 2 kTypeValue, [x33]);
   (MkParsed [x63] 9 kTypeValue, [x35]); (MkParsed [x63] 0 kTypeValue, [x34])].

Lemma db_iterator_shows_view_witness :
  let sampler : ReadSampler (list bytes) := fun d k => k :: d in
  let block := NewBlock (BlockBuilder_Finish (build 2 (map DBIter.pack demo_entries))).2 in
  @it_run _ (@DBIter.DBIter_Iterator BytewiseComparator _ sampler _
      (@BlockIterator_Iterator (InternalKeyComparator BytewiseComparator)) 6)
    (DBIter.NewDBIterator [] (Block_NewIterator block) 4 301)
    [OpSeekToFirst; OpNext; OpPrev; OpNext; OpNext; OpSeekToLast; OpPrev; OpSeek [x62]] =
  Ok [Some ([x61], [x32]); Some ([x63], [x34]); Some ([x61], [x32]); Some ([x63], [x34]); None;
      Some ([x63], [x34]); Some ([x61], [x32]); Some ([x63], [x34])].
Proof.
  intros sampler block.
  refine (proj1 (db_iterator_shows_view (RS := sampler)
    (It := @BlockIterator_Iterator (InternalKeyComparator BytewiseComparator))
    [] (Block_NewIterator block) 4 301 demo_entries 6
    [OpSeekToFirst; OpNext; OpPrev; OpNext; OpNext; OpSeekToLast; OpPrev; OpSeek [x62]]
    [Some 0; Some 1; Some 0; Some 1; None; Some 1; Some 0; Some 1]%nat _ _ _ _ _ _)).
  - vm_compute. intuition congruence.
  - repeat apply List.Forall_cons; try apply List.Forall_nil; (split; [|by vm_compute]);
      (split; [vm_compute; intuition congruence|by (left + right)]).
  - by apply ascending_b_ok.
  - apply built_iterates; [lia|by apply ascending_b_ok|by vm_compute].
  - vm_compute. lia.
  - by vm_compute.
Defined.
