(* ===== verification/VersionEdit.v ===== *)
(** * Version edits

    Models [cpp/leveldb/db/version_edit.h] and [cpp/leveldb/db/version_edit.cc]: the
    records of the descriptor log, their encoding and their parser. *)
From S2P Require Import Prelude Coding Logging Comparator Status DbFormat.

(** [enum Tag] *)
Definition kComparator : Z := 1.
Definition kLogNumber : Z := 2.
Definition kNextFileNumber : Z := 3.
Definition kLastSequence : Z := 4.
Definition kCompactPointer : Z := 5.
Definition kDeletedFile : Z := 6.
Definition kNewFile : Z := 7.
Definition kPrevLogNumber : Z := 9.

(** ** The data *)

(** Internal keys are their strings. *)
Record FileMetaData := MkFile {
  refs : Z;
  allowed_seeks : Z;
  number : Z;
  file_size : Z;
  smallest : bytes;
  largest : bytes
}.

(** The constructor leaves [number] unset; every use of the code sets it. *)
Definition NewFileMetaData (number file_size : Z) (smallest largest : bytes) : FileMetaData :=
  MkFile 0 (1 ≪ 30) number file_size smallest largest.

Record VersionEdit := MkEdit {
  comparator_ : bytes;
  log_number_ : Z;
  prev_log_number_ : Z;
  next_file_number_ : Z;
  last_sequence_ : Z;
  has_comparator_ : bool;
  has_log_number_ : bool;
  has_prev_log_number_ : bool;
  has_next_file_number_ : bool;
  has_last_sequence_ : bool;
  compact_pointers_ : list (Z * bytes);
  deleted_files_ : list (Z * Z);
  new_files_ : list (Z * FileMetaData)
}.

(** [compact_pointers_] is not cleared. *)
Definition VersionEdit_Clear (e : VersionEdit) : VersionEdit :=
  MkEdit [] 0 0 0 0 false false false false false (compact_pointers_ e) [] [].

Definition NewVersionEdit : VersionEdit := MkEdit [] 0 0 0 0 false false false false false [] [] [].

Definition SetComparatorName (e : VersionEdit) (name : bytes) : VersionEdit :=
  MkEdit name (log_number_ e) (prev_log_number_ e) (next_file_number_ e) (last_sequence_ e)
    true (has_log_number_ e) (has_prev_log_number_ e) (has_next_file_number_ e) (has_last_sequence_ e)
    (compact_pointers_ e) (deleted_files_ e) (new_files_ e).

Definition SetLogNumber (e : VersionEdit) (num : Z) : VersionEdit :=
  MkEdit (comparator_ e) num (prev_log_number_ e) (next_file_number_ e) (last_sequence_ e)
    (has_comparator_ e) true (has_prev_log_number_ e) (has_next_file_number_ e) (has_last_sequence_ e)
    (compact_pointers_ e) (deleted_files_ e) (new_files_ e).

Definition SetPrevLogNumber (e : VersionEdit) (num : Z) : VersionEdit :=
  MkEdit (comparator_ e) (log_number_ e) num (next_file_number_ e) (last_sequence_ e)
    (has_comparator_ e) (has_log_number_ e) true (has_next_file_number_ e) (has_last_sequence_ e)
    (compact_pointers_ e) (deleted_files_ e) (new_files_ e).

Definition SetNextFile (e : VersionEdit) (num : Z) : VersionEdit :=
  MkEdit (comparator_ e) (log_number_ e) (prev_log_number_ e) num (last_sequence_ e)
    (has_comparator_ e) (has_log_number_ e) (has_prev_log_number_ e) true (has_last_sequence_ e)
    (compact_pointers_ e) (deleted_files_ e) (new_files_ e).

Definition SetLastSequence (e : VersionEdit) (seq : Z) : VersionEdit :=
  MkEdit (comparator_ e) (log_number_ e) (prev_log_number_ e) (next_file_number_ e) seq
    (has_comparator_ e) (has_log_number_ e) (has_prev_log_number_ e) (has_next_file_number_ e) true
    (compact_pointers_ e) (deleted_files_ e) (new_files_ e).

Definition SetCompactPointer (e : VersionEdit) (level : Z) (key : bytes) : VersionEdit :=
  MkEdit (comparator_ e) (log_number_ e) (prev_log_number_ e) (next_file_number_ e) (last_sequence_ e)
    (has_comparator_ e) (has_log_number_ e) (has_prev_log_number_ e) (has_next_file_number_ e)
    (has_last_sequence_ e) (compact_pointers_ e ++ [(level, key)]) (deleted_files_ e) (new_files_ e).

(** The order of [std::pair<int, uint64_t>], and insertion into a [std::set] of them,
    which is iterated over in that order. *)
Definition pair_lt (p q : Z * Z) : bool := (p.1 <? q.1) || ((p.1 =? q.1) && (p.2 <? q.2)).

Fixpoint set_insert (p : Z * Z) (l : list (Z * Z)) : list (Z * Z) :=
  match l with
  | [] => [p]
  | q :: l' => if pair_lt p q then p :: l else if pair_lt q p then q :: set_insert p l' else l
  end.

Definition RemoveFile (e : VersionEdit) (level file : Z) : VersionEdit :=
  MkEdit (comparator_ e) (log_number_ e) (prev_log_number_ e) (next_file_number_ e) (last_sequence_ e)
    (has_comparator_ e) (has_log_number_ e) (has_prev_log_number_ e) (has_next_file_number_ e)
    (has_last_sequence_ e) (compact_pointers_ e) (set_insert (level, file) (deleted_files_ e)) (new_files_ e).

Definition AddFile (e : VersionEdit) (level file file_size : Z) (smallest largest : bytes) : VersionEdit :=
  MkEdit (comparator_ e) (log_number_ e) (prev_log_number_ e) (next_file_number_ e) (last_sequence_ e)
    (has_comparator_ e) (has_log_number_ e) (has_prev_log_number_ e) (has_next_file_number_ e)
    (has_last_sequence_ e) (compact_pointers_ e) (deleted_files_ e)
    (new_files_ e ++ [(level, NewFileMetaData file file_size smallest largest)]).

(** ** Encoding *)

(** A level is an [int], which [PutVarint32] takes as a [uint32_t]. *)
Definition VersionEdit_EncodeTo (e : VersionEdit) (dst : bytes) : bytes :=
  let dst := if has_comparator_ e
    then PutLengthPrefixedSlice (PutVarint32 dst kComparator) (comparator_ e) else dst in
  let dst := if has_log_number_ e
    then PutVarint64 (PutVarint32 dst kLogNumber) (log_number_ e) else dst in
  let dst := if has_prev_log_number_ e
    then PutVarint64 (PutVarint32 dst kPrevLogNumber) (prev_log_number_ e) else dst in
  let dst := if has_next_file_number_ e
    then PutVarint64 (PutVarint32 dst kNextFileNumber) (next_file_number_ e) else dst in
  let dst := if has_last_sequence_ e
    then PutVarint64 (PutVarint32 dst kLastSequence) (last_sequence_ e) else dst in
  let dst := foldl (fun dst '(level, key) =>
    PutLengthPrefixedSlice (PutVarint32 (PutVarint32 dst kCompactPointer) (u32 level)) key)
    dst (compact_pointers_ e) in
  let dst := foldl (fun dst '(level, file) =>
    PutVarint64 (PutVarint32 (PutVarint32 dst kDeletedFile) (u32 level)) file)
    dst (deleted_files_ e) in
  foldl (fun dst '(level, f) =>
    let dst := PutVarint32 (PutVarint32 dst kNewFile) (u32 level) in
    let dst := PutVarint64 (PutVarint64 dst (number f)) (file_size f) in
    PutLengthPrefixedSlice (PutLengthPrefixedSlice dst (smallest f)) (largest f))
    dst (new_files_ e).

(** ** Decoding *)

(** [None] is the result [false]. *)
Definition GetInternalKey (input : bytes) : option (bytes * bytes) :=
  match GetLengthPrefixedSlice input with
  | (input, Some s) => let '(key, ok) := InternalKey_DecodeFrom s in if ok then Some (key, input) else None
  | (_, None) => None
  end.

Definition GetLevel (input : bytes) : option (Z * bytes) :=
  match GetVarint32 input with
  | Some (v, input) => if v <? kNumLevels then Some (v, input) else None
  | None => None
  end.

(** One turn of the [switch]: the edit and the rest of the input, or the message. *)
Definition decode_field (tag : Z) (input : bytes) (e : VersionEdit) : (VersionEdit * bytes) + bytes :=
  let number (set : Z -> VersionEdit) (msg : String.string) :=
    match GetVarint64 input with Some (n, input) => inl (set n, input) | None => inr (str msg) end in
  if tag =? kComparator then
    match GetLengthPrefixedSlice input with
    | (input, Some s) => inl (SetComparatorName e s, input)
    | (_, None) => inr (str "comparator name")
    end
  else if tag =? kLogNumber then number (SetLogNumber e) "log number"%string
  else if tag =? kPrevLogNumber then number (SetPrevLogNumber e) "previous log number"%string
  else if tag =? kNextFileNumber then number (SetNextFile e) "next file number"%string
  else if tag =? kLastSequence then number (SetLastSequence e) "last sequence number"%string
  else if tag =? kCompactPointer then
    match ('(level, input) ← GetLevel input; '(key, input) ← GetInternalKey input;
           Some (SetCompactPointer e level key, input)) with
    | Some r => inl r
    | None => inr (str "compaction pointer")
    end
  else if tag =? kDeletedFile then
    match ('(level, input) ← GetLevel input; '(number, input) ← GetVarint64 input;
           Some (RemoveFile e level number, input)) with
    | Some r => inl r
    | None => inr (str "deleted file")
    end
  else if tag =? kNewFile then
    match ('(level, input) ← GetLevel input; '(number, input) ← GetVarint64 input;
           '(file_size, input) ← GetVarint64 input; '(smallest, input) ← GetInternalKey input;
           '(largest, input) ← GetInternalKey input;
           Some (AddFile e level number file_size smallest largest, input)) with
    | Some r => inl r
    | None => inr (str "new-file entry")
    end
  else inr (str "unknown tag").

(** [while (msg == nullptr && GetVarint32(&input, &tag))], and the tests after it. *)
Fixpoint decode_loop (fuel : nat) (input : bytes) (e : VersionEdit) : res (VersionEdit * Status) :=
  match GetVarint32 input with
  | Some (tag, input) =>
      match fuel with
      | O => OutOfFuel
      | S fuel =>
          match decode_field tag input e with
          | inl (e, input) => decode_loop fuel input e
          | inr msg => Ok (e, Status_Corruption (str "VersionEdit") msg)
          end
      end
  | None =>
      Ok (e, match input with
             | [] => Status_OK
             | _ => Status_Corruption (str "VersionEdit") (str "invalid tag")
             end)
  end.

Definition VersionEdit_DecodeFrom (e : VersionEdit) (src : bytes) : res (VersionEdit * Status) :=
  decode_loop (length src) src (VersionEdit_Clear e).

(** ** Printing *)

Definition newline : bytes := [x0a].

Definition VersionEdit_DebugString (e : VersionEdit) : bytes :=
  let line (has : bool) (label : String.string) (n : Z) :=
    if has then newline ++ str label ++ decimal n else [] in
  str "VersionEdit {" ++
  (if has_comparator_ e then newline ++ str "  Comparator: " ++ comparator_ e else []) ++
  line (has_log_number_ e) "  LogNumber: "%string (log_number_ e) ++
  line (has_prev_log_number_ e) "  PrevLogNumber: "%string (prev_log_number_ e) ++
  line (has_next_file_number_ e) "  NextFile: "%string (next_file_number_ e) ++
  line (has_last_sequence_ e) "  LastSeq: "%string (last_sequence_ e) ++
  concat (map (fun '(level, key) =>
    newline ++ str "  CompactPointer: " ++ decimal (u64 level) ++ str " " ++ InternalKey_DebugString key)
    (compact_pointers_ e)) ++
  concat (map (fun '(level, file) =>
    newline ++ str "  RemoveFile: " ++ decimal (u64 level) ++ str " " ++ decimal file) (deleted_files_ e)) ++
  concat (map (fun '(level, f) =>
    newline ++ str "  AddFile: " ++ decimal (u64 level) ++ str " " ++ decimal (number f) ++ str " " ++
    decimal (file_size f) ++ str " " ++ InternalKey_DebugString (smallest f) ++ str " .. " ++
    InternalKey_DebugString (largest f)) (new_files_ e)) ++
  newline ++ str "}" ++ newline.

(** ** Edits as lists of fields *)

Inductive field :=
| FComparator (name : bytes)
| FLogNumber (n : Z)
| FPrevLogNumber (n : Z)
| FNextFile (n : Z)
| FLastSequence (n : Z)
| FCompactPointer (level : Z) (key : bytes)
| FDeletedFile (level file : Z)
| FNewFile (level file file_size : Z) (smallest largest : bytes).

Definition set_field (e : VersionEdit) (f : field) : VersionEdit :=
  match f with
  | FComparator name => SetComparatorName e name
  | FLogNumber n => SetLogNumber e n
  | FPrevLogNumber n => SetPrevLogNumber e n
  | FNextFile n => SetNextFile e n
  | FLastSequence n => SetLastSequence e n
  | FCompactPointer level key => SetCompactPointer e level key
  | FDeletedFile level file => RemoveFile e level file
  | FNewFile level file file_size smallest largest => AddFile e level file file_size smallest largest
  end.

Definition field_tag (f : field) : Z :=
  match f with
  | FComparator _ => kComparator
  | FLogNumber _ => kLogNumber
  | FPrevLogNumber _ => kPrevLogNumber
  | FNextFile _ => kNextFileNumber
  | FLastSequence _ => kLastSequence
  | FCompactPointer _ _ => kCompactPointer
  | FDeletedFile _ _ => kDeletedFile
  | FNewFile _ _ _ _ _ => kNewFile
  end.

Definition field_body (f : field) : bytes :=
  match f with
  | FComparator name => PutLengthPrefixedSlice [] name
  | FLogNumber n | FPrevLogNumber n | FNextFile n | FLastSequence n => EncodeVarint64 n
  | FCompactPointer level key => EncodeVarint32 (u32 level) ++ PutLengthPrefixedSlice [] key
  | FDeletedFile level file => EncodeVarint32 (u32 level) ++ EncodeVarint64 file
  | FNewFile level file file_size smallest largest =>
      EncodeVarint32 (u32 level) ++ EncodeVarint64 file ++ EncodeVarint64 file_size ++
      PutLengthPrefixedSlice [] smallest ++ PutLengthPrefixedSlice [] largest
  end.

Definition encode_field (f : field) : bytes := EncodeVarint32 (field_tag f) ++ field_body f.

Definition level_ok (level : Z) : Prop := 0 <= level < kNumLevels.
Definition key_ok (key : bytes) : Prop := key <> [] /\ fits 32 (size key).

Definition field_ok (f : field) : Prop :=
  match f with
  | FComparator name => fits 32 (size name)
  | FLogNumber n | FPrevLogNumber n | FNextFile n | FLastSequence n => fits 64 n
  | FCompactPointer level key => level_ok level /\ key_ok key
  | FDeletedFile level file => level_ok level /\ fits 64 file
  | FNewFile level file file_size smallest largest =>
      level_ok level /\ fits 64 file /\ fits 64 file_size /\ key_ok smallest /\ key_ok largest
  end.

(** The fields of an edit, in the order [EncodeTo] writes them. *)
Definition fields (e : VersionEdit) : list field :=
  (if has_comparator_ e then [FComparator (comparator_ e)] else []) ++
  (if has_log_number_ e then [FLogNumber (log_number_ e)] else []) ++
  (if has_prev_log_number_ e then [FPrevLogNumber (prev_log_number_ e)] else []) ++
  (if has_next_file_number_ e then [FNextFile (next_file_number_ e)] else []) ++
  (if has_last_sequence_ e then [FLastSequence (last_sequence_ e)] else []) ++
  map (fun '(level, key) => FCompactPointer level key) (compact_pointers_ e) ++
  map (fun '(level, file) => FDeletedFile level file) (deleted_files_ e) ++
  map (fun '(level, f) => FNewFile level (number f) (file_size f) (smallest f) (largest f)) (new_files_ e).

Definition encode_fields (fs : list field) : bytes := concat (map encode_field fs).

Lemma encode_fields_app fs1 fs2 : encode_fields (fs1 ++ fs2) = encode_fields fs1 ++ encode_fields fs2.
Proof. unfold encode_fields. by rewrite map_app, concat_app. Qed.

Lemma encode_fold {A} (put : bytes -> A -> bytes) (f : A -> field) l dst :
  (forall dst x, put dst x = dst ++ encode_field (f x)) ->
  foldl put dst l = dst ++ encode_fields (map f l).
Proof.
  intros Hp. revert dst. induction l as [|x l IH]; intros dst; simpl.
  - by rewrite app_nil_r.
  - rewrite IH, Hp. unfold encode_fields. simpl. by rewrite <- app_assoc.
Qed.

(** One optional field. *)
Lemma encode_opt (b : bool) x dst f :
  x = dst ++ encode_field f ->
  (if b then x else dst) = dst ++ encode_fields (if b then [f] else []).
Proof. intros ->. destruct b; unfold encode_fields; simpl; by rewrite app_nil_r. Qed.

Ltac put_field :=
  unfold PutVarint64, PutVarint32, encode_field; cbn [field_tag field_body];
  rewrite <- ?app_assoc; reflexivity.

Lemma EncodeTo_fields e dst : VersionEdit_EncodeTo e dst = dst ++ encode_fields (fields e).
Proof.
  unfold VersionEdit_EncodeTo, fields. rewrite !encode_fields_app, !app_assoc. cbv zeta.
  rewrite (encode_opt (has_comparator_ e) _ dst (FComparator (comparator_ e)))
    by (rewrite PutLengthPrefixedSlice_app; put_field).
  rewrite (encode_opt (has_log_number_ e) _ _ (FLogNumber (log_number_ e))) by put_field.
  rewrite (encode_opt (has_prev_log_number_ e) _ _ (FPrevLogNumber (prev_log_number_ e))) by put_field.
  rewrite (encode_opt (has_next_file_number_ e) _ _ (FNextFile (next_file_number_ e))) by put_field.
  rewrite (encode_opt (has_last_sequence_ e) _ _ (FLastSequence (last_sequence_ e))) by put_field.
  rewrite (encode_fold _ (fun '(level, f) => FNewFile level (number f) (file_size f) (smallest f) (largest f))).
  2: { intros d [level f]. rewrite (PutLengthPrefixedSlice_app (PutLengthPrefixedSlice _ _)).
       rewrite PutLengthPrefixedSlice_app. put_field. }
  rewrite (encode_fold _ (fun '(level, file) => FDeletedFile level file)) by (intros d [level f]; put_field).
  rewrite (encode_fold _ (fun '(level, key) => FCompactPointer level key)); [done|].
  intros d [level f]. rewrite PutLengthPrefixedSlice_app. put_field.
Qed.

(** ** Decoding what was encoded *)

Lemma GetLevel_encode level rest : level_ok level -> GetLevel (EncodeVarint32 (u32 level) ++ rest) = Some (level, rest).
Proof.
  unfold level_ok, kNumLevels. intros Hl. unfold GetLevel. rewrite wrap_id by (unfold fits; lia).
  rewrite GetVarint32_encode by (unfold fits; lia). unfold kNumLevels. by zcase; [|lia].
Qed.

Lemma GetInternalKey_encode key rest :
  key_ok key -> GetInternalKey (PutLengthPrefixedSlice [] key ++ rest) = Some (key, rest).
Proof.
  intros [Hne Hf]. unfold GetInternalKey. rewrite GetLengthPrefixedSlice_encode by done.
  unfold InternalKey_DecodeFrom. destruct key; done.
Qed.

Lemma GetVarint32_tag f rest :
  GetVarint32 (encode_field f ++ rest) = Some (field_tag f, field_body f ++ rest).
Proof.
  unfold encode_field. rewrite <- app_assoc. apply GetVarint32_encode. by destruct f; vm_compute.
Qed.

Lemma decode_field_encode f rest e :
  field_ok f -> decode_field (field_tag f) (field_body f ++ rest) e = inl (set_field e f, rest).
Proof.
  intros Hok.
  destruct f as [name|n|n|n|n|level key|level file|level file file_size smallest largest];
    cbn [field_ok] in Hok; unfold decode_field; cbn [field_body field_tag];
    repeat match goal with |- context [(?a =? ?b)] => 
      let r := eval vm_compute in (a =? b) in change (a =? b) with r; cbv iota end.
  - by rewrite GetLengthPrefixedSlice_encode.
  - by rewrite GetVarint64_encode.
  - by rewrite GetVarint64_encode.
  - by rewrite GetVarint64_encode.
  - by rewrite GetVarint64_encode.
  - destruct Hok as [Hl Hk]. rewrite <- app_assoc, GetLevel_encode by done. cbn [mbind option_bind].
    by rewrite GetInternalKey_encode.
  - destruct Hok as [Hl Hk]. rewrite <- app_assoc, GetLevel_encode by done. cbn [mbind option_bind].
    by rewrite GetVarint64_encode.
  - destruct Hok as (Hl & H1 & H2 & H3 & H4). rewrite <- !app_assoc, GetLevel_encode by done.
    cbn [mbind option_bind]. rewrite GetVarint64_encode by done. cbn [mbind option_bind].
    rewrite GetVarint64_encode by done. cbn [mbind option_bind].
    rewrite GetInternalKey_encode by done. cbn [mbind option_bind].
    by rewrite GetInternalKey_encode.
Qed.

Lemma length_encode_field f : (1 <= length (encode_field f))%nat.
Proof.
  assert (1 <= length (EncodeVarint32 (field_tag f)))%nat by (apply Nat.leb_le; by destruct f).
  unfold encode_field. rewrite length_app. lia.
Qed.

Lemma decode_fields fs e fuel :
  Forall field_ok fs -> (length fs <= fuel)%nat ->
  decode_loop fuel (encode_fields fs) e = Ok (foldl set_field e fs, Status_OK).
Proof.
  intros Hok. revert e fuel. induction Hok as [|f fs Hf Hok IH]; intros e fuel Hfuel; [by destruct fuel|].
  unfold encode_fields. cbn [map concat]. fold (encode_fields fs).
  destruct fuel as [|fuel]; [simpl in Hfuel; lia|]. cbn [decode_loop].
  rewrite GetVarint32_tag, decode_field_encode by done. apply IH. simpl in Hfuel. lia.
Qed.

Lemma length_encode_fields fs : (length fs <= length (encode_fields fs))%nat.
Proof.
  induction fs as [|f fs IH]; [done|]. unfold encode_fields in *. simpl. rewrite length_app.
  pose proof (length_encode_field f). lia.
Qed.

(** ** Well-formed edits *)

Definition file_ok (f : FileMetaData) : Prop :=
  refs f = 0 /\ allowed_seeks f = 1 ≪ 30 /\ fits 64 (number f) /\ fits 64 (file_size f) /\
  key_ok (smallest f) /\ key_ok (largest f).

(** What the setters make: unset fields as [Clear] leaves them, the set of deleted
    files in order. *)
Record edit_ok (e : VersionEdit) : Prop := {
  ok_comparator : if has_comparator_ e then fits 32 (size (comparator_ e)) else comparator_ e = [];
  ok_log_number : if has_log_number_ e then fits 64 (log_number_ e) else log_number_ e = 0;
  ok_prev_log_number : if has_prev_log_number_ e then fits 64 (prev_log_number_ e) else prev_log_number_ e = 0;
  ok_next_file : if has_next_file_number_ e then fits 64 (next_file_number_ e) else next_file_number_ e = 0;
  ok_last_sequence : if has_last_sequence_ e then fits 64 (last_sequence_ e) else last_sequence_ e = 0;
  ok_compact_pointers : Forall (fun p => level_ok p.1 /\ key_ok p.2) (compact_pointers_ e);
  ok_deleted_files : Forall (fun p => level_ok p.1 /\ fits 64 p.2) (deleted_files_ e);
  ok_deleted_order : forall i p q, deleted_files_ e !! i = Some p -> deleted_files_ e !! S i = Some q ->
    pair_lt p q = true;
  ok_new_files : Forall (fun p => level_ok p.1 /\ file_ok p.2) (new_files_ e)
}.

Lemma opt_field_ok (b : bool) f (P : Prop) :
  (if b then field_ok f else P) -> Forall field_ok (if b then [f] else []).
Proof. destruct b; intros Hf; repeat constructor. done. Qed.

Lemma fields_ok e : edit_ok e -> Forall field_ok (fields e).
Proof.
  intros [H1 H2 H3 H4 H5 H6 H7 _ H9]. unfold fields. rewrite !list.Forall_app. split_and!.
  - by eapply opt_field_ok.
  - by eapply opt_field_ok.
  - by eapply opt_field_ok.
  - by eapply opt_field_ok.
  - by eapply opt_field_ok.
  - apply List.Forall_map. eapply List.Forall_impl; [|exact H6]. by intros [l k].
  - apply List.Forall_map. eapply List.Forall_impl; [|exact H7]. by intros [l k].
  - apply List.Forall_map. eapply List.Forall_impl; [|exact H9]. intros [l f] [Hl (? & ? & ? & ? & ? & ?)]. done.
Qed.

Lemma pair_lt_trans p q r : pair_lt p q = true -> pair_lt q r = true -> pair_lt p r = true.
Proof. unfold pair_lt. destruct p, q, r. simpl. lia. Qed.

Lemma pair_lt_asym p q : pair_lt p q = true -> pair_lt q p = false.
Proof. unfold pair_lt. destruct p, q. simpl. lia. Qed.

(** Inserting past the end of an ordered list. *)
Lemma set_insert_last l p :
  (forall q, q ∈ l -> pair_lt q p = true) -> set_insert p l = l ++ [p].
Proof.
  induction l as [|q l IH]; intros Hl; [done|]. simpl. pose proof (Hl q ltac:(by left)) as Hq.
  rewrite (pair_lt_asym _ _ Hq), Hq. f_equal. apply IH. intros x Hx. apply Hl. by right.
Qed.

Lemma ordered_below l p :
  (forall i a b, (l ++ [p]) !! i = Some a -> (l ++ [p]) !! S i = Some b -> pair_lt a b = true) ->
  forall q, q ∈ l -> pair_lt q p = true.
Proof.
  induction l as [|x l IH]; intros Ho q Hq; [by apply elem_of_nil in Hq|].
  assert (Hl : forall q, q ∈ l -> pair_lt q p = true) by (apply IH; intros i a b Ha Hb; by apply (Ho (S i))).
  apply elem_of_cons in Hq as [->|Hq]; [|by apply Hl].
  destruct l as [|y l]; [by apply (Ho 0%nat)|].
  apply (pair_lt_trans _ y); [by apply (Ho 0%nat)|]. apply Hl. by left.
Qed.

Lemma set_fields_app e fs1 fs2 : foldl set_field e (fs1 ++ fs2) = foldl set_field (foldl set_field e fs1) fs2.
Proof. apply foldl_app. Qed.

(** Setting the three kinds of lists on an edit without them. *)
Lemma set_compact_pointers e l :
  foldl set_field e (map (fun '(level, key) => FCompactPointer level key) l) =
  MkEdit (comparator_ e) (log_number_ e) (prev_log_number_ e) (next_file_number_ e) (last_sequence_ e)
    (has_comparator_ e) (has_log_number_ e) (has_prev_log_number_ e) (has_next_file_number_ e)
    (has_last_sequence_ e) (compact_pointers_ e ++ l) (deleted_files_ e) (new_files_ e).
Proof.
  revert e. induction l as [|[level key] l IH]; intros e; simpl.
  - rewrite app_nil_r. by destruct e.
  - rewrite IH. cbn. by rewrite <- app_assoc.
Qed.

Lemma set_deleted_files e l :
  (forall i p q, (deleted_files_ e ++ l) !! i = Some p -> (deleted_files_ e ++ l) !! S i = Some q ->
     pair_lt p q = true) ->
  foldl set_field e (map (fun '(level, file) => FDeletedFile level file) l) =
  MkEdit (comparator_ e) (log_number_ e) (prev_log_number_ e) (next_file_number_ e) (last_sequence_ e)
    (has_comparator_ e) (has_log_number_ e) (has_prev_log_number_ e) (has_next_file_number_ e)
    (has_last_sequence_ e) (compact_pointers_ e) (deleted_files_ e ++ l) (new_files_ e).
Proof.
  revert e. induction l as [|[level file] l IH]; intros e Ho; simpl.
  - rewrite app_nil_r. by destruct e.
  - assert (Hins : set_insert (level, file) (deleted_files_ e) = deleted_files_ e ++ [(level, file)]).
    { apply set_insert_last, ordered_below. intros i a b Ha Hb. apply (Ho i).
      - rewrite cons_middle, app_assoc. rewrite lookup_app_l; [done|]. by eapply lookup_lt_Some.
      - rewrite cons_middle, app_assoc. rewrite lookup_app_l; [done|]. by eapply lookup_lt_Some. }
    unfold RemoveFile at 1. rewrite Hins, IH; cbn; by rewrite <- app_assoc.
Qed.

Lemma set_new_files e l :
  Forall (fun p => level_ok p.1 /\ file_ok p.2) l ->
  foldl set_field e (map (fun '(level, f) =>
    FNewFile level (number f) (file_size f) (smallest f) (largest f)) l) =
  MkEdit (comparator_ e) (log_number_ e) (prev_log_number_ e) (next_file_number_ e) (last_sequence_ e)
    (has_comparator_ e) (has_log_number_ e) (has_prev_log_number_ e) (has_next_file_number_ e)
    (has_last_sequence_ e) (compact_pointers_ e) (deleted_files_ e) (new_files_ e ++ l).
Proof.
  intros Hok. revert e. induction Hok as [|[level f] l [_ Hf] Hok IH]; intros e; simpl.
  - rewrite app_nil_r. by destruct e.
  - rewrite IH. cbn. rewrite <- app_assoc. simpl. destruct f as [r a n z sm la].
    destruct Hf as (Hr & Ha & _). cbn in Hr, Ha. by subst.
Qed.

Lemma fields_set e :
  edit_ok e -> foldl set_field NewVersionEdit (fields e) = e.
Proof.
  intros Hok. unfold fields. rewrite !set_fields_app.
  rewrite set_new_files by apply Hok.
  rewrite set_deleted_files; rewrite set_compact_pointers; cbn [deleted_files_ new_files_ compact_pointers_
    comparator_ log_number_ prev_log_number_ next_file_number_ last_sequence_ has_comparator_ has_log_number_
    has_prev_log_number_ has_next_file_number_ has_last_sequence_].
  - destruct Hok as [H1 H2 H3 H4 H5 _ _ _ _]. destruct e as [c l p n s hc hl hp hn hs cp df nf]. cbn in *.
    destruct hc, hl, hp, hn, hs; by subst.
  - intros i p q. replace (deleted_files_ (foldl _ _ _)) with (@nil (Z * Z)); [by apply Hok|].
    by destruct (has_comparator_ e), (has_log_number_ e), (has_prev_log_number_ e), (has_next_file_number_ e),
      (has_last_sequence_ e).
Qed.

(** Decoding what was encoded, after anything else in the buffer. *)
Lemma edit_decodes e old :
  edit_ok e -> compact_pointers_ old = [] ->
  VersionEdit_DecodeFrom old (encode_fields (fields e)) = Ok (e, Status_OK).
Proof.
  intros Hok Hold. unfold VersionEdit_DecodeFrom, VersionEdit_Clear. rewrite Hold. fold NewVersionEdit.
  rewrite decode_fields by (auto using fields_ok, length_encode_fields). by rewrite fields_set.
Qed.

(** ** Properties *)

(** C29. Descriptor records round-trip: an edit made with the setters (levels below
    [kNumLevels], 64-bit numbers, non-empty keys) decodes, from the bytes [EncodeTo]
    appends for it, into the same edit with status OK, whatever edit was there
    before, as long as that had no compaction pointers. *)
Theorem version_edit_roundtrip e old :
  edit_ok e -> compact_pointers_ old = [] ->
  VersionEdit_DecodeFrom old (VersionEdit_EncodeTo e []) = Ok (e, Status_OK).
Proof.
  intros Hok Hold. rewrite EncodeTo_fields. by apply edit_decodes.
Qed.

Definition demo_edit : VersionEdit :=
  AddFile (RemoveFile (RemoveFile (SetCompactPointer (SetLastSequence (SetComparatorName NewVersionEdit
    (str "leveldb.BytewiseComparator")) 300) 2 (InternalKey (str "k") 7 1)) 3 9) 1 2000)
    0 12 4096 (InternalKey (str "a") 5 1) (InternalKey (str "z") 6 0).

Lemma version_edit_roundtrip_witness :
  deleted_files_ demo_edit = [(1, 2000); (3, 9)] /\
  VersionEdit_DecodeFrom NewVersionEdit (VersionEdit_EncodeTo demo_edit []) = Ok (demo_edit, Status_OK).
Proof.
  split; [by vm_compute|]. apply (version_edit_roundtrip demo_edit NewVersionEdit); [|done].
  split; try done; try (repeat (apply List.Forall_cons || apply List.Forall_nil); vm_compute; intuition congruence).
  intros [|[|i]] p q Hp Hq; [|done..]. injection Hp as <-. injection Hq as <-. by vm_compute.
Defined.

(** ** Decoding anything *)

(** What the parser promises of every entry it accepts. *)
Definition entries_ok (e : VersionEdit) : Prop :=
  Forall (fun p => level_ok p.1 /\ p.2 <> []) (compact_pointers_ e) /\
  Forall (fun p => level_ok p.1) (deleted_files_ e) /\
  Forall (fun p => level_ok p.1 /\ smallest p.2 <> [] /\ largest p.2 <> []) (new_files_ e).

Lemma GetVarint64_shorter p v q : GetVarint64 p = Some (v, q) -> (length q <= length p)%nat.
Proof.
  intros H. apply (GetVarint_loop_sound 64 9 0) in H; [|lia..|unfold fits; lia].
  destruct H as (_ & used & -> & _). rewrite length_app. lia.
Qed.

Lemma GetVarint32_smaller p v q : GetVarint32 p = Some (v, q) -> (length q < length p)%nat /\ 0 <= v.
Proof.
  intros H. apply GetVarint32_sound in H as (Hf & used & -> & Hu). unfold fits, size in *.
  rewrite length_app. lia.
Qed.

Lemma GetLengthPrefixedSlice_smaller p q s :
  GetLengthPrefixedSlice p = (q, s) -> (length q <= length p)%nat.
Proof.
  unfold GetLengthPrefixedSlice. destruct (GetVarint32 p) as [[len p']|] eqn:E; [|intros [= <- <-]; lia].
  apply GetVarint32_smaller in E as [E _].
  destruct (_ >=? _); intros [= <- <-]; [rewrite length_drop|]; lia.
Qed.

Lemma GetLevel_sound p v q : GetLevel p = Some (v, q) -> level_ok v /\ (length q <= length p)%nat.
Proof.
  unfold GetLevel. destruct (GetVarint32 p) as [[n p']|] eqn:E; [|done]. zcase; [|done]. intros [= <- <-].
  apply GetVarint32_smaller in E. unfold level_ok. lia.
Qed.

Lemma GetInternalKey_sound p k q : GetInternalKey p = Some (k, q) -> k <> [] /\ (length q <= length p)%nat.
Proof.
  unfold GetInternalKey. destruct (GetLengthPrefixedSlice p) as [p' [s|]] eqn:E; [|done].
  apply GetLengthPrefixedSlice_smaller in E. unfold InternalKey_DecodeFrom.
  destruct s as [|c s]; [done|]. by intros [= <- <-].
Qed.

Lemma set_insert_Forall (P : Z * Z -> Prop) p l : P p -> Forall P l -> Forall P (set_insert p l).
Proof.
  intros Hp Hl. induction Hl as [|q l Hq Hl IH]; simpl; [by constructor|].
  destruct (pair_lt p q); [by repeat constructor|]. destruct (pair_lt q p); by constructor.
Qed.

Lemma decode_number_sound (set : Z -> VersionEdit) msg input e' input' :
  (forall n, entries_ok (set n)) ->
  match GetVarint64 input with Some (n, input) => inl (set n, input) | None => inr msg end
    = @inl _ bytes (e', input') ->
  entries_ok e' /\ (length input' <= length input)%nat.
Proof.
  intros Hset. destruct (GetVarint64 input) as [[n p]|] eqn:E; [|done]. intros [= <- <-].
  split; [done|]. by apply GetVarint64_shorter in E.
Qed.

Lemma Forall_snoc {A} (P : A -> Prop) l x : Forall P l -> P x -> Forall P (l ++ [x]).
Proof. intros Hl Hx. apply list.Forall_app. by repeat constructor. Qed.

Lemma decode_field_sound tag input e e' input' :
  entries_ok e -> decode_field tag input e = inl (e', input') ->
  entries_ok e' /\ (length input' <= length input)%nat.
Proof.
  intros He. pose proof He as (H1 & H2 & H3). unfold decode_field.
  destruct (tag =? kComparator).
  { destruct (GetLengthPrefixedSlice input) as [p [s|]] eqn:E; [|done]. intros [= <- <-].
    split; [done|]. by apply GetLengthPrefixedSlice_smaller in E. }
  destruct (tag =? kLogNumber); [by apply decode_number_sound|].
  destruct (tag =? kPrevLogNumber); [by apply decode_number_sound|].
  destruct (tag =? kNextFileNumber); [by apply decode_number_sound|].
  destruct (tag =? kLastSequence); [by apply decode_number_sound|].
  destruct (tag =? kCompactPointer).
  { destruct (GetLevel input) as [[level p]|] eqn:E1; [|done]. cbn [mbind option_bind].
    destruct (GetInternalKey p) as [[key p2]|] eqn:E2; [|done]. cbn [mbind option_bind]. intros [= <- <-].
    apply GetLevel_sound in E1 as [L1 L2]. apply GetInternalKey_sound in E2 as [K1 K2].
    split; [|lia]. split; [by apply Forall_snoc|done]. }
  destruct (tag =? kDeletedFile).
  { destruct (GetLevel input) as [[level p]|] eqn:E1; [|done]. cbn [mbind option_bind].
    destruct (GetVarint64 p) as [[n p2]|] eqn:E2; [|done]. cbn [mbind option_bind]. intros [= <- <-].
    apply GetLevel_sound in E1 as [L1 L2]. apply GetVarint64_shorter in E2.
    split; [|lia]. split; [done|]. split; [|done]. by apply set_insert_Forall. }
  destruct (tag =? kNewFile); [|done].
  destruct (GetLevel input) as [[level p]|] eqn:E1; [|done]. cbn [mbind option_bind].
  destruct (GetVarint64 p) as [[n p2]|] eqn:E2; [|done]. cbn [mbind option_bind].
  destruct (GetVarint64 p2) as [[n2 p3]|] eqn:E3; [|done]. cbn [mbind option_bind].
  destruct (GetInternalKey p3) as [[k1 p4]|] eqn:E4; [|done]. cbn [mbind option_bind].
  destruct (GetInternalKey p4) as [[k2 p5]|] eqn:E5; [|done]. cbn [mbind option_bind]. intros [= <- <-].
  apply GetLevel_sound in E1 as [L1 L2]. apply GetVarint64_shorter in E2, E3.
  apply GetInternalKey_sound in E4 as [K1 K2]. apply GetInternalKey_sound in E5 as [K3 K4].
  split; [|lia]. split; [done|]. split; [done|]. by apply Forall_snoc.
Qed.

Lemma decode_loop_total fuel input e :
  entries_ok e -> (length input <= fuel)%nat ->
  exists e' s, decode_loop fuel input e = Ok (e', s) /\ entries_ok e'.
Proof.
  revert input e. induction fuel as [|fuel IH]; intros input e He Hf; cbn [decode_loop].
  - destruct input; [|simpl in Hf; lia]. by exists e, Status_OK.
  - destruct (GetVarint32 input) as [[tag p]|] eqn:E; [|by do 2 eexists].
    apply GetVarint32_smaller in E as [E _].
    destruct (decode_field tag p e) as [[e' p']|msg] eqn:Ed; [|by do 2 eexists].
    apply decode_field_sound in Ed as [He' Hp]; [|done]. apply IH; [done|lia].
Qed.

(** Descriptor records of any bytes are parsed or refused: [DecodeFrom] ends
    whatever the bytes are, and every file, deletion and compaction pointer it has
    accepted by then has a level below [kNumLevels] and internal keys that are not
    empty, so that later indexing by level is in range. *)
Lemma version_edit_decode_total old src :
  compact_pointers_ old = [] ->
  exists e s, VersionEdit_DecodeFrom old src = Ok (e, s) /\ entries_ok e.
Proof.
  intros Hold. unfold VersionEdit_DecodeFrom. apply decode_loop_total; [|done].
  unfold entries_ok, VersionEdit_Clear. cbn. rewrite Hold. repeat split; constructor.
Qed.

Lemma version_edit_decode_total_witness :
  exists e s, VersionEdit_DecodeFrom NewVersionEdit (str "any bytes at all") = Ok (e, s) /\ entries_ok e.
Proof. apply (version_edit_decode_total NewVersionEdit (str "any bytes at all")). done. Defined.

(** [Clear], and so [DecodeFrom], keeps the compaction pointers of the edit. *)
Lemma Clear_keeps_compact_pointers :
  compact_pointers_ (VersionEdit_Clear (SetCompactPointer NewVersionEdit 1 (str "k"))) = [(1, str "k")].
Proof. done. Qed.
