(* ===== verification/FileSearch.v ===== *)
(** * Searching lists of table files

    Models the functions of [cpp/leveldb/db/version_set.cc] on a list of files:
    [FindFile], [SomeFileOverlapsRange] and [LevelFileNumIterator].  A file is its
    metadata; its internal keys are strings. *)
From S2P Require Import Prelude Coding Comparator Status DbFormat Cursor Block Merger VersionEdit.

Section search.
Context `{C : Comparator}.
Abbreviation icmp := (Internal_Compare C).

(** The binary search; [left] and [right] are 32-bit. *)
Fixpoint FindFile_loop (fuel : nat) (files : list FileMetaData) (key : bytes) (left right : Z) : res Z :=
  match fuel with
  | O => OutOfFuel
  | S fuel =>
      if left <? right then
        let mid := u32 (left + right) / 2 in
        match files !! Z.to_nat mid with
        | None => Undefined
        | Some f =>
            if icmp (largest f) key <? 0 then FindFile_loop fuel files key (u32 (mid + 1)) right
            else FindFile_loop fuel files key left mid
        end
      else Ok right
  end.

Definition FindFile (files : list FileMetaData) (key : bytes) : res Z :=
  FindFile_loop (S (length files)) files key 0 (u32 (Z.of_nat (length files))).

(** [None] is the null pointer. *)
Definition AfterFile (user_key : option bytes) (f : FileMetaData) : bool :=
  match user_key with
  | Some u => cmp_Compare u (ExtractUserKey (largest f)) >? 0
  | None => false
  end.

Definition BeforeFile (user_key : option bytes) (f : FileMetaData) : bool :=
  match user_key with
  | Some u => cmp_Compare u (ExtractUserKey (smallest f)) <? 0
  | None => false
  end.

Definition SomeFileOverlapsRange (disjoint_sorted_files : bool) (files : list FileMetaData)
    (smallest_user_key largest_user_key : option bytes) : res bool :=
  if negb disjoint_sorted_files then
    Ok (existsb (fun f => negb (AfterFile smallest_user_key f || BeforeFile largest_user_key f)) files)
  else
    let? index :=
      match smallest_user_key with
      | Some u => FindFile files (InternalKey u kMaxSequenceNumber kValueTypeForSeek)
      | None => Ok 0
      end in
    if index >=? Z.of_nat (length files) then Ok false
    else
      match files !! Z.to_nat index with
      | Some f => Ok (negb (BeforeFile largest_user_key f))
      | None => Undefined
      end.

(** ** The iterator over the files of a level *)

Record LevelFileNumIterator := MkLevelFiles { flist_ : list FileMetaData; index_ : Z }.

Definition NewLevelFileNumIterator (flist : list FileMetaData) : LevelFileNumIterator :=
  MkLevelFiles flist (u32 (Z.of_nat (length flist))).

Definition num_files (i : LevelFileNumIterator) : Z := Z.of_nat (length (flist_ i)).
Definition set_index (i : LevelFileNumIterator) (index : Z) : LevelFileNumIterator := MkLevelFiles (flist_ i) index.

(** The file number and size as 16 bytes. *)
Definition file_value (f : FileMetaData) : bytes := EncodeFixed64 (number f) ++ EncodeFixed64 (file_size f).

#[export] Instance LevelFile_Iterator : Iterator LevelFileNumIterator := {|
  it_Valid i := index_ i <? num_files i;
  it_Seek i target := let? index := FindFile (flist_ i) target in Ok (set_index i index);
  it_SeekToFirst i := Ok (set_index i 0);
  it_SeekToLast i := Ok (set_index i (match flist_ i with [] => 0 | _ => u32 (num_files i - 1) end));
  it_Next i := Ok (set_index i (u32 (index_ i + 1)));
  it_Prev i := Ok (set_index i (if index_ i =? 0 then u32 (num_files i) else index_ i - 1));
  it_key i := match flist_ i !! Z.to_nat (index_ i) with Some f => largest f | None => [] end;
  it_value i :=
    match flist_ i !! Z.to_nat (index_ i) with Some f => Ok (file_value f) | None => Undefined end;
  it_status i := Status_OK
|}.
End search.

(** ** Sorted files *)

Section proofs.
Context `{C : Comparator} `{!ComparatorLaws C}.
Abbreviation icmp := (Internal_Compare C).

(** The pairs the iterator shows. *)
Definition level_entries (files : list FileMetaData) : list (bytes * bytes) :=
  map (fun f => (largest f, file_value f)) files.

(** Files in order, none overlapping the next. *)
Record disjoint_files (files : list FileMetaData) : Prop := {
  df_range f : f ∈ files -> icmp (smallest f) (largest f) <= 0;
  df_order i j f g : (i < j)%nat -> files !! i = Some f -> files !! j = Some g -> icmp (largest f) (smallest g) < 0
}.

Lemma icmp_lt_le_trans a b c : icmp a b < 0 -> icmp b c <= 0 -> icmp a c < 0.
Proof. apply (cmp_lt_le_trans (C := InternalKeyComparator C)). Qed.

Lemma icmp_le_lt_trans a b c : icmp a b <= 0 -> icmp b c < 0 -> icmp a c < 0.
Proof. apply (cmp_le_lt_trans (C := InternalKeyComparator C)). Qed.

Lemma icmp_trans a b c : icmp a b <= 0 -> icmp b c <= 0 -> icmp a c <= 0.
Proof. apply (@cmp_trans (InternalKeyComparator C) _). Qed.

Lemma icmp_sym_le a b : icmp a b <= 0 <-> icmp b a >= 0.
Proof. apply (cmp_sym_le (C := InternalKeyComparator C)). Qed.

Lemma icmp_sym_lt a b : icmp a b < 0 <-> icmp b a > 0.
Proof. apply (cmp_sym_lt (C := InternalKeyComparator C)). Qed.

Lemma icmp_refl a : icmp a a = 0.
Proof. apply (@cmp_refl (InternalKeyComparator C) _). Qed.

Definition largest_ascend (files : list FileMetaData) : Prop :=
  forall i j f g, (i < j)%nat -> files !! i = Some f -> files !! j = Some g -> icmp (largest f) (largest g) < 0.

Lemma disjoint_largest files : disjoint_files files -> largest_ascend files.
Proof.
  intros [Hr Ho] i j f g Hij Hf Hg. apply (icmp_lt_le_trans _ (smallest g)); [by apply (Ho i j)|].
  apply Hr. by apply (list_elem_of_lookup_2 _ j).
Qed.

Lemma entries_ascending files :
  largest_ascend files -> @ascending (InternalKeyComparator C) (level_entries files).
Proof.
  intros Ha i j p q Hij Hp Hq. unfold level_entries in *. rewrite list_lookup_fmap in Hp, Hq.
  destruct (files !! i) as [f|] eqn:Ef; [|done]. destruct (files !! j) as [g|] eqn:Eg; [|done].
  injection Hp as <-. injection Hq as <-. by apply (Ha i j).
Qed.

(** The loop closes in on the first file at or after the key. *)
Lemma FindFile_loop_ok fuel files key : forall left right,
  largest_ascend files -> Z.of_nat (length files) < 2 ^ 31 ->
  0 <= left <= right -> right <= Z.of_nat (length files) -> (Z.to_nat (right - left) < fuel)%nat ->
  (forall i f, Z.of_nat i < left -> files !! i = Some f -> icmp (largest f) key < 0) ->
  (forall i f, right <= Z.of_nat i -> files !! i = Some f -> 0 <= icmp (largest f) key) ->
  exists n, FindFile_loop fuel files key left right = Ok (Z.of_nat n) /\ (n <= length files)%nat /\
    (forall i f, (i < n)%nat -> files !! i = Some f -> icmp (largest f) key < 0) /\
    (forall i f, (n <= i)%nat -> files !! i = Some f -> 0 <= icmp (largest f) key).
Proof.
  induction fuel as [|fuel IH]; intros left right Ha Hlen Hlr Hr Hfuel Hlo Hhi; [lia|]. cbn [FindFile_loop].
  destruct (Z.ltb_spec left right) as [Hlt|Hge].
  2: { exists (Z.to_nat right). rewrite Z2Nat.id by lia. split; [done|]. split; [lia|].
       split; intros i f Hi; [apply Hlo|apply Hhi]; lia. }
  rewrite (wrap_id 32 (left + right)) by (unfold fits; lia).
  assert (Hmid : left <= (left + right) / 2 < right) by (split; [apply Z.div_le_lower_bound|apply Z.div_lt_upper_bound]; lia).
  set (mid := (left + right) / 2) in *.
  destruct (lookup_lt_is_Some_2 files (Z.to_nat mid) ltac:(lia)) as [f Hf]. rewrite Hf.
  destruct (Z.ltb_spec (icmp (largest f) key) 0) as [Hk|Hk].
  - rewrite wrap_id by (unfold fits; lia). apply IH; try done; try lia. intros i g Hi Hg.
    destruct (decide (i = Z.to_nat mid)) as [->|Hne]; [rewrite Hf in Hg; by injection Hg as <-|].
    apply (icmp_lt_le_trans _ (largest f)); [apply (Ha i (Z.to_nat mid)); (done || lia)|lia].
  - apply IH; try done; try lia. intros i g Hi Hg.
    destruct (decide (i = Z.to_nat mid)) as [->|Hne]; [rewrite Hf in Hg; injection Hg as <-; lia|].
    pose proof (Ha (Z.to_nat mid) i f g ltac:(lia) Hf Hg) as Hfg. destruct (Z.lt_ge_cases (icmp (largest g) key) 0) as [Hlt'|]; [|done].
    pose proof (icmp_lt_le_trans _ _ _ Hfg ltac:(apply Z.lt_le_incl, Hlt')). lia.
Qed.

Lemma FindFile_ok files key :
  largest_ascend files -> Z.of_nat (length files) < 2 ^ 31 ->
  exists n, FindFile files key = Ok (Z.of_nat n) /\ (n <= length files)%nat /\
    (forall i f, (i < n)%nat -> files !! i = Some f -> icmp (largest f) key < 0) /\
    (forall i f, (n <= i)%nat -> files !! i = Some f -> 0 <= icmp (largest f) key).
Proof.
  intros Ha Hlen. unfold FindFile. rewrite wrap_id by (unfold fits; lia).
  apply FindFile_loop_ok; try done; try lia.
  intros i f Hi Hf. apply lookup_lt_Some in Hf. lia.
Qed.

(** A position in the list, as the iterator counts it. *)
Definition position (files : list FileMetaData) (c : cursor) : nat :=
  match c with Some i => i | None => length files end.

Lemma find_ge_position files key n :
  (n <= length files)%nat ->
  (forall i f, (i < n)%nat -> files !! i = Some f -> icmp (largest f) key < 0) ->
  (forall i f, (n <= i)%nat -> files !! i = Some f -> 0 <= icmp (largest f) key) ->
  n = position files (@find_ge (InternalKeyComparator C) key (level_entries files)).
Proof.
  intros Hn Hlo Hhi. pose proof (@find_ge_spec (InternalKeyComparator C) key (level_entries files)) as Hs.
  unfold level_entries in *. destruct (find_ge key _) as [i|]; cbn [position].
  - destruct Hs as [(p & Hp & Hge) Hall]. rewrite list_lookup_fmap in Hp.
    destruct (files !! i) as [f|] eqn:Ef; [|done]. injection Hp as <-. cbn in Hge.
    destruct (Nat.lt_trichotomy n i) as [Hlt|[->|Hlt]]; [|done|].
    + destruct (lookup_lt_is_Some_2 files n ltac:(apply lookup_lt_Some in Ef; lia)) as [g Hg].
      specialize (Hall n _ Hlt ltac:(by rewrite list_lookup_fmap, Hg)). cbn in Hall.
      specialize (Hhi n g ltac:(lia) Hg). lia.
    + specialize (Hlo i f Hlt Ef). lia.
  - destruct (Nat.lt_ge_cases n (length files)) as [Hlt|]; [|lia].
    destruct (lookup_lt_is_Some_2 files n Hlt) as [g Hg].
    specialize (Hs n _ ltac:(by rewrite list_lookup_fmap, Hg)). cbn in Hs. specialize (Hhi n g ltac:(lia) Hg). lia.
Qed.

(** *** Overlap *)

Definition keys_parse (files : list FileMetaData) : Prop :=
  forall f, f ∈ files -> is_Some (ParseInternalKey (smallest f)) /\ is_Some (ParseInternalKey (largest f)).

Lemma parsed_tag k : is_Some (ParseInternalKey k) -> key_tag k <= PackSequenceAndType kMaxSequenceNumber kValueTypeForSeek.
Proof.
  intros [p [E [[Hs1 Hs2] Ht]]%ParseInternalKey_Some]. pose proof (type_ok_range _ Ht). rewrite max_tag.
  rewrite E, key_tag_InternalKey by (done || lia). unfold kMaxSequenceNumber in Hs2. rewrite Z.shiftl_1_l in Hs2. lia.
Qed.

(** The seek key of a user key is before exactly the parsed keys at or after it. *)
Lemma below_seek_key k u :
  is_Some (ParseInternalKey k) ->
  icmp k (InternalKey u kMaxSequenceNumber kValueTypeForSeek) < 0 <-> cmp_Compare (ExtractUserKey k) u < 0.
Proof.
  intros Hk. apply parsed_tag in Hk. rewrite InternalKey_app, Internal_Compare_lt, ExtractUserKey_app.
  rewrite key_tag_app by (apply Pack_fits; [unfold seq_ok, kMaxSequenceNumber; rewrite Z.shiftl_1_l|unfold kValueTypeForSeek, kTypeValue]; lia).
  split; [|by left]. intros [|[_ Hlt]]; [done|]. lia.
Qed.

Lemma user_key_mono a b : icmp a b < 0 -> cmp_Compare (ExtractUserKey a) (ExtractUserKey b) <= 0.
Proof. intros [Hlt|[He _]]%Internal_Compare_lt; lia. Qed.

Definition in_range (lo hi : option bytes) (f : FileMetaData) : Prop :=
  AfterFile lo f = false /\ BeforeFile hi f = false.

Lemma in_range_b lo hi f : negb (AfterFile lo f || BeforeFile hi f) = true <-> in_range lo hi f.
Proof. unfold in_range. destruct (AfterFile lo f), (BeforeFile hi f); cbn; split; (done || by intros []). Qed.

(** The file the binary search stops at decides. *)
Lemma search_overlap files lo hi n :
  disjoint_files files -> keys_parse files -> (n <= length files)%nat ->
  (forall i f, (i < n)%nat -> files !! i = Some f -> AfterFile lo f = true) ->
  (forall i f, (n <= i)%nat -> files !! i = Some f -> AfterFile lo f = false) ->
  existsb (fun f => negb (AfterFile lo f || BeforeFile hi f)) files =
    match files !! n with Some f => negb (BeforeFile hi f) | None => false end.
Proof.
  intros [Hr Ho] Hp Hn Hlo Hhi. destruct (files !! n) as [f|] eqn:Ef.
  - pose proof (Hhi n f ltac:(lia) Ef) as Hf. destruct (BeforeFile hi f) eqn:Eb; cbn.
    + apply not_true_iff_false. intros (g & Hg & Hov)%existsb_exists. apply in_range_b in Hov as [Ha Hb].
      apply list_elem_of_In, list_elem_of_lookup in Hg as [j Hj].
      destruct (Nat.lt_trichotomy j n) as [Hjn|[->|Hnj]].
      * specialize (Hlo j g Hjn Hj). congruence.
      * rewrite Ef in Hj. injection Hj as ->. congruence.
      * unfold BeforeFile in Eb, Hb. destruct hi as [u|]; [|done]. apply Z.ltb_lt in Eb. apply Z.ltb_ge in Hb.
        assert (Hsg : icmp (smallest f) (smallest g) < 0).
        { apply (icmp_le_lt_trans _ (largest f)); [apply Hr, (list_elem_of_lookup_2 _ n), Ef|by apply (Ho n j)]. }
        apply user_key_mono in Hsg. pose proof (cmp_lt_le_trans u _ _ Eb Hsg). lia.
    + apply existsb_exists. exists f. split; [by apply list_elem_of_In, (list_elem_of_lookup_2 _ n)|].
      by apply in_range_b.
  - apply not_true_iff_false. intros (g & Hg & Hov)%existsb_exists. apply in_range_b in Hov as [Ha _].
    apply list_elem_of_In, list_elem_of_lookup in Hg as [j Hj]. apply lookup_ge_None in Ef.
    pose proof (lookup_lt_Some _ _ _ Hj). specialize (Hlo j g ltac:(lia) Hj). congruence.
Qed.

Lemma SomeFileOverlapsRange_ok disjoint files lo hi :
  (disjoint = true -> disjoint_files files /\ keys_parse files) -> Z.of_nat (length files) < 2 ^ 31 ->
  SomeFileOverlapsRange disjoint files lo hi =
    Ok (existsb (fun f => negb (AfterFile lo f || BeforeFile hi f)) files).
Proof.
  intros Hd Hlen. unfold SomeFileOverlapsRange. destruct disjoint; cbn [negb]; [|done]. destruct Hd as [Hd Hp]; [done|].
  assert (Hn : exists n, (n <= length files)%nat /\
    match lo with
    | Some u => FindFile files (InternalKey u kMaxSequenceNumber kValueTypeForSeek)
    | None => Ok 0
    end = Ok (Z.of_nat n) /\
    (forall i f, (i < n)%nat -> files !! i = Some f -> AfterFile lo f = true) /\
    (forall i f, (n <= i)%nat -> files !! i = Some f -> AfterFile lo f = false)).
  { destruct lo as [u|]; [|exists O; split_and!; [lia|done|lia|done]].
    destruct (FindFile_ok files (InternalKey u kMaxSequenceNumber kValueTypeForSeek) (disjoint_largest _ Hd) Hlen)
      as (n & E & Hn & Hlo & Hhi).
    assert (Hiff : forall i f, files !! i = Some f -> AfterFile (Some u) f = true <->
        icmp (largest f) (InternalKey u kMaxSequenceNumber kValueTypeForSeek) < 0).
    { intros i f Hf. rewrite below_seek_key by (apply Hp, (list_elem_of_lookup_2 _ i), Hf).
      unfold AfterFile. rewrite cmp_sym_lt. destruct (Z.gtb_spec (cmp_Compare u (ExtractUserKey (largest f))) 0); split; (done || lia). }
    exists n. split_and!; [done|done|..].
    - intros i f Hi Hf. apply (Hiff i f Hf). by apply (Hlo i).
    - intros i f Hi Hf. apply not_true_iff_false. intros Hx. apply (Hiff i f Hf) in Hx. specialize (Hhi i f Hi Hf). lia. }
  destruct Hn as (n & Hn & -> & Hlo & Hhi). cbn [res_bind]. rewrite Nat2Z.id.
  rewrite (search_overlap files lo hi n Hd Hp Hn Hlo Hhi). destruct (files !! n) as [f|] eqn:Ef.
  - apply lookup_lt_Some in Ef. destruct (Z.geb_spec (Z.of_nat n) (Z.of_nat (length files))); [lia|done].
  - apply lookup_ge_None in Ef. destruct (Z.geb_spec (Z.of_nat n) (Z.of_nat (length files))); [done|lia].
Qed.

(** *** The iterator *)

Lemma level_entries_length files : length (level_entries files) = length files.
Proof. apply length_map. Qed.

Definition stands (files : list FileMetaData) (it : LevelFileNumIterator) (c : cursor) : Prop :=
  flist_ it = files /\ index_ it = Z.of_nat (position files c) /\ (forall i, c = Some i -> (i < length files)%nat).

Lemma stands_simulates files :
  largest_ascend files -> Z.of_nat (length files) < 2 ^ 31 ->
  @simulates (InternalKeyComparator C) _ LevelFile_Iterator (stands files) (level_entries files).
Proof.
  intros Ha Hlen it c (Hl & Hi & Hc). destruct it as [fl index]. cbn in Hl, Hi. subst fl index.
  assert (Hget : forall i, c = Some i -> exists f, files !! i = Some f /\ level_entries files !! i = Some (largest f, file_value f)).
  { intros i Hs. destruct (lookup_lt_is_Some_2 files i (Hc i Hs)) as [f Hf]. exists f. split; [done|].
    unfold level_entries. by rewrite list_lookup_fmap, Hf. }
  split_and!.
  - unfold it_reads. cbn. unfold num_files. cbn. destruct c as [i|]; cbn [position at_cursor mbind option_bind].
    + specialize (Hc i eq_refl). destruct (Z.ltb_spec (Z.of_nat i) (Z.of_nat (length files))); [|lia].
      destruct (Hget i eq_refl) as (f & Hf & ->). rewrite Nat2Z.id, Hf. done.
    + by rewrite Z.ltb_irrefl.
  - destruct c as [i|]; cbn; [|split; by intros []]. split; [|by eauto]. intros _.
    destruct (Hget i eq_refl) as (f & _ & ->). by eauto.
  - done.
  - intros op c' Hstep. assert (Hok : forall idx, (exists k, c' = k /\ idx = Z.of_nat (position files k) /\
        (forall i, k = Some i -> (i < length files)%nat)) -> stands files (MkLevelFiles files idx) c').
    { intros idx (k & -> & -> & Hk). by split_and!. }
    destruct op as [| |target| |]; cbn -[FindFile Nat.ltb] in Hstep |- *; unfold num_files, set_index; cbn -[FindFile Nat.ltb].
    + injection Hstep as <-. eexists. split; [done|]. apply Hok. eexists. split; [done|].
      destruct files; cbn; split; (done || by intros i [= <-]; lia).
    + injection Hstep as <-. eexists. split; [done|]. apply Hok. eexists. split; [done|].
      rewrite level_entries_length. destruct files as [|f files]; [done|].
      assert (Hw : u32 (Z.of_nat (length (f :: files)) - 1) = Z.of_nat (length files)).
      { cbn [length] in *. rewrite wrap_id; unfold fits; lia. }
      rewrite Hw. cbn. split; [done|]. intros i [= <-]. lia.
    + injection Hstep as <-. destruct (FindFile_ok files target Ha Hlen) as (n & -> & Hn & Hlo & Hhi). cbn [res_bind].
      eexists. split; [done|]. apply Hok. eexists. split; [done|].
      rewrite (find_ge_position files target n Hn Hlo Hhi). split; [done|]. intros i Hfi.
      pose proof (@find_ge_spec (InternalKeyComparator C) target (level_entries files)) as Hs. rewrite Hfi in Hs.
      destruct Hs as [(p & Hp & _) _]. apply lookup_lt_Some in Hp. by rewrite level_entries_length in Hp.
    + destruct c as [i|]; [|done]. cbn -[Nat.ltb] in Hstep. rewrite level_entries_length in Hstep.
      injection Hstep as <-. eexists. split; [done|]. apply Hok. eexists. split; [done|]. specialize (Hc i eq_refl). cbn [position].
      rewrite wrap_id by (unfold fits; lia). destruct (Nat.ltb_spec (S i) (length files)); cbn; split; try lia; try done.
      by intros j [= <-].
    + destruct c as [i|]; [|done]. cbn in Hstep. injection Hstep as <-. specialize (Hc i eq_refl). cbn [position].
      eexists. split; [done|]. apply Hok. eexists. split; [done|].
      destruct i as [|i]; cbn [position Z.of_nat Z.eqb].
      * rewrite wrap_id by (unfold fits; lia). done.
      * destruct (Z.eqb_spec (Z.of_nat (S i)) 0); [lia|]. split; [lia|]. intros j [= <-]. lia.
Qed.

Lemma NewLevelFileNumIterator_iterates files :
  largest_ascend files -> Z.of_nat (length files) < 2 ^ 31 ->
  @iterates_at (InternalKeyComparator C) _ LevelFile_Iterator (NewLevelFileNumIterator files) (level_entries files) None.
Proof.
  intros Ha Hlen. exists (stands files). split; [by apply stands_simulates|].
  unfold NewLevelFileNumIterator. rewrite wrap_id by (unfold fits; lia). by split_and!.
Qed.
End proofs.

(** ** Properties *)

Lemma existsb_overlap `{C : Comparator} files lo hi :
  existsb (fun f => negb (AfterFile lo f || BeforeFile hi f)) files = true <-> exists f, f ∈ files /\ in_range lo hi f.
Proof.
  rewrite existsb_exists. split; intros (f & Hin & Hf); exists f; (split; [by apply list_elem_of_In|by apply in_range_b]).
Qed.

(** The binary search for an overlapping file is exact: on files that are in order
    and disjoint it answers as the scan over all files does, that is, [true] exactly
    when some file has user keys in the closed range, with either end of the range
    possibly missing; it ends and never reads outside the list. *)
Lemma overlap_search_exact `{C : Comparator} `{!ComparatorLaws C} (files : list FileMetaData) (lo hi : option bytes) :
  disjoint_files files -> keys_parse files -> Z.of_nat (length files) < 2 ^ 31 ->
  exists b, SomeFileOverlapsRange true files lo hi = Ok b /\ SomeFileOverlapsRange false files lo hi = Ok b /\
    (b = true <-> exists f, f ∈ files /\ in_range lo hi f).
Proof.
  intros Hd Hp Hlen. eexists. rewrite !SomeFileOverlapsRange_ok by done. split; [done|]. split; [done|].
  apply existsb_overlap.
Qed.

Definition example_file (n : Z) (a b : String.string) : FileMetaData :=
  NewFileMetaData n 1000 (InternalKey (str a) 9 kTypeValue) (InternalKey (str b) 5 kTypeValue).

Lemma overlap_search_exact_witness :
  let files := [example_file 4 "b" "d"; example_file 5 "f" "k"] in
  exists b, SomeFileOverlapsRange (C := BytewiseComparator) true files (Some (str "e")) (Some (str "f")) = Ok b /\
    SomeFileOverlapsRange (C := BytewiseComparator) false files (Some (str "e")) (Some (str "f")) = Ok b /\
    (b = true <-> exists f, f ∈ files /\ in_range (C := BytewiseComparator) (Some (str "e")) (Some (str "f")) f).
Proof.
  apply (overlap_search_exact (C := BytewiseComparator)).
  - split.
    + intros f. rewrite !elem_of_cons. intros [->|[->|[]%elem_of_nil]]; by vm_compute.
    + intros [|[|i]] [|[|j]] f g Hij Hf Hg; try (cbn in Hf, Hg; done || lia).
      injection Hf as <-. injection Hg as <-. by vm_compute.
  - intros f. rewrite !elem_of_cons. intros [->|[->|[]%elem_of_nil]]; split; vm_compute; by eexists.
  - by vm_compute.
Defined.
