(* ===== verification/Version.v ===== *)
(** * Versions

    Models the class [Version] of [cpp/leveldb/db/version_set.h] and
    [cpp/leveldb/db/version_set.cc]: the table files of the seven levels, looking up a
    key in them from newest to oldest, choosing the files that overlap a range, and the
    statistics that start compactions.  Tables are reached through the interface
    [TableCache].

    The counter [allowed_seeks] of a file object is shared by the versions the object is
    in: it is kept in a map by level and file number, which name the object, next to the
    versions.  Reference counts only decide when memory is released and are left out. *)
From Stdlib Require Import Floats.SpecFloat.
From stdpp Require Import gmap sorting.
From S2P Require Import Prelude Coding Logging Comparator Status DbFormat Cursor Block Merger VersionEdit FileSearch.

(** ** The interface of the table cache *)

(** [Get] looks a key up in one file and hands at most one pair to its callback; the
    pair is part of the result here. *)
Class TableCache (T : Type) := {
  tc_Get : T -> Z -> Z -> bytes -> res (T * Status * option (bytes * bytes))
}.

(** ** Data *)

(** [double]: the binary64 values of the specification of floating point. *)
Definition double := spec_float.
Definition double_of_Z (z : Z) : double := binary_normalize 53 1024 z 0 false.
Definition double_div : double -> double -> double := SFdiv 53 1024.
Definition double_mul : double -> double -> double := SFmul 53 1024.

(** [files_] has one list per level.  The links between versions and their reference
    counts belong to the version set. *)
Record Version := MkVersion {
  files_ : list (list FileMetaData);
  file_to_compact_ : option FileMetaData;
  file_to_compact_level_ : Z;
  compaction_score_ : double;
  compaction_level_ : Z
}.

Definition num_levels : nat := Z.to_nat kNumLevels.

Definition NewVersion : Version :=
  MkVersion (replicate num_levels []) None (-1) (double_of_Z (-1)) (-1).

Definition files_at (v : Version) (level : nat) : list FileMetaData := nth level (files_ v) [].

Definition NumFiles (v : Version) (level : nat) : Z := int32 (Z.of_nat (length (files_at v level))).

Record GetStats := MkStats { seek_file : option FileMetaData; seek_file_level : Z }.

(** [allowed_seeks] by level and file number; a file that is not in the map has the value
    it was created with. *)
Definition Seeks := gmap (Z * Z) Z.
Definition seeks_of (m : Seeks) (level : Z) (f : FileMetaData) : Z := default (allowed_seeks f) (m !! (level, number f)).

(** ** Sizes *)

(** [max_file_size] of the options. *)
Definition TargetFileSize (max_file_size : Z) : Z := max_file_size.
Definition MaxGrandParentOverlapBytes (max_file_size : Z) : Z := int64 (u64 (10 * TargetFileSize max_file_size)).
Definition ExpandedCompactionByteSizeLimit (max_file_size : Z) : Z := int64 (u64 (25 * TargetFileSize max_file_size)).
Definition MaxFileSizeForLevel (max_file_size : Z) (level : nat) : Z := TargetFileSize max_file_size.

(** The [while] loop runs [level - 1] times. *)
Definition MaxBytesForLevel (level : nat) : double :=
  Nat.iter (level - 1) (fun result => double_mul result (double_of_Z 10)) (double_mul (double_of_Z 10) (double_of_Z 1048576)).

Definition TotalFileSize (files : list FileMetaData) : Z :=
  foldl (fun sum f => int64 (u64 (sum + file_size f))) 0 files.

Section version.
Context `{C : Comparator}.
Abbreviation icmp := (Internal_Compare C).

(** ** Lookups *)

Inductive SaverState := kNotFound | kFound | kDeleted | kCorrupt.

(** [sv_value] is [None] until [*value] is assigned. *)
Record Saver := MkSaver { sv_state : SaverState; sv_user_key : bytes; sv_value : option bytes }.

Definition SaveValue (s : Saver) (ikey v : bytes) : Saver :=
  match ParseInternalKey ikey with
  | None => MkSaver kCorrupt (sv_user_key s) (sv_value s)
  | Some parsed_key =>
      if cmp_Compare (user_key parsed_key) (sv_user_key s) =? 0 then
        if type parsed_key =? kTypeValue then MkSaver kFound (sv_user_key s) (Some v)
        else MkSaver kDeleted (sv_user_key s) (sv_value s)
      else s
  end.

(** As a total order; [std::sort] takes its strict part. *)
Definition NewestFirst (a b : FileMetaData) : Prop := number b <= number a.

#[export] Instance NewestFirst_dec : RelDecision NewestFirst.
Proof. unfold NewestFirst. intros a b. apply _. Defined.

(** [std::sort] by [NewestFirst]: file numbers are distinct, so its result is the sorted
    list whatever the algorithm. *)
Definition sort_newest_first (files : list FileMetaData) : list FileMetaData :=
  merge_sort NewestFirst files.

(** Calls [func] on the files in order until it returns [false]. *)
Fixpoint call_each {A} (func : A -> nat -> FileMetaData -> res (A * bool)) (a : A) (fs : list (nat * FileMetaData))
    : res (A * bool) :=
  match fs with
  | [] => Ok (a, true)
  | (level, f) :: fs =>
      let? r := func a level f in
      let '(a, more) := r in
      if more then call_each func a fs else Ok (a, false)
  end.

(** The loop over the levels above zero, from [level]. *)
Fixpoint search_levels {A} (func : A -> nat -> FileMetaData -> res (A * bool)) (a : A)
    (user_key internal_key : bytes) (level : nat) (levels : list (list FileMetaData)) : res A :=
  match levels with
  | [] => Ok a
  | files :: levels =>
      let next a := search_levels func a user_key internal_key (S level) levels in
      match files with
      | [] => next a
      | _ =>
          let? index := FindFile files internal_key in
          if index <? Z.of_nat (length files) then
            match files !! Z.to_nat index with
            | None => Undefined
            | Some f =>
                if cmp_Compare user_key (ExtractUserKey (smallest f)) <? 0 then next a
                else
                  let? r := func a level f in
                  let '(a, more) := r in
                  if more then next a else Ok a
            end
          else next a
      end
  end.

Definition ForEachOverlapping {A} (v : Version) (user_key internal_key : bytes)
    (func : A -> nat -> FileMetaData -> res (A * bool)) (a : A) : res A :=
  let tmp := filter (fun f =>
      cmp_Compare user_key (ExtractUserKey (smallest f)) >= 0 /\
      cmp_Compare user_key (ExtractUserKey (largest f)) <= 0) (files_at v 0) in
  let? r := call_each func a (map (pair O) (sort_newest_first tmp)) in
  let '(a, more) := r in
  if more then search_levels func a user_key internal_key 1 (drop 1 (files_ v)) else Ok a.

Section get.
Context {T : Type} `{TC : TableCache T}.

(** [struct State] of [Get], with the table cache threaded through. *)
Record GetState := MkGetState {
  gs_cache : T;
  gs_saver : Saver;
  gs_stats : GetStats;
  gs_ikey : bytes;
  last_file_read : option FileMetaData;
  last_file_read_level : Z;
  gs_s : Status;
  gs_found : bool
}.

(** [State::Match] *)
Definition Get_Match (state : GetState) (level : nat) (f : FileMetaData) : res (GetState * bool) :=
  let stats :=
    match seek_file (gs_stats state), last_file_read state with
    | None, Some g => MkStats (Some g) (last_file_read_level state)
    | _, _ => gs_stats state
    end in
  let? r := tc_Get (gs_cache state) (number f) (file_size f) (gs_ikey state) in
  let '(cache, s, handed) := r in
  let saver := match handed with Some (k, v) => SaveValue (gs_saver state) k v | None => gs_saver state end in
  let result s found more :=
    Ok (MkGetState cache saver stats (gs_ikey state) (Some f) (Z.of_nat level) s found, more) in
  if negb (Status_ok s) then result s true false
  else
    match sv_state saver with
    | kNotFound => result s (gs_found state) true
    | kFound => result s true false
    | kDeleted => result s (gs_found state) false
    | kCorrupt => result (Status_Corruption (str "corrupted key for ") (sv_user_key saver)) true false
    end.

(** The status, the value if one was stored, and the statistics. *)
Definition Version_Get (v : Version) (cache : T) (k : LookupKey) : res (T * Status * option bytes * GetStats) :=
  let state := MkGetState cache (MkSaver kNotFound (lookup_user_key k) None) (MkStats None (-1)) (internal_key k)
    None (-1) Status_OK false in
  let? state := ForEachOverlapping v (lookup_user_key k) (internal_key k) Get_Match state in
  Ok (gs_cache state, (if gs_found state then gs_s state else Status_NotFound [] []), sv_value (gs_saver state),
      gs_stats state).
End get.

(** ** Statistics *)

Definition UpdateStats (m : Seeks) (v : Version) (stats : GetStats) : Seeks * Version * bool :=
  match seek_file stats with
  | None => (m, v, false)
  | Some f =>
      let n := int32 (seeks_of m (seek_file_level stats) f - 1) in
      let m := <[(seek_file_level stats, number f) := n]> m in
      if (n <=? 0) && bool_decide (file_to_compact_ v = None) then
        (m, MkVersion (files_ v) (Some f) (seek_file_level stats) (compaction_score_ v) (compaction_level_ v), true)
      else (m, v, false)
  end.

(** [State::Match] of [RecordReadSample]: the statistics and the number of matches. *)
Definition Sample_Match (state : GetStats * Z) (level : nat) (f : FileMetaData) : res ((GetStats * Z) * bool) :=
  let '(stats, matches) := state in
  let matches := matches + 1 in
  let stats := if matches =? 1 then MkStats (Some f) (Z.of_nat level) else stats in
  Ok ((stats, matches), matches <? 2).

Definition Version_RecordReadSample (m : Seeks) (v : Version) (internal_key : bytes) : res (Seeks * Version * bool) :=
  match ParseInternalKey internal_key with
  | None => Ok (m, v, false)
  | Some ikey =>
      let? r := ForEachOverlapping v (user_key ikey) internal_key Sample_Match (MkStats None (-1), 0) in
      let '(stats, matches) := r in
      if matches >=? 2 then Ok (UpdateStats m v stats) else Ok (m, v, false)
  end.

(** ** Overlapping files *)

Definition OverlapInLevel (v : Version) (level : nat) (smallest_user_key largest_user_key : option bytes) : res bool :=
  SomeFileOverlapsRange (0 <? level)%nat (files_at v level) smallest_user_key largest_user_key.

(** One pass of the loop of [GetOverlappingInputs] over the files; [inr] when the range
    has grown and the loop starts again. *)
Fixpoint overlap_pass (level0 : bool) (user_begin user_end : option bytes) (inputs files : list FileMetaData)
    : list FileMetaData + (option bytes * option bytes) :=
  match files with
  | [] => inl inputs
  | f :: files =>
      let file_start := ExtractUserKey (smallest f) in
      let file_limit := ExtractUserKey (largest f) in
      let next inputs := overlap_pass level0 user_begin user_end inputs files in
      if match user_begin with Some b => cmp_Compare file_limit b <? 0 | None => false end then next inputs
      else if match user_end with Some e => cmp_Compare file_start e >? 0 | None => false end then next inputs
      else if level0 then
        if match user_begin with Some b => cmp_Compare file_start b <? 0 | None => false end
        then inr (Some file_start, user_end)
        else if match user_end with Some e => cmp_Compare file_limit e >? 0 | None => false end
        then inr (user_begin, Some file_limit)
        else next (inputs ++ [f])
      else next (inputs ++ [f])
  end.

Fixpoint overlap_loop (fuel : nat) (level0 : bool) (files : list FileMetaData) (user_begin user_end : option bytes)
    : res (list FileMetaData) :=
  match fuel with
  | O => OutOfFuel
  | S fuel =>
      match overlap_pass level0 user_begin user_end [] files with
      | inl inputs => Ok inputs
      | inr (user_begin, user_end) => overlap_loop fuel level0 files user_begin user_end
      end
  end.

(** Every restart takes a new start or limit of a file. *)
Definition GetOverlappingInputs (v : Version) (level : nat) (begin end_ : option bytes) : res (list FileMetaData) :=
  let files := files_at v level in
  overlap_loop (S (2 * length files)) (level =? 0)%nat files (ExtractUserKey <$> begin) (ExtractUserKey <$> end_).

(** The [while] loop, from [level]; [fuel] is the number of levels left. *)
Fixpoint pick_level (fuel : nat) (v : Version) (max_file_size : Z) (smallest_user_key largest_user_key : bytes)
    (level : nat) : res nat :=
  match fuel with
  | O => Ok level
  | S fuel =>
      let? overlap := OverlapInLevel v (S level) (Some smallest_user_key) (Some largest_user_key) in
      if overlap then Ok level
      else if (level + 2 <? num_levels)%nat then
        let? overlaps := GetOverlappingInputs v (level + 2)
          (Some (InternalKey smallest_user_key kMaxSequenceNumber kValueTypeForSeek))
          (Some (InternalKey largest_user_key 0 0)) in
        if TotalFileSize overlaps >? MaxGrandParentOverlapBytes max_file_size then Ok level
        else pick_level fuel v max_file_size smallest_user_key largest_user_key (S level)
      else pick_level fuel v max_file_size smallest_user_key largest_user_key (S level)
  end.

Definition PickLevelForMemTableOutput (v : Version) (max_file_size : Z) (smallest_user_key largest_user_key : bytes)
    : res nat :=
  let? overlap := OverlapInLevel v 0 (Some smallest_user_key) (Some largest_user_key) in
  if negb overlap
  then pick_level (Z.to_nat kMaxMemCompactLevel) v max_file_size smallest_user_key largest_user_key 0
  else Ok O.
End version.

Definition file_DebugString (f : FileMetaData) : bytes :=
  str " " ++ decimal (number f) ++ str ":" ++ decimal (file_size f) ++ str "["
    ++ InternalKey_DebugString (smallest f) ++ str " .. " ++ InternalKey_DebugString (largest f) ++ str "]" ++ newline.

Definition Version_DebugString (v : Version) : bytes :=
  concat (imap (fun level files =>
    str "--- level " ++ decimal (Z.of_nat level) ++ str " ---" ++ newline ++ concat (map file_DebugString files))
    (files_ v)).

(** ** What a lookup finds *)

Section lookup.
Context `{C : Comparator} `{!ComparatorLaws C} `{!ComparatorExact C}.
Abbreviation icmp := (Internal_Compare C).
Abbreviation user_of := ExtractUserKey.

(** The pairs of each file. *)
Context (contents : FileMetaData -> list (bytes * bytes)).

(** The metadata fits the pairs. *)
Record file_holds (f : FileMetaData) : Prop := {
  fh_ascending : @ascending (InternalKeyComparator C) (contents f);
  fh_parse x : x ∈ contents f -> is_Some (ParseInternalKey x.1);
  fh_smallest : exists x, x ∈ contents f /\ x.1 = smallest f;
  fh_largest : exists x, x ∈ contents f /\ x.1 = largest f;
  fh_range x : x ∈ contents f -> icmp (smallest f) x.1 <= 0 /\ icmp x.1 (largest f) <= 0
}.

(** Levels above zero are in order and disjoint; for one user key, entries in a higher
    level, and in level zero those in older files, come after the others in internal
    order, so they are older. *)
Record version_holds (v : Version) : Prop := {
  vh_levels : length (files_ v) = num_levels;
  vh_file level f : f ∈ files_at v level -> file_holds f;
  vh_disjoint level : (0 < level)%nat -> disjoint_files (files_at v level);
  vh_length level : Z.of_nat (length (files_at v level)) < 2 ^ 31;
  vh_numbers : NoDup (number <$> files_at v 0);
  vh_newer level level' f g x y : (level < level')%nat -> f ∈ files_at v level -> g ∈ files_at v level' ->
    x ∈ contents f -> y ∈ contents g -> user_of x.1 = user_of y.1 -> icmp x.1 y.1 < 0;
  vh_newer0 f g x y : number g < number f -> f ∈ files_at v 0 -> g ∈ files_at v 0 ->
    x ∈ contents f -> y ∈ contents g -> user_of x.1 = user_of y.1 -> icmp x.1 y.1 < 0
}.

(** An entry of the user key of [ik] that a lookup of [ik] may see. *)
Definition visible (ik : bytes) (f : FileMetaData) (x : bytes * bytes) : Prop :=
  x ∈ contents f /\ user_of x.1 = user_of ik /\ icmp ik x.1 <= 0.

(** *** The files that are searched *)

Definition level_candidate (user_key ik : bytes) (level : nat) (files : list FileMetaData) : list (nat * FileMetaData) :=
  match List.find (fun f => icmp (largest f) ik >=? 0) files with
  | Some f => if cmp_Compare user_key (user_of (smallest f)) <? 0 then [] else [(level, f)]
  | None => []
  end.

Fixpoint level_candidates (user_key ik : bytes) (level : nat) (levels : list (list FileMetaData)) : list (nat * FileMetaData) :=
  match levels with
  | [] => []
  | files :: levels => level_candidate user_key ik level files ++ level_candidates user_key ik (S level) levels
  end.

Definition candidates0 (v : Version) (user_key : bytes) : list FileMetaData :=
  sort_newest_first (filter (fun f =>
      cmp_Compare user_key (user_of (smallest f)) >= 0 /\ cmp_Compare user_key (user_of (largest f)) <= 0) (files_at v 0)).

Definition candidates (v : Version) (user_key ik : bytes) : list (nat * FileMetaData) :=
  map (pair O) (candidates0 v user_key) ++ level_candidates user_key ik 1 (drop 1 (files_ v)).

Lemma call_each_app {A} (func : A -> nat -> FileMetaData -> res (A * bool)) fs gs : forall a,
  call_each func a (fs ++ gs) =
    let? r := call_each func a fs in if r.2 then call_each func r.1 gs else Ok r.
Proof.
  induction fs as [|[level f] fs IH]; intros a; cbn [call_each app]; [cbn; by destruct (call_each func a gs)|].
  destruct (func a level f) as [[a' more]| |]; cbn [res_bind]; [|done|done]. by destruct more; [apply IH|].
Qed.

Lemma find_at (P : FileMetaData -> bool) files n :
  (n <= length files)%nat -> (forall i f, (i < n)%nat -> files !! i = Some f -> P f = false) ->
  (forall f, files !! n = Some f -> P f = true) -> List.find P files = files !! n.
Proof.
  revert n. induction files as [|f files IH]; intros n Hn Hlo Hhi; [done|]. cbn [List.find].
  destruct n as [|n]; [by rewrite (Hhi f eq_refl)|]. rewrite (Hlo O f ltac:(lia) eq_refl). cbn in Hn.
  apply (IH n); [lia| |exact Hhi]. intros i g Hi Hg. apply (Hlo (S i)); [lia|done].
Qed.

Lemma search_levels_eq {A} (func : A -> nat -> FileMetaData -> res (A * bool)) user_key ik levels : forall level a,
  (forall files, files ∈ levels -> disjoint_files files /\ Z.of_nat (length files) < 2 ^ 31) ->
  search_levels func a user_key ik level levels =
    let? r := call_each func a (level_candidates user_key ik level levels) in Ok r.1.
Proof.
  induction levels as [|files levels IH]; intros level a Hl; [done|]. cbn [search_levels level_candidates].
  destruct (Hl files ltac:(by left)) as [Hd Hlen].
  assert (IH' : forall a, search_levels func a user_key ik (S level) levels =
    let? r := call_each func a (level_candidates user_key ik (S level) levels) in Ok r.1).
  { intros a'. apply IH. intros fs Hfs. apply Hl. by right. }
  destruct (FindFile_ok files ik (disjoint_largest _ Hd) Hlen) as (n & En & Hn & Hlo & Hhi).
  assert (Hf : List.find (fun f => icmp (largest f) ik >=? 0) files = files !! n).
  { apply find_at; [done| |].
    - intros i f Hi Hf. specialize (Hlo i f Hi Hf). destruct (Z.geb_spec (icmp (largest f) ik) 0); [lia|done].
    - intros f Hf. specialize (Hhi n f ltac:(lia) Hf). destruct (Z.geb_spec (icmp (largest f) ik) 0); [done|lia]. }
  unfold level_candidate. rewrite Hf, En. cbn [res_bind]. rewrite Nat2Z.id.
  destruct files as [|f0 files0] eqn:Efs; [by rewrite lookup_nil; cbn [app]|]. rewrite <- Efs in *.
  destruct (files !! n) as [f|] eqn:Ef.
  - apply lookup_lt_Some in Ef. destruct (Z.ltb_spec (Z.of_nat n) (Z.of_nat (length files))); [|lia].
    destruct (cmp_Compare user_key (user_of (smallest f)) <? 0); cbn [app]; [done|]. cbn [call_each].
    destruct (func a level f) as [[a' more]| |]; cbn [res_bind]; [|done|done]. destruct more; [apply IH'|done].
  - apply lookup_ge_None in Ef. destruct (Z.ltb_spec (Z.of_nat n) (Z.of_nat (length files))); [lia|]. cbn [app]. apply IH'.
Qed.

Lemma files_at_drop v level files :
  drop 1 (files_ v) !! level = Some files -> files_at v (S level) = files.
Proof. rewrite lookup_drop. intros H. unfold files_at. by apply nth_lookup_Some. Qed.

Lemma ForEachOverlapping_eq {A} v user_key ik (func : A -> nat -> FileMetaData -> res (A * bool)) a :
  version_holds v ->
  ForEachOverlapping v user_key ik func a = let? r := call_each func a (candidates v user_key ik) in Ok r.1.
Proof.
  intros Hv. unfold ForEachOverlapping, candidates. rewrite call_each_app. fold (candidates0 v user_key).
  destruct (call_each func a (map (pair O) (candidates0 v user_key))) as [[a' more]| |]; cbn [res_bind fst snd]; [|done|done].
  destruct more; [|done]. apply search_levels_eq. intros files (level & Hl)%list_elem_of_lookup.
  apply files_at_drop in Hl as <-. split; [apply (vh_disjoint _ Hv); lia|apply (vh_length _ Hv)].
Qed.

(** *** Every visible entry is in a candidate, or after one that is *)

#[local] Instance NewestFirst_trans : Transitive NewestFirst.
Proof. intros a b c. unfold NewestFirst. lia. Qed.

#[local] Instance NewestFirst_total : Total NewestFirst.
Proof. intros a b. unfold NewestFirst. lia. Qed.

Lemma candidates0_elem v u f :
  f ∈ candidates0 v u <-> f ∈ files_at v 0 /\
    cmp_Compare u (user_of (smallest f)) >= 0 /\ cmp_Compare u (user_of (largest f)) <= 0.
Proof.
  unfold candidates0, sort_newest_first. rewrite merge_sort_Permutation, list_elem_of_filter. tauto.
Qed.

Lemma level_candidate_elem u ik level files l f :
  (l, f) ∈ level_candidate u ik level files -> l = level /\ f ∈ files.
Proof.
  unfold level_candidate. destruct (List.find _ files) as [g|] eqn:E; [|by intros []%elem_of_nil].
  destruct (_ <? 0); [by intros []%elem_of_nil|]. intros [= -> ->]%list_elem_of_singleton. split; [done|].
  apply List.find_some in E as [Hin _]. by apply list_elem_of_In.
Qed.

Lemma level_candidates_elem u ik levels : forall level l f,
  (l, f) ∈ level_candidates u ik level levels -> (level <= l)%nat /\ exists files, levels !! (l - level)%nat = Some files /\ f ∈ files.
Proof.
  induction levels as [|files levels IH]; intros level l f; cbn [level_candidates]; [by intros []%elem_of_nil|].
  intros [Hin|Hin]%elem_of_app.
  - apply level_candidate_elem in Hin as [-> Hin]. split; [done|]. rewrite Nat.sub_diag. by exists files.
  - apply IH in Hin as (Hle & fs & Hfs & Hin). split; [lia|]. exists fs. split; [|done].
    by replace (l - level)%nat with (S (l - S level)) by lia.
Qed.

Lemma candidates_elem v u ik l f : (l, f) ∈ candidates v u ik -> f ∈ files_at v l.
Proof.
  intros [Hin|Hin]%elem_of_app.
  - apply list_elem_of_In, in_map_iff in Hin as (g & [= <- ->] & Hin). apply list_elem_of_In in Hin.
    by apply candidates0_elem in Hin as [? _].
  - apply level_candidates_elem in Hin as (Hle & files & Hl & Hin). apply files_at_drop in Hl.
    replace (S (l - 1)) with l in Hl by lia. by rewrite Hl.
Qed.

Lemma user_le a b : icmp a b <= 0 -> cmp_Compare (user_of a) (user_of b) <= 0.
Proof. intros [Hlt|[He _]]%Internal_Compare_le; lia. Qed.

(** Entries of one user key between two others have that user key. *)
Lemma squeezed a b c : icmp a b <= 0 -> icmp b c <= 0 -> user_of a = user_of c -> user_of b = user_of a.
Proof.
  intros H1%user_le H2%user_le E. rewrite <- E in H2. apply cmp_exact. apply cmp_sym_le in H1. lia.
Qed.

Lemma level_candidate_complete level files ik g y :
  disjoint_files files -> (forall f, f ∈ files -> file_holds f) -> g ∈ files -> visible ik g y ->
  exists f y', (level, f) ∈ level_candidate (user_of ik) ik level files /\ visible ik f y' /\ icmp y'.1 y.1 <= 0.
Proof.
  intros [Hr Ho] Hf Hg (Hy & Huy & Hvy). apply list_elem_of_lookup in Hg as [j Hj].
  assert (Hgj : g ∈ files) by by apply (list_elem_of_lookup_2 _ j).
  destruct (fh_range _ (Hf g Hgj) y Hy) as [Hsm Hlg]. unfold level_candidate.
  destruct (List.find (fun f => icmp (largest f) ik >=? 0) files) as [f|] eqn:E.
  2: { exfalso. pose proof (List.find_none _ _ E g (proj1 (list_elem_of_In _ _) Hgj)) as Hge. cbn in Hge.
       pose proof (icmp_trans _ _ _ Hvy Hlg) as Hl. apply icmp_sym_le in Hl.
       destruct (Z.geb_spec (icmp (largest g) ik) 0); [done|lia]. }
  pose proof E as Efind. apply List.find_some in E as [Hfin Hge]. apply list_elem_of_In in Hfin.
  destruct (Z.geb_spec (icmp (largest f) ik) 0) as [Hfl|]; [|done]. clear Hge.
  (* [f] is [g] or before it *)
  apply list_elem_of_lookup in Hfin as [i Hi]. assert (Hij : (i <= j)%nat).
  { destruct (Nat.le_gt_cases i j) as [|Hji]; [done|]. exfalso.
    assert (Hgf : icmp (largest g) (smallest f) < 0) by by apply (Ho j i).
    assert (Hx : List.find (fun f => icmp (largest f) ik >=? 0) (take (S j) files) = None).
    { destruct (List.find _ (take (S j) files)) as [h|] eqn:Eh; [|done]. exfalso.
      assert (Hh : List.find (fun f => icmp (largest f) ik >=? 0) files = Some h).
      { rewrite <- (take_drop (S j) files). clear -Eh. revert Eh. generalize (take (S j) files) as l, (drop (S j) files) as l'.
        intros l l'. induction l as [|z l IH]; cbn; [done|]. by destruct (_ >=? 0). }
      rewrite Efind in Hh. injection Hh as ->. apply List.find_some in Eh as [Hin _].
      apply list_elem_of_In, list_elem_of_lookup in Hin as [m Hm]. apply lookup_take_Some in Hm as [Hm Hmj].
      pose proof (Ho m i h h ltac:(lia) Hm Hi) as Hlt.
      pose proof (icmp_le_lt_trans _ _ _ (Hr h (list_elem_of_lookup_2 _ _ _ Hi)) Hlt). rewrite icmp_refl in *. lia. }
    assert (Hgt : In g (take (S j) files)).
    { apply list_elem_of_In, (list_elem_of_lookup_2 _ j). apply lookup_take_Some. split; [done|lia]. }
    pose proof (List.find_none _ _ Hx g Hgt) as Hgn. cbn in Hgn. pose proof (icmp_trans _ _ _ Hvy Hlg) as Hl.
    apply icmp_sym_le in Hl. destruct (Z.geb_spec (icmp (largest g) ik) 0); [done|lia]. }
  assert (Hfi : f ∈ files) by by apply (list_elem_of_lookup_2 _ i). pose proof (Hf f Hfi) as Hfh.
  (* the entry: [y] itself, or the last one of [f] *)
  assert (Hy' : exists y', visible ik f y' /\ icmp y'.1 y.1 <= 0).
  { destruct (decide (i = j)) as [->|Hne].
    - rewrite Hi in Hj. injection Hj as ->. exists y. rewrite icmp_refl. split; [done|lia].
    - destruct (fh_largest f Hfh) as (x & Hx & Ex).
      assert (Hlt : icmp (largest f) y.1 < 0).
      { apply (icmp_lt_le_trans _ (smallest g)); [|done]. apply (Ho i j); [lia|done|done]. }
      exists x. rewrite Ex. split; [|lia].
      assert (Hik : icmp ik (largest f) <= 0) by (apply icmp_sym_le; lia). split; [done|]. rewrite Ex. split; [|done].
      apply (squeezed ik (largest f) y.1); [done|lia|by rewrite Huy]. }
  destruct Hy' as (y' & (Hy'1 & Hy'2 & Hy'3) & Hle). exists f, y'. split; [|done].
  destruct (fh_range _ Hfh y' Hy'1) as [Hs _]. apply user_le in Hs. rewrite Hy'2 in Hs. apply cmp_sym_le in Hs.
  destruct (Z.ltb_spec (cmp_Compare (user_of ik) (user_of (smallest f))) 0); [lia|]. by left.
Qed.

Lemma level_candidates_at u ik levels : forall level i files p,
  levels !! i = Some files -> p ∈ level_candidate u ik (level + i) files -> p ∈ level_candidates u ik level levels.
Proof.
  induction levels as [|fs levels IH]; intros level i files p Hi Hp; [done|]. cbn [level_candidates]. apply elem_of_app.
  destruct i as [|i]; [injection Hi as ->; rewrite Nat.add_0_r in Hp; by left|]. right. apply (IH (S level) i files); [done|].
  by rewrite Nat.add_succ_comm.
Qed.

Lemma candidates_complete v ik l g y :
  version_holds v -> g ∈ files_at v l -> visible ik g y ->
  exists f y', (l, f) ∈ candidates v (user_of ik) ik /\ visible ik f y' /\ icmp y'.1 y.1 <= 0.
Proof.
  intros Hv Hg Hy. unfold candidates. destruct l as [|l].
  - exists g, y. rewrite icmp_refl. split; [|split; [done|lia]]. apply elem_of_app. left.
    apply list_elem_of_In, in_map_iff. exists g. split; [done|]. apply list_elem_of_In, candidates0_elem. split; [done|].
    destruct Hy as (Hy & Hu & _). destruct (fh_range _ (vh_file _ Hv 0 g Hg) y Hy) as [H1 H2].
    apply user_le in H1, H2. rewrite Hu in H1, H2. apply cmp_sym_le in H1. split; [done|]. lia.
  - assert (Hin : exists files, drop 1 (files_ v) !! l = Some files /\ files_at v (S l) = files).
    { unfold files_at in Hg |- *. rewrite lookup_drop. destruct (files_ v !! (1 + l)%nat) as [files|] eqn:E.
      - exists files. split; [done|]. by apply nth_lookup_Some.
      - exfalso. apply lookup_ge_None in E. rewrite nth_overflow in Hg by lia. by apply elem_of_nil in Hg. }
    destruct Hin as (files & Hl & E). rewrite E in Hg.
    destruct (level_candidate_complete (S l) files ik g y) as (f & y' & Hf & Hy').
    + rewrite <- E. apply (vh_disjoint _ Hv). lia.
    + intros f Hf. apply (vh_file _ Hv (S l)). by rewrite E.
    + done.
    + done.
    + exists f, y'. split; [|done]. apply elem_of_app. right. by apply (level_candidates_at _ _ _ 1 l files).
Qed.

(** *** Candidates come newest first *)

Lemma NoDup_fmap_filter {A B} (f : A -> B) (P : A -> Prop) `{!forall x, Decision (P x)} l :
  NoDup (f <$> l) -> NoDup (f <$> filter P l).
Proof.
  induction l as [|x l IH]; [done|]. rewrite fmap_cons. intros [Hx Hl]%list.NoDup_cons. rewrite filter_cons.
  destruct (decide (P x)); [|by apply IH]. rewrite fmap_cons. apply list.NoDup_cons. split; [|by apply IH].
  intros (y & E & Hy)%list_elem_of_fmap. apply Hx. apply list_elem_of_fmap. exists y. split; [done|].
  by apply list_elem_of_filter in Hy as [_ ?].
Qed.

Definition before (p q : nat * FileMetaData) : Prop :=
  forall x y, x ∈ contents p.2 -> y ∈ contents q.2 -> user_of x.1 = user_of y.1 -> icmp x.1 y.1 < 0.

Lemma candidates_before v u ik : version_holds v -> StronglySorted before (candidates v u ik).
Proof.
  intros Hv. unfold candidates. apply StronglySorted_app. split_and!.
  - intros [l f] [l' g] Hf Hg x y Hx Hy E. cbn in Hx, Hy.
    apply list_elem_of_In, in_map_iff in Hf as (f' & [= <- ->] & Hf). apply list_elem_of_In in Hf.
    apply candidates0_elem in Hf as [Hf _]. apply level_candidates_elem in Hg as (Hle & files & Hl & Hg).
    apply files_at_drop in Hl. replace (S (l' - 1)) with l' in Hl by lia.
    apply (vh_newer _ Hv 0 l' f g); try done. by rewrite Hl.
  - assert (Hs : StronglySorted NewestFirst (candidates0 v u)) by apply (StronglySorted_merge_sort _).
    assert (Hnd : NoDup (number <$> candidates0 v u)).
    { unfold candidates0, sort_newest_first. rewrite merge_sort_Permutation.
      apply NoDup_fmap_filter, (vh_numbers _ Hv). }
    assert (Hin : forall f, f ∈ candidates0 v u -> f ∈ files_at v 0) by (intros f Hf; by apply candidates0_elem in Hf as [? _]).
    induction (candidates0 v u) as [|f fs IH]; [constructor|]. apply StronglySorted_cons in Hs as [Hf Hs].
    cbn in Hnd. apply list.NoDup_cons in Hnd as [Hnf Hnd]. cbn [map]. apply StronglySorted_cons. split.
    + apply Forall_forall. intros q Hq. apply in_map_iff in Hq as (g & <- & Hg).
      rewrite Forall_forall in Hf. specialize (Hf g Hg). unfold NewestFirst in Hf. apply list_elem_of_In in Hg.
      intros x y Hx Hy E. apply (vh_newer0 _ Hv f g); try done; [|apply Hin; by left|apply Hin; by right].
      assert (number g <> number f); [|lia]. intros En. apply Hnf. rewrite <- En. apply list_elem_of_fmap. by exists g.
    + apply IH; [done|done|]. intros g Hg. apply Hin. by right.
  - assert (Hat : forall i files, drop 1 (files_ v) !! i = Some files -> files_at v (1 + i) = files)
      by (intros i files; apply files_at_drop).
    revert Hat. generalize (drop 1 (files_ v)) as levels. generalize 1%nat as level. intros level levels. revert level.
    induction levels as [|files levels IH]; intros level Hat; cbn [level_candidates]; [constructor|].
    apply StronglySorted_app. split_and!.
    + intros [l f] [l' g] Hf Hg x y Hx Hy E. cbn in Hx, Hy. apply level_candidate_elem in Hf as [-> Hf].
      apply level_candidates_elem in Hg as (Hle & fs & Hl & Hg). pose proof (Hat O files eq_refl) as H0.
      rewrite Nat.add_0_r in H0. pose proof (Hat (S (l' - S level)) fs Hl) as H1.
      replace (level + S (l' - S level))%nat with l' in H1 by lia.
      apply (vh_newer _ Hv level l' f g); [lia|by rewrite H0|by rewrite H1|done..].
    + unfold level_candidate. destruct (List.find _ files); [destruct (_ <? 0)|]; repeat constructor.
    + apply (IH (S level)). intros i fs Hi. specialize (Hat (S i) fs Hi). by rewrite <- Nat.add_succ_comm in Hat.
Qed.

(** *** Get *)

(** What a lookup through the table cache promises for a file with these pairs: the
    first pair at or after the key, unless it has another user key. *)
Class TableCacheLaws (T : Type) `{TC : TableCache T} := {
  tc_serves : T -> FileMetaData -> Prop;
  tc_Get_ok c f ik : tc_serves c f ->
    let target := at_cursor (contents f) (@find_ge (InternalKeyComparator C) ik (contents f)) in
    exists c' s found, tc_Get c (number f) (file_size f) ik = Ok (c', s, found) /\ Status_ok s = true /\
      (forall g, tc_serves c g -> tc_serves c' g) /\ (found = None \/ found = target) /\
      (forall x, target = Some x -> user_of x.1 = user_of ik -> found = Some x)
}.

(** The first visible entry of a file is where the lookup leads. *)
Lemma visible_target f ik y :
  file_holds f -> visible ik f y ->
  exists x, at_cursor (contents f) (@find_ge (InternalKeyComparator C) ik (contents f)) = Some x /\ visible ik f x /\
    icmp x.1 y.1 <= 0.
Proof.
  intros Hf (Hy & Hu & Hv). pose proof (@find_ge_spec (InternalKeyComparator C) ik (contents f)) as Hs.
  apply list_elem_of_lookup in Hy as [j Hj]. destruct (find_ge ik (contents f)) as [i|].
  2: { specialize (Hs j y Hj). cbn in Hs. apply icmp_sym_le in Hv. lia. }
  destruct Hs as [(x & Hx & Hge) Hlo]. exists x. split; [done|]. cbn in Hge.
  assert (Hik : icmp ik x.1 <= 0) by (apply icmp_sym_le; lia).
  assert (Hxy : icmp x.1 y.1 <= 0).
  { destruct (Nat.lt_trichotomy i j) as [Hij|[->|Hji]].
    - apply Z.lt_le_incl. by apply (fh_ascending _ Hf i j).
    - rewrite Hx in Hj. injection Hj as ->. rewrite icmp_refl. lia.
    - specialize (Hlo j y Hji Hj). cbn in Hlo. apply icmp_sym_le in Hv. lia. }
  split; [|done]. split; [by apply (list_elem_of_lookup_2 _ i)|]. split; [|done].
  apply (squeezed ik x.1 y.1); [done|done|by rewrite Hu].
Qed.

Lemma target_visible f ik x :
  at_cursor (contents f) (@find_ge (InternalKeyComparator C) ik (contents f)) = Some x -> user_of x.1 = user_of ik ->
  visible ik f x.
Proof.
  intros Hx Hu. pose proof (@find_ge_spec (InternalKeyComparator C) ik (contents f)) as Hs.
  destruct (find_ge ik (contents f)) as [i|]; [|done]. cbn in Hx. destruct Hs as [(y & Hy & Hge) _].
  rewrite Hx in Hy. injection Hy as <-. split; [by apply (list_elem_of_lookup_2 _ i)|]. split; [done|].
  apply icmp_sym_le. cbn in Hge. lia.
Qed.

Section get_proof.
Context {T : Type} `{TC : TableCache T} `{!TableCacheLaws T}.
Context (ik : bytes).

(** The state while nothing has been found. *)
Definition searching (cands : list (nat * FileMetaData)) (st : GetState (T := T)) : Prop :=
  gs_saver st = MkSaver kNotFound (user_of ik) None /\ gs_found st = false /\ gs_ikey st = ik /\
  forall p, p ∈ cands -> tc_serves (gs_cache st) p.2.

(** What the state says once an entry is found. *)
Definition delivers (st : GetState (T := T)) (x : bytes * bytes) : Prop :=
  exists p, ParseInternalKey x.1 = Some p /\
    if type p =? kTypeValue
    then gs_found st = true /\ Status_ok (gs_s st) = true /\ sv_value (gs_saver st) = Some x.2
    else gs_found st = false /\ sv_value (gs_saver st) = None.

Lemma SaveValue_same x p :
  ParseInternalKey x.1 = Some p -> user_of x.1 = user_of ik ->
  SaveValue (MkSaver kNotFound (user_of ik) None) x.1 x.2 =
    if type p =? kTypeValue then MkSaver kFound (user_of ik) (Some x.2) else MkSaver kDeleted (user_of ik) None.
Proof.
  intros Hp Hu. unfold SaveValue. rewrite Hp. cbn [sv_user_key sv_value].
  apply ParseInternalKey_Some in Hp as [E _]. rewrite E, InternalKey_app, ExtractUserKey_app in Hu.
  by rewrite Hu, cmp_refl.
Qed.

Lemma SaveValue_other x :
  is_Some (ParseInternalKey x.1) -> user_of x.1 <> user_of ik ->
  SaveValue (MkSaver kNotFound (user_of ik) None) x.1 x.2 = MkSaver kNotFound (user_of ik) None.
Proof.
  intros [p Hp] Hu. unfold SaveValue. rewrite Hp. cbn [sv_user_key].
  apply ParseInternalKey_Some in Hp as [E _]. rewrite E, InternalKey_app, ExtractUserKey_app in Hu.
  destruct (Z.eqb_spec (cmp_Compare (user_key p) (user_of ik)) 0) as [Ec|]; [|done]. by apply cmp_exact in Ec.
Qed.

Lemma Get_Match_ok st level f cands :
  searching ((level, f) :: cands) st -> file_holds f ->
  exists st' more, Get_Match st level f = Ok (st', more) /\
    if more
    then searching cands st' /\ (forall y, ~ visible ik f y)
    else exists x, visible ik f x /\ (forall y, visible ik f y -> icmp x.1 y.1 <= 0) /\ delivers st' x.
Proof.
  intros (Hsv & Hfd & Hik & Hserve) Hf. unfold Get_Match. cbv zeta.
  destruct (tc_Get_ok (gs_cache st) f (gs_ikey st) (Hserve (level, f) ltac:(by left)))
    as (c' & s & found & E & Hs & Hkeep & Hfound & Hhit).
  rewrite E. cbn [res_bind]. rewrite Hs, Hsv, Hfd, Hik in *. cbn [negb].
  set (target := at_cursor (contents f) _) in *.
  assert (Hcase : (exists x, target = Some x /\ user_of x.1 = user_of ik) \/
    forall x, target = Some x -> user_of x.1 <> user_of ik).
  { destruct target as [x|]; [|by right]. destruct (decide (user_of x.1 = user_of ik)); [left; by exists x|].
    right. by intros y [= <-]. }
  destruct Hcase as [(x & Hx & Hu)|Hno].
  - rewrite (Hhit x Hx Hu). pose proof (target_visible f ik x Hx Hu) as Hvis.
    destruct (fh_parse _ Hf x (proj1 Hvis)) as [p Hp]. destruct x as [k v]. cbn [fst snd] in *.
    pose proof (SaveValue_same (k, v) p Hp Hu) as Esv. cbn [fst snd] in Esv. rewrite Esv.
    assert (Hfirst : forall y, visible ik f y -> icmp k y.1 <= 0).
    { intros y Hy. destruct (visible_target f ik y Hf Hy) as (x' & Hx' & _ & Hle). fold target in Hx'.
      rewrite Hx in Hx'. by injection Hx' as <-. }
    destruct (type p =? kTypeValue) eqn:Et; cbn [sv_state]; eexists _, false; (split; [done|]);
      exists (k, v); (split; [done|]); (split; [done|]); exists p; rewrite Et; by split_and!.
  - assert (Hnone : forall y, ~ visible ik f y).
    { intros y Hy. destruct (visible_target f ik y Hf Hy) as (x & Hx & Hvx & _). apply (Hno x Hx).
      by destruct Hvx as (_ & ? & _). }
    assert (Hsaver : match found with Some (k, v) => SaveValue (MkSaver kNotFound (user_of ik) None) k v
      | None => MkSaver kNotFound (user_of ik) None end = MkSaver kNotFound (user_of ik) None).
    { destruct Hfound as [->| ->]; [done|]. destruct target as [[k v]|] eqn:Et; [|done].
      apply (SaveValue_other (k, v)).
      - apply (fh_parse _ Hf). unfold target in Et. destruct (find_ge ik (contents f)) as [i|]; [|done].
        by apply (list_elem_of_lookup_2 _ i).
      - by apply Hno. }
    rewrite Hsaver. cbn [sv_state]. eexists _, true. split; [done|]. split; [|done].
    unfold searching. cbn. split_and!; try done. intros p Hp. apply Hkeep, Hserve. by right.
Qed.

Lemma search_ok cands : forall st,
  searching cands st -> (forall p, p ∈ cands -> file_holds p.2) -> StronglySorted before cands ->
  exists st' more, call_each Get_Match st cands = Ok (st', more) /\
    if more
    then searching [] st' /\ (forall p y, p ∈ cands -> ~ visible ik p.2 y)
    else exists p x, p ∈ cands /\ visible ik p.2 x /\ (forall q y, q ∈ cands -> visible ik q.2 y -> icmp x.1 y.1 <= 0) /\
      delivers st' x.
Proof.
  induction cands as [|[level f] cands IH]; intros st Hst Hf Hord; cbn [call_each].
  { exists st, true. split; [done|]. split; [done|]. by intros p y []%elem_of_nil. }
  apply StronglySorted_cons in Hord as [Hbefore Hord].
  destruct (Get_Match_ok st level f cands Hst (Hf (level, f) ltac:(by left))) as (st1 & more & -> & Hm). cbn [res_bind].
  destruct more.
  - destruct Hm as [Hst1 Hnone]. destruct (IH st1 Hst1) as (st' & more & -> & Hm'); [intros p Hp; apply Hf; by right|done|].
    exists st', more. split; [done|]. destruct more.
    + destruct Hm' as [Hst' Hno]. split; [done|]. intros p y [->|Hp]%elem_of_cons; [by apply Hnone|by apply Hno].
    + destruct Hm' as (p & x & Hp & Hx & Hfirst & Hd). exists p, x. split; [by right|]. split; [done|]. split; [|done].
      intros q y [->|Hq]%elem_of_cons Hy; [by destruct (Hnone y)|by apply (Hfirst q)].
  - destruct Hm as (x & Hx & Hfirst & Hd). exists st1, false. split; [done|]. exists (level, f), x. split; [by left|].
    split; [done|]. split; [|done]. intros q y [->|Hq]%elem_of_cons Hy; [by apply Hfirst|].
    apply Z.lt_le_incl. rewrite Forall_forall in Hbefore. apply (Hbefore q (proj1 (list_elem_of_In _ _) Hq)).
    + by destruct Hx.
    + by destruct Hy.
    + destruct Hx as (_ & Hux & _), Hy as (_ & Huy & _). by rewrite Hux, Huy.
Qed.
End get_proof.
End lookup.

(** ** Properties *)

(** [Version::Get] finds the newest visible entry: on a version whose levels are in
    order and whose newer files hold the newer entries of each user key, the search from
    level zero downwards ends without leaving a list, and either the newest entry of the
    user key at or below the snapshot, over all files of all levels, exists and is what
    is returned, its value with an OK status or not-found if it is a deletion, or there is
    none and the result is not-found. *)
Lemma version_get_newest `{C : Comparator} `{!ComparatorLaws C} `{!ComparatorExact C}
    (contents : FileMetaData -> list (bytes * bytes)) {T : Type} `{TC : TableCache T} `{!TableCacheLaws contents T}
    (v : Version) (cache : T) (u : bytes) (s : Z) :
  version_holds contents v -> (forall level f, f ∈ files_at v level -> tc_serves contents cache f) ->
  let ik := internal_key (NewLookupKey u s) in
  exists cache' st val stats, Version_Get v cache (NewLookupKey u s) = Ok (cache', st, val, stats) /\
    ((exists level f x p, f ∈ files_at v level /\ visible contents ik f x /\
        (forall level' g y, g ∈ files_at v level' -> visible contents ik g y -> Internal_Compare C x.1 y.1 <= 0) /\
        ParseInternalKey x.1 = Some p /\
        if type p =? kTypeValue then Status_ok st = true /\ val = Some x.2 else IsNotFound st = true /\ val = None) \/
     ((forall level f x, f ∈ files_at v level -> ~ visible contents ik f x) /\ IsNotFound st = true /\ val = None)).
Proof.
  intros Hv Hserve ik. unfold Version_Get. rewrite (ForEachOverlapping_eq contents) by done.
  destruct (NewLookupKey_parts u s) as (Eik & _ & Eu). rewrite Eu. fold ik.
  assert (Hu : ExtractUserKey ik = u) by (unfold ik; by rewrite Eik, InternalKey_app, ExtractUserKey_app). rewrite <- Hu.
  destruct (search_ok contents ik (candidates v (ExtractUserKey ik) ik)
    (MkGetState cache (MkSaver kNotFound (ExtractUserKey ik) None) (MkStats None (-1)) ik None (-1) Status_OK false))
    as (st & more & -> & Hm).
  - split_and!; try done. intros [l f] Hp. apply (candidates_elem contents) in Hp. by apply (Hserve l).
  - intros [l f] Hp. apply (candidates_elem contents) in Hp. by apply (vh_file _ _ Hv l).
  - by apply candidates_before.
  - cbn [res_bind fst]. eexists _, _, _, _. split; [done|]. destruct more.
    + right. destruct Hm as [(Hsv & Hfd & _) Hno]. rewrite Hfd, Hsv. split; [|done]. intros level f x Hf Hx.
      destruct (candidates_complete contents v ik level f x Hv Hf Hx) as (g & y & Hg & Hy & _). by destruct (Hno (level, g) y).
    + left. destruct Hm as ([l f] & x & Hp & Hx & Hfirst & p & Ep & Hd). exists l, f, x, p.
      split; [by apply (candidates_elem contents) in Hp|]. split; [done|]. split.
      { intros level g y Hg Hy. destruct (candidates_complete contents v ik level g y Hv Hg Hy) as (g' & y' & Hg' & Hy' & Hle).
        apply (icmp_trans _ y'.1); [by apply (Hfirst (level, g'))|done]. }
      split; [done|]. destruct (type p =? kTypeValue).
      * destruct Hd as (-> & Hs & Hval). done.
      * destruct Hd as (-> & Hval). done.
Qed.

(** *** An example: two levels, the upper one newer *)

Definition example_contents (f : FileMetaData) : list (bytes * bytes) :=
  if number f =? 7 then
    [(InternalKey (str "a") 9 kTypeValue, str "new"); (InternalKey (str "c") 8 kTypeDeletion, [])]
  else
    [(InternalKey (str "a") 3 kTypeValue, str "old"); (InternalKey (str "c") 2 kTypeValue, str "gone")].

Definition example_meta (n : Z) : FileMetaData :=
  let kvs := example_contents (NewFileMetaData n 0 [] []) in
  NewFileMetaData n 100 (default [] (fst <$> head kvs)) (default [] (fst <$> list.last kvs)).

Definition example_version : Version :=
  MkVersion [[example_meta 7]; [example_meta 5]; []; []; []; []; []] None (-1) (double_of_Z 0) 0.

#[export] Instance ExampleTables : TableCache unit := {|
  tc_Get _ n _ ik :=
    let kvs := example_contents (NewFileMetaData n 0 [] []) in
    Ok (tt, Status_OK, at_cursor kvs (@find_ge (InternalKeyComparator BytewiseComparator) ik kvs))
|}.

#[export, refine] Instance ExampleTablesLaws : TableCacheLaws (C := BytewiseComparator) example_contents unit := {|
  tc_serves _ _ := True
|}.
Proof.
  intros c f ik _ target. eexists _, _, _. split; [done|]. split; [done|]. split; [done|]. split; [by right|]. intros x Hx _. exact Hx.
Defined.

Lemma example_files level f :
  f ∈ files_at example_version level -> (level = 0%nat /\ f = example_meta 7) \/ (level = 1%nat /\ f = example_meta 5).
Proof.
  unfold files_at. intros Hf. destruct level as [|[|level]]; cbn [example_version files_ nth] in Hf.
  - apply list_elem_of_singleton in Hf as ->. by left.
  - apply list_elem_of_singleton in Hf as ->. by right.
  - exfalso. do 6 (destruct level as [|level]; [by apply elem_of_nil in Hf|]). by apply elem_of_nil in Hf.
Qed.

Lemma example_length level : (length (files_at example_version level) <= 1)%nat.
Proof. unfold files_at. do 8 (destruct level as [|level]; [cbn; lia|]). cbn. lia. Qed.

Lemma example_file_holds n : n = 7 \/ n = 5 -> file_holds (C := BytewiseComparator) example_contents (example_meta n).
Proof.
  intros [-> | ->]; split.
  1,6: apply ascending_b_ok; by vm_compute.
  all: cbn [example_contents example_meta number NewFileMetaData Z.eqb Pos.eqb].
  1,5: intros x; rewrite !elem_of_cons; intros [->|[->|[]%elem_of_nil]]; vm_compute; by eexists.
  1,4: eexists; split; [left|done].
  1,3: eexists; split; [right; left|done].
  all: intros x; rewrite !elem_of_cons; intros [->|[->|[]%elem_of_nil]]; by vm_compute.
Qed.

Lemma example_newer x y :
  x ∈ example_contents (example_meta 7) -> y ∈ example_contents (example_meta 5) ->
  ExtractUserKey x.1 = ExtractUserKey y.1 -> Internal_Compare BytewiseComparator x.1 y.1 < 0.
Proof.
  cbn [example_contents example_meta number NewFileMetaData Z.eqb Pos.eqb]. rewrite !elem_of_cons.
  intros [->|[->|[]%elem_of_nil]] [->|[->|[]%elem_of_nil]] E; first [by vm_compute|by vm_compute in E].
Qed.

Lemma example_version_holds : version_holds (C := BytewiseComparator) example_contents example_version.
Proof.
  split.
  - done.
  - intros level f [[_ ->]|[_ ->]]%example_files; apply example_file_holds; auto.
  - intros level Hl. split.
    + intros f [[_ ->]|[_ ->]]%example_files; by vm_compute.
    + intros i j f g Hij Hf Hg. exfalso. assert (Hlen : (length (files_at example_version level) <= 1)%nat).
      { apply example_length. }
      apply lookup_lt_Some in Hf, Hg. lia.
  - intros level. pose proof (example_length level). lia.
  - by apply NoDup_singleton.
  - intros level level' f g x y Hl [[-> ->]|[-> ->]]%example_files [[-> ->]|[-> ->]]%example_files; try lia. apply example_newer.
  - intros f g x y Hn [[_ ->]|[? _]]%example_files [[_ ->]|[? _]]%example_files; done.
Qed.

Lemma version_get_newest_witness :
  exists cache' st val stats, Version_Get (C := BytewiseComparator) example_version tt (NewLookupKey (str "a") 5)
    = Ok (cache', st, val, stats) /\ (val = Some (str "old") \/ IsNotFound st = true).
Proof.
  destruct (version_get_newest (C := BytewiseComparator) example_contents example_version tt (str "a") 5
    example_version_holds) as (cache' & st & val & stats & E & Hres); [done|].
  exists cache', st, val, stats. split; [exact E|]. vm_compute in E. injection E as <- <- <- <-. by left.
Defined.
