(* ===== verification/Overlap.v ===== *)
(** * Choosing overlapping files

    What [Version::GetOverlappingInputs] and [Version::PickLevelForMemTableOutput] of
    [Version.v] return. *)
From stdpp Require Import gmap sorting.
From S2P Require Import Prelude Coding Comparator Status DbFormat Cursor VersionEdit FileSearch Version.

Section overlap.
Context `{C : Comparator} `{!ComparatorLaws C}.
Abbreviation ucmp := cmp_Compare.
Abbreviation start f := (ExtractUserKey (smallest f)).
Abbreviation limit f := (ExtractUserKey (largest f)).

(** The user keys of the file meet the closed range; [None] leaves an end open. *)
Definition meets (b e : option bytes) (f : FileMetaData) : bool :=
  negb (match b with Some b => ucmp (limit f) b <? 0 | None => false end) &&
  negb (match e with Some e => ucmp (start f) e >? 0 | None => false end).

(** The file reaches out of the range below, or above. *)
Definition sticks_below (b : option bytes) (f : FileMetaData) : bool :=
  match b with Some b => ucmp (start f) b <? 0 | None => false end.
Definition sticks_above (e : option bytes) (f : FileMetaData) : bool :=
  match e with Some e => ucmp (limit f) e >? 0 | None => false end.

(** Two files share a user key, or could. *)
Definition files_meet (f g : FileMetaData) : bool := meets (Some (start f)) (Some (limit f)) g.

Lemma overlap_pass_spec level0 b e files : forall inputs,
  match overlap_pass level0 b e inputs files with
  | inl out => out = inputs ++ List.filter (meets b e) files /\
      (level0 = true -> forall f, f ∈ files -> meets b e f = true -> sticks_below b f = false /\ sticks_above e f = false)
  | inr (b', e') => level0 = true /\ exists f, f ∈ files /\ meets b e f = true /\
      ((sticks_below b f = true /\ b' = Some (start f) /\ e' = e) \/
       (sticks_above e f = true /\ b' = b /\ e' = Some (limit f)))
  end.
Proof.
  induction files as [|f files IH]; intros inputs; cbn [overlap_pass List.filter].
  { rewrite app_nil_r. split; [done|]. by intros _ f []%elem_of_nil. }
  assert (Hskip : meets b e f = false ->
    match overlap_pass level0 b e inputs files with
    | inl out => out = inputs ++ (if meets b e f then f :: List.filter (meets b e) files else List.filter (meets b e) files) /\
        (level0 = true -> forall g, g ∈ f :: files -> meets b e g = true -> sticks_below b g = false /\ sticks_above e g = false)
    | inr (b', e') => level0 = true /\ exists g, g ∈ f :: files /\ meets b e g = true /\
        ((sticks_below b g = true /\ b' = Some (start g) /\ e' = e) \/
         (sticks_above e g = true /\ b' = b /\ e' = Some (limit g)))
    end).
  { intros Hm. rewrite Hm. specialize (IH inputs). destruct (overlap_pass level0 b e inputs files) as [out|[b' e']].
    - destruct IH as [-> Hin]. split; [done|]. intros Hl g [->|Hg]%elem_of_cons Hmg; [congruence|by apply Hin].
    - destruct IH as (Hl & g & Hg & Hrest). split; [done|]. exists g. split; [by right|done]. }
  assert (Htake : meets b e f = true -> (level0 = true -> sticks_below b f = false /\ sticks_above e f = false) ->
    match overlap_pass level0 b e (inputs ++ [f]) files with
    | inl out => out = inputs ++ (if meets b e f then f :: List.filter (meets b e) files else List.filter (meets b e) files) /\
        (level0 = true -> forall g, g ∈ f :: files -> meets b e g = true -> sticks_below b g = false /\ sticks_above e g = false)
    | inr (b', e') => level0 = true /\ exists g, g ∈ f :: files /\ meets b e g = true /\
        ((sticks_below b g = true /\ b' = Some (start g) /\ e' = e) \/
         (sticks_above e g = true /\ b' = b /\ e' = Some (limit g)))
    end).
  { intros Hm Hs. rewrite Hm. specialize (IH (inputs ++ [f])). destruct (overlap_pass level0 b e (inputs ++ [f]) files) as [out|[b' e']].
    - destruct IH as [-> Hin]. rewrite <- app_assoc. split; [done|]. intros Hl g [->|Hg]%elem_of_cons Hmg; [by apply Hs|by apply Hin].
    - destruct IH as (Hl & g & Hg & Hrest). split; [done|]. exists g. split; [by right|done]. }
  assert (Hmeets : meets b e f = negb (match b with Some b => ucmp (limit f) b <? 0 | None => false end) &&
    negb (match e with Some e => ucmp (start f) e >? 0 | None => false end)) by done.
  destruct (match b with Some b => ucmp (limit f) b <? 0 | None => false end); [by apply Hskip|].
  destruct (match e with Some e => ucmp (start f) e >? 0 | None => false end); [by apply Hskip|].
  cbn in Hmeets. destruct level0; [|by apply Htake].
  fold (sticks_below b f) (sticks_above e f). destruct (sticks_below b f) eqn:Eb.
  { split; [done|]. exists f. split; [by left|]. split; [done|]. by left. }
  destruct (sticks_above e f) eqn:Ee; [|by apply Htake].
  split; [done|]. exists f. split; [by left|]. split; [done|]. by right.
Qed.

(** *** The range only grows to the bounds of files *)

Lemma meets_iff b e f :
  meets b e f = true <->
    (forall x, b = Some x -> 0 <= ucmp (limit f) x) /\ (forall y, e = Some y -> ucmp (start f) y <= 0).
Proof.
  unfold meets. rewrite andb_true_iff, !negb_true_iff. split.
  - intros [Hb He]. split; [intros x ->; by apply Z.ltb_ge|]. intros y ->.
    destruct (Z.gtb_spec (ucmp (start f) y) 0); [done|lia].
  - intros [Hb He]. split; [destruct b as [x|]; [by apply Z.ltb_ge, Hb|done]|]. destruct e as [y|]; [|done].
    specialize (He y eq_refl). destruct (Z.gtb_spec (ucmp (start f) y) 0); [lia|done].
Qed.

Definition lower (b b' : option bytes) : Prop := forall x, b' = Some x -> exists y, b = Some y /\ ucmp x y <= 0.
Definition higher (e e' : option bytes) : Prop := forall x, e' = Some x -> exists y, e = Some y /\ ucmp y x <= 0.

Lemma lower_refl b : lower b b.
Proof. intros x ->. exists x. rewrite cmp_refl. split; [done|lia]. Qed.

Lemma higher_refl e : higher e e.
Proof. intros x ->. exists x. rewrite cmp_refl. split; [done|lia]. Qed.

Lemma lower_trans a b c : lower a b -> lower b c -> lower a c.
Proof.
  intros H1 H2 x Hx. destruct (H2 x Hx) as (y & Hy & Hxy). destruct (H1 y Hy) as (z & Hz & Hyz). exists z.
  split; [done|]. by apply (cmp_trans _ y).
Qed.

Lemma higher_trans a b c : higher a b -> higher b c -> higher a c.
Proof.
  intros H1 H2 x Hx. destruct (H2 x Hx) as (y & Hy & Hxy). destruct (H1 y Hy) as (z & Hz & Hyz). exists z.
  split; [done|]. by apply (cmp_trans _ y).
Qed.

Lemma meets_grow b e b' e' f : lower b b' -> higher e e' -> meets b e f = true -> meets b' e' f = true.
Proof.
  rewrite !meets_iff. intros Hb He [H1 H2]. split.
  - intros x Hx. destruct (Hb x Hx) as (y & Hy & Hxy). specialize (H1 y Hy).
    assert (ucmp x (limit f) <= 0); [|apply cmp_sym_le in H; lia].
    apply (cmp_trans _ y); [done|]. apply cmp_sym_le. lia.
  - intros x Hx. destruct (He x Hx) as (y & Hy & Hxy). apply (cmp_trans _ y); [by apply H2|done].
Qed.

(** *** Termination *)

Definition count (P : FileMetaData -> bool) (files : list FileMetaData) : nat := length (List.filter P files).

Lemma count_le (P Q : FileMetaData -> bool) files : (forall f, P f = true -> Q f = true) -> (count P files <= count Q files)%nat.
Proof.
  intros H. unfold count. induction files as [|f files IH]; cbn; [done|].
  destruct (P f) eqn:E; [rewrite (H f E); cbn; lia|]. destruct (Q f); cbn; lia.
Qed.

Lemma count_lt (P Q : FileMetaData -> bool) files f :
  (forall f, P f = true -> Q f = true) -> f ∈ files -> P f = false -> Q f = true -> (count P files < count Q files)%nat.
Proof.
  intros H Hin HP HQ. pose proof (count_le P Q) as Hle. unfold count in *.
  induction files as [|g files IH]; [by apply elem_of_nil in Hin|]. cbn. apply elem_of_cons in Hin as [<-|Hin].
  - rewrite HP, HQ. cbn. specialize (Hle files H). lia.
  - specialize (IH Hin). destruct (P g) eqn:E; [rewrite (H g E); cbn; lia|]. destruct (Q g); cbn; lia.
Qed.

Definition work (files : list FileMetaData) (b e : option bytes) : nat :=
  (count (sticks_below b) files + count (sticks_above e) files)%nat.

Lemma work_below files b e f :
  f ∈ files -> sticks_below b f = true -> (work files (Some (start f)) e < work files b e)%nat.
Proof.
  intros Hin Hf. unfold work. apply Nat.add_lt_mono_r, (count_lt _ _ _ f); [|done| |done].
  - intros g Hg. unfold sticks_below in *. destruct b as [b|]; [|done]. apply Z.ltb_lt in Hg, Hf. apply Z.ltb_lt.
    by apply (cmp_lt_trans _ (start f)).
  - unfold sticks_below. rewrite cmp_refl. done.
Qed.

Lemma work_above files b e f :
  f ∈ files -> sticks_above e f = true -> (work files b (Some (limit f)) < work files b e)%nat.
Proof.
  intros Hin Hf. unfold work. apply Nat.add_lt_mono_l, (count_lt _ _ _ f); [|done| |done].
  - intros g Hg. unfold sticks_above in *. destruct e as [e|]; [|done].
    destruct (Z.gtb_spec (ucmp (limit g) (limit f)) 0) as [Hg'|]; [|done].
    destruct (Z.gtb_spec (ucmp (limit f) e) 0) as [Hf'|]; [|done].
    assert (Hge : ucmp e (limit g) < 0).
    { apply (cmp_lt_trans _ (limit f)); apply cmp_sym_lt; lia. }
    apply cmp_sym_lt in Hge. destruct (Z.gtb_spec (ucmp (limit g) e) 0); [done|lia].
  - unfold sticks_above. by rewrite cmp_refl.
Qed.

(** *** What the loop returns *)

(** Files that start no later than they end. *)
Definition ranges_ok (files : list FileMetaData) : Prop := forall f, f ∈ files -> ucmp (start f) (limit f) <= 0.

(** Sets of files that hold those that meet the range, and with a file those it meets. *)
Definition closed_from (files : list FileMetaData) (b e : option bytes) (P : FileMetaData -> Prop) : Prop :=
  (forall f, f ∈ files -> meets b e f = true -> P f) /\
  (forall f g, f ∈ files -> g ∈ files -> P f -> files_meet f g = true -> P g).

Lemma below_meets b e f g :
  ucmp (start g) (limit g) <= 0 -> meets b e f = true -> sticks_below b f = true -> meets (Some (start f)) e g = true ->
  meets b e g = true \/ files_meet f g = true.
Proof.
  intros Hg Hf Hb Hn. destruct (meets b e g) eqn:Em; [by left|]. right.
  unfold files_meet. rewrite meets_iff in *. destruct Hf as [Hf1 Hf2]. destruct Hn as [Hn1 Hn2]. split.
  - intros x [= <-]. by apply Hn1.
  - intros y [= <-]. unfold sticks_below in Hb. destruct b as [b|]; [|done].
    assert (Hlt : ucmp (limit g) b < 0).
    { destruct (Z.lt_ge_cases (ucmp (limit g) b) 0) as [|Hge]; [done|]. exfalso.
      rewrite (proj2 (meets_iff (Some b) e g)) in Em; [done|]. split; [by intros x [= <-]|done]. }
    specialize (Hf1 b eq_refl). apply (cmp_trans _ (limit g)); [done|]. apply (cmp_trans _ b); [lia|].
    apply cmp_sym_le. lia.
Qed.

Lemma above_meets b e f g :
  ucmp (start g) (limit g) <= 0 -> meets b e f = true -> sticks_above e f = true -> meets b (Some (limit f)) g = true ->
  meets b e g = true \/ files_meet f g = true.
Proof.
  intros Hg Hf He Hn. destruct (meets b e g) eqn:Em; [by left|]. right.
  unfold files_meet. rewrite meets_iff in *. destruct Hf as [Hf1 Hf2]. destruct Hn as [Hn1 Hn2]. split.
  - intros x [= <-]. unfold sticks_above in He. destruct e as [e|]; [|done].
    assert (Hlt : 0 < ucmp (start g) e).
    { destruct (Z.lt_ge_cases 0 (ucmp (start g) e)) as [|Hge]; [done|]. exfalso.
      rewrite (proj2 (meets_iff b (Some e) g)) in Em; [done|]. split; [done|by intros x [= <-]]. }
    specialize (Hf2 e eq_refl). assert (Hle : ucmp (start f) (limit g) <= 0).
    { apply (cmp_trans _ e); [done|]. apply (cmp_trans _ (start g)); [|done]. apply cmp_sym_le. lia. }
    apply cmp_sym_le in Hle. lia.
  - intros y [= <-]. by apply Hn2.
Qed.

Lemma overlap_loop_ok level0 files b0 e0 fuel : forall b e,
  ranges_ok files -> (work files b e < fuel)%nat -> lower b0 b -> higher e0 e ->
  (forall P, closed_from files b0 e0 P -> forall f, f ∈ files -> meets b e f = true -> P f) ->
  exists b' e', overlap_loop fuel level0 files b e = Ok (List.filter (meets b' e') files) /\
    lower b0 b' /\ higher e0 e' /\ (level0 = false -> b' = b /\ e' = e) /\
    (level0 = true -> forall f, f ∈ files -> meets b' e' f = true -> sticks_below b' f = false /\ sticks_above e' f = false) /\
    (forall P, closed_from files b0 e0 P -> forall f, f ∈ files -> meets b' e' f = true -> P f).
Proof.
  induction fuel as [|fuel IH]; intros b e Hr Hw Hb He HP; [lia|]. cbn [overlap_loop].
  pose proof (overlap_pass_spec level0 b e files []) as Hpass.
  destruct (overlap_pass level0 b e [] files) as [out|[b' e']].
  { destruct Hpass as [-> Hs]. exists b, e. by split_and!. }
  destruct Hpass as (-> & f & Hf & Hm & [(Hs & -> & ->)|(Hs & -> & ->)]).
  - destruct (IH (Some (start f)) e Hr) as (b' & e' & E & Hrest); [|..].
    + pose proof (work_below files b e f Hf Hs). lia.
    + apply (lower_trans _ b); [done|]. intros x [= <-]. unfold sticks_below in Hs. destruct b as [b|]; [|done].
      exists b. split; [done|]. apply Z.ltb_lt in Hs. lia.
    + done.
    + intros P Hcl g Hg Hmg. destruct (below_meets b e f g (Hr g Hg) Hm Hs Hmg) as [Hmg'|Hfg]; [by apply HP|].
      apply (proj2 Hcl f g); [done|done|by apply HP|done].
    + exists b', e'. split; [exact E|]. destruct Hrest as (H1 & H2 & _ & H4 & H5). by split_and!.
  - destruct (IH b (Some (limit f)) Hr) as (b' & e' & E & Hrest); [|..].
    + pose proof (work_above files b e f Hf Hs). lia.
    + done.
    + apply (higher_trans _ e); [done|]. intros x [= <-]. unfold sticks_above in Hs. destruct e as [e|]; [|done].
      exists e. split; [done|]. destruct (Z.gtb_spec (ucmp (limit f) e) 0) as [Hlt|]; [|done].
      apply cmp_sym_le. lia.
    + intros P Hcl g Hg Hmg. destruct (above_meets b e f g (Hr g Hg) Hm Hs Hmg) as [Hmg'|Hfg]; [by apply HP|].
      apply (proj2 Hcl f g); [done|done|by apply HP|done].
    + exists b', e'. split; [exact E|]. destruct Hrest as (H1 & H2 & _ & H4 & H5). by split_and!.
Qed.

Lemma count_bound P files : (count P files <= length files)%nat.
Proof. unfold count. induction files as [|f files IH]; cbn; [done|]. destruct (P f); cbn; lia. Qed.

Lemma GetOverlappingInputs_ok v level b e :
  ranges_ok (files_at v level) ->
  let files := files_at v level in
  let ub := ExtractUserKey <$> b in
  let ue := ExtractUserKey <$> e in
  exists b' e', GetOverlappingInputs v level b e = Ok (List.filter (meets b' e') files) /\
    lower ub b' /\ higher ue e' /\ (level <> O -> b' = ub /\ e' = ue) /\
    (level = O -> forall f, f ∈ files -> meets b' e' f = true -> sticks_below b' f = false /\ sticks_above e' f = false) /\
    (forall P, closed_from files ub ue P -> forall f, f ∈ files -> meets b' e' f = true -> P f).
Proof.
  intros Hr files ub ue. unfold GetOverlappingInputs. fold files ub ue.
  destruct (overlap_loop_ok (level =? 0)%nat files ub ue (S (2 * length files)) ub ue Hr) as (b' & e' & -> & H1 & H2 & H3 & H4 & H5).
  - unfold work. pose proof (count_bound (sticks_below ub) files). pose proof (count_bound (sticks_above ue) files). lia.
  - apply lower_refl.
  - apply higher_refl.
  - intros P [Hcl _] f. apply Hcl.
  - exists b', e'. split; [done|]. split; [done|]. split; [done|].
    split; [intros Hl; apply H3; by apply Nat.eqb_neq|]. split; [intros Hl; apply H4; by apply Nat.eqb_eq|done].
Qed.

(** Files that meet a file within the range meet the range. *)
Lemma meets_within b e f g :
  meets b e f = true -> sticks_below b f = false -> sticks_above e f = false -> files_meet f g = true -> meets b e g = true.
Proof.
  intros Hf Hb He Hfg. unfold files_meet in Hfg. revert Hfg. apply meets_grow.
  - intros x ->. exists (start f). split; [done|]. unfold sticks_below in Hb. apply Z.ltb_ge in Hb.
    apply cmp_sym_le. lia.
  - intros x ->. exists (limit f). split; [done|]. unfold sticks_above in He.
    destruct (Z.gtb_spec (ucmp (limit f) x) 0); [done|lia].
Qed.
End overlap.

(** ** Properties *)

Lemma in_filter {A} (P : A -> bool) l x : x ∈ List.filter P l <-> x ∈ l /\ P x = true.
Proof. rewrite !list_elem_of_In. apply filter_In. Qed.

(** [GetOverlappingInputs] ends and returns the right files: above level zero exactly
    those whose user keys meet the range, and in level zero, where files overlap each
    other and the search starts again with a wider range, the least set of files that has
    all those meeting the range and with a file every file it meets; so no older data
    for a user key stays behind when newer data is compacted. *)
Lemma overlapping_inputs_closed `{C : Comparator} `{!ComparatorLaws C} (v : Version) (level : nat) (b e : option bytes) :
  ranges_ok (files_at v level) ->
  exists inputs, GetOverlappingInputs v level b e = Ok inputs /\
    (forall f, f ∈ inputs -> f ∈ files_at v level) /\
    (forall f, f ∈ files_at v level -> meets (ExtractUserKey <$> b) (ExtractUserKey <$> e) f = true -> f ∈ inputs) /\
    (level <> O -> inputs = List.filter (meets (ExtractUserKey <$> b) (ExtractUserKey <$> e)) (files_at v level)) /\
    (level = O -> forall f g, f ∈ inputs -> g ∈ files_at v level -> files_meet f g = true -> g ∈ inputs) /\
    (forall P, closed_from (files_at v level) (ExtractUserKey <$> b) (ExtractUserKey <$> e) P ->
       forall f, f ∈ inputs -> P f).
Proof.
  intros Hr. destruct (GetOverlappingInputs_ok v level b e Hr) as (b' & e' & -> & H1 & H2 & H3 & H4 & H5).
  eexists. split; [done|]. split_and!.
  - intros f Hf. by apply in_filter in Hf as [? _].
  - intros f Hf Hm. apply in_filter. split; [done|]. by apply (meets_grow _ _ _ _ _ H1 H2).
  - intros Hl. by destruct (H3 Hl) as [-> ->].
  - intros Hl f g [Hf Hm]%in_filter Hg Hfg. apply in_filter. split; [done|]. destruct (H4 Hl f Hf Hm) as [Hb He].
    by apply (meets_within b' e' f).
  - intros P Hcl f [Hf Hm]%in_filter. by apply (H5 P Hcl).
Qed.

(** Level zero holds three files, each meeting the next. *)
Definition overlap_example : Version :=
  MkVersion [[example_file 3 "a" "c"; example_file 4 "b" "f"; example_file 5 "e" "h"; example_file 6 "m" "p"];
    []; []; []; []; []; []] None (-1) (double_of_Z 0) 0.

Lemma overlapping_inputs_closed_witness :
  exists inputs, GetOverlappingInputs (C := BytewiseComparator) overlap_example 0
      (Some (InternalKey (str "g") 0 0)) (Some (InternalKey (str "g") 0 0)) = Ok inputs /\
    example_file 3 "a" "c" ∈ inputs.
Proof.
  destruct (overlapping_inputs_closed (C := BytewiseComparator) overlap_example 0
    (Some (InternalKey (str "g") 0 0)) (Some (InternalKey (str "g") 0 0))) as (inputs & E & _ & Hin & _ & Hcl & _).
  - intros f Hf. cbn [overlap_example files_at files_ nth] in Hf. rewrite !elem_of_cons in Hf.
    destruct Hf as [->|[->|[->|[->|[]%elem_of_nil]]]]; by vm_compute.
  - exists inputs. split; [exact E|]. apply (Hcl eq_refl (example_file 4 "b" "f")).
    + apply (Hcl eq_refl (example_file 5 "e" "h")).
      * apply Hin; [right; right; left|by vm_compute].
      * right. left.
      * by vm_compute.
    + left.
    + by vm_compute.
Defined.

(** *** The level of a new table *)

(** Every level can be searched. *)
Record searchable `{C : Comparator} (v : Version) : Prop := {
  se_disjoint level : (0 < level)%nat -> disjoint_files (files_at v level) /\ keys_parse (files_at v level);
  se_length level : Z.of_nat (length (files_at v level)) < 2 ^ 31;
  se_ranges level : ranges_ok (files_at v level)
}.

Lemma OverlapInLevel_ok `{C : Comparator} `{!ComparatorLaws C} v level lo hi :
  searchable v -> exists b, OverlapInLevel v level lo hi = Ok b /\
    (b = true <-> exists f, f ∈ files_at v level /\ in_range lo hi f).
Proof.
  intros Hv. unfold OverlapInLevel. rewrite SomeFileOverlapsRange_ok.
  - eexists. split; [done|]. apply existsb_overlap.
  - intros Hl. apply (se_disjoint _ Hv). by apply Nat.ltb_lt.
  - apply (se_length _ Hv).
Qed.

Lemma pick_level_ok `{C : Comparator} `{!ComparatorLaws C} v max_file_size lo hi fuel : forall level,
  searchable v -> (forall l f, (l <= level)%nat -> f ∈ files_at v l -> ~ in_range (Some lo) (Some hi) f) ->
  exists level', pick_level fuel v max_file_size lo hi level = Ok level' /\ (level <= level' <= level + fuel)%nat /\
    forall l f, (l <= level')%nat -> f ∈ files_at v l -> ~ in_range (Some lo) (Some hi) f.
Proof.
  induction fuel as [|fuel IH]; intros level Hv Hno; cbn [pick_level]; [exists level; split; [done|]; split; [lia|done]|].
  assert (Hstay : exists level', Ok level = Ok level' /\ (level <= level' <= level + S fuel)%nat /\
    forall l f, (l <= level')%nat -> f ∈ files_at v l -> ~ in_range (Some lo) (Some hi) f)
    by (exists level; split; [done|]; split; [lia|done]).
  destruct (OverlapInLevel_ok v (S level) (Some lo) (Some hi) Hv) as (b & -> & Hb). cbn [res_bind].
  destruct b; [done|].
  assert (Hnext : exists level', pick_level fuel v max_file_size lo hi (S level) = Ok level' /\
    (level <= level' <= level + S fuel)%nat /\
    forall l f, (l <= level')%nat -> f ∈ files_at v l -> ~ in_range (Some lo) (Some hi) f).
  { destruct (IH (S level) Hv) as (level' & E & Hl & Hno').
    - intros l f Hl Hf Hin. destruct (decide (l = S level)) as [->|Hne]; [|by apply (Hno l f ltac:(lia) Hf)].
      by assert (false = true) by (apply Hb; by exists f).
    - exists level'. split; [done|]. split; [lia|done]. }
  destruct (level + 2 <? num_levels)%nat; [|done].
  destruct (GetOverlappingInputs_ok v (level + 2) (Some (InternalKey lo kMaxSequenceNumber kValueTypeForSeek))
    (Some (InternalKey hi 0 0)) (se_ranges _ Hv (level + 2))) as (b' & e' & -> & _). cbn [res_bind].
  by destruct (_ >? _).
Qed.

(** The level picked for the table of a full memtable is sound: the choice ends at a
    level of at most [kMaxMemCompactLevel], and when it is below level zero no file of
    that level or of any level above it has user keys in the range of the new table, so
    the new entries do not get under older ones and the level stays disjoint. *)
Lemma picked_level_sound `{C : Comparator} `{!ComparatorLaws C} (v : Version) (max_file_size : Z) (lo hi : bytes) :
  searchable v ->
  exists level, PickLevelForMemTableOutput v max_file_size lo hi = Ok level /\ Z.of_nat level <= kMaxMemCompactLevel /\
    ((0 < level)%nat -> forall l f, (l <= level)%nat -> f ∈ files_at v l -> ~ in_range (Some lo) (Some hi) f).
Proof.
  intros Hv. unfold PickLevelForMemTableOutput.
  destruct (OverlapInLevel_ok v 0 (Some lo) (Some hi) Hv) as (b & -> & Hb). cbn [res_bind]. destruct b; cbn [negb].
  { exists O. split; [done|]. split; [done|lia]. }
  destruct (pick_level_ok v max_file_size lo hi (Z.to_nat kMaxMemCompactLevel) 0 Hv) as (level & -> & Hl & Hno).
  - intros l f Hl Hf Hin. replace l with 0%nat in Hf by lia. by assert (false = true) by (apply Hb; by exists f).
  - exists level. split; [done|]. split; [|done]. unfold kMaxMemCompactLevel in *. lia.
Qed.

(** Level two has a file in the way. *)
Definition pick_example : Version :=
  MkVersion [[example_file 9 "a" "b"]; [example_file 3 "a" "c"]; [example_file 4 "b" "f"; example_file 5 "g" "h"];
    []; []; []; []] None (-1) (double_of_Z 0) 0.

Lemma picked_level_sound_witness :
  exists level, PickLevelForMemTableOutput (C := BytewiseComparator) pick_example 2097152 (str "d") (str "e") = Ok level /\
    (level <= 2)%nat /\ ~ in_range (C := BytewiseComparator) (Some (str "d")) (Some (str "e")) (example_file 3 "a" "c").
Proof.
  destruct (picked_level_sound (C := BytewiseComparator) pick_example 2097152 (str "d") (str "e")) as (level & E & Hl & Hno).
  - assert (Hf : forall level f, f ∈ files_at pick_example level ->
      f = example_file 9 "a" "b" \/ f = example_file 3 "a" "c" \/ f = example_file 4 "b" "f" \/ f = example_file 5 "g" "h").
    { intros level f Hf. unfold files_at in Hf. do 7 (destruct level as [|level]; [cbn [nth pick_example files_] in Hf;
        rewrite ?elem_of_cons, ?elem_of_nil in Hf; tauto|]). cbn [nth pick_example files_] in Hf.
      destruct level; by apply elem_of_nil in Hf. }
    split.
    + intros level Hl0. split; [split|].
      * intros f [->|[->|[->| ->]]]%Hf; by vm_compute.
      * intros i j f g Hij Hfi Hgj. unfold files_at in Hfi, Hgj.
        do 3 (destruct level as [|level]; [cbn [nth pick_example files_] in Hfi, Hgj;
          destruct i as [|[|i]], j as [|[|j]]; try lia; try done; injection Hfi as <-; injection Hgj as <-; by vm_compute|]).
        do 4 (destruct level as [|level]; [done|]). by destruct level.
      * intros f [->|[->|[->| ->]]]%Hf; split; vm_compute; by eexists.
    + intros level. unfold files_at. do 8 (destruct level as [|level]; [by vm_compute|]). by vm_compute.
    + intros level f [->|[->|[->| ->]]]%Hf; by vm_compute.
  - exists level. split; [exact E|]. vm_compute in E. injection E as <-. split; [lia|].
    apply (Hno ltac:(lia) 1%nat); [lia|]. by left.
Defined.
