(* ===== verification/VersionBuilder.v ===== *)
(** * Building versions from edits

    Models [VersionSet::Builder] of [cpp/leveldb/db/version_set.cc]: a base version and a
    sequence of version edits give the files of a new version, without the versions in
    between.  Reference counts and the release of the builder are left out. *)
From stdpp Require Import gmap sorting.
From S2P Require Import Prelude Coding Logging Comparator Status DbFormat Cursor Block Merger VersionEdit FileSearch Version.

(** ** The builder *)

(** [added_files] is a [std::set]: its elements in order. *)
Record LevelState := MkLevelState { ls_deleted_files : gset Z; ls_added_files : list FileMetaData }.

Record Builder := MkBuilder { base_ : Version; levels_ : list LevelState }.

Definition NewBuilder (base : Version) : Builder := MkBuilder base (replicate num_levels (MkLevelState ∅ [])).

(** Files are no longer needed after 16384 bytes of seeks, and after no fewer than 100. *)
Definition seeks_allowed (file_size : Z) : Z := Z.max (int32 (file_size / 16384)) 100.

(** [new FileMetaData(...)], with its counters set. *)
Definition added_file (f : FileMetaData) : FileMetaData :=
  MkFile 1 (seeks_allowed (file_size f)) (number f) (file_size f) (smallest f) (largest f).

(** [a[i] = ...] on an array: [Undefined] outside it. *)
Definition update_at {A} (level : Z) (f : A -> A) (l : list A) : res (list A) :=
  if (0 <=? level) && (level <? Z.of_nat (length l)) then Ok (alter f (Z.to_nat level) l) else Undefined.

(** A loop whose body may be undefined. *)
Fixpoint fold_res {A B} (f : A -> B -> res A) (a : A) (l : list B) : res A :=
  match l with
  | [] => Ok a
  | x :: l => let? a := f a x in fold_res f a l
  end.

Section builder.
Context `{C : Comparator}.
Abbreviation icmp := (Internal_Compare C).

Definition BySmallestKey (f1 f2 : FileMetaData) : bool :=
  let r := icmp (smallest f1) (smallest f2) in
  if r =? 0 then number f1 <? number f2 else r <? 0.

(** Insertion into the [std::set]: an equivalent element stays. *)
Fixpoint file_insert (f : FileMetaData) (l : list FileMetaData) : list FileMetaData :=
  match l with
  | [] => [f]
  | g :: l' => if BySmallestKey f g then f :: l else if BySmallestKey g f then g :: file_insert f l' else l
  end.

(** The compaction pointers belong to the version set. *)
Definition Builder_Apply (b : Builder) (compact_pointer_ : list bytes) (edit : VersionEdit)
    : res (Builder * list bytes) :=
  let? compact_pointer_ := fold_res (fun cp '(level, key) => update_at level (fun _ => key) cp)
    compact_pointer_ (compact_pointers_ edit) in
  let? levels := fold_res (fun levels '(level, number) =>
      update_at level (fun s => MkLevelState ({[number]} ∪ ls_deleted_files s) (ls_added_files s)) levels)
    (levels_ b) (deleted_files_ edit) in
  let? levels := fold_res (fun levels '(level, meta) =>
      let f := added_file meta in
      update_at level (fun s =>
        MkLevelState (ls_deleted_files s ∖ {[number f]}) (file_insert f (ls_added_files s))) levels)
    levels (new_files_ edit) in
  Ok (MkBuilder (base_ b) levels, compact_pointer_).

(** The range is sorted, where [std::upper_bound] gives the first element after the value:
    the elements up to it and the rest. *)
Fixpoint upper_bound (f : FileMetaData) (base : list FileMetaData) : list FileMetaData * list FileMetaData :=
  match base with
  | [] => ([], [])
  | g :: base' => if BySmallestKey f g then ([], base) else let '(l, r) := upper_bound f base' in (g :: l, r)
  end.

(** The assertion that the files of a level are disjoint is a theorem below. *)
Definition MaybeAddFile (s : LevelState) (files : list FileMetaData) (f : FileMetaData) : list FileMetaData :=
  if bool_decide (number f ∈ ls_deleted_files s) then files else files ++ [f].

Fixpoint save_level (s : LevelState) (files base added : list FileMetaData) : list FileMetaData :=
  match added with
  | [] => foldl (MaybeAddFile s) files base
  | f :: added =>
      let '(before, base) := upper_bound f base in
      save_level s (MaybeAddFile s (foldl (MaybeAddFile s) files before) f) base added
  end.

Definition SaveTo (b : Builder) (v : Version) : Version :=
  MkVersion
    (imap (fun level files =>
       let s := nth level (levels_ b) (MkLevelState ∅ []) in
       save_level s files (files_at (base_ b) level) (ls_added_files s)) (files_ v))
    (file_to_compact_ v) (file_to_compact_level_ v) (compaction_score_ v) (compaction_level_ v).
End builder.

(** ** Loops over the levels *)

(** What a list of pairs of a level and a value has for one level. *)
Definition at_level {B} (i : nat) (l : list (Z * B)) : list B :=
  omap (fun p => if decide (p.1 = Z.of_nat i) then Some p.2 else None) l.

Lemma elem_of_at_level {B} i (l : list (Z * B)) x : x ∈ at_level i l <-> (Z.of_nat i, x) ∈ l.
Proof.
  unfold at_level. rewrite list_elem_of_omap. split.
  - intros ([j y] & Hin & E). cbn in E. destruct (decide (j = Z.of_nat i)); congruence.
  - intros Hin. exists (Z.of_nat i, x). cbn. by rewrite decide_True.
Qed.

Definition levels_in {B} (n : nat) (l : list (Z * B)) : Prop := forall p, p ∈ l -> 0 <= p.1 < Z.of_nat n.

Lemma fold_update_at {A B} (g : B -> A -> A) (l : list (Z * B)) : forall (a : list A),
  levels_in (length a) l ->
  exists a', fold_res (fun a p => update_at p.1 (g p.2) a) a l = Ok a' /\ length a' = length a /\
    forall i, a' !! i = (fun s => foldl (fun s x => g x s) s (at_level i l)) <$> a !! i.
Proof.
  induction l as [|[level x] l IH]; intros a Hl.
  - exists a. split; [done|]. split; [done|]. intros i. by destruct (a !! i).
  - destruct (Hl (level, x) ltac:(left)) as [H0 H1]. cbn in H0, H1. cbn [fold_res fst snd].
    unfold update_at at 1. rewrite (proj2 (Z.leb_le _ _) H0), (proj2 (Z.ltb_lt _ _) H1). cbn [res_bind andb].
    destruct (IH (alter (g x) (Z.to_nat level) a)) as (a' & E & Hlen & Hi).
    { intros p Hp. rewrite length_alter. apply Hl. by right. }
    exists a'. split; [done|]. rewrite length_alter in Hlen. split; [done|]. intros i. rewrite Hi. cbn [at_level omap list_omap fst].
    destruct (decide (level = Z.of_nat i)) as [->|Hne].
    + rewrite Nat2Z.id, list_lookup_alter_eq. by destruct (a !! i).
    + rewrite list_lookup_alter_ne by lia. done.
Qed.

(** ** The order of files *)

Section proofs.
Context `{C : Comparator} `{!ComparatorLaws C}.
Abbreviation icmp := (Internal_Compare C).

Definition precedes (f g : FileMetaData) : Prop := BySmallestKey f g = true.

Lemma precedes_iff f g :
  precedes f g <-> icmp (smallest f) (smallest g) < 0 \/ icmp (smallest f) (smallest g) = 0 /\ number f < number g.
Proof.
  unfold precedes, BySmallestKey. destruct (Z.eqb_spec (icmp (smallest f) (smallest g)) 0); rewrite Z.ltb_lt; lia.
Qed.

#[local] Instance precedes_trans : Transitive precedes.
Proof.
  intros f g h Hfg Hgh. apply precedes_iff in Hfg, Hgh. apply precedes_iff.
  destruct Hfg as [Hfg|[Hfg Hn]], Hgh as [Hgh|[Hgh Hm]].
  - left. apply (icmp_lt_le_trans _ _ _ Hfg). lia.
  - left. apply (icmp_lt_le_trans _ _ _ Hfg). lia.
  - left. apply (icmp_le_lt_trans _ (smallest g)); [lia|done].
  - right. split; [|lia]. apply Z.le_antisymm.
    + apply (icmp_trans _ (smallest g)); lia.
    + apply Z.ge_le, icmp_sym_le. apply (icmp_trans _ (smallest g)); apply icmp_sym_le; lia.
Qed.

Lemma precedes_irrefl f : ~ precedes f f.
Proof. rewrite precedes_iff, icmp_refl. lia. Qed.

Lemma not_precedes f g : BySmallestKey f g = false -> number f <> number g -> precedes g f.
Proof.
  intros E Hn. assert (H : ~ precedes f g) by (unfold precedes; congruence). rewrite precedes_iff in H. apply precedes_iff.
  destruct (Z.lt_trichotomy (icmp (smallest f) (smallest g)) 0) as [Hlt|[He|Hgt]]; [lia| |].
  - right. split; [|lia]. apply Z.le_antisymm; [apply icmp_sym_le|apply Z.ge_le, icmp_sym_le]; lia.
  - left. by apply icmp_sym_lt, Z.lt_gt.
Qed.

(** ** Sets of files *)

Lemma file_insert_perm f l : number f ∉ number <$> l -> file_insert f l ≡ₚ f :: l.
Proof.
  induction l as [|h l IH]; cbn; intros Hn; [done|].
  apply not_elem_of_cons in Hn as [Hne Hn]. destruct (BySmallestKey f h) eqn:E1; [done|].
  destruct (BySmallestKey h f) eqn:E2; [by rewrite (IH Hn); constructor|].
  by rewrite (not_precedes _ _ E1 Hne) in E2.
Qed.

Lemma file_insert_sorted f l : StronglySorted precedes l -> StronglySorted precedes (file_insert f l).
Proof.
  induction 1 as [|g l Hs IH Hall]; cbn; [by repeat constructor|].
  destruct (BySmallestKey f g) eqn:E1.
  - constructor; [by constructor|]. constructor; [done|]. eapply (list.Forall_impl _ _ _ Hall). intros h Hh. by trans g.
  - destruct (BySmallestKey g f) eqn:E2; [|by constructor]. constructor; [done|].
    apply list.Forall_forall. intros h Hh. clear -Hh E1 E2 Hall. revert Hh. revert Hall. generalize l. intros l0.
    induction l0 as [|k l0 IH]; cbn; intros Hall Hh; [by apply list_elem_of_singleton in Hh as ->|].
    apply list.Forall_cons in Hall as [Hk Hall]. destruct (BySmallestKey f k).
    + apply elem_of_cons in Hh as [->|Hh]; [done|]. apply elem_of_cons in Hh as [->|Hh]; [done|].
      by apply (proj1 (list.Forall_forall _ _) Hall).
    + destruct (BySmallestKey k f).
      * apply elem_of_cons in Hh as [->|Hh]; [done|]. by apply IH.
      * apply elem_of_cons in Hh as [->|Hh]; [done|]. by apply (proj1 (list.Forall_forall _ _) Hall).
Qed.

(** ** Merging *)

Definition kept (s : LevelState) (f : FileMetaData) : Prop := number f ∉ ls_deleted_files s.

#[local] Instance kept_dec s f : Decision (kept s f).
Proof. unfold kept. apply _. Defined.

Lemma MaybeAddFile_eq s files f : MaybeAddFile s files f = files ++ filter (kept s) [f].
Proof.
  unfold MaybeAddFile. rewrite filter_cons, filter_nil. unfold kept.
  destruct (decide (number f ∈ ls_deleted_files s)) as [Hd|Hd].
  - rewrite bool_decide_eq_true_2 by done. rewrite decide_False by tauto. by rewrite app_nil_r.
  - rewrite bool_decide_eq_false_2 by done. by rewrite decide_True.
Qed.

Lemma foldl_MaybeAddFile s l : forall files, foldl (MaybeAddFile s) files l = files ++ filter (kept s) l.
Proof.
  induction l as [|f l IH]; intros files; cbn [foldl]; [by rewrite app_nil_r|].
  rewrite IH, MaybeAddFile_eq, <- app_assoc. by rewrite <- list.filter_app.
Qed.

(** Both lists in one order. *)
Fixpoint merged (base added : list FileMetaData) : list FileMetaData :=
  match added with
  | [] => base
  | f :: added => (upper_bound f base).1 ++ f :: merged (upper_bound f base).2 added
  end.

Lemma save_level_merged s added : forall files base,
  save_level s files base added = files ++ filter (kept s) (merged base added).
Proof.
  induction added as [|f added IH]; intros files base; cbn [save_level merged]; [apply foldl_MaybeAddFile|].
  destruct (upper_bound f base) as [l r]. cbn [fst snd]. rewrite IH, MaybeAddFile_eq, foldl_MaybeAddFile.
  rewrite list.filter_app, (filter_cons (kept s) f (merged r added)), filter_cons, filter_nil.
  by destruct (decide (kept s f)); rewrite <- ?app_assoc, ?app_nil_r.
Qed.

Lemma upper_bound_app f base : (upper_bound f base).1 ++ (upper_bound f base).2 = base.
Proof.
  induction base as [|g base IH]; cbn; [done|]. destruct (BySmallestKey f g); [done|].
  destruct (upper_bound f base). cbn in *. by rewrite IH.
Qed.

Lemma upper_bound_spec f base :
  StronglySorted precedes base ->
  (forall g, g ∈ (upper_bound f base).1 -> BySmallestKey f g = false) /\
  (forall g, g ∈ (upper_bound f base).2 -> precedes f g).
Proof.
  induction 1 as [|g base Hs IH Hall]; cbn; [by split; intros g []%elem_of_nil|].
  destruct (BySmallestKey f g) eqn:E.
  - split; [by intros h []%elem_of_nil|]. intros h [->|Hh]%elem_of_cons; [done|].
    trans g; [done|]. by apply (proj1 (list.Forall_forall _ _) Hall).
  - destruct (upper_bound f base) as [l r]. cbn in *. destruct IH as [IH1 IH2]. split; [|done].
    intros h [->|Hh]%elem_of_cons; [done|by apply IH1].
Qed.

Lemma merged_perm added : forall base, merged base added ≡ₚ base ++ added.
Proof.
  induction added as [|f added IH]; intros base; cbn [merged]; [by rewrite app_nil_r|].
  rewrite (IH _), <- Permutation_middle, app_assoc, upper_bound_app. by rewrite Permutation_middle.
Qed.

Lemma sorted_app l l' :
  StronglySorted precedes l -> StronglySorted precedes l' -> (forall f g, f ∈ l -> g ∈ l' -> precedes f g) ->
  StronglySorted precedes (l ++ l').
Proof.
  induction 1 as [|f l Hs IH Hall]; cbn; intros Hs' H; [done|]. constructor.
  - apply IH; [done|]. intros g h Hg Hh. apply H; [by right|done].
  - apply list.Forall_app. split; [done|]. apply list.Forall_forall. intros g Hg. apply H; [left|done].
Qed.

Lemma sorted_app_inv l l' :
  StronglySorted precedes (l ++ l') -> StronglySorted precedes l /\ StronglySorted precedes l'.
Proof.
  induction l as [|f l IH]; cbn; [by split; [constructor|]|]. intros [H1 H2]%StronglySorted_inv.
  apply IH in H1 as [H1 H1']. split; [|done]. constructor; [done|]. by apply list.Forall_app in H2 as [].
Qed.

Lemma merged_sorted added : forall base,
  StronglySorted precedes base -> StronglySorted precedes added -> NoDup (number <$> base ++ added) ->
  StronglySorted precedes (merged base added).
Proof.
  induction added as [|f added IH]; intros base Hb Ha Hn; cbn [merged]; [done|].
  pose proof (upper_bound_spec f base Hb) as [H1 H2]. pose proof (upper_bound_app f base) as E.
  destruct (upper_bound f base) as [l r]. cbn [fst snd] in *. subst base. apply sorted_app_inv in Hb as [Hl Hr].
  apply StronglySorted_inv in Ha as [Ha Haf]. rewrite list.Forall_forall in Haf.
  assert (Hlf : forall g, g ∈ l -> precedes g f).
  { intros g Hg. apply not_precedes; [by apply H1|]. rewrite fmap_app, fmap_app in Hn. intros En.
    apply list.NoDup_app in Hn as (_ & Hn & _). apply (Hn (number g)).
    - apply elem_of_app. left. by apply list_elem_of_fmap_2.
    - rewrite <- En. apply list_elem_of_fmap. by exists f; split; [|left]. }
  assert (Hm : forall g, g ∈ merged r added -> precedes f g).
  { intros g Hg. rewrite merged_perm in Hg. apply elem_of_app in Hg as [Hg|Hg]; [by apply H2|by apply Haf]. }
  apply sorted_app; [done| |].
  - constructor; [|by apply list.Forall_forall]. apply IH; [done..|]. rewrite !fmap_app in *. cbn [fmap list_fmap] in Hn.
    rewrite <- app_assoc in Hn. apply list.NoDup_app in Hn as (_ & _ & Hn). rewrite <- Permutation_middle in Hn.
    by apply list.NoDup_cons in Hn as [].
  - intros g h Hg [->|Hh]%elem_of_cons; [by apply Hlf|]. trans f; [by apply Hlf|by apply Hm].
Qed.

(** ** Edits *)

(** What an edit means for the files of one level. *)
Definition apply_edit (level : nat) (files : list FileMetaData) (e : VersionEdit) : list FileMetaData :=
  filter (fun f => number f ∉ at_level level (deleted_files_ e)) files ++ map added_file (at_level level (new_files_ e)).

Definition remove_number (s : LevelState) (n : Z) : LevelState :=
  MkLevelState ({[n]} ∪ ls_deleted_files s) (ls_added_files s).

Definition add_file (s : LevelState) (meta : FileMetaData) : LevelState :=
  MkLevelState (ls_deleted_files s ∖ {[number meta]}) (file_insert (added_file meta) (ls_added_files s)).

Definition level_step (level : nat) (s : LevelState) (e : VersionEdit) : LevelState :=
  foldl add_file (foldl remove_number s (at_level level (deleted_files_ e))) (at_level level (new_files_ e)).

(** The levels an edit names exist. *)
Record levels_ok (e : VersionEdit) : Prop := {
  lo_pointers : levels_in num_levels (compact_pointers_ e);
  lo_deleted : levels_in num_levels (deleted_files_ e);
  lo_new : levels_in num_levels (new_files_ e)
}.

Lemma fold_res_ext {A B} (f g : A -> B -> res A) l : (forall a x, f a x = g a x) -> forall a, fold_res f a l = fold_res g a l.
Proof. intros H. induction l as [|x l IH]; intros a; cbn; [done|]. rewrite H. by destruct (g a x); cbn. Qed.

Lemma Apply_ok b cp e :
  length (levels_ b) = num_levels -> length cp = num_levels -> levels_ok e ->
  exists levels cp', Builder_Apply b cp e = Ok (MkBuilder (base_ b) levels, cp') /\
    length levels = num_levels /\ length cp' = num_levels /\
    (forall i, levels !! i = (fun s => level_step i s e) <$> levels_ b !! i) /\
    (forall i, cp' !! i = (fun key => foldl (fun _ k => k) key (at_level i (compact_pointers_ e))) <$> cp !! i).
Proof.
  intros Hb Hcp [Hp Hd Hn].
  destruct (fold_update_at (fun key _ => key) (compact_pointers_ e) cp) as (cp' & E1 & L1 & I1); [by rewrite Hcp|].
  destruct (fold_update_at (fun n s => remove_number s n) (deleted_files_ e) (levels_ b)) as (l1 & E2 & L2 & I2); [by rewrite Hb|].
  destruct (fold_update_at (fun m s => add_file s m) (new_files_ e) l1) as (l2 & E3 & L3 & I3); [by rewrite L2, Hb|].
  exists l2, cp'. split_and!; [|lia..| |].
  - unfold Builder_Apply. erewrite (fold_res_ext _ _ _ _ cp), E1. cbn [res_bind].
    erewrite (fold_res_ext _ _ _ _ (levels_ b)), E2. cbn [res_bind].
    erewrite (fold_res_ext _ _ _ _ l1), E3. done.
    Unshelve. all: by intros ? [].
  - intros i. rewrite I3, I2. by destruct (levels_ b !! i).
  - done.
Qed.

Lemma removes_ok l : forall s,
  ls_added_files (foldl remove_number s l) = ls_added_files s /\
  forall n, n ∈ ls_deleted_files (foldl remove_number s l) <-> n ∈ l \/ n ∈ ls_deleted_files s.
Proof.
  induction l as [|m l IH]; intros s; cbn [foldl]; [split; [done|]; intros n; rewrite elem_of_nil; tauto|].
  destruct (IH (remove_number s m)) as [-> H]. split; [done|]. intros n. rewrite H. cbn. rewrite elem_of_union, elem_of_singleton, elem_of_cons. tauto.
Qed.

Lemma adds_ok l : forall s,
  StronglySorted precedes (ls_added_files s) ->
  NoDup (number <$> ls_added_files s ++ map added_file l) ->
  StronglySorted precedes (ls_added_files (foldl add_file s l)) /\
  ls_added_files (foldl add_file s l) ≡ₚ ls_added_files s ++ map added_file l /\
  forall n, n ∈ ls_deleted_files (foldl add_file s l) <-> n ∈ ls_deleted_files s /\ n ∉ number <$> l.
Proof.
  induction l as [|m l IH]; intros s Hs Hn; cbn [foldl map] in *.
  { rewrite app_nil_r. split_and!; [done..|]. intros n. cbn. rewrite elem_of_nil. tauto. }
  assert (Hp : file_insert (added_file m) (ls_added_files s) ≡ₚ added_file m :: ls_added_files s).
  { apply file_insert_perm. rewrite fmap_app in Hn. apply list.NoDup_app in Hn as (_ & Hn & _).
    intros Hin. apply (Hn _ Hin). cbn. left. }
  destruct (IH (add_file s m)) as (I1 & I2 & I3).
  - by apply file_insert_sorted.
  - cbn [add_file ls_added_files]. rewrite Hp. by rewrite <- Permutation_middle in Hn.
  - split; [done|]. split.
    + rewrite I2. cbn [add_file ls_added_files]. rewrite Hp. by rewrite <- Permutation_middle.
    + intros n. rewrite I3. cbn. rewrite elem_of_difference, elem_of_singleton, not_elem_of_cons. tauto.
Qed.

(** A level of the builder, and the files the edits so far mean for it. *)
Record builds (base : list FileMetaData) (files : list FileMetaData) (s : LevelState) : Prop := {
  bs_sorted : StronglySorted precedes (ls_added_files s);
  bs_files : filter (kept s) (base ++ ls_added_files s) ≡ₚ files
}.

Lemma filter_agree {A} (P Q : A -> Prop) `{!forall x, Decision (P x), !forall x, Decision (Q x)} (l : list A) :
  (forall x, x ∈ l -> P x <-> Q x) -> filter P l = filter Q l.
Proof.
  induction l as [|x l IH]; intros HP; [done|]. rewrite !filter_cons, IH by (intros y Hy; apply HP; by right).
  destruct (HP x ltac:(left)). by destruct (decide (P x)), (decide (Q x)); try tauto.
Qed.

Lemma filter_all {A} (P : A -> Prop) `{!forall x, Decision (P x)} (l : list A) : (forall x, x ∈ l -> P x) -> filter P l = l.
Proof.
  induction l as [|x l IH]; intros HP; [done|]. rewrite filter_cons, decide_True by (apply HP; left).
  f_equal. apply IH. intros y Hy. apply HP. by right.
Qed.

Lemma level_step_ok base files s e level :
  builds base files s ->
  NoDup (number <$> (base ++ ls_added_files s) ++ map added_file (at_level level (new_files_ e))) ->
  builds base (apply_edit level files e) (level_step level s e) /\
  ls_added_files (level_step level s e) ≡ₚ ls_added_files s ++ map added_file (at_level level (new_files_ e)).
Proof.
  intros [Hs Hf] Hn. unfold level_step. set (dels := at_level level (deleted_files_ e)) in *.
  set (news := at_level level (new_files_ e)) in *.
  destruct (removes_ok dels s) as [Ha Hd]. set (s1 := foldl remove_number s dels) in *.
  assert (Hn' : NoDup (number <$> ls_added_files s1 ++ map added_file news)).
  { rewrite Ha. rewrite <- app_assoc, fmap_app in Hn. by apply list.NoDup_app in Hn as (_ & _ & Hn). }
  destruct (adds_ok news s1) as (I1 & I2 & I3); [by rewrite Ha|done|]. rewrite Ha in I2. split; [|done]. split; [done|].
  rewrite I2, app_assoc, list.filter_app. rewrite (filter_all _ (map added_file news)).
  2: { intros f (m & -> & Hm)%list_elem_of_fmap. unfold kept. rewrite I3. cbn. intros [_ Hx]. apply Hx. by apply list_elem_of_fmap_2. }
  unfold apply_edit. fold dels news. apply Permutation_app_tail. rewrite <- Hf, list_filter_filter.
  apply reflexive_eq, filter_agree. intros f Hin. unfold kept. rewrite I3, Hd.
  assert (Hx : number f ∉ number <$> news).
  { intros Hx. rewrite fmap_app in Hn. apply list.NoDup_app in Hn as (_ & Hn & _).
    apply (Hn (number f)); [by apply list_elem_of_fmap_2|].
    apply list_elem_of_fmap in Hx as (m & E & Hm). rewrite E. apply list_elem_of_fmap. exists (added_file m). split; [done|].
    by apply list_elem_of_fmap_2. }
  tauto.
Qed.

Definition new_at (level : nat) (e : VersionEdit) : list FileMetaData := map added_file (at_level level (new_files_ e)).

Definition pointer_after (level : nat) (key : bytes) (e : VersionEdit) : bytes :=
  foldl (fun _ k => k) key (at_level level (compact_pointers_ e)).

Lemma fmap_app_perm (l1 l2 l3 : list FileMetaData) (x y : list FileMetaData) :
  x ≡ₚ l1 ++ l2 -> NoDup (number <$> y ++ l1 ++ l2 ++ l3) -> NoDup (number <$> y ++ x ++ l3).
Proof. intros ->. by rewrite <- !app_assoc. Qed.

(** Applies the edits in turn. *)
Definition Apply_all (b : Builder) (cp : list bytes) (es : list VersionEdit) : res (Builder * list bytes) :=
  fold_res (fun p e => Builder_Apply p.1 p.2 e) (b, cp) es.

Lemma Apply_all_ok es : forall b cp (files : nat -> list FileMetaData),
  length (levels_ b) = num_levels -> length cp = num_levels -> (forall e, e ∈ es -> levels_ok e) ->
  (forall level s, levels_ b !! level = Some s -> builds (files_at (base_ b) level) (files level) s /\
    NoDup (number <$> files_at (base_ b) level ++ ls_added_files s ++ concat (map (new_at level) es))) ->
  exists b' cp', Apply_all b cp es = Ok (b', cp') /\ base_ b' = base_ b /\
    length (levels_ b') = num_levels /\ length cp' = num_levels /\
    (forall level s, levels_ b' !! level = Some s ->
      builds (files_at (base_ b) level) (foldl (apply_edit level) (files level) es) s /\
      NoDup (number <$> files_at (base_ b) level ++ ls_added_files s)) /\
    (forall level, cp' !! level = (fun key => foldl (pointer_after level) key es) <$> cp !! level).
Proof.
  induction es as [|e es IH]; intros b cp files Hb Hcp Hes Hl.
  - exists b, cp. split_and!; [done..| |].
    + intros level s Hs. destruct (Hl _ _ Hs) as [H1 H2]. cbn in H2. by rewrite app_nil_r in H2.
    + intros level. cbn. by destruct (cp !! level).
  - destruct (Apply_ok b cp e Hb Hcp) as (levels & cp1 & E & L1 & L2 & Hi & Hc); [apply Hes; left|].
    destruct (IH (MkBuilder (base_ b) levels) cp1 (fun level => apply_edit level (files level) e)) as (b' & cp' & E' & Hb' & L1' & L2' & Hi' & Hc').
    + done.
    + done.
    + intros e' He'. apply Hes. by right.
    + cbn [levels_ base_]. intros level s Hs. rewrite Hi in Hs. destruct (levels_ b !! level) as [s0|] eqn:Es; [|done].
      cbn in Hs. injection Hs as <-. destruct (Hl _ _ Es) as [H1 H2]. cbn [map concat] in H2.
      destruct (level_step_ok _ _ _ e level H1) as [G1 G2].
      { rewrite !app_assoc, fmap_app in H2. by apply list.NoDup_app in H2 as [H2 _]. }
      split; [done|]. eapply fmap_app_perm; [apply G2|]. done.
    + exists b', cp'. split_and!; [|done..| |].
      * unfold Apply_all in *. cbn [fold_res fst snd]. by rewrite E.
      * apply Hi'.
      * intros level. rewrite Hc', Hc. by destruct (cp !! level).
Qed.

(** Files that do not overlap one another. *)
Definition apart (files : list FileMetaData) : Prop :=
  (forall f, f ∈ files -> icmp (smallest f) (largest f) <= 0) /\
  (forall f g, f ∈ files -> g ∈ files ->
    f = g \/ icmp (largest f) (smallest g) < 0 \/ icmp (largest g) (smallest f) < 0).

Lemma sorted_lookup l i j f g :
  StronglySorted precedes l -> (i < j)%nat -> l !! i = Some f -> l !! j = Some g -> precedes f g.
Proof.
  intros Hs Hij Hi Hj. rewrite <- (take_drop (S i) l) in Hs. rewrite (take_S_r _ _ _ Hi), <- app_assoc in Hs.
  apply sorted_app_inv in Hs as [_ [_ Hall]%StronglySorted_inv]. rewrite list.Forall_forall in Hall. apply Hall.
  cbn [app]. apply list_elem_of_lookup. exists (j - S i)%nat. rewrite lookup_drop. by replace (S i + (j - S i))%nat with j by lia.
Qed.

Lemma sorted_apart l : StronglySorted precedes l -> apart l -> disjoint_files l.
Proof.
  intros Hs [Hr Ha]. split; [done|]. intros i j f g Hij Hi Hj.
  pose proof (sorted_lookup _ _ _ _ _ Hs Hij Hi Hj) as Hp.
  assert (Hf : f ∈ l) by by apply (list_elem_of_lookup_2 _ i). assert (Hg : g ∈ l) by by apply (list_elem_of_lookup_2 _ j).
  destruct (Ha f g Hf Hg) as [->|[Hlt|Hgt]]; [by apply precedes_irrefl in Hp|done|]. exfalso.
  assert (icmp (smallest f) (smallest g) <= 0) by (apply precedes_iff in Hp; lia).
  pose proof (icmp_le_lt_trans _ _ _ (icmp_trans _ _ _ H (Hr g Hg)) Hgt) as Hx. rewrite icmp_refl in Hx. lia.
Qed.

Lemma apart_perm l l' : l ≡ₚ l' -> apart l -> apart l'.
Proof. intros Hp [H1 H2]. split; intros f; [|intros g]; rewrite <- !Hp; [apply H1|apply H2]. Qed.

Lemma SaveTo_files b level s :
  levels_ b !! level = Some s -> (level < num_levels)%nat ->
  files_at (SaveTo b NewVersion) level = filter (kept s) (merged (files_at (base_ b) level) (ls_added_files s)).
Proof.
  intros Hs Hl. unfold files_at at 1, SaveTo. cbn [files_ NewVersion].
  apply nth_lookup_Some. rewrite list_lookup_imap, lookup_replicate_2 by done. cbn.
  rewrite save_level_merged. do 2 f_equal. by rewrite (nth_lookup_Some _ _ _ _ Hs).
Qed.

Lemma sorted_filter (P : FileMetaData -> Prop) `{!forall x, Decision (P x)} l :
  StronglySorted precedes l -> StronglySorted precedes (filter P l).
Proof.
  induction 1 as [|f l Hs IH Hall]; [constructor|]. rewrite filter_cons. destruct (decide (P f)); [|done].
  constructor; [done|]. rewrite list.Forall_forall in *. intros g [_ Hg]%list_elem_of_filter. by apply Hall.
Qed.

(** What a builder starts from: levels in order, and edits whose new files have numbers
    the level does not have and has not had. *)
Record buildable (v : Version) (es : list VersionEdit) : Prop := {
  bd_sorted level : StronglySorted precedes (files_at v level);
  bd_levels e : e ∈ es -> levels_ok e;
  bd_fresh level : NoDup (number <$> files_at v level ++ concat (map (new_at level) es))
}.

Lemma builder_ok v es cp :
  buildable v es -> length cp = num_levels ->
  exists b cp', Apply_all (NewBuilder v) cp es = Ok (b, cp') /\ length cp' = num_levels /\
    (forall level, cp' !! level = (fun key => foldl (pointer_after level) key es) <$> cp !! level) /\
    forall level, (level < num_levels)%nat ->
      files_at (SaveTo b NewVersion) level ≡ₚ foldl (apply_edit level) (files_at v level) es /\
      StronglySorted precedes (files_at (SaveTo b NewVersion) level).
Proof.
  intros [Hs Hl Hf] Hcp.
  destruct (Apply_all_ok es (NewBuilder v) cp (files_at v)) as (b & cp' & E & Hb & L1 & L2 & Hi & Hc); [done|done|done| |].
  { cbn [levels_ base_ NewBuilder]. intros level s [-> _]%lookup_replicate_1. cbn. split; [|apply Hf]. split; [constructor|].
    cbn. rewrite app_nil_r. rewrite filter_all; [done|]. intros f _. unfold kept. cbn. apply not_elem_of_empty. }
  exists b, cp'. split_and!; [done..|]. cbn [base_ NewBuilder] in Hb, Hi. intros level Hlevel.
  destruct (lookup_lt_is_Some_2 (levels_ b) level) as [s E']; [lia|]. destruct (Hi _ _ E') as [[G1 G2] G3].
  rewrite (SaveTo_files _ _ _ E' Hlevel), Hb. split.
  - by rewrite merged_perm.
  - by apply sorted_filter, merged_sorted.
Qed.
End proofs.

(** C25. Building a version from a base and a sequence of edits gives, in every level,
    exactly the files that applying the edits one after the other to the base gives: those
    not deleted by a later edit than the one that added them.  They come out in the order
    of their smallest keys; above level zero, when these files do not overlap, they are a
    sorted level, so the assertions of the code hold.  The compaction pointer of each
    level is the last one set. *)
Theorem builder_applies_edits `{C : Comparator} `{!ComparatorLaws C} (v : Version) (es : list VersionEdit) (cp : list bytes) :
  buildable v es -> length cp = num_levels ->
  exists b cp', Apply_all (NewBuilder v) cp es = Ok (b, cp') /\
    (forall level, cp' !! level = (fun key => foldl (pointer_after level) key es) <$> cp !! level) /\
    forall level, (level < num_levels)%nat ->
      let files := files_at (SaveTo b NewVersion) level in
      files ≡ₚ foldl (apply_edit level) (files_at v level) es /\
      StronglySorted precedes files /\
      (apart (foldl (apply_edit level) (files_at v level) es) -> disjoint_files files).
Proof.
  intros Hb Hcp. destruct (builder_ok v es cp Hb Hcp) as (b & cp' & E & _ & Hc & Hl). exists b, cp'. split_and!; [done..|].
  intros level Hlevel. destruct (Hl level Hlevel) as [H1 H2]. split_and!; [done..|]. intros Ha.
  apply sorted_apart; [done|]. by eapply apart_perm.
Qed.

Definition edit_file (n : Z) (a b : String.string) : FileMetaData :=
  NewFileMetaData n 40000000 (InternalKey (str a) n kTypeValue) (InternalKey (str b) n kTypeValue).

Definition example_base : Version :=
  MkVersion ([] :: [edit_file 3 "a" "c"; edit_file 4 "p" "q"] :: replicate 5 []) None (-1) (double_of_Z (-1)) (-1).

Definition add (e : VersionEdit) (level : Z) (f : FileMetaData) : VersionEdit :=
  AddFile e level (number f) (file_size f) (smallest f) (largest f).

Definition example_edits : list VersionEdit :=
  [ add (add NewVersionEdit 0 (edit_file 7 "d" "z")) 1 (edit_file 6 "e" "f");
    SetCompactPointer (RemoveFile (RemoveFile (add NewVersionEdit 1 (edit_file 8 "b" "d")) 1 3) 0 7) 1 (smallest (edit_file 8 "b" "d")) ].

Lemma example_buildable : buildable (C := BytewiseComparator) example_base example_edits.
Proof.
  split.
  - intros level. do 8 (destruct level as [|level]; [cbn; repeat constructor; vm_compute; reflexivity|]).
    unfold files_at. cbn. destruct level; constructor.
  - unfold example_edits. intros e He. repeat (apply elem_of_cons in He as [->|He]; [split; intros p Hp; cbn in Hp;
      repeat (apply elem_of_cons in Hp as [->|Hp]; [by vm_compute|]); by apply elem_of_nil in Hp|]).
    by apply elem_of_nil in He.
  - intros level. do 2 (destruct level as [|level]; [apply (bool_decide_unpack _); vm_compute; reflexivity|]).
    assert (E : files_at example_base (S (S level)) = []) by (do 6 (destruct level as [|level]; [done|]); done).
    rewrite E. unfold example_edits, new_at. cbn [map concat]. unfold at_level. cbn [new_files_ add AddFile omap list_omap NewVersionEdit app SetCompactPointer RemoveFile fst].
    rewrite !decide_False by lia. constructor.
Qed.

Lemma builder_applies_edits_witness :
  exists b cp', Apply_all (C := BytewiseComparator) (NewBuilder example_base) (replicate num_levels []) example_edits = Ok (b, cp') /\
    number <$> files_at (SaveTo (C := BytewiseComparator) b NewVersion) 1 ≡ₚ [4; 6; 8].
Proof.
  destruct (builder_applies_edits (C := BytewiseComparator) example_base example_edits (replicate num_levels []) example_buildable eq_refl)
    as (b & cp' & E & _ & Hl).
  exists b, cp'. split; [exact E|]. destruct (Hl 1%nat) as [Hp _]; [by apply Nat.ltb_lt|]. rewrite Hp.
  apply reflexive_eq. reflexivity.
Defined.
