(* ===== verification/VersionSet.v ===== *)
(** * The version set

    Models the state of [VersionSet] of [cpp/leveldb/db/version_set.h] and
    [cpp/leveldb/db/version_set.cc]: the live versions with their reference counts, the
    current one, the counters of files and sequence numbers, and the queries about levels.
    The manifest is in [Manifest], compactions are in [Compaction].

    A version is reached through an identity that stands for its address; the linked list
    of versions is a list of nodes.  [assert]s on arguments are preconditions. *)
From Stdlib Require Import Floats.SpecFloat.
From stdpp Require Import gmap relations.
From S2P Require Import Prelude Coding Logging Comparator Status DbFormat Cursor Block Merger VersionEdit FileSearch Version Overlap VersionBuilder.

Record VersionNode := MkNode { vn_id : Z; refs_ : Z; vn_version : Version }.

(** [versions_] is the list from [dummy_versions_.next_] on; [next_id_] is the identity
    the next version gets.  [W] is the type of open files; the descriptor log is its file
    with the position in the block. *)
Record VersionSet (W : Type) := MkSet {
  vs_next_file_number_ : Z;
  manifest_file_number_ : Z;
  vs_last_sequence_ : Z;
  vs_log_number_ : Z;
  vs_prev_log_number_ : Z;
  descriptor_log_ : option (W * Z);
  versions_ : list VersionNode;
  next_id_ : Z;
  current_ : option Z;
  compact_pointer_ : list bytes
}.
Arguments MkSet {W}.
Arguments vs_next_file_number_ {W}.
Arguments manifest_file_number_ {W}.
Arguments vs_last_sequence_ {W}.
Arguments vs_log_number_ {W}.
Arguments vs_prev_log_number_ {W}.
Arguments descriptor_log_ {W}.
Arguments versions_ {W}.
Arguments next_id_ {W}.
Arguments current_ {W}.
Arguments compact_pointer_ {W}.

Section set.
Context {W : Type}.
Implicit Type vs : VersionSet W.

Definition set_next_file vs n :=
  MkSet n (manifest_file_number_ vs) (vs_last_sequence_ vs) (vs_log_number_ vs) (vs_prev_log_number_ vs)
    (descriptor_log_ vs) (versions_ vs) (next_id_ vs) (current_ vs) (compact_pointer_ vs).
Definition set_manifest vs n :=
  MkSet (vs_next_file_number_ vs) n (vs_last_sequence_ vs) (vs_log_number_ vs) (vs_prev_log_number_ vs)
    (descriptor_log_ vs) (versions_ vs) (next_id_ vs) (current_ vs) (compact_pointer_ vs).
Definition set_sequence vs n :=
  MkSet (vs_next_file_number_ vs) (manifest_file_number_ vs) n (vs_log_number_ vs) (vs_prev_log_number_ vs)
    (descriptor_log_ vs) (versions_ vs) (next_id_ vs) (current_ vs) (compact_pointer_ vs).
Definition set_logs vs log prev_log :=
  MkSet (vs_next_file_number_ vs) (manifest_file_number_ vs) (vs_last_sequence_ vs) log prev_log
    (descriptor_log_ vs) (versions_ vs) (next_id_ vs) (current_ vs) (compact_pointer_ vs).
Definition set_descriptor vs (d : option (W * Z)) :=
  MkSet (vs_next_file_number_ vs) (manifest_file_number_ vs) (vs_last_sequence_ vs) (vs_log_number_ vs)
    (vs_prev_log_number_ vs) d (versions_ vs) (next_id_ vs) (current_ vs) (compact_pointer_ vs).
Definition set_versions vs l id c :=
  MkSet (vs_next_file_number_ vs) (manifest_file_number_ vs) (vs_last_sequence_ vs) (vs_log_number_ vs)
    (vs_prev_log_number_ vs) (descriptor_log_ vs) l id c (compact_pointer_ vs).
Definition set_pointers vs p :=
  MkSet (vs_next_file_number_ vs) (manifest_file_number_ vs) (vs_last_sequence_ vs) (vs_log_number_ vs)
    (vs_prev_log_number_ vs) (descriptor_log_ vs) (versions_ vs) (next_id_ vs) (current_ vs) p.

(** ** Versions and references *)

Definition find_version vs (id : Z) : res Version :=
  match List.find (fun n => vn_id n =? id) (versions_ vs) with
  | Some n => Ok (vn_version n)
  | None => Undefined
  end.

(** [current()]: null until the constructor ends. *)
Definition current vs : res Version :=
  match current_ vs with Some id => find_version vs id | None => Undefined end.

Definition Version_Ref vs (id : Z) : VersionSet W :=
  set_versions vs
    (map (fun n => if vn_id n =? id then MkNode (vn_id n) (refs_ n + 1) (vn_version n) else n) (versions_ vs))
    (next_id_ vs) (current_ vs).

(** The destructor takes the version out of the list. *)
Definition Version_Unref vs (id : Z) : VersionSet W :=
  set_versions vs
    (flat_map (fun n => if vn_id n =? id then
         if refs_ n - 1 =? 0 then [] else [MkNode (vn_id n) (refs_ n - 1) (vn_version n)] else [n]) (versions_ vs))
    (next_id_ vs) (current_ vs).

Definition AppendVersion vs (v : Version) : VersionSet W :=
  let vs := match current_ vs with Some id => Version_Unref vs id | None => vs end in
  let id := next_id_ vs in
  set_versions vs (versions_ vs ++ [MkNode id 1 v]) (id + 1) (Some id).

Definition NewVersionSet : VersionSet W :=
  AppendVersion (MkSet 2 0 0 0 0 None [] 0 None (replicate num_levels [])) NewVersion.

(** Changes the fields of a version in place. *)
Definition update_version vs (id : Z) (f : Version -> Version) : VersionSet W :=
  set_versions vs
    (map (fun n => if vn_id n =? id then MkNode (vn_id n) (refs_ n) (f (vn_version n)) else n) (versions_ vs))
    (next_id_ vs) (current_ vs).

(** ** Counters *)

Definition NewFileNumber vs : Z * VersionSet W :=
  (vs_next_file_number_ vs, set_next_file vs (u64 (vs_next_file_number_ vs + 1))).

Definition ReuseFileNumber vs (file_number : Z) : VersionSet W :=
  if vs_next_file_number_ vs =? u64 (file_number + 1) then set_next_file vs file_number else vs.

Definition SetLastSequenceNumber vs (s : Z) : VersionSet W := set_sequence vs s.

Definition MarkFileNumberUsed vs (number : Z) : VersionSet W :=
  if vs_next_file_number_ vs <=? number then set_next_file vs (u64 (number + 1)) else vs.

(** ** Queries *)

Definition NumLevelFiles vs (level : nat) : res Z :=
  let? v := current vs in Ok (NumFiles v level).

Definition NumLevelBytes vs (level : nat) : res Z :=
  let? v := current vs in Ok (TotalFileSize (files_at v level)).

Definition double_le (x y : double) : bool := SFleb x y.
Definition double_lt (x y : double) : bool := SFltb x y.

Definition NeedsCompaction vs : res bool :=
  let? v := current vs in
  Ok (double_le (double_of_Z 1) (compaction_score_ v) || bool_decide (is_Some (file_to_compact_ v))).

(** [%d] *)
Definition print_int (n : Z) : bytes := if n <? 0 then str "-" ++ decimal (- n) else decimal n.

(** [snprintf] into a buffer of 100 characters. *)
Definition LevelSummary vs : res bytes :=
  let? v := current vs in
  let sizes := map (fun level => str " " ++ print_int (NumFiles v level)) (seq 0 num_levels) in
  Ok (take 99 (str "files[" ++ concat sizes ++ str " ]")).

Definition AddLiveFiles vs (live : gset Z) : gset Z :=
  foldl (fun live n => foldl (fun live files => foldl (fun live f => {[number f]} ∪ live) live files)
    live (files_ (vn_version n))) live (versions_ vs).

(** The score of a level: level zero by its number of files, the others by their bytes. *)
Definition level_score (v : Version) (level : nat) : double :=
  if (level =? 0)%nat then double_div (double_of_Z (Z.of_nat (length (files_at v level)))) (double_of_Z kL0_CompactionTrigger)
  else double_div (double_of_Z (u64 (TotalFileSize (files_at v level)))) (MaxBytesForLevel level).

Definition Finalize (v : Version) : Version :=
  let '(best_level, best_score) :=
    foldl (fun '(best_level, best_score) level =>
        let score := level_score v level in
        if double_lt best_score score then (Z.of_nat level, score) else (best_level, best_score))
      (-1, double_of_Z (-1)) (seq 0 (num_levels - 1)) in
  MkVersion (files_ v) (file_to_compact_ v) (file_to_compact_level_ v) best_score best_level.

Section overlaps.
Context `{C : Comparator}.
Abbreviation icmp := (Internal_Compare C).

Definition MaxNextLevelOverlappingBytes vs : res Z :=
  let? v := current vs in
  fold_res (fun result level =>
      fold_res (fun result f =>
          let? overlaps := GetOverlappingInputs v (S level) (Some (smallest f)) (Some (largest f)) in
          let sum := TotalFileSize overlaps in
          Ok (if sum >? result then sum else result))
        result (files_at v level))
    0 (seq 1 (num_levels - 2)).

(** [table_offset] is [ApproximateOffsetOf] of the table of a file, or nothing when the
    table cannot be opened. *)
Fixpoint level_offset {T} (table_offset : T -> FileMetaData -> bytes -> res (T * option Z)) (cache : T)
    (result : Z) (level : nat) (files : list FileMetaData) (ikey : bytes) : res (T * Z) :=
  match files with
  | [] => Ok (cache, result)
  | f :: files =>
      if icmp (largest f) ikey <=? 0 then level_offset table_offset cache (u64 (result + file_size f)) level files ikey
      else if icmp (smallest f) ikey >? 0 then
        if (0 <? level)%nat then Ok (cache, result) else level_offset table_offset cache result level files ikey
      else
        let? r := table_offset cache f ikey in
        level_offset table_offset r.1 (match r.2 with Some n => u64 (result + n) | None => result end) level files ikey
  end.

Definition VersionSet_ApproximateOffsetOf {T} (table_offset : T -> FileMetaData -> bytes -> res (T * option Z))
    (cache : T) (v : Version) (ikey : bytes) : res (T * Z) :=
  fold_res (fun r level => level_offset table_offset r.1 r.2 level (files_at v level) ikey) (cache, 0) (seq 0 num_levels).
End overlaps.
End set.

Lemma Finalize_files v level : files_at (Finalize v) level = files_at v level.
Proof. unfold Finalize. by destruct (foldl _ _ _). Qed.

(** ** References keep versions alive *)

Section refs.
Context {W : Type}.
Implicit Type vs : VersionSet W.

(** What clients do: take a reference to the current version, give one back, install a
    new version, change the statistics of a version, the counters or the descriptor.  [held] lists the references given
    out, with the files the version had then. *)
Inductive version_step : VersionSet W * list (Z * list (list FileMetaData)) ->
    VersionSet W * list (Z * list (list FileMetaData)) -> Prop :=
| step_ref vs held id v : current_ vs = Some id -> find_version vs id = Ok v ->
    version_step (vs, held) (Version_Ref vs id, (id, files_ v) :: held)
| step_unref vs held held1 held2 id fs : held = held1 ++ (id, fs) :: held2 ->
    version_step (vs, held) (Version_Unref vs id, held1 ++ held2)
| step_append vs held v :
    version_step (vs, held) (AppendVersion vs v, held)
| step_update vs held id f : (forall v, files_ (f v) = files_ v) ->
    version_step (vs, held) (update_version vs id f, held)
| step_counters vs vs' held : versions_ vs' = versions_ vs -> next_id_ vs' = next_id_ vs -> current_ vs' = current_ vs ->
    version_step (vs, held) (vs', held).

Definition version_run := rtc version_step.

Definition holders (held : list (Z * list (list FileMetaData))) (id : Z) : Z :=
  Z.of_nat (length (filter (fun p => p.1 = id) held)).

Definition owner vs (id : Z) : Z := if decide (current_ vs = Some id) then 1 else 0.

Record refs_ok vs (held : list (Z * list (list FileMetaData))) : Prop := {
  ro_ids : NoDup (vn_id <$> versions_ vs);
  ro_next n : n ∈ versions_ vs -> vn_id n < next_id_ vs;
  ro_refs n : n ∈ versions_ vs -> refs_ n = holders held (vn_id n) + owner vs (vn_id n) /\ 0 < refs_ n;
  ro_held id fs : (id, fs) ∈ held -> exists n, n ∈ versions_ vs /\ vn_id n = id /\ files_ (vn_version n) = fs;
  ro_current : exists n, n ∈ versions_ vs /\ current_ vs = Some (vn_id n)
}.

Lemma find_node vs n : NoDup (vn_id <$> versions_ vs) -> n ∈ versions_ vs -> find_version vs (vn_id n) = Ok (vn_version n).
Proof.
  unfold find_version. induction (versions_ vs) as [|m l IH]; intros Hn Hin; [by apply elem_of_nil in Hin|].
  cbn. cbn in Hn. apply list.NoDup_cons in Hn as [Hm Hn]. destruct (Z.eqb_spec (vn_id m) (vn_id n)) as [E|Hne].
  - apply elem_of_cons in Hin as [->|Hin]; [done|]. exfalso. apply Hm. rewrite E. by apply list_elem_of_fmap_2.
  - apply elem_of_cons in Hin as [->|Hin]; [done|]. by apply IH.
Qed.

Lemma holders_nonneg held id : 0 <= holders held id.
Proof. unfold holders. lia. Qed.

Lemma holders_cons held id fs i : holders ((id, fs) :: held) i = holders held i + (if decide (id = i) then 1 else 0).
Proof. unfold holders. rewrite filter_cons. cbn. destruct (decide (id = i)); cbn [length]; lia. Qed.

Lemma holders_middle held1 held2 id fs i :
  holders (held1 ++ (id, fs) :: held2) i = holders (held1 ++ held2) i + (if decide (id = i) then 1 else 0).
Proof.
  unfold holders. rewrite !list.filter_app, filter_cons. cbn. destruct (decide (id = i)); rewrite !length_app; cbn [length]; lia.
Qed.

Lemma holders_pos held id fs : (id, fs) ∈ held -> 0 < holders held id.
Proof.
  intros Hin. unfold holders. assert (H : (id, fs) ∈ filter (fun p => p.1 = id) held) by by apply list_elem_of_filter.
  destruct (filter _ held); [by apply elem_of_nil in H|cbn [length]; lia].
Qed.

(** The nodes after giving a reference back. *)
Lemma unref_elem vs id n :
  n ∈ versions_ (Version_Unref vs id) <->
  exists m, m ∈ versions_ vs /\ vn_id n = vn_id m /\ vn_version n = vn_version m /\
    (if decide (vn_id m = id) then refs_ m <> 1 /\ refs_ n = refs_ m - 1 else refs_ n = refs_ m).
Proof.
  cbn. rewrite list_elem_of_In, in_flat_map. split.
  - intros (m & Hm & Hn). exists m. rewrite list_elem_of_In. split; [done|].
    destruct (Z.eqb_spec (vn_id m) id); [rewrite decide_True by done|rewrite decide_False by done].
    + destruct (Z.eqb_spec (refs_ m - 1) 0); [done|]. destruct Hn as [<-|[]]. split_and!; cbn; (done || lia).
    + by destruct Hn as [<-|[]].
  - intros (m & Hm & E1 & E2 & H). exists m. rewrite <- list_elem_of_In. split; [done|]. destruct n as [i r v]. cbn in *. subst i v.
    destruct (Z.eqb_spec (vn_id m) id).
    + rewrite decide_True in H by done. destruct H as [H1 ->]. destruct (Z.eqb_spec (refs_ m - 1) 0); [lia|by left].
    + rewrite decide_False in H by done. subst r. left. by destruct m.
Qed.

Lemma unref_ids vs id : vn_id <$> versions_ (Version_Unref vs id) `sublist_of` vn_id <$> versions_ vs.
Proof.
  cbn. induction (versions_ vs) as [|m l IH]; cbn; [done|]. rewrite fmap_app.
  destruct (_ =? id); [destruct (_ =? 0)|]; cbn; by constructor.
Qed.

(** One reference less, from a holder or from the current version. *)
Lemma unref_ok vs held id :
  NoDup (vn_id <$> versions_ vs) -> (forall n, n ∈ versions_ vs -> vn_id n < next_id_ vs) ->
  (forall n, n ∈ versions_ vs -> refs_ n = holders held (vn_id n) + (if decide (vn_id n = id) then 1 else 0) /\ 0 < refs_ n) ->
  let vs' := Version_Unref vs id in
  NoDup (vn_id <$> versions_ vs') /\ (forall n, n ∈ versions_ vs' -> vn_id n < next_id_ vs') /\
  (forall n, n ∈ versions_ vs' -> refs_ n = holders held (vn_id n) /\ 0 < refs_ n) /\
  (forall n, n ∈ versions_ vs -> 0 < holders held (vn_id n) ->
     exists n', n' ∈ versions_ vs' /\ vn_id n' = vn_id n /\ vn_version n' = vn_version n).
Proof.
  intros Hn Hx Hr vs'. split_and!.
  - by eapply sublist_NoDup, unref_ids.
  - intros n (m & Hm & -> & _)%unref_elem. by apply Hx.
  - intros n (m & Hm & -> & _ & H)%unref_elem. specialize (Hr m Hm). destruct (decide (vn_id m = id)); lia.
  - intros n Hin Hh. destruct (Hr n Hin) as [E Hp].
    exists (MkNode (vn_id n) (if decide (vn_id n = id) then refs_ n - 1 else refs_ n) (vn_version n)). split; [|done].
    apply unref_elem. exists n. split_and!; [done..|]. cbn. destruct (decide (vn_id n = id)); [|done]. lia.
Qed.
(** Changes of nodes that keep their identities. *)
Lemma map_nodes_ok vs (g : VersionNode -> VersionNode) :
  (forall n, vn_id (g n) = vn_id n) ->
  let vs' := set_versions vs (map g (versions_ vs)) (next_id_ vs) (current_ vs) in
  vn_id <$> versions_ vs' = vn_id <$> versions_ vs /\
  forall n, n ∈ versions_ vs' <-> exists m, m ∈ versions_ vs /\ n = g m.
Proof.
  intros Hg vs'. split.
  - cbn. induction (versions_ vs) as [|n l IH]; cbn; [done|]. by rewrite Hg, IH.
  - intros n. cbn. rewrite list_elem_of_In, in_map_iff. setoid_rewrite list_elem_of_In.
    split; intros (m & Ha & Hb); by exists m.
Qed.

Lemma nodes_eq vs m n : NoDup (vn_id <$> versions_ vs) -> m ∈ versions_ vs -> n ∈ versions_ vs -> vn_id m = vn_id n -> m = n.
Proof.
  intros Hn [i Hi]%list_elem_of_lookup [j Hj]%list_elem_of_lookup E.
  assert (i = j) as <-; [|congruence].
  eapply (NoDup_lookup _ _ _ (vn_id m) Hn); rewrite list_lookup_fmap; [by rewrite Hi|by rewrite Hj, E].
Qed.

Lemma ref_preserves vs held id v :
  current_ vs = Some id -> find_version vs id = Ok v -> refs_ok vs held -> refs_ok (Version_Ref vs id) ((id, files_ v) :: held).
Proof.
  intros Hc Hf [H1 H2 H3 H4 H5].
  destruct (map_nodes_ok vs (fun n => if vn_id n =? id then MkNode (vn_id n) (refs_ n + 1) (vn_version n) else n)) as [Ei En].
  { intros n. by destruct (_ =? id). }
  fold (Version_Ref vs id) in Ei, En. split.
  - by rewrite Ei.
  - intros n (m & Hm & ->)%En. specialize (H2 m Hm). by destruct (_ =? id).
  - intros n (m & Hm & ->)%En. specialize (H3 m Hm). rewrite holders_cons. unfold owner in *. cbn [current_ Version_Ref set_versions].
    destruct (Z.eqb_spec (vn_id m) id); cbn [vn_id refs_]; [rewrite decide_True by done; lia|rewrite decide_False by done; lia].
  - assert (Hx : forall m fs, m ∈ versions_ vs -> files_ (vn_version m) = fs ->
      exists n, n ∈ versions_ (Version_Ref vs id) /\ vn_id n = vn_id m /\ files_ (vn_version n) = fs).
    { intros m fs Hm <-. eexists. split; [apply En; by exists m|]. by destruct (_ =? id). }
    intros i fs [[= -> ->]|Hin]%elem_of_cons.
    + destruct H5 as (m & Hm & E). rewrite Hc in E. injection E as ->.
      rewrite (find_node _ _ H1 Hm) in Hf. injection Hf as <-. by apply Hx.
    + destruct (H4 _ _ Hin) as (m & Hm & <- & E). by apply Hx.
  - destruct H5 as (m & Hm & E). eexists. split; [apply En; by exists m|]. cbn [current_ Version_Ref set_versions]. by destruct (_ =? id).
Qed.

Lemma unref_preserves vs held1 held2 id fs :
  refs_ok vs (held1 ++ (id, fs) :: held2) -> refs_ok (Version_Unref vs id) (held1 ++ held2).
Proof.
  intros [H1 H2 H3 H4 H5].
  destruct H5 as (c & Hc & Ec). set (held := held1 ++ (vn_id c, []) :: held2).
  assert (Hh : forall i, holders held i = holders (held1 ++ held2) i + owner vs i).
  { intros i. unfold held, owner. rewrite Ec, holders_middle. f_equal.
    destruct (decide (vn_id c = i)), (decide (Some (vn_id c) = Some i)); lia || congruence. }
  destruct (unref_ok vs held id H1 H2) as (G1 & G2 & G3 & G4).
  { intros n Hn. specialize (H3 n Hn). rewrite holders_middle in H3. rewrite Hh.
    destruct (decide (id = vn_id n)), (decide (vn_id n = id)); lia || congruence. }
  split; [done|done| | |].
  - intros n Hn. specialize (G3 n Hn). rewrite Hh in G3. done.
  - intros i fs' Hin. destruct (H4 i fs') as (m & Hm & <- & <-); [apply elem_of_app in Hin; apply elem_of_app; rewrite elem_of_cons; tauto|].
    destruct (G4 m Hm) as (n & Hn & E1 & E2).
    { rewrite Hh. pose proof (holders_pos _ _ _ Hin). unfold owner. destruct (decide _); lia. }
    exists n. by rewrite E2.
  - destruct (G4 c Hc) as (n & Hn & E1 & E2).
    { rewrite Hh. unfold owner. rewrite decide_True by done. pose proof (holders_nonneg (held1 ++ held2) (vn_id c)). lia. }
    exists n. split; [done|]. cbn. congruence.
Qed.

Lemma append_preserves vs held v : refs_ok vs held -> refs_ok (AppendVersion vs v) held.
Proof.
  intros [H1 H2 H3 H4 H5].
  destruct H5 as (c & Hc & Ec). unfold AppendVersion. rewrite Ec.
  destruct (unref_ok vs held (vn_id c) H1 H2) as (G1 & G2 & G3 & G4).
  { intros n Hn. specialize (H3 n Hn). unfold owner in H3. rewrite Ec in H3.
    destruct (decide (Some (vn_id c) = Some (vn_id n))), (decide (vn_id n = vn_id c)); lia || congruence. }
  set (vs1 := Version_Unref vs (vn_id c)) in *. assert (En : next_id_ vs1 = next_id_ vs) by done.
  assert (Hfresh : holders held (next_id_ vs) = 0).
  { unfold holders. destruct (filter _ held) as [|[i fs] l] eqn:E; [done|]. exfalso.
    assert (Hin : (i, fs) ∈ filter (fun p => p.1 = next_id_ vs) held) by (rewrite E; left).
    apply list_elem_of_filter in Hin as [Ei Hin]. cbn in Ei. destruct (H4 _ _ Hin) as (m & Hm & Em & _). specialize (H2 m Hm). lia. }
  split; cbn [versions_ set_versions next_id_ current_].
  - rewrite fmap_app. apply list.NoDup_app. split; [done|]. split; [|apply NoDup_singleton].
    intros i (m & -> & Hm)%list_elem_of_fmap Hi. apply list_elem_of_singleton in Hi. specialize (G2 m Hm). cbn in Hi. lia.
  - intros n [Hn|Hn]%elem_of_app; [specialize (G2 n Hn); lia|]. apply list_elem_of_singleton in Hn as ->. cbn. lia.
  - intros n [Hn|Hn]%elem_of_app.
    + unfold owner. cbn. specialize (G3 n Hn). specialize (G2 n Hn). rewrite decide_False by (intros [=]; lia). lia.
    + apply list_elem_of_singleton in Hn as ->. unfold owner. cbn [vn_id refs_ current_ set_versions]. rewrite decide_True by done. rewrite En, Hfresh. lia.
  - intros i fs Hin. destruct (H4 _ _ Hin) as (m & Hm & <- & <-). destruct (G4 m Hm) as (n & Hn & E1 & E2); [by eapply holders_pos|].
    exists n. rewrite E2. split; [apply elem_of_app; by left|done].
  - exists (MkNode (next_id_ vs1) 1 v). split; [apply elem_of_app; right; left|done].
Qed.

Lemma update_preserves vs held id f :
  (forall v, files_ (f v) = files_ v) -> refs_ok vs held -> refs_ok (update_version vs id f) held.
Proof.
  intros Hf [H1 H2 H3 H4 H5].
  destruct (map_nodes_ok vs (fun n => if vn_id n =? id then MkNode (vn_id n) (refs_ n) (f (vn_version n)) else n)) as [Ei En].
  { intros n. by destruct (_ =? id). }
  fold (update_version vs id f) in Ei, En. split.
  - by rewrite Ei.
  - intros n (m & Hm & ->)%En. specialize (H2 m Hm). by destruct (_ =? id).
  - intros n (m & Hm & ->)%En. specialize (H3 m Hm). unfold owner in *. cbn [current_ update_version set_versions]. by destruct (_ =? id).
  - intros i fs Hin. destruct (H4 _ _ Hin) as (m & Hm & <- & <-). eexists. split; [apply En; by exists m|].
    destruct (_ =? id); [|done]. cbn. by rewrite Hf.
  - destruct H5 as (m & Hm & E). eexists. split; [apply En; by exists m|]. cbn [current_ update_version set_versions]. by destruct (_ =? id).
Qed.

Lemma step_preserves s s' : version_step s s' -> refs_ok s.1 s.2 -> refs_ok s'.1 s'.2.
Proof.
  destruct 1 as [| ? ? ? ? ? ? -> | | |vs vs' held E1 E2 E3];
    [by apply ref_preserves|apply unref_preserves|apply append_preserves|by apply update_preserves|].
  cbn. intros [H1 H2 H3 H4 H5]. unfold owner in *. split; unfold owner; rewrite ?E1, ?E2, ?E3; done.
Qed.

Lemma initial_refs_ok : refs_ok (NewVersionSet (W := W)) [].
Proof.
  split; cbn.
  - apply NoDup_singleton.
  - intros n ->%list_elem_of_singleton. cbn. lia.
  - intros n ->%list_elem_of_singleton. unfold owner. cbn. by rewrite decide_True.
  - intros id fs []%elem_of_nil.
  - eexists. split; [left|done].
Qed.

Lemma run_refs_ok s : version_run (NewVersionSet, []) s -> refs_ok s.1 s.2.
Proof.
  unfold version_run. revert s. apply (rtc_ind_r (R := version_step) (fun s => refs_ok s.1 s.2)); [apply initial_refs_ok|].
  intros s1 s2 _ Hstep. by apply step_preserves.
Qed.

Lemma fold_union_elem {A} (g : gset Z -> A -> gset Z) (has : A -> Z -> Prop) l :
  (forall live a n, n ∈ g live a <-> n ∈ live \/ has a n) ->
  forall live n, n ∈ foldl g live l <-> n ∈ live \/ exists a, a ∈ l /\ has a n.
Proof.
  intros Hg. induction l as [|a l IH]; intros live n; cbn [foldl].
  - split; [by left|]. by intros [?|(a & []%elem_of_nil & _)].
  - rewrite IH, Hg, Logic.or_assoc. apply or_iff_compat_l. setoid_rewrite elem_of_cons. split.
    + intros [Hh|(b & Hb & Hh)]; [exists a|exists b]; auto.
    + intros (b & [->|Hb] & Hh); [by left|right; by exists b].
Qed.

Definition version_file (v : Version) (n : Z) : Prop := exists fs f, fs ∈ files_ v /\ f ∈ fs /\ number f = n.

Lemma AddLiveFiles_elem vs live n :
  n ∈ AddLiveFiles vs live <-> n ∈ live \/ exists m, m ∈ versions_ vs /\ version_file (vn_version m) n.
Proof.
  unfold AddLiveFiles. apply (fold_union_elem _ (fun m n => version_file (vn_version m) n)). clear live n. intros live m n.
  rewrite (fold_union_elem _ (fun fs n => exists f, f ∈ fs /\ number f = n)).
  { unfold version_file. apply or_iff_compat_l. split.
    - intros (fs & Hfs & f & Hf & E). by exists fs, f.
    - intros (fs & f & Hfs & Hf & E). exists fs. split; [done|]. by exists f. }
  clear live n. intros live fs n. apply (fold_union_elem _ (fun f n => number f = n)).
  clear live n. intros live f n. rewrite elem_of_union, elem_of_singleton.
  split; (intros [->|?] || intros [?| ->]); auto.
Qed.
End refs.

(** Whatever references clients take to the current version and give back, whatever
    versions are installed and statistics changed meanwhile: a version that is held stays
    in the list with the files it had when it was taken, and the live files, which are
    kept when obsolete files are removed, are exactly those of the current version and of
    the versions that are held. *)
Lemma live_files_exact {W : Type} (vs : VersionSet W) (held : list (Z * list (list FileMetaData))) (live : gset Z) :
  version_run (NewVersionSet, []) (vs, held) ->
  (forall id fs, (id, fs) ∈ held -> exists v, find_version vs id = Ok v /\ files_ v = fs) /\
  exists v, current vs = Ok v /\
    forall n, n ∈ AddLiveFiles vs live <->
      n ∈ live \/ version_file v n \/ exists id fs f, (id, fs) ∈ held /\ f ∈ concat fs /\ number f = n.
Proof.
  intros Hrun%run_refs_ok. cbn in Hrun. pose proof Hrun as [H1 H2 H3 H4 H5].
  assert (Hheld : forall id fs, (id, fs) ∈ held -> exists v, find_version vs id = Ok v /\ files_ v = fs).
  { intros id fs Hin. destruct (H4 _ _ Hin) as (n & Hn & <- & <-). exists (vn_version n). by rewrite (find_node _ _ H1 Hn). }
  split; [done|]. destruct H5 as (c & Hc & Ec). exists (vn_version c). unfold current. rewrite Ec, (find_node _ _ H1 Hc). split; [done|].
  intros n. rewrite AddLiveFiles_elem. apply or_iff_compat_l. split.
  - intros (m & Hm & Hv). destruct (H3 m Hm) as [E Hp]. unfold owner in E. destruct (decide (current_ vs = Some (vn_id m))) as [Em|_].
    + left. rewrite Ec in Em. injection Em as Em. by rewrite (nodes_eq vs c m H1 Hc Hm Em).
    + right. assert (Hh : 0 < holders held (vn_id m)) by lia. unfold holders in Hh.
      destruct (filter (fun p => p.1 = vn_id m) held) as [|[i fs] l] eqn:El; [cbn in Hh; lia|].
      assert (Hin : (i, fs) ∈ filter (fun p => p.1 = vn_id m) held) by (rewrite El; left).
      apply list_elem_of_filter in Hin as [Ei Hin]. cbn in Ei. subst i. destruct (H4 _ _ Hin) as (m' & Hm' & Em & Ef).
      rewrite (nodes_eq vs m' m H1 Hm' Hm Em) in Ef. destruct Hv as (fs' & f & Hfs & Hf & En).
      exists (vn_id m), fs, f. split; [done|]. split; [|done]. rewrite <- Ef. apply list_elem_of_In, in_concat.
      exists fs'. by rewrite <- !list_elem_of_In.
  - intros [Hv|(id & fs & f & Hin & Hf & En)]; [by exists c|]. destruct (H4 _ _ Hin) as (m & Hm & _ & Ef). exists m. split; [done|].
    subst fs. apply list_elem_of_In, in_concat in Hf as (fs & Hfs & Hf). exists fs, f. by rewrite !list_elem_of_In.
Qed.

Definition one_file (n : Z) : Version :=
  MkVersion ([NewFileMetaData n 10 [] []] :: replicate 6 []) None (-1) (double_of_Z (-1)) (-1).

(** A reader holds the version with file 5 while file 6 replaces it. *)
Definition held_example : VersionSet unit * list (Z * list (list FileMetaData)) :=
  (AppendVersion (Version_Ref (AppendVersion NewVersionSet (one_file 5)) 1) (one_file 6), [(1, files_ (one_file 5))]).

Lemma live_files_exact_witness :
  version_run (NewVersionSet, []) held_example /\ 5 ∈ AddLiveFiles held_example.1 ∅ /\ 6 ∈ AddLiveFiles held_example.1 ∅.
Proof.
  assert (Hrun : version_run (NewVersionSet, []) held_example).
  { eapply rtc_l; [apply (step_append _ _ (one_file 5))|]. eapply rtc_l; [by apply (step_ref _ _ 1 (one_file 5))|].
    eapply rtc_l; [apply (step_append _ _ (one_file 6))|]. apply rtc_refl. }
  split; [exact Hrun|]. destruct (live_files_exact held_example.1 held_example.2 ∅ Hrun) as (_ & v & Ev & H).
  injection Ev as <-. split; apply H; right.
  - right. exists 1, (files_ (one_file 5)), (NewFileMetaData 5 10 [] []). split; [left|]. by split; [left|].
  - left. exists [NewFileMetaData 6 10 [] []], (NewFileMetaData 6 10 [] []). split; [left|]. by split; [left|].
Defined.
