(* ===== verification/Compaction.v ===== *)
(** * Choosing compactions

    Models [Compaction] of [cpp/leveldb/db/version_set.h] and the functions of
    [VersionSet] in [cpp/leveldb/db/version_set.cc] that choose the inputs of a
    compaction: the files of a level, those of the next level that overlap them, and the
    grandparents that bound the size of the outputs. *)
From Stdlib Require Import Floats.SpecFloat.
From stdpp Require Import gmap sorting.
From S2P Require Import Prelude Coding Logging Comparator Status DbFormat Cursor Block Merger VersionEdit FileSearch Version Overlap VersionBuilder VersionSet.

(** ** Data *)

(** [input_version_] names a version of the set. *)
Record Compaction := MkCompaction {
  c_level_ : nat;
  max_output_file_size_ : Z;
  input_version_ : option Z;
  c_edit_ : VersionEdit;
  inputs_0 : list FileMetaData;
  inputs_1 : list FileMetaData;
  grandparents_ : list FileMetaData;
  grandparent_index_ : nat;
  seen_key_ : bool;
  overlapped_bytes_ : Z;
  level_ptrs_ : list nat
}.

Definition NewCompaction (max_file_size : Z) (level : nat) : Compaction :=
  MkCompaction level (MaxFileSizeForLevel max_file_size level) None NewVersionEdit [] [] [] O false 0
    (replicate num_levels O).

Definition set_input_version (c : Compaction) (id : option Z) : Compaction :=
  MkCompaction (c_level_ c) (max_output_file_size_ c) id (c_edit_ c) (inputs_0 c) (inputs_1 c) (grandparents_ c)
    (grandparent_index_ c) (seen_key_ c) (overlapped_bytes_ c) (level_ptrs_ c).
Definition set_inputs (c : Compaction) (i0 i1 : list FileMetaData) : Compaction :=
  MkCompaction (c_level_ c) (max_output_file_size_ c) (input_version_ c) (c_edit_ c) i0 i1 (grandparents_ c)
    (grandparent_index_ c) (seen_key_ c) (overlapped_bytes_ c) (level_ptrs_ c).
Definition set_grandparents (c : Compaction) (g : list FileMetaData) : Compaction :=
  MkCompaction (c_level_ c) (max_output_file_size_ c) (input_version_ c) (c_edit_ c) (inputs_0 c) (inputs_1 c) g
    (grandparent_index_ c) (seen_key_ c) (overlapped_bytes_ c) (level_ptrs_ c).
Definition set_edit (c : Compaction) (e : VersionEdit) : Compaction :=
  MkCompaction (c_level_ c) (max_output_file_size_ c) (input_version_ c) e (inputs_0 c) (inputs_1 c) (grandparents_ c)
    (grandparent_index_ c) (seen_key_ c) (overlapped_bytes_ c) (level_ptrs_ c).
Definition set_progress (c : Compaction) (index : nat) (seen : bool) (overlapped : Z) : Compaction :=
  MkCompaction (c_level_ c) (max_output_file_size_ c) (input_version_ c) (c_edit_ c) (inputs_0 c) (inputs_1 c)
    (grandparents_ c) index seen overlapped (level_ptrs_ c).
Definition set_level_ptrs (c : Compaction) (ptrs : list nat) : Compaction :=
  MkCompaction (c_level_ c) (max_output_file_size_ c) (input_version_ c) (c_edit_ c) (inputs_0 c) (inputs_1 c)
    (grandparents_ c) (grandparent_index_ c) (seen_key_ c) (overlapped_bytes_ c) ptrs.

Definition num_input_files (c : Compaction) (which : nat) : Z :=
  int32 (Z.of_nat (length (match which with O => inputs_0 c | _ => inputs_1 c end))).

Section compaction.
Context `{C : Comparator} {W : Type}.
Abbreviation icmp := (Internal_Compare C).
Implicit Type vs : VersionSet W.

(** ** Ranges *)

(** The keys stay clear when there are no files. *)
Definition GetRange (inputs : list FileMetaData) : bytes * bytes :=
  match inputs with
  | [] => ([], [])
  | f :: inputs =>
      foldl (fun '(small, large) g =>
          (if icmp (smallest g) small <? 0 then smallest g else small,
           if icmp (largest g) large >? 0 then largest g else large))
        (smallest f, largest f) inputs
  end.

Definition GetRange2 (inputs1 inputs2 : list FileMetaData) : bytes * bytes := GetRange (inputs1 ++ inputs2).

(** ** Boundary files *)

Definition FindLargestKey (files : list FileMetaData) : option bytes :=
  match files with
  | [] => None
  | f :: files => Some (foldl (fun key g => if icmp (largest g) key >? 0 then largest g else key) (largest f) files)
  end.

Definition FindSmallestBoundaryFile (level_files : list FileMetaData) (largest_key : bytes) : option FileMetaData :=
  foldl (fun smallest_boundary_file f =>
      if (icmp (smallest f) largest_key >? 0) &&
         (cmp_Compare (ExtractUserKey (smallest f)) (ExtractUserKey largest_key) =? 0)
      then
        match smallest_boundary_file with
        | None => Some f
        | Some g => if icmp (smallest f) (smallest g) <? 0 then Some f else Some g
        end
      else smallest_boundary_file)
    None level_files.

(** The [while] loop. *)
Fixpoint add_boundary (fuel : nat) (level_files compaction_files : list FileMetaData) (largest_key : bytes)
    : res (list FileMetaData) :=
  match fuel with
  | O => OutOfFuel
  | S fuel =>
      match FindSmallestBoundaryFile level_files largest_key with
      | Some f => add_boundary fuel level_files (compaction_files ++ [f]) (largest f)
      | None => Ok compaction_files
      end
  end.

(** A file can be a boundary once: its largest key is not below its smallest. *)
Definition AddBoundaryInputs (level_files compaction_files : list FileMetaData) : res (list FileMetaData) :=
  match FindLargestKey compaction_files with
  | None => Ok compaction_files
  | Some largest_key => add_boundary (S (length level_files)) level_files compaction_files largest_key
  end.

(** ** The other inputs *)

(** The inputs after the attempt to grow them without more files of the next level, with
    the largest key of those of the level, and the range of them all. *)
Definition grow_inputs (v : Version) (max_file_size : Z) (level : nat) (inputs0 inputs1 : list FileMetaData)
    (large : bytes) : res (list FileMetaData * list FileMetaData * bytes * (bytes * bytes)) :=
  let '(all_start, all_limit) := GetRange2 inputs0 inputs1 in
  let keep := Ok (inputs0, inputs1, large, (all_start, all_limit)) in
  match inputs1 with
  | [] => keep
  | _ =>
      let? expanded0 := GetOverlappingInputs v level (Some all_start) (Some all_limit) in
      let? expanded0 := AddBoundaryInputs (files_at v level) expanded0 in
      let inputs1_size := TotalFileSize inputs1 in
      let expanded0_size := TotalFileSize expanded0 in
      if (length inputs0 <? length expanded0)%nat &&
         (int64 (inputs1_size + expanded0_size) <? ExpandedCompactionByteSizeLimit max_file_size)
      then
        let '(new_start, new_limit) := GetRange expanded0 in
        let? expanded1 := GetOverlappingInputs v (S level) (Some new_start) (Some new_limit) in
        if (length expanded1 =? length inputs1)%nat
        then Ok (expanded0, expanded1, new_limit, GetRange2 expanded0 expanded1)
        else keep
      else keep
  end.

Definition SetupOtherInputs vs (max_file_size : Z) (c : Compaction) : res (VersionSet W * Compaction) :=
  let? v := current vs in
  let level := c_level_ c in
  if negb (S level <? num_levels)%nat then Undefined else
  let? inputs0 := AddBoundaryInputs (files_at v level) (inputs_0 c) in
  let '(small, large) := GetRange inputs0 in
  let? inputs1 := GetOverlappingInputs v (S level) (Some small) (Some large) in
  let? grown := grow_inputs v max_file_size level inputs0 inputs1 large in
  let '(inputs0, inputs1, large, (all_start, all_limit)) := grown in
  let c := set_inputs c inputs0 inputs1 in
  let? c :=
    if (level + 2 <? num_levels)%nat then
      let? grandparents := GetOverlappingInputs v (level + 2) (Some all_start) (Some all_limit) in
      Ok (set_grandparents c grandparents)
    else Ok c in
  let? pointers := update_at (Z.of_nat level) (fun _ => large) (compact_pointer_ vs) in
  Ok (set_pointers vs pointers, set_edit c (SetCompactPointer (c_edit_ c) (Z.of_nat level) large)).

(** ** Picking a compaction *)

(** [input_version_ = current_], with a reference. *)
Definition hold_current vs (c : Compaction) : VersionSet W * Compaction :=
  (match current_ vs with Some id => Version_Ref vs id | None => vs end, set_input_version c (current_ vs)).

Definition PickCompaction vs (max_file_size : Z) : res (VersionSet W * option Compaction) :=
  let? v := current vs in
  let picked :=
    if double_le (double_of_Z 1) (compaction_score_ v) then
      if compaction_level_ v <? 0 then Undefined else
      let level := Z.to_nat (compaction_level_ v) in
      let pointer := nth level (compact_pointer_ vs) [] in
      let c := NewCompaction max_file_size level in
      match List.find (fun f => bool_decide (pointer = []) || (icmp (largest f) pointer >? 0)) (files_at v level) with
      | Some f => Ok (Some (set_inputs c [f] []))
      | None => match files_at v level with f :: _ => Ok (Some (set_inputs c [f] [])) | [] => Undefined end
      end
    else
      match file_to_compact_ v with
      | Some f => Ok (Some (set_inputs (NewCompaction max_file_size (Z.to_nat (file_to_compact_level_ v))) [f] []))
      | None => Ok None
      end in
  let? picked := picked in
  match picked with
  | None => Ok (vs, None)
  | Some c =>
      let '(vs, c) := hold_current vs c in
      let? c :=
        if (c_level_ c =? 0)%nat then
          let '(small, large) := GetRange (inputs_0 c) in
          let? inputs := GetOverlappingInputs v 0 (Some small) (Some large) in
          Ok (set_inputs c inputs [])
        else Ok c in
      let? r := SetupOtherInputs vs max_file_size c in
      Ok (r.1, Some r.2)
  end.

(** The files up to the one that takes the total to the limit. *)
Fixpoint take_until (limit total : Z) (inputs : list FileMetaData) : list FileMetaData :=
  match inputs with
  | [] => []
  | f :: inputs =>
      let total := u64 (total + file_size f) in
      f :: (if total >=? limit then [] else take_until limit total inputs)
  end.

Definition CompactRange vs (max_file_size : Z) (level : nat) (begin end_ : option bytes)
    : res (VersionSet W * option Compaction) :=
  let? v := current vs in
  let? inputs := GetOverlappingInputs v level begin end_ in
  match inputs with
  | [] => Ok (vs, None)
  | _ =>
      let inputs := if (0 <? level)%nat then take_until (MaxFileSizeForLevel max_file_size level) 0 inputs else inputs in
      let '(vs, c) := hold_current vs (NewCompaction max_file_size level) in
      let? r := SetupOtherInputs vs max_file_size (set_inputs c inputs []) in
      Ok (r.1, Some r.2)
  end.

(** ** While a compaction runs *)

Definition IsTrivialMove (c : Compaction) (max_file_size : Z) : bool :=
  (num_input_files c 0 =? 1) && (num_input_files c 1 =? 0) &&
  (TotalFileSize (grandparents_ c) <=? MaxGrandParentOverlapBytes max_file_size).

Definition AddInputDeletions (c : Compaction) (edit : VersionEdit) : VersionEdit :=
  let edit := foldl (fun edit f => RemoveFile edit (Z.of_nat (c_level_ c)) (number f)) edit (inputs_0 c) in
  foldl (fun edit f => RemoveFile edit (Z.of_nat (c_level_ c) + 1) (number f)) edit (inputs_1 c).

(** The [while] loop over the files of a level from its pointer: the pointer and whether
    the key is in the file it stops at. *)
Fixpoint advance_ptr (user_key : bytes) (files : list FileMetaData) (ptr : nat) : nat * bool :=
  match files with
  | [] => (ptr, false)
  | f :: files =>
      if cmp_Compare user_key (ExtractUserKey (largest f)) <=? 0
      then (ptr, cmp_Compare user_key (ExtractUserKey (smallest f)) >=? 0)
      else advance_ptr user_key files (S ptr)
  end.

(** The loop over the levels [lvls]. *)
Fixpoint base_level_loop (v : Version) (user_key : bytes) (ptrs : list nat) (lvls : list nat) : list nat * bool :=
  match lvls with
  | [] => (ptrs, true)
  | lvl :: lvls =>
      let ptr := nth lvl ptrs O in
      let '(ptr, inside) := advance_ptr user_key (drop ptr (files_at v lvl)) ptr in
      let ptrs := <[lvl := ptr]> ptrs in
      if inside then (ptrs, false) else base_level_loop v user_key ptrs lvls
  end.

Definition IsBaseLevelForKey vs (c : Compaction) (user_key : bytes) : res (Compaction * bool) :=
  match input_version_ c with
  | None => Undefined
  | Some id =>
      let? v := find_version vs id in
      let '(ptrs, result) :=
        base_level_loop v user_key (level_ptrs_ c) (seq (c_level_ c + 2) (num_levels - (c_level_ c + 2))) in
      Ok (set_level_ptrs c ptrs, result)
  end.

(** The [while] loop over the grandparents that end before the key. *)
Fixpoint pass_grandparents (internal_key : bytes) (seen : bool) (files : list FileMetaData) (index : nat) (overlapped : Z)
    : nat * Z :=
  match files with
  | [] => (index, overlapped)
  | f :: files =>
      if icmp internal_key (largest f) >? 0 then
        pass_grandparents internal_key seen files (S index)
          (if seen then int64 (overlapped + file_size f) else overlapped)
      else (index, overlapped)
  end.

Definition ShouldStopBefore (c : Compaction) (max_file_size : Z) (internal_key : bytes) : Compaction * bool :=
  let '(index, overlapped) := pass_grandparents internal_key (seen_key_ c)
    (drop (grandparent_index_ c) (grandparents_ c)) (grandparent_index_ c) (overlapped_bytes_ c) in
  if overlapped >? MaxGrandParentOverlapBytes max_file_size then (set_progress c index true 0, true)
  else (set_progress c index true overlapped, false).

Definition ReleaseInputs vs (c : Compaction) : VersionSet W * Compaction :=
  match input_version_ c with
  | Some id => (Version_Unref vs id, set_input_version c None)
  | None => (vs, c)
  end.
End compaction.

(** ** Lemmas *)

Section proofs.
Context `{C : Comparator} `{!ComparatorLaws C}.
Abbreviation icmp := (Internal_Compare C).
Abbreviation ucmp := cmp_Compare.
Abbreviation start f := (ExtractUserKey (smallest f)).
Abbreviation limit f := (ExtractUserKey (largest f)).

(** [GetRange] covers the files and is attained. *)
Definition hull (inputs : list FileMetaData) (r : bytes * bytes) : Prop :=
  (forall f, f ∈ inputs -> icmp r.1 (smallest f) <= 0 /\ icmp (largest f) r.2 <= 0) /\
  (exists f, f ∈ inputs /\ smallest f = r.1) /\ (exists f, f ∈ inputs /\ largest f = r.2).

Lemma hull_snoc inputs r g :
  hull inputs r ->
  hull (inputs ++ [g]) (if icmp (smallest g) r.1 <? 0 then smallest g else r.1,
                        if icmp (largest g) r.2 >? 0 then largest g else r.2).
Proof.
  intros (Hin & (f1 & Hf1 & E1) & (f2 & Hf2 & E2)). split_and!; cbn [fst snd].
  - intros f [Hf|Hf]%elem_of_app.
    + destruct (Hin f Hf) as [Ha Hb]. split.
      * destruct (Z.ltb_spec (icmp (smallest g) r.1) 0); [|done]. apply (icmp_trans _ r.1); [lia|done].
      * destruct (Z.gtb_spec (icmp (largest g) r.2) 0); [|done]. apply (icmp_trans _ r.2); [done|].
        apply icmp_sym_le. lia.
    + apply list_elem_of_singleton in Hf as ->. split.
      * destruct (Z.ltb_spec (icmp (smallest g) r.1) 0); [rewrite icmp_refl; lia|]. apply icmp_sym_le. lia.
      * destruct (Z.gtb_spec (icmp (largest g) r.2) 0); [rewrite icmp_refl; lia|lia].
  - destruct (_ <? 0); [exists g|exists f1]; rewrite elem_of_app, ?list_elem_of_singleton; auto.
  - destruct (_ >? 0); [exists g|exists f2]; rewrite elem_of_app, ?list_elem_of_singleton; auto.
Qed.

Lemma foldl_hull l : forall inputs r, hull inputs r ->
  hull (inputs ++ l) (foldl (fun '(small, large) g =>
          (if icmp (smallest g) small <? 0 then smallest g else small,
           if icmp (largest g) large >? 0 then largest g else large)) r l).
Proof.
  induction l as [|g l IH]; intros inputs r Hr; cbn [foldl]; [by rewrite app_nil_r|].
  replace (inputs ++ g :: l) with ((inputs ++ [g]) ++ l) by by rewrite <- app_assoc. apply IH. destruct r as [a b].
  by apply (hull_snoc inputs (a, b)).
Qed.

Lemma GetRange_hull inputs : inputs <> [] -> hull inputs (GetRange inputs).
Proof.
  destruct inputs as [|f l]; [done|]. intros _. cbn [GetRange]. apply (foldl_hull l [f]). split_and!; cbn.
  - intros g ->%list_elem_of_singleton. rewrite !icmp_refl. lia.
  - exists f. by split; [left|].
  - exists f. by split; [left|].
Qed.

Lemma FindLargestKey_range files : files <> [] -> FindLargestKey files = Some (GetRange files).2.
Proof.
  destruct files as [|f l]; [done|]. intros _. cbn. f_equal. generalize (smallest f) as small, (largest f) as large. clear f.
  induction l as [|g l IH]; intros small large; cbn; [done|]. by rewrite <- IH.
Qed.

(** *** Boundary files *)

Definition is_boundary (key : bytes) (f : FileMetaData) : Prop :=
  icmp (smallest f) key > 0 /\ ucmp (start f) (ExtractUserKey key) = 0.

Lemma is_boundary_b key f :
  (icmp (smallest f) key >? 0) && (ucmp (start f) (ExtractUserKey key) =? 0) = true <-> is_boundary key f.
Proof.
  unfold is_boundary. rewrite andb_true_iff, Z.eqb_eq. destruct (Z.gtb_spec (icmp (smallest f) key) 0); split; intros [? ?]; split; lia || done.
Qed.

Lemma boundary_fold key files : forall b,
  match foldl (fun smallest_boundary_file f =>
      if (icmp (smallest f) key >? 0) && (ucmp (start f) (ExtractUserKey key) =? 0)
      then match smallest_boundary_file with
           | None => Some f
           | Some g => if icmp (smallest f) (smallest g) <? 0 then Some f else Some g
           end
      else smallest_boundary_file) b files with
  | Some g => (b = Some g \/ (g ∈ files /\ is_boundary key g)) /\
      (forall f, f ∈ files -> is_boundary key f -> icmp (smallest g) (smallest f) <= 0) /\
      (forall f, b = Some f -> icmp (smallest g) (smallest f) <= 0)
  | None => b = None /\ forall f, f ∈ files -> ~ is_boundary key f
  end.
Proof.
  induction files as [|f files IH]; intros b; cbn [foldl].
  { destruct b as [g|]; [|by split; [|intros f []%elem_of_nil]]. split_and!; [by left|by intros f []%elem_of_nil|].
    intros f [= ->]. rewrite icmp_refl. lia. }
  destruct (_ && _) eqn:Eb.
  - apply is_boundary_b in Eb.
    set (b1 := match b with None => Some f | Some g => if icmp (smallest f) (smallest g) <? 0 then Some f else Some g end).
    assert (Hb1 : exists g1, b1 = Some g1 /\ (g1 = f \/ b = Some g1) /\ icmp (smallest g1) (smallest f) <= 0 /\
                  forall g, b = Some g -> icmp (smallest g1) (smallest g) <= 0).
    { unfold b1. destruct b as [g|]; [|exists f; rewrite icmp_refl; split_and!; [done|by left|lia|done]].
      destruct (Z.ltb_spec (icmp (smallest f) (smallest g)) 0) as [Hlt|Hge].
      - exists f. rewrite icmp_refl. split_and!; [done|by left|lia|]. intros g' [= <-]. lia.
      - exists g. split_and!; [done|by right|apply icmp_sym_le; lia|]. intros g' [= <-]. rewrite icmp_refl. lia. }
    destruct Hb1 as (g1 & E1 & Hg1 & Hf & Hg). specialize (IH b1). fold b1. destruct (foldl _ b1 files) as [g|]; [|by rewrite E1 in IH; destruct IH].
    destruct IH as (IH1 & IH2 & IH3). specialize (IH3 g1 E1). split_and!.
    + destruct IH1 as [IH1|[? ?]]; [|right; split; [by right|done]]. rewrite E1 in IH1. injection IH1 as ->.
      destruct Hg1 as [->|Hg1]; [right; split; [left|done]|by left].
    + intros h [->|Hh]%elem_of_cons Hbh; [by apply (icmp_trans _ (smallest g1))|by apply IH2].
    + intros h Hh. apply (icmp_trans _ (smallest g1)); [done|by apply Hg].
  - specialize (IH b). assert (Hn : ~ is_boundary key f) by (rewrite <- is_boundary_b; congruence).
    destruct (foldl _ b files) as [g|].
    + destruct IH as (IH1 & IH2 & IH3). split_and!; [destruct IH1 as [?|[? ?]]; [by left|right; split; [by right|done]]| |done].
      intros h [->|Hh]%elem_of_cons Hbh; [done|by apply IH2].
    + destruct IH as [-> IH]. split; [done|]. intros h [->|Hh]%elem_of_cons; [done|by apply IH].
Qed.

Lemma FindSmallestBoundaryFile_ok files key :
  match FindSmallestBoundaryFile files key with
  | Some b => b ∈ files /\ is_boundary key b /\ forall f, f ∈ files -> is_boundary key f -> icmp (smallest b) (smallest f) <= 0
  | None => forall f, f ∈ files -> ~ is_boundary key f
  end.
Proof.
  pose proof (boundary_fold key files None) as H. unfold FindSmallestBoundaryFile. destruct (foldl _ None files) as [b|].
  - by destruct H as ([?|[? ?]] & ? & _).
  - by destruct H.
Qed.

(** *** Closing a choice of files of one level *)

(** The files of a level: none ends before it starts; above level zero they are disjoint. *)
Record level_files (level : nat) (files : list FileMetaData) : Prop := {
  lf_range f : f ∈ files -> icmp (smallest f) (largest f) <= 0;
  lf_disjoint : level <> O -> disjoint_files files
}.

Lemma level_ranges level files : level_files level files -> ranges_ok files.
Proof. intros [Hr _] f Hf. specialize (Hr f Hf). apply Internal_Compare_le in Hr as [?|[? _]]; lia. Qed.

Lemma disjoint_cases files f g :
  disjoint_files files -> f ∈ files -> g ∈ files ->
  f = g \/ icmp (largest f) (smallest g) < 0 \/ icmp (largest g) (smallest f) < 0.
Proof.
  intros [Hr Ho] [i Hi]%list_elem_of_lookup [j Hj]%list_elem_of_lookup.
  destruct (Nat.lt_trichotomy i j) as [Hlt|[->|Hlt]]; [right; left; by apply (Ho i j)| |right; right; by apply (Ho j i)].
  left. congruence.
Qed.

(** What the choice of a level starts from: in level zero it has the files its files
    meet, above it has no gaps. *)
Record chosen (level : nat) (files inputs : list FileMetaData) : Prop := {
  ch_some : inputs <> [];
  ch_in f : f ∈ inputs -> f ∈ files;
  ch_closed : level = O -> forall f g, f ∈ inputs -> g ∈ files -> files_meet f g = true -> g ∈ inputs;
  ch_convex : level <> O -> forall f g h, f ∈ inputs -> g ∈ files -> h ∈ inputs ->
    icmp (largest f) (smallest g) < 0 -> icmp (largest g) (smallest h) < 0 -> g ∈ inputs
}.

(** No file left behind starts with the user key that an input ends with, and has older
    entries of it. *)
Definition no_boundary (files inputs : list FileMetaData) : Prop :=
  forall f g, f ∈ inputs -> g ∈ files -> is_boundary (largest f) g -> g ∈ inputs.

Lemma boundary_meets f g :
  ucmp (start f) (limit f) <= 0 -> ucmp (start g) (limit g) <= 0 -> ucmp (start g) (limit f) = 0 -> files_meet f g = true.
Proof.
  intros Hf Hg E. unfold files_meet. apply meets_iff. split.
  - intros x [= <-]. apply Z.ge_le, cmp_sym_le. apply (cmp_trans _ (limit f)); [done|]. apply (cmp_trans _ (start g)); [|done].
    apply cmp_sym_le. lia.
  - intros x [= <-]. lia.
Qed.

(** The state of the loop: [key] is the largest key of the files. *)
Definition largest_is (inputs : list FileMetaData) (key : bytes) : Prop :=
  (forall f, f ∈ inputs -> icmp (largest f) key <= 0) /\ exists f, f ∈ inputs /\ largest f = key.

Lemma add_boundary_file level files inputs key b :
  level_files level files -> chosen level files inputs -> largest_is inputs key ->
  b ∈ files -> is_boundary key b -> (forall f, f ∈ files -> is_boundary key f -> icmp (smallest b) (smallest f) <= 0) ->
  chosen level files (inputs ++ [b]) /\ largest_is (inputs ++ [b]) (largest b).
Proof.
  intros Hl Hc [Hk (m & Hm & <-)] Hb [Hbk Hbu] Hmin. pose proof (lf_range _ _ Hl b Hb) as Hbr. split.
  - split.
    + by destruct inputs.
    + intros f [Hf|Hf]%elem_of_app; [by apply Hc|]. by apply list_elem_of_singleton in Hf as ->.
    + intros ->. exfalso. pose proof (level_ranges _ _ Hl) as Hr.
      assert (Hin : b ∈ inputs). { apply (ch_closed _ _ _ Hc eq_refl m); [done..|]. apply boundary_meets; [by apply Hr, Hc|by apply Hr|done]. }
      specialize (Hk b Hin). pose proof (icmp_trans _ _ _ Hbr Hk). lia.
    + intros Hlevel f g h Hf Hg Hh Hfg Hgh. apply elem_of_app. pose proof (lf_disjoint _ _ Hl Hlevel) as Hd.
      pose proof (lf_range _ _ Hl g Hg) as Hgr.
      assert (Hin : f ∈ inputs).
      { apply elem_of_app in Hf as [?|Hf]; [done|]. apply list_elem_of_singleton in Hf as ->. exfalso.
        pose proof (icmp_lt_le_trans _ _ _ Hfg Hgr) as H1. pose proof (icmp_le_lt_trans _ _ _ Hbr H1) as H2.
        apply elem_of_app in Hh as [Hh|Hh].
        - pose proof (lf_range _ _ Hl h (ch_in _ _ _ Hc h Hh)) as Hhr. pose proof (Hk h Hh) as H3.
          pose proof (icmp_lt_le_trans _ _ _ (icmp_lt_le_trans _ _ _ Hgh Hhr) H3) as H4.
          pose proof (icmp_le_lt_trans _ _ _ (Z.lt_le_incl _ _ H2) H4). lia.
        - apply list_elem_of_singleton in Hh as ->. pose proof (icmp_le_lt_trans _ _ _ (Z.lt_le_incl _ _ H2) Hgh) as Hx.
          rewrite icmp_refl in Hx. lia. }
      apply elem_of_app in Hh as [Hh|Hh]; [left; by apply (ch_convex _ _ _ Hc Hlevel f g h)|].
      apply list_elem_of_singleton in Hh as ->.
      destruct (disjoint_cases files g m Hd Hg (ch_in _ _ _ Hc m Hm)) as [->|[Hgm|Hmg]]; [by left|left; by apply (ch_convex _ _ _ Hc Hlevel f g m)|].
      exfalso. assert (Hgb : icmp (smallest g) (smallest b) < 0) by by apply (icmp_le_lt_trans _ (largest g)).
      assert (is_boundary (largest m) g) as Hgbd; [|specialize (Hmin g Hg Hgbd); apply icmp_sym_lt in Hgb; lia].
      split; [by apply icmp_sym_lt|]. apply Z.le_antisymm.
      * apply user_key_mono in Hgb. apply (cmp_trans _ (start b)); [done|]. lia.
      * apply user_key_mono in Hmg. apply Z.ge_le, cmp_sym_le. done.
  - split.
    + intros f [Hf|Hf]%elem_of_app.
      * specialize (Hk f Hf). apply (icmp_trans _ (smallest b)); [|done]. apply (icmp_trans _ (largest m)); [done|].
        apply Z.lt_le_incl, icmp_sym_lt. lia.
      * apply list_elem_of_singleton in Hf as ->. rewrite icmp_refl. lia.
    + exists b. split; [apply elem_of_app; right; left|done].
Qed.

Lemma add_boundary_ok level files (inputs0 : list FileMetaData) fuel : forall inputs key,
  level_files level files -> chosen level files inputs -> largest_is inputs key -> (forall f, f ∈ inputs0 -> f ∈ inputs) ->
  (count (fun f => icmp (smallest f) key >? 0) files < fuel)%nat ->
  exists inputs' key', add_boundary fuel files inputs key = Ok inputs' /\ chosen level files inputs' /\
    largest_is inputs' key' /\ (forall f, f ∈ inputs0 -> f ∈ inputs') /\ forall f, f ∈ files -> ~ is_boundary key' f.
Proof.
  induction fuel as [|fuel IH]; intros inputs key Hl Hc Hk H0 Hfuel; [lia|]. cbn [add_boundary].
  pose proof (FindSmallestBoundaryFile_ok files key) as Hb. destruct (FindSmallestBoundaryFile files key) as [b|].
  2: { exists inputs, key. by split_and!. }
  destruct Hb as (Hb & Hbk & Hmin). destruct (add_boundary_file _ _ _ _ _ Hl Hc Hk Hb Hbk Hmin) as [Hc' Hk'].
  apply IH; [done..|intros f Hf; apply elem_of_app; left; by apply H0|].
  destruct Hbk as [Hbk _]. pose proof (lf_range _ _ Hl b Hb) as Hbr.
  assert (count (fun f => icmp (smallest f) (largest b) >? 0) files < count (fun f => icmp (smallest f) key >? 0) files)%nat; [|lia].
  apply (count_lt _ _ _ b); [|done| |].
  - intros f Hf. destruct (Z.gtb_spec (icmp (smallest f) (largest b)) 0) as [Hlt|]; [|done].
    destruct (Z.gtb_spec (icmp (smallest f) key) 0) as [|Hle]; [done|]. exfalso.
    pose proof (icmp_trans _ _ _ Hle (Z.lt_le_incl _ _ (proj2 (icmp_sym_lt _ _) Hbk))) as H1.
    pose proof (icmp_trans _ _ _ H1 Hbr). lia.
  - by destruct (Z.gtb_spec (icmp (smallest b) (largest b)) 0); [lia|].
  - by destruct (Z.gtb_spec (icmp (smallest b) key) 0); [|lia].
Qed.

Lemma closed_no_boundary level files inputs key :
  level_files level files -> chosen level files inputs -> largest_is inputs key ->
  (forall f, f ∈ files -> ~ is_boundary key f) -> no_boundary files inputs.
Proof.
  intros Hl Hc [Hk (m & Hm & <-)] Hn f g Hf Hg [Hgb Hgu]. pose proof (level_ranges _ _ Hl) as Hr.
  destruct (decide (level = O)) as [->|Hlevel].
  { apply (ch_closed _ _ _ Hc eq_refl f); [done..|]. apply boundary_meets; [by apply Hr, Hc|by apply Hr|done]. }
  destruct (disjoint_cases files g m (lf_disjoint _ _ Hl Hlevel) Hg (ch_in _ _ _ Hc m Hm)) as [->|[Hgm|Hmg]]; [done| |].
  - apply (ch_convex _ _ _ Hc Hlevel f g m); [done..| |done]. by apply icmp_sym_lt, Z.lt_gt, Z.gt_lt.
  - exfalso. apply (Hn g Hg). split; [by apply icmp_sym_lt|]. apply user_key_mono in Hmg. apply Z.le_antisymm.
    + apply (cmp_trans _ (limit f)); [lia|]. by apply user_le, Hk.
    + apply Z.ge_le, cmp_sym_le. done.
Qed.

Lemma AddBoundaryInputs_ok level files inputs :
  level_files level files -> chosen level files inputs ->
  exists inputs', AddBoundaryInputs files inputs = Ok inputs' /\ chosen level files inputs' /\
    no_boundary files inputs' /\ forall f, f ∈ inputs -> f ∈ inputs'.
Proof.
  intros Hl Hc. unfold AddBoundaryInputs. rewrite FindLargestKey_range by apply Hc.
  destruct (GetRange_hull inputs (ch_some _ _ _ Hc)) as (H1 & _ & H3).
  destruct (add_boundary_ok level files inputs (S (length files)) inputs (GetRange inputs).2) as (inputs' & key' & E & Hc' & Hk' & H0 & Hn);
    [done..| |done| |].
  - split; [|done]. intros f Hf. by apply H1.
  - pose proof (count_bound (fun f => icmp (smallest f) (GetRange inputs).2 >? 0) files). lia.
  - exists inputs'. split_and!; [done..| |done]. by eapply closed_no_boundary.
Qed.

(** *** Where choices come from *)

Lemma overlap_chosen v level b e :
  level_files level (files_at v level) ->
  exists inputs, GetOverlappingInputs v level b e = Ok inputs /\
    (inputs <> [] -> chosen level (files_at v level) inputs) /\
    (forall f, f ∈ inputs -> f ∈ files_at v level) /\
    (forall f, f ∈ files_at v level -> meets (ExtractUserKey <$> b) (ExtractUserKey <$> e) f = true -> f ∈ inputs) /\
    (level <> O -> inputs = List.filter (meets (ExtractUserKey <$> b) (ExtractUserKey <$> e)) (files_at v level)).
Proof.
  intros Hl. pose proof (level_ranges _ _ Hl) as Hr.
  destruct (GetOverlappingInputs_ok v level b e Hr) as (b' & e' & -> & H1 & H2 & H3 & H4 & _).
  eexists. split; [done|]. split; [|split_and!].
  - intros Hne. split; [done| | |].
    + intros f [? _]%in_filter. done.
    + intros Hz f g [Hf Hm]%in_filter Hg Hfg. apply in_filter. split; [done|]. destruct (H4 Hz f Hf Hm) as [Hb He].
      by apply (meets_within b' e' f).
    + intros _ f g h [Hf Hfm]%in_filter Hg [Hh Hhm]%in_filter Hfg Hgh. apply in_filter. split; [done|].
      apply meets_iff in Hfm as [Hfm _], Hhm as [_ Hhm]. apply meets_iff. split.
      * intros x Hx. specialize (Hfm x Hx). apply Z.ge_le, cmp_sym_le. apply (cmp_trans _ (limit f)); [apply cmp_sym_le; lia|].
        apply (cmp_trans _ (start g)); [by apply user_key_mono|by apply Hr].
      * intros y Hy. apply (cmp_trans _ (start h)); [|by apply Hhm]. apply (cmp_trans _ (limit g)); [by apply Hr|by apply user_key_mono].
  - intros f [? _]%in_filter. done.
  - intros f Hf Hm. apply in_filter. split; [done|]. by apply (meets_grow _ _ _ _ _ H1 H2).
  - intros Hz. by destruct (H3 Hz) as [-> ->].
Qed.

Lemma one_chosen level files f : level_files level files -> f ∈ files -> level <> O -> chosen level files [f].
Proof.
  intros Hl Hf Hlevel. split; [done| |done|].
  - by intros g ->%list_elem_of_singleton.
  - intros _ g h k ->%list_elem_of_singleton Hh ->%list_elem_of_singleton Hfh Hhf. exfalso.
    pose proof (icmp_lt_le_trans _ _ _ Hfh (lf_range _ _ Hl h Hh)) as H1.
    pose proof (icmp_le_lt_trans _ _ _ (lf_range _ _ Hl f Hf) H1) as H2.
    pose proof (icmp_le_lt_trans _ _ _ (Z.lt_le_incl _ _ H2) Hhf) as H3. rewrite icmp_refl in H3. lia.
Qed.

Lemma take_until_prefix lim inputs : forall total, exists n, take_until lim total inputs = take n inputs.
Proof.
  induction inputs as [|f inputs IH]; intros total; cbn [take_until]; [by exists O|].
  destruct (_ >=? lim); [by exists 1%nat|]. destruct (IH (u64 (total + file_size f))) as [n ->]. by exists (S n).
Qed.

Lemma disjoint_cons f l :
  disjoint_files (f :: l) <->
  icmp (smallest f) (largest f) <= 0 /\ (forall g, g ∈ l -> icmp (largest f) (smallest g) < 0) /\ disjoint_files l.
Proof.
  split.
  - intros [Hr Ho]. split_and!.
    + apply Hr. left.
    + intros g [j Hj]%list_elem_of_lookup. apply (Ho O (S j)); [lia|done..].
    + split; [intros g Hg; apply Hr; by right|]. intros i j g h Hij Hi Hj. apply (Ho (S i) (S j)); [lia|done..].
  - intros (Hf & Hl & [Hr Ho]). split.
    + intros g [->|Hg]%elem_of_cons; [done|by apply Hr].
    + intros [|i] [|j] g h Hij Hi Hj; [lia| |lia|apply (Ho i j); [lia|done..]]. cbn in Hi. injection Hi as <-.
      apply Hl. by apply (list_elem_of_lookup_2 _ j).
Qed.

Lemma filter_disjoint P l : disjoint_files l -> disjoint_files (List.filter P l).
Proof.
  induction l as [|f l IH]; [done|]. intros (Hf & Hl & Hd)%disjoint_cons. cbn. destruct (P f); [|by apply IH].
  apply disjoint_cons. split_and!; [done| |by apply IH]. intros g [Hg _]%in_filter. by apply Hl.
Qed.

(** The first files of a choice of a sorted level are a choice. *)
Lemma prefix_chosen level files P n :
  level_files level files -> level <> O -> chosen level files (List.filter P files) -> take n (List.filter P files) <> [] ->
  chosen level files (take n (List.filter P files)).
Proof.
  intros Hl Hlevel Hc Hne. set (inputs := List.filter P files) in *. split; [done| |done|].
  - intros f Hf. apply (ch_in _ _ _ Hc). by apply elem_of_take in Hf as (i & ? & _); apply (list_elem_of_lookup_2 _ i).
  - intros _ f g h Hf Hg Hh Hfg Hgh.
    apply elem_of_take in Hf as (i & Hi & _), Hh as (j & Hj & Hjn).
    assert (Hgin : g ∈ inputs) by (apply (ch_convex _ _ _ Hc Hlevel f g h); [by eapply list_elem_of_lookup_2|done|by eapply list_elem_of_lookup_2|done..]).
    apply list_elem_of_lookup in Hgin as [k Hk]. apply elem_of_take. exists k. split; [done|].
    destruct (Nat.le_gt_cases k j) as [|Hkj]; [lia|]. exfalso.
    assert (Hd : disjoint_files inputs) by by apply filter_disjoint, (lf_disjoint _ _ Hl).
    pose proof (df_order _ Hd j k h g Hkj Hj Hk) as H1.
    pose proof (icmp_le_lt_trans _ _ _ (df_range _ Hd h (list_elem_of_lookup_2 _ _ _ Hj)) H1) as H2.
    pose proof (icmp_lt_le_trans _ _ _ H2 (df_range _ Hd g (list_elem_of_lookup_2 _ _ _ Hk))) as H3.
    pose proof (icmp_le_lt_trans _ _ _ (Z.lt_le_incl _ _ H3) Hgh) as H4. rewrite icmp_refl in H4. lia.
Qed.

(** *** The inputs of a compaction *)

Definition version_levels (v : Version) : Prop := forall level, level_files level (files_at v level).

(** Every file of the next level that meets an input is an input. *)
Definition covers (files inputs others : list FileMetaData) : Prop :=
  (forall g, g ∈ others -> g ∈ files) /\
  forall f g, f ∈ inputs -> g ∈ files -> files_meet f g = true -> g ∈ others.

Lemma hull_meets inputs r f g :
  hull inputs r -> f ∈ inputs -> files_meet f g = true -> meets (Some (ExtractUserKey r.1)) (Some (ExtractUserKey r.2)) g = true.
Proof.
  intros (Hin & _) Hf. destruct (Hin f Hf) as [H1 H2]. apply meets_grow.
  - intros x [= <-]. eexists. split; [done|]. by apply user_le.
  - intros x [= <-]. eexists. split; [done|]. by apply user_le.
Qed.

Lemma overlap_covers v level inputs r :
  version_levels v -> hull inputs r ->
  exists others, GetOverlappingInputs v level (Some r.1) (Some r.2) = Ok others /\ covers (files_at v level) inputs others.
Proof.
  intros Hv Hh. destruct (overlap_chosen v level (Some r.1) (Some r.2) (Hv level)) as (others & E & _ & H1 & H2 & _).
  exists others. split; [done|]. split; [done|]. intros f g Hf Hg Hm. apply H2; [done|]. by apply (hull_meets inputs _ f).
Qed.

Lemma files_meet_refl f : ucmp (start f) (limit f) <= 0 -> files_meet f f = true.
Proof.
  intros Hf. apply meets_iff. split; intros x [= <-]; [|done]. by apply Z.ge_le, cmp_sym_le.
Qed.

(** What the choice of inputs gives, [inputs0] being the files it started from. *)
Record choice (v : Version) (level : nat) (inputs0 i0 i1 : list FileMetaData) : Prop := {
  co_chosen : chosen level (files_at v level) i0;
  co_boundary : no_boundary (files_at v level) i0;
  co_covers : covers (files_at v (S level)) i0 i1;
  co_extends f : f ∈ inputs0 -> f ∈ i0
}.

Lemma grow_inputs_ok v max_file_size level inputs0 inputs1 :
  version_levels v -> choice v level inputs0 inputs0 inputs1 ->
  exists i0 i1, grow_inputs v max_file_size level inputs0 inputs1 (GetRange inputs0).2
      = Ok (i0, i1, (GetRange i0).2, GetRange2 i0 i1) /\ choice v level inputs0 i0 i1.
Proof.
  intros Hv Hc. unfold grow_inputs. pose proof (ch_some _ _ _ (co_chosen _ _ _ _ _ Hc)) as Hne.
  destruct (GetRange2 inputs0 inputs1) as [all_start all_limit] eqn:Er.
  assert (Hkeep : exists i0 i1, Ok (inputs0, inputs1, (GetRange inputs0).2, (all_start, all_limit))
      = Ok (i0, i1, (GetRange i0).2, GetRange2 i0 i1) /\ choice v level inputs0 i0 i1).
  { exists inputs0, inputs1. by rewrite Er. }
  destruct inputs1 as [|f1 inputs1]; [exact Hkeep|].
  assert (Hh : hull (inputs0 ++ f1 :: inputs1) (all_start, all_limit)).
  { rewrite <- Er. apply GetRange_hull. by destruct inputs0. }
  destruct (overlap_chosen v level (Some all_start) (Some all_limit) (Hv level)) as (e0 & E0 & Hch & _ & Hall & _).
  rewrite E0. cbn [res_bind].
  assert (H0 : forall f, f ∈ inputs0 -> f ∈ e0).
  { intros f Hf. apply Hall; [by apply (co_chosen _ _ _ _ _ Hc)|]. apply (hull_meets _ _ f f Hh); [apply elem_of_app; by left|].
    apply files_meet_refl. apply (level_ranges _ _ (Hv level)). by apply (co_chosen _ _ _ _ _ Hc). }
  destruct (AddBoundaryInputs_ok level (files_at v level) e0 (Hv level)) as (x0 & -> & Hc0 & Hb0 & Hx0).
  { apply Hch. destruct inputs0 as [|f l]; [done|]. intros ->. specialize (H0 f ltac:(left)). by apply elem_of_nil in H0. }
  cbn [res_bind]. destruct (_ && _); [|exact Hkeep].
  destruct (GetRange x0) as [new_start new_limit] eqn:En.
  destruct (overlap_covers v (S level) x0 (new_start, new_limit) Hv) as (x1 & E1 & Hcov).
  { rewrite <- En. by apply GetRange_hull, Hc0. }
  cbn [fst snd] in E1. rewrite E1. cbn [res_bind]. destruct (_ =? _)%nat; [|exact Hkeep].
  exists x0, x1. split; [by rewrite En|]. split; [done..|]. intros f Hf. by apply Hx0, H0.
Qed.

(** The inputs of a compaction of a version. *)
Record closed_inputs (v : Version) (inputs0 : list FileMetaData) (c : Compaction) : Prop := {
  cl_choice : choice v (c_level_ c) inputs0 (inputs_0 c) (inputs_1 c);
  cl_grandparents f g : (c_level_ c + 2 < num_levels)%nat -> f ∈ inputs_0 c ++ inputs_1 c -> g ∈ files_at v (c_level_ c + 2) ->
    files_meet f g = true -> g ∈ grandparents_ c
}.

Lemma SetupOtherInputs_ok {W} (vs : VersionSet W) max_file_size c v :
  current vs = Ok v -> length (compact_pointer_ vs) = num_levels -> version_levels v -> (S (c_level_ c) < num_levels)%nat ->
  chosen (c_level_ c) (files_at v (c_level_ c)) (inputs_0 c) ->
  exists c', SetupOtherInputs vs max_file_size c =
      Ok (set_pointers vs (<[c_level_ c := (GetRange (inputs_0 c')).2]> (compact_pointer_ vs)), c') /\
    c_level_ c' = c_level_ c /\ input_version_ c' = input_version_ c /\ closed_inputs v (inputs_0 c) c'.
Proof.
  intros Hcur Hcp Hv Hlevel Hc. unfold SetupOtherInputs. rewrite Hcur. cbn [res_bind].
  rewrite (proj2 (Nat.ltb_lt _ _) Hlevel). cbn [negb].
  destruct (AddBoundaryInputs_ok _ _ _ (Hv _) Hc) as (i0 & -> & Hc0 & Hb0 & H0). cbn [res_bind].
  pose proof (GetRange_hull i0 (ch_some _ _ _ Hc0)) as Hh.
  destruct (overlap_covers v (S (c_level_ c)) i0 (GetRange i0) Hv Hh) as (i1 & E1 & Hcov).
  destruct (GetRange i0) as [small large] eqn:Er. cbn [fst snd] in E1. rewrite E1. cbn [res_bind].
  destruct (grow_inputs_ok v max_file_size (c_level_ c) i0 i1 Hv) as (x0 & x1 & Eg & Hch); [by split|].
  rewrite Er in Eg. cbn [snd] in Eg. rewrite Eg. cbn [res_bind].
  destruct (GetRange2 x0 x1) as [all_start all_limit] eqn:Er2.
  assert (Hu : update_at (Z.of_nat (c_level_ c)) (fun _ => (GetRange x0).2) (compact_pointer_ vs)
      = Ok (<[c_level_ c := (GetRange x0).2]> (compact_pointer_ vs))).
  { unfold update_at. rewrite Hcp, (proj2 (Z.leb_le _ _)), (proj2 (Z.ltb_lt _ _)) by lia. cbn. rewrite Nat2Z.id. f_equal. by rewrite list_insert_alter. }
  assert (Hext : choice v (c_level_ c) (inputs_0 c) x0 x1).
  { destruct Hch as [G1 G2 G3 G4]. split; [done..|]. intros f Hf. by apply G4, H0. }
  destruct (Nat.ltb_spec (c_level_ c + 2) num_levels) as [Hl2|Hl2].
  - destruct (overlap_covers v (c_level_ c + 2) (x0 ++ x1) (all_start, all_limit) Hv) as (g & Eg2 & Hg).
    { rewrite <- Er2. apply GetRange_hull. pose proof (ch_some _ _ _ (co_chosen _ _ _ _ _ Hch)). by destruct x0. }
    cbn [fst snd] in Eg2. rewrite Eg2. cbn [res_bind]. rewrite Hu. cbn [res_bind].
    exists (set_edit (set_grandparents (set_inputs c x0 x1) g) (SetCompactPointer (c_edit_ c) (Z.of_nat (c_level_ c)) (GetRange x0).2)).
    split; [done|]. split; [done|]. split; [done|]. split; [done|]. cbn. intros f f' _ Hf Hf' Hm. by apply (proj2 Hg f f').
  - cbn [res_bind]. rewrite Hu. cbn [res_bind].
    exists (set_edit (set_inputs c x0 x1) (SetCompactPointer (c_edit_ c) (Z.of_nat (c_level_ c)) (GetRange x0).2)).
    split; [done|]. split; [done|]. split; [done|]. split; [done|]. cbn. lia.
Qed.

(** What [Finalize] and [UpdateStats] leave in a version: the level to compact has files,
    and the file to compact is in its level. *)
Record picks_ok (v : Version) : Prop := {
  pk_size : double_le (double_of_Z 1) (compaction_score_ v) = true ->
    0 <= compaction_level_ v < kNumLevels - 1 /\ files_at v (Z.to_nat (compaction_level_ v)) <> [];
  pk_seek f : file_to_compact_ v = Some f ->
    0 <= file_to_compact_level_ v < kNumLevels - 1 /\ f ∈ files_at v (Z.to_nat (file_to_compact_level_ v))
}.

Lemma level_below level : 0 <= level < kNumLevels - 1 -> (S (Z.to_nat level) < num_levels)%nat.
Proof. unfold num_levels, kNumLevels. lia. Qed.

Lemma current_ref {W} (vs : VersionSet W) id v : current vs = Ok v -> current (Version_Ref vs id) = Ok v.
Proof.
  unfold current, find_version. cbn [current_ Version_Ref versions_ set_versions]. destruct (current_ vs) as [i|]; [|done].
  induction (versions_ vs) as [|n l IH]; cbn; [done|].
  destruct (vn_id n =? id); cbn; destruct (vn_id n =? i); auto.
Qed.

Lemma hold_current_ok {W} (vs : VersionSet W) c v :
  current vs = Ok v ->
  current (hold_current vs c).1 = Ok v /\ compact_pointer_ (hold_current vs c).1 = compact_pointer_ vs /\
  c_level_ (hold_current vs c).2 = c_level_ c /\ inputs_0 (hold_current vs c).2 = inputs_0 c /\
  input_version_ (hold_current vs c).2 = current_ vs.
Proof.
  intros Hc. unfold hold_current. destruct (current_ vs) as [id|] eqn:E; cbn; [|done]. split; [by apply current_ref|done].
Qed.

(** The file a compaction starts from. *)
Definition picked_from (v : Version) (pointers : list bytes) (max_file_size : Z) (picked : option Compaction) : Prop :=
  match picked with
  | Some c => exists f level, c = set_inputs (NewCompaction max_file_size level) [f] [] /\
      f ∈ files_at v level /\ (S level < num_levels)%nat
  | None => file_to_compact_ v = None /\ double_le (double_of_Z 1) (compaction_score_ v) = false
  end.

Lemma pick_file (files : list FileMetaData) (P : FileMetaData -> bool) :
  files <> [] -> exists f, f ∈ files /\
    match List.find P files with Some g => Some g | None => match files with g :: _ => Some g | [] => None end end = Some f.
Proof.
  intros Hne. destruct (List.find P files) as [f|] eqn:E.
  - exists f. apply List.find_some in E as [Hin _]. by rewrite list_elem_of_In.
  - destruct files as [|g l]; [done|]. exists g. by split; [left|].
Qed.

Lemma PickCompaction_ok {W} (vs : VersionSet W) max_file_size v :
  current vs = Ok v -> length (compact_pointer_ vs) = num_levels -> version_levels v -> picks_ok v ->
  exists vs' picked, PickCompaction vs max_file_size = Ok (vs', picked) /\
    match picked with
    | None => file_to_compact_ v = None /\ double_le (double_of_Z 1) (compaction_score_ v) = false
    | Some c => (S (c_level_ c) < num_levels)%nat /\ input_version_ c = current_ vs /\ exists seed, closed_inputs v seed c
    end.
Proof.
  intros Hcur Hcp Hv [Hsize Hseek]. unfold PickCompaction. rewrite Hcur. cbn [res_bind].
  match goal with |- context [res_bind ?p _] => assert (Hp : exists picked, p = Ok picked /\ picked_from v (compact_pointer_ vs) max_file_size picked) end.
  { destruct (double_le _ _) eqn:Ed.
    - destruct (Hsize eq_refl) as [Hl Hne]. destruct (Z.ltb_spec (compaction_level_ v) 0); [lia|].
      set (level := Z.to_nat (compaction_level_ v)) in *.
      destruct (pick_file (files_at v level)
        (fun f => bool_decide (nth level (compact_pointer_ vs) [] = []) || (icmp (largest f) (nth level (compact_pointer_ vs) []) >? 0)) Hne) as (f & Hf & Ef).
      exists (Some (set_inputs (NewCompaction max_file_size level) [f] [])). split; [|exists f, level; split_and!; [done..|by apply level_below]].
      destruct (List.find _ _) as [g|]; [by injection Ef as ->|]. destruct (files_at v level); [done|by injection Ef as ->].
    - destruct (file_to_compact_ v) as [f|] eqn:Ef; [|by exists None].
      destruct (Hseek f eq_refl) as [Hl Hin]. exists (Some (set_inputs (NewCompaction max_file_size (Z.to_nat (file_to_compact_level_ v))) [f] [])).
      split; [done|]. eexists f, _. split_and!; [done..|by apply level_below]. }
  destruct Hp as (picked & -> & Hp). cbn [res_bind]. destruct picked as [c|]; [|by exists vs, None].
  destruct Hp as (f & level & -> & Hf & Hlevel). set (c0 := set_inputs (NewCompaction max_file_size level) [f] []).
  destruct (hold_current_ok vs c0 v Hcur) as (Hcur' & Hcp' & Hlv & Hin & Hiv).
  destruct (hold_current vs c0) as [vs1 c1]. cbn [fst snd] in *. cbn in Hlv, Hin.
  assert (Hc : exists c2, (if (c_level_ c1 =? 0)%nat
      then let '(small, large) := GetRange (inputs_0 c1) in
           let? inputs := GetOverlappingInputs v 0 (Some small) (Some large) in Ok (set_inputs c1 inputs [])
      else Ok c1) = Ok c2 /\ c_level_ c2 = level /\ input_version_ c2 = current_ vs /\ chosen level (files_at v level) (inputs_0 c2)).
  { rewrite Hlv. destruct (Nat.eqb_spec level 0) as [->|Hne].
    - rewrite Hin. cbn [GetRange foldl]. destruct (overlap_chosen v 0 (Some (smallest f)) (Some (largest f)) (Hv O)) as (i & -> & Hch & _ & Hall & _).
      cbn [res_bind]. eexists. split; [done|]. split_and!; [done..|]. cbn [inputs_0 set_inputs]. apply Hch. intros ->.
      assert (Hx : f ∈ []); [|by apply elem_of_nil in Hx]. apply Hall; [done|]. apply files_meet_refl. by apply (level_ranges _ _ (Hv O)).
    - exists c1. split_and!; [done..|]. rewrite Hin. by apply one_chosen. }
  destruct Hc as (c2 & -> & Hl2 & Hiv2 & Hch). cbn [res_bind]. rewrite <- Hl2 in *.
  destruct (SetupOtherInputs_ok vs1 max_file_size c2 v) as (c' & -> & El & Ei & Hcl); [done|by rewrite Hcp'|done..|].
  cbn [res_bind fst snd]. eexists _, _. split; [done|]. cbn. rewrite El, Ei. split_and!; [done..|]. by eexists.
Qed.

Lemma CompactRange_ok {W} (vs : VersionSet W) max_file_size level b e v :
  current vs = Ok v -> length (compact_pointer_ vs) = num_levels -> version_levels v -> (S level < num_levels)%nat ->
  exists vs' picked, CompactRange vs max_file_size level b e = Ok (vs', picked) /\
    match picked with
    | None => forall f, f ∈ files_at v level -> meets (ExtractUserKey <$> b) (ExtractUserKey <$> e) f = false
    | Some c => c_level_ c = level /\ input_version_ c = current_ vs /\ exists seed, closed_inputs v seed c /\
        seed <> [] /\ forall f, f ∈ seed -> level <> O -> meets (ExtractUserKey <$> b) (ExtractUserKey <$> e) f = true
    end.
Proof.
  intros Hcur Hcp Hv Hlevel. unfold CompactRange. rewrite Hcur. cbn [res_bind].
  destruct (overlap_chosen v level b e (Hv level)) as (inputs & -> & Hch & _ & Hall & Hpos). cbn [res_bind].
  destruct inputs as [|f inputs].
  { eexists _, None. split; [done|]. intros g Hg. apply not_true_is_false. intros Hm. specialize (Hall g Hg Hm). by apply elem_of_nil in Hall. }
  set (all := f :: inputs) in *. specialize (Hch ltac:(done)).
  set (some := if (0 <? level)%nat then take_until (MaxFileSizeForLevel max_file_size level) 0 all else all).
  assert (Hsome : chosen level (files_at v level) some /\ forall g, g ∈ some -> level <> O -> meets (ExtractUserKey <$> b) (ExtractUserKey <$> e) g = true).
  { unfold some. destruct (Nat.ltb_spec 0 level) as [Hl|Hl]; [|split; [done|lia]].
    assert (Hne : take_until (MaxFileSizeForLevel max_file_size level) 0 all <> []) by (unfold all; cbn; by destruct (_ >=? _)).
    destruct (take_until_prefix (MaxFileSizeForLevel max_file_size level) all 0) as [n En]. rewrite En in *.
    rewrite (Hpos ltac:(lia)) in *. split; [apply prefix_chosen; [by apply Hv|lia|done..]|].
    intros g Hg _. apply elem_of_take in Hg as (i & Hi & _). apply list_elem_of_lookup_2 in Hi. by apply in_filter in Hi as [_ Hi]. }
  destruct Hsome as [Hsome Hmeets].
  destruct (hold_current_ok vs (NewCompaction max_file_size level) v Hcur) as (Hcur' & Hcp' & Hlv & _ & Hiv).
  fold all. fold some. destruct (hold_current vs (NewCompaction max_file_size level)) as [vs1 c1]. cbn [fst snd] in *. cbn in Hlv.
  destruct (SetupOtherInputs_ok vs1 max_file_size (set_inputs c1 some []) v) as (c' & -> & El & Ei & Hcl).
  { done. } { by rewrite Hcp'. } { done. } { cbn. by rewrite Hlv. } { cbn. by rewrite Hlv. }
  cbn [res_bind fst snd]. eexists _, _. split; [done|]. cbn in El, Ei. cbn. rewrite El, Ei. split_and!; [done..|].
  exists some. split_and!; [done|by apply (ch_some _ _ _ Hsome)|done].
Qed.
End proofs.

(** ** What Finalize leaves *)

Lemma empty_level_score v level : (level < num_levels - 1)%nat -> files_at v level = [] ->
  double_le (double_of_Z 1) (level_score v level) = false.
Proof.
  intros Hl E. unfold level_score, TotalFileSize. rewrite E. cbn [foldl length].
  do 6 (destruct level as [|level]; [vm_compute; reflexivity|]). unfold num_levels, kNumLevels in Hl. lia.
Qed.

Lemma Finalize_picks v :
  (forall f, file_to_compact_ v = Some f -> 0 <= file_to_compact_level_ v < kNumLevels - 1 /\
     f ∈ files_at v (Z.to_nat (file_to_compact_level_ v))) ->
  picks_ok (Finalize v).
Proof.
  intros Hseek. unfold Finalize.
  assert (H : forall lvls p, (forall l, l ∈ lvls -> (l < num_levels - 1)%nat) ->
    (double_le (double_of_Z 1) p.2 = true -> 0 <= p.1 < kNumLevels - 1 /\ files_at v (Z.to_nat p.1) <> []) ->
    let q := foldl (fun '(best_level, best_score) level =>
        let score := level_score v level in
        if double_lt best_score score then (Z.of_nat level, score) else (best_level, best_score)) p lvls in
    double_le (double_of_Z 1) q.2 = true -> 0 <= q.1 < kNumLevels - 1 /\ files_at v (Z.to_nat q.1) <> []).
  { induction lvls as [|l lvls IH]; intros [bl bs] Hl Hp; cbn [foldl]; [done|]. apply IH; [intros k Hk; apply Hl; by right|].
    cbv zeta. destruct (double_lt bs (level_score v l)); [|done]. cbn [fst snd]. intros Hs.
    specialize (Hl l ltac:(left)). rewrite Nat2Z.id. split; [unfold num_levels, kNumLevels in *; lia|].
    intros E. by rewrite (empty_level_score v l Hl E) in Hs. }
  specialize (H (seq 0 (num_levels - 1)) (-1, double_of_Z (-1))).
  destruct (foldl _ _ _) as [bl bs] eqn:Ef. split; cbn [compaction_score_ compaction_level_ files_ file_to_compact_ file_to_compact_level_].
  - apply H; [|done]. intros l Hl. apply list_elem_of_In, in_seq in Hl. unfold num_levels, kNumLevels in *. lia.
  - apply Hseek.
Qed.


(** Level one ends a file in the middle of the entries of "k". *)
Definition split_files : Version :=
  MkVersion
    ([] :: [NewFileMetaData 3 11000000 (InternalKey (str "a") 9 kTypeValue) (InternalKey (str "k") 8 kTypeValue);
            NewFileMetaData 4 10 (InternalKey (str "k") 5 kTypeValue) (InternalKey (str "m") 4 kTypeValue);
            NewFileMetaData 6 10 (InternalKey (str "p") 5 kTypeValue) (InternalKey (str "q") 4 kTypeValue)]
        :: [NewFileMetaData 2 10 (InternalKey (str "l") 2 kTypeValue) (InternalKey (str "z") 1 kTypeValue)] :: replicate 4 [])
    None (-1) (double_of_Z (-1)) (-1).

Definition split_version : Version := Finalize split_files.

Definition split_set : VersionSet unit := AppendVersion NewVersionSet split_version.

Lemma split_levels : version_levels (C := BytewiseComparator) split_version.
Proof.
  intros level. unfold split_version. rewrite Finalize_files. destruct level as [|[|[|level]]].
  - split; [intros f []%elem_of_nil|done].
  - assert (Hd : disjoint_files (C := BytewiseComparator) (files_at split_files 1)).
    { repeat (apply disjoint_cons; split_and!; [by vm_compute| |]).
      4: split; [intros f []%elem_of_nil|by intros i j f g _ Hi]. all: apply list.Forall_forall; by repeat constructor. }
    split; [apply Hd|done].
  - assert (Hd : disjoint_files (C := BytewiseComparator) (files_at split_files 2)).
    { repeat (apply disjoint_cons; split_and!; [by vm_compute| |]).
      2: split; [intros f []%elem_of_nil|by intros i j f g _ Hi]. all: apply list.Forall_forall; by repeat constructor. }
    split; [apply Hd|done].
  - assert (E : files_at split_files (S (S (S level))) = []) by (do 5 (destruct level as [|level]; [done|]); done).
    rewrite E. split; [intros f []%elem_of_nil|]. intros _. split; [intros f []%elem_of_nil|by intros i j f g _ Hi].
Qed.


(** ** Base levels *)

Section base.
Context `{C : Comparator} `{!ComparatorLaws C}.
Abbreviation icmp := (Internal_Compare C).
Abbreviation ucmp := cmp_Compare.
Abbreviation start f := (ExtractUserKey (smallest f)).
Abbreviation limit f := (ExtractUserKey (largest f)).

Definition has_key (user_key : bytes) (f : FileMetaData) : bool :=
  (ucmp user_key (start f) >=? 0) && (ucmp user_key (limit f) <=? 0).

(** The pointer is past no file that ends at the key or after it. *)
Definition ptr_ok (files : list FileMetaData) (user_key : bytes) (ptr : nat) : Prop :=
  forall i f, (i < ptr)%nat -> files !! i = Some f -> ucmp user_key (limit f) > 0.

Lemma advance_ptr_ok files user_key : forall rest ptr,
  rest = drop ptr files -> disjoint_files files -> ptr_ok files user_key ptr ->
  ptr_ok files user_key (advance_ptr user_key rest ptr).1 /\ (advance_ptr user_key rest ptr).2 = existsb (has_key user_key) files.
Proof.
  induction rest as [|f rest IH]; intros ptr Er Hd Hp; cbn [advance_ptr].
  - split; [done|]. symmetry. apply not_true_is_false. intros (f & Hin & Hf)%existsb_exists.
    apply list_elem_of_In, list_elem_of_lookup in Hin as [i Hi]. apply andb_true_iff in Hf as [_ Hf]. apply Z.leb_le in Hf.
    assert (i < ptr)%nat; [|specialize (Hp i f ltac:(done) Hi); lia].
    apply lookup_lt_Some in Hi. assert (length (drop ptr files) = O) by by rewrite <- Er. rewrite length_drop in *. lia.
  - assert (Hf : files !! ptr = Some f) by by rewrite <- (Nat.add_0_r ptr), <- lookup_drop, <- Er.
    destruct (Z.leb_spec (ucmp user_key (limit f)) 0) as [Hle|Hgt]; cbn [fst snd].
    + split; [done|]. destruct (Z.geb_spec (ucmp user_key (start f)) 0) as [Hge|Hlt].
      * symmetry. apply existsb_exists. exists f. split; [by eapply list_elem_of_In, list_elem_of_lookup_2|].
        apply andb_true_iff. rewrite Z.leb_le. split; [by destruct (Z.geb_spec (ucmp user_key (start f)) 0); [|lia]|done].
      * symmetry. apply not_true_is_false. intros (g & Hin & Hg)%existsb_exists.
        apply list_elem_of_In, list_elem_of_lookup in Hin as [i Hi]. apply andb_true_iff in Hg as [Hg1 Hg2].
        apply Z.leb_le in Hg2. destruct (Z.geb_spec (ucmp user_key (start g)) 0) as [Hg|]; [|done].
        destruct (Nat.lt_trichotomy i ptr) as [Hi'|[->|Hi']].
        -- specialize (Hp i g Hi' Hi). lia.
        -- rewrite Hi in Hf. injection Hf as ->. lia.
        -- pose proof (df_order _ Hd ptr i f g Hi' Hf Hi) as Ho. apply user_key_mono in Ho.
           pose proof (df_range _ Hd f (list_elem_of_lookup_2 _ _ _ Hf)) as Hr. apply user_le in Hr.
           pose proof (cmp_trans _ _ _ Hr Ho) as H1. assert (H2 : ucmp (start g) user_key <= 0) by (apply cmp_sym_le; lia).
           pose proof (cmp_trans _ _ _ H1 H2) as H3. apply cmp_sym_le in H3. lia.
    + apply IH; [|done|].
      * by rewrite <- (Nat.add_1_r ptr), <- skipn_skipn, <- Er || (symmetry; rewrite <- Nat.add_1_r, <- drop_drop, <- Er).
      * intros i g Hi Hg. destruct (decide (i = ptr)) as [->|]; [rewrite Hf in Hg; injection Hg as <-; lia|apply (Hp i g); [lia|done]].
Qed.

(** No file of the levels has the key. *)
Definition base_level (v : Version) (lvls : list nat) (user_key : bytes) : bool :=
  forallb (fun lvl => negb (existsb (has_key user_key) (files_at v lvl))) lvls.

Lemma base_level_loop_ok v user_key lvls : forall ptrs,
  (forall lvl, lvl ∈ lvls -> disjoint_files (files_at v lvl)) ->
  (forall lvl, lvl ∈ lvls -> (lvl < length ptrs)%nat) -> NoDup lvls ->
  (forall lvl, lvl ∈ lvls -> ptr_ok (files_at v lvl) user_key (nth lvl ptrs O)) ->
  let r := base_level_loop v user_key ptrs lvls in
  r.2 = base_level v lvls user_key /\ length r.1 = length ptrs /\
  (forall lvl, lvl ∉ lvls -> nth lvl r.1 O = nth lvl ptrs O) /\
  (forall lvl, lvl ∈ lvls -> ptr_ok (files_at v lvl) user_key (nth lvl r.1 O)).
Proof.
  induction lvls as [|l lvls IH]; intros ptrs Hd Hlen Hn Hp; cbn [base_level_loop].
  { split_and!; [done..|by intros lvl []%elem_of_nil]. }
  apply list.NoDup_cons in Hn as [Hl Hn].
  destruct (advance_ptr_ok (files_at v l) user_key _ (nth l ptrs O) eq_refl) as [H1 H2]; [apply Hd; left|apply Hp; left|].
  destruct (advance_ptr user_key _ _) as [ptr inside]. cbn [fst snd] in H1, H2.
  assert (Hnth : forall k, nth k (<[l:=ptr]> ptrs) O = if decide (k = l) then ptr else nth k ptrs O).
  { intros k. rewrite !nth_lookup. destruct (decide (k = l)) as [->|Hk].
    - rewrite list_lookup_insert_eq by (apply Hlen; left). done.
    - by rewrite list_lookup_insert_ne. }
  destruct inside.
  - cbn [fst snd base_level forallb]. rewrite <- H2, length_insert. split_and!; [done..| |].
    + intros k Hk. rewrite Hnth, decide_False; [done|]. intros ->. apply Hk. left.
    + intros k Hk. rewrite Hnth. destruct (decide (k = l)) as [->|]; [done|by apply Hp].
  - cbn [base_level forallb]. rewrite <- H2. cbn [negb andb].
    destruct (IH (<[l:=ptr]> ptrs)) as (I1 & I2 & I3 & I4).
    + intros k Hk. apply Hd. by right.
    + intros k Hk. rewrite length_insert. apply Hlen. by right.
    + done.
    + intros k Hk. rewrite Hnth. rewrite decide_False by (intros ->; done). apply Hp. by right.
    + split; [done|]. rewrite length_insert in I2. split; [done|]. split.
      * intros k Hk. apply not_elem_of_cons in Hk as [Hkl Hk]. rewrite I3, Hnth by done. by rewrite decide_False.
      * intros k [->|Hk]%elem_of_cons; [|by apply I4]. by rewrite I3, Hnth, decide_True.
Qed.
End base.

(** The answers for a sequence of keys. *)
Fixpoint base_levels `{C : Comparator} {W} (vs : VersionSet W) (c : Compaction) (keys : list bytes) : res (list bool) :=
  match keys with
  | [] => Ok []
  | k :: keys =>
      let? r := IsBaseLevelForKey vs c k in
      let? answers := base_levels vs r.1 keys in
      Ok (r.2 :: answers)
  end.

Lemma ptr_ok_mono `{C : Comparator} `{!ComparatorLaws C} files k k' ptr :
  cmp_Compare k k' <= 0 -> ptr_ok files k ptr -> ptr_ok files k' ptr.
Proof.
  intros Hk Hp i f Hi Hf. specialize (Hp i f Hi Hf). apply cmp_sym_lt. apply (cmp_lt_le_trans _ k); [by apply cmp_sym_lt|done].
Qed.

Lemma base_levels_ok `{C : Comparator} `{!ComparatorLaws C} {W} (vs : VersionSet W) id v level keys :
  find_version vs id = Ok v -> (forall level, (0 < level)%nat -> disjoint_files (files_at v level)) ->
  StronglySorted (fun a b => cmp_Compare a b <= 0) keys ->
  let lvls := seq (level + 2) (num_levels - (level + 2)) in
  forall c, input_version_ c = Some id -> c_level_ c = level -> length (level_ptrs_ c) = num_levels ->
    (forall k l, k ∈ keys -> l ∈ lvls -> ptr_ok (files_at v l) k (nth l (level_ptrs_ c) O)) ->
    base_levels vs c keys = Ok (map (base_level v lvls) keys).
Proof.
  intros Hv Hd Hs lvls. assert (Hlv : forall l, l ∈ lvls -> (2 <= l < num_levels)%nat).
  { intros l Hl. apply list_elem_of_In, in_seq in Hl. lia. }
  induction Hs as [|k keys Hs IH Hall]; intros c Hid Hl Hlen Hp; cbn [base_levels map]; [done|].
  unfold IsBaseLevelForKey at 1. rewrite Hid, Hv. cbn [res_bind]. rewrite Hl. fold lvls.
  destruct (base_level_loop_ok v k lvls (level_ptrs_ c)) as (E & L & _ & Hp').
  - intros l Hin. apply Hd. specialize (Hlv l Hin). lia.
  - intros l Hin. rewrite Hlen. specialize (Hlv l Hin). lia.
  - apply NoDup_ListNoDup, seq_NoDup.
  - intros l Hin. apply Hp; [left|done].
  - destruct (base_level_loop v k (level_ptrs_ c) lvls) as [ptrs result]. cbn [fst snd res_bind] in *.
    rewrite IH; [by rewrite E|done..|cbn; congruence|]. intros k' l Hk' Hin. cbn [level_ptrs_ set_level_ptrs].
    apply (ptr_ok_mono _ k); [|by apply Hp']. rewrite list.Forall_forall in Hall. by apply Hall.
Qed.

(** Asked about the user keys of a compaction in their order, [IsBaseLevelForKey]
    answers exactly whether no file of the levels below the output has the key in its
    range: keeping a pointer into each level between the calls loses nothing.  Deletion
    markers are dropped on this answer. *)
Lemma base_level_exact `{C : Comparator} `{!ComparatorLaws C} {W : Type} (vs : VersionSet W) (c : Compaction) (id : Z)
    (v : Version) (keys : list bytes) :
  input_version_ c = Some id -> find_version vs id = Ok v -> level_ptrs_ c = replicate num_levels O ->
  (forall level, (0 < level)%nat -> disjoint_files (files_at v level)) ->
  StronglySorted (fun a b => cmp_Compare a b <= 0) keys ->
  base_levels vs c keys = Ok (map (base_level v (seq (c_level_ c + 2) (num_levels - (c_level_ c + 2)))) keys).
Proof.
  intros Hid Hv Hptrs Hd Hs. apply (base_levels_ok vs id v (c_level_ c) keys); [done..| |].
  - by rewrite Hptrs, length_replicate.
  - intros k l _ Hl i f Hi. apply list_elem_of_In, in_seq in Hl.
    rewrite Hptrs, nth_lookup, lookup_replicate_2 in Hi by lia. cbn in Hi. lia.
Qed.

Definition base_version : Version :=
  MkVersion ([] :: [] :: [example_file 3 "b" "d"; example_file 4 "p" "q"] :: [example_file 2 "e" "f"] :: replicate 3 [])
    None (-1) (double_of_Z (-1)) (-1).

Definition base_set : VersionSet unit := AppendVersion NewVersionSet base_version.

Lemma base_disjoint level : (0 < level)%nat -> disjoint_files (C := BytewiseComparator) (files_at base_version level).
Proof.
  intros _. destruct level as [|[|[|[|level]]]].
  1-2: split; [intros f []%elem_of_nil|by intros i j f g _ Hi].
  1-2: repeat (apply disjoint_cons; split_and!; [by vm_compute|apply list.Forall_forall; by repeat constructor|]);
    split; [intros f []%elem_of_nil|by intros i j f g _ Hi].
  assert (E : files_at base_version (S (S (S (S level)))) = []) by (do 4 (destruct level as [|level]; [done|]); done).
  rewrite E. split; [intros f []%elem_of_nil|by intros i j f g _ Hi].
Qed.

Lemma base_level_exact_witness :
  base_levels (C := BytewiseComparator) base_set (set_input_version (NewCompaction 2097152 0) (Some 1)) (map str ["a"; "c"; "e"; "g"; "p"; "z"]%string)
    = Ok [true; false; false; true; false; true].
Proof.
  etransitivity.
  - apply (base_level_exact (C := BytewiseComparator) base_set _ 1 base_version); [reflexivity..|exact base_disjoint|].
    repeat (constructor; [|repeat (constructor; [vm_compute; discriminate|]); constructor]). constructor.
  - vm_compute. reflexivity.
Defined.
