(* ===== verification/VersionIter.v ===== *)
(** * Iterating over versions

    Models the iterators of [cpp/leveldb/db/version_set.cc] over the files of a version
    and over the inputs of a compaction: one iterator for each file of level zero, one
    that walks through the files of each level above, and their merge. *)
From stdpp Require Import sorting.
From S2P Require Import Prelude Coding Comparator Status DbFormat Cursor Block Merger TwoLevel VersionEdit FileSearch Version Compaction.

(** [TableCache::NewIterator(options, file_number, file_size)], with the read options
    [verify_checksums] and [fill_cache]; an error is an iterator too. *)
Class TableFiles (T I : Type) `{It : Iterator I} := {
  tc_NewIterator : T -> bool -> bool -> Z -> Z -> res (T * I)
}.

#[local] Existing Instance Sum_Iterator.

Section iterators.
Context `{C : Comparator} {T I : Type} `{TF : TableFiles T I}.
Context (verify_checksums fill_cache : bool).

Definition GetFileIterator (cache : T) (file_value : bytes) : res (T * (I + EmptyIterator)) :=
  if negb (size file_value =? 16) then
    Ok (cache, inr (NewErrorIterator (Status_Corruption (str "FileReader invoked with unexpected value") [])))
  else
    let? r := tc_NewIterator cache verify_checksums fill_cache (DecodeFixed64 file_value) (DecodeFixed64 (drop 8 file_value)) in
    Ok (r.1, inl r.2).

Definition LevelIterator : Type := TwoLevelIterator T LevelFileNumIterator (I + EmptyIterator).

Definition NewLevelIterator (cache : T) (files : list FileMetaData) : LevelIterator :=
  NewTwoLevelIterator (NewLevelFileNumIterator files) cache.

Definition NewConcatenatingIterator (v : Version) (cache : T) (level : nat) : LevelIterator :=
  NewLevelIterator cache (files_at v level).

(** It bounds the files one call passes over. *)
Context (fuel : nat).

#[export] Instance Level_Iterator : Iterator LevelIterator := TwoLevel_Iterator GetFileIterator fuel.

(** Iterators over the files, opened in turn. *)
Fixpoint open_files (cache : T) (files : list FileMetaData) : res (T * list (I + LevelIterator)) :=
  match files with
  | [] => Ok (cache, [])
  | f :: files =>
      let? r := tc_NewIterator cache verify_checksums fill_cache (number f) (file_size f) in
      let? rs := open_files r.1 files in
      Ok (rs.1, inl r.2 :: rs.2)
  end.

Definition AddIterators (v : Version) (cache : T) (iters : list (I + LevelIterator)) : res (T * list (I + LevelIterator)) :=
  let? r := open_files cache (files_at v 0) in
  let '(cache, level0) := r in
  Ok (cache, iters ++ level0 ++
        flat_map (fun level => match files_at v level with [] => [] | _ => [inr (NewConcatenatingIterator v cache level)] end)
          (seq 1 (num_levels - 1))).

(** The iterators over the inputs [which] of a compaction. *)
Definition input_iterators (cache : T) (level : nat) (files : list FileMetaData) : res (T * list (I + LevelIterator)) :=
  match files with
  | [] => Ok (cache, [])
  | _ => if (level =? 0)%nat then open_files cache files else Ok (cache, [inr (NewLevelIterator cache files)])
  end.

Definition MakeInputIterator (cache : T) (c : Compaction) : res (T * @MergedIterator (I + LevelIterator)%type) :=
  let? r0 := input_iterators cache (c_level_ c) (inputs_0 c) in
  let? r1 := input_iterators r0.1 (S (c_level_ c)) (inputs_1 c) in
  Ok (r1.1, NewMergingIterator (r0.2 ++ r1.2)).
End iterators.

(** ** Merging lists *)

Section merge.
Context `{C : Comparator} `{!ComparatorLaws C}.

Definition key_le (p q : bytes * bytes) : Prop := cmp_Compare p.1 q.1 <= 0.

#[local] Instance key_le_dec : RelDecision key_le.
Proof. unfold key_le. intros p q. apply _. Defined.

#[local] Instance key_le_trans : Transitive key_le.
Proof. intros p q r. apply cmp_trans. Qed.

#[local] Instance key_le_total : Total key_le.
Proof. intros p q. unfold key_le. pose proof (cmp_antisym p.1 q.1). lia. Qed.

(** The keys of the list are different. *)
Fixpoint distinct_keys (kvs : list (bytes * bytes)) : Prop :=
  match kvs with
  | [] => True
  | p :: kvs => (forall q, q ∈ kvs -> cmp_Compare p.1 q.1 <> 0) /\ distinct_keys kvs
  end.

Lemma distinct_perm kvs kvs' : kvs ≡ₚ kvs' -> distinct_keys kvs -> distinct_keys kvs'.
Proof.
  induction 1 as [|p l l' Hp IH|p q l|l1 l2 l3 _ IH1 _ IH2]; cbn; [done| | |tauto].
  - intros [H1 H2]. split; [|by apply IH]. intros x Hx. apply H1. by rewrite Hp.
  - intros (H1 & H2 & H3). split_and!; [| |done].
    + intros x [->|Hx]%elem_of_cons; [|by apply H2]. intros He%cmp_sym_eq. apply (H1 p); [left|done].
    + intros x Hx. apply H1. by right.
Qed.

Lemma sorted_ascending kvs : StronglySorted key_le kvs -> distinct_keys kvs -> ascending kvs.
Proof.
  induction 1 as [|p kvs Hs IH Hp]; intros Hd; [by intros i j x y _ Hx|]. destruct Hd as [Hd1 Hd2].
  rewrite list.Forall_forall in Hp. apply ascending_cons; [by apply IH|]. intros q Hq.
  assert (Hin : q ∈ kvs) by (destruct kvs; [done|injection Hq as ->; left]). specialize (Hp q Hin). specialize (Hd1 q Hin).
  unfold key_le in Hp. lia.
Qed.

Lemma distinct_app l l' : distinct_keys l -> distinct_keys l' ->
  (forall p q, p ∈ l -> q ∈ l' -> cmp_Compare p.1 q.1 <> 0) -> distinct_keys (l ++ l').
Proof.
  induction l as [|p l IH]; intros Hl Hl' Hx; cbn; [done|]. destruct Hl as [H1 H2]. split.
  - intros q [Hq|Hq]%elem_of_app; [by apply H1|]. apply Hx; [left|done].
  - apply IH; [done..|]. intros a b Ha. apply Hx. by right.
Qed.

Lemma ascending_distinct l : ascending l -> distinct_keys l.
Proof.
  induction l as [|p l IH]; intros Ha; cbn; [done|]. split; [|by eapply IH, ascending_tail]. intros q Hq.
  pose proof (ascending_head _ _ _ Ha Hq). lia.
Qed.

(** Ascending lists without a common key have a merge. *)
Lemma merge_exists kvss :
  (forall j l, kvss !! j = Some l -> ascending l) ->
  (forall i j l l' p q, i <> j -> kvss !! i = Some l -> kvss !! j = Some l' -> p ∈ l -> q ∈ l' -> cmp_Compare p.1 q.1 <> 0) ->
  exists kvs, merge_of kvss kvs.
Proof.
  intros Ha Hd. exists (merge_sort key_le (concat kvss)). split; [|done| |done].
  - apply sorted_ascending; [apply (StronglySorted_merge_sort _)|]. eapply distinct_perm; [symmetry; apply merge_sort_Permutation|].
    induction kvss as [|l kvss IH]; [done|]. cbn. apply distinct_app.
    + apply ascending_distinct. by apply (Ha 0%nat).
    + apply IH; [intros j l' Hj; by apply (Ha (S j))|]. intros i j l1 l2 p q Hij Hi Hj. apply (Hd (S i) (S j)); [lia|done..].
    + intros p q Hp Hq. apply list_elem_of_In, in_concat in Hq as (l' & Hl' & Hq). apply list_elem_of_In, list_elem_of_lookup in Hl' as [j Hj].
      apply (Hd 0%nat (S j) l l' p q); [lia|done..|by apply list_elem_of_In].
  - intros p. rewrite merge_sort_Permutation. rewrite list_elem_of_In, in_concat. split.
    + intros (l & Hl & Hp). apply list_elem_of_In, list_elem_of_lookup in Hl as [j Hj]. exists j, l. split; [done|]. by apply list_elem_of_In.
    + intros (j & l & Hj & Hp). exists l. split; [|by apply list_elem_of_In]. apply list_elem_of_In. by apply (list_elem_of_lookup_2 _ j).
Qed.
End merge.

(** ** What the iterators show *)

(** The table cache opens the files it serves on their pairs. *)
Class TableFilesLaws `{C : Comparator} (contents : FileMetaData -> list (bytes * bytes)) (T I : Type) `{TF : TableFiles T I} := {
  ti_serves : T -> FileMetaData -> Prop;
  tc_NewIterator_ok cache verify fill f : ti_serves cache f ->
    exists cache' i, tc_NewIterator cache verify fill (number f) (file_size f) = Ok (cache', i) /\
      @iterates_at (InternalKeyComparator C) _ _ i (contents f) None /\ forall g, ti_serves cache g -> ti_serves cache' g
}.

Section proofs.
Context `{C : Comparator} `{!ComparatorLaws C} `{!ComparatorExact C} (contents : FileMetaData -> list (bytes * bytes)).
Context {T I : Type} `{It : Iterator I} `{TF : !TableFiles T I} `{TL : !TableFilesLaws contents T I} (verify_checksums fill_cache : bool) (fuel : nat).
Abbreviation icmp := (Internal_Compare C).
Abbreviation iterates := (@iterates_at (InternalKeyComparator C) _ _).
#[local] Instance levels : Iterator LevelIterator := Level_Iterator verify_checksums fill_cache fuel.

Definition sized (f : FileMetaData) : Prop := fits 64 (number f) /\ fits 64 (file_size f).

Lemma file_value_ok f : sized f -> size (file_value f) = 16 /\ DecodeFixed64 (file_value f) = number f /\
  DecodeFixed64 (drop 8 (file_value f)) = file_size f.
Proof.
  intros [Hn Hs]. unfold file_value, size. rewrite length_app, !length_EncodeFixed64. split_and!; [done| |].
  - by rewrite DecodeFixed64_encode, wrap_id.
  - rewrite drop_app_length' by done. rewrite <- (app_nil_r (EncodeFixed64 (file_size f))). by rewrite DecodeFixed64_encode, wrap_id.
Qed.

(** The pairs of the file with a given value in the index. *)
Definition block_of (files : list FileMetaData) (h : bytes) : list (bytes * bytes) :=
  match List.find (fun f => bool_decide (file_value f = h)) files with Some f => contents f | None => [] end.

Lemma block_of_file files f :
  NoDup (number <$> files) -> (forall f, f ∈ files -> sized f) -> f ∈ files -> block_of files (file_value f) = contents f.
Proof.
  intros Hn Hs Hf. unfold block_of. destruct (List.find _ files) as [g|] eqn:E.
  - apply List.find_some in E as [Hg E]. apply bool_decide_eq_true in E. apply list_elem_of_In in Hg.
    destruct (file_value_ok f (Hs f Hf)) as (_ & Ef & _), (file_value_ok g (Hs g Hg)) as (_ & Eg & _). rewrite E, Ef in Eg.
    f_equal. apply list_elem_of_lookup in Hf as [i Hi]. apply list_elem_of_lookup in Hg as [j Hj].
    assert (i = j) as ->; [|congruence]. apply (proj1 (NoDup_alt _) Hn i j (number f)); rewrite list_lookup_fmap; [by rewrite Hi|by rewrite Hj, Eg].
  - exfalso. pose proof (List.find_none _ _ E f (proj1 (list_elem_of_In _ _) Hf)) as Hx. cbn in Hx. apply bool_decide_eq_false in Hx. done.
Qed.

(** Files that an iterator may walk through. *)
Record level_ok (files : list FileMetaData) : Prop := {
  lo_holds f : f ∈ files -> file_holds contents f;
  lo_sized f : f ∈ files -> sized f;
  lo_disjoint : disjoint_files files;
  lo_numbers : NoDup (number <$> files);
  lo_length : Z.of_nat (length files) < 2 ^ 31
}.

Lemma level_blocks files : level_ok files -> flat (block_of files) (level_entries files) = concat (map contents files).
Proof.
  intros [_ Hs _ Hn _]. unfold flat, level_entries. rewrite List.map_map. f_equal.
  apply map_ext_in. intros f Hf. apply block_of_file; [done..|]. by apply list_elem_of_In.
Qed.

Lemma level_two_level files : level_ok files -> @two_level_ok (block_of files) (InternalKeyComparator C) (level_entries files).
Proof.
  intros [Hh Hs Hd Hn _].
  assert (Hget : forall i e, level_entries files !! i = Some e -> exists f, files !! i = Some f /\ f ∈ files /\ e.1 = largest f /\
      block_of files e.2 = contents f).
  { intros i e. unfold level_entries. rewrite list_lookup_fmap. destruct (files !! i) as [f|] eqn:Ef; [|done]. intros [= <-]. cbn.
    assert (f ∈ files) by by apply (list_elem_of_lookup_2 _ i). exists f. split_and!; [done..|]. by apply block_of_file. }
  split.
  - apply entries_ascending, disjoint_largest, Hd.
  - intros i e (f & _ & Hf & _ & ->)%Hget. apply (Hh f Hf).
  - intros i e x (f & _ & Hf & -> & ->)%Hget Hx. by apply (Hh f Hf).
  - intros i j e e' x Hij (f & Ef & Hf & -> & _)%Hget (g & Eg & Hg & _ & ->)%Hget Hx. cbn.
    apply (icmp_lt_le_trans _ (smallest g)); [by apply (df_order _ Hd i j)|]. by apply (Hh g Hg).
Qed.

Lemma NewLevelIterator_iterates cache files :
  level_ok files -> (forall f, f ∈ files -> ti_serves cache f) -> (length files < fuel)%nat ->
  iterates (NewLevelIterator cache files : LevelIterator) (concat (map contents files)) None.
Proof.
  intros Hok Hserve Hfuel. rewrite <- (level_blocks files Hok).
  apply (NewTwoLevelIterator_iterates (C := InternalKeyComparator C) (GetFileIterator verify_checksums fill_cache)
    (fun cache => forall f, f ∈ files -> ti_serves cache f) (block_of files) (level_entries files)).
  - intros w i e Hw He. unfold level_entries in He. rewrite list_lookup_fmap in He.
    destruct (files !! i) as [f|] eqn:Ef; [|done]. injection He as <-. cbn [snd].
    assert (Hf : f ∈ files) by by apply (list_elem_of_lookup_2 _ i).
    destruct (file_value_ok f (lo_sized _ Hok f Hf)) as (Hz & E1 & E2).
    destruct (tc_NewIterator_ok w verify_checksums fill_cache f (Hw f Hf)) as (w' & it & Eo & Hit & Hkeep).
    exists w', (inl it). unfold GetFileIterator. rewrite Hz, E1, E2, Eo. split; [done|]. split; [intros g Hg; by apply Hkeep, Hw|].
    rewrite (block_of_file files f); [by apply (iterates_inl (C := InternalKeyComparator C))|apply Hok..|done].
  - by apply level_two_level.
  - rewrite level_entries_length. lia.
  - apply NewLevelFileNumIterator_iterates; [apply disjoint_largest, Hok|apply Hok].
  - exact Hserve.
Qed.

Abbreviation child := (I + LevelIterator)%type.

(** An iterator for each list. *)
Definition shown (its : list child) (kvss : list (list (bytes * bytes))) : Prop :=
  Forall2 (fun it kvs => iterates it kvs None) its kvss.

Lemma open_files_ok files : forall cache, (forall f, f ∈ files -> ti_serves cache f) ->
  exists cache' its, open_files verify_checksums fill_cache cache files = Ok (cache', its) /\
    shown its (map contents files) /\ forall g, ti_serves cache g -> ti_serves cache' g.
Proof.
  induction files as [|f files IH]; intros cache Hs; cbn [open_files map]; [exists cache, []; split_and!; [done|constructor|done]|].
  destruct (tc_NewIterator_ok cache verify_checksums fill_cache f (Hs f ltac:(left))) as (c1 & i & -> & Hi & Hk). cbn [res_bind fst snd].
  destruct (IH c1) as (c2 & its & -> & Hits & Hk2). { intros g Hg. apply Hk, Hs. by right. } cbn [res_bind fst snd].
  exists c2, (inl i :: its). split_and!; [done| |intros g Hg; by apply Hk2, Hk]. constructor; [|exact Hits].
  by apply (iterates_inl (C := InternalKeyComparator C)).
Qed.

(** The lists a version is walked as. *)
Definition version_lists (v : Version) : list (list (bytes * bytes)) :=
  map contents (files_at v 0) ++
  flat_map (fun level => match files_at v level with [] => [] | files => [concat (map contents files)] end) (seq 1 (num_levels - 1)).

(** A version that can be walked. *)
Record walkable (v : Version) : Prop := {
  wk_holds : version_holds contents v;
  wk_level level : (0 < level)%nat -> level_ok (files_at v level);
  wk_fuel level : (length (files_at v level) < fuel)%nat
}.

Lemma AddIterators_ok v cache iters kvss :
  walkable v -> (forall level f, f ∈ files_at v level -> ti_serves cache f) -> shown iters kvss ->
  exists cache' its, AddIterators verify_checksums fill_cache v cache iters = Ok (cache', its) /\ shown its (kvss ++ version_lists v) /\
    forall g, ti_serves cache g -> ti_serves cache' g.
Proof.
  intros [Hv Hl Hf] Hs Hi. unfold AddIterators. destruct (open_files_ok (files_at v 0) cache (Hs 0%nat)) as (c1 & its & -> & Hits & Hk).
  cbn [res_bind]. eexists _, _. split; [done|]. split; [|done]. apply Forall2_app; [done|]. apply Forall2_app; [done|].
  assert (Hlev : forall l, Forall (fun level => 0 < level)%nat l -> shown
    (flat_map (fun level => match files_at v level with [] => [] | _ => [inr (NewConcatenatingIterator v c1 level)] end) l)
    (flat_map (fun level => match files_at v level with [] => [] | files => [concat (map contents files)] end) l)).
  { induction 1 as [|level l Hlevel Hl' IH]; [constructor|]. cbn [flat_map]. apply Forall2_app; [|exact IH].
    destruct (files_at v level) as [|f files] eqn:Ef; [constructor|]. constructor; [|constructor].
    apply (iterates_inr (C := InternalKeyComparator C)). unfold NewConcatenatingIterator. rewrite Ef. rewrite <- Ef.
    apply NewLevelIterator_iterates; [by apply Hl| |done]. intros g Hg. apply Hk. by apply (Hs level). }
  apply Hlev. apply list.Forall_forall. intros level Hlevel. apply elem_of_seq in Hlevel. lia.
Qed.

Lemma elem_of_flat_levels v l level kvs x :
  level ∈ l -> x ∈ concat (map contents (files_at v level)) -> kvs = concat (map contents (files_at v level)) ->
  kvs ∈ flat_map (fun level => match files_at v level with [] => [] | files => [concat (map contents files)] end) l.
Proof.
  intros Hl Hx ->. apply list_elem_of_In, in_flat_map. exists level. split; [by apply list_elem_of_In|].
  destruct (files_at v level); [by apply elem_of_nil in Hx|]. by left.
Qed.

Lemma elem_of_concat_files (files : list FileMetaData) x :
  x ∈ concat (map contents files) <-> exists f, f ∈ files /\ x ∈ contents f.
Proof.
  rewrite list_elem_of_In, in_concat. split.
  - intros (l & Hl & Hx). apply in_map_iff in Hl as (f & <- & Hf). exists f. split; by apply list_elem_of_In.
  - intros (f & Hf & Hx). exists (contents f). split; [apply in_map_iff; exists f; split; [done|]|]; by apply list_elem_of_In.
Qed.

(** The entries of the lists are those of the files. *)
Lemma version_lists_elem v x : (length (files_ v) <= num_levels)%nat ->
  (exists kvs, kvs ∈ version_lists v /\ x ∈ kvs) <-> exists level f, f ∈ files_at v level /\ x ∈ contents f.
Proof.
  intros Hlen. unfold version_lists. split.
  - intros (kvs & Hk & Hx). apply elem_of_app in Hk as [Hk|Hk].
    + apply list_elem_of_In, in_map_iff in Hk as (f & <- & Hf). exists 0%nat, f. split; [by apply list_elem_of_In|done].
    + apply list_elem_of_In, in_flat_map in Hk as (level & _ & Hk). exists level. destruct (files_at v level) as [|f fs] eqn:Ef; [done|].
      destruct Hk as [<-|[]]. rewrite <- Ef in *. by apply elem_of_concat_files in Hx.
  - intros (level & f & Hf & Hx). destruct level as [|level].
    + exists (contents f). split; [|done]. apply elem_of_app. left. apply list_elem_of_In, in_map. by apply list_elem_of_In.
    + assert (Hlt : (S level < num_levels)%nat).
      { unfold files_at in Hf. destruct (Nat.lt_ge_cases (S level) (length (files_ v))); [lia|]. rewrite nth_overflow in Hf by done.
        by apply elem_of_nil in Hf. }
      assert (Hc : x ∈ concat (map contents (files_at v (S level)))) by (apply elem_of_concat_files; by exists f).
      exists (concat (map contents (files_at v (S level)))). split; [|done]. apply elem_of_app. right.
      eapply elem_of_flat_levels; [|exact Hc|done]. apply elem_of_seq. lia.
Qed.

(** *** No key is in two lists *)

Definition no_common (l l' : list (bytes * bytes)) : Prop := forall p q, p ∈ l -> q ∈ l' -> icmp p.1 q.1 <> 0.

Fixpoint apart_lists (kvss : list (list (bytes * bytes))) : Prop :=
  match kvss with
  | [] => True
  | l :: kvss => (forall l', l' ∈ kvss -> no_common l l') /\ apart_lists kvss
  end.

Lemma no_common_sym l l' : no_common l l' -> no_common l' l.
Proof. intros Hn p q Hp Hq He. apply (Hn q p Hq Hp). by apply (cmp_sym_eq (C := InternalKeyComparator C)). Qed.

Lemma apart_lookup kvss : apart_lists kvss -> forall i j l l', i <> j -> kvss !! i = Some l -> kvss !! j = Some l' -> no_common l l'.
Proof.
  induction kvss as [|k kvss IH]; intros Ha i j l l' Hij Hi Hj; [done|]. destruct Ha as [H1 H2].
  destruct i as [|i], j as [|j]; [lia| | |apply (IH H2 i j); [lia|done..]].
  - injection Hi as ->. apply H1. by apply (list_elem_of_lookup_2 _ j).
  - injection Hj as ->. apply no_common_sym, H1. by apply (list_elem_of_lookup_2 _ i).
Qed.

Lemma apart_app k1 k2 : apart_lists k1 -> apart_lists k2 -> (forall l l', l ∈ k1 -> l' ∈ k2 -> no_common l l') -> apart_lists (k1 ++ k2).
Proof.
  induction k1 as [|l k1 IH]; intros H1 H2 Hx; cbn; [done|]. destruct H1 as [H0 H1]. split.
  - intros l' [Hl|Hl]%elem_of_app; [by apply H0|]. apply Hx; [left|done].
  - apply IH; [done..|]. intros a b Ha. apply Hx. by right.
Qed.

(** Equal internal keys have the same user key. *)
Lemma icmp_eq_user a b : icmp a b = 0 -> ExtractUserKey a = ExtractUserKey b.
Proof.
  intros He. apply cmp_exact. assert (H1 : icmp a b <= 0) by lia. apply Internal_Compare_le in H1.
  assert (H2 : icmp b a = 0) by (by apply (cmp_sym_eq (C := InternalKeyComparator C))).
  assert (H3 : icmp b a <= 0) by lia. apply Internal_Compare_le in H3. destruct H1 as [H1|[H1 _]]; [|done]. destruct H3 as [H3|[H3 _]].
  - apply cmp_sym_lt in H3. lia.
  - by apply cmp_sym_eq.
Qed.

Lemma level_lists_apart v l : version_holds contents v -> StronglySorted lt l -> Forall (fun level => 0 < level)%nat l ->
  apart_lists (flat_map (fun level => match files_at v level with [] => [] | files => [concat (map contents files)] end) l).
Proof.
  intros Hv. induction 1 as [|level l Hs IH Hlt]; intros Hl; [done|]. apply list.Forall_cons in Hl as [Hlevel Hl]. cbn [flat_map].
  destruct (files_at v level) as [|f fs] eqn:Ef; [by apply IH|]. cbn [app apart_lists]. split; [|by apply IH]. rewrite <- Ef.
  intros l' Hl'. apply list_elem_of_In, in_flat_map in Hl' as (level' & Hin & Hl'). apply list_elem_of_In in Hin.
  rewrite list.Forall_forall in Hlt. specialize (Hlt _ Hin). destruct (files_at v level') as [|g gs] eqn:Eg; [done|]. destruct Hl' as [<-|[]].
  rewrite <- Eg. intros p q (f1 & Hf1 & Hp)%elem_of_concat_files (g1 & Hg1 & Hq)%elem_of_concat_files He.
  pose proof (vh_newer _ _ Hv level level' f1 g1 p q Hlt Hf1 Hg1 Hp Hq (icmp_eq_user _ _ He)). lia.
Qed.

Lemma files_apart0 (files all : list FileMetaData) v :
  version_holds contents v -> all = files_at v 0 -> (forall f, f ∈ files -> f ∈ all) -> NoDup (number <$> files) ->
  apart_lists (map contents files).
Proof.
  intros Hv -> Hin Hn. induction files as [|f files IH]; [done|].
  rewrite fmap_cons in Hn. apply list.NoDup_cons in Hn as [Hf Hn]. cbn [map apart_lists]. split; [|apply IH; [intros g Hg; apply Hin; by right|done]].
  intros l' Hl' p q Hp Hq He. apply list_elem_of_In, in_map_iff in Hl' as (g & <- & Hg). apply list_elem_of_In in Hg.
  assert (Hne : number f <> number g) by (intros E; apply Hf; rewrite E; by apply list_elem_of_fmap_2).
  destruct (Z.lt_total (number f) (number g)) as [Hlt|[|Hlt]]; [|done|].
  + assert (He' : icmp q.1 p.1 = 0) by (by apply (cmp_sym_eq (C := InternalKeyComparator C))).
    pose proof (vh_newer0 _ _ Hv g f q p Hlt (Hin g ltac:(by right)) (Hin f ltac:(left)) Hq Hp (icmp_eq_user _ _ He')). lia.
  + pose proof (vh_newer0 _ _ Hv f g p q Hlt (Hin f ltac:(left)) (Hin g ltac:(by right)) Hp Hq (icmp_eq_user _ _ He)). lia.
Qed.

Lemma version_lists_apart v : version_holds contents v -> apart_lists (version_lists v).
Proof.
  intros Hv. unfold version_lists. apply apart_app.
  - by apply (files_apart0 _ (files_at v 0) v); [..|apply (vh_numbers _ _ Hv)].
  - apply level_lists_apart; [done| |].
    + assert (Hseq : forall n k, StronglySorted lt (seq k n)).
      { induction n as [|n IH]; intros k; cbn; constructor; [apply IH|]. apply list.Forall_forall. intros x Hx%elem_of_seq. lia. }
      apply Hseq.
    + apply list.Forall_forall. intros level Hlevel%elem_of_seq. lia.
  - intros l l' Hl Hl' p q Hp Hq He. apply list_elem_of_In, in_map_iff in Hl as (f & <- & Hf). apply list_elem_of_In in Hf.
    apply list_elem_of_In, in_flat_map in Hl' as (level & Hin & Hl'). apply list_elem_of_In, elem_of_seq in Hin.
    destruct (files_at v level) as [|g gs] eqn:Eg; [done|]. destruct Hl' as [<-|[]]. rewrite <- Eg in Hq.
    apply elem_of_concat_files in Hq as (g1 & Hg1 & Hq).
    pose proof (vh_newer _ _ Hv 0%nat level f g1 p q ltac:(lia) Hf Hg1 Hp Hq (icmp_eq_user _ _ He)). lia.
Qed.

Lemma concat_ascending files : level_ok files -> @ascending (InternalKeyComparator C) (concat (map contents files)).
Proof.
  intros Hok. rewrite <- (level_blocks files Hok). apply (flat_ascending (block_of files) (C := InternalKeyComparator C)). by apply level_two_level.
Qed.

Lemma version_lists_ascending v l : walkable v -> l ∈ version_lists v -> @ascending (InternalKeyComparator C) l.
Proof.
  intros [Hv Hl _]. intros [Hin|Hin]%elem_of_app.
  - apply list_elem_of_In, in_map_iff in Hin as (f & <- & Hf). apply list_elem_of_In in Hf. apply (vh_file _ _ Hv 0%nat f Hf).
  - apply list_elem_of_In, in_flat_map in Hin as (level & Hin & Hx). apply list_elem_of_In, elem_of_seq in Hin.
    destruct (files_at v level) as [|g gs] eqn:Eg; [done|]. destruct Hx as [<-|[]]. rewrite <- Eg. apply concat_ascending, Hl. lia.
Qed.

(** The iterators of a version merge into all its entries. *)
Lemma version_merge v : walkable v -> exists kvs, @merge_of (InternalKeyComparator C) (version_lists v) kvs /\
  forall x, x ∈ kvs <-> exists level f, f ∈ files_at v level /\ x ∈ contents f.
Proof.
  intros Hw. destruct (merge_exists (C := InternalKeyComparator C) (version_lists v)) as [kvs Hm].
  - intros j l Hj. apply (version_lists_ascending v); [done|]. by apply (list_elem_of_lookup_2 _ j).
  - intros i j l l' p q Hij Hi Hj. apply (apart_lookup (version_lists v)) with (i := i) (j := j); [apply version_lists_apart, Hw|done..].
  - exists kvs. split; [done|]. intros x. rewrite (m_in _ _ Hm), <- version_lists_elem by (by rewrite (vh_levels _ _ (wk_holds _ Hw))).
    split; [intros (j & l & Hj & Hx); exists l; split; [by apply (list_elem_of_lookup_2 _ j)|done]|].
    intros (l & [j Hj]%list_elem_of_lookup & Hx). by exists j, l.
Qed.

Lemma shown_iterates its kvss kvs :
  shown its kvss -> @merge_of (InternalKeyComparator C) kvss kvs ->
  @iterates_at (InternalKeyComparator C) _ (Merged_Iterator (C := InternalKeyComparator C)) (NewMergingIterator its) kvs None.
Proof.
  intros Hs Hm. apply (merging_iterates (C := InternalKeyComparator C) kvss); [done|by eapply Forall2_length|].
  intros i it l Hi Hl. by eapply Forall2_lookup_lr in Hs.
Qed.
(** *** The inputs of a compaction *)

(** Files of a version, as a compaction takes them. *)
Record inputs_ok (v : Version) (c : Compaction) : Prop := {
  io_0 f : f ∈ inputs_0 c -> f ∈ files_at v (c_level_ c);
  io_1 f : f ∈ inputs_1 c -> f ∈ files_at v (S (c_level_ c));
  io_numbers : NoDup (number <$> inputs_0 c);
  io_level : (0 < c_level_ c)%nat -> level_ok (inputs_0 c);
  io_next : level_ok (inputs_1 c);
  io_fuel : (length (inputs_0 c) < fuel)%nat /\ (length (inputs_1 c) < fuel)%nat
}.

Definition level_lists (level : nat) (files : list FileMetaData) : list (list (bytes * bytes)) :=
  match files with
  | [] => []
  | _ => if (level =? 0)%nat then map contents files else [concat (map contents files)]
  end.

Lemma level_lists_elem level files x : (exists l, l ∈ level_lists level files /\ x ∈ l) <-> exists f, f ∈ files /\ x ∈ contents f.
Proof.
  unfold level_lists. destruct files as [|f0 files]; [split; [intros (l & []%elem_of_nil & _)|intros (f & []%elem_of_nil & _)]|].
  destruct (level =? 0)%nat.
  - split; [intros (l & Hl & Hx); apply list_elem_of_In, in_map_iff in Hl as (f & <- & Hf); exists f; split; [by apply list_elem_of_In|done]|].
    intros (f & Hf & Hx). exists (contents f). split; [|done]. apply list_elem_of_In, in_map. by apply list_elem_of_In.
  - rewrite <- elem_of_concat_files. split; [by intros (l & ->%list_elem_of_singleton & Hx)|]. intros Hx. eexists. split; [by left|done].
Qed.

Lemma input_iterators_ok cache level files :
  (forall f, f ∈ files -> ti_serves cache f) -> ((0 < level)%nat -> level_ok files) -> (length files < fuel)%nat ->
  exists cache' its, input_iterators verify_checksums fill_cache cache level files = Ok (cache', its) /\
    shown its (level_lists level files) /\ forall g, ti_serves cache g -> ti_serves cache' g.
Proof.
  intros Hs Hl Hf. unfold input_iterators, level_lists. destruct files as [|f files]; [exists cache, []; split_and!; [done|constructor|done]|].
  destruct level as [|level]; cbn [Nat.eqb]; [by apply open_files_ok|]. eexists _, _. split; [done|]. split; [|done].
  constructor; [|constructor]. apply (iterates_inr (C := InternalKeyComparator C)). apply NewLevelIterator_iterates; [apply Hl; lia|done..].
Qed.

Lemma MakeInputIterator_ok v c cache :
  version_holds contents v -> inputs_ok v c -> (forall f, f ∈ inputs_0 c ++ inputs_1 c -> ti_serves cache f) ->
  exists cache' it kvs, MakeInputIterator verify_checksums fill_cache fuel cache c = Ok (cache', it) /\
    @ascending (InternalKeyComparator C) kvs /\ (forall x, x ∈ kvs <-> exists f, f ∈ inputs_0 c ++ inputs_1 c /\ x ∈ contents f) /\
    @iterates_at (InternalKeyComparator C) _ (Merged_Iterator (C := InternalKeyComparator C)) it kvs None /\
    forall g, ti_serves cache g -> ti_serves cache' g.
Proof.
  intros Hv [H0 H1 Hn Hl Hl1 [Hf0 Hf1]] Hs. unfold MakeInputIterator.
  destruct (input_iterators_ok cache (c_level_ c) (inputs_0 c)) as (c1 & its0 & -> & Hits0 & Hk0); [|done..|].
  { intros f Hf. apply Hs, elem_of_app. by left. } cbn [res_bind fst snd].
  destruct (input_iterators_ok c1 (S (c_level_ c)) (inputs_1 c)) as (c2 & its1 & -> & Hits1 & Hk1); [|done..|].
  { intros f Hf. apply Hk0, Hs, elem_of_app. by right. } cbn [res_bind fst snd].
  set (kvss := level_lists (c_level_ c) (inputs_0 c) ++ level_lists (S (c_level_ c)) (inputs_1 c)).
  assert (Hasc : forall l, l ∈ kvss -> @ascending (InternalKeyComparator C) l).
  { intros l [Hin|Hin]%elem_of_app; unfold level_lists in Hin.
    - destruct (inputs_0 c) as [|f0 fs] eqn:E0; [by apply elem_of_nil in Hin|]. destruct (c_level_ c) as [|n] eqn:En; cbn [Nat.eqb] in Hin.
      + apply list_elem_of_In, in_map_iff in Hin as (f & <- & Hf). apply list_elem_of_In in Hf. apply (vh_file _ _ Hv 0%nat f). by apply H0.
      + apply list_elem_of_singleton in Hin as ->. apply concat_ascending, Hl. lia.
    - destruct (inputs_1 c) as [|f0 fs] eqn:E1; [by apply elem_of_nil in Hin|]. apply list_elem_of_singleton in Hin as ->. by apply concat_ascending. }
  assert (Hap : apart_lists kvss).
  { apply apart_app.
    - unfold level_lists. destruct (inputs_0 c) as [|f0 fs] eqn:E0; [done|]. destruct (c_level_ c) as [|n] eqn:En; cbn [Nat.eqb].
      + by apply (files_apart0 _ (files_at v 0) v).
      + cbn. split; [|done]. by intros l' []%elem_of_nil.
    - unfold level_lists. destruct (inputs_1 c); [done|]. cbn. split; [|done]. by intros l' []%elem_of_nil.
    - intros l l' Hin Hin' p q Hp Hq He.
      destruct (proj1 (level_lists_elem (c_level_ c) (inputs_0 c) p) ltac:(by exists l)) as (f & Hf & Hpf).
      destruct (proj1 (level_lists_elem (S (c_level_ c)) (inputs_1 c) q) ltac:(by exists l')) as (g & Hg & Hqg).
      pose proof (vh_newer _ _ Hv (c_level_ c) (S (c_level_ c)) f g p q ltac:(lia) (H0 f Hf) (H1 g Hg) Hpf Hqg (icmp_eq_user _ _ He)). lia. }
  destruct (merge_exists (C := InternalKeyComparator C) kvss) as [kvs Hm].
  { intros j l Hj. apply Hasc. by apply (list_elem_of_lookup_2 _ j). }
  { intros i j l l' p q Hij Hi Hj. by apply (apart_lookup kvss Hap i j). }
  eexists _, _, kvs. split; [done|]. split; [apply Hm|]. split; [|split].
  - intros x. rewrite (m_in _ _ Hm). setoid_rewrite elem_of_app. split.
    + intros (j & l & Hj & Hx). assert (Hin : l ∈ kvss) by by apply (list_elem_of_lookup_2 _ j). apply elem_of_app in Hin as [Hin|Hin].
      * destruct (proj1 (level_lists_elem (c_level_ c) (inputs_0 c) x) ltac:(by exists l)) as (f & Hf & Hxf). exists f. auto.
      * destruct (proj1 (level_lists_elem (S (c_level_ c)) (inputs_1 c) x) ltac:(by exists l)) as (f & Hf & Hxf). exists f. auto.
    + intros (f & [Hf|Hf] & Hx).
      * destruct (proj2 (level_lists_elem (c_level_ c) (inputs_0 c) x) ltac:(by exists f)) as (l & Hl' & Hxl).
        assert (Hin : l ∈ kvss) by (apply elem_of_app; by left). apply list_elem_of_lookup in Hin as [j Hj]. by exists j, l.
      * destruct (proj2 (level_lists_elem (S (c_level_ c)) (inputs_1 c) x) ltac:(by exists f)) as (l & Hl' & Hxl).
        assert (Hin : l ∈ kvss) by (apply elem_of_app; by right). apply list_elem_of_lookup in Hin as [j Hj]. by exists j, l.
  - apply (shown_iterates _ kvss); [|done]. by apply Forall2_app.
  - intros g Hg. by apply Hk1, Hk0.
Qed.
End proofs.

(** Iterating over a version shows exactly its entries.  The merge of the iterators
    that [AddIterators] makes, one for each file of level zero and one that walks lazily
    through each level above, is a cursor in the ascending list of the entries of all the
    files of the version, in any sequence of moves: no entry is skipped, repeated or out
    of order, wherever a move crosses from one file to the next. *)
Lemma version_iterator_complete `{C : Comparator} `{!ComparatorLaws C} `{!ComparatorExact C}
    (contents : FileMetaData -> list (bytes * bytes)) {T I : Type} `{It : Iterator I} `{TF : !TableFiles T I}
    `{TL : !TableFilesLaws contents T I} (verify_checksums fill_cache : bool) (fuel : nat) (v : Version) (cache : T) :
  walkable contents fuel v -> (forall level f, f ∈ files_at v level -> ti_serves cache f) ->
  exists cache' its kvs, AddIterators verify_checksums fill_cache v cache [] = Ok (cache', its) /\
    @ascending (InternalKeyComparator C) kvs /\
    (forall x, x ∈ kvs <-> exists level f, f ∈ files_at v level /\ x ∈ contents f) /\
    (forall ops cs, @cursor_run (InternalKeyComparator C) kvs None ops = Some cs ->
       @it_run _ (@Merged_Iterator (InternalKeyComparator C) _ (@Sum_Iterator I _ It (Level_Iterator verify_checksums fill_cache fuel)))
         (@NewMergingIterator _ (@Sum_Iterator I _ It (Level_Iterator verify_checksums fill_cache fuel)) its) ops = Ok (map (at_cursor kvs) cs)).
Proof.
  intros Hw Hs. destruct (version_merge contents fuel v Hw) as (kvs & Hm & Hin).
  destruct (AddIterators_ok contents verify_checksums fill_cache fuel v cache [] [] Hw Hs) as (cache' & its & E & Hits & _); [constructor|].
  exists cache', its, kvs. split; [done|]. split; [apply Hm|]. split; [done|]. intros ops cs Hr.
  eapply (iterates_run (C := InternalKeyComparator C)); [|exact Hr]. by apply (shown_iterates verify_checksums fill_cache fuel its (version_lists contents v)).
Qed.

(** The tables of [example_version], each one block. *)
#[local] Instance example_blocks : Iterator BlockIterator := BlockIterator_Iterator (C := InternalKeyComparator BytewiseComparator).

#[local] Instance ExampleFiles : TableFiles unit BlockIterator := {|
  tc_NewIterator _ _ _ n _ :=
    Ok (tt, Block_NewIterator (NewBlock (BlockBuilder_Finish (build 2 (example_contents (NewFileMetaData n 0 [] [])))).2))
|}.

#[local, refine] Instance ExampleFilesLaws : TableFilesLaws (C := BytewiseComparator) example_contents unit BlockIterator := {|
  ti_serves _ f := f = example_meta 7 \/ f = example_meta 5
|}.
Proof.
  intros cache verify fill f Hf. eexists tt, _. split; [reflexivity|]. split; [|done].
  assert (E : example_contents (NewFileMetaData (number f) 0 [] []) = example_contents f) by done. rewrite E.
  apply (built_iterates (C := InternalKeyComparator BytewiseComparator)); [lia| |]; destruct Hf as [->| ->].
  1,2: apply ascending_b_ok; by vm_compute.
  all: by vm_compute.
Defined.

Lemma example_walkable : walkable (C := BytewiseComparator) example_contents 2 example_version.
Proof.
  split; [apply example_version_holds| |intros level; pose proof (example_length level); lia].
  intros level Hl. split.
  - intros f Hf. by apply (vh_file _ _ example_version_holds level).
  - intros f Hf. by destruct (example_files level f Hf) as [[_ ->]|[_ ->]].
  - by apply (vh_disjoint _ _ example_version_holds).
  - pose proof (example_length level). destruct (files_at example_version level) as [|f [|g fs]]; cbn in *; [constructor|apply NoDup_singleton|lia].
  - pose proof (example_length level). lia.
Qed.

#[local] Instance example_sum : Iterator (BlockIterator + LevelIterator) :=
  @Sum_Iterator BlockIterator _ example_blocks (Level_Iterator (C := BytewiseComparator) (T := unit) true false 2).

Lemma version_iterator_complete_witness :
  exists cache' its kvs, AddIterators (C := BytewiseComparator) true false example_version tt [] = Ok (cache', its) /\
    (forall x, x ∈ kvs <-> exists level f, f ∈ files_at example_version level /\ x ∈ example_contents f) /\
    forall cs, @cursor_run (InternalKeyComparator BytewiseComparator) kvs None [OpSeekToFirst; OpSeekToLast] = Some cs ->
      @it_run _ (@Merged_Iterator (InternalKeyComparator BytewiseComparator) _ example_sum)
         (@NewMergingIterator _ example_sum its)
         [OpSeekToFirst; OpSeekToLast] = Ok (map (at_cursor kvs) cs).
Proof.
  destruct (version_iterator_complete (C := BytewiseComparator) example_contents (T := unit) (I := BlockIterator) true false 2 example_version tt
    example_walkable) as (cache' & its & kvs & E & _ & Hin & Hrun).
  - intros level f Hf. destruct (example_files level f Hf) as [[_ ->]|[_ ->]]; [by left|by right].
  - exists cache', its, kvs. split; [exact E|]. split; [exact Hin|]. intros cs. apply Hrun.
Defined.
