(* ===== verification/Filename.v ===== *)
(** * File names and the CURRENT file

    Models [cpp/leveldb/db/filename.h] and [cpp/leveldb/db/filename.cc], and the file
    helpers of [cpp/leveldb/util/env.cc] they use.  The file system is the class
    [Env], the interface of [leveldb/env.h] these functions call; [EnvLaws] says what
    its calls do to the contents of files. *)
From S2P Require Import Prelude Logging Comparator Status LogReader.

(** ** Names *)

Inductive FileType :=
| kLogFile | kDBLockFile | kTableFile | kDescriptorFile | kCurrentFile | kTempFile | kInfoLogFile.

#[export] Instance FileType_eq_dec : EqDecision FileType.
Proof. solve_decision. Defined.

(** ["%06llu"]; the name fits the buffer of 100 characters.  The functions that take a
    number [assert] that it is positive; they are modelled without the assertion, as
    compiled with [NDEBUG]. *)
Definition decimal6 (number : Z) : bytes :=
  let d := decimal number in replicate (6 - length d) (digit 0) ++ d.

Definition MakeFileName (dbname : bytes) (number : Z) (suffix : bytes) : bytes :=
  dbname ++ str "/" ++ decimal6 number ++ str "." ++ suffix.

Definition LogFileName (dbname : bytes) (number : Z) : bytes := MakeFileName dbname number (str "log").
Definition TableFileName (dbname : bytes) (number : Z) : bytes := MakeFileName dbname number (str "ldb").
Definition SSTTableFileName (dbname : bytes) (number : Z) : bytes := MakeFileName dbname number (str "sst").
Definition DescriptorFileName (dbname : bytes) (number : Z) : bytes :=
  dbname ++ str "/MANIFEST-" ++ decimal6 number.
Definition CurrentFileName (dbname : bytes) : bytes := dbname ++ str "/CURRENT".
Definition LockFileName (dbname : bytes) : bytes := dbname ++ str "/LOCK".
Definition TempFileName (dbname : bytes) (number : Z) : bytes := MakeFileName dbname number (str "dbtmp").
Definition InfoLogFileName (dbname : bytes) : bytes := dbname ++ str "/LOG".
Definition OldInfoLogFileName (dbname : bytes) : bytes := dbname ++ str "/LOG.old".

(** [ConsumeDecimalNumber] when it returns [true]. *)
Definition consume (rest : bytes) : option (Z * bytes) :=
  match ConsumeDecimalNumber rest with
  | (true, Some r) => Some r
  | _ => None
  end.

(** [None] is [false]. *)
Definition ParseFileName (filename : bytes) : option (Z * FileType) :=
  let rest := filename in
  if bool_decide (rest = str "CURRENT") then Some (0, kCurrentFile)
  else if bool_decide (rest = str "LOCK") then Some (0, kDBLockFile)
  else if bool_decide (rest = str "LOG") || bool_decide (rest = str "LOG.old") then Some (0, kInfoLogFile)
  else if Slice_starts_with rest (str "MANIFEST-") then
    let rest := drop (length (str "MANIFEST-")) rest in
    '(num, rest) ← consume rest;
    match rest with
    | [] => Some (num, kDescriptorFile)
    | _ => None
    end
  else
    '(num, suffix) ← consume rest;
    if bool_decide (suffix = str ".log") then Some (num, kLogFile)
    else if bool_decide (suffix = str ".sst") || bool_decide (suffix = str ".ldb") then Some (num, kTableFile)
    else if bool_decide (suffix = str ".dbtmp") then Some (num, kTempFile)
    else None.

(** ** The file system *)

Class Env := {
  FS : Type;
  WFile : Type;
  env_NewWritableFile : FS -> bytes -> FS * (WFile + Status);
  wfile_Append : FS -> WFile -> bytes -> FS * Status;
  wfile_Sync : FS -> WFile -> FS * Status;
  wfile_Close : FS -> WFile -> FS * Status;
  wfile_delete : FS -> WFile -> FS;
  env_RemoveFile : FS -> bytes -> FS * Status;
  env_RenameFile : FS -> bytes -> bytes -> FS * Status
}.

Section env.
Context `{E : Env}.

Definition DoWriteStringToFile (w : FS) (data fname : bytes) (should_sync : bool) : FS * Status :=
  match env_NewWritableFile w fname with
  | (w, inr s) => (w, s)
  | (w, inl file) =>
      let '(w, s) := wfile_Append w file data in
      let '(w, s) := if Status_ok s && should_sync then wfile_Sync w file else (w, s) in
      let '(w, s) := if Status_ok s then wfile_Close w file else (w, s) in
      let w := wfile_delete w file in
      let w := if negb (Status_ok s) then (env_RemoveFile w fname).1 else w in
      (w, s)
  end.

Definition WriteStringToFile (w : FS) (data fname : bytes) : FS * Status :=
  DoWriteStringToFile w data fname false.

Definition WriteStringToFileSync (w : FS) (data fname : bytes) : FS * Status :=
  DoWriteStringToFile w data fname true.

Definition SetCurrentFile (w : FS) (dbname : bytes) (descriptor_number : Z) : FS * Status :=
  let manifest := DescriptorFileName dbname descriptor_number in
  let contents := drop (length dbname + 1) manifest in
  let tmp := TempFileName dbname descriptor_number in
  let '(w, s) := WriteStringToFileSync w (contents ++ [x0a]) tmp in
  let '(w, s) := if Status_ok s then env_RenameFile w tmp (CurrentFileName dbname) else (w, s) in
  let w := if negb (Status_ok s) then (env_RemoveFile w tmp).1 else w in
  (w, s).
End env.

Definition kBufferSize : Z := 8192.

(** The [while] loop of [ReadFileToString]. *)
Fixpoint ReadFileToString_loop {F} `{SequentialFile F} (fuel : nat) (file : F) (data : bytes)
    : res (bytes * Status) :=
  match fuel with
  | O => OutOfFuel
  | S fuel =>
      let '(file, fragment, s) := sf_Read file kBufferSize in
      if negb (Status_ok s) then Ok (data, s)
      else
        let data := data ++ fragment in
        match fragment with
        | [] => Ok (data, s)
        | _ => ReadFileToString_loop fuel file data
        end
  end.

(** [opened] is what [NewSequentialFile] gave: the data and the status. *)
Definition ReadFileToString {F} `{SequentialFile F} (fuel : nat) (opened : F + Status) : res (bytes * Status) :=
  match opened with
  | inr s => Ok ([], s)
  | inl file => ReadFileToString_loop fuel file []
  end.

(** What the calls do to contents: a file is the name it was opened under, which it
    keeps while it is open; failed writes may leave anything in that file, and touch no
    other; renaming replaces the target, or fails and does nothing. *)
Class EnvLaws `{Env} := {
  contents : FS -> bytes -> option bytes;
  file_name : WFile -> bytes;
  env_New_ok w n w' f : env_NewWritableFile w n = (w', inl f) ->
    file_name f = n /\ contents w' n = Some [] /\ forall m, m <> n -> contents w' m = contents w m;
  env_New_fail w n w' s : env_NewWritableFile w n = (w', inr s) ->
    Status_ok s = false /\ forall m, m <> n -> contents w' m = contents w m;
  env_Append w f d w' s : wfile_Append w f d = (w', s) ->
    (Status_ok s = true -> contents w' (file_name f) = Some (default [] (contents w (file_name f)) ++ d)) /\
    forall m, m <> file_name f -> contents w' m = contents w m;
  env_Sync w f w' s : wfile_Sync w f = (w', s) ->
    (Status_ok s = true -> contents w' (file_name f) = contents w (file_name f)) /\
    forall m, m <> file_name f -> contents w' m = contents w m;
  env_Close w f w' s : wfile_Close w f = (w', s) ->
    (Status_ok s = true -> contents w' (file_name f) = contents w (file_name f)) /\
    forall m, m <> file_name f -> contents w' m = contents w m;
  env_delete w f m : contents (wfile_delete w f) m = contents w m;
  env_Remove w n m : m <> n -> contents (env_RemoveFile w n).1 m = contents w m;
  env_Rename w a b w' s : env_RenameFile w a b = (w', s) ->
    if Status_ok s
    then contents w' b = contents w a /\ forall m, m <> a -> m <> b -> contents w' m = contents w m
    else forall m, contents w' m = contents w m
}.

(** ** Numbers in names *)

Lemma is_digit_0 : is_digit (digit 0) = true.
Proof. done. Qed.

Lemma decimal6_digits n : 0 <= n -> Forall (fun c => is_digit c = true) (decimal6 n).
Proof.
  intros Hn. unfold decimal6. apply list.Forall_app. split; [|by apply decimal_digits].
  by apply Forall_replicate.
Qed.

Lemma decimal6_value n : fits 64 n -> digits_value 0 (decimal6 n) = n.
Proof.
  intros Hn. unfold decimal6. rewrite digits_value_app. replace (digits_value 0 (replicate _ _)) with 0.
  - by apply decimal_value.
  - generalize (6 - length (decimal n))%nat. intros k. induction k as [|k IH]; [done|]. simpl. exact IH.
Qed.

Lemma decimal6_nonempty n : decimal6 n <> [].
Proof.
  unfold decimal6. intros E. apply app_eq_nil in E as [_ E]. by apply decimal_nonempty in E.
Qed.

Lemma consume_decimal6 n rest :
  fits 64 n -> no_digit_first rest -> consume (decimal6 n ++ rest) = Some (n, rest).
Proof.
  intros Hn Hr. unfold consume, ConsumeDecimalNumber.
  rewrite ConsumeDecimal_loop_spec; [|unfold fits; lia|apply decimal6_digits; unfold fits in Hn; lia|done].
  rewrite decimal6_value by done. unfold fits in Hn. zcase; [|lia].
  pose proof (decimal6_nonempty n). by destruct (decimal6 n).
Qed.

Lemma parse_numbered n suffix :
  fits 64 n -> no_digit_first suffix ->
  ParseFileName (decimal6 n ++ suffix) =
    if bool_decide (suffix = str ".log") then Some (n, kLogFile)
    else if bool_decide (suffix = str ".sst") || bool_decide (suffix = str ".ldb") then Some (n, kTableFile)
    else if bool_decide (suffix = str ".dbtmp") then Some (n, kTempFile)
    else None.
Proof.
  intros Hn Hs. unfold ParseFileName. rewrite (consume_decimal6 n suffix Hn Hs). cbn [mbind option_bind].
  assert (Hd : exists c l, decimal6 n ++ suffix = c :: l /\ is_digit c = true).
  { pose proof (decimal6_nonempty n). pose proof (decimal6_digits n) as Hf. unfold fits in Hn.
    specialize (Hf ltac:(lia)). destruct (decimal6 n) as [|c l]; [done|]. exists c, (l ++ suffix). split; [done|].
    by apply Forall_cons_1 in Hf as [? _]. }
  destruct Hd as (c & l & -> & Hc).
  assert (Hne : forall x y, is_digit x = false -> c :: l <> x :: y) by (intros x y Hx [= -> _]; congruence).
  rewrite !bool_decide_eq_false_2 by (by apply Hne). cbn [orb]. rewrite Slice_starts_with_spec. cbn [length str].
  rewrite (bool_decide_eq_false_2 (take _ _ = _)); [done|]. cbn. by intros [= -> _].
Qed.

Lemma parse_manifest n : fits 64 n -> ParseFileName (str "MANIFEST-" ++ decimal6 n) = Some (n, kDescriptorFile).
Proof.
  intros Hn. unfold ParseFileName.
  rewrite !bool_decide_eq_false_2 by done. cbn [orb]. rewrite Slice_starts_with_spec, take_app_length, drop_app_length.
  rewrite bool_decide_eq_true_2 by done. rewrite <- (app_nil_r (decimal6 n)), consume_decimal6 by done. done.
Qed.

(** C38. File names round-trip: for every 64-bit number, what [LogFileName],
    [TableFileName], [SSTTableFileName], [TempFileName] and [DescriptorFileName] put
    behind the directory parses back to that number and kind, and the names without
    a number to their kinds; files of different kinds or numbers so have different
    names. *)
Theorem file_names_parse dbname n :
  fits 64 n ->
  (forall name t, In (name, t)
     [(LogFileName dbname n, kLogFile); (TableFileName dbname n, kTableFile);
      (SSTTableFileName dbname n, kTableFile); (TempFileName dbname n, kTempFile);
      (DescriptorFileName dbname n, kDescriptorFile)] ->
     exists base, name = dbname ++ str "/" ++ base /\ ParseFileName base = Some (n, t)) /\
  (forall name t, In (name, t)
     [(CurrentFileName dbname, kCurrentFile); (LockFileName dbname, kDBLockFile);
      (InfoLogFileName dbname, kInfoLogFile); (OldInfoLogFileName dbname, kInfoLogFile)] ->
     exists base, name = dbname ++ str "/" ++ base /\ ParseFileName base = Some (0, t)).
Proof.
  intros Hn. split.
  - intros name t [[= <- <-]|[[= <- <-]|[[= <- <-]|[[= <- <-]|[[= <- <-]|[]]]]]];
      (eexists; split; [reflexivity|]); [by apply parse_numbered..|by apply parse_manifest].
  - intros name t [[= <- <-]|[[= <- <-]|[[= <- <-]|[[= <- <-]|[]]]]].
    + by exists (str "CURRENT").
    + by exists (str "LOCK").
    + by exists (str "LOG").
    + by exists (str "LOG.old").
Qed.

Lemma file_names_parse_witness :
  TableFileName (str "/db") 7 = str "/db/000007.ldb" /\
  exists base, DescriptorFileName (str "/db") 12345678 = str "/db" ++ str "/" ++ base /\
    ParseFileName base = Some (12345678, kDescriptorFile).
Proof.
  split; [done|]. apply (proj1 (file_names_parse (str "/db") 12345678 ltac:(unfold fits; lia))).
  do 4 right. left. done.
Defined.

(** ** Switching CURRENT *)

Section current.
Context `{L : EnvLaws}.

Lemma WriteStringToFileSync_spec w data fname w' s :
  WriteStringToFileSync w data fname = (w', s) ->
  (Status_ok s = true -> contents w' fname = Some data) /\
  forall m, m <> fname -> contents w' m = contents w m.
Proof.
  unfold WriteStringToFileSync, DoWriteStringToFile.
  destruct (env_NewWritableFile w fname) as [w0 [f|s0]] eqn:E0.
  2: { intros [= <- <-]. apply env_New_fail in E0 as [Hs H0]. split; [congruence|done]. }
  apply env_New_ok in E0 as (Hf & Hc0 & Ho0). subst fname.
  destruct (wfile_Append w0 f data) as [w1 s1] eqn:E1. apply env_Append in E1 as [H1 O1]. rewrite Hc0 in H1.
  assert (H2 : exists w2 s2, (if Status_ok s1 && true then wfile_Sync w1 f else (w1, s1)) = (w2, s2) /\
    (Status_ok s2 = true -> contents w2 (file_name f) = Some data) /\
    forall m, m <> file_name f -> contents w2 m = contents w0 m).
  { destruct (Status_ok s1) eqn:Es1; cbn [andb].
    - destruct (wfile_Sync w1 f) as [w2 s2] eqn:E2. apply env_Sync in E2 as [H2 O2]. exists w2, s2.
      split; [done|]. split; [intros Hs; by rewrite H2, H1|]. intros m Hm. by rewrite O2, O1.
    - exists w1, s1. split; [done|]. split; [congruence|done]. }
  destruct H2 as (w2 & s2 & -> & H2 & O2).
  assert (H3 : exists w3 s3, (if Status_ok s2 then wfile_Close w2 f else (w2, s2)) = (w3, s3) /\
    (Status_ok s3 = true -> contents w3 (file_name f) = Some data) /\
    forall m, m <> file_name f -> contents w3 m = contents w0 m).
  { destruct (Status_ok s2) eqn:Es2.
    - destruct (wfile_Close w2 f) as [w3 s3] eqn:E3. apply env_Close in E3 as [H3 O3]. exists w3, s3.
      split; [done|]. split; [intros Hs; by rewrite H3, H2|]. intros m Hm. by rewrite O3, O2.
    - exists w2, s2. split; [done|]. split; [congruence|done]. }
  destruct H3 as (w3 & s3 & -> & H3 & O3). intros [= <- <-]. destruct (Status_ok s3); cbn [negb].
  - split; [intros _; rewrite env_delete; by apply H3|]. intros m Hm. by rewrite env_delete, O3, Ho0.
  - split; [done|]. intros m Hm. by rewrite env_Remove, env_delete, O3, Ho0.
Qed.

Lemma temp_not_current dbname n : 0 <= n -> TempFileName dbname n <> CurrentFileName dbname.
Proof.
  intros Hn E. unfold TempFileName, MakeFileName, CurrentFileName in E. apply app_inv_head in E.
  cbn [str String.list_byte_of_string app] in E. injection E as E.
  pose proof (decimal6_digits n Hn) as Hd. pose proof (decimal6_nonempty n).
  destruct (decimal6 n) as [|c l]; [done|]. injection E as -> _. by apply Forall_cons_1 in Hd as [? _].
Qed.

Lemma SetCurrentFile_spec w dbname n :
  0 <= n ->
  let r := SetCurrentFile w dbname n in
  contents r.1 (CurrentFileName dbname) =
    (if Status_ok r.2 then Some ((str "MANIFEST-" ++ decimal6 n) ++ [x0a]) else contents w (CurrentFileName dbname)) /\
  (forall m, m <> CurrentFileName dbname -> m <> TempFileName dbname n -> contents r.1 m = contents w m).
Proof.
  intros Hn r. pose proof (temp_not_current dbname n Hn) as Hne.
  assert (Hname : drop (length dbname + 1) (DescriptorFileName dbname n) = str "MANIFEST-" ++ decimal6 n).
  { unfold DescriptorFileName. rewrite Nat.add_comm, <- skipn_skipn, drop_app_length. done. }
  unfold r, SetCurrentFile. rewrite Hname.
  destruct (WriteStringToFileSync w _ (TempFileName dbname n)) as [w1 s1] eqn:E1.
  apply WriteStringToFileSync_spec in E1 as [H1 O1].
  destruct (Status_ok s1) eqn:Es1; cbn [fst snd].
  - destruct (env_RenameFile w1 (TempFileName dbname n) (CurrentFileName dbname)) as [w2 s2] eqn:E2.
    apply env_Rename in E2. destruct (Status_ok s2) eqn:Es2; cbn [negb fst snd]; rewrite ?Es2; cbn [negb].
    + destruct E2 as [H2 O2]. split; [by rewrite H2, H1|intros m Hm1 Hm2; by rewrite O2, O1].
    + split; [by rewrite env_Remove, E2, O1|]. intros m Hm1 Hm2. by rewrite env_Remove, E2, O1.
  - rewrite ?Es1. cbn [negb fst snd]. rewrite ?Es1. split; [by rewrite env_Remove, O1|].
    intros m Hm1 Hm2. by rewrite env_Remove, O1.
Qed.

(** C33. Switching CURRENT is atomic.  When [SetCurrentFile] succeeds, CURRENT holds
    the name of the descriptor, which parses to its number, and a newline; when it
    fails, whichever call failed, CURRENT holds what it held.  No file but CURRENT
    and the temporary one is touched. *)
Theorem set_current_file_atomic w dbname n :
  fits 64 n ->
  let r := SetCurrentFile w dbname n in
  (if Status_ok r.2
   then exists name, contents r.1 (CurrentFileName dbname) = Some (name ++ [x0a]) /\
          DescriptorFileName dbname n = dbname ++ str "/" ++ name /\
          ParseFileName name = Some (n, kDescriptorFile)
   else contents r.1 (CurrentFileName dbname) = contents w (CurrentFileName dbname)) /\
  (forall m, m <> CurrentFileName dbname -> m <> TempFileName dbname n -> contents r.1 m = contents w m).
Proof.
  intros Hn r. destruct (SetCurrentFile_spec w dbname n) as [H1 H2]; [unfold fits in Hn; lia|]. split; [|exact H2].
  fold r in H1. destruct (Status_ok r.2); [|done]. exists (str "MANIFEST-" ++ decimal6 n). split; [done|]. split; [done|].
  by apply parse_manifest.
Qed.
End current.

(** A file system that never fails: the contents by name. *)
#[export] Instance mem_env : Env := {|
  FS := bytes -> option bytes;
  WFile := bytes;
  env_NewWritableFile w n := (fun m => if decide (m = n) then Some [] else w m, inl n);
  wfile_Append w f d := (fun m => if decide (m = f) then Some (default [] (w f) ++ d) else w m, Status_OK);
  wfile_Sync w _ := (w, Status_OK);
  wfile_Close w _ := (w, Status_OK);
  wfile_delete w _ := w;
  env_RemoveFile w n := (fun m => if decide (m = n) then None else w m, Status_OK);
  env_RenameFile w a b :=
    (fun m => if decide (m = b) then w a else if decide (m = a) then None else w m, Status_OK)
|}.

#[export] Instance mem_env_laws : EnvLaws.
Proof.
  refine {| contents := fun w m => w m; file_name := fun f => f |}; cbn.
  - intros w n w' f [= <- <-]. split; [done|]. split; [by rewrite decide_True|]. intros m Hm. by rewrite decide_False.
  - done.
  - intros w f d w' s [= <- <-]. split; [intros _; by rewrite decide_True|]. intros m Hm. by rewrite decide_False.
  - by intros w f w' s [= <- <-].
  - by intros w f w' s [= <- <-].
  - done.
  - intros w n m Hm. by rewrite decide_False.
  - intros w a b w' s [= <- <-]. cbn. split; [by rewrite decide_True|]. intros m Ha Hb. by rewrite !decide_False.
Defined.

Lemma set_current_file_atomic_witness :
  exists name, contents (SetCurrentFile (fun _ => None) (str "/db") 5).1 (CurrentFileName (str "/db")) = Some (name ++ [x0a]) /\
    DescriptorFileName (str "/db") 5 = str "/db" ++ str "/" ++ name /\ ParseFileName name = Some (5, kDescriptorFile).
Proof.
  apply (proj1 (set_current_file_atomic (L := mem_env_laws) (fun _ => None) (str "/db") 5 ltac:(unfold fits; lia))).
Defined.

(** ** Reading a file *)

Lemma ReadFileToString_loop_ok {F} `{SequentialFileLaws F} fuel : forall (file : F) data,
  (length (sf_rest file) < fuel)%nat ->
  exists data' s, ReadFileToString_loop fuel file data = Ok (data', s) /\
    (Status_ok s = true -> data' = data ++ sf_rest file) /\
    ((forall (f : F) n, Status_ok (sf_Read f n).2 = true) -> Status_ok s = true).
Proof.
  induction fuel as [|fuel IH]; intros file data Hf; [lia|].
  cbn [ReadFileToString_loop]. destruct (sf_Read file kBufferSize) as [[file' fragment] s] eqn:E.
  destruct (Status_ok s) eqn:Es; cbn [negb].
  2: { exists data, s. split; [done|]. split; [congruence|]. intros Hr. specialize (Hr file kBufferSize). by rewrite E in Hr. }
  pose proof (sf_Read_ok file kBufferSize file' fragment s ltac:(done) E Es) as (Hr & _ & Hend).
  destruct fragment as [|c fragment].
  - exists (data ++ []), s. split; [done|]. split; [|done]. intros _. by rewrite Hr, Hend.
  - destruct (IH file' (data ++ c :: fragment)) as (data' & s' & -> & Hd & Hs).
    + rewrite Hr in Hf. simpl in Hf. rewrite length_app in Hf. lia.
    + exists data', s'. split; [done|]. split; [|done]. intros Hok. by rewrite Hd, Hr, <- app_assoc.
Qed.

(** [ReadFileToString] ends: a file of [n] bytes takes at most [n + 1] reads,
    each of at most 8192 bytes; when it reports success the string is the whole
    file. *)
Theorem read_file_to_string {F} `{SequentialFileLaws F} (file : F) fuel :
  (length (sf_rest file) < fuel)%nat ->
  exists data s, ReadFileToString fuel (inl file) = Ok (data, s) /\
    (Status_ok s = true -> data = sf_rest file).
Proof.
  intros Hf. destruct (ReadFileToString_loop_ok fuel file [] Hf) as (data & s & E & H1 & _). by exists data, s.
Qed.

Lemma read_file_to_string_witness :
  (length (str "MANIFEST-000005") < 20)%nat /\
  exists data s, ReadFileToString 20 (inl (str "MANIFEST-000005")) = Ok (data, s) /\
    (Status_ok s = true -> data = sf_rest (str "MANIFEST-000005")).
Proof.
  split; [vm_compute; lia|]. apply (read_file_to_string (F := bytes) (str "MANIFEST-000005") 20). vm_compute. lia.
Defined.
