(* ===== verification/CacheUse.v ===== *)
(** * Clients of the sharded cache

    A client of [Cache] knows the handles it holds and what it inserts.  Here the sharded
    cache of [Cache.v] is seen that way: every entry has the number of clients that hold it,
    what a client holds stays where it is, and no operation fails.  The entries have charge
    1, as those of the table cache. *)
From stdpp Require Import gmap.
From S2P Require Import Prelude Coding Bloom Ring HandleTable Cache.

Section use.
Context {V : Type} (P : bytes -> V -> Prop) (M : Z) (HM : 0 <= M < 2 ^ 31 - 1).
Implicit Types (s : SCache V) (e : SEntry V) (held : list (Handle * bytes)).

Definition entries s : list (SEntry V) := sc_cached s ++ sc_orphans s.

(** How often a handle is held. *)
Definition held_times held (h : Handle) : Z := Z.of_nat (length (base.filter (fun x => x.1 = h) held)).

(** One shard, and the handles that clients hold. *)
Record shard_ok (i : nat) s held : Prop := {
  so_next : 2 <= sc_next s;
  so_capacity : sc_capacity s <= M;
  so_charges : forall e, e ∈ sc_cached s -> se_charge e = 1;
  so_good : forall e, e ∈ entries s -> P (se_key e) (se_value e) /\ Shard (HashSlice (se_key e)) = i;
  so_clients : forall e, e ∈ entries s -> se_clients e = held_times held (i, se_handle e);
  so_held : forall a key, ((i, a), key) ∈ held -> exists e, e ∈ entries s /\ se_handle e = a /\ se_key e = key }.

Definition shard_used (i : nat) (x : LRUCache V) held : Prop :=
  exists s, refines HashSlice x s /\ shard_ok i s held /\ Z.of_nat (length (sc_cached s)) <= M.

Definition cache_used (c : ShardedLRUCache V) held : Prop :=
  length (shard_ c) = Z.to_nat kNumShards /\ Z.of_nat (length held) <= M /\ (forall h key, (h, key) ∈ held -> h.1 = Shard (HashSlice key)) /\
  forall i x, shard_ c !! i = Some x -> shard_used i x held.

(** ** Counting *)

Lemma held_times_cons x held h : held_times (x :: held) h = held_times held h + if decide (x.1 = h) then 1 else 0.
Proof. unfold held_times. rewrite filter_cons. case_decide; cbn; lia. Qed.

Lemma held_times_perm held held' h : held ≡ₚ held' -> held_times held h = held_times held' h.
Proof. intros H. unfold held_times. by rewrite H. Qed.

Lemma held_times_range held h : 0 <= held_times held h <= Z.of_nat (length held).
Proof. unfold held_times. pose proof (length_filter (fun x : Handle * bytes => x.1 = h) held). lia. Qed.

Lemma held_times_pos held h : 0 < held_times held h <-> exists key, (h, key) ∈ held.
Proof.
  unfold held_times. split.
  - intros Hp. destruct (base.filter _ held) as [|[h' key] l] eqn:E; [cbn in Hp; lia|].
    assert (Hin : (h', key) ∈ base.filter (fun x : Handle * bytes => x.1 = h) held) by (rewrite E; left).
    apply list_elem_of_filter in Hin as [Hh Hin]. cbn in Hh. subst h'. by exists key.
  - intros [key Hin]. assert (Hf : (h, key) ∈ base.filter (fun x : Handle * bytes => x.1 = h) held) by (by apply list_elem_of_filter).
    destruct (base.filter _ held); [by apply elem_of_nil in Hf|cbn; lia].
Qed.

Definition distinct s : Prop := NoDup (map se_handle (entries s)).

Lemma refines_distinct c s : refines HashSlice c s -> distinct s.
Proof. intros [H _]. by apply (shape_handles HashSlice c). Qed.

(** Entries in use are no more than the handles. *)
Lemma busy_bound i s held l : shard_ok i s held -> NoDup (map se_handle l) -> (forall e, e ∈ l -> e ∈ entries s /\ idle e = false) -> (length l <= length held)%nat.
Proof.
  intros H Hnd Hl. assert (Hs : map (fun a => (i, a)) (map se_handle l) ⊆ map fst held).
  { intros h Hh. apply list_elem_of_fmap in Hh as (a & -> & Ha). apply list_elem_of_fmap in Ha as (e & -> & He).
    destruct (Hl e He) as [Hin Hb]. apply Z.eqb_neq in Hb. rewrite (so_clients _ _ _ H e Hin) in Hb. pose proof (held_times_range held (i, se_handle e)).
    destruct (proj1 (held_times_pos held (i, se_handle e)) ltac:(lia)) as [key Hk]. apply list_elem_of_fmap. by exists (i, se_handle e, key). }
  assert (Hnd' : NoDup (map (fun a => (i, a)) (map se_handle l))) by (apply NoDup_fmap; [by intros ?? [= ->]|done]).
  pose proof (submseteq_length _ _ (NoDup_submseteq _ _ Hnd' Hs)) as Hlen. by rewrite !length_map in Hlen.
Qed.

Lemma total_length (l : list (SEntry V)) : (forall e, e ∈ l -> se_charge e = 1) -> total_charge l = Z.of_nat (length l).
Proof. induction l as [|e l IH]; intros H; [done|]. rewrite total_cons, IH by (intros; apply H; by right). rewrite (H e) by left. cbn. lia. Qed.

Lemma entry_fresh c i s held : refines HashSlice c s -> shard_ok i s held -> held_times held (i, sc_next s) = 0.
Proof.
  intros [Hs _] H. pose proof (held_times_range held (i, sc_next s)). destruct (Z.eq_dec (held_times held (i, sc_next s)) 0) as [|Hne]; [done|].
  destruct (proj1 (held_times_pos held (i, sc_next s)) ltac:(lia)) as [key Hk]. destruct (so_held _ _ _ H _ _ Hk) as (e & He & Ha & _).
  apply elem_of_app in He as [He|He]; [pose proof (proj1 (list.Forall_forall _ _) (sh_cached _ _ _ Hs) e He) as [? _]|pose proof (proj1 (list.Forall_forall _ _) (sh_orphans _ _ _ Hs) e He) as [? _]]; lia.
Qed.

(** ** The operations on a shard *)

(** One entry gets [d] more clients, or goes when it has none. *)
Lemma shard_change i s s' held held' e rest d : distinct s -> shard_ok i s held -> entries s ≡ₚ e :: rest ->
  (entries s' ≡ₚ add_clients d e :: rest \/ (entries s' ≡ₚ rest /\ held_times held' (i, se_handle e) = 0)) ->
  (forall h, held_times held' h = held_times held h + if decide (h = (i, se_handle e)) then d else 0) ->
  (forall a key, ((i, a), key) ∈ held' -> ((i, a), key) ∈ held \/ (a = se_handle e /\ key = se_key e)) ->
  sc_next s' = sc_next s -> sc_capacity s' = sc_capacity s -> (forall x, x ∈ sc_cached s' -> se_charge x = 1) ->
  shard_ok i s' held'.
Proof.
  intros Hnd H He He' Hd Hh Hn Hc Hch. unfold distinct in Hnd. rewrite He in Hnd. cbn in Hnd. apply list.NoDup_cons in Hnd as [Hnd _].
  assert (Hr : forall x, x ∈ rest -> x ∈ entries s /\ held_times held' (i, se_handle x) = held_times held (i, se_handle x)).
  { intros x Hx. split; [rewrite He; by right|]. rewrite Hd. rewrite decide_False; [lia|]. intros [= E]. apply Hnd. apply list_elem_of_fmap. by exists x. }
  assert (Hee : e ∈ entries s) by (rewrite He; left).
  assert (Hin : forall x, x ∈ entries s' -> x ∈ rest \/ x = add_clients d e).
  { intros x Hx. destruct He' as [E|[E _]]; rewrite E in Hx; [apply elem_of_cons in Hx as [->|Hx]; [by right|by left]|by left]. }
  assert (Hself : se_clients (add_clients d e) = held_times held' (i, se_handle e)) by (cbn; rewrite Hd, decide_True, (so_clients _ _ _ H e Hee) by done; done).
  split; [rewrite Hn; apply H|rewrite Hc; apply H|done| | |].
  - intros x [Hx| ->]%Hin; [by apply (so_good _ _ _ H), Hr|by apply (so_good _ _ _ H e)].
  - intros x [Hx| ->]%Hin; [|exact Hself]. destruct (Hr x Hx) as [Hx' ->]. by apply (so_clients _ _ _ H).
  - intros a key Hk. assert (Hpos : 0 < held_times held' (i, a)) by (apply held_times_pos; by exists key).
    destruct (Z.eq_dec a (se_handle e)) as [->|Hne].
    + exists (add_clients d e). split; [destruct He' as [->|[_ E]]; [left|lia]|]. split; [done|]. cbn. destruct (Hh _ _ Hk) as [Hk'|[_ ->]]; [|done].
      destruct (so_held _ _ _ H _ _ Hk') as (x & Hx & Ex & <-). rewrite He in Hx. apply elem_of_cons in Hx as [->|Hx]; [done|]. exfalso. apply Hnd. rewrite <- Ex. apply list_elem_of_fmap. by exists x.
    + destruct (Hh _ _ Hk) as [Hk'|[? _]]; [|done]. destruct (so_held _ _ _ H _ _ Hk') as (x & Hx & <- & <-). exists x. split; [|done].
      rewrite He in Hx. apply elem_of_cons in Hx as [->|Hx]; [done|]. destruct He' as [->|[-> _]]; [by right|done].
Qed.

Lemma shard_Lookup i s held key : distinct s -> shard_ok i s held ->
  match spec_Lookup s key with (s', None) => s' = s | (s', Some a) => shard_ok i s' (((i, a), key) :: held) end.
Proof.
  intros Hr H. unfold spec_Lookup. destruct (take_out (key_is key) (sc_cached s)) as [[e rest]|] eqn:E; [|done].
  apply take_out_Some in E as (l1 & l2 & E1 & _ & Ek & _ & Ec). apply bool_decide_eq_true in Ek. subst key. rewrite Ec.
  apply (shard_change i s _ held _ e (l1 ++ l2 ++ sc_orphans s) 1 Hr H).
  - unfold entries. rewrite E1. solve_Permutation.
  - left. unfold entries. cbn. solve_Permutation.
  - intros h. rewrite held_times_cons. cbn. repeat case_decide; done || congruence.
  - intros a k [[= -> ->]|Hin]%elem_of_cons; [by right|by left].
  - done.
  - done.
  - intros x Hx. cbn in Hx. apply elem_of_app in Hx as [Hx|[->|Hx]%elem_of_cons]; [| |]; [|cbn|]; apply (so_charges _ _ _ H); rewrite E1; apply elem_of_app; [by left|right; left|right; by right].
Qed.

Lemma shard_Release i s held held' a key : distinct s -> shard_ok i s held -> held ≡ₚ ((i, a), key) :: held' -> shard_ok i (spec_Release s a) held'.
Proof.
  intros Hr H Hp. assert (Hh : forall h, held_times held' h = held_times held h + if decide (h = (i, a)) then -1 else 0).
  { intros h. rewrite (held_times_perm _ _ _ Hp), held_times_cons. cbn. repeat case_decide; lia || congruence. }
  assert (Hsub : forall b k, ((i, b), k) ∈ held' -> ((i, b), k) ∈ held) by (intros b k Hin; rewrite Hp; by right).
  destruct (so_held _ _ _ H a key) as (e0 & He0 & Ha0 & _); [rewrite Hp; left|]. unfold spec_Release.
  destruct (take_out (is_handle a) (sc_cached s)) as [[e rest]|] eqn:E.
  - apply take_out_Some in E as (l1 & l2 & E1 & -> & Ea & _ & Ec). apply Z.eqb_eq in Ea. clear e0 He0 Ha0. subst a.
    assert (Hch : forall x, x ∈ l1 ++ add_clients (-1) e :: l2 -> se_charge x = 1).
    { intros x [Hx|[->|Hx]%elem_of_cons]%elem_of_app; [|cbn|]; apply (so_charges _ _ _ H); rewrite E1; apply elem_of_app; [by left|right; left|right; by right]. }
    destruct (se_clients e =? 1); [|rewrite Ec]; apply (shard_change i s _ held _ e (l1 ++ l2 ++ sc_orphans s) (-1) Hr H); try done; try (by intros b k Hin; left; apply Hsub); try (by intros h; rewrite Hh; repeat case_decide).
    + unfold entries. rewrite E1. solve_Permutation.
    + left. unfold entries. cbn. solve_Permutation.
    + cbn. intros x Hx. apply Hch. revert Hx. rewrite !elem_of_app, !elem_of_cons, elem_of_nil. tauto.
    + unfold entries. rewrite E1. solve_Permutation.
    + left. unfold entries. cbn. solve_Permutation.
  - assert (Hno : forall x, x ∈ sc_cached s -> se_handle x <> a) by (intros x Hx Ex; pose proof (take_out_None _ _ E x Hx) as Hf; by apply Z.eqb_neq in Hf).
    destruct (take_out (is_handle a) (sc_orphans s)) as [[e rest]|] eqn:E'.
    + apply take_out_Some in E' as (l1 & l2 & E1 & -> & Ea & _ & Ec). apply Z.eqb_eq in Ea. clear e0 He0 Ha0. subst a.
      assert (Hee : e ∈ entries s) by (unfold entries; rewrite E1; apply elem_of_app; right; apply elem_of_app; right; left).
      pose proof (so_clients _ _ _ H e Hee) as Hcl. specialize (Hh (i, se_handle e)) as Hhe. rewrite decide_True in Hhe by done.
      destruct (Z.eqb_spec (se_clients e) 1) as [E2|E2]; [|rewrite Ec]; apply (shard_change i s _ held _ e (sc_cached s ++ l1 ++ l2) (-1) Hr H); try done; try (by intros b k Hin; left; apply Hsub); try (by intros h; rewrite Hh; repeat case_decide); try apply H.
      * unfold entries. rewrite E1. solve_Permutation.
      * right. split; [done|lia].
      * unfold entries. rewrite E1. solve_Permutation.
      * left. unfold entries. cbn. solve_Permutation.
    + exfalso. apply elem_of_app in He0 as [He0|He0]; [by apply (Hno e0)|]. pose proof (take_out_None _ _ E' e0 He0) as Hf. by apply Z.eqb_neq in Hf.
Qed.

(** An entry that is not held goes. *)
Lemma drop_idle i s s' held e rest : distinct s -> shard_ok i s held -> entries s ≡ₚ e :: rest -> idle e = true -> entries s' ≡ₚ rest ->
  sc_next s' = sc_next s -> sc_capacity s' = sc_capacity s -> (forall x, x ∈ sc_cached s' -> x ∈ sc_cached s) -> shard_ok i s' held.
Proof.
  intros Hr H He Hi He' Hn Hc Hsub. apply Z.eqb_eq in Hi. rewrite (so_clients _ _ _ H e) in Hi by (rewrite He; left).
  apply (shard_change i s s' held held e rest 0 Hr H He); try done.
  - by right.
  - intros h. case_decide; lia.
  - intros a key Hin. by left.
  - intros x Hx%Hsub. by apply (so_charges _ _ _ H).
Qed.

Lemma shard_Erase i s held key : distinct s -> shard_ok i s held -> shard_ok i (spec_Erase s key) held.
Proof.
  intros Hr H. unfold spec_Erase. destruct (take_out (key_is key) (sc_cached s)) as [[e rest]|] eqn:E; [|done].
  apply take_out_Some in E as (l1 & l2 & E1 & -> & _).
  assert (Hsub : forall x, x ∈ l1 ++ l2 -> x ∈ sc_cached s) by (intros x; rewrite E1, !elem_of_app, elem_of_cons; tauto).
  unfold spec_drop. destruct (idle e) eqn:Ei.
  - apply (drop_idle i s _ held e (l1 ++ l2 ++ sc_orphans s) Hr H); try done; unfold entries; [rewrite E1|cbn]; solve_Permutation.
  - apply (shard_change i s _ held held e (l1 ++ l2 ++ sc_orphans s) 0 Hr H); try done; try (by intros; left).
    + unfold entries. rewrite E1. solve_Permutation.
    + left. unfold entries. cbn. assert (add_clients 0 e = e) as -> by (destruct e; unfold add_clients; cbn; by rewrite Z.add_0_r). solve_Permutation.
    + intros h. case_decide; lia.
    + intros x Hx. by apply (so_charges _ _ _ H), Hsub.
Qed.

Lemma distinct_drop s s' e rest : distinct s -> entries s ≡ₚ e :: rest -> entries s' ≡ₚ rest -> distinct s'.
Proof. unfold distinct. intros H E ->. rewrite E in H. cbn in H. by apply list.NoDup_cons in H as [_ H]. Qed.

Lemma distinct_Erase s key : distinct s -> distinct (spec_Erase s key).
Proof.
  intros H. unfold spec_Erase. destruct (take_out (key_is key) (sc_cached s)) as [[e rest]|] eqn:E; [|done].
  apply take_out_Some in E as (l1 & l2 & E1 & -> & _). unfold spec_drop. destruct (idle e).
  - apply (distinct_drop s _ e (l1 ++ l2 ++ sc_orphans s)); [done|unfold entries; rewrite E1|unfold entries; cbn]; solve_Permutation.
  - unfold distinct, entries in *. rewrite E1 in H. cbn. eapply NoDup_Permutation_proper; [|exact H]. apply Permutation_map. solve_Permutation.
Qed.

Lemma Erase_entries s key : (forall x, x ∈ entries (spec_Erase s key) -> x ∈ entries s) /\ (forall x, x ∈ sc_cached (spec_Erase s key) -> x ∈ sc_cached s) /\
  (length (sc_cached (spec_Erase s key)) <= length (sc_cached s))%nat.
Proof.
  unfold spec_Erase. destruct (take_out (key_is key) (sc_cached s)) as [[e rest]|] eqn:E; [|done].
  apply take_out_Some in E as (l1 & l2 & E1 & -> & _). unfold spec_drop, entries. rewrite E1. destruct (idle e); cbn; (split_and!; [intros x; rewrite !elem_of_app, !elem_of_cons, ?elem_of_nil; tauto|intros x; rewrite !elem_of_app, elem_of_cons; tauto|rewrite !length_app; cbn; lia]).
Qed.

(** Evicting drops entries that are not held. *)
Lemma shard_evict i held n : forall s, distinct s -> shard_ok i s held -> shard_ok i (spec_evict n s) held.
Proof.
  induction n as [|n IH]; intros s Hr H; cbn [spec_evict]; destruct (_ >? _); try done.
  destruct (take_out idle (sc_cached s)) as [[e rest]|] eqn:E; [|done].
  destruct (take_out_Some _ _ _ _ E) as (l1 & l2 & E1 & -> & Hi & _).
  assert (Ee : entries s ≡ₚ e :: l1 ++ l2 ++ sc_orphans s) by (unfold entries; rewrite E1; solve_Permutation).
  assert (Ee' : entries (add_deleted (set_cached s (l1 ++ l2)) e) ≡ₚ l1 ++ l2 ++ sc_orphans s) by (unfold entries; cbn; solve_Permutation).
  apply IH; [by eapply distinct_drop|]. apply (drop_idle i s _ held e (l1 ++ l2 ++ sc_orphans s) Hr H); try done.
  intros x. cbn. rewrite E1, !elem_of_app, elem_of_cons. tauto.
Qed.

(** A new entry with its first client. *)
Lemma shard_add i s s' held e : shard_ok i s held -> entries s' ≡ₚ e :: entries s -> se_handle e ∉ map se_handle (entries s) -> held_times held (i, se_handle e) = 0 ->
  se_clients e = 1 -> P (se_key e) (se_value e) -> Shard (HashSlice (se_key e)) = i -> sc_next s' = sc_next s -> sc_capacity s' = sc_capacity s ->
  (forall x, x ∈ sc_cached s' -> se_charge x = 1) -> shard_ok i s' (((i, se_handle e), se_key e) :: held).
Proof.
  intros H He Hf Hz H1 HP Hi Hn Hc Hch.
  assert (Hin : forall x, x ∈ entries s' -> x = e \/ (x ∈ entries s /\ se_handle x <> se_handle e)).
  { intros x Hx. rewrite He in Hx. apply elem_of_cons in Hx as [->|Hx]; [by left|right]. split; [done|]. intros Ex. apply Hf. rewrite <- Ex. apply list_elem_of_fmap. by exists x. }
  split; [rewrite Hn; apply H|rewrite Hc; apply H|done| | |].
  - intros x [->|[Hx _]]%Hin; [done|]. by apply (so_good _ _ _ H).
  - intros x [->|[Hx Hne]]%Hin; rewrite held_times_cons; cbn; [rewrite decide_True by done; lia|]. rewrite decide_False by congruence. rewrite (so_clients _ _ _ H x Hx). lia.
  - intros a k [[= -> ->]|Hk]%elem_of_cons; [exists e; split; [rewrite He; left|done]|]. destruct (so_held _ _ _ H _ _ Hk) as (x & Hx & Ea & Ek). exists x. split; [rewrite He; by right|done].
Qed.

(** After an insertion the entries are the capacity at most, or all are held. *)
Lemma evict_length i s held n : distinct (spec_evict n s) -> shard_ok i (spec_evict n s) held -> Z.of_nat (length held) <= M ->
  (length (sc_cached s) <= n)%nat -> Z.of_nat (length (sc_cached s)) <= M + 1 -> sc_capacity (spec_evict n s) = sc_capacity s ->
  Z.of_nat (length (sc_cached (spec_evict n s))) <= M.
Proof.
  intros Hr H Hh Hn Hl Hc.
  assert (Hle : (length (sc_cached (spec_evict n s)) <= length (sc_cached s))%nat).
  { clear. revert s. induction n as [|n IH]; intros s; cbn [spec_evict]; destruct (_ >? _); try done. destruct (take_out _ _) as [[e rest]|] eqn:E; [|done].
    apply take_out_Some in E as (l1 & l2 & E1 & -> & _). etransitivity; [apply IH|]. cbn. rewrite E1, !length_app. cbn. lia. }
  destruct (spec_evict_fits n s Hn) as [Hf|Hf].
  - rewrite (total_length _ (so_charges _ _ _ H)), wrap_id in Hf by (unfold fits; lia). pose proof (so_capacity _ _ _ H). lia.
  - enough (length (sc_cached (spec_evict n s)) <= length held)%nat by lia. apply (busy_bound i (spec_evict n s)); [done| |].
    + unfold distinct, entries in Hr. rewrite map_app in Hr. by apply list.NoDup_app in Hr as [? _].
    + intros e He. split; [apply elem_of_app; by left|by apply Hf].
Qed.

Lemma shard_Insert i c s held key value : refines HashSlice c s -> shard_ok i s held -> P key value -> Shard (HashSlice key) = i ->
  Z.of_nat (length (sc_cached s)) <= M -> Z.of_nat (length held) + 1 <= M ->
  exists c', lru_Insert c key (HashSlice key) value 1 = Some (c', sc_next s) /\ refines HashSlice c' (spec_Insert s key value 1).1 /\
    shard_ok i (spec_Insert s key value 1).1 (((i, sc_next s), key) :: held) /\ Z.of_nat (length (sc_cached (spec_Insert s key value 1).1)) <= M /\
    exists e, e ∈ entries (spec_Insert s key value 1).1 /\ se_handle e = sc_next s /\ se_value e = value.
Proof.
  intros Hr H HP Hi Hlen Hheld. destruct (Insert_ok HashSlice c s key value 1 Hr (so_next _ _ _ H) ltac:(lia)) as (c' & E1 & Hr'). exists c'. split; [exact E1|]. split; [exact Hr'|].
  pose proof (refines_distinct _ _ Hr') as Hd'. unfold spec_Insert in *. cbn [fst snd] in *. fold (bump_next s) in *. cbn [bump_next sc_capacity] in *. set (e := MkSEntry (sc_next s) key value 1 1) in *.
  pose proof (refines_distinct _ _ Hr) as Hd. pose proof (fresh_handle HashSlice c s (proj1 Hr)) as Hfr. pose proof (entry_fresh c i s held Hr H) as Hz.
  assert (Hb : shard_ok i (bump_next s) held) by (destruct H; split; try done; cbn; lia).
  pose proof (shard_Erase i (bump_next s) held key Hd Hb) as He.
  pose proof (Erase_entries (bump_next s) key) as (Hsub & Hsubc & Hle). pose proof (spec_step_capacity s (OInsert key value 1)) as Hcap. cbn [spec_step fst spec_Insert] in Hcap. fold (bump_next s) in Hcap. cbn [bump_next sc_capacity] in Hcap. fold e in Hcap.
  match type of Hr' with refines _ _ (spec_evict _ ?x) => set (s3 := x) in * end.
  assert (H3 : entries s3 ≡ₚ e :: entries (if sc_capacity s >? 0 then spec_Erase (bump_next s) key else bump_next s) /\ sc_next s3 = sc_next s + 1 /\ sc_capacity s3 = sc_capacity s /\
    (forall x, x ∈ sc_cached s3 -> se_charge x = 1) /\ Z.of_nat (length (sc_cached s3)) <= M + 1).
  { unfold s3. destruct (sc_capacity s >? 0); cbn [set_cached set_orphans sc_cached sc_next sc_capacity bump_next].
    - rewrite spec_erase_next. pose proof (spec_step_capacity (bump_next s) (OErase key)) as Hc. cbn [spec_step fst] in Hc. split_and!.
      + unfold entries. cbn. solve_Permutation.
      + done.
      + by rewrite Hc.
      + intros x [Hx%Hsubc|[->|[]%elem_of_nil]%elem_of_cons]%elem_of_app; [by apply (so_charges _ _ _ H)|done].
      + rewrite length_app. cbn [length bump_next sc_cached] in *. lia.
    - split_and!; try done; [unfold entries; cbn; solve_Permutation|apply (so_charges _ _ _ H)|lia]. }
  destruct H3 as (Ee & En & Ec & Hch & Hl3). set (s2 := if sc_capacity s >? 0 then _ else _) in Ee.
  assert (H2 : shard_ok i s2 held /\ distinct s2 /\ (forall x, x ∈ entries s2 -> x ∈ entries s) /\ sc_next s2 = sc_next s + 1 /\ sc_capacity s2 = sc_capacity s).
  { unfold s2. destruct (sc_capacity s >? 0); [|by split_and!]. split_and!; [done|by apply distinct_Erase|done|by rewrite spec_erase_next|exact (spec_step_capacity (bump_next s) (OErase key))]. }
  destruct H2 as (H2 & Hd2 & Hs2 & Hn2 & Hc2). assert (Hfr2 : se_handle e ∉ map se_handle (entries s2)).
  { intros (x & Ex & Hx)%list_elem_of_fmap. apply Hfr. apply list_elem_of_fmap. exists x. split; [done|]. by apply Hs2. }
  assert (H4 : shard_ok i s3 (((i, sc_next s), key) :: held)) by (apply (shard_add i s2 s3 held e); try done; congruence).
  assert (Hd3 : distinct s3) by (unfold distinct; rewrite Ee; cbn; by constructor).
  pose proof (shard_evict i (((i, sc_next s), key) :: held) (length (sc_cached s3)) s3 Hd3 H4) as H5. split; [exact H5|]. split.
  - apply (evict_length i s3 (((i, sc_next s), key) :: held)); try done; [cbn; lia|lia].
  - destruct (so_held _ _ _ H5 (sc_next s) key ltac:(left)) as (x & Hx & Ex & Ek). exists x. split; [done|]. split; [done|].
    assert (Hkeep : forall n s0, forall y, y ∈ entries (spec_evict n s0) -> y ∈ entries s0).
    { clear. induction n as [|n IH]; intros s0 y; cbn [spec_evict]; destruct (_ >? _); try done. destruct (take_out _ _) as [[e rest]|] eqn:E; [|done].
      apply take_out_Some in E as (l1 & l2 & E1 & -> & _). intros Hy%IH. revert Hy. unfold entries. cbn. rewrite E1, !elem_of_app, elem_of_cons. tauto. }
    apply Hkeep in Hx. rewrite Ee in Hx. apply elem_of_cons in Hx as [->|Hx]; [done|]. exfalso. apply Hfr2. apply list_elem_of_fmap. by exists x.
Qed.

(** ** The operations on the cache *)

Lemma used_other j x held held' : shard_used j x held -> (forall a, held_times held' (j, a) = held_times held (j, a)) ->
  (forall a key, ((j, a), key) ∈ held' -> ((j, a), key) ∈ held) -> shard_used j x held'.
Proof.
  intros (s & Hr & H & Hl) Hh Hin. exists s. split; [done|]. split; [|done]. split; try apply H.
  - intros e He. rewrite Hh. by apply (so_clients _ _ _ H).
  - intros a key Hk%Hin. by apply (so_held _ _ _ H).
Qed.

Lemma used_update c held held' i x' id : cache_used c held -> Z.of_nat (length held') <= M -> (forall h key, (h, key) ∈ held' -> h.1 = Shard (HashSlice key)) -> shard_used i x' held' ->
  (forall j a, j <> i -> held_times held' (j, a) = held_times held (j, a)) -> (forall j a key, j <> i -> ((j, a), key) ∈ held' -> ((j, a), key) ∈ held) ->
  cache_used (MkSharded (<[i := x']> (shard_ c)) id) held'.
Proof.
  intros (Hn & _ & _ & H) Hl Hsh Hx Hh Hin. split; [cbn; by rewrite length_insert|]. split; [done|]. split; [done|]. intros j y Hj. cbn in Hj.
  destruct (decide (j = i)) as [->|Hne].
  - apply list_lookup_insert_Some in Hj as [(_ & <- & _)|[? _]]; [done|done].
  - rewrite list_lookup_insert_ne in Hj by done. eapply used_other; [by apply H| |]; naive_solver.
Qed.

Lemma used_shard c held key : cache_used c held -> exists x, shard_ c !! Shard (HashSlice key) = Some x /\ shard_used (Shard (HashSlice key)) x held.
Proof.
  intros (Hn & _ & _ & H). assert (Hlt : (Shard (HashSlice key) < length (shard_ c))%nat).
  { rewrite Hn. unfold Shard, HashSlice. pose proof (Hash_fits key 0) as Hf. unfold fits in Hf. rewrite Z.shiftr_div_pow2 by done.
    change (2 ^ (32 - kNumShardBits)) with (2 ^ 28). change kNumShards with 16. assert (Hash key 0 / 2 ^ 28 < 16) by (apply Z.div_lt_upper_bound; lia).
    assert (0 <= Hash key 0 / 2 ^ 28) by (apply Z.div_pos; lia). lia. }
  apply lookup_lt_is_Some_2 in Hlt as [x Hx]. exists x. split; [done|]. by apply H.
Qed.

Lemma cons_other h key held j a : j <> h.1 -> held_times ((h, key) :: held) (j, a) = held_times held (j, a).
Proof. intros Hne. rewrite held_times_cons. cbn. rewrite decide_False by (destruct h; cbn in *; congruence). lia. Qed.

Lemma used_cons c held key : cache_used c held -> forall a h k, (h, k) ∈ ((Shard (HashSlice key), a), key) :: held -> h.1 = Shard (HashSlice k).
Proof. intros (_ & _ & H & _) a h k [[= -> ->]|Hin]%elem_of_cons; [done|by apply H]. Qed.

Lemma use_Lookup c held key : cache_used c held -> Z.of_nat (length held) + 1 <= M ->
  exists c' o, Sharded_Lookup c key = Some (c', o) /\ cache_used c' match o with Some h => (h, key) :: held | None => held end.
Proof.
  intros H Hl. destruct (used_shard c held key H) as (x & Ex & s & Hr & Hs & Hlen). unfold Sharded_Lookup, with_shard. rewrite Ex. cbn [mbind option_bind].
  set (i := Shard (HashSlice key)) in *.
  destruct (Lookup_ok HashSlice x s key Hr) as (x' & E & Hr').
  { apply list.Forall_forall. intros e He. rewrite (so_clients _ _ _ Hs e) by (apply elem_of_app; by left). pose proof (held_times_range held (i, se_handle e)). lia. }
  rewrite E. cbn [mbind option_bind fst snd]. pose proof (shard_Lookup i s held key (refines_distinct _ _ Hr) Hs) as Hsp.
  assert (Hlen' : length (sc_cached (spec_Lookup s key).1) = length (sc_cached s)).
  { unfold spec_Lookup. destruct (take_out _ _) as [[e rest]|] eqn:E1; [|done]. apply take_out_Some in E1 as (l1 & l2 & E1 & _ & _ & _ & Ec). cbn. by rewrite Ec, E1, !length_app. }
  eexists _, _. split; [done|]. destruct (spec_Lookup s key) as [s' [a|]]; cbn [fst snd option_map] in *.
  - eapply used_update; [exact H|cbn; lia| | | |].
    + by apply (used_cons c).
    + exists s'. split; [done|]. split; [done|lia].
    + intros j b Hne. by apply cons_other.
    + intros j b k Hne [[= -> _]|Hin]%elem_of_cons; [done|done].
  - subst s'. eapply used_update; [exact H|lia|apply H| |done|done]. exists s. by split_and!.
Qed.

Lemma use_Insert c held key value : cache_used c held -> P key value -> Z.of_nat (length held) + 1 <= M ->
  exists c' h, Sharded_Insert c key value 1 = Some (c', h) /\ cache_used c' ((h, key) :: held) /\ Sharded_Value c' h = Some value.
Proof.
  intros H HP Hl. destruct (used_shard c held key H) as (x & Ex & s & Hr & Hs & Hlen). unfold Sharded_Insert, with_shard. rewrite Ex. cbn [mbind option_bind].
  set (i := Shard (HashSlice key)) in *. destruct (shard_Insert i x s held key value Hr Hs HP eq_refl Hlen Hl) as (x' & E & Hr' & Hs' & Hlen' & e & He & Ea & Ev).
  rewrite E. cbn [mbind option_bind fst snd]. eexists _, _. split; [done|]. split.
  - eapply used_update; [exact H|cbn; lia| | | |].
    + by apply (used_cons c).
    + by exists (spec_Insert s key value 1).1.
    + intros j b Hne. by apply cons_other.
    + intros j b k Hne [[= -> _]|Hin]%elem_of_cons; [done|done].
  - unfold Sharded_Value, Sharded_node. cbn [fst snd shard_]. rewrite list_lookup_insert_eq by (by apply lookup_lt_Some in Ex). cbn [mbind option_bind].
    pose proof (refines_value HashSlice x' _ e Hr' He) as Hv. unfold lru_Value in Hv. rewrite Ea in Hv. by rewrite Hv, Ev.
Qed.

Lemma entry_node x s e : refines HashSlice x s -> e ∈ entries s -> exists b, lc_nodes x !! se_handle e = Some (node HashSlice b e).2.
Proof.
  intros [H _] He. apply elem_of_app in He as [(l1 & l2 & He)%list_elem_of_split|(l1 & l2 & He)%list_elem_of_split].
  - exists true. by rewrite (shape_node HashSlice x s l1 e l2 H He).
  - exists false. pose proof (nodes_rel_perm _ _ _ (nodes_orphan HashSlice s l1 e l2 He) (sh_nodes _ _ _ H)) as Hn. by destruct (nodes_rel_cons _ (se_handle e) (node HashSlice false e).2 _ Hn) as (-> & _).
Qed.

Lemma held_entry c held h key : cache_used c held -> (h, key) ∈ held ->
  exists x s e b, shard_ c !! h.1 = Some x /\ h.1 = Shard (HashSlice key) /\ refines HashSlice x s /\ shard_ok h.1 s held /\ Z.of_nat (length (sc_cached s)) <= M /\
    e ∈ entries s /\ se_handle e = h.2 /\ se_key e = key /\ Sharded_node c h = Some (node HashSlice b e).2.
Proof.
  intros H Hin. pose proof H as (_ & _ & Hsh & _). destruct (used_shard c held key H) as (x & Ex & s & Hr & Hs & Hl). rewrite <- (Hsh h key Hin) in *.
  destruct (so_held _ _ _ Hs h.2 key) as (e & He & Ea & Ek); [by destruct h|]. destruct (entry_node x s e Hr He) as [b Hb]. exists x, s, e, b. split_and!; try done.
  unfold Sharded_node. rewrite Ex. cbn [mbind option_bind]. by rewrite <- Ea.
Qed.

(** What a handle gives is of its key, and good. *)
Lemma use_Value c held h key : cache_used c held -> (h, key) ∈ held -> exists v, Sharded_Value c h = Some v /\ P key v.
Proof.
  intros H Hin. destruct (held_entry c held h key H Hin) as (x & s & e & b & _ & _ & _ & Hs & _ & He & _ & Ek & En). exists (se_value e).
  unfold Sharded_Value. rewrite En. split; [done|]. rewrite <- Ek. by apply (so_good _ _ _ Hs).
Qed.

Lemma use_Release c held held' h key : cache_used c held -> held ≡ₚ (h, key) :: held' -> exists c', Sharded_Release c h = Some c' /\ cache_used c' held'.
Proof.
  intros H Hp. assert (Hin : (h, key) ∈ held) by (rewrite Hp; left). destruct (held_entry c held h key H Hin) as (x & s & e & b & Ex & Ei & Hr & Hs & Hl & He & Ea & Ek & En).
  unfold Sharded_Release. rewrite En. cbn [mbind option_bind node snd h_hash]. rewrite Ek, <- Ei. unfold with_shard. rewrite Ex. cbn [mbind option_bind].
  destruct (Release_ok HashSlice x s h.2 Hr) as (x' & E & Hr').
  { exists e. split; [done|]. split; [done|]. rewrite (so_clients _ _ _ Hs e He), Ea. assert (0 < held_times held (h.1, h.2)); [|lia]. apply held_times_pos. exists key. by destruct h. }
  rewrite E. cbn [mbind option_bind fst]. eexists. split; [done|]. pose proof H as (_ & Hn & Hsh & _).
  assert (Hsub : forall y, y ∈ held' -> y ∈ held) by (intros y Hy; rewrite Hp; by right).
  eapply used_update; [exact H| | | | |].
  - rewrite Hp in Hn. cbn in Hn. lia.
  - intros h' k Hk. by apply Hsh, Hsub.
  - exists (spec_Release s h.2). split; [done|]. split.
    + apply (shard_Release h.1 s held held' h.2 key (refines_distinct _ _ Hr) Hs). by destruct h.
    + etransitivity; [|exact Hl]. apply inj_le. unfold spec_Release. destruct (take_out _ (sc_cached s)) as [[e1 rest]|] eqn:E1.
      * apply take_out_Some in E1 as (l1 & l2 & E1 & -> & _ & _ & Ec). destruct (_ =? 1); [|rewrite Ec]; cbn; rewrite E1, !length_app; cbn; lia.
      * destruct (take_out _ (sc_orphans s)) as [[e1 rest]|]; [by destruct (_ =? 1)|done].
  - intros j a Hne. rewrite (held_times_perm _ _ _ Hp), held_times_cons. cbn. rewrite decide_False by (destruct h; cbn in *; congruence). lia.
  - intros j a k _ Hk. by apply Hsub.
Qed.

Lemma use_Erase c held key : cache_used c held -> exists c', Sharded_Erase c key = Some c' /\ cache_used c' held.
Proof.
  intros H. destruct (used_shard c held key H) as (x & Ex & s & Hr & Hs & Hlen). unfold Sharded_Erase, with_shard. rewrite Ex. cbn [mbind option_bind].
  destruct (Erase_ok HashSlice x s key Hr) as (x' & E & Hr'). rewrite E. cbn [mbind option_bind fst]. eexists. split; [done|]. pose proof H as (_ & Hn & Hsh & _).
  apply (used_update c held held _ x' _ H Hn Hsh); try done. exists (spec_Erase s key). split; [done|]. split; [by apply (shard_Erase _ s held key (refines_distinct _ _ Hr))|].
  pose proof (Erase_entries s key) as (_ & _ & Hle). lia.
Qed.

Lemma use_New capacity c : 0 <= capacity -> u64 (capacity + (kNumShards - 1)) / kNumShards <= M -> NewShardedLRUCache capacity = Some c -> cache_used c [].
Proof.
  intros Hc HcM. unfold NewShardedLRUCache. set (per := u64 (capacity + (kNumShards - 1)) / kNumShards) in *. destruct (New_ok (V := V) HashSlice per) as (c0 & E & Hr). rewrite E. cbn [mbind option_bind]. intros Ec.
  match type of Ec with Some ?x = _ => assert (c = x) as -> by congruence end. clear Ec. split; [apply length_replicate|]. split; [cbn; lia|]. split; [by intros h k Hin%elem_of_nil|].
  intros i x Hx. cbn in Hx. apply lookup_replicate in Hx as [-> _]. exists (NewSCache per). split; [exact Hr|]. split; [|cbn; lia].
  split; cbn; try done; try (by intros e He%elem_of_nil); try lia. by intros a key Hin%elem_of_nil.
Qed.
End use.

(** What is good may be said more weakly. *)
Lemma cache_used_mono {V} (P Q : bytes -> V -> Prop) M c held : (forall key v, P key v -> Q key v) -> cache_used P M c held -> cache_used Q M c held.
Proof.
  intros HPQ (H1 & H2 & H3 & H4). split_and!; try done. intros i x Hx. destruct (H4 i x Hx) as (s & Hr & Hs & Hl). exists s. split; [done|]. split; [|done].
  split; try apply Hs. intros e He. destruct (so_good _ _ _ _ _ Hs e He) as [Hp ?]. split; [by apply HPQ|done].
Qed.
