(* ===== verification/TableCache.v ===== *)
(** * The table cache

    Models [cpp/leveldb/db/table_cache.h] and [cpp/leveldb/db/table_cache.cc]: open tables
    in the LRU cache under their file numbers, lookups and iterators on them, eviction.  The
    block cache of the options is shared by the tables and threaded through. *)
From stdpp Require Import gmap.
From S2P Require Import Prelude Coding Bloom Comparator Status DbFormat Ring HandleTable Cache CacheUse Cursor Block LogWriter LogReader FilterBlock Format TableBuilder TwoLevel Table TableLayout TableCorrect TableProps Filename BlockCacheLru.

(** ** What it asks for *)

(** [Env::NewRandomAccessFile]. *)
Class TableEnv (FS G : Type) := env_NewRandomAccessFile : FS -> bytes -> G + Status.

(** A block cache whose ids count up. *)
Class BlockCacheIds (W : Type) `{BlockCacheLaws W} := {
  cache_last : W -> Z;
  cache_NewId_next w : 0 <= cache_last w -> cache_last w + 1 < 2 ^ 64 ->
    (cache_NewId w).2 = cache_last w + 1 /\ cache_last (cache_NewId w).1 = cache_last w + 1;
  cache_Lookup_last w k : cache_last (cache_Lookup w k).1 = cache_last w;
  cache_Insert_last w k b charge : cache_last (cache_Insert w k b charge) = cache_last w
}.

Lemma with_shard_last {V A} (c c' : ShardedLRUCache V) i f (x : A) : with_shard c i f = Some (c', x) -> last_id_ c' = last_id_ c.
Proof. unfold with_shard. destruct (shard_ c !! i); [|done]. cbn [mbind option_bind]. destruct (f _); [|done]. cbn. by intros [= <- _]. Qed.

Lemma released_last {V} (c : ShardedLRUCache V) h : last_id_ (released c h) = last_id_ c.
Proof.
  unfold released, Sharded_Release. destruct (Sharded_node c h); [|done]. cbn [mbind option_bind].
  destruct (with_shard c _ _) as [[c' x]|] eqn:E; [|done]. cbn. by apply with_shard_last in E.
Qed.

#[export, refine] Instance LruBlockCacheIds : BlockCacheIds (ShardedLRUCache Block) := {| cache_last := last_id_ |}.
Proof.
  - intros w H0 H1. cbn [cache_NewId LruBlockCache Sharded_NewId fst snd last_id_]. rewrite wrap_id; [done|unfold fits; lia].
  - intros w k. cbn [cache_Lookup LruBlockCache]. destruct (Sharded_Lookup w k) as [[c [h|]]|] eqn:E; [| |done];
      (unfold Sharded_Lookup in E; destruct (with_shard w _ _) as [[c' x]|] eqn:Ew; [|done]; cbn [mbind option_bind fst snd] in E; assert (c = c') as -> by congruence);
      cbn [fst]; rewrite ?released_last; by apply with_shard_last in Ew.
  - intros w k b charge. cbn [cache_Insert LruBlockCache]. destruct (Sharded_Insert w k b charge) as [[c h]|] eqn:E; [|done].
    unfold Sharded_Insert in E. destruct (with_shard w _ _) as [[c' x]|] eqn:Ew; [|done]; cbn [mbind option_bind fst snd] in E; assert (c = c') as -> by congruence.
    rewrite released_last. by apply with_shard_last in Ew.
Defined.

(** ** The cache *)

Record TableAndFile (G : Type) := MkTableAndFile { tf_file : G; tf_table : Table G }.
Arguments MkTableAndFile {G} _ _.
Arguments tf_file {G} _.
Arguments tf_table {G} _.

(** [tcs_blocks] is the block cache of the options. *)
Record TableCacheState (G W : Type) := MkTableCache {
  tcs_dbname : bytes;
  tcs_options : Options;
  tcs_cache : ShardedLRUCache (TableAndFile G);
  tcs_blocks : option W
}.
Arguments MkTableCache {G W} _ _ _ _.
Arguments tcs_dbname {G W} _.
Arguments tcs_options {G W} _.
Arguments tcs_cache {G W} _.
Arguments tcs_blocks {G W} _.

Section cache.
Context `{C : Comparator} {FS G : Type} `{RF : RandomAccessFile G} `{TE : TableEnv FS G} `{Sn : Snappy} {W : Type} `{BC : BlockCache W}.
Implicit Types (c : TableCacheState G W).

Definition NewTableCache (dbname : bytes) (o : Options) (n : Z) (blocks : option W) : option (TableCacheState G W) :=
  cache ← NewShardedLRUCache n;
  Some (MkTableCache dbname o cache blocks).

Definition tcs_set_cache c cache : TableCacheState G W := MkTableCache (tcs_dbname c) (tcs_options c) cache (tcs_blocks c).
Definition tcs_set_blocks c blocks : TableCacheState G W := MkTableCache (tcs_dbname c) (tcs_options c) (tcs_cache c) blocks.

(** The file under its name, or under the name of older versions; the error is that of the
    first. *)
Definition open_table_file (fs : FS) (dbname : bytes) (file_number : Z) : G + Status :=
  match env_NewRandomAccessFile fs (TableFileName dbname file_number) with
  | inl file => inl file
  | inr s =>
      match env_NewRandomAccessFile fs (SSTTableFileName dbname file_number) with
      | inl file => inl file
      | inr _ => inr s
      end
  end.

(** Errors are not cached. *)
Definition FindTable (fs : FS) c (file_number file_size : Z) : res (TableCacheState G W * (Handle + Status)) :=
  let key := EncodeFixed64 file_number in
  match Sharded_Lookup (tcs_cache c) key with
  | None => Undefined
  | Some (cache, Some handle) => Ok (tcs_set_cache c cache, inl handle)
  | Some (cache, None) =>
      let c := tcs_set_cache c cache in
      match open_table_file fs (tcs_dbname c) file_number with
      | inr s => Ok (c, inr s)
      | inl file =>
          let? r := Table_Open (tcs_options c) file file_size (tcs_blocks c) in
          let c := tcs_set_blocks c r.1 in
          match r.2 with
          | inr s => Ok (c, inr s)
          | inl table =>
              match Sharded_Insert (tcs_cache c) key (MkTableAndFile file table) 1 with
              | Some (cache, handle) => Ok (tcs_set_cache c cache, inl handle)
              | None => Undefined
              end
          end
      end
  end.

(** [reinterpret_cast<TableAndFile*>(cache_->Value(handle))->table] *)
Definition handle_table c (handle : Handle) : res (Table G) :=
  match Sharded_Value (tcs_cache c) handle with Some tf => Ok (tf_table tf) | None => Undefined end.

(** Giving a handle back: [UnrefEntry], which an iterator runs when it is deleted. *)
Definition UnrefEntry c (handle : Handle) : res (TableCacheState G W) :=
  match Sharded_Release (tcs_cache c) handle with Some cache => Ok (tcs_set_cache c cache) | None => Undefined end.

(** The iterator holds the handle. *)
Definition tcache_NewIterator (fs : FS) c (file_number file_size : Z)
    : res (TableCacheState G W * (Handle * TwoLevelIterator (option W) BlockIterator BlockOrError + Status)) :=
  let? r := FindTable fs c file_number file_size in
  match r.2 with
  | inr s => Ok (r.1, inr s)
  | inl handle =>
      let? table := handle_table r.1 handle in
      Ok (r.1, inl (handle, Table_NewIterator table (tcs_blocks r.1)))
  end.

Definition tcache_Get (fs : FS) c (verify_checksums fill_cache : bool) (file_number file_size : Z) (k : bytes)
    : res (TableCacheState G W * Status * option (bytes * bytes)) :=
  let? r := FindTable fs c file_number file_size in
  match r.2 with
  | inr s => Ok (r.1, s, None)
  | inl handle =>
      let? t := handle_table r.1 handle in
      let? g := InternalGet t verify_checksums fill_cache (tcs_blocks r.1) k in
      let? c := UnrefEntry (tcs_set_blocks r.1 g.1.1) handle in
      Ok (c, g.1.2, g.2)
  end.

Definition tcache_Evict c (file_number : Z) : res (TableCacheState G W) :=
  match Sharded_Erase (tcs_cache c) (EncodeFixed64 file_number) with Some cache => Ok (tcs_set_cache c cache) | None => Undefined end.
End cache.

(** ** Reading goes only to the keys of the table *)

Section keys.
Context `{C : Comparator} {F : Type} `{RF : RandomAccessFile F} `{Sn : Snappy} {W : Type} `{BCI : BlockCacheIds W}.

(** The block cache after reads through the table [t]. *)
Definition reads_of (t : Table F) (w w' : W) : Prop :=
  cache_last w' = cache_last w /\ forall key b, cache_holds w' key b -> cache_holds w key b \/ exists off, key = block_cache_key (cache_id t) off.

Lemma BlockReader_reads t verify fill w iv bc it : BlockReader t verify fill (Some w) iv = Ok (bc, it) -> exists w', bc = Some w' /\ reads_of t w w'.
Proof.
  unfold BlockReader. destruct (BlockHandle_DecodeFrom iv) as [[h rest]|s]; [|intros [= <- _]; exists w; split; [done|split; [done|by left]]].
  pose proof (cache_Lookup_last w (block_cache_key (cache_id t) (bh_offset h))) as Hl.
  destruct (cache_Lookup w (block_cache_key (cache_id t) (bh_offset h))) as [w1 found] eqn:El. cbn in Hl.
  assert (H1 : forall key b, cache_holds w1 key b -> cache_holds w key b) by (intros key b; by eapply cache_Lookup_keeps).
  destruct found as [b|]; [intros [= <- _]; exists w1; split; [done|split; [done|intros key b' Hb; left; by apply H1]]|].
  destruct (ReadBlock _ _ _) as [[contents|s]| |]; cbn [res_bind]; try done; intros [= <- _].
  - destruct (_ && _); eexists; (split; [done|]); [|by split; [|left; apply H1]]. split; [by rewrite cache_Insert_last|].
    intros key b [[-> _]|Hb]%cache_Insert_holds; [right; by eexists|left; by apply H1].
  - eexists. split; [done|]. split; [done|]. intros key b Hb. left. by apply H1.
Qed.

Lemma InternalGet_reads t verify fill w k bc s found : InternalGet t verify fill (Some w) k = Ok (bc, s, found) -> exists w', bc = Some w' /\ reads_of t w w'.
Proof.
  assert (Hrefl : reads_of t w w) by (split; [done|by left]). unfold InternalGet.
  destruct (it_Seek _ k) as [iiter| |]; cbn [res_bind]; try done. destruct (it_Valid iiter); cbn [res_bind]; [|intros [= <- _ _]; by exists w].
  destruct (it_value iiter) as [hv| |]; cbn [res_bind]; try done.
  match goal with |- context [let? _ := (let? _ := ?x in _) in _] => destruct x as [excluded| |] end; cbn [res_bind]; try done.
  destruct excluded; cbn [res_bind]; [intros [= <- _ _]; by exists w|].
  destruct (BlockReader t verify fill (Some w) hv) as [[bc' it]| |] eqn:Eb; cbn [res_bind]; try done. apply BlockReader_reads in Eb as (w' & -> & Hw).
  destruct (it_Seek it k) as [it'| |]; cbn [res_bind]; try done. destruct (it_Valid it'); cbn [res_bind]; [destruct (it_value it') as [v| |]; cbn [res_bind]; try done|]; intros [= <- _ _]; by exists w'.
Qed.
End keys.

(** ** Serving files *)

Section serves.
Context `{C : Comparator} `{!ComparatorLaws C} {FS G : Type} `{RFL : RandomAccessFileLaws G} `{TE : TableEnv FS G} `{Sn : Snappy} `{!SnappyLaws Sn} {W : Type} `{BCI : BlockCacheIds W}.
Context (o : Options) (dbname : bytes) (same : bytes -> bytes -> Prop) (contents : Z -> list (bytes * bytes)) (fsize : Z -> Z) (M : Z) (HM : 0 <= M < 2 ^ 31 - 1).
Implicit Types (c : TableCacheState G W) (owner : gmap Z (list data_part)).

(** A file with the pairs of a number. *)
Record serves (file : G) (n : Z) (ps : list data_part) : Prop := {
  sv_reliable : reliable file;
  sv_layout : table_layout o (raf_contents file) ps;
  sv_gap : gap_ok same ps;
  sv_pairs : all_pairs ps = contents n;
  sv_ascending : ascending (contents n);
  sv_size : size (raf_contents file) = fsize n }.

(** If the file of a number opens, it has the pairs of the number. *)
Definition files_ok (fs : FS) (n : Z) : Prop := forall file, open_table_file fs dbname n = inl file -> exists ps, serves file n ps.

(** The block cache: each id belongs to one table, whose blocks are under it. *)
Record blocks_owned owner (w : W) : Prop := {
  bo_last : 0 <= cache_last w < 2 ^ 64;
  bo_ids id ps : owner !! id = Some ps -> 0 <= id <= cache_last w;
  bo_keys key b : cache_holds w key b -> exists id off, key = block_cache_key id off /\ is_Some (owner !! id);
  bo_right id ps p b : owner !! id = Some ps -> p ∈ ps -> cache_holds w (block_cache_key id (bh_offset (p_handle p))) b ->
    b = NewBlock (raw_block (opt_block_restart_interval o) (p_kvs p)) }.

(** An entry of the cache. *)
Definition good_table owner (key : bytes) (tf : TableAndFile G) : Prop :=
  exists n ps, fits 64 n /\ key = EncodeFixed64 n /\ serves (tf_file tf) n ps /\ opened o (tf_file tf) ps (tf_table tf) /\ owner !! cache_id (tf_table tf) = Some ps.

(** [held]: the handles given out, with their file numbers; [k] bounds the ids given out. *)
Definition held_keys (held : list (Handle * Z)) : list (Handle * bytes) := map (fun x => (x.1, EncodeFixed64 x.2)) held.

Definition tcache_inv c (held : list (Handle * Z)) (k : Z) : Prop :=
  tcs_dbname c = dbname /\ tcs_options c = o /\ Forall (fun x => fits 64 x.2) held /\
  exists w owner, tcs_blocks c = Some w /\ cache_last w <= k /\ blocks_owned owner w /\ cache_used (good_table owner) M (tcs_cache c) (held_keys held).

Lemma EncodeFixed64_inj a b : fits 64 a -> fits 64 b -> EncodeFixed64 a = EncodeFixed64 b -> a = b.
Proof.
  intros Ha Hb E. apply (f_equal DecodeFixed64) in E.
  rewrite <- (app_nil_r (EncodeFixed64 a)), <- (app_nil_r (EncodeFixed64 b)), !DecodeFixed64_encode in E. by rewrite !wrap_id in E by done.
Qed.

Lemma block_cache_key_id id id' off off' : fits 64 id -> fits 64 id' -> block_cache_key id off = block_cache_key id' off' -> id = id'.
Proof.
  intros Hi Hi2 E. unfold block_cache_key in E. apply EncodeFixed64_inj; [done|done|]. apply (f_equal (take 8)) in E.
  by rewrite !take_app_le, !take_ge in E by (by rewrite length_EncodeFixed64).
Qed.

(** Right under its ids is what reading a table needs. *)
Lemma owned_ok owner w t ps : blocks_owned owner w -> owner !! cache_id t = Some ps -> cache_ok o ps (F := G) t (Some w).
Proof. intros Hown Ht p b Hp Hb. by eapply (bo_right _ _ Hown). Qed.

(** Reads through an owned table keep the block cache right. *)
Lemma owned_reads owner w w' (t : Table G) ps : blocks_owned owner w -> owner !! cache_id t = Some ps -> reads_of t w w' -> cache_ok o ps t (Some w') -> blocks_owned owner w'.
Proof.
  intros Hown Ht [Hl Hr] Hok. split.
  - rewrite Hl. apply Hown.
  - intros id qs Hid. rewrite Hl. by eapply (bo_ids _ _ Hown).
  - intros key b [Hb|[off ->]]%Hr; [by eapply (bo_keys _ _ Hown)|]. exists (cache_id t), off. by rewrite Ht.
  - intros id qs p b Hid Hp Hb. destruct (Z.eq_dec id (cache_id t)) as [->|Hne].
    + rewrite Ht in Hid. injection Hid as <-. by apply Hok.
    + apply Hr in Hb as [Hb|[off Ek]]; [by eapply (bo_right _ _ Hown)|]. destruct Hne.
      pose proof (bo_ids _ _ Hown _ _ Hid). pose proof (bo_ids _ _ Hown _ _ Ht). pose proof (bo_last _ _ Hown). by eapply block_cache_key_id; [| |exact Ek]; unfold fits; lia.
Qed.

(** A table that is opened gets an id of its own. *)
Lemma owned_open owner w id ps : blocks_owned owner w -> cache_last w + 1 < 2 ^ 64 -> id = (cache_NewId w).2 ->
  owner !! id = None /\ blocks_owned (<[id := ps]> owner) (cache_NewId w).1 /\ cache_last (cache_NewId w).1 = cache_last w + 1.
Proof.
  intros Hown Hk ->. pose proof (bo_last _ _ Hown) as Hl. destruct (cache_NewId_next w) as [Ei El]; [lia|lia|].
  assert (Hno : owner !! (cache_NewId w).2 = None) by (destruct (owner !! (cache_NewId w).2) as [qs|] eqn:E; [|done]; pose proof (bo_ids _ _ Hown _ _ E); lia).
  split; [done|]. split; [|done]. split.
  - lia.
  - intros id qs [[<- _]|[_ Hid]]%lookup_insert_Some; [lia|]. pose proof (bo_ids _ _ Hown _ _ Hid). lia.
  - intros key b Hb%cache_NewId_keeps. destruct (bo_keys _ _ Hown _ _ Hb) as (id & off & -> & [qs Hid]). exists id, off. split; [done|].
    rewrite lookup_insert_ne by congruence. by exists qs.
  - intros id qs p b [[<- <-]|[Hne Hid]]%lookup_insert_Some Hp Hb%cache_NewId_keeps; [|by eapply (bo_right _ _ Hown)].
    destruct (bo_keys _ _ Hown _ _ Hb) as (id & off & Ek & [rs Hid]). pose proof (bo_ids _ _ Hown _ _ Hid).
    apply block_cache_key_id in Ek; [lia|unfold fits; lia..].
Qed.

Lemma good_table_mono owner owner' key tf : owner ⊆ owner' -> good_table owner key tf -> good_table owner' key tf.
Proof. intros Hsub (n & ps & ? & ? & ? & ? & ?). exists n, ps. split_and!; try done. by eapply lookup_weaken. Qed.

Lemma held_fits held h n : Forall (fun x : Handle * Z => fits 64 x.2) held -> (h, n) ∈ held -> fits 64 n.
Proof. intros Hf Hin. exact (proj1 (list.Forall_forall _ _) Hf _ Hin). Qed.

(** What a handle holds. *)
Lemma held_table c held k h n : tcache_inv c held k -> (h, n) ∈ held ->
  exists w owner tf ps, tcs_blocks c = Some w /\ blocks_owned owner w /\ cache_last w <= k /\ cache_used (good_table owner) M (tcs_cache c) (held_keys held) /\
    Sharded_Value (tcs_cache c) h = Some tf /\ handle_table c h = Ok (tf_table tf) /\ serves (tf_file tf) n ps /\ opened o (tf_file tf) ps (tf_table tf) /\ owner !! cache_id (tf_table tf) = Some ps.
Proof.
  intros (_ & _ & Hf & w & owner & Eb & Hk & Hown & Hu) Hin. destruct (use_Value _ _ _ _ h (EncodeFixed64 n) Hu) as (tf & Ev & n' & ps & Hn' & En & Hsv & Hop & Hid).
  { apply list_elem_of_fmap. by exists (h, n). }
  apply EncodeFixed64_inj in En; [|by eapply held_fits|done]. subst n'. exists w, owner, tf, ps. split_and!; try done. unfold handle_table. by rewrite Ev.
Qed.

Lemma FindTable_ok fs c held k n : tcache_inv c held k -> Z.of_nat (length held) + 1 <= M -> k + 1 < 2 ^ 64 -> fits 64 n -> files_ok fs n ->
  exists c' r, FindTable fs c n (fsize n) = Ok (c', r) /\
    match r with
    | inl h => tcache_inv c' ((h, n) :: held) (k + 1)
    | inr s => tcache_inv c' held (k + 1) /\ open_table_file fs dbname n = inr s
    end.
Proof.
  intros (Ed & Eo & Hf & w & owner & Eb & Hk & Hown & Hu) Hl Hk1 Hn Hfs. unfold FindTable.
  destruct (use_Lookup _ M HM _ (held_keys held) (EncodeFixed64 n) Hu) as (cache & found & -> & Hu'); [by unfold held_keys; rewrite length_map|].
  assert (Hf' : Forall (fun x : Handle * Z => fits 64 x.2) ((default (0%nat, 0) found, n) :: held)) by (by constructor).
  destruct found as [h|].
  { eexists _, _. split; [done|]. split; [done|]. split; [done|]. split; [exact Hf'|]. exists w, owner. split_and!; try done. lia. }
  cbn [tcs_set_cache tcs_dbname tcs_options tcs_blocks tcs_cache]. rewrite Ed. destruct (open_table_file fs dbname n) as [file|s] eqn:Ef.
  2: { eexists _, _. split; [done|]. cbn. split; [|done]. split; [done|]. split; [done|]. split; [done|]. exists w, owner. split_and!; try done. lia. }
  destruct (Hfs file Ef) as [ps Hsv]. pose proof Hsv as [Hrel Hly Hgap Hps Hasc Hsz].
  destruct (Open_ok o file ps Hrel Hly (Some w)) as (bc & t & Et & Hop & -> & Hid). rewrite Eo, Eb, <- Hsz, Et. cbn [res_bind fst snd].
  destruct (owned_open owner w (cache_id t) ps Hown) as (Hno & Hown' & Hl'); [lia|done|].
  assert (Hu2 : cache_used (good_table (<[cache_id t := ps]> owner)) M cache (held_keys held)).
  { eapply cache_used_mono; [|exact Hu']. intros key v. apply good_table_mono. by apply insert_subseteq. }
  destruct (use_Insert _ M HM _ _ (EncodeFixed64 n) (MkTableAndFile file t) Hu2) as (cache' & h & Ei & Hu3 & _).
  { exists n, ps. split_and!; try done. apply lookup_insert_eq. }
  { by unfold held_keys; rewrite length_map. }
  cbn [tcs_set_blocks tcs_set_cache tcs_cache]. rewrite Ei. eexists _, _. split; [done|]. cbn. split; [done|]. split; [done|]. split; [by constructor|].
  eexists _, _. split; [done|]. split_and!; [lia|exact Hown'|exact Hu3].
Qed.

(** What a lookup may find. *)
Definition right_answer (n : Z) (ik : bytes) (found : option (bytes * bytes)) : Prop :=
  let target := at_cursor (contents n) (find_ge ik (contents n)) in
  (found = None \/ found = target) /\ forall x, target = Some x -> same ik x.1 -> found = Some x.

Context (Hfilter : forall fp, filter_policy o = Some fp -> forall fr b k x, same k x -> @FilterBlock_KeyMayMatch fp fr b x = @FilterBlock_KeyMayMatch fp fr b k).

Lemma table_lookup c held k h n verify fill ik : tcache_inv c held k -> (h, n) ∈ held ->
  exists t bc s found, handle_table c h = Ok t /\ InternalGet t verify fill (tcs_blocks c) ik = Ok (bc, s, found) /\ Status_ok s = true /\ right_answer n ik found /\
    tcache_inv (tcs_set_blocks c bc) held k.
Proof.
  intros Hinv Hin. destruct (held_table c held k h n Hinv Hin) as (w & owner & tf & ps & Eb & Hown & Hk & Hu & _ & Et & Hsv & Hop & Hid). pose proof Hsv as [Hrel Hly Hgap Hps Hasc Hsz].
  destruct (InternalGet_ok o (tf_file tf) ps Hrel Hly (tf_table tf) Hop verify fill (Some w) ik (owned_ok _ _ _ _ Hown Hid)) as (bc & s & found & Eg & Hbc & Hs & Hfound & Hyes).
  destruct (InternalGet_reads _ _ _ _ _ _ _ _ Eg) as (w' & -> & Hr). exists (tf_table tf), (Some w'), s, found. rewrite Eb. split; [done|]. split; [done|]. split; [done|]. split.
  - unfold right_answer. rewrite <- Hps in *. split; [done|]. intros x Hx Hsame. apply Hyes; [done| |].
    + intros fp fr Hfr b. pose proof (op_filter _ _ _ _ Hop) as Hof. rewrite Hfr in Hof. destruct Hof as [Hof _]. by apply (Hfilter fp Hof).
    + intros p Hp Hsep. by eapply (gap_target same ps p ik x (ly_parts _ _ _ Hly) Hgap).
  - destruct Hinv as (H1' & H2' & H3' & _). split_and!; try done. exists w', owner. split_and!; try done; [by rewrite (proj1 Hr)|]. by eapply owned_reads.
Qed.

Lemma UnrefEntry_ok c held held' k h n : tcache_inv c held k -> held ≡ₚ (h, n) :: held' -> exists c', UnrefEntry c h = Ok c' /\ tcache_inv c' held' k.
Proof.
  intros (Ed & Eo & Hf & w & owner & Eb & Hk & Hown & Hu) Hp. unfold UnrefEntry.
  destruct (use_Release _ M HM _ _ (held_keys held') h (EncodeFixed64 n) Hu) as (cache & -> & Hu'); [unfold held_keys; by rewrite Hp|].
  eexists. split; [done|]. split; [done|]. split; [done|]. split; [rewrite Hp in Hf; by apply list.Forall_cons in Hf as [_ ?]|]. by exists w, owner.
Qed.

Lemma Get_ok fs c held k verify fill n ik : tcache_inv c held k -> Z.of_nat (length held) + 1 <= M -> k + 1 < 2 ^ 64 -> fits 64 n -> files_ok fs n ->
  exists c' s found, tcache_Get fs c verify fill n (fsize n) ik = Ok (c', s, found) /\ tcache_inv c' held (k + 1) /\
    ((Status_ok s = true /\ right_answer n ik found) \/ (open_table_file fs dbname n = inr s /\ found = None)).
Proof.
  intros Hinv Hl Hk Hn Hfs. unfold tcache_Get. destruct (FindTable_ok fs c held k n Hinv Hl Hk Hn Hfs) as (c1 & [h|s] & -> & Hr); cbn [res_bind fst snd].
  - destruct (table_lookup c1 _ _ h n verify fill ik Hr ltac:(left)) as (t & bc & s & found & -> & Eg & Hs & Ha & Hinv2). cbn [res_bind]. rewrite Eg. cbn [res_bind fst snd].
    destruct (UnrefEntry_ok _ _ held _ h n Hinv2) as (c2 & -> & Hinv3); [done|]. cbn [res_bind]. exists c2, s, found. split; [done|]. split; [done|]. by left.
  - destruct Hr as [Hr Ho]. exists c1, s, None. split; [done|]. split; [done|]. by right.
Qed.

Lemma NewIterator_ok fs c held k n : tcache_inv c held k -> Z.of_nat (length held) + 1 <= M -> k + 1 < 2 ^ 64 -> fits 64 n -> files_ok fs n ->
  exists c' r, tcache_NewIterator fs c n (fsize n) = Ok (c', r) /\
    match r with
    | inl (h, it) => tcache_inv c' ((h, n) :: held) (k + 1) /\ exists t, handle_table c' h = Ok t /\
        exists blocks, forall verify fill fuel, (blocks <= fuel)%nat -> @iterates_at C _ (TableIterator t verify fill fuel) it (contents n) None
    | inr s => tcache_inv c' held (k + 1) /\ open_table_file fs dbname n = inr s
    end.
Proof.
  intros Hinv Hl Hk Hn Hfs. unfold tcache_NewIterator. destruct (FindTable_ok fs c held k n Hinv Hl Hk Hn Hfs) as (c1 & [h|s] & -> & Hr); cbn [res_bind fst snd].
  - destruct (held_table c1 _ _ h n Hr ltac:(left)) as (w & owner & tf & ps & Eb & Hown & _ & _ & _ & Et & Hsv & Hop & Hid). rewrite Et. cbn [res_bind].
    eexists _, _. split; [done|]. cbn. split; [done|]. exists (tf_table tf). split; [done|]. exists (length ps). intros verify fill fuel Hfuel. rewrite Eb. destruct Hsv as [Hrel Hly _ <- _ _].
    apply (table_iterates o (tf_file tf) ps Hrel Hly); try done. by apply (owned_ok owner).
  - destruct Hr as [Hr Ho]. by exists c1, (inr s).
Qed.

Lemma Evict_ok c held k n : tcache_inv c held k -> exists c', tcache_Evict c n = Ok c' /\ tcache_inv c' held k.
Proof.
  intros (Ed & Eo & Hf & w & owner & Eb & Hk & Hown & Hu). unfold tcache_Evict. destruct (use_Erase _ M HM _ _ (EncodeFixed64 n) Hu) as (cache & -> & Hu').
  eexists. split; [done|]. split; [done|]. split; [done|]. split; [done|]. by exists w, owner.
Qed.

(** ** The states that are reached *)

(** From a new cache by calls on good files, with at most [M] handles out at a time.
    [held] are the handles of the iterators that are not deleted, [k] counts calls. *)
Inductive reaches : TableCacheState G W -> list (Handle * Z) -> Z -> Prop :=
| reach_new entries w c : 0 <= entries -> u64 (entries + (kNumShards - 1)) / kNumShards <= M -> 0 <= cache_last w < 2 ^ 64 -> (forall key b, ~ cache_holds w key b) ->
    NewTableCache dbname o entries (Some w) = Some c -> reaches c [] (cache_last w)
| reach_get fs c c' held k verify fill n ik s found : reaches c held k -> Z.of_nat (length held) + 1 <= M -> k + 1 < 2 ^ 64 -> fits 64 n -> files_ok fs n ->
    tcache_Get fs c verify fill n (fsize n) ik = Ok (c', s, found) -> reaches c' held (k + 1)
| reach_iterator fs c c' held k n h it : reaches c held k -> Z.of_nat (length held) + 1 <= M -> k + 1 < 2 ^ 64 -> fits 64 n -> files_ok fs n ->
    tcache_NewIterator fs c n (fsize n) = Ok (c', inl (h, it)) -> reaches c' ((h, n) :: held) (k + 1)
| reach_no_iterator fs c c' held k n s : reaches c held k -> Z.of_nat (length held) + 1 <= M -> k + 1 < 2 ^ 64 -> fits 64 n -> files_ok fs n ->
    tcache_NewIterator fs c n (fsize n) = Ok (c', inr s) -> reaches c' held (k + 1)
| reach_read c held k h n t verify fill ik bc s found : reaches c held k -> (h, n) ∈ held -> handle_table c h = Ok t ->
    InternalGet t verify fill (tcs_blocks c) ik = Ok (bc, s, found) -> reaches (tcs_set_blocks c bc) held k
| reach_unref c c' held held' k h n : reaches c held k -> held ≡ₚ (h, n) :: held' -> UnrefEntry c h = Ok c' -> reaches c' held' k
| reach_evict c c' held k n : reaches c held k -> tcache_Evict c n = Ok c' -> reaches c' held k.

Lemma reaches_inv c held k : reaches c held k -> tcache_inv c held k.
Proof.
  induction 1 as [entries w c He Hc Hl Hno E|fs c c' held k verify fill n ik s found _ IH Hl Hk Hn Hfs E|fs c c' held k n h it _ IH Hl Hk Hn Hfs E|
    fs c c' held k n s _ IH Hl Hk Hn Hfs E|c held k h n t verify fill ik bc s found _ IH Hin Et E|c c' held held' k h n _ IH Hp E|c c' held k n _ IH E].
  - unfold NewTableCache in E. destruct (NewShardedLRUCache entries) as [cache|] eqn:Ec; [|done]. cbn [mbind option_bind] in E.
    match type of E with Some ?x = _ => assert (c = x) as -> by congruence end. split; [done|]. split; [done|]. split; [constructor|]. exists w, ∅. split_and!; [done|lia| |].
    + split; [lia|by intros id ps ?%lookup_empty_Some|by intros key b ?%Hno|by intros id ps p b ?%lookup_empty_Some].
    + by apply (use_New _ M HM entries).
  - destruct (Get_ok fs c held k verify fill n ik IH Hl Hk Hn Hfs) as (c2 & s2 & f2 & E2 & Hinv & _). rewrite E in E2. by injection E2 as <- _ _.
  - destruct (NewIterator_ok fs c held k n IH Hl Hk Hn Hfs) as (c2 & r & E2 & Hr). rewrite E in E2. injection E2 as <- <-. apply Hr.
  - destruct (NewIterator_ok fs c held k n IH Hl Hk Hn Hfs) as (c2 & r & E2 & Hr). rewrite E in E2. injection E2 as <- <-. apply Hr.
  - destruct (table_lookup c held k h n verify fill ik IH Hin) as (t2 & bc2 & s2 & f2 & Et2 & E2 & _ & _ & Hinv). rewrite Et in Et2. injection Et2 as <-. rewrite E in E2. by injection E2 as <- _ _.
  - destruct (UnrefEntry_ok c held held' k h n IH Hp) as (c2 & E2 & Hinv). rewrite E in E2. by injection E2 as <-.
  - destruct (Evict_ok c held k n IH) as (c2 & E2 & Hinv). rewrite E in E2. by injection E2 as <-.
Qed.
(** C17. The table cache serves files.  In every state reached from a new cache by lookups,
    iterators, reads through them, their deletion and evictions, in any order and over file
    systems that change, none of the calls goes wrong.  A lookup in a file with the pairs of
    its number finds the pair at or after the key, unless it has another user key, whether
    the table is cached or is opened from the file under either name; if the file cannot be
    opened, the status is the error of the first name and nothing is found, and the next
    lookup tries again.  An iterator goes over exactly the pairs of the file.  The table of
    an iterator that is not deleted stays open and readable, whatever is evicted meanwhile,
    and deleting the iterator succeeds.  The blocks of different tables are never mixed up in
    the block cache they share. *)
Theorem table_cache_serves c held k : reaches c held k -> Z.of_nat (length held) + 1 <= M -> k + 1 < 2 ^ 64 ->
  (forall fs n verify fill ik, fits 64 n -> files_ok fs n ->
     exists c' s found, tcache_Get fs c verify fill n (fsize n) ik = Ok (c', s, found) /\ reaches c' held (k + 1) /\
       ((Status_ok s = true /\ right_answer n ik found) \/ (open_table_file fs dbname n = inr s /\ found = None))) /\
  (forall fs n, fits 64 n -> files_ok fs n ->
     exists c' r, tcache_NewIterator fs c n (fsize n) = Ok (c', r) /\
       match r with
       | inl (h, it) => reaches c' ((h, n) :: held) (k + 1) /\
           exists t blocks, handle_table c' h = Ok t /\ forall verify fill fuel, (blocks <= fuel)%nat -> @iterates_at C _ (TableIterator t verify fill fuel) it (contents n) None
       | inr s => open_table_file fs dbname n = inr s
       end) /\
  (forall h n, (h, n) ∈ held -> (exists t, handle_table c h = Ok t /\ forall verify fill ik,
       exists bc s found, InternalGet t verify fill (tcs_blocks c) ik = Ok (bc, s, found) /\ Status_ok s = true /\ right_answer n ik found) /\
     exists c', UnrefEntry c h = Ok c') /\
  (forall n, exists c', tcache_Evict c n = Ok c').
Proof.
  intros Hr Hl Hk. pose proof (reaches_inv c held k Hr) as Hinv. split_and!.
  - intros fs n verify fill ik Hn Hfs. destruct (Get_ok fs c held k verify fill n ik Hinv Hl Hk Hn Hfs) as (c' & s & found & E & _ & Ha). exists c', s, found. split_and!; [done| |done]. by eapply reach_get.
  - intros fs n Hn Hfs. destruct (NewIterator_ok fs c held k n Hinv Hl Hk Hn Hfs) as (c' & [[h it]|s] & E & Hit); eexists _, _; (split; [exact E|]); [|apply Hit].
    destruct Hit as (_ & t & Et & blocks & Hb). split; [by eapply reach_iterator|]. by exists t, blocks.
  - intros h n Hin. split.
    + destruct (table_lookup c held k h n true true [] Hinv Hin) as (t & _ & _ & _ & Et & _). exists t. split; [done|]. intros verify fill ik.
      destruct (table_lookup c held k h n verify fill ik Hinv Hin) as (t' & bc & s & found & Et' & Eg & Hs & Ha & _). rewrite Et in Et'. injection Et' as <-. by exists bc, s, found.
    + apply list_elem_of_split in Hin as (l1 & l2 & ->). destruct (UnrefEntry_ok c _ (l1 ++ l2) k h n Hinv) as (c' & E & _); [solve_Permutation|]. by exists c'.
  - intros n. destruct (Evict_ok c held k n Hinv) as (c' & E & _). by exists c'.
Qed.
End serves.

(** ** An example: a table under the old name, evicted while it is read *)

#[local] Instance example_table_env : TableEnv unit bytes := fun _ fname =>
  if bool_decide (fname = SSTTableFileName (str "/db") 7) then inl example_internal_data else inr (Status_NotFound fname []).

Definition example_user (k z : bytes) : Prop := ExtractUserKey k = ExtractUserKey z.

Lemma example_serves : exists ps, @serves (InternalKeyComparator BytewiseComparator) _ _ _ no_snappy example_internal_options example_user (fun _ => example_versions)
  (fun _ => size example_internal_data) example_internal_data 7 ps.
Proof.
  assert (Hasc : @ascending (InternalKeyComparator BytewiseComparator) example_versions) by (apply ascending_b_ok; by vm_compute).
  destruct (build_layout (C := InternalKeyComparator BytewiseComparator) (Sn := no_snappy) example_internal_options _ (Internal_gap (C := BytewiseComparator)) ([] : bytes) example_versions) as (r & E & Hr).
  { reflexivity. }
  { split; [by left|cbn; lia|done|by vm_compute|].
    intros fp [= <-]. split; [by vm_compute|]. eexists. split; [apply InternalFilterPolicyLaws, BloomPolicyLaws|].
    intros ks Hks. unfold bloom_ok. rewrite length_map. change (length ks <= 4)%nat in Hks. change (bits_per_key_ _) with 10. lia. }
  destruct (finished_ok _ r _ E example_internal_table_ok) as [Hok Hd]. destruct (Hr Hok) as (ps & Hly & Hgap & Eps); [rewrite <- Hd; by vm_compute|].
  rewrite <- Hd in Hly. exists ps. split; [apply memory_reliable|exact Hly|exact Hgap|exact Eps|exact Hasc|reflexivity].
Qed.

Lemma table_cache_serves_witness : exists (c0 c1 c2 c3 : TableCacheState bytes (ShardedLRUCache Block)) h it s,
  tcache_NewIterator (C := InternalKeyComparator BytewiseComparator) (Sn := no_snappy) tt c0 7 (size example_internal_data) = Ok (c1, inl (h, it)) /\
  tcache_Evict c1 7 = Ok c2 /\
  tcache_Get (C := InternalKeyComparator BytewiseComparator) (Sn := no_snappy) tt c2 true true 7 (size example_internal_data) (internal_key (NewLookupKey (str "k1") 8)) =
    Ok (c3, s, Some (InternalKey (str "k1") 4 kTypeDeletion, [])) /\ Status_ok s = true /\
  exists t bc s', handle_table c3 h = Ok t /\
    InternalGet (C := InternalKeyComparator BytewiseComparator) (Sn := no_snappy) t true true (tcs_blocks c3) (internal_key (NewLookupKey (str "k1") 8)) =
      Ok (bc, s', Some (InternalKey (str "k1") 4 kTypeDeletion, [])).
Proof.
  assert (HM : 0 <= 1000 < 2 ^ 31 - 1) by lia.
  assert (Hnew : forall V n, exists c, NewShardedLRUCache (V := V) n = Some c /\ last_id_ c = 0).
  { intros V n. unfold NewShardedLRUCache. destruct (New_ok (V := V) HashSlice 0) as (c & -> & _). by eexists. }
  destruct (Hnew Block 100) as (w & Ew & Hw). destruct (Hnew (TableAndFile bytes) 90) as (cc & Ec & _).
  set (c0 := MkTableCache (str "/db") example_internal_options cc (Some w)).
  pose (P := @reaches (InternalKeyComparator BytewiseComparator) unit bytes _ _ example_table_env no_snappy (ShardedLRUCache Block) _ _ _ example_internal_options (str "/db") example_user
    (fun _ => example_versions) (fun _ => size example_internal_data) 1000).
  assert (Hfilter : forall fp, filter_policy example_internal_options = Some fp -> forall fr b k x, example_user k x -> @FilterBlock_KeyMayMatch fp fr b x = @FilterBlock_KeyMayMatch fp fr b k).
  { intros fp [= <-] fr b k x Hs. unfold FilterBlock_KeyMayMatch. cbn [fp_KeyMayMatch InternalFilterPolicy fst]. by rewrite Hs. }
  assert (Hopen : open_table_file tt (str "/db") 7 = inl example_internal_data) by by vm_compute.
  assert (Hfs : @files_ok (InternalKeyComparator BytewiseComparator) unit bytes _ _ example_table_env no_snappy example_internal_options (str "/db") example_user
    (fun _ => example_versions) (fun _ => size example_internal_data) tt 7).
  { intros file Hf. rewrite Hopen in Hf. injection Hf as <-. apply example_serves. }
  assert (H7 : fits 64 7) by by vm_compute.
  assert (H0 : P c0 [] 0).
  { rewrite <- Hw. change (P c0 [] (cache_last w)). unfold P. apply (reach_new _ _ _ _ _ _ 90); [lia|by vm_compute| |intros key b; by eapply new_cache_empty|unfold NewTableCache; by rewrite Ec].
    change (0 <= last_id_ w < 2 ^ 64). rewrite Hw. by vm_compute. }
  destruct (table_cache_serves _ _ _ _ _ _ HM Hfilter c0 [] 0 H0 ltac:(by vm_compute) ltac:(by vm_compute)) as (_ & Hit & _).
  destruct (Hit tt 7 H7 Hfs) as (c1 & [[h it]|s] & E1 & H1); [|rewrite Hopen in H1; done]. destruct H1 as (H1 & _). change (0 + 1) with 1 in H1.
  destruct (table_cache_serves _ _ _ _ _ _ HM Hfilter c1 [(h, 7)] 1 H1 ltac:(by vm_compute) ltac:(by vm_compute)) as (_ & _ & _ & Hev).
  destruct (Hev 7) as (c2 & E2). pose proof (reach_evict _ _ _ _ _ _ c1 c2 _ _ 7 H1 E2) as H2.
  set (ik := internal_key (NewLookupKey (str "k1") 8)).
  assert (Hans : forall found, @right_answer (InternalKeyComparator BytewiseComparator) example_user (fun _ => example_versions) 7 ik found -> found = Some (InternalKey (str "k1") 4 kTypeDeletion, [])).
  { intros found [_ Ha]. apply Ha; by vm_compute. }
  destruct (table_cache_serves _ _ _ _ _ _ HM Hfilter c2 [(h, 7)] 1 H2 ltac:(by vm_compute) ltac:(by vm_compute)) as (Hget & _).
  destruct (Hget tt 7 true true ik H7 Hfs) as (c3 & s & found & E3 & H3 & [[Hs Ha]|[Ho _]]); [|rewrite Hopen in Ho; done]. change (1 + 1) with 2 in H3.
  destruct (table_cache_serves _ _ _ _ _ _ HM Hfilter c3 [(h, 7)] 2 H3 ltac:(by vm_compute) ltac:(by vm_compute)) as (_ & _ & Hheld & _).
  destruct (Hheld h 7 ltac:(left)) as [(t & Et & Hread) _]. destruct (Hread true true ik) as (bc & s' & found' & E4 & _ & Ha').
  exists c0, c1, c2, c3, h, it, s. split; [exact E1|]. split; [exact E2|]. split; [rewrite <- (Hans found Ha); exact E3|]. split; [exact Hs|].
  exists t, bc, s'. split; [exact Et|]. rewrite <- (Hans found' Ha'). exact E4.
Defined.
