(* ===== verification/Manifest.v ===== *)
(** * The manifest

    Models the operations of [VersionSet] of [cpp/leveldb/db/version_set.cc] that touch
    files: [LogAndApply] logs a version edit to the descriptor and installs the version it
    gives, [Recover] rebuilds the current version from the descriptor that CURRENT names,
    [ReuseManifest] keeps appending to an old descriptor.

    [LogAndApply] releases the mutex while it writes; its caller is the only one to log
    edits, and the model runs it without interruption.  Messages to the information log
    are left out. *)
From Stdlib Require Import Floats.SpecFloat.
From stdpp Require Import gmap sorting.
From S2P Require Import Prelude Coding Crc32c Logging Comparator Status DbFormat LogWriter LogReader Cursor Block Merger VersionEdit FileSearch Version Overlap VersionBuilder VersionSet Filename.

(** ** The rest of the environment *)

(** Files to read and to append to, next to those of [Env]. *)
Class FileEnv `{E : Env} := {
  SFile : Type;
  SFile_seq :: SequentialFile SFile;
  env_NewSequentialFile : FS -> bytes -> SFile + Status;
  env_GetFileSize : FS -> bytes -> Z + Status;
  env_NewAppendableFile : FS -> bytes -> FS * (WFile + Status);
  wfile_Flush : FS -> WFile -> FS * Status
}.

(** The log writer appends to an open file of the file system. *)
#[export] Instance Env_WritableFile `{FileEnv} : WritableFile (FS * WFile) := {|
  wf_Append p data := let '(w, s) := wfile_Append p.1 p.2 data in ((w, p.2), s);
  wf_Flush p := let '(w, s) := wfile_Flush p.1 p.2 in ((w, p.2), s)
|}.

Section manifest.
Context `{C : Comparator} `{FE : FileEnv}.
Abbreviation VersionSet := (VersionSet WFile).
Implicit Type vs : VersionSet.

(** [descriptor_log_->AddRecord(record)]: the file system, the position in the block after
    it and the status. *)
Definition log_record (w : FS) (d : WFile * Z) (record : bytes) : res (FS * (WFile * Z) * Status) :=
  match AddRecord (MkWriter (w, d.1) d.2) record with
  | Some (log, s) => Ok ((dest_ log).1, ((dest_ log).2, block_offset_ log), s)
  | None => OutOfFuel
  end.

(** ** Snapshots *)

(** The edit [WriteSnapshot] makes of the current version [v]. *)
Definition snapshot_edit vs (v : Version) : VersionEdit :=
  let edit := SetComparatorName NewVersionEdit cmp_Name in
  let edit := foldl (fun edit '(level, pointer) =>
      match pointer with
      | [] => edit
      | _ => SetCompactPointer edit level (InternalKey_DecodeFrom pointer).1
      end) edit (imap (fun level pointer => (Z.of_nat level, pointer)) (compact_pointer_ vs)) in
  foldl (fun edit '(level, files) =>
      foldl (fun edit f => AddFile edit level (number f) (file_size f) (smallest f) (largest f)) edit files)
    edit (imap (fun level files => (Z.of_nat level, files)) (files_ v)).

Definition WriteSnapshot (w : FS) vs (d : WFile * Z) : res (FS * (WFile * Z) * Status) :=
  let? v := current vs in
  log_record w d (VersionEdit_EncodeTo (snapshot_edit vs v) []).

(** ** Logging an edit *)

(** What [LogAndApply] adds to the edit before it builds the version. *)
Definition complete_edit vs (edit : VersionEdit) : VersionEdit :=
  let edit := if has_log_number_ edit then edit else SetLogNumber edit (vs_log_number_ vs) in
  let edit := if has_prev_log_number_ edit then edit else SetPrevLogNumber edit (vs_prev_log_number_ vs) in
  SetLastSequence (SetNextFile edit (vs_next_file_number_ vs)) (vs_last_sequence_ vs).

(** The new version, and the compaction pointers, which the builder changes at once. *)
Definition build_version vs (edit : VersionEdit) : res (Version * list bytes) :=
  let? base := current vs in
  let? r := Builder_Apply (NewBuilder base) (compact_pointer_ vs) edit in
  Ok (Finalize (SaveTo r.1 NewVersion), r.2).

(** Opens a descriptor if there is none: the file system, the descriptor if there is one,
    the name of the file if it is new, and the status. *)
Definition open_descriptor (w : FS) vs (dbname : bytes) : res (FS * option (WFile * Z) * bytes * Status) :=
  match descriptor_log_ vs with
  | Some d => Ok (w, Some d, [], Status_OK)
  | None =>
      let new_manifest_file := DescriptorFileName dbname (manifest_file_number_ vs) in
      match env_NewWritableFile w new_manifest_file with
      | (w, inr s) => Ok (w, None, new_manifest_file, s)
      | (w, inl file) =>
          let? r := WriteSnapshot w vs (file, 0) in
          let '(w, d, s) := r in
          Ok (w, Some d, new_manifest_file, s)
      end
  end.

(** Writes the edit to the descriptor and, when that is new, makes CURRENT name it. *)
Definition write_edit (w : FS) vs (dbname : bytes) (d : option (WFile * Z)) (new_manifest_file : bytes) (edit : VersionEdit)
    (s : Status) : res (FS * option (WFile * Z) * Status) :=
  let? r :=
    if Status_ok s then
      match d with
      | None => Undefined
      | Some d =>
          let? r := log_record w d (VersionEdit_EncodeTo edit []) in
          let '(w, d, s) := r in
          let '(w, s) := if Status_ok s then wfile_Sync w d.1 else (w, s) in
          Ok (w, Some d, s)
      end
    else Ok (w, d, s) in
  let '(w, d, s) := r in
  let '(w, s) :=
    if Status_ok s && negb (bool_decide (new_manifest_file = []))
    then SetCurrentFile w dbname (manifest_file_number_ vs) else (w, s) in
  Ok (w, d, s).

Definition LogAndApply (w : FS) vs (dbname : bytes) (edit : VersionEdit) : res (FS * VersionSet * VersionEdit * Status) :=
  let edit := complete_edit vs edit in
  let? built := build_version vs edit in
  let '(v, pointers) := built in
  let vs := set_pointers vs pointers in
  let edit := match descriptor_log_ vs with None => SetNextFile edit (vs_next_file_number_ vs) | Some _ => edit end in
  let? opened := open_descriptor w vs dbname in
  let '(w, d, new_manifest_file, s) := opened in
  let? written := write_edit w vs dbname d new_manifest_file edit s in
  let '(w, d, s) := written in
  let vs := set_descriptor vs d in
  if Status_ok s then
    Ok (w, set_logs (AppendVersion vs v) (log_number_ edit) (prev_log_number_ edit), edit, s)
  else
    match new_manifest_file with
    | [] => Ok (w, vs, edit, s)
    | _ =>
        let w := match d with Some d => wfile_delete w d.1 | None => w end in
        Ok ((env_RemoveFile w new_manifest_file).1, set_descriptor vs None, edit, s)
    end.

(** ** Recovery *)

Definition ReuseManifest (w : FS) vs (reuse_logs : bool) (max_file_size : Z) (dscname dscbase : bytes)
    : FS * VersionSet * bool :=
  if negb reuse_logs then (w, vs, false)
  else
    match ParseFileName dscbase with
    | Some (manifest_number, kDescriptorFile) =>
        match env_GetFileSize w dscname with
        | inl manifest_size =>
            if manifest_size >=? TargetFileSize max_file_size then (w, vs, false)
            else
              match env_NewAppendableFile w dscname with
              | (w, inl file) =>
                  let log := NewWriterAt (w, file) manifest_size in
                  (w, set_manifest (set_descriptor vs (Some (file, block_offset_ log))) manifest_number, true)
              | (w, inr _) => (w, vs, false)
              end
        | inr _ => (w, vs, false)
        end
    | _ => (w, vs, false)
    end.

(** The variables of [Recover]: each counter with its [have] flag. *)
Record Recovery := MkRecovery {
  rc_builder : Builder;
  rc_pointers : list bytes;
  rc_log_number : option Z;
  rc_prev_log_number : option Z;
  rc_next_file : option Z;
  rc_last_sequence : option Z
}.

Definition keep_last (has : bool) (n : Z) (old : option Z) : option Z := if has then Some n else old.

(** The body of the loop: a record has been read and the status is OK. *)
Definition recover_record (st : Recovery) (record : bytes) : res (Recovery * Status) :=
  let? d := VersionEdit_DecodeFrom NewVersionEdit record in
  let '(edit, s) := d in
  let s :=
    if Status_ok s then
      if has_comparator_ edit && negb (bool_decide (comparator_ edit = cmp_Name))
      then Status_InvalidArgument (comparator_ edit ++ str " does not match existing comparator ") cmp_Name else s
    else s in
  let? b := if Status_ok s then Builder_Apply (rc_builder st) (rc_pointers st) edit
            else Ok (rc_builder st, rc_pointers st) in
  Ok (MkRecovery b.1 b.2
        (keep_last (has_log_number_ edit) (log_number_ edit) (rc_log_number st))
        (keep_last (has_prev_log_number_ edit) (prev_log_number_ edit) (rc_prev_log_number st))
        (keep_last (has_next_file_number_ edit) (next_file_number_ edit) (rc_next_file st))
        (keep_last (has_last_sequence_ edit) (last_sequence_ edit) (rc_last_sequence st)), s).

(** [LogReporter]: the first corruption becomes the status. *)
Definition reported (s : Status) (reports : list (Z * Status)) : Status :=
  foldl (fun s p => if Status_ok s then p.2 else s) s reports.

Fixpoint recover_loop (char_is_signed : bool) (fuel : nat) (r : Reader SFile) (st : Recovery) (s : Status)
    : res (Recovery * Status) :=
  match fuel with
  | O => OutOfFuel
  | S fuel' =>
      match ReadRecord char_is_signed fuel r with
      | None => OutOfFuel
      | Some (r, record) =>
          let s := reported s (reports r) in
          match record with
          | None => Ok (st, s)
          | Some record =>
              if negb (Status_ok s) then Ok (st, s)
              else
                let? p := recover_record st record in
                recover_loop char_is_signed fuel' r p.1 p.2
          end
      end
  end.

(** The end of [Recover]: checks the counters and installs the version. *)
Definition recover_install (w : FS) vs (reuse_logs : bool) (max_file_size : Z) (dscname current : bytes) (st : Recovery) (s : Status)
    (save_manifest : bool) : FS * VersionSet * Status * bool :=
  let vs := set_pointers vs (rc_pointers st) in
  if negb (Status_ok s) then (w, vs, s, save_manifest)
  else
    let s :=
      match rc_next_file st, rc_log_number st, rc_last_sequence st with
      | None, _, _ => Status_Corruption (str "no meta-nextfile entry in descriptor") []
      | _, None, _ => Status_Corruption (str "no meta-lognumber entry in descriptor") []
      | _, _, None => Status_Corruption (str "no last-sequence-number entry in descriptor") []
      | _, _, _ => s
      end in
    let prev_log_number := default 0 (rc_prev_log_number st) in
    let log_number := default 0 (rc_log_number st) in
    let next_file := default 0 (rc_next_file st) in
    let vs := MarkFileNumberUsed (MarkFileNumberUsed vs prev_log_number) log_number in
    if negb (Status_ok s) then (w, vs, s, save_manifest)
    else
      let v := Finalize (SaveTo (rc_builder st) NewVersion) in
      let vs := AppendVersion vs v in
      let vs := set_next_file (set_manifest vs next_file) (u64 (next_file + 1)) in
      let vs := set_logs (set_sequence vs (default 0 (rc_last_sequence st))) log_number prev_log_number in
      let '(w, vs, reused) := ReuseManifest w vs reuse_logs max_file_size dscname current in
      (w, vs, s, if reused then save_manifest else true).

Definition Recover (char_is_signed : bool) (fuel : nat) (w : FS) vs (dbname : bytes) (reuse_logs : bool) (max_file_size : Z)
    (save_manifest : bool) : res (FS * VersionSet * Status * bool) :=
  let? r := ReadFileToString fuel (env_NewSequentialFile w (CurrentFileName dbname)) in
  let '(contents, s) := r in
  if negb (Status_ok s) then Ok (w, vs, s, save_manifest)
  else if negb (bool_decide (list.last contents = Some x0a)) then
    Ok (w, vs, Status_Corruption (str "CURRENT file does not end with newline") [], save_manifest)
  else
    let contents := take (length contents - 1) contents in
    let dscname := dbname ++ str "/" ++ contents in
    match env_NewSequentialFile w dscname with
    | inr s =>
        Ok (w, vs,
          (if IsNotFound s then Status_Corruption (str "CURRENT points to a non-existent file") (Status_ToString s) else s),
          save_manifest)
    | inl file =>
        let? base := current vs in
        let st := MkRecovery (NewBuilder base) (compact_pointer_ vs) None None None None in
        let? r := recover_loop char_is_signed fuel (NewReader file true true 0) st Status_OK in
        Ok (recover_install w vs reuse_logs max_file_size dscname contents r.1 r.2 save_manifest)
    end.
End manifest.

(** ** What the environment promises *)

(** Next to [EnvLaws]: flushing changes no other file, and no contents when it succeeds; a
    file that exists can be opened and read from its start. *)
Class FileEnvLaws `{FE : FileEnv} `{L : !EnvLaws} := {
  SFile_laws :: SequentialFileLaws SFile;
  fe_Flush w f n : n <> file_name f \/ Status_ok (wfile_Flush w f).2 = true -> contents (wfile_Flush w f).1 n = contents w n;
  fe_read w n c : contents w n = Some c -> exists g, env_NewSequentialFile w n = inl g /\ sf_rest g = c
}.

#[export, refine] Instance Env_WritableFileLaws `{FL : FileEnvLaws} : WritableFileLaws (FS * WFile) := {|
  wf_contents p := default [] (contents p.1 (file_name p.2))
|}.
Proof.
  - intros [w f] data. cbn. destruct (wfile_Append w f data) as [w' s] eqn:Eq. cbn. intros Hs.
    apply env_Append in Eq as [Ha _]. by rewrite (Ha Hs).
  - intros [w f]. cbn. pose proof (fe_Flush w f (file_name f)) as Hf. destruct (wfile_Flush w f) as [w' s]. cbn in *. intros Hs. rewrite Hf by (by right). done.
Defined.

Section files.
Context `{FL : FileEnvLaws}.

(** Only the file of the handle may change. *)
Definition only_file (f : WFile) (w : FS) (p : FS * WFile) : Prop :=
  p.2 = f /\ forall n, n <> file_name f -> contents p.1 n = contents w n.

Lemma only_file_Append f w p data : only_file f w p -> only_file f w (wf_Append p data).1.
Proof.
  destruct p as [w1 f1]. intros [Hf H]. cbn in Hf. subst f1. cbn. destruct (wfile_Append w1 f data) as [w2 s] eqn:Eq.
  apply env_Append in Eq as [_ Ha]. split; [done|]. intros n Hn. cbn. by rewrite Ha, H.
Qed.

Lemma only_file_Flush f w p : only_file f w p -> only_file f w (wf_Flush p).1.
Proof.
  destruct p as [w1 f1]. intros [Hf H]. cbn in Hf. subst f1. cbn. pose proof (fun n => fe_Flush w1 f n) as Hfl.
  destruct (wfile_Flush w1 f) as [w2 s]. split; [done|]. intros n Hn. cbn in *. rewrite Hfl by (by left). by apply H.
Qed.

Lemma physical_nonempty t p : physical_record t p <> [].
Proof.
  intros Hp. apply (f_equal size) in Hp. rewrite size_physical_record, size_nil in Hp. pose proof (size_nonneg p).
  unfold kHeaderSize in Hp. lia.
Qed.

Lemma frags_nonempty off begin d out off' : frags off begin d out off' -> out <> [].
Proof.
  intros Hf. destruct Hf; intros Hx; apply app_eq_nil in Hx as [_ Hx]; [|apply app_eq_nil in Hx as [Hx _]];
    by apply physical_nonempty in Hx.
Qed.

(** Logging one record to an open descriptor. *)
Lemma log_record_ok w f off record :
  trailer_safe (F := FS * WFile) -> 0 <= off <= kBlockSize ->
  exists w' off' s, log_record w (f, off) record = Ok (w', (f, off'), s) /\
    (forall n, n <> file_name f -> contents w' n = contents w n) /\
    (Status_ok s = true -> 0 <= off' <= kBlockSize /\ exists out, frags off true record out off' /\
       contents w' (file_name f) = Some (default [] (contents w (file_name f)) ++ out)).
Proof.
  intros Hsafe Hoff. unfold log_record. cbn [fst snd].
  destruct (AddRecord_total (MkWriter (w, f) off) record Hoff) as [[log s] Eq]. rewrite Eq.
  assert (Hp : only_file f w (dest_ log)).
  { eapply (AddRecord_loop_preserves (only_file f w) _ _ _ _ _ _ (only_file_Append f w) (only_file_Flush f w) Eq). by split. }
  destruct log as [[w' f'] off']. destruct Hp as [Hf Hn]. cbn in Hf, Hn. subst f'. cbn [dest_ fst snd block_offset_].
  exists w', off', s. split; [done|]. split; [done|]. intros Hs.
  destruct (AddRecord_frags (MkWriter (w, f) off) _ _ _ Hsafe Hoff Eq Hs) as (Hoff' & out & Hfr & Hc). split; [done|]. exists out. split; [done|].
  cbn in Hc. destruct (contents w' (file_name f)) as [c|]; cbn in Hc; [by rewrite Hc|].
  exfalso. apply (frags_nonempty _ _ _ _ _ Hfr). symmetry in Hc. by apply app_eq_nil in Hc as [_ Hc].
Qed.

Lemma log_file_snoc off ds out off1 d out1 off2 :
  log_file off ds out off1 -> frags off1 true d out1 off2 -> log_file off (ds ++ [d]) (out ++ out1) off2.
Proof.
  induction 1 as [off|off d' ds out off1 rest off' Hf Hlog IH]; intros Hfr; cbn.
  - rewrite <- (app_nil_r out1). econstructor; [done|constructor].
  - rewrite <- app_assoc. econstructor; [done|by apply IH].
Qed.

(** *** Names *)

Lemma descriptor_not_current dbname n : DescriptorFileName dbname n <> CurrentFileName dbname.
Proof. unfold DescriptorFileName, CurrentFileName. by intros Hx%app_inv_head. Qed.

Lemma descriptor_not_temp dbname n m : 0 <= m -> DescriptorFileName dbname n <> TempFileName dbname m.
Proof.
  intros Hm Hx. unfold DescriptorFileName, TempFileName, MakeFileName in Hx. apply app_inv_head in Hx.
  cbn [str String.list_byte_of_string app] in Hx. injection Hx as Hx.
  pose proof (decimal6_digits m Hm) as Hd. pose proof (decimal6_nonempty m).
  destruct (decimal6 m) as [|c l]; [done|]. injection Hx as <- _. by apply Forall_cons_1 in Hd as [? _].
Qed.
End files.

(** ** Snapshots *)

(** A file as [WriteSnapshot] adds it. *)
Definition snapshot_file (f : FileMetaData) : FileMetaData := NewFileMetaData (number f) (file_size f) (smallest f) (largest f).

(** A file of an installed version is as the builder made it. *)
Definition built (f : FileMetaData) : Prop := added_file (snapshot_file f) = f.

Definition snapshot_pointers (pointers : list bytes) : list (Z * bytes) :=
  filter (fun p => p.2 <> []) (imap (fun level pointer => (Z.of_nat level, pointer)) pointers).

Definition snapshot_files (levels : list (list FileMetaData)) : list (Z * FileMetaData) :=
  concat (imap (fun level files => map (fun f => (Z.of_nat level, snapshot_file f)) files) levels).

Lemma foldl_AddFile a1 a2 a3 a4 a5 b1 b2 b3 b4 b5 cps del level files : forall news,
  foldl (fun edit f => AddFile edit level (number f) (file_size f) (smallest f) (largest f))
    (MkEdit a1 a2 a3 a4 a5 b1 b2 b3 b4 b5 cps del news) files =
  MkEdit a1 a2 a3 a4 a5 b1 b2 b3 b4 b5 cps del (news ++ map (fun f => (level, snapshot_file f)) files).
Proof.
  induction files as [|f files IH]; intros news; cbn [foldl map]; [by rewrite app_nil_r|].
  unfold AddFile at 2. cbn. rewrite IH, <- app_assoc. done.
Qed.

Lemma foldl_levels a1 a2 a3 a4 a5 b1 b2 b3 b4 b5 cps del (l : list (Z * list FileMetaData)) : forall news,
  foldl (fun edit '(level, files) =>
      foldl (fun edit f => AddFile edit level (number f) (file_size f) (smallest f) (largest f)) edit files)
    (MkEdit a1 a2 a3 a4 a5 b1 b2 b3 b4 b5 cps del news) l =
  MkEdit a1 a2 a3 a4 a5 b1 b2 b3 b4 b5 cps del (news ++ concat (map (fun p => map (fun f => (p.1, snapshot_file f)) p.2) l)).
Proof.
  induction l as [|[level files] l IH]; intros news; cbn [foldl map concat]; [by rewrite app_nil_r|].
  rewrite foldl_AddFile, IH, <- app_assoc. done.
Qed.

Lemma foldl_pointers a1 a2 a3 a4 a5 b1 b2 b3 b4 b5 del news (l : list (Z * bytes)) : forall cps,
  foldl (fun edit '(level, pointer) =>
      match pointer with [] => edit | _ => SetCompactPointer edit level (InternalKey_DecodeFrom pointer).1 end)
    (MkEdit a1 a2 a3 a4 a5 b1 b2 b3 b4 b5 cps del news) l =
  MkEdit a1 a2 a3 a4 a5 b1 b2 b3 b4 b5 (cps ++ filter (fun p => p.2 <> []) l) del news.
Proof.
  induction l as [|[level [|c key]] l IH]; intros cps; cbn [foldl]; [by rewrite app_nil_r| |].
  - rewrite filter_cons. cbn [snd]. rewrite decide_False by tauto. apply IH.
  - rewrite filter_cons. cbn [snd]. rewrite decide_True by done. cbn [InternalKey_DecodeFrom fst]. unfold SetCompactPointer at 2.
    cbn. rewrite IH, <- app_assoc. done.
Qed.

Section snapshot.
Context `{C : Comparator} `{FE : FileEnv}.

Lemma snapshot_edit_eq (vs : VersionSet WFile) v :
  snapshot_edit vs v = MkEdit cmp_Name 0 0 0 0 true false false false false
    (snapshot_pointers (compact_pointer_ vs)) [] (snapshot_files (files_ v)).
Proof.
  unfold snapshot_edit, SetComparatorName, NewVersionEdit. cbn [log_number_ prev_log_number_ VersionEdit.next_file_number_ last_sequence_
    has_log_number_ has_prev_log_number_ has_next_file_number_ has_last_sequence_ compact_pointers_ deleted_files_ new_files_].
  rewrite foldl_pointers, foldl_levels. cbn [app]. unfold snapshot_files. do 2 f_equal.
  match goal with |- map ?g ?l = _ => change (map g l) with (g <$> l) end. by rewrite fmap_imap.
Qed.
End snapshot.

(** *** The levels of a snapshot *)

Lemma at_level_app {B} i (l l' : list (Z * B)) : at_level i (l ++ l') = at_level i l ++ at_level i l'.
Proof. unfold at_level. apply omap_app. Qed.

Lemma at_level_pairs {A B} i k (g : A -> B) (l : list A) :
  at_level i (map (fun x => (Z.of_nat k, g x)) l) = if decide (k = i) then map g l else [].
Proof.
  unfold at_level. induction l as [|x l IH]; cbn; [by destruct (decide (k = i))|].
  destruct (decide (Z.of_nat k = Z.of_nat i)) as [E|E]; destruct (decide (k = i)); try lia; [|done]. cbn. by f_equal.
Qed.

Lemma at_level_imap {A B} (g : A -> B) i (ls : list (list A)) : forall k,
  at_level i (concat (imap (fun l x => map (fun y => (Z.of_nat (k + l), g y)) x) ls)) =
    if decide (k <= i)%nat then map g (nth (i - k) ls []) else [].
Proof.
  induction ls as [|x ls IH]; intros k; cbn [concat imap].
  - destruct (decide (k <= i)%nat); [|done]. by destruct (i - k)%nat.
  - cbn [imap]. rewrite at_level_app, at_level_pairs, Nat.add_0_r.
    rewrite (imap_ext _ (fun l x => map (fun y => (Z.of_nat (S k + l), g y)) x)) by (intros l y _; cbn; by rewrite Nat.add_succ_r).
    rewrite IH. destruct (decide (k = i)) as [->|Hne].
    + rewrite (decide_False (P := (S i <= i)%nat)), decide_True, Nat.sub_diag by lia. cbn [nth]. by rewrite app_nil_r.
    + destruct (decide (k <= i)%nat); [|by rewrite decide_False by lia]. rewrite (decide_True (P := (S k <= i)%nat)) by lia.
      destruct (i - k)%nat as [|j] eqn:Ej; [lia|]. cbn [nth app]. by replace (i - S k)%nat with j by lia.
Qed.

Lemma snapshot_files_at i levels : at_level i (snapshot_files levels) = map snapshot_file (nth i levels []).
Proof. pose proof (at_level_imap snapshot_file i levels 0) as H. rewrite decide_True, Nat.sub_0_r in H by lia. exact H. Qed.

Lemma snapshot_pointers_at i pointers :
  at_level i (snapshot_pointers pointers) = match nth i pointers [] with [] => [] | key => [key] end.
Proof.
  unfold snapshot_pointers.
  assert (H : forall k, at_level i (filter (fun p => p.2 <> []) (imap (fun level pointer => (Z.of_nat (k + level), pointer)) pointers)) =
    if decide (k <= i)%nat then match nth (i - k) pointers [] with [] => [] | key => [key] end else []).
  2: { specialize (H O). rewrite decide_True, Nat.sub_0_r in H by lia. exact H. }
  induction pointers as [|key pointers IH]; intros k; cbn [imap].
  - destruct (decide (k <= i)%nat); [|done]. by destruct (i - k)%nat.
  - rewrite (imap_ext _ (fun l p => (Z.of_nat (S k + l), p))) by (intros l y _; cbn; by rewrite Nat.add_succ_r).
    rewrite Nat.add_0_r, filter_cons. specialize (IH (S k)). cbn [snd].
    assert (E : at_level i (if decide (key <> []) then [(Z.of_nat k, key)] else []) =
      if decide (k = i) then match key with [] => [] | _ => [key] end else []).
    { destruct key as [|c key]; [rewrite decide_False by tauto; by destruct (decide (k = i))|].
      rewrite decide_True by done. apply (at_level_pairs i k (fun x => x) [c :: key]). }
    assert (Ec : forall l, (if decide (key <> []) then (Z.of_nat k, key) :: l else l) =
      (if decide (key <> []) then [(Z.of_nat k, key)] else []) ++ l) by (intros l; by destruct (decide (key <> []))).
    rewrite Ec, at_level_app, E, IH. destruct (decide (k = i)) as [->|Hne].
    + rewrite (decide_False (P := (S i <= i)%nat)), (decide_True (P := (i <= i)%nat)), Nat.sub_diag, app_nil_r by lia. by destruct key.
    + destruct (decide (k <= i)%nat); [|by rewrite decide_False by lia]. rewrite (decide_True (P := (S k <= i)%nat)) by lia.
      destruct (i - k)%nat as [|j] eqn:Ej; [lia|]. cbn [nth app]. by replace (i - S k)%nat with j by lia.
Qed.

(** ** Edits that are logged *)

Section logged.
Context `{C : Comparator}.

(** A version and compaction pointers that a snapshot can hold. *)
Record saved_ok (v : Version) (pointers : list bytes) : Prop := {
  sv_levels : length (files_ v) = num_levels;
  sv_files level f : f ∈ files_at v level -> built f /\ fits 64 (number f) /\ fits 64 (file_size f) /\ key_ok (smallest f) /\ key_ok (largest f);
  sv_pointers : length pointers = num_levels;
  sv_keys key : key ∈ pointers -> key = [] \/ key_ok key
}.

Lemma level_ok_of_nat {A} level (l : list A) x : length l = num_levels -> l !! level = Some x -> level_ok (Z.of_nat level).
Proof. intros Hl Hx%lookup_lt_Some. unfold level_ok, num_levels, kNumLevels in *. lia. Qed.

Lemma snapshot_ok v pointers :
  fits 32 (size cmp_Name) -> saved_ok v pointers ->
  edit_ok (MkEdit cmp_Name 0 0 0 0 true false false false false (snapshot_pointers pointers) [] (snapshot_files (files_ v))).
Proof.
  intros Hn [Hl Hf Hpl Hk]. split; cbn; try done.
  - apply list.Forall_forall. intros [level key] [Hne Hin]%list_elem_of_filter. cbn in *.
    apply elem_of_lookup_imap in Hin as (i & key' & [= -> ->] & Hi). split; [by eapply level_ok_of_nat|].
    destruct (Hk key') as [->|]; [by eapply list_elem_of_lookup_2|done|done].
  - apply list.Forall_forall. intros [level f] Hin. unfold snapshot_files in Hin.
    apply list_elem_of_In, in_concat in Hin as (l & Hl1 & Hin). rewrite <- list_elem_of_In in Hl1. rewrite <- list_elem_of_In in Hin.
    apply elem_of_lookup_imap in Hl1 as (i & files & -> & Hi). apply list_elem_of_fmap in Hin as (g & [= -> ->] & Hg). cbn.
    split; [by apply (level_ok_of_nat i _ _ Hl Hi)|]. destruct (Hf i g) as (_ & H1 & H2 & H3 & H4); [|by split_and!].
    unfold files_at. by rewrite (nth_lookup_Some _ _ _ _ Hi).
Qed.

Lemma edit_levels_ok e : edit_ok e -> levels_ok e.
Proof.
  intros He. destruct He as [_ _ _ _ _ Hc Hd _ Hn]. rewrite list.Forall_forall in Hc. rewrite list.Forall_forall in Hd. rewrite list.Forall_forall in Hn.
  split; intros p Hp; [destruct (Hc p Hp) as [H _]|destruct (Hd p Hp) as [H _]|destruct (Hn p Hp) as [H _]];
    unfold level_ok, num_levels, kNumLevels in *; lia.
Qed.

(** An edit that a client may log: well-formed, and of this comparator if it names one. *)
Record loggable (e : VersionEdit) : Prop := {
  la_edit : edit_ok e;
  la_comparator : has_comparator_ e = true -> comparator_ e = cmp_Name
}.

(** The file lists and pointers of two edits agree. *)
Definition same_files (e e' : VersionEdit) : Prop :=
  compact_pointers_ e = compact_pointers_ e' /\ deleted_files_ e = deleted_files_ e' /\ new_files_ e = new_files_ e'.

Lemma same_apply level files e e' : same_files e e' -> apply_edit level files e = apply_edit level files e'.
Proof. intros (_ & E2 & E3). unfold apply_edit. by rewrite E2, E3. Qed.

Lemma same_pointer level key e e' : same_files e e' -> pointer_after level key e = pointer_after level key e'.
Proof. intros (E1 & _ & _). unfold pointer_after. by rewrite E1. Qed.

Lemma same_new level e e' : same_files e e' -> new_at level e = new_at level e'.
Proof. intros (_ & _ & E3). unfold new_at. by rewrite E3. Qed.
End logged.

(** ** Logging an edit *)

Section run.
Context `{C : Comparator} `{!ComparatorLaws C} `{FL : FileEnvLaws}.
Context (trailers : trailer_safe (F := FS * WFile)).
Implicit Type vs : VersionSet.VersionSet WFile.

Definition encoded (e : VersionEdit) : bytes := VersionEdit_EncodeTo e [].

(** The file of the handle holds the log of [records]. *)
Definition holds_log (w : FS) (d : WFile * Z) (name : bytes) (records : list bytes) : Prop :=
  file_name d.1 = name /\ exists out, contents w name = Some out /\ log_file 0 records out d.2 /\ 0 <= d.2 <= kBlockSize.

Lemma log_record_holds w d name records record :
  holds_log w d name records ->
  exists w' d' s, log_record w d record = Ok (w', d', s) /\ d'.1 = d.1 /\
    (forall n, n <> name -> contents w' n = contents w n) /\
    (Status_ok s = true -> holds_log w' d' name (records ++ [record])).
Proof.
  destruct d as [f off]. intros (Hn & out & Hc & Hl & Hoff). cbn [fst snd] in *. subst name.
  destruct (log_record_ok w f off record trailers Hoff) as (w' & off' & s & Er & Hfr & Hs).
  exists w', (f, off'), s. split; [done|]. split; [done|]. split; [done|]. intros Hok.
  destruct (Hs Hok) as (Hoff' & out' & Hf & Hc'). split; [done|]. exists (out ++ out').
  split; [by rewrite Hc', Hc|]. split; [|done]. by eapply log_file_snoc.
Qed.

Lemma open_descriptor_new w vs dbname v :
  descriptor_log_ vs = None -> current vs = Ok v ->
  exists w' d s, open_descriptor w vs dbname = Ok (w', d, DescriptorFileName dbname (manifest_file_number_ vs), s) /\
    (Status_ok s = true -> exists d', d = Some d' /\
       holds_log w' d' (DescriptorFileName dbname (manifest_file_number_ vs)) [encoded (snapshot_edit vs v)]).
Proof.
  intros Hd Hcur. unfold open_descriptor. rewrite Hd. set (name := DescriptorFileName _ _).
  destruct (env_NewWritableFile w name) as [w1 [f|s]] eqn:En.
  - apply env_New_ok in En as (Hf & Hc & _). unfold WriteSnapshot. rewrite Hcur. cbn [res_bind].
    destruct (log_record_holds w1 (f, 0) name [] (encoded (snapshot_edit vs v))) as (w2 & d2 & s & Er & _ & _ & Hs).
    { split; [done|]. exists []. split; [done|]. split; [constructor|]. by vm_compute. }
    fold (encoded (snapshot_edit vs v)). rewrite Er. cbn [res_bind]. eexists _, _, _. split; [done|]. intros Hok. exists d2.
    split; [done|]. by apply Hs.
  - apply env_New_fail in En as [En _]. eexists _, _, _. split; [done|]. congruence.
Qed.

Lemma write_edit_ok w vs dbname d name new e records :
  holds_log w d name records -> name = DescriptorFileName dbname (manifest_file_number_ vs) -> 0 <= manifest_file_number_ vs ->
  exists w' d' s, write_edit w vs dbname (Some d) new e Status_OK = Ok (w', Some d', s) /\
    (Status_ok s = true -> holds_log w' d' name (records ++ [encoded e]) /\
      contents w' (CurrentFileName dbname) =
        (if decide (new = []) then contents w (CurrentFileName dbname)
         else Some ((str "MANIFEST-" ++ decimal6 (manifest_file_number_ vs)) ++ [x0a]))).
Proof.
  intros Hh Hname Hm. unfold write_edit. cbn [Status_ok Status_OK]. fold (encoded e).
  destruct (log_record_holds w d name records (encoded e) Hh) as (w1 & d1 & s1 & -> & Hd1 & Hfr & Hs1). cbn [res_bind].
  destruct (Status_ok s1) eqn:Ok1.
  2: { cbn [res_bind]. rewrite Ok1. cbn [andb]. eexists _, _, _. split; [done|]. congruence. }
  specialize (Hs1 eq_refl). destruct (wfile_Sync w1 d1.1) as [w2 s2] eqn:Es. apply env_Sync in Es as [Hc2 Hfr2]. cbn [res_bind].
  assert (Hname1 : file_name d1.1 = name) by apply Hs1. rewrite Hname1 in Hc2, Hfr2.
  destruct (Status_ok s2) eqn:Ok2; cbn [andb].
  2: { eexists _, _, _. split; [done|]. congruence. }
  assert (Hh2 : holds_log w2 d1 name (records ++ [encoded e])).
  { destruct Hs1 as (H1 & out & H2 & H3). split; [done|]. exists out. split; [|done]. by rewrite Hc2. }
  assert (Hcur : contents w2 (CurrentFileName dbname) = contents w (CurrentFileName dbname)).
  { pose proof (descriptor_not_current dbname (manifest_file_number_ vs)). rewrite Hfr2, Hfr by congruence. done. }
  destruct (decide (new = [])) as [->|Hnew].
  - rewrite bool_decide_eq_true_2 by done. cbn [negb]. eexists _, _, _. split; [done|]. by rewrite Hcur.
  - rewrite bool_decide_eq_false_2 by done. cbn [negb].
    destruct (SetCurrentFile_spec w2 dbname (manifest_file_number_ vs) Hm) as [H1 H2].
    destruct (SetCurrentFile w2 dbname (manifest_file_number_ vs)) as [w3 s3]. cbn [fst snd] in *.
    eexists _, _, _. split; [done|]. intros Hok. rewrite Hok in H1. split; [|done].
    destruct Hh2 as (G1 & out & G2 & G3). split; [done|]. exists out. split; [|done]. rewrite H2; [done| |].
    + rewrite Hname. apply descriptor_not_current.
    + rewrite Hname. by apply descriptor_not_temp.
Qed.

(** *** The version it installs *)

Lemma complete_edit_ok vs e :
  loggable e -> fits 64 (vs_log_number_ vs) -> fits 64 (vs_prev_log_number_ vs) -> fits 64 (vs_next_file_number_ vs) ->
  fits 64 (vs_last_sequence_ vs) ->
  let c := complete_edit vs e in
  loggable c /\ same_files c e /\ has_log_number_ c = true /\ has_prev_log_number_ c = true /\
  has_next_file_number_ c = true /\ has_last_sequence_ c = true /\
  next_file_number_ c = vs_next_file_number_ vs /\ last_sequence_ c = vs_last_sequence_ vs.
Proof.
  intros [[H1 H2 H3 H4 H5 H6 H7 H8 H9] Hcmp] L1 L2 L3 L4 c. unfold c, complete_edit.
  destruct (has_log_number_ e) eqn:E1; [|cbn [has_prev_log_number_ SetLogNumber]];
    destruct (has_prev_log_number_ e) eqn:E2;
    (split; [split; [split; cbn; rewrite ?E1, ?E2; done|done]|]); (split; [done|]); split_and!; cbn; rewrite ?E1, ?E2; done.
Qed.

Lemma build_version_ok vs e v :
  current vs = Ok v -> length (compact_pointer_ vs) = num_levels -> buildable v [e] ->
  exists v' pointers, build_version vs e = Ok (v', pointers) /\ length (files_ v') = num_levels /\ length pointers = num_levels /\
    (forall level, StronglySorted precedes (files_at v' level)) /\
    (forall level, (level < num_levels)%nat -> files_at v' level ≡ₚ apply_edit level (files_at v level) e) /\
    (forall level, pointers !! level = (fun key => pointer_after level key e) <$> compact_pointer_ vs !! level).
Proof.
  intros Hcur Hcp Hb. destruct (builder_ok v [e] _ Hb Hcp) as (b & cp' & Ea & Hl & Hp & Hf).
  unfold Apply_all in Ea. cbn [fold_res fst snd] in Ea. unfold build_version. rewrite Hcur. cbn [res_bind].
  destruct (Builder_Apply (NewBuilder v) (compact_pointer_ vs) e) as [p| |]; cbn [res_bind] in *; [|done|done].
  injection Ea as ->. cbn [fst snd]. eexists _, _. split; [done|].
  assert (Hlen : length (files_ (Finalize (SaveTo b NewVersion))) = num_levels).
  { unfold Finalize. destruct (foldl _ _ _). cbn [files_ SaveTo]. by rewrite length_imap. }
  split; [done|]. split; [done|]. split; [|split; [|done]].
  - intros level. destruct (decide (level < num_levels)%nat) as [Hlt|Hge].
    + rewrite Finalize_files. by apply Hf.
    + unfold files_at. rewrite nth_overflow by lia. constructor.
  - intros level Hlt. rewrite Finalize_files. by apply Hf.
Qed.

(** *** The state after it *)

Definition ids_ok vs : Prop := forall n, n ∈ versions_ vs -> vn_id n < next_id_ vs.

Lemma find_app_new (l : list VersionNode) id v :
  (forall n, n ∈ l -> vn_id n < id) -> List.find (fun n => vn_id n =? id) (l ++ [MkNode id 1 v]) = Some (MkNode id 1 v).
Proof.
  induction l as [|n l IH]; intros Hl; cbn; [by rewrite Z.eqb_refl|].
  assert (vn_id n < id) by (apply Hl; left). destruct (Z.eqb_spec (vn_id n) id); [lia|]. apply IH. intros m Hm. apply Hl. by right.
Qed.

Lemma AppendVersion_ok vs v : ids_ok vs -> current (AppendVersion vs v) = Ok v /\ ids_ok (AppendVersion vs v).
Proof.
  intros Hi. unfold AppendVersion.
  set (vs1 := match current_ vs with Some id => Version_Unref vs id | None => vs end).
  assert (H1 : next_id_ vs1 = next_id_ vs /\ ids_ok vs1).
  { unfold vs1. destruct (current_ vs) as [id|]; [|done]. split; [done|].
    intros n (m & Hm & -> & _)%unref_elem. by apply Hi. }
  destruct H1 as [En Hi1]. split.
  - unfold current, find_version. cbn [current_ versions_ set_versions]. by rewrite find_app_new.
  - intros n [Hn|Hn]%elem_of_app; cbn [next_id_ set_versions]; [specialize (Hi1 n Hn); lia|].
    apply list_elem_of_singleton in Hn as ->. cbn. lia.
Qed.

(** The snapshot that starts a descriptor. *)
Definition first_record (v : Version) (pointers : list bytes) : VersionEdit :=
  MkEdit cmp_Name 0 0 0 0 true false false false false (snapshot_pointers pointers) [] (snapshot_files (files_ v)).

(** The descriptor holds a snapshot of [v0] and the edits [written]; CURRENT names it;
    the current version and the counters are those after the edits. *)
Record logged (w : FS) vs (dbname : bytes) (v0 : Version) (pointers0 pointers1 : list bytes) (written : list VersionEdit) : Prop := {
  lg_ids : ids_ok vs;
  lg_manifest : 0 <= manifest_file_number_ vs;
  lg_log : exists d, descriptor_log_ vs = Some d /\
    holds_log w d (DescriptorFileName dbname (manifest_file_number_ vs)) (map encoded (first_record v0 pointers1 :: written));
  lg_current : contents w (CurrentFileName dbname) = Some ((str "MANIFEST-" ++ decimal6 (manifest_file_number_ vs)) ++ [x0a]);
  lg_version : exists v, current vs = Ok v /\ length (files_ v) = num_levels /\
    (forall level, StronglySorted precedes (files_at v level)) /\
    forall level, (level < num_levels)%nat -> files_at v level ≡ₚ foldl (apply_edit level) (files_at v0 level) written;
  lg_pointers : length (compact_pointer_ vs) = num_levels /\
    forall level, compact_pointer_ vs !! level = (fun key => foldl (pointer_after level) key written) <$> pointers0 !! level;
  lg_counters : exists es e, written = es ++ [e] /\ vs_log_number_ vs = log_number_ e /\ vs_prev_log_number_ vs = prev_log_number_ e /\
    vs_next_file_number_ vs = next_file_number_ e /\ vs_last_sequence_ vs = last_sequence_ e
}.

Definition counters_ok vs : Prop :=
  fits 64 (vs_log_number_ vs) /\ fits 64 (vs_prev_log_number_ vs) /\ fits 64 (vs_next_file_number_ vs) /\ fits 64 (vs_last_sequence_ vs).

Lemma SetNextFile_complete vs e : SetNextFile (complete_edit vs e) (vs_next_file_number_ vs) = complete_edit vs e.
Proof. done. Qed.

(** What [LogAndApply] did when it reports success. *)
Lemma LogAndApply_success w vs dbname e v w' vs' e' s :
  current vs = Ok v -> length (compact_pointer_ vs) = num_levels -> buildable v [complete_edit vs e] -> ids_ok vs ->
  LogAndApply w vs dbname e = Ok (w', vs', e', s) -> Status_ok s = true ->
  exists v' pointers w1 d1 new d2,
    build_version vs (complete_edit vs e) = Ok (v', pointers) /\
    open_descriptor w (set_pointers vs pointers) dbname = Ok (w1, d1, new, Status_OK) /\
    write_edit w1 (set_pointers vs pointers) dbname d1 new (complete_edit vs e) Status_OK = Ok (w', d2, s) /\
    vs' = set_logs (AppendVersion (set_descriptor (set_pointers vs pointers) d2) v')
            (log_number_ (complete_edit vs e)) (prev_log_number_ (complete_edit vs e)).
Proof.
  intros Hcur Hcp Hb Hids. unfold LogAndApply. set (c := complete_edit vs e) in *.
  destruct (build_version_ok vs c v Hcur Hcp Hb) as (v' & pointers & -> & _). cbn [res_bind].
  assert (Ec : match descriptor_log_ (set_pointers vs pointers) with None => SetNextFile c (vs_next_file_number_ (set_pointers vs pointers)) | Some _ => c end = c).
  { destruct (descriptor_log_ _); [done|]. exact (SetNextFile_complete vs e). }
  rewrite Ec. destruct (open_descriptor w (set_pointers vs pointers) dbname) as [[[[w1 d1] new] s1]| |] eqn:Eo; cbn [res_bind]; [|done|done].
  destruct (Status_ok s1) eqn:Es1.
  - assert (s1 = Status_OK) as -> by by destruct s1.
    destruct (write_edit w1 (set_pointers vs pointers) dbname d1 new c Status_OK) as [[[w2 d2] s2]| |] eqn:Ew; cbn [res_bind]; [|done|done].
    destruct (Status_ok s2) eqn:Es2; [|by destruct new; intros [= <- <- <- <-] Hs; congruence].
    intros [= <- <- <- <-] _. by exists v', pointers, w1, d1, new, d2.
  - unfold write_edit. rewrite Es1. cbn [res_bind]. rewrite Es1. cbn [andb res_bind]. rewrite Es1.
    destruct new; intros [= <- <- <- <-] Hs; congruence.
Qed.

Lemma buildable_same v c e : same_files c e -> buildable v [e] -> buildable v [c].
Proof.
  intros Hs [H1 H2 H3]. split; [done| |].
  - intros x ->%list_elem_of_singleton. destruct (H2 e ltac:(left)) as [L1 L2 L3]. destruct Hs as (E1 & E2 & E3).
    split; by rewrite ?E1, ?E2, ?E3.
  - intros level. cbn in *. rewrite (same_new level c e Hs). apply H3.
Qed.

Lemma buildable_perm v' es : length (files_ v') = num_levels ->
  (forall level, StronglySorted precedes (files_at v' level)) ->
  (forall level, (level < num_levels)%nat -> NoDup (number <$> files_at v' level ++ concat (map (new_at level) es))) ->
  (forall e, e ∈ es -> levels_ok e) -> buildable v' es.
Proof.
  intros Hl Hs Hn He. split; [done|done|]. intros level. destruct (decide (level < num_levels)%nat) as [|Hge]; [by apply Hn|].
  unfold files_at. rewrite nth_overflow by lia. cbn [app].
  assert (En : concat (map (new_at level) es) = []); [|by rewrite En; constructor].
  clear Hn. induction es as [|e es IH]; [done|]. cbn. rewrite IH by (intros x Hx; apply He; by right). rewrite app_nil_r.
  unfold new_at. destruct (at_level level (new_files_ e)) as [|x l] eqn:Ea; [done|]. exfalso.
  assert (Hx : (Z.of_nat level, x) ∈ new_files_ e) by (apply elem_of_at_level; rewrite Ea; left).
  apply (lo_new _ (He e ltac:(left))) in Hx. cbn in Hx. lia.
Qed.

(** The state after the write, whether the descriptor was there or is new. *)
Lemma installed w' vs vs' dbname v0 pointers0 pointers1 written c v' pointers d2 :
  ids_ok vs -> 0 <= manifest_file_number_ vs ->
  vs' = set_logs (AppendVersion (set_descriptor (set_pointers vs pointers) (Some d2)) v') (log_number_ c) (prev_log_number_ c) ->
  holds_log w' d2 (DescriptorFileName dbname (manifest_file_number_ vs)) (map encoded (first_record v0 pointers1 :: written ++ [c])) ->
  contents w' (CurrentFileName dbname) = Some ((str "MANIFEST-" ++ decimal6 (manifest_file_number_ vs)) ++ [x0a]) ->
  length (files_ v') = num_levels -> (forall level, StronglySorted precedes (files_at v' level)) ->
  (forall level, (level < num_levels)%nat -> files_at v' level ≡ₚ foldl (apply_edit level) (files_at v0 level) (written ++ [c])) ->
  length pointers = num_levels ->
  (forall level, pointers !! level = (fun key => foldl (pointer_after level) key (written ++ [c])) <$> pointers0 !! level) ->
  next_file_number_ c = vs_next_file_number_ vs -> last_sequence_ c = vs_last_sequence_ vs ->
  logged w' vs' dbname v0 pointers0 pointers1 (written ++ [c]).
Proof.
  intros Hids Hm -> Hlog Hcur Hl Hs Hf Hp Hpl Hn Hseq.
  set (vs1 := set_descriptor (set_pointers vs pointers) (Some d2)).
  destruct (AppendVersion_ok vs1 v' Hids) as [Hc Hi].
  assert (Ex : forall A (g : VersionSet.VersionSet WFile -> A), (forall x l id cur, g (set_versions x l id cur) = g x) ->
    g (AppendVersion vs1 v') = g vs1).
  { intros A g Hg. unfold AppendVersion, Version_Unref. by destruct (current_ vs1); rewrite !Hg. }
  split; cbn [manifest_file_number_ set_logs descriptor_log_ compact_pointer_ vs_log_number_ vs_prev_log_number_ vs_next_file_number_ vs_last_sequence_].
  - exact Hi.
  - by rewrite (Ex _ manifest_file_number_).
  - rewrite (Ex _ descriptor_log_), (Ex _ manifest_file_number_) by done. by exists d2.
  - by rewrite (Ex _ manifest_file_number_).
  - exists v'. by split_and!.
  - by rewrite (Ex _ compact_pointer_).
  - exists written, c. rewrite (Ex _ vs_next_file_number_), (Ex _ vs_last_sequence_) by done. by split_and!.
Qed.

(** ** Runs *)

(** An edit, with the next file number and the last sequence number there are when it is
    logged: clients take numbers between edits. *)
Definition log_edit (w : FS) vs (dbname : bytes) (p : Z * Z * VersionEdit) : res (FS * VersionSet.VersionSet WFile * VersionEdit * Status) :=
  LogAndApply w (set_sequence (set_next_file vs p.1.1) p.1.2) dbname p.2.

(** Logs the edits in turn, as long as that succeeds. *)
Fixpoint log_edits (w : FS) vs (dbname : bytes) (ps : list (Z * Z * VersionEdit)) : res (FS * VersionSet.VersionSet WFile * bool) :=
  match ps with
  | [] => Ok (w, vs, true)
  | p :: ps =>
      let? r := log_edit w vs dbname p in
      let '(w, vs, _, s) := r in
      if Status_ok s then log_edits w vs dbname ps else Ok (w, vs, false)
  end.

(** What is written for an entry. *)
Definition written_as (c : VersionEdit) (p : Z * Z * VersionEdit) : Prop :=
  loggable c /\ same_files c p.2 /\ has_log_number_ c = true /\ has_prev_log_number_ c = true /\
  has_next_file_number_ c = true /\ has_last_sequence_ c = true.

Definition entry_ok (p : Z * Z * VersionEdit) : Prop := loggable p.2 /\ fits 64 p.1.1 /\ fits 64 p.1.2.

Lemma apply_sublist level es : forall files,
  foldl (apply_edit level) files es `sublist_of` files ++ concat (map (new_at level) es).
Proof.
  induction es as [|e es IH]; intros files; cbn [foldl map concat]; [by rewrite app_nil_r|].
  etrans; [apply IH|]. rewrite app_assoc. apply sublist_app; [|done]. unfold apply_edit, new_at.
  apply sublist_app; [apply sublist_filter|done].
Qed.

Lemma sublist_fmap {A B} (g : A -> B) l l' : l `sublist_of` l' -> g <$> l `sublist_of` g <$> l'.
Proof. induction 1; cbn; by constructor. Qed.

(** The next edit can be built on the current version. *)
Lemma next_buildable v v0 written e rest :
  length (files_ v) = num_levels -> (forall level, StronglySorted precedes (files_at v level)) ->
  (forall level, (level < num_levels)%nat -> files_at v level ≡ₚ foldl (apply_edit level) (files_at v0 level) written) ->
  buildable v0 (written ++ e :: rest) -> buildable v [e].
Proof.
  intros Hl Hs Hf [_ He Hn]. apply buildable_perm; [done..| |].
  - intros level Hlevel. rewrite (Hf level Hlevel). specialize (Hn level). rewrite (map_app (new_at level)), List.concat_app, app_assoc in Hn.
    eapply sublist_NoDup; [exact Hn|]. apply sublist_fmap, sublist_app; [apply apply_sublist|]. cbn [map concat].
    apply sublist_app; [done|]. apply sublist_nil_l.
  - intros x ->%list_elem_of_singleton. apply He. apply elem_of_app. right. left.
Qed.

Lemma counters_set vs p : counters_ok vs -> entry_ok p -> counters_ok (set_sequence (set_next_file vs p.1.1) p.1.2).
Proof. intros (H1 & H2 & _ & _) (_ & H3 & H4). done. Qed.

(** The first edit opens the descriptor. *)
Lemma first_logged w vs dbname v0 p w' vs' e' s :
  descriptor_log_ vs = None -> current vs = Ok v0 -> saved_ok v0 (compact_pointer_ vs) -> ids_ok vs -> counters_ok vs ->
  0 <= manifest_file_number_ vs -> buildable v0 [p.2] -> entry_ok p ->
  log_edit w vs dbname p = Ok (w', vs', e', s) -> Status_ok s = true ->
  exists pointers1 c, written_as c p /\ manifest_file_number_ vs' = manifest_file_number_ vs /\ counters_ok vs' /\
    length pointers1 = num_levels /\
    (forall level, pointers1 !! level = (fun key => pointer_after level key c) <$> compact_pointer_ vs !! level) /\
    logged w' vs' dbname v0 (compact_pointer_ vs) pointers1 [c].
Proof.
  intros Hd Hcur Hsv Hids Hcnt Hm Hb He Hlog Hok. unfold log_edit in Hlog.
  set (vs1 := set_sequence (set_next_file vs p.1.1) p.1.2) in *. pose proof (counters_set vs p Hcnt He) as Hcnt1. fold vs1 in Hcnt1.
  destruct He as [Hla [Hf1 Hf2]]. destruct (complete_edit_ok vs1 p.2 Hla) as (C1 & C2 & C3 & C4 & C5 & C6 & C7 & C8); [apply Hcnt1..|].
  set (c := complete_edit vs1 p.2) in *. pose proof (buildable_same v0 c p.2 C2 Hb) as Hbc.
  destruct (LogAndApply_success w vs1 dbname p.2 v0 w' vs' e' s) as (v' & ptrs & w1 & d1 & new & d2 & Ebv & Eo & Ew & Evs); [done|apply Hsv|done..|].
  fold c in Ebv, Ew, Evs. destruct (build_version_ok vs1 c v0) as (v1 & ptrs1 & Eb1 & L1 & L2 & S1 & F1 & P1); [done|apply Hsv|done|].
  rewrite Ebv in Eb1. injection Eb1 as <- <-.
  destruct (open_descriptor_new w (set_pointers vs1 ptrs) dbname v0) as (w1' & d1' & s1 & Eo' & Hopen); [done|done|].
  rewrite Eo in Eo'. injection Eo' as <- <- -> <-. destruct (Hopen eq_refl) as (d & -> & Hholds).
  rewrite snapshot_edit_eq in Hholds. cbn [compact_pointer_ set_pointers manifest_file_number_] in Hholds.
  destruct (write_edit_ok w1 (set_pointers vs1 ptrs) dbname d _ (DescriptorFileName dbname (manifest_file_number_ (set_pointers vs1 ptrs))) c _ Hholds eq_refl Hm)
    as (w2 & d2' & s2 & Ew' & Hwrite).
  pose proof (eq_trans (eq_sym Ew) Ew') as Ew2. injection Ew2 as <- -> <-. destruct (Hwrite Hok) as [Hlog2 Hcur2].
  exists ptrs, c. split; [done|]. split_and!; [|  |done|done|].
  - subst vs'. unfold AppendVersion, Version_Unref. cbn. by destruct (current_ vs).
  - subst vs'. unfold counters_ok, AppendVersion, Version_Unref. destruct C1 as [[_ Hl Hp _ _ _ _ _ _] _].
    rewrite C3 in Hl. rewrite C4 in Hp. cbn. by destruct (current_ vs).
  - apply (installed w' vs1 vs' dbname v0 (compact_pointer_ vs) ptrs [] c v' ptrs d2'); try done.
    rewrite decide_False in Hcur2 by (unfold DescriptorFileName; by destruct dbname). exact Hcur2.
Qed.

(** The others append to it. *)
Lemma next_logged w vs dbname v0 pointers0 pointers1 written rest p w' vs' e' s :
  logged w vs dbname v0 pointers0 pointers1 written -> counters_ok vs -> buildable v0 (written ++ p.2 :: rest) -> entry_ok p ->
  log_edit w vs dbname p = Ok (w', vs', e', s) -> Status_ok s = true ->
  exists c, written_as c p /\ manifest_file_number_ vs' = manifest_file_number_ vs /\ counters_ok vs' /\
    logged w' vs' dbname v0 pointers0 pointers1 (written ++ [c]).
Proof.
  intros [Hids Hm (d & Hd & Hholds) Hcur (v & Hv & Hl & Hs & Hf) (Hpl & Hp) _] Hcnt Hb He Hlog Hok. unfold log_edit in Hlog.
  set (vs1 := set_sequence (set_next_file vs p.1.1) p.1.2) in *. pose proof (counters_set vs p Hcnt He) as Hcnt1. fold vs1 in Hcnt1.
  destruct He as [Hla [Hf1 Hf2]]. destruct (complete_edit_ok vs1 p.2 Hla) as (C1 & C2 & C3 & C4 & C5 & C6 & C7 & C8); [apply Hcnt1..|].
  set (c := complete_edit vs1 p.2) in *. pose proof (buildable_same v c p.2 C2 (next_buildable _ _ _ _ _ Hl Hs Hf Hb)) as Hbc.
  destruct (LogAndApply_success w vs1 dbname p.2 v w' vs' e' s) as (v' & ptrs & w1 & d1 & new & d2 & Ebv & Eo & Ew & Evs); [done..|].
  fold c in Ebv, Ew, Evs. destruct (build_version_ok vs1 c v) as (v1 & ptrs1 & Eb1 & L1 & L2 & S1 & F1 & P1); [done..|].
  rewrite Ebv in Eb1. injection Eb1 as <- <-.
  unfold open_descriptor in Eo. cbn [descriptor_log_ set_pointers] in Eo. change (descriptor_log_ vs1) with (descriptor_log_ vs) in Eo.
  rewrite Hd in Eo. injection Eo as <- <- <-.
  destruct (write_edit_ok w (set_pointers vs1 ptrs) dbname d _ [] c _ Hholds eq_refl Hm) as (w2 & d2' & s2 & Ew' & Hwrite).
  pose proof (eq_trans (eq_sym Ew) Ew') as Ew2. injection Ew2 as <- -> <-. destruct (Hwrite Hok) as [Hlog2 Hcur2].
  exists c. split; [done|]. split_and!.
  - subst vs'. unfold AppendVersion, Version_Unref. cbn. by destruct (current_ vs).
  - subst vs'. unfold counters_ok, AppendVersion, Version_Unref. destruct C1 as [[_ Hll Hpp _ _ _ _ _ _] _].
    rewrite C3 in Hll. rewrite C4 in Hpp. cbn. by destruct (current_ vs).
  - apply (installed w' vs1 vs' dbname v0 pointers0 pointers1 written c v' ptrs d2'); try done.
    + cbn [map] in *. rewrite map_app. exact Hlog2.
    + by rewrite Hcur2, decide_True.
    + intros level Hlevel. rewrite foldl_app. cbn [foldl]. rewrite (F1 level Hlevel). unfold apply_edit at 1 2.
      apply Permutation_app_tail. by rewrite (Hf level Hlevel).
    + intros level. rewrite P1. change (compact_pointer_ vs1) with (compact_pointer_ vs). rewrite Hp.
      destruct (pointers0 !! level); cbn; [|done]. by rewrite foldl_app.
Qed.

Lemma buildable_replace v l1 l2 c e : same_files c e -> buildable v (l1 ++ e :: l2) -> buildable v (l1 ++ c :: l2).
Proof.
  intros Hs [H1 H2 H3]. split; [done| |].
  - intros x Hx. apply elem_of_app in Hx as [Hx|Hx]; [apply H2, elem_of_app; by left|].
    apply elem_of_cons in Hx as [->|Hx]; [|apply H2, elem_of_app; right; by right].
    destruct (H2 e) as [L1 L2 L3]; [apply elem_of_app; right; left|]. destruct Hs as (E1 & E2 & E3). split; by rewrite ?E1, ?E2, ?E3.
  - intros level. specialize (H3 level). rewrite (map_app (new_at level)) in *. cbn [map] in *. by rewrite (same_new level c e Hs).
Qed.

Lemma rest_logged dbname v0 pointers0 pointers1 ps : forall w vs written w' vs',
  logged w vs dbname v0 pointers0 pointers1 written -> counters_ok vs -> Forall entry_ok ps ->
  buildable v0 (written ++ map snd ps) -> log_edits w vs dbname ps = Ok (w', vs', true) ->
  exists cs, Forall2 written_as cs ps /\
    forall n, (n <= length ps)%nat -> exists wn vsn, log_edits w vs dbname (take n ps) = Ok (wn, vsn, true) /\
      manifest_file_number_ vsn = manifest_file_number_ vs /\ logged wn vsn dbname v0 pointers0 pointers1 (written ++ take n cs).
Proof.
  induction ps as [|p ps IH]; intros w vs written w' vs' Hlg Hcnt Hok Hb Hrun.
  { exists []. split; [constructor|]. intros n Hn. cbn in Hn. exists w, vs. assert (n = O) as -> by lia. by rewrite app_nil_r. }
  apply list.Forall_cons in Hok as [Hp Hok]. cbn [log_edits map] in *.
  destruct (log_edit w vs dbname p) as [[[[w1 vs1] e1] s1]| |] eqn:Ep; cbn [res_bind] in Hrun; [|done|done].
  destruct (Status_ok s1) eqn:Es; [|congruence].
  destruct (next_logged w vs dbname v0 pointers0 pointers1 written (map snd ps) p w1 vs1 e1 s1 Hlg Hcnt Hb Hp Ep Es)
    as (c & Hc & Hm & Hcnt1 & Hlg1).
  assert (Hb1 : buildable v0 ((written ++ [c]) ++ map snd ps)).
  { rewrite <- app_assoc. apply (buildable_replace _ _ _ _ p.2); [apply Hc|done]. }
  destruct (IH w1 vs1 (written ++ [c]) w' vs' Hlg1 Hcnt1 Hok Hb1 Hrun) as (cs & Hcs & Hn). exists (c :: cs). split; [by constructor|].
  intros [|n] Hlen.
  - exists w, vs. by rewrite app_nil_r.
  - destruct (Hn n ltac:(cbn in Hlen; lia)) as (wn & vsn & E1 & E2 & E3). exists wn, vsn. cbn [take log_edits]. rewrite Ep. cbn [res_bind].
    rewrite Es. split; [done|]. split; [congruence|]. by rewrite <- app_assoc in E3.
Qed.

(** Where a run may start: no descriptor is open. *)
Record startable vs (v0 : Version) : Prop := {
  sb_descriptor : descriptor_log_ vs = None;
  sb_current : current vs = Ok v0;
  sb_saved : saved_ok v0 (compact_pointer_ vs);
  sb_ids : ids_ok vs;
  sb_counters : counters_ok vs;
  sb_manifest : fits 64 (manifest_file_number_ vs)
}.

Lemma run_logged w vs dbname v0 ps w' vs' :
  startable vs v0 -> Forall entry_ok ps -> buildable v0 (map snd ps) ->
  log_edits w vs dbname ps = Ok (w', vs', true) ->
  exists pointers1 cs, Forall2 written_as cs ps /\ length pointers1 = num_levels /\
    (forall c rest level, cs = c :: rest -> pointers1 !! level = (fun key => pointer_after level key c) <$> compact_pointer_ vs !! level) /\
    forall n, (1 <= n <= length ps)%nat -> exists wn vsn, log_edits w vs dbname (take n ps) = Ok (wn, vsn, true) /\
      manifest_file_number_ vsn = manifest_file_number_ vs /\ logged wn vsn dbname v0 (compact_pointer_ vs) pointers1 (take n cs).
Proof.
  intros [Hd Hcur Hsv Hids Hcnt Hm] Hok Hb Hrun. destruct ps as [|p ps].
  { exists (compact_pointer_ vs), []. split; [constructor|]. split; [apply Hsv|]. split; [done|]. cbn. lia. }
  apply list.Forall_cons in Hok as [Hp Hok]. cbn [log_edits map] in *.
  destruct (log_edit w vs dbname p) as [[[[w1 vs1] e1] s1]| |] eqn:Ep; cbn [res_bind] in Hrun; [|done|done].
  destruct (Status_ok s1) eqn:Es; [|congruence].
  assert (Hb0 : buildable v0 [p.2]).
  { apply (next_buildable v0 v0 [] p.2 (map snd ps)); [apply Hsv|apply Hb|done|done]. }
  destruct (first_logged w vs dbname v0 p w1 vs1 e1 s1 Hd Hcur Hsv Hids Hcnt ltac:(unfold fits in Hm; lia) Hb0 Hp Ep Es)
    as (pointers1 & c & Hc & Hm1 & Hcnt1 & Hlp & Hpt & Hlg1).
  destruct (rest_logged dbname v0 _ pointers1 ps w1 vs1 [c] w' vs' Hlg1 Hcnt1 Hok) as (cs & Hcs & Hn);
    [apply (buildable_replace _ [] _ c p.2); [apply Hc|done]|done|].
  exists pointers1, (c :: cs). split; [by constructor|]. split; [done|]. split; [by intros c' rest level [= <- <-]|].
  intros [|n] Hlen; [lia|]. destruct (Hn n ltac:(cbn in Hlen; lia)) as (wn & vsn & E1 & E2 & E3). exists wn, vsn.
  cbn [take log_edits]. rewrite Ep. cbn [res_bind]. rewrite Es. split; [done|]. split; [congruence|]. done.
Qed.
End run.

(** ** Recovery *)

Section recovery.
Context `{C : Comparator} `{!ComparatorLaws C} `{FL : FileEnvLaws}.
Context (char_is_signed : bool).

Definition last_of (has : VersionEdit -> bool) (n : VersionEdit -> Z) (old : option Z) (es : list VersionEdit) : option Z :=
  foldl (fun old e => keep_last (has e) (n e) old) old es.

(** The variables after the edits. *)
Definition after_edits (st : Recovery) (es : list VersionEdit) (p : Builder * list bytes) : Recovery :=
  MkRecovery p.1 p.2 (last_of has_log_number_ log_number_ (rc_log_number st) es)
    (last_of has_prev_log_number_ prev_log_number_ (rc_prev_log_number st) es)
    (last_of has_next_file_number_ next_file_number_ (rc_next_file st) es)
    (last_of has_last_sequence_ last_sequence_ (rc_last_sequence st) es).

Lemma recover_record_ok st e p :
  loggable e -> Builder_Apply (rc_builder st) (rc_pointers st) e = Ok p ->
  recover_record st (encoded e) = Ok (after_edits st [e] p, Status_OK).
Proof.
  intros [He Hc] Hp. unfold recover_record, encoded. rewrite EncodeTo_fields. cbn [app]. rewrite edit_decodes by done. cbn [res_bind Status_ok Status_OK].
  assert (E0 : has_comparator_ e && negb (bool_decide (comparator_ e = cmp_Name)) = false).
  { destruct (has_comparator_ e); [|done]. by rewrite bool_decide_eq_true_2 by by apply Hc. }
  rewrite E0. cbn [Status_ok Status_OK]. rewrite Hp. done.
Qed.

Lemma recover_loop_ok fuel : forall (r : Reader SFile) st r' es p,
  ReadAll char_is_signed fuel r = Some (r', map encoded es) -> reports r' = [] -> (forall e, e ∈ es -> loggable e) ->
  Apply_all (rc_builder st) (rc_pointers st) es = Ok p ->
  recover_loop char_is_signed fuel r st Status_OK = Ok (after_edits st es p, Status_OK).
Proof.
  induction fuel as [|fuel IH]; intros r st r' es p Hr Hrep Hes Hp; [done|]. cbn [ReadAll] in Hr. cbn [recover_loop].
  destruct (ReadRecord char_is_signed (S fuel) r) as [[r1 [record|]]|] eqn:E1; [| |done].
  - destruct (ReadAll char_is_signed fuel r1) as [[r2 records]|] eqn:E2; [|done]. destruct es as [|e es]; [done|]. cbn [map] in Hr.
    injection Hr as -> -> ->. rewrite (grows_none r1 r') by (done || by apply (ReadAll_grows char_is_signed fuel r1 r' _ E2)).
    cbn [reported foldl Status_ok Status_OK negb]. unfold Apply_all in Hp. cbn [fold_res fst snd] in Hp.
    destruct (Builder_Apply (rc_builder st) (rc_pointers st) e) as [p1| |] eqn:Eb; cbn [res_bind] in Hp; [|done|done].
    rewrite (recover_record_ok st e p1) by (done || apply Hes; left). cbn [res_bind fst snd].
    rewrite (IH r1 (after_edits st [e] p1) r' es p); [done|done|done|intros x Hx; apply Hes; by right|]. destruct p1. exact Hp.
  - destruct es as [|e es]; [|done]. injection Hr as ->. rewrite Hrep. cbn. unfold Apply_all in Hp. cbn in Hp. injection Hp as <-. by destruct st.
Qed.

Lemma last_of_snoc has n old es e : has e = true -> last_of has n old (es ++ [e]) = Some (n e).
Proof. intros H. unfold last_of. rewrite foldl_app. cbn. by rewrite H. Qed.

(** Installing what was read, once the counters are known. *)
Lemma recover_install_spec w vs reuse_logs max_file_size dscname name st log next last save :
  ids_ok vs -> rc_log_number st = Some log -> rc_next_file st = Some next -> rc_last_sequence st = Some last ->
  exists w' vs' save', recover_install w vs reuse_logs max_file_size dscname name st Status_OK save = (w', vs', Status_OK, save') /\
    current vs' = Ok (Finalize (SaveTo (rc_builder st) NewVersion)) /\ compact_pointer_ vs' = rc_pointers st /\
    vs_log_number_ vs' = log /\ vs_prev_log_number_ vs' = default 0 (rc_prev_log_number st) /\ vs_last_sequence_ vs' = last /\
    vs_next_file_number_ vs' = u64 (next + 1).
Proof.
  intros Hids H1 H2 H3. unfold recover_install. rewrite H1, H2, H3. cbn [Status_ok Status_OK negb default].
  set (vs0 := MarkFileNumberUsed (MarkFileNumberUsed (set_pointers vs (rc_pointers st)) (default 0 (rc_prev_log_number st))) log).
  assert (H0 : ids_ok vs0 /\ compact_pointer_ vs0 = rc_pointers st).
  { unfold vs0, MarkFileNumberUsed. by destruct (_ <=? log), (_ <=? default 0 _). }
  destruct H0 as [Hids0 Hp0]. destruct (AppendVersion_ok vs0 (Finalize (SaveTo (rc_builder st) NewVersion)) Hids0) as [Hc _].
  assert (Hp1 : compact_pointer_ (AppendVersion vs0 (Finalize (SaveTo (rc_builder st) NewVersion))) = rc_pointers st).
  { unfold AppendVersion, Version_Unref. by destruct (current_ vs0). }
  set (vs1 := set_logs _ _ _).
  assert (Hr : exists w' vs' b, ReuseManifest w vs1 reuse_logs max_file_size dscname name = (w', vs', b) /\
    current vs' = current vs1 /\ compact_pointer_ vs' = compact_pointer_ vs1 /\ vs_log_number_ vs' = vs_log_number_ vs1 /\
    vs_prev_log_number_ vs' = vs_prev_log_number_ vs1 /\ vs_last_sequence_ vs' = vs_last_sequence_ vs1 /\
    vs_next_file_number_ vs' = vs_next_file_number_ vs1).
  { unfold ReuseManifest. destruct (negb reuse_logs); [by eexists _, _, _|]. destruct (ParseFileName name) as [[n []]|]; try by eexists _, _, _.
    destruct (env_GetFileSize w dscname); [|by eexists _, _, _]. destruct (_ >=? _); [by eexists _, _, _|].
    destruct (env_NewAppendableFile w dscname) as [w1 [f|]]; by eexists _, _, _. }
  destruct Hr as (w' & vs' & b & -> & G1 & G2 & G3 & G4 & G5 & G6). eexists _, _, _. split; [done|].
  rewrite G1, G2, G3, G4, G5, G6. unfold vs1. by split_and!.
Qed.

(** Installing what the edits gave. *)
Lemma recover_install_ok w vs reuse_logs max_file_size dscname name st es e p save :
  ids_ok vs -> has_log_number_ e = true -> has_prev_log_number_ e = true -> has_next_file_number_ e = true -> has_last_sequence_ e = true ->
  exists w' vs' save', recover_install w vs reuse_logs max_file_size dscname name (after_edits st (es ++ [e]) p) Status_OK save
      = (w', vs', Status_OK, save') /\
    current vs' = Ok (Finalize (SaveTo p.1 NewVersion)) /\ compact_pointer_ vs' = p.2 /\
    vs_log_number_ vs' = log_number_ e /\ vs_prev_log_number_ vs' = prev_log_number_ e /\ vs_last_sequence_ vs' = last_sequence_ e /\
    vs_next_file_number_ vs' = u64 (next_file_number_ e + 1).
Proof.
  intros Hids H1 H2 H3 H4.
  destruct (recover_install_spec w vs reuse_logs max_file_size dscname name (after_edits st (es ++ [e]) p) (log_number_ e)
    (next_file_number_ e) (last_sequence_ e) save Hids) as (w' & vs' & save' & E1 & G1 & G2 & G3 & G4 & G5 & G6); [by apply last_of_snoc..|].
  exists w', vs', save'. cbn [after_edits rc_prev_log_number] in G4. rewrite last_of_snoc in G4 by done. done.
Qed.

(** Reading CURRENT leads to the descriptor. *)
Lemma Recover_opens fuel w vs dbname reuse_logs max_file_size save name kept base :
  (forall (f : SFile) n, Status_ok (sf_Read f n).2 = true) ->
  contents w (CurrentFileName dbname) = Some (name ++ [x0a]) -> contents w (dbname ++ str "/" ++ name) = Some kept ->
  (length name + 1 < fuel)%nat -> current vs = Ok base ->
  exists g, sf_rest g = kept /\ Recover char_is_signed fuel w vs dbname reuse_logs max_file_size save =
    let? r := recover_loop char_is_signed fuel (NewReader g true true 0)
      (MkRecovery (NewBuilder base) (compact_pointer_ vs) None None None None) Status_OK in
    Ok (recover_install w vs reuse_logs max_file_size (dbname ++ str "/" ++ name) name r.1 r.2 save).
Proof.
  intros Hrel Hcur Hdesc Hfuel Hbase. destruct (fe_read _ _ _ Hcur) as (g0 & E0 & R0). destruct (fe_read _ _ _ Hdesc) as (g & E1 & R1).
  exists g. split; [done|]. unfold Recover. rewrite E0. cbn [ReadFileToString].
  destruct (ReadFileToString_loop_ok fuel g0 []) as (data & s & -> & Hd & Hs).
  { rewrite R0, length_app. cbn [length]. lia. }
  specialize (Hs Hrel). specialize (Hd Hs). rewrite R0 in Hd. cbn [app] in Hd. subst data. cbn [res_bind]. rewrite Hs. cbn [negb].
  rewrite bool_decide_eq_true_2 by apply last_snoc. cbn [negb].
  replace (length (name ++ [x0a]) - 1)%nat with (length name) by (rewrite length_app; cbn [length]; lia).
  rewrite take_app_length, E1, Hbase. done.
Qed.
End recovery.

(** ** Recovery after a crash *)

Section crash.
Context `{C : Comparator} `{!ComparatorLaws C} `{FL : FileEnvLaws}.
Context (char_is_signed : bool).
Implicit Type vs : VersionSet.VersionSet WFile.

#[local] Instance precedes_antisymm : AntiSymm (=) precedes.
Proof. intros f g H1 H2. by destruct (precedes_irrefl f (precedes_trans f g f H1 H2)). Qed.

(** Two versions with the same files in order have the same levels. *)
Lemma levels_eq v v' :
  length (files_ v) = num_levels -> length (files_ v') = num_levels ->
  (forall level, (level < num_levels)%nat -> StronglySorted precedes (files_at v level) /\
     StronglySorted precedes (files_at v' level) /\ files_at v level ≡ₚ files_at v' level) ->
  forall level, files_at v level = files_at v' level.
Proof.
  intros Hl Hl' H level. destruct (decide (level < num_levels)%nat) as [Hlt|Hge].
  - destruct (H level Hlt) as (H1 & H2 & H3). by apply (StronglySorted_unique precedes).
  - unfold files_at. rewrite !nth_overflow by lia. done.
Qed.

Lemma built_snapshot level v pointers :
  saved_ok v pointers -> new_at level (first_record v pointers) = files_at v level.
Proof.
  intros [_ Hf _ _]. unfold new_at, first_record. cbn [new_files_]. rewrite snapshot_files_at. fold (files_at v level).
  specialize (Hf level). induction (files_at v level) as [|f l IH]; [done|]. cbn [map]. f_equal.
  - apply (Hf f). left.
  - apply IH. intros g Hg. apply Hf. by right.
Qed.

Lemma written_new ps cs level : Forall2 written_as cs ps -> map (new_at level) cs = map (new_at level) (map snd ps).
Proof. induction 1 as [|c p cs ps Hc _ IH]; cbn; [done|]. rewrite IH. f_equal. apply same_new, Hc. Qed.

Lemma NewVersion_files level : files_at NewVersion level = [].
Proof.
  unfold files_at, NewVersion. cbn [files_]. rewrite nth_lookup. destruct (_ !! level) eqn:El; [|done].
  by apply lookup_replicate_1 in El as [-> _].
Qed.

(** The edits a recovery applies to an empty version. *)
Lemma recovery_buildable v0 pointers0 pointers1 ps cs n :
  fits 32 (size cmp_Name) -> saved_ok v0 pointers0 -> saved_ok v0 pointers1 -> buildable v0 (map snd ps) -> Forall2 written_as cs ps ->
  buildable NewVersion (first_record v0 pointers1 :: take n cs) /\
  (forall e, e ∈ first_record v0 pointers1 :: take n cs -> loggable e).
Proof.
  intros Hname Hs0 Hs1 [_ _ Hfresh] Hcs.
  assert (Hla : forall e, e ∈ first_record v0 pointers1 :: take n cs -> loggable e).
  { intros e [->|He]%elem_of_cons; [split; [by apply snapshot_ok|done]|].
    apply elem_of_take in He as (i & Hi & _). destruct (Forall2_lookup_l _ _ _ _ _ Hcs Hi) as (p & _ & Hp). apply Hp. }
  split; [|done]. apply buildable_perm.
  - done.
  - intros level. rewrite NewVersion_files. constructor.
  - intros level Hlevel. rewrite NewVersion_files. cbn [app map concat]. rewrite (built_snapshot level v0 pointers1 Hs1). eapply sublist_NoDup; [apply (Hfresh level)|].
    apply sublist_fmap, sublist_app; [done|]. rewrite <- (written_new ps cs level Hcs).
    rewrite <- (take_drop n cs) at 2. rewrite (map_app (new_at level)), List.concat_app. apply sublist_inserts_r. done.
  - intros e He. by apply edit_levels_ok, Hla.
Qed.

(** Keys of pointers that edits set can be encoded. *)
Lemma pointer_key_ok c key : edit_ok c -> key = [] \/ key_ok key -> forall level, pointer_after level key c = [] \/ key_ok (pointer_after level key c).
Proof.
  intros Hc Hk level. unfold pointer_after. pose proof (ok_compact_pointers _ Hc) as Hp. rewrite list.Forall_forall in Hp.
  assert (Hin : forall k, k ∈ at_level level (compact_pointers_ c) -> key_ok k).
  { intros k Hkin. apply elem_of_at_level in Hkin. by apply (Hp _ Hkin). }
  revert key Hk Hin. generalize (at_level level (compact_pointers_ c)). intros l. induction l as [|k l IH]; intros key Hk Hin; cbn; [done|].
  apply IH; [right; apply Hin; left|]. intros k' Hk'. apply Hin. by right.
Qed.

Lemma pointer_after_idem level key c : pointer_after level (pointer_after level key c) c = pointer_after level key c.
Proof.
  unfold pointer_after. generalize (at_level level (compact_pointers_ c)). intros l.
  destruct l as [|k l] using rev_ind; [done|]. by rewrite !foldl_app.
Qed.

Lemma snapshot_pointer level v pointers :
  pointer_after level [] (first_record v pointers) = nth level pointers [].
Proof. unfold pointer_after, first_record. cbn [compact_pointers_]. rewrite snapshot_pointers_at. by destruct (nth level pointers []). Qed.

(** Applying the snapshot and the edits to an empty version gives what the run had. *)
Lemma recovered_state wn vsn dbname v0 pointers0 pointers1 c rest :
  saved_ok v0 pointers0 -> length pointers1 = num_levels ->
  (forall level, pointers1 !! level = (fun key => pointer_after level key c) <$> pointers0 !! level) ->
  saved_ok v0 pointers1 -> buildable NewVersion (first_record v0 pointers1 :: c :: rest) ->
  logged wn vsn dbname v0 pointers0 pointers1 (c :: rest) ->
  exists b vn, Apply_all (NewBuilder NewVersion) (replicate num_levels []) (first_record v0 pointers1 :: c :: rest) = Ok (b, compact_pointer_ vsn) /\
    current vsn = Ok vn /\ forall level, files_at (Finalize (SaveTo b NewVersion)) level = files_at vn level.
Proof.
  intros Hs0 Hl1 Hp1 Hs1 Hb [_ _ _ _ (vn & Hvn & Hln & Hsn & Hfn) (Hpl & Hpn) _].
  destruct (builder_ok NewVersion _ (replicate num_levels []) Hb) as (b & cp & Ea & Lc & Hc & Hf); [by rewrite length_replicate|].
  exists b, vn. split; [|split; [done|]].
  - rewrite Ea. do 2 f_equal. apply list_eq. intros level. rewrite Hc, Hpn. cbn [foldl].
    destruct (decide (level < num_levels)%nat) as [Hlt|Hge].
    + rewrite lookup_replicate_2 by done. destruct (pointers0 !! level) as [key|] eqn:Ek.
      2: { apply lookup_ge_None in Ek. rewrite (sv_pointers _ _ Hs0) in Ek. lia. }
      cbn [fmap option_fmap option_map]. rewrite snapshot_pointer. specialize (Hp1 level). rewrite Ek in Hp1.
      rewrite (nth_lookup_Some _ _ _ _ Hp1). by rewrite pointer_after_idem.
    + rewrite (lookup_ge_None_2 (replicate _ _)) by (rewrite length_replicate; lia).
      rewrite (lookup_ge_None_2 pointers0) by (rewrite (sv_pointers _ _ Hs0); lia). done.
  - apply levels_eq; [|done|].
    + unfold Finalize. destruct (foldl _ _ _). cbn [files_ SaveTo]. by rewrite length_imap.
    + intros level Hlevel. rewrite Finalize_files. destruct (Hf level Hlevel) as [H1 H2]. split_and!; [done|done|].
      rewrite H1, (Hfn level Hlevel), NewVersion_files. cbn [foldl].
      assert (E0 : apply_edit level [] (first_record v0 pointers1) = files_at v0 level); [|by rewrite E0].
      unfold apply_edit. cbn [filter list_filter app]. apply (built_snapshot level v0 pointers1 Hs1).
Qed.

(** The descriptor holds in [kept] all that the first [k] edits wrote. *)
Definition survives w vs dbname ps (kept : bytes) (k : nat) : Prop :=
  (1 <= k <= length ps)%nat /\
  exists wk vsk content, log_edits w vs dbname (take k ps) = Ok (wk, vsk, true) /\
    contents wk (DescriptorFileName dbname (manifest_file_number_ vs)) = Some content /\ size content <= size kept.

(** How many edits the complete records of [kept] are. *)
Lemma survivors_read w vs dbname v0 pointers1 ps cs kept j out1 off1 :
  Forall2 written_as cs ps ->
  (forall n, (1 <= n <= length ps)%nat -> exists wn vsn, log_edits w vs dbname (take n ps) = Ok (wn, vsn, true) /\
      manifest_file_number_ vsn = manifest_file_number_ vs /\ logged wn vsn dbname v0 (compact_pointer_ vs) pointers1 (take n cs)) ->
  let ds := map encoded (first_record v0 pointers1 :: cs) in
  log_file 0 (take j ds) out1 off1 -> size out1 <= size kept ->
  ((j < length ds)%nat -> exists out2 off2, log_file 0 (take (S j) ds) out2 off2 /\ size kept < size out2) ->
  forall k, survives w vs dbname ps kept k -> (S k <= j)%nat.
Proof.
  intros Hcs Hrun ds Hl1 Hle Hmore k (Hk & wk & vsk & content & Ek & Hcontent & Hsize).
  destruct (Hrun k Hk) as (wn & vsn & En & Hm & [_ _ (d & _ & Hd) _ _ _ _]). rewrite Ek in En. injection En as <- <-.
  destruct Hd as (_ & out & Hout & Hlog & _). rewrite Hm, Hcontent in Hout. injection Hout as <-.
  destruct (Nat.le_gt_cases (S k) j) as [|Hlt]; [done|]. exfalso.
  assert (Hlen : length ds = S (length ps)).
  { unfold ds. cbn [map length]. rewrite length_map. f_equal. by eapply Forall2_length. }
  destruct Hmore as (out2 & off2 & Hl2 & Hs2); [lia|].
  assert (Et : map encoded (first_record v0 pointers1 :: take k cs) = take (S k) ds).
  { unfold ds. cbn [map take]. f_equal. by rewrite firstn_map. }
  rewrite Et in Hlog. destruct (log_file_take _ _ _ _ (S j) Hlog) as (out3 & off3 & Hl3 & Hs3).
  rewrite take_take, Nat.min_l in Hl3 by lia. destruct (log_file_det _ _ _ _ Hl2 _ _ Hl3) as [-> ->]. lia.
Qed.
End crash.

Lemma saved_after `{C : Comparator} v pointers0 pointers1 c :
  saved_ok v pointers0 -> loggable c -> length pointers1 = num_levels ->
  (forall level, pointers1 !! level = (fun key => pointer_after level key c) <$> pointers0 !! level) -> saved_ok v pointers1.
Proof.
  intros [H1 H2 H3 H4] [Hc _] Hl Hp. split; [done..|]. intros key [level Hkey]%list_elem_of_lookup. rewrite Hp in Hkey.
  destruct (pointers0 !! level) as [key0|] eqn:E; cbn in Hkey; [|done]. injection Hkey as <-.
  apply pointer_key_ok; [done|]. apply H4. by apply (list_elem_of_lookup_2 _ level).
Qed.

(** The state a recovery gives is that of a version set. *)
Definition same_state {W} (vs vs' : VersionSet.VersionSet W) : Prop :=
  (exists v v', current vs = Ok v /\ current vs' = Ok v' /\ forall level, files_at v level = files_at v' level) /\
  compact_pointer_ vs = compact_pointer_ vs' /\ vs_log_number_ vs = vs_log_number_ vs' /\
  vs_prev_log_number_ vs = vs_prev_log_number_ vs' /\ vs_last_sequence_ vs = vs_last_sequence_ vs' /\
  vs_next_file_number_ vs = u64 (vs_next_file_number_ vs' + 1).

(** Recovering from records that were logged gives the state in which they were. *)
Lemma recovered_logged `{C : Comparator} `{!ComparatorLaws C} `{FL : FileEnvLaws} char_is_signed fuel (r r' : Reader SFile)
    wn vsn w2 dbname v0 pointers0 pointers1 c rest reuse_logs max_file_size dscname name save :
  saved_ok v0 pointers0 -> length pointers1 = num_levels ->
  (forall level, pointers1 !! level = (fun key => pointer_after level key c) <$> pointers0 !! level) -> saved_ok v0 pointers1 ->
  buildable NewVersion (first_record v0 pointers1 :: c :: rest) ->
  (forall e, e ∈ first_record v0 pointers1 :: c :: rest -> loggable e) -> (forall e, e ∈ c :: rest -> exists p, written_as e p) ->
  logged wn vsn dbname v0 pointers0 pointers1 (c :: rest) ->
  ReadAll char_is_signed fuel r = Some (r', map encoded (first_record v0 pointers1 :: c :: rest)) -> reports r' = [] ->
  exists st w3 vs3 save',
    recover_loop char_is_signed fuel r (MkRecovery (NewBuilder NewVersion) (compact_pointer_ (NewVersionSet (W := WFile))) None None None None)
      Status_OK = Ok (st, Status_OK) /\
    recover_install w2 NewVersionSet reuse_logs max_file_size dscname name st Status_OK save = (w3, vs3, Status_OK, save') /\
    same_state vs3 vsn.
Proof.
  intros Hsv Hlp Hp1 Hsv1 Hbr Hla Hw Hlogged Hr Hrep.
  destruct (recovered_state wn vsn dbname v0 pointers0 pointers1 c rest Hsv Hlp Hp1 Hsv1 Hbr Hlogged) as (b & vn & Hap & Hvn & Hfiles).
  destruct (lg_counters _ _ _ _ _ _ _ Hlogged) as (es & e & Ees & L1 & L2 & L3 & L4).
  assert (He : exists p, written_as e p) by (apply Hw; rewrite Ees; apply elem_of_app; right; by left).
  destruct He as (p & _ & _ & B1 & B2 & B3 & B4). rewrite Ees in *.
  change (first_record v0 pointers1 :: es ++ [e]) with ((first_record v0 pointers1 :: es) ++ [e]) in *.
  destruct (recover_install_ok w2 NewVersionSet reuse_logs max_file_size dscname name
    (MkRecovery (NewBuilder NewVersion) (compact_pointer_ (NewVersionSet (W := WFile))) None None None None)
    (first_record v0 pointers1 :: es) e (b, compact_pointer_ vsn) save) as (w3 & vs3 & save' & Ei & G1 & G2 & G3 & G4 & G5 & G6); [|done..|].
  { intros m Hm'. cbn in Hm'. apply list_elem_of_singleton in Hm' as ->. cbn. lia. }
  eexists _, w3, vs3, save'. split; [exact (recover_loop_ok char_is_signed fuel r (MkRecovery (NewBuilder NewVersion) (compact_pointer_ (NewVersionSet (W := WFile))) None None None None) r' _ (b, compact_pointer_ vsn) Hr Hrep Hla Hap)|]. split; [done|].
  split; [|rewrite G2, G3, G4, G5, G6, L1, L2, L3, L4; by split_and!]. eexists _, vn. by split_and!.
Qed.

(** Reading what is left of a descriptor gives its snapshot and some number of the edits. *)
Lemma descriptor_read `{FL : FileEnvLaws} char_is_signed (g : SFile) e cs lost off fuel :
  (forall (f : SFile) n, Status_ok (sf_Read f n).2 = true) -> let ds := map encoded (e :: cs) in
  log_file 0 ds (sf_rest g ++ lost) off -> size (sf_rest g) < 2 ^ 64 -> size (sf_rest g) < Z.of_nat fuel ->
  exists j r' out1 off1, ReadAll char_is_signed fuel (NewReader g true true 0) = Some (r', take j ds) /\ reports r' = [] /\
    log_file 0 (take j ds) out1 off1 /\ size out1 <= size (sf_rest g) /\
    ((j < length ds)%nat -> exists out2 off2, log_file 0 (take (S j) ds) out2 off2 /\ size (sf_rest g) < size out2) /\
    (lost = [] -> (length ds <= j)%nat) /\
    ((1 <= j)%nat -> take j ds = map encoded (e :: take (Nat.min (j - 1) (length cs)) cs)).
Proof.
  intros Hrel ds Hlog Hsize Hfuel.
  destruct (read_log_prefix char_is_signed Hrel g ds _ _ lost true true fuel Hlog eq_refl Hsize Hfuel) as (r' & ds1 & Hr & Hcomp & Hrep).
  destruct (complete_take _ _ _ _ Hcomp (size_nonneg _)) as (j & out1 & off1 & -> & Hl1 & Hle & Hmore).
  exists j, r', out1, off1. split_and!; try done.
  - intros ->. destruct (decide (j < length ds)%nat) as [Hlt|Hge]; [|lia].
    destruct (Hmore Hlt) as (out2 & off2 & Hl2 & Hs2). destruct (log_file_take _ _ _ _ (S j) Hlog) as (out3 & off3 & Hl3 & Hs3).
    destruct (log_file_det _ _ _ _ Hl2 _ _ Hl3) as [-> ->]. rewrite app_nil_r in Hs3. lia.
  - intros Hj. unfold ds. destruct j as [|j]; [lia|]. cbn [map take]. f_equal. rewrite firstn_map. f_equal.
    replace (S j - 1)%nat with j by lia. destruct (Nat.min_spec j (length cs)) as [[_ ->]|[Hge ->]]; [done|]. by rewrite !take_ge by lia.
Qed.

(** C5. The manifest recovers from a crash.  Edits are logged one after the other by
    [LogAndApply], all with success, the first one opening the descriptor; then the tail
    of the descriptor is lost.  As long as what the first edit wrote is there, [Recover]
    ends with status OK in exactly the state there was after the first [n] edits: the same
    files in every level, the same compaction pointers, log numbers and last sequence, and
    a file number above those in use.  Every edit whose bytes survive is among the [n]; if
    nothing is lost, all are. *)
Theorem manifest_recovery `{C : Comparator} `{!ComparatorLaws C} `{FL : FileEnvLaws} (char_is_signed : bool)
    (w : FS) (vs : VersionSet.VersionSet WFile) (dbname : bytes) (v0 : Version) (ps : list (Z * Z * VersionEdit))
    (w' : FS) (vs' : VersionSet.VersionSet WFile) (w2 : FS) (kept lost : bytes) (fuel : nat)
    (reuse_logs : bool) (max_file_size : Z) (save : bool) :
  trailer_safe (F := FS * WFile) -> (forall (f : SFile) n, Status_ok (sf_Read f n).2 = true) ->
  fits 32 (size cmp_Name) -> startable vs v0 -> Forall entry_ok ps -> buildable v0 (map snd ps) ->
  log_edits w vs dbname ps = Ok (w', vs', true) ->
  let desc := DescriptorFileName dbname (manifest_file_number_ vs) in
  contents w' desc = Some (kept ++ lost) -> contents w2 desc = Some kept ->
  contents w2 (CurrentFileName dbname) = contents w' (CurrentFileName dbname) ->
  size kept < 2 ^ 64 -> size kept + size desc < Z.of_nat fuel ->
  survives w vs dbname ps kept 1 ->
  exists n wn vsn w3 vs3 save', (1 <= n <= length ps)%nat /\
    log_edits w vs dbname (take n ps) = Ok (wn, vsn, true) /\
    Recover char_is_signed fuel w2 NewVersionSet dbname reuse_logs max_file_size save = Ok (w3, vs3, Status_OK, save') /\
    same_state vs3 vsn /\ (forall k, survives w vs dbname ps kept k -> (k <= n)%nat) /\ (lost = [] -> n = length ps).
Proof.
  intros Htr Hrel Hname Hstart Hok Hb Hrun desc Hc' Hc2 Hcur Hsize Hfuel Hsurv.
  destruct (run_logged Htr w vs dbname v0 ps w' vs' Hstart Hok Hb Hrun) as (pointers1 & cs & Hcs & Hlp & Hp1 & Hn).
  assert (Hlen : length cs = length ps) by by eapply Forall2_length.
  assert (H1 : (1 <= length ps)%nat) by (destruct Hsurv; lia).
  destruct (Hn (length ps)) as (we & vse & Ee & Hme & [_ _ (d & _ & Hd) Hcure _ _ _]); [lia|].
  rewrite take_ge in Ee by lia. rewrite Hrun in Ee. injection Ee as <- <-. rewrite take_ge in Hd by lia.
  destruct Hd as (_ & out & Hout & Hlog & _). rewrite Hme in Hout, Hcure. fold desc in Hout. rewrite Hc' in Hout. injection Hout as <-.
  rewrite Hcure in Hcur. set (name := str "MANIFEST-" ++ decimal6 (manifest_file_number_ vs)) in *.
  assert (Edesc : desc = dbname ++ str "/" ++ name) by done.
  assert (Eld : size desc = size dbname + 1 + size name) by (unfold size; rewrite Edesc, !length_app; cbn; lia).
  pose proof (size_nonneg dbname). pose proof (size_nonneg kept). unfold size in *.
  destruct (Recover_opens char_is_signed fuel w2 NewVersionSet dbname reuse_logs max_file_size save name kept NewVersion Hrel Hcur) as (g & Rg & ->);
    [by rewrite <- Edesc|lia|done|]. subst kept. fold (size (sf_rest g)) in *.
  destruct (descriptor_read char_is_signed g (first_record v0 pointers1) cs lost _ fuel Hrel Hlog Hsize ltac:(lia))
    as (j & r' & out1 & off1 & Hr & Hrep & Hl1 & Hle & Hmore & Hall' & Etake).
  pose proof (survivors_read w vs dbname v0 pointers1 ps cs (sf_rest g) j out1 off1 Hcs Hn Hl1 Hle Hmore) as Hall.
  pose proof (Hall 1%nat Hsurv) as Hj. rewrite Etake, Hlen in Hr by lia.
  set (n := Nat.min (j - 1) (length ps)) in *. destruct (Hn n) as (wn & vsn & En & Hmn & Hlogged); [unfold n; lia|].
  destruct cs as [|c rest] eqn:Ecs; [cbn in Hlen; lia|]. destruct n as [|n'] eqn:En'; [unfold n in En'; lia|]. cbn [take] in Hlogged, Hr.
  destruct Hstart as [_ _ Hsv _ _ _].
  assert (Hc : written_as c (default (0, 0, NewVersionEdit) (head ps))) by (inversion Hcs; by subst).
  assert (Hsv1 : saved_ok v0 pointers1).
  { apply (saved_after v0 (compact_pointer_ vs) pointers1 c); [done|apply Hc|done|]. intros level. by apply (Hp1 c rest). }
  destruct (recovery_buildable v0 (compact_pointer_ vs) pointers1 ps (c :: rest) (S n') Hname Hsv Hsv1 Hb Hcs) as [Hbr Hla].
  destruct (recovered_logged char_is_signed fuel (NewReader g true true 0) r' wn vsn w2 dbname v0 (compact_pointer_ vs) pointers1 c (take n' rest)
    reuse_logs max_file_size (dbname ++ str "/" ++ name) name save) as (st & w3 & vs3 & save' & -> & Ei & Hsame);
    [done|done|intros level; by apply (Hp1 c rest)|done|done|done| |done|done|done|].
  { intros e He. apply (elem_of_take _ (S n') (c :: rest)) in He as (i & Hi & _).
    destruct (Forall2_lookup_l _ _ _ _ _ Hcs Hi) as (p & _ & Hp). by exists p. }
  exists (S n'), wn, vsn, w3, vs3, save'. cbn [res_bind fst snd]. rewrite Ei. split; [lia|]. split; [done|]. split; [done|]. split; [done|]. split.
  - intros k Hk. pose proof (Hall k Hk). destruct Hk as [Hk _]. lia.
  - intros Hl. specialize (Hall' Hl). rewrite length_map in Hall'. cbn [length] in Hall', Hlen. lia.
Qed.

(** *** A file system in memory *)

#[export] Instance mem_file_env : FileEnv (E := mem_env) := {|
  SFile := bytes;
  env_NewSequentialFile w n := match w n with Some c => inl c | None => inr (Status_NotFound n []) end;
  env_GetFileSize w n := match w n with Some c => inl (size c) | None => inr (Status_NotFound n []) end;
  env_NewAppendableFile w n := (fun m => if decide (m = n) then Some (default [] (w n)) else w m, inl n);
  wfile_Flush w _ := (w, Status_OK)
|}.

#[export, refine] Instance mem_file_env_laws : FileEnvLaws (FE := mem_file_env) (L := mem_env_laws) := {| SFile_laws := StringSourceLaws |}.
Proof.
  - done.
  - intros w n c E. cbn in *. rewrite E. by exists c.
Defined.

Definition example_run : list (Z * Z * VersionEdit) :=
  [ (9, 120, add (add NewVersionEdit 0 (edit_file 7 "d" "z")) 1 (edit_file 6 "e" "f"));
    (10, 130, SetLogNumber (SetCompactPointer (RemoveFile (add NewVersionEdit 1 (edit_file 8 "b" "d")) 0 7) 1
                              (smallest (edit_file 8 "b" "d"))) 9) ].

Lemma example_entries : Forall (entry_ok (C := BytewiseComparator)) example_run.
Proof.
  assert (H : forall p : Z * Z * VersionEdit, edit_ok p.2 -> has_comparator_ p.2 = false -> fits 64 p.1.1 -> fits 64 p.1.2 ->
    entry_ok (C := BytewiseComparator) p).
  { intros p H1 H2 H3 H4. split_and!; [|done..]. split; [done|]. by rewrite H2. }
  unfold example_run. repeat apply list.Forall_cons_2; try apply list.Forall_nil_2; apply H; try done; split; try done.
  all: try (intros [|[|i]] x y Hx Hy; done).
  all: cbn; repeat apply list.Forall_cons_2; try apply list.Forall_nil_2; repeat split; try done; by vm_compute.
Qed.

Lemma example_run_buildable : buildable (C := BytewiseComparator) NewVersion (map snd example_run).
Proof.
  split.
  - intros level. rewrite NewVersion_files. constructor.
  - intros e He. apply list_elem_of_lookup in He as [[|[|i]] He]; [..|done]; injection He as <-;
      split; intros p Hp; apply list_elem_of_lookup in Hp as [[|[|i]] Hp]; try done; injection Hp as <-; by vm_compute.
  - intros level. rewrite NewVersion_files. do 2 (destruct level as [|level]; [apply (bool_decide_unpack _); vm_compute; reflexivity|]).
    unfold example_run, new_at. cbn [map snd concat]. unfold at_level.
    cbn [new_files_ add AddFile omap list_omap NewVersionEdit app SetCompactPointer SetLogNumber RemoveFile fst].
    rewrite !decide_False by lia. constructor.
Qed.

Definition example_start : VersionSet.VersionSet (WFile (Env := mem_env)) := set_manifest NewVersionSet 5.

Lemma example_startable : startable (E := mem_env) example_start NewVersion.
Proof.
  split; try done.
  - split; try done.
    + intros level f. rewrite NewVersion_files. by intros ?%elem_of_nil.
    + intros key Hk. left. cbn in Hk. by apply list_elem_of_lookup in Hk as [i [-> _]%lookup_replicate].
  - intros n Hn. cbn in Hn. apply list_elem_of_singleton in Hn as ->. cbn. lia.
Qed.

(** Both edits are logged; then the last three bytes of the descriptor are lost, so that
    only the first is recovered. *)
Definition example_after (n : nat) : bytes -> option bytes :=
  match log_edits (C := BytewiseComparator) (FE := mem_file_env) (fun _ => None) example_start (str "/db") (take n example_run) with
  | Ok (w, _, true) => w
  | _ => fun _ => None
  end.

Definition example_desc (n : nat) : bytes := default [] (example_after n (str "/db/MANIFEST-000005")).

Definition example_kept : bytes := take (length (example_desc 2) - 3) (example_desc 2).

Definition with_desc (kept : bytes) (w : bytes -> option bytes) : bytes -> option bytes := fun m =>
  if decide (m = str "/db/MANIFEST-000005") then Some kept else w m.

Lemma with_desc_contents kept w :
  contents (EnvLaws := mem_env_laws) (with_desc kept w) (DescriptorFileName (str "/db") (manifest_file_number_ example_start)) = Some kept.
Proof. reflexivity. Qed.

Definition example_disk : bytes -> option bytes := with_desc example_kept (example_after 2).

Lemma example_runs :
  exists w vs w1 vs1 content content1,
    log_edits (C := BytewiseComparator) (FE := mem_file_env) (fun _ => None) example_start (str "/db") example_run = Ok (w, vs, true) /\
    log_edits (C := BytewiseComparator) (FE := mem_file_env) (fun _ => None) example_start (str "/db") (take 1 example_run) = Ok (w1, vs1, true) /\
    w (str "/db/MANIFEST-000005") = Some content /\ w1 (str "/db/MANIFEST-000005") = Some content1 /\
    (forall m, m <> str "/db/MANIFEST-000005" -> example_disk m = w m) /\
    content = example_kept ++ drop (length content - 3) content /\ size content1 <= size example_kept < 900.
Proof.
  assert (Hc : match log_edits (C := BytewiseComparator) (FE := mem_file_env) (fun _ => None) example_start (str "/db") example_run,
      log_edits (C := BytewiseComparator) (FE := mem_file_env) (fun _ => None) example_start (str "/db") (take 1 example_run) with
    | Ok (w', _, true), Ok (w1, _, true) =>
        match w' (str "/db/MANIFEST-000005"), w1 (str "/db/MANIFEST-000005") with
        | Some c, Some c1 => bool_decide (c = example_kept ++ drop (length c - 3) c /\ size c1 <= size example_kept < 900)
        | _, _ => false
        end
    | _, _ => false
    end = true) by (vm_compute; reflexivity).
  assert (Hd : example_after 2 = match log_edits (C := BytewiseComparator) (FE := mem_file_env) (fun _ => None) example_start (str "/db") example_run with
    | Ok (w', _, true) => w' | _ => fun _ => None end) by reflexivity.
  destruct (log_edits _ _ _ example_run) as [[[w vs] b]| |]; [|discriminate Hc..]. destruct b; [|discriminate Hc].
  destruct (log_edits _ _ _ (take 1 example_run)) as [[[w1 vs1] b]| |]; [|discriminate Hc..]. destruct b; [|discriminate Hc].
  exists w, vs, w1, vs1. destruct (w _) as [c|] eqn:Ew; [|discriminate Hc]. destruct (w1 _) as [c1|] eqn:Ew1; [|discriminate Hc].
  apply bool_decide_eq_true_1 in Hc as [H1 H2]. exists c, c1. split_and!; [reflexivity|reflexivity|reflexivity|reflexivity| |exact H1|apply H2|apply H2].
  intros m Hm. unfold example_disk, with_desc. rewrite decide_False by done. by rewrite Hd.
Qed.

Lemma fits_name : fits 32 (size (cmp_Name (Comparator := BytewiseComparator))).
Proof. by vm_compute. Qed.

Lemma manifest_recovery_witness :
  exists n wn vsn w3 vs3 save', (1 <= n <= 2)%nat /\
    log_edits (C := BytewiseComparator) (FE := mem_file_env) (fun _ => None) example_start (str "/db") (take n example_run) = Ok (wn, vsn, true) /\
    Recover (C := BytewiseComparator) (FE := mem_file_env) false 1000 example_disk NewVersionSet (str "/db") false 1000000 false
      = Ok (w3, vs3, Status_OK, save') /\ same_state vs3 vsn.
Proof.
  destruct example_runs as (w & vs & w1 & vs1 & content & content1 & E & E1 & Hw & Hw1 & Hdisk & Hk & Hs).
  destruct (manifest_recovery (C := BytewiseComparator) (FL := mem_file_env_laws) false (fun _ => None) example_start (str "/db") NewVersion
    example_run w vs example_disk example_kept (drop (length content - 3) content) 1000 false 1000000 false)
    as (n & wn & vsn & w3 & vs3 & save' & Hn & En & Er & Hsame & _).
  - intros f k. reflexivity.
  - intros f k. reflexivity.
  - apply fits_name.
  - apply example_startable.
  - apply example_entries.
  - apply example_run_buildable.
  - exact E.
  - rewrite <- Hk. exact Hw.
  - apply with_desc_contents.
  - apply (Hdisk (str "/db/CURRENT")). discriminate.
  - lia.
  - assert (Hz : size (DescriptorFileName (str "/db") (manifest_file_number_ example_start)) = 19) by reflexivity. rewrite Hz. lia.
  - split; [split; apply Nat.leb_le; reflexivity|]. exists w1, vs1, content1. split; [exact E1|]. split; [exact Hw1|lia].
  - exists n, wn, vsn, w3, vs3, save'. exact (conj Hn (conj En (conj Er Hsame))).
Defined.
