(* ===== verification/Dump.v ===== *)
(** * Printing files

    Models [cpp/leveldb/db/dumpfile.cc]: what is in a log, a descriptor or a table, as text
    appended to a file.  The results of the appends are not looked at.  A table is opened
    with default options and without a block cache. *)
From S2P Require Import Prelude Coding Comparator Logging Status DbFormat LogWriter LogReader Posix WriteBatch Cursor Block FilterBlock Format TableBuilder TwoLevel Table VersionEdit Filename Manifest TableCache.

Section dump.
Context `{FE : FileEnv} {D : Type} `{WF : WritableFile D} {G : Type} `{RF : RandomAccessFile G} `{TE : TableEnv FS G} `{Sn : Snappy}.
Context (char_is_signed : bool) (fuel : nat).

Definition print (dst : D) (s : bytes) : D := (wf_Append dst s).1.

Definition GuessType (fname : bytes) : option FileType :=
  let basename := match rfind_slash fname with None => fname | Some pos => drop (pos + 1) fname end in
  snd <$> ParseFileName basename.

(** ** Logs and descriptors *)

(** [CorruptionReporter] *)
Definition print_corruption (dst : D) (report : Z * Status) : D :=
  print dst (AppendNumberTo (str "corruption: ") report.1 ++ str " bytes; " ++ Status_ToString report.2 ++ newline).

(** The reports of a read come before its record. *)
Fixpoint print_records (rounds : nat) (func : Z -> bytes -> D -> res D) (reader : Reader SFile) (dst : D) : res D :=
  match rounds with
  | O => OutOfFuel
  | S rounds =>
      match ReadRecord char_is_signed fuel reader with
      | None => OutOfFuel
      | Some (r, record) =>
          let dst := foldl print_corruption dst (drop (length (reports reader)) (reports r)) in
          match record with
          | None => Ok dst
          | Some record => let? dst := func (LastRecordOffset r) record dst in print_records rounds func r dst
          end
      end
  end.

Definition PrintLogContents (w : FS) (fname : bytes) (func : Z -> bytes -> D -> res D) (dst : D) : res (D * Status) :=
  match env_NewSequentialFile w fname with
  | inr s => Ok (dst, s)
  | inl file => let? dst := print_records fuel func (NewReader file true true 0) dst in Ok (dst, Status_OK)
  end.

(** [WriteBatchItemPrinter] *)
Definition put_line (key value : bytes) : bytes :=
  AppendEscapedStringTo (AppendEscapedStringTo (str "  put '") key ++ str "' '") value ++ str "'" ++ newline.
Definition del_line (key : bytes) : bytes := AppendEscapedStringTo (str "  del '") key ++ str "'" ++ newline.

#[local] Instance WriteBatchItemPrinter : Handler D := {|
  handler_Put dst key value := print dst (put_line key value);
  handler_Delete dst key := print dst (del_line key)
|}.

Definition offset_prefix (pos : Z) : bytes := AppendNumberTo (str "--- offset ") pos ++ str "; ".

Definition WriteBatchPrinter (pos : Z) (record : bytes) (dst : D) : res D :=
  let r := offset_prefix pos in
  if size record <? 12 then
    Ok (print dst (AppendNumberTo (r ++ str "log record length ") (size record) ++ str " is too small" ++ newline))
  else
    let batch := SetContents record in
    let dst := print dst (AppendNumberTo (r ++ str "sequence ") (Sequence batch) ++ newline) in
    match Iterate batch dst with
    | None => OutOfFuel
    | Some (dst, s) => Ok (if Status_ok s then dst else print dst (str "  error: " ++ Status_ToString s ++ newline))
    end.

Definition DumpLog (w : FS) (fname : bytes) (dst : D) : res (D * Status) := PrintLogContents w fname WriteBatchPrinter dst.

Definition VersionEditPrinter (pos : Z) (record : bytes) (dst : D) : res D :=
  let r := offset_prefix pos in
  let? d := VersionEdit_DecodeFrom NewVersionEdit record in
  let '(edit, s) := d in
  Ok (print dst (if Status_ok s then r ++ VersionEdit_DebugString edit else r ++ Status_ToString s ++ newline)).

Definition DumpDescriptor (w : FS) (fname : bytes) (dst : D) : res (D * Status) := PrintLogContents w fname VersionEditPrinter dst.

(** ** Tables *)

(** [Options()] *)
Definition DefaultOptions : Options := MkOptions 4096 16 kSnappyCompression None false.

(** The last branch over the type is for types that [ParseInternalKey] does not let
    through. *)
Definition entry_line (key value : bytes) : bytes :=
  match ParseInternalKey key with
  | None =>
      AppendEscapedStringTo (AppendEscapedStringTo (str "badkey '") key ++ str "' => '") value ++ str "'" ++ newline
  | Some k =>
      let r := AppendNumberTo (AppendEscapedStringTo (str "'") (user_key k) ++ str "' @ ") (sequence k) ++ str " : " in
      let r := if type k =? kTypeDeletion then r ++ str "del"
               else if type k =? kTypeValue then r ++ str "val"
               else AppendNumberTo r (type k) in
      AppendEscapedStringTo (r ++ str " => '") value ++ str "'" ++ newline
  end.

Fixpoint print_entries {J} `{Iterator J} (rounds : nat) (iter : J) (dst : D) : res (J * D) :=
  match rounds with
  | O => OutOfFuel
  | S rounds =>
      if it_Valid iter then
        let? value := it_value iter in
        let dst := print dst (entry_line (it_key iter) value) in
        let? iter := it_Next iter in
        print_entries rounds iter dst
      else Ok (iter, dst)
  end.

(** [fill_cache] makes no difference without a cache. *)
Definition DumpTable `{BC : BlockCache W} (w : FS) (fname : bytes) (dst : D) : res (D * Status) :=
  match env_GetFileSize w fname with
  | inr s => Ok (dst, s)
  | inl file_size =>
      match env_NewRandomAccessFile w fname with
      | inr s => Ok (dst, s)
      | inl file =>
          let? r := Table_Open DefaultOptions file file_size (None : option W) in
          match r.2 with
          | inr s => Ok (dst, s)
          | inl table =>
              let it := TableIterator (C := BytewiseComparator) table false false fuel in
              let? iter := it_SeekToFirst (Table_NewIterator table r.1) in
              let? p := print_entries fuel iter dst in
              let '(iter, dst) := p in
              let s := it_status iter in
              Ok (if Status_ok s then dst else print dst (str "iterator error: " ++ Status_ToString s ++ newline), Status_OK)
          end
      end
  end.

Definition DumpFile `{BC : BlockCache W} (w : FS) (fname : bytes) (dst : D) : res (D * Status) :=
  match GuessType fname with
  | None => Ok (dst, Status_InvalidArgument (fname ++ str ": unknown file type") [])
  | Some kLogFile => DumpLog w fname dst
  | Some kDescriptorFile => DumpDescriptor w fname dst
  | Some kTableFile => DumpTable w fname dst
  | Some _ => Ok (dst, Status_InvalidArgument (fname ++ str ": not a dump-able file type") [])
  end.
End dump.

(** ** What is printed *)

Section printed.
Context `{FE : FileEnv} {D : Type} `{WF : WritableFile D} `{WL : !WritableFileLaws D}.
Context (appends : forall (d : D) s, Status_ok (wf_Append d s).2 = true).

Lemma print_contents d s : wf_contents (print d s) = wf_contents d ++ s.
Proof. apply wf_Append_ok, appends. Qed.

Definition op_line (op : batch_op) : bytes :=
  match op with OpPut key value => put_line key value | OpDelete key => del_line key end.

(** The text of a record at an offset. *)
Definition batch_text (pos : Z) (b : Z * list batch_op) : bytes :=
  offset_prefix pos ++ str "sequence " ++ decimal b.1 ++ newline ++ concat (map op_line b.2).

#[local] Existing Instance WriteBatchItemPrinter.

Lemma print_ops ops : forall d, wf_contents (foldl handle_op d ops) = wf_contents d ++ concat (map op_line ops).
Proof.
  induction ops as [|op ops IH]; intros d; cbn [foldl map concat]; [by rewrite app_nil_r|].
  rewrite IH, app_assoc. f_equal. by destruct op; cbn; rewrite print_contents.
Qed.

Lemma WriteBatchPrinter_ok pos seq ops d : fits 64 seq -> ops_ok ops ->
  exists d', WriteBatchPrinter pos (batch_rep seq ops) d = Ok d' /\ wf_contents d' = wf_contents d ++ batch_text pos (seq, ops).
Proof.
  intros Hs Ho. unfold WriteBatchPrinter, SetContents. destruct (batch_rep_header seq ops Hs Ho) as (Hsq & _ & _ & _).
  assert (Hsz : 12 <= size (batch_rep seq ops)).
  { unfold batch_rep. rewrite !size_app, size_EncodeFixed64, size_EncodeFixed32. pose proof (size_nonneg (encode_ops ops)). lia. }
  destruct (Z.ltb_spec (size (batch_rep seq ops)) 12); [lia|]. rewrite Iterate_batch_rep by done. cbn [Status_ok Status_OK].
  eexists. split; [done|]. rewrite print_ops, print_contents, Hsq. unfold batch_text, AppendNumberTo. cbn [fst snd]. by rewrite <- !app_assoc.
Qed.

(** Printing the records of a log that is read without a report. *)
Lemma print_records_ok char_is_signed {A} (enc : A -> bytes) (text : Z -> A -> bytes) n : forall fuel func (r : Reader SFile) r' xs d,
  (forall pos x d, x ∈ xs -> exists d', func pos (enc x) d = Ok d' /\ wf_contents d' = wf_contents d ++ text pos x) ->
  (n <= fuel)%nat -> ReadAll char_is_signed n r = Some (r', map enc xs) -> reports r' = [] ->
  exists d' offsets, print_records char_is_signed fuel n func r d = Ok d' /\ length offsets = length xs /\
    wf_contents d' = wf_contents d ++ concat (zip_with text offsets xs).
Proof.
  induction n as [|n IH]; intros fuel func r r' xs d Hf Hn Hr Hrep; [done|]. cbn [ReadAll] in Hr. cbn [print_records].
  destruct (ReadRecord char_is_signed (S n) r) as [[r1 record]|] eqn:E1; [|done].
  rewrite (ReadRecord_mono char_is_signed (S n) fuel r _ Hn E1). destruct record as [record|].
  - destruct (ReadAll char_is_signed n r1) as [[r2 records]|] eqn:E2; [|done]. destruct xs as [|x xs]; [done|]. cbn [map] in Hr. injection Hr as -> -> ->.
    assert (H1 : reports r1 = []) by (by apply (grows_none r1 r'), Hrep; apply (ReadAll_grows char_is_signed n r1 r' (map enc xs))).
    rewrite H1, drop_nil. cbn [foldl]. destruct (Hf (LastRecordOffset r1) x d ltac:(left)) as (d1 & -> & Hd1). cbn [res_bind].
    destruct (IH fuel func r1 r' xs d1) as (d' & offsets & -> & Hl & Hd'); [intros pos y dx Hy; apply Hf; by right|lia|done|done|].
    exists d', (LastRecordOffset r1 :: offsets). split; [done|]. split; [cbn; by rewrite Hl|]. cbn [zip_with concat]. by rewrite Hd', Hd1, <- app_assoc.
  - destruct xs as [|x xs]; [|done]. injection Hr as ->. rewrite Hrep, drop_nil. cbn [foldl]. exists d, []. split; [done|]. split; [done|]. cbn. by rewrite app_nil_r.
Qed.

(** Dumping a log whose tail was lost prints the batches that are left, with what is in
    them, in order, and nothing else. *)
Lemma dump_log_prints `{L : !EnvLaws} `{FL : !FileEnvLaws} char_is_signed fuel w fname (bs : list (Z * list batch_op)) kept lost off d :
  (forall (f : SFile) n, Status_ok (sf_Read f n).2 = true) ->
  log_file 0 (map (fun b => batch_rep b.1 b.2) bs) (kept ++ lost) off -> Filename.contents w fname = Some kept ->
  size kept < 2 ^ 64 -> size kept < Z.of_nat fuel -> Forall (fun b => fits 64 b.1 /\ ops_ok b.2) bs ->
  exists d' n offsets, DumpLog char_is_signed fuel w fname d = Ok (d', Status_OK) /\ length offsets = length (take n bs) /\
    wf_contents d' = wf_contents d ++ concat (zip_with batch_text offsets (take n bs)) /\ (lost = [] -> take n bs = bs).
Proof.
  intros Hrel Hlog Hc Hsize Hfuel Hbs. unfold DumpLog, PrintLogContents. destruct (fe_read _ _ _ Hc) as (g & -> & Rg). subst kept.
  destruct (read_log_prefix char_is_signed Hrel g _ _ _ lost true true fuel Hlog eq_refl Hsize Hfuel) as (r' & ds1 & Hr & Hcomp & Hrep).
  destruct (complete_take _ _ _ _ Hcomp (size_nonneg _)) as (j & out1 & off1 & -> & _ & _ & Hmore). rewrite firstn_map in Hr.
  destruct (print_records_ok char_is_signed (fun b => batch_rep b.1 b.2) batch_text fuel fuel WriteBatchPrinter (NewReader g true true 0) r' (take j bs) d) as (d' & offsets & -> & Hl & Hd); [|done|exact Hr|done|].
  { intros pos [seq ops] dx Hx. apply elem_of_take in Hx as (i & Hi & _). apply (Forall_lookup_1 _ _ _ _ Hbs) in Hi as [H1 H2]. by apply WriteBatchPrinter_ok. }
  exists d', j, offsets. split; [done|]. split; [done|]. split; [done|]. intros ->. apply take_ge. destruct (decide (j < length bs)%nat) as [Hlt|]; [|lia].
  destruct Hmore as (out2 & off2 & Hl2 & Hs2); [by rewrite length_map|]. destruct (log_file_take _ _ _ _ (S j) Hlog) as (out3 & off3 & Hl3 & Hs3).
  destruct (log_file_det _ _ _ _ Hl2 _ _ Hl3) as [-> ->]. rewrite app_nil_r in Hs3. lia.
Qed.

(** Dumping what an iterator goes over prints an entry to a line. *)
Lemma print_entries_ok `{C : Comparator} {J} `{Iterator J} kvs : forall before after fuel (i : J) d, kvs = before ++ after -> (length after < fuel)%nat ->
  iterates_at i kvs (if decide (after = []) then None else Some (length before)) ->
  exists i' d', print_entries fuel i d = Ok (i', d') /\ Status_ok (it_status i') = true /\
    wf_contents d' = wf_contents d ++ concat (map (fun p => entry_line p.1 p.2) after).
Proof.
  intros before after. revert before. induction after as [|p after IH]; intros before fuel i d Hk Hf Hi; (destruct fuel as [|fuel]; [cbn in Hf; lia|]); cbn [print_entries].
  - cbn in Hi. rewrite (iterates_valid i kvs None Hi). cbn. exists i, d. split; [done|]. split; [apply (iterates_reads i kvs None Hi)|by rewrite app_nil_r].
  - rewrite decide_False in Hi by done. destruct (iterates_middle i kvs before p after Hk Hi) as (-> & -> & -> & i' & En & Hi'). cbn [res_bind]. rewrite En. cbn [res_bind].
    destruct (IH (before ++ [p]) fuel i' (print d (entry_line p.1 p.2))) as (i2 & d2 & -> & Hs & Hd); [by rewrite Hk, <- app_assoc|cbn in Hf; lia|done|].
    exists i2, d2. split; [done|]. split; [done|]. cbn [map concat]. by rewrite Hd, print_contents, <- app_assoc.
Qed.
End printed.
