(* ===== verification/DbState.v ===== *)
(** * The database object

    The state of [DBImpl] of [cpp/leveldb/db/db_impl.h] and the operations of
    [cpp/leveldb/db/db_impl.cc] that run under its mutex without waiting: snapshots,
    scheduling, the removal of obsolete files, reads.

    An operation is a function of the database, its table cache and the file system, in a
    monad of state and undefined behaviour.  Memtables are reached through identities that
    stand for their addresses, so that their reference counts matter.  Messages to the
    information log are left out.  The flag [has_imm_] always agrees with [imm_], under
    the mutex, and is read from there. *)
From Stdlib Require Import Floats.SpecFloat.
From stdpp Require Import gmap.
From S2P Require Import Prelude Coding Comparator Status Logging DbFormat LogWriter LogReader WriteBatch Random Snapshot SkipList MemTable Cursor MemIter Block Merger TwoLevel TableBuilder VersionEdit FileSearch Version VersionBuilder VersionSet Compaction VersionIter Filename Manifest DbIter.

(** ** What the database asks of its environment *)

(** The operations on directories, locks and the clock of [Env]. *)
Class DbEnv `{FE : FileEnv} := {
  FLock : Type;
  env_GetChildren : FS -> bytes -> list bytes * Status;
  env_FileExists : FS -> bytes -> bool;
  env_CreateDir : FS -> bytes -> FS * Status;
  env_RemoveDir : FS -> bytes -> FS * Status;
  env_LockFile : FS -> bytes -> FS * (FLock + Status);
  env_UnlockFile : FS -> FLock -> FS * Status;
  env_NewLogger : FS -> bytes -> FS * bool;
  env_NowMicros : FS -> FS * Z
}.

(** [TableCache::Evict]. *)
Class TableEvict (T : Type) := tc_Evict : T -> Z -> T.

(** ** Options *)

Definition kNumNonTableCacheFiles : Z := 10.

(** [has_info_log] and [has_block_cache] say whether these pointers are not null. *)
Record DbOptions := MkDbOptions {
  table_options : Options;
  create_if_missing : bool;
  error_if_exists : bool;
  has_info_log : bool;
  has_block_cache : bool;
  write_buffer_size : Z;
  max_open_files : Z;
  max_file_size : Z;
  reuse_logs : bool
}.

(** The bounds are [int]s, and so is the value when it is compared. *)
Definition ClipToRange (x minvalue maxvalue : Z) : Z :=
  let x := if int32 x >? maxvalue then maxvalue else x in
  if int32 x <? minvalue then minvalue else x.

(** The cast to [int] lets large sizes slip through or turns them into the minimum. *)
Lemma ClipToRange_casts : ClipToRange (2 ^ 31) (64 ≪ 10) (1 ≪ 30) = 64 ≪ 10 /\ ClipToRange (2 ^ 32 + 100000) (64 ≪ 10) (1 ≪ 30) = 2 ^ 32 + 100000.
Proof. by vm_compute. Qed.

Definition clip_options (o : DbOptions) (has_log : bool) : DbOptions :=
  let t := table_options o in
  MkDbOptions
    (MkOptions (ClipToRange (block_size t) (1 ≪ 10) (4 ≪ 20)) (opt_block_restart_interval t) (compression t) (filter_policy t)
       (paranoid_checks t))
    (create_if_missing o) (error_if_exists o) has_log true
    (ClipToRange (write_buffer_size o) (64 ≪ 10) (1 ≪ 30))
    (ClipToRange (max_open_files o) (64 + kNumNonTableCacheFiles) 50000)
    (ClipToRange (max_file_size o) (1 ≪ 20) (1 ≪ 30)) (reuse_logs o).

(** The comparator and the filter policy, wrapped for internal keys, come with the classes
    and the table options. *)
Definition SanitizeOptions `{DE : DbEnv} (w : FS) (dbname : bytes) (src : DbOptions) : FS * DbOptions :=
  if has_info_log src then (w, clip_options src true)
  else
    let w := (env_CreateDir w dbname).1 in
    let w := (env_RenameFile w (InfoLogFileName dbname) (OldInfoLogFileName dbname)).1 in
    let '(w, ok) := env_NewLogger w (InfoLogFileName dbname) in
    (w, clip_options src ok).

Definition TableCacheSize (sanitized_options : DbOptions) : Z := max_open_files sanitized_options - kNumNonTableCacheFiles.

(** ** The state *)

(** [Writer]: [w_awake] is false while its thread waits for [cv]. *)
Record DbWriter := MkDbWriter { w_status : Status; w_batch : option bytes; w_sync : bool; w_done : bool; w_awake : bool }.

(** The ends of the range are internal keys. *)
Record ManualCompaction := MkManual { m_level : nat; m_done : bool; m_begin : option bytes; m_end : option bytes }.

Record CompactionStats := MkCompactionStats { micros : Z; bytes_read : Z; bytes_written : Z }.

Definition CompactionStats_Add (s c : CompactionStats) : CompactionStats :=
  MkCompactionStats (int64 (micros s + micros c)) (int64 (bytes_read s + bytes_read c)) (int64 (bytes_written s + bytes_written c)).

(** The waiting queue holds the addresses of writers, and [manual_compaction_] that of a
    request of [manuals_].  [db_log_] is [logfile_] with the
    position of [log_] in its block.  [db_signals_] counts the calls of [SignalAll] on
    [background_work_finished_signal_]; [db_seeks_] keeps [allowed_seeks] of the files. *)
Record DBImpl (W : Type) := MkDB {
  db_options_ : DbOptions;
  dbname_ : bytes;
  shutting_down_ : bool;
  memtables_ : gmap Z MemTable;
  next_mem_ : Z;
  db_mem_ : option Z;
  db_imm_ : option Z;
  db_log_ : option (W * Z);
  logfile_number_ : Z;
  seed_ : Z;
  writer_of_ : gmap Z DbWriter;
  writers_ : list Z;
  tmp_batch_ : bytes;
  snapshots_ : SnapshotList;
  pending_outputs_ : gset Z;
  background_compaction_scheduled_ : bool;
  manuals_ : gmap Z ManualCompaction;
  manual_compaction_ : option Z;
  db_versions_ : VersionSet W;
  db_seeks_ : Seeks;
  bg_error_ : Status;
  stats_ : list CompactionStats;
  db_signals_ : Z
}.
Arguments MkDB {W}.
Arguments db_options_ {W}.
Arguments dbname_ {W}.
Arguments shutting_down_ {W}.
Arguments memtables_ {W}.
Arguments next_mem_ {W}.
Arguments db_mem_ {W}.
Arguments db_imm_ {W}.
Arguments db_log_ {W}.
Arguments logfile_number_ {W}.
Arguments seed_ {W}.
Arguments writer_of_ {W}.
Arguments writers_ {W}.
Arguments tmp_batch_ {W}.
Arguments snapshots_ {W}.
Arguments pending_outputs_ {W}.
Arguments background_compaction_scheduled_ {W}.
Arguments manuals_ {W}.
Arguments manual_compaction_ {W}.
Arguments db_versions_ {W}.
Arguments db_seeks_ {W}.
Arguments bg_error_ {W}.
Arguments stats_ {W}.
Arguments db_signals_ {W}.

Section setters.
Context {W : Type}.
Implicit Type d : DBImpl W.

(** Assignments to members. *)
Definition set_shutting_down d (b : bool) : DBImpl W :=
  MkDB (db_options_ d) (dbname_ d) b (memtables_ d) (next_mem_ d) (db_mem_ d) (db_imm_ d) (db_log_ d)
    (logfile_number_ d) (seed_ d) (writer_of_ d) (writers_ d) (tmp_batch_ d) (snapshots_ d)
    (pending_outputs_ d) (background_compaction_scheduled_ d) (manuals_ d) (manual_compaction_ d) (db_versions_ d)
    (db_seeks_ d) (bg_error_ d) (stats_ d) (db_signals_ d).
Definition set_memtables d (m : gmap Z MemTable) (n : Z) : DBImpl W :=
  MkDB (db_options_ d) (dbname_ d) (shutting_down_ d) m n (db_mem_ d) (db_imm_ d) (db_log_ d)
    (logfile_number_ d) (seed_ d) (writer_of_ d) (writers_ d) (tmp_batch_ d) (snapshots_ d)
    (pending_outputs_ d) (background_compaction_scheduled_ d) (manuals_ d) (manual_compaction_ d) (db_versions_ d)
    (db_seeks_ d) (bg_error_ d) (stats_ d) (db_signals_ d).
Definition set_mem d (m : option Z) : DBImpl W :=
  MkDB (db_options_ d) (dbname_ d) (shutting_down_ d) (memtables_ d) (next_mem_ d) m (db_imm_ d) (db_log_ d)
    (logfile_number_ d) (seed_ d) (writer_of_ d) (writers_ d) (tmp_batch_ d) (snapshots_ d)
    (pending_outputs_ d) (background_compaction_scheduled_ d) (manuals_ d) (manual_compaction_ d) (db_versions_ d)
    (db_seeks_ d) (bg_error_ d) (stats_ d) (db_signals_ d).
Definition set_imm d (m : option Z) : DBImpl W :=
  MkDB (db_options_ d) (dbname_ d) (shutting_down_ d) (memtables_ d) (next_mem_ d) (db_mem_ d) m (db_log_ d)
    (logfile_number_ d) (seed_ d) (writer_of_ d) (writers_ d) (tmp_batch_ d) (snapshots_ d)
    (pending_outputs_ d) (background_compaction_scheduled_ d) (manuals_ d) (manual_compaction_ d) (db_versions_ d)
    (db_seeks_ d) (bg_error_ d) (stats_ d) (db_signals_ d).
Definition set_log d (l : option (W * Z)) (n : Z) : DBImpl W :=
  MkDB (db_options_ d) (dbname_ d) (shutting_down_ d) (memtables_ d) (next_mem_ d) (db_mem_ d) (db_imm_ d) l n
    (seed_ d) (writer_of_ d) (writers_ d) (tmp_batch_ d) (snapshots_ d) (pending_outputs_ d)
    (background_compaction_scheduled_ d) (manuals_ d) (manual_compaction_ d) (db_versions_ d) (db_seeks_ d) (bg_error_ d)
    (stats_ d) (db_signals_ d).
Definition set_seed d (n : Z) : DBImpl W :=
  MkDB (db_options_ d) (dbname_ d) (shutting_down_ d) (memtables_ d) (next_mem_ d) (db_mem_ d) (db_imm_ d)
    (db_log_ d) (logfile_number_ d) n (writer_of_ d) (writers_ d) (tmp_batch_ d) (snapshots_ d)
    (pending_outputs_ d) (background_compaction_scheduled_ d) (manuals_ d) (manual_compaction_ d) (db_versions_ d)
    (db_seeks_ d) (bg_error_ d) (stats_ d) (db_signals_ d).
Definition set_writers d (m : gmap Z DbWriter) (q : list Z) : DBImpl W :=
  MkDB (db_options_ d) (dbname_ d) (shutting_down_ d) (memtables_ d) (next_mem_ d) (db_mem_ d) (db_imm_ d)
    (db_log_ d) (logfile_number_ d) (seed_ d) m q (tmp_batch_ d) (snapshots_ d) (pending_outputs_ d)
    (background_compaction_scheduled_ d) (manuals_ d) (manual_compaction_ d) (db_versions_ d) (db_seeks_ d) (bg_error_ d)
    (stats_ d) (db_signals_ d).
Definition set_tmp_batch d (b : bytes) : DBImpl W :=
  MkDB (db_options_ d) (dbname_ d) (shutting_down_ d) (memtables_ d) (next_mem_ d) (db_mem_ d) (db_imm_ d)
    (db_log_ d) (logfile_number_ d) (seed_ d) (writer_of_ d) (writers_ d) b (snapshots_ d)
    (pending_outputs_ d) (background_compaction_scheduled_ d) (manuals_ d) (manual_compaction_ d) (db_versions_ d)
    (db_seeks_ d) (bg_error_ d) (stats_ d) (db_signals_ d).
Definition set_snapshots d (s : SnapshotList) : DBImpl W :=
  MkDB (db_options_ d) (dbname_ d) (shutting_down_ d) (memtables_ d) (next_mem_ d) (db_mem_ d) (db_imm_ d)
    (db_log_ d) (logfile_number_ d) (seed_ d) (writer_of_ d) (writers_ d) (tmp_batch_ d) s
    (pending_outputs_ d) (background_compaction_scheduled_ d) (manuals_ d) (manual_compaction_ d) (db_versions_ d)
    (db_seeks_ d) (bg_error_ d) (stats_ d) (db_signals_ d).
Definition set_pending d (p : gset Z) : DBImpl W :=
  MkDB (db_options_ d) (dbname_ d) (shutting_down_ d) (memtables_ d) (next_mem_ d) (db_mem_ d) (db_imm_ d)
    (db_log_ d) (logfile_number_ d) (seed_ d) (writer_of_ d) (writers_ d) (tmp_batch_ d) (snapshots_ d) p
    (background_compaction_scheduled_ d) (manuals_ d) (manual_compaction_ d) (db_versions_ d) (db_seeks_ d) (bg_error_ d)
    (stats_ d) (db_signals_ d).
Definition set_scheduled d (b : bool) : DBImpl W :=
  MkDB (db_options_ d) (dbname_ d) (shutting_down_ d) (memtables_ d) (next_mem_ d) (db_mem_ d) (db_imm_ d)
    (db_log_ d) (logfile_number_ d) (seed_ d) (writer_of_ d) (writers_ d) (tmp_batch_ d) (snapshots_ d)
    (pending_outputs_ d) b (manuals_ d) (manual_compaction_ d) (db_versions_ d) (db_seeks_ d) (bg_error_ d) (stats_ d)
    (db_signals_ d).
Definition set_manual d (ms : gmap Z ManualCompaction) (m : option Z) : DBImpl W :=
  MkDB (db_options_ d) (dbname_ d) (shutting_down_ d) (memtables_ d) (next_mem_ d) (db_mem_ d) (db_imm_ d)
    (db_log_ d) (logfile_number_ d) (seed_ d) (writer_of_ d) (writers_ d) (tmp_batch_ d) (snapshots_ d)
    (pending_outputs_ d) (background_compaction_scheduled_ d) ms m (db_versions_ d) (db_seeks_ d) (bg_error_ d)
    (stats_ d) (db_signals_ d).
Definition set_version_set d (v : VersionSet W) : DBImpl W :=
  MkDB (db_options_ d) (dbname_ d) (shutting_down_ d) (memtables_ d) (next_mem_ d) (db_mem_ d) (db_imm_ d)
    (db_log_ d) (logfile_number_ d) (seed_ d) (writer_of_ d) (writers_ d) (tmp_batch_ d) (snapshots_ d)
    (pending_outputs_ d) (background_compaction_scheduled_ d) (manuals_ d) (manual_compaction_ d) v (db_seeks_ d)
    (bg_error_ d) (stats_ d) (db_signals_ d).
Definition set_seeks d (m : Seeks) : DBImpl W :=
  MkDB (db_options_ d) (dbname_ d) (shutting_down_ d) (memtables_ d) (next_mem_ d) (db_mem_ d) (db_imm_ d)
    (db_log_ d) (logfile_number_ d) (seed_ d) (writer_of_ d) (writers_ d) (tmp_batch_ d) (snapshots_ d)
    (pending_outputs_ d) (background_compaction_scheduled_ d) (manuals_ d) (manual_compaction_ d) (db_versions_ d) m
    (bg_error_ d) (stats_ d) (db_signals_ d).
Definition set_bg_error d (s : Status) : DBImpl W :=
  MkDB (db_options_ d) (dbname_ d) (shutting_down_ d) (memtables_ d) (next_mem_ d) (db_mem_ d) (db_imm_ d)
    (db_log_ d) (logfile_number_ d) (seed_ d) (writer_of_ d) (writers_ d) (tmp_batch_ d) (snapshots_ d)
    (pending_outputs_ d) (background_compaction_scheduled_ d) (manuals_ d) (manual_compaction_ d) (db_versions_ d)
    (db_seeks_ d) s (stats_ d) (db_signals_ d).
Definition set_stats d (l : list CompactionStats) : DBImpl W :=
  MkDB (db_options_ d) (dbname_ d) (shutting_down_ d) (memtables_ d) (next_mem_ d) (db_mem_ d) (db_imm_ d)
    (db_log_ d) (logfile_number_ d) (seed_ d) (writer_of_ d) (writers_ d) (tmp_batch_ d) (snapshots_ d)
    (pending_outputs_ d) (background_compaction_scheduled_ d) (manuals_ d) (manual_compaction_ d) (db_versions_ d)
    (db_seeks_ d) (bg_error_ d) l (db_signals_ d).
Definition set_signals d (n : Z) : DBImpl W :=
  MkDB (db_options_ d) (dbname_ d) (shutting_down_ d) (memtables_ d) (next_mem_ d) (db_mem_ d) (db_imm_ d)
    (db_log_ d) (logfile_number_ d) (seed_ d) (writer_of_ d) (writers_ d) (tmp_batch_ d) (snapshots_ d)
    (pending_outputs_ d) (background_compaction_scheduled_ d) (manuals_ d) (manual_compaction_ d) (db_versions_ d)
    (db_seeks_ d) (bg_error_ d) (stats_ d) n.
End setters.

(** ** Programs *)

(** A file system, the table cache and the database over it. *)
Record World (FS T W : Type) := MkWorld { wo_fs : FS; wo_tables : T; wo_db : DBImpl W }.
Arguments MkWorld {FS T W}.
Arguments wo_fs {FS T W}.
Arguments wo_tables {FS T W}.
Arguments wo_db {FS T W}.

Definition Prog (FS T W A : Type) : Type := World FS T W -> res (A * World FS T W).

Definition p_ret {FS T W A} (a : A) : Prog FS T W A := fun w => Ok (a, w).
Definition p_bind {FS T W A B} (m : Prog FS T W A) (k : A -> Prog FS T W B) : Prog FS T W B :=
  fun w => let? r := m w in k r.1 r.2.

Notation "'let!' x := m 'in' k" := (p_bind m (fun x => k))
  (at level 10, x binder, m at level 100, k at level 200).

Definition p_lift {FS T W A} (r : res A) : Prog FS T W A := fun w => let? a := r in Ok (a, w).
Definition p_get {FS T W A} (f : DBImpl W -> A) : Prog FS T W A := fun w => Ok (f (wo_db w), w).
Definition p_read {FS T W A} (f : DBImpl W -> res A) : Prog FS T W A := fun w => let? a := f (wo_db w) in Ok (a, w).
Definition p_set {FS T W} (f : DBImpl W -> DBImpl W) : Prog FS T W () :=
  fun w => Ok (tt, MkWorld (wo_fs w) (wo_tables w) (f (wo_db w))).
Definition p_update {FS T W A} (f : DBImpl W -> res (DBImpl W * A)) : Prog FS T W A :=
  fun w => let? r := f (wo_db w) in Ok (r.2, MkWorld (wo_fs w) (wo_tables w) r.1).
Definition p_fs {FS T W A} (f : FS -> FS * A) : Prog FS T W A :=
  fun w => let r := f (wo_fs w) in Ok (r.2, MkWorld r.1 (wo_tables w) (wo_db w)).
Definition p_fs_res {FS T W A} (f : FS -> res (FS * A)) : Prog FS T W A :=
  fun w => let? r := f (wo_fs w) in Ok (r.2, MkWorld r.1 (wo_tables w) (wo_db w)).
Definition p_tables {FS T W A} (f : FS * T -> res (FS * T * A)) : Prog FS T W A :=
  fun w => let? r := f (wo_fs w, wo_tables w) in Ok (r.2, MkWorld r.1.1 r.1.2 (wo_db w)).

(** *** What programs preserve *)

(** From every world the database before is related to the one after. *)
Definition preserves {FS T W A} (R : relation (DBImpl W)) (m : Prog FS T W A) : Prop :=
  forall w a w', m w = Ok (a, w') -> R (wo_db w) (wo_db w').

Section preserves.
Context {FS T W : Type} (R : relation (DBImpl W)) `{!PreOrder R}.

Lemma preserves_ret {A} (a : A) : preserves R (p_ret (FS := FS) (T := T) a).
Proof. by intros w x w' [= <- <-]. Qed.

Lemma preserves_bind {A B} (m : Prog FS T W A) (k : A -> Prog FS T W B) : preserves R m -> (forall a, preserves R (k a)) -> preserves R (p_bind m k).
Proof.
  intros Hm Hk w b w2 E. unfold p_bind in E. destruct (m w) as [[a w1]| |] eqn:Em; [|done..]. cbn in E.
  etransitivity; [by apply (Hm w a w1)|by apply (Hk a w1 b w2)].
Qed.

Lemma preserves_get {A} (f : DBImpl W -> A) : preserves R (p_get (FS := FS) (T := T) f).
Proof. by intros w x w' [= <- <-]. Qed.

Lemma preserves_read {A} (f : DBImpl W -> res A) : preserves R (p_read (FS := FS) (T := T) f).
Proof. intros w x w' E. unfold p_read in E. destruct (f (wo_db w)); [|done..]. by injection E as <- <-. Qed.

Lemma preserves_lift {A} (r : res A) : preserves R (p_lift (FS := FS) (T := T) r).
Proof. intros w x w' E. unfold p_lift in E. destruct r; [|done..]. by injection E as <- <-. Qed.

Lemma preserves_fs {A} (f : FS -> FS * A) : preserves R (p_fs (T := T) f).
Proof. by intros w x w' [= <- <-]. Qed.

Lemma preserves_fs_res {A} (f : FS -> res (FS * A)) : preserves R (p_fs_res (T := T) f).
Proof. intros w x w' E. unfold p_fs_res in E. destruct (f (wo_fs w)); [|done..]. by injection E as <- <-. Qed.

Lemma preserves_tables {A} (f : FS * T -> res (FS * T * A)) : preserves R (p_tables f).
Proof. intros w x w' E. unfold p_tables in E. destruct (f (wo_fs w, wo_tables w)) as [[[fs t] a]| |]; [|done..]. by injection E as <- <-. Qed.

Lemma preserves_set (f : DBImpl W -> DBImpl W) : (forall d, R d (f d)) -> preserves R (p_set (FS := FS) (T := T) f).
Proof. intros Hf w x w' [= <- <-]. apply Hf. Qed.

Lemma preserves_update {A} (f : DBImpl W -> res (DBImpl W * A)) :
  (forall d d' a, f d = Ok (d', a) -> R d d') -> preserves R (p_update (FS := FS) (T := T) f).
Proof. intros Hf w x w' E. unfold p_update in E. destruct (f (wo_db w)) as [[d a]| |] eqn:Ef; [|done..]. injection E as <- <-. by apply (Hf _ _ a). Qed.
End preserves.

Create HintDb frames.
#[export] Hint Resolve preserves_ret preserves_get preserves_read preserves_lift preserves_fs preserves_fs_res preserves_tables : frames.

Ltac frame :=
  repeat first
    [ solve [eauto with frames typeclass_instances]
    | match goal with |- preserves _ (p_bind _ _) => apply preserves_bind; [apply _| |intros ?] end
    | apply preserves_set; intros ?; by split_and!
    | match goal with |- preserves _ (match ?x with _ => _ end) => destruct x end
    | match goal with |- preserves _ (if ?x then _ else _) => destruct x end ].

(** ** Memtables and versions in use *)

Section state.
Context `{C : Comparator} {W : Type}.
Implicit Type d : DBImpl W.

Definition find_mem d (id : Z) : res MemTable :=
  match memtables_ d !! id with Some m => Ok m | None => Undefined end.

(** [new MemTable] and its [Ref]. *)
Definition new_mem d : DBImpl W * Z :=
  let id := next_mem_ d in
  (set_memtables d (<[id := Ref NewMemTable]> (memtables_ d)) (id + 1), id).

Definition put_mem d (id : Z) (m : MemTable) : DBImpl W := set_memtables d (<[id := m]> (memtables_ d)) (next_mem_ d).

Definition mem_Ref d (id : Z) : res (DBImpl W) :=
  let? m := find_mem d id in Ok (put_mem d id (Ref m)).

Definition mem_Unref d (id : Z) : res (DBImpl W) :=
  let? m := find_mem d id in
  Ok (match Unref m with
      | Some m => put_mem d id m
      | None => set_memtables d (delete id (memtables_ d)) (next_mem_ d)
      end).

(** What a reader holds while it works without the mutex. *)
Record ReadRefs := MkRefs { rr_mem : Z; rr_imm : option Z; rr_version : Z }.

Definition opt_mem (f : DBImpl W -> Z -> res (DBImpl W)) d (id : option Z) : res (DBImpl W) :=
  match id with Some id => f d id | None => Ok d end.

Definition hold_refs d : res (DBImpl W * ReadRefs) :=
  match db_mem_ d, current_ (db_versions_ d) with
  | Some mem, Some current =>
      let? d := mem_Ref d mem in
      let? d := opt_mem mem_Ref d (db_imm_ d) in
      Ok (set_version_set d (Version_Ref (db_versions_ d) current), MkRefs mem (db_imm_ d) current)
  | _, _ => Undefined
  end.

Definition drop_refs d (r : ReadRefs) : res (DBImpl W) :=
  let? d := mem_Unref d (rr_mem r) in
  let? d := opt_mem mem_Unref d (rr_imm r) in
  Ok (set_version_set d (Version_Unref (db_versions_ d) (rr_version r))).

(** ** Scheduling and errors *)

Definition SignalAll d : DBImpl W := set_signals d (db_signals_ d + 1).

Definition RecordBackgroundError (s : Status) d : DBImpl W :=
  if Status_ok (bg_error_ d) then SignalAll (set_bg_error d s) else d.

(** Scheduled is the flag: [env_->Schedule] starts [BackgroundCall] in another thread. *)
Definition MaybeScheduleCompaction d : res (DBImpl W) :=
  if background_compaction_scheduled_ d then Ok d
  else if shutting_down_ d then Ok d
  else if negb (Status_ok (bg_error_ d)) then Ok d
  else
    let? needs := NeedsCompaction (db_versions_ d) in
    if bool_decide (db_imm_ d = None) && bool_decide (manual_compaction_ d = None) && negb needs then Ok d
    else Ok (set_scheduled d true).

Definition MaybeIgnoreError d (s : Status) : Status :=
  if Status_ok s || paranoid_checks (table_options (db_options_ d)) then s else Status_OK.

(** ** Snapshots *)

Definition GetSnapshot d : res (DBImpl W * Z) :=
  match Snapshot_New (snapshots_ d) (vs_last_sequence_ (db_versions_ d)) with
  | Some (l, snapshot) => Ok (set_snapshots d l, snapshot)
  | None => Undefined
  end.

Definition ReleaseSnapshot d (snapshot : Z) : res (DBImpl W) :=
  match Snapshot_Delete (snapshots_ d) snapshot with
  | Some l => Ok (set_snapshots d l)
  | None => Undefined
  end.

(** The sequence number a read option asks for. *)
Definition read_sequence d (snapshot : option Z) : res Z :=
  match snapshot with
  | None => Ok (vs_last_sequence_ (db_versions_ d))
  | Some a => match sn_sequence_number (snapshots_ d) a with Some n => Ok n | None => Undefined end
  end.

(** ** Read statistics *)

Definition current_update d (f : Seeks -> Version -> res (Seeks * Version * bool)) (id : Z) : res (DBImpl W) :=
  let? v := find_version (db_versions_ d) id in
  let? r := f (db_seeks_ d) v in
  let '(seeks, v, updated) := r in
  let d := set_version_set (set_seeks d seeks) (update_version (db_versions_ d) id (fun _ => v)) in
  if updated then MaybeScheduleCompaction d else Ok d.

Definition DB_RecordReadSample d (key : bytes) : res (DBImpl W) :=
  match current_ (db_versions_ d) with
  | Some id => current_update d (fun m v => Version_RecordReadSample m v key) id
  | None => Undefined
  end.
End state.
