(* ===== verification/DbFiles.v ===== *)
(** * Files of the database

    [RemoveObsoleteFiles] of [cpp/leveldb/db/db_impl.cc], which decides what may be
    deleted, and [DestroyDB].  The deletions run without the mutex: [obsolete_files] is the
    part under the mutex. *)
From stdpp Require Import gmap.
From S2P Require Import Prelude Coding Comparator Status Logging DbFormat LogWriter TableBuilder Snapshot SkipList MemTable Cursor Block Merger VersionEdit FileSearch Version VersionBuilder VersionSet Filename Manifest DbState.

Section files.
Context `{C : Comparator} `{DE : DbEnv} {T : Type} `{TE : !TableEvict T}.
Implicit Type d : DBImpl WFile.
Implicit Type vs : VersionSet WFile.

(** The [switch] over the type. *)
Definition keep_file vs (live : gset Z) (number : Z) (type : FileType) : bool :=
  match type with
  | kLogFile => (vs_log_number_ vs <=? number) || (number =? vs_prev_log_number_ vs)
  | kDescriptorFile => manifest_file_number_ vs <=? number
  | kTableFile | kTempFile => bool_decide (number ∈ live)
  | kCurrentFile | kDBLockFile | kInfoLogFile => true
  end.

(** The names to delete, and the tables to evict from the cache. *)
Fixpoint obsolete_files vs (live : gset Z) (filenames : list bytes) : list bytes * list Z :=
  match filenames with
  | [] => ([], [])
  | filename :: filenames =>
      let '(files_to_delete, evicted) := obsolete_files vs live filenames in
      match ParseFileName filename with
      | Some (number, type) =>
          if keep_file vs live number type then (files_to_delete, evicted)
          else (filename :: files_to_delete, if bool_decide (type = kTableFile) then number :: evicted else evicted)
      | None => (files_to_delete, evicted)
      end
  end.

Definition RemoveFiles (w : FS) (dbname : bytes) (files_to_delete : list bytes) : FS :=
  foldl (fun w filename => (env_RemoveFile w (dbname ++ str "/" ++ filename)).1) w files_to_delete.

Definition live_files d : gset Z := AddLiveFiles (db_versions_ d) (pending_outputs_ d).

Definition RemoveObsoleteFiles : Prog FS T WFile () := fun w =>
  let d := wo_db w in
  if negb (Status_ok (bg_error_ d)) then Ok (tt, w)
  else
    let '(files_to_delete, evicted) := obsolete_files (db_versions_ d) (live_files d) (env_GetChildren (wo_fs w) (dbname_ d)).1 in
    Ok (tt, MkWorld (RemoveFiles (wo_fs w) (dbname_ d) files_to_delete) (foldl tc_Evict (wo_tables w) evicted) d).

(** The parsed names are removed, the lock file last; the first error counts. *)
Fixpoint destroy_loop (w : FS) (dbname : bytes) (filenames : list bytes) (result : Status) : FS * Status :=
  match filenames with
  | [] => (w, result)
  | filename :: filenames =>
      match ParseFileName filename with
      | Some (_, type) =>
          if bool_decide (type = kDBLockFile) then destroy_loop w dbname filenames result
          else
            let '(w, del) := env_RemoveFile w (dbname ++ str "/" ++ filename) in
            destroy_loop w dbname filenames (if Status_ok result && negb (Status_ok del) then del else result)
      | None => destroy_loop w dbname filenames result
      end
  end.

Definition DestroyDB (w : FS) (dbname : bytes) : FS * Status :=
  let '(filenames, result) := env_GetChildren w dbname in
  if negb (Status_ok result) then (w, Status_OK)
  else
    let lockname := LockFileName dbname in
    match env_LockFile w lockname with
    | (w, inr s) => (w, s)
    | (w, inl lock) =>
        let '(w, result) := destroy_loop w dbname filenames Status_OK in
        let w := (env_UnlockFile w lock).1 in
        let w := (env_RemoveFile w lockname).1 in
        ((env_RemoveDir w dbname).1, result)
    end.
End files.

(** ** What may be deleted *)

Lemma obsolete_files_elem `{En : Env} (vs : VersionSet WFile) live filenames del evicted :
  obsolete_files vs live filenames = (del, evicted) ->
  (forall filename, filename ∈ del <-> filename ∈ filenames /\
     exists number type, ParseFileName filename = Some (number, type) /\ keep_file vs live number type = false) /\
  (forall n, n ∈ evicted <-> exists filename, filename ∈ filenames /\
     ParseFileName filename = Some (n, kTableFile) /\ keep_file vs live n kTableFile = false).
Proof.
  revert del evicted. induction filenames as [|f fs IH]; intros del evicted E; cbn [obsolete_files] in E.
  { injection E as <- <-. split; intros x; (split; [intros H; by apply elem_of_nil in H|]).
    - intros [H _]. by apply elem_of_nil in H.
    - intros (y & H & _). by apply elem_of_nil in H. }
  destruct (obsolete_files vs live fs) as [del' ev'] eqn:E'. destruct (IH _ _ eq_refl) as [I1 I2]. clear IH.
  destruct (ParseFileName f) as [[number type]|] eqn:Ep.
  - destruct (keep_file vs live number type) eqn:Ek; injection E as <- <-.
    + split; intros x; rewrite ?I1, ?I2; setoid_rewrite elem_of_cons.
      * split; [intros [Hx H]; auto|]. intros [[->|Hx] H]; [|auto]. destruct H as (a & b & H1 & H2). congruence.
      * split; [intros (g & Hg & H); exists g; auto|]. intros (g & [->|Hg] & H1 & H2); [congruence|by exists g].
    + split; intros x.
      * rewrite !elem_of_cons, I1. split; [intros [->|[Hx H]]; split; eauto|]. intros [[->|Hx] H]; auto.
      * assert (Hx : x ∈ (if bool_decide (type = kTableFile) then number :: ev' else ev') <-> (type = kTableFile /\ x = number) \/ x ∈ ev').
        { destruct (bool_decide_reflect (type = kTableFile)) as [->|Hn]; [rewrite elem_of_cons; tauto|tauto]. }
        rewrite Hx, I2. setoid_rewrite elem_of_cons. split.
        -- intros [[-> ->]|(g & Hg & H)]; [exists f; auto|exists g; auto].
        -- intros (g & [->|Hg] & H1 & H2); [left; rewrite Ep in H1; by injection H1 as -> ->|right; by exists g].
  - injection E as <- <-. split; intros x; rewrite ?I1, ?I2; setoid_rewrite elem_of_cons.
    + split; [intros [Hx H]; auto|]. intros [[->|Hx] H]; [|auto]. destruct H as (a & b & H1 & H2). congruence.
    + split; [intros (g & Hg & H); exists g; auto|]. intros (g & [->|Hg] & H1 & H2); [congruence|by exists g].
Qed.

Section survive.
Context `{C : Comparator} `{DE : DbEnv} `{L : !EnvLaws} {T : Type} `{TE : !TableEvict T}.

Lemma RemoveFiles_keeps dbname del : forall w name, (forall f, f ∈ del -> name <> dbname ++ str "/" ++ f) ->
  Filename.contents (RemoveFiles w dbname del) name = Filename.contents w name.
Proof.
  induction del as [|f del IH]; intros w name Hn; cbn; [done|]. etransitivity; [apply IH; intros g Hg; apply Hn; by right|].
  apply env_Remove. apply Hn. left.
Qed.

Lemma base_eq (dbname base f : bytes) : dbname ++ str "/" ++ base = dbname ++ str "/" ++ f -> base = f.
Proof. intros H. apply app_inv_head in H. by apply app_inv_head in H. Qed.

(** A file whose number and kind are to be kept is not touched. *)
Lemma kept_survives (w w' : World FS T WFile) name base number type :
  RemoveObsoleteFiles w = Ok (tt, w') -> name = dbname_ (wo_db w) ++ str "/" ++ base -> ParseFileName base = Some (number, type) ->
  keep_file (db_versions_ (wo_db w)) (live_files (wo_db w)) number type = true ->
  Filename.contents (wo_fs w') name = Filename.contents (wo_fs w) name.
Proof.
  intros Er -> Hp Hk. unfold RemoveObsoleteFiles in Er. destruct (negb _); [by injection Er as <-|].
  destruct (obsolete_files _ _ _) as [del evicted] eqn:Eo. injection Er as <-. cbn [wo_fs].
  destruct (obsolete_files_elem _ _ _ _ _ Eo) as [Hdel _]. apply RemoveFiles_keeps. intros f Hf He.
  apply base_eq in He as ->. apply Hdel in Hf as (_ & n & t & Hp' & Hk'). congruence.
Qed.

(** Neither is a file with another name. *)
Lemma foreign_survives (w w' : World FS T WFile) name :
  RemoveObsoleteFiles w = Ok (tt, w') -> (forall base, name = dbname_ (wo_db w) ++ str "/" ++ base -> ParseFileName base = None) ->
  Filename.contents (wo_fs w') name = Filename.contents (wo_fs w) name.
Proof.
  intros Er Hn. unfold RemoveObsoleteFiles in Er. destruct (negb _); [by injection Er as <-|].
  destruct (obsolete_files _ _ _) as [del evicted] eqn:Eo. injection Er as <-. cbn [wo_fs].
  destruct (obsolete_files_elem _ _ _ _ _ Eo) as [Hdel _]. apply RemoveFiles_keeps. intros f Hf He.
  apply Hdel in Hf as (_ & n & t & Hp' & _). rewrite (Hn _ He) in Hp'. done.
Qed.
End survive.

(** The names of the files a database needs: tables of its current version, of versions in
    use and of running compactions, with their temporary files; the logs and the descriptor
    a recovery reads. *)
Inductive needed `{E : Env} (d : DBImpl WFile) (held : list (Z * list (list FileMetaData))) : bytes -> Prop :=
| needed_table n name : fits 64 n ->
    n ∈ pending_outputs_ d \/ (exists v, current (db_versions_ d) = Ok v /\ version_file v n) \/
      (exists id fs f, (id, fs) ∈ held /\ f ∈ concat fs /\ number f = n) ->
    name ∈ [TableFileName (dbname_ d) n; SSTTableFileName (dbname_ d) n; TempFileName (dbname_ d) n] -> needed d held name
| needed_log n : fits 64 n -> vs_log_number_ (db_versions_ d) <= n \/ n = vs_prev_log_number_ (db_versions_ d) ->
    needed d held (LogFileName (dbname_ d) n)
| needed_manifest n : fits 64 n -> manifest_file_number_ (db_versions_ d) <= n -> needed d held (DescriptorFileName (dbname_ d) n)
| needed_other name : name ∈ [CurrentFileName (dbname_ d); LockFileName (dbname_ d); InfoLogFileName (dbname_ d)] -> needed d held name.

(** C13. Garbage collection never deletes a file that is needed.  Whatever the clients of
    the version set have done, [RemoveObsoleteFiles] leaves as they were the tables of the
    current version, of every version a reader or a compaction still holds, and of
    compactions under way, the logs and descriptors recovery would read, CURRENT, and all
    files that are not the database's; of the rest it removes exactly the files in the
    directory that parse as files of the database, evicting the tables among them from the
    cache; and after a background error it removes nothing. *)
Theorem needed_files_survive `{C : Comparator} `{DE : DbEnv} `{L : !EnvLaws} {T : Type} `{TE : !TableEvict T}
    (w : World FS T WFile) (held : list (Z * list (list FileMetaData))) :
  version_run (NewVersionSet, []) (db_versions_ (wo_db w), held) ->
  exists w', RemoveObsoleteFiles w = Ok (tt, w') /\ wo_db w' = wo_db w /\
    (forall name, needed (wo_db w) held name -> Filename.contents (wo_fs w') name = Filename.contents (wo_fs w) name) /\
    (forall name, (forall base, name = dbname_ (wo_db w) ++ str "/" ++ base -> ParseFileName base = None) ->
       Filename.contents (wo_fs w') name = Filename.contents (wo_fs w) name) /\
    if Status_ok (bg_error_ (wo_db w)) then
      exists del evicted, wo_fs w' = RemoveFiles (wo_fs w) (dbname_ (wo_db w)) del /\ wo_tables w' = foldl tc_Evict (wo_tables w) evicted /\
        (forall n, n ∈ evicted <-> exists f, f ∈ del /\ ParseFileName f = Some (n, kTableFile)) /\
        forall f, f ∈ del <-> f ∈ (env_GetChildren (wo_fs w) (dbname_ (wo_db w))).1 /\
          exists n t, ParseFileName f = Some (n, t) /\ keep_file (db_versions_ (wo_db w)) (live_files (wo_db w)) n t = false
    else w' = w.
Proof.
  intros Hrun. assert (Hex : exists w', RemoveObsoleteFiles w = Ok (tt, w') /\ wo_db w' = wo_db w).
  { unfold RemoveObsoleteFiles. destruct (negb _); [by eexists|]. destruct (obsolete_files _ _ _). by eexists. }
  destruct Hex as (w' & Er & Hdb). exists w'. split; [done|]. split; [done|]. split; [|split].
  - intros name [n x Hn Hlive Hx|n Hn Hl|n Hn Hm|x Hx].
    + assert (Hin : n ∈ live_files (wo_db w)).
      { destruct (live_files_exact _ _ (pending_outputs_ (wo_db w)) Hrun) as (_ & v & Hv & Hall). apply Hall.
        destruct Hlive as [|[(v' & Hv' & Hf)|]]; [by left|right; left; rewrite Hv in Hv'; by injection Hv' as <-|by right; right]. }
      rewrite !elem_of_cons, elem_of_nil in Hx.
      assert (Hx' : exists base t, x = dbname_ (wo_db w) ++ str "/" ++ base /\ ParseFileName base = Some (n, t) /\ (t = kTableFile \/ t = kTempFile)).
      { destruct Hx as [->|[->|[->|[]]]]; [eexists _, kTableFile|eexists _, kTableFile|eexists _, kTempFile];
          (split; [reflexivity|]; split; [by apply parse_numbered|auto]). }
      destruct Hx' as (base & t & Ex & Hp & Ht). apply (kept_survives w w' x base n t Er Ex Hp). destruct Ht as [->| ->]; cbn; by apply bool_decide_eq_true_2.
    + eapply (kept_survives w w' _ _ n kLogFile Er); [reflexivity|by apply parse_numbered|]. cbn. apply orb_true_iff. rewrite Z.leb_le, Z.eqb_eq. done.
    + eapply (kept_survives w w' _ _ n kDescriptorFile Er); [reflexivity|by apply parse_manifest|]. cbn. by apply Z.leb_le.
    + rewrite !elem_of_cons, elem_of_nil in Hx.
      destruct Hx as [->|[->|[->|[]]]]; (eapply (kept_survives w w' _ _ 0 _ Er); [reflexivity|reflexivity|reflexivity]).
  - intros name Hn. by apply foreign_survives.
  - unfold RemoveObsoleteFiles in Er. destruct (Status_ok (bg_error_ (wo_db w))); cbn [negb] in Er; [|by injection Er as <-].
    destruct (obsolete_files _ _ _) as [del evicted] eqn:Eo. injection Er as <-. destruct (obsolete_files_elem _ _ _ _ _ Eo) as [Hdel Hev].
    exists del, evicted. split; [done|]. split; [done|]. split; [|exact Hdel]. intros n. rewrite Hev. setoid_rewrite Hdel. split.
    + intros (f & Hf & Hp & Hk). exists f. split; [split; [done|by eexists _, _]|done].
    + intros (f & (Hf & n' & t & Hp' & Hk) & Hp). rewrite Hp in Hp'. injection Hp' as <- <-. by exists f.
Qed.

(** *** An example: table 7 is held by a reader, table 8 is current, table 6 is garbage *)

Definition example_children : list bytes :=
  [str "CURRENT"; str "000003.log"; str "000005.log"; str "000006.ldb"; str "000007.ldb"; str "000008.ldb"; str "notes.txt"].

#[local] Instance mem_db_env : DbEnv (FE := mem_file_env) := {|
  FLock := unit;
  env_GetChildren w dir := (List.filter (fun n => bool_decide (is_Some (w (dir ++ str "/" ++ n)))) example_children, Status_OK);
  env_FileExists w n := bool_decide (is_Some (w n));
  env_CreateDir w _ := (w, Status_OK);
  env_RemoveDir w _ := (w, Status_OK);
  env_LockFile w _ := (w, inl tt);
  env_UnlockFile w _ := (w, Status_OK);
  env_NewLogger w _ := (w, true);
  env_NowMicros w := (w, 0)
|}.

#[local] Instance evict_nothing : TableEvict unit := fun t _ => t.

Definition garbage_versions : VersionSet.VersionSet bytes :=
  set_logs (AppendVersion (Version_Ref (AppendVersion NewVersionSet (one_file 7)) 1) (one_file 8)) 5 0.

Definition example_options : DbOptions := MkDbOptions (MkOptions 4096 16 0 None false) true false true true (4 ≪ 20) 1000 (2 ≪ 20) false.

Definition garbage_db : DBImpl bytes :=
  MkDB example_options (str "db") false ∅ 1 None None None 0 0 ∅ [] [] NewSnapshotList ∅ false ∅ None garbage_versions ∅ Status_OK [] 0.

Definition garbage_world : World (bytes -> option bytes) unit bytes :=
  MkWorld (fun n => if bool_decide (n ∈ map (fun b => str "db/" ++ b) example_children) then Some n else None) tt garbage_db.

Lemma needed_files_survive_witness :
  exists w', RemoveObsoleteFiles (DE := mem_db_env) garbage_world = Ok (tt, w') /\
    Filename.contents (wo_fs w') (str "db/000007.ldb") = Some (str "db/000007.ldb").
Proof.
  destruct (needed_files_survive (C := BytewiseComparator) (DE := mem_db_env) garbage_world [(1, files_ (one_file 7))])
    as (w' & Er & _ & Hn & _).
  - eapply rtc_l; [apply (step_append _ _ (one_file 7))|]. eapply rtc_l; [by apply (step_ref _ _ 1 (one_file 7))|].
    eapply rtc_l; [apply (step_append _ _ (one_file 8))|]. eapply rtc_l; [|apply rtc_refl]. by apply step_counters.
  - exists w'. split; [exact Er|]. rewrite (Hn (str "db/000007.ldb")); [reflexivity|]. apply (needed_table _ _ 7); [unfold fits; lia| |left].
    right. right. exists 1, (files_ (one_file 7)), (NewFileMetaData 7 10 [] []). split; [left|]. by split; [left|].
Defined.
