(* ===== verification/DbRead.v ===== *)
(** * Reading the database

    [Get], the iterators and the informational operations of [DBImpl] of
    [cpp/leveldb/db/db_impl.cc].  A read takes references under the mutex, works without
    it, and gives the references back under the mutex. *)
From Stdlib Require Import Floats.SpecFloat.
From stdpp Require Import gmap.
From S2P Require Import Prelude Coding Comparator Status Logging DbFormat LogWriter WriteBatch Snapshot SkipList MemTable Cursor MemIter Block Merger TwoLevel TableBuilder VersionEdit FileSearch Version VersionBuilder VersionSet Compaction VersionIter Filename Manifest DbIter DbState.

#[local] Existing Instance Sum_Iterator.

Section read.
Context `{C : Comparator} {FS T W : Type} `{TG : !Version.TableCache (FS * T)}.
Abbreviation Prog := (Prog FS T W).

(** ** Get *)

(** The lookup key and the references. *)
Definition Get_begin (snapshot : option Z) (key : bytes) (d : DBImpl W) : res (DBImpl W * (LookupKey * ReadRefs)) :=
  let? n := read_sequence d snapshot in
  let? r := hold_refs d in
  Ok (r.1, (NewLookupKey key n, r.2)).

(** The memtables, then the files: the status, the value and the statistics of the
    version if it was asked. *)
Definition Get_search (lkey : LookupKey) (r : ReadRefs) (value : bytes) : Prog (Status * bytes * option GetStats) :=
  let! mem := p_read (fun d => find_mem d (rr_mem r)) in
  match MemTable_Get mem lkey value Status_OK with
  | None => p_lift Undefined
  | Some (true, value, s) => p_ret (s, value, None)
  | Some (false, value, s) =>
      let! found :=
        match rr_imm r with
        | None => p_ret None
        | Some id =>
            let! imm := p_read (fun d => find_mem d id) in
            match MemTable_Get imm lkey value s with
            | None => p_lift Undefined
            | Some (true, value, s) => p_ret (Some (s, value))
            | Some (false, _, _) => p_ret None
            end
        end in
      match found with
      | Some (s, value) => p_ret (s, value, None)
      | None =>
          let! v := p_read (fun d => find_version (db_versions_ d) (rr_version r)) in
          let! g := p_tables (fun c =>
            let? g := Version_Get v c lkey in
            let '(c, s, found, stats) := g in Ok (c, (s, found, stats))) in
          let '(s, found, stats) := g in
          p_ret (s, default value found, Some stats)
      end
  end.

Definition Get_end (r : ReadRefs) (stats : option GetStats) (d : DBImpl W) : res (DBImpl W) :=
  let? d := match stats with
            | Some stats => current_update d (fun m v => Ok (UpdateStats m v stats)) (rr_version r)
            | None => Ok d
            end in
  drop_refs d r.

Definition Get (snapshot : option Z) (key value : bytes) : Prog (Status * bytes) :=
  let! b := p_update (Get_begin snapshot key) in
  let '(lkey, r) := b in
  let! g := Get_search lkey r value in
  let '(s, value, stats) := g in
  let! _ := p_update (fun d => let? d := Get_end r stats d in Ok (d, tt)) in
  p_ret (s, value).

(** ** Iterators *)

Section iterators.
Context {I : Type} `{TF : !TableFiles (FS * T) I (It := It)} (verify_checksums fill_cache : bool) (fuel : nat).

#[local] Instance level_iterator : Iterator (LevelIterator (T := FS * T) (I := I)) := Level_Iterator verify_checksums fill_cache fuel.

(** The iterator, the last sequence number, the seed, and the references that
    [CleanupIteratorState] gives back. *)
Definition InternalIterator : Type := @MergedIterator (MemTableIter + (I + LevelIterator (T := FS * T) (I := I)))%type.

Definition NewInternalIterator : Prog (InternalIterator * Z * Z * ReadRefs) :=
  let! latest_snapshot := p_get (fun d => vs_last_sequence_ (db_versions_ d)) in
  let! r := p_update hold_refs in
  let! mem := p_read (fun d => find_mem d (rr_mem r)) in
  let! imm := match rr_imm r with
              | Some id => let! m := p_read (fun d => find_mem d id) in p_ret [inl (MemTable_NewIterator m)]
              | None => p_ret []
              end in
  let! v := p_read (fun d => find_version (db_versions_ d) (rr_version r)) in
  let! files := p_tables (fun c => AddIterators verify_checksums fill_cache v c []) in
  let internal_iter := NewMergingIterator (inl (MemTable_NewIterator mem) :: imm ++ map inr files) in
  let! _ := p_set (fun d => set_seed d (u32 (seed_ d + 1))) in
  let! seed := p_get seed_ in
  p_ret (internal_iter, latest_snapshot, seed, r).

Definition CleanupIteratorState (r : ReadRefs) : Prog () :=
  p_update (fun d => let? d := drop_refs d r in Ok (d, tt)).

(** [DB] stands for the database in the iterator, to hand read samples to. *)
Definition NewIterator {DB : Type} `{!ReadSampler DB} (db : DB) (snapshot : option Z)
    : Prog (DBIter.DBIter DB InternalIterator * ReadRefs) :=
  let! i := NewInternalIterator in
  let '(iter, latest_snapshot, seed, r) := i in
  let! n := match snapshot with
            | Some _ => p_read (fun d => read_sequence d snapshot)
            | None => p_ret latest_snapshot
            end in
  p_ret (DBIter.NewDBIterator db iter n seed, r).
End iterators.

(** ** Sizes and properties *)

(** [table_offset] as for [VersionSet_ApproximateOffsetOf]. *)
Definition GetApproximateSizes (table_offset : FS * T -> FileMetaData -> bytes -> res (FS * T * option Z))
    (range : list (bytes * bytes)) : Prog (list Z) :=
  let! r := p_read (fun d => match current_ (db_versions_ d) with Some id => Ok id | None => Undefined end) in
  let! v := p_read (fun d => find_version (db_versions_ d) r) in
  let! _ := p_set (fun d => set_version_set d (Version_Ref (db_versions_ d) r)) in
  let! sizes := foldr (fun rg (rest : Prog (list Z)) =>
      let! start := p_tables (fun c =>
        VersionSet_ApproximateOffsetOf table_offset c v (InternalKey rg.1 kMaxSequenceNumber kValueTypeForSeek)) in
      let! limit := p_tables (fun c =>
        VersionSet_ApproximateOffsetOf table_offset c v (InternalKey rg.2 kMaxSequenceNumber kValueTypeForSeek)) in
      let! sizes := rest in
      p_ret ((if limit >=? start then limit - start else 0) :: sizes)) (p_ret []) range in
  let! _ := p_set (fun d => set_version_set d (Version_Unref (db_versions_ d) r)) in
  p_ret sizes.
End read.

(** [%wd] and [%w.0f]: at least [w] characters; a double rounds to the nearest integer,
    ties to even. *)
Definition pad_left (w : nat) (s : bytes) : bytes := replicate (w - length s) x20 ++ s.

Definition round_even (x : double) : Z :=
  match x with
  | S754_finite s m e =>
      let n :=
        if 0 <=? e then Z.pos m * 2 ^ e
        else
          let q := Z.pos m / 2 ^ (- e) in
          let r := 2 * (Z.pos m mod 2 ^ (- e)) in
          if (r >? 2 ^ (- e)) || ((r =? 2 ^ (- e)) && Z.odd q) then q + 1 else q in
      if s then - n else n
  | _ => 0
  end.

Definition print_double (x : double) : bytes := print_int (round_even x).

Definition stats_header : bytes :=
  str "                               Compactions" ++ [x0a] ++
  str "Level  Files Size(MB) Time(sec) Read(MB) Write(MB)" ++ [x0a] ++
  str "--------------------------------------------------" ++ [x0a].

Definition megabytes (n : Z) : double := double_div (double_of_Z n) (double_of_Z 1048576).

Definition stats_line (level : nat) (files level_bytes : Z) (s : CompactionStats) : bytes :=
  pad_left 3 (print_int (Z.of_nat level)) ++ [x20] ++ pad_left 8 (print_int files) ++ [x20] ++
  pad_left 8 (print_double (megabytes level_bytes)) ++ [x20] ++
  pad_left 9 (print_double (double_div (double_of_Z (micros s)) (double_of_Z 1000000))) ++ [x20] ++
  pad_left 8 (print_double (megabytes (bytes_read s))) ++ [x20] ++
  pad_left 9 (print_double (megabytes (bytes_written s))) ++ [x0a].

Definition property_stats {W} (d : DBImpl W) : res bytes :=
  let? lines := res_imap (fun level s =>
    let? files := NumLevelFiles (db_versions_ d) level in
    if (micros s >? 0) || (files >? 0) then
      let? n := NumLevelBytes (db_versions_ d) level in Ok (stats_line level files n s)
    else Ok []) 0 (stats_ d) in
  Ok (stats_header ++ concat lines).

(** The property, or nothing where the result is false.  [total_charge] is that of the
    block cache; the [char[50]] and [char[100]] buffers are large enough. *)
Definition GetProperty {W} (total_charge : Z) (d : DBImpl W) (property : bytes) : res (option bytes) :=
  if negb (Slice_starts_with property (str "leveldb.")) then Ok None
  else
    let in_ := drop (length (str "leveldb.")) property in
    if Slice_starts_with in_ (str "num-files-at-level") then
      match ConsumeDecimalNumber (drop (length (str "num-files-at-level")) in_) with
      | (true, Some (level, [])) =>
          if level >=? kNumLevels then Ok None
          else let? n := NumLevelFiles (db_versions_ d) (Z.to_nat level) in Ok (Some (print_int n))
      | _ => Ok None
      end
    else if bool_decide (in_ = str "stats") then
      let? s := property_stats d in Ok (Some s)
    else if bool_decide (in_ = str "sstables") then
      let? v := current (db_versions_ d) in Ok (Some (Version_DebugString v))
    else if bool_decide (in_ = str "approximate-memory-usage") then
      let usage id := match id with Some id => let? m := find_mem d id in Ok (ApproximateMemoryUsage m) | None => Ok 0 end in
      let? mem := usage (db_mem_ d) in
      let? imm := usage (db_imm_ d) in
      Ok (Some (decimal (u64 (total_charge + mem + imm))))
    else Ok None.

(** ** What [Get] answers *)

Section get_newest.
Context `{C : Comparator} `{!ComparatorLaws C} `{!ComparatorExact C} (contents : FileMetaData -> list (bytes * bytes)).
Context {FS T W : Type} `{TG : !Version.TableCache (FS * T)} `{TGL : !TableCacheLaws contents (FS * T)}.
#[local] Existing Instances KeyComparator KeyComparatorLaws.
Implicit Type d : DBImpl W.

Definition mem_holds d (id : Z) (es : list entry) : Prop :=
  exists m ks, memtables_ d !! id = Some m /\ 0 < MemTable.refs_ m /\ holds (table_ m) ks /\ ks ≡ₚ map MemTable.encode es /\ Forall MemTable.entry_ok es /\ NoDup (map e_seq es).

(** The database holds the entries [em] in its memtable, [ei] in the one being compacted,
    and those of the files of [v]; for each user key those are in order of age. *)
Record db_holds d (em ei : list entry) (v : Version) : Prop := {
  dh_mem : exists id, db_mem_ d = Some id /\ mem_holds d id em /\ db_imm_ d <> Some id;
  dh_imm : match db_imm_ d with Some id => mem_holds d id ei | None => ei = [] end;
  dh_current : current (db_versions_ d) = Ok v;
  dh_refs : Forall (fun n => 0 < VersionSet.refs_ n) (versions_ (db_versions_ d));
  dh_version : version_holds contents v;
  dh_imm_older a b : a ∈ em -> b ∈ ei -> e_key a = e_key b -> e_seq b < e_seq a;
  dh_files_older level f a x : a ∈ em ++ ei -> f ∈ files_at v level -> x ∈ contents f ->
    ExtractUserKey x.1 = e_key a -> Internal_Compare C (e_ikey a) x.1 < 0
}.

(** An entry of the database that a read of [u] at [s] may see. *)
Definition db_shows (em ei : list entry) (v : Version) (u : bytes) (s : Z) (x : bytes * bytes) : Prop :=
  (x ∈ map entry_pair (em ++ ei) \/ exists level f, f ∈ files_at v level /\ x ∈ contents f) /\
  ExtractUserKey x.1 = u /\ Internal_Compare C (InternalKey u s kValueTypeForSeek) x.1 <= 0.

Lemma e_ikey_user e : ExtractUserKey (e_ikey e) = e_key e.
Proof. unfold e_ikey. by rewrite InternalKey_app, ExtractUserKey_app. Qed.

Lemma entry_visible e u s : MemTable.entry_ok e -> seq_ok s ->
  (ExtractUserKey (e_ikey e) = u /\ Internal_Compare C (InternalKey u s kValueTypeForSeek) (e_ikey e) <= 0 <-> MemTable.visible u s e).
Proof.
  intros (Hs1 & Ht & _) Hs. unfold MemTable.visible. rewrite e_ikey_user.
  assert (Hle : Internal_Compare C (InternalKey (e_key e) s kValueTypeForSeek) (e_ikey e) <= 0 <-> e_seq e <= s).
  { unfold e_ikey.
    pose proof (Internal_Compare_InternalKey (C := C) (e_key e) (e_seq e) (e_type e) (e_key e) s kValueTypeForSeek Hs1 Hs Ht ltac:(by right)) as H.
    rewrite cmp_refl in H. pose proof (icmp_sym_le (InternalKey (e_key e) s kValueTypeForSeek) (InternalKey (e_key e) (e_seq e) (e_type e))) as Ha.
    destruct Ht as [Ht|Ht]; rewrite Ht in *; unfold kValueTypeForSeek, kTypeValue, kTypeDeletion in *; lia. }
  split.
  - intros [<- H]. split; [apply cmp_refl|]. by apply Hle.
  - intros [He H]. apply cmp_exact in He as <-. split; [done|]. by apply Hle.
Qed.

(** *** References taken and given back *)

Lemma update_id {V} (vs : VersionSet V) id : update_version vs id (fun v => v) = vs.
Proof.
  destruct vs. unfold update_version, set_versions. cbn. f_equal. etransitivity; [|apply map_id]. apply map_ext. intros [i r v]. cbn. by destruct (i =? id).
Qed.

Lemma unref_ref {V} (vs : VersionSet V) id g : Forall (fun n => 0 < VersionSet.refs_ n) (versions_ vs) ->
  Version_Unref (update_version (Version_Ref vs id) id g) id = update_version vs id g.
Proof.
  intros Hp. unfold Version_Unref, update_version, Version_Ref, set_versions. cbn. f_equal. rewrite map_map.
  induction Hp as [|[i r v] l Hr Hp IH]; [done|]. cbn in *. rewrite IH. destruct (i =? id) eqn:Ei; cbn; rewrite Ei; cbn; rewrite Ei; [|done].
  rewrite Z.add_simpl_r. destruct (Z.eqb_spec r 0); [lia|]. done.
Qed.

Lemma find_update {V} (vs : VersionSet V) id g v : find_version vs id = Ok v -> find_version (update_version vs id g) id = Ok (g v).
Proof.
  unfold find_version, update_version. cbn. induction (versions_ vs) as [|[i r u] l IH]; [done|]. cbn.
  destruct (i =? id) eqn:Ei; cbn; rewrite Ei; [by intros [= ->]|exact IH].
Qed.

Lemma find_ref {V} (vs : VersionSet V) id v : find_version vs id = Ok v -> find_version (Version_Ref vs id) id = Ok v.
Proof.
  unfold find_version, Version_Ref. cbn. induction (versions_ vs) as [|[i r u] l IH]; [done|]. cbn.
  destruct (i =? id) eqn:Ei; cbn; rewrite Ei; [done|exact IH].
Qed.

Lemma ref_unref m : 0 < MemTable.refs_ m -> Unref (Ref m) = Some m.
Proof. intros Hm. unfold Unref, Ref. cbn. destruct (Z.leb_spec (MemTable.refs_ m + 1 - 1) 0); [lia|]. rewrite Z.add_simpl_r. by destruct m. Qed.

Lemma mem_Ref_ok d id m : memtables_ d !! id = Some m -> mem_Ref d id = Ok (put_mem d id (Ref m)).
Proof. intros Hm. unfold mem_Ref, find_mem. by rewrite Hm. Qed.

Lemma mem_Unref_ok d id m : memtables_ d !! id = Some (Ref m) -> 0 < MemTable.refs_ m -> mem_Unref d id = Ok (put_mem d id m).
Proof. intros Hm Hp. unfold mem_Unref, find_mem. rewrite Hm. cbn [res_bind]. by rewrite ref_unref. Qed.

(** Whatever happens to the rest of the state in between, giving the references back
    restores the counts. *)
Lemma refs_restored d em ei v : db_holds d em ei v ->
  exists d2 r id cur m, hold_refs d = Ok (d2, r) /\ rr_mem r = id /\ rr_imm r = db_imm_ d /\ rr_version r = cur /\ current_ (db_versions_ d) = Some cur /\
    mem_holds d2 id em /\ match db_imm_ d with Some i => mem_holds d2 i ei | None => True end /\
    d2 = set_version_set (set_memtables d m (next_mem_ d)) (Version_Ref (db_versions_ d) cur) /\
    forall d3, memtables_ d3 = m -> next_mem_ d3 = next_mem_ d ->
      drop_refs d3 r = Ok (set_version_set (set_memtables d3 (memtables_ d) (next_mem_ d)) (Version_Unref (db_versions_ d3) cur)).
Proof.
  intros H. destruct (dh_mem _ _ _ _ H) as (id & Eid & (m & ks & Em & Hpos & Hh & Hks & Hok & Hnd) & Hne).
  pose proof (dh_current _ _ _ _ H) as Hcur. unfold current in Hcur. destruct (current_ (db_versions_ d)) as [cur|] eqn:Ecur; [|done].
  unfold hold_refs. rewrite Eid, Ecur, (mem_Ref_ok d id m Em). cbn [res_bind].
  pose proof (dh_imm _ _ _ _ H) as Himm. cbn [db_imm_ put_mem set_memtables]. destruct (db_imm_ d) as [i|] eqn:Eimm.
  - destruct Himm as (mi & ki & Emi & Hposi & Hhi & Hki & Hoki & Hndi). assert (Hii : id <> i) by congruence.
    cbn [opt_mem]. rewrite (mem_Ref_ok _ i mi) by (cbn; by rewrite lookup_insert_ne). cbn [res_bind].
    eexists _, _, id, cur, _. split; [reflexivity|]. split; [done|]. split; [done|]. split; [done|]. split; [done|]. split.
    { exists (Ref m), ks. split; [cbn; rewrite lookup_insert_ne by done; by rewrite lookup_insert_eq|]. cbn. split_and!; [lia|done..]. }
    split; [exists (Ref mi), ki; split; [cbn; by rewrite lookup_insert_eq|]; cbn; split_and!; [lia|done..]|]. split; [destruct d; reflexivity|].
    intros d3 E3 En. unfold drop_refs. cbn [rr_mem rr_imm rr_version db_imm_ put_mem set_memtables]. rewrite ?Eimm.
    rewrite (mem_Unref_ok d3 id m); [|rewrite E3, lookup_insert_ne by done; apply lookup_insert_eq|done]. cbn [res_bind opt_mem].
    rewrite (mem_Unref_ok _ i mi); [|cbn; rewrite lookup_insert_ne, E3 by done; apply lookup_insert_eq|done]. cbn [res_bind].
    f_equal. destruct d3. cbn in *. subst. unfold put_mem, set_memtables, set_version_set. cbn. f_equal.
    apply map_eq. intros k. destruct (decide (k = i)) as [->|Hk]; [by rewrite lookup_insert_eq, Emi|]. rewrite lookup_insert_ne by done.
    destruct (decide (k = id)) as [->|Hk2]; [by rewrite lookup_insert_eq, Em|]. by rewrite !lookup_insert_ne.
  - cbn [opt_mem res_bind]. eexists _, _, id, cur, _. split; [reflexivity|]. split; [done|]. split; [done|]. split; [done|]. split; [done|]. split.
    { exists (Ref m), ks. split; [cbn; by rewrite lookup_insert_eq|]. cbn. split_and!; [lia|done..]. }
    split; [done|]. split; [destruct d; reflexivity|].
    intros d3 E3 En. unfold drop_refs. cbn [rr_mem rr_imm rr_version db_imm_ put_mem set_memtables]. rewrite ?Eimm.
    rewrite (mem_Unref_ok d3 id m); [|rewrite E3; apply lookup_insert_eq|done]. cbn [res_bind opt_mem].
    f_equal. destruct d3. cbn in *. subst. unfold put_mem, set_memtables, set_version_set. cbn. f_equal.
    apply map_eq. intros k. destruct (decide (k = id)) as [->|Hk2]; [by rewrite lookup_insert_eq, Em|]. by rewrite !lookup_insert_ne.
Qed.

(** *** The search *)

Definition db_answer (em ei : list entry) (v : Version) (u : bytes) (s : Z) (value : bytes) (st : Status) (result : bytes) : Prop :=
  (exists x p, db_shows em ei v u s x /\ (forall y, db_shows em ei v u s y -> Internal_Compare C x.1 y.1 <= 0) /\
     ParseInternalKey x.1 = Some p /\
     if type p =? kTypeValue then Status_ok st = true /\ result = x.2 else IsNotFound st = true /\ result = value) \/
  ((forall x, ~ db_shows em ei v u s x) /\ IsNotFound st = true /\ result = value).

Lemma older_after a b : MemTable.entry_ok a -> MemTable.entry_ok b -> e_key a = e_key b -> e_seq b < e_seq a ->
  Internal_Compare C (e_ikey a) (e_ikey b) < 0.
Proof.
  intros (Ha & Hta & _) (Hb & Htb & _) Hk Hlt. unfold e_ikey. apply Internal_Compare_InternalKey; [done..|]. right. rewrite Hk, cmp_refl. lia.
Qed.

Lemma newest_first es u s e y : Forall MemTable.entry_ok es -> NoDup (map e_seq es) -> MemTable.is_newest u s es e ->
  y ∈ es -> MemTable.visible u s y -> Internal_Compare C (e_ikey e) (e_ikey y) <= 0.
Proof.
  intros Hok Hnd (He & Hv & Hn) Hy Hvy. rewrite list.Forall_forall in Hok. destruct (decide (e_seq y = e_seq e)) as [Hs|Hs].
  - assert (y = e) as ->; [|rewrite icmp_refl; lia]. apply list_elem_of_lookup in He as [i Hi], Hy as [j Hj].
    assert (i = j) as ->; [|congruence]. apply (list.NoDup_lookup (map e_seq es) i j (e_seq e)); [done|..].
    + change (map e_seq es) with (e_seq <$> es). by rewrite list_lookup_fmap, Hi.
    + change (map e_seq es) with (e_seq <$> es). rewrite list_lookup_fmap, Hj. cbn. by rewrite Hs.
  - apply Z.lt_le_incl, older_after; [by apply Hok..| |].
    + destruct Hv as [Hv _], Hvy as [Hvy _]. apply cmp_exact in Hv, Hvy. congruence.
    + specialize (Hn y Hy Hvy). lia.
Qed.

Lemma found_entry em ei v u s value e es st result :
  Forall MemTable.entry_ok (em ++ ei) -> seq_ok s -> NoDup (map e_seq es) -> (forall x, x ∈ es -> x ∈ em ++ ei) ->
  MemTable.is_newest u s es e ->
  (forall b, b ∈ em ++ ei -> b ∉ es -> MemTable.visible u s b -> e_seq b < e_seq e) ->
  (forall level f a x, a ∈ em ++ ei -> f ∈ files_at v level -> x ∈ contents f -> ExtractUserKey x.1 = e_key a -> Internal_Compare C (e_ikey a) x.1 < 0) ->
  (st, result) = (if e_type e =? kTypeValue then (Status_OK, e_value e) else (Status_NotFound [] [], value)) ->
  db_answer em ei v u s value st result.
Proof.
  intros Hok Hs Hnd Hsub Hn Hold Hfiles Hr. left. pose proof Hn as (He & Hv & _). assert (Hin := Hsub e He).
  assert (Hall := proj1 (list.Forall_forall _ _) Hok). pose proof (Hall e Hin) as (Hse & Hte & _).
  exists (entry_pair e), (MkParsed (e_key e) (e_seq e) (e_type e)). split.
  { split; [left; change (entry_pair e ∈ entry_pair <$> (em ++ ei)); by apply list_elem_of_fmap_2|]. cbn. apply entry_visible; [by apply Hall|done..]. }
  split.
  { intros y [[Hy|(level & f & Hf & Hy)] Hvy].
    - apply list_elem_of_In, in_map_iff in Hy as (b & <- & Hb). apply list_elem_of_In in Hb. apply (entry_visible b u s (Hall b Hb) Hs) in Hvy.
      cbn. destruct (decide (b ∈ es)) as [Hbs|Hbs].
      + apply (newest_first es u s); [|done..]. apply list.Forall_forall. intros x Hx. by apply Hall, Hsub.
      + apply Z.lt_le_incl, older_after; [by apply Hall..| |by apply Hold].
        destruct Hv as [Hv _], Hvy as [Hvy _]. apply cmp_exact in Hv, Hvy. congruence.
    - apply Z.lt_le_incl. apply (Hfiles level f); [done..|]. destruct Hvy as [-> _], Hv as [Hv _]. by apply cmp_exact in Hv. }
  split; [cbn; unfold e_ikey; by apply ParseInternalKey_InternalKey|]. cbn [type entry_pair snd].
  destruct (e_type e =? kTypeValue); injection Hr as -> ->; done.
Qed.

(** No entry of the memtables is visible: the answer is that of the files. *)
Lemma found_file em ei v u s value st val :
  Forall MemTable.entry_ok (em ++ ei) -> seq_ok s -> (forall b, b ∈ em ++ ei -> ~ MemTable.visible u s b) ->
  let ik := internal_key (NewLookupKey u s) in
  ((exists level f x p, f ∈ files_at v level /\ Version.visible contents ik f x /\
      (forall level' g y, g ∈ files_at v level' -> Version.visible contents ik g y -> Internal_Compare C x.1 y.1 <= 0) /\
      ParseInternalKey x.1 = Some p /\
      if type p =? kTypeValue then Status_ok st = true /\ val = Some x.2 else IsNotFound st = true /\ val = None) \/
   ((forall level f x, f ∈ files_at v level -> ~ Version.visible contents ik f x) /\ IsNotFound st = true /\ val = None)) ->
  db_answer em ei v u s value st (default value val).
Proof.
  intros Hok Hs Hno ik. destruct (NewLookupKey_parts u s) as (Eik & _). assert (E : ik = InternalKey u s kValueTypeForSeek) by exact Eik.
  assert (Hu : ExtractUserKey ik = u) by (rewrite E, InternalKey_app; apply ExtractUserKey_app).
  assert (Hsh : forall x, db_shows em ei v u s x -> exists level f, f ∈ files_at v level /\ Version.visible contents ik f x).
  { intros x [[Hx|(level & f & Hf & Hx)] [Hux Hvx]].
    - apply list_elem_of_In, in_map_iff in Hx as (b & <- & Hb). apply list_elem_of_In in Hb. exfalso. apply (Hno b Hb).
      apply entry_visible; [by apply (proj1 (list.Forall_forall _ _) Hok)|done..].
    - exists level, f. split; [done|]. split_and!; [done|by rewrite Hu|by rewrite E]. }
  assert (Hsh' : forall level f x, f ∈ files_at v level -> Version.visible contents ik f x -> db_shows em ei v u s x).
  { intros level f x Hf (Hx & Hux & Hvx). split; [right; by exists level, f|]. rewrite Hu in Hux. rewrite E in Hvx. done. }
  intros [(level & f & x & p & Hf & Hx & Hmin & Hp & Hr)|(Hnone & Hst & ->)].
  - left. exists x, p. split; [by apply (Hsh' level f)|]. split.
    { intros y Hy. destruct (Hsh y Hy) as (level' & g & Hg & Hvy). by apply (Hmin level' g). }
    split; [done|]. destruct (type p =? kTypeValue); destruct Hr as [Hst ->]; done.
  - right. split; [|done]. intros x Hx. destruct (Hsh x Hx) as (level & f & Hf & Hvx). by apply (Hnone level f x).
Qed.

Lemma mem_lookup d id es u s value st : mem_holds d id es -> seq_ok s -> fits 32 (size u + 8) ->
  exists m e, find_mem d id = Ok m /\ MemTable_Get m (NewLookupKey u s) value st = Some (get_result e value st) /\
    match e with Some e => MemTable.is_newest u s es e | None => forall e, e ∈ es -> ~ MemTable.visible u s e end.
Proof.
  intros (m & ks & Em & _ & Hh & Hks & Hok & Hnd) Hs Hu.
  destruct (Get_spec es u s value st m ks Hok Hs Hu Hh Hks) as (e & Hg & He). exists m, e. unfold find_mem. by rewrite Em.
Qed.

Lemma mem_holds_ok d id es : mem_holds d id es -> Forall MemTable.entry_ok es /\ NoDup (map e_seq es).
Proof. by intros (m & ks & _ & _ & _ & _ & Hok & Hnd). Qed.

Lemma Get_search_ok (w : World FS T W) r em ei v u s value :
  mem_holds (wo_db w) (rr_mem r) em -> match rr_imm r with Some i => mem_holds (wo_db w) i ei | None => ei = [] end ->
  find_version (db_versions_ (wo_db w)) (rr_version r) = Ok v -> version_holds contents v ->
  (forall a b, a ∈ em -> b ∈ ei -> e_key a = e_key b -> e_seq b < e_seq a) ->
  (forall level f a x, a ∈ em ++ ei -> f ∈ files_at v level -> x ∈ contents f -> ExtractUserKey x.1 = e_key a -> Internal_Compare C (e_ikey a) x.1 < 0) ->
  seq_ok s -> fits 32 (size u + 8) -> (forall level f, f ∈ files_at v level -> tc_serves contents (wo_fs w, wo_tables w) f) ->
  exists st result stats c, Get_search (NewLookupKey u s) r value w = Ok ((st, result, stats), MkWorld c.1 c.2 (wo_db w)) /\
    db_answer em ei v u s value st result.
Proof.
  intros Hm Hi Hv Hvh Holder Hfiles Hs Hu Hserve. destruct (mem_holds_ok _ _ _ Hm) as [Hokm Hndm].
  assert (Hoki : Forall MemTable.entry_ok ei /\ NoDup (map e_seq ei)).
  { destruct (rr_imm r); [by apply (mem_holds_ok _ _ _ Hi)|subst; split; constructor]. }
  destruct Hoki as [Hoki Hndi]. assert (Hok : Forall MemTable.entry_ok (em ++ ei)) by by apply list.Forall_app.
  destruct (mem_lookup _ _ _ u s value Status_OK Hm Hs Hu) as (m & e & Em & Eg & He).
  unfold Get_search, p_bind, p_read. rewrite Em. cbn [res_bind fst snd]. rewrite Eg.
  destruct e as [e|]; cbn [get_result].
  { assert (Hans : forall st result, (st, result) = (if e_type e =? kTypeValue then (Status_OK, e_value e) else (Status_NotFound [] [], value)) ->
      db_answer em ei v u s value st result).
    { intros st result. apply (found_entry em ei v u s value e em st result); [done|done|done| |done| |done].
      - intros x Hx. apply elem_of_app. by left.
      - intros b Hb Hbm [Hbu _]. apply elem_of_app in Hb as [Hb|Hb]; [done|]. apply Holder; [apply He|done|].
        destruct He as (_ & [Hv1 _] & _). apply cmp_exact in Hv1, Hbu. congruence. }
    destruct (e_type e =? kTypeValue); eexists _, _, _, (wo_fs w, wo_tables w); (split; [destruct w; reflexivity|by apply Hans]). }
  assert (Hnom : forall b, b ∈ em -> ~ MemTable.visible u s b) by exact He. clear He Eg.
  assert (Hfile : (forall b, b ∈ em ++ ei -> ~ MemTable.visible u s b) -> exists st result stats c,
    (let! v := p_read (fun d => find_version (db_versions_ d) (rr_version r)) in
     let! g := p_tables (fun c => let? g := Version_Get v c (NewLookupKey u s) in let '(c, s, found, stats) := g in Ok (c, (s, found, stats))) in
     let '(s, found, stats) := g in p_ret (s, default value found, Some stats)) w = Ok ((st, result, stats), MkWorld c.1 c.2 (wo_db w)) /\
     db_answer em ei v u s value st result).
  { intros Hno. destruct (version_get_newest contents v (wo_fs w, wo_tables w) u s Hvh Hserve) as (c & st & val & stats & Ev & Hans).
    exists st, (default value val), (Some stats), c. split; [|by apply found_file].
    unfold p_bind, p_read, p_tables. rewrite Hv. cbn [res_bind fst snd]. rewrite Ev. reflexivity. }
  destruct (rr_imm r) as [id|]; cbn [res_bind fst snd].
  - destruct (mem_lookup _ _ _ u s value Status_OK Hi Hs Hu) as (mi & e & Emi & Eg & He).
    rewrite Emi. cbn [res_bind fst snd]. rewrite Eg. destruct e as [e|]; cbn [get_result].
    + assert (Hans : forall st result, (st, result) = (if e_type e =? kTypeValue then (Status_OK, e_value e) else (Status_NotFound [] [], value)) ->
        db_answer em ei v u s value st result).
      { intros st result. apply (found_entry em ei v u s value e ei st result); [done|done|done| |done| |done].
        - intros x Hx. apply elem_of_app. by right.
        - intros b Hb Hbm Hvb. apply elem_of_app in Hb as [Hb|Hb]; [by destruct (Hnom b Hb)|done]. }
      destruct (e_type e =? kTypeValue); eexists _, _, _, (wo_fs w, wo_tables w); (split; [destruct w; reflexivity|by apply Hans]).
    + apply Hfile. intros b Hb. apply elem_of_app in Hb as [Hb|Hb]; [by apply Hnom|by apply He].
  - subst ei. apply Hfile. intros b Hb. rewrite app_nil_r in Hb. by apply Hnom.
Qed.
End get_newest.

Lemma version_holds_files `{C : Comparator} (contents : FileMetaData -> list (bytes * bytes)) v v' :
  files_ v' = files_ v -> version_holds contents v -> version_holds contents v'.
Proof.
  destruct v, v'. cbn. intros ->. intros [H1 H2 H3 H4 H5 H6 H7]. split; assumption.
Qed.

Lemma MaybeScheduleCompaction_ok {W} (d : DBImpl W) v : current (db_versions_ d) = Ok v ->
  exists b, MaybeScheduleCompaction d = Ok (set_scheduled d b).
Proof.
  intros Hv. unfold MaybeScheduleCompaction, NeedsCompaction. rewrite Hv. cbn [res_bind].
  assert (E : Ok d = Ok (set_scheduled d (background_compaction_scheduled_ d))) by by destruct d.
  repeat match goal with |- context [if ?b then _ else _] => destruct b end; first [by eexists|rewrite E; by eexists].
Qed.

Lemma current_update_ok {W} (d : DBImpl W) f id v m v' b :
  current_ (db_versions_ d) = Some id -> find_version (db_versions_ d) id = Ok v -> f (db_seeks_ d) v = Ok (m, v', b) ->
  exists d', current_update d f id = Ok d' /\ memtables_ d' = memtables_ d /\ next_mem_ d' = next_mem_ d /\ db_mem_ d' = db_mem_ d /\
    db_imm_ d' = db_imm_ d /\ db_versions_ d' = update_version (db_versions_ d) id (fun _ => v').
Proof.
  intros Hc Hv Hf. unfold current_update. rewrite Hv. cbn [res_bind]. rewrite Hf. cbn [res_bind].
  set (d1 := set_version_set (set_seeks d m) (update_version (db_versions_ d) id (fun _ => v'))).
  destruct b; [|by exists d1].
  destruct (MaybeScheduleCompaction_ok d1 v') as [b' ->]; [|by eexists].
  unfold current. cbn. rewrite Hc. by apply (find_update _ _ _ v).
Qed.

Lemma update_refs {V} (vs : VersionSet V) id g : Forall (fun n => 0 < VersionSet.refs_ n) (versions_ vs) ->
  Forall (fun n => 0 < VersionSet.refs_ n) (versions_ (update_version vs id g)).
Proof. intros H. cbn. apply List.Forall_map. eapply List.Forall_impl; [|exact H]. intros [i r v]. cbn. by destruct (i =? id). Qed.


(** *** An example: a memtable over the two files of [example_version] *)

#[local] Instance example_tables : Version.TableCache (unit * unit) := {|
  Version.tc_Get _ n size ik := let? r := Version.tc_Get tt n size ik in Ok ((tt, tt), r.1.2, r.2)
|}.

#[local, refine] Instance example_tables_laws : TableCacheLaws (C := BytewiseComparator) example_contents (unit * unit) := {|
  tc_serves _ _ := True
|}.
Proof.
  intros c f ik _ target. eexists _, _, _. split; [done|]. split; [done|]. split; [done|]. split; [by right|]. intros x Hx _. exact Hx.
Defined.

Definition example_db_options : DbOptions :=
  MkDbOptions (MkOptions 4096 16 0 None false) true false true true (4 ≪ 20) 1000 (2 ≪ 20) false.

Definition NewDBImpl {W} (o : DbOptions) (dbname : bytes) : DBImpl W :=
  MkDB o dbname false ∅ 1 None None None 0 0 ∅ [] WriteBatch_Clear NewSnapshotList ∅ false ∅ None NewVersionSet ∅ Status_OK
    (replicate num_levels (MkCompactionStats 0 0 0)) 0.

(** The database with this memtable and version. *)
Definition example_world (m : MemTable) : World unit unit unit :=
  let d := NewDBImpl example_db_options (str "db") in
  let d := put_mem d 1 (Ref m) in
  MkWorld tt tt (set_version_set (set_mem d (Some 1)) (SetLastSequenceNumber (AppendVersion NewVersionSet example_version) 13)).

Lemma example_db_holds m ks :
  MemTable.refs_ m = 0 -> holds (H := KeyComparator) (table_ m) ks -> ks ≡ₚ map MemTable.encode MemTable.example_entries ->
  db_holds (C := BytewiseComparator) example_contents (wo_db (example_world m)) MemTable.example_entries [] example_version.
Proof.
  intros Hr Hh Hk. destruct MemTable.example_entries_ok as [Hok Hnd]. split.
  - exists 1. split; [done|]. split; [|done]. exists (Ref m), ks. split; [done|]. cbn [MemTable.refs_ Ref table_]. split; [lia|]. done.
  - done.
  - done.
  - constructor; [done|constructor].
  - apply example_version_holds.
  - intros a b _ Hb. by apply elem_of_nil in Hb.
  - intros level f a x Ha Hf Hx Hu. rewrite app_nil_r in Ha. unfold MemTable.example_entries in Ha.
    assert (Ha9 : MemTable.entry_ok a /\ 10 <= e_seq a).
    { split; [by apply (proj1 (list.Forall_forall _ _) Hok)|]. apply op_entries_seq in Ha; lia. }
    destruct Ha9 as [(Hs & Ht & _) Hge].
    assert (Hx' : exists u s t, x.1 = InternalKey u s t /\ 0 <= s < 10 /\ type_ok t).
    { destruct (example_files level f Hf) as [[_ ->]|[_ ->]]; cbn [example_contents example_meta number NewFileMetaData Z.eqb Pos.eqb] in Hx;
        rewrite !elem_of_cons in Hx; destruct Hx as [->|[->|[]%elem_of_nil]]; eexists _, _, _; (split; [reflexivity|]); split; try lia; [by right|by left|by right|by right]. }
    destruct Hx' as (u & s & t & Ex & Hs' & Ht'). rewrite Ex in Hu |- *. rewrite InternalKey_app, ExtractUserKey_app in Hu. subst u.
    unfold e_ikey. apply Internal_Compare_InternalKey; [done| |done|done|].
    + unfold seq_ok, kMaxSequenceNumber. rewrite Z.shiftl_1_l. lia.
    + right. rewrite cmp_refl. lia.
Qed.

