(* ===== verification/DbWrite.v ===== *)
(** * Writing to the database

    [DBImpl::Write] of [cpp/leveldb/db/db_impl.cc] and what it calls.  Each call of
    [Write] is a thread that goes through phases; a step is what it does between two points
    where it releases the mutex, waits, or writes without the mutex while the others may
    enter the queue and the background thread may work.  [thread_step] is a step of the transition
    system of any number of writers. *)
From stdpp Require Import gmap relations sorting.
From S2P Require Import Prelude Coding Comparator Status Logging DbFormat LogWriter WriteBatch Arena Snapshot SkipList MemTable Cursor Block Merger TableBuilder VersionEdit FileSearch Version VersionBuilder VersionSet Filename Manifest DbState.

(** [DB::Put] and [DB::Delete] write these batches. *)
Definition DB_Put (key value : bytes) : bytes := WriteBatch_Put WriteBatch_Clear key value.
Definition DB_Delete (key : bytes) : bytes := WriteBatch_Delete WriteBatch_Clear key.

Section queue.
Context {W : Type}.
Implicit Type d : DBImpl W.

(** ** The queue of writers *)

Definition find_writer d (id : Z) : res DbWriter :=
  match writer_of_ d !! id with Some w => Ok w | None => Undefined end.

Definition put_writer d (id : Z) (w : DbWriter) : DBImpl W := set_writers d (<[id := w]> (writer_of_ d)) (writers_ d).

(** [w.cv.Signal()] and the state of a thread in [w.cv.Wait()]. *)
Definition set_awake (w : DbWriter) (b : bool) : DbWriter := MkDbWriter (w_status w) (w_batch w) (w_sync w) (w_done w) b.

Definition Signal d (id : Z) : res (DBImpl W) :=
  let? w := find_writer d id in Ok (put_writer d id (set_awake w true)).

(** The constructor of [w] and [writers_.push_back(&w)]. *)
Definition Write_enter d (id : Z) (updates : option bytes) (sync : bool) : DBImpl W :=
  set_writers d (<[id := MkDbWriter Status_OK updates sync false true]> (writer_of_ d)) (writers_ d ++ [id]).

Definition is_front d (id : Z) : bool := bool_decide (head (writers_ d) = Some id).

(** ** Grouping *)

(** The loop over the writers behind the first: [tmp] is [*tmp_batch_], and [in_tmp] says
    whether [result] has been switched to it. *)
Fixpoint group_loop d (first : DbWriter) (first_batch : bytes) (ws : list Z) (size_ max_size : Z) (tmp : bytes) (in_tmp : bool) (last : Z)
    : res (bytes * bool * Z) :=
  match ws with
  | [] => Ok (tmp, in_tmp, last)
  | id :: ws =>
      let? w := find_writer d id in
      if w_sync w && negb (w_sync first) then Ok (tmp, in_tmp, last)
      else
        match w_batch w with
        | None => group_loop d first first_batch ws size_ max_size tmp in_tmp id
        | Some b =>
            let size_ := u64 (size_ + ByteSize b) in
            if size_ >? max_size then Ok (tmp, in_tmp, last)
            else
              let tmp := if in_tmp then tmp else WriteBatch_Append tmp first_batch in
              group_loop d first first_batch ws size_ max_size (WriteBatch_Append tmp b) true id
        end
  end.

(** [*tmp_batch_], whether it is the result, and the last writer of the group. *)
Definition BuildBatchGroup d : res (bytes * bool * Z) :=
  match writers_ d with
  | [] => Undefined
  | id :: ws =>
      let? first := find_writer d id in
      match w_batch first with
      | None => Undefined
      | Some b =>
          let size_ := ByteSize b in
          let max_size := if size_ <=? 128 ≪ 10 then u64 (size_ + (128 ≪ 10)) else 1 ≪ 20 in
          group_loop d first b ws size_ max_size (tmp_batch_ d) false id
      end
  end.

(** The batch a writer is about to log, and what it needs afterwards. *)
Record Group := MkGroup { g_batch : bytes; g_tmp : bool; g_last_writer : Z; g_last_sequence : Z; g_sync : bool }.

(** [SetSequence] changes the batch in place, the caller's when it is alone. *)
Definition Write_begin d (id : Z) : res (DBImpl W * Group) :=
  let? w := find_writer d id in
  let last_sequence := vs_last_sequence_ (db_versions_ d) in
  let? g := BuildBatchGroup d in
  let '(tmp, in_tmp, last) := g in
  let? batch := match (if in_tmp then Some tmp else w_batch w) with Some b => Ok b | None => Undefined end in
  let batch := SetSequence batch (u64 (last_sequence + 1)) in
  let d := if in_tmp then set_tmp_batch d batch
           else put_writer d id (MkDbWriter (w_status w) (Some batch) (w_sync w) (w_done w) (w_awake w)) in
  Ok (d, MkGroup batch in_tmp last (u64 (last_sequence + Count batch)) (w_sync w)).

(** ** The end of a write *)

(** The loop that pops the writers of the group and tells them the result. *)
Fixpoint pop_writers (queue : list Z) d (id last : Z) (status : Status) : res (DBImpl W) :=
  match queue with
  | [] => Undefined
  | ready :: rest =>
      let d := set_writers d (writer_of_ d) rest in
      let? d :=
        if ready =? id then Ok d
        else let? w := find_writer d ready in
             Signal (put_writer d ready (MkDbWriter status (w_batch w) (w_sync w) true (w_awake w))) ready in
      if ready =? last then Ok d else pop_writers rest d id last status
  end.

Definition wake_front d : res (DBImpl W) :=
  match writers_ d with [] => Ok d | id :: _ => Signal d id end.

Definition Write_pop d (id last : Z) (status : Status) : res (DBImpl W) :=
  let? d := pop_writers (writers_ d) d id last status in wake_front d.

Definition Write_finish d (id : Z) (g : Group) (status : Status) (sync_error : bool) : res (DBImpl W) :=
  let d := if sync_error then RecordBackgroundError status d else d in
  let d := if g_tmp g then set_tmp_batch d WriteBatch_Clear else d in
  let d := set_version_set d (SetLastSequenceNumber (db_versions_ d) (g_last_sequence g)) in
  Write_pop d id (g_last_writer g) status.
End queue.

Section write.
Context `{C : Comparator} `{DE : DbEnv} {T : Type}.
Abbreviation Prog := (Prog FS T WFile).

(** ** Logging and applying *)

(** [log_->AddRecord] and [logfile_->Sync]: the status and [sync_error]. *)
Definition Write_log (g : Group) : Prog (Status * bool) :=
  let! log := p_get db_log_ in
  match log with
  | None => p_lift Undefined
  | Some log =>
      let! r := p_fs_res (fun w => let? r := log_record w log (Contents (g_batch g)) in let '(w, log, s) := r in Ok (w, (log, s))) in
      let '(log, s) := r in
      let! _ := p_set (fun d => set_log d (Some log) (logfile_number_ d)) in
      if Status_ok s && g_sync g then
        let! s := p_fs (fun w => wfile_Sync w log.1) in
        p_ret (s, negb (Status_ok s))
      else p_ret (s, false)
  end.

Definition Write_insert (g : Group) : Prog Status :=
  p_update (fun d =>
    match db_mem_ d with
    | None => Undefined
    | Some id =>
        let? m := find_mem d id in
        match InsertInto (g_batch g) (Some m) with
        | Some (Some m, s) => Ok (put_mem d id m, s)
        | _ => Undefined
        end
    end).

(** ** Making room *)

(** How one round of the loop of [MakeRoomForWrite] ends: with a status, after a delay,
    waiting for the background thread, or with a new memtable. *)
Inductive Room := RoomDone (s : Status) | RoomDelay | RoomWait | RoomAgain.

Definition switch_memtable (lfile : WFile) (new_log_number : Z) : Prog () :=
  let! log := p_get db_log_ in
  let! _ := p_fs (fun w => (match log with Some log => wfile_delete w log.1 | None => w end, tt)) in
  let! _ := p_set (fun d => set_log d (Some (lfile, block_offset_ (NewWriter lfile))) new_log_number) in
  let! _ := p_set (fun d => set_imm d (db_mem_ d)) in
  let! _ := p_set (fun d => let r := new_mem d in set_mem r.1 (Some r.2)) in
  p_update (fun d => let? d := MaybeScheduleCompaction d in Ok (d, tt)).

Definition MakeRoom_round (force allow_delay : bool) : Prog Room :=
  let! bg_error := p_get bg_error_ in
  let! files := p_read (fun d => NumLevelFiles (db_versions_ d) 0) in
  let! usage := p_read (fun d => match db_mem_ d with
                                 | Some id => let? m := find_mem d id in Ok (ApproximateMemoryUsage m)
                                 | None => Undefined
                                 end) in
  let! imm := p_get db_imm_ in
  let! buffer := p_get (fun d => write_buffer_size (db_options_ d)) in
  if negb (Status_ok bg_error) then p_ret (RoomDone bg_error)
  else if allow_delay && (files >=? kL0_SlowdownWritesTrigger) then p_ret RoomDelay
  else if negb force && (usage <=? buffer) then p_ret (RoomDone Status_OK)
  else if bool_decide (imm <> None) then p_ret RoomWait
  else if files >=? kL0_StopWritesTrigger then p_ret RoomWait
  else
    let! new_log_number := p_update (fun d => let r := NewFileNumber (db_versions_ d) in Ok (set_version_set d r.2, r.1)) in
    let! dbname := p_get dbname_ in
    let! r := p_fs (fun w => env_NewWritableFile w (LogFileName dbname new_log_number)) in
    match r with
    | inr s =>
        let! _ := p_set (fun d => set_version_set d (ReuseFileNumber (db_versions_ d) new_log_number)) in
        p_ret (RoomDone s)
    | inl lfile =>
        let! _ := switch_memtable lfile new_log_number in
        p_ret RoomAgain
    end.

(** ** Threads *)

(** Where a call of [Write] stands: in the queue; in [MakeRoomForWrite], at a count of
    signals if it waits; about to log; about to apply; about to finish; returned. *)
Inductive Phase :=
| PQueue
| PRoom (force allow_delay : bool) (waits : option Z)
| PLog (g : Group)
| PInsert (g : Group)
| PFinish (g : Group) (status : Status) (sync_error : bool)
| PReturned (status : Status).

(** A step of the thread that makes room, as the result of its round says. *)
Definition after_room (id : Z) (force allow_delay : bool) (r : Room) : Prog Phase :=
  match r with
  | RoomAgain => p_ret (PRoom false allow_delay None)
  | RoomDelay => p_ret (PRoom force false None)
  | RoomWait => let! n := p_get db_signals_ in p_ret (PRoom force allow_delay (Some n))
  | RoomDone s =>
      let! w := p_read (fun d => find_writer d id) in
      if Status_ok s && bool_decide (w_batch w <> None) then
        let! g := p_update (fun d => Write_begin d id) in p_ret (PLog g)
      else
        let! _ := p_update (fun d => let? d := Write_pop d id id s in Ok (d, tt)) in p_ret (PReturned s)
  end.

(** One step of thread [id], or nothing while it must wait. *)
Definition thread_step (id : Z) (p : Phase) : Prog (option Phase) :=
  match p with
  | PQueue =>
      let! w := p_read (fun d => find_writer d id) in
      let! front := p_get (fun d => is_front d id) in
      if negb (w_awake w) then p_ret None
      else if w_done w then p_ret (Some (PReturned (w_status w)))
      else if front then p_ret (Some (PRoom (bool_decide (w_batch w = None)) (bool_decide (w_batch w <> None)) None))
      else let! _ := p_set (fun d => put_writer d id (set_awake w false)) in p_ret (Some PQueue)
  | PRoom force allow_delay (Some n) =>
      let! signals := p_get db_signals_ in
      p_ret (if n <? signals then Some (PRoom force allow_delay None) else None)
  | PRoom force allow_delay None =>
      let! r := MakeRoom_round force allow_delay in
      let! p := after_room id force allow_delay r in p_ret (Some p)
  | PLog g =>
      let! r := Write_log g in
      p_ret (Some (if Status_ok r.1 then PInsert g else PFinish g r.1 r.2))
  | PInsert g =>
      let! s := Write_insert g in p_ret (Some (PFinish g s false))
  | PFinish g status sync_error =>
      let! _ := p_update (fun d => let? d := Write_finish d id g status sync_error in Ok (d, tt)) in
      p_ret (Some (PReturned status))
  | PReturned _ => p_ret None
  end.
End write.
