(* ===== verification/DbQueue.v ===== *)
(** * Group commit

    What the transition system of writers of [DbWrite] guarantees, however the calls of
    [Write] arrive and interleave with each other and with the background thread: writers
    are served in the order they came, each once; the groups number the operations
    consecutively and log them as one record; nobody returns without its result. *)
From stdpp Require Import gmap relations sorting.
From S2P Require Import Prelude Coding Comparator Status Logging DbFormat LogWriter WriteBatch Arena Snapshot SkipList MemTable Cursor Block Merger TableBuilder VersionEdit FileSearch Version VersionBuilder VersionSet Filename Manifest DbState DbRead DbWrite.

(** ** Groups *)

Lemma size_encode_ops ops : Z.of_nat (length ops) <= size (encode_ops ops).
Proof.
  unfold encode_ops. induction ops as [|op ops IH]; [done|]. cbn [map concat length]. rewrite size_app.
  assert (1 <= size (encode_op op)); [|lia]. destruct op; cbn [encode_op app]; rewrite size_cons; apply Z.le_sub_le_add_r, size_nonneg.
Qed.

Lemma size_batch_rep seq ops : Z.of_nat (length ops) + 12 <= size (batch_rep seq ops).
Proof. unfold batch_rep. rewrite !size_app, size_EncodeFixed64, size_EncodeFixed32. pose proof (size_encode_ops ops). lia. Qed.

(** The batch of a writer holds these operations. *)
Definition writer_ops (w : DbWriter) (ops : option (list batch_op)) : Prop :=
  match w_batch w, ops with
  | None, None => True
  | Some b, Some ops => exists q, fits 64 q /\ b = batch_rep q ops /\ ops_ok ops /\ size b < 2 ^ 62
  | _, _ => False
  end.

Abbreviation OpsMap := (gmap Z (option (list batch_op))).
Definition ops_at (m : OpsMap) (id : Z) : list batch_op := default [] (mjoin (m !! id)).
Definition group_ops (m : OpsMap) (ids : list Z) : list batch_op := concat (map (ops_at m) ids).

Lemma default_last_cons {A} (l : list A) x y : default x (list.last l) = default y (list.last (x :: l)).
Proof. destruct l as [|z l _] using rev_ind; [done|]. by rewrite app_comm_cons, !last_snoc. Qed.

Section groups.
Context {W : Type} (d : DBImpl W) (m : OpsMap).

(** The queue knows the writer, and the writer its operations. *)
Definition queued (id : Z) : Prop := exists w ops, writer_of_ d !! id = Some w /\ m !! id = Some ops /\ writer_ops w ops.

Definition is_sync (id : Z) : Prop := exists w, writer_of_ d !! id = Some w /\ w_sync w = true.

Lemma queued_batch id : queued id -> exists w, find_writer d id = Ok w /\
  match w_batch w with
  | None => ops_at m id = []
  | Some b => exists q, fits 64 q /\ b = batch_rep q (ops_at m id) /\ ops_ok (ops_at m id) /\ size b < 2 ^ 62
  end.
Proof.
  intros (w & ops & Hw & Hm & Ho). exists w. unfold find_writer, ops_at. rewrite Hw, Hm. split; [done|]. cbn.
  unfold writer_ops in Ho. destruct (w_batch w), ops; cbn; done.
Qed.

Definition appended (first_batch : bytes) (acc : list batch_op) (tmp : bytes) (in_tmp : bool) : Prop :=
  if in_tmp then tmp = batch_rep 0 acc else tmp = WriteBatch_Clear /\ exists q, fits 64 q /\ first_batch = batch_rep q acc.

Lemma group_loop_ok first first_batch max_size ws : forall acc size_ tmp in_tmp last,
  Forall queued ws -> appended first_batch acc tmp in_tmp -> 0 <= size_ < 2 ^ 62 -> Z.of_nat (length acc) <= size_ -> max_size <= 1 ≪ 20 -> ops_ok acc ->
  exists ws1 ws2 tmp' in_tmp', ws = ws1 ++ ws2 /\
    group_loop d first first_batch ws size_ max_size tmp in_tmp last = Ok (tmp', in_tmp', default last (list.last ws1)) /\
    appended first_batch (acc ++ group_ops m ws1) tmp' in_tmp' /\ ops_ok (acc ++ group_ops m ws1) /\
    forall id, id ∈ ws1 -> is_sync id -> w_sync first = true.
Proof.
  induction ws as [|id ws IH]; intros acc size_ tmp in_tmp last Hq Ha Hs Hl Hmax Hok.
  { exists [], [], tmp, in_tmp. change (group_ops m []) with (@nil batch_op). rewrite !app_nil_r. split; [done|]. split; [done|]. split; [exact Ha|]. split; [exact Hok|]. intros id Hin. by apply elem_of_nil in Hin. }
  apply list.Forall_cons in Hq as [Hid Hq]. cbn [group_loop]. destruct (queued_batch id Hid) as (w & Ew & Hb). rewrite Ew. cbn [res_bind].
  assert (Hw : writer_of_ d !! id = Some w) by (unfold find_writer in Ew; destruct (writer_of_ d !! id); [by injection Ew as ->|done]).
  assert (Hstop : exists ws1 ws2 tmp' in_tmp', id :: ws = ws1 ++ ws2 /\
    Ok (tmp, in_tmp, last) = Ok (tmp', in_tmp', default last (list.last ws1)) /\
    appended first_batch (acc ++ group_ops m ws1) tmp' in_tmp' /\ ops_ok (acc ++ group_ops m ws1) /\
    forall id, id ∈ ws1 -> is_sync id -> w_sync first = true).
  { exists [], (id :: ws), tmp, in_tmp. change (group_ops m []) with (@nil batch_op). rewrite !app_nil_r. split; [done|]. split; [done|]. split; [exact Ha|]. split; [exact Hok|]. intros id' Hin. by apply elem_of_nil in Hin. }
  destruct (w_sync w && negb (w_sync first)) eqn:Esync; [exact Hstop|].
  assert (Hsync : is_sync id -> w_sync first = true).
  { intros (w' & Hw' & Hs'). rewrite Hw in Hw'. injection Hw' as <-. rewrite Hs' in Esync. cbn in Esync. by destruct (w_sync first). }
  assert (Hgo : forall acc' size' tmp' in_tmp', acc' = acc ++ ops_at m id -> appended first_batch acc' tmp' in_tmp' -> 0 <= size' < 2 ^ 62 ->
    Z.of_nat (length acc') <= size' -> ops_ok acc' ->
    exists ws1 ws2 tmp2 in_tmp2, id :: ws = ws1 ++ ws2 /\
    group_loop d first first_batch ws size' max_size tmp' in_tmp' id = Ok (tmp2, in_tmp2, default last (list.last ws1)) /\
    appended first_batch (acc ++ group_ops m ws1) tmp2 in_tmp2 /\ ops_ok (acc ++ group_ops m ws1) /\
    forall id, id ∈ ws1 -> is_sync id -> w_sync first = true).
  { intros acc' size' tmp' in_tmp' -> Ha' Hs' Hl' Hok'. destruct (IH _ _ _ _ id Hq Ha' Hs' Hl' Hmax Hok') as (ws1 & ws2 & t & b & -> & E & A & O & S).
    exists (id :: ws1), ws2, t, b. unfold group_ops in *. cbn [map concat]. rewrite app_assoc. split; [done|]. split.
    { rewrite E. by rewrite (default_last_cons ws1 id last). }
    split; [exact A|]. split; [exact O|]. intros id' [->|Hin]%elem_of_cons; [exact Hsync|by apply S]. }
  destruct (w_batch w) as [b|].
  - destruct Hb as (q & Hq64 & -> & [Hopk Hoplen] & Hbs). cbv zeta. unfold ByteSize.
    pose proof (size_batch_rep q (ops_at m id)) as Hlow. set (sz := size (batch_rep q (ops_at m id))) in *.
    rewrite (wrap_id 64 (size_ + sz)) by (unfold fits; lia).
    destruct (Z.gtb_spec (size_ + sz) max_size) as [Hbig|Hfit]; [exact Hstop|].
    assert (Hsum : Z.of_nat (length (acc ++ ops_at m id)) <= size_ + sz) by (rewrite length_app; lia).
    assert (Hmax31 : size_ + sz < 2 ^ 31) by (change (1 ≪ 20) with (2 ^ 20) in Hmax; lia).
    assert (Hok' : ops_ok (acc ++ ops_at m id)) by (destruct Hok; split; [by apply list.Forall_app|lia]).
    apply (Hgo (acc ++ ops_at m id)); [done| |lia|done|done]. cbn. unfold appended in Ha. rewrite length_app in Hsum.
    destruct in_tmp.
    + rewrite Ha. apply batch_rep_append; [by unfold fits|done|lia].
    + destruct Ha as (-> & q1 & Hq1 & ->). rewrite Clear_rep, batch_rep_append; [|by unfold fits|done|cbn; lia].
      cbn [app]. apply batch_rep_append; [by unfold fits|done|lia].
  - apply (Hgo acc); [by rewrite Hb, app_nil_r|done..].
Qed.
End groups.

(** ** Steps that leave the queue alone *)

Definition same_queue {W} (d d' : DBImpl W) : Prop :=
  writer_of_ d' = writer_of_ d /\ writers_ d' = writers_ d /\ tmp_batch_ d' = tmp_batch_ d /\
  vs_last_sequence_ (db_versions_ d') = vs_last_sequence_ (db_versions_ d).

#[export] Instance same_queue_preorder {W} : PreOrder (same_queue (W := W)).
Proof. split; [by intros d|]. intros d1 d2 d3 (A1 & A2 & A3 & A4) (B1 & B2 & B3 & B4). split_and!; congruence. Qed.

Abbreviation frames m := (preserves same_queue m).

#[global] Arguments group_ops : simpl never.
#[global] Arguments batch_rep : simpl never.

Section steps_frame.
Context `{C : Comparator} `{DE : DbEnv} {T : Type}.

Lemma frames_schedule (d d' : DBImpl WFile) : MaybeScheduleCompaction d = Ok d' -> same_queue d d'.
Proof.
  unfold MaybeScheduleCompaction. intros Eq.
  repeat match type of Eq with (if ?b then _ else _) = _ => destruct b end; try (injection Eq as <-; reflexivity).
  destruct (NeedsCompaction _); [|done..]. cbn in Eq.
  match type of Eq with (if ?b then _ else _) = _ => destruct b end; injection Eq as <-; by split_and!.
Qed.

Lemma frames_Write_log g : frames (Write_log (T := T) g).
Proof. unfold Write_log. frame. Qed.

Lemma frames_Write_insert g : frames (Write_insert (T := T) g).
Proof.
  unfold Write_insert. apply preserves_update. intros d d' a Eq. destruct (db_mem_ d); [|done]. destruct (find_mem d _); [|done..]. cbn in Eq.
  destruct (InsertInto _ _) as [[[m|] s]|]; [|done..]. injection Eq as <- <-. by split_and!.
Qed.

Lemma frames_MakeRoom_round force allow_delay : frames (MakeRoom_round (T := T) force allow_delay).
Proof.
  unfold MakeRoom_round, switch_memtable. frame.
  - apply preserves_update. intros d d' x [= <- <-]. by split_and!.
  - apply preserves_update. intros d d' x Em. destruct (MaybeScheduleCompaction d) as [d1| |] eqn:Es; [|done..]. injection Em as <- <-. by apply frames_schedule.
  - apply preserves_set. intros d. unfold ReuseFileNumber. by destruct (_ =? _).
Qed.
End steps_frame.

(** ** The system *)

(** The members of a group with the result they share; [c_group] is [None] when nothing was
    logged. *)
Record Commit := MkCommit { c_members : list Z; c_group : option Group; c_status : Status }.

(** The world, the threads, what each was asked to write, in which order they came, and
    what has been committed. *)
Record Sys (FS T W : Type) := MkSys {
  sy_world : World FS T W;
  sy_phases : gmap Z Phase;
  sy_ops : OpsMap;
  sy_arrivals : list Z;
  sy_commits : list Commit
}.
Arguments MkSys {FS T W}.
Arguments sy_world {FS T W}.
Arguments sy_phases {FS T W}.
Arguments sy_ops {FS T W}.
Arguments sy_arrivals {FS T W}.
Arguments sy_commits {FS T W}.

Definition popped {W} (d d' : DBImpl W) : list Z := take (length (writers_ d) - length (writers_ d')) (writers_ d).

(** The commit a step makes, if it ends the work of a front writer. *)
Definition new_commit {W} (p p' : Phase) (d d' : DBImpl W) : list Commit :=
  match p, p' with
  | PRoom _ _ _, PReturned s => [MkCommit (popped d d') None s]
  | PFinish g _ _, PReturned s => [MkCommit (popped d d') (Some g) s]
  | _, _ => []
  end.

Section system.
Context `{C : Comparator} `{DE : DbEnv} {T : Type}.
Abbreviation Sys := (Sys FS T WFile).
Abbreviation World := (World FS T WFile).

Definition with_db (w : World) (d : DBImpl WFile) : World := MkWorld (wo_fs w) (wo_tables w) d.

(** A database at work: its memtable holds the entries [es] and is not the one being
    compacted, it has a log and a current version; as long as it is open and has met no
    error, a compaction is scheduled when there is something to compact, which a full
    level zero is. *)
Record steady (d : DBImpl WFile) (es : list entry) : Prop := {
  sd_mem : exists id, db_mem_ d = Some id /\ mem_holds d id es /\ id < next_mem_ d /\ db_imm_ d <> Some id;
  sd_log : exists f off, db_log_ d = Some (f, off) /\ 0 <= off <= LogWriter.kBlockSize;
  sd_current : exists v, current (db_versions_ d) = Ok v;
  sd_open : shutting_down_ d = false;
  sd_full n : NumLevelFiles (db_versions_ d) 0 = Ok n -> kL0_StopWritesTrigger <= n -> NeedsCompaction (db_versions_ d) = Ok true;
  sd_work : Status_ok (bg_error_ d) = true -> db_imm_ d <> None \/ NeedsCompaction (db_versions_ d) = Ok true ->
    background_compaction_scheduled_ d = true
}.

(** What the others may do meanwhile, that is the background thread, readers and snapshots:
    they leave the queue and the contents of the memtable, and a compaction that was
    scheduled stays so until its end is signalled. *)
Definition others (w w' : World) : Prop :=
  same_queue (wo_db w) (wo_db w') /\ db_signals_ (wo_db w) <= db_signals_ (wo_db w') /\
  (forall es, steady (wo_db w) es -> steady (wo_db w') es) /\
  (db_signals_ (wo_db w) = db_signals_ (wo_db w') -> background_compaction_scheduled_ (wo_db w) = true ->
   background_compaction_scheduled_ (wo_db w') = true).

(** The longest key an entry of a memtable can carry. *)
Definition keys_fit (ops : option (list batch_op)) : Prop := Forall (fun op => fits 32 (size (op_key op) + 8)) (default [] ops).

(** Writers come while the sequence numbers, which start after [s0], do not run out. *)
Inductive sys_step (s0 : Z) : Sys -> Sys -> Prop :=
| sys_enter s id updates sync ops :
    sy_phases s !! id = None -> writer_ops (MkDbWriter Status_OK updates sync false true) ops -> keys_fit ops ->
    s0 + Z.of_nat (length (group_ops (<[id := ops]> (sy_ops s)) (sy_arrivals s ++ [id]))) <= kMaxSequenceNumber ->
    sys_step s0 s (MkSys (with_db (sy_world s) (Write_enter (wo_db (sy_world s)) id updates sync))
                  (<[id := PQueue]> (sy_phases s)) (<[id := ops]> (sy_ops s)) (sy_arrivals s ++ [id]) (sy_commits s))
| sys_thread s id p p' w' :
    sy_phases s !! id = Some p -> thread_step id p (sy_world s) = Ok (Some p', w') ->
    sys_step s0 s (MkSys w' (<[id := p']> (sy_phases s)) (sy_ops s) (sy_arrivals s)
                  (sy_commits s ++ new_commit p p' (wo_db (sy_world s)) (wo_db w')))
| sys_others s w' : others (sy_world s) w' ->
    sys_step s0 s (MkSys w' (sy_phases s) (sy_ops s) (sy_arrivals s) (sy_commits s)).

(** Nobody has written yet. *)
Definition sys_start (w : World) : Sys := MkSys w ∅ ∅ [] [].

Definition start_ok (w : World) : Prop :=
  writers_ (wo_db w) = [] /\ tmp_batch_ (wo_db w) = WriteBatch_Clear /\ 0 <= vs_last_sequence_ (db_versions_ (wo_db w)).

(** *** The invariant *)

Implicit Type d : DBImpl WFile.

(** The groups number their operations from [s] on, without a gap, to [e]. *)
Fixpoint numbered (ops : OpsMap) (s : Z) (cs : list Commit) (e : Z) : Prop :=
  match cs with
  | [] => s = e
  | c :: cs =>
      match c_group c with
      | None => numbered ops s cs e
      | Some g =>
          g_batch g = batch_rep (s + 1) (group_ops ops (c_members c)) /\ ops_ok (group_ops ops (c_members c)) /\
          numbered ops (s + Z.of_nat (length (group_ops ops (c_members c)))) cs e
      end
  end.

(** The group of [id] while it is logged and applied. *)
Record in_flight d (ops : OpsMap) (g : Group) (id : Z) : Prop := {
  if_members : exists ms rest, writers_ d = (id :: ms) ++ rest /\ g_last_writer g = default id (list.last ms) /\
    let os := group_ops ops (id :: ms) in
    g_batch g = batch_rep (vs_last_sequence_ (db_versions_ d) + 1) os /\ ops_ok os /\
    g_last_sequence g = vs_last_sequence_ (db_versions_ d) + Z.of_nat (length os) /\
    forall x, x ∈ id :: ms -> is_sync d x -> g_sync g = true;
  if_tmp : g_tmp g = false -> tmp_batch_ d = WriteBatch_Clear
}.

Definition phase_group (p : Phase) : option Group :=
  match p with PLog g | PInsert g | PFinish g _ _ => Some g | _ => None end.

(** The front writer: it is awake, and its group, if it has one, is of the queue. *)
Definition front_ok d (phases : gmap Z Phase) (ops : OpsMap) : Prop :=
  match writers_ d with
  | [] => tmp_batch_ d = WriteBatch_Clear
  | id :: _ => exists w p, writer_of_ d !! id = Some w /\ w_awake w = true /\ phases !! id = Some p /\ (forall s, p <> PReturned s) /\
      match phase_group p with Some g => in_flight d ops g id | None => tmp_batch_ d = WriteBatch_Clear end
  end.

Record sys_ok (s0 : Z) (s : Sys) : Prop := {
  so_arrivals : sy_arrivals s = concat (map c_members (sy_commits s)) ++ writers_ (wo_db (sy_world s));
  so_nodup : NoDup (sy_arrivals s);
  so_phases id : is_Some (sy_phases s !! id) <-> id ∈ sy_arrivals s;
  so_queued id : id ∈ sy_arrivals s -> queued (wo_db (sy_world s)) (sy_ops s) id;
  so_waiting id : id ∈ writers_ (wo_db (sy_world s)) -> exists w, writer_of_ (wo_db (sy_world s)) !! id = Some w /\ w_done w = false;
  so_behind id : id ∈ tail (writers_ (wo_db (sy_world s))) -> sy_phases s !! id = Some PQueue;
  so_front : front_ok (wo_db (sy_world s)) (sy_phases s) (sy_ops s);
  so_done c id : c ∈ sy_commits s -> id ∈ c_members c ->
    sy_phases s !! id = Some (PReturned (c_status c)) \/
    (sy_phases s !! id = Some PQueue /\ exists w, writer_of_ (wo_db (sy_world s)) !! id = Some w /\ w_done w = true /\ w_status w = c_status c /\ w_awake w = true);
  so_numbered : numbered (sy_ops s) s0 (sy_commits s) (vs_last_sequence_ (db_versions_ (wo_db (sy_world s))));
  so_sync c g id : c ∈ sy_commits s -> c_group c = Some g -> id ∈ c_members c -> is_sync (wo_db (sy_world s)) id -> g_sync g = true;
  so_start : 0 <= s0;
  so_bound : s0 + Z.of_nat (length (group_ops (sy_ops s) (sy_arrivals s))) <= kMaxSequenceNumber;
  so_nothing c : c ∈ sy_commits s -> c_group c = None -> Status_ok (c_status c) = true -> group_ops (sy_ops s) (c_members c) = []
}.

Lemma group_ops_app ops l1 l2 : group_ops ops (l1 ++ l2) = group_ops ops l1 ++ group_ops ops l2.
Proof. unfold group_ops. by rewrite map_app, List.concat_app. Qed.

Lemma group_ops_ext ops ops' ids : (forall x, x ∈ ids -> ops' !! x = ops !! x) -> group_ops ops' ids = group_ops ops ids.
Proof.
  induction ids as [|x ids IH]; intros Hx; [done|]. unfold group_ops in *. cbn [map concat]. f_equal.
  - unfold ops_at. by rewrite (Hx x ltac:(by left)).
  - apply IH. intros y Hy. apply Hx. by right.
Qed.

Lemma numbered_ext ops ops' cs : forall s e, (forall x, x ∈ concat (map c_members cs) -> ops' !! x = ops !! x) ->
  numbered ops s cs e -> numbered ops' s cs e.
Proof.
  induction cs as [|c cs IH]; intros s e Hx; [done|]. cbn [numbered map concat] in *.
  assert (Hc : group_ops ops' (c_members c) = group_ops ops (c_members c)) by (apply group_ops_ext; intros x Hin; apply Hx, elem_of_app; by left).
  assert (Hr : forall x, x ∈ concat (map c_members cs) -> ops' !! x = ops !! x) by (intros x Hin; apply Hx, elem_of_app; by right).
  destruct (c_group c); rewrite ?Hc; [|by apply IH]. intros (H1 & H2 & H3). split_and!; [done|apply H2..|by apply IH].
Qed.

Lemma numbered_range ops cs : forall s e, numbered ops s cs e ->
  s <= e <= s + Z.of_nat (length (group_ops ops (concat (map c_members cs)))).
Proof.
  induction cs as [|c cs IH]; intros s e; cbn [numbered map concat]; [intros ->; cbn; lia|]. rewrite group_ops_app, length_app.
  destruct (c_group c); [intros (_ & _ & H)|intros H]; apply IH in H; lia.
Qed.

Lemma numbered_snoc ops cs c : forall s e, numbered ops s cs e ->
  forall e', match c_group c with
             | None => e' = e
             | Some g => g_batch g = batch_rep (e + 1) (group_ops ops (c_members c)) /\ ops_ok (group_ops ops (c_members c)) /\
                 e' = e + Z.of_nat (length (group_ops ops (c_members c)))
             end -> numbered ops s (cs ++ [c]) e'.
Proof.
  induction cs as [|c' cs IH]; intros s e Hn e' Hc; cbn [numbered app] in *.
  - subst e. destruct (c_group c); [destruct Hc as (H1 & H2 & ->); done|done].
  - destruct (c_group c'); [|by eapply IH]. destruct Hn as (H1 & H2 & H3). split_and!; [done|apply H2..|by eapply IH].
Qed.

Lemma concat_members_snoc (cs : list Commit) c : concat (map c_members (cs ++ [c])) = concat (map c_members cs) ++ c_members c.
Proof. rewrite map_app, List.concat_app. cbn. by rewrite app_nil_r. Qed.

(** The invariant reads the queue only. *)
Lemma sys_ok_world s0 s w' : same_queue (wo_db (sy_world s)) (wo_db w') -> sys_ok s0 s ->
  sys_ok s0 (MkSys w' (sy_phases s) (sy_ops s) (sy_arrivals s) (sy_commits s)).
Proof.
  destruct s as [w phases ops arrivals commits]. destruct w as [fs t d], w' as [fs' t' d']. intros (E1 & E2 & E3 & E4) [H1 H2 H3 H4 H5 H6 H7 H8 H9 H10 H11 H12 H13]. cbn in *.
  split; cbn; unfold queued, front_ok, is_sync in *; rewrite ?E1, ?E2, ?E3, ?E4; try done.
  destruct (writers_ d) as [|id q] eqn:Eq; [done|]. destruct H7 as (w & p & Hw & Ha & Hp & Hr & Hg). exists w, p. split_and!; try done.
  destruct (phase_group p) as [g|]; [|done]. destruct Hg as [(ms & rest & Hq & Hl & Hb & Ho & Hs & Hy) Ht].
  split; [|by rewrite E3]. exists ms, rest. rewrite E2, E4. unfold is_sync in *. rewrite E1. rewrite <- Eq. split_and!; try done; apply Ho.
Qed.

(** A writer that is in neither phase of waiting is at the front. *)
Lemma active_front s0 s id p : sys_ok s0 s -> sy_phases s !! id = Some p -> p <> PQueue -> (forall st, p <> PReturned st) ->
  exists q, writers_ (wo_db (sy_world s)) = id :: q.
Proof.
  intros H Hp Hq Hr. assert (Hin : id ∈ sy_arrivals s) by (apply (so_phases _ _ H); by eexists).
  rewrite (so_arrivals _ _ H) in Hin. apply elem_of_app in Hin as [Hin|Hin].
  - apply list_elem_of_In, in_concat in Hin as (ms & Hms & Hin). apply in_map_iff in Hms as (c & <- & Hc).
    destruct (so_done _ _ H c id) as [Hd|[Hd _]]; [by apply list_elem_of_In..| |]; rewrite Hp in Hd; [by injection Hd as ->; destruct (Hr (c_status c))|by injection Hd as ->].
  - destruct (writers_ (wo_db (sy_world s))) as [|x q] eqn:Eq; [by apply elem_of_nil in Hin|]. apply elem_of_cons in Hin as [->|Hin]; [by eexists|].
    assert (Hb : sy_phases s !! id = Some PQueue) by (apply (so_behind _ _ H); by rewrite Eq). rewrite Hp in Hb. by injection Hb as ->.
Qed.

(** Who is in the queue has not been served. *)
Lemma queue_fresh s0 s id c : sys_ok s0 s -> id ∈ writers_ (wo_db (sy_world s)) -> c ∈ sy_commits s -> id ∉ c_members c.
Proof.
  intros H Hq Hc Hin. pose proof (so_nodup _ _ H) as Hn. rewrite (so_arrivals _ _ H) in Hn. apply list.NoDup_app in Hn as (_ & Hd & _).
  apply (Hd id); [|done]. apply list_elem_of_In, in_concat. exists (c_members c). split; [apply in_map|]; by apply list_elem_of_In.
Qed.

Lemma queue_NoDup s0 s : sys_ok s0 s -> NoDup (writers_ (wo_db (sy_world s))).
Proof. intros H. pose proof (so_nodup _ _ H) as Hn. rewrite (so_arrivals _ _ H) in Hn. by apply list.NoDup_app in Hn as (_ & _ & Hn). Qed.

(** The front writer moves on. *)
Lemma sys_ok_front s0 s id q p' :
  sys_ok s0 s -> writers_ (wo_db (sy_world s)) = id :: q -> (forall st, p' <> PReturned st) ->
  match phase_group p' with Some g => in_flight (wo_db (sy_world s)) (sy_ops s) g id | None => tmp_batch_ (wo_db (sy_world s)) = WriteBatch_Clear end ->
  sys_ok s0 (MkSys (sy_world s) (<[id := p']> (sy_phases s)) (sy_ops s) (sy_arrivals s) (sy_commits s)).
Proof.
  intros H Hq Hr Hg. pose proof (queue_NoDup _ _ H) as Hn. rewrite Hq in Hn. apply list.NoDup_cons in Hn as [Hid Hn].
  assert (Hin : id ∈ sy_arrivals s) by (rewrite (so_arrivals _ _ H), Hq; apply elem_of_app; right; left).
  pose proof (queue_fresh s0 s id) as Hfresh. destruct H as [H1 H2 H3 H4 H5 H6 H7 H8 H9 H10 H11 H12 H13]. split; cbn; try done.
  - intros x. destruct (decide (x = id)) as [->|Hx]; [rewrite lookup_insert_eq; split; [done|by eexists]|by rewrite lookup_insert_ne].
  - intros x Hx. rewrite Hq in *. cbn in Hx. rewrite lookup_insert_ne by (intros ->; done). by apply H6.
  - unfold front_ok in *. rewrite Hq in *. destruct H7 as (w & p & Hw & Ha & Hp & _ & _). exists w, p'. rewrite lookup_insert_eq. done.
  - intros c x Hc Hx. rewrite lookup_insert_ne; [by apply H8|]. intros <-. eapply Hfresh; [|rewrite Hq; left|exact Hc|exact Hx]. by split.
Qed.
End system.

(** ** The front writer's work *)

Section work.
Context {W : Type}.
Implicit Type d : DBImpl W.

Lemma find_writer_Some d id w : find_writer d id = Ok w <-> writer_of_ d !! id = Some w.
Proof. unfold find_writer. destruct (writer_of_ d !! id); split; congruence. Qed.

Lemma pop_writers_ok id status ms : forall d rest last,
  NoDup (ms ++ rest) -> list.last ms = Some last -> (forall x, x ∈ ms -> is_Some (writer_of_ d !! x)) ->
  exists m, pop_writers (ms ++ rest) d id last status = Ok (set_writers d m rest) /\
    (forall x, x ∉ ms \/ x = id -> m !! x = writer_of_ d !! x) /\
    forall x w, x ∈ ms -> x <> id -> writer_of_ d !! x = Some w -> m !! x = Some (MkDbWriter status (w_batch w) (w_sync w) true true).
Proof.
  induction ms as [|r ms IH]; intros d rest last Hn Hl Hw; [done|]. cbn [app] in Hn. apply list.NoDup_cons in Hn as [Hr Hn]. cbn [app pop_writers].
  set (d0 := set_writers d (writer_of_ d) (ms ++ rest)).
  assert (Hstep : exists m0, (if r =? id then Ok d0 else let? w := find_writer d0 r in
      Signal (put_writer d0 r (MkDbWriter status (w_batch w) (w_sync w) true (w_awake w))) r) = Ok (set_writers d m0 (ms ++ rest)) /\
    (forall x, x <> r \/ x = id -> m0 !! x = writer_of_ d !! x) /\
    forall w, r <> id -> writer_of_ d !! r = Some w -> m0 !! r = Some (MkDbWriter status (w_batch w) (w_sync w) true true)).
  { destruct (Z.eqb_spec r id) as [->|Hri]; [by exists (writer_of_ d)|]. destruct (Hw r ltac:(left)) as [w Hrw].
    unfold find_writer at 1. cbn [writer_of_ d0 set_writers]. rewrite Hrw. cbn [res_bind]. unfold Signal, find_writer. cbn [writer_of_ put_writer set_writers].
    rewrite lookup_insert_eq. cbn [res_bind]. unfold put_writer. cbn. rewrite insert_insert_eq. eexists. split; [reflexivity|]. split.
    - intros x [Hx|Hx]; subst; by rewrite lookup_insert_ne.
    - intros w' _ [= <-]. by rewrite lookup_insert_eq. }
  destruct Hstep as (m0 & -> & Hm1 & Hm2). cbn [res_bind]. destruct ms as [|y ms].
  - injection Hl as <-. rewrite Z.eqb_refl. exists m0. split; [done|]. split.
    + intros x [Hx|Hx]; apply Hm1; [left|by right]. intros ->. apply Hx. left.
    + intros x w ->%list_elem_of_singleton Hx Hxw. by apply Hm2.
  - assert (Hlin : last ∈ y :: ms) by (apply last_Some in Hl as [l' Hl']; destruct l' as [|z l']; [done|]; injection Hl' as _ ->; apply elem_of_app; right; left).
    destruct (Z.eqb_spec r last) as [->|_]; [destruct Hr; apply elem_of_app; by left|].
    destruct (IH (set_writers d m0 ((y :: ms) ++ rest)) rest last Hn) as (m & -> & Hk1 & Hk2).
    { exact Hl. }
    { intros x Hx. cbn. rewrite Hm1; [apply Hw; by right|]. left. intros ->. apply Hr, elem_of_app. by left. }
    cbn [writer_of_ set_writers] in *. exists m. split; [done|]. split.
    + intros x Hx. rewrite Hk1 by (destruct Hx as [Hx|Hx]; [left; intros ?; apply Hx; by right|by right]).
      apply Hm1. destruct Hx as [Hx|Hx]; [left; intros ->; apply Hx; left|by right].
    + intros x w Hx Hxi Hxw. destruct (decide (x = r)) as [->|Hxr].
      * rewrite Hk1 by (left; intros ?; apply Hr, elem_of_app; by left). by apply Hm2.
      * apply elem_of_cons in Hx as [->|Hx]; [done|]. apply Hk2; [done..|]. rewrite Hm1 by (by left). done.
Qed.

(** All of the group is told the result, and the new front writer is woken. *)
Lemma Write_pop_ok d id status ms rest last :
  writers_ d = ms ++ rest -> NoDup (ms ++ rest) -> list.last ms = Some last -> id ∈ ms ->
  (forall x, x ∈ ms ++ rest -> is_Some (writer_of_ d !! x)) ->
  exists m, Write_pop d id last status = Ok (set_writers d m rest) /\ m !! id = writer_of_ d !! id /\
    (forall x, x ∉ ms -> head rest <> Some x -> m !! x = writer_of_ d !! x) /\
    (forall x w, head rest = Some x -> writer_of_ d !! x = Some w -> m !! x = Some (set_awake w true)) /\
    forall x w, x ∈ ms -> x <> id -> writer_of_ d !! x = Some w -> m !! x = Some (MkDbWriter status (w_batch w) (w_sync w) true true).
Proof.
  intros Hq Hn Hl Hid Hw. pose proof Hn as Hn'. apply list.NoDup_app in Hn' as (_ & Hdis & _).
  destruct (pop_writers_ok id status ms d rest last Hn Hl) as (m & E & Hm1 & Hm2).
  { intros x Hx. apply Hw, elem_of_app. by left. }
  unfold Write_pop. rewrite Hq, E. cbn [res_bind]. unfold wake_front. cbn [writers_ set_writers]. destruct rest as [|y rest].
  { exists m. split; [done|]. split; [apply Hm1; by right|]. split; [intros x Hx _; apply Hm1; by left|]. split; [done|exact Hm2]. }
  assert (Hy : y ∉ ms) by (intros H; apply (Hdis y H); left).
  destruct (Hw y) as [wy Hwy]; [apply elem_of_app; right; left|].
  unfold Signal, find_writer. cbn [writer_of_ set_writers]. rewrite Hm1, Hwy by (by left). cbn [res_bind]. eexists. split; [reflexivity|].
  split; [|split; [|split]].
  - rewrite lookup_insert_ne by (intros ->; done). apply Hm1. by right.
  - intros x Hx Hne. rewrite lookup_insert_ne by (intros ->; by apply Hne). apply Hm1. by left.
  - intros x w [= <-] Hxw. rewrite Hwy in Hxw. injection Hxw as <-. by rewrite lookup_insert_eq.
  - intros x w Hx Hxi Hxw. rewrite lookup_insert_ne by (intros ->; done). by apply Hm2.
Qed.

Lemma Write_begin_ok d (ops : OpsMap) id q w b :
  writers_ d = id :: q -> Forall (queued d ops) (id :: q) -> writer_of_ d !! id = Some w -> w_batch w = Some b -> tmp_batch_ d = WriteBatch_Clear ->
  0 <= vs_last_sequence_ (db_versions_ d) -> vs_last_sequence_ (db_versions_ d) + Z.of_nat (length (group_ops ops (id :: q))) <= kMaxSequenceNumber ->
  exists ms rest d' g, q = ms ++ rest /\ Write_begin d id = Ok (d', g) /\ g_last_writer g = default id (list.last ms) /\
    let os := group_ops ops (id :: ms) in
    g_batch g = batch_rep (vs_last_sequence_ (db_versions_ d) + 1) os /\ ops_ok os /\
    g_last_sequence g = vs_last_sequence_ (db_versions_ d) + Z.of_nat (length os) /\ g_sync g = w_sync w /\
    (forall x, x ∈ id :: ms -> is_sync d x -> g_sync g = true) /\
    (d' = set_tmp_batch d (g_batch g) /\ g_tmp g = true \/
     d' = put_writer d id (MkDbWriter (w_status w) (Some (g_batch g)) (w_sync w) (w_done w) (w_awake w)) /\ g_tmp g = false /\ group_ops ops (id :: ms) = ops_at ops id).
Proof.
  intros Hq Hqd Hw Hb Htmp Hs Hbound. apply list.Forall_cons in Hqd as [Hid Hqd].
  destruct (queued_batch d ops id Hid) as (w' & Hf & Hops). apply find_writer_Some in Hf. rewrite Hw in Hf. injection Hf as <-.
  rewrite Hb in Hops. destruct Hops as (q0 & Hq0 & Hbe & Hok & Hsz). pose proof (size_batch_rep q0 (ops_at ops id)) as Hlow. rewrite <- Hbe in Hlow.
  assert (Hmax : (if ByteSize b <=? 128 ≪ 10 then u64 (ByteSize b + (128 ≪ 10)) else 1 ≪ 20) <= 1 ≪ 20).
  { destruct (Z.leb_spec (ByteSize b) (128 ≪ 10)); [|lia]. unfold ByteSize in *. change (128 ≪ 10) with (2 ^ 17) in *. change (1 ≪ 20) with (2 ^ 20).
    rewrite wrap_id by (unfold fits; lia). lia. }
  set (mx := if ByteSize b <=? 128 ≪ 10 then u64 (ByteSize b + (128 ≪ 10)) else 1 ≪ 20) in *.
  destruct (group_loop_ok d ops w b mx q (ops_at ops id) (ByteSize b) (tmp_batch_ d) false id Hqd) as (ms & rest & tmp & in_tmp & -> & El & Ha & Ho & Hsy).
  { split; [done|]. by exists q0. }
  { unfold ByteSize. lia. }
  { unfold ByteSize. lia. }
  { exact Hmax. }
  { exact Hok. }
  set (os := group_ops ops (id :: ms)). assert (Eos : ops_at ops id ++ group_ops ops ms = os) by reflexivity. rewrite Eos in *.
  set (s := vs_last_sequence_ (db_versions_ d)) in *.
  assert (Hlen : Z.of_nat (length os) <= Z.of_nat (length (group_ops ops (id :: ms ++ rest)))).
  { unfold os, group_ops. rewrite app_comm_cons, map_app, List.concat_app, length_app. lia. }
  assert (Hmx : kMaxSequenceNumber = 2 ^ 56 - 1) by (unfold kMaxSequenceNumber; by rewrite Z.shiftl_1_l).
  assert (Hu1 : u64 (s + 1) = s + 1) by (apply wrap_id; unfold fits; lia).
  assert (Hu2 : u64 (s + Z.of_nat (length os)) = s + Z.of_nat (length os)) by (apply wrap_id; unfold fits; lia).
  assert (Hsync : forall x, x ∈ id :: ms -> is_sync d x -> w_sync w = true).
  { intros x [->|Hx]%elem_of_cons Hxs; [destruct Hxs as (w2 & Hw2 & Hs2); rewrite Hw in Hw2; by injection Hw2 as ->|by apply (Hsy x)]. }
  assert (Hcount : forall k, fits 64 k -> SetSequence (batch_rep k os) (u64 (s + 1)) = batch_rep (s + 1) os /\
    u64 (s + Count (batch_rep (s + 1) os)) = s + Z.of_nat (length os)).
  { intros k Hk. destruct (batch_rep_header k os Hk Ho) as (_ & _ & _ & ->). rewrite Hu1. split; [done|].
    destruct (batch_rep_header (s + 1) os ltac:(unfold fits; lia) Ho) as (_ & -> & _). done. }
  unfold Write_begin, find_writer. rewrite Hw. cbn [res_bind]. unfold BuildBatchGroup. rewrite Hq. unfold find_writer. rewrite Hw. cbn [res_bind]. rewrite Hb.
  cbv zeta. fold mx. rewrite El. cbn [res_bind]. fold s. unfold appended in Ha. destruct in_tmp.
  - subst tmp. cbn [res_bind]. destruct (Hcount 0 ltac:(by unfold fits)) as [-> ->].
    eexists ms, rest, _, _. split; [done|]. split; [reflexivity|]. cbn [g_last_writer g_batch g_last_sequence g_sync g_tmp].
    split; [done|]. split; [done|]. split; [exact Ho|]. split; [done|]. split; [done|]. split; [exact Hsync|]. by left.
  - destruct Ha as (-> & k & Hk & Hbk). rewrite Hbk. cbn [res_bind]. destruct (Hcount k Hk) as [-> ->].
    eexists ms, rest, _, _. split; [done|]. split; [reflexivity|]. cbn [g_last_writer g_batch g_last_sequence g_sync g_tmp].
    split; [done|]. split; [done|]. split; [exact Ho|]. split; [done|]. split; [done|]. split; [exact Hsync|]. right. split; [done|]. split; [done|].
    rewrite Hbe in Hbk. assert (E3 : ops_at ops id = os); [|done].
    assert (Hl2 : size (batch_rep q0 (ops_at ops id)) = size (batch_rep k os)) by by rewrite Hbk.
    unfold batch_rep in Hl2. rewrite !size_app, !size_EncodeFixed64, !size_EncodeFixed32 in Hl2. unfold os, group_ops in *. cbn [map concat] in *.
    rewrite encode_ops_app, size_app in Hl2. pose proof (size_encode_ops (concat (map (ops_at ops) ms))).
    destruct (concat (map (ops_at ops) ms)); [by rewrite app_nil_r|cbn [length] in *; lia].
Qed.
End work.

(** ** Every step keeps the invariant *)

Section preserve.
Context `{C : Comparator} `{DE : DbEnv} {T : Type}.
Abbreviation Sys := (Sys FS T WFile).

Lemma members_arrived s0 (s : Sys) c x : sys_ok s0 s -> c ∈ sy_commits s -> x ∈ c_members c -> x ∈ sy_arrivals s.
Proof.
  intros H Hc Hx. rewrite (so_arrivals _ _ H). apply elem_of_app. left. apply list_elem_of_In, in_concat. exists (c_members c).
  split; [apply in_map|]; by apply list_elem_of_In.
Qed.

Lemma enter_ok s0 (s : Sys) id updates sync ops :
  sy_phases s !! id = None -> writer_ops (MkDbWriter Status_OK updates sync false true) ops ->
  s0 + Z.of_nat (length (group_ops (<[id := ops]> (sy_ops s)) (sy_arrivals s ++ [id]))) <= kMaxSequenceNumber ->
  sys_ok s0 s ->
  sys_ok s0 (MkSys (with_db (sy_world s) (Write_enter (wo_db (sy_world s)) id updates sync))
               (<[id := PQueue]> (sy_phases s)) (<[id := ops]> (sy_ops s)) (sy_arrivals s ++ [id]) (sy_commits s)).
Proof.
  intros Hnew Hops Hbound H. assert (Hid : id ∉ sy_arrivals s) by (intros [p Hp]%(so_phases _ _ H); congruence).
  assert (Hq : id ∉ writers_ (wo_db (sy_world s))) by (intros Hin; apply Hid; rewrite (so_arrivals _ _ H); apply elem_of_app; by right).
  assert (Hop : forall x, x ∈ sy_arrivals s -> <[id := ops]> (sy_ops s) !! x = sy_ops s !! x) by (intros x Hx; rewrite lookup_insert_ne; [done|by intros ->]).
  assert (Hsy : forall x, x ∈ sy_arrivals s -> is_sync (Write_enter (wo_db (sy_world s)) id updates sync) x -> is_sync (wo_db (sy_world s)) x).
  { intros x Hx (w & Hw & Hs). cbn in Hw. rewrite lookup_insert_ne in Hw by (by intros ->). by exists w. }
  pose proof (fun c x => members_arrived s0 s c x H) as Hma.
  destruct s as [w phases om arrivals commits]. destruct H as [H1 H2 H3 H4 H5 H6 H7 H8 H9 H10 H11 H12 H13]. cbn in *.
  split; cbn; unfold is_sync in *; cbn in *; try done.
  - by rewrite app_assoc, <- H1.
  - apply list.NoDup_app. split; [done|]. split; [|apply NoDup_singleton]. by intros x Hx ->%list_elem_of_singleton.
  - intros x. rewrite elem_of_app, list_elem_of_singleton. destruct (decide (x = id)) as [->|Hx].
    + rewrite lookup_insert_eq. split; [by right|by eexists].
    + rewrite lookup_insert_ne by done. rewrite H3. tauto.
  - intros x Hx. unfold queued. cbn. destruct (decide (x = id)) as [->|Hxi]; [rewrite !lookup_insert_eq; by eexists _, ops|].
    rewrite !lookup_insert_ne by done. apply H4. apply elem_of_app in Hx as [Hx|Hx]; [done|]. by apply list_elem_of_singleton in Hx.
  - intros x Hx. destruct (decide (x = id)) as [->|Hxi]; [rewrite lookup_insert_eq; by eexists|].
    rewrite lookup_insert_ne by done. apply H5. apply elem_of_app in Hx as [Hx|Hx]; [done|]. by apply list_elem_of_singleton in Hx.
  - intros x Hx. destruct (decide (x = id)) as [->|Hxi]; [by rewrite lookup_insert_eq|]. rewrite lookup_insert_ne by done. apply H6.
    destruct (writers_ (wo_db w)) as [|y q]; cbn in *; [by apply elem_of_nil in Hx|]. apply elem_of_app in Hx as [Hx|Hx]; [done|]. by apply list_elem_of_singleton in Hx.
  - unfold front_ok in *. cbn. destruct (writers_ (wo_db w)) as [|y q] eqn:Eq; cbn.
    { eexists _, PQueue. rewrite !lookup_insert_eq. done. }
    assert (Hy : y <> id) by (intros ->; apply Hq; left). destruct H7 as (wy & p & Hwy & Ha & Hp & Hr & Hg). exists wy, p.
    rewrite !lookup_insert_ne by done. split_and!; try done. destruct (phase_group p) as [g|]; [|done].
    destruct Hg as [(ms & rest & Hm & Hl & Hb & Ho & Hs & Hsg) Ht]. split; [|done]. exists ms, (rest ++ [id]). cbv zeta. cbn [writers_ Write_enter set_writers db_versions_]. rewrite Hm.
    assert (Hin : forall x, x ∈ y :: ms -> x ∈ arrivals).
    { intros x Hx. rewrite H1. apply elem_of_app. right. rewrite <- Eq, Hm. apply elem_of_app. by left. }
    rewrite (group_ops_ext om (<[id := ops]> om) (y :: ms)) by (intros x Hx; by apply Hop, Hin). split_and!; [by rewrite app_assoc|done|done|apply Ho..|done|].
    intros x Hx Hxs. apply (Hsg x Hx). apply Hsy; [by apply Hin|done].
  - intros c x Hc Hx. assert (Hxa : x ∈ arrivals) by by apply (Hma c).
    rewrite !lookup_insert_ne by (by intros ->). by apply H8.
  - eapply numbered_ext; [|exact H9]. intros x Hx. apply Hop. rewrite H1. apply elem_of_app. by left.
  - intros c g x Hc Hg Hx Hs. eapply H10; [done..|]. apply Hsy; [by apply (Hma c)|done].
  - intros c Hc Hg Hs. rewrite (group_ops_ext om); [by apply H13|]. intros x Hx. by apply Hop, (Hma c).
Qed.

(** A writer behind the front goes to sleep. *)
Lemma sleep_ok s0 (s : Sys) id w : sys_ok s0 s -> sy_phases s !! id = Some PQueue -> writer_of_ (wo_db (sy_world s)) !! id = Some w ->
  w_done w = false -> head (writers_ (wo_db (sy_world s))) <> Some id ->
  sys_ok s0 (MkSys (with_db (sy_world s) (put_writer (wo_db (sy_world s)) id (set_awake w false)))
               (<[id := PQueue]> (sy_phases s)) (sy_ops s) (sy_arrivals s) (sy_commits s)).
Proof.
  intros H Hp Hw Hd Hh. assert (Hnc : forall c, c ∈ sy_commits s -> id ∉ c_members c).
  { intros c Hc Hin. destruct (so_done _ _ H c id Hc Hin) as [Hr|[_ (w' & Hw' & Hd' & _)]]; congruence. }
  rewrite insert_id by done. destruct s as [wo phases om arrivals commits]. destruct H as [H1 H2 H3 H4 H5 H6 H7 H8 H9 H10 H11 H12 H13]. cbn in *.
  assert (Hsy : forall x, is_sync (put_writer (wo_db wo) id (set_awake w false)) x -> is_sync (wo_db wo) x).
  { intros x (w' & Hw' & Hs'). cbn in Hw'. destruct (decide (x = id)) as [->|Hx]; [rewrite lookup_insert_eq in Hw'; injection Hw' as <-; by exists w|].
    rewrite lookup_insert_ne in Hw' by done. by exists w'. }
  split; cbn; try done.
  - intros x Hx. destruct (H4 x Hx) as (w' & o & Hw' & Ho & Hwo). unfold queued. cbn. destruct (decide (x = id)) as [->|Hxi].
    + rewrite lookup_insert_eq. exists (set_awake w false), o. rewrite Hw in Hw'. by injection Hw' as <-.
    + rewrite lookup_insert_ne by done. by exists w', o.
  - intros x Hx. destruct (decide (x = id)) as [->|Hxi]; [rewrite lookup_insert_eq; by eexists|rewrite lookup_insert_ne by done; by apply H5].
  - unfold front_ok in *. cbn. destruct (writers_ (wo_db wo)) as [|y q] eqn:Eq; [done|]. destruct H7 as (wy & p & Hwy & Ha & Hpy & Hr & Hg).
    exists wy, p. rewrite lookup_insert_ne by (intros ->; done). split_and!; try done. destruct (phase_group p) as [g|]; [|done].
    destruct Hg as [(ms & rest & Hm & Hl & Hb & Ho & Hs & Hsg) Ht]. split; [|done]. exists ms, rest. cbv zeta. split_and!; try done; [apply Ho..|].
    intros x Hx Hxs. apply (Hsg x Hx). by apply Hsy.
  - intros c x Hc Hx. rewrite lookup_insert_ne by (intros <-; by apply (Hnc c)). by apply H8.
  - intros c g x Hc Hg Hx Hs. eapply H10; [done..|]. by apply Hsy.
Qed.

(** A served writer returns. *)
Lemma return_ok s0 (s : Sys) id w : sys_ok s0 s -> sy_phases s !! id = Some PQueue -> writer_of_ (wo_db (sy_world s)) !! id = Some w ->
  w_done w = true ->
  sys_ok s0 (MkSys (sy_world s) (<[id := PReturned (w_status w)]> (sy_phases s)) (sy_ops s) (sy_arrivals s) (sy_commits s)).
Proof.
  intros H Hp Hw Hd. assert (Hq : id ∉ writers_ (wo_db (sy_world s))).
  { intros Hin. destruct (so_waiting _ _ H id Hin) as (w' & Hw' & Hd'). congruence. }
  destruct s as [wo phases om arrivals commits]. destruct H as [H1 H2 H3 H4 H5 H6 H7 H8 H9 H10 H11 H12 H13]. cbn in *. split; cbn; try done.
  - intros x. destruct (decide (x = id)) as [->|Hx]; [|by rewrite lookup_insert_ne]. rewrite lookup_insert_eq. split; [|by eexists].
    intros _. apply H3. by eexists.
  - intros x Hx. rewrite lookup_insert_ne; [by apply H6|]. intros <-. apply Hq. destruct (writers_ (wo_db wo)); [done|by right].
  - unfold front_ok in *. destruct (writers_ (wo_db wo)) as [|y q] eqn:Eq; [done|]. destruct H7 as (wy & p & Hwy & Ha & Hpy & Hr & Hg).
    exists wy, p. rewrite lookup_insert_ne; [done|]. intros <-. apply Hq. left.
  - intros c x Hc Hx. destruct (decide (x = id)) as [->|Hxi]; [|by rewrite lookup_insert_ne by done; apply H8].
    rewrite lookup_insert_eq. left. destruct (H8 c id Hc Hx) as [Hr|[_ (w' & Hw' & _ & Hs & _)]]; [congruence|]. rewrite Hw in Hw'. injection Hw' as <-. by rewrite Hs.
Qed.

(** A group is done: its members know the result, and the next writer is at the front. *)
Lemma commit_ok s0 (s : Sys) id ms rest cg st d1 m (w' : World FS T WFile) :
  let d := wo_db (sy_world s) in
  sys_ok s0 s -> writers_ d = (id :: ms) ++ rest ->
  writer_of_ d1 = writer_of_ d -> tmp_batch_ d1 = WriteBatch_Clear ->
  match cg with
  | None => vs_last_sequence_ (db_versions_ d1) = vs_last_sequence_ (db_versions_ d) /\
      (Status_ok st = true -> group_ops (sy_ops s) (id :: ms) = [])
  | Some g => g_batch g = batch_rep (vs_last_sequence_ (db_versions_ d) + 1) (group_ops (sy_ops s) (id :: ms)) /\
      ops_ok (group_ops (sy_ops s) (id :: ms)) /\
      vs_last_sequence_ (db_versions_ d1) = vs_last_sequence_ (db_versions_ d) + Z.of_nat (length (group_ops (sy_ops s) (id :: ms))) /\
      forall x, x ∈ id :: ms -> is_sync d x -> g_sync g = true
  end ->
  m !! id = writer_of_ d1 !! id -> (forall x, x ∉ id :: ms -> head rest <> Some x -> m !! x = writer_of_ d1 !! x) ->
  (forall x w, head rest = Some x -> writer_of_ d1 !! x = Some w -> m !! x = Some (set_awake w true)) ->
  (forall x w, x ∈ id :: ms -> x <> id -> writer_of_ d1 !! x = Some w -> m !! x = Some (MkDbWriter st (w_batch w) (w_sync w) true true)) ->
  wo_db w' = set_writers d1 m rest ->
  sys_ok s0 (MkSys w' (<[id := PReturned st]> (sy_phases s)) (sy_ops s) (sy_arrivals s) (sy_commits s ++ [MkCommit (popped d (wo_db w')) cg st])).
Proof.
  intros d H Hq Hwr Htmp Hcg Hmid Hm1 Hm2 Hm3 Hw'.
  assert (Hpop : popped d (wo_db w') = id :: ms).
  { unfold popped. rewrite Hw', Hq. cbn [writers_ set_writers]. rewrite length_app. replace (length (id :: ms) + length rest - length rest)%nat with (length (id :: ms)) by lia. by apply take_app_length. }
  rewrite Hpop. pose proof (queue_NoDup _ _ H) as Hn. fold d in Hn. rewrite Hq in Hn. pose proof Hn as Hn'. apply list.NoDup_app in Hn' as (Hnm & Hdis & Hnr).
  assert (Hfresh : forall c x, c ∈ sy_commits s -> x ∈ c_members c -> x ∉ writers_ d) by (intros c x Hc Hx Hxq; by apply (queue_fresh s0 s x c H Hxq Hc)).
  assert (Hsame : forall x w, writer_of_ d !! x = Some w -> exists w2, m !! x = Some w2 /\ w_batch w2 = w_batch w /\ w_sync w2 = w_sync w /\
    (x ∉ id :: ms -> w_done w2 = w_done w /\ w_status w2 = w_status w /\ (w_awake w = true -> w_awake w2 = true))).
  { intros x w Hw. rewrite <- Hwr in Hw. destruct (decide (x = id)) as [->|Hxi]; [exists w; rewrite Hmid; split_and!; try done; intros; done|].
    destruct (decide (x ∈ id :: ms)) as [Hin|Hout]; [eexists; split; [by apply Hm3|]; split_and!; try done|].
    destruct (decide (head rest = Some x)) as [Hh|Hh]; [eexists; split; [by apply Hm2|]; done|]. exists w. by rewrite Hm1. }
  assert (Hsync : forall x, is_sync (wo_db w') x -> x ∈ sy_arrivals s -> is_sync d x).
  { intros x (w2 & Hw2 & Hs2) Hx. rewrite Hw' in Hw2. cbn in Hw2. destruct (so_queued _ _ H x Hx) as (w & o & Hw & _).
    destruct (Hsame x w Hw) as (w3 & Hw3 & _ & Hs3 & _). rewrite Hw2 in Hw3. injection Hw3 as <-. exists w. split; [done|]. congruence. }
  pose proof (fun c x => members_arrived s0 s c x H) as Hma. pose proof (so_behind _ _ H) as Hbehind. fold d in Hbehind. rewrite Hq in Hbehind. cbn in Hbehind.
  assert (Harr : forall x, x ∈ id :: ms -> x ∈ sy_arrivals s) by (intros x Hx; rewrite (so_arrivals _ _ H); fold d; rewrite Hq; apply elem_of_app; right; apply elem_of_app; by left).
  destruct s as [wo phases om arrivals commits]. destruct H as [H1 H2 H3 H4 H5 H6 H7 H8 H9 H10 H11 H12 H13]. subst d. cbn [sy_world sy_phases sy_ops sy_arrivals sy_commits] in *.
  split; cbn [sy_world sy_phases sy_ops sy_arrivals sy_commits]; rewrite ?Hw'; cbn [writers_ set_writers db_versions_ tail]; try done.
  - rewrite concat_members_snoc. cbn. by rewrite <- app_assoc, H1, Hq.
  - intros x. destruct (decide (x = id)) as [->|Hx]; [|by rewrite lookup_insert_ne]. rewrite lookup_insert_eq. split; [|by eexists]. intros _. apply Harr. left.
  - intros x Hx. destruct (H4 x Hx) as (w & o & Hw & Ho & Hwo). destruct (Hsame x w Hw) as (w2 & Hw2 & Hb2 & _). exists w2, o. cbn. split; [done|]. split; [done|].
    unfold writer_ops in *. by rewrite Hb2.
  - intros x Hx. assert (Hxq : x ∈ writers_ (wo_db wo)) by (rewrite Hq; apply elem_of_app; by right). destruct (H5 x Hxq) as (w & Hw & Hd).
    destruct (Hsame x w Hw) as (w2 & Hw2 & _ & _ & Hout). exists w2. split; [done|]. destruct Hout as (-> & _); [|done]. intros Hin. by apply (Hdis x).
  - intros x Hx. rewrite lookup_insert_ne.
    + apply Hbehind. destruct rest as [|y rest]; [by apply elem_of_nil in Hx|]. apply elem_of_app. right. by right.
    + intros <-. apply (Hdis id); [left|]. destruct rest; [by apply elem_of_nil in Hx|by right].
  - unfold front_ok. cbn. destruct rest as [|y rest]; [done|]. assert (Hy : y ∉ id :: ms) by (intros Hin; apply (Hdis y); [done|left]).
    assert (Hyq : y ∈ writers_ (wo_db wo)) by (rewrite Hq; apply elem_of_app; right; left). destruct (H5 y Hyq) as (w & Hw & _). rewrite <- Hwr in Hw.
    exists (set_awake w true), PQueue. split; [by apply Hm2|]. split; [done|]. rewrite lookup_insert_ne by (intros ->; apply Hy; left).
    split; [apply Hbehind; apply elem_of_app; right; left|]. done.
  - intros c x Hc Hx. apply elem_of_app in Hc as [Hc|Hc].
    + assert (Hxq := Hfresh c x Hc Hx). rewrite lookup_insert_ne by (intros <-; apply Hxq; rewrite Hq; left).
      destruct (H8 c x Hc Hx) as [Hr|[Hp (w & Hw & Hd & Hs & Ha)]]; [by left|]. right. split; [done|].
      destruct (Hsame x w Hw) as (w2 & Hw2 & _ & _ & Hout). exists w2. destruct Hout as (-> & -> & Haw); [intros Hin; apply Hxq; rewrite Hq; apply elem_of_app; by left|]. auto.
    + apply list_elem_of_singleton in Hc as ->. cbn in *. destruct (decide (x = id)) as [->|Hxi]; [rewrite lookup_insert_eq; by left|].
      rewrite lookup_insert_ne by done. right. assert (Hxm : x ∈ ms) by (apply elem_of_cons in Hx as [?|?]; done). split; [apply Hbehind; apply elem_of_app; by left|].
      destruct (H4 x (Harr x Hx)) as (w & o & Hw & _). rewrite <- Hwr in Hw. eexists. split; [by apply Hm3|]. done.
  - apply (numbered_snoc _ _ _ _ _ H9). cbn. destruct cg as [g|]; [|apply Hcg]. destruct Hcg as (E1 & E2 & E3 & _). done.
  - intros c g x Hc Hg Hx Hs. rewrite Hw' in Hsync. apply elem_of_app in Hc as [Hc|Hc].
    + eapply H10; [done..|]. apply Hsync; [done|by apply (Hma c)].
    + apply list_elem_of_singleton in Hc as ->. cbn in *. subst cg. apply (proj2 (proj2 (proj2 Hcg)) x Hx). apply Hsync; [done|by apply Harr].
  - intros c Hc Hg Hs. apply elem_of_app in Hc as [Hc|Hc]; [by apply H13|]. apply list_elem_of_singleton in Hc as ->. cbn in *. subst cg. by apply Hcg.
Qed.

(** The front writer moves on after work that leaves the queue alone. *)
Lemma work_ok s0 (s : Sys) id q p' (w' : World FS T WFile) : sys_ok s0 s -> same_queue (wo_db (sy_world s)) (wo_db w') ->
  writers_ (wo_db (sy_world s)) = id :: q -> (forall st, p' <> PReturned st) ->
  match phase_group p' with Some g => in_flight (wo_db (sy_world s)) (sy_ops s) g id | None => tmp_batch_ (wo_db (sy_world s)) = WriteBatch_Clear end ->
  sys_ok s0 (MkSys w' (<[id := p']> (sy_phases s)) (sy_ops s) (sy_arrivals s) (sy_commits s)).
Proof. intros H Hs Hq Hr Hg. apply (sys_ok_world s0 (MkSys (sy_world s) _ _ _ _)); [done|]. by eapply sys_ok_front. Qed.

Lemma front_phase s0 (s : Sys) id q p : sys_ok s0 s -> writers_ (wo_db (sy_world s)) = id :: q -> sy_phases s !! id = Some p ->
  match phase_group p with Some g => in_flight (wo_db (sy_world s)) (sy_ops s) g id | None => tmp_batch_ (wo_db (sy_world s)) = WriteBatch_Clear end.
Proof.
  intros H Hq Hp. pose proof (so_front _ _ H) as Hf. unfold front_ok in Hf. rewrite Hq in Hf. destruct Hf as (w & p' & _ & _ & Hp' & _ & Hg).
  rewrite Hp in Hp'. by injection Hp' as <-.
Qed.

Lemma queue_queued s0 (s : Sys) : sys_ok s0 s -> Forall (queued (wo_db (sy_world s)) (sy_ops s)) (writers_ (wo_db (sy_world s))).
Proof.
  intros H. apply list.Forall_forall. intros x Hx. apply (so_queued _ _ H). rewrite (so_arrivals _ _ H). apply elem_of_app. by right.
Qed.

Lemma queue_bound s0 (s : Sys) : sys_ok s0 s ->
  0 <= vs_last_sequence_ (db_versions_ (wo_db (sy_world s))) /\
  vs_last_sequence_ (db_versions_ (wo_db (sy_world s))) + Z.of_nat (length (group_ops (sy_ops s) (writers_ (wo_db (sy_world s))))) <= kMaxSequenceNumber.
Proof.
  intros H. pose proof (numbered_range _ _ _ _ (so_numbered _ _ H)). pose proof (so_bound _ _ H) as Hb. pose proof (so_start _ _ H).
  rewrite (so_arrivals _ _ H), group_ops_app, length_app in Hb. lia.
Qed.

(** The front writer has built its group. *)
Lemma begin_ok s0 (s : Sys) id q g (w' : World FS T WFile) :
  let d := wo_db (sy_world s) in let d' := wo_db w' in
  sys_ok s0 s -> writers_ d = id :: q -> writers_ d' = writers_ d -> vs_last_sequence_ (db_versions_ d') = vs_last_sequence_ (db_versions_ d) ->
  (forall x w, writer_of_ d !! x = Some w -> exists w2, writer_of_ d' !! x = Some w2 /\
     w_status w2 = w_status w /\ w_sync w2 = w_sync w /\ w_done w2 = w_done w /\ w_awake w2 = w_awake w /\
     forall o, sy_ops s !! x = Some o -> writer_ops w o -> writer_ops w2 o) ->
  in_flight d' (sy_ops s) g id ->
  sys_ok s0 (MkSys w' (<[id := PLog g]> (sy_phases s)) (sy_ops s) (sy_arrivals s) (sy_commits s)).
Proof.
  intros d d' H Hq Hqs Hls Hw Hg. pose proof (queue_NoDup _ _ H) as Hn. fold d in Hn. rewrite Hq in Hn. apply list.NoDup_cons in Hn as [Hid Hn].
  assert (Hin : id ∈ sy_arrivals s) by (rewrite (so_arrivals _ _ H); fold d; rewrite Hq; apply elem_of_app; right; left).
  assert (Hfresh : forall c, c ∈ sy_commits s -> id ∉ c_members c) by (intros c; apply (queue_fresh s0 s id c H); fold d; rewrite Hq; left).
  assert (Hsy : forall x, x ∈ sy_arrivals s -> is_sync d' x -> is_sync d x).
  { intros x Hx (w2 & Hw2 & Hs2). destruct (so_queued _ _ H x Hx) as (w & o & Hwx & _). destruct (Hw x w Hwx) as (w3 & Hw3 & _ & E3 & _).
    rewrite Hw2 in Hw3. injection Hw3 as <-. exists w. split; [done|congruence]. }
  pose proof (fun c x => members_arrived s0 s c x H) as Hma.
  destruct s as [wo phases om arrivals commits]. destruct H as [H1 H2 H3 H4 H5 H6 H7 H8 H9 H10 H11 H12 H13]. subst d d'. cbn [sy_world sy_phases sy_ops sy_arrivals sy_commits] in *.
  split; cbn [sy_world sy_phases sy_ops sy_arrivals sy_commits]; rewrite ?Hqs, ?Hls; try done.
  - intros x. destruct (decide (x = id)) as [->|Hx]; [rewrite lookup_insert_eq; split; [done|by eexists]|by rewrite lookup_insert_ne].
  - intros x Hx. destruct (H4 x Hx) as (w & o & Hwx & Ho & Hwo). destruct (Hw x w Hwx) as (w2 & Hw2 & _ & _ & _ & _ & Hops). exists w2, o. auto.
  - intros x Hx. destruct (H5 x Hx) as (w & Hwx & Hd). destruct (Hw x w Hwx) as (w2 & Hw2 & _ & _ & E2 & _). exists w2. split; [done|congruence].
  - intros x Hx. rewrite lookup_insert_ne; [by apply H6|]. intros <-. rewrite Hq in Hx. done.
  - unfold front_ok in *. rewrite Hqs. rewrite Hq in *. destruct H7 as (w & p & Hwx & Ha & _). destruct (Hw id w Hwx) as (w2 & Hw2 & _ & _ & _ & E4 & _).
    exists w2, (PLog g). rewrite lookup_insert_eq. split_and!; try done. congruence.
  - intros c x Hc Hx. rewrite lookup_insert_ne by (intros <-; by apply (Hfresh c)). destruct (H8 c x Hc Hx) as [Hr|[Hp (w & Hwx & E1 & E2 & E3)]]; [by left|].
    right. split; [done|]. destruct (Hw x w Hwx) as (w2 & Hw2 & F1 & _ & F3 & F4 & _). exists w2. split_and!; try done; congruence.
  - intros c g' x Hc Hg' Hx Hs. eapply H10; [done..|]. apply Hsy; [by apply (Hma c)|done].
Qed.

(** The round of the front writer in [MakeRoomForWrite] is over. *)
Lemma room_done_ok s0 (s : Sys) id q st p (w' : World FS T WFile) f a : sys_ok s0 s -> writers_ (wo_db (sy_world s)) = id :: q -> tmp_batch_ (wo_db (sy_world s)) = WriteBatch_Clear ->
  after_room id f a (RoomDone st) (sy_world s) = Ok (p, w') ->
  sys_ok s0 (MkSys w' (<[id := p]> (sy_phases s)) (sy_ops s) (sy_arrivals s) (sy_commits s ++ new_commit (PRoom f a None) p (wo_db (sy_world s)) (wo_db w'))).
Proof.
  intros H Hq Htmp Er. pose proof (queue_queued _ _ H) as Hqd. pose proof (queue_bound _ _ H) as [Hb1 Hb2]. rewrite Hq in Hqd, Hb2.
  destruct (proj1 (list.Forall_cons _ _ _) Hqd) as [Hid _]. destruct (queued_batch _ _ _ Hid) as (w & Hf & Hops).
  unfold after_room, p_bind, p_read in Er. rewrite Hf in Er. cbn [res_bind fst snd] in Er. apply find_writer_Some in Hf.
  destruct (Status_ok st && bool_decide (w_batch w <> None)) eqn:Eb.
  - apply andb_prop in Eb as [_ Eb]. apply bool_decide_eq_true in Eb. destruct (w_batch w) as [b|] eqn:Ebb; [|done].
    destruct (Write_begin_ok (wo_db (sy_world s)) (sy_ops s) id q w b Hq Hqd Hf Ebb Htmp Hb1 Hb2) as (ms & rest & d' & g & -> & Ew & Hl & Hgb & Hgo & Hgs & Hgy & Hsy & Hd').
    unfold p_update in Er. rewrite Ew in Er. cbn [res_bind fst snd p_ret] in Er. injection Er as <- <-. cbn [new_commit wo_db]. rewrite app_nil_r.
    apply (begin_ok s0 s id (ms ++ rest)); cbn [wo_db]; try done.
    + by destruct Hd' as [[-> _]|(-> & _)].
    + by destruct Hd' as [[-> _]|(-> & _)].
    + intros x wx Hwx. destruct Hd' as [[-> _]|(-> & _ & Hone)]; [exists wx; by split_and!|]. cbn. destruct (decide (x = id)) as [->|Hx]; [|rewrite lookup_insert_ne by done; exists wx; by split_and!].
      rewrite lookup_insert_eq. eexists. split; [done|]. rewrite Hf in Hwx. injection Hwx as <-. split_and!; try done.
      intros o Ho Hwo. unfold writer_ops in *. cbn. rewrite Ebb in *. destruct o as [o|]; [|done]. destruct Hwo as (q0 & Hq0 & Hb & Hok & Hsz).
      eexists. split; [|split; [rewrite Hgb, Hone; unfold ops_at; rewrite Ho; reflexivity|split; [done|]]].
      * assert (Hmx : kMaxSequenceNumber = 2 ^ 56 - 1) by (unfold kMaxSequenceNumber; by rewrite Z.shiftl_1_l). unfold fits. lia.
      * rewrite Hgb, Hone. unfold ops_at. rewrite Ho. cbn. rewrite Hb in Hsz. unfold batch_rep in *. rewrite !size_app, !size_EncodeFixed64 in *. done.
    + split; [|destruct Hd' as [[-> E1]|(-> & _)]; [congruence|done]]. exists ms, rest.
      assert (E1 : writers_ d' = writers_ (wo_db (sy_world s))) by (by destruct Hd' as [[-> _]|(-> & _)]).
      assert (E2 : db_versions_ d' = db_versions_ (wo_db (sy_world s))) by (by destruct Hd' as [[-> _]|(-> & _)]).
      rewrite E1, E2. cbv zeta. split_and!; try done; [apply Hgo..|]. intros x Hx (w2 & Hw2 & Hs2). apply (Hsy x Hx).
      destruct Hd' as [[-> _]|(-> & _)]; [by exists w2|]. cbn in Hw2. destruct (decide (x = id)) as [->|Hxi]; [rewrite lookup_insert_eq in Hw2; injection Hw2 as <-; by exists w|].
      rewrite lookup_insert_ne in Hw2 by done. by exists w2.
  - assert (Hn := queue_NoDup _ _ H). rewrite Hq in Hn.
    destruct (Write_pop_ok (wo_db (sy_world s)) id st [id] q id Hq Hn eq_refl ltac:(left)) as (m & Ew & Hm0 & Hm1 & Hm2 & Hm3).
    { intros x Hx. apply (proj1 (list.Forall_forall _ _) Hqd) in Hx as (wx & o & Hwx & _). by eexists. }
    unfold p_update in Er. rewrite Ew in Er. cbn [res_bind fst snd p_ret] in Er. injection Er as <- <-. cbn [new_commit].
    apply (commit_ok s0 s id [] q None st (wo_db (sy_world s)) m); try done. split; [done|]. intros Hok. unfold group_ops. cbn. rewrite app_nil_r.
    rewrite Hok in Eb. cbn [andb] in Eb. apply bool_decide_eq_false in Eb. destruct (w_batch w); [by destruct Eb|done].
Qed.

(** [Write_finish] with the group of the front writer. *)
Lemma finish_ok s0 (s : Sys) id q g st se d' : sys_ok s0 s -> writers_ (wo_db (sy_world s)) = id :: q -> in_flight (wo_db (sy_world s)) (sy_ops s) g id ->
  Write_finish (wo_db (sy_world s)) id g st se = Ok d' ->
  sys_ok s0 (MkSys (with_db (sy_world s) d') (<[id := PReturned st]> (sy_phases s)) (sy_ops s) (sy_arrivals s)
    (sy_commits s ++ [MkCommit (popped (wo_db (sy_world s)) d') (Some g) st])).
Proof.
  intros H Hq [(ms & rest & Hm & Hl & Hgb & Hgo & Hgs & Hsy) Ht] Ew. set (d := wo_db (sy_world s)) in *.
  unfold Write_finish in Ew. set (d1 := if se then RecordBackgroundError st d else d) in Ew.
  assert (Hd1 : writer_of_ d1 = writer_of_ d /\ writers_ d1 = writers_ d /\ tmp_batch_ d1 = tmp_batch_ d /\ db_versions_ d1 = db_versions_ d).
  { unfold d1, RecordBackgroundError. destruct se; [|done]. by destruct (Status_ok _). }
  destruct Hd1 as (E1 & E2 & E3 & E4). set (d2 := if g_tmp g then set_tmp_batch d1 WriteBatch_Clear else d1) in Ew.
  assert (Hd2 : writer_of_ d2 = writer_of_ d /\ writers_ d2 = writers_ d /\ tmp_batch_ d2 = WriteBatch_Clear /\ db_versions_ d2 = db_versions_ d).
  { unfold d2. destruct (g_tmp g) eqn:Eg; [done|]. rewrite E3. by rewrite Ht. }
  destruct Hd2 as (F1 & F2 & F3 & F4). set (d3 := set_version_set d2 (SetLastSequenceNumber (db_versions_ d2) (g_last_sequence g))) in Ew.
  assert (Hn := queue_NoDup _ _ H). fold d in Hn. rewrite Hm in Hn.
  destruct (Write_pop_ok d3 id st (id :: ms) rest (g_last_writer g)) as (m & Ew' & Hm0 & Hm1 & Hm2 & Hm3).
  { cbn. by rewrite F2. }
  { done. }
  { rewrite Hl. destruct ms as [|x ms _] using rev_ind; [done|]. by rewrite app_comm_cons, !last_snoc. }
  { left. }
  { intros x Hx. cbn. rewrite F1. rewrite <- Hm in Hx. pose proof (proj1 (list.Forall_forall _ _) (queue_queued _ _ H) x Hx) as (wx & o & Hwx & _). by eexists. }
  rewrite Ew' in Ew. injection Ew as <-. apply (commit_ok s0 s id ms rest (Some g) st d3 m); [done|done|exact F1|exact F3| |done|done|done|done|done].
  split; [done|]. split; [done|]. split; [exact Hgs|done].
Qed.

Lemma sys_step_ok s0 (s s' : Sys) : sys_step s0 s s' -> sys_ok s0 s -> sys_ok s0 s'.
Proof.
  intros Hstep H. destruct Hstep as [s id updates sync ops Hnew Hops Hkeys Hb|s id p p' w' Hp Et|s w' [Ho _]].
  - by apply enter_ok.
  - assert (Hact : p <> PQueue -> (forall st, p <> PReturned st) -> exists q, writers_ (wo_db (sy_world s)) = id :: q /\
      match phase_group p with Some g => in_flight (wo_db (sy_world s)) (sy_ops s) g id | None => tmp_batch_ (wo_db (sy_world s)) = WriteBatch_Clear end).
    { intros H1 H2. destruct (active_front _ _ _ _ H Hp H1 H2) as [q Hq]. exists q. split; [done|]. by eapply front_phase. }
    destruct p as [|force delay [n|]|g|g|g st se|st]; cbn [thread_step] in Et.
    + unfold p_bind, p_read, p_get in Et. destruct (find_writer (wo_db (sy_world s)) id) as [w| |] eqn:Ew; [|done..]. cbn [res_bind fst snd] in Et.
      apply find_writer_Some in Ew. destruct (negb (w_awake w)); [done|]. destruct (w_done w) eqn:Ed.
      { injection Et as <- <-. cbn [new_commit]. rewrite app_nil_r. by apply return_ok. }
      unfold is_front in Et. destruct (bool_decide_reflect (head (writers_ (wo_db (sy_world s))) = Some id)) as [Hh|Hh].
      * injection Et as <- <-. cbn [new_commit]. rewrite app_nil_r. destruct (writers_ (wo_db (sy_world s))) as [|y q] eqn:Eq; [done|]. injection Hh as ->.
        apply (sys_ok_front s0 s id q); [done|done|done|]. by apply (front_phase s0 s id q PQueue).
      * injection Et as <- <-. cbn [new_commit]. rewrite app_nil_r. by apply sleep_ok.
    + destruct Hact as (q & Hq & Hg); [done..|]. injection Et as Et Ew. subst w'. destruct (n <? _); [|done]. injection Et as <-. cbn [new_commit]. rewrite app_nil_r.
      by apply (sys_ok_front s0 s id q).
    + destruct Hact as (q & Hq & Hg); [done..|]. unfold p_bind at 1 in Et. destruct (MakeRoom_round force delay (sy_world s)) as [[r w1]| |] eqn:Er; [|done..].
      cbn [res_bind fst snd] in Et. pose proof (frames_MakeRoom_round force delay _ _ _ Er) as Hsq.
      pose proof (sys_ok_world s0 s w1 Hsq H) as H1. destruct Hsq as (F1 & F2 & F3 & F4).
      unfold p_bind in Et. destruct (after_room id force delay r w1) as [[p1 w2]| |] eqn:Ea; [|done..]. cbn [res_bind fst snd p_ret] in Et. injection Et as <- <-.
      destruct r as [st| | |]; cbn [after_room] in Ea.
      * pose proof (room_done_ok s0 _ id q st p1 w2 force delay H1) as Hd. cbn [sy_world sy_phases sy_ops sy_arrivals sy_commits] in Hd.
        assert (Ep : new_commit (PRoom force delay None) p1 (wo_db (sy_world s)) (wo_db w2) = new_commit (PRoom force delay None) p1 (wo_db w1) (wo_db w2)).
        { unfold new_commit, popped. by rewrite F2. }
        rewrite Ep. apply Hd; [by rewrite F2|by rewrite F3|exact Ea].
      * injection Ea as <- <-. cbn [new_commit]. rewrite app_nil_r. by apply (work_ok s0 s id q).
      * injection Ea as <- <-. cbn [new_commit]. rewrite app_nil_r. by apply (work_ok s0 s id q).
      * injection Ea as <- <-. cbn [new_commit]. rewrite app_nil_r. by apply (work_ok s0 s id q).
    + destruct Hact as (q & Hq & Hg); [done..|]. unfold p_bind in Et. destruct (Write_log g (sy_world s)) as [[r w1]| |] eqn:Er; [|done..].
      cbn [res_bind fst snd p_ret] in Et. injection Et as <- <-. pose proof (frames_Write_log g _ _ _ Er) as Hsq.
      replace (new_commit _ _ _ _) with (@nil Commit) by by destruct (Status_ok r.1). rewrite app_nil_r.
      apply (work_ok s0 s id q); [done..|by destruct (Status_ok r.1)|by destruct (Status_ok r.1)].
    + destruct Hact as (q & Hq & Hg); [done..|]. unfold p_bind in Et. destruct (Write_insert g (sy_world s)) as [[st w1]| |] eqn:Er; [|done..].
      cbn [res_bind fst snd p_ret] in Et. injection Et as <- <-. pose proof (frames_Write_insert g _ _ _ Er) as Hsq. cbn [new_commit]. rewrite app_nil_r.
      by apply (work_ok s0 s id q).
    + destruct Hact as (q & Hq & Hg); [done..|]. unfold p_bind, p_update in Et. destruct (Write_finish (wo_db (sy_world s)) id g st se) as [d'| |] eqn:Ef; [|done..].
      cbn [res_bind fst snd p_ret] in Et. injection Et as <- <-. cbn [new_commit wo_db]. by eapply finish_ok.
    + done.
  - by apply sys_ok_world.
Qed.

Lemma sys_start_ok s0 (w : World FS T WFile) : start_ok w -> s0 = vs_last_sequence_ (db_versions_ (wo_db w)) -> s0 <= kMaxSequenceNumber -> sys_ok s0 (sys_start w).
Proof.
  intros (Hq & Ht & Hs) -> Hmax. unfold sys_start. split; cbn; rewrite ?Hq; try done.
  - constructor.
  - intros id. rewrite lookup_empty. split; [by intros [x Hx]|]. intros Hin. by apply elem_of_nil in Hin.
  - intros id Hin. by apply elem_of_nil in Hin.
  - intros id Hin. by apply elem_of_nil in Hin.
  - intros id Hin. by apply elem_of_nil in Hin.
  - unfold front_ok. by rewrite Hq.
  - intros c id Hin. by apply elem_of_nil in Hin.
  - intros c g id Hin. by apply elem_of_nil in Hin.
  - unfold group_ops. cbn. lia.
  - intros c Hin. by apply elem_of_nil in Hin.
Qed.

Lemma reachable_ok s0 (w : World FS T WFile) (s : Sys) : start_ok w -> s0 = vs_last_sequence_ (db_versions_ (wo_db w)) -> s0 <= kMaxSequenceNumber ->
  rtc (sys_step s0) (sys_start w) s -> sys_ok s0 s.
Proof.
  intros Hw Hs Hm. revert s. apply (rtc_ind_r (R := sys_step s0) (fun s => sys_ok s0 s)); [by apply sys_start_ok|].
  intros s1 s2 _ Hstep. by apply sys_step_ok.
Qed.
End preserve.
