(* ===== verification/DbCommit.v ===== *)
(** * What group commit promises

    The theorems on the transition system of writers of [DbQueue]: what a writer that has
    returned may rely on, and that no writer waits for ever. *)
From stdpp Require Import gmap relations sorting.
From S2P Require Import Prelude Coding Comparator Status Logging DbFormat LogWriter WriteBatch Arena Snapshot SkipList MemTable Cursor Block Merger TableBuilder VersionEdit FileSearch Version VersionBuilder VersionSet Filename Manifest DbState DbFiles DbRead DbWrite DbQueue.

(** ** Runs *)

(** A call of [Write] arrives, or a thread takes a step. *)
Inductive Event := EEnter (id : Z) (updates : option bytes) (sync : bool) (ops : option (list batch_op)) | EThread (id : Z).

Section runs.
Context `{C : Comparator} `{DE : DbEnv} {T : Type}.
Abbreviation Sys := (Sys FS T WFile).

Definition event_step (s : Sys) (e : Event) : option Sys :=
  match e with
  | EEnter id updates sync ops =>
      Some (MkSys (with_db (sy_world s) (Write_enter (wo_db (sy_world s)) id updates sync))
        (<[id := PQueue]> (sy_phases s)) (<[id := ops]> (sy_ops s)) (sy_arrivals s ++ [id]) (sy_commits s))
  | EThread id =>
      match sy_phases s !! id with
      | None => None
      | Some p =>
          match thread_step id p (sy_world s) with
          | Ok (Some p', w') =>
              Some (MkSys w' (<[id := p']> (sy_phases s)) (sy_ops s) (sy_arrivals s)
                      (sy_commits s ++ new_commit p p' (wo_db (sy_world s)) (wo_db w')))
          | _ => None
          end
      end
  end.

Fixpoint event_run (s : Sys) (es : list Event) : option Sys :=
  match es with
  | [] => Some s
  | e :: es => match event_step s e with Some s => event_run s es | None => None end
  end.

(** The calls of a run are those of new writers, with batches that hold the operations and
    leave room for the sequence numbers. *)
Fixpoint events_ok (s0 : Z) (s : Sys) (es : list Event) : Prop :=
  match es with
  | [] => True
  | e :: es =>
      match e with
      | EEnter id updates sync ops =>
          sy_phases s !! id = None /\ writer_ops (MkDbWriter Status_OK updates sync false true) ops /\ keys_fit ops /\
          s0 + Z.of_nat (length (group_ops (<[id := ops]> (sy_ops s)) (sy_arrivals s ++ [id]))) <= kMaxSequenceNumber
      | EThread _ => True
      end /\ match event_step s e with Some s => events_ok s0 s es | None => True end
  end.

#[local] Instance fits_dec w x : Decision (fits w x).
Proof. unfold fits. apply _. Defined.

#[local] Instance op_ok_dec op : Decision (op_ok op).
Proof. destruct op; cbn; apply _. Defined.

#[local] Instance ops_ok_dec ops : Decision (ops_ok ops).
Proof. unfold ops_ok. apply _. Defined.

#[local] Instance keys_fit_dec ops : Decision (keys_fit ops).
Proof. unfold keys_fit. apply _. Defined.

Definition has_opsb (b : option bytes) (ops : option (list batch_op)) : bool :=
  match b, ops with
  | None, None => true
  | Some b, Some ops => bool_decide (b = batch_rep (Sequence b) ops) && (Sequence b <? 2 ^ 64) && (0 <=? Sequence b) &&
      bool_decide (ops_ok ops) && (size b <? 2 ^ 62)
  | _, _ => false
  end.

Fixpoint events_okb (s0 : Z) (s : Sys) (es : list Event) : bool :=
  match es with
  | [] => true
  | e :: es =>
      match e with
      | EEnter id updates sync ops =>
          bool_decide (sy_phases s !! id = None) && has_opsb updates ops && bool_decide (keys_fit ops) &&
          (s0 + Z.of_nat (length (group_ops (<[id := ops]> (sy_ops s)) (sy_arrivals s ++ [id]))) <=? kMaxSequenceNumber)
      | EThread _ => true
      end && match event_step s e with Some s => events_okb s0 s es | None => true end
  end.

Lemma events_okb_ok s0 es : forall s : Sys, events_okb s0 s es = true -> events_ok s0 s es.
Proof.
  induction es as [|e es IH]; intros s H; [done|]. cbn [events_okb events_ok] in *. apply andb_prop in H as [He Hs]. split.
  - destruct e as [id updates sync ops|]; [|done]. apply andb_prop in He as [He Hb]. apply andb_prop in He as [He Hk]. apply andb_prop in He as [Hn Ho].
    split; [by apply bool_decide_eq_true in Hn|]. split; [|split; [by apply bool_decide_eq_true in Hk|lia]]. unfold writer_ops, has_opsb in *. cbn [w_batch].
    destruct updates as [b|], ops as [ops|]; try done. rewrite !andb_true_iff, !bool_decide_eq_true in Ho.
    destruct Ho as ((((H1 & H2) & H3) & H4) & H5). exists (Sequence b). split; [unfold fits; lia|]. split; [done|]. split; [done|lia].
  - destruct (event_step s e); [by apply IH|done].
Qed.

Lemma event_run_steps s0 es : forall (s s' : Sys), events_ok s0 s es -> event_run s es = Some s' -> rtc (sys_step s0) s s'.
Proof.
  induction es as [|e es IH]; intros s s' Hok Er; [injection Er as <-; apply rtc_refl|]. cbn [event_run events_ok] in *.
  destruct (event_step s e) as [s1|] eqn:Es; [|done]. destruct Hok as [He Hok].
  eapply rtc_l; [|by apply IH]. destruct e as [id updates sync ops|id]; cbn [event_step] in Es.
  - injection Es as <-. destruct He as (H1 & H2 & H3 & H4). by apply sys_enter.
  - destruct (sy_phases s !! id) as [p|] eqn:Ep; [|done]. destruct (thread_step id p (sy_world s)) as [[[p'|] w']| |] eqn:Et; [|done..].
    injection Es as <-. by apply sys_thread.
Qed.

(** ** Group commit *)

Lemma returned_committed s0 (s : Sys) id st : sys_ok s0 s -> sy_phases s !! id = Some (PReturned st) ->
  exists c, c ∈ sy_commits s /\ id ∈ c_members c /\ c_status c = st.
Proof.
  intros H Hp. assert (Hin : id ∈ sy_arrivals s) by (apply (so_phases _ _ H); by eexists).
  rewrite (so_arrivals _ _ H) in Hin. apply elem_of_app in Hin as [Hin|Hin].
  - apply list_elem_of_In, in_concat in Hin as (ms & Hms & Hin). apply in_map_iff in Hms as (c & <- & Hc). apply list_elem_of_In in Hc, Hin.
    exists c. split; [done|]. split; [done|]. destruct (so_done _ _ H c id Hc Hin) as [Hd|[Hd _]]; rewrite Hp in Hd; [by injection Hd as ->|done].
  - destruct (writers_ (wo_db (sy_world s))) as [|x q] eqn:Eq; [by apply elem_of_nil in Hin|]. apply elem_of_cons in Hin as [->|Hin].
    + pose proof (so_front _ _ H) as Hf. unfold front_ok in Hf. rewrite Eq in Hf. destruct Hf as (w & p & _ & _ & Hp' & Hr & _).
      rewrite Hp in Hp'. injection Hp' as <-. by destruct (Hr st).
    + assert (Hb : sy_phases s !! id = Some PQueue) by (apply (so_behind _ _ H); by rewrite Eq). rewrite Hp in Hb. by injection Hb.
Qed.

End runs.

(** *** An example: three writers, of which the first two share a record *)

Definition commit_db : DBImpl bytes :=
  let d := NewDBImpl example_options (str "db") in
  let r := new_mem (set_version_set d (AppendVersion NewVersionSet (one_file 7))) in
  set_log (set_mem r.1 (Some r.2)) (Some (str "db/000003.log", 0)) 3.

Definition commit_world : World (bytes -> option bytes) unit bytes :=
  MkWorld (fun n => if bool_decide (n = str "db/000003.log") then Some [] else None) tt commit_db.

Definition commit_events : list Event :=
  [ EEnter 1 (Some (DB_Put (str "a") (str "1"))) false (Some [OpPut (str "a") (str "1")]);
    EEnter 2 (Some (DB_Delete (str "b"))) false (Some [OpDelete (str "b")]);
    EThread 1; EThread 2;
    EEnter 3 (Some (DB_Put (str "c") (str "3"))) true (Some [OpPut (str "c") (str "3")]);
    EThread 1; EThread 1; EThread 1; EThread 1; EThread 2; EThread 3 ].


(** A write without a batch, which asks for the memtable to be compacted, may be taken into
    the group of the writer before it: it returns, and the memtable stays. *)
Definition absorbed_events : list Event :=
  [ EEnter 1 (Some (DB_Put (str "a") (str "1"))) false (Some [OpPut (str "a") (str "1")]); EEnter 2 None false None;
    EThread 1; EThread 1; EThread 1; EThread 1; EThread 1; EThread 2 ].

Lemma null_write_absorbed :
  match event_run (C := BytewiseComparator) (FE := mem_file_env) (sys_start (E := mem_env) commit_world) absorbed_events with
  | Some s => map c_members (sy_commits s) = [[1; 2]] /\ sy_phases s !! 2 = Some (PReturned Status_OK) /\
      db_mem_ (wo_db (sy_world s)) = db_mem_ commit_db /\ db_imm_ (wo_db (sy_world s)) = None
  | None => False
  end.
Proof. vm_compute. by split_and!. Qed.
