(* ===== verification/DbProgress.v ===== *)
(** * Writers get on, and readers see whole groups

    The transition system of writers of [DbQueue] with the memtable and the log: every
    step of the writer at the front is defined, it waits only while a compaction is
    scheduled whose end will be signalled, and the memtable holds the groups committed
    since it was made, and of the one in flight all or nothing. *)
From stdpp Require Import gmap relations sorting.
From S2P Require Import Prelude Coding Comparator Status Logging DbFormat LogWriter WriteBatch Arena Snapshot SkipList MemTable Cursor Block Merger TableBuilder VersionEdit FileSearch Version VersionBuilder VersionSet Filename Manifest DbState DbFiles DbRead DbWrite DbQueue DbCommit.

(** ** The entries of a batch *)

Definition batch_entries (b : bytes) : list entry :=
  match InsertInto (M := list entry) b [] with Some (es, _) => es | None => [] end.

Lemma add_entries_list es : forall l : list entry, foldl add_entry l es = l ++ es.
Proof.
  induction es as [|e es IH]; intros l; [by rewrite app_nil_r|]. cbn [foldl]. rewrite IH. unfold add_entry, mt_Add, EntryList.
  rewrite <- app_assoc. by destruct e.
Qed.

Lemma batch_entries_rep q ops : 0 <= q -> q + Z.of_nat (length ops) < 2 ^ 64 -> ops_ok ops -> batch_entries (batch_rep q ops) = op_entries q ops.
Proof. intros H1 H2 H3. unfold batch_entries. rewrite InsertInto_batch_rep by done. apply add_entries_list. Qed.

Definition commit_entries (c : Commit) : list entry :=
  match c_group c with
  | Some g => if Status_ok (c_status c) then batch_entries (g_batch g) else []
  | None => []
  end.

Definition applied (cs : list Commit) : list entry := concat (map commit_entries cs).

Lemma applied_snoc cs c : applied (cs ++ [c]) = applied cs ++ commit_entries c.
Proof. unfold applied. rewrite map_app, List.concat_app. cbn. by rewrite app_nil_r. Qed.

Lemma applied_range ops cs : forall s e, numbered ops s cs e -> 0 <= s -> e <= kMaxSequenceNumber ->
  Forall (fun x => s < e_seq x <= e) (applied cs).
Proof.
  assert (Hk : kMaxSequenceNumber < 2 ^ 63) by (unfold kMaxSequenceNumber; rewrite Z.shiftl_1_l; lia).
  induction cs as [|c cs IH]; intros s e Hn Hs He; [constructor|]. cbn [numbered] in Hn. unfold applied, commit_entries. cbn [map concat].
  fold (applied cs). destruct (c_group c) as [g|]; [|by apply IH]. destruct Hn as (Hb & Hok & Hn). pose proof (numbered_range _ _ _ _ Hn).
  apply list.Forall_app. split.
  - destruct (Status_ok _); [|constructor]. rewrite Hb, batch_entries_rep by (done || lia). apply list.Forall_forall. intros x Hx%op_entries_seq. lia.
  - eapply list.Forall_impl; [by eapply IH; [exact Hn|lia|]|]. cbn. intros x. lia.
Qed.

(** The entries [es] are those of the groups from one on, or of all and the entries the
    memtable started with. *)
Definition since (es0 : list entry) (cs : list Commit) (es : list entry) : Prop :=
  exists cs1 cs2, cs = cs1 ++ cs2 /\ (cs1 = [] /\ es = es0 ++ applied cs2 \/ es = applied cs2).

Lemma applied_app cs1 cs2 : applied (cs1 ++ cs2) = applied cs1 ++ applied cs2.
Proof. unfold applied. by rewrite map_app, List.concat_app. Qed.

Lemma since_new es0 cs : since es0 cs [].
Proof. exists cs, []. rewrite app_nil_r. split; [done|by right]. Qed.

Lemma since_app es0 cs es cs' : since es0 cs es -> since es0 (cs ++ cs') (es ++ applied cs').
Proof.
  intros (cs1 & cs2 & -> & H). exists cs1, (cs2 ++ cs'). rewrite <- app_assoc, applied_app. split; [done|].
  destruct H as [[-> ->]| ->]; [left; by rewrite app_assoc|by right].
Qed.

Lemma since_Forall (P : entry -> Prop) es0 cs es : since es0 cs es -> Forall P (es0 ++ applied cs) -> Forall P es.
Proof.
  intros (cs1 & cs2 & -> & H) HP. destruct H as [[-> ->]| ->]; [done|]. rewrite applied_app in HP. by apply list.Forall_app in HP as [_ [_ HP]%list.Forall_app].
Qed.

Definition phase_entries (p : Phase) : list entry :=
  match p with PFinish g st _ => if Status_ok st then batch_entries (g_batch g) else [] | _ => [] end.

(** A compaction that was scheduled stays so until its end is signalled. *)
Definition keeps_going {W} (d d' : DBImpl W) : Prop :=
  db_signals_ d <= db_signals_ d' /\
  (db_signals_ d = db_signals_ d' -> background_compaction_scheduled_ d = true -> background_compaction_scheduled_ d' = true).

Lemma keeps_going_same {W} (d d' : DBImpl W) : db_signals_ d' = db_signals_ d ->
  background_compaction_scheduled_ d' = background_compaction_scheduled_ d -> keeps_going d d'.
Proof. intros H1 H2. unfold keeps_going. rewrite H1, H2. split; [lia|done]. Qed.

Section progress.
Context `{C : Comparator} `{!ComparatorLaws C} `{DE : DbEnv} {T : Type}.
Abbreviation Sys := (Sys FS T WFile).
Abbreviation World := (World FS T WFile).
Implicit Type d : DBImpl WFile.

(** ** Steps of a database at work *)

Lemma steady_ext d d' es : steady d es ->
  db_mem_ d' = db_mem_ d -> memtables_ d' = memtables_ d -> next_mem_ d' = next_mem_ d -> db_imm_ d' = db_imm_ d -> db_log_ d' = db_log_ d ->
  current (db_versions_ d') = current (db_versions_ d) -> shutting_down_ d' = shutting_down_ d -> bg_error_ d' = bg_error_ d ->
  background_compaction_scheduled_ d' = background_compaction_scheduled_ d -> steady d' es.
Proof.
  intros [H1 H2 H3 H4 H5 H6] E1 E2 E3 E4 E5 E6 E7 E8 E9. unfold mem_holds, NumLevelFiles, NeedsCompaction in *.
  split; unfold mem_holds, NumLevelFiles, NeedsCompaction; rewrite ?E1, ?E2, ?E3, ?E4, ?E5, ?E6, ?E7, ?E8, ?E9; done.
Qed.

Lemma steady_error d es st : steady d es -> steady (RecordBackgroundError st d) es.
Proof.
  intros H. unfold RecordBackgroundError. destruct (Status_ok (bg_error_ d)) eqn:Eb; [|done]. destruct st as [b|].
  - destruct H as [H1 H2 H3 H4 H5 H6]. by split.
  - destruct H as [H1 H2 H3 H4 H5 H6]. split; try done. intros _. by apply H6.
Qed.

Lemma schedule_ok d : (exists v, current (db_versions_ d) = Ok v) ->
  exists b, MaybeScheduleCompaction d = Ok (set_scheduled d b) /\ (background_compaction_scheduled_ d = true -> b = true) /\
    (shutting_down_ d = false -> Status_ok (bg_error_ d) = true -> db_imm_ d <> None \/ NeedsCompaction (db_versions_ d) = Ok true -> b = true).
Proof.
  intros [v Hv]. unfold MaybeScheduleCompaction. assert (Hid : forall b, background_compaction_scheduled_ d = b -> d = set_scheduled d b) by (intros b <-; by destruct d).
  destruct (background_compaction_scheduled_ d) eqn:Es.
  { exists true. split; [f_equal; by apply Hid|done]. }
  destruct (shutting_down_ d) eqn:Eh; [exists false; split; [f_equal; by apply Hid|done]|].
  destruct (Status_ok (bg_error_ d)) eqn:Eb; cbn [negb]; [|exists false; split; [f_equal; by apply Hid|done]].
  unfold NeedsCompaction. rewrite Hv. cbn [res_bind]. set (needs := _ || _).
  destruct (_ && _ && _) eqn:Ec; [|by exists true].
  exists false. split; [f_equal; by apply Hid|]. split; [done|]. intros _ _ [Hi|Hn].
  - apply andb_prop in Ec as [Ec _]. apply andb_prop in Ec as [Ec _]. by apply bool_decide_eq_true in Ec.
  - injection Hn as Hn. rewrite Hn in Ec. by rewrite andb_false_r in Ec.
Qed.

Lemma new_mem_holds d es : es = [] -> mem_holds (new_mem d).1 (next_mem_ d) es.
Proof.
  intros ->. exists (Ref NewMemTable), []. cbn. rewrite lookup_insert_eq. split; [done|]. split; [lia|]. split; [apply NewSkipList_holds|].
  split; [done|]. by split; constructor.
Qed.

Lemma MakeRoom_round_ok force delay (w : World) es : steady (wo_db w) es ->
  exists r w', MakeRoom_round force delay w = Ok (r, w') /\ keeps_going (wo_db w) (wo_db w') /\
    steady (wo_db w') (match r with RoomAgain => [] | _ => es end) /\ (r = RoomWait -> background_compaction_scheduled_ (wo_db w') = true).
Proof.
  intros H. destruct (sd_mem _ _ H) as (id & Hid & Hm & Hnx & Himm). pose proof Hm as (m & ks & Em & _). destruct (sd_current _ _ H) as [v Hv].
  unfold MakeRoom_round, p_bind, p_get, p_read. cbn [res_bind fst snd]. unfold NumLevelFiles. rewrite Hv. cbn [res_bind fst snd].
  unfold find_mem. rewrite Hid, Em. cbn [res_bind fst snd].
  assert (Hsame : forall r, r <> RoomAgain -> (r = RoomWait -> background_compaction_scheduled_ (wo_db w) = true) -> exists r0 w', p_ret r w = Ok (r0, w') /\ keeps_going (wo_db w) (wo_db w') /\
    steady (wo_db w') (match r0 with RoomAgain => [] | _ => es end) /\ (r0 = RoomWait -> background_compaction_scheduled_ (wo_db w') = true)).
  { intros r Hr Hw. exists r, w. split; [done|]. split; [by apply keeps_going_same|]. split; [by destruct r|exact Hw]. }
  destruct (Status_ok (bg_error_ (wo_db w))) eqn:Ebg; cbn [negb]; [|by apply Hsame].
  destruct (delay && _); [by apply Hsame|]. destruct (negb force && _); [by apply Hsame|].
  destruct (bool_decide_reflect (db_imm_ (wo_db w) <> None)) as [Hi|Hi]; [apply Hsame; [done|]; intros _; apply (sd_work _ _ H Ebg); by left|].
  destruct (Z.geb_spec (NumFiles v 0) kL0_StopWritesTrigger) as [Hf|Hf].
  { apply Hsame; [done|]. intros _. apply (sd_work _ _ H Ebg). right. apply (sd_full _ _ H (NumFiles v 0)); [|done]. unfold NumLevelFiles. by rewrite Hv. }
  unfold p_update at 1. cbn [res_bind fst snd wo_db wo_fs wo_tables]. unfold p_fs. cbn [res_bind fst snd wo_db wo_fs wo_tables].
  destruct (env_NewWritableFile _ _) as [fs [f|st]]; cbn [res_bind fst snd wo_db wo_fs wo_tables].
  - unfold switch_memtable, p_bind, p_get, p_fs, p_set, p_update, p_ret. cbn [res_bind fst snd wo_db wo_fs wo_tables].
    match goal with |- context [MaybeScheduleCompaction ?x] => set (d1 := x) end.
    destruct (schedule_ok d1) as (b & -> & Hb1 & Hb2); [by exists v|]. cbn [res_bind fst snd wo_db]. eexists _, _. split; [reflexivity|]. cbn [wo_db].
    split; [split; [cbn; lia|]; intros _ Hs; by apply Hb1|]. split; [|done]. split.
    + exists (next_mem_ (wo_db w)). split; [done|]. split; [by apply (new_mem_holds (wo_db w))|]. split; [cbn; lia|]. cbn. rewrite Hid. intros [= ->]. lia.
    + exists f, 0. by split.
    + by exists v.
    + apply (sd_open _ _ H).
    + apply (sd_full _ _ H).
    + intros _ Hw. apply Hb2; [apply (sd_open _ _ H)|done|exact Hw].
  - unfold p_set, p_ret. cbn [res_bind fst snd wo_db]. eexists _, _. split; [reflexivity|]. cbn [wo_db]. split; [by apply keeps_going_same|]. split; [|done].
    apply (steady_ext (wo_db w)); [done|try done..]. unfold ReuseFileNumber. by destruct (_ =? _).
Qed.

Lemma Write_log_ok g (w : World) es : steady (wo_db w) es ->
  exists s se w', Write_log g w = Ok ((s, se), w') /\ keeps_going (wo_db w) (wo_db w') /\ steady (wo_db w') es.
Proof.
  intros H. destruct (sd_log _ _ H) as (f & off & Hl & Hoff). unfold Write_log, p_bind, p_get. cbn [res_bind fst snd]. rewrite Hl.
  unfold p_fs_res, log_record. cbn [fst snd]. destruct (AddRecord_total (MkWriter (wo_fs w, f) off) (Contents (g_batch g)) Hoff) as [[log s] Er].
  rewrite Er. cbn [res_bind fst snd wo_db wo_fs wo_tables]. apply AddRecord_offset in Er; [|done]. unfold p_set. cbn [res_bind fst snd wo_db wo_fs wo_tables].
  assert (Hs : steady (set_log (wo_db w) (Some ((dest_ log).2, block_offset_ log)) (logfile_number_ (wo_db w))) es).
  { destruct H as [H1 H2 H3 H4 H5 H6]. split; try done. by exists (dest_ log).2, (block_offset_ log). }
  destruct (Status_ok s && g_sync g); eexists _, _, _; (split; [reflexivity|]); by split; [apply keeps_going_same|].
Qed.

Lemma Write_insert_ok g q os (w : World) es : steady (wo_db w) es -> g_batch g = batch_rep q os -> ops_ok os ->
  Forall (fun op => fits 32 (size (op_key op) + 8)) os -> 0 <= q -> q + Z.of_nat (length os) <= kMaxSequenceNumber + 1 ->
  Forall (fun e => e_seq e < q) es ->
  exists w', Write_insert g w = Ok (Status_OK, w') /\ keeps_going (wo_db w) (wo_db w') /\ steady (wo_db w') (es ++ batch_entries (g_batch g)).
Proof.
  intros H Hb Hok Hkeys Hq Hmax Hlt. assert (Hk : kMaxSequenceNumber < 2 ^ 63) by (unfold kMaxSequenceNumber; rewrite Z.shiftl_1_l; lia).
  destruct (sd_mem _ _ H) as (id & Hid & (m & ks & Em & Hr & Hh & Hks & Hes & Hnd) & Hnx & Himm).
  rewrite Hb, batch_entries_rep by (done || lia). unfold Write_insert, p_update. rewrite Hid. unfold find_mem. rewrite Em. cbn [res_bind].
  rewrite Hb, InsertInto_batch_rep by (done || lia).
  destruct (op_entries_ok q os) as [G1 G2]; [done|done|done|apply Hok|].
  assert (Hnd' : NoDup (map e_seq (es ++ op_entries q os))).
  { rewrite map_app. apply list.NoDup_app. split; [done|]. split; [|done]. intros x Hx Hx2. apply list_elem_of_In, in_map_iff in Hx as (a & <- & Ha).
    apply list_elem_of_In, in_map_iff in Hx2 as (b & Eab & Hb'). apply list_elem_of_In in Ha, Hb'. apply op_entries_seq in Hb'.
    apply (proj1 (list.Forall_forall _ _) Hlt) in Ha. lia. }
  destruct (Add_more_holds es m ks (op_entries q os) Hh Hks) as (m' & ks' & Ea & Erm & Hh' & Hks').
  { by apply list.Forall_app. }
  { exact Hnd'. }
  rewrite Ea. cbn [res_bind fst snd]. eexists. split; [reflexivity|]. split; [by apply keeps_going_same|]. cbn [wo_db].
  destruct H as [H1 H2 H3 H4 H5 H6]. split; try done. exists id. split; [done|]. split; [|by split]. exists m', ks'.
  cbn. rewrite lookup_insert_eq. split; [done|]. split; [lia|]. split; [done|]. split; [done|]. split; [by apply list.Forall_app|].
  exact Hnd'.
Qed.

(** ** The invariant *)

(** What the writer at the front has put into the memtable without being done. *)
Definition inserted (s : Sys) : list entry :=
  match writers_ (wo_db (sy_world s)) with
  | [] => []
  | id :: _ => match sy_phases s !! id with Some p => phase_entries p | None => [] end
  end.

Record sys_live (es0 : list entry) (s : Sys) : Prop := {
  sl_keys id o : sy_ops s !! id = Some o -> keys_fit o;
  sl_mem : exists es, since es0 (sy_commits s) es /\ steady (wo_db (sy_world s)) (es ++ inserted s);
  sl_wait id f a n : sy_phases s !! id = Some (PRoom f a (Some n)) ->
    n <= db_signals_ (wo_db (sy_world s)) /\
    (n = db_signals_ (wo_db (sy_world s)) -> background_compaction_scheduled_ (wo_db (sy_world s)) = true)
}.

Lemma group_keys (ops : OpsMap) ids : (forall id o, ops !! id = Some o -> keys_fit o) ->
  Forall (fun op => fits 32 (size (op_key op) + 8)) (group_ops ops ids).
Proof.
  intros Hk. induction ids as [|id ids IH]; [constructor|]. unfold group_ops in *. cbn [map concat]. apply list.Forall_app. split; [|done].
  unfold ops_at. destruct (ops !! id) as [o|] eqn:Eo; [by apply (Hk id)|constructor].
Qed.

(** The phases of a writer at the front. *)
Definition working (p : Phase) : Prop := match p with PQueue | PReturned _ => False | _ => True end.

Lemma working_front s0 (s : Sys) id p : sys_ok s0 s -> sy_phases s !! id = Some p -> working p -> exists q, writers_ (wo_db (sy_world s)) = id :: q.
Proof. intros H Hp Hw. apply (active_front s0 s id p H Hp); intros; intros ->; done. Qed.

(** How a step of the front writer changes the memtable: it may add the entries of its
    group, or a new memtable takes its place; when it returns, its group is done. *)
Definition front_step (id : Z) (p : Phase) (w : World) (es : list entry) (p' : Phase) (w' : World) : Prop :=
  keeps_going (wo_db w) (wo_db w') /\
  (forall f a n, p' = PRoom f a (Some n) -> n = db_signals_ (wo_db w') /\ background_compaction_scheduled_ (wo_db w') = true) /\
  (working p' /\ steady (wo_db w') (es ++ phase_entries p') \/
   working p' /\ phase_entries p = [] /\ phase_entries p' = [] /\ steady (wo_db w') [] \/
   (exists st, p' = PReturned st) /\ applied (new_commit p p' (wo_db w) (wo_db w')) = phase_entries p /\ steady (wo_db w') (es ++ phase_entries p)).

Lemma room_step_ok s0 (s : Sys) id q force delay es : sys_ok s0 s -> writers_ (wo_db (sy_world s)) = id :: q ->
  sy_phases s !! id = Some (PRoom force delay None) -> steady (wo_db (sy_world s)) es ->
  exists p' w', thread_step id (PRoom force delay None) (sy_world s) = Ok (Some p', w') /\ front_step id (PRoom force delay None) (sy_world s) es p' w'.
Proof.
  intros H Hq Hp Hs. destruct (MakeRoom_round_ok force delay (sy_world s) es Hs) as (r & w1 & Er & Hk & Hs1 & Hw).
  cbn [thread_step]. unfold p_bind at 1. rewrite Er. cbn [res_bind fst snd].
  pose proof (frames_MakeRoom_round force delay _ _ _ Er) as Hsq. pose proof (sys_ok_world s0 s w1 Hsq H) as H1. pose proof Hsq as (F1 & F2 & F3 & F4).
  destruct r as [st| | |]; cbn [after_room].
  - pose proof (queue_queued s0 _ H1) as Hqd. pose proof (queue_bound s0 _ H1) as [Hb1 Hb2]. pose proof (queue_NoDup s0 _ H1) as Hn.
    assert (Htmp : tmp_batch_ (wo_db w1) = WriteBatch_Clear) by (rewrite F3; by apply (front_phase s0 s id q (PRoom force delay None))).
    assert (Hq1 : writers_ (wo_db w1) = id :: q) by by rewrite F2. cbn [sy_world sy_ops] in Hqd, Hb1, Hb2, Hn. rewrite Hq1 in Hqd, Hb2, Hn.
    destruct (proj1 (list.Forall_cons _ _ _) Hqd) as [Hid _]. destruct (queued_batch _ _ _ Hid) as (w & Hf & Hops).
    unfold p_bind, p_read. rewrite Hf. cbn [res_bind fst snd]. apply find_writer_Some in Hf.
    destruct (Status_ok st && bool_decide (w_batch w <> None)) eqn:Eb.
    + apply andb_prop in Eb as [_ Eb]. apply bool_decide_eq_true in Eb. destruct (w_batch w) as [b|] eqn:Ebb; [|done].
      destruct (Write_begin_ok (wo_db w1) (sy_ops s) id q w b Hq1 Hqd Hf Ebb Htmp Hb1 Hb2) as (ms & rest & d' & g & _ & Ew & _ & _ & _ & _ & _ & _ & Hd').
      unfold p_update. rewrite Ew. cbn [res_bind fst snd p_ret]. eexists _, _. split; [reflexivity|]. split; [|split; [done|]]; cbn [wo_db].
      * destruct Hd' as [[-> _]|(-> & _)]; exact Hk.
      * left. split; [done|]. cbn [phase_entries]. rewrite app_nil_r. destruct Hd' as [[-> _]|(-> & _)]; by apply (steady_ext (wo_db w1)).
    + destruct (Write_pop_ok (wo_db w1) id st [id] q id Hq1 Hn eq_refl ltac:(left)) as (m & Ew & _).
      { intros x Hx. apply (proj1 (list.Forall_forall _ _) Hqd) in Hx as (wx & o & Hwx & _). by eexists. }
      unfold p_update. rewrite Ew. cbn [res_bind fst snd p_ret]. eexists _, _. split; [reflexivity|]. split; [exact Hk|]. split; [done|]. right. right.
      split; [by eexists|]. split; [done|]. cbn [phase_entries]. rewrite app_nil_r. by apply (steady_ext (wo_db w1)).
  - eexists _, _. split; [reflexivity|]. split; [exact Hk|]. split; [done|]. left. split; [done|]. cbn [phase_entries]. by rewrite app_nil_r.
  - eexists _, _. split; [reflexivity|]. split; [exact Hk|]. split; [|left; split; [done|]; cbn [phase_entries]; by rewrite app_nil_r].
    intros f a n [= <- <- <-]. split; [done|by apply Hw].
  - eexists _, _. split; [reflexivity|]. split; [exact Hk|]. split; [done|]. right. left. done.
Qed.

Lemma finish_step_ok s0 (s : Sys) id q g st se es : sys_ok s0 s -> writers_ (wo_db (sy_world s)) = id :: q ->
  sy_phases s !! id = Some (PFinish g st se) -> steady (wo_db (sy_world s)) es ->
  exists w', thread_step id (PFinish g st se) (sy_world s) = Ok (Some (PReturned st), w') /\
    keeps_going (wo_db (sy_world s)) (wo_db w') /\ steady (wo_db w') es.
Proof.
  intros H Hq Hp Hs. cbn [thread_step]. unfold p_bind, p_update. pose proof (front_phase s0 s id q _ H Hq Hp) as [(ms & rest & Hm & Hl & _) _].
  unfold Write_finish. set (d1 := if se then _ else _). set (d2 := if g_tmp g then _ else _). set (d3 := set_version_set d2 _).
  assert (Hd3 : writer_of_ d3 = writer_of_ (wo_db (sy_world s)) /\ writers_ d3 = writers_ (wo_db (sy_world s)) /\ keeps_going (wo_db (sy_world s)) d3 /\ steady d3 es).
  { assert (Hd1 : writer_of_ d1 = writer_of_ (wo_db (sy_world s)) /\ writers_ d1 = writers_ (wo_db (sy_world s)) /\ keeps_going (wo_db (sy_world s)) d1 /\ steady d1 es).
    { unfold d1. destruct se; [|split_and!; try done; by apply keeps_going_same].
      split; [|split; [|split]]; [unfold RecordBackgroundError; by destruct (Status_ok _)..| |by apply steady_error].
      unfold RecordBackgroundError. destruct (Status_ok _); [split; cbn; [lia|lia]|by apply keeps_going_same]. }
    destruct Hd1 as (E1 & E2 & E3 & E4). assert (Hd2 : writer_of_ d3 = writer_of_ d1 /\ writers_ d3 = writers_ d1 /\ steady d3 es /\
      db_signals_ d3 = db_signals_ d1 /\ background_compaction_scheduled_ d3 = background_compaction_scheduled_ d1).
    { unfold d3, d2. destruct (g_tmp g); split_and!; try done; by apply (steady_ext d1). }
    destruct Hd2 as (G1 & G2 & G3 & G4 & G5). split; [congruence|]. split; [congruence|]. split; [|done]. unfold keeps_going in *. by rewrite G4, G5. }
  destruct Hd3 as (E1 & E2 & E3 & E4). pose proof (queue_NoDup _ _ H) as Hn. rewrite Hm in Hn.
  destruct (Write_pop_ok d3 id st (id :: ms) rest (g_last_writer g)) as (m & -> & _).
  { by rewrite E2. }
  { done. }
  { rewrite Hl. destruct ms as [|x ms _] using rev_ind; [done|]. by rewrite app_comm_cons, !last_snoc. }
  { left. }
  { intros x Hx. rewrite E1. rewrite <- Hm in Hx. pose proof (proj1 (list.Forall_forall _ _) (queue_queued _ _ H) x Hx) as (wx & o & Hwx & _). by eexists. }
  cbn [res_bind fst snd p_ret]. eexists. split; [reflexivity|]. cbn [wo_db]. split; [exact E3|]. by apply (steady_ext d3).
Qed.

Lemma front_thread_ok s0 es0 (s : Sys) id q p es : sys_ok s0 s -> sys_live es0 s -> writers_ (wo_db (sy_world s)) = id :: q ->
  sy_phases s !! id = Some p -> working p ->
  steady (wo_db (sy_world s)) (es ++ phase_entries p) -> Forall (fun e => e_seq e <= vs_last_sequence_ (db_versions_ (wo_db (sy_world s)))) es ->
  exists o w', thread_step id p (sy_world s) = Ok (o, w') /\
    match o with
    | Some p' => front_step id p (sy_world s) es p' w'
    | None => exists f a, p = PRoom f a (Some (db_signals_ (wo_db (sy_world s)))) /\ background_compaction_scheduled_ (wo_db (sy_world s)) = true
    end.
Proof.
  intros H Hl Hq Hp Hwp Hs Hlt. pose proof (front_phase s0 s id q p H Hq Hp) as Hg.
  destruct p as [|force delay [n|]|g|g|g st se|st]; [done| | | | | |done]; cbn [phase_entries] in Hs; rewrite ?app_nil_r in Hs.
  - destruct (sl_wait _ _ Hl id _ _ _ Hp) as [Hn1 Hn2]. cbn [thread_step]. unfold p_bind, p_get, p_ret. cbn [res_bind fst snd]. eexists _, _. split; [reflexivity|].
    destruct (Z.ltb_spec n (db_signals_ (wo_db (sy_world s)))) as [Hlt2|Hge].
    + split; [by apply keeps_going_same|]. split; [done|]. left. split; [done|]. cbn [phase_entries]. by rewrite app_nil_r.
    + assert (n = db_signals_ (wo_db (sy_world s))) as -> by lia. exists force, delay. split; [done|by apply Hn2].
  - destruct (room_step_ok s0 s id q force delay es H Hq Hp Hs) as (p' & w' & Et & Hf). by exists (Some p'), w'.
  - destruct (Write_log_ok g (sy_world s) es Hs) as (st & se & w' & El & Hk & Hs'). cbn [thread_step]. unfold p_bind. rewrite El. cbn [res_bind fst snd p_ret].
    eexists _, _. split; [reflexivity|]. split; [exact Hk|]. split; [by destruct (Status_ok st)|]. left.
    destruct (Status_ok st) eqn:Est; (split; [done|]); cbn [phase_entries]; rewrite ?Est; by rewrite app_nil_r.
  - destruct Hg as [(ms & rest & Hm & Hlw & Hb & Hok & Hgs & Hsy) Ht]. pose proof (queue_bound _ _ H) as [Hb1 Hb2].
    rewrite Hm, group_ops_app, length_app in Hb2.
    destruct (Write_insert_ok g _ _ (sy_world s) es Hs Hb Hok) as (w' & Ei & Hk & Hs'); [by apply group_keys, (sl_keys _ _ Hl)|lia|lia| |].
    { eapply list.Forall_impl; [exact Hlt|]. cbn. lia. }
    cbn [thread_step]. unfold p_bind. rewrite Ei. cbn [res_bind fst snd p_ret]. eexists _, _. split; [reflexivity|]. split; [exact Hk|]. split; [done|]. by left.
  - destruct (finish_step_ok s0 s id q g st se (es ++ phase_entries (PFinish g st se)) H Hq Hp Hs) as (w' & Et & Hk & Hs'). rewrite Et. exists (Some (PReturned st)), w'. split; [done|]. split; [exact Hk|]. split; [done|].
    right. right. split; [by eexists|]. split; [|exact Hs']. unfold applied, new_commit, commit_entries. cbn. by rewrite app_nil_r.
Qed.

(** Writers in the queue, and those that have been served, have nothing in flight. *)
Lemma queue_thread_ok s0 (s : Sys) id es : sys_ok s0 s -> sy_phases s !! id = Some PQueue -> steady (wo_db (sy_world s)) es ->
  exists o w', thread_step id PQueue (sy_world s) = Ok (o, w') /\ keeps_going (wo_db (sy_world s)) (wo_db w') /\ steady (wo_db w') es /\
    writers_ (wo_db w') = writers_ (wo_db (sy_world s)) /\
    match o with
    | Some p' => phase_entries p' = [] /\ (forall f a n, p' <> PRoom f a (Some n))
    | None => id ∈ tail (writers_ (wo_db (sy_world s)))
    end.
Proof.
  intros H Hp Hs. assert (Hin : id ∈ sy_arrivals s) by (apply (so_phases _ _ H); by eexists).
  destruct (so_queued _ _ H id Hin) as (w & o & Hw & _). cbn [thread_step]. unfold p_bind, p_read, p_get. rewrite (proj2 (find_writer_Some _ _ _) Hw).
  cbn [res_bind fst snd]. destruct (w_awake w) eqn:Ea; cbn [negb].
  - destruct (w_done w); [eexists _, _; split; [reflexivity|]; split; [by apply keeps_going_same|]; by split_and!|].
    destruct (is_front _ _); unfold p_set, p_ret; cbn [res_bind]; eexists _, _; (split; [reflexivity|]); (split; [by apply keeps_going_same|]); split_and!; try done.
    by apply (steady_ext (wo_db (sy_world s))).
  - eexists _, _. split; [reflexivity|]. split; [by apply keeps_going_same|]. split; [done|]. split; [done|].
    rewrite (so_arrivals _ _ H) in Hin. apply elem_of_app in Hin as [Hin|Hin].
    + apply list_elem_of_In, in_concat in Hin as (ms & Hms & Hin). apply in_map_iff in Hms as (c & <- & Hc). apply list_elem_of_In in Hc, Hin.
      destruct (so_done _ _ H c id Hc Hin) as [Hd|[_ (w2 & Hw2 & _ & _ & Ha)]]; [by rewrite Hp in Hd|]. congruence.
    + pose proof (so_front _ _ H) as Hf. unfold front_ok in Hf. destruct (writers_ (wo_db (sy_world s))) as [|x q]; [by apply elem_of_nil in Hin|].
      apply elem_of_cons in Hin as [->|Hin]; [|done]. destruct Hf as (w2 & p & Hw2 & Ha & _). congruence.
Qed.

Lemma inserted_other (s : Sys) id p p' (w' : World) ops arrivals commits : sy_phases s !! id = Some p -> phase_entries p = phase_entries p' ->
  writers_ (wo_db w') = writers_ (wo_db (sy_world s)) -> inserted (MkSys w' (<[id := p']> (sy_phases s)) ops arrivals commits) = inserted s.
Proof.
  intros Hp He Hw. unfold inserted. cbn. rewrite Hw. destruct (writers_ (wo_db (sy_world s))) as [|x q]; [done|].
  destruct (decide (x = id)) as [->|Hx]; [by rewrite lookup_insert_eq, Hp|by rewrite lookup_insert_ne].
Qed.

Lemma entries_old s0 es0 (s : Sys) es : sys_ok s0 s -> Forall (fun e => e_seq e <= s0) es0 -> since es0 (sy_commits s) es ->
  Forall (fun e => e_seq e <= vs_last_sequence_ (db_versions_ (wo_db (sy_world s)))) es.
Proof.
  intros H H0 He. pose proof (so_numbered _ _ H) as Hn. pose proof (numbered_range _ _ _ _ Hn). pose proof (queue_bound _ _ H).
  assert (Ha : Forall (fun e => e_seq e <= vs_last_sequence_ (db_versions_ (wo_db (sy_world s)))) (es0 ++ applied (sy_commits s))).
  { apply list.Forall_app. split; [eapply list.Forall_impl; [exact H0|]; cbn; lia|].
    eapply list.Forall_impl; [eapply applied_range; [exact Hn|apply (so_start _ _ H)|lia]|]. cbn. lia. }
  by apply (since_Forall _ es0 (sy_commits s)).
Qed.

Lemma inserted_new s0 (s : Sys) x : sys_ok s0 s -> x ∈ inserted s -> vs_last_sequence_ (db_versions_ (wo_db (sy_world s))) < e_seq x.
Proof.
  intros H Hx. unfold inserted in Hx. destruct (writers_ (wo_db (sy_world s))) as [|id q] eqn:Hq; [by apply elem_of_nil in Hx|].
  destruct (sy_phases s !! id) as [p|] eqn:Hp; [|by apply elem_of_nil in Hx]. pose proof (front_phase s0 s id q p H Hq Hp) as Hg.
  destruct p as [|f a n|g|g|g st se|st]; try by apply elem_of_nil in Hx. cbn [phase_entries phase_group] in *.
  destruct (Status_ok st); [|by apply elem_of_nil in Hx]. destruct Hg as [(ms & rest & Hm & Hlw & Hb & Hok & Hgs & Hsy) Ht].
  pose proof (queue_bound _ _ H) as [Hb1 Hb2]. rewrite Hm, group_ops_app, length_app in Hb2.
  assert (Hk : kMaxSequenceNumber < 2 ^ 63) by (unfold kMaxSequenceNumber; rewrite Z.shiftl_1_l; lia).
  rewrite Hb, batch_entries_rep in Hx by (done || lia). apply op_entries_seq in Hx. lia.
Qed.

(** *** Preservation *)

Lemma wait_step (s : Sys) es0 id p' (w' : World) : sys_live es0 s -> keeps_going (wo_db (sy_world s)) (wo_db w') ->
  (forall f a n, p' = PRoom f a (Some n) -> n = db_signals_ (wo_db w') /\ background_compaction_scheduled_ (wo_db w') = true) ->
  forall x f a n, <[id := p']> (sy_phases s) !! x = Some (PRoom f a (Some n)) ->
    n <= db_signals_ (wo_db w') /\ (n = db_signals_ (wo_db w') -> background_compaction_scheduled_ (wo_db w') = true).
Proof.
  intros Hl [Hk1 Hk2] Hw x f a n Hx. destruct (decide (x = id)) as [->|Hxi].
  - rewrite lookup_insert_eq in Hx. injection Hx as ->. destruct (Hw f a n eq_refl) as [-> Hb]. by split.
  - rewrite lookup_insert_ne in Hx by done. destruct (sl_wait _ _ Hl x f a n Hx) as [H1 H2]. split; [lia|]. intros ->. apply Hk2; [lia|]. apply H2. lia.
Qed.

Lemma queue_live s0 es0 (s : Sys) id p' (w' : World) : sys_ok s0 s -> sys_live es0 s ->
  sy_phases s !! id = Some PQueue -> thread_step id PQueue (sy_world s) = Ok (Some p', w') ->
  sys_live es0 (MkSys w' (<[id := p']> (sy_phases s)) (sy_ops s) (sy_arrivals s) (sy_commits s ++ new_commit PQueue p' (wo_db (sy_world s)) (wo_db w'))).
Proof.
  intros H Hl Hp Et. destruct (sl_mem _ _ Hl) as (es & He & Hs).
  destruct (queue_thread_ok s0 s id _ H Hp Hs) as (o & w2 & Et2 & Hk & Hs2 & Hq & Ho). rewrite Et in Et2. injection Et2 as <- <-. destruct Ho as [Ho Hw].
  split; cbn [sy_world sy_phases sy_ops sy_commits]; [apply (sl_keys _ _ Hl)| |].
  - cbn [new_commit]. rewrite app_nil_r. exists es. split; [done|]. by rewrite (inserted_other s id PQueue p').
  - apply (wait_step s es0); [done|done|]. intros f a n ->. by destruct (Hw f a n).
Qed.

Lemma front_live s0 es0 (s : Sys) id p p' (w' : World) : sys_ok s0 s -> sys_live es0 s -> Forall (fun e => e_seq e <= s0) es0 ->
  sy_phases s !! id = Some p -> working p -> thread_step id p (sy_world s) = Ok (Some p', w') ->
  let s' := MkSys w' (<[id := p']> (sy_phases s)) (sy_ops s) (sy_arrivals s) (sy_commits s ++ new_commit p p' (wo_db (sy_world s)) (wo_db w')) in
  sys_ok s0 s' -> sys_live es0 s'.
Proof.
  intros H Hl H0 Hp Hwp Et s' H'. destruct (sl_mem _ _ Hl) as (es & He & Hs). destruct (working_front s0 s id p H Hp Hwp) as [q Hq].
  assert (Hins : inserted s = phase_entries p) by (unfold inserted; by rewrite Hq, Hp). rewrite Hins in Hs.
  destruct (front_thread_ok s0 es0 s id q p es H Hl Hq Hp Hwp Hs) as (o & w2 & Et2 & Hf); [by eapply entries_old|].
  rewrite Et in Et2. injection Et2 as <- <-. destruct Hf as (Hk & Hw & Hcase).
  assert (Hnew : working p' -> new_commit p p' (wo_db (sy_world s)) (wo_db w') = [] /\ inserted s' = phase_entries p').
  { intros Hr. split; [by destruct p, p'|]. unfold inserted, s'. cbn [sy_world sy_phases].
    destruct (working_front s0 s' id p' H') as [q' Hq']; [unfold s'; cbn; by rewrite lookup_insert_eq|done|].
    cbn [sy_world s'] in Hq'. by rewrite Hq', lookup_insert_eq. }
  split; cbn [sy_world sy_phases sy_ops sy_commits s']; [apply (sl_keys _ _ Hl)| |by eapply wait_step].
  destruct Hcase as [[Hr Hs']|[(Hr & Hp1 & Hp2 & Hs')|((st' & ->) & Hc & Hs')]].
  - destruct (Hnew Hr) as [E1 E2]. rewrite E1, app_nil_r. exists es. split; [done|]. by rewrite E2.
  - destruct (Hnew Hr) as [E1 E2]. rewrite E1, app_nil_r. exists []. split; [apply since_new|]. by rewrite E2, Hp2.
  - exists (es ++ phase_entries p). split; [rewrite <- Hc; by apply since_app|].
    assert (Hi : inserted s' = []); [|by rewrite Hi, app_nil_r]. unfold inserted, s'. cbn [sy_world sy_phases].
    pose proof (so_front _ _ H') as Hfr. unfold front_ok in Hfr. cbn [sy_world sy_phases s'] in Hfr.
    destruct (writers_ (wo_db w')) as [|x q'] eqn:Eq'; [done|]. destruct Hfr as (wx & px & _ & _ & Hpx & Hrx & _).
    rewrite Hpx. destruct (decide (x = id)) as [->|Hxi]; [rewrite lookup_insert_eq in Hpx; injection Hpx as <-; by destruct (Hrx st')|].
    rewrite lookup_insert_ne in Hpx by done.
    destruct px as [| | | | |st]; [done| | | | |by destruct (Hrx st)]; destruct (working_front s0 s x _ H Hpx I) as [q2 Hq2]; congruence.
Qed.

Lemma enter_live s0 es0 (s : Sys) id updates sync ops : sys_ok s0 s -> sys_live es0 s -> sy_phases s !! id = None -> keys_fit ops ->
  sys_live es0 (MkSys (with_db (sy_world s) (Write_enter (wo_db (sy_world s)) id updates sync))
                  (<[id := PQueue]> (sy_phases s)) (<[id := ops]> (sy_ops s)) (sy_arrivals s ++ [id]) (sy_commits s)).
Proof.
  intros H Hl Hnew Hk. destruct (sl_mem _ _ Hl) as (es & He & Hs).
  assert (Hid : id ∉ writers_ (wo_db (sy_world s))).
  { intros Hin. assert (Ha : id ∈ sy_arrivals s) by (rewrite (so_arrivals _ _ H); apply elem_of_app; by right). apply (so_phases _ _ H) in Ha as [p Hp]. congruence. }
  split; cbn [sy_world sy_phases sy_ops sy_commits].
  - intros x o Hx. destruct (decide (x = id)) as [->|Hxi]; [rewrite lookup_insert_eq in Hx; by injection Hx as <-|].
    rewrite lookup_insert_ne in Hx by done. by apply (sl_keys _ _ Hl x).
  - exists es. split; [done|]. assert (Hi : forall w' om ar, writers_ (wo_db w') = writers_ (wo_db (sy_world s)) ++ [id] ->
      inserted (MkSys w' (<[id := PQueue]> (sy_phases s)) om ar (sy_commits s)) = inserted s).
    { intros w' om ar Hw. unfold inserted. cbn. rewrite Hw. destruct (writers_ (wo_db (sy_world s))) as [|x q]; cbn; [by rewrite lookup_insert_eq|].
      rewrite lookup_insert_ne; [done|]. intros ->. apply Hid. left. }
    rewrite Hi by done. by apply (steady_ext (wo_db (sy_world s))).
  - intros x f a n Hx. destruct (decide (x = id)) as [->|Hxi]; [by rewrite lookup_insert_eq in Hx|]. rewrite lookup_insert_ne in Hx by done.
    by apply (sl_wait _ _ Hl x f a).
Qed.

Lemma others_live es0 (s : Sys) (w' : World) : sys_live es0 s -> others (sy_world s) w' ->
  sys_live es0 (MkSys w' (sy_phases s) (sy_ops s) (sy_arrivals s) (sy_commits s)).
Proof.
  intros Hl ((_ & Hq & _) & Hk1 & Hst & Hk2). split; cbn [sy_world sy_phases sy_ops sy_commits]; [apply (sl_keys _ _ Hl)| |].
  - destruct (sl_mem _ _ Hl) as (es & He & Hs). exists es. split; [done|]. apply Hst. unfold inserted in *. cbn. by rewrite Hq.
  - intros x f a n Hx. destruct (sl_wait _ _ Hl x f a n Hx) as [H1 H2]. split; [lia|]. intros ->. apply Hk2; [lia|]. apply H2. lia.
Qed.

Lemma step_live s0 es0 (s s' : Sys) : sys_step s0 s s' -> Forall (fun e => e_seq e <= s0) es0 -> sys_ok s0 s -> sys_live es0 s -> sys_live es0 s'.
Proof.
  intros Hstep H0 H Hl. pose proof (sys_step_ok s0 s s' Hstep H) as H'. destruct Hstep as [s id updates sync ops Hnew Hops Hkeys Hb|s id p p' w' Hp Et|s w' Ho].
  - by apply enter_live with s0.
  - destruct p as [| | | | |st]; [by apply queue_live with s0|by eapply front_live..|done].
  - by apply others_live.
Qed.

Lemma reachable_live s0 es0 (w : World) (s : Sys) : start_ok w -> s0 = vs_last_sequence_ (db_versions_ (wo_db w)) -> s0 <= kMaxSequenceNumber ->
  steady (wo_db w) es0 -> Forall (fun e => e_seq e <= s0) es0 -> rtc (sys_step s0) (sys_start w) s -> sys_ok s0 s /\ sys_live es0 s.
Proof.
  intros Hw Hs Hm Hst H0. revert s. apply (rtc_ind_r (R := sys_step s0) (fun s => sys_ok s0 s /\ sys_live es0 s)).
  - split; [by apply sys_start_ok|]. split; unfold sys_start, inserted; cbn; [done| |done].
    exists es0. split; [exists [], []; split; [done|]; left; by rewrite app_nil_r|]. destruct Hw as [-> _]. by rewrite app_nil_r.
  - intros s1 s2 _ Hstep [H1 H2]. split; [by eapply sys_step_ok|by eapply step_live].
Qed.
End progress.

(** ** The theorems *)



(** *** The example of [DbCommit], midway *)

Definition midway_events : list Event := take 8 commit_events.

Lemma commit_world_steady : steady (C := BytewiseComparator) (E := mem_env) (wo_db commit_world) [].
Proof.
  split.
  - exists 1. split; [done|]. split; [by apply (new_mem_holds (C := BytewiseComparator) (E := mem_env) (set_version_set (NewDBImpl example_options (str "db")) (AppendVersion NewVersionSet (one_file 7))))|]. by split.
  - by exists (str "db/000003.log"), 0.
  - by eexists.
  - done.
  - intros n Hn. vm_compute in Hn. injection Hn as <-. by vm_compute.
  - intros _ [Hx|Hx]; [by destruct Hx|by vm_compute in Hx].
Qed.

Lemma midway_run : exists s, event_run (C := BytewiseComparator) (FE := mem_file_env) (sys_start (E := mem_env) commit_world) midway_events = Some s /\
  inserted s = [MkEntry 1 kTypeValue (str "a") (str "1"); MkEntry 2 kTypeDeletion (str "b") []] /\
  sy_arrivals s = [1; 2; 3] /\ vs_last_sequence_ (db_versions_ (wo_db (sy_world s))) = 0.
Proof.
  destruct (event_run (C := BytewiseComparator) (FE := mem_file_env) (sys_start (E := mem_env) commit_world) midway_events) as [s|] eqn:Er; [|by vm_compute in Er].
  assert (Hs : match event_run (C := BytewiseComparator) (FE := mem_file_env) (sys_start (E := mem_env) commit_world) midway_events with
    | Some s => inserted s = [MkEntry 1 kTypeValue (str "a") (str "1"); MkEntry 2 kTypeDeletion (str "b") []] /\ sy_arrivals s = [1; 2; 3] /\
        vs_last_sequence_ (db_versions_ (wo_db (sy_world s))) = 0
    | None => False end) by (vm_compute; by split_and!).
  rewrite Er in Hs. destruct Hs as (H1 & H2 & H3). exists s. split; [reflexivity|]. split; [exact H1|]. split; [exact H2|exact H3].
Qed.

Lemma midway_reached s : event_run (C := BytewiseComparator) (FE := mem_file_env) (sys_start (E := mem_env) commit_world) midway_events = Some s ->
  rtc (sys_step (C := BytewiseComparator) (FE := mem_file_env) 0) (sys_start (E := mem_env) commit_world) s.
Proof. intros Er. eapply event_run_steps; [|exact Er]. apply events_okb_ok. by vm_compute. Qed.


