(* ===== verification/DbCompact.v ===== *)
(** * Compactions

    [BuildTable] of [cpp/leveldb/db/builder.cc] and the background work of [DBImpl] of
    [cpp/leveldb/db/db_impl.cc]: writing out a memtable, compacting tables, the choice
    between them, and the calls that ask for a compaction and wait for it.

    The long parts of a compaction run without the mutex.  [meanwhile n] is what the other
    threads do before the [n]th round of its loop; the rest of a compaction is run in one
    piece.  A builder keeps its file together with a file system: [with_builder] gives it
    that of the world. *)
From stdpp Require Import gmap.
From S2P Require Import Prelude Coding Comparator Status Logging DbFormat LogWriter WriteBatch Snapshot SkipList MemTable Cursor MemIter Block Merger TwoLevel FilterBlock Format TableBuilder VersionEdit FileSearch Version VersionBuilder VersionSet Compaction VersionIter Filename Manifest DbState DbFiles DbWrite.

#[local] Existing Instance Sum_Iterator.

(** ** State *)

Record Output := MkOutput { out_number : Z; out_file_size : Z; out_smallest : bytes; out_largest : bytes }.

Record CompactionState (F W : Type) := MkCompactionState {
  cs_compaction : Compaction;
  smallest_snapshot : Z;
  outputs : list Output;
  outfile : option W;
  builder : option (TableBuilder F);
  total_bytes : Z
}.
Arguments MkCompactionState {F W}.
Arguments cs_compaction {F W}.
Arguments smallest_snapshot {F W}.
Arguments outputs {F W}.
Arguments outfile {F W}.
Arguments builder {F W}.
Arguments total_bytes {F W}.

Section setters.
Context {F W : Type}.
Implicit Type cs : CompactionState F W.

Definition NewCompactionState (c : Compaction) : CompactionState F W := MkCompactionState c 0 [] None None 0.
Definition set_compaction cs (c : Compaction) : CompactionState F W :=
  MkCompactionState c (smallest_snapshot cs) (outputs cs) (outfile cs) (builder cs) (total_bytes cs).
Definition set_smallest_snapshot cs (n : Z) : CompactionState F W :=
  MkCompactionState (cs_compaction cs) n (outputs cs) (outfile cs) (builder cs) (total_bytes cs).
Definition set_outputs cs (l : list Output) : CompactionState F W :=
  MkCompactionState (cs_compaction cs) (smallest_snapshot cs) l (outfile cs) (builder cs) (total_bytes cs).
Definition set_builder cs (f : option W) (b : option (TableBuilder F)) : CompactionState F W :=
  MkCompactionState (cs_compaction cs) (smallest_snapshot cs) (outputs cs) f b (total_bytes cs).
Definition set_total_bytes cs (n : Z) : CompactionState F W :=
  MkCompactionState (cs_compaction cs) (smallest_snapshot cs) (outputs cs) (outfile cs) (builder cs) n.

(** A change of [*current_output()], the last one. *)
Fixpoint map_last {A} (f : A -> A) (l : list A) : list A :=
  match l with
  | [] => []
  | [x] => [f x]
  | x :: l => x :: map_last f l
  end.
Definition set_current_output cs (f : Output -> Output) : CompactionState F W := set_outputs cs (map_last f (outputs cs)).
End setters.

(** ** What a compaction drops *)

(** [current_user_key], if there is one, and [last_sequence_for_key]. *)
Record DropState := MkDropState { current_user_key : option bytes; last_sequence_for_key : Z }.

Definition NewDropState : DropState := MkDropState None kMaxSequenceNumber.

(** Whether an entry is dropped: the compaction with its level pointers, what is
    remembered, and the answer.  [is_base] is [IsBaseLevelForKey]. *)
Definition drop_entry `{C : Comparator} {P : Type} (is_base : P -> bytes -> res (P * bool)) (smallest_snapshot : Z)
    (c : P) (ds : DropState) (key : bytes) : res (P * DropState * bool) :=
  match ParseInternalKey key with
  | None => Ok (c, MkDropState None kMaxSequenceNumber, false)
  | Some ikey =>
      let first := match current_user_key ds with
                   | None => true
                   | Some k => negb (cmp_Compare (user_key ikey) k =? 0)
                   end in
      let ds := if first then MkDropState (Some (user_key ikey)) kMaxSequenceNumber else ds in
      let? r :=
        if last_sequence_for_key ds <=? smallest_snapshot then Ok (c, true)
        else if (type ikey =? kTypeDeletion) && (sequence ikey <=? smallest_snapshot) then is_base c (user_key ikey)
        else Ok (c, false) in
      Ok (r.1, MkDropState (current_user_key ds) (sequence ikey), r.2)
  end.

(** ** Building a table *)

Section compact.
Context `{C : Comparator} `{DE : DbEnv} {T : Type} `{TE : !TableEvict T} `{Sn : Snappy}.
Context {I : Type} `{TF : !TableFiles (FS * T) I (It := It)}.
Abbreviation Prog := (Prog FS T WFile).
Abbreviation Builder := (TableBuilder (FS * WFile)).
Abbreviation CompactionState := (CompactionState (FS * WFile) WFile).
Abbreviation builder_Add := (TableBuilder_Add (C := InternalKeyComparator C)).
Abbreviation builder_Finish := (TableBuilder_Finish (C := InternalKeyComparator C)).

Definition new_builder (o : DbOptions) (f : WFile) : Prog Builder :=
  fun w => Ok (NewTableBuilder (table_options o) (wo_fs w, f), w).

Definition with_builder {A} (f : Builder -> res (Builder * A)) (b : Builder) : Prog (Builder * A) :=
  p_fs_res (fun w =>
    let? r := f (set_output b (w, (file b).2) (offset b) (TableBuilder.status b)) in
    Ok ((file r.1).1, r)).

(** The iterator after the loop, and the last key. *)
Fixpoint build_loop {J} `{Iterator J} (fuel : nat) (iter : J) (b : Builder) (key : bytes) : res (Builder * (J * bytes)) :=
  match fuel with
  | O => OutOfFuel
  | S fuel =>
      if it_Valid iter then
        let key := it_key iter in
        let? value := it_value iter in
        let b := builder_Add b key value in
        let? iter := it_Next iter in
        build_loop fuel iter b key
      else Ok (b, (iter, key))
  end.

(** [table_cache->NewIterator(ReadOptions(), number, size)] and the status of the iterator. *)
Definition verify_table (number size : Z) : Prog Status :=
  p_tables (fun c => let? r := tc_NewIterator c false true number size in Ok (r.1, it_status r.2)).

Definition set_file_meta (meta : FileMetaData) (size : Z) (small large : bytes) : FileMetaData :=
  MkFile (refs meta) (allowed_seeks meta) (number meta) size small large.

(** Syncs and closes a file unless there was an error, and deletes it. *)
Definition close_file (f : WFile) (s : Status) : Prog Status :=
  p_fs (fun w =>
    let '(w, s) := if Status_ok s then wfile_Sync w f else (w, s) in
    let '(w, s) := if Status_ok s then wfile_Close w f else (w, s) in
    (wfile_delete w f, s)).

(** The table over the entries of [iter], which is at the first, in an open file. *)
Definition fill_table {J} `{Iterator J} (fuel : nat) (o : DbOptions) (f : WFile) (iter : J) (meta : FileMetaData)
    : Prog (J * FileMetaData * Status) :=
  let small := (InternalKey_DecodeFrom (it_key iter)).1 in
  let! b := new_builder o f in
  let! r := with_builder (fun b => build_loop fuel iter b []) b in
  let '(b, (iter, key)) := r in
  let large := match key with [] => largest meta | _ => (InternalKey_DecodeFrom key).1 end in
  let! r := with_builder builder_Finish b in
  let '(b, s) := r in
  let meta := set_file_meta meta (if Status_ok s then FileSize b else file_size meta) small large in
  let! s := close_file f s in
  let! s := if Status_ok s then verify_table (number meta) (file_size meta) else p_ret s in
  p_ret (iter, meta, s).

(** An error while the file is opened returns at once. *)
Definition BuildTable {J} `{Iterator J} (fuel : nat) (dbname : bytes) (o : DbOptions) (iter : J) (meta : FileMetaData)
    : Prog (FileMetaData * Status) :=
  let meta := set_file_meta meta 0 (smallest meta) (largest meta) in
  let! iter := p_lift (it_SeekToFirst iter) in
  let fname := TableFileName dbname (number meta) in
  let finish (iter : J) (meta : FileMetaData) (s : Status) : Prog (FileMetaData * Status) :=
    let s := if Status_ok (it_status iter) then s else it_status iter in
    if Status_ok s && (file_size meta >? 0) then p_ret (meta, s)
    else let! _ := p_fs (fun w => env_RemoveFile w fname) in p_ret (meta, s) in
  if it_Valid iter then
    let! r := p_fs (fun w => env_NewWritableFile w fname) in
    match r with
    | inr s => p_ret (meta, s)
    | inl f =>
        let! r := fill_table fuel o f iter meta in
        let '(iter, meta, s) := r in finish iter meta s
    end
  else finish iter meta Status_OK.

(** ** Compacting a memtable *)

(** Enough rounds for the entries of a memtable. *)
Definition mem_fuel (m : MemTable) : nat := S (length (nodes (table_ m))).

Definition add_stats (level : nat) (c : CompactionStats) : Prog () :=
  p_set (fun d => set_stats d (alter (fun s => CompactionStats_Add s c) level (stats_ d))).

(** [base] is [nullptr] during recovery. *)
Definition WriteLevel0Table (mem : Z) (edit : VersionEdit) (base : option Z) : Prog (VersionEdit * Status) :=
  let! start_micros := p_fs env_NowMicros in
  let! n := p_update (fun d => let r := NewFileNumber (db_versions_ d) in Ok (set_pending (set_version_set d r.2) ({[r.1]} ∪ pending_outputs_ d), r.1)) in
  let! m := p_read (fun d => find_mem d mem) in
  let! dbname := p_get dbname_ in
  let! o := p_get db_options_ in
  let! r := BuildTable (mem_fuel m) dbname o (MemTable_NewIterator m) (NewFileMetaData n 0 [] []) in
  let '(meta, s) := r in
  let! _ := p_set (fun d => set_pending d (pending_outputs_ d ∖ {[n]})) in
  let! r :=
    if Status_ok s && (file_size meta >? 0) then
      let! level := match base with
                    | Some id => p_read (fun d =>
                        let? v := find_version (db_versions_ d) id in
                        PickLevelForMemTableOutput v (max_file_size (db_options_ d)) (ExtractUserKey (smallest meta)) (ExtractUserKey (largest meta)))
                    | None => p_ret O
                    end in
      p_ret (level, AddFile edit (Z.of_nat level) n (file_size meta) (smallest meta) (largest meta))
    else p_ret (O, edit) in
  let '(level, edit) := r in
  let! now := p_fs env_NowMicros in
  let! _ := add_stats level (MkCompactionStats (int64 (now - start_micros)) 0 (file_size meta)) in
  p_ret (edit, s).

(** [versions_->LogAndApply(&edit, &mutex_)] *)
Definition log_and_apply (edit : VersionEdit) : Prog (VersionEdit * Status) :=
  fun w =>
    let? r := LogAndApply (wo_fs w) (db_versions_ (wo_db w)) (dbname_ (wo_db w)) edit in
    let '(fs, vs, edit, s) := r in
    Ok ((edit, s), MkWorld fs (wo_tables w) (set_version_set (wo_db w) vs)).

Definition record_error (s : Status) : Prog () := p_set (RecordBackgroundError s).

Definition CompactMemTable : Prog () :=
  let! imm := p_read (fun d => match db_imm_ d with Some id => Ok id | None => Undefined end) in
  let! base := p_read (fun d => match current_ (db_versions_ d) with Some id => Ok id | None => Undefined end) in
  let! _ := p_set (fun d => set_version_set d (Version_Ref (db_versions_ d) base)) in
  let! r := WriteLevel0Table imm NewVersionEdit (Some base) in
  let '(edit, s) := r in
  let! _ := p_set (fun d => set_version_set d (Version_Unref (db_versions_ d) base)) in
  let! shutting := p_get shutting_down_ in
  let s := if Status_ok s && shutting then Status_IOError (str "Deleting DB during memtable compaction") [] else s in
  let! s :=
    if Status_ok s then
      let! n := p_get logfile_number_ in
      let! r := log_and_apply (SetLogNumber (SetPrevLogNumber edit 0) n) in p_ret r.2
    else p_ret s in
  if Status_ok s then
    let! _ := p_update (fun d => let? d := mem_Unref d imm in Ok (d, tt)) in
    let! _ := p_set (fun d => set_imm d None) in
    RemoveObsoleteFiles
  else record_error s.

(** ** Compacting tables *)

Definition OpenCompactionOutputFile (cs : CompactionState) : Prog (CompactionState * Status) :=
  let! n := p_update (fun d => let r := NewFileNumber (db_versions_ d) in Ok (set_pending (set_version_set d r.2) ({[r.1]} ∪ pending_outputs_ d), r.1)) in
  let cs := set_outputs cs (outputs cs ++ [MkOutput n 0 [] []]) in
  let! dbname := p_get dbname_ in
  let! o := p_get db_options_ in
  let! r := p_fs (fun w => env_NewWritableFile w (TableFileName dbname n)) in
  match r with
  | inl f => let! b := new_builder o f in p_ret (set_builder cs (Some f) (Some b), Status_OK)
  | inr s => p_ret (cs, s)
  end.

(** [input_status] is the status of the input iterator. *)
Definition FinishCompactionOutputFile (cs : CompactionState) (input_status : Status) : Prog (CompactionState * Status) :=
  match builder cs, outfile cs, list.last (outputs cs) with
  | Some b, Some f, Some out =>
      let current_entries := NumEntries b in
      let! r := if Status_ok input_status then with_builder builder_Finish b else p_ret (TableBuilder_Abandon b, input_status) in
      let '(b, s) := r in
      let current_bytes := FileSize b in
      let cs := set_current_output cs (fun o => MkOutput (out_number o) current_bytes (out_smallest o) (out_largest o)) in
      let cs := set_total_bytes cs (u64 (total_bytes cs + current_bytes)) in
      let! s := close_file f s in
      let cs := set_builder cs None None in
      let! s := if Status_ok s && (current_entries >? 0) then verify_table (out_number out) current_bytes else p_ret s in
      p_ret (cs, s)
  | _, _, _ => p_lift Undefined
  end.

Definition InstallCompactionResults (cs : CompactionState) : Prog (CompactionState * Status) :=
  let c := cs_compaction cs in
  let edit := AddInputDeletions c (c_edit_ c) in
  let edit := foldl (fun edit out =>
      AddFile edit (Z.of_nat (c_level_ c) + 1) (out_number out) (out_file_size out) (out_smallest out) (out_largest out))
    edit (outputs cs) in
  let! r := log_and_apply edit in
  p_ret (set_compaction cs (set_edit c r.1), r.2).

(** An entry that is kept goes to the builder. *)
Definition add_output (cs : CompactionState) (key value : bytes) : Prog CompactionState :=
  match builder cs with
  | None => p_lift Undefined
  | Some b =>
      let cs := if NumEntries b =? 0
                then set_current_output cs (fun o => MkOutput (out_number o) (out_file_size o) (InternalKey_DecodeFrom key).1 (out_largest o)) else cs in
      let cs := set_current_output cs (fun o => MkOutput (out_number o) (out_file_size o) (out_smallest o) (InternalKey_DecodeFrom key).1) in
      let! r := with_builder (fun b => Ok (builder_Add b key value, tt)) b in
      p_ret (set_builder cs (outfile cs) (Some r.1))
  end.

Section work.
Context (fuel : nat) (meanwhile : nat -> Prog ()).
Abbreviation Input := (@MergedIterator (I + LevelIterator (T := FS * T) (I := I))%type).

(** The iterator over the inputs reads with [paranoid_checks] and does not fill the cache. *)
Definition input_iterator (paranoid : bool) : Iterator Input :=
  Merged_Iterator (C := InternalKeyComparator C) (H := Sum_Iterator (H0 := Level_Iterator paranoid false fuel)).

(** A memtable waits to be compacted: the time it takes. *)
Definition prioritize_imm : Prog Z :=
  let! imm := p_get db_imm_ in
  match imm with
  | None => p_ret 0
  | Some _ =>
      let! imm_start := p_fs env_NowMicros in
      let! _ := CompactMemTable in
      let! _ := p_set SignalAll in
      let! now := p_fs env_NowMicros in
      p_ret (int64 (now - imm_start))
  end.

(** An entry of the input: what is remembered, the state, and the status, which ends the
    loop if it is an error. *)
Definition compact_entry (max_file_size : Z) (key : bytes) (value : res bytes) (input_status : Status) (ds : DropState) (cs : CompactionState)
    : Prog (DropState * CompactionState * Status) :=
  let '(c, stop) := ShouldStopBefore (cs_compaction cs) max_file_size key in
  let cs := set_compaction cs c in
  let! r := if stop && bool_decide (is_Some (builder cs)) then FinishCompactionOutputFile cs input_status else p_ret (cs, Status_OK) in
  let '(cs, s) := r in
  if negb (Status_ok s) then p_ret (ds, cs, s)
  else
    let! r := p_read (fun d => drop_entry (IsBaseLevelForKey (db_versions_ d)) (smallest_snapshot cs) (cs_compaction cs) ds key) in
    let '(c, ds, drop) := r in
    let cs := set_compaction cs c in
    if drop then p_ret (ds, cs, Status_OK)
    else
      let! r := if bool_decide (builder cs = None) then OpenCompactionOutputFile cs else p_ret (cs, Status_OK) in
      let '(cs, s) := r in
      if negb (Status_ok s) then p_ret (ds, cs, s)
      else
        let! value := p_lift value in
        let! cs := add_output cs key value in
        match builder cs with
        | Some b =>
            if FileSize b >=? max_output_file_size_ (cs_compaction cs) then
              let! r := FinishCompactionOutputFile cs input_status in p_ret (ds, r.1, r.2)
            else p_ret (ds, cs, Status_OK)
        | None => p_lift Undefined
        end.

(** The [while] loop, from the [n]th round on: the input, the state, the status, and the
    time spent on memtables. *)
Fixpoint compact_loop (rounds n : nat) (it : Iterator Input) (max_file_size : Z) (input : Input) (ds : DropState) (cs : CompactionState)
    (imm_micros : Z) : Prog (Input * CompactionState * Status * Z) :=
  match rounds with
  | O => p_lift OutOfFuel
  | S rounds =>
      let! _ := meanwhile n in
      let! shutting := p_get shutting_down_ in
      if it_Valid input && negb shutting then
        let! t := prioritize_imm in
        let imm_micros := int64 (imm_micros + t) in
        let! r := compact_entry max_file_size (it_key input) (it_value input) (it_status input) ds cs in
        let '(ds, cs, s) := r in
        if negb (Status_ok s) then p_ret (input, cs, s, imm_micros)
        else
          let! input := p_lift (it_Next input) in
          compact_loop rounds (S n) it max_file_size input ds cs imm_micros
      else p_ret (input, cs, Status_OK, imm_micros)
  end.

(** What follows the loop, still without the mutex. *)
Definition compact_end (input_status : Status) (cs : CompactionState) (s : Status) : Prog (CompactionState * Status) :=
  let! shutting := p_get shutting_down_ in
  let s := if Status_ok s && shutting then Status_IOError (str "Deleting DB during compaction") [] else s in
  let! r := if Status_ok s && bool_decide (is_Some (builder cs)) then FinishCompactionOutputFile cs input_status else p_ret (cs, s) in
  let '(cs, s) := r in
  p_ret (cs, if Status_ok s then input_status else s).

Definition compaction_stats (cs : CompactionState) (micros : Z) : CompactionStats :=
  let c := cs_compaction cs in
  MkCompactionStats micros
    (foldl (fun n f => int64 (n + file_size f)) 0 (inputs_0 c ++ inputs_1 c))
    (foldl (fun n out => int64 (n + out_file_size out)) 0 (outputs cs)).

Definition oldest_sequence (d : DBImpl WFile) : res Z :=
  if sn_empty (snapshots_ d) then Ok (vs_last_sequence_ (db_versions_ d))
  else match sn_oldest (snapshots_ d) with
       | Some a => match sn_sequence_number (snapshots_ d) a with Some n => Ok n | None => Undefined end
       | None => Undefined
       end.

Definition DoCompactionWork (rounds : nat) (cs : CompactionState) : Prog (CompactionState * Status) :=
  let! start_micros := p_fs env_NowMicros in
  let! n := p_read oldest_sequence in
  let cs := set_smallest_snapshot cs n in
  let! o := p_get db_options_ in
  let paranoid := paranoid_checks (table_options o) in
  let it := input_iterator paranoid in
  let! input := p_tables (fun c => MakeInputIterator paranoid false fuel c (cs_compaction cs)) in
  let! input := p_lift (it_SeekToFirst input) in
  let! r := compact_loop rounds 0 it (max_file_size o) input NewDropState cs 0 in
  let '(input, cs, s, imm_micros) := r in
  let! r := compact_end (it_status input) cs s in
  let '(cs, s) := r in
  let! now := p_fs env_NowMicros in
  let! _ := add_stats (S (c_level_ (cs_compaction cs))) (compaction_stats cs (int64 (int64 (now - start_micros) - imm_micros))) in
  let! r := if Status_ok s then InstallCompactionResults cs else p_ret (cs, s) in
  let '(cs, s) := r in
  let! _ := if Status_ok s then p_ret tt else record_error s in
  p_ret (cs, s).

(** An output that was not finished is abandoned, its file deleted. *)
Definition CleanupCompaction (cs : CompactionState) : Prog () :=
  let! _ := match outfile cs with
            | Some f => p_fs (fun w => (wfile_delete w f, tt))
            | None => p_ret tt
            end in
  p_set (fun d => set_pending d (foldl (fun p out => p ∖ {[out_number out]}) (pending_outputs_ d) (outputs cs))).

(** ** The background thread *)

Definition set_manual_request (d : DBImpl WFile) (id : Z) (m : ManualCompaction) : DBImpl WFile :=
  set_manual d (<[id := m]> (manuals_ d)) (manual_compaction_ d).

Definition find_manual (d : DBImpl WFile) (id : Z) : res ManualCompaction :=
  match manuals_ d !! id with Some m => Ok m | None => Undefined end.

(** The compaction that was asked for, with the end of its inputs, or one that is needed. *)
Definition choose_compaction : Prog (option Compaction * option (Z * bytes)) :=
  let! manual := p_get manual_compaction_ in
  let! o := p_get db_options_ in
  match manual with
  | Some id =>
      let! m := p_read (fun d => find_manual d id) in
      let! c := p_update (fun d =>
        let? r := Compaction.CompactRange (db_versions_ d) (max_file_size o) (m_level m) (m_begin m) (m_end m) in
        Ok (set_version_set d r.1, r.2)) in
      let! _ := p_set (fun d => set_manual_request d id (MkManual (m_level m) (bool_decide (c = None)) (m_begin m) (m_end m))) in
      let! manual_end := match c with
                         | None => p_ret []
                         | Some c => match list.last (inputs_0 c) with Some f => p_ret (largest f) | None => p_lift Undefined end
                         end in
      p_ret (c, Some (id, manual_end))
  | None =>
      let! c := p_update (fun d =>
        let? r := PickCompaction (db_versions_ d) (max_file_size o) in Ok (set_version_set d r.1, r.2)) in
      p_ret (c, None)
  end.

(** A file moves to the next level.  The compaction, deleted after it, releases its inputs. *)
Definition trivial_move (c : Compaction) : Prog Status :=
  match inputs_0 c with
  | f :: _ =>
      let edit := RemoveFile (c_edit_ c) (Z.of_nat (c_level_ c)) (number f) in
      let edit := AddFile edit (Z.of_nat (c_level_ c) + 1) (number f) (file_size f) (smallest f) (largest f) in
      let! r := log_and_apply edit in
      let! _ := if Status_ok r.2 then p_ret tt else record_error r.2 in
      p_ret r.2
  | [] => p_lift Undefined
  end.

Definition release_inputs (c : Compaction) : Prog () := p_set (fun d => set_version_set d (ReleaseInputs (db_versions_ d) c).1).

Definition run_compaction (rounds : nat) (c : Compaction) (is_manual : bool) : Prog Status :=
  let! o := p_get db_options_ in
  if negb is_manual && IsTrivialMove c (max_file_size o) then
    let! s := trivial_move c in
    let! _ := release_inputs c in p_ret s
  else
    let! r := DoCompactionWork rounds (NewCompactionState c) in
    let '(cs, s) := r in
    let! _ := if Status_ok s then p_ret tt else record_error s in
    let! _ := CleanupCompaction cs in
    let! _ := release_inputs c in
    let! _ := RemoveObsoleteFiles in
    p_ret s.

(** The rest of the range waits for another call. *)
Definition finish_manual (id : Z) (manual_end : bytes) (s : Status) : Prog () :=
  let! m := p_read (fun d => find_manual d id) in
  let m := if Status_ok s then m else MkManual (m_level m) true (m_begin m) (m_end m) in
  let m := if m_done m then m else MkManual (m_level m) false (Some manual_end) (m_end m) in
  p_set (fun d => set_manual d (<[id := m]> (manuals_ d)) None).

Definition BackgroundCompaction (rounds : nat) : Prog () :=
  let! imm := p_get db_imm_ in
  match imm with
  | Some _ => CompactMemTable
  | None =>
      let! r := choose_compaction in
      let '(c, manual) := r in
      let! s := match c with
                | None => p_ret Status_OK
                | Some c => run_compaction rounds c (bool_decide (is_Some manual))
                end in
      match manual with
      | Some (id, manual_end) => finish_manual id manual_end s
      | None => p_ret tt
      end
  end.

Definition BackgroundCall (rounds : nat) : Prog () :=
  let! shutting := p_get shutting_down_ in
  let! bg_error := p_get bg_error_ in
  let! _ := if shutting then p_ret tt
            else if negb (Status_ok bg_error) then p_ret tt
            else BackgroundCompaction rounds in
  let! _ := p_set (fun d => set_scheduled d false) in
  let! _ := p_update (fun d => let? d := MaybeScheduleCompaction d in Ok (d, tt)) in
  p_set SignalAll.
End work.

(** ** Asking for compactions *)

(** A call of [CompactRange] is a thread: it writes no batch to wait for the writes before
    it, waits for the memtable, and asks for a compaction of each level in turn.  [waits]
    is the count of signals at which it went to wait. *)
Inductive RangePhase :=
| RWrite (max_level : nat) (p : Phase)
| RMemTable (max_level : nat) (waits : option Z)
| RLevel (level max_level : nat) (waits : option Z)
| RDone.

Definition CompactRange_levels (begin end_ : option bytes) (d : DBImpl WFile) : res nat :=
  let? base := current (db_versions_ d) in
  fold_res (fun max_level level =>
      let? overlaps := OverlapInLevel base level begin end_ in
      Ok (if overlaps then level else max_level)) 1%nat (seq 1 (num_levels - 1)).

Definition NewManual (level : nat) (begin end_ : option bytes) : ManualCompaction :=
  MkManual level false ((fun k => InternalKey k kMaxSequenceNumber kValueTypeForSeek) <$> begin) ((fun k => InternalKey k 0 0) <$> end_).

(** The first step; [id] is the writer and the request of this call. *)
Definition CompactRange_begin (id : Z) (begin end_ : option bytes) : Prog RangePhase :=
  let! max_level := p_read (CompactRange_levels begin end_) in
  let! _ := p_set (fun d => Write_enter d id None false) in
  p_ret (RWrite max_level PQueue).

(** The loop of [TEST_CompactRange], and the end of it. *)
Definition TEST_CompactRange_step (id : Z) (level max_level : nat) (begin end_ : option bytes) : Prog RangePhase :=
  let! m := p_read (fun d => find_manual d id) in
  let! shutting := p_get shutting_down_ in
  let! bg_error := p_get bg_error_ in
  let! manual := p_get manual_compaction_ in
  if negb (m_done m) && negb shutting && Status_ok bg_error then
    let! _ := match manual with
              | None => p_update (fun d => let? d := MaybeScheduleCompaction (set_manual d (manuals_ d) (Some id)) in Ok (d, tt))
              | Some _ => p_ret tt
              end in
    let! n := p_get db_signals_ in
    p_ret (RLevel level max_level (Some n))
  else
    let! _ := p_set (fun d => if bool_decide (manual_compaction_ d = Some id) then set_manual d (manuals_ d) None else d) in
    if (S level <? max_level)%nat then
      let! _ := p_set (fun d => set_manual_request d id (NewManual (S level) begin end_)) in
      p_ret (RLevel (S level) max_level None)
    else p_ret RDone.

(** [TEST_CompactMemTable] after its write; errors of it are not looked at. *)
Definition TEST_CompactMemTable_step (id : Z) (max_level : nat) (begin end_ : option bytes) : Prog RangePhase :=
  let! imm := p_get db_imm_ in
  let! bg_error := p_get bg_error_ in
  if bool_decide (imm <> None) && Status_ok bg_error then
    let! n := p_get db_signals_ in p_ret (RMemTable max_level (Some n))
  else
    let! _ := p_set (fun d => set_manual_request d id (NewManual 0 begin end_)) in
    p_ret (RLevel 0 max_level None).

Definition CompactRange_step (id : Z) (begin end_ : option bytes) (p : RangePhase) : Prog (option RangePhase) :=
  let wait (n : Z) (p : RangePhase) : Prog (option RangePhase) :=
    let! signals := p_get db_signals_ in p_ret (if n <? signals then Some p else None) in
  match p with
  | RWrite max_level (PReturned s) =>
      if Status_ok s then p_ret (Some (RMemTable max_level None))
      else let! _ := p_set (fun d => set_manual_request d id (NewManual 0 begin end_)) in p_ret (Some (RLevel 0 max_level None))
  | RWrite max_level p => let! p := thread_step id p in p_ret (RWrite max_level <$> p)
  | RMemTable max_level (Some n) => wait n (RMemTable max_level None)
  | RMemTable max_level None => let! p := TEST_CompactMemTable_step id max_level begin end_ in p_ret (Some p)
  | RLevel level max_level (Some n) => wait n (RLevel level max_level None)
  | RLevel level max_level None => let! p := TEST_CompactRange_step id level max_level begin end_ in p_ret (Some p)
  | RDone => p_ret None
  end.
End compact.

(** The tables of the examples are empty. *)
#[local] Instance no_tables : TableFiles ((bytes -> option bytes) * unit) EmptyIterator := {| tc_NewIterator c _ _ _ _ := Ok (c, NewEmptyIterator) |}.
