(* ===== verification/DbKeep.v ===== *)
(** * What compactions keep

    A compaction drops entries that no reader can see any more: those hidden by a newer
    entry that every snapshot sees, and deletion markers with nothing below them.  The
    rule of [drop_entry] drops exactly these, and reads at the snapshots in use keep their
    answers. *)
From stdpp Require Import gmap sorting.
From S2P Require Import Prelude Coding Comparator Status Logging DbFormat WriteBatch MemTable Cursor MemIter Block Merger VersionEdit FileSearch Version Overlap VersionBuilder VersionSet Compaction DbCompact.

(** The entries a compaction keeps, in order. *)
Fixpoint keep_entries `{C : Comparator} {P : Type} (is_base : P -> bytes -> res (P * bool)) (smallest_snapshot : Z)
    (c : P) (ds : DropState) (kvs : list (bytes * bytes)) : res (list (bytes * bytes)) :=
  match kvs with
  | [] => Ok []
  | (key, value) :: kvs =>
      let? r := drop_entry is_base smallest_snapshot c ds key in
      let '(c, ds, drop) := r in
      let? kept := keep_entries is_base smallest_snapshot c ds kvs in
      Ok (if drop : bool then kept else (key, value) :: kept)
  end.

(** ** Reads *)

(** The newer of two. *)
Definition newer (a b : entry) : entry := if e_seq a <? e_seq b then b else a.

(** The newest entry of [u] that a read at [s] sees. *)
Fixpoint newest (u : bytes) (s : Z) (es : list entry) : option entry :=
  match es with
  | [] => None
  | e :: es =>
      let rest := newest u s es in
      if bool_decide (e_key e = u) && (e_seq e <=? s) then Some (match rest with Some b => newer e b | None => e end) else rest
  end.

(** What it reads. *)
Definition read_entries (u : bytes) (s : Z) (es : list entry) : option bytes :=
  match newest u s es with
  | Some e => if e_type e =? kTypeValue then Some (e_value e) else None
  | None => None
  end.

Definition sees (u : bytes) (s : Z) (e : entry) : Prop := e_key e = u /\ e_seq e <= s.

Lemma newest_None u s es : newest u s es = None <-> forall e, e ∈ es -> ~ sees u s e.
Proof.
  induction es as [|a es IH]; cbn [newest]; [split; [intros _ e H; by apply elem_of_nil in H|done]|].
  destruct (bool_decide_reflect (e_key a = u)) as [Hk|Hk]; cbn [andb]; [destruct (Z.leb_spec (e_seq a) s) as [Hs|Hs]|].
  - split; [done|]. intros H. destruct (H a); [left|done].
  - rewrite IH. split; intros H e; [intros [->|He]%elem_of_cons; [unfold sees; lia|by apply H]|intros He; apply H; by right].
  - rewrite IH. split; intros H e; [intros [->|He]%elem_of_cons; [by intros [? _]|by apply H]|intros He; apply H; by right].
Qed.

Lemma newest_Some u s es e : newest u s es = Some e -> e ∈ es /\ sees u s e /\ forall x, x ∈ es -> sees u s x -> e_seq x <= e_seq e.
Proof.
  revert e. induction es as [|a es IH]; intros e E; cbn [newest] in E; [done|].
  destruct (bool_decide_reflect (e_key a = u)) as [Hk|Hk]; cbn [andb] in E; [destruct (Z.leb_spec (e_seq a) s) as [Hs|Hs]|].
  - injection E as <-. destruct (newest u s es) as [b|] eqn:Eb.
    + destruct (IH b eq_refl) as (I1 & I2 & I3). unfold newer. destruct (Z.ltb_spec (e_seq a) (e_seq b)).
      * split; [by right|]. split; [done|]. intros x [->|Hx]%elem_of_cons Hv; [lia|by apply I3].
      * split; [left|]. split; [done|]. intros x [->|Hx]%elem_of_cons Hv; [lia|]. specialize (I3 x Hx Hv). lia.
    + split; [left|]. split; [done|]. intros x [->|Hx]%elem_of_cons Hv; [lia|]. by destruct (proj1 (newest_None u s es) Eb x Hx).
  - destruct (IH e E) as (I1 & I2 & I3). split; [by right|]. split; [done|]. intros x [->|Hx]%elem_of_cons Hv; [unfold sees in Hv; lia|by apply I3].
  - destruct (IH e E) as (I1 & I2 & I3). split; [by right|]. split; [done|]. intros x [->|Hx]%elem_of_cons Hv; [by destruct Hv|by apply I3].
Qed.

(** Entries of a user key have different sequence numbers. *)
Definition distinct_seqs (es : list entry) : Prop := forall a b, a ∈ es -> b ∈ es -> e_key a = e_key b -> e_seq a = e_seq b -> a = b.

Lemma newest_eq u s es e : distinct_seqs es -> e ∈ es -> sees u s e -> (forall x, x ∈ es -> sees u s x -> e_seq x <= e_seq e) -> newest u s es = Some e.
Proof.
  intros Hd He Hv Hn. destruct (newest u s es) as [b|] eqn:Eb; [|by destruct (proj1 (newest_None u s es) Eb e He)].
  destruct (newest_Some _ _ _ _ Eb) as (Hb & Hvb & Hnb). f_equal. apply Hd; [done|done|destruct Hv, Hvb; congruence|].
  specialize (Hn b Hb Hvb). specialize (Hnb e He Hv). lia.
Qed.

(** ** The rule *)

Section keep.
Context `{C : Comparator} `{!ComparatorLaws C} `{!ComparatorExact C}.

(** The order of internal keys, for entries with different sequence numbers. *)
Definition entry_before (a b : entry) : Prop :=
  cmp_Compare (e_key a) (e_key b) < 0 \/ (e_key a = e_key b /\ e_seq b < e_seq a).

(** Whether an entry is well formed. *)
Definition key_ok (e : entry) : Prop := seq_ok (e_seq e) /\ type_ok (e_type e).

(** What a compaction asks about the levels below its output: [base] is the answer, which
    it may ask for in the order of the keys. *)
Record base_oracle {P : Type} (is_base : P -> bytes -> res (P * bool)) (base : bytes -> bool) (ready : P -> bytes -> Prop) : Prop := {
  bo_answer c u : ready c u -> exists c', is_base c u = Ok (c', base u) /\ ready c' u;
  bo_later c u u' : cmp_Compare u u' <= 0 -> ready c u -> ready c u'
}.

(** Hidden by a newer entry of the key that every snapshot sees. *)
Definition hidden (smallest : Z) (es : list entry) (x : entry) : Prop :=
  exists y, y ∈ es /\ e_key y = e_key x /\ e_seq x < e_seq y <= smallest.

Context {P : Type} (is_base : P -> bytes -> res (P * bool)) (base : bytes -> bool) (ready : P -> bytes -> Prop).
Context (HO : base_oracle is_base base ready) (smallest : Z) (Hsmall : smallest < kMaxSequenceNumber).

Definition obsolete (es : list entry) (x : entry) : Prop :=
  hidden smallest es x \/ (e_type x = kTypeDeletion /\ e_seq x <= smallest /\ base (e_key x) = true).

(** What is remembered is the last entry. *)
Definition remembers (past : list entry) (ds : DropState) : Prop :=
  match list.last past with
  | None => ds = NewDropState
  | Some y => ds = MkDropState (Some (e_key y)) (e_seq y)
  end.

Lemma entry_before_key a b : entry_before a b -> cmp_Compare (e_key a) (e_key b) <= 0.
Proof. intros [H|[-> _]]; [lia|]. rewrite cmp_refl. lia. Qed.

Lemma sorted_past past x es y : StronglySorted entry_before (past ++ x :: es) -> y ∈ past -> entry_before y x.
Proof.
  intros Hs Hy. apply list_elem_of_split in Hy as (l1 & l2 & ->). rewrite <- app_assoc in Hs. cbn [app] in Hs.
  apply StronglySorted_app in Hs as (_ & _ & Hs). apply StronglySorted_inv in Hs as [_ Hf]. rewrite list.Forall_forall in Hf. apply Hf.
  apply elem_of_app. right. left.
Qed.

Lemma sorted_future past x es y : StronglySorted entry_before (past ++ x :: es) -> y ∈ es -> entry_before x y.
Proof.
  intros Hs Hy. apply StronglySorted_app in Hs as (_ & _ & Hs). apply StronglySorted_inv in Hs as [_ Hf]. rewrite list.Forall_forall in Hf. by apply Hf.
Qed.

(** The sequence number remembered for the key tells whether the entry is hidden. *)
Lemma hidden_remembered past ds x es : StronglySorted entry_before (past ++ x :: es) -> remembers past ds ->
  let first := match current_user_key ds with None => true | Some k => negb (cmp_Compare (e_key x) k =? 0) end in
  (if first then false else last_sequence_for_key ds <=? smallest) = true <-> hidden smallest (past ++ x :: es) x.
Proof.
  intros Hs Hr first. assert (Hpast : hidden smallest (past ++ x :: es) x -> exists y, y ∈ past /\ e_key y = e_key x /\ e_seq x < e_seq y <= smallest).
  { intros (y & Hy & Hk & Hq). exists y. split; [|done]. apply elem_of_app in Hy as [Hy|Hy]; [done|]. apply elem_of_cons in Hy as [->|Hy]; [lia|].
    destruct (sorted_future _ _ _ _ Hs Hy) as [Hlt|[_ Hlt]]; [rewrite Hk, cmp_refl in Hlt; lia|lia]. }
  unfold remembers in Hr. destruct (list.last past) as [z|] eqn:El.
  - apply last_Some in El as [past' ->]. subst ds. cbn [current_user_key last_sequence_for_key] in *.
    assert (Hz : entry_before z x) by (eapply sorted_past; [exact Hs|apply elem_of_app; right; left]).
    unfold first. destruct (Z.eqb_spec (cmp_Compare (e_key x) (e_key z)) 0) as [He|Hne]; cbn [negb].
    + apply cmp_exact in He. rewrite Z.leb_le. split.
      * intros Hle. exists z. split; [apply elem_of_app; left; apply elem_of_app; right; left|]. split; [done|].
        destruct Hz as [Hlt|[_ Hlt]]; [rewrite He, cmp_refl in Hlt; lia|lia].
      * intros (y & Hy & Hk & Hq)%Hpast. apply elem_of_app in Hy as [Hy| ->%list_elem_of_singleton]; [|lia].
        rewrite <- app_assoc in Hs. destruct (sorted_past _ _ _ _ Hs Hy) as [Hlt|[_ Hlt]]; [rewrite Hk, He, cmp_refl in Hlt; lia|lia].
    + split; [done|]. intros (y & Hy & Hk & Hq)%Hpast. exfalso. apply elem_of_app in Hy as [Hy| ->%list_elem_of_singleton]; [|rewrite Hk, cmp_refl in Hne; lia].
      rewrite <- app_assoc in Hs. pose proof (entry_before_key _ _ (sorted_past _ _ _ _ Hs Hy)) as H1. pose proof (entry_before_key _ _ Hz) as H2.
      rewrite Hk in H1. apply cmp_sym_le in H2. lia.
  - apply last_None in El as ->. subst ds. unfold first. cbn. split; [done|]. intros (y & Hy & _)%Hpast. by apply elem_of_nil in Hy.
Qed.

Lemma remembers_next past x : remembers (past ++ [x]) (MkDropState (Some (e_key x)) (e_seq x)).
Proof. unfold remembers. by rewrite last_snoc. Qed.

(** One entry: it is dropped exactly if it is obsolete. *)
Lemma drop_entry_ok past ds x es c : StronglySorted entry_before (past ++ x :: es) -> key_ok x -> remembers past ds -> ready c (e_key x) ->
  exists c' drop, drop_entry is_base smallest c ds (e_ikey x) = Ok (c', MkDropState (Some (e_key x)) (e_seq x), drop) /\
    ready c' (e_key x) /\ (drop = true <-> obsolete (past ++ x :: es) x).
Proof.
  intros Hs [Hsq Hty] Hr Hc. pose proof (hidden_remembered past ds x es Hs Hr) as Hh. cbv zeta in Hh.
  unfold drop_entry, e_ikey. rewrite ParseInternalKey_InternalKey by done. cbn [user_key sequence type]. unfold obsolete.
  set (first := match current_user_key ds with None => true | Some k => negb (cmp_Compare (e_key x) k =? 0) end) in *.
  assert (Hds : (last_sequence_for_key (if first then MkDropState (Some (e_key x)) kMaxSequenceNumber else ds) <=? smallest) =
    (if first then false else (last_sequence_for_key ds <=? smallest))) by (destruct first; cbn; [apply Z.leb_gt; lia|done]).
  rewrite Hds. assert (Hcur : current_user_key (if first then MkDropState (Some (e_key x)) kMaxSequenceNumber else ds) = Some (e_key x)).
  { destruct first eqn:Ef; [done|]. unfold first in Ef. destruct (current_user_key ds) as [k|]; [|done]. f_equal.
    destruct (Z.eqb_spec (cmp_Compare (e_key x) k) 0) as [He|]; [symmetry; by apply cmp_exact|done]. }
  rewrite Hcur. destruct (if first then false else _) eqn:Ea; cbn [res_bind fst snd].
  { exists c, true. split; [done|]. split; [done|]. split; [intros _; left; by apply Hh|done]. }
  assert (Hnh : ~ hidden smallest (past ++ x :: es) x) by (intros H; apply Hh in H; congruence).
  destruct (Z.eqb_spec (e_type x) kTypeDeletion) as [Ht|Ht]; cbn [andb]; [destruct (Z.leb_spec (e_seq x) smallest) as [Hle|Hgt]|]; cbn [res_bind fst snd].
  - destruct (bo_answer _ _ _ HO c (e_key x) Hc) as (c' & -> & Hc'). cbn [res_bind fst snd]. exists c', (base (e_key x)). split; [done|]. split; [done|].
    split; [intros Hb; by right|]. by intros [H|(_ & _ & Hb)].
  - exists c, false. split; [done|]. split; [done|]. split; [done|]. intros [H|(_ & H & _)]; [done|lia].
  - exists c, false. split; [done|]. split; [done|]. split; [done|]. by intros [H|(H & _)].
Qed.

(** A compaction keeps exactly the entries that are not obsolete. *)
Lemma keep_entries_ok es : forall past ds c, StronglySorted entry_before (past ++ es) -> Forall key_ok es -> remembers past ds ->
  match es with [] => True | x :: _ => ready c (e_key x) end ->
  exists kept, keep_entries is_base smallest c ds (map entry_pair es) = Ok (map entry_pair kept) /\ kept `sublist_of` es /\
    forall x, x ∈ es -> (x ∈ kept <-> ~ obsolete (past ++ es) x).
Proof.
  induction es as [|x es IH]; intros past ds c Hs Hok Hr Hc.
  { exists []. split; [done|]. split; [done|]. intros x Hx. by apply elem_of_nil in Hx. }
  apply list.Forall_cons in Hok as [Hx Hok]. destruct (drop_entry_ok past ds x es c Hs Hx Hr Hc) as (c' & drop & Ed & Hc' & Hdrop).
  destruct (IH (past ++ [x]) (MkDropState (Some (e_key x)) (e_seq x)) c') as (kept & Ek & Hsub & Hkept).
  - by rewrite <- app_assoc.
  - done.
  - apply remembers_next.
  - destruct es as [|y es]; [done|]. apply (bo_later _ _ _ HO _ (e_key x)); [|done]. apply entry_before_key. eapply sorted_future; [exact Hs|left].
  - rewrite <- app_assoc in Hkept. cbn [app] in Hkept. cbn [map keep_entries entry_pair]. rewrite Ed. cbn [res_bind]. rewrite Ek. cbn [res_bind].
    assert (Hxn : forall y, y ∈ es -> y <> x).
    { intros y Hy ->. destruct (sorted_future _ _ _ _ Hs Hy) as [H|[_ H]]; [rewrite cmp_refl in H; lia|lia]. }
    exists (if drop then kept else x :: kept). split; [by destruct drop|]. split; [destruct drop; by constructor|].
    assert (Hxk : x ∉ kept) by (intros Hin; apply (Hxn x); [by eapply elem_of_sublist|done]).
    intros y [->|Hy]%elem_of_cons.
    + destruct drop; [split; [done|]; intros Hn; destruct Hn; by apply Hdrop|]. split; [intros _ Ho; by apply Hdrop in Ho|intros _; left].
    + destruct drop; [by apply Hkept|]. rewrite elem_of_cons, (Hkept y Hy). split; [intros [->|H]; [by destruct (Hxn x Hy)|done]|by right].
Qed.

(** Dropping the obsolete entries changes no read at or above [smallest]. *)
Lemma obsolete_unread es kept deeper u s : StronglySorted entry_before es -> kept `sublist_of` es ->
  (forall x, x ∈ es -> (x ∈ kept <-> ~ obsolete es x)) -> distinct_seqs (es ++ deeper) ->
  (forall x y, x ∈ es -> y ∈ deeper -> e_key x = e_key y -> e_seq y < e_seq x) -> (forall y, y ∈ deeper -> base (e_key y) = false) -> smallest <= s ->
  read_entries u s (kept ++ deeper) = read_entries u s (es ++ deeper).
Proof.
  intros Hs Hsub Hk Hd Hold Hb Hle. unfold read_entries. assert (Hin : forall x, x ∈ kept ++ deeper -> x ∈ es ++ deeper).
  { intros x [Hx|Hx]%elem_of_app; apply elem_of_app; [left|by right]. by eapply elem_of_sublist. }
  assert (Hd' : distinct_seqs (kept ++ deeper)) by (intros a b Ha Hb'; by apply Hd; apply Hin).
  destruct (newest u s (es ++ deeper)) as [e|] eqn:Ee.
  2: { assert (En : newest u s (kept ++ deeper) = None); [|by rewrite En]. apply newest_None. intros x Hx. apply (proj1 (newest_None u s _) Ee). by apply Hin. }
  destruct (newest_Some _ _ _ _ Ee) as (He & Hv & Hn). destruct (decide (e ∈ kept ++ deeper)) as [Hke|Hke].
  { rewrite (newest_eq u s (kept ++ deeper) e); [done|done|done|done|]. intros x Hx. by apply Hn, Hin. }
  apply elem_of_app in He as [He|He]; [|destruct Hke; apply elem_of_app; by right].
  assert (Ho : obsolete es e).
  { destruct (decide (e ∈ kept)) as [Hx|Hx]; [destruct Hke; apply elem_of_app; by left|].
    unfold obsolete. destruct (decide (Exists (fun y => e_key y = e_key e /\ e_seq e < e_seq y <= smallest) es)) as [Hex|Hex].
    - left. apply list.Exists_exists in Hex as (y & Hy & H). by exists y.
    - right. destruct (decide (e_type e = kTypeDeletion /\ e_seq e <= smallest /\ base (e_key e) = true)) as [H|H]; [done|]. destruct Hx. apply Hk; [done|].
      intros [(y & Hy & Hyk)|H']; [|done]. apply Hex. apply list.Exists_exists. by exists y. }
  destruct Hv as [Hu Hes]. destruct Ho as [(y & Hy & Hyk & Hyq)|(Ht & Hq & Hbase)].
  { assert (e_seq y <= e_seq e); [|lia]. apply Hn; [apply elem_of_app; by left|]. unfold sees. split; [congruence|lia]. }
  rewrite Ht. replace (kTypeDeletion =? kTypeValue) with false by done.
  assert (En : newest u s (kept ++ deeper) = None); [|by rewrite En]. apply newest_None. intros z Hz [Hzu Hzs].
  apply elem_of_app in Hz as [Hz|Hz]; [|pose proof (Hb z Hz); congruence].
  assert (Hze : z ∈ es) by by eapply elem_of_sublist. assert (Hlt : e_seq z <= e_seq e) by (apply Hn; [apply elem_of_app; by left|done]).
  apply (proj1 (Hk z Hze) Hz). destruct (decide (e_seq z = e_seq e)) as [Heq|Hneq].
  - assert (z = e) as ->; [|by right]. apply Hd; [apply elem_of_app; by left..|congruence|done].
  - left. exists e. split; [done|]. split; [congruence|lia].
Qed.
End keep.

(** *** The levels below the output *)

Section below.
Context `{C : Comparator} `{!ComparatorLaws C} {W : Type} (vs : VersionSet W) (id : Z) (v : Version) (level : nat).
Context (Hv : find_version vs id = Ok v) (Hd : forall l, (0 < l)%nat -> disjoint_files (files_at v l)).
Definition below_levels : list nat := seq (level + 2) (num_levels - (level + 2)).

Definition base_ready (c : Compaction) (u : bytes) : Prop :=
  input_version_ c = Some id /\ c_level_ c = level /\ length (level_ptrs_ c) = num_levels /\
  forall l, l ∈ below_levels -> ptr_ok (files_at v l) u (nth l (level_ptrs_ c) O).

Lemma base_oracle_levels : base_oracle (IsBaseLevelForKey vs) (base_level v below_levels) base_ready.
Proof.
  assert (Hlv : forall l, l ∈ below_levels -> (2 <= l < num_levels)%nat).
  { intros l Hl. apply list_elem_of_In, in_seq in Hl. lia. }
  split.
  - intros c u (Hid & Hl & Hlen & Hp). unfold IsBaseLevelForKey. rewrite Hid, Hv. cbn [res_bind]. rewrite Hl.
    destruct (base_level_loop_ok v u below_levels (level_ptrs_ c)) as (E & L & _ & Hp').
    + intros l Hin. apply Hd. specialize (Hlv l Hin). lia.
    + intros l Hin. rewrite Hlen. by apply Hlv.
    + apply NoDup_ListNoDup, seq_NoDup.
    + done.
    + fold below_levels. destruct (base_level_loop v u (level_ptrs_ c) below_levels) as [ptrs result]. cbn [fst snd] in *. subst result.
      eexists. split; [reflexivity|]. split; [done|]. split; [done|]. split; [cbn; congruence|done].
  - intros c u u' Hle (Hid & Hl & Hlen & Hp). split; [done|]. split; [done|]. split; [done|]. intros l Hin. by apply (ptr_ok_mono _ u), Hp.
Qed.

Lemma base_ready_start c u : input_version_ c = Some id -> c_level_ c = level -> level_ptrs_ c = replicate num_levels O -> base_ready c u.
Proof.
  intros Hid Hl Hptrs. split; [done|]. split; [done|]. rewrite Hptrs, length_replicate. split; [done|]. intros l Hin i f Hi.
  apply list_elem_of_In, in_seq in Hin. rewrite nth_lookup, lookup_replicate_2 in Hi by lia. cbn in Hi. lia.
Qed.
End below.

(** ** The theorem *)

Lemma newest_app u s l1 l2 : newest u s (l1 ++ l2) =
  match newest u s l1, newest u s l2 with
  | Some a, Some b => Some (newer a b)
  | None, r => r
  | r, None => r
  end.
Proof.
  induction l1 as [|e l1 IH]; cbn [app newest]; [by destruct (newest u s l2)|]. destruct (_ && _); [|done]. rewrite IH.
  destruct (newest u s l1) as [a|], (newest u s l2) as [b|]; try done. f_equal. unfold newer.
  destruct (Z.ltb_spec (e_seq a) (e_seq b)), (Z.ltb_spec (e_seq e) (e_seq a)); repeat (match goal with |- context [?x <? ?y] => destruct (Z.ltb_spec x y) end); done || lia.
Qed.

(** Newer entries above hide what changes below. *)
Lemma read_above u s above l1 l2 : read_entries u s l1 = read_entries u s l2 ->
  (forall x y, x ∈ above -> y ∈ l1 ++ l2 -> e_key x = e_key y -> e_seq y < e_seq x) ->
  read_entries u s (above ++ l1) = read_entries u s (above ++ l2).
Proof.
  intros Hr Ha. unfold read_entries in *. rewrite !newest_app. destruct (newest u s above) as [a|] eqn:Ea; [|by destruct (newest u s l1), (newest u s l2)].
  destruct (newest_Some _ _ _ _ Ea) as (Hin & [Hk _] & _).
  assert (Hb : forall l b, l = l1 \/ l = l2 -> newest u s l = Some b -> newer a b = a).
  { intros l b Hl Eb. destruct (newest_Some _ _ _ _ Eb) as (Hb & [Hkb _] & _). assert (e_seq b < e_seq a).
    { apply Ha; [done| |congruence]. apply elem_of_app. destruct Hl as [->| ->]; [by left|by right]. }
    unfold newer. destruct (Z.ltb_spec (e_seq a) (e_seq b)); [lia|done]. }
  destruct (newest u s l1) as [b1|] eqn:E1, (newest u s l2) as [b2|] eqn:E2; rewrite ?(Hb l1 b1), ?(Hb l2 b2) by auto; done.
Qed.

(** C12. Compactions lose nothing a reader can see.  Merging the inputs of a compaction and
    dropping what [DoCompactionWork] drops, with [IsBaseLevelForKey] asked of the files
    below the output, keeps the value, or the absence, that a read of any user key finds at
    any snapshot from the oldest in use on, whatever newer entries lie above and whatever
    the levels below hold. *)
Theorem compaction_keeps_reads `{C : Comparator} `{!ComparatorLaws C} `{!ComparatorExact C} {W : Type} (vs : VersionSet W) (c : Compaction)
    (id : Z) (v : Version) (entries_of : FileMetaData -> list entry) (above es : list entry) (smallest : Z) :
  input_version_ c = Some id -> find_version vs id = Ok v -> level_ptrs_ c = replicate num_levels O ->
  (forall level, (0 < level)%nat -> disjoint_files (files_at v level)) ->
  let below := flat_map (fun level => flat_map entries_of (files_at v level)) (below_levels (c_level_ c)) in
  (forall level f x, f ∈ files_at v level -> x ∈ entries_of f -> has_key (e_key x) f = true) ->
  StronglySorted entry_before es -> Forall key_ok es -> distinct_seqs (es ++ below) ->
  (forall x y, x ∈ es -> y ∈ below -> e_key x = e_key y -> e_seq y < e_seq x) ->
  (forall x y, x ∈ above -> y ∈ es ++ below -> e_key x = e_key y -> e_seq y < e_seq x) -> smallest < kMaxSequenceNumber ->
  exists kept, keep_entries (IsBaseLevelForKey vs) smallest c NewDropState (map entry_pair es) = Ok (map entry_pair kept) /\
    kept `sublist_of` es /\
    forall u s, smallest <= s -> read_entries u s (above ++ kept ++ below) = read_entries u s (above ++ es ++ below).
Proof.
  intros Hid Hv Hptrs Hd below Hrange Hs Hok Hdist Hold Habove Hsmall.
  pose proof (base_oracle_levels vs id v (c_level_ c) Hv Hd) as HO.
  destruct (keep_entries_ok (IsBaseLevelForKey vs) _ _ HO smallest Hsmall es [] NewDropState c) as (kept & Ek & Hsub & Hkept); [done|done|done| |].
  { destruct es as [|x es]; [done|]. by apply base_ready_start. }
  exists kept. split; [exact Ek|]. split; [done|]. intros u s Hle. apply read_above.
  - apply (obsolete_unread (base_level v (below_levels (c_level_ c))) smallest); try done. intros y Hy. apply not_true_is_false. intros Hb. unfold base_level in Hb. rewrite forallb_forall in Hb.
    apply list_elem_of_In, in_flat_map in Hy as (l & Hl & Hy). apply in_flat_map in Hy as (f & Hf & Hy). specialize (Hb l Hl).
    apply negb_true_iff in Hb. assert (Ht : existsb (has_key (e_key y)) (files_at v l) = true); [|congruence].
    apply existsb_exists. exists f. split; [done|]. by apply (Hrange l); apply list_elem_of_In.
  - intros x y Hx Hy. apply Habove; [done|]. apply elem_of_app in Hy as [Hy|Hy]; [|done].
    apply elem_of_app in Hy as [Hy|Hy]; apply elem_of_app; [left|by right]. by eapply elem_of_sublist.
Qed.

(** *** An example: level 0 into level 1, with an older value of "e" below *)

Definition keep_example : list entry :=
  [MkEntry 9 kTypeDeletion (str "a") []; MkEntry 3 kTypeValue (str "a") (str "1"); MkEntry 12 kTypeValue (str "e") (str "4");
   MkEntry 8 kTypeDeletion (str "e") []; MkEntry 7 kTypeValue (str "e") (str "3")].

Definition keep_below (f : FileMetaData) : list entry := if number f =? 2 then [MkEntry 1 kTypeValue (str "e") (str "2")] else [].

Lemma compaction_keeps_reads_witness :
  keep_entries (C := BytewiseComparator) (IsBaseLevelForKey (C := BytewiseComparator) base_set) 10 (set_input_version (NewCompaction 2097152 0) (Some 1)) NewDropState
    (map entry_pair keep_example) = Ok (map entry_pair [MkEntry 12 kTypeValue (str "e") (str "4"); MkEntry 8 kTypeDeletion (str "e") []]) /\
  exists kept, keep_entries (C := BytewiseComparator) (IsBaseLevelForKey (C := BytewiseComparator) base_set) 10 (set_input_version (NewCompaction 2097152 0) (Some 1)) NewDropState
    (map entry_pair keep_example) = Ok (map entry_pair kept) /\
    read_entries (str "e") 11 ([] ++ kept ++ [MkEntry 1 kTypeValue (str "e") (str "2")]) = None.
Proof.
  split; [vm_compute; reflexivity|].
  destruct (compaction_keeps_reads (C := BytewiseComparator) base_set (set_input_version (NewCompaction 2097152 0) (Some 1)) 1 base_version keep_below [] keep_example 10)
    as (kept & E & _ & Hr).
  - reflexivity.
  - reflexivity.
  - reflexivity.
  - exact base_disjoint.
  - intros level f x Hf Hx. unfold keep_below in Hx. destruct level as [|[|[|[|level]]]]; cbn in Hf.
    + by apply elem_of_nil in Hf.
    + by apply elem_of_nil in Hf.
    + rewrite !elem_of_cons, elem_of_nil in Hf. destruct Hf as [->|[->|[]]]; by apply elem_of_nil in Hx.
    + rewrite !elem_of_cons, elem_of_nil in Hf. destruct Hf as [->|[]]. apply list_elem_of_singleton in Hx as ->. by vm_compute.
    + do 3 (destruct level as [|level]; [by apply elem_of_nil in Hf|]). destruct level; by apply elem_of_nil in Hf.
  - repeat (constructor; [|apply list.Forall_forall; intros y Hy; rewrite ?elem_of_cons, ?elem_of_nil in Hy; unfold entry_before;
      repeat (destruct Hy as [->|Hy]; [first [by left|by right]|]); done]). constructor.
  - repeat (constructor; [split; [by vm_compute|first [by left|by right]]|]). constructor.
  - intros a b Ha Hb Hk Hq. change (a ∈ keep_example ++ [MkEntry 1 kTypeValue (str "e") (str "2")]) in Ha. change (b ∈ keep_example ++ [MkEntry 1 kTypeValue (str "e") (str "2")]) in Hb. unfold keep_example in *. cbn [app] in *. rewrite !elem_of_cons, elem_of_nil in Ha, Hb.
    repeat (destruct Ha as [->|Ha]; [repeat (destruct Hb as [->|Hb]; [done|]); done|]); done.
  - intros x y Hx Hy Hk. apply list_elem_of_singleton in Hy as ->.
    unfold keep_example in Hx. rewrite !elem_of_cons in Hx. repeat (destruct Hx as [->|Hx]; [done|]). by apply elem_of_nil in Hx.
  - intros x y Hx. by apply elem_of_nil in Hx.
  - by vm_compute.
  - exists kept. split; [exact E|]. etransitivity; [apply (Hr (str "e") 11); done|by vm_compute].
Defined.
