(* ===== verification/DbBackground.v ===== *)
(** * What the background thread leaves alone

    The background work of [DbCompact] against the transition system of writers: it leaves
    the queue, the memtable that is written to and the log as they are, it ends with a
    signal, and it schedules the next compaction if one is needed. *)
From stdpp Require Import gmap.
From S2P Require Import Prelude Coding Comparator Status Logging DbFormat LogWriter WriteBatch Snapshot SkipList MemTable Cursor MemIter Block Merger TwoLevel FilterBlock Format TableBuilder VersionEdit FileSearch Version VersionBuilder VersionSet Compaction VersionIter Filename Manifest DbState DbFiles DbRead DbWrite DbQueue DbCommit DbProgress DbCompact.

(** ** The relations *)

(** Only files, versions and bookkeeping of compactions change. *)
Definition apart_from_files {W} (d d' : DBImpl W) : Prop :=
  same_queue d d' /\ db_mem_ d' = db_mem_ d /\ db_imm_ d' = db_imm_ d /\ memtables_ d' = memtables_ d /\ next_mem_ d' = next_mem_ d /\
  db_log_ d' = db_log_ d /\ shutting_down_ d' = shutting_down_ d /\ db_signals_ d <= db_signals_ d'.

(** The memtable being compacted may go too. *)
Definition apart_from_imm {W} (d d' : DBImpl W) : Prop :=
  same_queue d d' /\ db_mem_ d' = db_mem_ d /\ (db_imm_ d' = db_imm_ d \/ db_imm_ d' = None) /\
  (forall id, db_mem_ d = Some id -> db_imm_ d <> Some id -> memtables_ d' !! id = memtables_ d !! id) /\ next_mem_ d' = next_mem_ d /\
  db_log_ d' = db_log_ d /\ shutting_down_ d' = shutting_down_ d /\ db_signals_ d <= db_signals_ d'.

#[export] Instance apart_from_files_preorder {W} : PreOrder (apart_from_files (W := W)).
Proof.
  split; [intros d; split_and!; done|]. intros d1 d2 d3 (A1 & A2 & A3 & A4 & A5 & A6 & A7 & A8) (B1 & B2 & B3 & B4 & B5 & B6 & B7 & B8).
  split; [by etransitivity|]. split_and!; congruence || lia.
Qed.

#[export] Instance apart_from_imm_preorder {W} : PreOrder (apart_from_imm (W := W)).
Proof.
  split; [intros d; split_and!; try done; by left|]. intros d1 d2 d3 (A1 & A2 & A3 & A4 & A5 & A6 & A7 & A8) (B1 & B2 & B3 & B4 & B5 & B6 & B7 & B8).
  split; [by etransitivity|]. split; [congruence|]. split; [destruct A3, B3; [left|right..]; congruence|]. split; [|split_and!; congruence || lia].
  intros id Hm Hi. rewrite B4, A4; [done..|congruence|]. destruct A3 as [->| ->]; done.
Qed.

Lemma apart_weaken {W} (d d' : DBImpl W) : apart_from_files d d' -> apart_from_imm d d'.
Proof. intros (A1 & A2 & A3 & A4 & A5 & A6 & A7 & A8). split_and!; try done; [apply A1..|by left|]. intros id _ _. by rewrite A4. Qed.

Lemma preserves_weaken {FS T W A} (R R' : relation (DBImpl W)) (m : Prog FS T W A) :
  (forall d d', R d d' -> R' d d') -> preserves R m -> preserves R' m.
Proof. intros H Hm w a w' E. by apply H, (Hm w a w'). Qed.

Section background.
Context `{C : Comparator} `{DE : DbEnv} {T : Type} `{TE : !TableEvict T} `{Sn : Snappy}.
Context {I : Type} `{TF : !TableFiles (FS * T) I (It := It)}.
Implicit Type d : DBImpl WFile.
Abbreviation keeps m := (preserves apart_from_files m).

(** ** Version sets *)

Lemma LogAndApply_sequence (w : FS) (vs : VersionSet WFile) dbname edit r : LogAndApply w vs dbname edit = Ok r ->
  vs_last_sequence_ r.1.1.2 = vs_last_sequence_ vs.
Proof.
  unfold LogAndApply. intros E1. destruct (build_version vs _) as [[v pointers]| |]; [|done..]. cbn [res_bind] in E1.
  destruct (open_descriptor _ _ _) as [[[[w1 d] nm] s1]| |]; [|done..]. cbn [res_bind] in E1.
  destruct (write_edit _ _ _ _ _ _ _) as [[[w2 d2] s2]| |]; [|done..]. cbn [res_bind] in E1.
  destruct (Status_ok s2); [injection E1 as <-; cbn; by destruct (current_ vs)|]. destruct nm; by injection E1 as <-.
Qed.

Lemma SetupOtherInputs_sequence (vs : VersionSet WFile) n c r : SetupOtherInputs vs n c = Ok r -> vs_last_sequence_ r.1 = vs_last_sequence_ vs.
Proof.
  unfold SetupOtherInputs. intros E1.
  repeat first [ match type of E1 with res_bind ?x _ = _ => destruct x as [?| |]; [|done..]; cbn [res_bind] in E1 end
               | match type of E1 with (let '(_, _) := ?x in _) = _ => destruct x end
               | match type of E1 with (match ?x with _ => _ end) = _ => destruct x end ]; try done; by injection E1 as <-.
Qed.

Lemma PickCompaction_sequence (vs : VersionSet WFile) n r : PickCompaction vs n = Ok r -> vs_last_sequence_ r.1 = vs_last_sequence_ vs.
Proof.
  unfold PickCompaction, hold_current. intros E1. destruct (current vs) as [v| |]; [|done..]. cbn [res_bind] in E1.
  match type of E1 with res_bind ?x _ = _ => destruct x as [[c|]| |]; [|by injection E1 as <-|done..] end. cbn [res_bind] in E1.
  match type of E1 with res_bind ?x _ = _ => destruct x as [c'| |]; [|done..] end. cbn [res_bind] in E1.
  destruct (SetupOtherInputs _ n c') as [r'| |] eqn:Es; [|done..]. injection E1 as <-. apply SetupOtherInputs_sequence in Es. cbn. rewrite Es. by destruct (current_ vs).
Qed.

Lemma CompactRange_sequence (vs : VersionSet WFile) n level b e r : Compaction.CompactRange vs n level b e = Ok r -> vs_last_sequence_ r.1 = vs_last_sequence_ vs.
Proof.
  unfold Compaction.CompactRange, hold_current. intros E1. destruct (current vs) as [v| |]; [|done..]. cbn [res_bind] in E1.
  destruct (GetOverlappingInputs _ _ _ _) as [[|f l]| |]; cbn [res_bind] in E1; [by injection E1 as <-| |done..].
  match type of E1 with context [SetupOtherInputs ?a ?b ?c] => destruct (SetupOtherInputs a b c) as [r'| |] eqn:Es; [|done..] end.
  injection E1 as <-. apply SetupOtherInputs_sequence in Es. cbn. rewrite Es. by destruct (current_ vs).
Qed.

(** ** The parts *)

Lemma files_set f : (forall d, apart_from_files d (f d)) -> keeps (p_set (FS := FS) (T := T) f).
Proof. apply preserves_set. Qed.

Lemma keeps_version_set f : (forall vs : VersionSet WFile, vs_last_sequence_ (f vs) = vs_last_sequence_ vs) ->
  keeps (p_set (FS := FS) (T := T) (fun d => set_version_set d (f (db_versions_ d)))).
Proof. intros Hf. apply preserves_set. intros d. unfold apart_from_files, same_queue. split_and!; try done. apply Hf. Qed.

Lemma keeps_add_stats level c : keeps (add_stats (T := T) level c).
Proof. apply preserves_set. intros d. by split_and!. Qed.

Lemma keeps_new_file : keeps (p_update (FS := FS) (T := T) (W := WFile)
  (fun d => let r := NewFileNumber (db_versions_ d) in Ok (set_pending (set_version_set d r.2) ({[r.1]} ∪ pending_outputs_ d), r.1))).
Proof. apply preserves_update. intros d d' a [= <- <-]. by split_and!. Qed.

Lemma keeps_new_builder o f : keeps (new_builder (T := T) o f).
Proof. by intros w a w' [= <- <-]. Qed.

Lemma keeps_log_and_apply edit : keeps (log_and_apply (T := T) edit).
Proof.
  intros w a w' E1. unfold log_and_apply in E1. destruct (LogAndApply _ _ _ _) as [[[[fs vs] e] s]| |] eqn:El; [|done..]. injection E1 as <- <-.
  apply LogAndApply_sequence in El. unfold apart_from_files, same_queue. by split_and!.
Qed.

Lemma keeps_RemoveObsoleteFiles : keeps (RemoveObsoleteFiles (T := T)).
Proof.
  intros w a w' E1. unfold RemoveObsoleteFiles in E1. destruct (negb _); [by injection E1 as <- <-|]. destruct (obsolete_files _ _ _). by injection E1 as <- <-.
Qed.

Lemma keeps_record_error s : keeps (record_error (T := T) s).
Proof. apply preserves_set. intros d. unfold RecordBackgroundError. destruct (Status_ok _); [|done]. unfold apart_from_files, same_queue. split_and!; try done. cbn. lia. Qed.

#[local] Hint Resolve keeps_add_stats keeps_new_file keeps_new_builder keeps_log_and_apply keeps_RemoveObsoleteFiles keeps_record_error : frames.

Lemma keeps_BuildTable {J} `{Iterator J} fuel dbname o (iter : J) meta : keeps (BuildTable (T := T) fuel dbname o iter meta).
Proof. unfold BuildTable, fill_table, with_builder, close_file, verify_table. cbv zeta. frame. Qed.
#[local] Hint Resolve keeps_BuildTable : frames.

Lemma keeps_WriteLevel0Table mem edit base : keeps (WriteLevel0Table (T := T) mem edit base).
Proof. unfold WriteLevel0Table. cbv zeta. frame. Qed.
#[local] Hint Resolve keeps_WriteLevel0Table : frames.

(** When a memtable has been written out it is given up. *)
Lemma CompactMemTable_apart : preserves apart_from_imm (CompactMemTable (T := T)).
Proof.
  intros w a w' E1. unfold CompactMemTable in E1. unfold p_bind at 1, p_read at 1 in E1. destruct (db_imm_ (wo_db w)) as [imm|] eqn:Ei; [|done].
  cbn [res_bind fst snd] in E1.
  assert (Hpre : forall A (m : Prog FS T WFile A) (k : A -> Prog FS T WFile ()), keeps m ->
    (forall x w1, apart_from_files (wo_db w) (wo_db w1) -> k x w1 = Ok (a, w') -> apart_from_imm (wo_db w) (wo_db w')) ->
    forall w0, apart_from_files (wo_db w) (wo_db w0) -> p_bind m k w0 = Ok (a, w') -> apart_from_imm (wo_db w) (wo_db w')).
  { intros A m k Hm Hk w0 H0 E2. unfold p_bind in E2. destruct (m w0) as [[x w1]| |] eqn:Em; [|done..]. cbn in E2. eapply Hk; [|exact E2].
    etransitivity; [exact H0|by apply (Hm w0 x w1)]. }
  revert E1. eapply Hpre; [apply preserves_read, _| |reflexivity]. intros base w1 H1. cbv beta. revert w1 H1.
  intros w1 H1. eapply Hpre; [by apply (keeps_version_set (fun vs => Version_Ref vs base))| |exact H1]. clear w1 H1. intros _ w1 H1. cbv beta.
  eapply Hpre; [eauto with frames| |exact H1]. clear w1 H1. intros [edit s] w1 H1. cbv beta.
  eapply Hpre; [by apply (keeps_version_set (fun vs => Version_Unref vs base))| |exact H1]. clear w1 H1. intros _ w1 H1. cbv beta.
  eapply Hpre; [apply preserves_get, _| |exact H1]. clear w1 H1. intros shutting w1 H1. cbv beta zeta.
  eapply Hpre; [frame| |exact H1]. clear w1 H1. intros s2 w1 H1. cbv beta. destruct (Status_ok s2).
  - intros E1. unfold p_bind at 1, p_update at 1 in E1. unfold mem_Unref in E1. destruct (find_mem (wo_db w1) imm) as [m| |]; [|done..].
    cbn [res_bind fst snd] in E1. unfold p_bind, p_set in E1. cbn [res_bind fst snd wo_db wo_fs wo_tables] in E1. apply keeps_RemoveObsoleteFiles in E1. cbn [wo_db] in E1.
    destruct H1 as (A1 & A2 & A3 & A4 & A5 & A6 & A7 & A8). transitivity (set_imm (match Unref m with
      | Some m => put_mem (wo_db w1) imm m | None => set_memtables (wo_db w1) (delete imm (memtables_ (wo_db w1))) (next_mem_ (wo_db w1)) end) None).
    + split_and!; try (by destruct (Unref m)); try by (destruct A1 as (B1 & B2 & B3 & B4); destruct (Unref m)).
      * right. done.
      * intros id Hm Hne. rewrite Ei in Hne. destruct (Unref m); cbn; rewrite ?lookup_insert_ne, ?lookup_delete_ne by congruence; by rewrite A4.
    + by apply apart_weaken.
  - intros E1. apply keeps_record_error in E1. apply apart_weaken. by etransitivity.
Qed.

(** ** Compacting tables *)

Abbreviation CompactionState := (CompactionState (FS * WFile) WFile).
Implicit Type cs : CompactionState.

Lemma keeps_OpenCompactionOutputFile cs : keeps (OpenCompactionOutputFile (T := T) cs).
Proof. unfold OpenCompactionOutputFile. cbv zeta. frame. Qed.
#[local] Hint Resolve keeps_OpenCompactionOutputFile : frames.

Lemma keeps_FinishCompactionOutputFile cs s : keeps (FinishCompactionOutputFile (T := T) cs s).
Proof. unfold FinishCompactionOutputFile, with_builder, close_file, verify_table. cbv zeta. frame. Qed.
#[local] Hint Resolve keeps_FinishCompactionOutputFile : frames.

Lemma keeps_InstallCompactionResults cs : keeps (InstallCompactionResults (T := T) cs).
Proof. unfold InstallCompactionResults. cbv zeta. frame. Qed.
#[local] Hint Resolve keeps_InstallCompactionResults : frames.

Lemma keeps_add_output cs key value : keeps (add_output (T := T) cs key value).
Proof. unfold add_output, with_builder. cbv zeta. frame. Qed.
#[local] Hint Resolve keeps_add_output : frames.

Lemma keeps_compact_entry n key value s ds cs : keeps (compact_entry (T := T) n key value s ds cs).
Proof. unfold compact_entry. frame. Qed.

Lemma keeps_compact_end s cs st : keeps (compact_end (T := T) s cs st).
Proof. unfold compact_end. cbv zeta. frame. Qed.

Lemma apart_keeps {A} (m : Prog FS T WFile A) : keeps m -> preserves apart_from_imm m.
Proof. apply preserves_weaken, apart_weaken. Qed.

Lemma SignalAll_keeps : keeps (p_set (FS := FS) (T := T) (W := WFile) SignalAll).
Proof. apply preserves_set. intros d. unfold apart_from_files, same_queue. split_and!; try done. cbn. lia. Qed.

Lemma keeps_cleanup cs : keeps (CleanupCompaction (T := T) cs).
Proof. unfold CleanupCompaction. frame. Qed.

Lemma keeps_release c : keeps (release_inputs (T := T) c).
Proof. unfold release_inputs. apply (keeps_version_set (fun vs => (ReleaseInputs vs c).1)). intros vs. unfold ReleaseInputs. by destruct (input_version_ c). Qed.

Lemma keeps_choose : keeps (choose_compaction (T := T)).
Proof.
  unfold choose_compaction. frame; apply preserves_update; intros d d' x E1.
  - destruct (Compaction.CompactRange _ _ _ _ _) as [r| |] eqn:Er; [|done..]. injection E1 as <- <-. apply CompactRange_sequence in Er. unfold apart_from_files, same_queue. by split_and!.
  - destruct (PickCompaction _ _) as [r| |] eqn:Er; [|done..]. injection E1 as <- <-. apply PickCompaction_sequence in Er. unfold apart_from_files, same_queue. by split_and!.
Qed.

Lemma keeps_trivial_move c : keeps (trivial_move (T := T) c).
Proof. unfold trivial_move. destruct (inputs_0 c); cbv zeta; frame. Qed.

Lemma keeps_finish_manual id e s : keeps (finish_manual (T := T) id e s).
Proof. unfold finish_manual. cbv zeta. frame. Qed.

#[local] Hint Resolve CompactMemTable_apart : frames.
#[local] Hint Extern 5 (preserves apart_from_imm _) =>
  apply apart_keeps; solve [eauto using keeps_compact_entry, keeps_compact_end, SignalAll_keeps, keeps_cleanup, keeps_release, keeps_choose,
    keeps_trivial_move, keeps_finish_manual with frames] : frames.

Section work.
Context (fuel : nat) (meanwhile : nat -> Prog FS T WFile ()) (Hmeanwhile : forall n, preserves apart_from_imm (meanwhile n)).

Lemma apart_prioritize : preserves apart_from_imm (prioritize_imm (T := T)).
Proof. unfold prioritize_imm. frame. Qed.
#[local] Hint Resolve apart_prioritize Hmeanwhile : frames.

Lemma apart_compact_loop rounds : forall n it m input ds cs t, preserves apart_from_imm (compact_loop (TF := TF) meanwhile rounds n it m input ds cs t).
Proof. induction rounds as [|rounds IH]; intros n it m input ds cs t; cbn [compact_loop]; cbv zeta; frame. Qed.
#[local] Hint Resolve apart_compact_loop : frames.

Lemma apart_DoCompactionWork rounds cs : preserves apart_from_imm (DoCompactionWork (TF := TF) fuel meanwhile rounds cs).
Proof. unfold DoCompactionWork. cbv zeta. frame. Qed.
#[local] Hint Resolve apart_DoCompactionWork : frames.

Lemma apart_run_compaction rounds c b : preserves apart_from_imm (run_compaction (TF := TF) fuel meanwhile rounds c b).
Proof. unfold run_compaction. frame. Qed.
#[local] Hint Resolve apart_run_compaction : frames.

Lemma apart_BackgroundCompaction rounds : preserves apart_from_imm (BackgroundCompaction (TF := TF) fuel meanwhile rounds).
Proof. unfold BackgroundCompaction. frame. Qed.
End work.

Lemma BackgroundCall_end rounds fuel meanwhile (w w' : World FS T WFile) : (forall n, preserves apart_from_imm (meanwhile n)) ->
  BackgroundCall (TF := TF) fuel meanwhile rounds w = Ok (tt, w') ->
  exists (w1 : World FS T WFile) b, apart_from_imm (wo_db w) (wo_db w1) /\ MaybeScheduleCompaction (set_scheduled (wo_db w1) false) = Ok b /\ wo_db w' = SignalAll b.
Proof.
  intros Hm. unfold BackgroundCall. unfold p_bind at 1, p_get at 1. cbn [res_bind fst snd]. unfold p_bind at 1, p_get at 1. cbn [res_bind fst snd].
  unfold p_bind at 1. intros E1. match type of E1 with res_bind (?m w) _ = _ => assert (Hp : preserves apart_from_imm m) end.
  { pose proof (apart_BackgroundCompaction fuel meanwhile Hm rounds). frame. }
  match type of E1 with res_bind ?x _ = _ => destruct x as [[u w1]| |] eqn:E2; [|done..] end. apply Hp in E2. cbn [res_bind fst snd] in E1.
  unfold p_bind, p_set, p_update in E1. cbn [res_bind fst snd wo_db wo_fs wo_tables] in E1.
  destruct (MaybeScheduleCompaction _) as [b| |] eqn:Eb; [|done..]. injection E1 as <-. by exists w1, b.
Qed.
End background.

Lemma schedule_result {W} (d b : DBImpl W) : MaybeScheduleCompaction d = Ok b -> exists s, b = set_scheduled d s /\
  (shutting_down_ d = false -> Status_ok (bg_error_ d) = true -> db_imm_ d <> None \/ NeedsCompaction (db_versions_ d) = Ok true -> s = true).
Proof.
  unfold MaybeScheduleCompaction. assert (Hid : forall s, background_compaction_scheduled_ d = s -> d = set_scheduled d s) by (intros s <-; by destruct d).
  destruct (background_compaction_scheduled_ d) eqn:Es; [intros [= <-]; exists true; split; [by apply Hid|done]|].
  destruct (shutting_down_ d); [intros [= <-]; exists false; split; [by apply Hid|done]|].
  destruct (Status_ok (bg_error_ d)); cbn [negb]; [|intros [= <-]; exists false; split; [by apply Hid|done]].
  destruct (NeedsCompaction _) as [needs| |]; [|done..]. cbn [res_bind]. destruct (_ && _ && _) eqn:Ec; intros [= <-]; [|by exists true].
  exists false. split; [by apply Hid|]. intros _ _ [Hi|[= ->]]; [|by rewrite andb_false_r in Ec].
  apply andb_prop in Ec as [[Hc _]%andb_prop _]. by apply bool_decide_eq_true in Hc.
Qed.


(** *** An example: a memtable is written out *)

Module Flush.
(** The memtable of [commit_world] with one entry waits to be compacted. *)
Definition full_mem : MemTable := default NewMemTable (MemTable_Add (Ref NewMemTable) 1 kTypeValue (str "a") (str "1")).

Definition world : World (bytes -> option bytes) unit bytes :=
  let d := wo_db commit_world in
  let d := set_scheduled (put_mem (put_mem d 1 (Ref NewMemTable)) 0 full_mem) true in
  MkWorld (wo_fs commit_world) tt (set_imm d (Some 0)).
End Flush.

Section flush.
#[local] Existing Instances mem_db_env evict_nothing no_snappy no_tables.

Abbreviation flush_call := (BackgroundCall (C := BytewiseComparator) (DE := mem_db_env) 10 (fun _ => p_ret tt) 10 Flush.world).

Lemma flush_runs : exists w', flush_call = Ok (tt, w') /\ db_imm_ (wo_db w') = None /\ NumLevelFiles (db_versions_ (wo_db w')) 2 = Ok 1.
Proof.
  assert (Hs : match flush_call with
    | Ok (_, w') => db_imm_ (wo_db w') = None /\ NumLevelFiles (db_versions_ (wo_db w')) 2 = Ok 1
    | _ => False end) by (vm_compute; by split).
  destruct flush_call as [[[] w']| |]; [|done..]. by exists w'.
Qed.

End flush.
