(* ===== verification/DbOpen.v ===== *)
(** * Opening and closing a database

    [DB::Open], [DBImpl::Recover], [DBImpl::RecoverLogFile], [DBImpl::NewDB] and the
    destructor, of [cpp/leveldb/db/db_impl.cc].  The lock of the database, [db_lock_], is
    handed from [Recover] to the destructor. *)
From stdpp Require Import gmap sorting.
From S2P Require Import Prelude Coding Comparator Status Logging DbFormat LogWriter LogReader WriteBatch Snapshot SkipList MemTable Cursor MemIter Block Merger TwoLevel FilterBlock Format TableBuilder VersionEdit FileSearch Version VersionBuilder VersionSet Compaction VersionIter Filename Manifest DbState DbFiles DbRead DbWrite DbCompact.

(** ** A new database *)

Definition new_db_edit `{C : Comparator} : VersionEdit :=
  SetLastSequence (SetNextFile (SetLogNumber (SetComparatorName NewVersionEdit cmp_Name) 0) 2) 0.

Section open.
Context `{C : Comparator} `{DE : DbEnv} {T : Type} `{TE : !TableEvict T} `{Sn : Snappy}.
Context {I : Type} `{TF : !TableFiles (FS * T) I (It := It)}.
Context (char_is_signed : bool) (fuel : nat).
Abbreviation Prog := (Prog FS T WFile).

Definition NewDB : Prog Status :=
  let! dbname := p_get dbname_ in
  let manifest := DescriptorFileName dbname 1 in
  p_fs_res (fun w =>
    match env_NewWritableFile w manifest with
    | (w, inr s) => Ok (w, s)
    | (w, inl f) =>
        let? r := log_record w (f, 0) (VersionEdit_EncodeTo new_db_edit []) in
        let '(w, _, s) := r in
        let '(w, s) := if Status_ok s then wfile_Close w f else (w, s) in
        let w := wfile_delete w f in
        if Status_ok s then Ok (SetCurrentFile w dbname 1) else Ok ((env_RemoveFile w manifest).1, s)
    end).

(** ** Replaying a log *)

(** The variables of [RecoverLogFile]; [mem] is the memtable being filled. *)
Record Replay := MkReplay {
  rp_mem : option Z;
  rp_edit : VersionEdit;
  rp_compactions : Z;
  rp_save_manifest : bool;
  rp_max_sequence : Z
}.

Definition set_rp_mem (r : Replay) (m : option Z) : Replay :=
  MkReplay m (rp_edit r) (rp_compactions r) (rp_save_manifest r) (rp_max_sequence r).

Definition mem_usage (d : DBImpl WFile) (id : Z) : res Z := let? m := find_mem d id in Ok (ApproximateMemoryUsage m).

Definition unref_mem (id : Z) : Prog () := p_update (fun d => let? d := mem_Unref d id in Ok (d, tt)).

(** The memtable, made if there is none, and the status of inserting the batch into it. *)
Definition replay_insert (batch : bytes) (mem : option Z) : Prog (Z * Status) :=
  let! id := match mem with
             | Some id => p_ret id
             | None => p_update (fun d => Ok (new_mem d))
             end in
  p_update (fun d =>
    let? m := find_mem d id in
    match InsertInto batch (Some m) with
    | Some (Some m, s) => Ok (put_mem d id m, (id, s))
    | _ => Undefined
    end).

(** The body of the loop for a record that is not too small: the status, and whether the
    loop goes on. *)
Definition replay_record (record : bytes) (r : Replay) : Prog (Replay * Status) :=
  let batch := SetContents record in
  let! p := replay_insert batch (rp_mem r) in
  let '(id, s) := p in
  let r := set_rp_mem r (Some id) in
  let! s := p_get (fun d => MaybeIgnoreError d s) in
  if negb (Status_ok s) then p_ret (r, s)
  else
    let last_seq := u64 (u64 (Sequence batch + Count batch) - 1) in
    let max_sequence := if last_seq >? rp_max_sequence r then last_seq else rp_max_sequence r in
    let r := MkReplay (Some id) (rp_edit r) (rp_compactions r) (rp_save_manifest r) max_sequence in
    let! usage := p_read (fun d => mem_usage d id) in
    let! buffer := p_get (fun d => write_buffer_size (db_options_ d)) in
    if usage >? buffer then
      let! p := WriteLevel0Table id (rp_edit r) None in
      let! _ := unref_mem id in
      p_ret (MkReplay None p.1 (rp_compactions r + 1) true max_sequence, p.2)
    else p_ret (r, s).

Fixpoint replay_loop (rounds : nat) (reader : Reader SFile) (paranoid : bool) (r : Replay) (s : Status) : Prog (Replay * Status) :=
  match rounds with
  | O => p_lift OutOfFuel
  | S rounds =>
      match ReadRecord char_is_signed fuel reader with
      | None => p_lift OutOfFuel
      | Some (reader, record) =>
          let s := if paranoid then reported s (reports reader) else s in
          match record with
          | Some record =>
              if negb (Status_ok s) then p_ret (r, s)
              else if size record <? 12 then
                replay_loop rounds reader paranoid r (if paranoid then Status_Corruption (str "log record too small") [] else s)
              else
                let! p := replay_record record r in
                let '(r, s) := p in
                if negb (Status_ok s) then p_ret (r, s) else replay_loop rounds reader paranoid r s
          | None => p_ret (r, s)
          end
      end
  end.

(** Keeps the log and the memtable if they can go on being used: the memtable left. *)
Definition reuse_log (fname : bytes) (log_number : Z) (mem : option Z) : Prog (option Z) :=
  let! sz := p_fs (fun w => (w, env_GetFileSize w fname)) in
  match sz with
  | inr _ => p_ret mem
  | inl lfile_size =>
      let! r := p_fs (fun w => env_NewAppendableFile w fname) in
      match r with
      | inr _ => p_ret mem
      | inl f =>
          let! _ := p_set (fun d => set_log d (Some (f, lfile_size mod LogWriter.kBlockSize)) log_number) in
          let! _ := match mem with
                    | Some id => p_set (fun d => set_mem d (Some id))
                    | None => p_set (fun d => let r := new_mem d in set_mem r.1 (Some r.2))
                    end in
          p_ret None
      end
  end.

Definition RecoverLogFile (log_number : Z) (last_log save_manifest : bool) (edit : VersionEdit) (max_sequence : Z)
    : Prog (bool * VersionEdit * Z * Status) :=
  let! dbname := p_get dbname_ in
  let! o := p_get db_options_ in
  let fname := LogFileName dbname log_number in
  let! opened := p_fs (fun w => (w, env_NewSequentialFile w fname)) in
  match opened with
  | inr s => let! s := p_get (fun d => MaybeIgnoreError d s) in p_ret (save_manifest, edit, max_sequence, s)
  | inl f =>
      let! p := replay_loop fuel (NewReader f true true 0) (paranoid_checks (table_options o))
                  (MkReplay None edit 0 save_manifest max_sequence) Status_OK in
      let '(r, s) := p in
      let! mem := if Status_ok s && reuse_logs o && last_log && (rp_compactions r =? 0)
                  then reuse_log fname log_number (rp_mem r) else p_ret (rp_mem r) in
      let! p :=
        match mem with
        | None => p_ret (rp_save_manifest r, rp_edit r, s)
        | Some id =>
            let! p := if Status_ok s then let! p := WriteLevel0Table id (rp_edit r) None in p_ret (true, p.1, p.2)
                      else p_ret (rp_save_manifest r, rp_edit r, s) in
            let! _ := unref_mem id in
            p_ret p
        end in
      let '(save_manifest, edit, s) := p in
      p_ret (save_manifest, edit, rp_max_sequence r, s)
  end.

(** ** Recovery *)

(** The files expected and not found, and the logs to replay. *)
Fixpoint scan_files (min_log prev_log : Z) (filenames : list bytes) (expected : gset Z) (logs : list Z) : gset Z * list Z :=
  match filenames with
  | [] => (expected, logs)
  | filename :: filenames =>
      match ParseFileName filename with
      | Some (number, type) =>
          scan_files min_log prev_log filenames (expected ∖ {[number]})
            (if bool_decide (type = kLogFile) && ((min_log <=? number) || (number =? prev_log)) then logs ++ [number] else logs)
      | None => scan_files min_log prev_log filenames expected logs
      end
  end.

(** [*expected.begin()] *)
Definition set_begin (s : gset Z) : Z := match elements s with [] => 0 | x :: l => foldl Z.min x l end.

Definition missing_files (dbname : bytes) (expected : gset Z) : Status :=
  Status_Corruption (take 49 (print_int (int32 (Z.of_nat (base.size expected))) ++ str " missing files; e.g."))
    (TableFileName dbname (set_begin expected)).

Fixpoint recover_logs (logs : list Z) (save_manifest : bool) (edit : VersionEdit) (max_sequence : Z) : Prog (bool * VersionEdit * Z * Status) :=
  match logs with
  | [] => p_ret (save_manifest, edit, max_sequence, Status_OK)
  | log :: logs =>
      let! p := RecoverLogFile log (bool_decide (logs = [])) save_manifest edit max_sequence in
      let '(save_manifest, edit, max_sequence, s) := p in
      if negb (Status_ok s) then p_ret (save_manifest, edit, max_sequence, s)
      else
        let! _ := p_set (fun d => set_version_set d (MarkFileNumberUsed (db_versions_ d) log)) in
        recover_logs logs save_manifest edit max_sequence
  end.

(** After the descriptor has been read: the logs newer than it. *)
Definition recover_newer_logs (save_manifest : bool) (edit : VersionEdit) : Prog (bool * VersionEdit * Status) :=
  let! dbname := p_get dbname_ in
  let! min_log := p_get (fun d => vs_log_number_ (db_versions_ d)) in
  let! prev_log := p_get (fun d => vs_prev_log_number_ (db_versions_ d)) in
  let! children := p_fs (fun w => (w, env_GetChildren w dbname)) in
  let '(filenames, s) := children in
  if negb (Status_ok s) then p_ret (save_manifest, edit, s)
  else
    let! expected := p_get (fun d => AddLiveFiles (db_versions_ d) ∅) in
    let '(expected, logs) := scan_files min_log prev_log filenames expected [] in
    if negb (bool_decide (expected = ∅)) then p_ret (save_manifest, edit, missing_files dbname expected)
    else
      let! p := recover_logs (merge_sort Z.le logs) save_manifest edit 0 in
      let '(save_manifest, edit, max_sequence, s) := p in
      if negb (Status_ok s) then p_ret (save_manifest, edit, s)
      else
        let! _ := p_set (fun d =>
          if vs_last_sequence_ (db_versions_ d) <? max_sequence
          then set_version_set d (SetLastSequenceNumber (db_versions_ d) max_sequence) else d) in
        p_ret (save_manifest, edit, Status_OK).

(** Whether there is a database, made if the options say so. *)
Definition check_exists : Prog Status :=
  let! dbname := p_get dbname_ in
  let! o := p_get db_options_ in
  let! exists_ := p_fs (fun w => (w, env_FileExists w (CurrentFileName dbname))) in
  if negb exists_ then
    if create_if_missing o then NewDB
    else p_ret (Status_InvalidArgument dbname (str "does not exist (create_if_missing is false)"))
  else if error_if_exists o then p_ret (Status_InvalidArgument dbname (str "exists (error_if_exists is true)"))
  else p_ret Status_OK.

(** [DBImpl::Recover], with the lock it took. *)
Definition DB_Recover (edit : VersionEdit) (save_manifest : bool) : Prog (option FLock * bool * VersionEdit * Status) :=
  let! dbname := p_get dbname_ in
  let! o := p_get db_options_ in
  let! _ := p_fs (fun w => env_CreateDir w dbname) in
  let! r := p_fs (fun w => env_LockFile w (LockFileName dbname)) in
  match r with
  | inr s => p_ret (None, save_manifest, edit, s)
  | inl lock =>
      let! s := check_exists in
      if negb (Status_ok s) then p_ret (Some lock, save_manifest, edit, s)
      else
        let! r := fun w =>
          let? r := Manifest.Recover char_is_signed fuel (wo_fs w) (db_versions_ (wo_db w)) dbname (reuse_logs o) (max_file_size o) save_manifest in
          let '(fs, vs, s, save_manifest) := r in
          Ok ((s, save_manifest), MkWorld fs (wo_tables w) (set_version_set (wo_db w) vs)) in
        let '(s, save_manifest) := r in
        if negb (Status_ok s) then p_ret (Some lock, save_manifest, edit, s)
        else
          let! p := recover_newer_logs save_manifest edit in
          p_ret (Some lock, p.1.1, p.1.2, p.2)
  end.

(** ** Opening *)

(** A new log and a memtable for it. *)
Definition open_log (edit : VersionEdit) : Prog (VersionEdit * Status) :=
  let! n := p_update (fun d => let r := NewFileNumber (db_versions_ d) in Ok (set_version_set d r.2, r.1)) in
  let! dbname := p_get dbname_ in
  let! r := p_fs (fun w => env_NewWritableFile w (LogFileName dbname n)) in
  match r with
  | inr s => p_ret (edit, s)
  | inl f =>
      let! _ := p_set (fun d => set_log d (Some (f, block_offset_ (NewWriter f))) n) in
      let! _ := p_set (fun d => let r := new_mem d in set_mem r.1 (Some r.2)) in
      p_ret (SetLogNumber edit n, Status_OK)
  end.

Definition Open_locked : Prog (option FLock * Status) :=
  let! r := DB_Recover NewVersionEdit false in
  let '(lock, save_manifest, edit, s) := r in
  let! mem := p_get db_mem_ in
  let! r := if Status_ok s && bool_decide (mem = None) then open_log edit else p_ret (edit, s) in
  let '(edit, s) := r in
  let! s :=
    if Status_ok s && save_manifest then
      let! n := p_get logfile_number_ in
      let! r := log_and_apply (SetLogNumber (SetPrevLogNumber edit 0) n) in p_ret r.2
    else p_ret s in
  let! _ :=
    if Status_ok s then
      let! _ := RemoveObsoleteFiles in
      p_update (fun d => let? d := MaybeScheduleCompaction d in Ok (d, tt))
    else p_ret tt in
  p_ret (lock, s).

(** ** Closing *)

(** The destructor waits for the background thread, at a count of signals. *)
Definition close_begin : Prog () := p_set (fun d => set_shutting_down d true).

Definition close_wait (waits : option Z) : Prog (option Z * bool) :=
  let! signals := p_get db_signals_ in
  let! scheduled := p_get background_compaction_scheduled_ in
  match waits with
  | Some n => if n <? signals then p_ret ((if scheduled then Some signals else None), negb scheduled) else p_ret (waits, false)
  | None => p_ret ((if scheduled then Some signals else None), negb scheduled)
  end.

(** [delete versions_], and the rest. *)
Definition delete_versions : Prog () :=
  let! descriptor := p_get (fun d => descriptor_log_ (db_versions_ d)) in
  let! _ := p_set (fun d => set_version_set d
    (set_descriptor (match current_ (db_versions_ d) with Some id => Version_Unref (db_versions_ d) id | None => db_versions_ d end) None)) in
  p_fs (fun w => (match descriptor with Some f => wfile_delete w f.1 | None => w end, tt)).

Definition close_end (lock : option FLock) : Prog () :=
  let! _ := p_fs (fun w => (match lock with Some l => (env_UnlockFile w l).1 | None => w end, tt)) in
  let! _ := delete_versions in
  let! mem := p_get db_mem_ in
  let! imm := p_get db_imm_ in
  let! _ := p_update (fun d => let? d := opt_mem mem_Unref d mem in let? d := opt_mem mem_Unref d imm in Ok (d, tt)) in
  let! log := p_get db_log_ in
  p_fs (fun w => (match log with Some l => wfile_delete w l.1 | None => w end, tt)).

(** The constructor, recovery, and the destructor if that fails, when there is no
    background thread yet: the database with its lock, or the file system it leaves.
    [tables] makes the table cache. *)
Definition DB_Open (w : FS) (tables : FS -> DbOptions -> T) (options : DbOptions) (dbname : bytes)
    : res ((World FS T WFile * option FLock) + (FS * Status)) :=
  let '(w, o) := SanitizeOptions w dbname options in
  let world := MkWorld w (tables w o) (NewDBImpl o dbname) in
  let? r := Open_locked world in
  let '((lock, s), world) := r in
  if Status_ok s then Ok (inl (world, lock))
  else
    let? r := (let! _ := close_begin in close_end lock) world in
    Ok (inr (wo_fs r.2, s)).
End open.

(** ** Replay *)

(** A batch with the sequence number it was given. *)
Definition batch_record (b : Z * list batch_op) : bytes := batch_rep b.1 b.2.
Definition all_ops (bs : list (Z * list batch_op)) : list batch_op := concat (map snd bs).

(** Each batch is numbered from where the one before it ended. *)
Fixpoint chained (seq : Z) (bs : list (Z * list batch_op)) : Prop :=
  match bs with
  | [] => True
  | b :: bs => b.1 = seq /\ ops_ok b.2 /\ chained (seq + Z.of_nat (length b.2)) bs
  end.

Lemma size_batch_record b : 12 <= size (batch_record b).
Proof. unfold batch_record, batch_rep. rewrite !size_app, size_EncodeFixed64, size_EncodeFixed32. pose proof (size_nonneg (encode_ops b.2)). lia. Qed.

Lemma take_all_ops k bs : exists rest, all_ops bs = all_ops (take k bs) ++ rest.
Proof. exists (all_ops (drop k bs)). unfold all_ops. by rewrite <- concat_app, <- map_app, take_drop. Qed.

Lemma chained_take k : forall seq bs, chained seq bs -> chained seq (take k bs).
Proof. induction k as [|k IH]; intros seq [|b bs]; cbn; [done..|]. intros (-> & H1 & H2). split_and!; [done..|]. by apply IH. Qed.

Section replay.
Context `{C : Comparator} `{!ComparatorLaws C} `{FL : FileEnvLaws} {DE : DbEnv (FE := FE)} {T : Type} `{TE : !TableEvict T} `{Sn : Snappy}.
Context {I : Type} `{TF : !TableFiles (FS * T) I (It := It)}.
Context (char_is_signed : bool) (fuel : nat).
Implicit Types (d : DBImpl WFile) (t : T).

Context (seq0 : Z) (Hseq0 : 1 <= seq0).

(** The memtable of the operations, numbered from [seq0]. *)
Definition load (ops : list batch_op) : option MemTable := foldl add_entry (Some (Ref NewMemTable)) (op_entries seq0 ops).

Definition storable (ops : list batch_op) : Prop :=
  seq0 + Z.of_nat (length ops) <= kMaxSequenceNumber + 1 /\ Forall op_ok ops /\ Forall (fun op => fits 32 (size (op_key op) + 8)) ops.

Lemma storable_app ops ops' : storable (ops ++ ops') -> storable ops.
Proof. intros (H1 & [H2 _]%list.Forall_app & [H3 _]%list.Forall_app). rewrite length_app in H1. split_and!; [lia|done..]. Qed.

Lemma load_holds ops : storable ops -> exists m ks,
  load ops = Some m /\ holds (H := KeyComparator) (table_ m) ks /\ ks ≡ₚ map encode (op_entries seq0 ops).
Proof.
  intros (H1 & H2 & H3). destruct (op_entries_ok seq0 ops ltac:(lia) H1 H3 H2) as [Hok Hnd].
  destruct (Add_more_holds [] (Ref NewMemTable) [] (op_entries seq0 ops)) as (m & ks & Er & _ & Hh & Hp); [apply NewSkipList_holds|done..|].
  by exists m, ks.
Qed.

Lemma load_app ops ops' : load (ops ++ ops') = foldl add_entry (load ops) (op_entries (seq0 + Z.of_nat (length ops)) ops').
Proof. unfold load. by rewrite op_entries_app, foldl_app. Qed.

(** The memtable being filled holds the operations. *)
Definition loaded ops d (mem : option Z) : Prop :=
  match mem with
  | None => ops = []
  | Some id => exists m, find_mem d id = Ok m /\ load ops = Some m
  end.

Lemma replay_insert_ok ops ops' mem w t d :
  storable (ops ++ ops') -> ops_ok ops' -> loaded ops d mem ->
  exists id d', replay_insert (batch_record (seq0 + Z.of_nat (length ops), ops')) mem (MkWorld w t d) = Ok ((id, Status_OK), MkWorld w t d') /\
    loaded (ops ++ ops') d' (Some id) /\ db_options_ d' = db_options_ d.
Proof.
  intros Hst Hops Hl. pose proof Hst as (Hn & _). destruct (load_holds _ Hst) as (m' & _ & Em & _). rewrite load_app in Em.
  rewrite length_app in Hn. unfold kMaxSequenceNumber in Hn. rewrite Z.shiftl_1_l in Hn.
  assert (H0 : exists id d0 m, (match mem with Some id => p_ret id | None => p_update (fun d => Ok (new_mem d)) end) (MkWorld w t d) = Ok (id, MkWorld w t d0) /\
    find_mem d0 id = Ok m /\ load ops = Some m /\ db_options_ d0 = db_options_ d).
  { destruct mem as [id|]; [destruct Hl as (m & H1 & H2); by exists id, d, m|]. cbn in Hl. subst ops.
    exists (next_mem_ d), (new_mem d).1, (Ref NewMemTable). split; [done|]. split; [|done]. unfold find_mem. cbn. by rewrite lookup_insert_eq. }
  destruct H0 as (id & d0 & m & E0 & Hf & Hm & Ho). rewrite Hm in Em. exists id, (put_mem d0 id m'). split_and!.
  - unfold replay_insert, p_bind at 1. rewrite E0. cbn [res_bind fst snd]. unfold p_update. cbn [wo_db]. rewrite Hf. cbn [res_bind]. unfold batch_record. cbn [fst snd].
    rewrite InsertInto_batch_rep by (done || lia). rewrite Em. done.
  - exists m'. split; [unfold find_mem; cbn; by rewrite lookup_insert_eq|]. by rewrite load_app, Hm.
  - done.
Qed.

(** The largest sequence number, with that of a batch. *)
Definition max_after (max : Z) (b : Z * list batch_op) : Z := Z.max max (b.1 + Z.of_nat (length b.2) - 1).

Lemma replay_record_ok ops ops' r w t d :
  storable (ops ++ ops') -> ops_ok ops' -> loaded ops d (rp_mem r) ->
  (forall m, load (ops ++ ops') = Some m -> ApproximateMemoryUsage m <= write_buffer_size (db_options_ d)) ->
  let b := (seq0 + Z.of_nat (length ops), ops') in
  exists id d', replay_record (batch_record b) r (MkWorld w t d) =
      Ok ((MkReplay (Some id) (rp_edit r) (rp_compactions r) (rp_save_manifest r) (max_after (rp_max_sequence r) b), Status_OK), MkWorld w t d') /\
    loaded (ops ++ ops') d' (Some id) /\ db_options_ d' = db_options_ d.
Proof.
  intros Hst Hops Hl Hfit b. destruct (replay_insert_ok ops ops' (rp_mem r) w t d Hst Hops Hl) as (id & d' & Er & Hl' & Ho).
  exists id, d'. split; [|done]. pose proof Hl' as (m & Hf & Hm). specialize (Hfit m Hm). pose proof Hst as (Hn & _).
  rewrite length_app in Hn. unfold kMaxSequenceNumber in Hn. rewrite Z.shiftl_1_l in Hn.
  assert (Hi : MaybeIgnoreError d' Status_OK = Status_OK) by done.
  destruct (batch_rep_header (seq0 + Z.of_nat (length ops)) ops') as (Hs & Hc & _); [unfold fits; lia|done|].
  unfold replay_record, p_bind at 1, SetContents. fold b in Er. rewrite Er. cbn [res_bind fst snd]. unfold p_bind at 1, p_get at 1. cbn [res_bind fst snd wo_db]. rewrite Hi.
  cbn [negb Status_ok Status_OK]. unfold p_bind at 1, p_read. cbn [res_bind wo_db]. unfold mem_usage. rewrite Hf. cbn [res_bind fst snd].
  unfold p_bind, p_get. cbn [res_bind fst snd wo_db]. rewrite Ho. destruct (Z.gtb_spec (ApproximateMemoryUsage m) (write_buffer_size (db_options_ d))); [lia|].
  unfold p_ret, set_rp_mem, max_after. subst b. unfold batch_record. cbn [fst snd rp_edit rp_compactions rp_save_manifest rp_max_sequence]. rewrite Hs, Hc.
  rewrite (wrap_id 64 (_ + _)) by (unfold fits; lia). rewrite wrap_id by (unfold fits; lia). do 4 f_equal.
  destruct (Z.gtb_spec (seq0 + Z.of_nat (length ops) + Z.of_nat (length ops') - 1) (rp_max_sequence r)); lia.
Qed.

Lemma replay_rounds rounds : forall (reader reader' : Reader SFile) bs ops r w t d,
  (rounds <= fuel)%nat -> ReadAll char_is_signed rounds reader = Some (reader', map batch_record bs) -> reports reader' = [] ->
  chained (seq0 + Z.of_nat (length ops)) bs -> storable (ops ++ all_ops bs) -> loaded ops d (rp_mem r) ->
  (forall k m, (k <= length bs)%nat -> load (ops ++ all_ops (take k bs)) = Some m -> ApproximateMemoryUsage m <= write_buffer_size (db_options_ d)) ->
  exists mem d', replay_loop char_is_signed fuel rounds reader (paranoid_checks (table_options (db_options_ d))) r Status_OK (MkWorld w t d) =
      Ok ((MkReplay mem (rp_edit r) (rp_compactions r) (rp_save_manifest r) (foldl max_after (rp_max_sequence r) bs), Status_OK), MkWorld w t d') /\
    loaded (ops ++ all_ops bs) d' mem /\ (mem = None -> bs = [] /\ rp_mem r = None) /\ (bs = [] -> mem = rp_mem r).
Proof.
  induction rounds as [|rounds IH]; intros reader reader' bs ops r w t d Hle Hr Hrep Hch Hst Hl Hfit; [done|]. cbn [ReadAll] in Hr. cbn [replay_loop].
  destruct (ReadRecord char_is_signed (S rounds) reader) as [[r1 out]|] eqn:E1; [|done]. rewrite (ReadRecord_mono _ _ _ _ _ Hle E1).
  assert (Hq : (if paranoid_checks (table_options (db_options_ d)) then reported Status_OK (reports r1) else Status_OK) = Status_OK).
  { assert (Hn : reports r1 = []); [|rewrite Hn; by destruct (paranoid_checks _)]. destruct out as [record|]; [|by injection Hr as ->].
    destruct (ReadAll char_is_signed rounds r1) as [[r2 records]|] eqn:E2; [|done]. destruct bs; [done|]. injection Hr as -> _ _.
    by apply (grows_none r1 reader'); [apply (ReadAll_grows char_is_signed rounds r1 reader' _ E2)|]. }
  rewrite Hq. destruct out as [record|].
  - destruct (ReadAll char_is_signed rounds r1) as [[r2 records]|] eqn:E2; [|done]. destruct bs as [|[s ops'] bs]; [done|]. cbn [map] in Hr. injection Hr as -> -> ->.
    destruct Hch as (Hs & Hops & Hch). cbn [fst snd] in Hs, Hops, Hch. subst s. cbn [negb Status_ok Status_OK].
    pose proof (size_batch_record (seq0 + Z.of_nat (length ops), ops')). destruct (Z.ltb_spec (size (batch_record (seq0 + Z.of_nat (length ops), ops'))) 12); [lia|].
    unfold all_ops in Hst. cbn [map concat snd] in Hst. rewrite app_assoc in Hst.
    destruct (replay_record_ok ops ops' r w t d) as (id & d' & Er & Hl' & Ho); [by apply (storable_app _ _ Hst)|done..| |].
    { intros m Hm. apply (Hfit 1%nat m); [cbn; lia|]. unfold all_ops. cbn. by rewrite app_nil_r. }
    unfold p_bind. rewrite Er. cbn [res_bind fst snd negb Status_ok Status_OK]. rewrite <- Ho.
    destruct (IH r1 reader' bs (ops ++ ops') (MkReplay (Some id) (rp_edit r) (rp_compactions r) (rp_save_manifest r) (max_after (rp_max_sequence r) (seq0 + Z.of_nat (length ops), ops'))) w t d')
      as (mem & d2 & Er2 & Hl2 & Hn2 & _); [lia|done|done|rewrite length_app, Nat2Z.inj_add, Z.add_assoc; exact Hch|exact Hst|exact Hl'| |].
    { intros k m Hk Hm. rewrite Ho. apply (Hfit (S k) m); [cbn; lia|]. unfold all_ops. cbn [take map concat snd]. rewrite app_assoc. exact Hm. }
    exists mem, d2. split; [exact Er2|]. split; [unfold all_ops at 1; cbn [map concat snd]; by rewrite app_assoc|]. split; [|done]. intros Hm. by destruct (Hn2 Hm).
  - destruct bs as [|b bs]; [|done]. exists (rp_mem r), d. unfold all_ops. cbn [foldl map concat]. rewrite app_nil_r. split; [by destruct r|]. by split.
Qed.
End replay.

Lemma max_chained : forall bs seq max, chained seq bs -> max < seq ->
  foldl max_after max bs = match bs with [] => max | _ => seq + Z.of_nat (length (all_ops bs)) - 1 end.
Proof.
  induction bs as [|[s ops] bs IH]; intros seq max Hc Hm; [done|]. destruct Hc as (Hs & _ & Hc). cbn [fst snd] in Hs, Hc. subst s.
  unfold all_ops. cbn [foldl map concat snd]. rewrite length_app. unfold max_after at 2. cbn [fst snd].
  destruct bs as [|b bs].
  - cbn [foldl map concat length]. lia.
  - destruct ops as [|op ops].
    + rewrite (IH (seq + Z.of_nat 0)); [|done|cbn [length]; lia]. unfold all_ops. cbn [length]. lia.
    + rewrite (IH (seq + Z.of_nat (length (op :: ops)))); [|done|cbn [length]; lia]. unfold all_ops. lia.
Qed.

(** C6. The memtable is recovered from its log.  Batches numbered one after the other are
    written to a new log, each with success; the tail of the file is then lost, and what
    is left is replayed when the database is opened.  If the batches fit in a memtable,
    the replay ends with status OK after the first [n] of them: they are those of which
    all the bytes are left, and all of them when nothing was lost.  Nothing but the
    memtables of the database changes, the last sequence number is that of the last
    operation replayed, and a read there from the memtable answers what the last operation
    on the key says.  This holds with and without paranoid checks. *)
Theorem log_replay {Wf} `{WritableFileLaws Wf} `{FL : FileEnvLaws} {DE : DbEnv (FE := FE)} {T : Type} `{TE : !TableEvict T} `{Sn : Snappy}
    {I : Type} `{TF : !TableFiles (FS * T) I (It := It)} (char_is_signed : bool) (fuel : nat)
    (file : Wf) wr s (seq : Z) (bs : list (Z * list batch_op)) (g : SFile) (lost : bytes) (r : Replay) (w : World FS T WFile) :
  trailer_safe (F := Wf) -> (forall (f : SFile) n, Status_ok (sf_Read f n).2 = true) ->
  wf_contents file = [] -> AddRecords (NewWriter file) (map batch_record bs) = Some (wr, s) -> Status_ok s = true ->
  sf_rest g ++ lost = wf_contents (dest_ wr) -> size (sf_rest g) < 2 ^ 64 -> size (sf_rest g) < Z.of_nat fuel ->
  1 <= seq -> chained seq bs -> storable seq (all_ops bs) -> rp_mem r = None -> rp_max_sequence r < seq ->
  (forall k m, (k <= length bs)%nat -> load (C := BytewiseComparator) seq (all_ops (take k bs)) = Some m ->
    ApproximateMemoryUsage m <= write_buffer_size (db_options_ (wo_db w))) ->
  exists n mem d',
    let ops := all_ops (take n bs) in
    let last := match take n bs with [] => rp_max_sequence r | _ => seq + Z.of_nat (length ops) - 1 end in
    replay_loop (C := BytewiseComparator) char_is_signed fuel fuel (NewReader g true true 0) (paranoid_checks (table_options (db_options_ (wo_db w)))) r Status_OK w =
      Ok ((MkReplay mem (rp_edit r) (rp_compactions r) (rp_save_manifest r) last, Status_OK), MkWorld (wo_fs w) (wo_tables w) d') /\
    (exists out off, log_file 0 (map batch_record (take n bs)) out off /\ size out <= size (sf_rest g)) /\
    ((n < length bs)%nat -> exists out off, log_file 0 (map batch_record (take (S n) bs)) out off /\ size (sf_rest g) < size out) /\
    (lost = [] -> take n bs = bs) /\
    match mem with
    | None => take n bs = []
    | Some id => exists m, find_mem d' id = Ok m /\
        forall u value s, fits 32 (size u + 8) ->
          MemTable_Get (C := BytewiseComparator) m (NewLookupKey u last) value s = Some (op_result (last_op u ops) value s)
    end.
Proof.
  intros Hsafe Hrel Hnew Hadd Hs Hpre Hsize Hfuel Hseq Hch Hst Hr Hmax Hfit.
  destruct (AddRecords_log_file (NewWriter file) _ _ _ Hsafe ltac:(vm_compute; split; congruence) Hadd Hs) as (out & Hlog & Hc).
  cbn in Hlog, Hc. rewrite Hnew in Hc. cbn in Hc. rewrite Hc in Hpre.
  destruct (read_log_prefix char_is_signed Hrel g _ out _ lost true true fuel Hlog Hpre Hsize Hfuel) as (r' & ds1 & Hread & Hcomp & Hrep).
  destruct (complete_take _ _ _ _ Hcomp (size_nonneg _)) as (n & out1 & off1 & -> & Hl & Hle & Hn). rewrite firstn_map in Hread, Hl. rewrite length_map in Hn. rewrite firstn_map in Hn.
  assert (Hst' : storable seq (all_ops (take n bs))) by (destruct (take_all_ops n bs) as [rest Er]; rewrite Er in Hst; by apply (storable_app _ _ rest)).
  destruct w as [fs t d]. cbn [wo_fs wo_tables wo_db] in *.
  destruct (replay_rounds (C := BytewiseComparator) char_is_signed fuel seq Hseq fuel (NewReader g true true 0) r' (take n bs) [] r fs t d) as (mem & d' & Er & Hld & Hnone & Hsome); try done.
  { by rewrite Z.add_0_r; apply chained_take. }
  { by rewrite Hr. }
  { intros k m Hk. rewrite take_take. rewrite length_take in Hk. apply Hfit. lia. }
  exists n, mem, d'. cbv zeta. rewrite (max_chained _ seq) in Er by (done || by apply chained_take). split_and!; [exact Er|by exists out1, off1|exact Hn| |].
  - intros ->. rewrite app_nil_r in Hpre. apply take_ge. destruct (decide (n < length bs)%nat) as [Hlt|]; [|lia].
    destruct (Hn Hlt) as (out2 & off2 & Hl2 & Hs2). destruct (log_file_take _ _ _ _ (S n) Hlog) as (out3 & off3 & Hl3 & Hs3).
    rewrite firstn_map in Hl3. destruct (log_file_det _ _ _ _ Hl2 _ _ Hl3) as [-> ->]. rewrite Hpre in Hs2. lia.
  - destruct mem as [id|]; [|by apply Hnone]. cbn [app] in Hld. destruct Hld as (m & Hf & Hm). exists m. split; [done|]. intros u value s0 Hu.
    destruct (load_holds seq Hseq _ Hst') as (m1 & ks & Em & Hh & Hp). rewrite Em in Hm. injection Hm as ->. destruct Hst' as (B1 & B2 & B3).
    destruct (take n bs) as [|b bs']; [rewrite Hr in Hsome; by specialize (Hsome eq_refl)|]. cbv iota.
    apply (get_last_op seq _ u _ value s0 m ks); try done; unfold seq_ok; lia.
Qed.

(** *** An example: the last byte of a log of two batches is lost *)

Definition replayed_batches : list (Z * list batch_op) :=
  [(7, [OpPut (str "a") (str "1"); OpPut (str "b") (str "2")]); (9, [OpDelete (str "a")])].

Definition replayed_log : bytes :=
  match AddRecords (NewWriter (F := bytes) []) (map batch_record replayed_batches) with Some (w, _) => dest_ w | None => [] end.

Definition replay_world : World (bytes -> option bytes) unit bytes :=
  let '(w, o) := SanitizeOptions (FE := mem_file_env) (DE := mem_db_env) (fun _ => None) (str "db") example_options in MkWorld w tt (NewDBImpl o (str "db")).

(** A log that is reused after its tail was lost is written to at the end of what is left
    of a record; the next reader takes the new record for the rest of that one and drops
    both, although the write of the new one succeeded. *)
Lemma reused_after_tear :
  let torn := take (length replayed_log - 1) replayed_log in
  match AddRecord (MkWriter (F := bytes) torn (size torn mod LogWriter.kBlockSize)) (batch_record (9, [OpPut (str "c") (str "3")])) with
  | Some (w, s) => Status_ok s = true /\
      match ReadAll true 200 (NewReader (F := bytes) (dest_ w) true true 0) with
      | Some (r, records) => records = map batch_record (take 1 replayed_batches) /\ length (reports r) = 1%nat
      | None => False
      end
  | None => False
  end.
Proof. vm_compute. by split_and!. Qed.

Section replay_example.
#[local] Existing Instances mem_db_env evict_nothing no_snappy no_tables.

Abbreviation replay_log := (replay_loop (C := BytewiseComparator) (FE := mem_file_env) (DE := mem_db_env) (TF := no_tables) true 100 100
  (NewReader (F := bytes) (take (length replayed_log - 1) replayed_log) true true 0) false (MkReplay None NewVersionEdit 0 false 0) Status_OK replay_world).

Lemma replay_log_runs : match replay_log with Ok (r, s, w) => rp_max_sequence r = 8 /\ bool_decide (is_Some (rp_mem r)) = true | _ => False end.
Proof. vm_compute. by split. Qed.

Lemma log_replay_witness :
  exists id m d', replay_log = Ok ((MkReplay (Some id) NewVersionEdit 0 false 8, Status_OK), MkWorld (wo_fs replay_world) tt d') /\
    find_mem d' id = Ok m /\ MemTable_Get (C := BytewiseComparator) m (NewLookupKey (str "a") 8) [] Status_OK = Some (true, str "1", Status_OK).
Proof.
  pose proof replay_log_runs as Hrun.
  destruct (log_replay (Wf := bytes) (FE := mem_file_env) (FL := mem_file_env_laws) (DE := mem_db_env) (TE := evict_nothing) (Sn := no_snappy) (TF := no_tables)
    true 100 [] (MkWriter replayed_log (size replayed_log)) Status_OK 7 replayed_batches (take (length replayed_log - 1) replayed_log)
    (drop (length replayed_log - 1) replayed_log) (MkReplay None NewVersionEdit 0 false 0) replay_world) as (n & mem & d' & Er & _ & _ & _ & Hm).
  - intros f n. reflexivity.
  - intros f n. reflexivity.
  - reflexivity.
  - vm_compute. reflexivity.
  - reflexivity.
  - apply take_drop.
  - vm_compute. reflexivity.
  - vm_compute. reflexivity.
  - lia.
  - repeat split; repeat constructor; vm_compute; congruence.
  - split; [vm_compute; congruence|]. split; repeat constructor; vm_compute; congruence.
  - reflexivity.
  - reflexivity.
  - intros k m Hk Hm. assert (Hall : forall k, (k <= 2)%nat -> match load (C := BytewiseComparator) 7 (all_ops (take k replayed_batches)) with Some m => ApproximateMemoryUsage m <=? 65536 | None => true end = true).
    { intros [|[|[|k0]]] Hk0; [vm_compute; reflexivity..|lia]. }
    specialize (Hall k Hk). rewrite Hm in Hall. apply Z.leb_le in Hall. etransitivity; [exact Hall|]. vm_compute. congruence.
  - match type of Er with ?x = _ => change x with replay_log in Er end. cbn [rp_edit rp_compactions rp_save_manifest rp_max_sequence] in Er.
    rewrite Er in Hrun. cbn [rp_max_sequence rp_mem] in Hrun. destruct Hrun as [Hlast Hid].
    destruct n as [|[|n]]; [discriminate Hlast| |destruct n; discriminate Hlast]. destruct mem as [id|]; [|discriminate Hid]. destruct Hm as (m & Hf & Hg). exists id, m, d'.
    split; [exact Er|]. split; [exact Hf|]. apply (Hg (str "a") [] Status_OK). vm_compute. by split.
Defined.
End replay_example.
