(* ===== verification/Repair.v ===== *)
(** * Repairing a database

    Models [cpp/leveldb/db/repair.cc]: the [Repairer] rebuilds the descriptor from the files
    it finds.  Logs are turned into tables, every table is scanned, and a new descriptor
    lists the tables at level 0.

    The state is the file system, the table cache and the variables of [Repairer].  Messages
    to the information log and the counters made for them are left out, and so is the
    destructor, which deletes caches. *)
From stdpp Require Import gmap.
From S2P Require Import Prelude Coding Comparator Status Logging DbFormat LogWriter LogReader WriteBatch SkipList MemTable Cursor MemIter Block Merger TwoLevel FilterBlock Format TableBuilder VersionEdit FileSearch Version VersionBuilder VersionSet VersionIter Filename Manifest DbState DbFiles DbRead DbWrite DbCompact DbOpen.

(** ** State *)

Record TableInfo := MkTableInfo { ti_meta : FileMetaData; max_sequence : Z }.

(** [edit_] is only written in [WriteDescriptor]. *)
Record Repairer := MkRepairer {
  rr_dbname : bytes;
  rr_options : DbOptions;
  edit_ : VersionEdit;
  manifests_ : list bytes;
  table_numbers_ : list Z;
  logs_ : list Z;
  tables_ : list TableInfo;
  rr_next_file_number_ : Z
}.

Definition NewRepairer (dbname : bytes) (o : DbOptions) : Repairer := MkRepairer dbname o NewVersionEdit [] [] [] [] 1.

Definition set_edit (r : Repairer) (e : VersionEdit) : Repairer :=
  MkRepairer (rr_dbname r) (rr_options r) e (manifests_ r) (table_numbers_ r) (logs_ r) (tables_ r) (rr_next_file_number_ r).
Definition push_manifest (r : Repairer) (name : bytes) : Repairer :=
  MkRepairer (rr_dbname r) (rr_options r) (edit_ r) (manifests_ r ++ [name]) (table_numbers_ r) (logs_ r) (tables_ r) (rr_next_file_number_ r).
Definition push_table_number (r : Repairer) (n : Z) : Repairer :=
  MkRepairer (rr_dbname r) (rr_options r) (edit_ r) (manifests_ r) (table_numbers_ r ++ [n]) (logs_ r) (tables_ r) (rr_next_file_number_ r).
Definition push_log (r : Repairer) (n : Z) : Repairer :=
  MkRepairer (rr_dbname r) (rr_options r) (edit_ r) (manifests_ r) (table_numbers_ r) (logs_ r ++ [n]) (tables_ r) (rr_next_file_number_ r).
Definition push_table (r : Repairer) (t : TableInfo) : Repairer :=
  MkRepairer (rr_dbname r) (rr_options r) (edit_ r) (manifests_ r) (table_numbers_ r) (logs_ r) (tables_ r ++ [t]) (rr_next_file_number_ r).
Definition set_next_number (r : Repairer) (n : Z) : Repairer :=
  MkRepairer (rr_dbname r) (rr_options r) (edit_ r) (manifests_ r) (table_numbers_ r) (logs_ r) (tables_ r) n.

Record RepairWorld (FS T : Type) := MkRepairWorld { rw_fs : FS; rw_tables : T; rw_repairer : Repairer }.
Arguments MkRepairWorld {FS T}.
Arguments rw_fs {FS T}.
Arguments rw_tables {FS T}.
Arguments rw_repairer {FS T}.

Definition RProg (FS T A : Type) : Type := RepairWorld FS T -> res (A * RepairWorld FS T).

Definition r_ret {FS T A} (a : A) : RProg FS T A := fun w => Ok (a, w).
Definition r_bind {FS T A B} (m : RProg FS T A) (k : A -> RProg FS T B) : RProg FS T B :=
  fun w => let? r := m w in k r.1 r.2.

Notation "'let@' x := m 'in' k" := (r_bind m (fun x => k))
  (at level 10, x binder, m at level 100, k at level 200).

Definition r_lift {FS T A} (r : res A) : RProg FS T A := fun w => let? a := r in Ok (a, w).
Definition r_get {FS T A} (f : Repairer -> A) : RProg FS T A := fun w => Ok (f (rw_repairer w), w).
Definition r_set {FS T} (f : Repairer -> Repairer) : RProg FS T () :=
  fun w => Ok (tt, MkRepairWorld (rw_fs w) (rw_tables w) (f (rw_repairer w))).
Definition r_fs {FS T A} (f : FS -> FS * A) : RProg FS T A :=
  fun w => let r := f (rw_fs w) in Ok (r.2, MkRepairWorld r.1 (rw_tables w) (rw_repairer w)).
Definition r_fs_res {FS T A} (f : FS -> res (FS * A)) : RProg FS T A :=
  fun w => let? r := f (rw_fs w) in Ok (r.2, MkRepairWorld r.1 (rw_tables w) (rw_repairer w)).
Definition r_tables {FS T A} (f : FS * T -> res (FS * T * A)) : RProg FS T A :=
  fun w => let? r := f (rw_fs w, rw_tables w) in Ok (r.2, MkRepairWorld r.1.1 r.1.2 (rw_repairer w)).

(** A program over files and tables that does not use its database, which there is none
    of here. *)
Definition r_prog {FS T W A} (m : Prog FS T W A) : RProg FS T A := fun w =>
  let? r := m (MkWorld (rw_fs w) (rw_tables w) (NewDBImpl (rr_options (rw_repairer w)) (rr_dbname (rw_repairer w)))) in
  Ok (r.1, MkRepairWorld (wo_fs r.2) (wo_tables r.2) (rw_repairer w)).

Fixpoint r_each {FS T A} (f : A -> RProg FS T ()) (l : list A) : RProg FS T () :=
  match l with
  | [] => r_ret tt
  | x :: l => let@ _ := f x in r_each f l
  end.

(** ** Archiving *)

(** A string up to its first NUL, as C functions see it. *)
Fixpoint c_str (s : bytes) : bytes :=
  match s with
  | [] => []
  | c :: s => if bool_decide (c = x00) then [] else c :: c_str s
  end.

(** [strrchr(s, '/')]: what is before the last slash and what is after it. *)
Fixpoint strrchr_slash (s : bytes) : option (bytes * bytes) :=
  match s with
  | [] => None
  | c :: s =>
      match strrchr_slash s with
      | Some (dir, base) => Some (c :: dir, base)
      | None => if bool_decide (c = x2f) then Some ([], s) else None
      end
  end.

(** The directory and the name of an archived file. *)
Definition archived_as (fname : bytes) : bytes * bytes :=
  let '(dir, base) := default ([], c_str fname) (strrchr_slash (c_str fname)) in
  let new_dir := dir ++ str "/lost" in
  (new_dir, new_dir ++ str "/" ++ base).

Section repair.
Context `{C : Comparator} `{DE : DbEnv} {T : Type} `{TE : !TableEvict T} `{Sn : Snappy}.
Context {I : Type} `{TF : !TableFiles (FS * T) I (It := It)}.
Context (char_is_signed : bool) (fuel : nat).
Abbreviation RProg := (RProg FS T).
Abbreviation Builder := (TableBuilder (FS * WFile)).

(** Errors are ignored. *)
Definition archive (w : FS) (fname : bytes) : FS :=
  let '(new_dir, new_file) := archived_as fname in
  let w := (env_CreateDir w new_dir).1 in
  (env_RenameFile w fname new_file).1.

Definition ArchiveFile (fname : bytes) : RProg () := r_fs (fun w => (archive w fname, tt)).

(** ** Finding files *)

Definition found_file (r : Repairer) (filename : bytes) : Repairer :=
  match ParseFileName filename with
  | Some (number, kDescriptorFile) => push_manifest r filename
  | Some (number, type) =>
      let next := u64 (number + 1) in
      let r := if next >? rr_next_file_number_ r then set_next_number r next else r in
      match type with
      | kLogFile => push_log r number
      | kTableFile => push_table_number r number
      | _ => r
      end
  | None => r
  end.

Definition FindFiles : RProg Status :=
  let@ dbname := r_get rr_dbname in
  let@ children := r_fs (fun w => (w, env_GetChildren w dbname)) in
  let '(filenames, status) := children in
  if negb (Status_ok status) then r_ret status
  else
    match filenames with
    | [] => r_ret (Status_IOError dbname (str "repair found no files"))
    | _ => let@ _ := r_set (fun r => foldl found_file r filenames) in r_ret status
    end.

(** [next_file_number_++] *)
Definition take_number : RProg Z :=
  let@ n := r_get rr_next_file_number_ in
  let@ _ := r_set (fun r => set_next_number r (u64 (n + 1))) in
  r_ret n.

(** ** Converting logs *)

(** A batch that cannot be read goes in as far as it can; then the rest of the log is read. *)
Fixpoint convert_loop (rounds : nat) (reader : Reader SFile) (mem : MemTable) : res MemTable :=
  match rounds with
  | O => OutOfFuel
  | S rounds =>
      match ReadRecord char_is_signed fuel reader with
      | None => OutOfFuel
      | Some (reader, None) => Ok mem
      | Some (reader, Some record) =>
          if size record <? 12 then convert_loop rounds reader mem
          else
            match InsertInto (SetContents record) (Some mem) with
            | Some (Some mem, _) => convert_loop rounds reader mem
            | _ => Undefined
            end
      end
  end.

(** The reader does not verify checksums. *)
Definition ConvertLogToTable (log : Z) : RProg Status :=
  let@ dbname := r_get rr_dbname in
  let@ o := r_get rr_options in
  let@ opened := r_fs (fun w => (w, env_NewSequentialFile w (LogFileName dbname log))) in
  match opened with
  | inr status => r_ret status
  | inl lfile =>
      let@ mem := r_lift (convert_loop fuel (NewReader lfile true false 0) NewMemTable) in
      let@ number := take_number in
      let@ r := r_prog (BuildTable (mem_fuel mem) dbname o (MemTable_NewIterator mem) (NewFileMetaData number 0 [] [])) in
      let '(meta, status) := r in
      let@ _ := if Status_ok status && (file_size meta >? 0) then r_set (fun r => push_table_number r number) else r_ret tt in
      r_ret status
  end.

Definition ConvertLogFilesToTables : RProg () :=
  let@ dbname := r_get rr_dbname in
  let@ logs := r_get logs_ in
  r_each (fun log =>
    let@ _ := ConvertLogToTable log in
    ArchiveFile (LogFileName dbname log)) logs.

(** ** Scanning tables *)

Definition NewTableIterator (meta : FileMetaData) : RProg I :=
  let@ o := r_get rr_options in
  r_tables (fun c => tc_NewIterator c (paranoid_checks (table_options o)) true (number meta) (file_size meta)).

Definition scanned_key (t : TableInfo) (empty : bool) (key : bytes) (parsed : ParsedInternalKey) : TableInfo :=
  let meta := ti_meta t in
  let key := (InternalKey_DecodeFrom key).1 in
  MkTableInfo (set_file_meta meta (file_size meta) (if empty then key else smallest meta) key)
    (if sequence parsed >? max_sequence t then sequence parsed else max_sequence t).

(** Keys that cannot be parsed are passed over. *)
Fixpoint scan_loop (fuel : nat) (iter : I) (t : TableInfo) (empty : bool) : res (I * TableInfo) :=
  match fuel with
  | O => OutOfFuel
  | S fuel =>
      if it_Valid iter then
        let key := it_key iter in
        let '(t, empty) := match ParseInternalKey key with
                           | Some parsed => (scanned_key t empty key parsed, false)
                           | None => (t, empty)
                           end in
        let? iter := it_Next iter in
        scan_loop fuel iter t empty
      else Ok (iter, t)
  end.

(** All that can be read of the table, in order, and how many entries that is. *)
Fixpoint copy_table_loop (fuel : nat) (iter : I) (b : Builder) (counter : Z) : res (Builder * Z) :=
  match fuel with
  | O => OutOfFuel
  | S fuel =>
      if it_Valid iter then
        let? value := it_value iter in
        let b := TableBuilder_Add (C := InternalKeyComparator C) b (it_key iter) value in
        let? iter := it_Next iter in
        copy_table_loop fuel iter b (int32 (counter + 1))
      else Ok (b, counter)
  end.

(** The copy takes the place of the table, which is archived; a file that could not be
    finished is removed. *)
Definition RepairTable (src : bytes) (t : TableInfo) : RProg () :=
  let@ dbname := r_get rr_dbname in
  let@ o := r_get rr_options in
  let@ n := take_number in
  let copy := TableFileName dbname n in
  let@ opened := r_fs (fun w => env_NewWritableFile w copy) in
  match opened with
  | inr _ => r_ret tt
  | inl file =>
      let@ builder := r_prog (new_builder o file) in
      let@ iter := NewTableIterator (ti_meta t) in
      let@ iter := r_lift (it_SeekToFirst iter) in
      let@ r := r_prog (with_builder (fun b => copy_table_loop fuel iter b 0) builder) in
      let '(builder, counter) := r in
      let@ _ := ArchiveFile src in
      let@ r := if counter =? 0 then r_ret (TableBuilder_Abandon builder, Status_OK)
                else r_prog (with_builder (TableBuilder_Finish (C := InternalKeyComparator C)) builder) in
      let '(builder, s) := r in
      let meta := ti_meta t in
      let meta := if negb (counter =? 0) && Status_ok s
                  then set_file_meta meta (FileSize builder) (smallest meta) (largest meta) else meta in
      let t := MkTableInfo meta (max_sequence t) in
      let@ s := r_fs (fun w =>
        let '(w, s) := if Status_ok s then wfile_Close w file else (w, s) in
        (wfile_delete w file, s)) in
      let@ s :=
        if (counter >? 0) && Status_ok s then
          let@ s := r_fs (fun w => env_RenameFile w copy (TableFileName dbname (number meta))) in
          let@ _ := if Status_ok s then r_set (fun r => push_table r t) else r_ret tt in
          r_ret s
        else r_ret s in
      if negb (Status_ok s) then r_fs (fun w => ((env_RemoveFile w copy).1, tt)) else r_ret tt
  end.

(** The size of the table under its name or that of older versions, and the name; the error
    is that of the first. *)
Definition table_size (w : FS) (dbname : bytes) (number : Z) : (bytes * Z) + Status :=
  let fname := TableFileName dbname number in
  match env_GetFileSize w fname with
  | inl n => inl (fname, n)
  | inr status =>
      let fname := SSTTableFileName dbname number in
      match env_GetFileSize w fname with
      | inl n => inl (fname, n)
      | inr _ => inr status
      end
  end.

Definition ScanTable (number : Z) : RProg () :=
  let@ dbname := r_get rr_dbname in
  let@ found := r_fs (fun w => (w, table_size w dbname number)) in
  match found with
  | inr _ =>
      let@ _ := ArchiveFile (TableFileName dbname number) in
      ArchiveFile (SSTTableFileName dbname number)
  | inl (fname, n) =>
      let meta := NewFileMetaData number n [] [] in
      let@ iter := NewTableIterator meta in
      let@ iter := r_lift (it_SeekToFirst iter) in
      let@ r := r_lift (scan_loop fuel iter (MkTableInfo meta 0) true) in
      let '(iter, t) := r in
      if Status_ok (it_status iter) then r_set (fun r => push_table r t) else RepairTable fname t
  end.

Definition ExtractMetaData : RProg () :=
  let@ numbers := r_get table_numbers_ in
  r_each ScanTable numbers.

(** ** The descriptor *)

Definition max_table_sequence (tables : list TableInfo) : Z :=
  foldl (fun m t => if m <? max_sequence t then max_sequence t else m) 0 tables.

(** What [WriteDescriptor] makes of [edit_]. *)
Definition descriptor_edit (r : Repairer) : VersionEdit :=
  let edit := SetComparatorName (edit_ r) cmp_Name in
  let edit := SetLogNumber edit 0 in
  let edit := SetNextFile edit (rr_next_file_number_ r) in
  let edit := SetLastSequence edit (max_table_sequence (tables_ r)) in
  foldl (fun edit t => let m := ti_meta t in AddFile edit 0 (number m) (file_size m) (smallest m) (largest m)) edit (tables_ r).

Definition WriteDescriptor : RProg Status :=
  let@ dbname := r_get rr_dbname in
  let tmp := TempFileName dbname 1 in
  let@ opened := r_fs (fun w => env_NewWritableFile w tmp) in
  match opened with
  | inr status => r_ret status
  | inl file =>
      let@ _ := r_set (fun r => set_edit r (descriptor_edit r)) in
      let@ edit := r_get edit_ in
      let@ status := r_fs_res (fun w =>
        let? r := log_record w (file, 0) (VersionEdit_EncodeTo edit []) in
        let '(w, _, s) := r in
        let '(w, s) := if Status_ok s then wfile_Close w file else (w, s) in
        Ok (wfile_delete w file, s)) in
      if negb (Status_ok status) then let@ _ := r_fs (fun w => env_RemoveFile w tmp) in r_ret status
      else
        let@ manifests := r_get manifests_ in
        let@ _ := r_each (fun m => ArchiveFile (dbname ++ str "/" ++ m)) manifests in
        let@ status := r_fs (fun w => env_RenameFile w tmp (DescriptorFileName dbname 1)) in
        if Status_ok status then r_fs (fun w => SetCurrentFile w dbname 1)
        else let@ _ := r_fs (fun w => env_RemoveFile w tmp) in r_ret status
  end.

(** ** All of it *)

Definition Run : RProg Status :=
  let@ status := FindFiles in
  if Status_ok status then
    let@ _ := ConvertLogFilesToTables in
    let@ _ := ExtractMetaData in
    WriteDescriptor
  else r_ret status.

(** [tables] makes the table cache, for so many files; the lock of the database is not
    taken. *)
Definition RepairDB (w : FS) (tables : FS -> DbOptions -> Z -> T) (dbname : bytes) (options : DbOptions)
    : res (Status * RepairWorld FS T) :=
  let '(w, o) := SanitizeOptions w dbname options in
  Run (MkRepairWorld w (tables w o 10) (NewRepairer dbname o)).
End repair.

(** ** Archiving a file *)

Lemma c_str_id s : x00 ∉ s -> c_str s = s.
Proof.
  induction s as [|c s IH]; intros Hn; [done|]. cbn. rewrite bool_decide_eq_false_2 by (intros ->; apply Hn; left).
  f_equal. apply IH. intros H. apply Hn. by right.
Qed.

Lemma strrchr_slash_base base : x2f ∉ base -> strrchr_slash base = None.
Proof.
  induction base as [|c s IH]; intros Hn; [done|]. cbn. rewrite IH by (intros H; apply Hn; by right).
  by rewrite bool_decide_eq_false_2 by (intros ->; apply Hn; left).
Qed.

Lemma strrchr_slash_path dir base : x2f ∉ base -> strrchr_slash (dir ++ str "/" ++ base) = Some (dir, base).
Proof.
  intros Hb. induction dir as [|c s IH]; cbn [app].
  - cbn. by rewrite strrchr_slash_base.
  - cbn. unfold str in IH. cbn in IH. by rewrite IH.
Qed.

Lemma archived_path dbname base : x00 ∉ dbname -> x00 ∉ base -> x2f ∉ base ->
  archived_as (dbname ++ str "/" ++ base) = (dbname ++ str "/lost", (dbname ++ str "/lost") ++ str "/" ++ base).
Proof.
  intros Hd H0 Hs. unfold archived_as. rewrite c_str_id, strrchr_slash_path; [done..|].
  rewrite !elem_of_app. intros [H|[H|H]]; [done| |done]. cbn in H. by rewrite elem_of_cons, elem_of_nil in H; destruct H.
Qed.

(** ** Names of descriptors *)

Lemma ConsumeDecimal_digits p : forall v n value rest consumed,
  ConsumeDecimal_loop v n p = Some (value, rest, consumed) -> exists ds, p = ds ++ rest /\ Forall (fun c => is_digit c = true) ds.
Proof.
  induction p as [|c p IH]; intros v n value rest consumed E; cbn [ConsumeDecimal_loop] in E.
  - injection E as <- <- <-. by exists [].
  - destruct (is_digit c) eqn:Hc; cbn [negb] in E; [|injection E as <- <- <-; by exists []].
    destruct (_ || _); [done|]. apply IH in E as (ds & -> & Hds). exists (c :: ds). split; [done|by constructor].
Qed.

Lemma descriptor_base m n : ParseFileName m = Some (n, kDescriptorFile) ->
  exists ds, m = str "MANIFEST-" ++ ds /\ Forall (fun c => is_digit c = true) ds.
Proof.
  unfold ParseFileName. repeat (case_bool_decide; cbn [orb]; [done|]). intros E.
  destruct (Slice_starts_with m (str "MANIFEST-")) eqn:Es.
  - rewrite Slice_starts_with_spec in Es. apply bool_decide_eq_true in Es.
    destruct (consume (drop (length (str "MANIFEST-")) m)) as [[num [|c rest]]|] eqn:Ec; [|done..]. unfold consume, ConsumeDecimalNumber in Ec.
    destruct (ConsumeDecimal_loop 0 0 _) as [[[value rest] consumed]|] eqn:El; [|done]. destruct (negb _); [|done]. injection Ec as -> ->.
    apply ConsumeDecimal_digits in El as (ds & Hds & Hf). exists ds. split; [|done]. rewrite <- (take_drop (length (str "MANIFEST-")) m), Es, Hds. by rewrite app_nil_r.
  - destruct (consume m) as [[num suffix]|]; cbn in E; [|done]. repeat (case_bool_decide; cbn [orb] in E; [done|]). done.
Qed.

Lemma descriptor_plain m n : ParseFileName m = Some (n, kDescriptorFile) -> (x00 ∉ m) /\ (x2f ∉ m).
Proof.
  intros (ds & -> & Hf)%descriptor_base. rewrite !elem_of_app. rewrite list.Forall_forall in Hf.
  assert (Hs : forall c, is_digit c = false -> c ∉ str "MANIFEST-" -> ~ (c ∈ str "MANIFEST-" \/ c ∈ ds)).
  { intros c Hc Hn [H|H]; [done|]. apply Hf in H. congruence. }
  split; apply Hs; try done; by apply (bool_decide_unpack _); vm_compute.
Qed.

(** ** The descriptor a repair writes *)

Section descriptor.
Context `{C : Comparator} `{FL : FileEnvLaws} {DE : DbEnv (FE := FE)} {T : Type} `{TE : !TableEvict T} `{Sn : Snappy}.
Context {I : Type} `{TF : !TableFiles (FS * T) I (It := It)}.
Context (dir_safe : forall w dir n, contents (env_CreateDir w dir).1 n = contents w n).

Lemma archive_keeps w fname n : n <> fname -> n <> (archived_as fname).2 -> contents (archive w fname) n = contents w n.
Proof.
  intros H1 H2. unfold archive. destruct (archived_as fname) as [dir name]. cbn in H2. destruct (env_RenameFile _ _ _) as [w' s] eqn:Er.
  apply env_Rename in Er. cbn. rewrite <- (dir_safe w dir n). destruct (Status_ok s); [by apply Er|by apply Er].
Qed.

Lemma archive_descriptor_keeps w dbname m n base :
  x00 ∉ dbname -> ParseFileName m = Some (n, kDescriptorFile) -> take 4 base <> str "lost" -> base <> m ->
  contents (archive w (dbname ++ str "/" ++ m)) (dbname ++ str "/" ++ base) = contents w (dbname ++ str "/" ++ base).
Proof.
  intros Hd Hm Hb Hne. destruct (descriptor_plain m n Hm) as [H0 Hs]. apply archive_keeps.
  - intros Eq%app_inv_head. by apply app_inv_head in Eq.
  - rewrite archived_path by done. cbn [snd]. rewrite <- !app_assoc. intros Eq%app_inv_head. apply Hb.
    change (str "/lost" ++ str "/" ++ m) with (str "/" ++ (str "lost" ++ str "/" ++ m)) in Eq. apply app_inv_head in Eq as ->. done.
Qed.

Definition archive_all (dbname : bytes) (w : FS) (ms : list bytes) : FS := foldl (fun w m => archive w (dbname ++ str "/" ++ m)) w ms.

Lemma each_archived dbname ms : forall (w : RepairWorld FS T),
  r_each (fun m => ArchiveFile (dbname ++ str "/" ++ m)) ms w = Ok (tt, MkRepairWorld (archive_all dbname (rw_fs w) ms) (rw_tables w) (rw_repairer w)).
Proof. induction ms as [|m ms IH]; intros w; [by destruct w|]. cbn [r_each]. unfold r_bind, ArchiveFile at 1, r_fs. cbn [res_bind fst snd]. by rewrite IH. Qed.

Lemma archive_all_keeps dbname base ms : x00 ∉ dbname -> take 4 base <> str "lost" ->
  Forall (fun m => exists n, ParseFileName m = Some (n, kDescriptorFile)) ms -> base ∉ ms ->
  forall w, contents (archive_all dbname w ms) (dbname ++ str "/" ++ base) = contents w (dbname ++ str "/" ++ base).
Proof.
  intros Hd Hb. induction ms as [|m ms IH]; intros Hms Hn w; [done|]. apply list.Forall_cons in Hms as [(n & Hm) Hms].
  apply not_elem_of_cons in Hn as [Hne Hn]. unfold archive_all in *. cbn [foldl]. rewrite IH by done. by eapply archive_descriptor_keeps.
Qed.

(** What [WriteDescriptor] leaves when it succeeds. *)
Record described (w : FS) (dbname : bytes) (e : VersionEdit) : Prop := {
  ds_current : contents w (CurrentFileName dbname) = Some ((str "MANIFEST-" ++ decimal6 1) ++ [x0a]);
  ds_log : exists out off, contents w (DescriptorFileName dbname 1) = Some out /\ log_file 0 [encoded e] out off
}.

Context (trailers : trailer_safe (F := FS * WFile)).

Lemma WriteDescriptor_ok (w w' : RepairWorld FS T) s : let r := rw_repairer w in
  x00 ∉ rr_dbname r -> Forall (fun m => exists n, ParseFileName m = Some (n, kDescriptorFile)) (manifests_ r) ->
  WriteDescriptor w = Ok (s, w') -> Status_ok s = true ->
  described (rw_fs w') (rr_dbname r) (descriptor_edit r) /\ rw_repairer w' = set_edit r (descriptor_edit r).
Proof.
  intros r Hd Hms. unfold WriteDescriptor, r_bind, r_get, r_fs. cbn [res_bind fst snd rw_fs]. fold r. set (dbname := rr_dbname r) in *.
  destruct (env_NewWritableFile (rw_fs w) (TempFileName dbname 1)) as [w0 [f|s0]] eqn:E0; cbn [fst snd].
  2: { apply env_New_fail in E0 as [H0 _]. intros [= <- <-]. congruence. }
  apply env_New_ok in E0 as (Hf & Hc & _). unfold r_set, r_fs_res. cbn [res_bind fst snd rw_fs rw_repairer rw_tables edit_ set_edit]. fold r.
  set (e := descriptor_edit r). change (VersionEdit_EncodeTo e []) with (encoded e).
  assert (Hh : holds_log w0 (f, 0) (TempFileName dbname 1) []).
  { split; [done|]. exists []. split; [done|]. split; [constructor|]. cbn. unfold kBlockSize. lia. }
  destruct (log_record_holds trailers w0 (f, 0) _ _ (encoded e) Hh) as (w1 & d1 & s1 & -> & Hd1 & _ & H1). cbn [res_bind app] in *.
  assert (H2 : exists w2 s2, (if Status_ok s1 then wfile_Close w1 f else (w1, s1)) = (w2, s2) /\
    (Status_ok s2 = true -> exists out off, contents w2 (TempFileName dbname 1) = Some out /\ log_file 0 [encoded e] out off)).
  { destruct (Status_ok s1) eqn:Es1; [|exists w1, s1; by rewrite Es1]. destruct (wfile_Close w1 f) as [w2 s2] eqn:E2. exists w2, s2. split; [done|].
    intros Hs2. apply env_Close in E2 as [H2 _]. specialize (H2 Hs2). rewrite Hf in H2. destruct (H1 eq_refl) as (_ & out & Ho & Hl & _).
    exists out, d1.2. by rewrite H2. }
  destruct H2 as (w2 & s2 & -> & H2). cbn [res_bind fst snd rw_fs rw_repairer rw_tables].
  destruct (Status_ok s2) eqn:Es2; cbn [negb]; [|by intros [= <- <-] ?; congruence]. destruct (H2 eq_refl) as (out & off & Ho & Hl).
  rewrite each_archived. cbn [res_bind fst snd rw_fs rw_repairer rw_tables manifests_ set_edit]. fold r.
  set (w3 := archive_all _ _ _).
  assert (H3 : contents w3 (TempFileName dbname 1) = Some out).
  { unfold w3. change (TempFileName dbname 1) with (dbname ++ str "/" ++ (decimal6 1 ++ str ".dbtmp")). rewrite archive_all_keeps; [by rewrite env_delete|done|done|done|].
    intros Hin. rewrite list.Forall_forall in Hms. destruct (Hms _ Hin) as (n & Hn). revert Hn. vm_compute. done. }
  destruct (env_RenameFile w3 _ _) as [w4 s4] eqn:E4. apply env_Rename in E4. cbn [fst snd]. destruct (Status_ok s4) eqn:Es4; [|by intros [= <- <-] ?; congruence].
  destruct E4 as [E4 _]. destruct (SetCurrentFile_spec w4 dbname 1) as [H5 H6]; [lia|]. cbn [rw_fs rw_tables rw_repairer fst snd].
  destruct (SetCurrentFile w4 dbname 1) as [w5 s5]. cbn [fst snd rw_fs rw_repairer] in *.
  intros [= <- <-] Hs. rewrite Hs in H5. split; [|done]. split; [exact H5|]. exists out, off. split; [|done]. cbn [rw_fs].
  rewrite H6, E4; [done|apply descriptor_not_current|by apply descriptor_not_temp].
Qed.
End descriptor.

(** ** What the steps do to the variables *)

(** Numbers are taken and tables added. *)
Definition taken (r : Repairer) (b : bool) : Repairer :=
  if b then set_next_number r (u64 (rr_next_file_number_ r + 1)) else r.
Definition maybe_table (r : Repairer) (t : option TableInfo) : Repairer :=
  match t with Some t => push_table r t | None => r end.
Definition maybe_number (r : Repairer) (n : option Z) : Repairer :=
  match n with Some n => push_table_number r n | None => r end.

Section steps.
Context `{C : Comparator} `{DE : DbEnv} {T : Type} `{TE : !TableEvict T} `{Sn : Snappy}.
Context {I : Type} `{TF : !TableFiles (FS * T) I (It := It)}.
Context (char_is_signed : bool) (fuel : nat).
Implicit Type w : RepairWorld FS T.

Definition changes {A} (m : RProg FS T A) (P : Repairer -> Repairer -> Prop) : Prop :=
  forall w a w', m w = Ok (a, w') -> P (rw_repairer w) (rw_repairer w').

Lemma r_bind_inv {A B} (m : RProg FS T A) (k : A -> RProg FS T B) w b w2 : r_bind m k w = Ok (b, w2) ->
  exists a w1, m w = Ok (a, w1) /\ k a w1 = Ok (b, w2).
Proof. unfold r_bind. destruct (m w) as [[a w1]| |]; [|done..]. cbn. intros H. by exists a, w1. Qed.

Lemma r_get_inv {A} (f : Repairer -> A) w a w' : r_get f w = Ok (a, w') -> a = f (rw_repairer w) /\ w' = w.
Proof. by intros [= <- <-]. Qed.

Lemma r_set_inv f w a w' : r_set f w = Ok (a, w') -> rw_repairer w' = f (rw_repairer w).
Proof. by intros [= <- <-]. Qed.

(** Steps that leave the variables alone. *)
Lemma changes_fs {A} (f : FS -> FS * A) : changes (r_fs f) (fun r r' => r' = r).
Proof. by intros w a w' [= <- <-]. Qed.
Lemma changes_lift {A} (x : res A) : changes (r_lift x) (fun r r' => r' = r).
Proof. intros w a w' He. unfold r_lift in He. destruct x; [|done..]. by injection He as <- <-. Qed.
Lemma changes_tables {A} (f : FS * T -> res (FS * T * A)) : changes (r_tables f) (fun r r' => r' = r).
Proof. intros w a w' He. unfold r_tables in He. destruct (f _) as [[[fs t] x]| |]; [|done..]. by injection He as <- <-. Qed.
Lemma changes_prog {W A} (m : Prog FS T W A) : changes (r_prog m) (fun r r' => r' = r).
Proof. intros w a w' He. unfold r_prog in He. destruct (m _) as [[x w1]| |]; [|done..]. by injection He as <- <-. Qed.
Lemma changes_ret {A} (a : A) : changes (r_ret a) (fun r r' => r' = r).
Proof. by intros w x w' [= <- <-]. Qed.

Lemma take_number_inv w n w' : take_number w = Ok (n, w') -> n = rr_next_file_number_ (rw_repairer w) /\ rw_repairer w' = taken (rw_repairer w) true.
Proof. by intros [= <- <-]. Qed.

Lemma changes_archive fname : changes (ArchiveFile fname) (fun r r' => r' = r).
Proof. apply changes_fs. Qed.

Lemma changes_iterator meta : changes (NewTableIterator meta) (fun r r' => r' = r).
Proof. intros w a w' He. unfold NewTableIterator in He. apply r_bind_inv in He as (o & w1 & [-> ->]%r_get_inv & He). by apply changes_tables in He. Qed.
End steps.

(** Takes a program's equation apart. *)
Ltac r_step He :=
  let a := fresh "a" in let w := fresh "w" in let Ea := fresh "Ea" in let Er := fresh "Er" in
  apply r_bind_inv in He as (a & w & Ea & He);
  lazymatch type of Ea with
  | r_get _ _ = _ => apply r_get_inv in Ea as [-> ->]
  | r_fs _ _ = _ => pose proof (changes_fs _ _ _ _ Ea) as Er
  | r_lift _ _ = _ => pose proof (changes_lift _ _ _ _ Ea) as Er
  | r_prog _ _ = _ => pose proof (changes_prog _ _ _ _ Ea) as Er
  | r_set _ _ = _ => pose proof (r_set_inv _ _ _ _ Ea) as Er
  | ArchiveFile _ _ = _ => pose proof (changes_archive _ _ _ _ Ea) as Er
  | NewTableIterator _ _ = _ => pose proof (changes_iterator _ _ _ _ Ea) as Er
  | take_number _ = _ => apply take_number_inv in Ea as [-> Er]
  | _ => idtac
  end; cbv beta in *.

Ltac r_same := unfold maybe_number, maybe_table, taken in *; congruence.

Section steps2.
Context `{C : Comparator} `{DE : DbEnv} {T : Type} `{TE : !TableEvict T} `{Sn : Snappy}.
Context {I : Type} `{TF : !TableFiles (FS * T) I (It := It)}.
Context (char_is_signed : bool) (fuel : nat).

Lemma changes_ConvertLogToTable log : changes (ConvertLogToTable char_is_signed fuel log) (fun r r' => exists b n,
  r' = maybe_number (taken r b) n /\ (n = None \/ b = true /\ n = Some (rr_next_file_number_ r))).
Proof.
  intros w s w' He. unfold ConvertLogToTable in He. r_step He. r_step He. r_step He. destruct a as [f|s1].
  2: { injection He as <- <-. exists false, None. split; [done|by left]. }
  r_step He. r_step He. r_step He. destruct a0 as [meta s0]. apply r_bind_inv in He as (u & w4 & E1 & He). injection He as <- <-.
  exists true. destruct (Status_ok s0 && _).
  - apply r_set_inv in E1. exists (Some (rr_next_file_number_ (rw_repairer w))). split; [r_same|right; by split].
  - injection E1 as <- <-. exists None. split; [r_same|by left].
Qed.

Lemma sequence_fits key parsed : ParseInternalKey key = Some parsed -> fits 64 (sequence parsed).
Proof.
  unfold ParseInternalKey. destruct (_ <? _)%nat; [done|]. destruct (_ <=? _); [|done]. intros [= <-]. cbn.
  pose proof (DecodeFixed64_fits (drop (length key - 8) key)) as Hf. unfold key_tag, fits in *. rewrite Z.shiftr_div_pow2 by lia.
  split; [apply Z.div_pos; lia|]. apply Z.div_lt_upper_bound; lia.
Qed.

Lemma scan_loop_keeps n : forall iter t empty iter' t', scan_loop n iter t empty = Ok (iter', t') -> fits 64 (max_sequence t) ->
  fits 64 (max_sequence t') /\ number (ti_meta t') = number (ti_meta t).
Proof.
  induction n as [|n IH]; intros iter t empty iter' t' He Hf; [done|]. cbn [scan_loop] in He. destruct (it_Valid iter); [|by injection He as <- <-].
  destruct (ParseInternalKey (it_key iter)) as [parsed|] eqn:Ep.
  - destruct (it_Next iter) as [iter1| |]; [|done..]. cbn [res_bind] in He. apply IH in He; [|cbn; destruct (_ >? _); [by eapply sequence_fits|done]].
    destruct He as [E1 E2]. by split.
  - destruct (it_Next iter) as [iter1| |]; [|done..]. cbn [res_bind] in He. by apply IH in He.
Qed.

Lemma changes_RepairTable src t : changes (RepairTable fuel src t) (fun r r' => exists b t1,
  r' = maybe_table (taken r b) t1 /\ forall u, t1 = Some u -> number (ti_meta u) = number (ti_meta t) /\ max_sequence u = max_sequence t).
Proof.
  intros w s w' He. unfold RepairTable in He. r_step He. r_step He. r_step He. r_step He. exists true. destruct a as [file|s1].
  2: { injection He as <- <-. exists None. split; [r_same|done]. }
  r_step He. r_step He. r_step He. r_step He. destruct a2 as [b counter]. r_step He.
  apply r_bind_inv in He as ([b' s1] & wf & E1 & He).
  assert (H1 : rw_repairer wf = rw_repairer w6) by (destruct (counter =? 0); [by injection E1 as _ _ <-|by apply changes_prog in E1]). clear E1.
  r_step He. apply r_bind_inv in He as (s2 & wr & E2 & He).
  assert (H2 : rw_repairer w' = rw_repairer wr) by (destruct (Status_ok s2); [by injection He as _ <-|by apply changes_fs in He]). clear He.
  destruct ((counter >? 0) && _).
  - r_step E2. apply r_bind_inv in E2 as (u & wp & E3 & E2). injection E2 as -> ->. destruct (Status_ok s2).
    + apply r_set_inv in E3. eexists (Some _). split; [unfold maybe_table; rewrite H2, E3; f_equal; r_same|]. intros u0 [= <-]. cbn. by destruct (_ && _).
    + injection E3 as <- <-. exists None. split; [r_same|done].
  - injection E2 as <- <-. exists None. split; [r_same|done].
Qed.

Lemma changes_ScanTable n : changes (ScanTable fuel n) (fun r r' => exists b t1,
  r' = maybe_table (taken r b) t1 /\ forall u, t1 = Some u -> number (ti_meta u) = n /\ fits 64 (max_sequence u)).
Proof.
  intros w s w' He. unfold ScanTable in He. r_step He. r_step He. destruct a as [[fname size]|s1].
  2: { r_step He. apply changes_archive in He. exists false, None. split; [r_same|done]. }
  r_step He. r_step He. r_step He. destruct a1 as [iter t]. unfold r_lift in Ea2.
  destruct (scan_loop fuel a0 _ true) as [[iter' t']| |] eqn:El; [|done..]. cbn [res_bind] in Ea2. injection Ea2 as <- <- _.
  apply scan_loop_keeps in El as [Hs Hn]; [|done]. cbn in Hn. destruct (Status_ok (it_status iter')).
  - apply r_set_inv in He. exists false, (Some t'). split; [r_same|]. intros u [= <-]. done.
  - apply changes_RepairTable in He as (b & t1 & He & H). exists b, t1. split; [congruence|]. intros u Hu. destruct (H u Hu) as [-> ->]. done.
Qed.
End steps2.

(** ** What is found *)

Definition numbers_of (t : FileType) (filenames : list bytes) : list Z :=
  omap (fun f => match ParseFileName f with Some (n, t') => if decide (t' = t) then Some n else None | None => None end) filenames.

(** The numbers that count: those of all files but descriptors. *)
Definition counted (filenames : list bytes) (n : Z) : Prop :=
  exists f t, f ∈ filenames /\ ParseFileName f = Some (n, t) /\ t <> kDescriptorFile.

Record found (dbname : bytes) (o : DbOptions) (filenames : list bytes) (r : Repairer) : Prop := {
  fo_rest : r = MkRepairer dbname o NewVersionEdit (manifests_ r) (numbers_of kTableFile filenames) (numbers_of kLogFile filenames) [] (rr_next_file_number_ r);
  fo_manifests : Forall (fun m => exists n, ParseFileName m = Some (n, kDescriptorFile)) (manifests_ r);
  fo_next : (forall n, counted filenames n -> n < rr_next_file_number_ r) /\
    forall b, 1 <= b -> (forall n, counted filenames n -> n + 1 <= b) -> 1 <= rr_next_file_number_ r <= b
}.

Lemma numbers_of_snoc t fs f : numbers_of t (fs ++ [f]) =
  numbers_of t fs ++ match ParseFileName f with Some (n, t') => if decide (t' = t) then [n] else [] | None => [] end.
Proof. unfold numbers_of. rewrite omap_app. f_equal. cbn. destruct (ParseFileName f) as [[n t']|]; [|done]. by destruct (decide (t' = t)). Qed.

Lemma counted_snoc fs f n : counted (fs ++ [f]) n <-> counted fs n \/ exists t, ParseFileName f = Some (n, t) /\ t <> kDescriptorFile.
Proof.
  unfold counted. setoid_rewrite elem_of_app. setoid_rewrite list_elem_of_singleton. split.
  - intros (g & t & [Hg| ->] & H); [left; by exists g, t|right; by exists t].
  - intros [(g & t & Hg & H)|(t & H)]; [exists g, t; auto|exists f, t; auto].
Qed.

(** No file number is so large that the next one wraps round. *)
Lemma found_files dbname o filenames : (forall n, counted filenames n -> 0 <= n < 2 ^ 64 - 1) ->
  found dbname o filenames (foldl found_file (NewRepairer dbname o) filenames).
Proof.
  induction filenames as [|f fs IH] using rev_ind; intros Hb.
  { cbn. split; [done|constructor|]. split; [by intros n (g & t & H & _); apply elem_of_nil in H|cbn; lia]. }
  rewrite foldl_app. cbn [foldl]. specialize (IH (fun n Hn => Hb n (proj2 (counted_snoc fs f n) (or_introl Hn)))).
  pose proof (fun n => counted_snoc fs f n) as Hcs. pose proof (numbers_of_snoc kTableFile fs f) as Ht. pose proof (numbers_of_snoc kLogFile fs f) as Hl.
  destruct (foldl found_file (NewRepairer dbname o) fs) as [d0 o0 e0 ms tn ls ts next]. destruct IH as [Hr Hm [Hn1 Hn2]]. cbn in Hr, Hm, Hn1, Hn2.
  injection Hr as -> -> -> -> -> ->. destruct (ParseFileName f) as [[n t]|] eqn:Ep.
  2: { unfold found_file. rewrite Ep. rewrite app_nil_r in Ht, Hl. split; cbn; [by rewrite Ht, Hl|done|]. split.
    - intros n [H|(t & H & _)]%Hcs; [by apply Hn1|done].
    - intros b H1 H2. apply Hn2; [done|]. intros n Hn. apply H2, Hcs. by left. }
  destruct (decide (t = kDescriptorFile)) as [->|Hd].
  { unfold found_file. rewrite Ep. cbn in Ht, Hl. rewrite app_nil_r in Ht, Hl. split; cbn; [by rewrite Ht, Hl|apply list.Forall_app; split; [done|repeat constructor; by exists n]|]. split.
    - intros n' [H|(t & [= <- <-] & Hx)]%Hcs; [by apply Hn1|done].
    - intros b H1 H2. apply Hn2; [done|]. intros n' Hn. apply H2, Hcs. by left. }
  assert (Hn : counted (fs ++ [f]) n) by (apply Hcs; right; by exists t). pose proof (Hb n Hn) as Hbn.
  set (next' := if n + 1 >? next then n + 1 else next).
  assert (Hf : found_file (MkRepairer dbname o NewVersionEdit ms (numbers_of kTableFile fs) (numbers_of kLogFile fs) [] next) f =
    MkRepairer dbname o NewVersionEdit ms (numbers_of kTableFile (fs ++ [f])) (numbers_of kLogFile (fs ++ [f])) [] next').
  { unfold found_file. rewrite Ep, Ht, Hl. assert (Hu : u64 (n + 1) = n + 1) by (rewrite wrap_id; [done|unfold fits; lia]). rewrite Hu. unfold next'.
    destruct t; try done; cbn; rewrite ?app_nil_r; by destruct (n + 1 >? next). }
  rewrite Hf. split; cbn; [done|done|]. split.
  - intros n' [H%Hn1|(t' & [= <- <-] & _)]%Hcs; unfold next'; destruct (Z.gtb_spec (n + 1) next); lia.
  - intros b H1 H2. pose proof (H2 n Hn). specialize (Hn2 b H1 (fun n' H' => H2 n' (proj2 (Hcs n') (or_introl H')))).
    unfold next'. destruct (Z.gtb_spec (n + 1) next); lia.
Qed.

Section loops.
Context `{C : Comparator} `{DE : DbEnv} {T : Type} `{TE : !TableEvict T} `{Sn : Snappy}.
Context {I : Type} `{TF : !TableFiles (FS * T) I (It := It)}.
Context (char_is_signed : bool) (fuel : nat).
Implicit Type w : RepairWorld FS T.

Lemma FindFiles_ok w w' s : FindFiles w = Ok (s, w') -> Status_ok s = true ->
  w' = MkRepairWorld (rw_fs w) (rw_tables w) (foldl found_file (rw_repairer w) (env_GetChildren (rw_fs w) (rr_dbname (rw_repairer w))).1).
Proof.
  unfold FindFiles, r_bind, r_get, r_fs. cbn [res_bind fst snd rw_fs]. destruct (env_GetChildren _ _) as [names s0]. cbn [fst snd].
  destruct (negb (Status_ok s0)) eqn:Es; [intros [= <- <-] Hs; by rewrite Hs in Es|]. destruct names as [|f fs]; [by intros [= <- <-]|].
  by intros [= <- <-] _.
Qed.

(** The tables made of logs get numbers of their own. *)
Lemma convert_logs dbname logs : forall w w', r_each (fun log => let@ _ := ConvertLogToTable char_is_signed fuel log in ArchiveFile (LogFileName dbname log)) logs w = Ok (tt, w') ->
  let r := rw_repairer w in 0 <= rr_next_file_number_ r -> rr_next_file_number_ r + Z.of_nat (length logs) < 2 ^ 64 ->
  exists fresh j, rw_repairer w' = MkRepairer (rr_dbname r) (rr_options r) (edit_ r) (manifests_ r) (table_numbers_ r ++ fresh) (logs_ r) (tables_ r) (rr_next_file_number_ r + j) /\
    0 <= j <= Z.of_nat (length logs) /\ Z.of_nat (length fresh) <= j /\ NoDup fresh /\ forall n, n ∈ fresh -> rr_next_file_number_ r <= n < rr_next_file_number_ r + j.
Proof.
  induction logs as [|log logs IH]; intros w w' He r H0 Hn; cbn [r_each] in He.
  { injection He as <-. exists [], 0. fold r. rewrite app_nil_r, Z.add_0_r. split; [by destruct r|]. split; [cbn; lia|]. split; [cbn; lia|]. split; [constructor|].
    intros n H. by apply elem_of_nil in H. }
  apply r_bind_inv in He as (u & w1 & E1 & He). apply r_bind_inv in E1 as (s & w0 & E1 & Ea). apply changes_archive in Ea. apply changes_ConvertLogToTable in E1 as (b & n & E1 & Hbn).
  fold r in E1, Hbn. cbn [length] in Hn. set (j0 := if b then 1 else 0).
  assert (H1 : rw_repairer w1 = MkRepairer (rr_dbname r) (rr_options r) (edit_ r) (manifests_ r) (table_numbers_ r ++ option_list n) (logs_ r) (tables_ r) (rr_next_file_number_ r + j0)).
  { rewrite Ea, E1. unfold taken, j0. assert (Hu : u64 (rr_next_file_number_ r + 1) = rr_next_file_number_ r + 1) by (rewrite wrap_id; [done|unfold fits; lia]).
    destruct b, n; cbn; rewrite ?Hu, ?app_nil_r, ?Z.add_0_r; try done; by destruct r. }
  apply IH in He as (fresh & j & E2 & Hj & Hl & Hnd & Hin); rewrite H1 in *; unfold j0 in *; cbn in *; [|destruct b; lia..].
  exists (option_list n ++ fresh), ((if b then 1 else 0) + j). rewrite E2, <- app_assoc, Z.add_assoc. split; [done|].
  destruct Hbn as [->|[-> ->]]; unfold option_list in *; cbn [option_rect app length] in *.
  - split; [destruct b; lia|]. split; [destruct b; lia|]. split; [done|]. intros n Hx. apply Hin in Hx. destruct b; lia.
  - split; [lia|]. split; [lia|]. split; [constructor; [|done]; intros Hx%Hin; lia|]. intros n [->|Hx]%elem_of_cons; [lia|]. apply Hin in Hx. lia.
Qed.

Lemma scan_tables ns : forall w w', r_each (ScanTable fuel) ns w = Ok (tt, w') ->
  let r := rw_repairer w in 0 <= rr_next_file_number_ r -> rr_next_file_number_ r + Z.of_nat (length ns) < 2 ^ 64 ->
  exists ts j, rw_repairer w' = MkRepairer (rr_dbname r) (rr_options r) (edit_ r) (manifests_ r) (table_numbers_ r) (logs_ r) (tables_ r ++ ts) (rr_next_file_number_ r + j) /\
    0 <= j <= Z.of_nat (length ns) /\ map (fun t => number (ti_meta t)) ts `sublist_of` ns /\ Forall (fun t => fits 64 (max_sequence t)) ts.
Proof.
  induction ns as [|n ns IH]; intros w w' He r H0 Hn; cbn [r_each] in He.
  { injection He as <-. exists [], 0. fold r. rewrite app_nil_r, Z.add_0_r. split; [by destruct r|]. split; [cbn; lia|]. split; [done|constructor]. }
  apply r_bind_inv in He as (u & w1 & E1 & He). apply changes_ScanTable in E1 as (b & t & E1 & Ht).
  fold r in E1. cbn [length] in Hn. set (j0 := if b then 1 else 0).
  assert (H1 : rw_repairer w1 = MkRepairer (rr_dbname r) (rr_options r) (edit_ r) (manifests_ r) (table_numbers_ r) (logs_ r) (tables_ r ++ option_list t) (rr_next_file_number_ r + j0)).
  { rewrite E1. unfold taken, j0. assert (Hu : u64 (rr_next_file_number_ r + 1) = rr_next_file_number_ r + 1) by (rewrite wrap_id; [done|unfold fits; lia]).
    destruct b, t; cbn; rewrite ?Hu, ?app_nil_r, ?Z.add_0_r; try done; by destruct r. }
  apply IH in He as (ts & j & E2 & Hj & Hs & Hf); rewrite H1 in *; unfold j0 in *; cbn in *; [|destruct b; lia..].
  exists (option_list t ++ ts), ((if b then 1 else 0) + j). rewrite E2, <- app_assoc, Z.add_assoc. split; [done|]. split; [destruct b; lia|].
  destruct t as [t|]; unfold option_list; cbn [option_rect app map].
  - destruct (Ht t eq_refl) as [-> Hft]. split; [by apply sublist_skip|by constructor].
  - split; [by apply sublist_cons|done].
Qed.
End loops.

(** ** Opening what a repair leaves *)

Lemma max_table_sequence_bound ts : Forall (fun t => fits 64 (max_sequence t)) ts ->
  fits 64 (max_table_sequence ts) /\ forall t, t ∈ ts -> max_sequence t <= max_table_sequence ts.
Proof.
  unfold max_table_sequence. induction ts as [|t ts IH] using rev_ind; intros Hf; [split; [done|by intros t H%elem_of_nil]|].
  apply list.Forall_app in Hf as [Hf [Ht _]%list.Forall_cons]. destruct (IH Hf) as [I1 I2]. rewrite foldl_app. cbn [foldl].
  destruct (Z.ltb_spec (foldl (fun m t => if m <? max_sequence t then max_sequence t else m) 0 ts) (max_sequence t)); (split; [done|]);
    intros u [Hu| ->%list_elem_of_singleton]%elem_of_app; try lia; specialize (I2 u Hu); lia.
Qed.

(** The table can be listed in a descriptor: it had a key, which [scan_loop] found. *)
Definition listable (t : TableInfo) : Prop :=
  fits 64 (number (ti_meta t)) /\ fits 64 (file_size (ti_meta t)) /\ key_ok (smallest (ti_meta t)) /\ key_ok (largest (ti_meta t)).

Section recover.
Context `{C : Comparator} `{!ComparatorLaws C}.

Lemma descriptor_edit_eq r : edit_ r = NewVersionEdit -> descriptor_edit r =
  MkEdit cmp_Name 0 0 (rr_next_file_number_ r) (max_table_sequence (tables_ r)) true true false true true [] []
    (map (fun t => (0, snapshot_file (ti_meta t))) (tables_ r)).
Proof.
  intros He. unfold descriptor_edit. rewrite He.
  assert (Hm : forall ts e, foldl (fun edit t => let m := ti_meta t in AddFile edit 0 (number m) (file_size m) (smallest m) (largest m)) e ts =
    foldl (fun edit f => AddFile edit 0 (number f) (file_size f) (smallest f) (largest f)) e (map ti_meta ts)).
  { induction ts as [|t ts IH]; intros e; [done|]. apply IH. }
  rewrite Hm. etransitivity; [apply foldl_AddFile|]. by rewrite map_map.
Qed.

Context (r : Repairer) (He : edit_ r = NewVersionEdit) (Hname : fits 32 (size cmp_Name)) (Hnext : fits 64 (rr_next_file_number_ r)).
Context (Hseq : Forall (fun t => fits 64 (max_sequence t)) (tables_ r)) (Hlist : Forall listable (tables_ r)).
Context (Hnd : NoDup (map (fun t => number (ti_meta t)) (tables_ r))).

Lemma descriptor_loggable : loggable (descriptor_edit r).
Proof.
  rewrite descriptor_edit_eq by done. split; [|done]. split; cbn; try done; [apply (max_table_sequence_bound _ Hseq)|].
  apply list.Forall_fmap. eapply list.Forall_impl; [exact Hlist|]. intros t (H1 & H2 & H3 & H4). cbn. split; [unfold VersionEdit.level_ok, kNumLevels; lia|by split_and!].
Qed.

Lemma descriptor_new level : new_at level (descriptor_edit r) = if decide (level = 0)%nat then map (fun t => added_file (ti_meta t)) (tables_ r) else [].
Proof.
  rewrite descriptor_edit_eq by done. unfold new_at. cbn [new_files_].
  rewrite <- (map_map ti_meta (fun m => (0, snapshot_file m))). change 0 with (Z.of_nat 0) at 1. rewrite at_level_pairs.
  destruct (decide (level = 0)%nat) as [->|Hl].
  - rewrite decide_True by done. by rewrite !map_map.
  - by rewrite decide_False by lia.
Qed.

Lemma descriptor_buildable : buildable NewVersion [descriptor_edit r].
Proof.
  apply buildable_perm; [done| | |].
  - intros level. rewrite NewVersion_files. constructor.
  - intros level _. rewrite NewVersion_files. cbn [app map concat]. rewrite app_nil_r, descriptor_new.
    destruct (decide _); [|constructor]. by rewrite <- list_fmap_compose.
  - intros e ->%list_elem_of_singleton. apply edit_levels_ok, descriptor_loggable.
Qed.
End recover.

Section reopen.
Context `{C : Comparator} `{!ComparatorLaws C} `{FL : FileEnvLaws}.

(** Recovery reads the one record of the descriptor. *)
Lemma described_recovers char_is_signed w dbname r fuel reuse_logs max_size save :
  (forall (f : SFile) n, Status_ok (sf_Read f n).2 = true) -> fits 32 (size cmp_Name) -> described w dbname (descriptor_edit r) ->
  edit_ r = NewVersionEdit -> fits 64 (rr_next_file_number_ r) -> Forall (fun t => fits 64 (max_sequence t)) (tables_ r) ->
  Forall listable (tables_ r) -> NoDup (map (fun t => number (ti_meta t)) (tables_ r)) ->
  (forall out, contents w (DescriptorFileName dbname 1) = Some out -> size out < 2 ^ 64 /\ size out + size (DescriptorFileName dbname 1) < Z.of_nat fuel) ->
  exists w3 vs v save', Recover char_is_signed fuel w NewVersionSet dbname reuse_logs max_size save = Ok (w3, vs, Status_OK, save') /\
    current vs = Ok v /\ files_at v 0 ≡ₚ map (fun t => added_file (ti_meta t)) (tables_ r) /\ (forall level, (0 < level)%nat -> files_at v level = []) /\
    compact_pointer_ vs = replicate num_levels [] /\ vs_log_number_ vs = 0 /\ vs_prev_log_number_ vs = 0 /\
    vs_last_sequence_ vs = max_table_sequence (tables_ r) /\ vs_next_file_number_ vs = u64 (rr_next_file_number_ r + 1).
Proof.
  intros Hrel Hname [Hcur (out & off & Hout & Hlog)] He Hnext Hseq Hlist Hnd Hsize. destruct (Hsize out Hout) as [Hs Hf].
  set (e := descriptor_edit r) in *. set (name := str "MANIFEST-" ++ decimal6 1) in *.
  assert (Hn : size (DescriptorFileName dbname 1) = size dbname + 1 + size name) by (change (DescriptorFileName dbname 1) with (dbname ++ str "/" ++ name); rewrite !size_app; change (size (str "/")) with 1; lia).
  pose proof (size_nonneg dbname). pose proof (size_nonneg out). pose proof (size_nonneg name).
  destruct (Recover_opens char_is_signed fuel w NewVersionSet dbname reuse_logs max_size save name out NewVersion Hrel Hcur Hout) as (g & Rg & ->); [unfold size in *; lia|done|].
  rewrite <- (app_nil_r out), <- Rg in Hlog.
  destruct (descriptor_read char_is_signed g e [] [] off fuel Hrel Hlog) as (j & r' & out1 & off1 & Hr & Hrep & _ & _ & _ & Hall & _); [by rewrite Rg|rewrite Rg; lia|].
  rewrite take_ge in Hr by by apply Hall. cbn [map] in Hr.
  pose proof (descriptor_loggable r He Hname Hnext Hseq Hlist) as Hla. pose proof (descriptor_buildable r He Hname Hnext Hseq Hlist Hnd) as Hb.
  destruct (builder_ok NewVersion [e] (replicate num_levels []) Hb) as (b & cp & Ea & Lc & Hc & Hfl); [by rewrite length_replicate|].
  rewrite (recover_loop_ok char_is_signed fuel _ _ r' [e] (b, cp) Hr Hrep); [|by intros x ->%list_elem_of_singleton|exact Ea]. cbn [res_bind fst snd].
  assert (Ee : e = MkEdit cmp_Name 0 0 (rr_next_file_number_ r) (max_table_sequence (tables_ r)) true true false true true [] []
    (map (fun t => (0, snapshot_file (ti_meta t))) (tables_ r))) by by apply descriptor_edit_eq.
  destruct (recover_install_spec w (NewVersionSet (W := WFile)) reuse_logs max_size (dbname ++ str "/" ++ name) name
    (after_edits (MkRecovery (NewBuilder NewVersion) (compact_pointer_ (NewVersionSet (W := WFile))) None None None None) [e] (b, cp))
    0 (rr_next_file_number_ r) (max_table_sequence (tables_ r)) save) as (w3 & vs & save' & Ei & G1 & G2 & G3 & G4 & G5 & G6);
    [by intros m ->%list_elem_of_singleton|unfold after_edits; rewrite Ee; reflexivity..|].
  rewrite Ei. exists w3, vs, (Finalize (SaveTo b NewVersion)), save'. cbn [after_edits rc_builder rc_pointers rc_prev_log_number] in *.
  split; [done|]. split; [done|]. assert (Hat : forall level, (level < num_levels)%nat -> files_at (Finalize (SaveTo b NewVersion)) level ≡ₚ new_at level e).
  { intros level Hl. rewrite Finalize_files. destruct (Hfl level Hl) as [Hp _]. etransitivity; [exact Hp|]. cbn [foldl]. rewrite NewVersion_files. unfold apply_edit, new_at. done. }
  unfold e in Hat. split; [etransitivity; [apply Hat; unfold num_levels, kNumLevels; lia|by rewrite descriptor_new]|]. split.
  { intros level Hl. destruct (decide (level < num_levels)%nat) as [Hlt|Hge].
    - apply Permutation_nil_r. rewrite (Hat level Hlt), descriptor_new by done. by rewrite decide_False by lia.
    - unfold files_at. rewrite nth_overflow; [done|]. unfold Finalize. destruct (foldl _ _ _). cbn [files_ SaveTo]. rewrite length_imap. change (length (files_ NewVersion)) with num_levels. lia. }
  split; [|rewrite G4, Ee in *; by split_and!]. rewrite G2. apply list_eq. intros level. rewrite Hc. cbn [foldl].
  destruct (replicate num_levels [] !! level) as [key|] ; cbn; [|done]. unfold pointer_after. by rewrite Ee.
Qed.
End reopen.

(** ** All of a repair *)

Lemma ConsumeDecimal_fits p : forall v n value rest consumed, fits 64 v -> ConsumeDecimal_loop v n p = Some (value, rest, consumed) -> fits 64 value.
Proof.
  induction p as [|c p IH]; intros v n value rest consumed Hv He; cbn [ConsumeDecimal_loop] in He; [by injection He as <- _ _|].
  destruct (negb _); [by injection He as <- _ _|]. destruct (_ || _); [done|]. apply IH in He; [done|]. apply wrap_fits; lia.
Qed.

Lemma parsed_fits f n t : ParseFileName f = Some (n, t) -> fits 64 n.
Proof.
  assert (Hc : forall p n rest, consume p = Some (n, rest) -> fits 64 n).
  { intros p m rest. unfold consume, ConsumeDecimalNumber. destruct (ConsumeDecimal_loop 0 0 p) as [[[v r] k]|] eqn:El; [|done].
    destruct (negb _); [|done]. intros [= <- _]. by eapply ConsumeDecimal_fits; [|exact El]. }
  unfold ParseFileName. repeat (case_bool_decide; cbn [orb]; [by intros [= <- _]|]). destruct (Slice_starts_with _ _).
  - destruct (consume _) as [[m [|c rest]]|] eqn:Em; [|done..]. intros [= <- _]. by eapply Hc.
  - destruct (consume f) as [[m suffix]|] eqn:Em; [|done]. cbn. repeat (case_bool_decide; cbn [orb]; [intros [= <- _]; by eapply Hc|]). done.
Qed.

Lemma numbers_of_length fs : (length (numbers_of kTableFile fs) + length (numbers_of kLogFile fs) <= length fs)%nat.
Proof.
  induction fs as [|f fs IH]; [done|]. unfold numbers_of in *. cbn [omap list_omap length]. destruct (ParseFileName f) as [[n t]|]; [|lia].
  destruct (decide (t = kTableFile)) as [->|]; [rewrite decide_False by done; cbn [length]; lia|]. destruct (decide _); cbn [length]; lia.
Qed.

Lemma numbers_of_counted t fs n : t <> kDescriptorFile -> n ∈ numbers_of t fs -> counted fs n.
Proof.
  intros Ht (f & Hf & He)%list_elem_of_omap. destruct (ParseFileName f) as [[m t']|] eqn:Ep; [|done]. destruct (decide (t' = t)) as [->|]; [|done].
  injection He as ->. by exists f, t.
Qed.

(** What the file names must be like: room is left for the numbers a repair takes, and no
    number names two tables, as a number with both suffixes would. *)
Record names_ok (filenames : list bytes) : Prop := {
  nm_length : Z.of_nat (length filenames) < 2 ^ 62;
  nm_room n : counted filenames n -> n + 2 * Z.of_nat (length filenames) + 2 < 2 ^ 64;
  nm_distinct : NoDup (numbers_of kTableFile filenames)
}.

Section repaired.
Context `{C : Comparator} `{FL : FileEnvLaws} {DE : DbEnv (FE := FE)} {T : Type} `{TE : !TableEvict T} `{Sn : Snappy}.
Context {I : Type} `{TF : !TableFiles (FS * T) I (It := It)}.
Context (char_is_signed : bool) (fuel : nat).
Context (dir_safe : forall w dir n, contents (env_CreateDir w dir).1 n = contents w n) (trailers : trailer_safe (F := FS * WFile)).

Lemma Run_ok (w w' : RepairWorld FS T) dbname o s : rw_repairer w = NewRepairer dbname o -> x00 ∉ dbname ->
  let filenames := (env_GetChildren (rw_fs w) dbname).1 in names_ok filenames ->
  Run char_is_signed fuel w = Ok (s, w') -> Status_ok s = true ->
  exists r, rw_repairer w' = set_edit r (descriptor_edit r) /\ described (rw_fs w') dbname (descriptor_edit r) /\ edit_ r = NewVersionEdit /\
    (forall n, counted filenames n -> n < rr_next_file_number_ r) /\ 1 <= rr_next_file_number_ r < 2 ^ 64 - 1 /\
    NoDup (map (fun t => number (ti_meta t)) (tables_ r)) /\ Forall (fun t => fits 64 (max_sequence t)) (tables_ r).
Proof.
  intros Hr Hd fs [Hlen Hroom Hdist] He Hs. unfold Run in He. apply r_bind_inv in He as (s0 & w1 & E1 & He).
  destruct (Status_ok s0) eqn:Hs0; [|injection He as <- <-; congruence]. pose proof (FindFiles_ok _ _ _ E1 Hs0) as ->. clear E1.
  rewrite Hr in He. cbn [NewRepairer rr_dbname] in He. fold fs in He.
  assert (Hbound : forall n, counted fs n -> 0 <= n < 2 ^ 64 - 1).
  { intros n Hn. specialize (Hroom n Hn). destruct Hn as (f & t & _ & Hp & _). apply parsed_fits in Hp. unfold fits in Hp. lia. }
  destruct (found_files dbname o fs Hbound) as [Hf Hm [Hn1 Hn2]]. pose proof (numbers_of_length fs) as Hl.
  set (r0 := foldl found_file (NewRepairer dbname o) fs) in *. clearbody r0.
  assert (Hnext : 1 <= rr_next_file_number_ r0 /\ rr_next_file_number_ r0 + 2 * Z.of_nat (length fs) < 2 ^ 64 - 1).
  { destruct (Hn2 (2 ^ 64 - 2 - 2 * Z.of_nat (length fs))) as [H1 H2]; [lia|intros n Hn; specialize (Hroom n Hn); lia|lia]. }
  apply r_bind_inv in He as (u1 & w1 & E1 & He). unfold ConvertLogFilesToTables in E1. apply r_bind_inv in E1 as (d1 & wa & [-> ->]%r_get_inv & E1).
  apply r_bind_inv in E1 as (l1 & wa & [-> ->]%r_get_inv & E1). destruct u1. destruct (convert_logs char_is_signed fuel _ _ _ _ E1) as (fresh & j & E2 & Hj & Hjf & Hnd & Hin);
    cbn [rw_repairer] in *; [lia|rewrite Hf; cbn; lia|]. rewrite Hf in E2, Hj. cbn in E2, Hj. clear E1.
  apply r_bind_inv in He as (u2 & w2 & E3 & He). unfold ExtractMetaData in E3. apply r_bind_inv in E3 as (ns & wa & [-> ->]%r_get_inv & E3). destruct u2.
  apply (scan_tables fuel) in E3 as (ts & k & E4 & Hk & Hsub & Hseq); rewrite E2 in *; cbn in *; [|lia|rewrite length_app; lia].
  rewrite length_app in Hk. destruct (WriteDescriptor_ok dir_safe trailers w2 w' s) as [H1 H2]; [rewrite E4; done|rewrite E4; exact Hm|exact He|exact Hs|].
  exists (rw_repairer w2). split; [exact H2|]. rewrite E4 in H1 |- *. cbn [rr_dbname edit_ rr_next_file_number_ tables_] in *. split; [exact H1|]. split; [done|].
  split; [intros n Hn; specialize (Hn1 n Hn); lia|]. split; [lia|]. split; [|exact Hseq].
  eapply sublist_NoDup; [|exact Hsub]. apply list.NoDup_app. split; [done|]. split; [|done]. intros n Hn Hf'. apply Hin in Hf'.
  apply numbers_of_counted in Hn; [|done]. specialize (Hn1 n Hn). lia.
Qed.
End repaired.


(** ** What a scan finds *)

Section scan.
Context `{C : Comparator} `{DE : DbEnv} {T : Type} `{TE : !TableEvict T} `{Sn : Snappy}.
Context {I : Type} `{TF : !TableFiles (FS * T) I (It := It)}.
Abbreviation iterates := (@iterates_at (InternalKeyComparator C) _ _).

(** The keys that can be parsed, and their sequence numbers. *)
Definition parsed_keys (kvs : list (bytes * bytes)) : list bytes :=
  filter (fun k => is_Some (ParseInternalKey k)) (map fst kvs).
Definition sequences (kvs : list (bytes * bytes)) : list Z := omap (fun p => sequence <$> ParseInternalKey p.1) kvs.

(** What is known of a table after some of its entries. *)
Definition scanned (n size : Z) (kvs : list (bytes * bytes)) : TableInfo :=
  MkTableInfo (NewFileMetaData n size (default [] (head (parsed_keys kvs))) (default [] (list.last (parsed_keys kvs))))
    (foldl Z.max 0 (sequences kvs)).

Lemma parsed_keys_snoc kvs p : parsed_keys (kvs ++ [p]) = parsed_keys kvs ++ (if ParseInternalKey p.1 is Some _ then [p.1] else []).
Proof.
  unfold parsed_keys. rewrite map_app, list.filter_app. f_equal. cbn [map]. rewrite filter_cons.
  destruct (ParseInternalKey p.1); [by rewrite decide_True by done|]. by rewrite decide_False by (by intros [? ?]).
Qed.

Lemma sequences_snoc kvs p : sequences (kvs ++ [p]) = sequences kvs ++ (if ParseInternalKey p.1 is Some k then [sequence k] else []).
Proof. unfold sequences. rewrite omap_app. f_equal. cbn. by destruct (ParseInternalKey p.1). Qed.

Lemma scanned_snoc n size kvs p : scanned n size (kvs ++ [p]) =
  match ParseInternalKey p.1 with
  | Some parsed => scanned_key (scanned n size kvs) (bool_decide (parsed_keys kvs = [])) p.1 parsed
  | None => scanned n size kvs
  end.
Proof.
  unfold scanned. rewrite parsed_keys_snoc, sequences_snoc. destruct (ParseInternalKey p.1) as [parsed|]; [|by rewrite !app_nil_r].
  rewrite foldl_app, last_snoc. cbn [foldl default]. unfold scanned_key, set_file_meta, NewFileMetaData. cbn [ti_meta max_sequence refs allowed_seeks number file_size smallest largest InternalKey_DecodeFrom fst].
  f_equal.
  - f_equal. by destruct (parsed_keys kvs).
  - set (m := foldl Z.max 0 _). destruct (Z.gtb_spec (sequence parsed) m); lia.
Qed.

Lemma parsed_empty_snoc kvs p : bool_decide (parsed_keys (kvs ++ [p]) = []) = if ParseInternalKey p.1 is Some _ then false else bool_decide (parsed_keys kvs = []).
Proof.
  rewrite parsed_keys_snoc. destruct (ParseInternalKey p.1); [|by rewrite app_nil_r]. apply bool_decide_eq_false. by destruct (parsed_keys kvs).
Qed.

Lemma scan_loop_ok n size kvs : forall done rest fuel i, kvs = done ++ rest -> (length rest < fuel)%nat ->
  iterates i kvs (if decide (rest = []) then None else Some (length done)) ->
  exists i', scan_loop fuel i (scanned n size done) (bool_decide (parsed_keys done = [])) = Ok (i', scanned n size kvs) /\ Status_ok (it_status i') = true.
Proof.
  intros done rest. revert done. induction rest as [|p rest IH]; intros done fuel i Hk Hf Hi; (destruct fuel as [|fuel]; [cbn in Hf; lia|]); cbn [scan_loop].
  - rewrite app_nil_r in Hk. subst done. cbn in Hi. rewrite (iterates_valid (C := InternalKeyComparator C) i kvs None Hi). cbn.
    exists i. split; [done|]. apply (iterates_reads (C := InternalKeyComparator C) i kvs None Hi).
  - rewrite decide_False in Hi by done.
    destruct (iterates_middle (C := InternalKeyComparator C) i kvs done p rest Hk Hi) as (-> & -> & _ & i' & En & Hi').
    assert (Hs : (match ParseInternalKey p.1 with
      | Some parsed => (scanned_key (scanned n size done) (bool_decide (parsed_keys done = [])) p.1 parsed, false)
      | None => (scanned n size done, bool_decide (parsed_keys done = [])) end) = (scanned n size (done ++ [p]), bool_decide (parsed_keys (done ++ [p]) = []))).
    { rewrite scanned_snoc, parsed_empty_snoc. by destruct (ParseInternalKey p.1). }
    rewrite Hs, En. cbn [res_bind]. apply IH; [by rewrite Hk, <- app_assoc|cbn in Hf; lia|exact Hi'].
Qed.

(** C39. A scan finds what is in a table.  When the table can be opened under one of its two
    names and its iterator goes over [kvs], [ScanTable] adds exactly one table and changes
    nothing else: its number and size, the first and the last of the keys that can be
    parsed, and the largest of their sequence numbers, whatever else is in between. *)
Theorem scan_table_exact (fuel : nat) (w : RepairWorld FS T) n fname size c (i : I) kvs :
  let r := rw_repairer w in
  table_size (rw_fs w) (rr_dbname r) n = inl (fname, size) ->
  tc_NewIterator (rw_fs w, rw_tables w) (paranoid_checks (table_options (rr_options r))) true n size = Ok (c, i) ->
  iterates i kvs None -> (length kvs < fuel)%nat ->
  exists t, ScanTable fuel n w = Ok (tt, MkRepairWorld c.1 c.2 (push_table r t)) /\
    number (ti_meta t) = n /\ file_size (ti_meta t) = size /\
    (forall k, list.head (parsed_keys kvs) = Some k -> smallest (ti_meta t) = k) /\
    (forall k, list.last (parsed_keys kvs) = Some k -> largest (ti_meta t) = k) /\
    (forall k parsed, k ∈ kvs.*1 -> ParseInternalKey k = Some parsed -> sequence parsed <= max_sequence t) /\
    (max_sequence t = 0 \/ exists k parsed, k ∈ kvs.*1 /\ ParseInternalKey k = Some parsed /\ max_sequence t = sequence parsed).
Proof.
  intros r Hsz Hit Hi Hf. exists (scanned n size kvs).
  destruct (iterates_step (C := InternalKeyComparator C) i kvs None OpSeekToFirst (match kvs with [] => None | _ => Some O end) Hi eq_refl) as (i1 & E1 & Hi1).
  destruct (scan_loop_ok n size kvs [] kvs fuel i1) as (i2 & E2 & Hs2); [done|done|by destruct kvs|].
  assert (Hseq : forall l m, (forall x, x ∈ l -> x <= foldl Z.max m l) /\ m <= foldl Z.max m l /\ (foldl Z.max m l = m \/ foldl Z.max m l ∈ l)).
  { induction l as [|x l IH]; intros m; cbn; [split; [by intros x H%elem_of_nil|auto with lia]|]. destruct (IH (Z.max m x)) as (I1 & I2 & I3). split; [|split; [lia|]].
    - intros y [->|Hy]%elem_of_cons; [lia|by apply I1].
    - rewrite elem_of_cons. destruct I3 as [->|H3]; [destruct (Z.max_spec m x) as [[_ ->]|[_ ->]]; auto|auto]. }
  destruct (Hseq (sequences kvs) 0) as (H1 & _ & H2).
  assert (Hin : forall x, x ∈ sequences kvs <-> exists k parsed, k ∈ kvs.*1 /\ ParseInternalKey k = Some parsed /\ x = sequence parsed).
  { intros x. unfold sequences. rewrite list_elem_of_omap. split.
    - intros (p & Hp & He). destruct (ParseInternalKey p.1) as [parsed|] eqn:Ep; [|done]. injection He as <-. exists p.1, parsed. split; [by apply list_elem_of_fmap_2|done].
    - intros (k & parsed & (p & -> & Hp)%list_elem_of_fmap & Ep & ->). exists p. split; [done|]. by rewrite Ep. }
  split_and!; [|done|done|by intros k Hk; cbn; rewrite Hk|by intros k Hk; cbn; rewrite Hk|intros k parsed Hk Ep; apply H1, Hin; by eexists _, _|].
  - unfold ScanTable, r_bind, r_get, r_fs. cbn [res_bind fst snd rw_fs rw_repairer rw_tables]. fold r. rewrite Hsz. cbn [res_bind fst snd].
    unfold NewTableIterator, r_bind, r_get, r_tables. cbn [res_bind fst snd rw_fs rw_repairer rw_tables NewFileMetaData number file_size]. fold r. rewrite Hit. cbn [res_bind fst snd].
    unfold r_lift. cbn [it_step] in E1. rewrite E1. cbn [res_bind fst snd].
    change (MkTableInfo (NewFileMetaData n size [] []) 0) with (scanned n size []). change (bool_decide (parsed_keys [] = [])) with true in E2. rewrite E2. cbn [res_bind fst snd]. rewrite Hs2. by destruct c.
  - destruct H2 as [H2|H2]; [by left|right]. apply Hin in H2 as (k & parsed & Hk & Ep & Ex). by exists k, parsed.
Qed.
End scan.

(** ** An example: a table of the old suffix and a log *)

(** An iterator over a list of pairs. *)
Record ListIter := MkListIter { li_kvs : list (bytes * bytes); li_at : cursor }.

Definition li_step (i : ListIter) (op : iter_op) : res ListIter :=
  match cursor_step (C := InternalKeyComparator BytewiseComparator) (li_kvs i) (li_at i) op with
  | Some c => Ok (MkListIter (li_kvs i) c)
  | None => Undefined
  end.

#[local] Instance list_iterator : Iterator ListIter := {|
  it_Valid i := bool_decide (is_Some (li_at i));
  it_SeekToFirst i := li_step i OpSeekToFirst;
  it_SeekToLast i := li_step i OpSeekToLast;
  it_Seek i target := li_step i (OpSeek target);
  it_Next i := li_step i OpNext;
  it_Prev i := li_step i OpPrev;
  it_key i := default [] (fst <$> at_cursor (li_kvs i) (li_at i));
  it_value i := match at_cursor (li_kvs i) (li_at i) with Some p => Ok p.2 | None => Undefined end;
  it_status _ := Status_OK
|}.

(** Table 7 has an entry that cannot be parsed; table 8 is the one made of the log. *)
Definition listed_entries (n : Z) : list (bytes * bytes) :=
  if n =? 7 then [(InternalKey (str "a") 5 kTypeValue, str "1"); (str "junk", str "x"); (InternalKey (str "c") 4 kTypeDeletion, [])]
  else [(InternalKey (str "a") 9 kTypeDeletion, []); (InternalKey (str "a") 7 kTypeValue, str "1"); (InternalKey (str "b") 8 kTypeValue, str "2")].

#[local] Instance listed_tables (entries : Z -> list (bytes * bytes)) : TableFiles ((bytes -> option bytes) * unit) ListIter :=
  {| tc_NewIterator c _ _ n _ := Ok (c, MkListIter (entries n) None) |}.

Definition repair_children : list bytes := [str "CURRENT"; str "MANIFEST-000002"; str "000003.log"; str "000007.sst"; str "000007.bak"].

#[local] Instance repair_env : DbEnv (FE := mem_file_env) := {|
  FLock := unit;
  env_GetChildren w dir := (repair_children, Status_OK);
  env_FileExists w n := bool_decide (is_Some (w n));
  env_CreateDir w _ := (w, Status_OK);
  env_RemoveDir w _ := (w, Status_OK);
  env_LockFile w _ := (w, inl tt);
  env_UnlockFile w _ := (w, Status_OK);
  env_NewLogger w _ := (w, true);
  env_NowMicros w := (w, 0)
|}.

Definition broken_files : bytes -> option bytes := fun n =>
  if bool_decide (n = str "db/MANIFEST-000002") then Some (str "lost")
  else if bool_decide (n = str "db/000003.log") then Some replayed_log
  else if bool_decide (n = str "db/000007.sst") then Some (str "table") else None.

Section repair_example.
#[local] Existing Instances evict_nothing no_snappy.

Abbreviation repaired entries := (RepairDB (C := BytewiseComparator) (FE := mem_file_env) (DE := repair_env) (TF := listed_tables entries) true 100
  broken_files (fun _ _ _ => tt) (str "db") example_options).

Lemma repaired_runs : match repaired listed_entries with
  | Ok (s, w) => s = Status_OK /\ tables_ (rw_repairer w) = [scanned 7 5 (listed_entries 7); scanned 8 138 (listed_entries 8)] /\
      match rw_fs w (str "db/MANIFEST-000001") with Some out => size out = 90 | None => False end /\
      rw_fs w (str "db/lost/000003.log") = Some replayed_log /\ rw_fs w (str "db/lost/MANIFEST-000002") = Some (str "lost")
  | _ => False
  end.
Proof. vm_compute. by split_and!. Qed.

Lemma example_names : names_ok repair_children.
Proof.
  split; [by vm_compute| |].
  - intros n (f & t & Hf & Hp & _).
    assert (Hall : forallb (fun f => match ParseFileName f with Some (n, _) => n + 12 <? 2 ^ 64 | None => true end) repair_children = true) by by vm_compute.
    rewrite forallb_forall in Hall. apply list_elem_of_In, Hall in Hf. rewrite Hp in Hf. apply Z.ltb_lt in Hf. cbn [length repair_children]. lia.
  - change (NoDup [7]). repeat constructor. by apply not_elem_of_nil.
Qed.

Lemma example_dbname : x00 ∉ str "db".
Proof. apply (bool_decide_unpack _). by vm_compute. Qed.

Lemma example_listable : Forall listable [scanned 7 5 (listed_entries 7); scanned 8 138 (listed_entries 8)].
Proof. repeat constructor; by vm_compute. Qed.

Lemma example_sizes : 90 < 2 ^ 64 /\ 90 + size (DescriptorFileName (str "db") 1) < Z.of_nat 200.
Proof. by vm_compute. Qed.


Lemma cursor_step_valid kvs c op c' : (forall k, c = Some k -> (k < length kvs)%nat) ->
  cursor_step (C := InternalKeyComparator BytewiseComparator) kvs c op = Some c' -> forall k, c' = Some k -> (k < length kvs)%nat.
Proof.
  intros Hc Hs k ->. destruct op as [| |target| |]; cbn [cursor_step] in Hs.
  - destruct kvs; [done|]. injection Hs as <-. cbn. lia.
  - destruct kvs; [done|]. injection Hs as <-. cbn. lia.
  - injection Hs as Hs. pose proof (find_ge_spec (C := InternalKeyComparator BytewiseComparator) target kvs) as Hg. rewrite Hs in Hg.
    destruct Hg as ((p & Hp & _) & _). by apply lookup_lt_Some in Hp.
  - destruct c as [i|]; [|done]. cbn [mbind option_bind] in Hs. destruct (Nat.ltb_spec (S i) (length kvs)); [|done]. by injection Hs as <-.
  - destruct c as [[|i]|]; [done| |done]. injection Hs as <-. specialize (Hc _ eq_refl). lia.
Qed.

Lemma list_iterates kvs : @iterates_at (InternalKeyComparator BytewiseComparator) _ list_iterator (MkListIter kvs None) kvs None.
Proof.
  exists (fun i c => i = MkListIter kvs c /\ forall k, c = Some k -> (k < length kvs)%nat). split; [|by split].
  intros i c [-> Hc]. split; [|split; [|split; [done|]]].
  - unfold it_reads. cbn [it_Valid it_value it_key list_iterator li_kvs li_at]. destruct c as [k|]; [|done].
    destruct (lookup_lt_is_Some_2 kvs k (Hc k eq_refl)) as [[a b] Ha]. change (at_cursor kvs (Some k)) with (kvs !! k). by rewrite Ha.
  - destruct c as [k|]; [|by split; intros [? [=]]]. split; [|by eexists]. intros _. apply (lookup_lt_is_Some_2 kvs k), Hc. done.
  - intros op c' Hs. exists (MkListIter kvs c'). split; [|split; [done|by eapply cursor_step_valid]].
    destruct op; cbn [it_step it_SeekToFirst it_SeekToLast it_Seek it_Next it_Prev list_iterator]; unfold li_step; cbn [li_kvs li_at]; by rewrite Hs.
Qed.

(** A table whose keys all cannot be parsed is listed with empty keys, and then recovery
    finds the descriptor corrupt: the repair reports success and the database does not
    open. *)
Lemma unparsable_table_breaks_repair :
  match repaired (fun n => if n =? 7 then [(str "junk", str "x")] else listed_entries n) with
  | Ok (s, w) => s = Status_OK /\
      match Recover (C := BytewiseComparator) (FE := mem_file_env) true 200 (rw_fs w) NewVersionSet (str "db") false 100 false with
      | Ok (_, _, s', _) => s' = Status_Corruption (str "VersionEdit") (str "new-file entry")
      | _ => False
      end
  | _ => False
  end.
Proof. vm_compute. by split. Qed.

(** Logs are converted without looking at checksums: a record with a wrong one goes into
    the table, where a reader that verifies would have dropped it. *)
Lemma conversion_ignores_checksums :
  let damaged := x00 :: drop 1 replayed_log in
  match ReadAll true 200 (NewReader (F := bytes) damaged true false 0), ReadAll true 200 (NewReader (F := bytes) damaged true true 0) with
  | Some (_, records), Some (_, checked) => records = map batch_record replayed_batches /\ checked = []
  | _, _ => False
  end.
Proof. vm_compute. by split. Qed.

Lemma scan_table_exact_witness :
  exists t, ScanTable (C := BytewiseComparator) (FE := mem_file_env) (DE := repair_env) (TF := listed_tables listed_entries) 100 7
    (MkRepairWorld broken_files tt (NewRepairer (str "db") example_options)) =
      Ok (tt, MkRepairWorld broken_files tt (push_table (NewRepairer (str "db") example_options) t)) /\
    largest (ti_meta t) = InternalKey (str "c") 4 kTypeDeletion.
Proof.
  destruct (scan_table_exact (C := BytewiseComparator) (FE := mem_file_env) (DE := repair_env) (TF := listed_tables listed_entries) 100
    (MkRepairWorld broken_files tt (NewRepairer (str "db") example_options)) 7 (str "db/000007.sst") 5 (broken_files, tt) (MkListIter (listed_entries 7) None) (listed_entries 7))
    as (t & E1 & _ & _ & _ & E2 & _).
  - reflexivity.
  - reflexivity.
  - apply list_iterates.
  - cbn. lia.
  - exists t. split; [exact E1|]. apply E2. reflexivity.
Defined.
End repair_example.
