(* ===== verification/RnLeveldb.v ===== *)
(** * The React Native binding

    Models [cpp/react-native-leveldb.cpp]: the three global handle tables and every
    host function installed on the JavaScript runtime.  The database engine is the
    class [Engine], the C++ interface of [leveldb/db.h] and [leveldb/iterator.h] as
    the binding uses it; its operations are partial, [None] being undefined
    behaviour (a deleted handle, a key read off an invalid iterator).  The JSI
    runtime is not part of the repository: strings are their UTF-8 bytes, and what
    [createFromUtf8] makes of bytes is a parameter. *)
From S2P Require Import Prelude Comparator Status DbFormat WriteBatch.

(** ** The engine *)

(** Databases and iterators are pointers, told apart by their values. *)
Class Engine := {
  World : Type;
  DB : Type;
  Iter : Type;
  (* [DB::Open(options, path, &db)], with [create_if_missing] and [error_if_exists] *)
  e_Open : World -> bytes -> bool -> bool -> World * Status * option DB;
  e_DestroyDB : World -> bytes -> World * Status;
  e_delete_db : World -> DB -> option World;
  e_Put : World -> DB -> bytes -> bytes -> option (World * Status);
  e_Delete : World -> DB -> bytes -> option (World * Status);
  (* writing numbers the caller's batch *)
  e_Write : World -> DB -> bytes -> option (World * Status * bytes);
  e_Get : World -> DB -> bytes -> option (World * Status * bytes);
  e_NewIterator : World -> DB -> option (World * Iter);
  e_SeekToFirst : World -> Iter -> option World;
  e_SeekToLast : World -> Iter -> option World;
  e_Seek : World -> Iter -> bytes -> option World;
  e_Prev : World -> Iter -> option World;
  e_Next : World -> Iter -> option World;
  e_Valid : World -> Iter -> option bool;
  e_key : World -> Iter -> option bytes;
  e_value : World -> Iter -> option bytes;
  e_iter_status : World -> Iter -> option Status;
  e_delete_iter : World -> Iter -> option World;
  (* the contents of a file, or the text of the error opening it *)
  e_read_file : World -> bytes -> bytes + bytes
}.

(** ** JavaScript values *)

(** A JavaScript number: the rational [num / den], or a value with no integer
    part. *)
Inductive number := Num (num : Z) (den : positive) | NotFinite.

Inductive JsValue :=
| JUndefined
| JNull
| JBool (b : bool)
| JNumber (n : number)
| JString (utf8 : bytes)
| JArrayBuffer (data : bytes)
| JObject.

#[export] Instance number_eq_dec : EqDecision number.
Proof. solve_decision. Defined.

#[export] Instance JsValue_eq_dec : EqDecision JsValue.
Proof. solve_decision. Defined.

Definition isNumber (v : JsValue) : bool := match v with JNumber _ => true | _ => false end.
Definition isString (v : JsValue) : bool := match v with JString _ => true | _ => false end.
Definition isBool (v : JsValue) : bool := match v with JBool _ => true | _ => false end.

Definition JInt (z : Z) : JsValue := JNumber (Num z 1).

(** ** The binding *)

(** A value, [throw jsi::JSError], undefined behaviour, or a loop cut short by the
    fuel it was given. *)
Inductive outcome (A : Type) := Ret (a : A) | Throw (msg : bytes) | UB | NoFuel.
Arguments Ret {A} _.
Arguments Throw {A} _.
Arguments UB {A}.
Arguments NoFuel {A}.

Section binding.
Context `{E : Engine}.

(** The globals [dbs], [iterators] and [batches]; an empty [unique_ptr] is
    [None]. *)
Record State := MkState {
  world : World;
  dbs : list (option DB);
  iterators : list (option Iter);
  batches : list (option bytes)
}.

Definition M (A : Type) : Type := State -> State * outcome A.

Definition ret {A} (a : A) : M A := fun s => (s, Ret a).
Definition throw {A} (msg : bytes) : M A := fun s => (s, Throw msg).
Definition ub {A} : M A := fun s => (s, UB).

Definition bind {A B} (m : M A) (k : A -> M B) : M B := fun s =>
  match m s with
  | (s, Ret a) => k a s
  | (s, Throw msg) => (s, Throw msg)
  | (s, UB) => (s, UB)
  | (s, NoFuel) => (s, NoFuel)
  end.

Notation "'let*' x := m 'in' k" := (bind m (fun x => k))
  (at level 10, x binder, m at level 100, k at level 200).

(** Reading a table and calling the engine. *)
Definition gets {A} (f : State -> A) : M A := fun s => (s, Ret (f s)).
Definition set_dbs (d : list (option DB)) : M unit := fun s =>
  (MkState (world s) d (iterators s) (batches s), Ret tt).
Definition set_iterators (i : list (option Iter)) : M unit := fun s =>
  (MkState (world s) (dbs s) i (batches s), Ret tt).
Definition set_batches (b : list (option bytes)) : M unit := fun s =>
  (MkState (world s) (dbs s) (iterators s) b, Ret tt).
Definition set_world (w : World) (s : State) : State :=
  MkState w (dbs s) (iterators s) (batches s).

Definition call {A} (f : World -> option (World * A)) : M A := fun s =>
  match f (world s) with
  | Some (w, a) => (set_world w s, Ret a)
  | None => (s, UB)
  end.

Definition query {A} (f : World -> option A) : M A := fun s =>
  match f (world s) with
  | Some a => (s, Ret a)
  | None => (s, UB)
  end.

Definition effect (f : World -> option World) : M unit := fun s =>
  match f (world s) with
  | Some w => (set_world w s, Ret tt)
  | None => (s, UB)
  end.

Context (createFromUtf8 : bytes -> bytes).

(** The texts of the runtime's own RangeError, for an array of negative length, and
    of [strerror(errno)] after a failed read. *)
Context (range_error read_errno : bytes).

(** [(int)value.getNumber()]: truncation towards zero; the conversion of a number
    outside [int] is undefined, and [ub_int] stands for what the hardware does. *)
Context (ub_int : number -> Z).

Definition to_int (n : number) : Z :=
  match n with
  | Num num den =>
      let z := Z.quot num (Zpos den) in
      if (- 2 ^ 31 <=? z) && (z <? 2 ^ 31) then z else ub_int n
  | NotFinite => ub_int n
  end.

(** [arguments[i]]: reading past the arguments that were passed is undefined. *)
Definition arg (arguments : list JsValue) (i : nat) : M JsValue :=
  match arguments !! i with Some v => ret v | None => ub end.

(** [None] is [false]. *)
Definition valueToString (value : JsValue) : option bytes :=
  match value with
  | JString s => Some s
  | JArrayBuffer data => Some data
  | _ => None
  end.

(** The handle of a value, in range and not negative; [None] is out of range. *)
Definition handle {A} (table : list (option A)) (idx : Z) : option (option A) :=
  if (idx <? 0) || (idx >=? Z.of_nat (length table)) then None
  else table !! Z.to_nat idx.

Definition valueToDb (value : JsValue) : M (DB + bytes) :=
  match value with
  | JNumber n =>
      let* dbs := gets dbs in
      match handle dbs (to_int n) with
      | None => ret (inr (str "valueToDb/idx-out-of-range"))
      | Some None => ret (inr (str "valueToDb/db-closed"))
      | Some (Some db) => ret (inl db)
      end
  | _ => ret (inr (str "valueToDb/param-not-a-number"))
  end.

(** [None] is the null pointer. *)
Definition valueToIterator (value : JsValue) : M (option Iter) :=
  match value with
  | JNumber n =>
      let* iterators := gets iterators in
      match handle iterators (to_int n) with
      | None => ret None
      | Some it => ret it
      end
  | _ => ret None
  end.

(** The index of the batch and its contents. *)
Definition valueToWriteBatch (value : JsValue) : M (nat * bytes + bytes) :=
  match value with
  | JNumber n =>
      let* batches := gets batches in
      match handle batches (to_int n) with
      | None => ret (inr (str "valueToWriteBatch/idx-out-of-range"))
      | Some None => ret (inr (str "valueToWriteBatch/null"))
      | Some (Some b) => ret (inl (Z.to_nat (to_int n), b))
      end
  | _ => ret (inr (str "valueToWriteBatch/param-not-a-number"))
  end.

(** The batch a pointer refers to is updated in the table. *)
Definition store_batch (i : nat) (b : bytes) : M unit :=
  let* batches := gets batches in set_batches (<[i := Some b]> batches).

(** [arrayBufferCtor.callAsConstructor(runtime, (int)length)] and the [memcpy] into
    the new buffer. *)
Definition newArrayBuffer (data : bytes) : M JsValue :=
  let length := int32 (size data) in
  if length <? 0 then throw range_error
  else if length <? size data then ub
  else ret (JArrayBuffer data).

(** ** Databases *)

Definition with_db (name : bytes) (v : JsValue) (k : DB -> M JsValue) : M JsValue :=
  let* r := valueToDb v in
  match r with
  | inr dbErr => throw (name ++ dbErr)
  | inl db => k db
  end.

Definition leveldbOpen (documentDir : bytes) (arguments : list JsValue) : M JsValue :=
  let* a0 := arg arguments 0 in
  match a0 with
  | JString p =>
      let* a1 := arg arguments 1 in
      match a1 with
      | JBool create_if_missing =>
          let* a2 := arg arguments 2 in
          match a2 with
          | JBool error_if_exists =>
              let path := documentDir ++ p in
              let* '(status, db) := call (fun w =>
                let '(w, status, db) := e_Open w path create_if_missing error_if_exists in
                Some (w, (status, db))) in
              let* table := gets dbs in
              let* _ := set_dbs (table ++ [db]) in
              let idx := length table in
              if negb (Status_ok status) then
                (* [dbs[idx].reset()] *)
                let* _ := match db with Some db => effect (fun w => e_delete_db w db) | None => ret tt end in
                let* _ := set_dbs (table ++ [None]) in
                throw (str "leveldbOpen/" ++ Status_ToString status)
              else ret (JInt (Z.of_nat idx))
          | _ => throw (str "leveldbOpen/invalid-params")
          end
      | _ => throw (str "leveldbOpen/invalid-params")
      end
  | _ => throw (str "leveldbOpen/invalid-params")
  end.

Definition leveldbDestroy (documentDir : bytes) (arguments : list JsValue) : M JsValue :=
  let* a0 := arg arguments 0 in
  match a0 with
  | JString p =>
      let* status := call (fun w => Some (e_DestroyDB w (documentDir ++ p))) in
      if negb (Status_ok status) then throw (str "leveldbDestroy/" ++ Status_ToString status)
      else ret JNull
  | _ => throw (str "leveldbDestroy/invalid-params")
  end.

Definition leveldbClose (arguments : list JsValue) : M JsValue :=
  let* a0 := arg arguments 0 in
  match a0 with
  | JNumber n =>
      let idx := to_int n in
      let* table := gets dbs in
      match handle table idx with
      | Some (Some db) =>
          let* _ := effect (fun w => e_delete_db w db) in
          let* _ := set_dbs (<[Z.to_nat idx := None]> table) in
          ret JNull
      | _ => throw (str "leveldbClose/db-idx-out-of-bounds")
      end
  | _ => throw (str "leveldbClose/invalid-params")
  end.

Definition leveldbPut (arguments : list JsValue) : M JsValue :=
  let* a0 := arg arguments 0 in
  with_db (str "leveldbPut/") a0 (fun db =>
    let* a1 := arg arguments 1 in
    match valueToString a1 with
    | Some key =>
        let* a2 := arg arguments 2 in
        match valueToString a2 with
        | Some value =>
            let* status := call (fun w => e_Put w db key value) in
            if negb (Status_ok status) then throw (str "leveldbPut/" ++ Status_ToString status)
            else ret JNull
        | None => throw (str "leveldbPut/invalid-params")
        end
    | None => throw (str "leveldbPut/invalid-params")
    end).

Definition leveldbDelete (arguments : list JsValue) : M JsValue :=
  let* a0 := arg arguments 0 in
  with_db (str "leveldbDelete/") a0 (fun db =>
    let* a1 := arg arguments 1 in
    match valueToString a1 with
    | Some key =>
        let* status := call (fun w => e_Delete w db key) in
        if Status_ok status || IsNotFound status then ret JNull
        else throw (str "leveldbDelete/" ++ Status_ToString status)
    | None => throw (str "leveldbDelete/invalid-params")
    end).

(** [leveldbGetStr] and [leveldbGetBuf] differ in the value they make. *)
Definition leveldbGet (name : bytes) (make : bytes -> M JsValue) (arguments : list JsValue) : M JsValue :=
  let* a0 := arg arguments 0 in
  with_db name a0 (fun db =>
    let* a1 := arg arguments 1 in
    match valueToString a1 with
    | Some key =>
        let* '(status, value) := call (fun w =>
          match e_Get w db key with
          | Some (w, status, value) => Some (w, (status, value))
          | None => None
          end) in
        if IsNotFound status then ret JNull
        else if negb (Status_ok status) then throw (name ++ Status_ToString status)
        else make value
    | None => throw (name ++ str "invalid-params")
    end).

Definition leveldbGetStr : list JsValue -> M JsValue :=
  leveldbGet (str "leveldbGetStr/") (fun value => ret (JString (createFromUtf8 value))).
Definition leveldbGetBuf : list JsValue -> M JsValue :=
  leveldbGet (str "leveldbGetBuf/") newArrayBuffer.

(** ** Iterators *)

Definition leveldbNewIterator (arguments : list JsValue) : M JsValue :=
  let* a0 := arg arguments 0 in
  with_db (str "leveldbNewIterator/") a0 (fun db =>
    let* it := call (fun w => e_NewIterator w db) in
    let* table := gets iterators in
    let* _ := set_iterators (table ++ [Some it]) in
    ret (JInt (Z.of_nat (length table)))).

Definition with_iterator (name : bytes) (arguments : list JsValue) (k : Iter -> M JsValue) : M JsValue :=
  let* a0 := arg arguments 0 in
  let* it := valueToIterator a0 in
  match it with
  | None => throw (name ++ str "invalid-params")
  | Some it => k it
  end.

Definition leveldbIteratorSeekToFirst (arguments : list JsValue) : M JsValue :=
  with_iterator (str "leveldbIteratorSeekToFirst/") arguments (fun it =>
    let* _ := effect (fun w => e_SeekToFirst w it) in ret JNull).

Definition leveldbIteratorSeekToLast (arguments : list JsValue) : M JsValue :=
  with_iterator (str "leveldbIteratorSeekToLast/") arguments (fun it =>
    let* _ := effect (fun w => e_SeekToLast w it) in ret JNull).

Definition leveldbIteratorSeek (arguments : list JsValue) : M JsValue :=
  with_iterator (str "leveldbIteratorSeek/") arguments (fun it =>
    let* a1 := arg arguments 1 in
    match valueToString a1 with
    | Some target => let* _ := effect (fun w => e_Seek w it target) in ret JNull
    | None => throw (str "leveldbIteratorSeek/invalid-params")
    end).

Definition leveldbIteratorValid (arguments : list JsValue) : M JsValue :=
  with_iterator (str "leveldbIteratorValid/") arguments (fun it =>
    let* b := query (fun w => e_Valid w it) in ret (JBool b)).

Definition leveldbIteratorPrev (arguments : list JsValue) : M JsValue :=
  with_iterator (str "leveldbIteratorPrev/") arguments (fun it =>
    let* _ := effect (fun w => e_Prev w it) in ret JNull).

Definition leveldbIteratorNext (arguments : list JsValue) : M JsValue :=
  with_iterator (str "leveldbIteratorNext/") arguments (fun it =>
    let* _ := effect (fun w => e_Next w it) in ret JNull).

Definition leveldbIteratorDelete (arguments : list JsValue) : M JsValue :=
  with_iterator (str "leveldbIteratorDelete/") arguments (fun it =>
    let* a0 := arg arguments 0 in
    match a0 with
    | JNumber n =>
        let* _ := effect (fun w => e_delete_iter w it) in
        let* table := gets iterators in
        let* _ := set_iterators (<[Z.to_nat (to_int n) := None]> table) in
        ret JNull
    | _ => ub
    end).

Definition leveldbIteratorKeyStr (arguments : list JsValue) : M JsValue :=
  with_iterator (str "leveldbIteratorKeyStr/") arguments (fun it =>
    let* k := query (fun w => e_key w it) in ret (JString (createFromUtf8 k))).

Definition leveldbIteratorValueStr (arguments : list JsValue) : M JsValue :=
  with_iterator (str "leveldbIteratorValueStr/") arguments (fun it =>
    let* v := query (fun w => e_value w it) in ret (JString (createFromUtf8 v))).

Definition leveldbIteratorKeyBuf (arguments : list JsValue) : M JsValue :=
  with_iterator (str "leveldbIteratorKeyBuf/") arguments (fun it =>
    let* k := query (fun w => e_key w it) in newArrayBuffer k).

Definition leveldbIteratorValueBuf (arguments : list JsValue) : M JsValue :=
  with_iterator (str "leveldbIteratorValueBuf/") arguments (fun it =>
    let* v := query (fun w => e_value w it) in newArrayBuffer v).


(** [iterator->key()] comes before the test of [iterator]. *)
Definition leveldbIteratorKeyCompare (arguments : list JsValue) : M JsValue :=
  let* a0 := arg arguments 0 in
  let* it := valueToIterator a0 in
  let* a1 := arg arguments 1 in
  match valueToString a1 with
  | None => throw (str "leveldbIteratorKeyCompare/invalid-params")
  | Some target =>
      match it with
      | None => ub
      | Some it =>
          let* k := query (fun w => e_key w it) in
          ret (JInt (Slice_compare k target))
      end
  end.

(** ** Batches *)

(** The first cleared slot. *)
Fixpoint free_slot (i : nat) (table : list (option bytes)) : option nat :=
  match table with
  | [] => None
  | None :: _ => Some i
  | Some _ :: table => free_slot (S i) table
  end.

Definition leveldbNewWriteBatch (arguments : list JsValue) : M JsValue :=
  let* table := gets batches in
  match free_slot 0 table with
  | Some i =>
      let* _ := set_batches (<[i := Some WriteBatch_Clear]> table) in
      ret (JInt (Z.of_nat i))
  | None =>
      let* _ := set_batches (table ++ [Some WriteBatch_Clear]) in
      ret (JInt (Z.of_nat (length table)))
  end.

Definition leveldbWriteWriteBatch (arguments : list JsValue) : M JsValue :=
  let* a0 := arg arguments 0 in
  with_db (str "leveldbWriteWriteBatch/") a0 (fun db =>
    let* a1 := arg arguments 1 in
    let* r := valueToWriteBatch a1 in
    match r with
    | inr batchErr => throw (str "leveldbWriteWriteBatch/" ++ batchErr)
    | inl (i, batch) =>
        let* '(status, batch) := call (fun w =>
          match e_Write w db batch with
          | Some (w, status, batch) => Some (w, (status, batch))
          | None => None
          end) in
        let* _ := store_batch i batch in
        if negb (Status_ok status) then
          throw (str "leveldbWriteWriteBatch/" ++ Status_ToString status)
        else ret JNull
    end).

Definition leveldbWriteBatchPut (arguments : list JsValue) : M JsValue :=
  let* a0 := arg arguments 0 in
  let* r := valueToWriteBatch a0 in
  match r with
  | inr batchErr => throw (str "leveldbWriteBatchPut/" ++ batchErr)
  | inl (i, batch) =>
      let* a1 := arg arguments 1 in
      match valueToString a1 with
      | Some key =>
          let* a2 := arg arguments 2 in
          match valueToString a2 with
          | Some value => let* _ := store_batch i (WriteBatch_Put batch key value) in ret JNull
          | None => throw (str "leveldbWriteBatchPut/invalid-params")
          end
      | None => throw (str "leveldbWriteBatchPut/invalid-params")
      end
  end.

Definition leveldbWriteBatchDelete (arguments : list JsValue) : M JsValue :=
  let* a0 := arg arguments 0 in
  let* r := valueToWriteBatch a0 in
  match r with
  | inr batchErr => throw (str "leveldbWriteBatchDelete/" ++ batchErr)
  | inl (i, batch) =>
      let* a1 := arg arguments 1 in
      match valueToString a1 with
      | Some key => let* _ := store_batch i (WriteBatch_Delete batch key) in ret JNull
      | None => throw (str "leveldbWriteBatchDelete/invalid-params")
      end
  end.

Definition leveldbWriteBatchClose (arguments : list JsValue) : M JsValue :=
  let* a0 := arg arguments 0 in
  let* r := valueToWriteBatch a0 in
  match r, a0 with
  | inr batchErr, _ => throw (str "leveldbWriteBatchClose/" ++ batchErr)
  | inl _, JNumber n =>
      let idx := to_int n in
      let* table := gets batches in
      match handle table idx with
      | Some (Some _) =>
          let* _ := set_batches (<[Z.to_nat idx := None]> table) in ret JNull
      | _ => throw (str "leveldbWriteBatchClose/idx-out-of-bounds")
      end
  | inl _, _ => ub
  end.

(** ** The rest *)

Definition leveldbTestException (arguments : list JsValue) : M JsValue :=
  throw (str "leveldbTestException").

(** [for (itSrc->SeekToFirst(); itSrc->Valid(); itSrc->Next())], from the test on. *)
Fixpoint merge_loop (fuel : nat) (batchMerge : bool) (dbDst : DB) (itSrc : Iter) (batch : bytes)
    : M bytes :=
  match fuel with
  | O => fun s => (s, NoFuel)
  | S fuel =>
      let* valid := query (fun w => e_Valid w itSrc) in
      if valid then
        let* key := query (fun w => e_key w itSrc) in
        let* value := query (fun w => e_value w itSrc) in
        let* batch :=
          if batchMerge then ret (WriteBatch_Put batch key value)
          else
            (* the status is dropped *)
            let* _ := call (fun w => e_Put w dbDst key value) in ret batch in
        let* _ := effect (fun w => e_Next w itSrc) in
        merge_loop fuel batchMerge dbDst itSrc batch
      else ret batch
  end.

(** The iterator is deleted however the function is left. *)
Definition leveldbMerge (fuel : nat) (arguments : list JsValue) : M JsValue :=
  let* a0 := arg arguments 0 in
  with_db (str "leveldbMerge/dst/") a0 (fun dbDst =>
    let* a1 := arg arguments 1 in
    with_db (str "leveldbMerge/src/") a1 (fun dbSrc =>
      let* a2 := arg arguments 2 in
      match a2 with
      | JBool batchMerge =>
          let* itSrc := call (fun w => e_NewIterator w dbSrc) in
          let* _ := effect (fun w => e_SeekToFirst w itSrc) in
          let* batch := merge_loop fuel batchMerge dbDst itSrc WriteBatch_Clear in
          let* status := query (fun w => e_iter_status w itSrc) in
          if negb (Status_ok status) then
            let* _ := effect (fun w => e_delete_iter w itSrc) in
            throw (str "leveldbMerge/" ++ Status_ToString status)
          else
            let* _ :=
              if batchMerge then
                (* the status is dropped *)
                let* _ := call (fun w =>
                  match e_Write w dbDst batch with
                  | Some (w, status, _) => Some (w, status)
                  | None => None
                  end) in ret tt
              else ret tt in
            let* _ := effect (fun w => e_delete_iter w itSrc) in
            ret JNull
      | _ => throw (str "leveldbMerge/batchMerge-param-not-a-boolean")
      end)).

(** [file_size < pos + len] adds two [int]s, whose overflow is undefined, and
    compares the sum as a [size_t]. *)
Definition leveldbReadFileBuf (arguments : list JsValue) : M JsValue :=
  let* a0 := arg arguments 0 in
  match valueToString a0 with
  | Some path =>
      let* a1 := arg arguments 1 in
      match a1 with
      | JNumber n1 =>
          let* a2 := arg arguments 2 in
          match a2 with
          | JNumber n2 =>
              let pos := to_int n1 in
              let len := to_int n2 in
              let* file := gets (fun s => e_read_file (world s) path) in
              match file with
              | inr errno => throw (str "leveldbReadFileBuf/open-error/" ++ errno)
              | inl file =>
                  if (pos + len <? - 2 ^ 31) || (2 ^ 31 <=? pos + len) then ub
                  else if size file <? u64 (pos + len) then
                    throw (str "leveldbReadFileBuf/invalid-len-plus-pos")
                  else if len <? 0 then throw range_error
                  else if pos <? 0 then
                    (* [seekg] failed, and so does [read] *)
                    throw (str "leveldbReadFileBuf/read-error/" ++ read_errno)
                  else ret (JArrayBuffer (take (Z.to_nat len) (drop (Z.to_nat pos) file)))
              end
          | _ => throw (str "leveldbReadFileBuf/invalid-params")
          end
      | _ => throw (str "leveldbReadFileBuf/invalid-params")
      end
  | None => throw (str "leveldbReadFileBuf/invalid-params")
  end.

(** [clear()] of a table of handles: every one that is set is deleted. *)
Fixpoint clear_all {A} (del : World -> A -> option World) (table : list (option A)) : M unit :=
  match table with
  | [] => ret tt
  | None :: table => clear_all del table
  | Some a :: table => let* _ := effect (fun w => del w a) in clear_all del table
  end.

Definition cleanupLeveldb : M unit :=
  let* its := gets iterators in
  let* _ := clear_all e_delete_iter its in
  let* _ := set_iterators [] in
  let* ds := gets dbs in
  let* _ := clear_all e_delete_db ds in
  let* _ := set_dbs [] in
  set_batches [].

(** [installLeveldb]: the document directory the host functions capture. *)
Definition installLeveldb (documentDir : bytes) : M bytes :=
  let* _ := cleanupLeveldb in
  match list.last documentDir with
  | None => ub
  | Some c =>
      ret (if Z_of_byte c =? 47 then documentDir else documentDir ++ str "/")
  end.

(** ** Calls from JavaScript *)

Inductive host_function :=
| HOpen | HDestroy | HClose | HPut | HDelete | HGetStr | HGetBuf
| HNewIterator | HSeekToFirst | HSeekToLast | HSeek | HValid | HPrev | HNext | HIteratorDelete
| HKeyStr | HValueStr | HKeyBuf | HValueBuf | HKeyCompare
| HNewWriteBatch | HWriteWriteBatch | HWriteBatchPut | HWriteBatchDelete | HWriteBatchClose
| HTestException | HMerge (fuel : nat) | HReadFileBuf.

(** The host functions by the names [installLeveldb] gives them. *)
Definition host (documentDir : bytes) (f : host_function) : list JsValue -> M JsValue :=
  match f with
  | HOpen => leveldbOpen documentDir
  | HDestroy => leveldbDestroy documentDir
  | HClose => leveldbClose
  | HPut => leveldbPut
  | HDelete => leveldbDelete
  | HGetStr => leveldbGetStr
  | HGetBuf => leveldbGetBuf
  | HNewIterator => leveldbNewIterator
  | HSeekToFirst => leveldbIteratorSeekToFirst
  | HSeekToLast => leveldbIteratorSeekToLast
  | HSeek => leveldbIteratorSeek
  | HValid => leveldbIteratorValid
  | HPrev => leveldbIteratorPrev
  | HNext => leveldbIteratorNext
  | HIteratorDelete => leveldbIteratorDelete
  | HKeyStr => leveldbIteratorKeyStr
  | HValueStr => leveldbIteratorValueStr
  | HKeyBuf => leveldbIteratorKeyBuf
  | HValueBuf => leveldbIteratorValueBuf
  | HKeyCompare => leveldbIteratorKeyCompare
  | HNewWriteBatch => leveldbNewWriteBatch
  | HWriteWriteBatch => leveldbWriteWriteBatch
  | HWriteBatchPut => leveldbWriteBatchPut
  | HWriteBatchDelete => leveldbWriteBatchDelete
  | HWriteBatchClose => leveldbWriteBatchClose
  | HTestException => leveldbTestException
  | HMerge fuel => leveldbMerge fuel
  | HReadFileBuf => leveldbReadFileBuf
  end.

End binding.

(** ** What the binding needs of the engine *)

(** Which handles are live, and the database an iterator reads.  Operations on live
    handles are defined; closing a database is defined only when no iterator on it
    is left; stepping and reading need a valid position. *)
Class EngineLaws `{Engine} := {
  db_live : World -> DB -> Prop;
  iter_live : World -> Iter -> Prop;
  iter_db : World -> Iter -> DB;
  same_handles (w w' : World) : Prop :=
    (forall d, db_live w' d <-> db_live w d) /\
    (forall it, iter_live w' it <-> iter_live w it) /\
    (forall it, iter_live w it -> iter_db w' it = iter_db w it);
  law_Open w path c x w' s db :
    e_Open w path c x = (w', s, db) ->
    if Status_ok s then
      exists d, db = Some d /\ ~ db_live w d /\ (forall d', db_live w' d' <-> db_live w d' \/ d' = d) /\
        (forall it, iter_live w' it <-> iter_live w it) /\
        (forall it, iter_live w it -> iter_db w' it = iter_db w it)
    else db = None /\ same_handles w w';
  law_DestroyDB w path : same_handles w (e_DestroyDB w path).1;
  law_delete_db w d :
    db_live w d -> (forall it, iter_live w it -> iter_db w it <> d) ->
    exists w', e_delete_db w d = Some w' /\ (forall d', db_live w' d' <-> db_live w d' /\ d' <> d) /\
      (forall it, iter_live w' it <-> iter_live w it) /\
      (forall it, iter_live w it -> iter_db w' it = iter_db w it);
  law_Put w d k v : db_live w d -> exists w' s, e_Put w d k v = Some (w', s) /\ same_handles w w';
  law_Delete w d k : db_live w d -> exists w' s, e_Delete w d k = Some (w', s) /\ same_handles w w';
  law_Write w d b : db_live w d -> exists w' s b', e_Write w d b = Some (w', s, b') /\ same_handles w w';
  law_Get w d k : db_live w d -> exists w' s v, e_Get w d k = Some (w', s, v) /\ same_handles w w';
  law_NewIterator w d :
    db_live w d -> exists w' it, e_NewIterator w d = Some (w', it) /\
      ~ iter_live w it /\ iter_db w' it = d /\ (forall d', db_live w' d' <-> db_live w d') /\
      (forall it', iter_live w' it' <-> iter_live w it' \/ it' = it) /\
      (forall it', iter_live w it' -> iter_db w' it' = iter_db w it');
  law_SeekToFirst w it : iter_live w it -> exists w', e_SeekToFirst w it = Some w' /\ same_handles w w';
  law_SeekToLast w it : iter_live w it -> exists w', e_SeekToLast w it = Some w' /\ same_handles w w';
  law_Seek w it t : iter_live w it -> exists w', e_Seek w it t = Some w' /\ same_handles w w';
  law_Prev w it : iter_live w it -> e_Valid w it = Some true ->
    exists w', e_Prev w it = Some w' /\ same_handles w w';
  law_Next w it : iter_live w it -> e_Valid w it = Some true ->
    exists w', e_Next w it = Some w' /\ same_handles w w';
  law_Valid w it : iter_live w it -> exists b, e_Valid w it = Some b;
  law_key w it : iter_live w it -> e_Valid w it = Some true -> exists k, e_key w it = Some k;
  law_value w it : iter_live w it -> e_Valid w it = Some true -> exists v, e_value w it = Some v;
  law_iter_status w it : iter_live w it -> exists s, e_iter_status w it = Some s;
  law_delete_iter w it :
    iter_live w it -> exists w', e_delete_iter w it = Some w' /\
      (forall d, db_live w' d <-> db_live w d) /\
      (forall it', iter_live w' it' <-> iter_live w it' /\ it' <> it) /\
      (forall it', iter_live w' it' -> iter_db w' it' = iter_db w it');
  (* writing through a database leaves the iterators where they are *)
  law_Put_Valid w d k v w' s it :
    e_Put w d k v = Some (w', s) -> iter_live w it -> e_Valid w' it = e_Valid w it
}.

Section safety.
Context `{L : EngineLaws}.
Context (createFromUtf8 : bytes -> bytes) (range_error read_errno : bytes) (ub_int : number -> Z).

Lemma same_handles_refl w : same_handles w w.
Proof. done. Qed.

(** The handle tables agree with the engine: what they hold is live and held once,
    every live handle is in its table, and the database of an iterator is open. *)
Record tables_ok (s : State) : Prop := {
  t_db_live : forall i d, dbs s !! i = Some (Some d) -> db_live (world s) d;
  t_db_once : forall i j d, dbs s !! i = Some (Some d) -> dbs s !! j = Some (Some d) -> i = j;
  t_it_live : forall i it, iterators s !! i = Some (Some it) -> iter_live (world s) it;
  t_it_once : forall i j it,
    iterators s !! i = Some (Some it) -> iterators s !! j = Some (Some it) -> i = j;
  t_it_all : forall it, iter_live (world s) it ->
    exists i, iterators s !! i = Some (Some it);
  t_it_db : forall it, iter_live (world s) it ->
    exists i, dbs s !! i = Some (Some (iter_db (world s) it));
  t_db_all : forall d, db_live (world s) d -> exists i, dbs s !! i = Some (Some d)
}.

Lemma tables_ok_world s w : tables_ok s -> same_handles (world s) w -> tables_ok (set_world w s).
Proof.
  intros [H1 H2 H3 H4 H5 H6 H7] (Hd & Hi & Hdb).
  split; cbn [set_world world dbs iterators]; eauto.
  - intros i d Hl. apply Hd. eauto.
  - intros i it Hl. apply Hi. eauto.
  - intros it Hl. apply Hi in Hl. eauto.
  - intros it Hl. apply Hi in Hl. rewrite Hdb by done. eauto.
  - intros d Hl. apply Hd in Hl. eauto.
Qed.

Lemma tables_ok_batches s b : tables_ok s -> tables_ok (MkState (world s) (dbs s) (iterators s) b).
Proof. by intros []. Qed.

(** No undefined behaviour, and the tables still agree; [nf] says whether fuel may
    run out. *)
Definition good {A} (nf : Prop) (r : State * outcome A) : Prop :=
  r.2 <> UB /\ (r.2 = NoFuel -> nf) /\ (r.2 <> NoFuel -> tables_ok r.1).

Definition post {A} (nf : Prop) (r : State * outcome A) (P : State -> A -> Prop) : Prop :=
  match r with
  | (s, Ret a) => P s a
  | (s, Throw _) => tables_ok s
  | (_, UB) => False
  | (_, NoFuel) => nf
  end.

Context (nf : Prop).

Lemma post_bind {A B} (m : M A) (k : A -> M B) s P :
  post nf (m s) (fun s' a => post nf (k a s') P) -> post nf (bind m k s) P.
Proof. unfold bind, post. by destruct (m s) as [s' [a| | |]]. Qed.

Lemma post_ret {A} (a : A) s (P : State -> A -> Prop) : P s a -> post nf (ret a s) P.
Proof. done. Qed.

Lemma post_throw {A} msg s (P : State -> A -> Prop) : tables_ok s -> post nf (throw msg s) P.
Proof. done. Qed.

Lemma post_mono {A} r (P Q : State -> A -> Prop) :
  post nf r P -> (forall s a, P s a -> Q s a) -> post nf r Q.
Proof. destruct r as [s [a| | |]]; cbn; auto. Qed.

Lemma post_good {A} (r : State * outcome A) : post nf r (fun s _ => tables_ok s) -> good nf r.
Proof.
  clear createFromUtf8 range_error read_errno ub_int.
  destruct r as [s [a| | |]]; cbn; intros Hp; unfold good; cbn;
    split_and!; try done; intros Hn; by destruct (Hn eq_refl).
Qed.

(** Primitive steps on a good state. *)
Lemma post_call {A} (f : World -> option (World * A)) s P :
  tables_ok s ->
  (exists w a, f (world s) = Some (w, a) /\ same_handles (world s) w /\
     (tables_ok (set_world w s) -> P (set_world w s) a)) ->
  post nf (call f s) P.
Proof. unfold call. intros Hs (w & a & -> & Hw & HP). cbn. by apply HP, tables_ok_world. Qed.

Lemma post_effect f s P :
  tables_ok s ->
  (exists w, f (world s) = Some w /\ same_handles (world s) w /\
     (tables_ok (set_world w s) -> P (set_world w s) tt)) ->
  post nf (effect f s) P.
Proof. unfold effect. intros Hs (w & -> & Hw & HP). cbn. by apply HP, tables_ok_world. Qed.

Lemma post_query {A} (f : World -> option A) s (P : State -> A -> Prop) :
  (exists a, f (world s) = Some a /\ P s a) -> post nf (query f s) P.
Proof. unfold query. by intros (a & -> & HP). Qed.

Lemma handle_lookup {A} (table : list (option A)) idx x :
  handle table idx = Some x -> table !! Z.to_nat idx = Some x /\ 0 <= idx.
Proof. unfold handle. destruct (Z.ltb_spec idx 0); [done|]. by destruct (_ >=? _). Qed.

Lemma post_with_db_at name v k s P :
  tables_ok s ->
  (forall d i, dbs s !! i = Some (Some d) -> db_live (world s) d -> post nf (k d s) P) ->
  post nf (with_db ub_int name v k s) P.
Proof.
  intros Hs Hk. unfold with_db, valueToDb. apply post_bind.
  destruct v; try by apply post_throw.
  apply post_bind. cbn [gets post].
  destruct (handle (dbs s) (to_int ub_int n)) as [[d|]|] eqn:E; cbn [ret post]; try done.
  apply handle_lookup in E as [E _]. apply (Hk d _ E). by apply (t_db_live s Hs _ _ E).
Qed.

Lemma post_with_db name v k s P :
  tables_ok s ->
  (forall d, db_live (world s) d -> post nf (k d s) P) -> post nf (with_db ub_int name v k s) P.
Proof. intros Hs Hk. apply post_with_db_at; auto. Qed.

(** The slot a value denotes. *)
Definition denotes {A} (table : list (option A)) (v : JsValue) (a : A) : Prop :=
  exists n, v = JNumber n /\ handle table (to_int ub_int n) = Some (Some a).

Lemma post_with_iterator name v rest k s P :
  tables_ok s ->
  (forall it, denotes (iterators s) v it -> iter_live (world s) it -> post nf (k it s) P) ->
  post nf (with_iterator ub_int name (v :: rest) k s) P.
Proof.
  intros Hs Hk. unfold with_iterator. apply post_bind. cbn [arg lookup list_lookup ret post].
  apply post_bind. unfold valueToIterator. destruct v; try by apply post_throw.
  apply post_bind. cbn [gets post].
  destruct (handle (iterators s) (to_int ub_int n)) as [[it|]|] eqn:E; cbn [ret post]; try done.
  apply Hk; [by exists n|].
  apply handle_lookup in E as [E _]. by apply (t_it_live s Hs (Z.to_nat (to_int ub_int n))).
Qed.

(** *** The tables as handles come and go *)

Lemma tables_push_db s w d :
  tables_ok s -> ~ db_live (world s) d -> (forall d', db_live w d' <-> db_live (world s) d' \/ d' = d) ->
  (forall it, iter_live w it <-> iter_live (world s) it) ->
  (forall it, iter_live (world s) it -> iter_db w it = iter_db (world s) it) ->
  tables_ok (MkState w (dbs s ++ [Some d]) (iterators s) (batches s)).
Proof.
  intros [H1 H2 H3 H4 H5 H6 H7] Hn Hd Hi Hdb. split; cbn.
  - intros i d' [Hl|[_ Hl]]%lookup_app_Some; apply Hd; [left; eauto|].
    apply list_lookup_singleton_Some in Hl as [_ [= ->]]. by right.
  - intros i j d' Hli Hlj. apply lookup_app_Some in Hli, Hlj.
    rewrite !list_lookup_singleton_Some in Hli, Hlj.
    destruct Hli as [Hli|(? & ? & Ei)], Hlj as [Hlj|(? & ? & Ej)]; [eauto| | |lia];
      exfalso; simplify_eq; eauto.
  - intros i it Hl. apply Hi. eauto.
  - done.
  - intros it Hl. apply Hi in Hl. eauto.
  - intros it Hl. apply Hi in Hl. rewrite Hdb by done. destruct (H6 it Hl) as [i Hli]. exists i.
    rewrite lookup_app_l by (by eapply lookup_lt_Some). done.
  - intros d' [Hl| ->]%Hd.
    + destruct (H7 d' Hl) as [j Hj]. exists j. by rewrite lookup_app_l by (by eapply lookup_lt_Some).
    + exists (length (dbs s)). by rewrite list_lookup_middle.
Qed.

Lemma tables_push_null s : tables_ok s ->
  tables_ok (MkState (world s) (dbs s ++ [None]) (iterators s) (batches s)).
Proof.
  intros [H1 H2 H3 H4 H5 H6 H7].
  assert (Hsome : forall i d, (dbs s ++ [None]) !! i = Some (Some d) -> dbs s !! i = Some (Some d)).
  { intros i d [Hl|[_ Hl]]%lookup_app_Some; [done|].
    by apply list_lookup_singleton_Some in Hl as [_ ?]. }
  split; cbn; eauto.
  - intros it Hl. destruct (H6 it Hl) as [i Hli]. exists i.
    by rewrite lookup_app_l by (by eapply lookup_lt_Some).
  - intros d Hl. destruct (H7 d Hl) as [i Hli]. exists i.
    by rewrite lookup_app_l by (by eapply lookup_lt_Some).
Qed.

Lemma tables_close_db s w i d :
  tables_ok s -> dbs s !! i = Some (Some d) ->
  (forall j it, iterators s !! j = Some (Some it) -> iter_db (world s) it <> d) ->
  (forall d', db_live w d' <-> db_live (world s) d' /\ d' <> d) ->
  (forall it, iter_live w it <-> iter_live (world s) it) ->
  (forall it, iter_live (world s) it -> iter_db w it = iter_db (world s) it) ->
  tables_ok (MkState w (<[i := None]> (dbs s)) (iterators s) (batches s)).
Proof.
  intros [H1 H2 H3 H4 H5 H6 H7] Hi Hno Hd Hit Hdb.
  assert (Hsome : forall j d', <[i := None]> (dbs s) !! j = Some (Some d') ->
    j <> i /\ dbs s !! j = Some (Some d')).
  { intros j d' Hl. destruct (decide (j = i)) as [->|Hne].
    - rewrite list_lookup_insert_eq in Hl by (by eapply lookup_lt_Some). done.
    - by rewrite list_lookup_insert_ne in Hl. }
  split; cbn.
  - intros j d' [Hne Hl]%Hsome. apply Hd. split; [eauto|]. intros ->. eauto.
  - intros j k d' [_ Hl]%Hsome [_ Hk]%Hsome. eauto.
  - intros j it Hl. apply Hit. eauto.
  - done.
  - intros it Hl. apply Hit in Hl. eauto.
  - intros it Hl. apply Hit in Hl. rewrite Hdb by done. destruct (H6 it Hl) as [j Hj].
    exists j. destruct (decide (j = i)) as [->|Hne].
    + exfalso. rewrite Hi in Hj. injection Hj as ->. destruct (H5 it Hl) as [k Hk]. by apply (Hno k it).
    + by rewrite list_lookup_insert_ne.
  - intros d' [Hl Hne]%Hd. destruct (H7 d' Hl) as [j Hj]. exists j.
    rewrite list_lookup_insert_ne; [done|]. intros ->. congruence.
Qed.

Lemma tables_push_iterator s w it i :
  tables_ok s -> ~ iter_live (world s) it -> dbs s !! i = Some (Some (iter_db w it)) ->
  (forall d', db_live w d' <-> db_live (world s) d') ->
  (forall it', iter_live w it' <-> iter_live (world s) it' \/ it' = it) ->
  (forall it', iter_live (world s) it' -> iter_db w it' = iter_db (world s) it') ->
  tables_ok (MkState w (dbs s) (iterators s ++ [Some it]) (batches s)).
Proof.
  intros [H1 H2 H3 H4 H5 H6 H7] Hn Hdi Hd Hi Hdb. split; cbn.
  - intros j d' Hl. apply Hd. eauto.
  - done.
  - intros j it' [Hl|[_ Hl]]%lookup_app_Some; apply Hi; [left; eauto|].
    apply list_lookup_singleton_Some in Hl as [_ [= ->]]. by right.
  - intros j k it' Hli Hlj. apply lookup_app_Some in Hli, Hlj.
    rewrite !list_lookup_singleton_Some in Hli, Hlj.
    destruct Hli as [Hli|(? & ? & Ei)], Hlj as [Hlj|(? & ? & Ej)]; [eauto| | |lia];
      exfalso; simplify_eq; eauto.
  - intros it' [Hl| ->]%Hi.
    + destruct (H5 it' Hl) as [j Hj]. exists j.
      by rewrite lookup_app_l by (by eapply lookup_lt_Some).
    + exists (length (iterators s)). by rewrite list_lookup_middle.
  - intros it' [Hl| ->]%Hi; [|eauto]. rewrite Hdb by done. eauto.
  - intros d' Hl%Hd. eauto.
Qed.

Lemma tables_delete_iterator s w i it :
  tables_ok s -> iterators s !! i = Some (Some it) ->
  (forall d, db_live w d <-> db_live (world s) d) ->
  (forall it', iter_live w it' <-> iter_live (world s) it' /\ it' <> it) ->
  (forall it', iter_live w it' -> iter_db w it' = iter_db (world s) it') ->
  tables_ok (MkState w (dbs s) (<[i := None]> (iterators s)) (batches s)).
Proof.
  intros [H1 H2 H3 H4 H5 H6 H7] Hi Hd Hit Hdb.
  assert (Hsome : forall j it', <[i := None]> (iterators s) !! j = Some (Some it') ->
    j <> i /\ iterators s !! j = Some (Some it')).
  { intros j it' Hl. destruct (decide (j = i)) as [->|Hne].
    - rewrite list_lookup_insert_eq in Hl by (by eapply lookup_lt_Some). done.
    - by rewrite list_lookup_insert_ne in Hl. }
  split; cbn.
  - intros j d Hl. apply Hd. eauto.
  - done.
  - intros j it' [Hne Hl]%Hsome. apply Hit. split; [eauto|]. intros ->. eauto.
  - intros j k it' [_ Hl]%Hsome [_ Hk]%Hsome. eauto.
  - intros it' [Hl Hne]%Hit. destruct (H5 it' Hl) as [j Hj]. exists j.
    rewrite list_lookup_insert_ne; [done|]. intros ->. congruence.
  - intros it' Hl. rewrite Hdb by done. apply Hit in Hl as [Hl _]. eauto.
  - intros d' Hl%Hd. eauto.
Qed.

(** *** The host functions *)

Abbreviation tok := (fun s _ => tables_ok s).

Lemma post_status {A} (name : bytes) status s (a : A) :
  tables_ok s ->
  post nf ((if negb (Status_ok status) then throw (name ++ Status_ToString status) else ret a) s) tok.
Proof. by destruct (Status_ok status). Qed.

Lemma safe_Open documentDir a0 a1 a2 rest s :
  tables_ok s -> post nf (leveldbOpen documentDir (a0 :: a1 :: a2 :: rest) s) tok.
Proof.
  intros Hs. unfold leveldbOpen. cbn [arg lookup list_lookup bind ret].
  destruct a0; try done. cbn [bind ret]. destruct a1; try done. cbn [bind ret]. destruct a2; try done.
  cbn [bind ret]. apply post_bind. unfold call. destruct (e_Open (world s) (documentDir ++ utf8) b b0) as [[w status] db] eqn:EO.
  apply law_Open in EO. cbn [post].
  destruct (Status_ok status); cbn [negb].
  - destruct EO as (d & -> & Hn & Hd & Hi & Hdb). cbn. by apply tables_push_db.
  - destruct EO as [-> Hsame]. cbn. apply (tables_push_null (set_world w s)).
    by apply tables_ok_world.
Qed.

Lemma safe_Destroy documentDir a0 rest s :
  tables_ok s -> post nf (leveldbDestroy documentDir (a0 :: rest) s) tok.
Proof.
  intros Hs. unfold leveldbDestroy. cbn [arg lookup list_lookup bind ret]. destruct a0; try done.
  apply post_bind, post_call; [done|]. pose proof (law_DestroyDB (world s) (documentDir ++ utf8)) as Hl.
  destruct (e_DestroyDB (world s) (documentDir ++ utf8)) as [w status]. exists w, status. split; [done|]. split; [done|].
  intros Hok. by apply post_status.
Qed.

Lemma safe_Close a0 rest s :
  tables_ok s ->
  (forall d, denotes (dbs s) a0 d ->
     forall i it, iterators s !! i = Some (Some it) -> iter_db (world s) it <> d) ->
  post nf (leveldbClose ub_int (a0 :: rest) s) tok.
Proof.
  intros Hs Hno. unfold leveldbClose. cbn [arg lookup list_lookup bind ret]. destruct a0; try done.
  cbn [bind gets]. destruct (handle (dbs s) (to_int ub_int n)) as [[d|]|] eqn:Eh; try done.
  pose proof (handle_lookup _ _ _ Eh) as [Hd _].
  assert (Hden : denotes (dbs s) (JNumber n) d) by (by exists n).
  destruct (law_delete_db (world s) d) as (w & E & H1 & H2 & H3).
  - by apply (t_db_live s Hs _ _ Hd).
  - intros it Hit. destruct (t_it_all s Hs it Hit) as [j Hj]. by apply (Hno d Hden j).
  - apply post_bind. unfold effect. rewrite E. cbn. apply (tables_close_db s w _ d); try done. by apply Hno.
Qed.

Lemma safe_Put a0 a1 a2 rest s : tables_ok s -> post nf (leveldbPut ub_int (a0 :: a1 :: a2 :: rest) s) tok.
Proof.
  intros Hs. unfold leveldbPut. cbn [arg lookup list_lookup bind ret].
  apply post_with_db; [done|]. intros d Hd. cbn [bind ret]. destruct (valueToString a1) as [k|]; [|done].
  cbn [bind ret]. destruct (valueToString a2) as [v|]; [|done].
  apply post_bind, post_call; [done|]. destruct (law_Put _ d k v Hd) as (w & st & E & Hw).
  exists w, st. split; [done|]. split; [done|]. intros Hok. by apply post_status.
Qed.

Lemma safe_Delete a0 a1 rest s : tables_ok s -> post nf (leveldbDelete ub_int (a0 :: a1 :: rest) s) tok.
Proof.
  intros Hs. unfold leveldbDelete. cbn [arg lookup list_lookup bind ret].
  apply post_with_db; [done|]. intros d Hd. cbn [bind ret]. destruct (valueToString a1) as [k|]; [|done].
  apply post_bind, post_call; [done|]. destruct (law_Delete _ d k Hd) as (w & st & E & Hw).
  exists w, st. split; [done|]. split; [done|]. intros Hok. by destruct (_ || _).
Qed.

Lemma safe_newArrayBuffer data s :
  tables_ok s -> size data < 2 ^ 31 -> post nf (newArrayBuffer range_error data s) tok.
Proof.
  intros Hs Hd. unfold newArrayBuffer. pose proof (size_nonneg data).
  rewrite swrap_id by (try done; change (2 ^ (32 - 1)) with (2 ^ 31); lia).
  zcase; [done|]. zcase; [lia|done].
Qed.

Lemma safe_Get name (make : bytes -> M JsValue) a0 a1 rest s :
  tables_ok s ->
  (forall d k w st v, e_Get (world s) d k = Some (w, st, v) -> tables_ok (set_world w s) ->
     post nf (make v (set_world w s)) tok) ->
  post nf (leveldbGet ub_int name make (a0 :: a1 :: rest) s) tok.
Proof.
  intros Hs Hmake. unfold leveldbGet. cbn [arg lookup list_lookup bind ret].
  apply post_with_db; [done|]. intros d Hd. cbn [bind ret]. destruct (valueToString a1) as [k|]; [|done].
  apply post_bind, post_call; [done|]. destruct (law_Get _ d k Hd) as (w & st & v & E & Hw).
  exists w, (st, v). rewrite E. split; [done|]. split; [done|]. intros Hok.
  destruct (IsNotFound st); [done|]. destruct (Status_ok st); [|done]. cbn [negb].
  by apply (Hmake d k w st v).
Qed.

Lemma safe_NewIterator a0 rest s : tables_ok s -> post nf (leveldbNewIterator ub_int (a0 :: rest) s) tok.
Proof.
  intros Hs. unfold leveldbNewIterator. cbn [arg lookup list_lookup bind ret].
  apply post_with_db_at; [done|]. intros d i Hd Hl. apply post_bind. unfold call.
  destruct (law_NewIterator (world s) d Hl) as (w & it & E & H1 & H2 & H3 & H4 & H5).
  rewrite E. cbn. eapply tables_push_iterator; try done. by rewrite H2.
Qed.

Lemma safe_step (e : World -> Iter -> option World) name a0 rest s :
  tables_ok s ->
  (forall it, denotes (iterators s) a0 it -> iter_live (world s) it ->
     exists w, e (world s) it = Some w /\ same_handles (world s) w) ->
  post nf (with_iterator ub_int name (a0 :: rest) (fun it =>
    bind (effect (fun w => e w it)) (fun _ => ret JNull)) s) tok.
Proof.
  intros Hs He. apply post_with_iterator; [done|]. intros it Hit Hl. apply post_bind, post_effect; [done|].
  destruct (He it Hit Hl) as (w & E & Hw). exists w. done.
Qed.

Lemma safe_Seek a0 a1 rest s : tables_ok s -> post nf (leveldbIteratorSeek ub_int (a0 :: a1 :: rest) s) tok.
Proof.
  intros Hs. apply post_with_iterator; [done|]. intros it Hit Hl. cbn [arg lookup list_lookup bind ret].
  destruct (valueToString a1) as [k|]; [|done]. apply post_bind, post_effect; [done|].
  destruct (law_Seek (world s) it k Hl) as (w & E & Hw). exists w. done.
Qed.

Lemma safe_read {A} (e : World -> Iter -> option A) (k : A -> M JsValue) name a0 rest s :
  tables_ok s ->
  (forall it, denotes (iterators s) a0 it -> iter_live (world s) it ->
     exists a, e (world s) it = Some a /\ post nf (k a s) tok) ->
  post nf (with_iterator ub_int name (a0 :: rest) (fun it => bind (query (fun w => e w it)) k) s) tok.
Proof.
  intros Hs He. apply post_with_iterator; [done|]. intros it Hit Hl. apply post_bind, post_query.
  by apply He.
Qed.

Lemma safe_IteratorDelete a0 rest s :
  tables_ok s -> post nf (leveldbIteratorDelete ub_int (a0 :: rest) s) tok.
Proof.
  intros Hs. apply post_with_iterator; [done|]. intros it (n & -> & Eh) Hl.
  cbn [arg lookup list_lookup bind ret].
  apply handle_lookup in Eh as [Hi _]. destruct (law_delete_iter (world s) it Hl) as (w & E & H1 & H2 & H3).
  apply post_bind. unfold effect. rewrite E. cbn. by apply (tables_delete_iterator s w _ it).
Qed.

Lemma safe_KeyCompare a0 a1 rest s :
  tables_ok s ->
  (exists it, denotes (iterators s) a0 it /\ e_Valid (world s) it = Some true) ->
  post nf (leveldbIteratorKeyCompare ub_int (a0 :: a1 :: rest) s) tok.
Proof.
  intros Hs (it & (n & -> & Eh) & Hv). unfold leveldbIteratorKeyCompare.
  cbn [arg lookup list_lookup bind ret valueToIterator]. apply post_bind, post_bind.
  cbn [gets post]. rewrite Eh. cbn [ret post arg lookup list_lookup bind].
  destruct (valueToString a1) as [k|]; [|done]. apply handle_lookup in Eh as [Hi _].
  destruct (law_key (world s) it) as [key E]; [by apply (t_it_live s Hs _ _ Hi)|done|].
  apply post_bind. unfold query. by rewrite E.
Qed.

Lemma post_store_batch i b s P :
  (tables_ok s -> P (MkState (world s) (dbs s) (iterators s) (<[i := Some b]> (batches s))) tt) ->
  tables_ok s -> post nf (store_batch i b s) P.
Proof. intros HP Hs. cbn. by apply HP. Qed.

Lemma post_WriteBatch v s (P : State -> nat * bytes + bytes -> Prop) :
  (forall r, P s r) -> post nf (valueToWriteBatch ub_int v s) P.
Proof.
  intros HP. unfold valueToWriteBatch. destruct v; try apply HP.
  apply post_bind. cbn [gets post].
  destruct (handle (batches s) (to_int ub_int n)) as [[b|]|]; apply HP.
Qed.

Lemma safe_NewWriteBatch rest s : tables_ok s -> post nf (leveldbNewWriteBatch rest s) tok.
Proof.
  intros Hs. unfold leveldbNewWriteBatch. apply post_bind. cbn [gets post].
  destruct (free_slot 0 (batches s)); cbn; by apply tables_ok_batches.
Qed.

Lemma safe_WriteWriteBatch a0 a1 rest s :
  tables_ok s -> post nf (leveldbWriteWriteBatch ub_int (a0 :: a1 :: rest) s) tok.
Proof.
  intros Hs. unfold leveldbWriteWriteBatch. cbn [arg lookup list_lookup bind ret].
  apply post_with_db; [done|]. intros d Hd. cbn [bind ret]. apply post_bind, post_WriteBatch.
  intros [[i b]|err]; [|done]. apply post_bind, post_call; [done|].
  destruct (law_Write _ d b Hd) as (w & st & b' & E & Hw). rewrite E.
  exists w, (st, b'). split; [done|]. split; [done|]. intros Hok.
  apply post_bind, post_store_batch; [|done]. intros _. apply post_status.
  by apply (tables_ok_batches (set_world w s)).
Qed.

Lemma safe_WriteBatchPut a0 a1 a2 rest s :
  tables_ok s -> post nf (leveldbWriteBatchPut ub_int (a0 :: a1 :: a2 :: rest) s) tok.
Proof.
  intros Hs. unfold leveldbWriteBatchPut. cbn [arg lookup list_lookup bind ret].
  apply post_bind, post_WriteBatch. intros [[i b]|err]; [|done]. cbn [bind ret].
  destruct (valueToString a1); [|done]. cbn [bind ret]. destruct (valueToString a2); [|done].
  apply post_bind, post_store_batch; [|done]. intros _. by apply tables_ok_batches.
Qed.

Lemma safe_WriteBatchDelete a0 a1 rest s :
  tables_ok s -> post nf (leveldbWriteBatchDelete ub_int (a0 :: a1 :: rest) s) tok.
Proof.
  intros Hs. unfold leveldbWriteBatchDelete. cbn [arg lookup list_lookup bind ret].
  apply post_bind, post_WriteBatch. intros [[i b]|err]; [|done]. cbn [bind ret].
  destruct (valueToString a1); [|done].
  apply post_bind, post_store_batch; [|done]. intros _. by apply tables_ok_batches.
Qed.

Lemma safe_WriteBatchClose a0 rest s :
  tables_ok s -> post nf (leveldbWriteBatchClose ub_int (a0 :: rest) s) tok.
Proof.
  intros Hs. unfold leveldbWriteBatchClose. cbn [arg lookup list_lookup bind ret].
  apply post_bind. unfold valueToWriteBatch. destruct a0; try done.
  apply post_bind. cbn [gets post].
  destruct (handle (batches s) (to_int ub_int n)) as [[b|]|] eqn:E; cbn [ret post]; try done.
  apply post_bind. cbn [gets post]. rewrite E. cbn. by apply tables_ok_batches.
Qed.

(** During a merge one more iterator is live than the table holds. *)
Definition with_extra (w0 w : World) (it : Iter) : Prop :=
  ~ iter_live w0 it /\ (forall d, db_live w d <-> db_live w0 d) /\
  (forall it', iter_live w it' <-> iter_live w0 it' \/ it' = it) /\
  (forall it', iter_live w0 it' -> iter_db w it' = iter_db w0 it').

Lemma with_extra_step w0 w w' it : with_extra w0 w it -> same_handles w w' -> with_extra w0 w' it.
Proof.
  intros (Hn & Hd & Hi & Hdb) (Hd' & Hi' & Hdb'). split_and!.
  - done.
  - intros d. by rewrite Hd', Hd.
  - intros it'. by rewrite Hi', Hi.
  - intros it' Hl. rewrite Hdb' by (apply Hi; auto). by apply Hdb.
Qed.

Lemma with_extra_live w0 w it : with_extra w0 w it -> iter_live w it.
Proof. intros (_ & _ & Hi & _). apply Hi. auto. Qed.

Lemma with_extra_delete w0 w it :
  with_extra w0 w it -> exists w', e_delete_iter w it = Some w' /\ same_handles w0 w'.
Proof.
  intros Hw. pose proof (with_extra_live _ _ _ Hw) as Hl. destruct Hw as (Hn & Hd & Hi & Hdb).
  destruct (law_delete_iter w it Hl) as (w' & E & H1 & H2 & H3). exists w'. split; [done|].
  split_and!.
  - intros d. by rewrite H1, Hd.
  - intros it'. rewrite H2, Hi. split; [intros [[?| ->] ?]; done|]. intros Hl'.
    split; [by left|]. by intros ->.
  - intros it' Hl'. rewrite H3; [by apply Hdb|]. apply H2, conj; [apply Hi; by left|].
    by intros ->.
Qed.

Lemma merge_loop_safe fuel w0 bm dst it batch s :
  nf -> db_live w0 dst -> with_extra w0 (world s) it ->
  post nf (merge_loop fuel bm dst it batch s)
    (fun s' _ => exists w, s' = set_world w s /\ with_extra w0 w it).
Proof.
  intros Hnf Hdst. revert batch s. induction fuel as [|fuel IH]; intros batch s Hw; [done|].
  cbn [merge_loop]. pose proof (with_extra_live _ _ _ Hw) as Hl. apply post_bind, post_query.
  destruct (law_Valid _ it Hl) as [v Hv]. exists v. split; [done|]. destruct v.
  2: { cbn. exists (world s). split; [by destruct s|done]. }
  apply post_bind, post_query. destruct (law_key _ it Hl Hv) as [k Hk]. exists k. split; [done|].
  apply post_bind, post_query. destruct (law_value _ it Hl Hv) as [x Hx]. exists x. split; [done|].
  assert (Hnext : forall w b, with_extra w0 w it -> e_Valid w it = Some true ->
    post nf (bind (effect (fun w => e_Next w it)) (fun _ => merge_loop fuel bm dst it b) (set_world w s))
      (fun s' _ => exists w, s' = set_world w s /\ with_extra w0 w it)).
  { intros w b Hw' Hv'. apply post_bind. unfold effect. cbn [set_world world].
    destruct (law_Next w it (with_extra_live _ _ _ Hw') Hv') as (w' & -> & Hs'). cbn [post].
    apply (with_extra_step _ _ _ _ Hw') in Hs'.
    eapply post_mono; [by apply (IH b (set_world w' (set_world w s)))|].
    intros s' _ (w2 & -> & Hw2). by exists w2. }
  apply post_bind. destruct bm; cbn [ret post].
  - specialize (Hnext (world s) (WriteBatch_Put batch k x) Hw Hv).
    by destruct s.
  - apply post_bind. unfold call. destruct (law_Put (world s) dst k x) as (w & st & E & Hsame).
    { destruct Hw as (_ & Hd & _). by apply Hd. }
    rewrite E. cbn [ret post]. apply Hnext; [by apply (with_extra_step _ (world s))|].
    by rewrite (law_Put_Valid _ _ _ _ _ _ it E Hl).
Qed.

Lemma safe_Merge fuel a0 a1 a2 rest s :
  nf -> tables_ok s -> post nf (leveldbMerge ub_int fuel (a0 :: a1 :: a2 :: rest) s) tok.
Proof.
  intros Hnf Hs. unfold leveldbMerge. cbn [arg lookup list_lookup bind ret].
  apply post_with_db; [done|]. intros dst Hdst. cbn [bind ret]. apply post_with_db; [done|].
  intros src Hsrc. cbn [bind ret]. destruct a2 as [| |bm| | | |]; try done.
  apply post_bind. unfold call at 1.
  destruct (law_NewIterator (world s) src Hsrc) as (w & it & -> & H1 & H2 & H3 & H4 & H5). cbn [post].
  assert (Hw : with_extra (world s) w it) by done.
  apply post_bind. unfold effect at 1. cbn [set_world world].
  destruct (law_SeekToFirst w it (with_extra_live _ _ _ Hw)) as (w1 & -> & Hsame). cbn [post].
  apply (with_extra_step _ _ _ _ Hw) in Hsame.
  apply post_bind. eapply post_mono;
    [by apply (merge_loop_safe fuel (world s) bm dst it _ (set_world w1 (set_world w s)))|].
  intros s' batch (w2 & -> & Hw2). cbn beta. apply post_bind, post_query.
  destruct (law_iter_status w2 it (with_extra_live _ _ _ Hw2)) as [st Hst]. exists st.
  split; [done|].
  assert (Hdel : forall w, with_extra (world s) w it -> forall k : M JsValue,
    (forall s, tables_ok s -> post nf (k s) tok) ->
    post nf (bind (effect (fun w => e_delete_iter w it)) (fun _ => k) (set_world w s)) tok).
  { intros w' Hw' k Hk. apply post_bind. unfold effect. cbn [set_world world].
    destruct (with_extra_delete _ _ _ Hw') as (w'' & -> & Hsame'). cbn [post].
    apply Hk. by apply (tables_ok_world s w''). }
  destruct (Status_ok st); cbn [negb].
  - apply post_bind. destruct bm; cbn [post ret].
    + apply post_bind. unfold call. cbn [set_world world].
      destruct (law_Write w2 dst batch) as (w3 & st3 & b3 & -> & Hsame3).
      { destruct Hw2 as (_ & Hd & _). by apply Hd. }
      cbn [post ret]. apply (Hdel w3); [by apply (with_extra_step _ w2)|done].
    + by apply (Hdel w2).
  - by apply (Hdel w2).
Qed.

Lemma safe_ReadFileBuf a0 a1 a2 rest s :
  tables_ok s ->
  (forall n1 n2, a1 = JNumber n1 -> a2 = JNumber n2 ->
     - 2 ^ 31 <= to_int ub_int n1 + to_int ub_int n2 < 2 ^ 31) ->
  post nf (leveldbReadFileBuf range_error read_errno ub_int (a0 :: a1 :: a2 :: rest) s) tok.
Proof.
  intros Hs Hsum. unfold leveldbReadFileBuf. cbn [arg lookup list_lookup bind ret].
  destruct (valueToString a0) as [path|]; [|done]. cbn [bind ret]. destruct a1; try done.
  cbn [bind ret]. destruct a2; try done. apply post_bind. cbn [gets post].
  destruct (e_read_file (world s) path) as [file|errno]; [|done].
  specialize (Hsum _ _ eq_refl eq_refl). set (p := to_int ub_int n) in *. set (l := to_int ub_int n0) in *.
  destruct (Z.ltb_spec (p + l) (- 2 ^ 31)); [lia|]. destruct (Z.leb_spec (2 ^ 31) (p + l)); [lia|].
  cbn [orb]. destruct (_ <? u64 _); [done|]. destruct (l <? 0); [done|]. by destruct (p <? 0).
Qed.

End safety.

(** ** Calls in sequence *)

Section runs.
Context `{L : EngineLaws}.
Context (createFromUtf8 : bytes -> bytes) (range_error read_errno : bytes) (ub_int : number -> Z).


(** The number of arguments a host function reads. *)
Definition arity (f : host_function) : nat :=
  match f with
  | HOpen | HPut | HWriteBatchPut | HMerge _ | HReadFileBuf => 3
  | HDelete | HGetStr | HGetBuf | HSeek | HKeyCompare | HWriteWriteBatch | HWriteBatchDelete => 2
  | HNewWriteBatch | HTestException => 0
  | _ => 1
  end.

Definition at_valid (s : State) (v : JsValue) : Prop :=
  forall it, denotes ub_int (iterators s) v it -> e_Valid (world s) it = Some true.

(** What the binding leaves to its callers: all arguments are passed; a database is
    closed after its iterators; an iterator is stepped or read at a valid position,
    and compared only when it is open; values fit an [int]; the two integers of
    [leveldbReadFileBuf] do not overflow. *)
Definition allowed (documentDir : bytes) (s : State) (f : host_function) (arguments : list JsValue)
    : Prop :=
  (arity f <= length arguments)%nat /\
  match f, arguments with
  | HClose, v :: _ =>
      forall d, denotes ub_int (dbs s) v d ->
        forall i it, iterators s !! i = Some (Some it) -> iter_db (world s) it <> d
  | (HPrev | HNext | HKeyStr | HValueStr), v :: _ => at_valid s v
  | HKeyBuf, v :: _ =>
      at_valid s v /\ forall it k, denotes ub_int (iterators s) v it -> e_key (world s) it = Some k -> size k < 2 ^ 31
  | HValueBuf, v :: _ =>
      at_valid s v /\ forall it k, denotes ub_int (iterators s) v it -> e_value (world s) it = Some k -> size k < 2 ^ 31
  | HKeyCompare, v :: _ =>
      exists it, denotes ub_int (iterators s) v it /\ e_Valid (world s) it = Some true
  | HGetBuf, _ => forall d k w st v, e_Get (world s) d k = Some (w, st, v) -> size v < 2 ^ 31
  | HReadFileBuf, _ :: v1 :: v2 :: _ =>
      forall n1 n2, v1 = JNumber n1 -> v2 = JNumber n2 ->
        - 2 ^ 31 <= to_int ub_int n1 + to_int ub_int n2 < 2 ^ 31
  | HMerge fuel, _ =>
      (leveldbMerge ub_int fuel arguments s).2 <> NoFuel
  | _, _ => True
  end.

Definition call_host (documentDir : bytes) (f : host_function) (arguments : list JsValue) : M JsValue :=
  host createFromUtf8 range_error read_errno ub_int documentDir f arguments.


(** Names the arguments the arity promises. *)
Ltac take_arg :=
  match goal with
  | Har : (_ <= length ?l)%nat |- _ => destruct l as [|? ?]; cbn [arity length] in Har; [lia|]
  | Har : (S _ <= S (length ?l))%nat |- _ => destruct l as [|? ?]; cbn [length] in Har; [lia|]
  | Har : (S (S _) <= S (S (length ?l)))%nat |- _ => destruct l as [|? ?]; cbn [length] in Har; [lia|]
  end.

Lemma host_post documentDir s f arguments :
  tables_ok s -> allowed documentDir s f arguments -> (forall fuel, f <> HMerge fuel) ->
  post False (call_host documentDir f arguments s) (fun s _ => tables_ok s).
Proof.
  intros Hs [Har Hal] Hf. destruct f; cbn [call_host host].
  - do 3 take_arg. by apply safe_Open.
  - do 1 take_arg. by apply safe_Destroy.
  - do 1 take_arg. by apply safe_Close.
  - do 3 take_arg. by apply safe_Put.
  - do 2 take_arg. by apply safe_Delete.
  - do 2 take_arg. by apply safe_Get.
  - do 2 take_arg. apply safe_Get; [done|]. intros d k w st v E Hok. apply safe_newArrayBuffer; [done|].
    by apply (Hal d k w st v).
  - do 1 take_arg. by apply safe_NewIterator.
  - do 1 take_arg. apply (safe_step ub_int False e_SeekToFirst); [done|]. intros it _. apply law_SeekToFirst.
  - do 1 take_arg. apply (safe_step ub_int False e_SeekToLast); [done|]. intros it _. apply law_SeekToLast.
  - do 2 take_arg. by apply safe_Seek.
  - do 1 take_arg. apply (safe_read ub_int False e_Valid (fun b => ret (JBool b))); [done|].
    intros it _ Hl. destruct (law_Valid _ it Hl) as [b Hb]. by exists b.
  - do 1 take_arg. apply (safe_step ub_int False e_Prev); [done|]. intros it Hd Hl.
    apply law_Prev; [done|]. by apply Hal.
  - do 1 take_arg. apply (safe_step ub_int False e_Next); [done|]. intros it Hd Hl.
    apply law_Next; [done|]. by apply Hal.
  - do 1 take_arg. by apply safe_IteratorDelete.
  - do 1 take_arg. apply (safe_read ub_int False e_key (fun k => ret (JString (createFromUtf8 k)))); [done|].
    intros it Hd Hl. destruct (law_key _ it Hl (Hal it Hd)) as [k Hk]. by exists k.
  - do 1 take_arg. apply (safe_read ub_int False e_value (fun k => ret (JString (createFromUtf8 k)))); [done|].
    intros it Hd Hl. destruct (law_value _ it Hl (Hal it Hd)) as [k Hk]. by exists k.
  - do 1 take_arg. destruct Hal as [Hv Hsz].
    apply (safe_read ub_int False e_key (newArrayBuffer range_error)); [done|].
    intros it Hd Hl. destruct (law_key _ it Hl (Hv it Hd)) as [k Hk]. exists k. split; [done|].
    apply safe_newArrayBuffer; [done|]. by apply (Hsz it).
  - do 1 take_arg. destruct Hal as [Hv Hsz].
    apply (safe_read ub_int False e_value (newArrayBuffer range_error)); [done|].
    intros it Hd Hl. destruct (law_value _ it Hl (Hv it Hd)) as [k Hk]. exists k. split; [done|].
    apply safe_newArrayBuffer; [done|]. by apply (Hsz it).
  - do 2 take_arg. by apply safe_KeyCompare.
  - by apply safe_NewWriteBatch.
  - do 2 take_arg. by apply safe_WriteWriteBatch.
  - do 3 take_arg. by apply safe_WriteBatchPut.
  - do 2 take_arg. by apply safe_WriteBatchDelete.
  - do 1 take_arg. by apply safe_WriteBatchClose.
  - done.
  - by destruct (Hf fuel).
  - do 3 take_arg. by apply safe_ReadFileBuf.
Qed.

(** One call: defined, and the tables agree with the engine after it. *)
Lemma host_good documentDir s f arguments :
  tables_ok s -> allowed documentDir s f arguments ->
  let r := call_host documentDir f arguments s in
  tables_ok r.1 /\ r.2 <> UB /\ r.2 <> NoFuel.
Proof.
  intros Hs Hal. assert (Hm : (exists fuel, f = HMerge fuel) \/ forall fuel, f <> HMerge fuel).
  { destruct f; try (right; done). left. by eexists. }
  destruct Hm as [[fuel ->]|Hm].
  - destruct Hal as [Har Hal]. cbn [arity] in Har.
    assert (Hp : good True (call_host documentDir (HMerge fuel) arguments s)).
    { apply post_good. do 3 take_arg. cbn [call_host host]. by apply (safe_Merge ub_int True). }
    destruct Hp as (H1 & _ & H2).
    assert (Hn : (call_host documentDir (HMerge fuel) arguments s).2 <> NoFuel) by (by destruct arguments).
    auto.
  - pose proof (host_post documentDir s f arguments Hs Hal Hm) as Hp.
    apply post_good in Hp as (H1 & H2 & H3). auto.
Qed.

(** A program of host calls; JavaScript catches what a call throws and goes on. *)
Fixpoint run (documentDir : bytes) (calls : list (host_function * list JsValue)) (s : State)
    : State * list (outcome JsValue) :=
  match calls with
  | [] => (s, [])
  | (f, arguments) :: calls =>
      let '(s, o) := call_host documentDir f arguments s in
      let '(s, os) := run documentDir calls s in
      (s, o :: os)
  end.

Fixpoint all_allowed (documentDir : bytes) (calls : list (host_function * list JsValue)) (s : State)
    : Prop :=
  match calls with
  | [] => True
  | (f, arguments) :: calls =>
      allowed documentDir s f arguments /\
      all_allowed documentDir calls (call_host documentDir f arguments s).1
  end.

Lemma run_safe documentDir calls s :
  tables_ok s -> all_allowed documentDir calls s ->
  tables_ok (run documentDir calls s).1 /\
  Forall (fun o => o <> UB /\ o <> NoFuel) (run documentDir calls s).2.
Proof.
  revert s. induction calls as [|[f arguments] calls IH]; intros s Hs Hal; [by split; [|constructor]|].
  destruct Hal as [Hc Hal]. destruct (host_good documentDir s f arguments Hs Hc) as (H1 & H2 & H3).
  cbn [run]. destruct (call_host documentDir f arguments s) as [s1 o]. cbn [fst snd] in *.
  destruct (IH s1 H1 Hal) as [I1 I2]. destruct (run documentDir calls s1) as [s2 os]. split; [done|].
  by constructor.
Qed.
End runs.

(** ** Reloading *)

Section reload.
Context `{L : EngineLaws}.

Definition once {A} (table : list (option A)) : Prop :=
  forall i j a, table !! i = Some (Some a) -> table !! j = Some (Some a) -> i = j.

Definition held {A} (table : list (option A)) (a : A) : Prop :=
  exists i, table !! i = Some (Some a).

Lemma once_cons {A} (x : option A) table :
  once (x :: table) -> once table /\ forall a, x = Some a -> ~ held table a.
Proof.
  intros H'. split.
  - intros i j a Hi Hj. specialize (H' (S i) (S j) a Hi Hj). lia.
  - intros a -> [i Hi]. by specialize (H' 0%nat (S i) a eq_refl Hi).
Qed.

Lemma held_cons {A} (x : option A) table a : held (x :: table) a <-> x = Some a \/ held table a.
Proof.
  split.
  - intros [[|i] Hi]; [left; by injection Hi|right; by exists i].
  - intros [->|[i Hi]]; [by exists 0%nat|by exists (S i)].
Qed.

Lemma clear_iterators table s :
  (forall it, held table it -> iter_live (world s) it) -> once table ->
  exists w, clear_all e_delete_iter table s = (set_world w s, Ret tt) /\
    (forall d, db_live w d <-> db_live (world s) d) /\
    (forall it, iter_live w it <-> iter_live (world s) it /\ ~ held table it).
Proof.
  revert s. induction table as [|x table IH]; intros s Hl Ho.
  { exists (world s). split; [by destruct s|]. split; [done|]. intros it. split; [|by intros []].
    intros Hi. split; [done|]. by intros [i Hi']. }
  apply once_cons in Ho as [Ho Hn]. destruct x as [it|]; cbn [clear_all].
  - destruct (law_delete_iter (world s) it) as (w & E & H1 & H2 & H3); [apply Hl, held_cons; by left|].
    unfold bind, effect. rewrite E. destruct (IH (set_world w s)) as (w' & -> & Hd & Hi); [|done|].
    + intros it' Hh. apply H2. split; [apply Hl, held_cons; by right|]. intros ->. by apply (Hn it).
    + exists w'. split; [done|]. cbn [set_world world] in *. split; [intros d; by rewrite Hd, H1|].
      intros it'. rewrite Hi, H2, held_cons. intuition congruence.
  - destruct (IH s) as (w' & -> & Hd & Hi); [intros it Hh; apply Hl, held_cons; by right|done|].
    exists w'. split; [done|]. split; [done|]. intros it'. rewrite Hi, held_cons. intuition congruence.
Qed.

Lemma clear_dbs table s :
  (forall it, ~ iter_live (world s) it) ->
  (forall d, held table d -> db_live (world s) d) -> once table ->
  exists w, clear_all e_delete_db table s = (set_world w s, Ret tt) /\
    (forall it, ~ iter_live w it) /\
    (forall d, db_live w d <-> db_live (world s) d /\ ~ held table d).
Proof.
  revert s. induction table as [|x table IH]; intros s Hno Hl Ho.
  { exists (world s). split; [by destruct s|]. split; [done|]. intros d. split; [|by intros []].
    intros Hi. split; [done|]. by intros [i Hi']. }
  apply once_cons in Ho as [Ho Hn]. destruct x as [d|]; cbn [clear_all].
  - destruct (law_delete_db (world s) d) as (w & E & H1 & H2 & H3);
      [apply Hl, held_cons; by left|intros it Hi; by destruct (Hno it)|].
    unfold bind, effect. rewrite E. destruct (IH (set_world w s)) as (w' & -> & Hd & Hi); [| |done|].
    + intros it Hi. apply H2 in Hi. by apply (Hno it).
    + intros d' Hh. apply H1. split; [apply Hl, held_cons; by right|]. intros ->. by apply (Hn d).
    + exists w'. split; [done|]. cbn [set_world world] in *. split; [done|].
      intros d'. rewrite Hi, H1, held_cons. intuition congruence.
  - destruct (IH s) as (w' & -> & Hd & Hi); [done|intros d Hh; apply Hl, held_cons; by right|done|].
    exists w'. split; [done|]. split; [done|]. intros d'. rewrite Hi, held_cons. intuition congruence.
Qed.

Lemma cleanup_ok s :
  tables_ok s ->
  exists w, cleanupLeveldb s = (MkState w [] [] [], Ret tt) /\
    (forall it, ~ iter_live w it) /\ (forall d, ~ db_live w d).
Proof.
  intros [H1 H2 H3 H4 H5 H6 H7].
  destruct (clear_iterators (iterators s) s) as (w1 & E1 & Hd1 & Hi1);
    [intros it [i Hi]; by apply (H3 i)|done|].
  unfold cleanupLeveldb. unfold bind at 1, gets at 1. unfold bind at 1. rewrite E1.
  assert (Hno : forall it, ~ iter_live w1 it).
  { intros it Hi. apply Hi1 in Hi as [Hi Hh]. apply Hh. by apply H5. }
  unfold bind at 1, set_iterators. cbn [set_world world dbs iterators batches].
  destruct (clear_dbs (dbs s) (MkState w1 (dbs s) [] (batches s))) as (w2 & E2 & Hi2 & Hd2);
    [done|intros d [i Hi]; apply Hd1; by apply (H1 i)|done|].
  unfold bind at 1, gets at 1. cbn [dbs]. unfold bind at 1. rewrite E2. cbn.
  exists w2. split; [done|]. split; [done|]. intros d [Hl Hh]%Hd2. apply Hh, H7. by apply Hd1.
Qed.
End reload.

(** ** An engine in memory *)

(** Databases are ordered association lists, iterators read the list their database
    had when they were made; handles are never used again. *)
Module MemEngine.
Record mem_iter := MkIter { mi_db : nat; mi_all : list (bytes * bytes); mi_pos : nat }.
Record mem_world := MkWorld {
  w_dbs : list (option (list (bytes * bytes)));
  w_its : list (option mem_iter)
}.

Fixpoint insert_pair (k v : bytes) (l : list (bytes * bytes)) : list (bytes * bytes) :=
  match l with
  | [] => [(k, v)]
  | (k', v') :: l' =>
      let c := Slice_compare k k' in
      if c <? 0 then (k, v) :: l else if c =? 0 then (k, v) :: l' else (k', v') :: insert_pair k v l'
  end.

Definition remove_key (k : bytes) (l : list (bytes * bytes)) : list (bytes * bytes) :=
  List.filter (fun p => negb (bool_decide (p.1 = k))) l.

Fixpoint find_key (k : bytes) (l : list (bytes * bytes)) : option bytes :=
  match l with
  | [] => None
  | (k', v) :: l => if decide (k' = k) then Some v else find_key k l
  end.

Definition apply_batch_op (l : list (bytes * bytes)) (op : batch_op) : list (bytes * bytes) :=
  match op with
  | OpPut k v => insert_pair k v l
  | OpDelete k => remove_key k l
  end.

Definition get_slot {A} (l : list (option A)) (i : nat) : option A := mjoin (l !! i).

Definition set_db (w : mem_world) (d : nat) (l : list (bytes * bytes)) : mem_world :=
  MkWorld (<[d := Some l]> (w_dbs w)) (w_its w).

Definition update (w : mem_world) (d : nat) (f : list (bytes * bytes) -> list (bytes * bytes))
    : option (mem_world * Status) :=
  l ← get_slot (w_dbs w) d; Some (set_db w d (f l), Status_OK).

Definition move (w : mem_world) (it : nat) (f : mem_iter -> option nat) : option mem_world :=
  i ← get_slot (w_its w) it; p ← f i;
  Some (MkWorld (w_dbs w) (<[it := Some (MkIter (mi_db i) (mi_all i) p)]> (w_its w))).

Definition current (w : mem_world) (it : nat) : option (bytes * bytes) :=
  i ← get_slot (w_its w) it; mi_all i !! mi_pos i.

Definition is_valid (i : mem_iter) : bool := (mi_pos i <? length (mi_all i))%nat.

Definition reads (d : nat) (x : option mem_iter) : bool :=
  match x with Some i => (mi_db i =? d)%nat | None => false end.

#[export] Instance engine : Engine := {|
  World := mem_world;
  DB := nat;
  Iter := nat;
  e_Open w path c x :=
    (MkWorld (w_dbs w ++ [Some []]) (w_its w), Status_OK, Some (length (w_dbs w)));
  e_DestroyDB w path := (w, Status_OK);
  e_delete_db w d :=
    if existsb (reads d) (w_its w) then None
    else _ ← get_slot (w_dbs w) d; Some (MkWorld (<[d := None]> (w_dbs w)) (w_its w));
  e_Put w d k v := update w d (insert_pair k v);
  e_Delete w d k := update w d (remove_key k);
  e_Write w d b :=
    match Iterate b [] with
    | Some (ops, s) =>
        '(w, _) ← update w d (fun l => foldl apply_batch_op l ops); Some (w, s, b)
    | None => None
    end;
  e_Get w d k :=
    l ← get_slot (w_dbs w) d;
    match find_key k l with
    | Some v => Some (w, Status_OK, v)
    | None => Some (w, Status_NotFound [] [], [])
    end;
  e_NewIterator w d :=
    l ← get_slot (w_dbs w) d;
    Some (MkWorld (w_dbs w) (w_its w ++ [Some (MkIter d l (length l))]), length (w_its w));
  e_SeekToFirst w it := move w it (fun i => Some 0%nat);
  e_SeekToLast w it :=
    move w it (fun i => Some (if (length (mi_all i) =? 0)%nat then 0%nat else (length (mi_all i) - 1)%nat));
  e_Seek w it t :=
    move w it (fun i => Some (length (List.filter (fun p => Slice_compare p.1 t <? 0) (mi_all i))));
  e_Prev w it :=
    move w it (fun i => if is_valid i then
      Some (if (mi_pos i =? 0)%nat then length (mi_all i) else (mi_pos i - 1)%nat) else None);
  e_Next w it := move w it (fun i => if is_valid i then Some (mi_pos i + 1)%nat else None);
  e_Valid w it := i ← get_slot (w_its w) it; Some (is_valid i);
  e_key w it := fst <$> current w it;
  e_value w it := snd <$> current w it;
  e_iter_status w it := _ ← get_slot (w_its w) it; Some Status_OK;
  e_delete_iter w it :=
    _ ← get_slot (w_its w) it; Some (MkWorld (w_dbs w) (<[it := None]> (w_its w)));
  e_read_file w path := inr (str "No such file or directory")
|}.

Lemma get_slot_push {A} (l : list (option A)) a i :
  is_Some (get_slot (l ++ [Some a]) i) <-> is_Some (get_slot l i) \/ i = length l.
Proof.
  unfold get_slot. destruct (Nat.lt_trichotomy i (length l)) as [H|[->|H]].
  - rewrite lookup_app_l by done. split; [by left|]. intros [?| ->]; [done|lia].
  - rewrite list_lookup_middle by done. split; [by right|]. intros _. by eexists.
  - rewrite !lookup_ge_None_2 by (rewrite ?length_app; simpl; lia).
    split; [by intros []|]. intros [[]| ->]; [done|lia].
Qed.

Lemma get_slot_push_old {A} (l : list (option A)) a i :
  is_Some (get_slot l i) -> get_slot (l ++ [a]) i = get_slot l i.
Proof.
  unfold get_slot. destruct (l !! i) eqn:E; [|by intros []]. intros _.
  by rewrite lookup_app_l, E by (by eapply lookup_lt_Some).
Qed.

Lemma get_slot_set {A} (l : list (option A)) (i j : nat) (a : A) :
  is_Some (get_slot l i) -> is_Some (get_slot (<[i := Some a]> l) j) <-> is_Some (get_slot l j).
Proof.
  unfold get_slot. intros Hi. destruct (l !! i) as [x|] eqn:E; [|by destruct Hi].
  destruct (decide (j = i)) as [->|Hne].
  - rewrite list_lookup_insert_eq, E by (by eapply lookup_lt_Some). split; [done|]. by eexists.
  - by rewrite list_lookup_insert_ne.
Qed.

Lemma get_slot_clear {A} (l : list (option A)) (i j : nat) :
  is_Some (get_slot (<[i := None]> l) j) <-> is_Some (get_slot l j) /\ j <> i.
Proof.
  unfold get_slot. destruct (decide (j = i)) as [->|Hne].
  - destruct (decide (i < length l)%nat).
    + rewrite list_lookup_insert_eq by done. split; [by intros []|]. by intros [].
    + rewrite !lookup_ge_None_2 by (rewrite ?length_insert; lia). split; [by intros []|]. by intros [[]].
  - rewrite list_lookup_insert_ne by done. split; [done|]. by intros [].
Qed.

Definition it_db (w : mem_world) (it : nat) : nat := from_option mi_db 0%nat (get_slot (w_its w) it).

Definition same (w w' : mem_world) : Prop :=
  (forall d, is_Some (get_slot (w_dbs w') d) <-> is_Some (get_slot (w_dbs w) d)) /\
  (forall it, is_Some (get_slot (w_its w') it) <-> is_Some (get_slot (w_its w) it)) /\
  (forall it, is_Some (get_slot (w_its w) it) -> it_db w' it = it_db w it).

Lemma update_same w d f :
  is_Some (get_slot (w_dbs w) d) -> exists w', update w d f = Some (w', Status_OK) /\ same w w' /\
    w_its w' = w_its w.
Proof.
  intros Hd. unfold update. destruct Hd as [l Hl]. rewrite Hl. eexists. split; [done|].
  split; [|done]. split; [|done]. intros d'. cbn. apply get_slot_set. by eexists.
Qed.

Lemma move_same w it f :
  (exists i p, get_slot (w_its w) it = Some i /\ f i = Some p) ->
  exists w', move w it f = Some w' /\ same w w'.
Proof.
  intros (i & p & Hi & Hp). unfold move. rewrite Hi. cbn [mbind option_bind]. rewrite Hp.
  eexists. split; [done|]. split; [done|]. split; intros it'; cbn.
  - apply get_slot_set. by eexists.
  - unfold it_db, get_slot in *. cbn. intros Hs. destruct (decide (it' = it)) as [->|Hne].
    + destruct (w_its w !! it) as [x|] eqn:E; [|done].
      rewrite list_lookup_insert_eq by (by eapply lookup_lt_Some). cbn in *. by subst x.
    + by rewrite list_lookup_insert_ne.
Qed.

Lemma valid_current w it i :
  get_slot (w_its w) it = Some i -> is_valid i = true -> is_Some (current w it).
Proof.
  intros Hi Hv. unfold current. rewrite Hi. cbn. apply lookup_lt_is_Some_2.
  by apply Nat.ltb_lt.
Qed.

Lemma reads_none d its :
  (forall it i, get_slot its it = Some i -> mi_db i <> d) -> existsb (reads d) its = false.
Proof.
  intros H. apply not_true_iff_false. intros (x & Hin & Hx)%existsb_exists.
  apply list_elem_of_In, list_elem_of_lookup in Hin as [it Hit]. destruct x as [i|]; [|done].
  apply (H it i); [unfold get_slot; by rewrite Hit|]. by apply Nat.eqb_eq.
Qed.

#[export] Instance engine_laws : EngineLaws.
Proof.
  refine {| db_live w d := is_Some (get_slot (w_dbs w) d);
            iter_live w it := is_Some (get_slot (w_its w) it);
            iter_db := it_db |}; cbn.
  - intros w path c x w' s db [= <- <- <-]. cbn. eexists. split; [done|]. split; [|split; [|done]].
    + unfold get_slot. rewrite lookup_ge_None_2 by done. by intros [].
    + intros d. apply get_slot_push.
  - done.
  - intros w d [l Hl] Hno. rewrite reads_none.
    + rewrite Hl. eexists. split; [done|]. split; [|done]. intros d'. apply get_slot_clear.
    + intros it i Hi. specialize (Hno it ltac:(by eexists)). unfold it_db in Hno. by rewrite Hi in Hno.
  - intros w d k v Hd. destruct (update_same w d (insert_pair k v) Hd) as (w' & E & Hs & _). eauto.
  - intros w d k Hd. destruct (update_same w d (remove_key k) Hd) as (w' & E & Hs & _). eauto.
  - intros w d b Hd. destruct (Iterate_total b ([] : list batch_op)) as (ops & s & -> & _).
    destruct (update_same w d (fun l => foldl apply_batch_op l (foldl handle_op [] ops)) Hd)
      as (w' & -> & Hs & _). cbn. eauto.
  - intros w d k [l Hl]. rewrite Hl. cbn. destruct (find_key k l); eauto 10.
  - intros w d [l Hl]. rewrite Hl. cbn. do 2 eexists. split; [done|]. cbn. split_and!.
    + unfold get_slot. rewrite lookup_ge_None_2 by done. by intros [].
    + unfold it_db, get_slot. cbn. by rewrite list_lookup_middle.
    + done.
    + intros it. apply get_slot_push.
    + intros it Hi. unfold it_db. cbn. by rewrite get_slot_push_old.
  - intros w it [i Hi]. apply move_same. eauto.
  - intros w it [i Hi]. apply move_same. eauto.
  - intros w it t [i Hi]. apply move_same. eauto.
  - intros w it [i Hi]. rewrite Hi. cbn. intros [= Hv]. apply move_same. rewrite Hi. exists i.
    rewrite Hv. eauto.
  - intros w it [i Hi]. rewrite Hi. cbn. intros [= Hv]. apply move_same. rewrite Hi. exists i.
    rewrite Hv. eauto.
  - intros w it [i Hi]. rewrite Hi. cbn. eauto.
  - intros w it [i Hi]. rewrite Hi. cbn. intros [= Hv].
    destruct (valid_current w it i Hi Hv) as [p Hp]. rewrite Hp. cbn. eauto.
  - intros w it [i Hi]. rewrite Hi. cbn. intros [= Hv].
    destruct (valid_current w it i Hi Hv) as [p Hp]. rewrite Hp. cbn. eauto.
  - intros w it [i Hi]. rewrite Hi. cbn. eauto.
  - intros w it [i Hi]. rewrite Hi. cbn. eexists. split; [done|]. cbn. split; [done|].
    split; [intros it'; apply get_slot_clear|]. intros it' Hs. apply get_slot_clear in Hs as [_ Hne].
    unfold it_db, get_slot. cbn. by rewrite list_lookup_insert_ne.
  - intros w d k v w' s it E Hl. unfold update in E. destruct (get_slot (w_dbs w) d); [|done].
    by injection E as <- <-.
Defined.
End MemEngine.
