(* ===== verification/RnCorrect.v ===== *)
(** * What the binding guarantees

    The properties of the host functions of [RnLeveldb]: memory safety of whole
    programs of calls, what a throwing call leaves behind, batches behind handles,
    merging one database into another, and reading part of a file.  The contents of
    databases enter through the class [StoreLaws]. *)
From stdpp Require Import sets.
From S2P Require Import Prelude Comparator Status DbFormat WriteBatch RnLeveldb.

(** ** The contents of databases *)

(** What an operation of a batch does to the mapping a database is. *)
Definition op_update (f : bytes -> option bytes) (op : batch_op) : bytes -> option bytes :=
  match op with
  | OpPut k v => fun k' => if decide (k' = k) then Some v else f k'
  | OpDelete k => fun k' => if decide (k' = k) then None else f k'
  end.

Definition find_pair (l : list (bytes * bytes)) (k : bytes) : option bytes :=
  snd <$> List.find (fun p => bool_decide (p.1 = k)) l.

(** The pairs of a database in the order an iterator meets them, what an iterator
    iterates over (its database when it was made), and what is left of it at its
    position. *)
Class StoreLaws `{EngineLaws} := {
  entries : World -> DB -> list (bytes * bytes);
  snapshot : World -> Iter -> list (bytes * bytes);
  rest : World -> Iter -> list (bytes * bytes);
  st_NewIterator w d w' it : e_NewIterator w d = Some (w', it) ->
    snapshot w' it = entries w d /\ (forall d', entries w' d' = entries w d');
  st_SeekToFirst w it w' : e_SeekToFirst w it = Some w' ->
    rest w' it = snapshot w it /\ (forall d', entries w' d' = entries w d');
  st_Valid w it b : e_Valid w it = Some b -> b = negb (bool_decide (rest w it = []));
  st_key w it k : e_key w it = Some k -> fst <$> head (rest w it) = Some k;
  st_value w it v : e_value w it = Some v -> snd <$> head (rest w it) = Some v;
  st_Next w it w' : e_Next w it = Some w' ->
    rest w' it = tail (rest w it) /\ (forall d', entries w' d' = entries w d');
  st_Put w d k v w' s : e_Put w d k v = Some (w', s) -> Status_ok s = true ->
    (forall k', find_pair (entries w' d) k' = op_update (find_pair (entries w d)) (OpPut k v) k') /\
    (forall d', d' <> d -> entries w' d' = entries w d') /\
    (forall it, rest w' it = rest w it);
  st_Write w d b w' s b' ops : e_Write w d b = Some (w', s, b') -> Status_ok s = true ->
    Iterate b [] = Some (ops, Status_OK) ->
    (forall k', find_pair (entries w' d) k' = foldl op_update (find_pair (entries w d)) ops k') /\
    (forall d', d' <> d -> entries w' d' = entries w d');
  st_delete_iter w it w' : e_delete_iter w it = Some w' ->
    forall d, entries w' d = entries w d
}.

Definition put_pair (p : bytes * bytes) : batch_op := OpPut p.1 p.2.

Lemma recorded ops acc : foldl handle_op acc ops = acc ++ ops.
Proof.
  revert acc. induction ops as [|op ops IH]; intros acc; simpl; [by rewrite app_nil_r|].
  rewrite IH. by destruct op; simpl; rewrite <- app_assoc.
Qed.

Lemma find_pair_cons k v l k' :
  find_pair ((k, v) :: l) k' = if decide (k = k') then Some v else find_pair l k'.
Proof. unfold find_pair. simpl. by case_bool_decide; case_decide. Qed.

Lemma find_pair_none l k : k ∉ map fst l -> find_pair l k = None.
Proof.
  induction l as [|[k1 v1] l IH]; [done|]. intros Hn. simpl in Hn.
  rewrite find_pair_cons. case_decide; [subst; destruct Hn; by left|]. apply IH. intros Hin. apply Hn. by right.
Qed.

(** Updating with distinct keys, in any order, overlays the mapping. *)
Lemma foldl_put_pairs l f k :
  NoDup (map fst l) ->
  foldl op_update f (map put_pair l) k =
    match find_pair l k with Some v => Some v | None => f k end.
Proof.
  revert f. induction l as [|[k1 v1] l IH]; intros f Hnd; [done|].
  simpl in Hnd. apply list.NoDup_cons in Hnd as [Hn Hnd]. simpl. rewrite IH by done.
  rewrite find_pair_cons. cbn [op_update put_pair fst snd].
  destruct (decide (k1 = k)) as [<-|]; [|destruct (find_pair l k); [done|]; by destruct (decide (k = k1))].
  rewrite find_pair_none by done. by destruct (decide (k1 = k1)).
Qed.

Lemma foldl_op_update_ext f g ops k :
  (forall k, f k = g k) -> foldl op_update f ops k = foldl op_update g ops k.
Proof.
  revert f g. induction ops as [|op ops IH]; intros f g Hfg; [apply Hfg|]. simpl. apply IH.
  intros k'. destruct op; simpl; by rewrite Hfg.
Qed.

(** ** Merging *)

Section merging.
Context `{SL : StoreLaws}.
Context (ub_int : number -> Z).

Lemma valid_rest w it : iter_live w it -> e_Valid w it = Some (negb (bool_decide (rest w it = []))).
Proof. intros Hl. destruct (law_Valid w it Hl) as [b Hb]. by rewrite Hb, (st_Valid _ _ _ Hb). Qed.

Lemma read_head w it k v l :
  iter_live w it -> rest w it = (k, v) :: l ->
  e_Valid w it = Some true /\ e_key w it = Some k /\ e_value w it = Some v.
Proof.
  intros Hl Hr. assert (Hv : e_Valid w it = Some true) by (by rewrite valid_rest, Hr).
  destruct (law_key w it Hl Hv) as [k' Hk], (law_value w it Hl Hv) as [v' Hv'].
  pose proof (st_key _ _ _ Hk) as E1. pose proof (st_value _ _ _ Hv') as E2.
  rewrite Hr in E1, E2. cbn in E1, E2. by simplify_eq.
Qed.

Lemma merge_loop_reads fuel w0 bm dst it l batch s :
  (forall w d k v w' st, e_Put w d k v = Some (w', st) -> Status_ok st = true) ->
  db_live w0 dst -> with_extra w0 (world s) it -> rest (world s) it = l -> (length l < fuel)%nat ->
  exists w, merge_loop fuel bm dst it batch s =
      (set_world w s, Ret (if bm then foldl apply_op batch (map put_pair l) else batch)) /\
    with_extra w0 w it /\
    (forall d, bm = true \/ d <> dst -> entries w d = entries (world s) d) /\
    (bm = false -> forall k, find_pair (entries w dst) k =
       foldl op_update (find_pair (entries (world s) dst)) (map put_pair l) k).
Proof.
  intros Hput Hdst. revert fuel batch s. induction l as [|[k v] l IH]; intros fuel batch s Hw Hr Hf;
    (destruct fuel as [|fuel]; [simpl in Hf; lia|]); cbn [merge_loop];
    pose proof (with_extra_live _ _ _ Hw) as Hl; unfold bind at 1, query at 1.
  { rewrite valid_rest, Hr by done. cbn. exists (world s). destruct s. by destruct bm. }
  destruct (read_head _ _ _ _ _ Hl Hr) as (Hv & Hk & Hx). rewrite Hv. simpl in Hf.
  assert (Hnext : forall w b, with_extra w0 w it -> rest w it = (k, v) :: l ->
    exists w', bind (effect (fun w => e_Next w it)) (fun _ => merge_loop fuel bm dst it b) (set_world w s) =
      (set_world w' s, Ret (if bm then foldl apply_op b (map put_pair l) else b)) /\
    with_extra w0 w' it /\
    (forall d, bm = true \/ d <> dst -> entries w' d = entries w d) /\
    (bm = false -> forall k, find_pair (entries w' dst) k =
       foldl op_update (find_pair (entries w dst)) (map put_pair l) k)).
  { intros w b Hw' Hr'. pose proof (with_extra_live _ _ _ Hw') as Hl'.
    destruct (read_head _ _ _ _ _ Hl' Hr') as (Hv' & _ & _).
    destruct (law_Next w it Hl' Hv') as (w' & E & Hsame).
    destruct (st_Next _ _ _ E) as [Er Ee]. rewrite Hr' in Er.
    unfold bind, effect. cbn [set_world world]. rewrite E.
    destruct (IH fuel b (set_world w' s)) as (w2 & E2 & Hw2 & H1 & H2);
      [by apply (with_extra_step _ w)|done|lia|].
    exists w2. split; [exact E2|]. split; [done|]. cbn [set_world world] in H1, H2. split.
    - intros d Hd. by rewrite H1, Ee.
    - intros Hb k'. rewrite H2 by done. apply foldl_op_update_ext. intros k2. by rewrite Ee. }
  unfold bind at 1, query at 1. rewrite Hk. unfold bind at 1, query at 1. rewrite Hx.
  unfold bind at 1. destruct bm.
  - unfold ret at 1. destruct (Hnext (world s) (WriteBatch_Put batch k v) Hw Hr) as (w & E & R1 & R2 & _).
    exists w. split; [by destruct s|]. by split_and!.
  - unfold bind at 1, call.
    destruct (law_Put (world s) dst k v) as (w & st & E & Hsame); [by apply Hw|].
    rewrite E. unfold ret at 1. destruct (st_Put _ _ _ _ _ _ E (Hput _ _ _ _ _ _ E)) as (P1 & P2 & P3).
    destruct (Hnext w batch) as (w' & E' & Hw' & H1 & H2);
      [by apply (with_extra_step _ (world s))|by rewrite P3|].
    exists w'. split; [exact E'|]. split; [done|]. split.
    + intros d [|Hd]; [done|]. by rewrite H1, P2 by auto.
    + intros _ k'. rewrite H2 by done. cbn [map foldl]. by apply foldl_op_update_ext.
Qed.

Lemma with_db_denotes name v k s d :
  denotes ub_int (dbs s) v d -> with_db ub_int name v k s = k d s.
Proof. intros (n & -> & E). unfold with_db, valueToDb, bind, gets. by rewrite E. Qed.

(** The pairs [l] have been put over what [w0] held in [dst]. *)
Definition overlaid (w0 w : World) (dst : DB) (l : list (bytes * bytes)) : Prop :=
  (forall d, d <> dst -> entries w d = entries w0 d) /\
  (forall k, find_pair (entries w dst) k =
     foldl op_update (find_pair (entries w0 dst)) (map put_pair l) k).

(** Writing the batch that was collected, as the merge does at its end. *)
Lemma merge_write w0 w dst l :
  (forall w d b ops w' st b', Iterate b [] = Some (ops, Status_OK) ->
     e_Write w d b = Some (w', st, b') -> Status_ok st = true) ->
  db_live w dst -> ops_ok (map put_pair l) -> (forall d, entries w d = entries w0 d) ->
  exists w' st b', e_Write w dst (foldl apply_op WriteBatch_Clear (map put_pair l)) = Some (w', st, b') /\
    same_handles w w' /\ overlaid w0 w' dst l.
Proof.
  intros Hwrite Hd Hops He.
  destruct (law_Write w dst (foldl apply_op WriteBatch_Clear (map put_pair l)) Hd)
    as (w' & st & b & E & Hsame). exists w', st, b. split; [done|]. split; [done|].
  assert (Hit : Iterate (foldl apply_op WriteBatch_Clear (map put_pair l)) []
    = Some (map put_pair l, Status_OK)).
  { rewrite Clear_rep, apply_ops_rep by (unfold fits; simpl; lia || apply Hops).
    rewrite Iterate_batch_rep by (done || unfold fits; simpl; lia). by rewrite recorded. }
  destruct (st_Write _ _ _ _ _ _ _ E (Hwrite _ _ _ _ _ _ _ Hit E) Hit) as [W1 W2]. split.
  - intros d' Hne. by rewrite W2, He.
  - intros k. rewrite W1. apply foldl_op_update_ext. intros k'. by rewrite He.
Qed.

Lemma denotes_live s v d : tables_ok s -> denotes ub_int (dbs s) v d -> db_live (world s) d.
Proof. intros Hs (n & _ & E). apply handle_lookup in E as [E _]. by apply (t_db_live s Hs _ _ E). Qed.

(** C31. Merging overlays.  When no write fails and the source is read to its end,
    [leveldbMerge] ends and returns null in both modes, pair by pair and as one batch:
    the destination then maps every key of the source to the source's value and
    every other key as before, the other databases, the handles and the tables are
    unchanged, and the iterator it made is released. *)
Theorem merge_overlays fuel a0 a1 bm s dst src :
  tables_ok s ->
  denotes ub_int (dbs s) a0 dst -> denotes ub_int (dbs s) a1 src ->
  (forall w d k v w' st, e_Put w d k v = Some (w', st) -> Status_ok st = true) ->
  (forall w d b ops w' st b', Iterate b [] = Some (ops, Status_OK) ->
     e_Write w d b = Some (w', st, b') -> Status_ok st = true) ->
  (forall w it st, e_iter_status w it = Some st -> Status_ok st = true) ->
  ops_ok (map put_pair (entries (world s) src)) ->
  NoDup (map fst (entries (world s) src)) -> (length (entries (world s) src) < fuel)%nat ->
  exists w, leveldbMerge ub_int fuel [a0; a1; JBool bm] s = (set_world w s, Ret JNull) /\
    same_handles (world s) w /\
    (forall d, d <> dst -> entries w d = entries (world s) d) /\
    (forall k, find_pair (entries w dst) k =
       match find_pair (entries (world s) src) k with
       | Some v => Some v
       | None => find_pair (entries (world s) dst) k
       end).
Proof.
  intros Hs H0' H1' Hput Hwrite Hstat Hops Hnd Hf.
  pose proof (denotes_live _ _ _ Hs H0') as Hd0. pose proof (denotes_live _ _ _ Hs H1') as Hd1.
  unfold leveldbMerge. cbn [arg lookup list_lookup bind ret].
  rewrite (with_db_denotes _ _ _ _ dst) by done. cbn [bind ret].
  rewrite (with_db_denotes _ _ _ _ src) by done. cbn [bind ret].
  destruct (law_NewIterator (world s) src Hd1) as (w & it & E & X).
  destruct (st_NewIterator _ _ _ _ E) as [Hsn He]. unfold bind at 1, call at 1. rewrite E.
  assert (Hw : with_extra (world s) w it) by (by unfold with_extra; destruct X as (? & ? & ?)).
  unfold bind at 1, effect at 1. cbn [set_world world].
  destruct (law_SeekToFirst w it (with_extra_live _ _ _ Hw)) as (w1 & E1 & Hsame). rewrite E1.
  destruct (st_SeekToFirst _ _ _ E1) as [Hr1 He1]. rewrite Hsn in Hr1.
  destruct (merge_loop_reads fuel (world s) bm dst it (entries (world s) src) WriteBatch_Clear
    (set_world w1 (set_world w s)) Hput Hd0) as (w2 & E2 & Hw2 & P1 & P2);
    [by apply (with_extra_step _ w)|done|done|].
  cbn [set_world world] in P1, P2. unfold bind at 1. cbn [set_world world dbs iterators batches] in E2 |- *.
  rewrite E2. unfold bind at 1, query at 1. cbn [set_world world].
  destruct (law_iter_status w2 it (with_extra_live _ _ _ Hw2)) as [st Est]. rewrite Est.
  rewrite (Hstat _ _ _ Est). cbn [negb].
  set (batch := foldl apply_op _ _) in *.
  assert (Hend : exists w3,
    (if bm then exists st b', e_Write w2 dst batch = Some (w3, st, b') else w3 = w2) /\
    with_extra (world s) w3 it /\ overlaid (world s) w3 dst (entries (world s) src)).
  { destruct bm.
    - destruct (merge_write (world s) w2 dst (entries (world s) src))
        as (w3 & st3 & b3 & E3 & Hsame3 & Hov); [done|by apply Hw2|done| |].
      + intros d. by rewrite P1, He1, He by auto.
      + exists w3. split; [by exists st3, b3|]. split; [by apply (with_extra_step _ w2)|done].
    - exists w2. split_and!; [done|done|]. split.
      + intros d Hd. by rewrite P1, He1, He by auto.
      + intros k. rewrite P2 by done. apply foldl_op_update_ext. intros k'. by rewrite He1, He. }
  destruct Hend as (w3 & Hcase & Hw3 & Q1 & Q2).
  destruct (with_extra_delete _ _ _ Hw3) as (w4 & E4 & Hsame4).
  pose proof (st_delete_iter _ _ _ E4) as He4. exists w4. split; [|split; [done|split]].
  - unfold bind at 1. destruct bm.
    + destruct Hcase as (st3 & b3 & E3). unfold bind at 1, call. cbn [set_world world]. rewrite E3.
      cbn [ret]. unfold bind, effect. cbn [set_world world]. by rewrite E4.
    + subst w3. cbn [ret]. unfold bind, effect. cbn [set_world world]. by rewrite E4.
  - intros d Hd. by rewrite He4, Q1.
  - intros k. rewrite He4, Q2. by apply foldl_put_pairs.
Qed.
End merging.

(** The engine in memory keeps its contents as the class says. *)
Section mem.
Import MemEngine.

Lemma find_pair_insert k v l k' :
  find_pair (insert_pair k v l) k' = op_update (find_pair l) (OpPut k v) k'.
Proof.
  cbn [op_update]. induction l as [|[k1 v1] l IH]; cbn [insert_pair].
  { rewrite find_pair_cons. by repeat case_decide. }
  destruct (Slice_compare k k1 <? 0); [rewrite !find_pair_cons; by repeat case_decide; subst|].
  destruct (Z.eqb_spec (Slice_compare k k1) 0) as [E|E].
  - apply Slice_compare_eq in E as ->. rewrite !find_pair_cons. by repeat case_decide; subst.
  - rewrite find_pair_cons, IH, find_pair_cons. repeat case_decide; subst; try done.
    destruct E. by apply Slice_compare_eq.
Qed.

Lemma find_pair_remove k l k' :
  find_pair (remove_key k l) k' = op_update (find_pair l) (OpDelete k) k'.
Proof.
  cbn [op_update]. unfold remove_key. induction l as [|[k1 v1] l IH]; simpl; [by case_decide|].
  case_bool_decide as E; simpl; rewrite !find_pair_cons, IH; repeat case_decide; simplify_eq; done.
Qed.

Lemma find_pair_apply ops l k :
  find_pair (foldl apply_batch_op l ops) k = foldl op_update (find_pair l) ops k.
Proof.
  revert l. induction ops as [|op ops IH]; intros l; [done|]. simpl. rewrite IH.
  apply foldl_op_update_ext. intros k'. destruct op; [apply find_pair_insert|apply find_pair_remove].
Qed.

Definition mem_entries (w : mem_world) (d : nat) : list (bytes * bytes) := default [] (get_slot (w_dbs w) d).
Definition mem_snapshot (w : mem_world) (it : nat) : list (bytes * bytes) :=
  from_option mi_all [] (get_slot (w_its w) it).
Definition mem_rest (w : mem_world) (it : nat) : list (bytes * bytes) :=
  from_option (fun i => drop (mi_pos i) (mi_all i)) [] (get_slot (w_its w) it).

Lemma get_slot_insert {A} (l : list (option A)) i a :
  is_Some (get_slot l i) -> get_slot (<[i := Some a]> l) i = Some a.
Proof.
  unfold get_slot. destruct (l !! i) eqn:E; [|by intros []]. intros _.
  by rewrite list_lookup_insert_eq by (by eapply lookup_lt_Some).
Qed.

Lemma get_slot_insert_ne {A} (l : list (option A)) i j x :
  i <> j -> get_slot (<[i := x]> l) j = get_slot l j.
Proof. intros Hne. unfold get_slot. by rewrite list_lookup_insert_ne. Qed.

Lemma update_entries w d f w' s :
  update w d f = Some (w', s) ->
  mem_entries w' d = f (mem_entries w d) /\
  (forall d', d' <> d -> mem_entries w' d' = mem_entries w d') /\
  (forall it, mem_rest w' it = mem_rest w it).
Proof.
  unfold update, mem_entries. destruct (get_slot (w_dbs w) d) as [l|] eqn:E; [|done].
  intros [= <- <-]. cbn. rewrite get_slot_insert by (by eexists). split_and!; [done| |done].
  intros d' Hd. by rewrite get_slot_insert_ne.
Qed.

Lemma move_rest w it f w' :
  move w it f = Some w' ->
  (exists i p, get_slot (w_its w) it = Some i /\ f i = Some p /\ mem_rest w' it = drop p (mi_all i)) /\
  (forall d, mem_entries w' d = mem_entries w d).
Proof.
  unfold move. destruct (get_slot (w_its w) it) as [i|] eqn:E; [|done]. cbn [mbind option_bind].
  destruct (f i) as [p|] eqn:Ef; [|done]. intros [= <-]. split; [|done]. exists i, p.
  split_and!; [done..|]. unfold mem_rest. cbn. by rewrite get_slot_insert by (by eexists).
Qed.

Lemma is_valid_rest i : is_valid i = negb (bool_decide (drop (mi_pos i) (mi_all i) = [])).
Proof.
  unfold is_valid. destruct (Nat.ltb_spec (mi_pos i) (length (mi_all i))) as [Hl|Hl].
  - destruct (lookup_lt_is_Some_2 (mi_all i) (mi_pos i) Hl) as [x Hx].
    by rewrite (drop_S _ _ _ Hx), bool_decide_eq_false_2.
  - by rewrite drop_ge, bool_decide_eq_true_2.
Qed.

#[export] Instance mem_store : StoreLaws.
Proof.
  refine {| entries := mem_entries; snapshot := mem_snapshot; rest := mem_rest |}; cbn.
  - intros w d w' it. unfold mem_entries. destruct (get_slot (w_dbs w) d) as [l|] eqn:E; [|done].
    intros [= <- <-]. split; [|done]. unfold mem_snapshot, get_slot. cbn. by rewrite list_lookup_middle.
  - intros w it w' Hm. apply move_rest in Hm as [(i & p & Ei & [= <-] & ->) He]. split; [|done].
    unfold mem_snapshot. by rewrite Ei.
  - intros w it b. unfold mem_rest. destruct (get_slot (w_its w) it) as [i|]; [|done]. cbn.
    intros [= <-]. apply is_valid_rest.
  - intros w it k. unfold current, mem_rest. destruct (get_slot (w_its w) it) as [i|]; [|done]. cbn.
    destruct (mi_all i !! mi_pos i) as [x|] eqn:E; [|done]. intros [= <-]. by rewrite (drop_S _ _ _ E).
  - intros w it k. unfold current, mem_rest. destruct (get_slot (w_its w) it) as [i|]; [|done]. cbn.
    destruct (mi_all i !! mi_pos i) as [x|] eqn:E; [|done]. intros [= <-]. by rewrite (drop_S _ _ _ E).
  - intros w it w' Hm. apply move_rest in Hm as [(i & p & Ei & Hp & ->) He]. split; [|done].
    change ((if is_valid i then Some (mi_pos i + 1)%nat else None) = Some p) in Hp.
    destruct (is_valid i); [|done]. injection Hp as <-. unfold mem_rest. rewrite Ei. cbn.
    destruct (mi_all i !! mi_pos i) as [x|] eqn:E.
    + by rewrite (drop_S _ _ _ E), Nat.add_1_r.
    + apply lookup_ge_None in E. by rewrite !drop_ge by lia.
  - intros w d k v w' s Hu _. apply update_entries in Hu as (-> & H1 & H2). split_and!; try done.
    intros k'. apply find_pair_insert.
  - intros w d b w' s b' ops. intros Hw Hs Hit. rewrite Hit in Hw. cbn in Hw.
    destruct (update w d _) as [[w1 s1]|] eqn:E; [|done]. injection Hw as <- <- <-.
    apply update_entries in E as (-> & H1 & H2). split; [|done]. intros k'. apply find_pair_apply.
  - intros w it w'. destruct (get_slot (w_its w) it); [|done]. by intros [= <-].
Defined.

(** Two databases: keys 1 and 2, and keys 2 and 3. *)
Definition mem_two : mem_world :=
  MkWorld [Some [([x01], [x61]); ([x02], [x62])]; Some [([x02], [x63]); ([x03], [x64])]] [].

Lemma mem_two_ok : tables_ok (MkState mem_two [Some 0%nat; Some 1%nat] [] []).
Proof.
  assert (Hd : forall i d, [Some 0%nat; Some 1%nat] !! i = Some (Some d) -> i = d /\ (d < 2)%nat).
  { intros [|[|i]] d; cbn; [intros [= <-]; lia..|done]. }
  split; cbn.
  - intros i d [-> Hlt]%Hd. destruct d as [|[|d]]; [by eexists..|lia].
  - intros i j d [-> _]%Hd [-> _]%Hd. done.
  - intros [|i] it Hi; done.
  - intros [|i] j it Hi; done.
  - intros it [x Hx]. by destruct it.
  - intros it [x Hx]. by destruct it.
  - intros [|[|d]] [x Hx]; [by exists 0%nat|by exists 1%nat|done].
Qed.

Lemma mem_put_ok : forall w d k v w' st, e_Put w d k v = Some (w', st) -> Status_ok st = true.
Proof. intros w d k v w' st. cbn. unfold update. destruct (get_slot _ _); [|done]. by intros [= _ <-]. Qed.

Lemma mem_iter_ok : forall w it st, e_iter_status w it = Some st -> Status_ok st = true.
Proof. intros w it st. cbn. destruct (get_slot _ _); [|done]. by intros [= <-]. Qed.

Lemma mem_write_ok : forall w d b ops w' st b', Iterate b [] = Some (ops, Status_OK) ->
  e_Write w d b = Some (w', st, b') -> Status_ok st = true.
Proof.
  intros w d b ops w' st b' Hit. cbn. rewrite Hit. cbn. unfold update.
  destruct (get_slot _ _); [|done]. by intros [= _ <- _].
Qed.

Lemma merge_overlays_witness :
  let s := MkState mem_two [Some 0%nat; Some 1%nat] [] [] in
  exists w, leveldbMerge (fun _ => 0) 3 [JInt 0; JInt 1; JBool true] s = (set_world w s, Ret JNull) /\
    find_pair (mem_entries w 0) [x02] = Some [x63] /\ find_pair (mem_entries w 0) [x01] = Some [x61].
Proof.
  intros s. destruct (merge_overlays (fun _ => 0) 3 (JInt 0) (JInt 1) true s 0%nat 1%nat)
    as (w & E & _ & _ & H); [exact mem_two_ok|by eexists|by eexists|exact mem_put_ok|
      exact mem_write_ok|exact mem_iter_ok| | |vm_compute; lia|].
  - split; [|vm_compute; done]. repeat apply List.Forall_cons; try apply List.Forall_nil;
      vm_compute; intuition congruence.
  - apply (bool_decide_unpack _). by vm_compute.
  - exists w. split; [exact E|]. split; apply H.
Defined.
End mem.

(** ** Whole programs *)

Section programs.
Context `{L : EngineLaws}.
Context (createFromUtf8 : bytes -> bytes) (range_error read_errno : bytes) (ub_int : number -> Z).

Lemma tables_ok_initial w b :
  (forall d, ~ db_live w d) -> (forall it, ~ iter_live w it) -> tables_ok (MkState w [] [] b).
Proof.
  intros Hd Hi. split; cbn; try done.
  - intros it Hl. by destruct (Hi it).
  - intros it Hl. by destruct (Hi it).
  - intros d Hl. by destruct (Hd d).
Qed.

(** C23. Memory safety of the binding.  Run any sequence of the host functions, with
    any arguments and catching whatever they throw, from the state the module is
    installed in: if the caller keeps to [allowed] (all arguments passed, databases
    closed after their iterators, iterators stepped and read at valid positions,
    sizes within [int]), no call uses a deleted handle or runs into any other
    undefined behaviour, the tables hold every live handle exactly once, and
    reloading then deletes every database and iterator, once each. *)
Theorem host_calls_safe documentDir w0 calls :
  (forall d, ~ db_live w0 d) -> (forall it, ~ iter_live w0 it) ->
  all_allowed createFromUtf8 range_error read_errno ub_int documentDir calls (MkState w0 [] [] []) ->
  let r := run createFromUtf8 range_error read_errno ub_int documentDir calls (MkState w0 [] [] []) in
  Forall (fun o => o <> UB /\ o <> NoFuel) r.2 /\ tables_ok r.1 /\
  exists w, cleanupLeveldb r.1 = (MkState w [] [] [], Ret tt) /\
    (forall it, ~ iter_live w it) /\ (forall d, ~ db_live w d).
Proof.
  intros Hd Hi Hal r. destruct (run_safe createFromUtf8 range_error read_errno ub_int documentDir calls
    (MkState w0 [] [] []) (tables_ok_initial w0 [] Hd Hi) Hal) as [H1 H2].
  split; [exact H2|]. split; [exact H1|]. by apply cleanup_ok.
Qed.
End programs.

Section programs_witness.
Import MemEngine.

Definition demo : list (host_function * list JsValue) :=
  [(HOpen, [JString (str "db"); JBool true; JBool false]);
   (HPut, [JInt 0; JString (str "k"); JArrayBuffer (str "v")]);
   (HNewIterator, [JInt 0]);
   (HSeekToFirst, [JInt 0]);
   (HKeyStr, [JInt 0]);
   (HNext, [JInt 0]);
   (HValid, [JInt 0]);
   (HIteratorDelete, [JInt 0]);
   (HClose, [JInt 0]);
   (HPut, [JInt 0; JString (str "k"); JString (str "v")])].

Lemma host_calls_safe_witness :
  let r := run id [] [] (fun _ => 0) (str "/d/") demo (MkState (MkWorld [] []) [] [] []) in
  r.2 = [Ret (JInt 0); Ret JNull; Ret (JInt 0); Ret JNull; Ret (JString (str "k")); Ret JNull;
         Ret (JBool false); Ret JNull; Ret JNull; Throw (str "leveldbPut/valueToDb/db-closed")] /\
  Forall (fun o => o <> UB /\ o <> NoFuel) r.2.
Proof.
  intros r. split; [vm_compute; done|].
  apply (host_calls_safe (L:=engine_laws) id [] [] (fun _ => 0) (str "/d/") (MkWorld [] []) demo).
  - intros d []. done.
  - intros d []. done.
  - repeat (split; [split; [simpl; lia|]|]); try exact I.
    + intros it (n & [= <-] & E). vm_compute in E. injection E as <-. by vm_compute.
    + intros it (n & [= <-] & E). vm_compute in E. injection E as <-. by vm_compute.
    + intros d _ i it Hi. exfalso. vm_compute in Hi. by destruct i as [|[|i]].
Defined.
End programs_witness.

(** ** What a throwing call leaves behind *)

Section throwing.
Context `{E : Engine}.
Context (createFromUtf8 : bytes -> bytes) (range_error read_errno : bytes) (ub_int : number -> Z).

(** The same tables, up to the contents of batches. *)
Definition same_tables (s s' : State) : Prop :=
  dbs s' = dbs s /\ iterators s' = iterators s /\
  map (fun b => bool_decide (is_Some b)) (batches s') = map (fun b => bool_decide (is_Some b)) (batches s).

(** A computation that keeps the tables, one that keeps them when it throws, and one
    that does not throw. *)
Definition keeps {A} (m : M A) : Prop := forall s, same_tables s (m s).1.
Definition neat {A} (m : M A) : Prop := forall s msg, (m s).2 = Throw msg -> same_tables s (m s).1.
Definition silent {A} (m : M A) : Prop := forall s msg, (m s).2 <> Throw msg.

Lemma same_tables_trans s1 s2 s3 : same_tables s1 s2 -> same_tables s2 s3 -> same_tables s1 s3.
Proof. unfold same_tables. intros (-> & -> & ->) (-> & -> & ->). done. Qed.

Lemma keeps_bind {A B} (m : M A) (k : A -> M B) :
  keeps m -> (forall a, keeps (k a)) -> keeps (bind m k).
Proof.
  intros Hm Hk s. unfold bind. specialize (Hm s). destruct (m s) as [s1 [a| | |]]; [|done..].
  eapply same_tables_trans; [done|apply Hk].
Qed.

Lemma neat_bind {A B} (m : M A) (k : A -> M B) :
  keeps m -> (forall a, neat (k a)) -> neat (bind m k).
Proof.
  intros Hm Hk s msg. unfold bind. specialize (Hm s). destruct (m s) as [s1 [a| | |]]; [|done..].
  intros Ht. eapply same_tables_trans; [done|by eapply Hk].
Qed.

Lemma silent_bind {A B} (m : M A) (k : A -> M B) :
  silent m -> (forall a, silent (k a)) -> silent (bind m k).
Proof.
  intros Hm Hk s msg. unfold bind. specialize (Hm s msg). destruct (m s) as [s1 [a|msg'| |]]; [apply Hk| |done..].
  intros [= ->]. by apply Hm.
Qed.

Lemma keeps_neat {A} (m : M A) : keeps m -> neat m.
Proof. intros Hm s msg _. apply Hm. Qed.

Lemma silent_neat {A} (m : M A) : silent m -> neat m.
Proof. intros Hm s msg Ht. by destruct (Hm s msg). Qed.

Lemma keeps_call {A} (f : World -> option (World * A)) : keeps (call f).
Proof. intros s. unfold call. by destruct (f (world s)) as [[]|]. Qed.
Lemma keeps_effect f : keeps (effect f).
Proof. intros s. unfold effect. by destruct (f (world s)). Qed.
Lemma keeps_query {A} (f : World -> option A) : keeps (query f).
Proof. intros s. unfold query. by destruct (f (world s)). Qed.
Lemma silent_effect f : silent (effect f).
Proof. intros s msg. unfold effect. by destruct (f (world s)). Qed.
Lemma silent_call {A} (f : World -> option (World * A)) : silent (call f).
Proof. intros s msg. unfold call. by destruct (f (world s)) as [[]|]. Qed.
Lemma keeps_arg args i : keeps (arg args i).
Proof. intros s. unfold arg. by destruct (args !! i). Qed.

Lemma keeps_valueToDb v : keeps (valueToDb ub_int v).
Proof.
  intros s. destruct v; try done. unfold valueToDb, bind, gets. by destruct (handle _ _) as [[]|].
Qed.
Lemma keeps_valueToIterator v : keeps (valueToIterator ub_int v).
Proof.
  intros s. destruct v; try done. unfold valueToIterator, bind, gets. by destruct (handle _ _) as [[]|].
Qed.
Lemma keeps_valueToWriteBatch v : keeps (valueToWriteBatch ub_int v).
Proof.
  intros s. destruct v; try done. unfold valueToWriteBatch, bind, gets. by destruct (handle _ _) as [[]|].
Qed.
Lemma keeps_newArrayBuffer data : keeps (newArrayBuffer range_error data).
Proof. intros s. unfold newArrayBuffer. by repeat case_match. Qed.

(** One step of the proof that a host function is neat. *)
Ltac neat_step :=
  match goal with
  | |- keeps (bind _ _) => apply keeps_bind; [|intros ?]
  | |- neat (bind _ _) => first
      [ apply neat_bind; [solve [repeat neat_step]|intros ?]
      | apply silent_neat; solve [repeat neat_step] ]
  | |- silent (bind _ _) => apply silent_bind; [|intros ?]
  | |- keeps (match ?x with _ => _ end) => destruct x
  | |- neat (match ?x with _ => _ end) => destruct x
  | |- silent (match ?x with _ => _ end) => destruct x
  | |- _ => first
      [ apply keeps_call | apply keeps_effect | apply keeps_query | apply keeps_arg
      | apply keeps_valueToDb | apply keeps_valueToIterator | apply keeps_valueToWriteBatch
      | apply keeps_newArrayBuffer | apply silent_effect | apply silent_call
      | (intros ?; done) | (intros ? ?; done) | (intros ? ? ?; done)
      | apply keeps_neat; solve [repeat neat_step] ]
  end.

Lemma keeps_merge_loop fuel bm dst it batch : keeps (merge_loop fuel bm dst it batch).
Proof. revert batch. induction fuel; intros batch; [done|]. cbn [merge_loop]. by repeat neat_step. Qed.

Lemma neat_with_db name v k : (forall d, neat (k d)) -> neat (with_db ub_int name v k).
Proof. intros Hk. unfold with_db. repeat neat_step. apply Hk. Qed.

Lemma keeps_with_db name v k : (forall d, keeps (k d)) -> keeps (with_db ub_int name v k).
Proof. intros Hk. unfold with_db. repeat neat_step. apply Hk. Qed.

Lemma neat_with_iterator name args k : (forall it, neat (k it)) -> neat (with_iterator ub_int name args k).
Proof. intros Hk. unfold with_iterator. repeat neat_step. apply Hk. Qed.

Lemma keeps_Merge fuel args : keeps (leveldbMerge ub_int fuel args).
Proof.
  unfold leveldbMerge. apply keeps_bind; [apply keeps_arg|intros a0]. apply keeps_with_db. intros dst.
  apply keeps_bind; [apply keeps_arg|intros a1]. apply keeps_with_db. intros src.
  repeat neat_step. apply keeps_merge_loop.
Qed.

Lemma neat_store name i batch status (s1 : State) msg :
  (exists b, batches s1 !! i = Some (Some b)) ->
  let m := bind (store_batch i batch) (fun _ =>
    if negb (Status_ok status) then throw (name ++ Status_ToString status) else ret JNull) in
  (m s1).2 = Throw msg -> same_tables s1 (m s1).1.
Proof.
  intros [b Hb] m _. unfold m, store_batch, bind, gets, set_batches. cbn.
  assert (Hst : same_tables s1 (MkState (world s1) (dbs s1) (iterators s1) (<[i:=Some batch]> (batches s1)))).
  { split; [done|]. split; [done|]. cbn. rewrite list_fmap_insert. apply list_insert_id.
    rewrite list_lookup_fmap, Hb. done. }
  by destruct (Status_ok status).
Qed.

Lemma neat_WriteWriteBatch args : neat (leveldbWriteWriteBatch ub_int args).
Proof.
  unfold leveldbWriteWriteBatch. apply neat_bind; [apply keeps_arg|intros a0]. apply neat_with_db.
  intros db. apply neat_bind; [apply keeps_arg|intros a1]. intros s msg. unfold bind at 1 3, valueToWriteBatch.
  destruct a1; try done. unfold bind, gets.
  destruct (handle (batches s) (to_int ub_int n)) as [[b|]|] eqn:Eh; cbn [ret]; try done.
  apply handle_lookup in Eh as [Eh _]. unfold call.
  destruct (e_Write (world s) db b) as [[[w st] b']|]; [|done].
  intros Ht. eapply same_tables_trans; [|eapply neat_store; [by exists b|exact Ht]]. done.
Qed.

Lemma neat_host f documentDir args :
  f <> HOpen -> neat (call_host createFromUtf8 range_error read_errno ub_int documentDir f args).
Proof.
  intros Hf. destruct f; cbn [call_host host]; try done;
    try (apply neat_WriteWriteBatch); try (apply keeps_neat, keeps_Merge).
  all: cbv [leveldbDestroy leveldbClose leveldbPut leveldbDelete leveldbGetStr leveldbGetBuf leveldbGet
    leveldbNewIterator leveldbIteratorSeekToFirst leveldbIteratorSeekToLast leveldbIteratorSeek
    leveldbIteratorValid leveldbIteratorPrev leveldbIteratorNext leveldbIteratorDelete
    leveldbIteratorKeyStr leveldbIteratorValueStr leveldbIteratorKeyBuf leveldbIteratorValueBuf
    leveldbIteratorKeyCompare leveldbNewWriteBatch leveldbWriteBatchPut leveldbWriteBatchDelete
    leveldbWriteBatchClose leveldbTestException leveldbReadFileBuf store_batch].
  all: repeat first [apply neat_with_db; intros ? | apply neat_with_iterator; intros ? | neat_step].
Qed.

(** C36. A throwing call takes no handle away and gives none: after any host function
    other than [leveldbOpen] has thrown, on whatever arguments and whatever the
    engine did, the tables of databases and iterators are what they were and the
    same batch handles are open; a throwing [leveldbOpen] has at most added one
    closed database handle at the end of its table. *)
Theorem host_throw_keeps_tables documentDir f args s s' msg :
  call_host createFromUtf8 range_error read_errno ub_int documentDir f args s = (s', Throw msg) ->
  iterators s' = iterators s /\
  map (fun b => bool_decide (is_Some b)) (batches s') = map (fun b => bool_decide (is_Some b)) (batches s) /\
  (dbs s' = dbs s \/ f = HOpen /\ dbs s' = dbs s ++ [None]).
Proof.
  intros Hc. assert (Hf : f = HOpen \/ f <> HOpen) by (destruct f; (by left) || (by right)).
  destruct Hf as [->|Hf].
  - cbn [call_host host] in Hc. unfold leveldbOpen, bind, arg, gets, set_dbs, call, effect, ret, throw, ub in Hc.
    repeat (case_match; simplify_eq; cbn in *; try by auto).
  - pose proof (neat_host f documentDir args Hf s msg) as Hn. rewrite Hc in Hn.
    destruct (Hn eq_refl) as (H1 & H2 & H3). auto.
Qed.
End throwing.

Lemma host_throw_keeps_tables_witness :
  let s := MkState (E:=MemEngine.engine) (MemEngine.MkWorld [] []) [None] [None] [None; Some []] in
  exists s' msg, call_host id [] [] (fun _ => 0) [] HWriteBatchClose [JInt 0] s = (s', Throw msg) /\
    iterators s' = iterators s.
Proof.
  intros s. do 2 eexists. split; [reflexivity|].
  refine (proj1 (host_throw_keeps_tables id [] [] (fun _ => 0) [] HWriteBatchClose [JInt 0] s _ _ _)).
  reflexivity.
Defined.

(** ** Batches behind handles *)

Section batch_handles.
Context `{E : Engine}.
Context (createFromUtf8 : bytes -> bytes) (range_error read_errno : bytes) (ub_int : number -> Z).

(** The call that adds an operation to the batch of handle [h]. *)
Definition op_call (h : JsValue) (op : batch_op) : host_function * list JsValue :=
  match op with
  | OpPut k v => (HWriteBatchPut, [h; JArrayBuffer k; JArrayBuffer v])
  | OpDelete k => (HWriteBatchDelete, [h; JString k])
  end.

Lemma free_slot_spec table n :
  match free_slot n table with
  | Some i => exists j, i = (n + j)%nat /\ table !! j = Some None /\ forall k, (k < j)%nat -> exists b, table !! k = Some (Some b)
  | None => forall k, (k < length table)%nat -> exists b, table !! k = Some (Some b)
  end.
Proof.
  revert n. induction table as [|[b|] table IH]; intros n; simpl; [lia| |].
  - specialize (IH (S n)). destruct (free_slot (S n) table) as [i|].
    + destruct IH as (j & -> & Hj & Hk). exists (S j). split; [lia|]. split; [done|].
      intros [|k] Hlt; [by exists b|]. apply Hk. lia.
    + intros [|k] Hlt; [by exists b|]. apply IH. lia.
  - exists 0%nat. split; [lia|]. split; [done|]. lia.
Qed.

Lemma to_int_JInt z : - 2 ^ 31 <= z < 2 ^ 31 -> to_int ub_int (Num z 1) = z.
Proof.
  intros Hz. unfold to_int. rewrite Z.quot_1_r. destruct (Z.leb_spec (- 2 ^ 31) z); [|lia].
  destruct (Z.ltb_spec z (2 ^ 31)); [done|lia].
Qed.

Lemma handle_at {A} (table : list (option A)) (i : nat) x :
  table !! i = Some x -> handle table (Z.of_nat i) = Some x.
Proof.
  intros Hx. pose proof (lookup_lt_Some _ _ _ Hx). unfold handle. rewrite Nat2Z.id.
  destruct (Z.ltb_spec (Z.of_nat i) 0); [lia|]. by destruct (Z.geb_spec (Z.of_nat i) (Z.of_nat (length table))); [lia|].
Qed.

Lemma op_call_step documentDir i op b s :
  Z.of_nat i < 2 ^ 31 -> batches s !! i = Some (Some b) ->
  (let '(f, args) := op_call (JInt (Z.of_nat i)) op in
   call_host createFromUtf8 range_error read_errno ub_int documentDir f args s) =
  (MkState (world s) (dbs s) (iterators s) (<[i := Some (apply_op b op)]> (batches s)), Ret JNull).
Proof.
  intros Hi Hb.
  assert (Hv : valueToWriteBatch ub_int (JInt (Z.of_nat i)) s = (s, Ret (inl (i, b)))).
  { unfold valueToWriteBatch, JInt, bind, gets. rewrite to_int_JInt by lia.
    by rewrite (handle_at _ _ _ Hb), Nat2Z.id. }
  destruct op; cbn [op_call call_host host];
    [unfold leveldbWriteBatchPut|unfold leveldbWriteBatchDelete]; unfold bind at 1, arg at 1;
    cbn [lookup list_lookup ret]; unfold bind at 1; by rewrite Hv.
Qed.

Lemma op_calls_run documentDir i ops b s :
  Z.of_nat i < 2 ^ 31 -> batches s !! i = Some (Some b) ->
  run createFromUtf8 range_error read_errno ub_int documentDir (map (op_call (JInt (Z.of_nat i))) ops) s =
  (MkState (world s) (dbs s) (iterators s) (<[i := Some (foldl apply_op b ops)]> (batches s)),
   replicate (length ops) (Ret JNull)).
Proof.
  intros Hi. revert b s. induction ops as [|op ops IH]; intros b s Hb.
  { destruct s. cbn in *. by rewrite list_insert_id. }
  pose proof (op_call_step documentDir i op b s Hi Hb) as Hstep. cbn [map run].
  destruct (op_call (JInt (Z.of_nat i)) op) as [f args]. rewrite Hstep.
  rewrite (IH (apply_op b op)) by (cbn; by rewrite list_lookup_insert_eq by (by eapply lookup_lt_Some)).
  cbn. by rewrite list_insert_insert_eq.
Qed.

(** Batches behind handles.  [leveldbNewWriteBatch] gives the lowest handle that
    is not in use; putting and deleting through it then collects exactly those
    operations, in order: the bytes [leveldbWriteWriteBatch] will hand the engine
    iterate to them, and no other batch, no table and nothing in the engine has
    changed. *)
Lemma batch_handle_collects documentDir ops s :
  Z.of_nat (length (batches s)) < 2 ^ 31 -> ops_ok ops ->
  let host := call_host createFromUtf8 range_error read_errno ub_int documentDir in
  exists i s1 b,
    host HNewWriteBatch [] s = (s1, Ret (JInt (Z.of_nat i))) /\
    mjoin (batches s !! i) = None /\
    (forall j, (j < i)%nat -> exists b, batches s !! j = Some (Some b)) /\
    run createFromUtf8 range_error read_errno ub_int documentDir
        (map (op_call (JInt (Z.of_nat i))) ops) s1 =
      (MkState (world s) (dbs s) (iterators s) b, replicate (length ops) (Ret JNull)) /\
    (exists rep_, b !! i = Some (Some rep_) /\ Iterate rep_ [] = Some (ops, Status_OK)) /\
    (forall j, j <> i -> b !! j = batches s !! j).
Proof.
  intros Hl Hops host. unfold host. cbn [call_host RnLeveldb.host]. unfold leveldbNewWriteBatch, bind, gets.
  assert (Hend : forall i table, (i < length table)%nat -> Z.of_nat i < 2 ^ 31 ->
    table !! i = Some (Some WriteBatch_Clear) ->
    exists b, run createFromUtf8 range_error read_errno ub_int documentDir
        (map (op_call (JInt (Z.of_nat i))) ops) (MkState (world s) (dbs s) (iterators s) table) =
      (MkState (world s) (dbs s) (iterators s) b, replicate (length ops) (Ret JNull)) /\
      (exists rep_, b !! i = Some (Some rep_) /\ Iterate rep_ [] = Some (ops, Status_OK)) /\
      (forall j, j <> i -> b !! j = table !! j)).
  { intros i table Hi Hi2 Ht. rewrite (op_calls_run _ i ops WriteBatch_Clear) by done. cbn.
    eexists. split; [done|]. split; [|intros j Hj; by apply list_lookup_insert_ne].
    eexists. split; [by apply list_lookup_insert_eq|].
    rewrite Clear_rep, apply_ops_rep by (unfold fits; simpl; lia || apply Hops).
    rewrite Iterate_batch_rep by (done || unfold fits; simpl; lia). by rewrite recorded. }
  pose proof (free_slot_spec (batches s) 0) as Hs. destruct (free_slot 0 (batches s)) as [i|].
  - destruct Hs as (j & -> & Hj & Hk). pose proof (lookup_lt_Some _ _ _ Hj). cbn [Nat.add].
    destruct (Hend j (<[j := Some WriteBatch_Clear]> (batches s))) as (b & E1 & E2 & E3);
      [by rewrite length_insert|lia|by apply list_lookup_insert_eq|].
    exists j. do 2 eexists. split; [reflexivity|]. split; [by rewrite Hj|]. split; [done|].
    split; [exact E1|]. split; [done|]. intros k Hne. rewrite E3 by done. by apply list_lookup_insert_ne.
  - destruct (Hend (length (batches s)) (batches s ++ [Some WriteBatch_Clear])) as (b & E1 & E2 & E3);
      [rewrite length_app; simpl; lia|lia|by apply list_lookup_middle|].
    exists (length (batches s)). do 2 eexists. split; [reflexivity|].
    split; [by rewrite lookup_ge_None_2|]. split; [done|]. split; [exact E1|]. split; [done|].
    intros k Hne. rewrite E3 by done. destruct (Nat.lt_ge_cases k (length (batches s))).
    + by apply lookup_app_l.
    + rewrite !lookup_ge_None_2; [done|lia|]. rewrite length_app. simpl. lia.
Qed.

(** Reading part of a file: for positions and lengths whose sum is an [int],
    [leveldbReadFileBuf] returns exactly the [len] bytes at [pos] when the file can
    be opened and has them, throws in every other case, and changes nothing. *)
Lemma read_file_slice path pos len s :
  - 2 ^ 31 <= pos < 2 ^ 31 -> - 2 ^ 31 <= len < 2 ^ 31 -> - 2 ^ 31 <= pos + len < 2 ^ 31 ->
  let r := leveldbReadFileBuf range_error read_errno ub_int [JString path; JInt pos; JInt len] s in
  r.1 = s /\
  match e_read_file (world s) path with
  | inl file =>
      if (0 <=? pos) && (0 <=? len) && (pos + len <=? size file)
      then r.2 = Ret (JArrayBuffer (take (Z.to_nat len) (drop (Z.to_nat pos) file))) /\
           length (take (Z.to_nat len) (drop (Z.to_nat pos) file)) = Z.to_nat len
      else size file < 2 ^ 63 -> exists msg, r.2 = Throw msg
  | inr _ => exists msg, r.2 = Throw msg
  end.
Proof.
  intros Hp Hl Hsum r. unfold r, leveldbReadFileBuf, bind, arg, gets. cbn [lookup list_lookup ret valueToString JInt].
  unfold JInt. rewrite !to_int_JInt by done.
  destruct (e_read_file (world s) path) as [file|errno]; [|split; [done|by eexists]].
  destruct (Z.ltb_spec (pos + len) (- 2 ^ 31)); [lia|]. destruct (Z.leb_spec (2 ^ 31) (pos + len)); [lia|].
  cbn [orb]. pose proof (size_nonneg file).
  destruct (Z.ltb_spec (size file) (u64 (pos + len))) as [Hf|Hf].
  - split; [done|]. destruct (Z.leb_spec 0 pos), (Z.leb_spec 0 len), (Z.leb_spec (pos + len) (size file));
      cbn [andb]; try (intros _; by eexists).
    rewrite wrap_id in Hf by (unfold fits; lia). lia.
  - destruct (Z.ltb_spec len 0), (Z.ltb_spec pos 0); (split; [done|]);
      destruct (Z.leb_spec 0 pos), (Z.leb_spec 0 len), (Z.leb_spec (pos + len) (size file));
      cbn [andb]; try lia; try (intros _; by eexists).
    + split; [done|]. rewrite length_take, length_drop. unfold size in *. lia.
    + rewrite wrap_id in Hf by (unfold fits; lia). lia.
Qed.
End batch_handles.

(** [leveldbIteratorKeyCompare] uses the iterator before it tests it: a handle that
    names no iterator, as after [leveldbIteratorDelete], is undefined behaviour, where
    every other iterator function throws. *)
Lemma KeyCompare_before_check `{E : Engine} (ub_int : number -> Z) (i : Z) (target : bytes) (s : State) :
  - 2 ^ 31 <= i < 2 ^ 31 -> handle (iterators s) i = None \/ handle (iterators s) i = Some None ->
  (leveldbIteratorKeyCompare ub_int [JInt i; JString target] s).2 = UB /\
  exists msg, (leveldbIteratorNext ub_int [JInt i; JString target] s).2 = Throw msg.
Proof.
  intros Hi Hh. unfold leveldbIteratorKeyCompare, leveldbIteratorNext, with_iterator, bind, arg, gets.
  cbn [lookup list_lookup ret valueToString valueToIterator JInt]. unfold JInt, valueToIterator, bind, gets.
  rewrite to_int_JInt by done. destruct Hh as [Hh|Hh]; rewrite Hh; cbn; (split; [done|]); by eexists.
Qed.

Lemma batch_handle_collects_witness :
  let s := MkState (E:=MemEngine.engine) (MemEngine.MkWorld [] []) [] [] [Some []; None; Some []] in
  exists i, batches s !! i = Some None /\ exists s1,
    call_host id [] [] (fun _ => 0) [] HNewWriteBatch [] s = (s1, Ret (JInt (Z.of_nat i))).
Proof.
  intros s.
  destruct (batch_handle_collects id [] [] (fun _ => 0) [] [OpPut [x01] [x02]; OpDelete [x03]] s)
    as (i & s1 & b & E & Hm & Hj & _).
  - vm_compute. done.
  - split; [|vm_compute; done]. repeat apply List.Forall_cons; try apply List.Forall_nil;
      vm_compute; intuition congruence.
  - exists i. destruct i as [|[|i]]; [done|eauto|]. by destruct (Hj 1%nat ltac:(lia)).
Defined.

(** An engine whose every file holds the bytes 1, 2, 3, 4. *)
Definition file_engine : Engine := {|
  World := unit; DB := Empty_set; Iter := Empty_set;
  e_Open w _ _ _ := (w, Status_IOError [] [], None); e_DestroyDB w _ := (w, Status_OK);
  e_delete_db _ _ := None; e_Put _ _ _ _ := None; e_Delete _ _ _ := None; e_Write _ _ _ := None;
  e_Get _ _ _ := None; e_NewIterator _ _ := None; e_SeekToFirst _ _ := None; e_SeekToLast _ _ := None;
  e_Seek _ _ _ := None; e_Prev _ _ := None; e_Next _ _ := None; e_Valid _ _ := None; e_key _ _ := None;
  e_value _ _ := None; e_iter_status _ _ := None; e_delete_iter _ _ := None;
  e_read_file _ _ := inl [x01; x02; x03; x04]
|}.

Lemma read_file_slice_witness :
  let s := MkState (E:=file_engine) tt [] [] [] in
  (leveldbReadFileBuf [] [] (fun _ => 0) [JString []; JInt 1; JInt 2] s).2 = Ret (JArrayBuffer [x02; x03]).
Proof.
  intros s. destruct (read_file_slice [] [] (fun _ => 0) [] 1 2 s) as [_ H]; [lia..|]. apply H.
Defined.
